(* ===== verification/_CoqProject ===== *)
-Q . S2P
Prelude.v
Util.v
HashEntry.v
HopscotchMap.v
HopscotchSpec.v
HopscotchInit.v
HopscotchRefine.v
HopscotchShift.v
HopscotchLocks.v
FpTable.v
DirectoryMap.v
DirectoryGrow.v
DirectoryOps.v
Mbuff.v
MbuffSpec.v
MbuffHead.v
StoreFormat.v
Metadata.v
KvStore.v
KvIo.v
KvInv.v
KvGet.v
KvWrite.v
KvPut.v
KvDel.v
KvRefine.v
KvGc.v
KvGcSafe.v
Restart.v
RestartSafe.v
RestartTheorems.v
Recovery.v
RecoverySafe.v
RecoveryTheorems.v
StateM.v
Throttle.v
SalsaScm.v
SalsaGc.v
SalsaAlloc.v
SalsaInv.v
SalsaMoves.v
SalsaInval.v
SalsaSafe.v
SalsaRun.v
SalsaInit.v
SalsaTheorems.v
SalsaThreads.v
StoreSpace.v
CString.v
DevProps.v
DevPropsSpec.v
ScmConfig.v
DevTheorems.v
ScmStart.v
StoreStart.v
StoreStartSpec.v
StoreStartTheorems.v
McParse.v
McServer.v
McParseSpec.v
MbuffChunks.v
KvPage.v
KvBytes.v
McSpec.v
McGet.v
McTheorems.v
RemoteWire.v
RemoteKv.v
RemoteRoute.v
RemoteMbuff.v
RemoteSpec.v
RemoteSafe.v
RemoteTheorems.v
TrtSync.v
TrtSafe.v
TrtWake.v
TrtOne.v
TrtTheorems.v
RwLock.v
SpdkArray.v
