(* ===== verification/Prelude.v ===== *)
(** * A verification development for uDepot

    uDepot (src/src) is a key-value store for fast storage devices.  It keeps an
    in-memory hash index of records that it appends to a log on the device; the
    space of the log is managed by SALSA (src/salsa), a library that hands out
    ranges of grains, tracks which are still valid and collects garbage.  This
    library models both in Rocq and proves what each part promises the others.

    ** The parts and the files

    - Shared: Prelude (machine integers, errno values, tactics, bags of slots),
      Util (util/debug.h: alignment and bit counting), StateM (the state monad of
      the SALSA files and its total weakest precondition).
    - Index.  HashEntry: the packed 64-bit entry (lsa/hash-entry.hh).
      HopscotchMap: a hopscotch table (lsa/udepot-map.hh, .cc) with its scans,
      insertion, update, removal, purge and displacement; HopscotchSpec,
      HopscotchInit, HopscotchRefine and HopscotchShift prove it against a bag of
      (fingerprint, size, address) triples; HopscotchLocks models the striped
      locks as a step relation over threads.  FpTable states as a type class what
      the directory needs of a table and proves that the hopscotch table has it.
      DirectoryMap, DirectoryGrow, DirectoryOps: the directory of tables
      (lsa/udepot-directory-map.hh, .cc), its dispatch by fingerprint bits and
      the whole of [grow] with its failure exits.  RwLock: the read-write lock
      that keeps operations out while [grow] replaces the directory (rwlock.hh,
      brlock.hh, rwlock-pagefault.hh, .cc, rwlock-pagefault-trt.cc, thread_id.cc),
      as steps of any number of readers and the writer.
    - Buffers.  Mbuff: the buffer chains of mbuff.hh and mbuff.cc; MbuffSpec and
      MbuffHead prove them against byte strings, MbuffChunks the pieces they are
      sent in.
    - Store.  StoreFormat: the record format and the device (lsa/store.hh,
      udepot-lsa.hh).  KvStore: [put], [get], [exists] and [del] on Mbuffs
      (udepot-lsa.cc) with their lookups, record I/O (io/helpers.hh), retry loops
      and accounting, and the cache of Mbuffs (mbuff-cache.hh).  KvIo, KvInv, KvGet, KvWrite, KvPut, KvDel: their behaviour
      operation by operation; KvRefine: any sequence of calls against a finite
      map from keys to values.  KvPage: Mbuffs with buffers of a page and
      records that fit one; KvBytes: the same operations on byte arrays.  KvGc: the garbage-collection callback of the
      store, and KvGcSafe what it keeps.  Metadata: the device's and the
      segments' metadata (lsa/metadata.hh, .cc).  Restart: shutting the directory
      down and restoring it (lsa/udepot-directory-map.cc); RestartSafe and
      RestartTheorems: what that keeps.  Recovery: rebuilding the index from the
      log after a crash (lsa/udepot-directory-map.cc, [try_restore_entry] of
      udepot-lsa.cc); RecoverySafe and RecoveryTheorems: what comes back.
      SpdkArray: the device as blocks striped over several SPDK devices
      (io/trt-spdk-array.cc, and the commands of trt_util/spdk.hh), stated on its own;
      the store's files take any device.
    - Space.  Throttle: write throttling (scm-throttler.c).  SalsaScm: segments,
      intrusive queues, taking and returning segments (sto-segment.h,
      cds-queue.h, scm-seg-alloc.c, scm-seg-queues.c).  SalsaGc: the bins and
      waiting queues of the collectors (gc-common.c, gc-nbin.c).  SalsaAlloc: the
      grain allocator and the controller (allocator.c, SalsaCtlr.cc, Scm.cc).
      SalsaInv: the invariant; SalsaMoves, SalsaInval, SalsaSafe: every operation
      keeps it; SalsaRun: the calls in any order, each as one step;
      SalsaInit: start-up (scm-seg-queues.c); SalsaTheorems: what users rely on;
      SalsaThreads: calls that overlap, cut where another thread can come between;
      StoreSpace: the allocator gives the store the grains it asks for.
    - Start-up.  CString: C strings and numbers in them.  DevProps: the ranges of a
      device (scm-dev-properties.h, .c); DevPropsSpec, DevTheorems: against the bytes
      of the device, and the unit tests of the source.  ScmConfig: arguments and
      devices to SALSA's parameters (parse-storage-args.c, scm_usr_helpers.c,
      [scm_cfg_set_scm_props]).  ScmStart: the capacity manager, its collector, the
      registration of a controller and its allocators (sto-capacity-mgr.c, Scm.cc,
      SalsaCtlr.cc, allocator.c).  StoreStart: [init_local] of udepot-lsa.cc up to the
      map; StoreStartSpec, StoreStartTheorems: what a start leaves.

    - Memcache server (net/mc-helpers.hh, .cc, net/connection.cc,
      net/memcache.cc).  McParse: the text protocol's parser.  McServer: the
      connection, the handlers of the requests over [put] and [get] of KvStore,
      and the loop of a connection's thread.  McParseSpec, McSpec, McGet: parsing
      what a client prints, storing and getting; McTheorems: whole requests.

    - Remote service.  RemoteWire: the headers on the wire (kv-wire.hh).  RemoteKv:
      the server's and the client's side of a request, and the server's thread
      (net/serve-kv-request.cc, net/socket.cc, the socket functions of mbuff.hh).
      RemoteRoute: the tables of connections and the choice of a node for a key
      (net.cc, net.hh, socket-peer-conf.hh, .cc, [get_client] in udepot-lsa.cc).
      RemoteMbuff: a received vector is appended data; RemoteSpec, RemoteSafe: both sides of a call, and the client
      against any peer; RemoteTheorems: whole calls.

    - Task runtime (src/trt).  TrtSync: asynchronous objects, futures, the waitset
      and a task's wait, as steps on shared memory interleaved with notifications
      (trt/async_obj.hh, future.hh, .cc, waitset.hh, .cc, coro_awaitables.hh,
      scheduler.cc).  TrtSafe: the invariant of all interleavings; TrtWake: no
      future is lost; TrtOne: the runs of one scheduler; TrtTheorems.

    ** How the code is represented

    Unsigned integers are [Z] with explicit [wrap]; [os_atomic32_t] counters are
    kept in the signed 32-bit range.  The build is the one without assertions:
    an [assert] the code relies on is a hypothesis or part of an invariant.
    [BUG_ON], a null dereference, an index outside its table and a wait that
    nobody ends are [None].  Mbuffs carry the bytes of their buffers; the device
    is a function from offsets to bytes.  An intrusive list is the list of the
    numbers of its members, and removing a segment removes it from whatever list
    it is on, as unlinking does.  Loops that retry take fuel: KvStore's lookup
    rounds need no more than the slots of a bucket plus one, the throttle loop one
    round per relocated grain plus one, an allocation one retry after a new
    segment; the theorems say that this fuel is enough and that the call returns.
    What the code takes from outside the repository or leaves to the platform
    (system calls, I/O backends, CityHash64, the answers of memory allocation,
    what other threads do while a lock is dropped) is an argument: [kv_env] for
    the store, [grow_env] for the directory, [mc_env] for the servers and the
    client (how many bytes each recv and send takes, the clock), the configuration records of
    SalsaScm, SalsaGc and SalsaAlloc, and the controller's relocation function.
    Threads that meet in atomic variables or locks (HopscotchLocks, RwLock,
    SalsaThreads, TrtSync) are step relations with sequentially consistent memory,
    each step one access or one stretch under a lock; in SalsaThreads a step also
    takes the work on a segment that no other thread can reach, and what the
    collector does with one segment is one step.  In SalsaRun a step is a whole call.

    ** What is shown

    - The store refines a finite map (KvRefine), and so does its interface on byte
      arrays (KvBytes), the tables refine bags and stay
      complete for lookups under every operation and under growth (the Hopscotch
      and Directory files), Mbuffs refine byte strings (MbuffSpec).
    - SALSA never hands out grains that somebody holds, never grants more than its
      capacity and stages one segment at a time, however the calls of users,
      allocator threads and collectors overlap (SalsaThreads); between whole calls
      it accounts for every segment and grain, and none of its calls gets stuck
      (SalsaTheorems); its collectors'
      bins are in range and ordered for all parameters; refused requests report
      the documented codes and change nothing.
    - A start of the store ends, and when it succeeds it leaves SALSA in a state that
      those theorems begin with, its segments in front of the metadata on the device
      (StoreStartTheorems); the ranges of a device are its bytes, the map to several
      devices a bijection, and printed ranges are parsed back (DevTheorems).
    - The lock stripes exclude overlapping operations and do not deadlock
      (HopscotchLocks); operations and growth exclude each other, no reader sleeps
      for ever, and nothing deadlocks as long as an operation leaves on the thread
      it came on (RwLock); throttling always ends (Throttle).
    - Garbage collection of a segment that no tombstone of the map points into keeps
      every key and value and, when it reports success, empties the segment
      (KvGcSafe); metadata survives any
      sequence of writes to it (Metadata); a clean shutdown and a restart keep the
      directory, its counters, the statistics and the records (RestartTheorems);
      recovery after a crash maps the last version written of every key as long as
      the collector moved none of them (RecoveryTheorems).
    - The memcache server stores what a storage request carries and answers a get
      with it, for records of at most a page and whatever the pieces the connection
      delivers (McTheorems).
    - A put or get through a socket, of a record of at most a page, is one on the map
      of the server; a client
      believes only answers to its own requests, whatever the peer does; which keys
      leave a node, and what the server refuses (RemoteTheorems).
    - An array of SPDK devices is one device for I/O of whole sectors on a single
      buffer, or reports an error that SPDK reported; a vectored write reaches only
      the block it starts in, and never ends when its last buffer is empty (SpdkArray).
    - No wake-up of a waiting task is lost and none is doubled in any interleaving
      with notifiers, and on one scheduler every wait on a waitset with a future in
      it ends with a future that is ready (TrtTheorems).
    - Where the code falls short, the theorem says how: [purge_hides],
      [gc_hole_strands], [partial_accepted], [recovery_old_value],
      [recovery_deleted_back], [recovery_empty_segment], [mc_get_lost],
      [mc_counter_rejected], [waitset_hazards],
      [thin_prov_reclaimed_twice], [salsa_3bin_skips_threshold],
      [relocation_failure_crashes], [dev_props_hazards], [search_misses],
      [node_routes], [server_refuses], [put_after_put_refused],
      [array_vector_write].

    ** Not modelled

    The set-up of sockets, the memcache client and its accepting of connections,
    the same services over the task runtime's sockets, the JNI and Python bindings,
    the I/O backends for one device (posix, AIO, SPDK, uring), the opening of an array and its mmap, and the task runtime's pollers are I/O
    or wrap code outside the repository; of the runtime the coroutines and run queues and the
    waitsets for one core (used by tests only) are left out.  The XNP_PATENT, greedy and circular-buffer
    collectors and the striping of I/O over the devices of a RAID are not modelled.
    The execution of read sections under a signal handler (rd_execute__) has no caller.  Benchmarks and tests are not part of the program. *)
From Stdlib Require Import ZArith Lia.
From stdpp Require Import base tactics list numbers.

Open Scope Z_scope.

(** ** Machine integers

    A [wN] value of the C++ sources is a [Z] in [0, 2^N); arithmetic that can
    leave that interval is wrapped explicitly with [wrap]. *)
Definition wrap (bits x : Z) : Z := x mod 2 ^ bits.

Definition in_width (bits x : Z) : Prop := 0 <= x < 2 ^ bits.

(** Signed integers of 32 and 64 bits. *)
Definition s32 (x : Z) : Z := wrap 32 (x + 2 ^ 31) - 2 ^ 31.
Definition s64 (x : Z) : Z := wrap 64 (x + 2 ^ 63) - 2 ^ 63.

(** The notations of the development live in a scope of their own. *)
Declare Scope udepot_scope.
Delimit Scope udepot_scope with ud.
Notation "'u64' x" := (wrap 64 x) (at level 10, x at level 9) : udepot_scope.
Notation "'u32' x" := (wrap 32 x) (at level 10, x at level 9) : udepot_scope.
Notation "'u16' x" := (wrap 16 x) (at level 10, x at level 9) : udepot_scope.
Open Scope udepot_scope.

(** The errno values the sources return (asm-generic/errno.h). *)
Definition ENOENT : Z := 2.
Definition EIO : Z := 5.
Definition EAGAIN : Z := 11.
Definition ENOMEM : Z := 12.
Definition EFAULT : Z := 14.
Definition EEXIST : Z := 17.
Definition EINVAL : Z := 22.
Definition ENOSPC : Z := 28.
Definition ENOSYS : Z := 38.
Definition ENODATA : Z := 61.
Definition EALREADY : Z := 114.

(** ** Tactics *)

Create HintDb udepot.

(** Split the boolean tests of a goal or hypothesis into their propositional
    meaning; the last step of nearly every bounds proof. *)
Ltac bool_cases :=
  repeat match goal with
  | H : _ && _ = true |- _ => apply andb_true_iff in H; destruct H
  | H : _ || _ = false |- _ => apply orb_false_iff in H; destruct H
  | H : negb _ = true |- _ => apply negb_true_iff in H
  | H : negb _ = false |- _ => apply negb_false_iff in H
  | H : (_ =? _) = true |- _ => apply Z.eqb_eq in H
  | H : (_ =? _) = false |- _ => apply Z.eqb_neq in H
  | H : (_ <? _) = true |- _ => apply Z.ltb_lt in H
  | H : (_ <? _) = false |- _ => apply Z.ltb_ge in H
  | H : (_ <=? _) = true |- _ => apply Z.leb_le in H
  | H : (_ <=? _) = false |- _ => apply Z.leb_gt in H
  end.

(** Destruct the innermost [if] or [match] scrutinee of the goal, keeping the
    equation. *)
Ltac case_if :=
  match goal with
  | |- context [if ?b then _ else _] =>
      lazymatch b with
      | context [if _ then _ else _] => fail
      | _ => destruct b eqn:?
      end
  end.

(** ** Integers *)

Lemma wrap_range (bits x : Z) : 0 <= bits -> in_width bits (wrap bits x).
Proof. intros Hb. unfold in_width, wrap. apply Z.mod_pos_bound. lia. Qed.

Lemma wrap_small (bits x : Z) : in_width bits x -> wrap bits x = x.
Proof. apply Z.mod_small. Qed.

Lemma s32_small (x : Z) : - 2 ^ 31 <= x < 2 ^ 31 -> s32 x = x.
Proof. intros Hx. unfold s32. rewrite wrap_small; unfold in_width; lia. Qed.

Lemma s64_small (x : Z) : - 2 ^ 63 <= x < 2 ^ 63 -> s64 x = x.
Proof. intros Hx. unfold s64. rewrite wrap_small; unfold in_width; lia. Qed.

Lemma wrap_wrap (bits x : Z) : 0 <= bits -> wrap bits (wrap bits x) = wrap bits x.
Proof. intros Hb. by apply wrap_small, wrap_range. Qed.

Lemma in_width_weaken (a b x : Z) : a <= b -> in_width a x -> in_width b x.
Proof.
  intros Hab [H0 H1]. split; [done|].
  eapply Z.lt_le_trans; [done|]. apply Z.pow_le_mono_r; lia.
Qed.

Lemma land_ones_wrap (bits x : Z) :
  0 <= bits -> Z.land x (Z.ones bits) = wrap bits x.
Proof. apply Z.land_ones. Qed.

(** A mask of the form [2^k - 1], however it is spelt, is [wrap]. *)
Lemma land_mask_wrap (bits x : Z) :
  0 <= bits -> Z.land x (2 ^ bits - 1) = wrap bits x.
Proof.
  intros Hb. rewrite <- land_ones_wrap by done.
  by rewrite Z.ones_equiv, Z.sub_1_r.
Qed.

(** Wrapping to fewer bits absorbs an outer or inner wrap to more bits. *)
Lemma wrap_narrow (a b x : Z) : 0 <= a <= b -> wrap a (wrap b x) = wrap a x.
Proof.
  intros Hab. unfold wrap. apply Z.mod_mod_divide.
  exists (2 ^ (b - a)). rewrite <- Z.pow_add_r by lia. f_equal; lia.
Qed.

Lemma pow2_pos (k : Z) : 0 <= k -> 0 < 2 ^ k.
Proof. lia. Qed.
#[export] Hint Resolve pow2_pos wrap_range : udepot.

(** ** Loops over an index range

    [for_first P p n] is the shape of most scans of the sources:
    [for (i = p; i < p + n; ++i) if (P(i)) return i;]. *)
Fixpoint for_first (P : nat -> bool) (p n : nat) : option nat :=
  match n with
  | O => None
  | S n' => if P p then Some p else for_first P (S p) n'
  end.

Lemma for_first_Some (P : nat -> bool) (p n q : nat) :
  for_first P p n = Some q <->
  (p <= q < p + n)%nat /\ P q = true /\ forall r, (p <= r < q)%nat -> P r = false.
Proof.
  revert p. induction n as [|n IH]; intros p; simpl.
  { split; [done|]. intros [? _]. lia. }
  destruct (P p) eqn:HP.
  - split; [intros [= <-]; repeat split; auto with lia|].
    intros (Hr & HPq & Hall). f_equal. destruct (decide (p = q)) as [|Hne]; [done|].
    rewrite (Hall p) in HP by lia. done.
  - rewrite IH. split; intros (Hr & HPq & Hall); repeat split; auto; try lia.
    + intros r ?. destruct (decide (r = p)) as [->|]; [done|]. apply Hall. lia.
    + destruct (decide (p = q)) as [->|]; [congruence|lia].
    + intros r ?. apply Hall. lia.
Qed.

Lemma for_first_None (P : nat -> bool) (p n : nat) :
  for_first P p n = None <-> forall r, (p <= r < p + n)%nat -> P r = false.
Proof.
  revert p. induction n as [|n IH]; intros p; simpl; [by split; [intros _ r ?; lia|]|].
  destruct (P p) eqn:HP.
  - split; [done|]. intros Hall. rewrite (Hall p) in HP by lia. done.
  - rewrite IH. split; intros Hall r ?.
    + destruct (decide (r = p)) as [->|]; [done|]. apply Hall. lia.
    + apply Hall. lia.
Qed.

(** ** Bags

    The abstract content of a table indexed by positions [0 .. n) is the list
    of what its positions hold, up to permutation. *)
Definition bag {A} (f : nat -> option A) (n : nat) : list A := omap f (seq 0 n).

Lemma bag_ext {A} (f g : nat -> option A) (n : nat) :
  (forall i, (i < n)%nat -> f i = g i) -> bag f n = bag g n.
Proof.
  intros Hfg. apply list_omap_ext, Forall_Forall2_diag, Forall_seq.
  intros i ?. apply Hfg. lia.
Qed.

Lemma omap_perm {A B} (f : A -> option B) (l1 l2 : list A) :
  l1 ≡ₚ l2 -> omap f l1 ≡ₚ omap f l2.
Proof.
  induction 1 as [|x l1 l2 _ IH|x y l|l1 l2 l3 _ IH1 _ IH2]; simpl; [done|..].
  - destruct (f x); by rewrite IH.
  - destruct (f x), (f y); try done. apply Permutation_swap.
  - by rewrite IH1.
Qed.

Lemma seq_split_perm (i n : nat) :
  (i < n)%nat -> seq 0 n ≡ₚ i :: seq 0 i ++ seq (S i) (n - S i).
Proof.
  intros Hi. rewrite (Permutation_middle (seq 0 i)).
  replace n with (i + S (n - S i))%nat at 1 by lia.
  by rewrite seq_app.
Qed.

(** Position [i] of a bag, put first. *)
Lemma bag_split {A} (f : nat -> option A) (i n : nat) :
  (i < n)%nat ->
  bag f n ≡ₚ option_list (f i) ++ omap f (seq 0 i ++ seq (S i) (n - S i)).
Proof.
  intros Hi. unfold bag. rewrite (omap_perm f _ _ (seq_split_perm i n Hi)).
  simpl. by destruct (f i).
Qed.

Lemma bag_update {A} (f g : nat -> option A) (i n : nat) :
  (i < n)%nat -> (forall j, j <> i -> f j = g j) ->
  option_list (g i) ++ bag f n ≡ₚ option_list (f i) ++ bag g n.
Proof.
  intros Hi Hfg. rewrite (bag_split f i), (bag_split g i) by done.
  rewrite (list_omap_ext f g (seq 0 i ++ seq (S i) (n - S i))
                         (seq 0 i ++ seq (S i) (n - S i))).
  2:{ apply Forall_Forall2_diag, Forall_app.
      split; apply Forall_seq; intros j ?; apply Hfg; lia. }
  rewrite !app_assoc. apply Permutation_app; [apply Permutation_app_comm|done].
Qed.

Lemma bag_insert {A} (f g : nat -> option A) (i n : nat) (x : A) :
  (i < n)%nat -> (forall j, j <> i -> f j = g j) -> f i = None -> g i = Some x ->
  bag g n ≡ₚ x :: bag f n.
Proof.
  intros Hi Hfg Hf Hg. pose proof (bag_update f g i n Hi Hfg) as H.
  rewrite Hf, Hg in H. simpl in H. by rewrite H.
Qed.

Lemma bag_delete {A} (f g : nat -> option A) (i n : nat) (x : A) :
  (i < n)%nat -> (forall j, j <> i -> f j = g j) -> f i = Some x -> g i = None ->
  bag f n ≡ₚ x :: bag g n.
Proof. intros Hi Hfg Hf Hg. apply (bag_insert g f i); auto. intros. by rewrite Hfg. Qed.

(** Moving the content of position [i] to the empty position [j]. *)
Lemma bag_move {A} (f g : nat -> option A) (i j n : nat) :
  (i < n)%nat -> (j < n)%nat -> i <> j ->
  (forall k, k <> i -> k <> j -> f k = g k) ->
  f j = None -> g i = None -> g j = f i ->
  bag f n ≡ₚ bag g n.
Proof.
  intros Hi Hj Hij Hfg Hfj Hgi Hgj.
  set (h := fun k => if decide (k = i) then None else f k).
  assert (bag f n ≡ₚ option_list (f i) ++ bag h n) as ->.
  { pose proof (bag_update f h i n Hi) as H. unfold h in H at 1 2.
    rewrite decide_True in H by done. simpl in H. apply H.
    intros k ?. unfold h. by rewrite decide_False. }
  assert (bag g n ≡ₚ option_list (g j) ++ bag h n) as ->; [|by rewrite Hgj].
  pose proof (bag_update g h j n Hj) as H. unfold h in H at 1 2.
  rewrite decide_False, Hfj in H by done. simpl in H. apply H.
  intros k ?. unfold h. destruct (decide (k = i)) as [->|]; [done|].
  symmetry. by apply Hfg.
Qed.

Lemma elem_of_bag {A} (f : nat -> option A) (n : nat) (x : A) :
  x ∈ bag f n <-> exists i, (i < n)%nat /\ f i = Some x.
Proof.
  unfold bag. rewrite list_elem_of_omap. split.
  - intros (i & Hi & Hf). apply elem_of_seq in Hi. exists i. split; [lia|done].
  - intros (i & Hi & Hf). exists i. split; [apply elem_of_seq; lia|done].
Qed.

Lemma Exists_lookup {A} (P : A -> Prop) (l : list A) :
  Exists P l <-> exists i x, l !! i = Some x /\ P x.
Proof.
  split.
  - induction 1 as [x l Hx|x l _ (i & y & Hi & Hy)]; [by exists O, x|by exists (S i), y].
  - intros (i & x & Hi & Hx). revert i Hi. induction l as [|y l IH]; intros i Hi; [done|].
    destruct i as [|i]; simplify_eq/=; [by left|right]. by apply (IH i).
Qed.

Lemma omap_seq_none {A} (f : nat -> option A) (a n : nat) :
  (forall i, (a <= i < a + n)%nat -> f i = None) -> omap f (seq a n) = [].
Proof.
  revert a. induction n as [|n IH]; intros a Hf; simpl; [done|].
  rewrite Hf by lia. apply IH. intros i ?. apply Hf. lia.
Qed.

(** ** Filtering a concatenation *)

Lemma filter_none {A} (P : A -> Prop) `{forall x, Decision (P x)} (l : list A) :
  (forall x, x ∈ l -> ~ P x) -> filter P l = [].
Proof.
  induction l as [|x l IH]; intros Hno; [done|]. rewrite filter_cons_False.
  - apply IH. intros y Hy. apply Hno, elem_of_cons. by right.
  - apply Hno, elem_of_cons. by left.
Qed.

(** Only list [i] holds elements of [P]. *)
Lemma filter_concat_one {A} (P : A -> Prop) `{forall x, Decision (P x)} (ls : list (list A))
    (i : nat) (l : list A) :
  ls !! i = Some l ->
  (forall j l' x, ls !! j = Some l' -> j <> i -> x ∈ l' -> ~ P x) ->
  filter P (concat ls) = filter P l.
Proof.
  revert i. induction ls as [|l0 ls IH]; intros i Hi Hno; [done|]. cbn [concat].
  rewrite list.filter_app. destruct i as [|i]; simplify_eq/=.
  - rewrite (filter_none P (concat ls)); [apply app_nil_r|].
    intros x Hx. clear IH. induction ls as [|l1 ls IH]; [by apply elem_of_nil in Hx|].
    cbn [concat] in Hx. apply elem_of_app in Hx as [Hx|Hx]; [by apply (Hno 1%nat l1 x)|].
    apply IH; [|done]. intros [|j] l' y Hj Hne Hy; [done|]. by apply (Hno (S (S j)) l' y).
  - rewrite (filter_none P l0); [|intros x; by apply (Hno O)].
    apply (IH i Hi). intros j l' x Hj Hne. apply (Hno (S j) l' x Hj). lia.
Qed.
