(* ===== verification/Util.v ===== *)
(** * Integer helpers of src/include/util/debug.h

    The u64 rounding helpers and the NUM_BITS macro tower that size every
    on-disk structure and every hash-table field, with the arithmetic facts the
    other components rely on. *)
From Stdlib Require Import ZArith Lia.
From stdpp Require Import base tactics numbers.
From S2P Require Import Prelude.

Open Scope Z_scope.

Definition is_power_of_two (x : Z) : bool :=
  (0 <? x) && (0 =? Z.land x (x - 1)).

Definition udiv_round_up (dividend divisor : Z) : Z :=
  if negb (0 =? divisor) then u64 (dividend + divisor - 1) / divisor else 1.

Definition uceil_up (val divisor : Z) : Z :=
  u64 (divisor * udiv_round_up val divisor).

Definition align_up (val alignment : Z) : Z := uceil_up val alignment.

Definition align_down (val alignment : Z) : Z :=
  if negb (0 =? alignment) then u64 (val / alignment * alignment) else 0.

(** [while (val) { val >>= 1; bit_nr++; }]: a u64 has at most 64 bits, which
    bounds the iterations. *)
Fixpoint count_bits (fuel : nat) (val bit_nr : Z) : Z :=
  match fuel with
  | O => bit_nr
  | S fuel' => if val =? 0 then bit_nr
               else count_bits fuel' (Z.shiftr val 1) (bit_nr + 1)
  end.

Definition round_down_pow2 (val : Z) : Z :=
  let bit_nr := count_bits 64 val 0 in
  if 0 <? bit_nr then u64 (Z.shiftl 1 (bit_nr - 1)) else 0.

Definition NUM_BITS2 (x : Z) : Z := if negb (Z.land x 2 =? 0) then 1 else 0.
Definition NUM_BITS4 (x : Z) : Z :=
  if negb (Z.land x 0xC =? 0) then 2 + NUM_BITS2 (Z.shiftr x 2) else NUM_BITS2 x.
Definition NUM_BITS8 (x : Z) : Z :=
  if negb (Z.land x 0xF0 =? 0) then 4 + NUM_BITS4 (Z.shiftr x 4) else NUM_BITS4 x.
Definition NUM_BITS16 (x : Z) : Z :=
  if negb (Z.land x 0xFF00 =? 0) then 8 + NUM_BITS8 (Z.shiftr x 8) else NUM_BITS8 x.
Definition NUM_BITS32 (x : Z) : Z :=
  if negb (Z.land x 0xFFFF0000 =? 0)
  then 16 + NUM_BITS16 (Z.shiftr x 16) else NUM_BITS16 x.
Definition NUM_BITS64 (x : Z) : Z :=
  if negb (Z.land x 0xFFFFFFFF00000000 =? 0)
  then 32 + NUM_BITS32 (Z.shiftr x 32) else NUM_BITS32 x.
Definition NUM_BITS (x : Z) : Z := if x =? 0 then 0 else NUM_BITS64 x + 1.

(** ** The macro tower computes the binary logarithm *)

(** The test [x & (ones << k)] of one level of the tower decides [2^k <= x]. *)
Lemma land_high_half (k x : Z) :
  0 <= k -> 0 <= x < 2 ^ (k + k) ->
  Z.land x (Z.shiftl (Z.ones k) k) = Z.shiftl (Z.shiftr x k) k.
Proof.
  intros Hk Hx. apply Z.bits_inj'. intros n Hn.
  rewrite Z.land_spec, !Z.shiftl_spec by lia.
  destruct (Z.ltb_spec n k) as [Hlt|Hge].
  { by rewrite (Z.testbit_neg_r (Z.ones k)), (Z.testbit_neg_r (Z.shiftr x k)),
      andb_false_r by lia. }
  rewrite Z.shiftr_spec by lia. replace (n - k + k) with n by lia.
  destruct (Z.ltb_spec (n - k) k) as [Hlt'|Hge'].
  { by rewrite Z.ones_spec_low, andb_true_r by lia. }
  rewrite Z.ones_spec_high, andb_false_r by lia.
  symmetry. rewrite <- (Z.mod_small x (2 ^ (k + k))) by done.
  apply Z.mod_pow2_bits_high. lia.
Qed.

Lemma log2_shiftr_high (k x : Z) :
  0 <= k -> 2 ^ k <= x -> Z.log2 x = k + Z.log2 (Z.shiftr x k).
Proof.
  intros Hk Hx. rewrite Z.log2_shiftr by lia.
  assert (k <= Z.log2 x) by (apply Z.log2_le_pow2; lia). lia.
Qed.

Lemma num_bits_level (k x : Z) (f : Z -> Z) :
  0 <= k -> 0 <= x < 2 ^ (k + k) ->
  (forall y, 0 <= y < 2 ^ k -> f y = Z.log2 y) ->
  (if negb (Z.land x (Z.shiftl (Z.ones k) k) =? 0)
   then k + f (Z.shiftr x k) else f x) = Z.log2 x.
Proof.
  intros Hk Hx Hf. rewrite land_high_half by done.
  assert (Hs : Z.shiftl (Z.shiftr x k) k = 2 ^ k * (x / 2 ^ k)).
  { rewrite Z.shiftl_mul_pow2, Z.shiftr_div_pow2 by done. lia. }
  rewrite Z.pow_add_r in Hx by done.
  case_if; bool_cases.
  - assert (2 ^ k <= x).
    { apply Z.nlt_ge. intros ?. rewrite Z.div_small in Hs by lia. lia. }
    rewrite Hf; [symmetry; by apply log2_shiftr_high|].
    rewrite Z.shiftr_div_pow2 by done. split; [apply Z.div_pos; lia|].
    apply Z.div_lt_upper_bound; lia.
  - apply Hf. split; [lia|]. apply Z.nle_gt. intros ?.
    assert (1 <= x / 2 ^ k) by (apply Z.div_le_lower_bound; lia). nia.
Qed.

Lemma NUM_BITS2_log2 (x : Z) : 0 <= x < 2 ^ 2 -> NUM_BITS2 x = Z.log2 x.
Proof. intros Hx. assert (x = 0 \/ x = 1 \/ x = 2 \/ x = 3) as [->|[->|[->| ->]]] by lia; done. Qed.
Lemma NUM_BITS4_log2 (x : Z) : 0 <= x < 2 ^ 4 -> NUM_BITS4 x = Z.log2 x.
Proof. intros. apply (num_bits_level 2 x NUM_BITS2); auto using NUM_BITS2_log2; lia. Qed.
Lemma NUM_BITS8_log2 (x : Z) : 0 <= x < 2 ^ 8 -> NUM_BITS8 x = Z.log2 x.
Proof. intros. apply (num_bits_level 4 x NUM_BITS4); auto using NUM_BITS4_log2; lia. Qed.
Lemma NUM_BITS16_log2 (x : Z) : 0 <= x < 2 ^ 16 -> NUM_BITS16 x = Z.log2 x.
Proof. intros. apply (num_bits_level 8 x NUM_BITS8); auto using NUM_BITS8_log2; lia. Qed.
Lemma NUM_BITS32_log2 (x : Z) : 0 <= x < 2 ^ 32 -> NUM_BITS32 x = Z.log2 x.
Proof. intros. apply (num_bits_level 16 x NUM_BITS16); auto using NUM_BITS16_log2; lia. Qed.
Lemma NUM_BITS64_log2 (x : Z) : 0 <= x < 2 ^ 64 -> NUM_BITS64 x = Z.log2 x.
Proof. intros. apply (num_bits_level 32 x NUM_BITS32); auto using NUM_BITS32_log2; lia. Qed.

Lemma NUM_BITS_log2 (x : Z) : 0 < x < 2 ^ 64 -> NUM_BITS x = Z.log2 x + 1.
Proof.
  intros Hx. unfold NUM_BITS. case_if; bool_cases; [lia|].
  rewrite NUM_BITS64_log2; lia.
Qed.

(** NUM_BITS is the least width that holds its argument. *)
Lemma NUM_BITS_least (x k : Z) :
  0 <= x < 2 ^ 64 -> 0 <= k -> (x < 2 ^ k <-> NUM_BITS x <= k).
Proof.
  intros Hx Hk. destruct (Z.eq_dec x 0) as [->|Hne].
  { change (NUM_BITS 0) with 0. lia. }
  rewrite NUM_BITS_log2 by lia.
  rewrite Z.log2_lt_pow2 by lia. lia.
Qed.

(** ** Rounding *)

Lemma count_bits_spec (fuel : nat) (val n : Z) :
  0 <= val < 2 ^ Z.of_nat fuel ->
  count_bits fuel val n = n + (if val =? 0 then 0 else Z.log2 val + 1).
Proof.
  revert val n. induction fuel as [|fuel IH]; intros val n Hv.
  { replace val with 0 by lia. simpl. lia. }
  simpl. destruct (Z.eqb_spec val 0) as [->|Hne]; [lia|].
  rewrite Nat2Z.inj_succ, Z.pow_succ_r in Hv by lia.
  rewrite IH.
  2:{ rewrite Z.shiftr_div_pow2 by lia. change (2 ^ 1) with 2.
      split; [apply Z.div_pos; lia|]. apply Z.div_lt_upper_bound; lia. }
  destruct (Z.eqb_spec (Z.shiftr val 1) 0) as [H0|H0].
  - assert (val = 1) as ->.
    { rewrite Z.shiftr_div_pow2 in H0 by lia. change (2 ^ 1) with 2 in H0.
      apply Z.div_small_iff in H0; lia. }
    simpl. lia.
  - rewrite (log2_shiftr_high 1 val); [lia..|].
    assert (val <> 1) by (intros ->; done). lia.
Qed.

Lemma round_down_pow2_spec (x : Z) :
  0 < x < 2 ^ 64 -> round_down_pow2 x = 2 ^ Z.log2 x.
Proof.
  intros Hx. unfold round_down_pow2. rewrite count_bits_spec by lia.
  pose proof (Z.log2_nonneg x).
  rewrite (proj2 (Z.eqb_neq x 0)) by lia. case_if; bool_cases; [|lia].
  replace (0 + (Z.log2 x + 1) - 1) with (Z.log2 x) by lia.
  rewrite Z.shiftl_1_l. apply wrap_small. split; [lia|].
  pose proof (Z.log2_spec x). lia.
Qed.

Lemma udiv_round_up_spec (x d : Z) :
  0 <= x -> 0 < d -> x + d <= 2 ^ 64 ->
  let q := udiv_round_up x d in
  0 <= q /\ (q - 1) * d < x <= q * d \/ (x = 0 /\ q = 0).
Proof.
  intros Hx Hd Hov q. subst q. unfold udiv_round_up.
  rewrite (proj2 (Z.eqb_neq 0 d)) by lia. simpl.
  rewrite wrap_small by (split; lia).
  pose proof (Z.div_mod (x + d - 1) d). pose proof (Z.mod_pos_bound (x + d - 1) d).
  assert (0 <= (x + d - 1) / d) by (apply Z.div_pos; lia).
  destruct (Z.eq_dec x 0) as [->|]; [right|left]; nia.
Qed.

(** Alignment helpers: the nearest multiple from above and from below. *)
Lemma align_up_spec (x a : Z) :
  0 <= x -> 0 < a -> x + a <= 2 ^ 64 ->
  (a | align_up x a) /\ x <= align_up x a < x + a.
Proof.
  intros Hx Ha Hov. unfold align_up, uceil_up.
  pose proof (udiv_round_up_spec x a Hx Ha Hov) as Hq. simpl in Hq.
  rewrite wrap_small by (unfold in_width; nia).
  split; [apply Z.divide_factor_l|nia].
Qed.

Lemma align_down_spec (x a : Z) :
  0 <= x < 2 ^ 64 -> 0 < a ->
  (a | align_down x a) /\ align_down x a <= x < align_down x a + a /\ 0 <= align_down x a.
Proof.
  intros Hx Ha. unfold align_down.
  rewrite (proj2 (Z.eqb_neq 0 a)) by lia. simpl.
  pose proof (Z.div_mod x a). pose proof (Z.mod_pos_bound x a).
  assert (0 <= x / a) by (apply Z.div_pos; lia).
  rewrite wrap_small by (unfold in_width; nia).
  split; [apply Z.divide_factor_r|nia].
Qed.

Lemma is_power_of_two_pow (k : Z) : 0 <= k -> is_power_of_two (2 ^ k) = true.
Proof.
  intros Hk. unfold is_power_of_two.
  rewrite land_mask_wrap by done. unfold wrap. rewrite Z.mod_same by lia.
  rewrite (proj2 (Z.ltb_lt 0 (2 ^ k))) by lia. done.
Qed.
