(* ===== verification/HashEntry.v ===== *)
(** * The packed hash-table entry (src/include/uDepot/lsa/hash-entry.hh)

    A [HashEntry] is one 64-bit word split into four bit fields.  The record
    below has the fields; [to_word] and [of_word] are the layout GCC gives the
    packed struct on a little-endian machine (first field in the low bits),
    which is what the directory table holds on the device. *)
From Stdlib Require Import ZArith Lia.
From stdpp Require Import base tactics numbers.
From S2P Require Import Prelude Util.

Open Scope Z_scope.

Definition HOP_SCOTCH_BUCKET_SIZE : Z := 32.
Definition KEYTAG_BITS : Z := 8.
Definition KEYTAG_BITMASK : Z := Z.shiftl 1 KEYTAG_BITS - 1.
Definition KV_SIZE_BITS : Z := 11.
Definition HOP_OFF_BITS : Z := NUM_BITS HOP_SCOTCH_BUCKET_SIZE.
Definition PBA_BITS : Z := 64 - KEYTAG_BITS - KV_SIZE_BITS - HOP_OFF_BITS.
Definition UNUSED_PBA_ENTRY : Z := Z.shiftl 1 PBA_BITS - 1.
Definition DELETED_KV_SIZE_ENTRY : Z := 0.
Definition MAX_KV_SIZE : Z := Z.shiftl 1 KV_SIZE_BITS - 1.

Record HashEntry := mkHashEntry {
  bucket_offset : Z;
  key_tag : Z;
  kv_size : Z;
  pba : Z;
}.

#[export] Instance HashEntry_eq_dec : EqDecision HashEntry.
Proof. solve_decision. Defined.

(** Storing into a bit field keeps the low bits of the value. *)
Definition set_bucket_offset (v : Z) (e : HashEntry) : HashEntry :=
  mkHashEntry (wrap HOP_OFF_BITS v) (key_tag e) (kv_size e) (pba e).
Definition set_key_tag (v : Z) (e : HashEntry) : HashEntry :=
  mkHashEntry (bucket_offset e) (wrap KEYTAG_BITS v) (kv_size e) (pba e).
Definition set_kv_size (v : Z) (e : HashEntry) : HashEntry :=
  mkHashEntry (bucket_offset e) (key_tag e) (wrap KV_SIZE_BITS v) (pba e).
Definition set_pba (v : Z) (e : HashEntry) : HashEntry :=
  mkHashEntry (bucket_offset e) (key_tag e) (kv_size e) (wrap PBA_BITS v).

(** The two constructors. *)
Definition HashEntry_new (off tag : Z) : HashEntry :=
  mkHashEntry (wrap HOP_OFF_BITS off) (wrap KEYTAG_BITS tag) 1 UNUSED_PBA_ENTRY.
Definition HashEntry_default : HashEntry := mkHashEntry 0 0 1 UNUSED_PBA_ENTRY.

Definition deleted (e : HashEntry) : bool := kv_size e =? DELETED_KV_SIZE_ENTRY.
Definition set_deleted (e : HashEntry) : HashEntry := set_kv_size DELETED_KV_SIZE_ENTRY e.
Definition reset_deleted (e : HashEntry) : HashEntry := set_kv_size MAX_KV_SIZE e.
Definition used (e : HashEntry) : bool := negb (pba e =? UNUSED_PBA_ENTRY).
Definition reset_used (e : HashEntry) : HashEntry := set_pba UNUSED_PBA_ENTRY e.
Definition purge (e : HashEntry) : HashEntry :=
  reset_used (reset_deleted (set_key_tag 0 (set_bucket_offset 0 e))).

(** A live entry maps a key; a used entry that is deleted is a tombstone. *)
Definition live (e : HashEntry) : bool := used e && negb (deleted e).

(** The fields stay within their widths. *)
Record entry_wf (e : HashEntry) : Prop := {
  wf_bucket_offset : in_width HOP_OFF_BITS (bucket_offset e);
  wf_key_tag : in_width KEYTAG_BITS (key_tag e);
  wf_kv_size : in_width KV_SIZE_BITS (kv_size e);
  wf_pba : in_width PBA_BITS (pba e);
}.

(** The word on the device and in the mmapped table. *)
Definition to_word (e : HashEntry) : Z :=
  Z.lor (bucket_offset e)
    (Z.lor (Z.shiftl (key_tag e) HOP_OFF_BITS)
       (Z.lor (Z.shiftl (kv_size e) (HOP_OFF_BITS + KEYTAG_BITS))
              (Z.shiftl (pba e) (HOP_OFF_BITS + KEYTAG_BITS + KV_SIZE_BITS)))).

Definition of_word (w : Z) : HashEntry :=
  mkHashEntry (wrap HOP_OFF_BITS w)
    (wrap KEYTAG_BITS (Z.shiftr w HOP_OFF_BITS))
    (wrap KV_SIZE_BITS (Z.shiftr w (HOP_OFF_BITS + KEYTAG_BITS)))
    (wrap PBA_BITS (Z.shiftr w (HOP_OFF_BITS + KEYTAG_BITS + KV_SIZE_BITS))).

(** ** Facts *)

Lemma set_bucket_offset_wf (v : Z) (e : HashEntry) :
  entry_wf e -> entry_wf (set_bucket_offset v e).
Proof. intros []. constructor; simpl; auto using wrap_range with lia. by apply wrap_range. Qed.
Lemma set_key_tag_wf (v : Z) (e : HashEntry) :
  entry_wf e -> entry_wf (set_key_tag v e).
Proof. intros []. constructor; simpl; auto. by apply wrap_range. Qed.
Lemma set_kv_size_wf (v : Z) (e : HashEntry) :
  entry_wf e -> entry_wf (set_kv_size v e).
Proof. intros []. constructor; simpl; auto. by apply wrap_range. Qed.
Lemma set_pba_wf (v : Z) (e : HashEntry) :
  entry_wf e -> entry_wf (set_pba v e).
Proof. intros []. constructor; simpl; auto. by apply wrap_range. Qed.
#[export] Hint Resolve set_bucket_offset_wf set_key_tag_wf set_kv_size_wf set_pba_wf : udepot.

Lemma purge_wf (e : HashEntry) : entry_wf e -> entry_wf (purge e).
Proof. unfold purge, reset_used, reset_deleted. auto with udepot. Qed.
Lemma set_deleted_wf (e : HashEntry) : entry_wf e -> entry_wf (set_deleted e).
Proof. unfold set_deleted. auto with udepot. Qed.
#[export] Hint Resolve purge_wf set_deleted_wf : udepot.

(** Extracting a field below or above a shifted one. *)
Lemma wrap_lor_shiftl (k x y : Z) :
  0 <= k -> in_width k x -> wrap k (Z.lor x (Z.shiftl y k)) = x.
Proof.
  intros Hk Hx. rewrite <- land_ones_wrap by done.
  rewrite Z.land_lor_distr_l, !Z.land_ones by done.
  rewrite Z.shiftl_mul_pow2, Z.mod_mul by lia.
  rewrite Z.lor_0_r. by apply wrap_small.
Qed.

Lemma shiftr_lor_shiftl (k x y : Z) :
  0 <= k -> in_width k x -> Z.shiftr (Z.lor x (Z.shiftl y k)) k = y.
Proof.
  intros Hk [H0 H1]. rewrite Z.shiftr_lor, Z.shiftr_shiftl_l, Z.sub_diag by lia.
  rewrite Z.shiftr_div_pow2, Z.div_small by lia. by rewrite Z.lor_0_l, Z.shiftl_0_r.
Qed.

Lemma lor_wrap_shiftr (k x : Z) :
  0 <= k -> Z.lor (wrap k x) (Z.shiftl (Z.shiftr x k) k) = x.
Proof.
  intros Hk. apply Z.bits_inj'. intros n Hn.
  rewrite Z.lor_spec, Z.shiftl_spec by lia. unfold wrap.
  destruct (Z.ltb_spec n k).
  - rewrite Z.mod_pow2_bits_low, (Z.testbit_neg_r (Z.shiftr x k)) by lia.
    apply orb_false_r.
  - rewrite Z.mod_pow2_bits_high, Z.shiftr_spec by lia. simpl. f_equal; lia.
Qed.

(** The nested form of the layout: each field sits just above the previous. *)
Lemma to_word_nested (e : HashEntry) :
  to_word e =
  Z.lor (bucket_offset e)
    (Z.shiftl (Z.lor (key_tag e)
       (Z.shiftl (Z.lor (kv_size e) (Z.shiftl (pba e) KV_SIZE_BITS)) KEYTAG_BITS))
       HOP_OFF_BITS).
Proof.
  unfold to_word. f_equal.
  rewrite !Z.shiftl_lor, !Z.shiftl_shiftl by done. done.
Qed.

Lemma of_word_nested (w : Z) :
  of_word w =
  let w1 := Z.shiftr w HOP_OFF_BITS in
  let w2 := Z.shiftr w1 KEYTAG_BITS in
  mkHashEntry (wrap HOP_OFF_BITS w) (wrap KEYTAG_BITS w1) (wrap KV_SIZE_BITS w2)
    (wrap PBA_BITS (Z.shiftr w2 KV_SIZE_BITS)).
Proof. unfold of_word. simpl. by rewrite !Z.shiftr_shiftr by done. Qed.

Lemma of_to_word (e : HashEntry) : entry_wf e -> of_word (to_word e) = e.
Proof.
  intros [H1 H2 H3 H4]. destruct e as [o t s p]; simpl in *.
  rewrite of_word_nested, to_word_nested. simpl.
  rewrite wrap_lor_shiftl, shiftr_lor_shiftl by done.
  rewrite wrap_lor_shiftl, shiftr_lor_shiftl by done.
  rewrite wrap_lor_shiftl, shiftr_lor_shiftl by done.
  by rewrite wrap_small.
Qed.

Lemma to_of_word (w : Z) : in_width 64 w -> to_word (of_word w) = w.
Proof.
  intros Hw. rewrite of_word_nested, to_word_nested. simpl.
  rewrite (wrap_small PBA_BITS).
  { by rewrite !lor_wrap_shiftr by done. }
  rewrite !Z.shiftr_shiftr, Z.shiftr_div_pow2 by done.
  destruct Hw as [H0 H1]. split; [by apply Z.div_pos|].
  apply Z.div_lt_upper_bound; [done|]. exact H1.
Qed.

Lemma of_word_wf (w : Z) : entry_wf (of_word w).
Proof. constructor; by apply wrap_range. Qed.

(** The freshly [memset(-1)] table consists of unused, not deleted entries. *)
Lemma of_word_ones :
  of_word (2 ^ 64 - 1) = mkHashEntry 63 255 MAX_KV_SIZE UNUSED_PBA_ENTRY.
Proof. reflexivity. Qed.

Lemma purge_unused (e : HashEntry) : used (purge e) = false.
Proof. reflexivity. Qed.
Lemma purge_not_deleted (e : HashEntry) : deleted (purge e) = false.
Proof. reflexivity. Qed.

(** The on-device word and the in-memory fields of an entry determine each
    other: packing a well-formed entry and unpacking the word gives it back, and
    so does unpacking any 64-bit word and packing the fields. *)
Theorem hash_entry_word_roundtrip :
  (forall e, entry_wf e -> of_word (to_word e) = e) /\
  (forall w, in_width 64 w -> entry_wf (of_word w) /\ to_word (of_word w) = w).
Proof. split; [exact of_to_word|]. split; [apply of_word_wf | by apply to_of_word]. Qed.
