(* ===== verification/HopscotchMap.v ===== *)
(** * The hopscotch hash table (src/include/uDepot/lsa/udepot-map.hh, udepot-map.cc)

    [uDepotMap] is one table of the two-level directory: an array of packed
    entries in which a key whose hash has home bucket [hb] lives in one of the 32
    slots [hb .. hb+31].  A pointer [HashEntry *] into the table is the index of
    the slot; [ht_m] is the mmapped array.  The asserts of the sources are the
    hypotheses of the theorems: a release build does not execute them. *)
From Stdlib Require Import ZArith Lia.
From stdpp Require Import base tactics list numbers.
From S2P Require Import Prelude Util HashEntry.

Open Scope Z_scope.

Definition HOP_SCOTCH_LOCK_NR : Z := 8192.
Definition HOP_MAX_BUCKET_DISPLACE : Z := 64.

(** _UDEPOT_HOP_SCOTCH_BUCKET_SIZE as a slot count. *)
Definition BUCKET : nat := Z.to_nat HOP_SCOTCH_BUCKET_SIZE.

Record uDepotMap := mkMap {
  entry_nr_m : Z;
  ht_m : list HashEntry;
  size_m : Z;
  entry_per_lock_nr_m : Z;
  lock_nr_m : Z;
  entry_nr_bits_m : Z;
  used_entry_nr_m : list Z;
}.

(** The constructor: an empty shell until [restore] or [init] gives it memory. *)
Definition uDepotMap_new : uDepotMap :=
  mkMap 0 [] 0 0 HOP_SCOTCH_LOCK_NR 0 (replicate (Z.to_nat HOP_SCOTCH_LOCK_NR) 0).

(** Slot access: [*p] and [*p = e]. *)
Definition ent (m : uDepotMap) (p : nat) : HashEntry :=
  default HashEntry_default (ht_m m !! p).

Definition set_ent (p : nat) (e : HashEntry) (m : uDepotMap) : uDepotMap :=
  mkMap (entry_nr_m m) (<[p:=e]> (ht_m m)) (size_m m) (entry_per_lock_nr_m m)
    (lock_nr_m m) (entry_nr_bits_m m) (used_entry_nr_m m).

Definition set_used_entry_nr (l : list Z) (m : uDepotMap) : uDepotMap :=
  mkMap (entry_nr_m m) (ht_m m) (size_m m) (entry_per_lock_nr_m m)
    (lock_nr_m m) (entry_nr_bits_m m) l.

(** ** Hash slicing *)

Definition hash_to_keytag_ (m : uDepotMap) (h : Z) : Z :=
  Z.land (Z.shiftr h (entry_nr_bits_m m)) KEYTAG_BITMASK.

Definition hash_to_keyfp_ (m : uDepotMap) (h : Z) : Z :=
  Z.land h (u64 (u64 (Z.shiftl 1 (KEYTAG_BITS + entry_nr_bits_m m)) - 1)).

Definition hash_to_hb_ (m : uDepotMap) (h : Z) : Z :=
  Z.land h (u64 (entry_nr_m m - HOP_SCOTCH_BUCKET_SIZE - 1)).

(** [const u64 hb = hash_to_hb_(h)] and, where the code declares it so,
    [const u32 hb = hash_to_hb_(h)], as slot indices. *)
Definition hb64 (m : uDepotMap) (h : Z) : nat := Z.to_nat (hash_to_hb_ m h).
Definition hb32 (m : uDepotMap) (h : Z) : nat := Z.to_nat (u32 (hash_to_hb_ m h)).

Definition entry_keyfp (m : uDepotMap) (p : nat) : Z :=
  let e := ent m p in
  let offset := u64 (Z.of_nat p - bucket_offset e) in
  Z.lor (u64 (Z.shiftl (key_tag e) (entry_nr_bits_m m))) offset.

(** ** Scans of the bucket *)

(** First loop of [lookup]: stop at the first slot never used. *)
Fixpoint lookup_match (m : uDepotMap) (to_match : Z) (p n : nat) : option nat :=
  match n with
  | O => None
  | S n' =>
      if negb (used (ent m p)) then None
      else if used (ent m p) && negb (deleted (ent m p)) && (to_match =? entry_keyfp m p)
      then Some p
      else lookup_match m to_match (S p) n'
  end.

(** Second loop of [lookup]: first unused slot, else the last deleted one. *)
Fixpoint lookup_candidate (m : uDepotMap) (p n : nat) (candidate : option nat) : option nat :=
  match n with
  | O => candidate
  | S n' =>
      if negb (used (ent m p)) then Some p
      else lookup_candidate m (S p) n'
             (if deleted (ent m p) then Some p else candidate)
  end.

Definition lookup (m : uDepotMap) (h : Z) : Z * option nat :=
  let first := hb64 m h in
  match lookup_match m (hash_to_keyfp_ m h) first BUCKET with
  | Some p => (0, Some p)
  | None =>
      match lookup_candidate m first BUCKET None with
      | None => (ENOSPC, None)
      | Some p => (ENODATA, Some p)
      end
  end.

Definition next_free (m : uDepotMap) (h : Z) : Z * option nat :=
  match for_first (fun p => negb (used (ent m p)) || deleted (ent m p)) (hb32 m h) BUCKET with
  | Some p => (0, Some p)
  | None => (ENOSPC, None)
  end.

Definition next (m : uDepotMap) (he : option nat) (h : Z) : option nat :=
  match he with
  | None => None
  | Some he =>
      for_first (fun p => negb (negb (used (ent m p)) || deleted (ent m p))
                          && (negb (deleted (ent m p))
                              && (hash_to_keyfp_ m h =? entry_keyfp m p)))
        (S he) (hb64 m h + BUCKET - S he)
  end.

(** The overload of [lookup] the garbage collector uses. *)
Definition lookup_pba (m : uDepotMap) (h pba' : Z) : option nat :=
  for_first (fun p => used (ent m p) && (pba' =? pba (ent m p))) (hb64 m h) BUCKET.

(** ** Updates *)

Definition used_entry_idx (m : uDepotMap) (h : Z) : nat :=
  Z.to_nat (hash_to_hb_ m h mod Z.of_nat (length (used_entry_nr_m m))).

Definition used_entry_add (d h : Z) (m : uDepotMap) : uDepotMap :=
  set_used_entry_nr (alter (fun c => u64 (c + d)) (used_entry_idx m h) (used_entry_nr_m m)) m.

Definition update (m : uDepotMap) (he : nat) (h kvs pba' : Z) : uDepotMap :=
  let off := u64 (Z.of_nat he - hash_to_hb_ m h) in
  set_ent he
    (set_pba pba'
      (set_kv_size (Z.min kvs MAX_KV_SIZE)
        (set_key_tag (hash_to_keytag_ m h)
          (set_bucket_offset off (ent m he))))) m.

Definition insert (m : uDepotMap) (he : nat) (h kvs pba' : Z) : uDepotMap :=
  used_entry_add 1 h (update m he h kvs pba').

Definition update_inplace (m : uDepotMap) (he : nat) (h kvs pba' : Z) : uDepotMap :=
  set_ent he
    (set_pba pba'
      (set_kv_size (Z.min kvs MAX_KV_SIZE)
        (set_key_tag (hash_to_keytag_ m h) (ent m he)))) m.

Definition remove (m : uDepotMap) (he : nat) (pba' : Z) : uDepotMap :=
  let m' := set_ent he (set_deleted (set_pba pba' (ent m he))) m in
  used_entry_add (-1) (entry_keyfp m' he) m'.

Definition purge_at (m : uDepotMap) (he : nat) : uDepotMap :=
  set_ent he (purge (ent m he)) m.

Definition entry_restored (m : uDepotMap) (h : Z) : uDepotMap := used_entry_add 1 h m.

(** ** Displacement *)

Definition try_shift_one (m : uDepotMap) (candidate : nat) : Z * uDepotMap :=
  match next_free m (entry_keyfp m candidate) with
  | (rc, None) => (rc, m)
  | (_, Some victim) =>
      let hb := hash_to_hb_ m (entry_keyfp m candidate) in
      let tmp := ent m candidate in
      let m1 := set_ent candidate (ent m victim) m in
      let m2 := set_ent victim tmp m1 in
      let m3 := set_ent victim
                  (set_bucket_offset (u64 (Z.of_nat victim - hb)) (ent m2 victim)) m2 in
      if used (ent m3 candidate) then
        let hb' := hash_to_hb_ m3 (entry_keyfp m3 candidate) in
        (0, set_ent candidate
              (set_bucket_offset (u64 (Z.of_nat candidate - hb')) (ent m3 candidate)) m3)
      else (0, m3)
  end.

(** The [while] loop of [try_shift].  [p_free] is the free slot being moved
    backwards and [p] the slot whose entry may move into it. *)
Fixpoint shift_loop (fuel : nat) (m : uDepotMap) (first p p_free : nat)
  : option (Z * option nat * uDepotMap) :=
  match fuel with
  | O => None
  | S fuel' =>
      if (first <=? p)%nat && (p <? p_free)%nat then
        let '(rc, m') := try_shift_one m p in
        if rc =? 0 then
          if (p - first <? BUCKET)%nat then Some (0, Some p, m')
          else shift_loop fuel' m' first (Nat.max first (p - BUCKET + 1)) p
        else shift_loop fuel' m' first (S p) p_free
      else Some (ENOSPC, None, m)
  end.

Definition try_shift_last (m : uDepotMap) (first : nat) : nat :=
  Nat.min (first + BUCKET * Z.to_nat HOP_MAX_BUCKET_DISPLACE)
          (Z.to_nat (entry_nr_m m - HOP_SCOTCH_BUCKET_SIZE - 1)).

(** Every displacement moves [p_free] at least one slot back and is preceded by
    at most 31 failed attempts, so [BUCKET] iterations per slot are enough. *)
Definition try_shift (m : uDepotMap) (h : Z) : option (Z * option nat * uDepotMap) :=
  let first := hb32 m h in
  let last := try_shift_last m first in
  match for_first (fun p => xorb (negb (used (ent m p))) (deleted (ent m p)))
          (first + BUCKET) (last - (first + BUCKET)) with
  | None => Some (ENOSPC, None, m)
  | Some p_free =>
      shift_loop (S (BUCKET * p_free)) m first (p_free - BUCKET + 1) p_free
  end.

(** ** Sizing: [restore] and [init] *)

(** The [do ... while (1)] that halves the lock count until every lock covers a
    whole displacement range.  [lock_nr] is a u32, so 33 halvings are enough. *)
Fixpoint size_locks (fuel : nat) (entry_nr lock_nr : Z) : option (Z * Z) :=
  match fuel with
  | O => None
  | S fuel' =>
      if 1 =? lock_nr then Some (lock_nr, entry_nr)
      else
        let per_lock := udiv_round_up entry_nr lock_nr in
        if HOP_SCOTCH_BUCKET_SIZE * (1 + HOP_MAX_BUCKET_DISPLACE) <=? per_lock
        then Some (lock_nr, per_lock)
        else size_locks fuel' entry_nr (lock_nr / 2)
  end.

(** [ht] is the memory handed in, one word per entry; [sizeof(HashEntry)] is 8.
    [None] is non-termination of the sizing loop. *)
Definition restore (m : uDepotMap) (lock_nr size : Z) (ht : option (list HashEntry))
  : option (Z * uDepotMap) :=
  let size_aligned := align_down size 8 in
  let entry_nr := size_aligned / 8 in
  match ht with
  | None => Some (EINVAL, m)
  | Some words =>
      if (0 =? size_aligned) || (entry_nr <? HOP_SCOTCH_BUCKET_SIZE) then Some (EINVAL, m)
      else
        let entry_nr := u64 (round_down_pow2 (u64 (entry_nr - HOP_SCOTCH_BUCKET_SIZE))
                             + HOP_SCOTCH_BUCKET_SIZE) in
        let bits := NUM_BITS (u64 (entry_nr - HOP_SCOTCH_BUCKET_SIZE - 1)) in
        match size_locks 64 entry_nr lock_nr with
        | None => None
        | Some (locks, per_lock) =>
            Some (0, mkMap entry_nr words (u64 (entry_nr * 8)) per_lock locks bits
                       (used_entry_nr_m m))
        end
  end.

(** [memset(ht, -1, size)]: every word becomes all ones. *)
Definition memset_ones (words : list HashEntry) : list HashEntry :=
  (fun _ => of_word (2 ^ 64 - 1)) <$> words.

Definition init (m : uDepotMap) (lock_nr size : Z) (ht : option (list HashEntry))
  : option (Z * uDepotMap) :=
  match restore m lock_nr size ht with
  | Some (0, m') =>
      Some (0, mkMap (entry_nr_m m') (memset_ones (ht_m m')) (size_m m')
                 (entry_per_lock_nr_m m') (lock_nr_m m') (entry_nr_bits_m m')
                 (used_entry_nr_m m'))
  | r => r
  end.

(** ** Well-formedness *)

(** The home bucket of the entry in slot [p]. *)
Definition home (m : uDepotMap) (p : nat) : nat :=
  Z.to_nat (Z.of_nat p - bucket_offset (ent m p)).

Definition live_slot (m : uDepotMap) (p : nat) : bool := live (ent m p).

(** The home of slot [p] is a home bucket and [p] lies in it. *)
Definition home_ok (m : uDepotMap) (p : nat) : Prop :=
  bucket_offset (ent m p) < HOP_SCOTCH_BUCKET_SIZE /\
  0 <= Z.of_nat p - bucket_offset (ent m p) < 2 ^ entry_nr_bits_m m.

Record map_wf (m : uDepotMap) : Prop := {
  wf_bits : 0 <= entry_nr_bits_m m <= 32;
  wf_entry_nr : entry_nr_m m = 2 ^ entry_nr_bits_m m + HOP_SCOTCH_BUCKET_SIZE;
  wf_length : entry_nr_m m <= Z.of_nat (length (ht_m m));
  wf_entry : forall p, entry_wf (ent m p);
  wf_home : forall p, live_slot m p = true -> home_ok m p;
  wf_unused : forall p, used (ent m p) = false -> deleted (ent m p) = false;
  wf_counters : Z.of_nat (length (used_entry_nr_m m)) = HOP_SCOTCH_LOCK_NR;
}.

(** No slot before an entry, within the entry's bucket, was never used.  [lookup]
    relies on it when it stops at the first unused slot. *)
Definition chained (m : uDepotMap) : Prop :=
  forall p q, live_slot m p = true -> (home m p <= q < p)%nat -> used (ent m q) = true.

(** ** Abstract content

    The bag of (key fingerprint, size in grains, grain) triples of the live
    entries. *)
Definition live_at (m : uDepotMap) (p : nat) : option (Z * Z * Z) :=
  if live_slot m p then Some (entry_keyfp m p, kv_size (ent m p), pba (ent m p)) else None.

Definition entries (m : uDepotMap) : list (Z * Z * Z) := bag (live_at m) (length (ht_m m)).

(** *** Slot access *)

Lemma HashEntry_default_wf : entry_wf HashEntry_default.
Proof. by constructor. Qed.
#[export] Hint Resolve HashEntry_default_wf : udepot.

Lemma ent_set_eq (m : uDepotMap) (p : nat) (e : HashEntry) :
  (p < length (ht_m m))%nat -> ent (set_ent p e m) p = e.
Proof. intros. unfold ent. simpl. by rewrite list_lookup_insert_eq. Qed.

Lemma ent_set_ne (m : uDepotMap) (p q : nat) (e : HashEntry) :
  p <> q -> ent (set_ent p e m) q = ent m q.
Proof. intros. unfold ent. simpl. by rewrite list_lookup_insert_ne. Qed.

Lemma length_set_ent (m : uDepotMap) (p : nat) (e : HashEntry) :
  length (ht_m (set_ent p e m)) = length (ht_m m).
Proof. apply length_insert. Qed.

Lemma used_in_range (m : uDepotMap) (p : nat) :
  used (ent m p) = true -> (p < length (ht_m m))%nat.
Proof.
  unfold ent. destruct (ht_m m !! p) as [e|] eqn:He; [|done].
  intros _. by eapply lookup_lt_Some.
Qed.

Lemma live_used (m : uDepotMap) (p : nat) : live_slot m p = true -> used (ent m p) = true.
Proof. unfold live_slot, live. intros. by bool_cases. Qed.

(** Two tables that hold the same entry in a slot and slice hashes alike agree
    on everything the scans read there. *)
Lemma entry_keyfp_ext (m m' : uDepotMap) (p : nat) :
  entry_nr_bits_m m' = entry_nr_bits_m m -> ent m' p = ent m p ->
  entry_keyfp m' p = entry_keyfp m p.
Proof. intros Hb He. unfold entry_keyfp. by rewrite Hb, He. Qed.

Lemma live_at_ext (m m' : uDepotMap) (p : nat) :
  entry_nr_bits_m m' = entry_nr_bits_m m -> ent m' p = ent m p ->
  live_at m' p = live_at m p.
Proof.
  intros Hb He. unfold live_at, live_slot.
  by rewrite (entry_keyfp_ext m m'), He.
Qed.

(** *** Hash slicing *)

Section Slicing.
Context (m : uDepotMap) (Hwf : map_wf m).

Lemma hash_to_hb_wrap (h : Z) : hash_to_hb_ m h = wrap (entry_nr_bits_m m) h.
Proof.
  destruct Hwf as [Hb Hn _ _ _ _ _]. unfold hash_to_hb_. rewrite Hn.
  replace (2 ^ entry_nr_bits_m m + HOP_SCOTCH_BUCKET_SIZE - HOP_SCOTCH_BUCKET_SIZE - 1)
    with (2 ^ entry_nr_bits_m m - 1) by lia.
  assert (2 ^ entry_nr_bits_m m <= 2 ^ 32) by (apply Z.pow_le_mono_r; lia).
  rewrite wrap_small; [apply land_mask_wrap; lia|]. split; lia.
Qed.

Lemma hash_to_hb_range (h : Z) : 0 <= hash_to_hb_ m h < 2 ^ entry_nr_bits_m m.
Proof. rewrite hash_to_hb_wrap. apply wrap_range. apply Hwf. Qed.

Lemma hb32_hb64 (h : Z) : hb32 m h = hb64 m h.
Proof.
  unfold hb32, hb64. rewrite wrap_small; [done|].
  pose proof (hash_to_hb_range h). destruct (wf_bits _ Hwf).
  assert (2 ^ entry_nr_bits_m m <= 2 ^ 32) by (apply Z.pow_le_mono_r; lia).
  unfold in_width. lia.
Qed.

Lemma hash_to_keyfp_wrap (h : Z) :
  hash_to_keyfp_ m h = wrap (KEYTAG_BITS + entry_nr_bits_m m) h.
Proof.
  destruct (wf_bits _ Hwf) as [Hb0 Hb]. unfold hash_to_keyfp_.
  rewrite Z.shiftl_1_l.
  assert (0 < 2 ^ (KEYTAG_BITS + entry_nr_bits_m m) <= 2 ^ 40).
  { split; [apply pow2_pos|apply Z.pow_le_mono_r]; unfold KEYTAG_BITS; lia. }
  rewrite (wrap_small 64 (2 ^ _)) by (split; lia).
  rewrite wrap_small by (split; lia).
  apply land_mask_wrap. unfold KEYTAG_BITS. lia.
Qed.

Lemma hash_to_keytag_wrap (h : Z) :
  hash_to_keytag_ m h = wrap KEYTAG_BITS (Z.shiftr h (entry_nr_bits_m m)).
Proof. apply (land_mask_wrap 8). done. Qed.

(** The window of a bucket lies inside the table. *)
Lemma bucket_in_range (h : Z) : (hb64 m h + BUCKET <= length (ht_m m))%nat.
Proof.
  pose proof (hash_to_hb_range h). destruct Hwf as [? Hn Hl _ _ _ _].
  unfold hb64, BUCKET, HOP_SCOTCH_BUCKET_SIZE in *. lia.
Qed.

Lemma shiftr_wrap (k n h : Z) :
  0 <= k -> 0 <= n -> Z.shiftr (wrap (n + k) h) k = wrap n (Z.shiftr h k).
Proof.
  intros Hk Hn. apply Z.bits_inj'. intros i Hi. unfold wrap.
  rewrite Z.shiftr_spec by lia.
  destruct (Z.ltb_spec i n).
  - by rewrite !Z.mod_pow2_bits_low, Z.shiftr_spec by lia.
  - by rewrite !Z.mod_pow2_bits_high by lia.
Qed.

Lemma keyfp_split (h : Z) :
  hash_to_keyfp_ m h =
  Z.lor (hash_to_hb_ m h) (Z.shiftl (hash_to_keytag_ m h) (entry_nr_bits_m m)).
Proof.
  destruct (wf_bits _ Hwf) as [Hb0 _].
  rewrite hash_to_keyfp_wrap, hash_to_hb_wrap, hash_to_keytag_wrap.
  rewrite <- (lor_wrap_shiftr (entry_nr_bits_m m) (wrap (KEYTAG_BITS + entry_nr_bits_m m) h)) by done.
  f_equal.
  - apply wrap_narrow. unfold KEYTAG_BITS. lia.
  - rewrite shiftr_wrap by done. done.
Qed.

(** The fingerprint of a slot: its home in the low bits, its tag above. *)
Lemma home_ok_keyfp (p : nat) :
  home_ok m p ->
  entry_keyfp m p =
  Z.lor (Z.of_nat (home m p)) (Z.shiftl (key_tag (ent m p)) (entry_nr_bits_m m)).
Proof.
  intros [Ho Hh].
  destruct (wf_entry _ Hwf p) as [[? ?] Ht _ _]. destruct (wf_bits _ Hwf) as [Hb0 Hb].
  assert (2 ^ entry_nr_bits_m m <= 2 ^ 32) by (apply Z.pow_le_mono_r; lia).
  unfold entry_keyfp, home. rewrite Z.lor_comm. rewrite !wrap_small.
  - by rewrite Z2Nat.id by lia.
  - unfold in_width in *. rewrite Z.shiftl_mul_pow2 by lia.
    change (2 ^ KEYTAG_BITS) with 256 in Ht. nia.
  - unfold in_width. lia.
Qed.

Lemma entry_keyfp_split (p : nat) :
  live_slot m p = true ->
  entry_keyfp m p =
  Z.lor (Z.of_nat (home m p)) (Z.shiftl (key_tag (ent m p)) (entry_nr_bits_m m)).
Proof. intros Hl. by apply home_ok_keyfp, wf_home. Qed.

(** A slot carries the fingerprint of [h] exactly when it has the tag of [h] and
    its home is the bucket of [h]. *)
Lemma home_ok_match (h : Z) (p : nat) :
  home_ok m p ->
  hash_to_keyfp_ m h = entry_keyfp m p <->
  home m p = hb64 m h /\ key_tag (ent m p) = hash_to_keytag_ m h.
Proof.
  intros Hok. rewrite keyfp_split, (home_ok_keyfp p Hok).
  destruct Hok as [Ho Hh]. destruct (wf_bits _ Hwf) as [Hb0 _].
  pose proof (hash_to_hb_range h) as Hr.
  assert (in_width (entry_nr_bits_m m) (Z.of_nat (home m p))) as Hw.
  { unfold in_width, home. rewrite Z2Nat.id by lia. done. }
  split.
  - intros Heq. split.
    + apply (f_equal (wrap (entry_nr_bits_m m))) in Heq.
      rewrite !wrap_lor_shiftl in Heq by done. unfold hb64. lia.
    + apply (f_equal (fun x => Z.shiftr x (entry_nr_bits_m m))) in Heq.
      by rewrite !shiftr_lor_shiftl in Heq by done.
  - intros [-> ->]. unfold hb64. by rewrite Z2Nat.id by lia.
Qed.

Lemma keyfp_match (h : Z) (p : nat) :
  live_slot m p = true ->
  hash_to_keyfp_ m h = entry_keyfp m p <->
  home m p = hb64 m h /\ key_tag (ent m p) = hash_to_keytag_ m h.
Proof. intros Hl. by apply home_ok_match, wf_home. Qed.

Lemma home_ok_window (p : nat) : home_ok m p -> (home m p <= p < home m p + BUCKET)%nat.
Proof.
  intros [Ho Hh]. destruct (wf_entry _ Hwf p) as [[? ?] _ _ _].
  unfold home, BUCKET, HOP_SCOTCH_BUCKET_SIZE in *. lia.
Qed.

Lemma home_window (p : nat) :
  live_slot m p = true -> (home m p <= p < home m p + BUCKET)%nat.
Proof. intros Hl. by apply home_ok_window, wf_home. Qed.

(** The fingerprint of a slot used as a hash leads back to the slot's bucket. *)
Lemma home_ok_hb (p : nat) : home_ok m p -> hb64 m (entry_keyfp m p) = home m p.
Proof.
  intros Hok. unfold hb64. rewrite hash_to_hb_wrap, (home_ok_keyfp p Hok).
  destruct Hok as [Ho Hh]. destruct (wf_bits _ Hwf) as [Hb0 _].
  rewrite wrap_lor_shiftl; [lia|done|].
  unfold in_width, home. rewrite Z2Nat.id by lia. done.
Qed.

Lemma hb_of_entry_keyfp (p : nat) :
  live_slot m p = true -> hb64 m (entry_keyfp m p) = home m p.
Proof. intros Hl. by apply home_ok_hb, wf_home. Qed.

Lemma keyfp_of_entry_keyfp (p : nat) :
  live_slot m p = true -> hash_to_keyfp_ m (entry_keyfp m p) = entry_keyfp m p.
Proof.
  intros Hu. apply keyfp_match; [done|]. split; [by rewrite hb_of_entry_keyfp|].
  destruct (wf_home _ Hwf p Hu) as [Ho Hh]. destruct (wf_bits _ Hwf) as [Hb0 _].
  rewrite hash_to_keytag_wrap, (entry_keyfp_split p Hu).
  rewrite shiftr_lor_shiftl; [|done|].
  - symmetry. apply wrap_small. apply (wf_entry _ Hwf p).
  - unfold in_width, home. rewrite Z2Nat.id by lia. done.
Qed.

End Slicing.
