(* ===== verification/HopscotchSpec.v ===== *)
(** * What the hopscotch table promises

    The scans of [HopscotchMap] characterised, the well-formedness and chain
    invariants preserved by every update, and the refinement of the table to a
    bag of (fingerprint, size, grain) triples. *)
From Stdlib Require Import ZArith Lia.
From stdpp Require Import base tactics list numbers.
From S2P Require Import Prelude Util HashEntry HopscotchMap.

Open Scope Z_scope.

(** Slot [q] holds a live entry with the fingerprint of [h]. *)
Definition matches (m : uDepotMap) (h : Z) (q : nat) : Prop :=
  live_slot m q = true /\ hash_to_keyfp_ m h = entry_keyfp m q.

Definition in_bucket (m : uDepotMap) (h : Z) (q : nat) : Prop :=
  (hb64 m h <= q < hb64 m h + BUCKET)%nat.

(** Slot [q] may receive a new entry for [h]: it is in the bucket, holds no live
    entry, and every slot of the bucket before it has been used. *)
Definition free_slot (m : uDepotMap) (h : Z) (q : nat) : Prop :=
  in_bucket m h q /\ live_slot m q = false /\
  forall r, (hb64 m h <= r < q)%nat -> used (ent m r) = true.

(** A grain number that does not collide with the reserved unused value. *)
Definition valid_pba (g : Z) : Prop := 0 <= g < UNUSED_PBA_ENTRY.

(** ** Scans *)

Lemma lookup_match_step (m : uDepotMap) (h : Z) (p : nat) :
  used (ent m p) = true ->
  used (ent m p) && negb (deleted (ent m p)) && (hash_to_keyfp_ m h =? entry_keyfp m p) = true
  <-> matches m h p.
Proof.
  intros Hu. unfold matches, live_slot, live. rewrite Hu, !andb_true_iff, Z.eqb_eq. tauto.
Qed.

Lemma lookup_match_Some (m : uDepotMap) (h : Z) (p n q : nat) :
  lookup_match m (hash_to_keyfp_ m h) p n = Some q ->
  (p <= q < p + n)%nat /\ matches m h q /\
  forall r, (p <= r < q)%nat -> used (ent m r) = true /\ ~ matches m h r.
Proof.
  revert p. induction n as [|n IH]; intros p; simpl; [done|].
  destruct (used (ent m p)) eqn:Hu; simpl; [|done].
  pose proof (lookup_match_step m h p Hu) as Hs. rewrite Hu in Hs. simpl in Hs.
  destruct (_ && _) eqn:Hm.
  - intros [= <-]. split; [lia|]. split; [by apply Hs|]. intros r ?. lia.
  - intros (Hr & Hq & Hall)%IH. split; [lia|]. split; [done|].
    intros r ?. destruct (decide (r = p)) as [->|]; [|apply Hall; lia].
    split; [done|]. intros ?%Hs. done.
Qed.

Lemma lookup_match_None (m : uDepotMap) (h : Z) (p n q : nat) :
  lookup_match m (hash_to_keyfp_ m h) p n = None ->
  (p <= q < p + n)%nat -> (forall r, (p <= r < q)%nat -> used (ent m r) = true) ->
  ~ matches m h q.
Proof.
  revert p. induction n as [|n IH]; intros p; simpl; [intros; lia|].
  destruct (used (ent m p)) eqn:Hu; simpl.
  - pose proof (lookup_match_step m h p Hu) as Hs. rewrite Hu in Hs. simpl in Hs.
    destruct (_ && _) eqn:Hm; [done|]. intros Hn Hq Hall Hmq.
    destruct (decide (q = p)) as [->|].
    { by apply Hs in Hmq. }
    apply (IH (S p) Hn); [lia| |done]. intros r ?. apply Hall. lia.
  - intros _ Hq Hall Hmq. destruct (decide (q = p)) as [->|].
    + destruct Hmq as [Hl%live_used _]. congruence.
    + rewrite Hall in Hu by lia. done.
Qed.

Lemma lookup_candidate_spec (m : uDepotMap) (p n : nat) (c : option nat) :
  (exists q, lookup_candidate m p n c = Some q /\ (p <= q < p + n)%nat /\
     used (ent m q) = false /\ forall r, (p <= r < q)%nat -> used (ent m r) = true)
  \/ ((forall r, (p <= r < p + n)%nat -> used (ent m r) = true) /\
      ((exists q, lookup_candidate m p n c = Some q /\ (p <= q < p + n)%nat /\
          deleted (ent m q) = true)
       \/ ((forall r, (p <= r < p + n)%nat -> deleted (ent m r) = false) /\
           lookup_candidate m p n c = c))).
Proof.
  revert p c. induction n as [|n IH]; intros p c; simpl.
  { right. split; [intros; lia|]. right. split; [intros; lia|done]. }
  destruct (used (ent m p)) eqn:Hu; simpl.
  2:{ left. exists p. split; [done|]. split; [lia|]. split; [done|]. intros; lia. }
  assert (Hcons : forall (P : nat -> Prop), P p ->
    (forall r, (S p <= r < S p + n)%nat -> P r) -> forall r, (p <= r < p + S n)%nat -> P r).
  { intros P Hp Hall r ?. destruct (decide (r = p)) as [->|]; [done|]. apply Hall. lia. }
  destruct (IH (S p) (if deleted (ent m p) then Some p else c))
    as [(q & Hq & Hr & Hf & Hall)|[Hall [(q & Hq & Hr & Hd)|[Hnd Heq]]]].
  - left. exists q. split; [done|]. split; [lia|]. split; [done|].
    intros r ?. destruct (decide (r = p)) as [->|]; [done|]. apply Hall. lia.
  - right. split; [by apply Hcons|]. left. exists q. repeat split; auto; lia.
  - right. split; [by apply Hcons|]. destruct (deleted (ent m p)) eqn:Hd.
    + left. exists p. repeat split; auto; lia.
    + right. split; [by apply Hcons|done].
Qed.

Lemma not_live (m : uDepotMap) (p : nat) :
  used (ent m p) = false \/ deleted (ent m p) = true -> live_slot m p = false.
Proof. unfold live_slot, live. by intros [-> | ->]; [|rewrite andb_false_r]. Qed.

Section Lookup.
Context (m : uDepotMap) (Hwf : map_wf m).

Lemma matches_in_bucket (h : Z) (q : nat) : matches m h q -> in_bucket m h q.
Proof.
  intros [Hl Hk]. unfold in_bucket.
  apply (keyfp_match m Hwf h q Hl) in Hk as [Hh _].
  pose proof (home_window m Hwf q Hl). lia.
Qed.

(** In a chained table every match is reached before an unused slot. *)
Lemma chained_match (h : Z) (q r : nat) :
  chained m -> matches m h q -> (hb64 m h <= r < q)%nat -> used (ent m r) = true.
Proof.
  intros Hc [Hl Hk] Hr. apply (Hc q r Hl).
  apply (keyfp_match m Hwf h q Hl) in Hk as [-> _]. done.
Qed.

Lemma lookup_cases (h : Z) :
  (exists p, lookup m h = (0, Some p) /\ matches m h p /\
     forall r, (hb64 m h <= r < p)%nat -> ~ matches m h r)
  \/ (exists p, lookup m h = (ENODATA, Some p) /\ free_slot m h p /\
        (chained m -> forall r, ~ matches m h r))
  \/ (lookup m h = (ENOSPC, None) /\
      (forall r, in_bucket m h r -> live_slot m r = true /\ ~ matches m h r) /\
      forall r, ~ matches m h r).
Proof.
  unfold lookup. destruct (lookup_match _ _ _ _) as [p|] eqn:Hm.
  { left. exists p. apply lookup_match_Some in Hm as (_ & Hp & Hall).
    split; [done|]. split; [done|]. intros r ?. by apply Hall. }
  assert (Hno : forall r, (forall s, (hb64 m h <= s < r)%nat -> used (ent m s) = true) ->
    ~ matches m h r).
  { intros r Hall Hmr. eapply lookup_match_None; [done| |done|done].
    apply (matches_in_bucket h r Hmr). }
  right. destruct (lookup_candidate_spec m (hb64 m h) BUCKET None)
    as [(q & -> & Hr & Hf & Hall)|[Hall [(q & -> & Hr & Hd)|[Hnd ->]]]].
  - left. exists q. split; [done|].
    split; [split; [done|]; split; [apply not_live; auto|done]|].
    intros Hc r Hmr. apply (Hno r); [|done]. intros s ?. by eapply chained_match.
  - left. exists q. split; [done|].
    split; [split; [done|]; split; [apply not_live; auto|]; intros; apply Hall; lia|].
    intros _ r Hmr. apply (Hno r); [|done]. intros s ?. apply Hall.
    pose proof (matches_in_bucket h r Hmr). unfold in_bucket in *. lia.
  - right. split; [done|].
    assert (Hall' : forall r, ~ matches m h r).
    { intros r Hmr. apply (Hno r); [|done]. intros s ?. apply Hall.
      pose proof (matches_in_bucket h r Hmr). unfold in_bucket in *. lia. }
    split; [|done]. intros r Hr. split; [|apply Hall'].
    unfold live_slot, live. rewrite Hall, Hnd by apply Hr. done.
Qed.

Lemma next_free_cases (h : Z) :
  (exists p, next_free m h = (0, Some p) /\ free_slot m h p)
  \/ (next_free m h = (ENOSPC, None) /\ forall r, in_bucket m h r -> live_slot m r = true).
Proof.
  unfold next_free. rewrite hb32_hb64 by done.
  destruct (for_first _ _ _) as [p|] eqn:Hf.
  - left. exists p. split; [done|]. apply for_first_Some in Hf as (Hr & Hp & Hall).
    split; [done|]. split.
    + apply not_live. apply orb_true_iff in Hp as [?|?]; [left; by bool_cases|by right].
    + intros r Hlt. specialize (Hall r Hlt). by bool_cases.
  - right. split; [done|]. intros r Hr.
    assert (negb (used (ent m r)) || deleted (ent m r) = false) as Hall.
    { by apply (proj1 (for_first_None _ _ _) Hf r). }
    bool_cases. unfold live_slot, live. by rewrite H, H0.
Qed.

(** [next] returns the following match of the bucket. *)
Lemma next_cases (h : Z) (he : nat) :
  match next m (Some he) h with
  | Some q => (he < q)%nat /\ matches m h q /\ forall r, (he < r < q)%nat -> ~ matches m h r
  | None => forall r, (he < r)%nat -> ~ matches m h r
  end.
Proof.
  assert (Hb : forall p,
    negb (negb (used (ent m p)) || deleted (ent m p))
    && (negb (deleted (ent m p)) && (hash_to_keyfp_ m h =? entry_keyfp m p)) = true
    <-> matches m h p).
  { intros p. unfold matches, live_slot, live. rewrite <- Z.eqb_eq.
    destruct (used (ent m p)), (deleted (ent m p)), (_ =? _); simpl; intuition congruence. }
  unfold next. destruct (for_first _ _ _) as [q|] eqn:Hf.
  - apply for_first_Some in Hf as (Hr & Hq & Hall). split; [lia|].
    split; [by apply Hb|]. intros r ? Hmr. apply Hb in Hmr. rewrite Hall in Hmr by lia. done.
  - intros r Hlt Hmr. pose proof (matches_in_bucket h r Hmr) as Hin. apply Hb in Hmr.
    rewrite (proj1 (for_first_None _ _ _) Hf r) in Hmr; [done|]. unfold in_bucket in Hin. lia.
Qed.

(** The garbage collector's lookup: first used slot of the bucket at the grain. *)
Lemma lookup_pba_cases (h g : Z) :
  match lookup_pba m h g with
  | Some q => in_bucket m h q /\ used (ent m q) = true /\ pba (ent m q) = g
  | None => forall r, in_bucket m h r -> used (ent m r) = true -> pba (ent m r) <> g
  end.
Proof.
  unfold lookup_pba. destruct (for_first _ _ _) as [q|] eqn:Hf.
  - apply for_first_Some in Hf as (Hr & Hq & _). bool_cases. done.
  - intros r Hr Hu Hp.
    assert (used (ent m r) && (g =? pba (ent m r)) = false) as Hall.
    { by apply (proj1 (for_first_None _ _ _) Hf r). }
    rewrite Hu, Hp, Z.eqb_refl in Hall. done.
Qed.

End Lookup.

(** ** Updates of one slot *)

Lemma set_ent_wf (m : uDepotMap) (p : nat) (e : HashEntry) :
  map_wf m -> entry_wf e ->
  (live e = true -> bucket_offset e < HOP_SCOTCH_BUCKET_SIZE /\
                    0 <= Z.of_nat p - bucket_offset e < 2 ^ entry_nr_bits_m m) ->
  (used e = false -> deleted e = false) ->
  map_wf (set_ent p e m).
Proof.
  intros [Hb Hn Hl He Hh Hun Hc] Hwe Hue Hune.
  constructor; simpl; rewrite ?length_insert; auto.
  - intros q. destruct (decide (p = q)) as [<-|Hne]; [|by rewrite ent_set_ne].
    destruct (decide (p < length (ht_m m))%nat) as [Hlt|Hge]; [by rewrite ent_set_eq|].
    unfold ent. simpl. rewrite list_insert_ge by lia. apply He.
  - intros q. unfold live_slot, home_ok in *. simpl.
    destruct (decide (p = q)) as [<-|Hne]; [|rewrite ent_set_ne by done; apply Hh].
    destruct (decide (p < length (ht_m m))%nat) as [Hlt|Hge]; [by rewrite ent_set_eq|].
    intros Hu%(live_used (set_ent p e m)). apply used_in_range in Hu. rewrite length_set_ent in Hu. lia.
  - intros q. destruct (decide (p = q)) as [<-|Hne]; [|rewrite ent_set_ne by done; apply Hun].
    destruct (decide (p < length (ht_m m))%nat) as [Hlt|Hge]; [by rewrite ent_set_eq|].
    unfold ent. simpl. rewrite list_insert_ge by lia. apply Hun.
Qed.

Lemma home_ext (m m' : uDepotMap) (p : nat) : ent m' p = ent m p -> home m' p = home m p.
Proof. intros He. unfold home. by rewrite He. Qed.

(** The chain invariant survives an update that does not return a slot to the
    unused state and puts a live entry only behind used slots. *)
Lemma set_ent_chained (m : uDepotMap) (p : nat) (e : HashEntry) :
  chained m -> (used (ent m p) = true -> used e = true) ->
  (live e = true -> forall q, (Z.to_nat (Z.of_nat p - bucket_offset e) <= q < p)%nat ->
     used (ent m q) = true) ->
  chained (set_ent p e m).
Proof.
  intros Hc Hu He q r Hl Hr.
  destruct (decide (p < length (ht_m m))%nat) as [Hlt|Hge].
  2:{ assert (set_ent p e m = m) as Heq.
      { destruct m; unfold set_ent; simpl in *. by rewrite list_insert_ge by lia. }
      rewrite Heq in *. by apply (Hc q r). }
  assert (Hpres : used (ent m r) = true -> used (ent (set_ent p e m) r) = true).
  { intros Hur. destruct (decide (p = r)) as [<-|]; [rewrite ent_set_eq by done; auto|].
    by rewrite ent_set_ne. }
  apply Hpres. unfold live_slot, home in *.
  destruct (decide (p = q)) as [<-|Hne].
  - rewrite ent_set_eq in * by done. by apply He.
  - rewrite ent_set_ne in * by done. apply (Hc q r Hl Hr).
Qed.

Lemma live_at_set_ne (m : uDepotMap) (p q : nat) (e : HashEntry) :
  q <> p -> live_at (set_ent p e m) q = live_at m q.
Proof. intros. apply live_at_ext; [done|]. by rewrite ent_set_ne. Qed.

(** Changing only the counters changes nothing the scans see. *)
Lemma used_entry_add_wf (d h : Z) (m : uDepotMap) : map_wf m -> map_wf (used_entry_add d h m).
Proof. intros []. constructor; simpl; rewrite ?length_alter; auto. Qed.
#[export] Hint Resolve used_entry_add_wf : udepot.

(** ** Insertion and in-place update *)

Section Update.
Context (m : uDepotMap) (Hwf : map_wf m).

(** The entry [update] writes when the slot lies in the bucket of [h]. *)
Lemma update_entry (he : nat) (h kvs g : Z) :
  in_bucket m h he -> 0 <= kvs -> valid_pba g ->
  update m he h kvs g =
  set_ent he (mkHashEntry (Z.of_nat he - hash_to_hb_ m h) (hash_to_keytag_ m h)
                (Z.min kvs MAX_KV_SIZE) g) m.
Proof.
  intros Hin Hk Hg. unfold update. f_equal.
  pose proof (hash_to_hb_range m Hwf h) as Hr. unfold in_bucket, hb64 in Hin.
  change BUCKET with 32%nat in Hin.
  unfold set_pba, set_kv_size, set_key_tag, set_bucket_offset; simpl.
  f_equal; [rewrite (wrap_small 64)|..]; try apply wrap_small; unfold in_width.
  - change (2 ^ HOP_OFF_BITS) with 64. lia.
  - change (2 ^ 64) with 18446744073709551616. lia.
  - rewrite hash_to_keytag_wrap by done. by apply wrap_range.
  - change (2 ^ KV_SIZE_BITS) with 2048. change MAX_KV_SIZE with 2047. lia.
  - unfold valid_pba in Hg. change (2 ^ PBA_BITS) with (UNUSED_PBA_ENTRY + 1). lia.
Qed.

Lemma used_valid_pba (o t s g : Z) : valid_pba g -> used (mkHashEntry o t s g) = true.
Proof.
  unfold valid_pba, used. simpl. intros. apply negb_true_iff, Z.eqb_neq. lia.
Qed.

Lemma new_entry_wf (he : nat) (h kvs g : Z) :
  in_bucket m h he -> 0 <= kvs -> valid_pba g ->
  entry_wf (mkHashEntry (Z.of_nat he - hash_to_hb_ m h) (hash_to_keytag_ m h)
              (Z.min kvs MAX_KV_SIZE) g).
Proof.
  intros Hin Hk Hg. pose proof (hash_to_hb_range m Hwf h) as Hr.
  unfold in_bucket, hb64 in Hin. change BUCKET with 32%nat in Hin.
  constructor; simpl; unfold in_width.
  - change (2 ^ HOP_OFF_BITS) with 64. lia.
  - rewrite hash_to_keytag_wrap by done. by apply wrap_range.
  - change (2 ^ KV_SIZE_BITS) with 2048. change MAX_KV_SIZE with 2047. lia.
  - unfold valid_pba in Hg. change (2 ^ PBA_BITS) with (UNUSED_PBA_ENTRY + 1). lia.
Qed.

Lemma update_wf (he : nat) (h kvs g : Z) :
  in_bucket m h he -> 0 <= kvs -> valid_pba g -> map_wf (update m he h kvs g).
Proof.
  intros Hin Hk Hg. rewrite update_entry by done.
  apply set_ent_wf; [done|by apply new_entry_wf| |].
  2:{ by rewrite used_valid_pba. }
  intros _. simpl.
  pose proof (hash_to_hb_range m Hwf h). unfold in_bucket, hb64 in Hin.
  change BUCKET with 32%nat in Hin. unfold HOP_SCOTCH_BUCKET_SIZE. lia.
Qed.

Lemma live_new_entry (o t kvs g : Z) :
  valid_pba g -> 0 <= kvs ->
  live (mkHashEntry o t (Z.min kvs MAX_KV_SIZE) g) = (0 <? kvs).
Proof.
  intros Hg Hk. unfold live. rewrite used_valid_pba by done. unfold deleted. simpl.
  unfold DELETED_KV_SIZE_ENTRY. change MAX_KV_SIZE with 2047.
  destruct (Z.ltb_spec 0 kvs), (Z.eqb_spec (kvs `min` 2047) 0); simpl; lia || done.
Qed.

(** The slot just written carries the fingerprint of its hash. *)
Lemma update_home_ok (he : nat) (h kvs g : Z) :
  in_bucket m h he -> 0 <= kvs -> valid_pba g -> home_ok (update m he h kvs g) he.
Proof.
  intros Hin Hk Hg. rewrite update_entry by done.
  pose proof (bucket_in_range m Hwf h) as Hlen. pose proof (hash_to_hb_range m Hwf h) as Hr.
  unfold home_ok. rewrite ent_set_eq by (unfold in_bucket in Hin; lia). simpl.
  unfold in_bucket, hb64 in Hin. change BUCKET with 32%nat in Hin.
  unfold HOP_SCOTCH_BUCKET_SIZE. lia.
Qed.

Lemma update_keyfp (he : nat) (h kvs g : Z) :
  in_bucket m h he -> 0 <= kvs -> valid_pba g ->
  entry_keyfp (update m he h kvs g) he = hash_to_keyfp_ m h.
Proof.
  intros Hin Hk Hg. pose proof (update_wf he h kvs g Hin Hk Hg) as Hwf'.
  pose proof (update_home_ok he h kvs g Hin Hk Hg) as Hok.
  pose proof (bucket_in_range m Hwf h) as Hlen.
  pose proof (hash_to_hb_range m Hwf h) as Hr. symmetry.
  change (hash_to_keyfp_ m h) with (hash_to_keyfp_ (update m he h kvs g) h).
  apply (home_ok_match _ Hwf' h he Hok). rewrite update_entry by done.
  unfold home. rewrite ent_set_eq by (unfold in_bucket in Hin; lia). simpl. split; [|done].
  unfold hb64. simpl. f_equal.
  change (hash_to_hb_ (set_ent _ _ _) h) with (hash_to_hb_ m h). lia.
Qed.

Lemma update_live_at (he : nat) (h kvs g : Z) :
  in_bucket m h he -> 0 <= kvs -> valid_pba g ->
  live_at (update m he h kvs g) he =
  if 0 <? kvs then Some (hash_to_keyfp_ m h, Z.min kvs MAX_KV_SIZE, g) else None.
Proof.
  intros Hin Hk Hg. pose proof (update_keyfp he h kvs g Hin Hk Hg) as Hfp.
  unfold live_at, live_slot. rewrite update_entry in * by done.
  pose proof (bucket_in_range m Hwf h). unfold in_bucket in Hin.
  rewrite ent_set_eq by lia. rewrite live_new_entry by done.
  destruct (Z.ltb_spec 0 kvs) as [Hpos|]; [|done]. by rewrite Hfp.
Qed.

Lemma update_entries (he : nat) (h kvs g : Z) :
  free_slot m h he -> 0 <= kvs -> valid_pba g ->
  entries (update m he h kvs g) ≡ₚ
  (if 0 <? kvs then [(hash_to_keyfp_ m h, Z.min kvs MAX_KV_SIZE, g)] else []) ++ entries m.
Proof.
  intros (Hin & Hfree & _) Hk Hg. pose proof (update_live_at he h kvs g Hin Hk Hg) as Hla.
  pose proof (bucket_in_range m Hwf h) as Hlen.
  assert (he < length (ht_m m))%nat by (unfold in_bucket in Hin; lia).
  assert (live_at m he = None) as Hn by (unfold live_at; by rewrite Hfree).
  unfold entries, update. rewrite length_set_ent. fold (update m he h kvs g).
  assert (Hne : forall q, q <> he -> live_at m q = live_at (update m he h kvs g) q).
  { intros q ?. symmetry. by apply live_at_set_ne. }
  destruct (0 <? kvs); simpl.
  - by apply (bag_insert (live_at m) _ he).
  - erewrite bag_ext; [done|]. intros q ?.
    destruct (decide (q = he)) as [->|]; [by rewrite Hla, Hn|]. by rewrite Hne.
Qed.

Lemma update_chained (he : nat) (h kvs g : Z) :
  chained m -> free_slot m h he -> 0 <= kvs -> valid_pba g -> chained (update m he h kvs g).
Proof.
  intros Hc (Hin & _ & Hbefore) Hk Hg. rewrite update_entry by done.
  apply set_ent_chained; [done|intros _; by apply used_valid_pba|].
  intros _ q. simpl. intros Hq. apply Hbefore. unfold hb64. lia.
Qed.

Lemma insert_wf (he : nat) (h kvs g : Z) :
  in_bucket m h he -> 0 <= kvs -> valid_pba g -> map_wf (insert m he h kvs g).
Proof. intros. unfold insert. auto using used_entry_add_wf, update_wf. Qed.

Lemma insert_chained (he : nat) (h kvs g : Z) :
  chained m -> free_slot m h he -> 0 <= kvs -> valid_pba g -> chained (insert m he h kvs g).
Proof. apply update_chained. Qed.

Lemma insert_entries (he : nat) (h kvs g : Z) :
  free_slot m h he -> 0 <= kvs -> valid_pba g ->
  entries (insert m he h kvs g) ≡ₚ
  (if 0 <? kvs then [(hash_to_keyfp_ m h, Z.min kvs MAX_KV_SIZE, g)] else []) ++ entries m.
Proof. apply update_entries. Qed.

End Update.

(** ** In-place update, removal and purge *)

(** The fingerprint of a slot depends on its offset and tag only. *)
Lemma entry_keyfp_set (m : uDepotMap) (p : nat) (e : HashEntry) :
  (p < length (ht_m m))%nat -> bucket_offset e = bucket_offset (ent m p) ->
  key_tag e = key_tag (ent m p) -> entry_keyfp (set_ent p e m) p = entry_keyfp m p.
Proof. intros Hp Ho Ht. unfold entry_keyfp. by rewrite ent_set_eq, Ho, Ht. Qed.

Lemma set_ent_entries (m : uDepotMap) (p : nat) (e : HashEntry) :
  (p < length (ht_m m))%nat ->
  option_list (live_at (set_ent p e m) p) ++ entries m ≡ₚ
  option_list (live_at m p) ++ entries (set_ent p e m).
Proof.
  intros Hp. unfold entries. rewrite length_set_ent.
  apply (bag_update (live_at m)); [done|]. intros q ?. symmetry. by apply live_at_set_ne.
Qed.

Section Inplace.
Context (m : uDepotMap) (Hwf : map_wf m).

(** The slot a lookup of [h] returned already has the tag of [h]. *)
Lemma update_inplace_entry (he : nat) (h kvs g : Z) :
  matches m h he -> 0 <= kvs -> valid_pba g ->
  update_inplace m he h kvs g =
  set_ent he (mkHashEntry (bucket_offset (ent m he)) (key_tag (ent m he))
                (Z.min kvs MAX_KV_SIZE) g) m.
Proof.
  intros [Hl Hk] Hkv Hg.
  apply (keyfp_match m Hwf h he Hl) in Hk as [_ Ht].
  unfold update_inplace, set_pba, set_kv_size, set_key_tag; simpl. rewrite <- Ht.
  f_equal. f_equal; apply wrap_small.
  - apply (wf_entry _ Hwf he).
  - unfold in_width. change (2 ^ KV_SIZE_BITS) with 2048. change MAX_KV_SIZE with 2047. lia.
  - unfold valid_pba, in_width in *. change (2 ^ PBA_BITS) with (UNUSED_PBA_ENTRY + 1). lia.
Qed.

Lemma remove_entry (he : nat) (g : Z) :
  valid_pba g ->
  set_ent he (set_deleted (set_pba g (ent m he))) m =
  set_ent he (mkHashEntry (bucket_offset (ent m he)) (key_tag (ent m he)) 0 g) m.
Proof.
  intros Hg. unfold set_deleted, set_kv_size, set_pba; simpl. do 2 f_equal.
  apply wrap_small. unfold valid_pba, in_width in *.
  change (2 ^ PBA_BITS) with (UNUSED_PBA_ENTRY + 1). lia.
Qed.

(** Overwriting size and grain of a live slot keeps the invariants. *)
Lemma overwrite_wf (he : nat) (s g : Z) :
  live_slot m he = true -> in_width KV_SIZE_BITS s -> valid_pba g ->
  map_wf (set_ent he (mkHashEntry (bucket_offset (ent m he)) (key_tag (ent m he)) s g) m).
Proof.
  intros Hu Hs Hg. destruct (wf_entry _ Hwf he) as [Ho Ht _ _].
  apply set_ent_wf; [done| |intros _; by apply (wf_home _ Hwf he)|by rewrite used_valid_pba].
  constructor; simpl; auto. unfold valid_pba, in_width in *.
  change (2 ^ PBA_BITS) with (UNUSED_PBA_ENTRY + 1). lia.
Qed.

Lemma overwrite_chained (he : nat) (s g : Z) :
  chained m -> live_slot m he = true -> valid_pba g ->
  chained (set_ent he (mkHashEntry (bucket_offset (ent m he)) (key_tag (ent m he)) s g) m).
Proof.
  intros Hc Hl Hg. apply set_ent_chained; [done|intros _; by apply used_valid_pba|].
  intros _ q Hq. by apply (Hc he q Hl).
Qed.

Lemma live_at_live (he : nat) :
  live_slot m he = true ->
  live_at m he = Some (entry_keyfp m he, kv_size (ent m he), pba (ent m he)).
Proof. intros Hl. unfold live_at. by rewrite Hl. Qed.

Lemma update_inplace_wf (he : nat) (h kvs g : Z) :
  matches m h he -> 0 <= kvs -> valid_pba g -> map_wf (update_inplace m he h kvs g).
Proof.
  intros Hm Hk Hg. rewrite update_inplace_entry by done.
  apply overwrite_wf; [apply Hm| |done].
  unfold in_width. change (2 ^ KV_SIZE_BITS) with 2048. change MAX_KV_SIZE with 2047. lia.
Qed.

Lemma update_inplace_chained (he : nat) (h kvs g : Z) :
  chained m -> matches m h he -> 0 <= kvs -> valid_pba g -> chained (update_inplace m he h kvs g).
Proof.
  intros Hc Hm Hk Hg. rewrite update_inplace_entry by done.
  by apply overwrite_chained; [|apply Hm|].
Qed.

Lemma update_inplace_entries (he : nat) (h kvs g : Z) :
  matches m h he -> 0 < kvs -> valid_pba g ->
  exists rest,
    entries m ≡ₚ (hash_to_keyfp_ m h, kv_size (ent m he), pba (ent m he)) :: rest /\
    entries (update_inplace m he h kvs g) ≡ₚ
      (hash_to_keyfp_ m h, Z.min kvs MAX_KV_SIZE, g) :: rest.
Proof.
  intros [Hl Hk] Hkv Hg. pose proof (used_in_range m he (live_used m he Hl)) as Hlt.
  rewrite update_inplace_entry by (done || lia). unfold entries. rewrite length_set_ent.
  set (e := mkHashEntry _ _ _ _).
  assert (live_at (set_ent he e m) he = Some (hash_to_keyfp_ m h, Z.min kvs MAX_KV_SIZE, g)) as Hla.
  { unfold live_at, live_slot. rewrite entry_keyfp_set, ent_set_eq by done. unfold e.
    rewrite live_new_entry by (done || lia). rewrite Hk. by destruct (Z.ltb_spec 0 kvs); [|lia]. }
  eexists. split.
  - etrans; [apply (bag_split _ he); done|]. rewrite live_at_live, Hk by done. simpl. done.
  - etrans; [apply (bag_split _ he); done|]. rewrite Hla. simpl. apply Permutation_skip.
    rewrite (list_omap_ext _ (live_at m) _ (seq 0 he ++ seq (S he) (length (ht_m m) - S he)));
      [done|].
    apply Forall_Forall2_diag, Forall_app.
    split; apply Forall_seq; intros j ?; apply live_at_set_ne; lia.
Qed.

Lemma remove_wf (he : nat) (g : Z) :
  live_slot m he = true -> valid_pba g -> map_wf (remove m he g).
Proof.
  intros Hl Hg. unfold remove. rewrite remove_entry by done.
  by apply used_entry_add_wf, overwrite_wf.
Qed.

Lemma remove_chained (he : nat) (g : Z) :
  chained m -> live_slot m he = true -> valid_pba g -> chained (remove m he g).
Proof.
  intros Hc Hl Hg. unfold remove. rewrite remove_entry by done. by apply overwrite_chained.
Qed.

Lemma remove_entries (he : nat) (g : Z) :
  live_slot m he = true -> valid_pba g ->
  entries m ≡ₚ (entry_keyfp m he, kv_size (ent m he), pba (ent m he)) :: entries (remove m he g).
Proof.
  intros Hl Hg. unfold remove. rewrite remove_entry by done.
  pose proof (used_in_range m he (live_used m he Hl)) as Hlt.
  set (e := mkHashEntry _ _ _ _).
  change (entries (used_entry_add _ _ ?m')) with (entries m').
  pose proof (set_ent_entries m he e Hlt) as Hp.
  rewrite live_at_live in Hp by done.
  replace (live_at (set_ent he e m) he) with (@None (Z * Z * Z)) in Hp; [done|].
  unfold live_at, live_slot. rewrite ent_set_eq by done. unfold e, live. simpl.
  by rewrite andb_false_r.
Qed.

Lemma purge_at_wf (he : nat) : map_wf (purge_at m he).
Proof.
  unfold purge_at. apply set_ent_wf; [done|apply purge_wf, Hwf| |done].
  unfold live. by rewrite purge_unused.
Qed.

Lemma purge_at_entries (he : nat) :
  live_slot m he = false -> entries (purge_at m he) = entries m.
Proof.
  intros Hl. unfold entries, purge_at. rewrite length_set_ent. apply bag_ext.
  intros q Hq. destruct (decide (q = he)) as [->|]; [|by apply live_at_set_ne].
  unfold live_at. rewrite Hl. unfold live_slot. rewrite ent_set_eq by done.
  unfold live. by rewrite purge_unused.
Qed.

End Inplace.
