(* ===== verification/HopscotchInit.v ===== *)
(** * Sizing and initialisation of a hopscotch table

    [restore] rounds the memory it is given down to a power of two of home
    buckets plus one bucket of spill slots, and sizes the lock array so that one
    lock covers a whole displacement range; [init] also resets every entry. *)
From Stdlib Require Import ZArith Lia.
From stdpp Require Import base tactics list numbers.
From S2P Require Import Prelude Util HashEntry HopscotchMap HopscotchSpec.

Open Scope Z_scope.

(** What the lock sizing guarantees: the locks cover the table, and with more
    than one lock each covers a whole displacement range. *)
Definition locks_wf (m : uDepotMap) : Prop :=
  1 <= lock_nr_m m <= HOP_SCOTCH_LOCK_NR /\
  entry_nr_m m <= lock_nr_m m * entry_per_lock_nr_m m /\
  1 <= entry_per_lock_nr_m m <= entry_nr_m m /\
  (lock_nr_m m = 1 \/
   HOP_SCOTCH_BUCKET_SIZE * (1 + HOP_MAX_BUCKET_DISPLACE) <= entry_per_lock_nr_m m).

Lemma size_locks_spec (fuel : nat) (n l : Z) :
  0 < n < 2 ^ 63 -> 1 <= l < 2 ^ Z.of_nat fuel -> l <= 2 ^ 32 ->
  exists l' per, size_locks fuel n l = Some (l', per) /\ 1 <= l' <= l /\ n <= l' * per /\ 1 <= per <= n /\
    (l' = 1 \/ HOP_SCOTCH_BUCKET_SIZE * (1 + HOP_MAX_BUCKET_DISPLACE) <= per).
Proof.
  revert l. induction fuel as [|fuel IH]; intros l Hn Hl Hl32; [simpl in Hl; lia|].
  cbn [size_locks]. destruct (Z.eqb_spec 1 l) as [<-|Hne].
  { exists 1, n. repeat split; auto; lia. }
  destruct (Z.leb_spec (HOP_SCOTCH_BUCKET_SIZE * (1 + HOP_MAX_BUCKET_DISPLACE)) (udiv_round_up n l)).
  - pose proof (udiv_round_up_spec n l ltac:(lia) ltac:(lia) ltac:(lia)) as Hq.
    cbv zeta in Hq. unfold HOP_SCOTCH_BUCKET_SIZE, HOP_MAX_BUCKET_DISPLACE in *.
    exists l, (udiv_round_up n l). split; [done|].
    destruct Hq as [[? ?]|[? ?]]; [|lia]. repeat split; nia.
  - destruct (IH (l / 2)) as (l' & per & -> & Hl' & Hrest); [done|..].
    + pose proof (Z.div_le_lower_bound l 2 1). split; [lia|].
      rewrite Nat2Z.inj_succ, Z.pow_succ_r in Hl by lia.
      apply Z.div_lt_upper_bound; lia.
    + pose proof (Z.div_le_upper_bound l 2 (2 ^ 32)). lia.
    + exists l', per. split; [done|]. split; [|done].
      pose proof (Z.div_le_upper_bound l 2 l). lia.
Qed.

(** Home buckets of a table of [size] bytes. *)
Definition home_bits (size : Z) : Z := Z.log2 (size / 8 - HOP_SCOTCH_BUCKET_SIZE).

Section Restore.
Context (m : uDepotMap) (lock_nr size : Z) (words : list HashEntry).
Context (Hsize : 0 <= size < 2 ^ 64) (Hlock : 1 <= lock_nr <= HOP_SCOTCH_LOCK_NR).

Lemma align_down_entries : align_down size 8 / 8 = size / 8.
Proof.
  unfold align_down. simpl. rewrite wrap_small; [by rewrite Z.div_mul|].
  pose proof (Z.div_mod size 8). pose proof (Z.mod_pos_bound size 8).
  assert (0 <= size / 8) by (apply Z.div_pos; lia). unfold in_width. lia.
Qed.

Lemma restore_small (ht : option (list HashEntry)) :
  size / 8 < HOP_SCOTCH_BUCKET_SIZE \/ ht = None ->
  restore m lock_nr size ht = Some (EINVAL, m).
Proof.
  intros H. unfold restore. rewrite align_down_entries. destruct ht; [|done].
  destruct H as [H|?]; [|done]. apply Z.ltb_lt in H. by rewrite H, orb_true_r.
Qed.

Context (Hbig : HOP_SCOTCH_BUCKET_SIZE < size / 8).

Lemma home_bits_range : 0 <= home_bits size /\ 2 ^ home_bits size + HOP_SCOTCH_BUCKET_SIZE <= size / 8.
Proof.
  split; [apply Z.log2_nonneg|]. unfold home_bits.
  pose proof (Z.log2_spec (size / 8 - HOP_SCOTCH_BUCKET_SIZE)). lia.
Qed.

Lemma entries_bound : size / 8 < 2 ^ 61.
Proof. apply Z.div_lt_upper_bound; lia. Qed.

Lemma NUM_BITS_pred_pow2 (b : Z) : 0 <= b < 64 -> NUM_BITS (2 ^ b - 1) = b.
Proof.
  intros Hb. destruct (Z.eq_dec b 0) as [->|]; [done|].
  assert (2 ^ 1 <= 2 ^ b < 2 ^ 64).
  { split; [apply Z.pow_le_mono_r|apply Z.pow_lt_mono_r]; lia. }
  rewrite NUM_BITS_log2 by lia. rewrite Z.sub_1_r, Z.log2_pred_pow2; lia.
Qed.

Lemma restore_result : exists locks per,
  restore m lock_nr size (Some words) =
    Some (0, mkMap (2 ^ home_bits size + HOP_SCOTCH_BUCKET_SIZE) words
               (8 * (2 ^ home_bits size + HOP_SCOTCH_BUCKET_SIZE)) per locks
               (home_bits size) (used_entry_nr_m m)) /\
  1 <= locks <= lock_nr /\ 2 ^ home_bits size + HOP_SCOTCH_BUCKET_SIZE <= locks * per /\
  1 <= per <= 2 ^ home_bits size + HOP_SCOTCH_BUCKET_SIZE /\
  (locks = 1 \/ HOP_SCOTCH_BUCKET_SIZE * (1 + HOP_MAX_BUCKET_DISPLACE) <= per).
Proof.
  pose proof home_bits_range as [Hb0 Hb1]. pose proof entries_bound as Heb.
  unfold HOP_SCOTCH_BUCKET_SIZE in *. pose proof (pow2_pos _ Hb0).
  assert (home_bits size < 61) by (apply (Z.pow_lt_mono_r_iff 2); lia).
  destruct (size_locks_spec 64 (2 ^ home_bits size + 32) lock_nr)
    as (locks & per & Hsl & Hl & Hrest);
    [lia|unfold HOP_SCOTCH_LOCK_NR in Hlock; lia|unfold HOP_SCOTCH_LOCK_NR in Hlock; lia|].
  exists locks, per. split; [|done].
  unfold restore. rewrite align_down_entries.
  destruct (Z.eqb_spec 0 (align_down size 8)) as [Hz|].
  { pose proof align_down_entries as Ha. rewrite <- Hz in Ha. change (0 / 8) with 0 in Ha. lia. }
  destruct (Z.ltb_spec (size / 8) HOP_SCOTCH_BUCKET_SIZE); [unfold HOP_SCOTCH_BUCKET_SIZE in *; lia|].
  cbn [orb]. cbv zeta. unfold HOP_SCOTCH_BUCKET_SIZE in *.
  rewrite (wrap_small 64 (size / 8 - 32)) by (unfold in_width; lia).
  rewrite round_down_pow2_spec by lia. fold HOP_SCOTCH_BUCKET_SIZE.
  fold (home_bits size). unfold HOP_SCOTCH_BUCKET_SIZE.
  rewrite (wrap_small 64 (2 ^ home_bits size + 32)) by (unfold in_width; lia).
  replace (2 ^ home_bits size + 32 - 32 - 1) with (2 ^ home_bits size - 1) by lia.
  rewrite (wrap_small 64 (2 ^ home_bits size - 1)) by (unfold in_width; lia).
  rewrite NUM_BITS_pred_pow2 by lia. rewrite Hsl.
  rewrite wrap_small by (unfold in_width; lia). by rewrite Z.mul_comm.
Qed.

End Restore.

Lemma memset_ent (words : list HashEntry) (n k l b u : Z) (c : list Z) (p : nat) :
  let e := ent (mkMap n (memset_ones words) k l b u c) p in
  used e = false /\ deleted e = false /\ entry_wf e.
Proof.
  unfold ent, memset_ones. simpl. rewrite list_lookup_fmap.
  destruct (words !! p); simpl; (split; [done|]); (split; [done|]);
    [apply of_word_wf|apply HashEntry_default_wf].
Qed.

(** An empty table: nothing was ever used. *)
Lemma init_result (m : uDepotMap) (lock_nr size : Z) (words : list HashEntry) :
  0 <= size < 2 ^ 64 -> 1 <= lock_nr <= HOP_SCOTCH_LOCK_NR ->
  HOP_SCOTCH_BUCKET_SIZE < size / 8 <= Z.of_nat (length words) -> home_bits size <= 32 ->
  Z.of_nat (length (used_entry_nr_m m)) = HOP_SCOTCH_LOCK_NR ->
  exists m', init m lock_nr size (Some words) = Some (0, m') /\
    map_wf m' /\ locks_wf m' /\ (forall p, used (ent m' p) = false) /\
    entry_nr_bits_m m' = home_bits size /\ used_entry_nr_m m' = used_entry_nr_m m.
Proof.
  intros Hs Hl [Hb Hw] Hbits Hu.
  destruct (restore_result m lock_nr size words Hs Hl Hb) as (locks & per & Hr & Hlk & Hcov & Hle & Hper).
  pose proof (home_bits_range size Hb) as [Hb0 Hb1].
  unfold init. rewrite Hr. eexists. split; [done|]. simpl.
  pose proof (memset_ent words (2 ^ home_bits size + HOP_SCOTCH_BUCKET_SIZE)
    (8 * (2 ^ home_bits size + HOP_SCOTCH_BUCKET_SIZE)) per locks
    (home_bits size) (used_entry_nr_m m)) as Hent. cbv zeta in Hent.
  split; [constructor; simpl; auto|split; [|split; [intros p; apply Hent|done]]].
  - unfold memset_ones. rewrite length_fmap. lia.
  - intros p. apply Hent.
  - intros p Hlive%live_used. by rewrite (proj1 (Hent p)) in Hlive.
  - intros p _. apply Hent.
  - split; [simpl; lia|]. done.
Qed.

Lemma unused_entries (m : uDepotMap) :
  (forall p, used (ent m p) = false) -> entries m = [] /\ chained m.
Proof.
  intros Hu. split.
  - unfold entries, bag. generalize (seq 0 (length (ht_m m))). intros l.
    induction l as [|p l IH]; simpl; [done|]. unfold live_at at 1, live_slot.
    unfold live. rewrite Hu. simpl. exact IH.
  - intros p q Hl _. apply live_used in Hl. by rewrite Hu in Hl.
Qed.
