(* ===== verification/HopscotchRefine.v ===== *)
(** * Refinement of the hopscotch table to a bag

    The operations clients compose ([lookup]/[next], then [insert],
    [update_inplace] or [remove]) as a step relation, the abstract bag they act
    on, and the invariants and content of every table reachable from [init]. *)
From Stdlib Require Import ZArith Lia.
From stdpp Require Import base tactics list numbers relations.
From S2P Require Import Prelude Util HashEntry HopscotchMap HopscotchSpec HopscotchInit.

Open Scope Z_scope.

(** ** Specification *)

Abbreviation triple := (Z * Z * Z)%type.

Definition fp_of (t : triple) : Z := t.1.1.

(** Abstract operations on the bag of (fingerprint, size, grain) triples. *)
Inductive bag_op :=
  | Add (t : triple)
  | Replace (told tnew : triple)
  | Del (t : triple).

Inductive bag_step : list triple -> bag_op -> list triple -> Prop :=
  | bag_add l l' t : l' ≡ₚ t :: l -> bag_step l (Add t) l'
  | bag_replace l l' rest t t' :
      l ≡ₚ t :: rest -> l' ≡ₚ t' :: rest -> fp_of t = fp_of t' ->
      bag_step l (Replace t t') l'
  | bag_del l l' t : l ≡ₚ t :: l' -> bag_step l (Del t) l'.

(** The slots a client visits: [lookup], then [next] until it returns null. *)
Inductive found (m : uDepotMap) (h : Z) : nat -> Prop :=
  | found_lookup p : lookup m h = (0, Some p) -> found m h p
  | found_next p q : found m h p -> next m (Some p) h = Some q -> found m h q.

(** The slots a client gets for a new entry. *)
Inductive granted (m : uDepotMap) (h : Z) : nat -> Prop :=
  | granted_lookup p : lookup m h = (ENODATA, Some p) -> granted m h p
  | granted_next_free p : next_free m h = (0, Some p) -> granted m h p.

Inductive map_step (m : uDepotMap) : bag_op -> uDepotMap -> Prop :=
  | step_insert h kvs g p :
      granted m h p -> 0 < kvs -> valid_pba g ->
      map_step m (Add (hash_to_keyfp_ m h, Z.min kvs MAX_KV_SIZE, g)) (insert m p h kvs g)
  | step_update h kvs g p :
      found m h p -> 0 < kvs -> valid_pba g ->
      map_step m (Replace (hash_to_keyfp_ m h, kv_size (ent m p), pba (ent m p))
                    (hash_to_keyfp_ m h, Z.min kvs MAX_KV_SIZE, g))
        (update_inplace m p h kvs g)
  | step_remove h g p :
      found m h p -> valid_pba g ->
      map_step m (Del (hash_to_keyfp_ m h, kv_size (ent m p), pba (ent m p))) (remove m p g).

(** The occupancy counters count live entries by home bucket modulo the number
    of counters, as 64-bit words. *)
Definition home_count (m : uDepotMap) (i : nat) : Z :=
  Z.of_nat (length (filter
    (fun t => used_entry_idx m (fp_of t) = i) (entries m))).

Definition counters_exact (m : uDepotMap) : Prop :=
  forall i, (i < length (used_entry_nr_m m))%nat ->
    used_entry_nr_m m !! i = Some (u64 (home_count m i)).

Record map_inv (m : uDepotMap) : Prop := {
  inv_wf : map_wf m;
  inv_chained : chained m;
  inv_counters : counters_exact m;
}.

(** The loop [for (p = lookup(h); p; p = next(p, h))] as the list it visits;
    a bucket has [BUCKET] slots, which bounds the iterations. *)
Fixpoint next_list (fuel : nat) (m : uDepotMap) (h : Z) (p : nat) : list nat :=
  p :: match fuel with
       | O => []
       | S fuel' =>
           match next m (Some p) h with
           | None => []
           | Some q => next_list fuel' m h q
           end
       end.

Definition found_list (m : uDepotMap) (h : Z) : list nat :=
  match lookup m h with
  | (0, Some p) => next_list BUCKET m h p
  | _ => []
  end.

(** ** Counters *)

Lemma used_entry_idx_keyfp (m : uDepotMap) (h : Z) :
  map_wf m -> used_entry_idx m (hash_to_keyfp_ m h) = used_entry_idx m h.
Proof.
  intros Hwf. unfold used_entry_idx. rewrite !hash_to_hb_wrap, hash_to_keyfp_wrap by done.
  destruct (wf_bits _ Hwf). rewrite wrap_narrow; [done|]. unfold KEYTAG_BITS. lia.
Qed.

Lemma used_entry_idx_range (m : uDepotMap) (h : Z) :
  map_wf m -> (used_entry_idx m h < length (used_entry_nr_m m))%nat.
Proof.
  intros Hwf. pose proof (wf_counters _ Hwf) as Hc. unfold used_entry_idx.
  pose proof (Z.mod_pos_bound (hash_to_hb_ m h) (Z.of_nat (length (used_entry_nr_m m)))).
  unfold HOP_SCOTCH_LOCK_NR in Hc. lia.
Qed.

Lemma wrap_add_l (b x y : Z) : wrap b (wrap b x + y) = wrap b (x + y).
Proof. unfold wrap. by rewrite Zplus_mod_idemp_l. Qed.

(** One counter moves by [d] when the bag's count of its class moves by [d]. *)
Lemma counters_step (m m' : uDepotMap) (d h : Z) :
  counters_exact m ->
  used_entry_nr_m m' =
    alter (fun c => u64 (c + d)) (used_entry_idx m h) (used_entry_nr_m m) ->
  (forall i, home_count m' i =
     home_count m i + if decide (used_entry_idx m h = i) then d else 0) ->
  counters_exact m'.
Proof.
  intros Hc Hu Hcount i Hi. rewrite Hu, length_alter in Hi.
  rewrite Hu, Hcount. specialize (Hc i Hi). case_decide as Hd.
  - rewrite Hd. rewrite list_lookup_alter_eq, Hc. simpl. by rewrite wrap_add_l.
  - rewrite list_lookup_alter_ne by done. by rewrite Z.add_0_r.
Qed.

Lemma home_count_cons (m m' : uDepotMap) (t : triple) (l : list triple) (i : nat) :
  entries m' ≡ₚ t :: l -> (forall h, used_entry_idx m' h = used_entry_idx m h) ->
  home_count m' i =
  Z.of_nat (length (filter (fun t => used_entry_idx m (fp_of t) = i) l))
  + if decide (used_entry_idx m (fp_of t) = i) then 1 else 0.
Proof.
  intros Hp Hidx. unfold home_count.
  rewrite (list_filter_iff _ (fun t => used_entry_idx m (fp_of t) = i))
    by (intros; by rewrite Hidx).
  rewrite Hp, filter_cons. case_decide; simpl; lia.
Qed.

(** ** Steps preserve the invariants *)

Lemma found_matches (m : uDepotMap) (h : Z) (p : nat) :
  map_wf m -> found m h p -> matches m h p.
Proof.
  intros Hwf. induction 1 as [p Hl|p q _ _ Hn].
  - destruct (lookup_cases m Hwf h) as [(q & Hq & Hm & _)|[(q & Hq & _)|[Hq _]]];
      by rewrite Hl in Hq; simplify_eq.
  - pose proof (next_cases m Hwf h p) as Hc. rewrite Hn in Hc. by destruct Hc as (_ & ? & _).
Qed.

Lemma granted_free (m : uDepotMap) (h : Z) (p : nat) :
  map_wf m -> granted m h p -> free_slot m h p.
Proof.
  intros Hwf. destruct 1 as [p Hl|p Hl].
  - destruct (lookup_cases m Hwf h) as [(q & Hq & _)|[(q & Hq & Hf & _)|[Hq _]]];
      by rewrite Hl in Hq; simplify_eq.
  - destruct (next_free_cases m Hwf h) as [(q & Hq & Hf)|[Hq _]];
      by rewrite Hl in Hq; simplify_eq.
Qed.

(** Insertion moves the counter of its bucket with the bag. *)
Lemma insert_counters (m : uDepotMap) (h kvs g : Z) (p : nat) :
  map_wf m -> counters_exact m -> free_slot m h p -> 0 < kvs -> valid_pba g ->
  counters_exact (insert m p h kvs g) /\
  entries (insert m p h kvs g) ≡ₚ (hash_to_keyfp_ m h, Z.min kvs MAX_KV_SIZE, g) :: entries m.
Proof.
  intros Hwf Hcnt Hf Hk Hg. pose proof (insert_entries m Hwf p h kvs g Hf ltac:(lia) Hg) as He.
  rewrite (proj2 (Z.ltb_lt 0 kvs)) in He by done. simpl in He. split; [|done].
  apply (counters_step m _ 1 h); [done|done|]. intros i.
  rewrite (home_count_cons m _ _ _ i He).
  - change (fp_of (?x, _, _)) with x. by rewrite used_entry_idx_keyfp.
  - intros h'. unfold used_entry_idx. simpl. by rewrite length_alter.
Qed.

Section Steps.
Context (m : uDepotMap) (Hinv : map_inv m).

Local Lemma Hwf : map_wf m.
Proof. apply Hinv. Qed.

Lemma insert_step (h kvs g : Z) (p : nat) :
  free_slot m h p -> 0 < kvs -> valid_pba g ->
  map_inv (insert m p h kvs g) /\
  entries (insert m p h kvs g) ≡ₚ (hash_to_keyfp_ m h, Z.min kvs MAX_KV_SIZE, g) :: entries m.
Proof.
  intros Hf Hk Hg. pose proof (inv_counters m Hinv) as Hcnt.
  destruct (insert_counters m h kvs g p Hwf Hcnt Hf Hk Hg) as [Hcnt' He]. split; [|done].
  pose proof (inv_chained m Hinv).
  split; [|apply insert_chained; auto using Hwf; lia|done].
  destruct Hf as (Hin & _ & _). apply insert_wf; auto using Hwf; lia.
Qed.

Lemma update_inplace_step (h kvs g : Z) (p : nat) :
  matches m h p -> 0 < kvs -> valid_pba g ->
  map_inv (update_inplace m p h kvs g) /\
  bag_step (entries m)
    (Replace (hash_to_keyfp_ m h, kv_size (ent m p), pba (ent m p))
       (hash_to_keyfp_ m h, Z.min kvs MAX_KV_SIZE, g))
    (entries (update_inplace m p h kvs g)).
Proof.
  intros Hm Hk Hg.
  destruct (update_inplace_entries m Hwf p h kvs g Hm Hk Hg) as (rest & He & He').
  split; [|by eapply bag_replace]. destruct Hinv as [_ Hch Hcnt]. split.
  - apply update_inplace_wf; auto using Hwf; lia.
  - apply update_inplace_chained; auto using Hwf; lia.
  - intros i Hi. rewrite (home_count_cons m _ _ _ i He') by done.
    change (used_entry_nr_m (update_inplace m p h kvs g)) with (used_entry_nr_m m).
    rewrite (Hcnt i Hi), (home_count_cons m m _ _ i He) by done. done.
Qed.

Lemma remove_step (g : Z) (p : nat) :
  live_slot m p = true -> valid_pba g ->
  map_inv (remove m p g) /\
  entries m ≡ₚ (entry_keyfp m p, kv_size (ent m p), pba (ent m p)) :: entries (remove m p g).
Proof.
  intros Hl Hg. pose proof (remove_entries m p g Hl Hg) as He. split; [|done].
  destruct Hinv as [_ Hch Hcnt]. split.
  - by apply remove_wf; [apply Hwf|..].
  - by apply remove_chained.
  - apply (counters_step m _ (-1) (entry_keyfp m p)); [done|..].
    + unfold remove. rewrite remove_entry by done. simpl.
      by rewrite entry_keyfp_set by (done || apply used_in_range, live_used, Hl).
    + intros i. unfold home_count at 1.
      rewrite (list_filter_iff _ (fun t => used_entry_idx m (fp_of t) = i)).
      2:{ intros t. unfold used_entry_idx. simpl. by rewrite length_alter. }
      rewrite (home_count_cons m m _ _ i He) by done.
      change (fp_of (?x, _, _)) with x. case_decide; lia.
Qed.

Lemma map_step_sim (o : bag_op) (m' : uDepotMap) :
  map_step m o m' -> map_inv m' /\ bag_step (entries m) o (entries m').
Proof.
  destruct 1 as [h kvs g p Hgr Hk Hg|h kvs g p Hfd Hk Hg|h g p Hfd Hg].
  - apply granted_free in Hgr; [|apply Hwf].
    destruct (insert_step h kvs g p) as [? ?]; auto. split; [done|]. by constructor.
  - apply found_matches in Hfd; [|apply Hwf]. by apply update_inplace_step.
  - apply found_matches in Hfd as [Hl Hfp]; [|apply Hwf].
    destruct (remove_step g p) as [? ?]; auto. split; [done|].
    constructor. by rewrite Hfp.
Qed.

End Steps.

(** Runs of the table and of the bag, over the same sequence of operations. *)
Inductive map_run : uDepotMap -> list bag_op -> uDepotMap -> Prop :=
  | map_run_nil m : map_run m [] m
  | map_run_cons m m' m'' o os :
      map_step m o m' -> map_run m' os m'' -> map_run m (o :: os) m''.

Inductive bag_run : list triple -> list bag_op -> list triple -> Prop :=
  | bag_run_nil l : bag_run l [] l
  | bag_run_cons l l' l'' o os :
      bag_step l o l' -> bag_run l' os l'' -> bag_run l (o :: os) l''.

Lemma map_run_sim (m m' : uDepotMap) (os : list bag_op) :
  map_run m os m' -> map_inv m -> map_inv m' /\ bag_run (entries m) os (entries m').
Proof.
  induction 1 as [m|m m1 m' o os Hs _ IH]; intros Hinv; [by split; [|constructor]|].
  destruct (map_step_sim m Hinv o m1 Hs) as [Hinv1 Hb].
  destruct (IH Hinv1) as [Hinv' Hr]. split; [done|]. by econstructor.
Qed.

(** ** The client's loop visits every match *)

Definition matchesb (m : uDepotMap) (h : Z) (q : nat) : bool :=
  live_slot m q && (hash_to_keyfp_ m h =? entry_keyfp m q).

Lemma matchesb_spec (m : uDepotMap) (h : Z) (q : nat) :
  matchesb m h q = true <-> matches m h q.
Proof. unfold matchesb, matches. rewrite andb_true_iff, Z.eqb_eq. done. Qed.

(** The slots of [lo .. lo + n) that match. *)
Definition match_slots (m : uDepotMap) (h : Z) (lo n : nat) : list nat :=
  filter (fun q => matchesb m h q = true) (seq lo n).

Lemma match_slots_none (m : uDepotMap) (h : Z) (lo n : nat) :
  (forall r, (lo <= r < lo + n)%nat -> ~ matches m h r) -> match_slots m h lo n = [].
Proof.
  revert lo. induction n as [|n IH]; intros lo Hno; [done|].
  unfold match_slots. simpl. rewrite filter_cons_False.
  - apply IH. intros r ?. apply Hno. lia.
  - intros Hm%matchesb_spec. apply (Hno lo); [lia|done].
Qed.

Lemma match_slots_app (m : uDepotMap) (h : Z) (lo k n : nat) :
  match_slots m h lo (k + n) = match_slots m h lo k ++ match_slots m h (lo + k) n.
Proof. unfold match_slots. by rewrite seq_app, filter_app. Qed.

Lemma match_slots_skip (m : uDepotMap) (h : Z) (lo k n : nat) :
  (forall r, (lo <= r < lo + k)%nat -> ~ matches m h r) ->
  match_slots m h lo (k + n) = match_slots m h (lo + k) n.
Proof.
  intros Hno. by rewrite match_slots_app, (match_slots_none m h lo k).
Qed.

Lemma match_slots_first (m : uDepotMap) (h : Z) (lo p n : nat) :
  (lo <= p < lo + n)%nat -> matches m h p ->
  (forall r, (lo <= r < p)%nat -> ~ matches m h r) ->
  match_slots m h lo n = p :: match_slots m h (S p) (lo + n - S p).
Proof.
  intros Hp Hm Hno. replace n with ((p - lo) + S (lo + n - S p))%nat by lia.
  rewrite match_slots_skip by (intros r ?; apply Hno; lia).
  replace (lo + (p - lo))%nat with p by lia. unfold match_slots at 1. simpl.
  rewrite filter_cons_True by (by apply matchesb_spec). unfold match_slots.
  do 3 f_equal; lia.
Qed.

Section Visit.
Context (m : uDepotMap) (Hwf : map_wf m).

Lemma next_list_spec (h : Z) (fuel p : nat) :
  (hb64 m h <= p)%nat -> (hb64 m h + BUCKET <= S p + fuel)%nat ->
  next_list fuel m h p = p :: match_slots m h (S p) (hb64 m h + BUCKET - S p).
Proof.
  revert p. induction fuel as [|fuel IH]; intros p Hlo Hfuel; cbn [next_list]; f_equal.
  { by replace (hb64 m h + BUCKET - S p)%nat with O by lia. }
  pose proof (next_cases m Hwf h p) as Hn. destruct (next m (Some p) h) as [q|].
  - destruct Hn as (Hpq & Hm & Hno). pose proof (matches_in_bucket m Hwf h q Hm) as Hin.
    unfold in_bucket in Hin. rewrite IH by lia.
    rewrite (match_slots_first m h (S p) q); [|lia|done|intros; apply Hno; lia].
    do 2 f_equal. lia.
  - symmetry. apply match_slots_none. intros j ? Hj. apply (Hn j); [lia|done].
Qed.

Lemma found_list_spec (h : Z) :
  chained m -> found_list m h = match_slots m h (hb64 m h) BUCKET.
Proof.
  intros Hc. unfold found_list.
  destruct (lookup_cases m Hwf h) as [(p & -> & Hm & Hno)|[(p & -> & _ & Hno)|(-> & _ & Hno)]].
  - pose proof (matches_in_bucket m Hwf h p Hm) as Hin. unfold in_bucket in Hin.
    rewrite next_list_spec by lia. symmetry. by apply match_slots_first.
  - symmetry. apply match_slots_none. intros j _. by apply Hno.
  - symmetry. apply match_slots_none. intros j _. by apply Hno.
Qed.

(** The matches of a bucket are the entries of the whole table with that
    fingerprint. *)
Lemma match_slots_entries (h : Z) :
  omap (live_at m) (match_slots m h (hb64 m h) BUCKET) =
  filter (fun t => fp_of t = hash_to_keyfp_ m h) (entries m).
Proof.
  pose proof (bucket_in_range m Hwf h) as Hlen.
  assert (match_slots m h (hb64 m h) BUCKET = match_slots m h 0 (length (ht_m m))) as ->.
  { replace (length (ht_m m)) with
      (hb64 m h + (BUCKET + (length (ht_m m) - (hb64 m h + BUCKET))))%nat by lia.
    assert (Hout : forall r, matches m h r -> in_bucket m h r) by apply (matches_in_bucket m Hwf h).
    unfold in_bucket in Hout. rewrite match_slots_skip by (intros r ? ?%Hout; lia).
    rewrite match_slots_app, (match_slots_none m h (0 + hb64 m h + BUCKET)).
    - by rewrite app_nil_r.
    - intros r ? ?%Hout. lia. }
  unfold match_slots, entries, bag. induction (seq 0 (length (ht_m m))) as [|p l IH]; [done|].
  rewrite filter_cons. cbn [omap list_omap]. fold (omap (M:=list) (live_at m)).
  destruct (live_slot m p) eqn:Hl.
  - rewrite (live_at_live m p Hl), filter_cons. change (fp_of (?x, _, _)) with x.
    case_decide as Hm; [apply matchesb_spec in Hm as [_ Hm]|].
    + rewrite decide_True by done. cbn [omap list_omap].
      rewrite (live_at_live m p Hl). f_equal. exact IH.
    + rewrite decide_False; [exact IH|]. intros Heq. apply Hm, matchesb_spec. by split.
  - assert (live_at m p = None) as -> by (unfold live_at; by rewrite Hl).
    rewrite decide_False; [exact IH|]. intros [Hc _]%matchesb_spec. congruence.
Qed.

End Visit.

(** ** Theorems *)

Lemma elem_of_entries (m : uDepotMap) (t : triple) :
  t ∈ entries m <-> exists p, live_slot m p = true /\
    t = (entry_keyfp m p, kv_size (ent m p), pba (ent m p)).
Proof.
  unfold entries. rewrite elem_of_bag. split.
  - intros (p & _ & Hp). exists p. unfold live_at in Hp.
    destruct (live_slot m p); [|done]. by simplify_eq.
  - intros (p & Hl & ->). exists p. split; [by apply used_in_range, live_used|].
    by apply live_at_live.
Qed.

(** A small table: 64 slots, 32 home buckets. *)
Definition table64 : uDepotMap :=
  match init uDepotMap_new HOP_SCOTCH_LOCK_NR 512 (Some (replicate 64 HashEntry_default)) with
  | Some (_, m) => m
  | None => uDepotMap_new
  end.

Lemma init_inv (lock_nr size : Z) (words : list HashEntry) (m0 : uDepotMap) :
  0 <= size < 2 ^ 64 -> 1 <= lock_nr <= HOP_SCOTCH_LOCK_NR ->
  HOP_SCOTCH_BUCKET_SIZE < size / 8 <= Z.of_nat (length words) -> home_bits size <= 32 ->
  init uDepotMap_new lock_nr size (Some words) = Some (0, m0) ->
  map_inv m0 /\ locks_wf m0 /\ entries m0 = [] /\ entry_nr_bits_m m0 = home_bits size.
Proof.
  intros Hs Hl Hb Hbits Hi.
  destruct (init_result uDepotMap_new lock_nr size words Hs Hl Hb Hbits)
    as (m & Hi' & Hwf & Hlk & Hu & Hbm & Hcnt); [done|].
  rewrite Hi in Hi'. simplify_eq. destruct (unused_entries m Hu) as [He Hc].
  split; [split; [done|done|]|done].
  intros i Hlt. rewrite Hcnt in *. unfold home_count. rewrite He.
  unfold uDepotMap_new, used_entry_nr_m in *.
  apply lookup_replicate_2. by rewrite length_replicate in Hlt.
Qed.

Lemma table64_inv : map_inv table64.
Proof.
  eapply (init_inv HOP_SCOTCH_LOCK_NR 512 (replicate 64 HashEntry_default)).
  5:{ vm_compute. reflexivity. }
  all: unfold HOP_SCOTCH_LOCK_NR, HOP_SCOTCH_BUCKET_SIZE; rewrite ?length_replicate;
    change (512 / 8) with 64; change (home_bits 512) with 5; lia.
Qed.

(** C10: every table reached from [init] by the inserts, in-place updates and
    removals its clients make (on slots [lookup], [next] and [next_free] gave
    them) is well formed, chained and counts its live entries exactly, and its
    content is what the same operations make of an empty bag. *)
Theorem hopscotch_refines_bag (lock_nr size : Z) (words : list HashEntry)
    (m0 m : uDepotMap) (os : list bag_op) :
  0 <= size < 2 ^ 64 -> 1 <= lock_nr <= HOP_SCOTCH_LOCK_NR ->
  HOP_SCOTCH_BUCKET_SIZE < size / 8 <= Z.of_nat (length words) -> home_bits size <= 32 ->
  init uDepotMap_new lock_nr size (Some words) = Some (0, m0) ->
  map_run m0 os m ->
  map_inv m /\ bag_run [] os (entries m).
Proof.
  intros Hs Hl Hb Hbits Hi Hrun.
  destruct (init_inv lock_nr size words m0 Hs Hl Hb Hbits Hi) as (Hinv & _ & He & _).
  rewrite <- He. by apply map_run_sim.
Qed.

Lemma hopscotch_refines_bag_witness :
  exists m os, map_run table64 os m /\ length os = 2%nat /\ map_inv m /\ bag_run [] os (entries m).
Proof.
  eexists (remove (insert table64 5 5 3 100) 5 0), _.
  match goal with |- ?R /\ _ => assert R as Hrun end.
  { eapply map_run_cons; [eapply (step_insert _ 5 3 100 5)|].
    - apply granted_lookup. vm_compute. reflexivity.
    - lia.
    - unfold valid_pba. vm_compute. done.
    - eapply map_run_cons; [eapply (step_remove _ 5 0 5)|apply map_run_nil].
      + apply found_lookup. vm_compute. reflexivity.
      + unfold valid_pba. vm_compute. done. }
  split; [exact Hrun|]. split; [reflexivity|].
  eapply (hopscotch_refines_bag HOP_SCOTCH_LOCK_NR 512 (replicate 64 HashEntry_default) table64).
  5:{ vm_compute. reflexivity. }
  5:{ exact Hrun. }
  all: unfold HOP_SCOTCH_LOCK_NR, HOP_SCOTCH_BUCKET_SIZE; rewrite ?length_replicate;
    change (512 / 8) with 64; change (home_bits 512) with 5; lia.
Defined.

(** C18: in a chained table [lookup] and [next] visit, in slot order, exactly the
    live entries of the whole table that carry the fingerprint of the hash;
    [lookup] reports ENODATA with a slot that can take a new entry when there is
    none, and ENOSPC exactly when moreover every slot of the bucket is live. *)
Theorem lookup_next_complete (m : uDepotMap) (h : Z) :
  map_wf m -> chained m ->
  omap (live_at m) (found_list m h) =
    filter (fun t => fp_of t = hash_to_keyfp_ m h) (entries m) /\
  ((lookup m h).1 = 0 <-> exists t, t ∈ entries m /\ fp_of t = hash_to_keyfp_ m h) /\
  (forall p, lookup m h = (ENODATA, Some p) -> free_slot m h p) /\
  (lookup m h = (ENOSPC, None) <->
   (forall t, t ∈ entries m -> fp_of t <> hash_to_keyfp_ m h) /\
   forall p, in_bucket m h p -> live_slot m p = true).
Proof.
  intros Hwf Hc. split; [by rewrite found_list_spec, match_slots_entries|].
  assert (Hm : (exists t, t ∈ entries m /\ fp_of t = hash_to_keyfp_ m h)
               <-> exists q, matches m h q).
  { split.
    - intros (t & (p & Hl & ->)%elem_of_entries & Hfp). by exists p.
    - intros (p & Hl & Hfp). eexists. split; [by apply elem_of_entries; exists p|done]. }
  rewrite Hm.
  assert (Hn : (forall t, t ∈ entries m -> fp_of t <> hash_to_keyfp_ m h)
               <-> forall q, ~ matches m h q).
  { split.
    - intros Hall q Hq. destruct (proj2 Hm (ex_intro _ q Hq)) as (t & ? & ?). by apply (Hall t).
    - intros Hall t Ht Hfp. destruct (proj1 Hm (ex_intro _ t (conj Ht Hfp))) as [q ?].
      by apply (Hall q). }
  rewrite Hn.
  destruct (lookup_cases m Hwf h) as [(p & -> & Hp & _)|[(p & -> & Hf & Hno)|(-> & Hall & Hno)]].
  - split; [by split; [exists p|]|]. split; [done|]. split; [done|]. intros [Hno _]. by destruct (Hno p).
  - split; [split; [done|]; intros [q Hq]; by destruct (Hno Hc q)|].
    split; [by intros ? [= <-]|]. split; [done|]. intros [_ Hl].
    destruct Hf as (Hin & Hnl & _). rewrite Hl in Hnl; done.
  - split; [split; [done|]; intros [q Hq]; by destruct (Hno q)|].
    split; [done|]. split; [|done]. intros _. split; [done|]. intros p Hp. by apply Hall.
Qed.

Lemma lookup_next_complete_witness :
  omap (live_at (insert table64 5 5 3 100)) (found_list (insert table64 5 5 3 100) 5) = [(5, 3, 100)].
Proof.
  assert (map_inv (insert table64 5 5 3 100)) as [Hwf Hc _].
  { apply insert_step; [apply table64_inv| |lia|vm_compute; done].
    apply granted_free; [apply table64_inv|]. apply granted_lookup. vm_compute. reflexivity. }
  rewrite (proj1 (lookup_next_complete _ 5 Hwf Hc)). vm_compute. reflexivity.
Defined.

(** Purging a tombstone hides the entries behind it: when the live entries
    with the fingerprint of [h] all lie behind the purged slot in their bucket,
    they are still in the table, and [lookup] nevertheless reports ENODATA. *)
Theorem purge_hides (m : uDepotMap) (h : Z) (he q : nat) :
  map_wf m -> live_slot m he = false -> in_bucket m h he ->
  matches m h q -> (forall r, matches m h r -> (he < r)%nat) ->
  entries (purge_at m he) = entries m /\ matches (purge_at m he) h q /\
  exists p, lookup (purge_at m he) h = (ENODATA, Some p).
Proof.
  intros Hwf Hnl Hin Hq Hbehind. split; [by apply purge_at_entries|].
  pose proof (purge_at_wf m Hwf he) as Hwf'. pose proof (bucket_in_range m Hwf h) as Hlen.
  assert (Hhe : used (ent (purge_at m he) he) = false).
  { unfold purge_at. rewrite ent_set_eq; [apply purge_unused|]. unfold in_bucket in Hin. lia. }
  assert (Hsame : forall r, r <> he -> ent (purge_at m he) r = ent m r).
  { intros r ?. by apply ent_set_ne. }
  assert (Hmr : forall r, matches (purge_at m he) h r <-> matches m h r).
  { intros r. destruct (decide (r = he)) as [->|Hne].
    - split; intros [Hl _]; [|congruence]. apply live_used in Hl. congruence.
    - unfold matches, live_slot. by rewrite (entry_keyfp_ext m (purge_at m he)), Hsame by auto. }
  split; [by apply Hmr|].
  destruct (lookup_cases _ Hwf' h) as [(p & Hp & Hm & _)|[(p & Hp & _)|(_ & Hall & _)]].
  - unfold lookup in Hp. destruct (lookup_match _ _ _ _) as [p'|] eqn:Hlm.
    2:{ by destruct (lookup_candidate _ _ _ _). }
    apply lookup_match_Some in Hlm as (_ & Hp'%Hmr%Hbehind & Hbefore).
    destruct (Hbefore he) as [Hu _]; [|congruence]. unfold in_bucket in Hin.
    change (hb64 (purge_at m he) h) with (hb64 m h). lia.
  - by exists p.
  - destruct (Hall he) as [Hl%live_used _]; [done|congruence].
Qed.

Lemma purge_hides_witness :
  let m := remove (insert (insert table64 5 5 3 100) 6 37 2 200) 5 0 in
  exists p, lookup (purge_at m 5) 37 = (ENODATA, Some p) /\ lookup m 37 = (0, Some 6%nat).
Proof.
  intros m.
  assert (map_inv (insert table64 5 5 3 100)) as Hinv1.
  { apply insert_step; [apply table64_inv| |lia|vm_compute; done].
    apply granted_free; [apply table64_inv|]. apply granted_lookup. vm_compute. reflexivity. }
  assert (map_inv (insert (insert table64 5 5 3 100) 6 37 2 200)) as Hinv2.
  { apply insert_step; [done| |lia|vm_compute; done].
    apply granted_free; [apply Hinv1|]. apply granted_lookup. vm_compute. reflexivity. }
  assert (map_inv m) as [Hwf Hc _].
  { apply remove_step; [done|vm_compute; reflexivity|vm_compute; done]. }
  destruct (purge_hides m 37 5 6) as (_ & _ & p & Hp).
  - exact Hwf.
  - vm_compute. reflexivity.
  - unfold in_bucket. vm_compute. lia.
  - split; vm_compute; reflexivity.
  - intros r Hr. assert (r ∈ match_slots m 37 (hb64 m 37) BUCKET) as Hel.
    { unfold match_slots. apply list_elem_of_filter. split; [by apply matchesb_spec|].
      apply elem_of_seq. apply (matches_in_bucket m Hwf 37 r Hr). }
    rewrite <- (found_list_spec m Hwf 37 Hc) in Hel.
    assert (found_list m 37 = [6%nat]) as Hfl by (vm_compute; reflexivity).
    rewrite Hfl in Hel. apply list_elem_of_singleton in Hel. lia.
  - exists p. split; [exact Hp|]. vm_compute. reflexivity.
Defined.
