(* ===== verification/HopscotchShift.v ===== *)
(** * Displacement in the hopscotch table

    [try_shift] makes room in a full bucket by moving a free slot backwards, one
    displacement at a time.  It terminates, keeps the live content of the table,
    and the slot it returns lies in the bucket and is free.  When no tombstone is
    in its way, as the asserts of [try_shift_one] demand, it also leaves no hole
    in any chain but the slot it returns. *)
From Stdlib Require Import ZArith Lia.
From stdpp Require Import base tactics list numbers.
From S2P Require Import Prelude Util HashEntry HopscotchMap HopscotchSpec.
From S2P Require Import HopscotchInit HopscotchRefine.

Open Scope Z_scope.

(** ** Moving one entry *)

(** The entry of slot [c] moves to the free slot [v] of its bucket; [e] is what
    is left in [c]. *)
Definition move (m : uDepotMap) (c v : nat) (e : HashEntry) : uDepotMap :=
  set_ent v (set_bucket_offset (Z.of_nat v - Z.of_nat (home m c)) (ent m c))
    (set_ent c e m).

(** The chain invariant, slot [x] excepted. *)
Definition chained_but (x : nat) (m : uDepotMap) : Prop :=
  forall p q, live_slot m p = true -> (home m p <= q < p)%nat -> q <> x -> used (ent m q) = true.

Definition tomb_free (m : uDepotMap) : Prop := forall p, deleted (ent m p) = false.

(** No tombstone in the slots a displacement for home bucket [first] looks at. *)
Definition no_tombstones (first hi : nat) (m : uDepotMap) : Prop :=
  forall q, (first < q + BUCKET)%nat -> (q < hi)%nat -> deleted (ent m q) = false.

Lemma set_ent_set_ent (m : uDepotMap) (p : nat) (e e' : HashEntry) :
  set_ent p e (set_ent p e' m) = set_ent p e m.
Proof. unfold set_ent. simpl. by rewrite list_insert_insert_eq. Qed.

Lemma set_ent_comm (m : uDepotMap) (p q : nat) (e e' : HashEntry) :
  p <> q -> set_ent p e (set_ent q e' m) = set_ent q e' (set_ent p e m).
Proof. intros. unfold set_ent. simpl. by rewrite list_insert_insert_ne. Qed.

Section Move.
Context (m : uDepotMap) (Hwf : map_wf m) (c v : nat).
Context (Hc : live_slot m c = true) (Hv : live_slot m v = false).
Context (Hin : (home m c <= v < home m c + BUCKET)%nat).

Lemma move_slots : c <> v /\ (c < length (ht_m m))%nat /\ (v < length (ht_m m))%nat.
Proof.
  split; [intros ->; congruence|]. split; [by apply used_in_range, live_used|].
  pose proof (bucket_in_range m Hwf (entry_keyfp m c)) as Hlen.
  rewrite hb_of_entry_keyfp in Hlen by done. lia.
Qed.

Lemma move_offset :
  wrap HOP_OFF_BITS (Z.of_nat v - Z.of_nat (home m c)) = Z.of_nat v - Z.of_nat (home m c).
Proof.
  apply wrap_small. unfold in_width. change (2 ^ HOP_OFF_BITS) with 64.
  change BUCKET with 32%nat in Hin. lia.
Qed.

Context (e : HashEntry) (He : live e = false) (Hwe : entry_wf e).
Context (Hue : used e = false -> deleted e = false).

Lemma ent_move_c : ent (move m c v e) c = e.
Proof.
  destruct move_slots as (Hne & Hlc & Hlv). unfold move. rewrite ent_set_ne by done.
  by rewrite ent_set_eq.
Qed.

Lemma ent_move_v :
  ent (move m c v e) v = set_bucket_offset (Z.of_nat v - Z.of_nat (home m c)) (ent m c).
Proof.
  destruct move_slots as (Hne & Hlc & Hlv). unfold move.
  by rewrite ent_set_eq by (by rewrite length_set_ent).
Qed.

Lemma ent_move_ne (p : nat) : p <> c -> p <> v -> ent (move m c v e) p = ent m p.
Proof. intros ? ?. unfold move. by rewrite !ent_set_ne by done. Qed.

Lemma home_move_v : home (move m c v e) v = home m c.
Proof. unfold home at 1. rewrite ent_move_v. simpl. rewrite move_offset. lia. Qed.

Lemma live_move_v : live_slot (move m c v e) v = true.
Proof. unfold live_slot. by rewrite ent_move_v. Qed.

Lemma live_move_c : live_slot (move m c v e) c = false.
Proof. unfold live_slot. by rewrite ent_move_c. Qed.

Lemma live_move_keep (p : nat) :
  p <> c -> live_slot m p = true -> live_slot (move m c v e) p = true.
Proof.
  intros Hpc Hl. destruct (decide (p = v)) as [->|Hpv]; [by apply live_move_v|].
  unfold live_slot. by rewrite ent_move_ne.
Qed.

Lemma move_wf : map_wf (move m c v e).
Proof.
  unfold move.
  apply set_ent_wf; [apply set_ent_wf; [done|done|by rewrite He|done]|apply set_bucket_offset_wf, Hwf| |].
  2:{ apply (wf_unused _ Hwf c). }
  intros _. simpl. rewrite move_offset. destruct (wf_home _ Hwf c Hc) as [_ Hh].
  change BUCKET with 32%nat in Hin. unfold HOP_SCOTCH_BUCKET_SIZE.
  assert (Z.of_nat (home m c) = Z.of_nat c - bucket_offset (ent m c)) by (unfold home; lia).
  lia.
Qed.

Lemma move_keyfp : entry_keyfp (move m c v e) v = entry_keyfp m c.
Proof.
  rewrite (entry_keyfp_split _ move_wf), (entry_keyfp_split m Hwf c Hc) by apply live_move_v.
  by rewrite home_move_v, ent_move_v.
Qed.

Lemma move_entries : entries (move m c v e) ≡ₚ entries m.
Proof.
  destruct move_slots as (Hne & Hlc & Hlv). symmetry. unfold entries.
  replace (length (ht_m (move m c v e))) with (length (ht_m m))
    by (unfold move; by rewrite !length_set_ent).
  apply (bag_move _ _ c v); auto.
  - intros k ? ?. symmetry. apply live_at_ext; [done|by apply ent_move_ne].
  - unfold live_at. by rewrite Hv.
  - unfold live_at. by rewrite live_move_c.
  - rewrite (live_at_live _ v live_move_v), (live_at_live m c Hc).
    by rewrite move_keyfp, ent_move_v.
Qed.

(** Filling hole [v] leaves a hole at [c]. *)
Lemma move_chained_but :
  chained_but v m -> (forall q, (home m c <= q < v)%nat -> used (ent m q) = true) ->
  chained_but c (move m c v e).
Proof.
  intros Hch Hbefore p q Hl Hq Hqc.
  destruct (decide (q = v)) as [->|Hqv]; [by apply live_used, live_move_v|].
  rewrite ent_move_ne by done. destruct (decide (p = v)) as [->|Hpv].
  - rewrite home_move_v in Hq. by apply Hbefore.
  - assert (p <> c) as Hpc by (intros ->; rewrite live_move_c in Hl; done).
    unfold live_slot in Hl. rewrite ent_move_ne in Hl by done.
    rewrite (home_ext m _ p) in Hq by (by rewrite ent_move_ne).
    by apply (Hch p q).
Qed.

Lemma move_no_tombstones (first hi : nat) :
  (first < c + BUCKET)%nat -> (c < hi)%nat -> deleted e = false ->
  no_tombstones first hi m -> no_tombstones first hi (move m c v e).
Proof.
  intros ? ? Hde Hn p ? ?. destruct (decide (p = v)) as [->|].
  { rewrite ent_move_v. by apply (Hn c). }
  destruct (decide (p = c)) as [->|]; [by rewrite ent_move_c|].
  rewrite ent_move_ne by done. by apply Hn.
Qed.

Lemma move_tomb_free :
  deleted e = deleted (ent m v) -> tomb_free m -> tomb_free (move m c v e).
Proof.
  intros Hde Hn p. destruct (decide (p = v)) as [->|]; [rewrite ent_move_v; apply (Hn c)|].
  destruct (decide (p = c)) as [->|]; [by rewrite ent_move_c, Hde|].
  rewrite ent_move_ne by done. apply Hn.
Qed.

End Move.

(** The swap of [try_shift_one] is a move that leaves what the victim held, its
    offset adjusted if it was a tombstone. *)
Lemma try_shift_one_move (m : uDepotMap) (c v : nat) :
  map_wf m -> live_slot m c = true -> live_slot m v = false ->
  (home m c <= v < home m c + BUCKET)%nat ->
  next_free m (entry_keyfp m c) = (0, Some v) ->
  exists e, try_shift_one m c = (0, move m c v e) /\ live e = false /\ entry_wf e /\
    (used e = false -> deleted e = false) /\ (used (ent m v) = false -> e = ent m v) /\
    deleted e = deleted (ent m v).
Proof.
  intros Hwf Hc Hv Hin Hnf.
  destruct (move_slots m Hwf c v Hc Hv Hin) as (Hne & Hlc & Hlv).
  unfold try_shift_one. rewrite Hnf.
  assert (Hhb : hash_to_hb_ m (entry_keyfp m c) = Z.of_nat (home m c)).
  { rewrite <- (hb_of_entry_keyfp m Hwf c Hc). unfold hb64.
    pose proof (hash_to_hb_range m Hwf (entry_keyfp m c)). lia. }
  rewrite Hhb, (ent_set_eq _ v) by (by rewrite length_set_ent). rewrite set_ent_set_ent.
  rewrite (wrap_small 64) by (unfold in_width; change BUCKET with 32%nat in Hin; lia).
  fold (move m c v (ent m v)). rewrite !(ent_move_c m Hwf c v) by done.
  destruct (used (ent m v)) eqn:Hu.
  2:{ exists (ent m v). repeat split; auto; apply Hwf. }
  eexists. split.
  { f_equal. unfold move. rewrite set_ent_comm, set_ent_set_ent by done.
    fold (move m c v (set_bucket_offset (u64 (Z.of_nat c -
      hash_to_hb_ (move m c v (ent m v)) (entry_keyfp (move m c v (ent m v)) c))) (ent m v))).
    reflexivity. }
  split; [exact Hv|]. split; [apply set_bucket_offset_wf, Hwf|].
  split; [apply (wf_unused _ Hwf v)|]. split; done.
Qed.

(** ** The loop *)

(** Everything of a table but its slots. *)
Definition shape (m : uDepotMap) :=
  (entry_nr_m m, size_m m, entry_per_lock_nr_m m, lock_nr_m m, entry_nr_bits_m m,
   used_entry_nr_m m).

(** [Q] is the condition under which the chain part of the invariant is wanted. *)
Record chain_inv (first hi : nat) (m : uDepotMap) (p_free : nat) : Prop := {
  ci_tombs : no_tombstones first hi m;
  ci_chain : chained_but p_free m;
  ci_free : used (ent m p_free) = false;
  ci_hi : (p_free < hi)%nat;
}.

Record shift_inv (Q : Prop) (m0 : uDepotMap) (first hi : nat) (m : uDepotMap) (p p_free : nat)
  : Prop := {
  si_wf : map_wf m;
  si_shape : shape m = shape m0;
  si_entries : entries m ≡ₚ entries m0;
  si_live : forall q, (first <= q < p_free)%nat -> live_slot m q = true;
  si_range : (first + BUCKET <= p_free)%nat;
  si_p : (first <= p)%nat /\ (p_free < p + BUCKET)%nat;
  si_chain : Q -> chain_inv first hi m p_free;
  si_tomb_free : tomb_free m0 -> tomb_free m;
}.

Section Loop.
Context (Q : Prop) (m0 : uDepotMap) (first hi : nat).

(** One iteration: the entry in slot [p] either stays, its bucket being full, or
    moves to a free slot of its bucket, which under [Q] is [p_free]. *)
Lemma shift_step (m : uDepotMap) (p p_free : nat) :
  shift_inv Q m0 first hi m p p_free -> (p < p_free)%nat ->
  try_shift_one m p = (ENOSPC, m) \/
  exists v e, try_shift_one m p = (0, move m p v e) /\ live_slot m v = false /\
    (home m p <= v < home m p + BUCKET)%nat /\
    (forall q, (home m p <= q < v)%nat -> used (ent m q) = true) /\
    live e = false /\ entry_wf e /\ (used e = false -> deleted e = false) /\
    (Q -> v = p_free /\ e = ent m p_free) /\ deleted e = deleted (ent m v).
Proof.
  intros [Hwf _ _ Hl Hr [Hp1 Hp2] Hch _] Hlt.
  assert (live_slot m p = true) as Hlp by (apply Hl; lia).
  pose proof (home_window m Hwf p Hlp) as Hw.
  pose proof (hb_of_entry_keyfp m Hwf p Hlp) as Hhb.
  destruct (next_free_cases m Hwf (entry_keyfp m p)) as [(v & Hnf & Hin & Hnl & Hbef)|[Hnf _]].
  2:{ left. unfold try_shift_one. by rewrite Hnf. }
  right. unfold in_bucket in Hin. rewrite Hhb in *.
  destruct (try_shift_one_move m p v Hwf Hlp Hnl Hin Hnf) as (e & He & Hle & Hwe & Hue & Heq & Hde).
  exists v, e. do 7 (split; [done|]). split; [|done]. intros [Ht Hc Hf Hhi]%Hch.
  assert (v = p_free) as ->; [|split; auto].
  destruct (decide (p_free < v)%nat) as [Hgt|Hle'].
  { rewrite Hbef in Hf by lia. done. }
  destruct (decide (v < p_free)%nat) as [Hvlt|]; [|lia].
  assert (used (ent m v) = true) as Huv.
  { destruct (decide (first <= v)%nat); [apply live_used, Hl; lia|]. apply (Hc p v Hlp); lia. }
  unfold live_slot, live in Hnl. rewrite Huv, Ht in Hnl by lia. done.
Qed.

(** What [try_shift] guarantees of the table it leaves and of the slot. *)
Definition shift_post (rc : Z) (o : option nat) (m' : uDepotMap) : Prop :=
  map_wf m' /\ shape m' = shape m0 /\ entries m' ≡ₚ entries m0 /\
  (tomb_free m0 -> tomb_free m') /\
  ((rc = ENOSPC /\ o = None) \/
   exists p, rc = 0 /\ o = Some p /\ (first <= p < first + BUCKET)%nat /\
     live_slot m' p = false /\
     (forall q, (first <= q < p)%nat -> used (ent m' q) = true) /\
     (Q -> chained_but p m')).

Lemma shift_loop_post (fuel : nat) (m : uDepotMap) (p p_free : nat) :
  shift_inv Q m0 first hi m p p_free -> (BUCKET * p_free - p < fuel)%nat ->
  exists rc o m', shift_loop fuel m first p p_free = Some (rc, o, m') /\ shift_post rc o m'.
Proof.
  revert m p p_free. induction fuel as [|fuel IH]; intros m p p_free Hinv Hfuel; [lia|].
  pose proof Hinv as [Hwf Hs He Hl Hr [Hp1 Hp2] Hch Htf]. change BUCKET with 32%nat in *.
  cbn [shift_loop]. rewrite (proj2 (Nat.leb_le first p) Hp1).
  destruct (Nat.ltb_spec p p_free) as [Hlt|Hge]; cbn [andb].
  2:{ exists ENOSPC, None, m. split; [done|]. do 4 (split; [done|]). by left. }
  destruct (shift_step m p p_free Hinv Hlt)
    as [->|(v & e & -> & Hv & Hin & Hbef & Hle & Hwe & Hue & HQ & Hde)].
  { change (ENOSPC =? 0) with false. cbv match. apply IH; [|lia].
    split; auto; change BUCKET with 32%nat; lia. }
  assert (live_slot m p = true) as Hlp by (apply Hl; lia).
  assert (map_wf (move m p v e)) as Hwf' by (by apply move_wf).
  assert (entries (move m p v e) ≡ₚ entries m0) as He'.
  { rewrite <- He. by apply move_entries. }
  assert (Hl' : forall q, (first <= q < p)%nat -> live_slot (move m p v e) q = true).
  { intros q Hq. apply live_move_keep; auto; [lia|]. apply Hl. lia. }
  assert (Hch' : Q -> chain_inv first hi (move m p v e) p).
  { intros q. destruct (HQ q) as [-> ->]. destruct (Hch q) as [Ht Hc Hf Hhi].
    split; [apply move_no_tombstones; auto; change BUCKET with 32%nat; try lia|
            by apply move_chained_but|by rewrite ent_move_c|lia]. }
  assert (Htf' : tomb_free m0 -> tomb_free (move m p v e)).
  { intros Ht0. apply move_tomb_free; auto. }
  change (0 =? 0) with true. change BUCKET with 32%nat. cbv match.
  destruct (Nat.ltb_spec (p - first) 32) as [Hnear|Hfar].
  - exists 0, (Some p), (move m p v e). split; [done|]. do 4 (split; [done|]). right. exists p.
    do 2 (split; [done|]). split; [change BUCKET with 32%nat; lia|].
    split; [by apply live_move_c|]. split; [intros q Hq; by apply live_used, Hl'|].
    intros q. by apply Hch'.
  - apply IH; [|lia]. split; auto; change BUCKET with 32%nat; lia.
Qed.

End Loop.

(** ** The whole operation *)

Lemma chained_chained_but (m : uDepotMap) (x : nat) : chained m -> chained_but x m.
Proof. intros Hc p q Hl Hq _. by apply (Hc p q). Qed.

Lemma try_shift_post (m : uDepotMap) (h : Z) :
  map_wf m -> (forall q, in_bucket m h q -> live_slot m q = true) ->
  exists rc o m', try_shift m h = Some (rc, o, m') /\
    shift_post (chained m /\ no_tombstones (hb64 m h) (try_shift_last m (hb64 m h)) m)
      m (hb64 m h) rc o m'.
Proof.
  intros Hwf Hfull. unfold try_shift. rewrite hb32_hb64 by done.
  set (first := hb64 m h) in *. set (hi := try_shift_last m first) in *.
  destruct (for_first _ _ _) as [p_free|] eqn:Hff.
  2:{ exists ENOSPC, None, m. split; [done|]. do 4 (split; [done|]). by left. }
  apply for_first_Some in Hff as (Hr & Hfree & Hbef). change BUCKET with 32%nat in *.
  apply (shift_loop_post _ m first hi (S (32 * p_free)) m (p_free - 32 + 1)).
  2:{ change BUCKET with 32%nat. lia. }
  split; auto; try (change BUCKET with 32%nat; lia).
  - intros q Hq. destruct (decide (q < first + 32)%nat) as [Hlt|Hge].
    { apply Hfull. split; [lia|]. change BUCKET with 32%nat. lia. }
    specialize (Hbef q ltac:(lia)). pose proof (wf_unused _ Hwf q) as Hun.
    unfold live_slot, live. destruct (used (ent m q)), (deleted (ent m q)); try done.
    by specialize (Hun eq_refl).
  - intros [Hc Ht]. split; auto using chained_chained_but; [|lia].
    rewrite Ht in Hfree by (change BUCKET with 32%nat; lia). by destruct (used (ent m p_free)).
Qed.

(** Inserting into the hole the displacement left repairs the chain. *)
Lemma insert_chained_but (m : uDepotMap) (h kvs g : Z) (p : nat) :
  map_wf m -> chained_but p m -> free_slot m h p -> 0 <= kvs -> valid_pba g ->
  chained (insert m p h kvs g).
Proof.
  intros Hwf Hc (Hin & _ & Hbef) Hk Hg. unfold insert. rewrite update_entry by done.
  set (e := mkHashEntry _ _ _ _).
  assert (p < length (ht_m m))%nat as Hlen.
  { pose proof (bucket_in_range m Hwf h). unfold in_bucket in Hin. lia. }
  assert (chained (set_ent p e m)); [|done].
  intros r q Hl Hq. destruct (decide (q = p)) as [->|Hqp].
  { rewrite ent_set_eq by done. by apply used_valid_pba. }
  rewrite ent_set_ne by done. unfold live_slot, home in *.
  destruct (decide (r = p)) as [->|Hrp].
  - rewrite ent_set_eq in Hq by done. simpl in Hq. apply Hbef. unfold hb64. lia.
  - rewrite ent_set_ne in * by done. by apply (Hc r q).
Qed.

Lemma counters_exact_shape (m m' : uDepotMap) :
  shape m' = shape m -> entries m' ≡ₚ entries m -> counters_exact m -> counters_exact m'.
Proof.
  unfold shape. intros [= Hn _ _ _ Hb Hu] He Hc i Hi. rewrite Hu in *. rewrite (Hc i Hi).
  f_equal. f_equal. unfold home_count. symmetry.
  rewrite (list_filter_iff _ (fun t => used_entry_idx m (fp_of t) = i)).
  - by rewrite He.
  - intros t. unfold used_entry_idx, hash_to_hb_. by rewrite Hn, Hu.
Qed.

Lemma shape_hb (m m' : uDepotMap) (h : Z) : shape m' = shape m -> hb64 m' h = hb64 m h.
Proof. unfold shape. intros [= Hn _ _ _ _ _]. unfold hb64, hash_to_hb_. by rewrite Hn. Qed.

Lemma shape_keyfp (m m' : uDepotMap) (h : Z) :
  shape m' = shape m -> hash_to_keyfp_ m' h = hash_to_keyfp_ m h.
Proof. unfold shape. intros [= _ _ _ _ Hb _]. unfold hash_to_keyfp_. by rewrite Hb. Qed.

Lemma shifted_free_slot (m m' : uDepotMap) (h : Z) (p : nat) :
  shape m' = shape m -> (hb64 m h <= p < hb64 m h + BUCKET)%nat -> live_slot m' p = false ->
  (forall q, (hb64 m h <= q < p)%nat -> used (ent m' q) = true) -> free_slot m' h p.
Proof.
  intros Hs Hp Hl Hbef. unfold free_slot, in_bucket. by rewrite (shape_hb m) by done.
Qed.

(** A table of 160 slots in which the bucket of hash 12805 (home 5) is full: ten entries of
    home 20, then twenty-two of home 5. *)
Definition put_new (m : uDepotMap) (h : Z) : uDepotMap :=
  match lookup m h with
  | (61, Some p) => insert m p h 1 h
  | _ => m
  end.

Definition table160 : uDepotMap :=
  match init uDepotMap_new HOP_SCOTCH_LOCK_NR 1280 (Some (replicate 160 HashEntry_default)) with
  | Some (_, m) => m
  | None => uDepotMap_new
  end.

Definition full_table : uDepotMap :=
  foldl put_new table160
    (((fun i => 20 + 128 * Z.of_nat i) <$> seq 0 10) ++
     ((fun i => 5 + 128 * Z.of_nat i) <$> seq 0 22)).

Lemma put_new_inv (m : uDepotMap) (h : Z) : valid_pba h -> map_inv m -> map_inv (put_new m h).
Proof.
  intros Hv Hinv. unfold put_new. destruct (lookup m h) as [rc [p|]] eqn:Hl.
  2:{ repeat case_match; done. }
  destruct (decide (rc = 61)) as [->|Hne]; [|by repeat case_match].
  apply insert_step; [done| |lia|done].
  apply granted_free; [apply Hinv|]. by apply granted_lookup.
Qed.

Lemma foldl_put_new_inv (hs : list Z) (m : uDepotMap) :
  Forall valid_pba hs -> map_inv m -> map_inv (foldl put_new m hs).
Proof.
  revert m. induction hs as [|h hs IH]; intros m Hall Hinv; simpl; [done|].
  apply Forall_cons_iff in Hall as [Hh Hall]. apply IH; [done|]. by apply put_new_inv.
Qed.

Lemma full_table_inv : map_inv full_table.
Proof.
  apply foldl_put_new_inv.
  - apply Forall_app. split; apply Forall_fmap, Forall_seq; intros i Hi; unfold valid_pba; simpl;
      change UNUSED_PBA_ENTRY with 549755813887; lia.
  - eapply (init_inv HOP_SCOTCH_LOCK_NR 1280 (replicate 160 HashEntry_default)).
    5:{ vm_compute. reflexivity. }
    all: unfold HOP_SCOTCH_LOCK_NR, HOP_SCOTCH_BUCKET_SIZE; rewrite ?length_replicate;
      change (1280 / 8) with 160; change (home_bits 1280) with 7; lia.
Qed.

(** Filling the slot [try_shift] returned. *)
Lemma shifted_insert (m m' : uDepotMap) (h kvs g : Z) (p : nat) :
  map_inv m -> map_wf m' -> shape m' = shape m -> entries m' ≡ₚ entries m ->
  chained_but p m' -> free_slot m' h p -> 0 < kvs -> valid_pba g ->
  map_inv (insert m' p h kvs g) /\
  entries (insert m' p h kvs g) ≡ₚ (hash_to_keyfp_ m h, Z.min kvs MAX_KV_SIZE, g) :: entries m.
Proof.
  intros Hinv Hwf' Hs He Hcb Hfs Hk Hg.
  destruct (insert_counters m' h kvs g p Hwf') as [Hcnt' He']; auto.
  { apply (counters_exact_shape m); auto. apply Hinv. }
  rewrite He in He'. rewrite (shape_keyfp m) in He' by done. split; [|done].
  split; [|apply insert_chained_but; auto; lia|done].
  apply insert_wf; [done|apply Hfs|lia|done].
Qed.


Lemma full_table_bucket (q : nat) : in_bucket full_table 12805 q -> live_slot full_table q = true.
Proof.
  intros Hq. assert (hb64 full_table 12805 = 5%nat) as Hhb by (vm_compute; reflexivity).
  unfold in_bucket in Hq. rewrite Hhb in Hq. change BUCKET with 32%nat in Hq.
  assert (Forall (fun q => live_slot full_table q = true) (seq 5 32)) as Hall.
  { apply (bool_decide_unpack _). vm_compute. exact I. }
  rewrite Forall_seq in Hall. by apply Hall.
Qed.

Lemma full_table_no_tombstones :
  no_tombstones (hb64 full_table 12805) (try_shift_last full_table (hb64 full_table 12805)) full_table.
Proof.
  assert (try_shift_last full_table (hb64 full_table 12805) = 127%nat) as Hlast
    by (vm_compute; reflexivity).
  rewrite Hlast. intros q _ Hq.
  assert (Forall (fun q => deleted (ent full_table q) = false) (seq 0 127)) as Hall.
  { apply (bool_decide_unpack _). vm_compute. exact I. }
  rewrite Forall_seq in Hall. apply Hall. lia.
Qed.

