(* ===== verification/HopscotchLocks.v ===== *)
(** * The lock striping of the hopscotch table

    [lock_common] maps a hash to the one or two stripe locks that cover every
    slot an operation on that hash may touch.  The lock discipline is modelled as
    a step relation over threads that lock, work and unlock, and is shown to
    exclude overlapping operations and never to deadlock. *)
From Stdlib Require Import ZArith Lia.
From stdpp Require Import base tactics list numbers.
From S2P Require Import Prelude Util HashEntry HopscotchMap HopscotchSpec.
From S2P Require Import HopscotchInit HopscotchRefine.

Open Scope Z_scope.

(** The index of the first stripe lock, as both functions below compute it. *)
Definition lock_slb (m : uDepotMap) (first : Z) : Z :=
  if HOP_SCOTCH_BUCKET_SIZE <=? first
  then (first - HOP_SCOTCH_BUCKET_SIZE) / entry_per_lock_nr_m m
  else first / entry_per_lock_nr_m m.

(** [*sl1_out] and [*sl2_out] as indices into [locks_m]. *)
Definition lock_common (m : uDepotMap) (h : Z) : Z * option Z :=
  let first := hash_to_hb_ m h in
  let last := Z.min (u64 (first + HOP_SCOTCH_BUCKET_SIZE * (HOP_MAX_BUCKET_DISPLACE + 1)))
                    (u64 (entry_nr_m m - HOP_SCOTCH_BUCKET_SIZE - 1)) in
  let slb := lock_slb m first in
  let last_slb := u64 ((slb + 1) * entry_per_lock_nr_m m) in
  (slb, if last_slb <=? last then Some (slb + 1) else None).

Definition hash_to_lock_range (m : uDepotMap) (h : Z) : Z * Z :=
  let first := hash_to_hb_ m h in
  let last := Z.min (u64 (first + HOP_SCOTCH_BUCKET_SIZE * (HOP_MAX_BUCKET_DISPLACE + 1)))
                    (entry_nr_m m) in
  let slb := lock_slb m first in
  let first_slb := u64 (slb * entry_per_lock_nr_m m) in
  let last_slb := u64 ((slb + 1) * entry_per_lock_nr_m m) in
  let last_slb := if last_slb <=? last then u64 ((slb + 2) * entry_per_lock_nr_m m)
                  else last_slb in
  (first_slb, Z.min last_slb (entry_nr_m m)).

(** [ref1], [ref2] are the locks' reference counts, which say whether their
    stripes still have to be copied by a grow; [sl2] says whether there is a
    second lock. *)
Definition locks_to_grow_range (m : uDepotMap) (slb ref1 : Z) (sl2 : option Z) : Z * Z :=
  let first1 := u64 (slb * entry_per_lock_nr_m m) in
  let last1 := Z.min (u64 ((slb + 1) * entry_per_lock_nr_m m)) (entry_nr_m m) in
  let first1 := if 0 =? ref1 then last1 else first1 in
  match sl2 with
  | None => (first1, last1)
  | Some ref2 =>
      let first2 := u64 ((slb + 1) * entry_per_lock_nr_m m) in
      let last2 := Z.min (u64 ((slb + 2) * entry_per_lock_nr_m m)) (entry_nr_m m) in
      (first1, if 0 =? ref2 then first2 else last2)
  end.

(** The locks of a hash, in the order [lock] takes them. *)
Definition locks_of (m : uDepotMap) (h : Z) : list Z :=
  let '(sl1, sl2) := lock_common m h in sl1 :: option_list sl2.

(** The slots an operation on [h] may read or write: its bucket, the range a
    displacement searches, and the buckets of the entries it may move. *)
Definition touched (m : uDepotMap) (h s : Z) : Prop :=
  hash_to_hb_ m h - HOP_SCOTCH_BUCKET_SIZE < s <
  Z.max (hash_to_hb_ m h + HOP_SCOTCH_BUCKET_SIZE)
        (Z.min (hash_to_hb_ m h + HOP_SCOTCH_BUCKET_SIZE * HOP_MAX_BUCKET_DISPLACE)
               (entry_nr_m m - HOP_SCOTCH_BUCKET_SIZE - 1)).

(** ** Threads *)

Inductive pc := PStart | PGot1 | PIn | PRel | PDone.

#[export] Instance pc_eq_dec : EqDecision pc.
Proof. solve_decision. Defined.

Record thread := mkThread { t_hash : Z; t_pc : pc }.

(** The locks a thread holds: [lock] takes sl1 then sl2, [unlock] releases sl2
    then sl1. *)
Definition holds (m : uDepotMap) (t : thread) : list Z :=
  match t_pc t with
  | PStart | PDone => []
  | PGot1 | PRel => take 1 (locks_of m (t_hash t))
  | PIn => locks_of m (t_hash t)
  end.

Definition lock_free (m : uDepotMap) (ts : list thread) (l : Z) : Prop :=
  forall i t, ts !! i = Some t -> l ∉ holds m t.

(** A mutex is taken only when free; a thread without a second lock skips it. *)
Inductive lock_step (m : uDepotMap) (ts : list thread) : list thread -> Prop :=
  | step_lock1 i h sl1 sl2 :
      ts !! i = Some (mkThread h PStart) -> lock_common m h = (sl1, sl2) ->
      lock_free m ts sl1 ->
      lock_step m ts (<[i := mkThread h PGot1]> ts)
  | step_lock2 i h sl1 sl2 :
      ts !! i = Some (mkThread h PGot1) -> lock_common m h = (sl1, Some sl2) ->
      lock_free m ts sl2 ->
      lock_step m ts (<[i := mkThread h PIn]> ts)
  | step_no_lock2 i h sl1 :
      ts !! i = Some (mkThread h PGot1) -> lock_common m h = (sl1, None) ->
      lock_step m ts (<[i := mkThread h PIn]> ts)
  | step_unlock2 i h :
      ts !! i = Some (mkThread h PIn) ->
      lock_step m ts (<[i := mkThread h PRel]> ts)
  | step_unlock1 i h :
      ts !! i = Some (mkThread h PRel) ->
      lock_step m ts (<[i := mkThread h PDone]> ts).

Definition start_threads (hs : list Z) : list thread := (fun h => mkThread h PStart) <$> hs.

Inductive lock_reachable (m : uDepotMap) (hs : list Z) : list thread -> Prop :=
  | reach_start : lock_reachable m hs (start_threads hs)
  | reach_step ts ts' :
      lock_reachable m hs ts -> lock_step m ts ts' -> lock_reachable m hs ts'.

(** ** Striping *)

Section Stripes.
Context (m : uDepotMap) (Hwf : map_wf m) (Hl : locks_wf m).

Lemma epl_range : 1 <= entry_per_lock_nr_m m <= 2 ^ 32 + 32.
Proof.
  destruct Hl as (_ & _ & [H1 H2] & _). rewrite (wf_entry_nr _ Hwf) in H2.
  destruct (wf_bits _ Hwf). unfold HOP_SCOTCH_BUCKET_SIZE in *.
  assert (2 ^ entry_nr_bits_m m <= 2 ^ 32) by (apply Z.pow_le_mono_r; lia). lia.
Qed.

(** The hash's home, its stripe and the stripe's bounds. *)
Lemma slb_bounds (h : Z) :
  let hb := hash_to_hb_ m h in
  let e := entry_per_lock_nr_m m in
  let slb := lock_slb m hb in
  0 <= hb <= entry_nr_m m - 33 /\ entry_nr_m m <= 2 ^ 32 + 32 /\ 0 <= slb /\
  hb - 32 < (slb + 1) * e /\ slb * e <= hb /\ (slb = 0 \/ slb * e <= hb - 32) /\
  (slb + 1) * e < 2 ^ 64.
Proof.
  intros hb e slb. pose proof (hash_to_hb_range m Hwf h) as Hr. fold hb in Hr.
  pose proof epl_range as He. fold e in He. pose proof (wf_entry_nr _ Hwf) as Hn.
  unfold HOP_SCOTCH_BUCKET_SIZE in Hn. destruct (wf_bits _ Hwf).
  assert (2 ^ entry_nr_bits_m m <= 2 ^ 32) by (apply Z.pow_le_mono_r; lia).
  assert (Hdiv : forall x, 0 <= x -> 0 <= x / e /\ x / e * e <= x < (x / e + 1) * e).
  { intros x Hx. pose proof (Z.div_mod x e). pose proof (Z.mod_pos_bound x e).
    split; [apply Z.div_pos; lia|]. lia. }
  destruct Hl as (_ & _ & [_ Hle] & Hsz). fold e in Hle, Hsz.
  unfold slb, lock_slb. fold e. unfold HOP_SCOTCH_BUCKET_SIZE.
  destruct (Z.leb_spec 32 hb) as [Hge|Hlt].
  - destruct (Hdiv (hb - 32) ltac:(lia)) as [Hd0 Hd]. repeat split; try lia.
  - destruct (Hdiv hb ltac:(lia)) as [Hd0 Hd].
    assert (hb / e = 0 \/ e <= hb) as Hz.
    { destruct (decide (e <= hb)); [by right|left]. apply Z.div_small. lia. }
    repeat split; try lia. destruct Hz as [Hz|Hz]; [by left|].
    destruct Hsz as [Hone|Hbig]; [|unfold HOP_SCOTCH_BUCKET_SIZE, HOP_MAX_BUCKET_DISPLACE in Hbig; lia].
    destruct Hl as (_ & Hcov & _). rewrite Hone in Hcov. fold e in Hcov. lia.
Qed.

Lemma lock_common_eq (h : Z) :
  let hb := hash_to_hb_ m h in
  let slb := lock_slb m hb in
  lock_common m h =
  (slb, if (slb + 1) * entry_per_lock_nr_m m <=? Z.min (hb + 2080) (entry_nr_m m - 33)
        then Some (slb + 1) else None).
Proof.
  intros hb slb. pose proof (slb_bounds h) as Hb. cbv zeta in Hb. fold hb in Hb. fold slb in Hb.
  destruct Hb as (Hhb & Hn & H0 & _ & _ & _ & Hov).
  unfold lock_common. fold hb slb. unfold HOP_SCOTCH_BUCKET_SIZE, HOP_MAX_BUCKET_DISPLACE.
  pose proof epl_range.
  rewrite !wrap_small; [|unfold in_width; lia || (split; [apply Z.mul_nonneg_nonneg|]; lia)..].
  replace (hb + 32 * (64 + 1)) with (hb + 2080) by lia.
  by replace (entry_nr_m m - 32 - 1) with (entry_nr_m m - 33) by lia.
Qed.

Lemma locks_of_cases (h : Z) :
  let slb := lock_slb m (hash_to_hb_ m h) in
  (locks_of m h = [slb; slb + 1] /\ lock_common m h = (slb, Some (slb + 1))) \/
  (locks_of m h = [slb] /\ lock_common m h = (slb, None)).
Proof.
  intros slb. unfold locks_of. rewrite lock_common_eq. fold slb.
  destruct (_ <=? _); [by left|by right].
Qed.

(** Lock indices stay inside [locks_m], which has one lock more than stripes. *)
Lemma locks_of_range (h l : Z) : l ∈ locks_of m h -> 0 <= l <= lock_nr_m m.
Proof.
  destruct (slb_bounds h) as (Hhb & Hn & H0 & H1 & H2 & _). destruct Hl as (Hnr & Hcov & He & _).
  assert (lock_slb m (hash_to_hb_ m h) < lock_nr_m m).
  { apply (Z.mul_lt_mono_pos_r (entry_per_lock_nr_m m)); lia. }
  destruct (locks_of_cases h) as [[-> _]|[-> _]].
  - intros [->|[->|[]%elem_of_nil]%elem_of_cons]%elem_of_cons; lia.
  - intros ->%list_elem_of_singleton. lia.
Qed.

Lemma slb_in_locks (h : Z) : lock_slb m (hash_to_hb_ m h) ∈ locks_of m h.
Proof.
  destruct (locks_of_cases h) as [[-> _]|[-> _]]; apply elem_of_cons; by left.
Qed.

Lemma overlap_share_le (h1 h2 s : Z) :
  lock_slb m (hash_to_hb_ m h1) <= lock_slb m (hash_to_hb_ m h2) ->
  touched m h1 s -> touched m h2 s -> exists l, l ∈ locks_of m h1 /\ l ∈ locks_of m h2.
Proof.
  intros Hle Ht1 Ht2. unfold touched, HOP_SCOTCH_BUCKET_SIZE, HOP_MAX_BUCKET_DISPLACE in *.
  destruct (slb_bounds h1) as (Ha1 & Hb1 & Hc1 & Hd1 & He1 & Hf1 & Hg1).
  destruct (slb_bounds h2) as (Ha2 & Hb2 & Hc2 & Hd2 & He2 & Hf2 & Hg2).
  set (slb1 := lock_slb m (hash_to_hb_ m h1)) in *.
  set (slb2 := lock_slb m (hash_to_hb_ m h2)) in *.
  assert (Hin2 : slb2 ∈ locks_of m h2).
  { apply slb_in_locks. }
  destruct (decide (slb1 = slb2)) as [Heq|Hne].
  { exists slb2. split; [|done]. rewrite <- Heq. apply slb_in_locks. }
  exists slb2. split; [|done]. pose proof epl_range as Her.
  destruct Hl as (_ & Hcov & [_ Hep] & Hsz).
  set (e := entry_per_lock_nr_m m) in *.
  assert ((slb1 + 1) * e <= slb2 * e) by (apply Z.mul_le_mono_nonneg_r; lia).
  assert (0 <= slb1 * e) by (apply Z.mul_nonneg_nonneg; lia).
  destruct Hsz as [Hone|Hbig]; [rewrite Hone in Hcov; lia|].
  unfold HOP_SCOTCH_BUCKET_SIZE, HOP_MAX_BUCKET_DISPLACE in Hbig.
  destruct Hf2 as [Hf2|Hf2]; [lia|].
  assert (slb2 * e < (slb1 + 2) * e) as Hlt by lia.
  apply Z.mul_lt_mono_pos_r in Hlt; [|lia].
  assert (slb2 = slb1 + 1) as -> by lia.
  unfold locks_of. rewrite lock_common_eq. fold slb1.
  rewrite (proj2 (Z.leb_le _ _)); [apply elem_of_cons; right; apply list_elem_of_singleton; done|].
  lia.
Qed.

(** Overlapping operations share a lock. *)
Lemma overlap_share (h1 h2 s : Z) :
  touched m h1 s -> touched m h2 s -> exists l, l ∈ locks_of m h1 /\ l ∈ locks_of m h2.
Proof.
  intros Ht1 Ht2.
  destruct (Z.le_ge_cases (lock_slb m (hash_to_hb_ m h1)) (lock_slb m (hash_to_hb_ m h2))) as [Hle|Hge].
  - by apply (overlap_share_le h1 h2 s).
  - destruct (overlap_share_le h2 h1 s Hge Ht2 Ht1) as (l & ? & ?). by exists l.
Qed.

End Stripes.

(** ** Mutual exclusion and progress *)

Definition disjoint_holds (m : uDepotMap) (ts : list thread) : Prop :=
  forall i j t u l, ts !! i = Some t -> ts !! j = Some u -> i <> j ->
    l ∈ holds m t -> l ∈ holds m u -> False.

(** A step that only adds locks nobody holds keeps the held sets disjoint. *)
Lemma disjoint_insert (m : uDepotMap) (ts : list thread) (i : nat) (t t' : thread) :
  disjoint_holds m ts -> ts !! i = Some t ->
  (forall l, l ∈ holds m t' -> l ∈ holds m t \/ lock_free m ts l) ->
  disjoint_holds m (<[i := t']> ts).
Proof.
  intros Hd Hi Hnew.
  assert (Hone : forall j u l, ts !! j = Some u -> i <> j -> l ∈ holds m t' -> l ∈ holds m u -> False).
  { intros j u l Hj Hij Hl Hlu. destruct (Hnew l Hl) as [Hold|Hfree].
    - by apply (Hd i j t u l).
    - by apply (Hfree j u). }
  intros a b ta tb l Ha Hb Hab Hla Hlb.
  apply list_lookup_insert_Some in Ha as [(<- & <- & _)|[Hia Ha]];
    apply list_lookup_insert_Some in Hb as [(<- & <- & _)|[Hib Hb]]; [done|..].
  - by apply (Hone b tb l).
  - by apply (Hone a ta l).
  - by apply (Hd a b ta tb l).
Qed.

Section Threads.
Context (m : uDepotMap) (Hwf : map_wf m) (Hl : locks_wf m).

Lemma locks_of_eq (h sl1 : Z) (sl2 : option Z) :
  lock_common m h = (sl1, sl2) -> locks_of m h = sl1 :: option_list sl2.
Proof. intros Hc. unfold locks_of. by rewrite Hc. Qed.

Lemma lock_step_disjoint (ts ts' : list thread) :
  lock_step m ts ts' -> disjoint_holds m ts -> disjoint_holds m ts'.
Proof.
  intros Hs Hd. destruct Hs as [i h sl1 sl2 Hi Hc Hf|i h sl1 sl2 Hi Hc Hf|i h sl1 Hi Hc|i h Hi|i h Hi];
    eapply disjoint_insert; try done; unfold holds; cbn [t_pc t_hash];
    try rewrite (locks_of_eq _ _ _ Hc); cbn [option_list take].
  - intros l ->%list_elem_of_singleton. by right.
  - intros l [->|Hin]%elem_of_cons; [left; by apply list_elem_of_singleton|].
    apply list_elem_of_singleton in Hin as ->. by right.
  - auto.
  - intros l Hin. left. by apply elem_of_take in Hin as (? & ?%list_elem_of_lookup_2 & _).
  - by intros l ?%elem_of_nil.
Qed.

Lemma lock_reachable_disjoint (hs : list Z) (ts : list thread) :
  lock_reachable m hs ts -> disjoint_holds m ts.
Proof.
  induction 1 as [|ts ts' _ IH Hs]; [|by eapply lock_step_disjoint].
  intros i j t u l Hi _ _ Hin. apply list_lookup_fmap_Some in Hi as (h & -> & _).
  by apply elem_of_nil in Hin.
Qed.

(** A thread waiting for its second lock is stopped only by a thread with a
    higher first lock; the highest one can go on. *)
Lemma waiting_progress (ts : list thread) (n : nat) :
  (forall i t, ts !! i = Some t -> t_pc t <> PIn /\ t_pc t <> PRel) ->
  forall i h, ts !! i = Some (mkThread h PGot1) ->
  Z.to_nat (lock_nr_m m - lock_slb m (hash_to_hb_ m h)) = n -> exists ts', lock_step m ts ts'.
Proof.
  intros Hno. induction (lt_wf n) as [n _ IH]. intros i h Hi Hn.
  destruct (locks_of_cases m Hwf Hl h) as [[Hlk Hc]|[_ Hc]]; [|by eexists; eapply step_no_lock2].
  set (slb := lock_slb m (hash_to_hb_ m h)) in *.
  destruct (decide (Exists (fun t => slb + 1 ∈ holds m t) ts)) as [Hex|Hnone].
  - apply Exists_lookup in Hex as (j & [h' pc'] & Hj & Hin).
    destruct (Hno j _ Hj) as [Hn1 Hn2]. unfold holds in Hin. cbn [t_pc t_hash] in *.
    destruct pc'; try done; try by apply elem_of_nil in Hin.
    assert (lock_slb m (hash_to_hb_ m h') = slb + 1) as Hs'.
    { destruct (locks_of_cases m Hwf Hl h') as [[Hlk' _]|[Hlk' _]]; rewrite Hlk' in Hin;
        by apply list_elem_of_singleton in Hin. }
    eapply (IH _); [|exact Hj|reflexivity]. rewrite Hs'.
    pose proof (locks_of_range m Hwf Hl h (slb + 1)) as Hr. rewrite Hlk in Hr.
    assert (slb + 1 ∈ [slb; slb + 1]) as Hel by (apply elem_of_cons; right; by apply list_elem_of_singleton).
    specialize (Hr Hel). lia.
  - eexists. eapply step_lock2; [exact Hi|exact Hc|]. intros j t Hj Hin.
    apply Hnone, Exists_lookup. by exists j, t.
Qed.

Lemma lock_progress (ts : list thread) (i : nat) (t : thread) :
  ts !! i = Some t -> t_pc t <> PDone -> exists ts', lock_step m ts ts'.
Proof.
  intros Hi Hnd.
  destruct (decide (Exists (fun t => t_pc t = PIn \/ t_pc t = PRel) ts)) as [Hex|Hno].
  { apply Exists_lookup in Hex as (j & [h pc'] & Hj & [Hp|Hp]);
      simpl in Hp; subst pc'; eexists; [by eapply step_unlock2|by eapply step_unlock1]. }
  assert (Hno' : forall j u, ts !! j = Some u -> t_pc u <> PIn /\ t_pc u <> PRel).
  { intros j u Hj. split; intros Hp; apply Hno, Exists_lookup; exists j, u; auto. }
  destruct (decide (Exists (fun t => t_pc t = PGot1) ts)) as [Hex|Hno1].
  { apply Exists_lookup in Hex as (j & [h pc'] & Hj & Hp).
    simpl in Hp. subst pc'. by eapply waiting_progress. }
  destruct t as [h pc']. destruct (Hno' i _ Hi) as [Hn1 Hn2]. simpl in *.
  destruct (lock_common m h) as [sl1 sl2] eqn:Hc.
  destruct pc'; try done.
  - eexists. eapply step_lock1; [exact Hi|exact Hc|]. intros j [h' pc''] Hj Hin.
    destruct (Hno' j _ Hj) as [Hm1 Hm2]. unfold holds in Hin. cbn [t_pc t_hash] in *.
    destruct pc''; try done; try by apply elem_of_nil in Hin.
    apply Hno1, Exists_lookup. by eexists j, _.
  - exfalso. apply Hno1, Exists_lookup. by eexists i, _.
Qed.

End Threads.

(** C27: operations on the table that touch a common slot are never inside their
    locked sections at the same time, whatever the interleaving of the threads
    that lock and unlock. *)
Theorem stripes_exclude_overlap (m : uDepotMap) (hs : list Z) (ts : list thread)
    (i j : nat) (h1 h2 : Z) :
  map_wf m -> locks_wf m -> lock_reachable m hs ts ->
  ts !! i = Some (mkThread h1 PIn) -> ts !! j = Some (mkThread h2 PIn) -> i <> j ->
  forall s, ~ (touched m h1 s /\ touched m h2 s).
Proof.
  intros Hwf Hl Hr Hi Hj Hij s [Ht1 Ht2].
  destruct (overlap_share m Hwf Hl h1 h2 s Ht1 Ht2) as (l & Hl1 & Hl2).
  by apply (lock_reachable_disjoint m hs ts Hr i j _ _ l Hi Hj).
Qed.

(** An empty table of 8224 slots has two stripes of 4112. *)
Definition table8224 : uDepotMap :=
  mkMap 8224 (memset_ones (replicate (Z.to_nat 8224) HashEntry_default)) 65792 4112 2 13
    (replicate (Z.to_nat HOP_SCOTCH_LOCK_NR) 0).

Lemma table8224_wf : map_wf table8224 /\ locks_wf table8224.
Proof.
  pose proof (memset_ent (replicate (Z.to_nat 8224) HashEntry_default) 8224 65792 4112 2 13
    (replicate (Z.to_nat HOP_SCOTCH_LOCK_NR) 0)) as Hent. cbv zeta in Hent.
  split; [constructor|].
  - done.
  - done.
  - unfold table8224, memset_ones, ht_m, entry_nr_m.
    rewrite length_fmap, length_replicate, Z2Nat.id; lia.
  - intros p. apply Hent.
  - intros p Hl%live_used. unfold table8224 in Hl. by rewrite (proj1 (Hent p)) in Hl.
  - intros p _. apply Hent.
  - unfold table8224, used_entry_nr_m. by rewrite length_replicate.
  - unfold locks_wf, HOP_SCOTCH_LOCK_NR, HOP_SCOTCH_BUCKET_SIZE, HOP_MAX_BUCKET_DISPLACE.
    unfold table8224, lock_nr_m, entry_nr_m, entry_per_lock_nr_m. lia.
Qed.

Lemma table8224_locks :
  lock_common table8224 0 = (0, None) /\ lock_common table8224 8000 = (1, None).
Proof. split; vm_compute; reflexivity. Qed.

Lemma free1 : lock_free table8224 [mkThread 0 PIn; mkThread 8000 PStart] 1.
Proof.
  destruct table8224_locks as [H0 _]. intros [|[|i]] t Hi Hin; simplify_eq/=.
  - unfold holds in Hin. cbn [t_pc t_hash] in Hin. rewrite (locks_of_eq _ _ _ _ H0) in Hin.
    by apply list_elem_of_singleton in Hin.
  - by apply elem_of_nil in Hin.
Qed.

(** Two threads of distant buckets are inside at the same time. *)
Lemma two_inside_reachable :
  lock_reachable table8224 [0; 8000] [mkThread 0 PIn; mkThread 8000 PIn].
Proof.
  destruct table8224_locks as [H0 H1].
  pose proof (reach_start table8224 [0; 8000]) as R.
  apply (fun R => reach_step _ _ _ _ R
    (step_lock1 _ [mkThread 0 PStart; mkThread 8000 PStart] 0 0 _ _ eq_refl H0
       ltac:(intros [|[|i]] t Hi Hin; simplify_eq/=; by apply elem_of_nil in Hin))) in R.
  apply (fun R => reach_step _ _ _ _ R
    (step_no_lock2 _ [mkThread 0 PGot1; mkThread 8000 PStart] 0 0 _ eq_refl H0)) in R.
  apply (fun R => reach_step _ _ [mkThread 0 PIn; mkThread 8000 PStart] _ R
    (step_lock1 _ [mkThread 0 PIn; mkThread 8000 PStart] 1 8000 _ _ eq_refl H1 free1)) in R.
  exact (reach_step _ _ _ _ R
    (step_no_lock2 _ [mkThread 0 PIn; mkThread 8000 PGot1] 1 8000 _ eq_refl H1)).
Qed.

Lemma stripes_exclude_overlap_witness : ~ (touched table8224 0 40 /\ touched table8224 8000 40).
Proof.
  destruct table8224_wf as [Hwf Hl].
  apply (stripes_exclude_overlap table8224 [0; 8000] _ 0 1 0 8000 Hwf Hl two_inside_reachable
           eq_refl eq_refl ltac:(lia) 40).
Defined.

(** The lock discipline never deadlocks: in any state of any number of
    threads, as long as one of them has not finished, some thread can take its
    next step. *)
Theorem stripes_progress (m : uDepotMap) (ts : list thread) (i : nat) (t : thread) :
  map_wf m -> locks_wf m ->
  ts !! i = Some t -> t_pc t <> PDone -> exists ts', lock_step m ts ts'.
Proof. intros. by eapply lock_progress. Qed.

Lemma stripes_progress_witness :
  exists ts', lock_step table8224 [mkThread 0 PIn; mkThread 8000 PGot1] ts'.
Proof.
  destruct table8224_wf as [Hwf Hl].
  apply (stripes_progress table8224 _ 1 (mkThread 8000 PGot1) Hwf Hl); [reflexivity|discriminate].
Defined.
