(* ===== verification/FpTable.v ===== *)
(** * What a table promises its directory

    The directory map treats each of its tables through five operations.  This
    interface states what it relies on: the operations, the bag of (fingerprint,
    size, grain) triples they act on, and their laws.  The hopscotch table is
    the implementation. *)
From Stdlib Require Import ZArith Lia.
From stdpp Require Import base tactics list numbers.
From S2P Require Import Prelude Util HashEntry HopscotchMap HopscotchSpec.
From S2P Require Import HopscotchInit HopscotchRefine HopscotchShift.

Open Scope Z_scope.

(** The operations, and what slot [p] holds: a tombstone is a triple of size 0. *)
Class FpTable (T : Type) := {
  tbl_lookup : T -> Z -> Z * option nat;
  tbl_next_free : T -> Z -> Z * option nat;
  tbl_try_shift : T -> Z -> option (Z * option nat * T);
  tbl_insert : T -> nat -> Z -> Z -> Z -> T;
  tbl_nslots : T -> nat;
  tbl_scan_at : T -> nat -> option triple;
}.

(** The used slots in order. *)
Definition tbl_scan {T} `{FpTable T} (t : T) : list triple :=
  omap (tbl_scan_at t) (seq 0 (tbl_nslots t)).

(** The fingerprint and the home of a hash in a table of [2^bits] home buckets. *)
Definition fp (bits h : Z) : Z := wrap (KEYTAG_BITS + bits) h.
Definition fp_home (bits h : Z) : nat := Z.to_nat (wrap bits h).

Class FpTableLaws (T : Type) `{FpTable T} := {
  tbl_ok : T -> Prop;
  tbl_clean : T -> Prop;
  tbl_aligned : T -> Prop;
  tbl_bits : T -> Z;
  tbl_bag : T -> list triple;
  tbl_occ : T -> nat -> bool;
  tbl_full : T -> Z -> Prop;
  tbl_grant : T -> Z -> nat -> Prop;

  tbl_clean_ok t : tbl_clean t -> tbl_ok t;
  tbl_bits_range t : tbl_ok t -> 0 <= tbl_bits t <= 32;

  (* the scans find a slot that can take an entry, or the bucket is full *)
  tbl_lookup_law t h : tbl_ok t ->
    (exists p, tbl_lookup t h = (0, Some p)) \/
    (exists p, tbl_lookup t h = (ENODATA, Some p) /\ tbl_grant t h p) \/
    (tbl_lookup t h = (ENOSPC, None) /\ tbl_full t h);
  tbl_next_free_law t h : tbl_ok t ->
    (exists p, tbl_next_free t h = (0, Some p) /\ tbl_grant t h p) \/
    (tbl_next_free t h = (ENOSPC, None) /\ tbl_full t h);
  tbl_grant_first t h p q : tbl_ok t -> tbl_grant t h p ->
    (fp_home (tbl_bits t) h <= q)%nat -> tbl_occ t q = false -> (p <= q)%nat;
  tbl_full_occ t h q : tbl_ok t -> tbl_full t h ->
    (fp_home (tbl_bits t) h <= q < fp_home (tbl_bits t) h + BUCKET)%nat -> tbl_occ t q = true;

  (* displacement and insertion *)
  tbl_try_shift_law t h : tbl_ok t -> tbl_full t h ->
    exists rc o t', tbl_try_shift t h = Some (rc, o, t') /\
      tbl_ok t' /\ tbl_bits t' = tbl_bits t /\ tbl_bag t' ≡ₚ tbl_bag t /\
      ((rc = ENOSPC /\ o = None) \/
       exists p, rc = 0 /\ o = Some p /\ tbl_grant t' h p /\
         forall s g, tbl_clean t -> 0 < s -> valid_pba g -> tbl_clean (tbl_insert t' p h s g));
  tbl_insert_law t p h s g : tbl_ok t -> tbl_grant t h p -> 0 <= s -> valid_pba g ->
    tbl_ok (tbl_insert t p h s g) /\ tbl_bits (tbl_insert t p h s g) = tbl_bits t /\
    tbl_bag (tbl_insert t p h s g) ≡ₚ
      (if 0 <? s then [(fp (tbl_bits t) h, Z.min s MAX_KV_SIZE, g)] else []) ++ tbl_bag t;
  tbl_insert_occ t p h s g q : tbl_ok t -> tbl_grant t h p -> 0 <= s -> valid_pba g ->
    tbl_occ (tbl_insert t p h s g) q = (q =? p)%nat || tbl_occ t q;
  tbl_insert_scan t p h s g q : tbl_ok t -> tbl_grant t h p -> 0 <= s -> valid_pba g ->
    tbl_scan_at (tbl_insert t p h s g) q =
    if (q =? p)%nat then Some (fp (tbl_bits t) h, Z.min s MAX_KV_SIZE, g) else tbl_scan_at t q;
  tbl_insert_aligned t p h s g : tbl_ok t -> tbl_aligned t -> tbl_grant t h p -> 0 <= s ->
    valid_pba g -> tbl_aligned (tbl_insert t p h s g);
  tbl_insert_clean t p h s g : tbl_clean t -> tbl_grant t h p -> 0 < s -> valid_pba g ->
    tbl_clean (tbl_insert t p h s g);

  (* a scan sees the live entries and the tombstones, in their buckets *)
  tbl_scan_bag t : tbl_ok t ->
    tbl_bag t ≡ₚ filter (fun x : triple => 0 < x.1.2) (tbl_scan t);
  tbl_scan_valid t p x : tbl_ok t -> tbl_scan_at t p = Some x ->
    0 <= x.1.2 <= MAX_KV_SIZE /\ valid_pba x.2 /\
    (0 < x.1.2 -> in_width (KEYTAG_BITS + tbl_bits t) (fp_of x));
  tbl_scan_home t p x : tbl_ok t -> tbl_aligned t -> tbl_scan_at t p = Some x ->
    (fp_home (tbl_bits t) (fp_of x) <= p < fp_home (tbl_bits t) (fp_of x) + BUCKET)%nat;
  tbl_clean_scan t p x : tbl_clean t -> tbl_scan_at t p = Some x -> 0 < x.1.2;
}.

(** ** The hopscotch table as an instance *)

(** What the loop of [uDepotDirectoryMap::grow] over the slots of a table reads:
    it skips unused slots. *)
Definition used_at (m : uDepotMap) (p : nat) : option triple :=
  if used (ent m p) then Some (entry_keyfp m p, kv_size (ent m p), pba (ent m p)) else None.

#[export] Instance hopscotch_table : FpTable uDepotMap := {
  tbl_lookup := lookup;
  tbl_next_free := next_free;
  tbl_try_shift := try_shift;
  tbl_insert := insert;
  tbl_nslots m := Z.to_nat (entry_nr_m m);
  tbl_scan_at := used_at;
}.

(** A clean table has all its invariants and no tombstones. *)
Definition clean (m : uDepotMap) : Prop := map_inv m /\ tomb_free m.

(** Tombstones included, every used slot lies in its home bucket. *)
Definition aligned (m : uDepotMap) : Prop :=
  forall p, used (ent m p) = true -> home_ok m p.

Definition full (m : uDepotMap) (h : Z) : Prop :=
  forall q, in_bucket m h q -> live_slot m q = true.

Section Instance_proofs.
Context (m : uDepotMap) (Hwf : map_wf m).

Lemma hash_fp (h : Z) : hash_to_keyfp_ m h = fp (entry_nr_bits_m m) h.
Proof. by apply hash_to_keyfp_wrap. Qed.

Lemma live_below_entry_nr (p : nat) : live_slot m p = true -> Z.of_nat p < entry_nr_m m.
Proof.
  intros Hl. destruct (wf_home _ Hwf p Hl) as [Ho Hh]. rewrite (wf_entry_nr _ Hwf).
  unfold HOP_SCOTCH_BUCKET_SIZE in *. lia.
Qed.

Lemma kv_size_pos (p : nat) : deleted (ent m p) = false -> 0 < kv_size (ent m p).
Proof.
  unfold deleted, DELETED_KV_SIZE_ENTRY. intros Hd%Z.eqb_neq.
  destruct (wf_entry _ Hwf p) as [_ _ [Hk _] _]. lia.
Qed.

Lemma used_at_live (p : nat) :
  live_at m p = (x ← used_at m p; if decide (0 < x.1.2) then Some x else None).
Proof.
  unfold live_at, used_at, live_slot, live. destruct (used (ent m p)) eqn:Hu; [|done]. simpl.
  destruct (deleted (ent m p)) eqn:Hd; simpl.
  - rewrite decide_False; [done|]. unfold deleted, DELETED_KV_SIZE_ENTRY in Hd.
    apply Z.eqb_eq in Hd. simpl. lia.
  - rewrite decide_True; [done|]. by apply kv_size_pos.
Qed.

Lemma omap_filter_used (l : list nat) :
  omap (live_at m) l = filter (fun x : triple => 0 < x.1.2) (omap (used_at m) l).
Proof.
  induction l as [|p l IH]; [done|]. cbn [omap list_omap]. rewrite used_at_live.
  fold (omap (M:=list) (live_at m)) (omap (M:=list) (used_at m)).
  destruct (used_at m p) as [x|]; simpl; [|exact IH].
  rewrite filter_cons. case_decide; [f_equal|]; exact IH.
Qed.

Lemma scan_entries : entries m = filter (fun x : triple => 0 < x.1.2) (tbl_scan m).
Proof.
  unfold tbl_scan. simpl. rewrite <- omap_filter_used. unfold entries, bag.
  pose proof (wf_length _ Hwf) as Hlen.
  replace (length (ht_m m)) with
    (Z.to_nat (entry_nr_m m) + (length (ht_m m) - Z.to_nat (entry_nr_m m)))%nat by lia.
  rewrite seq_app, omap_app. simpl.
  assert (omap (live_at m) (seq (Z.to_nat (entry_nr_m m))
            (length (ht_m m) - Z.to_nat (entry_nr_m m))) = []) as ->; [|by rewrite app_nil_r].
  apply omap_seq_none. intros j Hj. unfold live_at.
  destruct (live_slot m j) eqn:Hl; [|done]. apply live_below_entry_nr in Hl. lia.
Qed.

Lemma scan_valid (p : nat) (x : triple) : used_at m p = Some x ->
  0 <= x.1.2 <= MAX_KV_SIZE /\ valid_pba x.2 /\
  (0 < x.1.2 -> in_width (KEYTAG_BITS + entry_nr_bits_m m) (fp_of x)).
Proof.
  unfold used_at. destruct (used (ent m p)) eqn:Hu; [|done]. intros [= <-]. simpl.
  destruct (wf_entry _ Hwf p) as [_ _ [Hk0 Hk1] [Hg0 Hg1]].
  split; [change (2 ^ KV_SIZE_BITS) with 2048 in Hk1; change MAX_KV_SIZE with 2047; lia|].
  split.
  - unfold valid_pba. unfold used in Hu. apply negb_true_iff, Z.eqb_neq in Hu.
    change (2 ^ PBA_BITS) with (UNUSED_PBA_ENTRY + 1) in Hg1. lia.
  - intros Hpos. unfold fp_of. simpl.
    assert (live_slot m p = true) as Hl.
    { unfold live_slot, live. rewrite Hu. unfold deleted, DELETED_KV_SIZE_ENTRY.
      by rewrite (proj2 (Z.eqb_neq _ 0)) by lia. }
    rewrite <- (keyfp_of_entry_keyfp m Hwf p Hl), hash_to_keyfp_wrap by done.
    apply wrap_range. destruct (wf_bits _ Hwf). unfold KEYTAG_BITS. lia.
Qed.

Lemma clean_scan (p : nat) (x : triple) : tomb_free m -> used_at m p = Some x -> 0 < x.1.2.
Proof.
  intros Ht. unfold used_at. destruct (used (ent m p)); [|done]. intros [= <-]. simpl.
  apply kv_size_pos, Ht.
Qed.

Lemma fp_home_hb (h : Z) : fp_home (entry_nr_bits_m m) h = hb64 m h.
Proof. unfold fp_home, hb64. by rewrite hash_to_hb_wrap. Qed.

Lemma scan_home (p : nat) (x : triple) : aligned m -> used_at m p = Some x ->
  (fp_home (entry_nr_bits_m m) (fp_of x) <= p < fp_home (entry_nr_bits_m m) (fp_of x) + BUCKET)%nat.
Proof.
  intros Ha. unfold used_at. destruct (used (ent m p)) eqn:Hu; [|done]. intros [= <-].
  unfold fp_of. simpl. rewrite fp_home_hb, home_ok_hb by auto.
  by apply home_ok_window, Ha.
Qed.

Lemma insert_used (p q : nat) (h s g : Z) :
  free_slot m h p -> 0 <= s -> valid_pba g ->
  used (ent (insert m p h s g) q) = (q =? p)%nat || used (ent m q).
Proof.
  intros (Hin & _) Hs Hg. unfold insert.
  change (ent (used_entry_add _ _ ?x) q) with (ent x q). rewrite update_entry by done.
  pose proof (bucket_in_range m Hwf h) as Hlen. unfold in_bucket in Hin.
  destruct (Nat.eqb_spec q p) as [->|Hne]; [rewrite ent_set_eq by lia; by apply used_valid_pba|].
  by rewrite ent_set_ne.
Qed.

Lemma insert_tomb_free (p : nat) (h s g : Z) :
  tomb_free m -> in_bucket m h p -> 0 < s -> valid_pba g -> tomb_free (insert m p h s g).
Proof.
  intros Ht Hin Hs Hg q. unfold insert.
  change (ent (used_entry_add _ _ ?x) q) with (ent x q). rewrite update_entry by (done || lia).
  pose proof (bucket_in_range m Hwf h) as Hlen. unfold in_bucket in Hin.
  destruct (decide (p = q)) as [<-|Hne]; [rewrite ent_set_eq by lia|by rewrite ent_set_ne].
  unfold deleted, DELETED_KV_SIZE_ENTRY. simpl. change MAX_KV_SIZE with 2047.
  apply Z.eqb_neq. lia.
Qed.

Lemma insert_used_at (p q : nat) (h s g : Z) :
  free_slot m h p -> 0 <= s -> valid_pba g ->
  used_at (insert m p h s g) q =
  if (q =? p)%nat then Some (fp (entry_nr_bits_m m) h, Z.min s MAX_KV_SIZE, g) else used_at m q.
Proof.
  intros Hf Hs Hg. pose proof Hf as (Hin & _). unfold used_at. rewrite insert_used by done.
  change (entry_keyfp (insert m p h s g) q) with (entry_keyfp (update m p h s g) q).
  change (ent (insert m p h s g) q) with (ent (update m p h s g) q).
  pose proof (bucket_in_range m Hwf h) as Hlen. unfold in_bucket in Hin.
  destruct (Nat.eqb_spec q p) as [->|Hne]; simpl.
  - rewrite update_keyfp, hash_fp by done. rewrite update_entry by done.
    by rewrite ent_set_eq by lia.
  - rewrite update_entry by done. rewrite ent_set_ne by done.
    rewrite (entry_keyfp_ext m); [done|done|]. by rewrite ent_set_ne.
Qed.

Lemma insert_aligned (p : nat) (h s g : Z) :
  aligned m -> free_slot m h p -> 0 <= s -> valid_pba g -> aligned (insert m p h s g).
Proof.
  intros Ha Hf Hs Hg q. rewrite insert_used by done. pose proof Hf as (Hin & _).
  change (home_ok (insert m p h s g) q) with (home_ok (update m p h s g) q).
  destruct (Nat.eqb_spec q p) as [->|Hne]; simpl; [intros _; by apply update_home_ok|].
  intros Hu. specialize (Ha q Hu). unfold home_ok in *. rewrite update_entry by done.
  by rewrite ent_set_ne.
Qed.

End Instance_proofs.

Lemma hopscotch_try_shift_law (m : uDepotMap) (h : Z) :
  map_wf m -> full m h ->
  exists rc o m', try_shift m h = Some (rc, o, m') /\
    map_wf m' /\ entry_nr_bits_m m' = entry_nr_bits_m m /\ entries m' ≡ₚ entries m /\
    ((rc = ENOSPC /\ o = None) \/
     exists p, rc = 0 /\ o = Some p /\ free_slot m' h p /\
       forall s g, clean m -> 0 < s -> valid_pba g -> clean (insert m' p h s g)).
Proof.
  intros Hwf Hfull.
  destruct (try_shift_post m h Hwf Hfull) as (rc & o & m' & -> & Hwf' & Hs & He & Htf & Hres).
  exists rc, o, m'. split; [done|]. split; [done|].
  split; [unfold shape in Hs; by injection Hs|]. split; [done|].
  destruct Hres as [?|(p & -> & -> & Hp & Hnl & Hbef & Hcb)]; [by left|right].
  assert (Hfs : free_slot m' h p) by (by apply (shifted_free_slot m)).
  exists p. do 3 (split; [done|]). intros s g [Hinv Ht] Hpos Hg. split.
  - apply (shifted_insert m m'); auto. apply Hcb. split; [apply Hinv|]. intros q _ _. apply Ht.
  - apply insert_tomb_free; auto. apply Hfs.
Qed.

#[export] Program Instance hopscotch_laws : FpTableLaws uDepotMap := {
  tbl_ok := map_wf;
  tbl_clean := clean;
  tbl_aligned := aligned;
  tbl_bits := entry_nr_bits_m;
  tbl_bag := entries;
  tbl_occ m p := used (ent m p);
  tbl_full := full;
  tbl_grant := free_slot;
  tbl_try_shift_law := hopscotch_try_shift_law;
}.
Next Obligation. intros m [[Hwf _ _] _]. exact Hwf. Qed.
Next Obligation. intros m Hwf. apply Hwf. Qed.
Next Obligation.
  intros m h Hwf. destruct (lookup_cases m Hwf h) as [(p & Hp & _)|[(p & Hp & Hf & _)|(Hl & Hall & _)]].
  - left. by exists p.
  - right. left. by exists p.
  - right. right. split; [done|]. intros q Hq. by apply Hall.
Qed.
Next Obligation.
  intros m h Hwf. destruct (next_free_cases m Hwf h) as [(p & ? & ?)|[? ?]]; [left; by exists p|by right].
Qed.
Next Obligation.
  simpl. intros m h p q Hwf (_ & _ & Hbef) Hq Hu. rewrite fp_home_hb in Hq by done.
  destruct (decide (p <= q)%nat); [done|]. rewrite Hbef in Hu by lia. done.
Qed.
Next Obligation.
  simpl. intros m h q Hwf Hfull Hq. rewrite fp_home_hb in Hq by done. by apply live_used, Hfull.
Qed.
Next Obligation.
  intros m p h s g Hwf Hf Hs Hg. split; [by apply insert_wf; [|apply Hf|..]|]. split; [done|].
  rewrite <- hash_fp by done. by apply insert_entries.
Qed.
Next Obligation. simpl. intros. by apply insert_used. Qed.
Next Obligation. simpl. intros. by apply insert_used_at. Qed.
Next Obligation. simpl. intros. by apply insert_aligned. Qed.
Next Obligation.
  intros m p h s g [Hinv Ht] Hf Hs Hg. pose proof Hinv as [Hwf _ _]. split.
  - by apply insert_step.
  - apply insert_tomb_free; auto. apply Hf.
Qed.
Next Obligation. intros m Hwf. by rewrite scan_entries. Qed.
Next Obligation. intros m p x Hwf Hx. by apply (scan_valid m Hwf p). Qed.
Next Obligation. intros m p x Hwf Ha Hx. by apply (scan_home m Hwf p). Qed.
Next Obligation. intros m p x [[Hwf _ _] Ht] Hx. by apply (clean_scan m Hwf p). Qed.
