(* ===== verification/DirectoryMap.v ===== *)
(** * The directory map (udepot-directory-map.hh, udepot-directory-map.cc)

    A directory of [2^k] tables, the top [k] bits of a key's fingerprint choosing
    the table.  [grow] doubles it: it allocates and maps one segment per new
    table, initialises the tables, copies every used entry of the old tables into
    the new ones, and only then publishes the new directory and gives the old
    segments back.  The segment allocator, mmap and mprotect are the outcomes
    recorded in [grow_env]; their effects are the list of events. *)
From Stdlib Require Import ZArith Lia.
From stdpp Require Import base tactics list numbers.
From S2P Require Import Prelude Util HashEntry HopscotchMap HopscotchSpec.
From S2P Require Import HopscotchInit HopscotchRefine HopscotchShift FpTable.

Open Scope Z_scope.

(** ** Choosing the table *)

Definition hash_to_dir_idx_ (map_bits h dir_bits : Z) : Z :=
  let hh := Z.land h (u64 (u64 (Z.shiftl 1 (KEYTAG_BITS + map_bits)) - 1)) in
  Z.shiftr hh (KEYTAG_BITS + map_bits - dir_bits).

(** [__builtin_clzl] of a non-zero word. *)
Definition builtin_clzl (n : Z) : Z := 63 - Z.log2 n.

Definition dir_idx_bits_ (n : Z) : Z := 63 - builtin_clzl n.

(** ** Copying into the new tables *)

Section Copy.
Context {T : Type} `{FpTable T}.

(** An out parameter [HashEntry **he_out] that may be left as it was. *)
Definition out (trgt o : option nat) : option nat :=
  match o with Some p => Some p | None => trgt end.

(** [insert] through a pointer; [None] is a null dereference. *)
Definition insert_at (t : T) (trgt : option nat) (h s g : Z) : option T :=
  p ← trgt; Some (tbl_insert t p h s g).

(** The [switch] of the copy loop, for one entry: the code's inner [rc] when it
    leaves the loop (0 to go on), the results of [next_free] that it assigns and
    then ignores, and the table. *)
Definition copy_entry (t : T) (h s g : Z) : option (Z * list Z * T) :=
  let '(rc, trgt) := tbl_lookup t h in
  if rc =? ENOSPC then
    '(rc, o, t) ← tbl_try_shift t h;
    if negb (rc =? 0) then Some (EFAULT, [], t)
    else t' ← insert_at t (out trgt o) h s g; Some (0, [], t')
  else if rc =? ENODATA then
    t' ← insert_at t trgt h s g; Some (0, [], t')
  else if rc =? 0 then
    let '(rc, o) := tbl_next_free t h in
    t' ← insert_at t (out trgt o) h s g; Some (0, [rc], t')
  else Some (EFAULT, [], t).

(** The loop over the used entries of the old tables, in order. *)
Fixpoint copy_entries (map_bits dir_bits : Z) (es : list triple) (trgts : list T)
  : option (Z * list Z * list T) :=
  match es with
  | [] => Some (0, [], trgts)
  | (h, s, g) :: es' =>
      let idx := Z.to_nat (u32 (hash_to_dir_idx_ map_bits h dir_bits)) in
      t ← trgts !! idx;
      '(rc, ig, t') ← copy_entry t h s g;
      let trgts' := <[idx := t']> trgts in
      if rc =? 0 then
        '(rc', ig', r) ← copy_entries map_bits dir_bits es' trgts';
        Some (rc', ig ++ ig', r)
      else Some (rc, ig, trgts')
  end.

Definition copy_tables (map_bits dir_bits : Z) (old trgts : list T) : option (Z * list Z * list T) :=
  copy_entries map_bits dir_bits (concat (tbl_scan <$> old)) trgts.

End Copy.

(** ** The directory *)

Record DirMapEntry := mkDme {
  dme_map : uDepotMap;
  mm_region : bool;       (* the region is mapped: not MAP_FAILED *)
  grain_offset : Z;
  size_b : Z;
  huge : bool;
}.

Definition DirMapEntry_new : DirMapEntry := mkDme uDepotMap_new false 0 0 false.

Record DirMap := mkDirMap {
  directory : list DirMapEntry;
  grow_nr_m : Z;
  map_entry_nr_bits_m : Z;
}.

Definition DirMap_new : DirMap := mkDirMap [] 0 0.

Definition dir_size (d : DirMap) : Z := Z.of_nat (length (directory d)).

(** The index of the table of hash [h]. *)
Definition hash_to_map (d : DirMap) (h : Z) : nat :=
  Z.to_nat (hash_to_dir_idx_ (map_entry_nr_bits_m d) h (dir_idx_bits_ (dir_size d))).

Definition map_at (d : DirMap) (i : nat) : uDepotMap :=
  default uDepotMap_new (dme_map <$> directory d !! i).

(** Dispatch of the table operations; a pointer into a table is the pair of the
    table's index, which the hash determines, and the slot. *)
Definition dir_lookup (d : DirMap) (h : Z) : Z * option nat := lookup (map_at d (hash_to_map d h)) h.
Definition dir_next_free (d : DirMap) (h : Z) : Z * option nat :=
  next_free (map_at d (hash_to_map d h)) h.
Definition dir_next (d : DirMap) (he : option nat) (h : Z) : option nat :=
  next (map_at d (hash_to_map d h)) he h.
Definition dir_lookup_pba (d : DirMap) (h g : Z) : option nat :=
  lookup_pba (map_at d (hash_to_map d h)) h g.

Definition set_map (e : DirMapEntry) (m : uDepotMap) : DirMapEntry :=
  mkDme m (mm_region e) (grain_offset e) (size_b e) (huge e).

Definition dir_alter (d : DirMap) (h : Z) (f : uDepotMap -> uDepotMap) : DirMap :=
  mkDirMap (alter (fun e => set_map e (f (dme_map e))) (hash_to_map d h) (directory d))
    (grow_nr_m d) (map_entry_nr_bits_m d).

Definition dir_insert (d : DirMap) (h : Z) (he : nat) (kvs g : Z) : DirMap :=
  dir_alter d h (fun m => insert m he h kvs g).
Definition dir_update (d : DirMap) (h : Z) (he : nat) (kvs g : Z) : DirMap :=
  dir_alter d h (fun m => update m he h kvs g).
Definition dir_update_inplace (d : DirMap) (h : Z) (he : nat) (kvs g : Z) : DirMap :=
  dir_alter d h (fun m => update_inplace m he h kvs g).
Definition dir_remove (d : DirMap) (h : Z) (he : nat) (g : Z) : DirMap :=
  dir_alter d h (fun m => remove m he g).
Definition dir_purge (d : DirMap) (h : Z) (he : nat) : DirMap :=
  dir_alter d h (fun m => purge_at m he).
Definition dir_try_shift (d : DirMap) (h : Z) : option (Z * option nat * DirMap) :=
  '(rc, o, m') ← try_shift (map_at d (hash_to_map d h)) h;
  Some (rc, o, dir_alter d h (fun _ => m')).

(** ** Index arithmetic *)

Lemma hash_to_dir_idx_spec (b h k : Z) :
  0 <= b <= 32 -> 0 <= k <= KEYTAG_BITS + b ->
  hash_to_dir_idx_ b h k = fp b h / 2 ^ (KEYTAG_BITS + b - k) /\
  in_width k (hash_to_dir_idx_ b h k).
Proof.
  intros Hb Hk. unfold KEYTAG_BITS in *.
  assert (0 < 2 ^ (8 + b) <= 2 ^ 40) by (split; [apply pow2_pos|apply Z.pow_le_mono_r]; lia).
  assert (hash_to_dir_idx_ b h k = fp b h / 2 ^ (8 + b - k)) as Heq.
  { unfold hash_to_dir_idx_, fp, KEYTAG_BITS. rewrite Z.shiftl_1_l.
    rewrite (wrap_small 64 (2 ^ _)) by (split; lia). rewrite wrap_small by (split; lia).
    rewrite land_mask_wrap, Z.shiftr_div_pow2 by lia. done. }
  split; [done|]. rewrite Heq. unfold in_width.
  pose proof (wrap_range (8 + b) h ltac:(lia)) as [H0 H1]. change (wrap (8 + b) h) with (fp b h) in *.
  pose proof (pow2_pos (8 + b - k) ltac:(lia)).
  split; [apply Z.div_pos; lia|]. apply Z.div_lt_upper_bound; [lia|].
  rewrite <- Z.pow_add_r by lia. by replace (8 + b - k + k) with (8 + b) by lia.
Qed.

Lemma fp_idem (b h : Z) : 0 <= b -> fp b (fp b h) = fp b h.
Proof. intros. apply wrap_wrap. unfold KEYTAG_BITS. lia. Qed.

(** The index depends on the fingerprint only. *)
Lemma hash_to_dir_idx_fp (b h k : Z) :
  0 <= b <= 32 -> 0 <= k <= KEYTAG_BITS + b ->
  hash_to_dir_idx_ b (fp b h) k = hash_to_dir_idx_ b h k.
Proof.
  intros Hb Hk. rewrite !(proj1 (hash_to_dir_idx_spec b _ k Hb Hk)). by rewrite fp_idem by lia.
Qed.

(** One more bit of index splits a table in two. *)
Lemma hash_to_dir_idx_half (b h k : Z) :
  0 <= b <= 32 -> 0 <= k < KEYTAG_BITS + b ->
  hash_to_dir_idx_ b h (k + 1) / 2 = hash_to_dir_idx_ b h k.
Proof.
  intros Hb Hk. unfold KEYTAG_BITS in *.
  rewrite (proj1 (hash_to_dir_idx_spec b h (k + 1) Hb ltac:(unfold KEYTAG_BITS; lia))).
  rewrite (proj1 (hash_to_dir_idx_spec b h k Hb ltac:(unfold KEYTAG_BITS; lia))).
  unfold KEYTAG_BITS. rewrite Z.div_div by lia.
  rewrite Z.mul_comm, <- Z.pow_succ_r by lia.
  f_equal. f_equal. lia.
Qed.

Lemma dir_idx_bits_pow2 (k : Z) : 0 <= k -> dir_idx_bits_ (2 ^ k) = k.
Proof. intros. unfold dir_idx_bits_, builtin_clzl. rewrite Z.log2_pow2 by done. lia. Qed.

(** ** The copy always finds room

    [room p occ]: the used slots at or after any [h] number at most [p - h].
    After the old slots below [p] were copied this holds of the new tables, so
    the entry of old slot [p] still finds an unused slot in its bucket, no later
    than [p]: the copy never needs a displacement and never overwrites. *)

Definition count_occ_in (occ : nat -> bool) (h n : nat) : nat :=
  length (filter (fun q => occ q = true) (seq h n)).

Definition room (p : nat) (occ : nat -> bool) : Prop :=
  forall h n, (count_occ_in occ h n <= p - h)%nat.

Lemma count_occ_in_S (occ : nat -> bool) (h n : nat) :
  count_occ_in occ h (S n) = ((if occ h then 1 else 0) + count_occ_in occ (S h) n)%nat.
Proof.
  unfold count_occ_in. cbn [seq]. rewrite filter_cons.
  destruct (occ h); [rewrite decide_True by done|rewrite decide_False by done]; done.
Qed.

Lemma count_occ_in_full (occ : nat -> bool) (h n : nat) :
  (forall q, (h <= q < h + n)%nat -> occ q = true) -> count_occ_in occ h n = n.
Proof.
  revert h. induction n as [|n IH]; intros h Hall; [done|].
  rewrite count_occ_in_S, Hall, IH by (intros; try apply Hall; lia). done.
Qed.

Lemma count_occ_in_add (occ occ' : nat -> bool) (p h n : nat) :
  (forall q, occ' q = (q =? p)%nat || occ q) ->
  (count_occ_in occ' h n <= (if (h <=? p)%nat then 1 else 0) + count_occ_in occ h n)%nat.
Proof.
  intros Hocc. revert h. induction n as [|n IH]; intros h; [unfold count_occ_in; simpl; lia|].
  rewrite !count_occ_in_S, Hocc. specialize (IH (S h)).
  destruct (Nat.eqb_spec h p), (Nat.leb_spec h p), (Nat.leb_spec (S h) p), (occ h);
    simpl in *; lia.
Qed.

Lemma room_free (p h : nat) (occ : nat -> bool) :
  room p occ -> (h <= p)%nat -> exists q, (h <= q <= p)%nat /\ occ q = false.
Proof.
  intros Hr Hh. destruct (for_first (fun q => negb (occ q)) h (S p - h)) as [q|] eqn:Hf.
  - apply for_first_Some in Hf as (? & Hq & _). exists q. split; [lia|].
    by apply negb_true_iff.
  - specialize (Hr h (S p - h)%nat). rewrite count_occ_in_full in Hr; [lia|].
    intros q Hq. apply negb_false_iff. by apply (proj1 (for_first_None _ _ _) Hf).
Qed.

Lemma room_insert (p p' : nat) (occ occ' : nat -> bool) :
  room p occ -> (p' <= p)%nat -> (forall q, occ' q = (q =? p')%nat || occ q) -> room (S p) occ'.
Proof.
  intros Hr Hp Hocc h n. pose proof (count_occ_in_add occ occ' p' h n Hocc) as Hadd.
  specialize (Hr h n). destruct (Nat.leb_spec h p'); lia.
Qed.

Lemma room_weaken (p p' : nat) (occ : nat -> bool) : (p <= p')%nat -> room p occ -> room p' occ.
Proof. intros Hp Hr h n. specialize (Hr h n). lia. Qed.

Lemma room_empty (occ : nat -> bool) : (forall q, occ q = false) -> room 0 occ.
Proof.
  intros He h n. revert h. induction n as [|n IH]; intros h; [done|].
  rewrite count_occ_in_S, He. specialize (IH (S h)). lia.
Qed.

Lemma concat_insert_perm {A B} (f : A -> list B) (l : list A) (i : nat) (a a' : A) (xs : list B) :
  l !! i = Some a -> f a' ≡ₚ xs ++ f a ->
  concat (f <$> <[i := a']> l) ≡ₚ xs ++ concat (f <$> l).
Proof.
  revert i. induction l as [|b l IH]; intros [|i] Hi Hf; simplify_eq/=.
  - by rewrite Hf, app_assoc.
  - rewrite (IH i Hi Hf), !app_assoc. f_equiv. apply Permutation_app_comm.
Qed.

Section Copy_proofs.
Context {T : Type} `{FpTableLaws T}.
Context (b k : Z) (Hb : 0 <= b <= 32) (Hk : 0 <= k < KEYTAG_BITS + b) (Hk32 : k + 1 < 32).

(** [Q] is the condition under which the tables are wanted clean. *)
Context (Q : Prop).

Lemma copy_entry_room (t : T) (p : nat) (h s g : Z) :
  tbl_ok t -> room p (tbl_occ t) ->
  (fp_home (tbl_bits t) h <= p < fp_home (tbl_bits t) h + BUCKET)%nat ->
  0 <= s -> valid_pba g ->
  exists ig t', copy_entry t h s g = Some (0, ig, t') /\ Forall (eq 0) ig /\
    tbl_ok t' /\ tbl_bits t' = tbl_bits t /\ room (S p) (tbl_occ t') /\
    (tbl_aligned t -> tbl_aligned t') /\
    (forall q x, tbl_scan_at t' q = Some x ->
       fp_of x = fp (tbl_bits t) h \/ tbl_scan_at t q = Some x) /\
    tbl_bag t' ≡ₚ (if 0 <? s then [(fp (tbl_bits t) h, Z.min s MAX_KV_SIZE, g)] else []) ++ tbl_bag t /\
    (tbl_clean t -> 0 < s -> tbl_clean t').
Proof.
  intros Hok Hroom Hhome Hs Hg.
  destruct (room_free p (fp_home (tbl_bits t) h) _ Hroom) as (q & Hq & Hocc); [lia|].
  assert (Hnf : ~ tbl_full t h).
  { intros Hfull. rewrite (tbl_full_occ t h q) in Hocc; [done|done|done|lia]. }
  assert (Hins : forall p', tbl_grant t h p' ->
    tbl_ok (tbl_insert t p' h s g) /\ tbl_bits (tbl_insert t p' h s g) = tbl_bits t /\
    room (S p) (tbl_occ (tbl_insert t p' h s g)) /\
    (tbl_aligned t -> tbl_aligned (tbl_insert t p' h s g)) /\
    (forall q x, tbl_scan_at (tbl_insert t p' h s g) q = Some x ->
       fp_of x = fp (tbl_bits t) h \/ tbl_scan_at t q = Some x) /\
    tbl_bag (tbl_insert t p' h s g) ≡ₚ
      (if 0 <? s then [(fp (tbl_bits t) h, Z.min s MAX_KV_SIZE, g)] else []) ++ tbl_bag t /\
    (tbl_clean t -> 0 < s -> tbl_clean (tbl_insert t p' h s g))).
  { intros p' Hgr. destruct (tbl_insert_law t p' h s g) as (? & ? & ?); auto.
    split; [done|]. split; [done|].
    split; [|split; [intros; by apply tbl_insert_aligned|split; [|split; [done|]]]].
    - apply (room_insert p p' (tbl_occ t)); [done| |intros; by apply (tbl_insert_occ _ _ h)].
      pose proof (tbl_grant_first t h p' q Hok Hgr ltac:(lia) Hocc). lia.
    - intros q' x. rewrite tbl_insert_scan by done. destruct (q' =? p')%nat; intros Hx; [left|by right].
      by simplify_eq.
    - intros. by apply tbl_insert_clean. }
  unfold copy_entry.
  destruct (tbl_lookup_law t h Hok) as [(p' & ->)|[(p' & -> & Hgr)|[_ ?]]]; [..|done].
  - change (0 =? ENOSPC) with false. change (0 =? ENODATA) with false. change (0 =? 0) with true.
    cbv match. destruct (tbl_next_free_law t h Hok) as [(p'' & -> & Hgr)|[_ ?]]; [|done].
    exists [0], (tbl_insert t p'' h s g). split; [done|]. split; [by constructor|]. by apply Hins.
  - change (ENODATA =? ENOSPC) with false. change (ENODATA =? ENODATA) with true. cbv match.
    exists [], (tbl_insert t p' h s g). split; [done|]. split; [done|]. by apply Hins.
Qed.

(** The state of the copy after the slots below [p] of old table [i]: [acc] is
    what has been copied. *)
Record copy_inv (i p : nat) (acc : list triple) (trgts : list T) : Prop := {
  ci_len : Z.of_nat (length trgts) = 2 ^ (k + 1);
  ci_ok : forall j t, trgts !! j = Some t -> tbl_ok t /\ tbl_bits t = b /\ tbl_aligned t;
  ci_cur : forall j t, trgts !! j = Some t -> (j / 2 = i)%nat -> room p (tbl_occ t);
  ci_later : forall j t, trgts !! j = Some t -> (i < j / 2)%nat -> room 0 (tbl_occ t);
  ci_bag : concat (tbl_bag <$> trgts) ≡ₚ filter (fun x : triple => 0 < x.1.2) acc;
  ci_place : forall j t q x, trgts !! j = Some t -> tbl_scan_at t q = Some x ->
    hash_to_dir_idx_ b (fp_of x) (k + 1) = Z.of_nat j;
  ci_clean_if : Q -> forall j t, trgts !! j = Some t -> tbl_clean t;
}.

(** What the copy needs to know of an entry read at slot [p] of table [i]. *)
Definition entry_pre (i p : nat) (x : triple) : Prop :=
  (fp_home b (fp_of x) <= p < fp_home b (fp_of x) + BUCKET)%nat /\
  0 <= x.1.2 <= MAX_KV_SIZE /\ valid_pba x.2 /\
  (0 < x.1.2 -> in_width (KEYTAG_BITS + b) (fp_of x)) /\
  hash_to_dir_idx_ b (fp_of x) k = Z.of_nat i /\ (Q -> 0 < x.1.2).

Lemma copy_idx (i p : nat) (x : triple) :
  entry_pre i p x ->
  let j := Z.to_nat (u32 (hash_to_dir_idx_ b (fp_of x) (k + 1))) in
  hash_to_dir_idx_ b (fp_of x) (k + 1) = Z.of_nat j /\ Z.of_nat j < 2 ^ (k + 1) /\ (j / 2 = i)%nat.
Proof.
  intros (_ & _ & _ & _ & Hi & _) j.
  pose proof (proj2 (hash_to_dir_idx_spec b (fp_of x) (k + 1) Hb ltac:(lia))) as Hw.
  assert (2 ^ (k + 1) <= 2 ^ 32) by (apply Z.pow_le_mono_r; lia).
  unfold j. rewrite wrap_small by (unfold in_width in *; lia). destruct Hw as [Hw0 Hw1].
  split; [lia|]. split; [lia|].
  pose proof (hash_to_dir_idx_half b (fp_of x) k Hb Hk) as Hhalf. rewrite Hi in Hhalf.
  apply Nat2Z.inj. rewrite Nat2Z.inj_div, Z2Nat.id by lia. exact Hhalf.
Qed.

Lemma copy_step (i p : nat) (acc : list triple) (trgts : list T) (x : triple) (es : list triple) :
  copy_inv i p acc trgts -> entry_pre i p x ->
  exists ig trgts', Forall (eq 0) ig /\ copy_inv i (S p) (x :: acc) trgts' /\
    copy_entries b (k + 1) (x :: es) trgts =
      ('(rc, ig', r) ← copy_entries b (k + 1) es trgts'; Some (rc, ig ++ ig', r)).
Proof.
  intros [Hlen Hok Hcur Hlat Hbag Hpl Hcl] Hpre.
  destruct (copy_idx i p x Hpre) as (Hidx & Hlt & Hhalf).
  destruct x as [[h s] g]. unfold fp_of in *. cbn [fst snd] in *.
  set (j := Z.to_nat (u32 (hash_to_dir_idx_ b h (k + 1)))) in *.
  destruct (lookup_lt_is_Some_2 trgts j) as [t Ht]; [lia|].
  destruct (Hok j t Ht) as (Hokt & Hbt & Hal). destruct Hpre as (Hhome & Hs & Hg & Hw & _ & Hpos).
  unfold fp_of in *. cbn [fst snd] in *.
  destruct (copy_entry_room t p h s g) as (ig & t' & Hce & Hig & Hok' & Hbt' & Hroom & Hal' & Hsc' & Hbag' & Hcl');
    [done|by apply (Hcur j)|by rewrite Hbt|lia|done|].
  exists ig, (<[j := t']> trgts). split; [done|]. split.
  2:{ cbn [copy_entries]. fold j. rewrite Ht. cbn [mbind option_bind]. rewrite Hce. cbn [mbind option_bind].
      change (0 =? 0) with true. done. }
  assert (Hnew : (if 0 <? s then [(fp (tbl_bits t) h, Z.min s MAX_KV_SIZE, g)] else []) =
    filter (fun x : triple => 0 < x.1.2) [(h, s, g)]).
  { rewrite filter_cons, filter_nil. simpl. destruct (Z.ltb_spec 0 s) as [Hp|]; case_decide; try lia; [|done].
    rewrite Hbt. unfold fp. rewrite wrap_small by auto. rewrite Z.min_l by lia. done. }
  rewrite Hnew in Hbag'. split.
  - by rewrite length_insert.
  - intros j' t'' [(<- & <- & _)|[_ Hj]]%list_lookup_insert_Some; [split; [done|]; split; [congruence|auto]|by eapply Hok].
  - intros j' t'' [(<- & <- & _)|[_ Hj]]%list_lookup_insert_Some Hi; [done|].
    apply (room_weaken p); [lia|]. by apply (Hcur j').
  - intros j' t'' [(<- & <- & _)|[_ Hj]]%list_lookup_insert_Some Hi; [lia|by apply (Hlat j')].
  - rewrite (concat_insert_perm tbl_bag trgts j t t' _ Ht Hbag'), Hbag.
    change ((h, s, g) :: acc) with ([(h, s, g)] ++ acc). by rewrite list.filter_app.
  - intros j' t'' q y [(<- & <- & _)|[_ Hj]]%list_lookup_insert_Some Hy; [|by eapply Hpl].
    destruct (Hsc' q y Hy) as [Hfp|Hy']; [|by apply (Hpl j t q)].
    rewrite Hfp, Hbt, hash_to_dir_idx_fp by lia. done.
  - intros q j' t'' [(<- & <- & _)|[_ Hj]]%list_lookup_insert_Some; [|by eapply Hcl].
    apply Hcl'; [by apply (Hcl q j)|by apply Hpos].
Qed.

Lemma copy_inv_perm (i p p' : nat) (acc acc' : list triple) (trgts : list T) :
  acc ≡ₚ acc' -> (p <= p')%nat -> copy_inv i p acc trgts -> copy_inv i p' acc' trgts.
Proof.
  intros Hp Hle [Hlen Hok Hcur Hlat Hbag Hpl Hcl]. split; auto; [|by rewrite <- Hp].
  intros j t Hj Hi. apply (room_weaken p); [done|]. by apply (Hcur j).
Qed.

(** All the slots of old table [i] from [p] on. *)
Lemma copy_slots (scan_at : nat -> option triple) (i : nat) (n p : nat) (acc : list triple)
    (trgts : list T) (es : list triple) :
  (forall q x, scan_at q = Some x -> entry_pre i q x) -> copy_inv i p acc trgts ->
  exists ig trgts', Forall (eq 0) ig /\
    copy_inv i (p + n) (omap scan_at (seq p n) ++ acc) trgts' /\
    copy_entries b (k + 1) (omap scan_at (seq p n) ++ es) trgts =
      ('(rc, ig', r) ← copy_entries b (k + 1) es trgts'; Some (rc, ig ++ ig', r)).
Proof.
  intros Hpre. revert p acc trgts.
  induction n as [|n IH]; intros p acc trgts Hinv; cbn [seq omap list_omap].
  { exists [], trgts. rewrite Nat.add_0_r. split; [done|]. split; [done|].
    simpl. by destruct (copy_entries b (k + 1) es trgts) as [[[]]|]. }
  fold (omap (M:=list) scan_at). rewrite <- Nat.add_succ_comm.
  destruct (scan_at p) as [x|] eqn:Hx.
  - destruct (copy_step i p acc trgts x (omap scan_at (seq (S p) n) ++ es) Hinv (Hpre p x Hx))
      as (ig & trgts1 & Hig & Hinv1 & Heq).
    destruct (IH (S p) (x :: acc) trgts1 Hinv1) as (ig' & trgts' & Hig' & Hinv' & Heq').
    exists (ig ++ ig'), trgts'. split; [by apply Forall_app|]. split.
    + eapply copy_inv_perm; [|reflexivity|exact Hinv']. symmetry. apply Permutation_middle.
    + cbn [app]. rewrite Heq, Heq'.
      destruct (copy_entries b (k + 1) es trgts') as [[[rc ig''] r]|]; cbn [mbind option_bind]; [|done].
      by rewrite app_assoc.
  - apply IH. eapply copy_inv_perm; [reflexivity| |exact Hinv]. lia.
Qed.

Lemma copy_inv_next (i p : nat) (acc : list triple) (trgts : list T) :
  copy_inv i p acc trgts -> copy_inv (S i) 0 acc trgts.
Proof.
  intros [Hlen Hok Hcur Hlat Hbag Hpl Hcl]. split; auto.
  - intros j t Hj Hi. apply (Hlat j t Hj). lia.
  - intros j t Hj Hi. apply (Hlat j t Hj). lia.
Qed.

(** Table [i] of a directory of [2^k'] tables: every entry, tombstones included,
    is in its bucket and belongs to the table. *)
Definition table_pre_at (k' : Z) (i : nat) (t : T) : Prop :=
  tbl_ok t /\ tbl_bits t = b /\ tbl_aligned t /\ (Q -> tbl_clean t) /\
  forall p x, tbl_scan_at t p = Some x -> hash_to_dir_idx_ b (fp_of x) k' = Z.of_nat i.

Definition table_pre (i : nat) (t : T) : Prop := table_pre_at k i t.

Lemma table_entry_pre (i p : nat) (t : T) (x : triple) :
  table_pre i t -> tbl_scan_at t p = Some x -> entry_pre i p x.
Proof.
  intros (Hok & Hbt & Hal & Hcl & Hidx) Hx. pose proof (tbl_scan_home t p x Hok Hal Hx) as Hh.
  destruct (tbl_scan_valid t p x Hok Hx) as (Hs & Hg & Hw). rewrite Hbt in *.
  do 4 (split; [done|]). split; [by eapply Hidx|]. intros q. by apply (tbl_clean_scan t p), Hx; auto.
Qed.

Lemma copy_rest (old : list T) (i : nat) (acc : list triple) (trgts : list T) :
  (forall n t, old !! n = Some t -> table_pre (i + n) t) -> copy_inv i 0 acc trgts ->
  exists ig trgts', Forall (eq 0) ig /\
    copy_inv (i + length old) 0 (concat (tbl_scan <$> old) ++ acc) trgts' /\
    copy_entries b (k + 1) (concat (tbl_scan <$> old)) trgts = Some (0, ig, trgts').
Proof.
  revert i acc trgts. induction old as [|t old IH]; intros i acc trgts Hold Hinv.
  { exists [], trgts. rewrite Nat.add_0_r. done. }
  assert (Ht : table_pre i t) by (rewrite <- (Nat.add_0_r i); by apply Hold).
  destruct (copy_slots (tbl_scan_at t) i (tbl_nslots t) 0 acc trgts (concat (tbl_scan <$> old)))
    as (ig & trgts1 & Hig & Hinv1 & Heq); [intros q x; by apply table_entry_pre|done|].
  destruct (IH (S i) (tbl_scan t ++ acc) trgts1) as (ig' & trgts' & Hig' & Hinv' & Heq').
  { intros n t' Hn. rewrite Nat.add_succ_comm. by apply Hold. }
  { by eapply copy_inv_next. }
  exists (ig ++ ig'), trgts'. split; [by apply Forall_app|]. split.
  - cbn [length fmap list_fmap concat]. rewrite <- Nat.add_succ_comm.
    eapply copy_inv_perm; [|reflexivity|exact Hinv'].
    rewrite !app_assoc. apply Permutation_app_tail, Permutation_app_comm.
  - cbn [fmap list_fmap concat]. unfold tbl_scan at 1. rewrite Heq.
    change (list_fmap T (list triple) tbl_scan old) with (tbl_scan <$> old). rewrite Heq'. done.
Qed.

Lemma concat_scan_bag (old : list T) :
  (forall t, t ∈ old -> tbl_ok t) ->
  filter (fun x : triple => 0 < x.1.2) (concat (tbl_scan <$> old)) ≡ₚ concat (tbl_bag <$> old).
Proof.
  induction old as [|t old IH]; intros Hok; [done|]. cbn [fmap list_fmap concat].
  rewrite list.filter_app, <- (tbl_scan_bag t) by (apply Hok, elem_of_cons; by left).
  f_equiv. apply IH. intros t' Ht'. apply Hok, elem_of_cons. by right.
Qed.

Lemma copy_tables_total (old trgts : list T) :
  (forall i t, old !! i = Some t -> table_pre i t) ->
  Z.of_nat (length trgts) = 2 ^ (k + 1) ->
  (forall t, t ∈ trgts -> tbl_ok t /\ tbl_bits t = b /\ tbl_bag t = [] /\
     (forall q, tbl_occ t q = false) /\ (forall q, tbl_scan_at t q = None) /\
     tbl_aligned t /\ (Q -> tbl_clean t)) ->
  exists ig trgts', copy_tables b (k + 1) old trgts = Some (0, ig, trgts') /\
    Forall (eq 0) ig /\ length trgts' = length trgts /\
    concat (tbl_bag <$> trgts') ≡ₚ concat (tbl_bag <$> old) /\
    (forall j t, trgts' !! j = Some t -> table_pre_at (k + 1) j t).
Proof.
  intros Hold Hlen Hnew.
  assert (Hnew' : forall j t, trgts !! j = Some t -> tbl_ok t /\ tbl_bits t = b /\ tbl_bag t = [] /\
     (forall q, tbl_occ t q = false) /\ (forall q, tbl_scan_at t q = None) /\
     tbl_aligned t /\ (Q -> tbl_clean t)).
  { intros j t Hj. by apply Hnew, (list_elem_of_lookup_2 _ j). }
  destruct (copy_rest old 0 [] trgts) as (ig & trgts' & Hig & [Hlen' Hok' _ _ Hbag' Hpl' Hcl'] & Heq);
    [done|split|].
  - done.
  - intros j t Hj. by destruct (Hnew' j t Hj) as (? & ? & _ & _ & _ & ? & _).
  - intros j t Hj _. apply room_empty. by apply (Hnew' j t Hj).
  - intros j t Hj _. apply room_empty. by apply (Hnew' j t Hj).
  - assert (concat (tbl_bag <$> trgts) = []) as ->; [|done]. clear -Hnew.
    induction trgts as [|t l IH]; [done|]. cbn [fmap list_fmap concat].
    destruct (Hnew t) as (_ & _ & -> & _); [apply elem_of_cons; by left|].
    apply IH. intros t' Ht'. apply Hnew, elem_of_cons. by right.
  - intros j t q x Hj Hx. destruct (Hnew' j t Hj) as (_ & _ & _ & _ & He & _). by rewrite He in Hx.
  - intros q j t Hj. by apply (Hnew' j t Hj).
  - exists ig, trgts'. split; [exact Heq|]. split; [done|]. split; [lia|].
    split.
    + rewrite Hbag', app_nil_r. apply concat_scan_bag.
      intros t [j Hj]%list_elem_of_lookup. by apply (Hold j t Hj).
    + intros j t Hj. destruct (Hok' j t Hj) as (? & ? & ?).
      do 3 (split; [done|]). split; [intros q; by apply (Hcl' q j)|].
      intros q x Hx. by apply (Hpl' j t q).
Qed.

End Copy_proofs.
