(* ===== verification/DirectoryGrow.v ===== *)
(** * Growing the directory (uDepotDirectoryMap::grow)

    The whole of [grow] with its five failure exits.  What the segment
    allocator, mmap, munmap and mprotect answer is recorded in [grow_env]; what
    [grow] does to segments and mappings is the list of events it returns. *)
From Stdlib Require Import ZArith Lia.
From stdpp Require Import base tactics list numbers.
From S2P Require Import Prelude Util HashEntry HopscotchMap HopscotchSpec.
From S2P Require Import HopscotchInit HopscotchRefine HopscotchShift FpTable DirectoryMap.

Open Scope Z_scope.

(** sizeof(dirmap_hdr) and sizeof(dirmap_ftr). *)
Definition sizeof_dirmap_hdr : Z := 512.
Definition sizeof_dirmap_ftr : Z := 512.

Record dirmap_hdr := mkHdr { hdr_dir_size : Z; hdr_idx : Z; hdr_csum : Z; hdr_ts : Z }.

(** Answers of the code [grow] calls. *)
Record grow_env := mkGrowEnv {
  raced : bool;                    (* another grow replaced the directory first *)
  env_seg_size : Z;                (* SalsaCtlr::get_seg_size(), in grains *)
  env_seg_md_size : Z;             (* md_m.get_seg_md_size(), in grains *)
  env_grain_size : Z;              (* SalsaCtlr::get_grain_size() *)
  env_alloc : nat -> Z * Z;        (* the first answer of allocate_grains that is not EAGAIN *)
  env_mmap_huge : nat -> bool;     (* mmap with MAP_HUGETLB succeeds *)
  env_mmap : nat -> bool;          (* mmap succeeds *)
  env_region : nat -> list HashEntry;  (* what the mapped table region holds *)
  env_mprotect_ro : nat -> Z;      (* errno of each call, 0 for success *)
  env_mprotect_none : nat -> Z;
  env_munmap : nat -> Z;
  env_timestamp : nat -> Z;        (* md_m.timestamp() *)
  env_checksum : Z -> Z -> Z -> Z; (* md_m.checksum32(ts, dir_size, idx) *)
}.

Inductive event :=
  | Allocate (grain nr : Z)
  | Release (grain nr : Z)
  | Invalidate (grain nr : Z)
  | Map_region (grain : Z)
  | Unmap_region (grain : Z).

Record grow_out := mkGrowOut {
  g_rc : Z;
  g_dir : DirMap;
  g_events : list event;
  g_hdrs : list dirmap_hdr;
}.

Section Grow.
Context (env : grow_env).

Definition net_seg_size : Z := u64 (env_seg_size env - env_seg_md_size env).
Definition mmap_size_b : Z := u64 (net_seg_size * env_grain_size env).
Definition full_seg_b : Z := u64 (env_seg_size env * env_grain_size env).
Definition mmap_size_grains : Z := mmap_size_b / env_grain_size env.

(** Step 1, from table [i] on: [n] tables are left to allocate.  The entries
    after a failure stay as the constructor left them. *)
Fixpoint grow_alloc (i n : nat) : Z * list DirMapEntry * list event :=
  match n with
  | O => (0, [], [])
  | S n' =>
      let '(rc, grain) := env_alloc env i in
      if negb (rc =? 0) then (rc, replicate n DirMapEntry_new, [])
      else
        let hg := (Z.land full_seg_b (Z.shiftl 1 21 - 1) =? 0) && env_mmap_huge env i in
        if negb hg && negb (env_mmap env i) then
          (ENOMEM, replicate n DirMapEntry_new,
           [Allocate grain mmap_size_grains; Release grain mmap_size_grains])
        else
          let dme := mkDme uDepotMap_new true grain mmap_size_b hg in
          let '(rc, dmes, evs) := grow_alloc (S i) n' in
          (rc, dme :: dmes,
           [Allocate grain mmap_size_grains; Map_region grain; Release grain mmap_size_grains] ++ evs)
  end.

(** Step 2: initialise the tables; the error code of the first that fails. *)
Fixpoint grow_init (lock_nr : Z) (i : nat) (dmes : list DirMapEntry)
  : option (Z * list DirMapEntry) :=
  match dmes with
  | [] => Some (0, [])
  | dme :: rest =>
      let size := u64 (size_b dme - u32 (sizeof_dirmap_hdr + sizeof_dirmap_ftr)) in
      '(rc, m) ← init (dme_map dme) lock_nr size (Some (env_region env i));
      if negb (rc =? 0) then Some (rc, set_map dme m :: rest)
      else '(rc, rest') ← grow_init lock_nr (S i) rest; Some (rc, set_map dme m :: rest')
  end.

(** A loop of [n] system calls that stops at the first error. *)
Fixpoint first_error (f : nat -> Z) (i n : nat) : Z :=
  match n with
  | O => 0
  | S n' => if negb (f i =? 0) then f i else first_error f (S i) n'
  end.

(** Unmap the old tables and give their grains back. *)
Fixpoint grow_unmap (i : nat) (dmes : list DirMapEntry) : Z * list event :=
  match dmes with
  | [] => (0, [])
  | dme :: rest =>
      if negb (env_munmap env i =? 0) then (env_munmap env i, [])
      else let '(rc, evs) := grow_unmap (S i) rest in
        (rc, [Unmap_region (grain_offset dme);
              Invalidate (grain_offset dme) (size_b dme / env_grain_size env)] ++ evs)
  end.

(** The labels fail3/fail2/fail1: drop what was mapped for the new directory. *)
Definition grow_drop (dmes : list DirMapEntry) : list event :=
  concat ((fun dme =>
    if mm_region dme
    then [Unmap_region (grain_offset dme);
          Invalidate (grain_offset dme) (size_b dme / env_grain_size env)]
    else []) <$> dmes).

Definition grow_header (n : nat) (i : nat) : dirmap_hdr :=
  let ts := env_timestamp env i in
  let size := u16 (Z.of_nat n) in
  let idx := u16 (Z.of_nat i) in
  mkHdr size idx (env_checksum env ts size idx) ts.

(** [None] is a call that does not return: the sizing loop of a table, or the
    dereference of a null slot. *)
Definition grow (d : DirMap) : option grow_out :=
  if raced env then Some (mkGrowOut EAGAIN d [] []) else
  let new_size := u32 (Z.max 1 (2 * dir_size d)) in
  let n := Z.to_nat new_size in
  let lock_nr := u32 (Z.max 1 (HOP_SCOTCH_LOCK_NR / new_size)) in
  let '(rc, dmes, evs) := grow_alloc 0 n in
  if negb (rc =? 0) then Some (mkGrowOut rc d (evs ++ grow_drop dmes) []) else
  '(rc, dmes) ← grow_init lock_nr 0 dmes;
  if negb (rc =? 0) then Some (mkGrowOut rc d (evs ++ grow_drop dmes) []) else
  let rc := first_error (env_mprotect_ro env) 0 (length (directory d)) in
  if negb (rc =? 0) then Some (mkGrowOut rc d (evs ++ grow_drop dmes) []) else
  '(inner_rc, _, maps) ← copy_tables (map_entry_nr_bits_m d) (dir_idx_bits_ new_size)
                           (dme_map <$> directory d) (dme_map <$> dmes);
  let dmes := zip_with set_map dmes maps in
  (* the [rc] of the copy loop is a local of its body: the outer one is still 0 *)
  if negb (inner_rc =? 0) then Some (mkGrowOut rc d (evs ++ grow_drop dmes) []) else
  let rc := first_error (env_mprotect_none env) 0 (length (directory d)) in
  if negb (rc =? 0) then Some (mkGrowOut rc d (evs ++ grow_drop dmes) []) else
  let '(rc, unmap_evs) := grow_unmap 0 (directory d) in
  if negb (rc =? 0) then Some (mkGrowOut rc d (evs ++ unmap_evs ++ grow_drop dmes) []) else
  Some (mkGrowOut 0
    (mkDirMap dmes (u32 (grow_nr_m d + 1)) (map_entry_nr_bits_m d))
    (evs ++ unmap_evs)
    (grow_header (length dmes) <$> seq 0 (length dmes))).

End Grow.

(** [uDepotDirectoryMap::init] starting from scratch: the first grow, then the
    width of the tables is taken from table 0. *)
Definition dir_init_fresh (env : grow_env) : option (Z * DirMap) :=
  out ← grow env DirMap_new;
  if negb (g_rc out =? 0) then Some (g_rc out, g_dir out)
  else Some (0, mkDirMap (directory (g_dir out)) (grow_nr_m (g_dir out))
                  (entry_nr_bits_m (map_at (g_dir out) 0))).

(** ** Invariant and content of a directory *)

Record dir_wf (k : Z) (d : DirMap) : Prop := {
  dw_size : dir_size d = 2 ^ k;
  dw_bits : 0 <= map_entry_nr_bits_m d <= 32;
  dw_k : 0 <= k <= KEYTAG_BITS + map_entry_nr_bits_m d;
  dw_tables : forall i e, directory d !! i = Some e ->
    table_pre_at (map_entry_nr_bits_m d) False k i (dme_map e);
}.

Definition dir_clean (d : DirMap) : Prop :=
  forall i e, directory d !! i = Some e -> clean (dme_map e).

Definition dir_bag (d : DirMap) : list triple := concat (entries <$> (dme_map <$> directory d)).

(** The segments a directory owns. *)
Definition owned (env : grow_env) (dmes : list DirMapEntry) : list (Z * Z) :=
  (fun e => (grain_offset e, size_b e / env_grain_size env)) <$> dmes.

Definition allocated (evs : list event) : list (Z * Z) :=
  omap (fun ev => match ev with Allocate g n => Some (g, n) | _ => None end) evs.
Definition invalidated (evs : list event) : list (Z * Z) :=
  omap (fun ev => match ev with Invalidate g n => Some (g, n) | _ => None end) evs.

(** ** Lookup through the directory *)

Section Dispatch.
Context (k : Z) (d : DirMap) (Hd : dir_wf k d).

Lemma hash_to_map_idx (h : Z) :
  Z.of_nat (hash_to_map d h) = hash_to_dir_idx_ (map_entry_nr_bits_m d) h k /\
  (hash_to_map d h < length (directory d))%nat.
Proof.
  destruct Hd as [Hs Hb Hk _]. unfold hash_to_map. rewrite Hs, dir_idx_bits_pow2 by lia.
  destruct (hash_to_dir_idx_spec (map_entry_nr_bits_m d) h k Hb Hk) as [_ [H0 H1]].
  unfold dir_size in Hs. lia.
Qed.

Lemma map_at_lookup (i : nat) (e : DirMapEntry) :
  directory d !! i = Some e -> map_at d i = dme_map e.
Proof. intros He. unfold map_at. by rewrite He. Qed.

Lemma hash_to_map_table (h : Z) : exists e,
  directory d !! hash_to_map d h = Some e /\ map_at d (hash_to_map d h) = dme_map e.
Proof.
  destruct (lookup_lt_is_Some_2 _ _ (proj2 (hash_to_map_idx h))) as [e He].
  exists e. split; [done|]. by apply map_at_lookup.
Qed.

(** Entries of a table belong to it. *)
Lemma entries_idx (i : nat) (e : DirMapEntry) (t : triple) :
  directory d !! i = Some e -> t ∈ entries (dme_map e) ->
  hash_to_dir_idx_ (map_entry_nr_bits_m d) (fp_of t) k = Z.of_nat i.
Proof.
  intros He (p & Hl & ->)%elem_of_entries. destruct (dw_tables _ _ Hd i e He) as (_ & _ & _ & _ & Hidx).
  apply (Hidx p). simpl. unfold used_at. by rewrite (live_used _ _ Hl).
Qed.

(** Only the table the hash selects holds entries of its fingerprint. *)
Lemma filter_dir_bag (h : Z) :
  filter (fun t => fp_of t = fp (map_entry_nr_bits_m d) h) (dir_bag d) =
  filter (fun t => fp_of t = fp (map_entry_nr_bits_m d) h) (entries (map_at d (hash_to_map d h))).
Proof.
  destruct (hash_to_map_table h) as (e & He & ->). unfold dir_bag.
  apply (filter_concat_one _ _ (hash_to_map d h)).
  { by rewrite !list_lookup_fmap, He. }
  intros i l t Hi Hne Ht Hfp. rewrite !list_lookup_fmap in Hi.
  destruct (directory d !! i) as [e'|] eqn:He'; simplify_eq/=.
  apply Hne, Nat2Z.inj. rewrite (proj1 (hash_to_map_idx h)).
  rewrite <- (entries_idx i e' t He' Ht), Hfp. destruct Hd as [_ Hb Hk _].
  by apply hash_to_dir_idx_fp.
Qed.

End Dispatch.

(** ** Segment accounting *)

Lemma allocated_app (l1 l2 : list event) : allocated (l1 ++ l2) = allocated l1 ++ allocated l2.
Proof. apply omap_app. Qed.
Lemma invalidated_app (l1 l2 : list event) : invalidated (l1 ++ l2) = invalidated l1 ++ invalidated l2.
Proof. apply omap_app. Qed.

(** The segment of a directory entry, and the segments of the mapped ones. *)
Definition seg_of (e : DirMapEntry) : bool * Z * Z := (mm_region e, grain_offset e, size_b e).

Definition mapped (env : grow_env) (dmes : list DirMapEntry) : list (Z * Z) :=
  omap (fun e => if mm_region e then Some (grain_offset e, size_b e / env_grain_size env) else None)
    dmes.

Section Segments.
Context (env : grow_env).

(** The mapping of table [i] succeeds, with or without huge pages. *)
Definition mmap_ok (i : nat) : Prop :=
  env_mmap env i = true \/
  (env_mmap_huge env i = true /\ Z.land (full_seg_b env) (Z.shiftl 1 21 - 1) = 0).

Lemma mmap_ok_cond (i : nat) :
  mmap_ok i ->
  negb ((Z.land (full_seg_b env) (Z.shiftl 1 21 - 1) =? 0) && env_mmap_huge env i)
  && negb (env_mmap env i) = false.
Proof. intros [-> |[-> ->]]; [by rewrite andb_false_r|done]. Qed.

Lemma mapped_seg (l1 l2 : list DirMapEntry) :
  seg_of <$> l1 = seg_of <$> l2 -> mapped env l1 = mapped env l2.
Proof.
  revert l2. induction l1 as [|e1 l1 IH]; intros [|e2 l2] Heq; [done..|].
  injection Heq as Hm Hg Hs Heq. unfold mapped. cbn [omap list_omap].
  rewrite Hm, Hg, Hs. fold (omap (M:=list) (A:=DirMapEntry) (B:=Z * Z)).
  specialize (IH l2 Heq). unfold mapped in IH. cbn [omap] in IH. by rewrite IH.
Qed.

Lemma mapped_owned (dmes : list DirMapEntry) :
  Forall (fun e => mm_region e = true) dmes -> mapped env dmes = owned env dmes.
Proof.
  induction 1 as [|e dmes He _ IH]; [done|]. unfold mapped. simpl. rewrite He.
  unfold owned. simpl. f_equal. exact IH.
Qed.

Lemma drop_events (dmes : list DirMapEntry) :
  invalidated (grow_drop env dmes) = mapped env dmes /\ allocated (grow_drop env dmes) = [].
Proof.
  induction dmes as [|e dmes [IH1 IH2]]; [done|].
  change (grow_drop env (e :: dmes)) with
    ((if mm_region e
      then [Unmap_region (grain_offset e);
            Invalidate (grain_offset e) (size_b e / env_grain_size env)]
      else []) ++ grow_drop env dmes).
  rewrite invalidated_app, allocated_app, IH1, IH2.
  unfold mapped at 2. simpl. by destruct (mm_region e).
Qed.

Lemma mapped_new (n : nat) : mapped env (replicate n DirMapEntry_new) = [].
Proof. induction n as [|n IH]; [done|]. exact IH. Qed.

(** Every allocated segment is a mapped entry, when mappings succeed. *)
Lemma grow_alloc_events (i n : nat) :
  (forall j, (i <= j < i + n)%nat -> mmap_ok j) ->
  let '(rc, dmes, evs) := grow_alloc env i n in
  allocated evs = mapped env dmes /\ invalidated evs = [] /\
  (rc = 0 -> length dmes = n /\ Forall (fun e => seg_of e = (true, grain_offset e, mmap_size_b env) /\
                                           dme_map e = uDepotMap_new) dmes).
Proof.
  revert i. induction n as [|n IH]; intros i Hm; cbn [grow_alloc]; [done|].
  destruct (env_alloc env i) as [rc grain]. destruct (Z.eqb_spec rc 0) as [->|Hne]; simpl negb; cbv iota.
  2:{ by rewrite mapped_new. }
  rewrite mmap_ok_cond by (apply Hm; lia).
  specialize (IH (S i) ltac:(intros j ?; apply Hm; lia)).
  destruct (grow_alloc env (S i) n) as [[rc dmes] evs]. destruct IH as (IH1 & IH2 & IH3).
  rewrite allocated_app, invalidated_app, IH1, IH2. split; [done|]. split; [done|].
  intros [Hlen Hall]%IH3. split; [simpl; lia|]. by constructor.
Qed.

Lemma grow_unmap_events (i : nat) (dmes : list DirMapEntry) :
  (forall j, env_munmap env j = 0) ->
  exists evs, grow_unmap env i dmes = (0, evs) /\ allocated evs = [] /\ invalidated evs = owned env dmes.
Proof.
  intros Hu. revert i. induction dmes as [|e dmes IH]; intros i; cbn [grow_unmap]; [by exists []|].
  rewrite Hu. change (negb (0 =? 0)) with false. cbv iota.
  destruct (IH (S i)) as (evs & -> & H1 & H2). eexists. split; [done|].
  by rewrite allocated_app, invalidated_app, H1, H2.
Qed.

Lemma grow_init_segs (lock_nr : Z) (i : nat) (dmes dmes' : list DirMapEntry) (rc : Z) :
  grow_init env lock_nr i dmes = Some (rc, dmes') -> seg_of <$> dmes' = seg_of <$> dmes.
Proof.
  revert i dmes' rc. induction dmes as [|e dmes IH]; intros i dmes' rc; cbn [grow_init]; [by intros [= <- <-]|].
  destruct (init _ _ _ _) as [[rc1 m]|]; cbn [mbind option_bind]; [|done].
  destruct (rc1 =? 0); simpl negb; cbv iota; [|by intros [= <- <-]].
  destruct (grow_init env lock_nr (S i) dmes) as [[rc2 rest]|] eqn:Hg; cbn [mbind option_bind]; [|done].
  intros [= <- <-]. cbn. f_equal. by apply (IH (S i) rest rc2).
Qed.

Lemma zip_segs (dmes : list DirMapEntry) (maps : list uDepotMap) :
  length maps = length dmes ->
  seg_of <$> zip_with set_map dmes maps = seg_of <$> dmes /\
  dme_map <$> zip_with set_map dmes maps = maps.
Proof.
  revert maps. induction dmes as [|e dmes IH]; intros [|m maps] Hlen; try done.
  destruct (IH maps) as [H1 H2]; [simpl in Hlen; lia|].
  cbn. unfold seg_of at 1. cbn. rewrite H1, H2. done.
Qed.

End Segments.

Lemma copy_entries_length {T} `{FpTable T} (b k : Z) (es : list triple) (trgts r : list T)
    (rc : Z) (ig : list Z) :
  copy_entries b k es trgts = Some (rc, ig, r) -> length r = length trgts.
Proof.
  revert trgts r rc ig. induction es as [|[[h s] g] es IH]; intros trgts r rc ig; cbn [copy_entries].
  { by intros [= <- <- <-]. }
  set (idx := Z.to_nat _). destruct (trgts !! idx) as [t|]; cbn [mbind option_bind]; [|done].
  destruct (copy_entry t h s g) as [[[rc1 ig1] t']|]; cbn [mbind option_bind]; [|done].
  destruct (rc1 =? 0); [|intros [= <- <- <-]; apply length_insert].
  destruct (copy_entries b k es _) as [[[rc2 ig2] r2]|] eqn:He; cbn [mbind option_bind]; [|done].
  intros [= <- <- <-]. rewrite (IH _ _ _ _ He). apply length_insert.
Qed.

(** What every exit of [grow] satisfies. *)
Definition balanced (env : grow_env) (d : DirMap) (out : grow_out) : Prop :=
  owned env (directory d) ++ allocated (g_events out) ≡ₚ
  owned env (directory (g_dir out)) ++ invalidated (g_events out) /\
  (g_rc out <> 0 -> g_dir out = d).

(** The failure exits give back every segment the call allocated. *)
Lemma drop_balanced (env : grow_env) (d : DirMap) (rc : Z) (evs : list event)
    (dmes dmes' : list DirMapEntry) (hdrs : list dirmap_hdr) :
  allocated evs = mapped env dmes -> invalidated evs = [] -> seg_of <$> dmes' = seg_of <$> dmes ->
  balanced env d (mkGrowOut rc d (evs ++ grow_drop env dmes') hdrs).
Proof.
  intros Ha Hi Hs. split; [|done]. simpl. rewrite allocated_app, invalidated_app, Ha, Hi.
  destruct (drop_events env dmes') as [-> ->]. rewrite app_nil_r, app_nil_l.
  by rewrite (mapped_seg env dmes' dmes).
Qed.

Lemma grow_balanced (env : grow_env) (d : DirMap) (out : grow_out) :
  (forall j, mmap_ok env j) -> (forall j, env_munmap env j = 0) ->
  grow env d = Some out -> balanced env d out.
Proof.
  intros Hm Hu. unfold grow.
  destruct (raced env); [by intros [= <-]|].
  set (n := Z.to_nat _). set (lock_nr := wrap 32 (Z.max 1 (HOP_SCOTCH_LOCK_NR / _))).
  pose proof (grow_alloc_events env 0 n ltac:(intros; apply Hm)) as Hal.
  destruct (grow_alloc env 0 n) as [[rc1 dmes] evs]. destruct Hal as (Ha & Hi & Hall).
  destruct (Z.eqb_spec rc1 0) as [->|]; simpl negb; cbv iota;
    [|intros [= <-]; by eapply drop_balanced].
  destruct (Hall eq_refl) as [Hlen Hsegs]. clear Hall.
  destruct (grow_init env lock_nr 0 dmes) as [[rc2 dmes2]|] eqn:Hinit; cbn [mbind option_bind]; [|done].
  apply grow_init_segs in Hinit.
  destruct (rc2 =? 0); simpl negb; cbv iota; [|intros [= <-]; by eapply drop_balanced].
  destruct (first_error (env_mprotect_ro env) 0 _ =? 0); simpl negb; cbv iota;
    [|intros [= <-]; by eapply drop_balanced].
  destruct (copy_tables _ _ _ _) as [[[rc3 ig] maps]|] eqn:Hcp; cbn [mbind option_bind]; [|done].
  apply copy_entries_length in Hcp. rewrite length_fmap in Hcp.
  destruct (zip_segs dmes2 maps Hcp) as [Hz _]. rewrite Hinit in Hz.
  destruct (rc3 =? 0); simpl negb; cbv iota; [|intros [= <-]; by eapply drop_balanced].
  destruct (first_error (env_mprotect_none env) 0 _ =? 0); simpl negb; cbv iota;
    [|intros [= <-]; by eapply drop_balanced].
  destruct (grow_unmap_events env 0 (directory d) Hu) as (uevs & -> & Hua & Hui).
  change (negb (0 =? 0)) with false. cbv iota. intros [= <-]. split; [|done]. simpl.
  rewrite allocated_app, invalidated_app, Ha, Hi, Hua, Hui, app_nil_r, app_nil_l.
  rewrite <- (mapped_seg env _ _ Hz), mapped_owned; [apply Permutation_app_comm|].
  assert (Forall (fun s : bool * Z * Z => s.1.1 = true) (seg_of <$> zip_with set_map dmes2 maps)) as Hf.
  { rewrite Hz. apply Forall_fmap. eapply Forall_impl; [|exact Hsegs].
    intros e [He _]. unfold compose. by rewrite He. }
  by apply Forall_fmap in Hf.
Qed.

(** ** A grow that meets no failure *)

(** The answers of a call that succeeds for a directory that grows to [n] tables
    of [2^b] home buckets. *)
Record env_ok (env : grow_env) (n : nat) (b : Z) : Prop := {
  eo_raced : raced env = false;
  eo_size : sizeof_dirmap_hdr + sizeof_dirmap_ftr <= mmap_size_b env;
  eo_big : HOP_SCOTCH_BUCKET_SIZE < (mmap_size_b env - 1024) / 8;
  eo_bits : home_bits (mmap_size_b env - 1024) = b;
  eo_b : b <= 32;
  eo_alloc : forall i, (i < n)%nat -> (env_alloc env i).1 = 0;
  eo_mmap : forall i, mmap_ok env i;
  eo_region : forall i, (i < n)%nat ->
    (mmap_size_b env - 1024) / 8 <= Z.of_nat (length (env_region env i));
  eo_ro : forall i, env_mprotect_ro env i = 0;
  eo_none : forall i, env_mprotect_none env i = 0;
  eo_munmap : forall i, env_munmap env i = 0;
}.

Lemma first_error_none (f : nat -> Z) (i n : nat) : (forall j, f j = 0) -> first_error f i n = 0.
Proof. intros Hf. revert i. induction n as [|n IH]; intros i; simpl; [done|]. rewrite Hf. apply IH. Qed.

Lemma grow_alloc_ok (env : grow_env) (i n : nat) :
  (forall j, mmap_ok env j) -> (forall j, (i <= j < i + n)%nat -> (env_alloc env j).1 = 0) ->
  (grow_alloc env i n).1.1 = 0.
Proof.
  intros Hm. revert i. induction n as [|n IH]; intros i Ha; cbn [grow_alloc]; [done|].
  destruct (env_alloc env i) as [rc g] eqn:He.
  assert (rc = 0) as -> by (specialize (Ha i ltac:(lia)); by rewrite He in Ha).
  change (negb (0 =? 0)) with false. cbv iota. rewrite mmap_ok_cond by done.
  specialize (IH (S i) ltac:(intros j ?; apply Ha; lia)).
  by destruct (grow_alloc env (S i) n) as [[rc dmes] evs].
Qed.

(** A table as [init] leaves it. *)
Definition fresh (b : Z) (m : uDepotMap) : Prop :=
  map_inv m /\ entry_nr_bits_m m = b /\ entries m = [] /\ forall p, used (ent m p) = false.

Lemma grow_init_ok (env : grow_env) (lock_nr b : Z) (i : nat) (dmes : list DirMapEntry) (n : nat) :
  env_ok env n b -> 1 <= lock_nr <= HOP_SCOTCH_LOCK_NR -> (i + length dmes <= n)%nat ->
  Forall (fun e => seg_of e = (true, grain_offset e, mmap_size_b env) /\ dme_map e = uDepotMap_new) dmes ->
  exists dmes', grow_init env lock_nr i dmes = Some (0, dmes') /\ length dmes' = length dmes /\
    Forall (fun e => fresh b (dme_map e)) dmes'.
Proof.
  intros He Hl. revert i. induction dmes as [|e dmes IH]; intros i Hn Hall; cbn [grow_init].
  { by exists []. }
  apply Forall_cons_iff in Hall as [[Hseg Hmap] Hall]. simpl in Hn.
  assert (size_b e = mmap_size_b env) as -> by (unfold seg_of in Hseg; by injection Hseg).
  pose proof (eo_size _ _ _ He) as Hsz. unfold sizeof_dirmap_hdr, sizeof_dirmap_ftr in *.
  change (u32 (512 + 512)) with 1024.
  assert (in_width 64 (mmap_size_b env)) as Hw by (by apply wrap_range).
  rewrite (wrap_small 64) by (unfold in_width in *; lia). rewrite Hmap.
  destruct (init_result uDepotMap_new lock_nr (mmap_size_b env - 1024) (env_region env i))
    as (m & Hi & Hwf & _ & Hu & Hb & _); [unfold in_width in Hw; lia|done|split| |done|].
  { apply He. } { apply He. lia. } { rewrite (eo_bits _ _ _ He). apply He. }
  pose proof (init_inv lock_nr (mmap_size_b env - 1024) (env_region env i) m) as Hinv.
  destruct Hinv as (Hinv & _ & Hent & _); [unfold in_width in Hw; lia|done|split| |done|].
  { apply He. } { apply He. lia. } { rewrite (eo_bits _ _ _ He). apply He. }
  rewrite Hi. cbn [mbind option_bind]. change (negb (0 =? 0)) with false. cbv iota.
  destruct (IH (S i)) as (dmes' & -> & Hlen & Hall'); [lia|done|]. cbn [mbind option_bind].
  exists (set_map e m :: dmes'). split; [done|]. split; [simpl; lia|].
  constructor; [|done]. split; [done|]. split; [|done].
  rewrite <- (eo_bits _ _ _ He). exact Hb.
Qed.

Lemma fresh_target (b : Z) (Q : Prop) (m : uDepotMap) :
  fresh b m ->
  tbl_ok m /\ tbl_bits m = b /\ tbl_bag m = [] /\ (forall q, tbl_occ m q = false) /\
  (forall q, tbl_scan_at m q = None) /\ tbl_aligned m /\ (Q -> tbl_clean m).
Proof.
  intros (Hinv & Hb & He & Hu). split; [apply Hinv|]. do 3 (split; [done|]).
  split; [intros q; simpl; unfold used_at; by rewrite Hu|].
  split; [intros q Hq; by rewrite Hu in Hq|]. intros _. split; [done|].
  intros q. apply (wf_unused m); [apply Hinv|apply Hu].
Qed.

Lemma fresh_maps (b : Z) (dmes : list DirMapEntry) :
  Forall (fun e => fresh b (dme_map e)) dmes -> Forall (fresh b) (dme_map <$> dmes).
Proof. intros Hall. by apply Forall_fmap. Qed.

(** [grow] when nothing fails: it publishes what the copy made of fresh tables. *)
Lemma grow_ok (env : grow_env) (d : DirMap) (b : Z) :
  let n := Z.to_nat (u32 (Z.max 1 (2 * dir_size d))) in
  env_ok env n b -> (0 < n)%nat ->
  exists ms, length ms = n /\ Forall (fresh b) ms /\
    forall maps ig,
      copy_tables (map_entry_nr_bits_m d) (dir_idx_bits_ (Z.of_nat n)) (dme_map <$> directory d) ms =
      Some (0, ig, maps) ->
      exists out, grow env d = Some out /\ g_rc out = 0 /\
        dme_map <$> directory (g_dir out) = maps /\
        map_entry_nr_bits_m (g_dir out) = map_entry_nr_bits_m d.
Proof.
  intros n He Hn0. pose proof (grow_alloc_ok env 0 n (eo_mmap _ _ _ He)) as Hal.
  pose proof (grow_alloc_events env 0 n ltac:(intros; apply He)) as Hev.
  unfold grow. rewrite (eo_raced _ _ _ He). fold n.
  assert (Hnz : u32 (Z.max 1 (2 * dir_size d)) = Z.of_nat n) by (unfold n in *; lia).
  rewrite Hnz. set (lock_nr := wrap 32 (Z.max 1 _)).
  assert (1 <= lock_nr <= HOP_SCOTCH_LOCK_NR) as Hlk.
  { unfold lock_nr, HOP_SCOTCH_LOCK_NR.
    assert (0 <= 8192 / Z.of_nat n <= 8192) by (split; [apply Z.div_pos|apply Z.div_le_upper_bound]; nia).
    rewrite wrap_small by (unfold in_width; lia). lia. }
  destruct (grow_alloc env 0 n) as [[rc dmes] evs]. simpl in Hal.
  rewrite Hal in * by (intros; apply He; lia). destruct Hev as (_ & _ & Hall).
  destruct (Hall eq_refl) as [Hlen Hsegs].
  change (negb (0 =? 0)) with false. cbv iota.
  destruct (grow_init_ok env lock_nr b 0 dmes n He Hlk ltac:(lia) Hsegs) as (dmes2 & -> & Hlen2 & Hfr).
  cbn [mbind option_bind]. change (negb (0 =? 0)) with false. cbv iota.
  rewrite !first_error_none by apply He. change (negb (0 =? 0)) with false. cbv iota.
  exists (dme_map <$> dmes2). split; [rewrite length_fmap; lia|]. split; [by apply fresh_maps|].
  intros maps ig Hcp. rewrite Hcp. cbn [mbind option_bind].
  change (negb (0 =? 0)) with false. cbv iota.
  destruct (grow_unmap_events env 0 (directory d) (eo_munmap _ _ _ He)) as (uevs & -> & _).
  change (negb (0 =? 0)) with false. cbv iota. eexists. split; [done|]. split; [done|].
  split; [|done]. apply zip_segs. apply copy_entries_length in Hcp. by rewrite length_fmap in Hcp.
Qed.

(** ** Directory operations *)

Lemma directory_alter (d : DirMap) (h : Z) (f : uDepotMap -> uDepotMap) (i : nat) (e : DirMapEntry) :
  directory (dir_alter d h f) !! i = Some e ->
  exists e0, directory d !! i = Some e0 /\
    dme_map e = if (i =? hash_to_map d h)%nat then f (dme_map e0) else dme_map e0.
Proof.
  simpl. destruct (Nat.eqb_spec i (hash_to_map d h)) as [->|Hne].
  - rewrite list_lookup_alter_eq. intros Hi. apply fmap_Some in Hi as (e0 & He0 & ->). by exists e0.
  - rewrite list_lookup_alter_ne by done. intros Hi. by exists e.
Qed.

Lemma dir_alter_bag (k : Z) (d : DirMap) (h : Z) (f : uDepotMap -> uDepotMap) (xs : list triple) :
  dir_wf k d -> entries (f (map_at d (hash_to_map d h))) ≡ₚ xs ++ entries (map_at d (hash_to_map d h)) ->
  dir_bag (dir_alter d h f) ≡ₚ xs ++ dir_bag d.
Proof.
  intros Hd Hf. destruct (hash_to_map_table k d Hd h) as (e & He & Hm). rewrite Hm in Hf.
  unfold dir_bag, dir_alter. cbn [directory].
  assert (alter (fun e => set_map e (f (dme_map e))) (hash_to_map d h) (directory d) =
          <[hash_to_map d h := set_map e (f (dme_map e))]> (directory d)) as ->.
  { apply list_eq. intros i. destruct (decide (i = hash_to_map d h)) as [->|Hne].
    - rewrite list_lookup_alter_eq, He, list_lookup_insert_eq; [done|]. by eapply lookup_lt_Some.
    - by rewrite list_lookup_alter_ne, list_lookup_insert_ne by done. }
  rewrite list_fmap_insert. apply (concat_insert_perm entries _ _ (dme_map e)); [|done].
  by rewrite list_lookup_fmap, He.
Qed.

Lemma dir_insert_wf (k : Z) (d : DirMap) (h kvs g : Z) (p : nat) :
  dir_wf k d -> free_slot (map_at d (hash_to_map d h)) h p -> 0 <= kvs -> valid_pba g ->
  dir_wf k (dir_insert d h p kvs g) /\
  dir_bag (dir_insert d h p kvs g) ≡ₚ
    (if 0 <? kvs then [(fp (map_entry_nr_bits_m d) h, Z.min kvs MAX_KV_SIZE, g)] else []) ++ dir_bag d.
Proof.
  intros Hd Hf Hk Hg. pose proof (hash_to_map_table k d Hd h) as (e & He & Hm). rewrite Hm in Hf.
  pose proof (dw_tables _ _ Hd _ _ He) as (Hok & Hb & Hal & _ & Hidx).
  pose proof (tbl_insert_law (dme_map e) p h kvs g Hok Hf Hk Hg) as (Hok' & Hb' & Hbag').
  split.
  - destruct Hd as [Hs Hbits Hkr Ht]. split; [|done|done|].
    + unfold dir_size. simpl. by rewrite length_alter.
    + intros i e' (e0 & He0 & Hmap)%directory_alter. rewrite Hmap.
      destruct (Nat.eqb_spec i (hash_to_map d h)) as [->|]; [|by apply Ht].
      rewrite He in He0. injection He0 as <-.
      split; [done|]. split; [simpl in *; congruence|].
      split; [by apply insert_aligned|]. split; [done|].
      intros q x. simpl. rewrite insert_used_at by done. simpl in Hb.
      destruct (q =? p)%nat; [|apply Hidx]. intros [= <-]. unfold fp_of. simpl.
      rewrite Hb, hash_to_dir_idx_fp by done. symmetry.
      apply (hash_to_map_idx k d). by split.
  - apply (dir_alter_bag k); [done|]. rewrite Hm. simpl in Hbag', Hb. rewrite Hb in Hbag'. exact Hbag'.
Qed.

(** ** Theorems *)

(** lookup through the directory is complete: when the table a hash selects
    is chained, [lookup] and [next] on it visit exactly the live entries of the
    whole directory that carry the fingerprint of the hash. *)
Theorem dir_lookup_complete (k : Z) (d : DirMap) (h : Z) :
  dir_wf k d -> chained (map_at d (hash_to_map d h)) ->
  omap (live_at (map_at d (hash_to_map d h))) (found_list (map_at d (hash_to_map d h)) h) =
  filter (fun t => fp_of t = fp (map_entry_nr_bits_m d) h) (dir_bag d).
Proof.
  intros Hd Hc. rewrite (filter_dir_bag k d Hd).
  destruct (hash_to_map_table k d Hd h) as (e & He & Hm). rewrite Hm in *.
  destruct (dw_tables _ _ Hd _ _ He) as (Hok & Hb & _). simpl in Hok, Hb.
  rewrite found_list_spec, match_slots_entries by done.
  by rewrite hash_fp, Hb by done.
Qed.

(** C12: a grow of a well-formed directory that meets no failure of the allocator
    or of the system calls returns 0 and publishes a directory of twice the
    tables that is well formed and holds exactly the same live entries; none is
    dropped or overwritten, and clean tables stay clean. *)
Theorem grow_preserves (env : grow_env) (k : Z) (d : DirMap) :
  dir_wf k d -> k < KEYTAG_BITS + map_entry_nr_bits_m d -> k + 1 < 32 ->
  env_ok env (Z.to_nat (2 ^ (k + 1))) (map_entry_nr_bits_m d) ->
  exists out, grow env d = Some out /\ g_rc out = 0 /\ dir_wf (k + 1) (g_dir out) /\
    dir_bag (g_dir out) ≡ₚ dir_bag d /\ (dir_clean d -> dir_clean (g_dir out)).
Proof.
  intros Hd Hk Hk32 He. pose proof Hd as [Hs Hb Hkr Ht].
  assert (Z.to_nat (2 ^ (k + 1)) = Z.to_nat (u32 (Z.max 1 (2 * dir_size d)))) as Hn.
  { rewrite Hs, <- Z.pow_succ_r by lia. pose proof (pow2_pos (Z.succ k) ltac:(lia)).
    assert (2 ^ Z.succ k < 2 ^ 32) by (apply Z.pow_lt_mono_r; lia).
    rewrite Z.max_r by lia. rewrite wrap_small by (unfold in_width; lia).
    by rewrite Z.add_1_r. }
  pose proof (pow2_pos (k + 1) ltac:(lia)) as Hpos. rewrite Hn in He.
  destruct (grow_ok env d (map_entry_nr_bits_m d) He) as (ms & Hlen & Hfr & Hgrow); [lia|].
  rewrite <- Hn, Z2Nat.id, dir_idx_bits_pow2 in Hgrow by lia.
  destruct (copy_tables_total (map_entry_nr_bits_m d) k Hb ltac:(lia) Hk32 (dir_clean d)
              (dme_map <$> directory d) ms) as (ig & maps & Hcp & Hig & Hlen' & Hbag & Htab).
  - intros i m Hi. apply list_lookup_fmap_Some in Hi as (e & -> & Hi).
    destruct (Ht i e Hi) as (? & ? & ? & _ & ?). do 3 (split; [done|]).
    split; [intros Hcl; by apply (Hcl i e)|done].
  - rewrite Hlen, <- Hn, Z2Nat.id by lia. done.
  - intros m Hm. apply fresh_target. rewrite Forall_lookup in Hfr.
    apply list_elem_of_lookup in Hm as [j Hj]. by apply (Hfr j).
  - destruct (Hgrow maps ig Hcp) as (out & Hg & Hrc & Hmaps & Hbits). exists out.
    assert (Htab' : forall j e, directory (g_dir out) !! j = Some e ->
      table_pre_at (map_entry_nr_bits_m d) (dir_clean d) (k + 1) j (dme_map e)).
    { intros j e Hj. apply Htab. by rewrite <- Hmaps, list_lookup_fmap, Hj. }
    do 2 (split; [done|]). split; [split|split].
    + unfold dir_size. rewrite <- (length_fmap dme_map), Hmaps, Hlen', Hlen, <- Hn, Z2Nat.id; lia.
    + by rewrite Hbits.
    + rewrite Hbits. lia.
    + intros j e Hj. rewrite Hbits. destruct (Htab' j e Hj) as (? & ? & ? & _ & ?).
      do 3 (split; [done|]). by split.
    + unfold dir_bag. rewrite Hmaps. exact Hbag.
    + intros Hcl j e Hj. destruct (Htab' j e Hj) as (_ & _ & _ & Hclean & _). by apply Hclean.
Qed.

(** Segments of 49 grains of 32 bytes, one grain of them metadata: tables of 64
    slots.  The allocator hands out segment [i] at grain [49 i]. *)
Definition env_small : grow_env := mkGrowEnv false 49 1 32
  (fun i => (0, 49 * Z.of_nat i)) (fun _ => false) (fun _ => true)
  (fun _ => replicate 64 HashEntry_default) (fun _ => 0) (fun _ => 0) (fun _ => 0)
  (fun i => Z.of_nat i) (fun ts a c => 0).

Lemma env_small_ok (n : nat) : env_ok env_small n 5.
Proof.
  assert (mmap_size_b env_small = 1536) as Hs by reflexivity.
  split; try rewrite Hs; try reflexivity; try done.
  intros i. by left.
Qed.

(** The first grow, from the empty directory. *)
Lemma dir_init_fresh_ok (env : grow_env) (b : Z) :
  env_ok env 1 b -> exists d, dir_init_fresh env = Some (0, d) /\ dir_wf 0 d /\ dir_bag d = [] /\
    dir_clean d /\ map_entry_nr_bits_m d = b.
Proof.
  intros He. destruct (grow_ok env DirMap_new b) as (ms & Hlen & Hfr & Hgrow);
    [exact He|vm_compute; lia|].
  destruct (Hgrow ms []) as (out & Hg & Hrc & Hmaps & _); [done|].
  destruct ms as [|m [|]]; [done| |done]. apply Forall_cons_iff in Hfr as [Hfr _].
  destruct (directory (g_dir out)) as [|e [|]] eqn:Hdir; simpl in Hmaps; [done| |done].
  injection Hmaps as Hm. unfold dir_init_fresh. rewrite Hg. cbn [mbind option_bind]. rewrite Hrc.
  change (negb (0 =? 0)) with false. cbv iota.
  assert (map_at (g_dir out) 0 = m) as -> by (unfold map_at; rewrite Hdir; exact Hm).
  pose proof (fresh_target b True m Hfr) as (Hok & Hb & Hbag & _ & Hscan & Hal & Hcl). simpl in Hb.
  eexists. split; [done|]. pose proof (eo_b _ _ _ He). pose proof (tbl_bits_range m Hok) as Hr. simpl in Hr.
  split; [split|split; [|split; [|done]]].
  - unfold dir_size. simpl. by rewrite Hdir.
  - done.
  - unfold map_entry_nr_bits_m, KEYTAG_BITS. lia.
  - intros i e' He'. simpl in *. rewrite Hdir in He'.
    destruct i as [|i]; [|done]. injection He' as <-. rewrite Hm.
    do 3 (split; [done|]). split; [done|]. intros p x Hx. by rewrite Hscan in Hx.
  - unfold dir_bag. cbn [directory]. rewrite Hdir. simpl. rewrite Hm. simpl in Hbag. by rewrite Hbag.
  - intros i e' He'. simpl in He'. rewrite Hdir in He'. destruct i as [|i]; [|done].
    injection He' as <-. rewrite Hm. by apply Hcl.
Qed.

Definition dir_small : DirMap :=
  match dir_init_fresh env_small with Some (_, d) => d | None => DirMap_new end.

(** One table with an entry of size 3 at grain 100 for hash 5. *)
Definition dir_one : DirMap := dir_insert dir_small 5 5 3 100.

Lemma dir_small_wf : dir_wf 0 dir_small /\ dir_clean dir_small.
Proof.
  destruct (dir_init_fresh_ok env_small 5 (env_small_ok 1)) as (d & Hd & Hwf & _ & Hcl & _).
  unfold dir_small. rewrite Hd. exact (conj Hwf Hcl).
Qed.

Lemma dir_one_slot : free_slot (map_at dir_small (hash_to_map dir_small 5)) 5 5.
Proof.
  destruct dir_small_wf as [Hwf Hcl].
  apply granted_free; [|apply granted_lookup; vm_compute; reflexivity].
  destruct (hash_to_map_table 0 dir_small Hwf 5) as (e & He & ->). by apply (Hcl _ e He).
Qed.

Lemma dir_one_wf : dir_wf 0 dir_one /\ chained (map_at dir_one (hash_to_map dir_one 5)).
Proof.
  destruct dir_small_wf as [Hwf Hcl]. split.
  - apply dir_insert_wf; [done|exact dir_one_slot|lia|]. split; [discriminate|reflexivity].
  - pose proof dir_one_slot as Hf.
    destruct (hash_to_map_table 0 dir_small Hwf 5) as (e & He & Hm). rewrite Hm in Hf.
    assert (map_at dir_one (hash_to_map dir_one 5) = insert (dme_map e) 5 5 3 100) as ->.
    { change (hash_to_map dir_one 5) with (hash_to_map dir_small 5).
      unfold map_at, dir_one, dir_insert, dir_alter. cbn [directory].
      by rewrite list_lookup_alter_eq, He. }
    apply insert_step; [apply (Hcl _ e He)|exact Hf|reflexivity|]. split; [discriminate|reflexivity].
Qed.

Lemma dir_lookup_complete_witness :
  omap (live_at (map_at dir_one (hash_to_map dir_one 5)))
    (found_list (map_at dir_one (hash_to_map dir_one 5)) 5) = [(5, 3, 100)].
Proof.
  destruct dir_one_wf as [Hwf Hc]. rewrite (dir_lookup_complete 0 dir_one 5 Hwf Hc).
  vm_compute. reflexivity.
Defined.

Lemma grow_preserves_witness :
  exists out, grow env_small dir_one = Some out /\ g_rc out = 0 /\ dir_bag (g_dir out) ≡ₚ [(5, 3, 100)].
Proof.
  destruct dir_one_wf as [Hwf _].
  destruct (grow_preserves env_small 0 dir_one Hwf) as (out & Hg & Hrc & _ & Hbag & _).
  - vm_compute. reflexivity.
  - reflexivity.
  - apply env_small_ok.
  - exists out. split; [exact Hg|]. split; [exact Hrc|].
    assert (dir_bag dir_one = [(5, 3, 100)]) as Heq by (vm_compute; reflexivity).
    rewrite <- Heq. exact Hbag.
Defined.

(** C31: whatever exit it takes, [grow] neither leaks a segment nor gives one
    back twice, provided every mmap of an allocated segment and every munmap
    succeeds: the segments it allocated are those of the directory it leaves
    plus those it invalidated, less those of the directory it found.  On an error
    the directory is unchanged. *)
Theorem grow_segments_balanced (env : grow_env) (d : DirMap) (out : grow_out) :
  (forall j, mmap_ok env j) -> (forall j, env_munmap env j = 0) ->
  grow env d = Some out ->
  owned env (directory d) ++ allocated (g_events out) ≡ₚ
  owned env (directory (g_dir out)) ++ invalidated (g_events out) /\
  (g_rc out <> 0 -> g_dir out = d).
Proof. apply grow_balanced. Qed.

Lemma grow_segments_balanced_witness :
  exists out, grow env_small dir_one = Some out /\
    invalidated (g_events out) = [(0, 48)] /\
    owned env_small (directory dir_one) ++ allocated (g_events out) ≡ₚ
    owned env_small (directory (g_dir out)) ++ invalidated (g_events out).
Proof.
  eexists. split; [vm_compute; reflexivity|]. split; [reflexivity|].
  refine (proj1 (grow_segments_balanced env_small dir_one _ _ _ _)).
  - intros j. by left.
  - reflexivity.
  - vm_compute. reflexivity.
Defined.
