(* ===== verification/DirectoryOps.v ===== *)
(** * The directory as one bag of entries

    What a client of [uDepotDirectoryMap] relies on: the slots that lookup and
    next visit, and the effect of insert, update_inplace and remove on the
    entries of the whole directory, with the invariant [dir_inv] preserved. *)
From Stdlib Require Import ZArith Lia.
From stdpp Require Import base tactics list numbers.
From S2P Require Import Prelude Util HashEntry HopscotchMap HopscotchSpec.
From S2P Require Import HopscotchInit HopscotchRefine HopscotchShift FpTable DirectoryMap DirectoryGrow.

Open Scope Z_scope.

(** Every table has its invariants: it is well formed, chained and counted. *)
Definition dir_inv (k : Z) (d : DirMap) : Prop :=
  dir_wf k d /\ forall i e, directory d !! i = Some e -> map_inv (dme_map e).

(** The table of a hash. *)
Definition table (d : DirMap) (h : Z) : uDepotMap := map_at d (hash_to_map d h).

(** The fingerprint by which the directory finds the entries of a hash. *)
Definition dir_fp (d : DirMap) (h : Z) : Z := fp (map_entry_nr_bits_m d) h.

(** ** Overwriting the size and the grain of a live slot *)

Section Overwrite.
Context (m : uDepotMap) (Hwf : map_wf m) (he : nat) (Hl : live_slot m he = true).
Context (s g : Z) (Hg : valid_pba g).

Local Definition m' : uDepotMap :=
  set_ent he (mkHashEntry (bucket_offset (ent m he)) (key_tag (ent m he)) s g) m.

Lemma overwrite_used_at (q : nat) :
  used_at m' q = if (q =? he)%nat then Some (entry_keyfp m he, s, g) else used_at m q.
Proof.
  pose proof (used_in_range m he (live_used m he Hl)) as Hlt. unfold used_at.
  destruct (Nat.eqb_spec q he) as [->|Hne].
  - unfold m'. rewrite ent_set_eq by done. rewrite used_valid_pba by done.
    unfold entry_keyfp. rewrite ent_set_eq by done. done.
  - unfold m'. rewrite ent_set_ne by done. rewrite (entry_keyfp_ext m); [done|done|].
    by rewrite ent_set_ne.
Qed.

Lemma overwrite_aligned : aligned m -> aligned m'.
Proof.
  intros Ha q. pose proof (used_in_range m he (live_used m he Hl)) as Hlt.
  destruct (decide (q = he)) as [->|Hne].
  - intros _. pose proof (Ha he (live_used m he Hl)) as Hok. unfold home_ok in *. unfold m'.
    rewrite ent_set_eq by done. exact Hok.
  - unfold home_ok, m'. rewrite ent_set_ne by done. apply Ha.
Qed.

End Overwrite.

Lemma update_inplace_used_at (m : uDepotMap) (he : nat) (h kvs g : Z) (q : nat) :
  map_wf m -> matches m h he -> 0 <= kvs -> valid_pba g ->
  used_at (update_inplace m he h kvs g) q =
  if (q =? he)%nat then Some (entry_keyfp m he, Z.min kvs MAX_KV_SIZE, g) else used_at m q.
Proof.
  intros Hwf Hm Hk Hg. rewrite update_inplace_entry by done. by apply overwrite_used_at; [apply Hm|].
Qed.

Lemma remove_used_at (m : uDepotMap) (he : nat) (g : Z) (q : nat) :
  map_wf m -> live_slot m he = true -> valid_pba g ->
  used_at (remove m he g) q = if (q =? he)%nat then Some (entry_keyfp m he, 0, g) else used_at m q.
Proof.
  intros Hwf Hl Hg. unfold remove. rewrite remove_entry by done.
  change (used_at (used_entry_add _ _ ?x) q) with (used_at x q). by apply overwrite_used_at.
Qed.

(** ** Changing one table *)

Section Ops.
Context (k : Z) (d : DirMap) (Hd : dir_inv k d) (h : Z).

Lemma table_inv : map_inv (table d h) /\ aligned (table d h) /\
  entry_nr_bits_m (table d h) = map_entry_nr_bits_m d /\
  forall p x, used_at (table d h) p = Some x ->
    hash_to_dir_idx_ (map_entry_nr_bits_m d) (fp_of x) k = Z.of_nat (hash_to_map d h).
Proof.
  destruct Hd as [Hwf Hinv]. destruct (hash_to_map_table k d Hwf h) as (e & He & Hm).
  unfold table. rewrite Hm. destruct (dw_tables _ _ Hwf _ _ He) as (_ & Hb & Ha & _ & Hi).
  split; [by eapply Hinv|]. done.
Qed.

Lemma table_wf : map_wf (table d h).
Proof. apply table_inv. Qed.

Lemma table_chained : chained (table d h).
Proof. apply table_inv. Qed.

Lemma table_fp : hash_to_keyfp_ (table d h) h = dir_fp d h.
Proof.
  rewrite hash_fp by apply table_wf. unfold dir_fp. by rewrite (proj1 (proj2 (proj2 table_inv))).
Qed.

Lemma dir_alter_inv (f : uDepotMap -> uDepotMap) :
  map_inv (f (table d h)) -> entry_nr_bits_m (f (table d h)) = entry_nr_bits_m (table d h) ->
  aligned (f (table d h)) ->
  (forall q x, used_at (f (table d h)) q = Some x ->
     fp_of x = dir_fp d h \/ exists y, used_at (table d h) q = Some y /\ fp_of y = fp_of x) ->
  dir_inv k (dir_alter d h f).
Proof.
  intros Hf Hb Ha Hu. destruct table_inv as (_ & _ & Hbits & Hidx).
  destruct Hd as [Hwf Hinv]. pose proof Hwf as [Hs Hbr Hkr Ht].
  destruct (hash_to_map_table k d Hwf h) as (e & He & Hm). unfold table in *. rewrite Hm in *.
  assert (forall i e', directory (dir_alter d h f) !! i = Some e' ->
    exists e0, directory d !! i = Some e0 /\
      ((i = hash_to_map d h /\ dme_map e' = f (dme_map e)) \/ dme_map e' = dme_map e0)) as Hcase.
  { intros i e' (e0 & He0 & Hmap)%directory_alter. exists e0. split; [done|].
    destruct (Nat.eqb_spec i (hash_to_map d h)) as [->|]; [left|by right].
    rewrite He in He0. injection He0 as <-. done. }
  split; [split; [|done|done|]|].
  - unfold dir_size. simpl. by rewrite length_alter.
  - intros i e' He'. destruct (Hcase i e' He') as (e0 & He0 & [[-> ->]| ->]); [|by apply Ht].
    split; [apply Hf|]. split; [simpl; congruence|]. split; [done|]. split; [done|].
    intros q x Hx. simpl in Hx. destruct (Hu q x Hx) as [->|(y & Hy & <-)]; [|by eapply Hidx].
    unfold dir_fp. rewrite hash_to_dir_idx_fp by done. symmetry. by apply (hash_to_map_idx k d).
  - intros i e' He'. destruct (Hcase i e' He') as (e0 & He0 & [[-> ->]| ->]); [done|].
    by eapply Hinv.
Qed.

(** The entries of the one table that changes, and all the others. *)
Lemma dir_alter_split (f : uDepotMap -> uDepotMap) : exists rest,
  dir_bag d ≡ₚ entries (table d h) ++ rest /\
  dir_bag (dir_alter d h f) ≡ₚ entries (f (table d h)) ++ rest.
Proof.
  destruct Hd as [Hwf _]. destruct (hash_to_map_table k d Hwf h) as (e & He & Hm).
  unfold table. rewrite Hm.
  assert (alter (fun e => set_map e (f (dme_map e))) (hash_to_map d h) (directory d) =
          <[hash_to_map d h := set_map e (f (dme_map e))]> (directory d)) as Halt.
  { apply list_eq. intros i. destruct (decide (i = hash_to_map d h)) as [->|Hne].
    - rewrite list_lookup_alter_eq, He, list_lookup_insert_eq; [done|]. by eapply lookup_lt_Some.
    - by rewrite list_lookup_alter_ne, list_lookup_insert_ne by done. }
  pose proof (take_drop_middle (directory d) (hash_to_map d h) e He) as Hsplit.
  exists (concat (entries <$> (dme_map <$> take (hash_to_map d h) (directory d))) ++
          concat (entries <$> (dme_map <$> drop (S (hash_to_map d h)) (directory d)))).
  unfold dir_bag, dir_alter. cbn [directory]. rewrite Halt. split.
  - rewrite <- Hsplit at 1. rewrite !fmap_app, concat_app. simpl. by rewrite Permutation_app_swap_app.
  - rewrite insert_take_drop by (by eapply lookup_lt_Some).
    rewrite !fmap_app, concat_app. simpl. by rewrite Permutation_app_swap_app.
Qed.

(** ** The operations of a client *)

Lemma dir_update_inplace_spec (p : nat) (kvs g : Z) :
  matches (table d h) h p -> 0 < kvs -> valid_pba g ->
  dir_inv k (dir_update_inplace d h p kvs g) /\
  exists rest, dir_bag d ≡ₚ (dir_fp d h, kv_size (ent (table d h) p), pba (ent (table d h) p)) :: rest /\
    dir_bag (dir_update_inplace d h p kvs g) ≡ₚ (dir_fp d h, Z.min kvs MAX_KV_SIZE, g) :: rest.
Proof.
  intros Hm Hk Hg. pose proof table_wf as Hwf. destruct table_inv as (Hinv & Ha & Hb & Hidx).
  split.
  - apply dir_alter_inv.
    + by apply update_inplace_step.
    + by rewrite update_inplace_entry by (done || lia).
    + rewrite update_inplace_entry by (done || lia). by apply overwrite_aligned; [apply Hm|].
    + intros q x. rewrite update_inplace_used_at by (done || lia).
      destruct (q =? p)%nat; [|by right; exists x]. intros [= <-]. left. unfold fp_of. simpl.
      rewrite <- table_fp. symmetry. apply Hm.
  - destruct (update_inplace_entries _ Hwf p h kvs g Hm Hk Hg) as (rest & He & He').
    rewrite <- table_fp.
    destruct (dir_alter_split (fun m => update_inplace m p h kvs g)) as (rest' & H1 & H2).
    exists (rest ++ rest'). rewrite H1, He. split; [done|].
    unfold dir_update_inplace. by rewrite H2, He'.
Qed.

Lemma dir_remove_spec (p : nat) (g : Z) :
  matches (table d h) h p -> valid_pba g ->
  dir_inv k (dir_remove d h p g) /\
  dir_bag d ≡ₚ (dir_fp d h, kv_size (ent (table d h) p), pba (ent (table d h) p))
               :: dir_bag (dir_remove d h p g).
Proof.
  intros [Hl Hfp] Hg. pose proof table_wf as Hwf. destruct table_inv as (Hinv & Ha & Hb & Hidx).
  destruct (remove_step _ Hinv g p Hl Hg) as [Hinv' He]. split.
  - apply dir_alter_inv; [done| | |].
    + unfold remove. by rewrite remove_entry by done.
    + unfold remove. rewrite remove_entry by done. exact (overwrite_aligned _ p Hl 0 g Ha).
    + intros q x. rewrite remove_used_at by done.
      destruct (q =? p)%nat; [|by right; exists x]. intros [= <-]. left. unfold fp_of. simpl.
      by rewrite <- table_fp.
  - rewrite <- table_fp, Hfp.
    destruct (dir_alter_split (fun m => remove m p g)) as (rest & H1 & H2).
    unfold dir_remove. by rewrite H1, H2, He.
Qed.

Lemma dir_insert_spec (p : nat) (kvs g : Z) :
  free_slot (table d h) h p -> 0 < kvs -> valid_pba g ->
  dir_inv k (dir_insert d h p kvs g) /\
  dir_bag (dir_insert d h p kvs g) ≡ₚ (dir_fp d h, Z.min kvs MAX_KV_SIZE, g) :: dir_bag d.
Proof.
  intros Hf Hk Hg. pose proof table_wf as Hwf. destruct table_inv as (Hinv & Ha & Hb & Hidx).
  destruct (insert_step _ Hinv h kvs g p Hf Hk Hg) as [Hinv' He]. split.
  - apply dir_alter_inv; [done|done| |].
    + apply insert_aligned; auto. lia.
    + intros q x. rewrite insert_used_at by (done || lia).
      destruct (q =? p)%nat; [|by right; exists x]. intros [= <-]. left. unfold fp_of, dir_fp. simpl.
      by rewrite Hb.
  - rewrite <- table_fp.
    destruct (dir_alter_split (fun m => insert m p h kvs g)) as (rest & H1 & H2).
    unfold dir_insert. by rewrite H1, H2, He.
Qed.

End Ops.
