(* ===== verification/Mbuff.v ===== *)
(** * Mbuff: the chained I/O buffer (include/uDepot/mbuff.hh, uDepot/mbuff.cc)

    An Mbuff is a list of buffers whose valid parts, read in order, are its
    content; buffers that hold no valid data wait on a free list.  The model
    keeps the two lists with the source's nodes (pointer, bytes, offset and
    length of the valid part) and its three cached counters.  A null
    dereference or a loop that does not end is [None].

    Sizes are [nat]; the sums the source forms in [size_t] before it compares
    them are wrapped. *)
From Stdlib Require Import ZArith Lia.
From stdpp Require Import base tactics list numbers.
From S2P Require Import Prelude Util.

Local Open Scope nat_scope.

(** ** State *)

Record node := Node {
  mb_ptr : Z;           (** the address of the buffer *)
  mb_buff_ : list Z;    (** its bytes; [mb_buff_len_] is their number *)
  mb_off_ : nat;
  mb_len_ : nat
}.

Definition mb_buff_len_ (n : node) : nat := length (mb_buff_ n).

Record mbuff := Mbuff {
  mb_valid_size_ : nat;
  mb_nodes : list node;    (** the list from [mb_head_] to [mb_tail_] *)
  mb_free_size_ : nat;
  mb_free_nodes_ : nat;
  mb_free_ : list node
}.

Definition mbuff_empty : mbuff := Mbuff 0 [] 0 0 [].

(** ** Nodes *)

Definition node_reset (n : node) : node := Node (mb_ptr n) (mb_buff_ n) 0 0.

Definition append_space (n : node) : nat := mb_buff_len_ n - (mb_off_ n + mb_len_ n).

Definition prepend_space (n : node) : nat :=
  if mb_len_ n =? 0 then mb_buff_len_ n else mb_off_ n.

(** Bytes [off .. off + |bs|) of a buffer overwritten with [bs]. *)
Definition write_at (b : list Z) (off : nat) (bs : list Z) : list Z :=
  take off b ++ bs ++ drop (off + length bs) b.

(** The bytes of a valid chunk of a node. *)
Definition get_valid_chunk (n : node) (off len : nat) : list Z :=
  take len (drop (mb_off_ n + off) (mb_buff_ n)).

Definition get_append_chunk (n : node) : list Z :=
  take (append_space n) (drop (mb_off_ n + mb_len_ n) (mb_buff_ n)).

(** [c] is the chunk after the caller wrote into it. *)
Definition put_append_chunk (n : node) (c : list Z) (append_len : nat) : node :=
  Node (mb_ptr n) (write_at (mb_buff_ n) (mb_off_ n + mb_len_ n) c)
       (mb_off_ n) (mb_len_ n + append_len).

Definition get_prepend_chunk (n : node) : list Z := take (prepend_space n) (mb_buff_ n).

Definition put_prepend_chunk (n : node) (c : list Z) (prepend_len : nat) : node :=
  let b := write_at (mb_buff_ n) 0 c in
  if (mb_off_ n =? 0) && (mb_len_ n =? 0)
  then Node (mb_ptr n) b (mb_buff_len_ n - prepend_len) prepend_len
  else Node (mb_ptr n) b (mb_off_ n - prepend_len) (mb_len_ n + prepend_len).

(** ** The free list *)

Definition get_free_node (mb : mbuff) : option node * mbuff :=
  match mb_free_ mb with
  | [] => (None, mb)
  | n :: rest =>
      (Some n, Mbuff (mb_valid_size_ mb) (mb_nodes mb) (mb_free_size_ mb - mb_buff_len_ n)
                     (mb_free_nodes_ mb - 1) rest)
  end.

Definition put_free_node (mb : mbuff) (n : node) : mbuff :=
  Mbuff (mb_valid_size_ mb) (mb_nodes mb) (mb_free_size_ mb + mb_buff_len_ n)
        (mb_free_nodes_ mb + 1) (n :: mb_free_ mb).

Definition add_buff (mb : mbuff) (ptr : Z) (buf : list Z) : mbuff :=
  put_free_node mb (Node ptr buf 0 0).

Definition get_free_buff (mb : mbuff) : option (Z * list Z) * mbuff :=
  match get_free_node mb with
  | (Some n, mb') => (Some (mb_ptr n, mb_buff_ n), mb')
  | (None, mb') => (None, mb')
  end.

(** The do-while of [move_free_buffs_to]: [fuel] bounds the free buffers. *)
Fixpoint move_free_loop (fuel : nat) (src dst : mbuff) (moved : nat) (max_size : Z) :
    mbuff * mbuff * nat :=
  match fuel with
  | O => (src, dst, moved)
  | S k =>
      match get_free_buff src with
      | (None, src') => (src', dst, moved)
      | (Some (ptr, buf), src') =>
          let dst' := add_buff dst ptr buf in
          let moved' := moved + length buf in
          if (Z.of_nat moved' <? max_size)%Z then move_free_loop k src' dst' moved' max_size
          else (src', dst', moved')
      end
  end.

Definition move_free_buffs_to (src dst : mbuff) (max_size : Z) : mbuff * mbuff * nat :=
  move_free_loop (S (length (mb_free_ src))) src dst 0 max_size.

(** ** Appending and prepending *)

Definition set_nodes (mb : mbuff) (l : list node) : mbuff :=
  Mbuff (mb_valid_size_ mb) l (mb_free_size_ mb) (mb_free_nodes_ mb) (mb_free_ mb).

Definition add_valid (mb : mbuff) (k : nat) : mbuff :=
  Mbuff (mb_valid_size_ mb + k) (mb_nodes mb) (mb_free_size_ mb) (mb_free_nodes_ mb) (mb_free_ mb).

Fixpoint alter_last {A} (f : A -> A) (l : list A) : list A :=
  match l with
  | [] => []
  | [x] => [f x]
  | x :: r => x :: alter_last f r
  end.

Definition append_prepare_inline (mb : mbuff) : option (list Z) :=
  match list.last (mb_nodes mb) with
  | Some t => if 0 <? append_space t then Some (get_append_chunk t) else None
  | None => None
  end.

Definition append_prepare (mb : mbuff) : option (list Z) * mbuff :=
  match append_prepare_inline mb with
  | Some c => (Some c, mb)
  | None =>
      match get_free_node mb with
      | (None, mb') => (None, mb')
      | (Some n, mb') => (Some (get_append_chunk n), set_nodes mb' (mb_nodes mb' ++ [n]))
      end
  end.

Definition append_finalize (mb : mbuff) (c : list Z) (append_len : nat) : mbuff :=
  add_valid (set_nodes mb (alter_last (fun t => put_append_chunk t c append_len) (mb_nodes mb)))
            append_len.

Definition prepend_prepare_inline (mb : mbuff) : option (list Z) :=
  match mb_nodes mb with
  | h :: _ => if 0 <? prepend_space h then Some (get_prepend_chunk h) else None
  | [] => None
  end.

Definition prepend_prepare (mb : mbuff) : option (list Z) * mbuff :=
  match prepend_prepare_inline mb with
  | Some c => (Some c, mb)
  | None =>
      match get_free_node mb with
      | (None, mb') => (None, mb')
      | (Some n, mb') => (Some (get_prepend_chunk n), set_nodes mb' (n :: mb_nodes mb'))
      end
  end.

Definition prepend_finalize (mb : mbuff) (c : list Z) (prepend_len : nat) : mbuff :=
  match mb_nodes mb with
  | [] => mb
  | h :: r => add_valid (set_nodes mb (put_prepend_chunk h c prepend_len :: r)) prepend_len
  end.

(** An [AppendFn]/[PrependFn] closure over captured state [S]: it is given the
    bytes of the chunk and returns its new state, the chunk as it left it and
    how many bytes it appended. *)
Definition chunk_fn (S : Type) : Type := S -> list Z -> S * list Z * nat.

Fixpoint append_loop {S} (f : chunk_fn S) (fuel : nat) (st : S) (mb : mbuff) :
    option (S * mbuff) :=
  match fuel with
  | O => None
  | Datatypes.S k =>
      match append_prepare mb with
      | (None, mb1) => Some (st, mb1)
      | (Some c, mb1) =>
          let '(st', c', appended) := f st c in
          let mb2 := append_finalize mb1 c' appended in
          if (appended =? 0) || (appended <? length c) then Some (st', mb2)
          else append_loop f k st' mb2
      end
  end.

Fixpoint prepend_loop {S} (f : chunk_fn S) (fuel : nat) (st : S) (mb : mbuff) :
    option (S * mbuff) :=
  match fuel with
  | O => None
  | Datatypes.S k =>
      match prepend_prepare mb with
      | (None, mb1) => Some (st, mb1)
      | (Some c, mb1) =>
          let '(st', c', prepended) := f st c in
          let mb2 := prepend_finalize mb1 c' prepended in
          if (prepended =? 0) || (prepended <? length c) then Some (st', mb2)
          else prepend_loop f k st' mb2
      end
  end.

(** Each further round of the loops takes a node from the free list. *)
Definition append {S} (f : chunk_fn S) (st : S) (mb : mbuff) : option (S * mbuff) :=
  append_loop f (2 + length (mb_free_ mb)) st mb.

Definition prepend {S} (f : chunk_fn S) (st : S) (mb : mbuff) : option (S * mbuff) :=
  prepend_loop f (2 + length (mb_free_ mb)) st mb.

Definition append_inline {S} (f : chunk_fn S) (st : S) (mb : mbuff) : S * mbuff :=
  match append_prepare_inline mb with
  | None => (st, mb)
  | Some c => let '(st', c', appended) := f st c in (st', append_finalize mb c' appended)
  end.

Definition prepend_inline {S} (f : chunk_fn S) (st : S) (mb : mbuff) : S * mbuff :=
  match prepend_prepare_inline mb with
  | None => (st, mb)
  | Some c => let '(st', c', prepended) := f st c in (st', prepend_finalize mb c' prepended)
  end.

(** ** The closures of the helper functions *)

(** [memcpy(dst, src + copied, cp_len)]; the state is [copied]. *)
Definition copy_fn (src : list Z) : chunk_fn nat := fun copied c =>
  let cp_len := Nat.min (length src - copied) (length c) in
  if cp_len =? 0 then (copied, c, 0)
  else (copied + cp_len, write_at c 0 (take cp_len (drop copied src)), cp_len).

Definition append_from_buffer (mb : mbuff) (src : list Z) : option (nat * mbuff) :=
  append (copy_fn src) 0 mb.

(** [memcpy(dst + dst_len - cp_len, src + remaining - cp_len, cp_len)]; the
    state is [remaining]. *)
Definition copy_back_fn (src : list Z) : chunk_fn nat := fun remaining c =>
  let cp_len := Nat.min remaining (length c) in
  if cp_len =? 0 then (remaining, c, 0)
  else (remaining - cp_len,
        write_at c (length c - cp_len) (take cp_len (drop (remaining - cp_len) src)), cp_len).

Definition prepend_from_buffer (mb : mbuff) (src : list Z) : option (nat * mbuff) :=
  match prepend (copy_back_fn src) (length src) mb with
  | None => None
  | Some (remaining, mb') => Some (length src - remaining, mb')
  end.

(** The state of the next two closures is [rem]. *)
Definition uninit_fn : chunk_fn nat := fun rem c =>
  let x := Nat.min (length c) rem in (rem - x, c, x).

Definition append_uninitialized (mb : mbuff) (size : nat) : option mbuff :=
  snd <$> append uninit_fn size mb.

(** [memset(b, val, b_len)] fills the whole chunk, also past [x]. *)
Definition fill_fn (val : Z) : chunk_fn nat := fun rem c =>
  let x := Nat.min (length c) rem in (rem - x, replicate (length c) val, x).

Definition append_val (mb : mbuff) (size : nat) (val : Z) : option mbuff :=
  snd <$> append (fill_fn val) size mb.

Definition append_zero (mb : mbuff) (size : nat) : option mbuff := append_val mb size 0%Z.

(** ** Sizes *)

Definition append_avail_size (mb : mbuff) : nat :=
  mb_free_size_ mb + match list.last (mb_nodes mb) with Some t => append_space t | None => 0 end.

Definition append_avail_nchunks (mb : mbuff) : nat :=
  mb_free_nodes_ mb +
  match list.last (mb_nodes mb) with Some t => if append_space t =? 0 then 0 else 1 | None => 0 end.

Definition get_free_size (mb : mbuff) : nat := mb_free_size_ mb.

Definition get_valid_size (mb : mbuff) : nat := mb_valid_size_ mb.

Definition compute_valid_size (mb : mbuff) : nat := sum_list_with mb_len_ (mb_nodes mb).

Definition nodes_nr (mb : mbuff) : nat := length (mb_nodes mb).

(** ** Reslicing *)

(** [put_free_node] of every node of a list, each [reset] first. *)
Fixpoint free_nodes (mb : mbuff) (l : list node) : mbuff :=
  match l with
  | [] => mb
  | n :: r => free_nodes (put_free_node mb (node_reset n)) r
  end.

(** [while (off > 0)]: skip [off] valid bytes from the head, which is [l]. *)
Fixpoint reslice_head (l : list node) (off : nat) (mb : mbuff) : option (list node * mbuff) :=
  match off, l with
  | O, _ => Some (l, mb)
  | S _, [] => None
  | S _, n :: r =>
      if off <? mb_len_ n
      then Some (Node (mb_ptr n) (mb_buff_ n) (mb_off_ n + off) (mb_len_ n - off) :: r, mb)
      else reslice_head r (off - mb_len_ n) (put_free_node mb (node_reset n))
  end.

(** [while (len > 0)]: find the node that holds byte [len - 1], truncate it and
    return the nodes kept and those after it. *)
Fixpoint reslice_tail (l : list node) (len : nat) : option (list node * list node) :=
  match l with
  | [] => None
  | n :: r =>
      if len <=? mb_len_ n
      then Some ([Node (mb_ptr n) (mb_buff_ n) (mb_off_ n) len], r)
      else match reslice_tail r (len - mb_len_ n) with
           | None => None
           | Some (kept, rest) => Some (n :: kept, rest)
           end
  end.

Definition reslice (mb : mbuff) (len off : nat) : option (Z * mbuff) :=
  if (Z.of_nat (mb_valid_size_ mb) <? u64 (Z.of_nat off + Z.of_nat len))%Z then Some ((-1)%Z, mb)
  else if len =? 0 then
    let mb' := free_nodes mb (mb_nodes mb) in
    Some (0%Z, Mbuff 0 [] (mb_free_size_ mb') (mb_free_nodes_ mb') (mb_free_ mb'))
  else match mb_nodes mb with
  | [] => Some (0%Z, mb)
  | _ =>
      match reslice_head (mb_nodes mb) off mb with
      | None => None
      | Some (l, mb1) =>
          match reslice_tail l len with
          | None => None
          | Some (kept, rest) =>
              let mb2 := free_nodes (set_nodes mb1 kept) rest in
              Some (0%Z, Mbuff len (mb_nodes mb2) (mb_free_size_ mb2) (mb_free_nodes_ mb2)
                               (mb_free_ mb2))
          end
      end
  end.

(** [reset] hands every buffer to [FreeBuffFn]; it leaves [mb_valid_size_]. *)
Definition reset (mb : mbuff) : list Z * mbuff :=
  (mb_ptr <$> (mb_nodes mb ++ mb_free_ mb), Mbuff (mb_valid_size_ mb) [] 0 0 []).

(** ** Iterators over the valid data *)

Fixpoint find_node (l : list node) (off : nat) : option (list node * nat) :=
  match l with
  | [] => None
  | n :: r => if off <? mb_len_ n then Some (l, off) else find_node r (off - mb_len_ n)
  end.

(** A valid iterator: [i_node_] with the nodes after it, [i_chunk_], [i_len_];
    an invalid one is [None]. *)
Record iterator := Iterator {
  i_nodes : list node;
  i_chunk_ : list Z;
  i_len_ : nat
}.

(** [None] is the dereference of the null node of [find_node]. *)
Definition do_initialize_iterator (mb : mbuff) (off len : nat) : option iterator :=
  match find_node (mb_nodes mb) off with
  | Some ((n :: _) as l, node_off) =>
      let chunk_len := Nat.min len (mb_len_ n - node_off) in
      Some (Iterator l (get_valid_chunk n node_off chunk_len) len)
  | _ => None
  end.

(** The error code with the iterator; the outer option is the null dereference. *)
Definition iterate_valid_init (mb : mbuff) (off len : nat) : option (Z * option iterator) :=
  if len =? 0 then Some (0%Z, None)
  else if (Z.of_nat (mb_valid_size_ mb) <? u64 (Z.of_nat off + Z.of_nat len))%Z
  then Some (EINVAL, None)
  else (fun it => (0%Z, Some it)) <$> do_initialize_iterator mb off len.

Definition iterate_valid_partial_init (mb : mbuff) (off len : nat) :
    option (Z * option iterator) :=
  if mb_valid_size_ mb <? off then Some (EINVAL, None)
  else
    let len := Nat.min len (mb_valid_size_ mb - off) in
    if len =? 0 then Some (0%Z, None)
    else (fun it => (0%Z, Some it)) <$> do_initialize_iterator mb off len.

(** [Iterator::next] on a valid iterator. *)
Definition iter_next (it : iterator) : option iterator :=
  let len := i_len_ it - length (i_chunk_ it) in
  if len =? 0 then None
  else match tail (i_nodes it) with
  | [] => None
  | n :: r => Some (Iterator (n :: r) (get_valid_chunk n 0 (Nat.min len (mb_len_ n))) len)
  end.

Definition is_next_valid (it : iterator) : bool := length (i_chunk_ it) <? i_len_ it.

(** ** Reading *)

(** The copying loop: [len - copied] bytes are still wanted; [fuel] bounds the
    nodes left. *)
Fixpoint copy_loop (fuel : nat) (it : option iterator) (len copied : nat) : list Z :=
  match fuel, it with
  | S k, Some it =>
      let cp_len := Nat.min (len - copied) (length (i_chunk_ it)) in
      take cp_len (i_chunk_ it) ++ copy_loop k (iter_next it) len (copied + cp_len)
  | _, _ => []
  end.

Definition copy_to_buffer (mb : mbuff) (mbuff_off len : nat) : option (list Z) :=
  match iterate_valid_partial_init mb mbuff_off len with
  | None => None
  | Some (0%Z, Some it) => Some (copy_loop (length (i_nodes it)) (Some it) (i_len_ it) 0)
  | Some _ => Some []
  end.

(** [memcmp(...) == 0] *)
Definition bytes_eqb (a b : list Z) : bool := bool_decide (a = b).

(** The comparing loop of [mem_compare]; each round consumes bytes or a node,
    [fuel] bounds both.  [None] is [next] on an invalid iterator. *)
Fixpoint compare_loop (fuel : nat) (it1 it2 : iterator) (c1_off c2_off total len : nat) :
    option Z :=
  match fuel with
  | O => None
  | S k =>
      let l1 := length (i_chunk_ it1) in
      let l2 := length (i_chunk_ it2) in
      let cmp_len := Nat.min (l1 - c1_off) (l2 - c2_off) in
      if negb (bytes_eqb (take cmp_len (drop c1_off (i_chunk_ it1)))
                         (take cmp_len (drop c2_off (i_chunk_ it2)))) then Some 1%Z
      else
        let total' := total + cmp_len in
        let c1' := c1_off + cmp_len in
        let c2' := c2_off + cmp_len in
        let n1 := if c1' =? l1 then iter_next it1 else Some it1 in
        let n2 := if c2' =? l2 then iter_next it2 else Some it2 in
        if total' =? len then Some 0%Z
        else match n1, n2 with
        | Some it1', Some it2' =>
            compare_loop k it1' it2' (if c1' =? l1 then 0 else c1') (if c2' =? l2 then 0 else c2')
                         total' len
        | _, _ => None
        end
  end.

(** A zero length leaves both iterators invalid, and the first [next] then
    dereferences a null node. *)
Definition mem_compare (mb1 : mbuff) (mb1_off : nat) (mb2 : mbuff) (mb2_off len : nat) :
    option Z :=
  match iterate_valid_init mb1 mb1_off len with
  | None => None
  | Some (err1, it1) =>
      if negb (err1 =? 0)%Z then Some err1
      else match iterate_valid_init mb2 mb2_off len with
      | None => None
      | Some (err2, it2) =>
          if negb (err2 =? 0)%Z then Some err2
          else match it1, it2 with
          | Some it1, Some it2 =>
              compare_loop (length (i_nodes it1) + length (i_nodes it2)) it1 it2 0 0 0 len
          | _, _ => None
          end
      end
  end.

(** [mem_compare_buffer]: the loop over the chunks against [buff + buff_off]. *)
Fixpoint compare_buffer_loop (fuel : nat) (it : option iterator) (buff : list Z)
    (remaining buff_off : nat) : Z :=
  match fuel, it with
  | S k, Some it =>
      if remaining =? 0 then 0%Z
      else
        let comp_len := Nat.min remaining (length (i_chunk_ it)) in
        if bytes_eqb (take comp_len (i_chunk_ it)) (take comp_len (drop buff_off buff))
        then compare_buffer_loop k (iter_next it) buff (remaining - comp_len) (buff_off + comp_len)
        else 1%Z
  | _, _ => 0%Z
  end.

Definition mem_compare_buffer (mb : mbuff) (mbuff_off : nat) (buff : list Z) (len : nat) :
    option Z :=
  match iterate_valid_init mb mbuff_off len with
  | None => None
  | Some (err, it) =>
      if negb (err =? 0)%Z then Some err
      else Some (match it with
                 | Some i => compare_buffer_loop (length (i_nodes i)) (Some i) buff len 0
                 | None => 0%Z
                 end)
  end.

(** [fill_iovec_valid]: the chunks put in at most [iov_size] entries. *)
Fixpoint fill_iovec_loop (k : nat) (it : option iterator) : list (list Z) :=
  match k, it with
  | S k, Some it => i_chunk_ it :: fill_iovec_loop k (iter_next it)
  | _, _ => []
  end.

Definition fill_iovec_valid (mb : mbuff) (mbuff_off len iov_size : nat) :
    option (Z + list (list Z)) :=
  match iterate_valid_init mb mbuff_off len with
  | None => None
  | Some (err, it) =>
      if negb (err =? 0)%Z then Some (inl (- err)%Z)
      else Some (inr (fill_iovec_loop iov_size it))
  end.

(** [append_from_mbuff]: every chunk of the source appended in turn; [None] as
    in [append]. *)
Fixpoint append_mbuff_loop (fuel : nat) (it : option iterator) (mb : mbuff) (len copied : nat) :
    option (nat * mbuff) :=
  match fuel, it with
  | S k, Some it =>
      let cp_len := Nat.min (len - copied) (length (i_chunk_ it)) in
      match append_from_buffer mb (take cp_len (i_chunk_ it)) with
      | None => None
      | Some (n, mb') => append_mbuff_loop k (iter_next it) mb' len (copied + n)
      end
  | _, _ => Some (copied, mb)
  end.

Definition append_from_mbuff (mb mbuff_in : mbuff) (mbuff_off len : nat) : option (nat * mbuff) :=
  match iterate_valid_init mbuff_in mbuff_off len with
  | None => None
  | Some (err, it) =>
      if negb (err =? 0)%Z then Some (0, mb)
      else append_mbuff_loop (match it with Some i => length (i_nodes i) | None => 0 end)
                             it mb len 0
  end.
