(* ===== verification/MbuffSpec.v ===== *)
(** * MbuffSpec: an Mbuff is a byte string

    [data] is what a client of an Mbuff sees: the flat byte string.  The lemmas
    show that every operation acts on that string as its comment says, whatever
    the buffer boundaries, that the cached counters stay exact, and that no
    operation loses or duplicates a buffer. *)
From Stdlib Require Import ZArith Lia.
From stdpp Require Import base tactics list numbers.
From S2P Require Import Prelude Util Mbuff.

Local Open Scope nat_scope.

(** ** The flat view and the invariant *)

Definition node_data (n : node) : list Z := get_valid_chunk n 0 (mb_len_ n).

Definition data (mb : mbuff) : list Z := concat (node_data <$> mb_nodes mb).

(** The buffers an Mbuff owns, by address and size. *)
Definition node_id (n : node) : Z * nat := (mb_ptr n, mb_buff_len_ n).

Definition buffers (mb : mbuff) : list (Z * nat) := node_id <$> (mb_nodes mb ++ mb_free_ mb).

Record node_wf (n : node) : Prop := {
  nwf_room : 0 < mb_buff_len_ n;
  nwf_fits : mb_off_ n + mb_len_ n <= mb_buff_len_ n;
  nwf_empty : mb_len_ n = 0 -> mb_off_ n = 0 \/ mb_off_ n = mb_buff_len_ n
}.

Definition node_fresh (n : node) : Prop := 0 < mb_buff_len_ n /\ mb_off_ n = 0 /\ mb_len_ n = 0.

Record mb_wf (mb : mbuff) : Prop := {
  mwf_nodes : Forall node_wf (mb_nodes mb);
  mwf_free : Forall node_fresh (mb_free_ mb);
  mwf_valid_size : mb_valid_size_ mb = compute_valid_size mb;
  mwf_free_size : mb_free_size_ mb = sum_list_with mb_buff_len_ (mb_free_ mb);
  mwf_free_nodes : mb_free_nodes_ mb = length (mb_free_ mb)
}.

(** What the head can still take plus the free buffers. *)
Definition prepend_avail (mb : mbuff) : nat :=
  mb_free_size_ mb + match mb_nodes mb with h :: _ => prepend_space h | [] => 0 end.

(** ** Nodes *)

Lemma write_at_length b off bs :
  off + length bs <= length b -> length (write_at b off bs) = length b.
Proof. intros H. unfold write_at. rewrite !length_app, length_take, length_drop. lia. Qed.

Lemma node_data_length n : node_wf n -> length (node_data n) = mb_len_ n.
Proof.
  intros [? Hf ?]. unfold node_data, get_valid_chunk. rewrite length_take, length_drop.
  unfold mb_buff_len_ in *. lia.
Qed.

Lemma fresh_wf n : node_fresh n -> node_wf n.
Proof. intros (? & Ho & Hl). split; lia. Qed.

Lemma fresh_data n : node_fresh n -> node_data n = [].
Proof. intros (_ & _ & Hl). unfold node_data, get_valid_chunk. by rewrite Hl. Qed.

Lemma reset_fresh n : node_wf n -> node_fresh (node_reset n).
Proof. intros [Hr _ _]. done. Qed.

Lemma append_chunk_length n : node_wf n -> length (get_append_chunk n) = append_space n.
Proof.
  intros [? Hf ?]. unfold get_append_chunk, append_space. rewrite length_take, length_drop.
  unfold mb_buff_len_ in *. lia.
Qed.

Lemma prepend_space_le n : node_wf n -> prepend_space n <= mb_buff_len_ n.
Proof. intros [? Hf ?]. unfold prepend_space. destruct (mb_len_ n =? 0); lia. Qed.

Lemma prepend_chunk_length n : node_wf n -> length (get_prepend_chunk n) = prepend_space n.
Proof.
  intros Hw. pose proof (prepend_space_le n Hw). unfold get_prepend_chunk. rewrite length_take.
  unfold mb_buff_len_ in *. lia.
Qed.

Lemma put_append_spec n c k :
  node_wf n -> length c = append_space n -> k <= length c ->
  (0 < mb_len_ n \/ 0 < k \/ mb_off_ n = 0) ->
  let n' := put_append_chunk n c k in
  node_wf n' /\ node_data n' = node_data n ++ take k c /\ node_id n' = node_id n /\
  append_space n' = append_space n - k.
Proof.
  intros [Hr Hf He] Hc Hk Hz n'. unfold append_space in Hc.
  assert (length (write_at (mb_buff_ n) (mb_off_ n + mb_len_ n) c) = mb_buff_len_ n) as Hl.
  { apply write_at_length. unfold mb_buff_len_ in *. lia. }
  assert (mb_buff_len_ n' = mb_buff_len_ n) as Hb by exact Hl.
  assert (node_id n' = node_id n) as Hid. { unfold node_id. by rewrite Hb. }
  split; [|split; [|split; [done|]]].
  - split; rewrite ?Hb; simpl; lia.
  - unfold n', node_data, get_valid_chunk, put_append_chunk, write_at. simpl.
    rewrite !Nat.add_0_r, Hc.
    rewrite (drop_ge (mb_buff_ n)) by (unfold mb_buff_len_ in *; lia). rewrite app_nil_r.
    rewrite drop_app_le, <- take_drop_commute by (rewrite length_take; unfold mb_buff_len_ in *; lia).
    rewrite take_app_add'; [done|]. rewrite length_take, length_drop.
    unfold mb_buff_len_ in *. lia.
  - unfold append_space at 1. rewrite Hb. simpl. unfold append_space. lia.
Qed.

Lemma put_prepend_spec n c k :
  node_wf n -> length c = prepend_space n -> k <= length c ->
  let n' := put_prepend_chunk n c k in
  node_wf n' /\ node_data n' = drop (length c - k) c ++ node_data n /\ node_id n' = node_id n /\
  prepend_space n' = prepend_space n - k.
Proof.
  intros Hw Hc Hk n'. pose proof (prepend_space_le n Hw) as Hp. destruct Hw as [Hr Hf He].
  assert (length (write_at (mb_buff_ n) 0 c) = mb_buff_len_ n) as Hl.
  { apply write_at_length. unfold mb_buff_len_ in *. lia. }
  assert (mb_buff_ n' = write_at (mb_buff_ n) 0 c /\ mb_ptr n' = mb_ptr n /\ mb_len_ n' = mb_len_ n + k /\
          mb_off_ n' = (if mb_len_ n =? 0 then mb_buff_len_ n else mb_off_ n) - k)
    as (Hb & Hptr & Hlen & Hoff).
  { unfold n', put_prepend_chunk. destruct (mb_len_ n) eqn:Hlen0.
    - destruct (Nat.eqb_spec (mb_off_ n) 0); simpl; rewrite ?Hlen0; [done|].
      destruct He as [?| ->]; [done|lia|done].
    - rewrite andb_false_r. simpl. rewrite ?Hlen0. done. }
  assert (mb_buff_len_ n' = mb_buff_len_ n) as Hbl by (unfold mb_buff_len_; by rewrite Hb).
  unfold prepend_space in Hc. split; [|split; [|split]].
  - split; rewrite ?Hbl, ?Hlen, ?Hoff; [done|..]; destruct (Nat.eqb_spec (mb_len_ n) 0); lia.
  - unfold node_data, get_valid_chunk, write_at in *. rewrite Hb, Hlen, Hoff, !Nat.add_0_r. simpl.
    destruct (Nat.eqb_spec (mb_len_ n) 0) as [Hz|Hz].
    + rewrite Hz, (drop_ge (mb_buff_ n)) by (unfold mb_buff_len_ in *; lia).
      rewrite !app_nil_r, Hc, take_ge; [done|]. rewrite length_drop. lia.
    + rewrite drop_app_le by lia. rewrite Hc, Nat.add_comm.
      rewrite take_app_add'; [done|]. rewrite length_drop. lia.
  - unfold node_id. by rewrite Hptr, Hbl.
  - unfold prepend_space. rewrite Hlen, Hoff, Hbl.
    destruct (Nat.eqb_spec (mb_len_ n + k) 0) as [Hz|]; [|done].
    replace (mb_len_ n) with 0 by lia. simpl. lia.
Qed.

(** ** One round of [append] *)

Lemma alter_last_snoc {A} (f : A -> A) (l : list A) (x : A) :
  alter_last f (l ++ [x]) = l ++ [f x].
Proof.
  induction l as [|y l IH]; [done|]. simpl. rewrite IH.
  destruct l; [done|]. done.
Qed.

Lemma data_app mb l1 l2 : mb_nodes mb = l1 ++ l2 ->
  data mb = concat (node_data <$> l1) ++ concat (node_data <$> l2).
Proof. intros H. unfold data. by rewrite H, fmap_app, concat_app. Qed.

Lemma nodes_data_length l :
  Forall node_wf l -> length (concat (node_data <$> l)) = sum_list_with mb_len_ l.
Proof.
  induction 1 as [|n l Hn _ IH]; [done|].
  change (length (node_data n ++ concat (node_data <$> l)) =
          mb_len_ n + sum_list_with mb_len_ l).
  by rewrite length_app, IH, node_data_length.
Qed.

Lemma data_length mb : mb_wf mb -> length (data mb) = mb_valid_size_ mb.
Proof.
  intros Hw. rewrite (mwf_valid_size _ Hw). by apply nodes_data_length, mwf_nodes.
Qed.

Lemma mbuff_empty_wf : mb_wf mbuff_empty.
Proof. by split; simpl. Qed.

Lemma get_free_node_wf mb n mb' : mb_wf mb -> get_free_node mb = (Some n, mb') ->
  node_fresh n /\ mb_nodes mb' = mb_nodes mb /\ mb_free_ mb = n :: mb_free_ mb' /\
  mb_valid_size_ mb' = mb_valid_size_ mb /\
  mb_free_size_ mb = mb_buff_len_ n + mb_free_size_ mb' /\ mb_wf mb'.
Proof.
  intros [Hn Hf Hv Hs Hk] Hg. unfold get_free_node in Hg.
  destruct (mb_free_ mb) as [|n0 rest] eqn:Hfree; simplify_eq. simpl in *.
  apply Forall_cons_iff in Hf as [Hn0 Hf]. do 4 (split; [done|]). split; [lia|].
  split; simpl; [done|done|done|lia|lia].
Qed.

Lemma put_free_node_wf mb n : mb_wf mb -> node_fresh n -> mb_wf (put_free_node mb n).
Proof.
  intros [Hn Hf Hv Hs Hk] Hfr. split; simpl; [done|by apply Forall_cons_iff|done|lia|lia].
Qed.

(** Rounds [append] can still make. *)
Definition rounds (mb : mbuff) : nat :=
  length (mb_free_ mb) + match append_prepare_inline mb with Some _ => 1 | None => 0 end.

Lemma append_prepare_spec mb : mb_wf mb ->
  match append_prepare mb with
  | (None, mb1) => mb1 = mb /\ append_avail_size mb = 0
  | (Some c, mb1) => exists l t, mb_nodes mb1 = l ++ [t] /\ c = get_append_chunk t /\
      0 < append_space t <= append_avail_size mb /\ mb_wf mb1 /\ data mb1 = data mb /\
      buffers mb1 ≡ₚ buffers mb /\ append_avail_size mb1 = append_avail_size mb /\
      rounds mb = S (length (mb_free_ mb1))
  end.
Proof.
  intros Hw. unfold append_prepare, rounds. destruct (append_prepare_inline mb) as [c|] eqn:Hi.
  - unfold append_prepare_inline in Hi. destruct (list.last (mb_nodes mb)) as [t|] eqn:Hl; [|done].
    destruct (Nat.ltb_spec 0 (append_space t)) as [Hs|]; simplify_eq.
    pose proof Hl as Hl'. apply last_Some in Hl' as [l Hl']. exists l, t.
    do 2 (split; [done|]). unfold append_avail_size. rewrite Hl. split; [lia|].
    do 4 (split; [done|]). lia.
  - assert (match list.last (mb_nodes mb) with Some t => append_space t | None => 0 end = 0) as Ht.
    { unfold append_prepare_inline in Hi. destruct (list.last (mb_nodes mb)); [|done].
      destruct (Nat.ltb_spec 0 (append_space n)); [done|lia]. }
    destruct (get_free_node mb) as [[n|] mb'] eqn:Hg.
    + destruct (get_free_node_wf _ _ _ Hw Hg) as ((Hpos & Hoff & Hlen) & Hno & Hfr & Hv & Hfs & Hw').
      exists (mb_nodes mb'), n. simpl. do 2 (split; [done|]).
      assert (append_space n = mb_buff_len_ n) as Hsp by (unfold append_space; lia).
      split; [unfold append_avail_size; lia|]. split; [|split; [|split; [|split]]].
      * destruct Hw' as [W1 W2 W3 W4 W5]. split; simpl; [|done| |done|done].
        -- apply Forall_app. split; [done|]. apply Forall_singleton, fresh_wf. done.
        -- unfold compute_valid_size in *. simpl. rewrite sum_list_with_app. simpl.
           rewrite Hlen. lia.
      * unfold data. simpl. rewrite fmap_app, concat_app, Hno. simpl.
        rewrite (fresh_data n) by done. by rewrite !app_nil_r.
      * unfold buffers. simpl. rewrite Hfr, <- Hno, <- app_assoc. done.
      * unfold append_avail_size. simpl. rewrite last_snoc. lia.
      * rewrite Hfr. simpl. lia.
    + split; [|].
      * unfold get_free_node in Hg. by destruct (mb_free_ mb); simplify_eq.
      * unfold get_free_node in Hg. unfold append_avail_size. rewrite Ht, (mwf_free_size _ Hw).
        by destruct (mb_free_ mb); simplify_eq.
Qed.

Lemma wf_last mb l t : mb_wf mb -> mb_nodes mb = l ++ [t] -> node_wf t.
Proof.
  intros Hw Hn. pose proof (mwf_nodes _ Hw) as H. rewrite Hn in H.
  apply Forall_app in H as [_ H]. apply Forall_cons_iff in H as [H _]. exact H.
Qed.

Lemma append_finalize_spec mb l t c k :
  mb_wf mb -> mb_nodes mb = l ++ [t] -> 0 < append_space t ->
  length c = append_space t -> k <= length c ->
  let mb' := append_finalize mb c k in
  mb_wf mb' /\ data mb' = data mb ++ take k c /\ buffers mb' = buffers mb /\
  append_avail_size mb' = append_avail_size mb - k /\ mb_free_ mb' = mb_free_ mb /\
  (k = length c -> append_prepare_inline mb' = None).
Proof.
  intros Hw Hn Hsp Hc Hk mb'.
  pose proof (wf_last _ _ _ Hw Hn) as Hwt.
  destruct (put_append_spec t c k Hwt Hc Hk) as (Hw' & Hd' & Hid' & Hs').
  { destruct Hwt as [_ _ He]. unfold append_space in Hsp. lia. }
  assert (mb_nodes mb' = l ++ [put_append_chunk t c k]) as Hn'.
  { unfold mb', append_finalize. simpl. by rewrite Hn, alter_last_snoc. }
  split; [|split; [|split; [|split; [|split]]]].
  - destruct Hw as [W1 W2 W3 W4 W5].
    split; [|exact W2| |exact W4|exact W5].
    + rewrite Hn'. rewrite Hn in W1. apply Forall_app in W1 as [W1 _].
      apply Forall_app. split; [done|]. by apply Forall_singleton.
    + unfold compute_valid_size in *. rewrite Hn', sum_list_with_app. simpl.
      rewrite W3, Hn, sum_list_with_app. simpl. lia.
  - rewrite (data_app _ _ _ Hn'), (data_app _ _ _ Hn). simpl.
    by rewrite !app_nil_r, Hd', app_assoc.
  - unfold buffers. rewrite Hn', Hn, !fmap_app. simpl. by rewrite Hid'.
  - unfold append_avail_size. rewrite Hn', Hn, !last_snoc, Hs'. simpl. lia.
  - done.
  - intros ->. unfold append_prepare_inline. rewrite Hn', last_snoc, Hs', Hc, Nat.sub_diag. done.
Qed.

(** ** [append] as a writer of bytes

    [I st acc]: in state [st] the closure has appended [acc].  [J] holds after
    every call, [X] after a call that left room in its chunk, which ends the
    loop. *)
Definition chunk_inv {S} (f : chunk_fn S) (I J X : S -> list Z -> Prop) : Prop :=
  forall st acc c, I st acc -> 0 < length c ->
    match f st c with
    | (st', c', k) => k <= length c /\ length c' = length c /\ I st' (acc ++ take k c') /\
        J st' (acc ++ take k c') /\ (k < length c -> X st' (acc ++ take k c'))
    end.

Lemma append_loop_inv {S} (f : chunk_fn S) I J X fuel st acc mb :
  chunk_inv f I J X -> mb_wf mb -> I st acc -> rounds mb < fuel ->
  exists st' mb' w, append_loop f fuel st mb = Some (st', mb') /\ mb_wf mb' /\
    data mb' = data mb ++ w /\ I st' (acc ++ w) /\ buffers mb' ≡ₚ buffers mb /\
    length w + append_avail_size mb' = append_avail_size mb /\
    (append_avail_size mb' = 0 \/ X st' (acc ++ w)) /\
    (append_avail_size mb = 0 \/ J st' (acc ++ w)).
Proof.
  intros Hf. revert st acc mb. induction fuel as [|fuel IH]; intros st acc mb Hw HI Hr; [lia|].
  cbn [append_loop]. pose proof (append_prepare_spec mb Hw) as Hprep.
  destruct (append_prepare mb) as [[c|] mb1].
  2:{ destruct Hprep as [-> Hz]. exists st, mb, []. rewrite !app_nil_r.
      do 5 (split; [done|]). split; [done|]. split; by left. }
  destruct Hprep as (l & t & Hn1 & -> & Hsp & Hw1 & Hd1 & Hb1 & Ha1 & Hrd).
  assert (length (get_append_chunk t) = append_space t) as Hct
    by (by apply append_chunk_length, (wf_last mb1 l)).
  pose proof (Hf st acc (get_append_chunk t) HI ltac:(lia)) as Hstep.
  destruct (f st (get_append_chunk t)) as [[st' c'] k].
  destruct Hstep as (Hk & Hc' & HI' & HJ' & HX').
  destruct (append_finalize_spec mb1 l t c' k) as (Hw2 & Hd2 & Hb2 & Ha2 & Hf2 & Hi2);
    [done|done|lia|lia|lia|].
  assert (length (take k c') = k) as Hlk by (rewrite length_take; lia).
  destruct ((k =? 0) || (k <? length (get_append_chunk t))) eqn:Hstop.
  - exists st', (append_finalize mb1 c' k), (take k c').
    assert (k < length (get_append_chunk t)) as Hlt.
    { apply orb_true_iff in Hstop as [H|H]; [apply Nat.eqb_eq in H|apply Nat.ltb_lt in H]; lia. }
    rewrite Hd2, Hd1, Hb2, Hlk. do 5 (split; [done|]). split; [lia|].
    split; right; [by apply HX'|done].
  - apply orb_false_iff in Hstop as [H1 H2]. apply Nat.eqb_neq in H1. apply Nat.ltb_ge in H2.
    destruct (IH st' (acc ++ take k c') (append_finalize mb1 c' k))
      as (st2 & mb2 & w & He & Hw3 & Hd3 & HI3 & Hb3 & Ha3 & HX3 & HJ3); [done|done| |].
    { unfold rounds. rewrite Hi2 by lia. rewrite Hf2. lia. }
    exists st2, mb2, (take k c' ++ w). rewrite <- app_assoc in HI3, HX3, HJ3.
    rewrite Hd3, Hd2, Hd1, length_app, Hlk, Hb3, Hb2, app_assoc.
    do 5 (split; [done|]). split; [lia|]. split; [done|]. right.
    destruct HJ3 as [Hz|HJ3]; [|done].
    assert (w = []) as -> by (apply nil_length_inv; lia). rewrite app_nil_r in *.
    (* no further call was made: the free list is empty and the tail full *)
    destruct fuel as [|fuel]; [lia|]. cbn [append_loop] in He.
    pose proof (append_prepare_spec _ Hw2) as Hp2.
    destruct (append_prepare (append_finalize mb1 c' k)) as [[c2|] mb3]; [|by simplify_eq].
    destruct Hp2 as (? & ? & _ & _ & Hs2 & _). lia.
Qed.

Lemma rounds_fuel mb : rounds mb < 2 + length (mb_free_ mb).
Proof. unfold rounds. destruct (append_prepare_inline mb); lia. Qed.

Lemma append_inv {S} (f : chunk_fn S) I J X st acc mb :
  chunk_inv f I J X -> mb_wf mb -> I st acc ->
  exists st' mb' w, append f st mb = Some (st', mb') /\ mb_wf mb' /\
    data mb' = data mb ++ w /\ I st' (acc ++ w) /\ buffers mb' ≡ₚ buffers mb /\
    length w + append_avail_size mb' = append_avail_size mb /\
    (append_avail_size mb' = 0 \/ X st' (acc ++ w)) /\
    (append_avail_size mb = 0 \/ J st' (acc ++ w)).
Proof. intros. apply append_loop_inv; auto using rounds_fuel. Qed.

(** A closure that wants to append exactly [r] more bytes: [P st acc r]. *)
Definition writes {S} (f : chunk_fn S) (P : S -> list Z -> nat -> Prop) : Prop :=
  forall st acc r c, P st acc r ->
    match f st c with
    | (st', c', k) => k = Nat.min r (length c) /\ length c' = length c /\
        P st' (acc ++ take k c') (r - k)
    end.

Lemma append_writes {S} (f : chunk_fn S) P st acc r mb :
  writes f P -> mb_wf mb -> P st acc r ->
  exists st' mb' w, append f st mb = Some (st', mb') /\ mb_wf mb' /\
    data mb' = data mb ++ w /\ length w = Nat.min (append_avail_size mb) r /\
    P st' (acc ++ w) (r - append_avail_size mb) /\ buffers mb' ≡ₚ buffers mb /\
    append_avail_size mb' = append_avail_size mb - r.
Proof.
  intros Hf Hw HP. set (tot := length acc + r).
  destruct (append_inv f (fun st a => length a <= tot /\ P st a (tot - length a)) (fun _ _ => True)
              (fun st a => length a = tot) st acc mb)
    as (st' & mb' & w & He & Hw' & Hd & [Hle HP'] & Hb & Ha & HX & _).
  - intros st1 a c [Hle HP1] _. pose proof (Hf st1 a _ c HP1) as H.
    destruct (f st1 c) as [[st2 c'] k]. destruct H as (Hk & Hc & HP2).
    rewrite length_app, length_take. split; [lia|]. split; [done|].
    replace (tot - (length a + k `min` length c')) with (tot - length a - k) by lia.
    split; [split; [lia|done]|]. split; [done|lia].
  - done.
  - split; [lia|]. by replace (tot - length acc) with r by lia.
  - exists st', mb', w. rewrite length_app in *. do 3 (split; [done|]).
    assert (length w = Nat.min (append_avail_size mb) r) as Hl by (destruct HX; lia).
    split; [done|]. replace (tot - (length acc + length w)) with (r - append_avail_size mb) in HP' by lia.
    split; [done|]. split; [done|lia].
Qed.

(** A closure that appends a byte stream: [P st s] says that [s] is left. *)
Definition writes_stream {S} (f : chunk_fn S) (P : S -> list Z -> Prop) : Prop :=
  forall st s c, P st s ->
    match f st c with
    | (st', c', k) => k = Nat.min (length s) (length c) /\ length c' = length c /\
        take k c' = take k s /\ P st' (drop k s)
    end.

Lemma append_stream {S} (f : chunk_fn S) P st s mb :
  writes_stream f P -> mb_wf mb -> P st s ->
  exists st' mb', append f st mb = Some (st', mb') /\ mb_wf mb' /\
    data mb' = data mb ++ take (append_avail_size mb) s /\ P st' (drop (append_avail_size mb) s) /\
    buffers mb' ≡ₚ buffers mb /\
    append_avail_size mb' = append_avail_size mb - length s.
Proof.
  intros Hf Hw HP.
  destruct (append_writes f (fun st acc r => exists s', acc ++ s' = s /\ r = length s' /\ P st s')
              st [] (length s) mb) as (st' & mb' & w & He & Hw' & Hd & Hl & (s' & Hs' & Hr & HP') & Hb & Ha).
  - intros st1 acc r c (s1 & Hs1 & -> & HP1). pose proof (Hf st1 s1 c HP1) as H.
    destruct (f st1 c) as [[st2 c'] k]. destruct H as (Hk & Hc & Ht & HP2).
    split; [done|]. split; [done|]. exists (drop k s1). rewrite Ht, <- app_assoc, take_drop.
    rewrite length_drop. done.
  - done.
  - by exists s.
  - simpl in Hs'. subst s. exists st', mb'.
    assert (length w = append_avail_size mb \/ s' = [] /\ length w <= append_avail_size mb) as Hcase.
    { rewrite length_app in Hl, Hr. destruct s'; [right; split; [done|lia]|left; simpl in *; lia]. }
    assert (take (append_avail_size mb) (w ++ s') = w /\ drop (append_avail_size mb) (w ++ s') = s')
      as [-> ->].
    { destruct Hcase as [<-|[-> Hle]]; [by rewrite take_app_length, drop_app_length|].
      rewrite app_nil_r, take_ge, drop_ge by lia. done. }
    done.
Qed.

Lemma copy_fn_stream src :
  writes_stream (copy_fn src) (fun copied s => copied <= length src /\ s = drop copied src).
Proof.
  intros copied s c [Hle ->]. unfold copy_fn. rewrite length_drop.
  destruct (Nat.eqb_spec (Nat.min (length src - copied) (length c)) 0) as [Hz|Hz].
  - rewrite Hz, drop_0. done.
  - set (k := Nat.min (length src - copied) (length c)) in *.
    assert (length (take k (drop copied src)) = k) as Hl by (rewrite length_take, length_drop; lia).
    split; [done|]. split; [apply write_at_length; lia|]. split.
    + unfold write_at. simpl. rewrite take_app_le, take_ge by lia. done.
    + rewrite drop_drop. split; [lia|done].
Qed.

Lemma fill_fn_stream val :
  writes_stream (fill_fn val) (fun rem s => s = replicate rem val).
Proof.
  intros rem s c ->. unfold fill_fn. rewrite length_replicate. split; [lia|].
  rewrite length_replicate. split; [done|]. rewrite !take_replicate, drop_replicate.
  split; [f_equal; lia|done].
Qed.

Lemma uninit_fn_writes : writes uninit_fn (fun rem acc r => rem = r).
Proof. intros rem acc r c ->. unfold uninit_fn. split; [lia|]. done. Qed.

Lemma append_from_buffer_spec mb src : mb_wf mb ->
  exists mb', append_from_buffer mb src = Some (Nat.min (length src) (append_avail_size mb), mb') /\
    mb_wf mb' /\ data mb' = data mb ++ take (append_avail_size mb) src /\
    buffers mb' ≡ₚ buffers mb /\ append_avail_size mb' = append_avail_size mb - length src.
Proof.
  intros Hw. destruct (append_stream _ _ 0 src mb (copy_fn_stream src) Hw)
    as (n & mb' & He & Hw' & Hd & [Hn Hs] & Hb & Ha); [split; [lia|done]|].
  exists mb'. unfold append_from_buffer. rewrite He. split; [|done]. do 2 f_equal.
  apply (f_equal length) in Hs. rewrite !length_drop in Hs. lia.
Qed.

Lemma append_val_spec mb size val : mb_wf mb ->
  exists mb', append_val mb size val = Some mb' /\ mb_wf mb' /\
    data mb' = data mb ++ replicate (Nat.min (append_avail_size mb) size) val /\
    buffers mb' ≡ₚ buffers mb /\ append_avail_size mb' = append_avail_size mb - size.
Proof.
  intros Hw. destruct (append_stream _ _ size _ mb (fill_fn_stream val) Hw eq_refl)
    as (n & mb' & He & Hw' & Hd & _ & Hb & Ha).
  exists mb'. unfold append_val. rewrite He. rewrite length_replicate in Ha.
  rewrite take_replicate in Hd. done.
Qed.

Lemma append_uninitialized_spec mb size : mb_wf mb ->
  exists mb' w, append_uninitialized mb size = Some mb' /\ mb_wf mb' /\ data mb' = data mb ++ w /\
    length w = Nat.min (append_avail_size mb) size /\
    buffers mb' ≡ₚ buffers mb /\ append_avail_size mb' = append_avail_size mb - size.
Proof.
  intros Hw. destruct (append_writes _ _ size [] size mb uninit_fn_writes Hw eq_refl)
    as (n & mb' & w & He & Hw' & Hd & Hl & _ & Hb & Ha).
  exists mb', w. unfold append_uninitialized. rewrite He. done.
Qed.

(** ** [prepend] *)

(** Rounds [prepend] can still make. *)
Definition rounds_front (mb : mbuff) : nat :=
  length (mb_free_ mb) + match prepend_prepare_inline mb with Some _ => 1 | None => 0 end.

Lemma prepend_prepare_spec mb : mb_wf mb ->
  match prepend_prepare mb with
  | (None, mb1) => mb1 = mb /\ prepend_avail mb = 0
  | (Some c, mb1) => exists h r, mb_nodes mb1 = h :: r /\ c = get_prepend_chunk h /\
      0 < prepend_space h <= prepend_avail mb /\ mb_wf mb1 /\ data mb1 = data mb /\
      buffers mb1 ≡ₚ buffers mb /\ prepend_avail mb1 = prepend_avail mb /\
      rounds_front mb = S (length (mb_free_ mb1))
  end.
Proof.
  intros Hw. unfold prepend_prepare, rounds_front.
  destruct (prepend_prepare_inline mb) as [c|] eqn:Hi.
  - unfold prepend_prepare_inline in Hi. destruct (mb_nodes mb) as [|h r] eqn:Hn; [done|].
    destruct (Nat.ltb_spec 0 (prepend_space h)) as [Hs|]; simplify_eq. exists h, r.
    do 2 (split; [done|]). unfold prepend_avail. rewrite Hn. split; [lia|].
    do 4 (split; [done|]). lia.
  - assert (match mb_nodes mb with h :: _ => prepend_space h | [] => 0 end = 0) as Ht.
    { unfold prepend_prepare_inline in Hi. destruct (mb_nodes mb) as [|h r]; [done|].
      destruct (Nat.ltb_spec 0 (prepend_space h)); [done|lia]. }
    destruct (get_free_node mb) as [[n|] mb'] eqn:Hg.
    + destruct (get_free_node_wf _ _ _ Hw Hg) as (Hfresh & Hno & Hfr & Hv & Hfs & Hw').
      pose proof Hfresh as (Hpos & Hoff & Hlen).
      exists n, (mb_nodes mb'). simpl. do 2 (split; [done|]).
      assert (prepend_space n = mb_buff_len_ n) as Hsp by (unfold prepend_space; by rewrite Hlen).
      split; [unfold prepend_avail; lia|]. split; [|split; [|split; [|split]]].
      * destruct Hw' as [W1 W2 W3 W4 W5]. split; simpl; [|done| |done|done].
        -- apply Forall_cons_iff. split; [by apply fresh_wf|done].
        -- unfold compute_valid_size in *. simpl. rewrite Hlen. lia.
      * unfold data. simpl. rewrite Hno, (fresh_data n) by done. done.
      * unfold buffers. simpl. rewrite Hfr, <- Hno, !fmap_app. simpl.
        by rewrite Permutation_middle.
      * unfold prepend_avail. simpl. lia.
      * rewrite Hfr. simpl. lia.
    + unfold get_free_node in Hg. unfold prepend_avail. rewrite Ht, (mwf_free_size _ Hw).
      by destruct (mb_free_ mb); simplify_eq.
Qed.

Lemma prepend_finalize_spec mb h r c k :
  mb_wf mb -> mb_nodes mb = h :: r -> length c = prepend_space h -> k <= length c ->
  let mb' := prepend_finalize mb c k in
  mb_wf mb' /\ data mb' = drop (length c - k) c ++ data mb /\ buffers mb' = buffers mb /\
  prepend_avail mb' = prepend_avail mb - k /\ mb_free_ mb' = mb_free_ mb /\
  (k = length c -> prepend_prepare_inline mb' = None).
Proof.
  intros Hw Hn Hc Hk mb'.
  assert (node_wf h /\ Forall node_wf r) as [Hwh Hwr].
  { pose proof (mwf_nodes _ Hw) as H. rewrite Hn in H. by apply Forall_cons_iff in H. }
  destruct (put_prepend_spec h c k Hwh Hc Hk) as (Hw' & Hd' & Hid' & Hs').
  unfold mb', prepend_finalize. rewrite Hn.
  split; [|split; [|split; [|split; [|split]]]].
  - destruct Hw as [W1 W2 W3 W4 W5]. split; [|exact W2| |exact W4|exact W5].
    + by apply Forall_cons_iff.
    + unfold compute_valid_size in *. simpl. rewrite W3, Hn. simpl.
      assert (mb_len_ (put_prepend_chunk h c k) = mb_len_ h + k); [|lia].
      rewrite <- (node_data_length _ Hw'), Hd', length_app, length_drop, node_data_length by done. lia.
  - unfold data. simpl. by rewrite Hd', Hn, <- app_assoc.
  - unfold buffers. simpl. by rewrite Hn, Hid'.
  - unfold prepend_avail. rewrite Hn. cbn [mb_nodes add_valid set_nodes mb_free_size_]. lia.
  - done.
  - intros ->. unfold prepend_prepare_inline. cbn [mb_nodes add_valid set_nodes].
    rewrite Hs', Hc, Nat.sub_diag. done.
Qed.

Lemma prepend_loop_copy src fuel rem mb :
  mb_wf mb -> rem <= length src -> rounds_front mb < fuel ->
  exists mb', prepend_loop (copy_back_fn src) fuel rem mb = Some (rem - prepend_avail mb, mb') /\
    mb_wf mb' /\ data mb' = drop (rem - prepend_avail mb) (take rem src) ++ data mb /\
    buffers mb' ≡ₚ buffers mb.
Proof.
  revert rem mb. induction fuel as [|fuel IH]; intros rem mb Hw Hrem Hr; [lia|].
  cbn [prepend_loop]. pose proof (prepend_prepare_spec mb Hw) as Hprep.
  destruct (prepend_prepare mb) as [[c|] mb1].
  2:{ destruct Hprep as [-> Hz]. exists mb. rewrite Hz, Nat.sub_0_r, drop_ge; [done|].
      rewrite length_take. lia. }
  destruct Hprep as (h & r & Hn1 & -> & Hsp & Hw1 & Hd1 & Hb1 & Ha1 & Hrd).
  assert (length (get_prepend_chunk h) = prepend_space h) as Hch.
  { apply prepend_chunk_length. pose proof (mwf_nodes _ Hw1) as H. rewrite Hn1 in H.
    apply Forall_cons_iff in H as [H _]. exact H. }
  set (k := Nat.min rem (length (get_prepend_chunk h))).
  set (c' := write_at (get_prepend_chunk h) (length (get_prepend_chunk h) - k)
                      (take k (drop (rem - k) src))).
  assert (length (take k (drop (rem - k) src)) = k) as Hlk.
  { rewrite length_take, length_drop. lia. }
  assert (length c' = prepend_space h) as Hc'. { unfold c'. rewrite write_at_length; lia. }
  assert (copy_back_fn src rem (get_prepend_chunk h) = (rem - k, if k =? 0 then get_prepend_chunk h else c', k))
    as ->.
  { unfold copy_back_fn. fold k. destruct (Nat.eqb_spec k 0) as [->|]; [by rewrite Nat.sub_0_r|done]. }
  destruct (Nat.eqb_spec k 0) as [Hk0|Hk0]; cbn [orb].
  { rewrite Hk0. assert (rem = 0) as -> by lia. simpl.
    destruct (prepend_finalize_spec mb1 h r (get_prepend_chunk h) 0) as (Hw2 & Hd2 & Hb2 & _); [done|done|lia|lia|].
    rewrite Nat.sub_0_r, drop_ge in Hd2 by lia.
    exists (prepend_finalize mb1 (get_prepend_chunk h) 0). rewrite Hb2, Hd2, Hd1. done. }
  destruct (prepend_finalize_spec mb1 h r c' k) as (Hw2 & Hd2 & Hb2 & Ha2 & Hf2 & Hi2); [done|done|lia|lia|].
  assert (drop (length c' - k) c' = take k (drop (rem - k) src)) as Hdc.
  { unfold c' at 2, write_at. rewrite drop_app_ge by (rewrite length_take; lia).
    rewrite length_take. replace (length c' - k - _) with 0 by lia. rewrite drop_0, Hlk.
    rewrite (drop_ge (get_prepend_chunk h)) by lia. apply app_nil_r. }
  rewrite Hdc in Hd2. destruct (Nat.ltb_spec k (length (get_prepend_chunk h))) as [Hlt|Hge].
  - assert (k = rem) as Hkr by lia. exists (prepend_finalize mb1 c' k).
    replace (rem - prepend_avail mb) with 0 by lia. rewrite Hkr in *. rewrite Nat.sub_diag in *.
    rewrite drop_0 in *. rewrite Hb2, Hd2, Hd1. done.
  - destruct (IH (rem - k) (prepend_finalize mb1 c' k)) as (mb' & He & Hw3 & Hd3 & Hb3); [done|lia| |].
    { unfold rounds_front. rewrite Hi2, Hf2 by lia. lia. }
    rewrite Ha2, Ha1 in *. replace (rem - k - (prepend_avail mb - k)) with (rem - prepend_avail mb) in * by lia.
    exists mb'. rewrite Hd3, Hd2, Hd1, Hb3, Hb2, app_assoc. do 2 (split; [done|]). split; [|done].
    f_equal.
    replace (take rem src) with (take (rem - k) src ++ take k (drop (rem - k) src))
      by (rewrite take_take_drop; f_equal; lia).
    rewrite drop_app_le; [done|]. rewrite length_take. lia.
Qed.

Lemma prepend_from_buffer_spec mb src : mb_wf mb ->
  exists mb', prepend_from_buffer mb src = Some (Nat.min (length src) (prepend_avail mb), mb') /\
    mb_wf mb' /\ data mb' = drop (length src - prepend_avail mb) src ++ data mb /\
    buffers mb' ≡ₚ buffers mb.
Proof.
  intros Hw. destruct (prepend_loop_copy src (2 + length (mb_free_ mb)) (length src) mb)
    as (mb' & He & Hw' & Hd & Hb); [done|done| |].
  { unfold rounds_front. destruct (prepend_prepare_inline mb); lia. }
  exists mb'. unfold prepend_from_buffer, prepend. rewrite He. rewrite (take_ge src) in Hd by lia.
  split; [|done]. do 2 f_equal. lia.
Qed.

(** ** [reslice] *)

(** The part of the invariant about the free list. *)
Definition free_wf (mb : mbuff) : Prop :=
  Forall node_fresh (mb_free_ mb) /\
  mb_free_size_ mb = sum_list_with mb_buff_len_ (mb_free_ mb) /\
  mb_free_nodes_ mb = length (mb_free_ mb).

Lemma mb_wf_free mb : mb_wf mb -> free_wf mb.
Proof. by intros [_ ? _ ? ?]. Qed.

Lemma free_wf_wf mb : free_wf mb -> Forall node_wf (mb_nodes mb) ->
  mb_valid_size_ mb = compute_valid_size mb -> mb_wf mb.
Proof. by intros (? & ? & ?). Qed.

Lemma put_free_node_free mb n : free_wf mb -> node_fresh n -> free_wf (put_free_node mb n).
Proof.
  intros (Hf & Hs & Hk) Hn. split; [by apply Forall_cons_iff|]. simpl. rewrite Hs, Hk.
  split; lia.
Qed.

Lemma free_nodes_spec l mb : Forall node_wf l -> free_wf mb ->
  free_wf (free_nodes mb l) /\ mb_nodes (free_nodes mb l) = mb_nodes mb /\
  node_id <$> mb_free_ (free_nodes mb l) ≡ₚ (node_id <$> l) ++ (node_id <$> mb_free_ mb).
Proof.
  revert mb. induction l as [|n l IH]; intros mb Hl Hf; [done|].
  apply Forall_cons_iff in Hl as [Hn Hl]. cbn [free_nodes].
  destruct (IH (put_free_node mb (node_reset n))) as (H1 & H2 & H3); [done| |].
  { by apply put_free_node_free, reset_fresh. }
  split; [done|]. split; [done|]. rewrite H3. simpl.
  rewrite <- Permutation_middle. done.
Qed.

Lemma reslice_head_spec l off mb :
  Forall node_wf l -> free_wf mb -> off <= length (concat (node_data <$> l)) ->
  exists l' mb', reslice_head l off mb = Some (l', mb') /\ Forall node_wf l' /\ free_wf mb' /\
    concat (node_data <$> l') = drop off (concat (node_data <$> l)) /\
    mb_nodes mb' = mb_nodes mb /\
    (node_id <$> l') ++ (node_id <$> mb_free_ mb') ≡ₚ (node_id <$> l) ++ (node_id <$> mb_free_ mb).
Proof.
  revert off mb. induction l as [|n l IH]; intros off mb Hl Hf Hoff.
  { assert (off = 0) as -> by (simpl in Hoff; lia). by exists [], mb. }
  destruct off as [|off]; [by exists (n :: l), mb|].
  apply Forall_cons_iff in Hl as [Hn Hl]. cbn [reslice_head].
  rewrite fmap_cons in *. cbn [concat] in *. rewrite length_app, node_data_length in Hoff by done.
  destruct (Nat.ltb_spec (S off) (mb_len_ n)) as [Hlt|Hge].
  - eexists _, mb. split; [done|]. destruct Hn as [Hr Hfit He]. split; [|split; [done|]].
    { apply Forall_cons_iff. split; [split; simpl; unfold mb_buff_len_ in *; simpl; lia|done]. }
    split; [|done]. rewrite fmap_cons. cbn [concat]. rewrite drop_app_le.
    + f_equal. unfold node_data, get_valid_chunk. simpl.
      rewrite skipn_firstn_comm, drop_drop. do 2 f_equal; lia.
    + rewrite node_data_length by done. lia.
  - destruct (IH (S off - mb_len_ n) (put_free_node mb (node_reset n)))
      as (l' & mb' & He & Hl' & Hf' & Hd & Hno & Hp); [done| |lia|].
    { by apply put_free_node_free, reset_fresh. }
    exists l', mb'. split; [done|]. do 2 (split; [done|]). split; [|split; [done|]].
    + rewrite Hd, drop_app_ge by (rewrite node_data_length by done; lia).
      by rewrite node_data_length.
    + rewrite Hp. simpl. by rewrite <- Permutation_middle.
Qed.

Lemma reslice_tail_spec l len :
  Forall node_wf l -> 0 < len <= length (concat (node_data <$> l)) ->
  exists kept rest, reslice_tail l len = Some (kept, rest) /\
    Forall node_wf kept /\ Forall node_wf rest /\
    concat (node_data <$> kept) = take len (concat (node_data <$> l)) /\
    node_id <$> l = (node_id <$> kept) ++ (node_id <$> rest) /\
    (mb_off_ <$> head kept = mb_off_ <$> head l).
Proof.
  revert len. induction l as [|n l IH]; intros len Hl Hlen; [simpl in Hlen; lia|].
  apply Forall_cons_iff in Hl as [Hn Hl]. cbn [reslice_tail].
  rewrite fmap_cons in *. cbn [concat] in *. rewrite length_app, node_data_length in Hlen by done.
  destruct (Nat.leb_spec len (mb_len_ n)) as [Hle|Hgt].
  - eexists _, l. split; [done|]. destruct Hn as [Hr Hfit He].
    split; [|split; [done|split; [|done]]].
    { apply Forall_cons_iff. split; [split; simpl; unfold mb_buff_len_ in *; simpl; lia|done]. }
    simpl. rewrite app_nil_r, take_app_le.
    + unfold node_data, get_valid_chunk. simpl. rewrite take_take. f_equal. lia.
    + rewrite node_data_length by done. lia.
  - destruct (IH (len - mb_len_ n)) as (kept & rest & He & Hk & Hr & Hd & Hid & _); [done|lia|].
    rewrite He. exists (n :: kept), rest. split; [done|]. split; [by apply Forall_cons_iff|].
    split; [done|]. rewrite !fmap_cons. cbn [concat]. rewrite Hd, Hid. split; [|done].
    rewrite take_app_ge by (rewrite node_data_length by done; lia).
    by rewrite node_data_length.
Qed.

Lemma reslice_refused mb len off :
  mb_wf mb -> (Z.of_nat off + Z.of_nat len < 2 ^ 64)%Z -> length (data mb) < off + len ->
  reslice mb len off = Some ((-1)%Z, mb).
Proof.
  intros Hw Hov Hlt. unfold reslice. rewrite data_length in Hlt by done.
  rewrite wrap_small by (split; lia).
  destruct (Z.ltb_spec (Z.of_nat (mb_valid_size_ mb)) (Z.of_nat off + Z.of_nat len)); [done|lia].
Qed.

Lemma reslice_spec mb len off :
  mb_wf mb -> (Z.of_nat off + Z.of_nat len < 2 ^ 64)%Z -> off + len <= length (data mb) ->
  exists mb', reslice mb len off = Some (0%Z, mb') /\ mb_wf mb' /\
    data mb' = take len (drop off (data mb)) /\ buffers mb' ≡ₚ buffers mb.
Proof.
  intros Hw Hov Hle. pose proof (mb_wf_free mb Hw) as Hfw. unfold reslice.
  rewrite wrap_small by (split; lia). pose proof (data_length mb Hw) as Hdl.
  destruct (Z.ltb_spec (Z.of_nat (mb_valid_size_ mb)) (Z.of_nat off + Z.of_nat len)); [lia|].
  pose proof (mwf_nodes _ Hw) as Hn. destruct (Nat.eqb_spec len 0) as [->|Hlen].
  - destruct (free_nodes_spec (mb_nodes mb) mb Hn Hfw) as (Hf & _ & Hp). eexists. split; [done|].
    split; [apply free_wf_wf; [exact Hf|done|done]|]. split; [done|].
    unfold buffers. simpl. by rewrite Hp, fmap_app.
  - destruct (reslice_head_spec (mb_nodes mb) off mb) as (l & mb1 & He & Hl & Hf1 & Hd1 & Hno & Hp1);
      [done|done|unfold data in Hle; lia|].
    rewrite He. fold (data mb) in Hd1.
    destruct (reslice_tail_spec l len) as (kept & rest & Ht & Hk & Hr & Hd2 & Hid & _); [done| |].
    { rewrite Hd1, length_drop. lia. }
    rewrite Ht. destruct (free_nodes_spec rest (set_nodes mb1 kept)) as (Hf2 & Hno2 & Hp2); [done|done|].
    destruct (mb_nodes mb) as [|n0 l0] eqn:Hnodes.
    { unfold data in Hle. rewrite Hnodes in Hle. simpl in Hle. lia. }
    eexists. split; [done|]. split; [|split].
    + apply free_wf_wf; [exact Hf2|cbn [mb_nodes]; by rewrite Hno2|].
      cbn [mb_valid_size_]. unfold compute_valid_size. cbn [mb_nodes]. rewrite Hno2.
      rewrite <- nodes_data_length by done. cbn [mb_nodes set_nodes].
      rewrite Hd2, Hd1, length_take, length_drop. lia.
    + unfold data at 1. cbn [mb_nodes]. rewrite Hno2. cbn [mb_nodes set_nodes]. by rewrite Hd2, Hd1.
    + unfold buffers. cbn [mb_nodes mb_free_]. rewrite Hno2, !fmap_app, Hp2.
      cbn [mb_nodes set_nodes mb_free_]. rewrite app_assoc, <- Hid, Hp1, Hnodes. done.
Qed.

(** Cutting bytes off the end makes at least that much room for appending. *)
Definition tail_space (l : list node) : nat :=
  match list.last l with Some t => append_space t | None => 0 end.

Lemma nodes_room l : Forall node_wf l ->
  tail_space l + sum_list_with mb_len_ l <= sum_list_with mb_buff_len_ l.
Proof.
  intros Hl. destruct l as [|n l] using rev_ind; [done|]. clear IHl.
  unfold tail_space. rewrite last_snoc, !sum_list_with_app. simpl.
  apply Forall_app in Hl as [Hl Hn]. apply Forall_cons_iff in Hn as [[_ Hf _] _].
  assert (sum_list_with mb_len_ l <= sum_list_with mb_buff_len_ l).
  { clear -Hl. induction Hl as [|x l [_ Hx _] _ IH]; [done|]. simpl. lia. }
  unfold append_space. lia.
Qed.

Lemma reslice_tail_room l len kept rest :
  Forall node_wf l -> reslice_tail l len = Some (kept, rest) -> len <= sum_list_with mb_len_ l ->
  tail_space l + (sum_list_with mb_len_ l - len) <= tail_space kept + sum_list_with mb_buff_len_ rest.
Proof.
  revert len kept rest. induction l as [|n l IH]; intros len kept rest Hl He Hlen; [done|].
  apply Forall_cons_iff in Hl as [Hn Hl]. cbn [reslice_tail] in He. simpl in Hlen.
  destruct (Nat.leb_spec len (mb_len_ n)) as [Hle|Hgt].
  - injection He as <- <-. pose proof (nodes_room l Hl) as Hroom. destruct Hn as [_ Hf _].
    assert (tail_space [Node (mb_ptr n) (mb_buff_ n) (mb_off_ n) len] =
            append_space n + (mb_len_ n - len)) as ->.
    { unfold tail_space, append_space, mb_buff_len_ in *. simpl. lia. }
    destruct l as [|n2 l]; [unfold tail_space; simpl; lia|].
    assert (tail_space (n :: n2 :: l) = tail_space (n2 :: l)) as -> by done.
    cbn [sum_list_with] in *. lia.
  - destruct (reslice_tail l (len - mb_len_ n)) as [[kept' rest']|] eqn:Ht; [|done].
    injection He as <- <-. destruct l as [|n2 l]; [done|].
    assert (exists x kk, kept' = x :: kk) as (x & kk & ->).
    { cbn [reslice_tail] in Ht. destruct (_ <=? _); [by simplify_eq; eauto|].
      destruct (reslice_tail l _) as [[? ?]|]; simplify_eq; eauto. }
    specialize (IH _ _ _ Hl Ht ltac:(lia)).
    assert (tail_space (n :: n2 :: l) = tail_space (n2 :: l)) as -> by done.
    assert (tail_space (n :: x :: kk) = tail_space (x :: kk)) as -> by done.
    cbn [sum_list_with] in *. lia.
Qed.

Lemma free_nodes_size l mb :
  mb_free_size_ (free_nodes mb l) = mb_free_size_ mb + sum_list_with mb_buff_len_ l.
Proof.
  revert mb. induction l as [|n l IH]; intros mb; simpl; [lia|]. rewrite IH. simpl.
  unfold mb_buff_len_. simpl. lia.
Qed.

Lemma reslice_prefix_room mb len mb' :
  mb_wf mb -> len <= length (data mb) -> (Z.of_nat len < 2 ^ 64)%Z ->
  reslice mb len 0 = Some (0%Z, mb') ->
  append_avail_size mb + (length (data mb) - len) <= append_avail_size mb'.
Proof.
  intros Hw Hlen Hov. unfold reslice. rewrite wrap_small by (split; lia).
  rewrite data_length in * by done. pose proof (mwf_nodes _ Hw) as Hn.
  pose proof (mwf_valid_size _ Hw) as Hv. unfold compute_valid_size in Hv.
  destruct (Z.ltb_spec (Z.of_nat (mb_valid_size_ mb)) (Z.of_nat 0 + Z.of_nat len)); [lia|].
  assert (append_avail_size mb = mb_free_size_ mb + tail_space (mb_nodes mb)) as Ha by done.
  destruct (Nat.eqb_spec len 0) as [->|Hpos].
  - intros [= <-]. unfold append_avail_size at 2. cbn [mb_free_size_ mb_nodes list.last].
    rewrite free_nodes_size. pose proof (nodes_room _ Hn). lia.
  - destruct (mb_nodes mb) as [|n0 l0] eqn:Hnodes; [simpl in Hv; lia|]. rewrite <- Hnodes in *.
    assert (reslice_head (mb_nodes mb) 0 mb = Some (mb_nodes mb, mb)) as -> by (by rewrite Hnodes).
    destruct (reslice_tail (mb_nodes mb) len) as [[kept rest]|] eqn:Ht; [|done].
    pose proof (reslice_tail_room _ _ _ _ Hn Ht ltac:(lia)) as Hr. intros [= <-].
    unfold append_avail_size at 2. cbn [mb_free_size_ mb_nodes]. rewrite free_nodes_size.
    assert (mb_nodes (free_nodes (set_nodes mb kept) rest) = kept) as ->.
    { destruct (reslice_tail_spec (mb_nodes mb) len Hn) as (k1 & r1 & He1 & _ & Hr1 & _).
      - rewrite nodes_data_length by done. lia.
      - rewrite Ht in He1. injection He1 as <- <-.
        by destruct (free_nodes_spec rest (set_nodes mb kept) Hr1) as (_ & -> & _);
          [apply mb_wf_free in Hw|]. }
    fold (tail_space kept). simpl. lia.
Qed.

(** ** Iterators *)

(** The bytes an iterator has still to visit. *)
Definition iter_rest (it : iterator) : list Z :=
  i_chunk_ it ++ take (i_len_ it - length (i_chunk_ it)) (concat (node_data <$> tail (i_nodes it))).

Record iter_wf (it : iterator) : Prop := {
  iwf_nodes : Forall node_wf (i_nodes it);
  iwf_some : i_nodes it <> [];
  iwf_chunk : length (i_chunk_ it) <= i_len_ it;
  iwf_len : i_len_ it - length (i_chunk_ it) <= length (concat (node_data <$> tail (i_nodes it)))
}.

Lemma iter_rest_length it : iter_wf it -> length (iter_rest it) = i_len_ it.
Proof. intros [_ _ Hc Hl]. unfold iter_rest. rewrite length_app, length_take. lia. Qed.

Lemma iter_next_None it : iter_wf it ->
  iter_next it = None -> i_len_ it = length (i_chunk_ it).
Proof.
  intros [_ _ Hc Hl] Hn. unfold iter_next in Hn.
  destruct (Nat.eqb_spec (i_len_ it - length (i_chunk_ it)) 0); [lia|].
  destruct (tail (i_nodes it)); [simpl in Hl; lia|done].
Qed.

Lemma iter_next_Some it it' : iter_wf it -> iter_next it = Some it' ->
  iter_wf it' /\ iter_rest it' = drop (length (i_chunk_ it)) (iter_rest it) /\
  i_len_ it' = i_len_ it - length (i_chunk_ it) /\
  length (i_nodes it) = S (length (i_nodes it')).
Proof.
  intros [Hn Hs Hc Hl] He. unfold iter_next in He.
  destruct (Nat.eqb_spec (i_len_ it - length (i_chunk_ it)) 0) as [|Hpos]; [done|].
  unfold iter_rest at 2. rewrite drop_app_length.
  destruct (i_nodes it) as [|n0 [|n r]]; [done..|]. simpl tail in *.
  injection He as <-. set (len := i_len_ it - length (i_chunk_ it)) in *.
  apply Forall_cons_iff in Hn as [_ Hn]. pose proof Hn as Hn'. apply Forall_cons_iff in Hn' as [Hnn _].
  assert (get_valid_chunk n 0 (Nat.min len (mb_len_ n)) = take len (node_data n)) as Hch.
  { unfold node_data, get_valid_chunk. by rewrite take_take. }
  rewrite fmap_cons in *. cbn [concat] in *. rewrite length_app in Hl.
  split; [|split; [|split; reflexivity]].
  - split; cbn [i_nodes i_chunk_ i_len_]; [done|done|..]; rewrite Hch, length_take; [lia|]. simpl tail. lia.
  - unfold iter_rest. cbn [i_nodes i_chunk_ i_len_]. simpl tail.
    rewrite Hch, length_take, firstn_app. do 2 f_equal. lia.
Qed.

Lemma find_node_spec l off : Forall node_wf l -> off < length (concat (node_data <$> l)) ->
  exists n r o, find_node l off = Some (n :: r, o) /\ o < mb_len_ n /\ Forall node_wf (n :: r) /\
    drop off (concat (node_data <$> l)) = drop o (node_data n) ++ concat (node_data <$> r) /\
    length (n :: r) <= length l.
Proof.
  revert off. induction l as [|n l IH]; intros off Hl Hoff; [simpl in Hoff; lia|].
  pose proof Hl as Hl'. apply Forall_cons_iff in Hl' as [Hn Hl']. cbn [find_node].
  rewrite fmap_cons in *. cbn [concat] in *. rewrite length_app, node_data_length in Hoff by done.
  destruct (Nat.ltb_spec off (mb_len_ n)) as [Hlt|Hge].
  - exists n, l, off. do 3 (split; [done|]). split; [|done].
    rewrite drop_app_le; [done|]. rewrite node_data_length by done. lia.
  - destruct (IH (off - mb_len_ n)) as (n' & r & o & He & Ho & Hw & Hd & Hlen); [done|lia|].
    exists n', r, o. split; [done|]. do 2 (split; [done|]). split; [|simpl in *; lia].
    rewrite drop_app_ge by (rewrite node_data_length by done; lia). by rewrite node_data_length.
Qed.

Lemma init_iterator_spec mb off len : mb_wf mb -> 0 < len -> off + len <= length (data mb) ->
  exists it, do_initialize_iterator mb off len = Some it /\ iter_wf it /\
    i_len_ it = len /\ iter_rest it = take len (drop off (data mb)).
Proof.
  intros Hw Hlen Hle. unfold do_initialize_iterator.
  destruct (find_node_spec (mb_nodes mb) off (mwf_nodes _ Hw)) as (n & r & o & He & Ho & Hnr & Hd & _).
  { unfold data in Hle. lia. }
  rewrite He. eexists. split; [done|]. fold (data mb) in Hd.
  pose proof Hnr as Hnr'. apply Forall_cons_iff in Hnr' as [Hn _].
  assert (length (data mb) - off = length (drop o (node_data n)) + length (concat (node_data <$> r)))
    as Hdl by (by rewrite <- length_drop, Hd, length_app).
  assert (get_valid_chunk n o (Nat.min len (mb_len_ n - o)) = take len (drop o (node_data n))) as Hch.
  { unfold node_data, get_valid_chunk. rewrite skipn_firstn_comm, drop_drop, take_take.
    do 2 f_equal; lia. }
  rewrite length_drop, node_data_length in Hdl by done. split; [|split; [done|]].
  - split; cbn [i_nodes i_chunk_ i_len_]; [done|done|..]; rewrite Hch, length_take; [lia|].
    simpl tail. rewrite length_drop, node_data_length by done. lia.
  - unfold iter_rest. cbn [i_nodes i_chunk_ i_len_]. simpl tail.
    rewrite Hch, length_take, Hd, firstn_app. do 2 f_equal. lia.
Qed.

Lemma iterate_valid_init_spec mb off len :
  mb_wf mb -> 0 < len -> (Z.of_nat off + Z.of_nat len < 2 ^ 64)%Z ->
  if decide (off + len <= length (data mb))
  then exists it, iterate_valid_init mb off len = Some (0%Z, Some it) /\ iter_wf it /\
         i_len_ it = len /\ iter_rest it = take len (drop off (data mb))
  else iterate_valid_init mb off len = Some (EINVAL, None).
Proof.
  intros Hw Hlen Hov. unfold iterate_valid_init. rewrite wrap_small by (split; lia).
  destruct (Nat.eqb_spec len 0); [lia|]. rewrite data_length by done.
  destruct (decide _) as [Hle|Hgt].
  - destruct (Z.ltb_spec (Z.of_nat (mb_valid_size_ mb)) (Z.of_nat off + Z.of_nat len)); [lia|].
    destruct (init_iterator_spec mb off len Hw) as (it & He & Hi); [done|by rewrite data_length|].
    exists it. by rewrite He.
  - destruct (Z.ltb_spec (Z.of_nat (mb_valid_size_ mb)) (Z.of_nat off + Z.of_nat len)); [done|lia].
Qed.

(** ** Reading back *)

Lemma copy_loop_spec fuel it len copied :
  iter_wf it -> length (i_nodes it) <= fuel -> i_len_ it + copied = len ->
  copy_loop fuel (Some it) len copied = iter_rest it.
Proof.
  revert it copied. induction fuel as [|fuel IH]; intros it copied Hw Hf Hlen.
  { destruct Hw as [_ Hs _ _]. destruct (i_nodes it); [done|simpl in Hf; lia]. }
  cbn [copy_loop]. pose proof (iwf_chunk _ Hw).
  replace (Nat.min (len - copied) (length (i_chunk_ it))) with (length (i_chunk_ it)) by lia.
  rewrite take_ge by done. destruct (iter_next it) as [it'|] eqn:Hn.
  - destruct (iter_next_Some _ _ Hw Hn) as (Hw' & Hr & Hl & Hk). rewrite IH by (done || lia).
    rewrite Hr. unfold iter_rest. by rewrite drop_app_length.
  - apply iter_next_None in Hn; [|done]. unfold iter_rest. rewrite Hn, Nat.sub_diag.
    by destruct fuel.
Qed.

Lemma copy_to_buffer_spec mb off len : mb_wf mb ->
  copy_to_buffer mb off len = Some (take len (drop off (data mb))).
Proof.
  intros Hw. unfold copy_to_buffer, iterate_valid_partial_init. rewrite <- data_length by done.
  destruct (Nat.ltb_spec (length (data mb)) off) as [Hlt|Hge].
  { rewrite drop_ge by lia. by rewrite take_nil. }
  destruct (Nat.eqb_spec (Nat.min len (length (data mb) - off)) 0) as [Hz|Hz].
  { f_equal. symmetry. apply nil_length_inv. rewrite length_take, length_drop. lia. }
  destruct (init_iterator_spec mb off (Nat.min len (length (data mb) - off)) Hw)
    as (it & He & Hi & Hl & Hr); [lia|lia|].
  rewrite He. simpl. rewrite copy_loop_spec by (done || lia). rewrite Hr. f_equal.
  destruct (decide (len <= length (data mb) - off)); [by rewrite Nat.min_l|].
  rewrite Nat.min_r, !take_ge by (rewrite ?length_drop; lia). done.
Qed.

(** ** Comparing *)

(** Two byte strings compared by a common prefix first. *)
Lemma bytes_split_eq (k : nat) (a b : list Z) :
  a = b <-> take k a = take k b /\ drop k a = drop k b.
Proof.
  split; [by intros ->|]. intros [H1 H2].
  rewrite <- (take_drop k a), <- (take_drop k b). by f_equal.
Qed.

(** The bytes after an advance of [k] within or to the end of the chunk. *)
Lemma iter_advance it k :
  iter_wf it -> k <= length (i_chunk_ it) -> k < length (iter_rest it) ->
  exists it', (if k =? length (i_chunk_ it) then iter_next it else Some it) = Some it' /\
    iter_wf it' /\
    drop (if k =? length (i_chunk_ it) then 0 else k) (iter_rest it') = drop k (iter_rest it) /\
    (if k =? length (i_chunk_ it) then 0 else k) <= length (i_chunk_ it') /\
    (if k =? length (i_chunk_ it) then length (i_nodes it) = S (length (i_nodes it'))
     else length (i_nodes it) = length (i_nodes it')).
Proof.
  intros Hw Hk Hlt. destruct (Nat.eqb_spec k (length (i_chunk_ it))) as [->|Hne].
  - destruct (iter_next it) as [it'|] eqn:Hn.
    + destruct (iter_next_Some _ _ Hw Hn) as (Hw' & Hr & Hl & Hc). exists it'.
      rewrite drop_0. split; [done|]. do 2 (split; [done|]). split; [lia|done].
    + apply iter_next_None in Hn; [|done]. rewrite iter_rest_length in Hlt by done. lia.
  - exists it. done.
Qed.

Lemma chunk_slice it off k :
  iter_wf it -> off + k <= length (i_chunk_ it) ->
  take k (drop off (i_chunk_ it)) = take k (drop off (iter_rest it)).
Proof.
  intros Hw Hk. unfold iter_rest. rewrite drop_app_le by lia.
  rewrite take_app_le; [done|]. rewrite length_drop. lia.
Qed.

Lemma compare_loop_spec fuel it1 it2 o1 o2 total len :
  iter_wf it1 -> iter_wf it2 -> o1 <= length (i_chunk_ it1) -> o2 <= length (i_chunk_ it2) ->
  length (drop o1 (iter_rest it1)) = len - total ->
  length (drop o2 (iter_rest it2)) = len - total -> total < len ->
  length (i_nodes it1) + length (i_nodes it2) <= fuel ->
  compare_loop fuel it1 it2 o1 o2 total len =
    Some (if bytes_eqb (drop o1 (iter_rest it1)) (drop o2 (iter_rest it2)) then 0%Z else 1%Z).
Proof.
  revert it1 it2 o1 o2 total.
  induction fuel as [|fuel IH]; intros it1 it2 o1 o2 total Hw1 Hw2 Ho1 Ho2 Hr1 Hr2 Htot Hf.
  { destruct (iwf_some _ Hw1). apply nil_length_inv. lia. }
  cbn [compare_loop]. set (k := Nat.min (length (i_chunk_ it1) - o1) (length (i_chunk_ it2) - o2)).
  rewrite !chunk_slice by (done || lia).
  assert (o1 + k <= length (iter_rest it1) /\ o2 + k <= length (iter_rest it2)) as [Hk1 Hk2].
  { pose proof (iwf_chunk _ Hw1). pose proof (iwf_chunk _ Hw2). rewrite !iter_rest_length by done. lia. }
  rewrite !length_drop in *.
  unfold bytes_eqb at 1. destruct (bool_decide_reflect (take k (drop o1 (iter_rest it1)) = take k (drop o2 (iter_rest it2))))
    as [Heq|Hne]; cbn [negb].
  2:{ unfold bytes_eqb. rewrite bool_decide_false; [done|]. intros H. apply Hne. by rewrite H. }
  assert (bytes_eqb (drop o1 (iter_rest it1)) (drop o2 (iter_rest it2)) =
          bytes_eqb (drop (o1 + k) (iter_rest it1)) (drop (o2 + k) (iter_rest it2))) as ->.
  { unfold bytes_eqb. apply bool_decide_ext. rewrite (bytes_split_eq k), !drop_drop. tauto. }
  destruct (Nat.eqb_spec (total + k) len) as [Hend|Hmore].
  - rewrite !drop_ge by lia. done.
  - destruct (iter_advance it1 (o1 + k)) as (i1 & He1 & Hi1 & Hd1 & Hc1 & Hn1); [done|lia|lia|].
    destruct (iter_advance it2 (o2 + k)) as (i2 & He2 & Hi2 & Hd2 & Hc2 & Hn2); [done|lia|lia|].
    rewrite He1, He2, <- Hd1, <- Hd2. apply IH; try done; rewrite ?Hd1, ?Hd2, ?length_drop; try lia.
    assert ((o1 + k =? length (i_chunk_ it1)) = true \/ (o2 + k =? length (i_chunk_ it2)) = true)
      as [H|H] by (rewrite !Nat.eqb_eq; lia).
    + rewrite H in Hn1. destruct (o2 + k =? _); lia.
    + rewrite H in Hn2. destruct (o1 + k =? _); lia.
Qed.

Lemma mem_compare_spec mb1 off1 mb2 off2 len :
  mb_wf mb1 -> mb_wf mb2 -> 0 < len ->
  (Z.of_nat off1 + Z.of_nat len < 2 ^ 64)%Z -> (Z.of_nat off2 + Z.of_nat len < 2 ^ 64)%Z ->
  mem_compare mb1 off1 mb2 off2 len =
    Some (if decide (off1 + len <= length (data mb1) /\ off2 + len <= length (data mb2))
          then if bytes_eqb (take len (drop off1 (data mb1))) (take len (drop off2 (data mb2)))
               then 0%Z else 1%Z
          else EINVAL).
Proof.
  intros Hw1 Hw2 Hlen Hov1 Hov2. unfold mem_compare.
  pose proof (iterate_valid_init_spec mb1 off1 len Hw1 Hlen Hov1) as H1.
  pose proof (iterate_valid_init_spec mb2 off2 len Hw2 Hlen Hov2) as H2.
  destruct (decide (off1 + len <= length (data mb1))) as [Hle1|Hn1].
  2:{ rewrite H1. simpl. rewrite decide_False; [done|tauto]. }
  destruct H1 as (it1 & -> & Hi1 & Hl1 & Hr1). simpl.
  destruct (decide (off2 + len <= length (data mb2))) as [Hle2|Hn2].
  2:{ rewrite H2. simpl. rewrite decide_False; [done|tauto]. }
  destruct H2 as (it2 & -> & Hi2 & Hl2 & Hr2). simpl. rewrite decide_True by done.
  rewrite compare_loop_spec; rewrite ?drop_0, ?Hr1, ?Hr2, ?length_take, ?length_drop; try done; lia.
Qed.

Lemma compare_buffer_loop_spec fuel it buff off :
  iter_wf it -> length (i_nodes it) <= fuel -> off + i_len_ it <= length buff ->
  compare_buffer_loop fuel (Some it) buff (i_len_ it) off =
    (if bytes_eqb (iter_rest it) (take (i_len_ it) (drop off buff)) then 0%Z else 1%Z).
Proof.
  revert it off. induction fuel as [|fuel IH]; intros it off Hw Hf Hlen.
  { destruct (iwf_some _ Hw). apply nil_length_inv. lia. }
  cbn [compare_buffer_loop]. pose proof (iwf_chunk _ Hw) as Hc.
  pose proof (iter_rest_length it Hw) as Hrl.
  destruct (Nat.eqb_spec (i_len_ it) 0) as [Hz|Hz].
  { rewrite Hz in *. destruct (iter_rest it); [by rewrite take_0|done]. }
  rewrite Nat.min_r by done. set (k := length (i_chunk_ it)) in *.
  assert (take k (i_chunk_ it) = take k (iter_rest it)) as ->.
  { unfold iter_rest, k. by rewrite take_app_length, take_ge. }
  assert (take k (drop off buff) = take k (take (i_len_ it) (drop off buff))) as ->.
  { rewrite take_take. by replace (Nat.min k (i_len_ it)) with k by lia. }
  unfold bytes_eqb at 1. destruct (bool_decide_reflect (take k (iter_rest it) = take k (take (i_len_ it) (drop off buff))))
    as [Heq|Hne].
  2:{ unfold bytes_eqb. rewrite bool_decide_false; [done|]. intros H. apply Hne. by rewrite <- H. }
  assert (bytes_eqb (iter_rest it) (take (i_len_ it) (drop off buff)) =
          bytes_eqb (drop k (iter_rest it)) (take (i_len_ it - k) (drop (off + k) buff))) as ->.
  { unfold bytes_eqb. apply bool_decide_ext. rewrite (bytes_split_eq k), skipn_firstn_comm, drop_drop.
    tauto. }
  destruct (iter_next it) as [it'|] eqn:Hn.
  - destruct (iter_next_Some _ _ Hw Hn) as (Hw' & Hr & Hl & Hk). fold k in Hl, Hr.
    rewrite <- Hl, IH by (done || lia). by rewrite Hr.
  - apply iter_next_None in Hn; [|done]. fold k in Hn. rewrite drop_ge, Hn, Nat.sub_diag, take_0 by lia.
    by destruct fuel.
Qed.

Lemma mem_compare_buffer_spec mb off buff len :
  mb_wf mb -> (Z.of_nat off + Z.of_nat len < 2 ^ 64)%Z -> len <= length buff ->
  off + len <= length (data mb) ->
  mem_compare_buffer mb off buff len =
    Some (if bytes_eqb (take len (drop off (data mb))) (take len buff) then 0%Z else 1%Z).
Proof.
  intros Hw Hov Hb Hle. unfold mem_compare_buffer. destruct (decide (len = 0)) as [->|Hpos].
  { done. }
  pose proof (iterate_valid_init_spec mb off len Hw ltac:(lia) Hov) as H.
  rewrite decide_True in H by done. destruct H as (it & -> & Hi & Hl & Hr). simpl.
  rewrite <- Hl at 1. rewrite compare_buffer_loop_spec by (done || lia). by rewrite Hr, drop_0, Hl.
Qed.

(** ** Gathering and copying between Mbuffs *)

Lemma fill_iovec_loop_spec k it : iter_wf it ->
  exists w, concat (fill_iovec_loop k (Some it)) = w /\ w `prefix_of` iter_rest it /\
    (length (i_nodes it) <= k -> w = iter_rest it).
Proof.
  revert it. induction k as [|k IH]; intros it Hw.
  { exists []. split; [done|]. split; [apply prefix_nil|]. intros Hz. destruct (iwf_some _ Hw).
    apply nil_length_inv. lia. }
  cbn [fill_iovec_loop concat]. pose proof (iwf_chunk _ Hw) as Hc.
  assert (iter_rest it = i_chunk_ it ++ drop (length (i_chunk_ it)) (iter_rest it)) as Hsplit.
  { unfold iter_rest. by rewrite drop_app_length. }
  destruct (iter_next it) as [it'|] eqn:Hn.
  - destruct (iter_next_Some _ _ Hw Hn) as (Hw' & Hr & Hl & Hk).
    destruct (IH it' Hw') as (w & -> & Hpre & Hall). eexists. split; [done|].
    rewrite Hsplit, <- Hr. split; [by apply prefix_app|]. intros. rewrite Hall by lia. done.
  - apply iter_next_None in Hn; [|done]. exists (i_chunk_ it).
    rewrite Hsplit, (drop_ge (iter_rest it)) by (rewrite iter_rest_length by done; lia).
    split; [destruct k; apply app_nil_r|]. rewrite app_nil_r. done.
Qed.

Lemma fill_iovec_valid_spec mb off len iov_size :
  mb_wf mb -> 0 < len -> (Z.of_nat off + Z.of_nat len < 2 ^ 64)%Z -> off + len <= length (data mb) ->
  exists iov, fill_iovec_valid mb off len iov_size = Some (inr iov) /\
    concat iov `prefix_of` take len (drop off (data mb)).
Proof.
  intros Hw Hlen Hov Hle. unfold fill_iovec_valid.
  pose proof (iterate_valid_init_spec mb off len Hw Hlen Hov) as H.
  rewrite decide_True in H by done. destruct H as (it & -> & Hi & _ & Hr). simpl.
  destruct (fill_iovec_loop_spec iov_size it Hi) as (w & He & Hp & _).
  eexists. split; [done|]. rewrite He, <- Hr. done.
Qed.

Lemma append_mbuff_loop_spec fuel it mb len copied :
  iter_wf it -> mb_wf mb -> length (i_nodes it) <= fuel -> i_len_ it + copied <= len ->
  exists mb', append_mbuff_loop fuel (Some it) mb len copied = Some (copied + Nat.min (i_len_ it) (append_avail_size mb), mb') /\
    mb_wf mb' /\ data mb' = data mb ++ take (append_avail_size mb) (iter_rest it) /\
    buffers mb' ≡ₚ buffers mb /\ append_avail_size mb' = append_avail_size mb - i_len_ it.
Proof.
  revert it mb copied. induction fuel as [|fuel IH]; intros it mb copied Hw Hm Hf Hlen.
  { destruct (iwf_some _ Hw). apply nil_length_inv. lia. }
  cbn [append_mbuff_loop]. pose proof (iwf_chunk _ Hw) as Hc.
  rewrite Nat.min_r, take_ge by lia.
  destruct (append_from_buffer_spec mb (i_chunk_ it) Hm) as (mb1 & -> & Hm1 & Hd1 & Hb1 & Ha1).
  assert (iter_rest it = i_chunk_ it ++ drop (length (i_chunk_ it)) (iter_rest it)) as Hsplit.
  { unfold iter_rest. by rewrite drop_app_length. }
  destruct (iter_next it) as [it'|] eqn:Hn.
  - destruct (iter_next_Some _ _ Hw Hn) as (Hw' & Hr & Hl & Hk).
    destruct (IH it' mb1 (copied + Nat.min (length (i_chunk_ it)) (append_avail_size mb))) as (mb' & He & Hm' & Hd & Hb & Ha);
      [done|done|lia|lia|].
    exists mb'. rewrite He, Hd, Hd1, Hsplit, <- Hr, Hb, take_app, app_assoc, Ha, Ha1.
    split; [do 2 f_equal; lia|]. split; [done|]. split; [done|]. split; [done|lia].
  - apply iter_next_None in Hn; [|done]. exists mb1.
    rewrite Hd1, Hsplit, (drop_ge (iter_rest it)), app_nil_r, Hn by (rewrite iter_rest_length by done; lia).
    split; [by destruct fuel|done].
Qed.

Lemma append_from_mbuff_spec mb src off len :
  mb_wf mb -> mb_wf src -> (Z.of_nat off + Z.of_nat len < 2 ^ 64)%Z ->
  exists n mb', append_from_mbuff mb src off len = Some (n, mb') /\ mb_wf mb' /\ buffers mb' ≡ₚ buffers mb /\
    (if decide (off + len <= length (data src))
     then n = Nat.min len (append_avail_size mb) /\ data mb' = data mb ++ take n (drop off (data src)) /\
       append_avail_size mb' = append_avail_size mb - len
     else n = 0 /\ mb' = mb).
Proof.
  intros Hm Hs Hov. unfold append_from_mbuff. destruct (decide (len = 0)) as [->|Hpos].
  { exists 0, mb. rewrite take_0, app_nil_r. rewrite Nat.sub_0_r. by destruct (decide _). }
  pose proof (iterate_valid_init_spec src off len Hs ltac:(lia) Hov) as H. destruct (decide _) as [Hle|Hgt].
  - destruct H as (it & -> & Hi & Hl & Hr). simpl.
    destruct (append_mbuff_loop_spec (length (i_nodes it)) it mb len 0) as (mb' & He & Hm' & Hd & Hb & Ha); [done|done|done|lia|].
    rewrite Hl in *. eexists _, mb'. split; [done|]. split; [done|]. split; [done|]. split; [done|].
    split; [|done]. by rewrite Hd, Hr, take_take, Nat.min_comm.
  - rewrite H. exists 0, mb. done.
Qed.

(** ** Moving free buffers *)

Lemma move_free_loop_nodes fuel src dst moved max_size :
  mb_nodes (move_free_loop fuel src dst moved max_size).1.2 = mb_nodes dst.
Proof.
  revert src dst moved. induction fuel as [|fuel IH]; intros src dst moved; [done|].
  cbn [move_free_loop]. destruct (get_free_buff src) as [[[ptr buf]|] src']; [|done].
  destruct (_ <? _)%Z; [|done]. by rewrite IH.
Qed.

Lemma move_free_loop_spec fuel src dst moved max_size :
  mb_wf src -> mb_wf dst -> length (mb_free_ src) < fuel ->
  match move_free_loop fuel src dst moved max_size with
  | (src', dst', moved') => mb_wf src' /\ mb_wf dst' /\ data src' = data src /\ data dst' = data dst /\
      buffers src' ++ buffers dst' ≡ₚ buffers src ++ buffers dst /\
      get_free_size dst' + moved = get_free_size dst + moved' /\
      ((Z.of_nat moved' < max_size)%Z -> mb_free_ src' = [])
  end.
Proof.
  revert src dst moved. induction fuel as [|fuel IH]; intros src dst moved Hs Hd Hf; [lia|].
  cbn [move_free_loop]. unfold get_free_buff.
  destruct (get_free_node src) as [[n|] src'] eqn:Hg.
  - destruct (get_free_node_wf _ _ _ Hs Hg) as ((Hpos & _ & _) & Hno & Hfr & Hv & Hfs & Hs').
    set (dst' := add_buff dst (mb_ptr n) (mb_buff_ n)).
    assert (mb_wf dst') as Hd' by (by apply put_free_node_wf).
    assert (data src' = data src) as Hds by (unfold data; by rewrite Hno).
    assert (buffers src' ++ buffers dst' ≡ₚ buffers src ++ buffers dst) as Hb.
    { unfold buffers. rewrite Hno, Hfr. simpl. rewrite !fmap_app. simpl.
      change (node_id (Node (mb_ptr n) (mb_buff_ n) 0 0)) with (node_id n).
      by rewrite <- !Permutation_middle. }
    destruct (Z.ltb_spec (Z.of_nat (moved + length (mb_buff_ n))) max_size) as [Hlt|Hge].
    + pose proof (IH src' dst' (moved + length (mb_buff_ n)) Hs' Hd') as H.
      rewrite Hfr in Hf. simpl in Hf. specialize (H ltac:(lia)).
      destruct (move_free_loop _ _ _ _ _) as [[s2 d2] m2].
      destruct H as (H1 & H2 & H3 & H4 & H5 & H6 & H7).
      split; [done|]. split; [done|]. split; [by rewrite H3|]. split; [by rewrite H4|].
      split; [by rewrite H5|]. split; [|done]. unfold get_free_size in *.
      unfold dst', add_buff in H6. simpl in H6. unfold mb_buff_len_ in H6. simpl in H6. lia.
    + do 4 (split; [done|]). split; [done|]. split; [|lia].
      unfold get_free_size, dst', add_buff. simpl. unfold mb_buff_len_. simpl. lia.
  - unfold get_free_node in Hg. destruct (mb_free_ src) eqn:Hfr; simplify_eq.
    do 6 (split; [done|]). done.
Qed.

(** The buffers that move are the first ones of the free list. *)
Lemma move_free_loop_prefix fuel src dst moved max_size :
  exists l, mb_free_ src = l ++ mb_free_ (move_free_loop fuel src dst moved max_size).1.1 /\
    mb_nodes (move_free_loop fuel src dst moved max_size).1.1 = mb_nodes src.
Proof.
  revert src dst moved. induction fuel as [|fuel IH]; intros src dst moved; [by exists []|].
  cbn [move_free_loop]. unfold get_free_buff, get_free_node.
  destruct (mb_free_ src) as [|n r] eqn:Hf; [by exists []|]. destruct (_ <? _)%Z; [|by exists [n]].
  match goal with |- context [move_free_loop fuel ?a ?b ?c _] => destruct (IH a b c) as (l & Hl & Hn) end.
  exists (n :: l). cbn [mb_free_ mb_nodes] in *. by rewrite Hn, Hl at 1.
Qed.

(** ** The refinement *)

Inductive mb_op :=
  | OpAdd (ptr : Z) (buf : list Z)
  | OpTake
  | OpGive (dst : mbuff) (max_size : Z)
  | OpAppend (src : list Z)
  | OpAppendMbuff (src : mbuff) (off len : nat)
  | OpUninit (size : nat)
  | OpFill (size : nat) (val : Z)
  | OpPrepend (src : list Z)
  | OpReslice (len off : nat).

(** The value an operation returns, and the Mbuff after it; [get_free_buff]
    returns the address of the buffer, 0 for none. *)
Definition mb_step (op : mb_op) (mb : mbuff) : option (Z * mbuff) :=
  match op with
  | OpAdd ptr buf => Some (0%Z, add_buff mb ptr buf)
  | OpTake => let '(b, mb') := get_free_buff mb in Some (match b with Some (ptr, _) => ptr | None => 0%Z end, mb')
  | OpGive dst max_size => let '(mb', _, moved) := move_free_buffs_to mb dst max_size in Some (Z.of_nat moved, mb')
  | OpAppend src => (fun '(n, mb') => (Z.of_nat n, mb')) <$> append_from_buffer mb src
  | OpAppendMbuff src off len => (fun '(n, mb') => (Z.of_nat n, mb')) <$> append_from_mbuff mb src off len
  | OpUninit size => (fun mb' => (0%Z, mb')) <$> append_uninitialized mb size
  | OpFill size val => (fun mb' => (0%Z, mb')) <$> append_val mb size val
  | OpPrepend src => (fun '(n, mb') => (Z.of_nat n, mb')) <$> prepend_from_buffer mb src
  | OpReslice len off => reslice mb len off
  end.

(** What the callers guarantee: a buffer is not empty, an offset plus a length
    does not wrap, and the other Mbuff is one too. *)
Definition op_ok (op : mb_op) : Prop :=
  match op with
  | OpAdd _ buf => buf <> []
  | OpGive dst _ => mb_wf dst
  | OpAppendMbuff src off len => mb_wf src /\ (Z.of_nat off + Z.of_nat len < 2 ^ 64)%Z
  | OpReslice len off => (Z.of_nat off + Z.of_nat len < 2 ^ 64)%Z
  | _ => True
  end.

Definition added (op : mb_op) : list (Z * nat) :=
  match op with OpAdd ptr buf => [(ptr, length buf)] | _ => [] end.

(** The buffers an operation hands out: those that left the free list. *)
Definition handed (op : mb_op) (mb mb' : mbuff) : list (Z * nat) :=
  match op with
  | OpTake | OpGive _ _ => node_id <$> take (length (mb_free_ mb) - length (mb_free_ mb')) (mb_free_ mb)
  | _ => []
  end.

(** What a step does to the byte string, with the value it returns. *)
Definition flat_step (op : mb_op) (mb : mbuff) (r : Z) (mb' : mbuff) : Prop :=
  match op with
  | OpAdd _ _ => data mb' = data mb
  | OpTake => data mb' = data mb /\
      (mb_free_ mb = [] /\ r = 0%Z /\ mb' = mb \/ exists n, handed op mb mb' = [(r, n)])
  | OpGive dst max_size => data mb' = data mb /\
      exists n dst', r = Z.of_nat n /\ move_free_buffs_to mb dst max_size = (mb', dst', n) /\ mb_wf dst' /\
        data dst' = data dst /\ buffers dst' ≡ₚ handed op mb mb' ++ buffers dst /\
        get_free_size dst' = get_free_size dst + n /\ ((r < max_size)%Z -> mb_free_ mb' = [])
  | OpAppend src => exists n, r = Z.of_nat n /\ n <= length src /\
      data mb' = data mb ++ take n src /\ (n < length src -> append_avail_size mb' = 0)
  | OpAppendMbuff src off len =>
      if decide (off + len <= length (data src))
      then exists n, r = Z.of_nat n /\ n <= len /\
        data mb' = data mb ++ take n (drop off (data src)) /\ (n < len -> append_avail_size mb' = 0)
      else r = 0%Z /\ mb' = mb
  | OpUninit size => exists w, length w <= size /\ data mb' = data mb ++ w /\
      (length w < size -> append_avail_size mb' = 0)
  | OpFill size val => exists n, n <= size /\ data mb' = data mb ++ replicate n val /\
      (n < size -> append_avail_size mb' = 0)
  | OpPrepend src => exists n, r = Z.of_nat n /\ n = Nat.min (length src) (prepend_avail mb) /\
      data mb' = drop (length src - n) src ++ data mb
  | OpReslice len off =>
      if decide (off + len <= length (data mb))
      then r = 0%Z /\ data mb' = take len (drop off (data mb))
      else r = (-1)%Z /\ mb' = mb
  end.

(** The Mbuffs a program can build, with the buffers it gave to them and did not
    take back. *)
Inductive mb_reach : list (Z * nat) -> mbuff -> Prop :=
  | reach_empty : mb_reach [] mbuff_empty
  | reach_step bufs mb op r mb' bufs' :
      mb_reach bufs mb -> op_ok op -> mb_step op mb = Some (r, mb') ->
      handed op mb mb' ++ bufs' ≡ₚ added op ++ bufs ->
      mb_reach bufs' mb'.

Lemma take_step_spec mb : mb_wf mb ->
  exists r mb', mb_step OpTake mb = Some (r, mb') /\ mb_wf mb' /\ flat_step OpTake mb r mb' /\
    handed OpTake mb mb' ++ buffers mb' ≡ₚ buffers mb.
Proof.
  intros Hw. unfold mb_step, get_free_buff. destruct (get_free_node mb) as [[n|] mb'] eqn:Hg.
  - destruct (get_free_node_wf _ _ _ Hw Hg) as (_ & Hno & Hfr & _ & _ & Hw').
    assert (handed OpTake mb mb' = [node_id n]) as Hh.
    { unfold handed. rewrite Hfr. cbn [length]. by replace (S _ - _) with 1 by lia. }
    exists (mb_ptr n), mb'. split; [done|]. split; [done|]. unfold flat_step. rewrite Hh. split.
    + split; [unfold data; by rewrite Hno|]. right. by eexists.
    + unfold buffers. rewrite Hno, Hfr, !fmap_app. simpl. by rewrite <- Permutation_middle.
  - unfold get_free_node in Hg. destruct (mb_free_ mb) eqn:Hfr; simplify_eq.
    exists 0%Z, mb'. split; [done|]. split; [done|]. split; [split; [done|by left]|]. unfold handed. by rewrite Hfr.
Qed.

Lemma give_step_spec mb dst max_size : mb_wf mb -> mb_wf dst ->
  exists r mb', mb_step (OpGive dst max_size) mb = Some (r, mb') /\ mb_wf mb' /\
    flat_step (OpGive dst max_size) mb r mb' /\ handed (OpGive dst max_size) mb mb' ++ buffers mb' ≡ₚ buffers mb.
Proof.
  intros Hw Hd. cbn [mb_step flat_step]. unfold move_free_buffs_to.
  pose proof (move_free_loop_spec (S (length (mb_free_ mb))) mb dst 0 max_size Hw Hd ltac:(lia)) as H.
  destruct (move_free_loop_prefix (S (length (mb_free_ mb))) mb dst 0 max_size) as (l & Hl & Hn).
  destruct (move_free_loop _ _ _ _ _) as [[mb' dst'] moved]. cbn [fst] in *.
  destruct H as (Hw' & Hd' & Hdm & Hdd & Hb & Hfs & Hall).
  assert (handed (OpGive dst max_size) mb mb' = node_id <$> l) as Hh.
  { unfold handed. rewrite Hl, length_app. replace (_ + _ - _) with (length l) by lia. by rewrite take_app_length. }
  assert (buffers mb ≡ₚ (node_id <$> l) ++ buffers mb') as Hbm.
  { unfold buffers. rewrite Hn, Hl, !fmap_app. solve_Permutation. }
  exists (Z.of_nat moved), mb'. rewrite Hh. split; [done|]. split; [done|]. split; [|done]. split; [done|].
  exists moved, dst'. do 4 (split; [done|]). split; [|split; [lia|done]].
  apply (Permutation_app_inv_l (buffers mb')). rewrite Hb, Hbm. solve_Permutation.
Qed.

Lemma mb_step_spec op mb : mb_wf mb -> op_ok op ->
  exists r mb', mb_step op mb = Some (r, mb') /\ mb_wf mb' /\ flat_step op mb r mb' /\
    handed op mb mb' ++ buffers mb' ≡ₚ added op ++ buffers mb.
Proof.
  intros Hw Hok. destruct op as [ptr buf| |dst max_size|src|src off len|size|size val|src|len off];
    [|by apply take_step_spec|by apply give_step_spec|..]; cbn [mb_step flat_step op_ok handed added app] in *.
  - eexists _, _. split; [done|]. split; [|split; [done|]].
    + apply put_free_node_wf; [done|]. split; [|done]. unfold mb_buff_len_. simpl.
      destruct buf; [done|simpl; lia].
    + unfold buffers. simpl. rewrite !fmap_app. simpl. by rewrite <- Permutation_middle.
  - destruct (append_from_buffer_spec mb src Hw) as (mb' & He & Hw' & Hd & Hb & Ha). rewrite He.
    eexists _, mb'. split; [done|]. split; [done|]. split; [|done]. eexists. split; [done|].
    split; [lia|]. split; [|lia]. rewrite Hd. f_equal.
    destruct (decide (length src <= append_avail_size mb)); [by rewrite Nat.min_l, !take_ge by lia|].
    by rewrite Nat.min_r by lia.
  - destruct Hok as [Hs Hov]. destruct (append_from_mbuff_spec mb src off len Hw Hs Hov) as (n & mb' & He & Hw' & Hb & H).
    rewrite He. eexists _, mb'. split; [done|]. split; [done|]. split; [|done].
    destruct (decide _); [|by destruct H as [-> ->]]. destruct H as (-> & Hd & Ha). eexists. split; [done|].
    split; [lia|]. split; [done|lia].
  - destruct (append_uninitialized_spec mb size Hw) as (mb' & w & He & Hw' & Hd & Hl & Hb & Ha). rewrite He.
    eexists _, mb'. split; [done|]. split; [done|]. split; [|done]. exists w. split; [lia|]. split; [done|lia].
  - destruct (append_val_spec mb size val Hw) as (mb' & He & Hw' & Hd & Hb & Ha). rewrite He.
    eexists _, mb'. split; [done|]. split; [done|]. split; [|done].
    exists (Nat.min (append_avail_size mb) size). split; [lia|]. split; [done|lia].
  - destruct (prepend_from_buffer_spec mb src Hw) as (mb' & He & Hw' & Hd & Hb). rewrite He.
    eexists _, mb'. split; [done|]. split; [done|]. split; [|done]. eexists. split; [done|].
    split; [done|]. rewrite Hd. do 2 f_equal. lia.
  - destruct (decide (off + len <= length (data mb))) as [Hle|Hgt].
    + destruct (reslice_spec mb len off Hw Hok Hle) as (mb' & He & Hw' & Hd & Hb).
      eexists _, mb'. done.
    + rewrite reslice_refused by (done || lia). eexists _, mb. done.
Qed.

Lemma mb_reach_wf bufs mb : mb_reach bufs mb -> mb_wf mb /\ buffers mb ≡ₚ bufs.
Proof.
  induction 1 as [|bufs mb op r mb' bufs' _ [Hw Hb] Hok He Hp]; [done|].
  destruct (mb_step_spec op mb Hw Hok) as (r' & mb2 & He2 & Hw2 & _ & Hb2).
  rewrite He in He2. simplify_eq. split; [done|]. apply (Permutation_app_inv_l (handed op mb mb2)).
  by rewrite Hb2, Hp, Hb.
Qed.


(** Two buffers of four bytes holding [1 .. 6], after a third was taken back. *)
Definition two_buffers : option mbuff :=
  mb1 ← snd <$> mb_step (OpAdd 4096 (replicate 4 0%Z)) mbuff_empty;
  mb2 ← snd <$> mb_step (OpAdd 8192 (replicate 4 0%Z)) mb1;
  mb3 ← snd <$> mb_step (OpAdd 12288 (replicate 4 0%Z)) mb2;
  mb4 ← snd <$> mb_step OpTake mb3;
  snd <$> mb_step (OpAppend [1; 2; 3; 4; 5; 6]%Z) mb4.


(** Comparing [len > 0] bytes of two Mbuffs gives 0 exactly when the bytes
    are equal, however the two are cut into buffers, 1 when they differ, and
    EINVAL when a range leaves the valid data. *)
Theorem mem_compare_decides (mb1 mb2 : mbuff) (off1 off2 len : nat) :
  mb_wf mb1 -> mb_wf mb2 -> 0 < len ->
  (Z.of_nat off1 + Z.of_nat len < 2 ^ 64)%Z -> (Z.of_nat off2 + Z.of_nat len < 2 ^ 64)%Z ->
  mem_compare mb1 off1 mb2 off2 len =
    Some (if decide (off1 + len <= length (data mb1) /\ off2 + len <= length (data mb2))
          then if decide (take len (drop off1 (data mb1)) = take len (drop off2 (data mb2)))
               then 0%Z else 1%Z
          else EINVAL).
Proof.
  intros. rewrite mem_compare_spec by done. unfold bytes_eqb. f_equal.
  destruct (decide (_ /\ _)); [|done]. destruct (decide (take _ _ = take _ _)) as [H'|H'].
  - by rewrite bool_decide_true.
  - by rewrite bool_decide_false.
Qed.

(** [1 2 3 4] in one buffer, and behind one other byte across two buffers. *)
Definition one_piece : mbuff := Mbuff 4 [Node 1 [1; 2; 3; 4]%Z 0 4] 0 0 [].
Definition two_pieces : mbuff := Mbuff 5 [Node 2 [9; 1; 2]%Z 0 3; Node 3 [3; 4; 7]%Z 0 2] 0 0 [].

Lemma mem_compare_decides_witness : mem_compare one_piece 0 two_pieces 1 4 = Some 0%Z.
Proof.
  rewrite (mem_compare_decides one_piece two_pieces 0 1 4).
  - reflexivity.
  - split; [|constructor|reflexivity..]. repeat constructor; simpl; lia.
  - split; [|constructor|reflexivity..]. repeat constructor; simpl; lia.
  - lia.
  - lia.
  - lia.
Defined.

(** With a length of zero both iterators stay invalid, and [mem_compare] then
    advances one of them, which dereferences a null node. *)
Lemma mem_compare_empty (mb1 mb2 : mbuff) (off1 off2 : nat) :
  mem_compare mb1 off1 mb2 off2 0 = None.
Proof. reflexivity. Qed.

(** What was appended to an Mbuff with room for it is read back unchanged
    by [copy_to_buffer], after the data that was there before. *)
Theorem append_copy_roundtrip (mb : mbuff) (src : list Z) :
  mb_wf mb -> length src <= append_avail_size mb ->
  exists mb', append_from_buffer mb src = Some (length src, mb') /\
    copy_to_buffer mb' (length (data mb)) (length src) = Some src /\
    copy_to_buffer mb' 0 (length (data mb)) = copy_to_buffer mb 0 (length (data mb)).
Proof.
  intros Hw Hav. destruct (append_from_buffer_spec mb src Hw) as (mb' & He & Hw' & Hd & _ & _).
  rewrite Nat.min_l in He by lia. rewrite take_ge in Hd by lia. exists mb'. split; [done|].
  rewrite !copy_to_buffer_spec by done. rewrite Hd, drop_app_length, !drop_0, take_app_length.
  rewrite !take_ge by lia. done.
Qed.

Lemma append_copy_roundtrip_witness :
  exists mb', append_from_buffer (add_buff one_piece 5 (replicate 8 0%Z)) [5; 6]%Z = Some (2, mb') /\
    copy_to_buffer mb' 4 2 = Some [5; 6]%Z /\
    copy_to_buffer mb' 0 4 = copy_to_buffer (add_buff one_piece 5 (replicate 8 0%Z)) 0 4.
Proof.
  apply (append_copy_roundtrip (add_buff one_piece 5 (replicate 8 0%Z)) [5; 6]%Z).
  - split; [|repeat constructor; simpl; lia|reflexivity..]. repeat constructor; simpl; lia.
  - vm_compute. lia.
Defined.
