(* ===== verification/MbuffHead.v ===== *)
(** * MbuffHead: where the first bytes of an Mbuff lie

    An Mbuff that was only appended to and cut at its end keeps its data flush
    with the start of its first buffer, and starts a second buffer only when the
    first is full.  So with buffers of [N] bytes or more, the first [N] bytes are
    in one piece: what the record code needs to write a header before them and a
    checksum behind them in place. *)
From Stdlib Require Import ZArith Lia.
From stdpp Require Import base tactics list numbers.
From S2P Require Import Prelude Util Mbuff MbuffSpec.

Local Open Scope nat_scope.

Definition head_flush (l : list node) : Prop :=
  match l with
  | [] => True
  | n :: r => mb_off_ n = 0 /\ (r <> [] -> append_space n = 0)
  end.

(** Flush, and every buffer, in use or free, has [N] bytes at least. *)
Definition roomy (N : nat) (mb : mbuff) : Prop :=
  head_flush (mb_nodes mb) /\ Forall (fun b : Z * nat => N <= b.2) (buffers mb).

Lemma append_prepare_flush mb : Forall node_fresh (mb_free_ mb) -> head_flush (mb_nodes mb) ->
  head_flush (mb_nodes (snd (append_prepare mb))).
Proof.
  intros Hf Hh. unfold append_prepare. destruct (append_prepare_inline mb) as [c|] eqn:Hi; [done|].
  unfold get_free_node. destruct (mb_free_ mb) as [|n r] eqn:Hfree; [done|].
  apply Forall_cons_iff in Hf as [(_ & Hoff & _) _]. simpl. unfold append_prepare_inline in Hi.
  destruct (mb_nodes mb) as [|n0 [|n1 l]]; simpl in *; [done| |].
  - destruct Hh as [Ho _]. split; [done|]. intros _. destruct (Nat.ltb_spec 0 (append_space n0)); [done|lia].
  - destruct Hh as [Ho Hs]. split; [done|]. intros _. by apply Hs.
Qed.

Lemma append_finalize_flush mb c k : head_flush (mb_nodes mb) ->
  head_flush (mb_nodes (append_finalize mb c k)).
Proof.
  intros Hh. unfold append_finalize. cbn [mb_nodes add_valid set_nodes].
  destruct (mb_nodes mb) as [|n0 [|n1 l]]; [done| |]; cbn [alter_last head_flush] in *.
  - split; [apply Hh|done].
  - destruct Hh as [Ho Hs]. split; [done|]. intros _. by apply Hs.
Qed.

Lemma append_loop_flush {S} (f : chunk_fn S) I J X fuel st acc mb st' mb' :
  chunk_inv f I J X -> mb_wf mb -> I st acc -> head_flush (mb_nodes mb) ->
  append_loop f fuel st mb = Some (st', mb') -> head_flush (mb_nodes mb').
Proof.
  intros Hf. revert st acc mb. induction fuel as [|fuel IH]; intros st acc mb Hw HI Hh; [done|].
  cbn [append_loop]. pose proof (append_prepare_spec mb Hw) as Hp.
  pose proof (append_prepare_flush mb (mwf_free _ Hw) Hh) as Hfl.
  destruct (append_prepare mb) as [[c|] mb1]; [|by intros [= _ <-]].
  destruct Hp as (l & t & Hn & -> & [Hs _] & Hw1 & _). simpl in Hfl.
  pose proof (append_chunk_length t (wf_last _ _ _ Hw1 Hn)) as Hcl.
  pose proof (Hf st acc (get_append_chunk t) HI ltac:(lia)) as Hstep.
  destruct (f st (get_append_chunk t)) as [[st1 c'] k]. destruct Hstep as (Hk & Hc & HI' & _).
  pose proof (append_finalize_flush mb1 c' k Hfl) as Hfl2.
  destruct (append_finalize_spec mb1 l t c' k Hw1 Hn Hs) as (Hw2 & _); [lia|lia|].
  destruct (_ || _); [by intros [= _ <-]|]. by apply (IH st1 (acc ++ take k c')).
Qed.

Lemma append_flush {S} (f : chunk_fn S) I J X st acc mb st' mb' :
  chunk_inv f I J X -> mb_wf mb -> I st acc -> head_flush (mb_nodes mb) ->
  append f st mb = Some (st', mb') -> head_flush (mb_nodes mb').
Proof. apply append_loop_flush. Qed.

Lemma free_nodes_nodes l mb : mb_nodes (free_nodes mb l) = mb_nodes mb.
Proof. revert mb. induction l as [|n l IH]; intros mb; [done|]. simpl. by rewrite IH. Qed.

Lemma reslice_tail_flush l len kept rest :
  head_flush l -> reslice_tail l len = Some (kept, rest) -> head_flush kept.
Proof.
  intros Hh. destruct l as [|n r]; [done|]. cbn [reslice_tail].
  destruct (len <=? mb_len_ n); [intros [= <- _]; by split; [apply Hh|]|].
  destruct (reslice_tail r _) as [[kept1 rest1]|] eqn:Ht; [|done]. intros [= <- _].
  destruct Hh as [Ho Hs]. split; [done|]. intros _. apply Hs. by destruct r.
Qed.

Lemma reslice_prefix_flush mb len e mb' :
  head_flush (mb_nodes mb) -> reslice mb len 0 = Some (e, mb') -> head_flush (mb_nodes mb').
Proof.
  intros Hh. unfold reslice. destruct (_ <? _)%Z; [by intros [= _ <-]|].
  destruct (len =? 0); [by intros [= _ <-]|].
  destruct (mb_nodes mb) as [|n r] eqn:Hn; [intros [= _ <-]; by rewrite Hn|]. cbn [reslice_head].
  destruct (reslice_tail (n :: r) len) as [[kept rest]|] eqn:Ht; [|done]. intros [= _ <-].
  cbn [mb_nodes]. rewrite free_nodes_nodes. by apply (reslice_tail_flush (n :: r) len kept rest).
Qed.

Lemma roomy_perm N mb mb' : buffers mb' ≡ₚ buffers mb -> head_flush (mb_nodes mb') ->
  roomy N mb -> roomy N mb'.
Proof. intros Hp Hh [_ Hf]. split; [done|]. by rewrite Hp. Qed.

(** Keeping [len] bytes of the first buffer from [off] on leaves the rest of the
    buffer for appending and [off] bytes for prepending. *)
Lemma reslice_in_head N mb len off :
  mb_wf mb -> roomy N mb -> 0 < len -> off + len <= N -> off + len <= length (data mb) ->
  (Z.of_nat N < 2 ^ 64)%Z ->
  exists mb' n, reslice mb len off = Some (0%Z, mb') /\ mb_nodes mb' = [n] /\ mb_off_ n = off /\
    mb_len_ n = len /\ N <= mb_buff_len_ n.
Proof.
  intros Hw [Hh HN] Hlen Hoff Hd Hov. unfold reslice. rewrite data_length in Hd by done.
  rewrite wrap_small by (split; lia).
  destruct (Z.ltb_spec (Z.of_nat (mb_valid_size_ mb)) (Z.of_nat off + Z.of_nat len)); [lia|].
  destruct (Nat.eqb_spec len 0) as [|_]; [lia|]. pose proof (mwf_valid_size _ Hw) as Hv.
  unfold compute_valid_size in Hv.
  destruct (mb_nodes mb) as [|n r] eqn:Hn; [simpl in Hv; lia|].
  assert (N <= mb_buff_len_ n) as HNn.
  { unfold buffers in HN. rewrite Hn in HN. apply Forall_cons_iff in HN as [HN _]. exact HN. }
  assert (off + len <= mb_len_ n) as Hln.
  { destruct Hh as [Ho Hs]. destruct r as [|n1 r]; [simpl in Hv; lia|].
    specialize (Hs ltac:(done)). unfold append_space in Hs. lia. }
  destruct Hh as [Ho _].
  assert (reslice_head (n :: r) off mb =
    Some (Node (mb_ptr n) (mb_buff_ n) (mb_off_ n + off) (mb_len_ n - off) :: r, mb)) as ->.
  { destruct off as [|off]; cbn [reslice_head].
    - rewrite Nat.add_0_r, Nat.sub_0_r. by destruct n.
    - destruct (Nat.ltb_spec (S off) (mb_len_ n)); [done|lia]. }
  cbn [reslice_tail mb_len_]. destruct (Nat.leb_spec len (mb_len_ n - off)); [|lia].
  eexists _, _. split; [done|]. cbn [mb_nodes]. rewrite free_nodes_nodes. cbn [mb_nodes set_nodes].
  split; [done|]. cbn [mb_off_ mb_len_]. rewrite Ho. split; [lia|done].
Qed.
