(* ===== verification/StoreFormat.v ===== *)
(** * StoreFormat: the on-device record (include/uDepot/lsa/store.hh, udepot-lsa.hh)

    A key-value pair is stored at a grain as a packed 14-byte header (key size,
    value size, timestamp of the segment), the key, the value, a 2-byte checksum
    and padding up to a grain.  The device is its bytes; a read and a write act
    on a range of them. *)
From Stdlib Require Import ZArith Lia.
From stdpp Require Import base tactics list numbers.
From S2P Require Import Prelude Util.

Open Scope Z_scope.

(** ** Little-endian words *)

Fixpoint le_bytes (n : nat) (x : Z) : list Z :=
  match n with
  | O => []
  | S n' => x mod 256 :: le_bytes n' (x / 256)
  end.

Fixpoint le_val (bs : list Z) : Z :=
  match bs with
  | [] => 0
  | b :: r => b + 256 * le_val r
  end.

(** ** The header and the suffix *)

Record store_header := mkHeader { key_size : Z; val_size : Z; timestamp : Z }.

Definition header_zero : store_header := mkHeader 0 0 0.

Definition sizeof_store : nat := 14.
Definition sizeof_suffix : nat := 2.

Definition putKeyvalPrefixSize : nat := sizeof_store.
Definition putKeyvalSuffixSize : nat := sizeof_suffix.

Definition header_bytes (md : store_header) : list Z :=
  le_bytes 2 (key_size md) ++ le_bytes 4 (val_size md) ++ le_bytes 8 (timestamp md).

(** [copy_to_buffer(0, &md, sizeof(md))] of the first bytes of a record. *)
Definition header_of (bs : list Z) : store_header :=
  mkHeader (le_val (take 2 bs)) (le_val (take 4 (drop 2 bs))) (le_val (take 8 (drop 6 bs))).

(** ** Sizes, in the widths the source computes them in *)

Section Sizes.
Context (grain_size : Z).

(** The two [u32] arguments are added as [u32] before they meet a [size_t]. *)
Definition kv_tot_raw_bytes_get (ks vs : Z) : Z :=
  u64 (u64 (u32 (u32 vs + u32 ks) + Z.of_nat sizeof_store) + Z.of_nat sizeof_suffix).

Definition kv_tot_grains_get (ks vs : Z) : Z :=
  udiv_round_up (kv_tot_raw_bytes_get ks vs) grain_size.

Definition kv_tot_bytes_get (ks vs : Z) : Z := u64 (grain_size * kv_tot_grains_get ks vs).

Definition kv_raw_bytes_get (ks vs : Z) : Z := u32 (u32 vs + u32 ks).

End Sizes.

(** ** The device *)

Definition device : Type := Z -> Z.

Definition dev_read (dev : device) (off : Z) (n : nat) : list Z :=
  (fun i => dev (off + Z.of_nat i)) <$> seq 0 n.

Definition dev_write (dev : device) (off : Z) (bs : list Z) : device := fun o =>
  if (off <=? o) && (o <? off + Z.of_nat (length bs))
  then nth (Z.to_nat (o - off)) bs 0 else dev o.

(** ** Facts *)

Definition bytes_ok (bs : list Z) : Prop := Forall (fun b => 0 <= b < 256) bs.

Lemma le_bytes_length n x : length (le_bytes n x) = n.
Proof. revert x. induction n as [|n IH]; intros x; [done|]. simpl. by rewrite IH. Qed.

Lemma le_bytes_ok n x : bytes_ok (le_bytes n x).
Proof.
  revert x. induction n as [|n IH]; intros x; [constructor|].
  constructor; [apply Z.mod_pos_bound; lia|apply IH].
Qed.

Lemma le_val_bytes n x : in_width (8 * Z.of_nat n) x -> le_val (le_bytes n x) = x.
Proof.
  revert x. induction n as [|n IH]; intros x [H0 H1]; [simpl in *; lia|].
  cbn [le_bytes le_val]. rewrite IH.
  - pose proof (Z.div_mod x 256 ltac:(lia)). lia.
  - replace (8 * Z.of_nat (S n)) with (8 + 8 * Z.of_nat n) in H1 by lia.
    rewrite Z.pow_add_r in H1 by lia. change (2 ^ 8) with 256 in H1.
    split; [apply Z.div_pos; lia|]. apply Z.div_lt_upper_bound; lia.
Qed.

Lemma le_val_range bs : bytes_ok bs -> in_width (8 * Z.of_nat (length bs)) (le_val bs).
Proof.
  induction 1 as [|b r Hb _ IH]; [done|]. cbn [le_val length].
  replace (8 * Z.of_nat (S (length r))) with (8 + 8 * Z.of_nat (length r)) by lia.
  destruct IH as [H0 H1]. split; [lia|]. rewrite Z.pow_add_r by lia.
  change (2 ^ 8) with 256. lia.
Qed.

Record header_wf (md : store_header) : Prop := {
  hw_key : in_width 16 (key_size md);
  hw_val : in_width 32 (val_size md);
  hw_ts : in_width 64 (timestamp md)
}.

Lemma header_bytes_length md : length (header_bytes md) = sizeof_store.
Proof. done. Qed.

(** A record that starts with the header of [md] decodes to it. *)
Lemma header_of_bytes md rest : header_wf md -> header_of (header_bytes md ++ rest) = md.
Proof.
  intros [Hk Hv Ht]. destruct md as [ks vs ts]. simpl in Hk, Hv, Ht. unfold header_of, header_bytes.
  cbn [key_size val_size timestamp]. rewrite <- !app_assoc.
  rewrite (take_app_length' (le_bytes 2 ks)) by done.
  rewrite (drop_app_length' (le_bytes 2 ks)) by done.
  rewrite (take_app_length' (le_bytes 4 vs)) by done.
  rewrite (app_assoc (le_bytes 2 ks)), (drop_app_length' (le_bytes 2 ks ++ le_bytes 4 vs)) by done.
  rewrite (take_app_length' (le_bytes 8 ts)) by done.
  by rewrite !le_val_bytes.
Qed.

Lemma dev_read_length dev off n : length (dev_read dev off n) = n.
Proof. unfold dev_read. by rewrite length_fmap, length_seq. Qed.

Lemma dev_read_app dev off n m :
  dev_read dev off (n + m) = dev_read dev off n ++ dev_read dev (off + Z.of_nat n) m.
Proof.
  unfold dev_read. rewrite seq_app, fmap_app. f_equal.
  replace (0 + n)%nat with (n + 0)%nat by lia.
  rewrite <- (fmap_add_seq n 0 m), <- list_fmap_compose. apply list_fmap_ext.
  intros i x _. simpl. f_equal. lia.
Qed.

Lemma dev_read_take dev off n k : (k <= n)%nat -> take k (dev_read dev off n) = dev_read dev off k.
Proof.
  intros Hk. replace n with (k + (n - k))%nat by lia. rewrite dev_read_app.
  apply take_app_length'. by rewrite dev_read_length.
Qed.

Lemma dev_read_drop dev off n k :
  (k <= n)%nat -> drop k (dev_read dev off n) = dev_read dev (off + Z.of_nat k) (n - k).
Proof.
  intros Hk. replace n with (k + (n - k))%nat at 1 by lia. rewrite dev_read_app.
  apply drop_app_length'. by rewrite dev_read_length.
Qed.

(** Reading what was written. *)
Lemma dev_read_write_same dev off bs : dev_read (dev_write dev off bs) off (length bs) = bs.
Proof.
  apply list_eq. intros i. unfold dev_read. rewrite list_lookup_fmap.
  destruct (decide (i < length bs)%nat) as [Hi|Hi].
  - rewrite lookup_seq_lt by done. simpl. unfold dev_write.
    rewrite (proj2 (Z.leb_le off _)), (proj2 (Z.ltb_lt _ (off + _))) by lia. simpl.
    replace (off + Z.of_nat i - off) with (Z.of_nat i) by lia. rewrite Nat2Z.id.
    destruct (lookup_lt_is_Some_2 bs i Hi) as [b Hb]. rewrite Hb.
    f_equal. by apply nth_lookup_Some.
  - rewrite lookup_seq_ge by lia. symmetry. apply lookup_ge_None_2. lia.
Qed.

(** Reading elsewhere. *)
Lemma dev_read_write_other dev off bs off' n :
  off' + Z.of_nat n <= off \/ off + Z.of_nat (length bs) <= off' ->
  dev_read (dev_write dev off bs) off' n = dev_read dev off' n.
Proof.
  intros Hdis. unfold dev_read. apply list_fmap_ext. intros i x Hx.
  apply lookup_seq in Hx as [-> Hi]. unfold dev_write.
  destruct (Z.leb_spec off (off' + Z.of_nat (0 + i))); [|done].
  destruct (Z.ltb_spec (off' + Z.of_nat (0 + i)) (off + Z.of_nat (length bs))); [lia|done].
Qed.
