(* ===== verification/Metadata.v ===== *)
(** * Metadata: what the store keeps on the device about itself
      (uDepot/lsa/metadata.hh, metadata.cc, usalsa++/SalsaMD.hh)

    The last bytes of the device describe the store; the last grains of every
    segment say when, by whom and with which geometry the segment was written.
    Both are checksummed with zlib's [crc32], a parameter.  Every operation takes
    what the I/O call returned; the padding it writes is whatever the stack
    held, an argument too. *)
From Stdlib Require Import ZArith Lia.
From stdpp Require Import base tactics list numbers.
From S2P Require Import Prelude Util StoreFormat.

Open Scope Z_scope.

Inductive uDepotSalsaType := KV | Directory.

#[global] Instance uDepotSalsaType_eq : EqDecision uDepotSalsaType.
Proof. solve_decision. Defined.

Definition type_id (t : uDepotSalsaType) : Z := match t with KV => 0 | Directory => 1 end.

Record salsa_dev_md := mkDevMd {
  dm_physical_size : Z;
  dm_logical_size : Z;
  dm_segment_size : Z;
  dm_grain_size : Z;
  dm_seed : Z;
  dm_csum : Z
}.

Record salsa_seg_md := mkSegMd {
  sm_segment_size : Z;
  sm_grain_size : Z;
  sm_timestamp : Z;
  sm_seed : Z;
  sm_ctlr_type : Z;
  sm_csum : Z;
  sm_write_nr : Z;
  sm_reloc_nr : Z
}.

(** ** The packed structs *)

(** A packed struct is its fields, each with a width in bytes. *)
Fixpoint pack (fields : list (nat * Z)) : list Z :=
  match fields with
  | [] => []
  | (n, x) :: fields' => le_bytes n x ++ pack fields'
  end.

Fixpoint unpack (widths : list nat) (bs : list Z) : list Z :=
  match widths with
  | [] => []
  | n :: widths' => le_val (take n bs) :: unpack widths' (drop n bs)
  end.

(** The bytes of a struct before its [csum] member. *)
Definition dev_md_head (d : salsa_dev_md) : list Z :=
  pack [(8%nat, dm_physical_size d); (8%nat, dm_logical_size d); (8%nat, dm_segment_size d);
        (8%nat, dm_grain_size d); (8%nat, dm_seed d)].
Definition seg_md_head (m : salsa_seg_md) : list Z :=
  pack [(8%nat, sm_segment_size m); (8%nat, sm_grain_size m); (8%nat, sm_timestamp m);
        (8%nat, sm_seed m); (1%nat, sm_ctlr_type m)].

Definition dev_md_bytes (d : salsa_dev_md) : list Z := dev_md_head d ++ le_bytes 4 (dm_csum d).
Definition seg_md_bytes (m : salsa_seg_md) : list Z :=
  seg_md_head m ++ pack [(4%nat, sm_csum m); (8%nat, sm_write_nr m); (8%nat, sm_reloc_nr m)].

Definition sizeof_dev_md : nat := 44.
Definition sizeof_seg_md : nat := 53.

Definition dev_md_of (bs : list Z) : option salsa_dev_md :=
  match unpack [8; 8; 8; 8; 8; 4]%nat bs with
  | [p; l; s; g; sd; c] => Some (mkDevMd p l s g sd c)
  | _ => None
  end.
Definition seg_md_of (bs : list Z) : option salsa_seg_md :=
  match unpack [8; 8; 8; 8; 1; 4; 8; 8]%nat bs with
  | [s; g; t; sd; ty; c; w; r] => Some (mkSegMd s g t sd ty c w r)
  | _ => None
  end.

Definition set_dev_csum (c : Z) (d : salsa_dev_md) : salsa_dev_md :=
  mkDevMd (dm_physical_size d) (dm_logical_size d) (dm_segment_size d) (dm_grain_size d) (dm_seed d) c.
Definition set_seg_csum (c : Z) (m : salsa_seg_md) : salsa_seg_md :=
  mkSegMd (sm_segment_size m) (sm_grain_size m) (sm_timestamp m) (sm_seed m) (sm_ctlr_type m) c
          (sm_write_nr m) (sm_reloc_nr m).
Definition set_seg_stamp (ts ty : Z) (m : salsa_seg_md) : salsa_seg_md :=
  mkSegMd (sm_segment_size m) (sm_grain_size m) ts (sm_seed m) ty (sm_csum m)
          (sm_write_nr m) (sm_reloc_nr m).

Definition seed_g : Z := 0xDEADBEEF.

(** ** [uDepotSalsaMD] *)

Record MD := mkMD {
  seed_m : Z;
  grain_size_m : Z;
  restored_m : bool;
  dev_md_m : salsa_dev_md;
  seg_md_m : salsa_seg_md;
  seg_ts_m : list Z
}.

Definition dev_md_zero : salsa_dev_md := mkDevMd 0 0 0 0 0 0.
Definition seg_md_zero : salsa_seg_md := mkSegMd 0 0 0 0 0 0 0 0.

(** [sec] is the clock's [tv_sec]; [restored_m] is not initialised. *)
Definition MD_new (grain_size sec : Z) (restored : bool) : MD :=
  mkMD sec grain_size restored dev_md_zero seg_md_zero [].

Section MD.
Context (crc32 : Z -> list Z -> Z).    (** zlib *)
Context (io_size : Z).                 (** [udepot_io_m.get_size()] *)

(** [x] aligned up to a grain, less [x]: the padding of a struct of [x] bytes. *)
Definition pad_b (m : MD) (x : nat) : nat :=
  Z.to_nat (u32 (align_up (Z.of_nat x) (grain_size_m m) - Z.of_nat x)).

Definition dev_md_grain_offset (m : MD) : Z :=
  let dev_md_grain_nr := align_up (Z.of_nat sizeof_dev_md) (grain_size_m m) in
  let dev_size_grain_nr := align_down io_size (grain_size_m m) in
  if dev_md_grain_nr <? dev_size_grain_nr then dev_size_grain_nr - dev_md_grain_nr else 0.

(** [None] is the division by zero. *)
Definition init_md (dev_md : salsa_dev_md) (m : MD) : option MD :=
  let d := u64 (dm_segment_size dev_md * dm_grain_size dev_md) in
  if d =? 0 then None
  else
    let seg_nr := dm_physical_size dev_md / d in
    Some (mkMD (dm_seed dev_md) (dm_grain_size dev_md) (negb (seed_m m =? dm_seed dev_md)) dev_md
            (mkSegMd (dm_segment_size dev_md) (dm_grain_size dev_md) (sm_timestamp (seg_md_m m))
                     (dm_seed dev_md) (sm_ctlr_type (seg_md_m m)) (sm_csum (seg_md_m m))
                     (sm_write_nr (seg_md_m m)) (sm_reloc_nr (seg_md_m m)))
            (replicate (Z.to_nat seg_nr) 0)).

(** [crc32] of the bytes under the seed, then of the constant. *)
Definition md_csum (seed : Z) (head : list Z) : Z :=
  u32 (crc32 (u32 (crc32 seed head)) (le_bytes 4 seed_g)).

(** [n] is what [preadv] returned. *)
Definition validate_dev_md (n : Z) (dev : device) (m : MD) : option salsa_dev_md :=
  if negb (n =? Z.of_nat (sizeof_dev_md + pad_b m sizeof_dev_md)) then None
  else
    dev_md ← dev_md_of (dev_read dev (dev_md_grain_offset m) sizeof_dev_md);
    if md_csum (dm_seed dev_md) (dev_md_head dev_md) =? dm_csum dev_md then Some dev_md else None.

Definition read_seg_md (n : Z) (grain : Z) (dev : device) (m : MD) : option salsa_seg_md :=
  let byte_offset := u64 (grain * grain_size_m m) in
  if negb (n =? Z.of_nat (sizeof_seg_md + pad_b m sizeof_seg_md)) then None
  else seg_md_of (dev_read dev byte_offset sizeof_seg_md).

Definition validate_seg_md (seg_md : salsa_seg_md) (ctlr_type : uDepotSalsaType) (m : MD) : bool :=
  (md_csum (sm_seed seg_md) (seg_md_head seg_md) =? sm_csum seg_md) &&
  (sm_seed seg_md =? dm_seed (dev_md_m m)) && (type_id ctlr_type =? sm_ctlr_type seg_md) &&
  (sm_segment_size seg_md =? dm_segment_size (dev_md_m m)) &&
  (sm_grain_size seg_md =? dm_grain_size (dev_md_m m)).

(** The overload that reads the segment's metadata itself. *)
Definition validate_seg_md_at (n grain : Z) (ctlr_type : uDepotSalsaType) (dev : device) (m : MD) : bool :=
  match read_seg_md n grain dev m with
  | None => false
  | Some seg_md => validate_seg_md seg_md ctlr_type m
  end.

(** The prefix of [bs] that a write that returned [n] put on the device. *)
Definition written (n : Z) (bs : list Z) : list Z :=
  take (Z.to_nat (Z.min n (Z.of_nat (length bs)))) bs.

(** [None] is the write past [seg_ts_m]. *)
Definition persist_seg_md (n : Z) (pad : list Z) (grain timestamp : Z) (ctlr_type : uDepotSalsaType)
    (dev : device) (m : MD) : option (Z * device * MD) :=
  let seg_md := set_seg_stamp timestamp (type_id ctlr_type) (seg_md_m m) in
  let seg_md := set_seg_csum (md_csum (sm_seed seg_md) (seg_md_head seg_md)) seg_md in
  let byte_offset := u64 (grain * grain_size_m m) in
  let bs := seg_md_bytes seg_md ++ take (pad_b m sizeof_seg_md) pad in
  let dev' := dev_write dev byte_offset (written n bs) in
  if negb (n =? Z.of_nat (sizeof_seg_md + pad_b m sizeof_seg_md)) then Some (EIO, dev', m)
  else
    let seg_idx := Z.to_nat (grain / sm_segment_size (seg_md_m m)) in
    if (seg_idx <? length (seg_ts_m m))%nat
    then Some (0, dev', mkMD (seed_m m) (grain_size_m m) (restored_m m) (dev_md_m m) (seg_md_m m)
                             (<[seg_idx := timestamp]> (seg_ts_m m)))
    else None.

Definition persist_dev_md (n : Z) (pad : list Z) (dev : device) (m : MD) : Z * device :=
  let dev_md := set_dev_csum (md_csum (dm_seed (dev_md_m m)) (dev_md_head (dev_md_m m))) (dev_md_m m) in
  let bs := dev_md_bytes dev_md ++ take (pad_b m sizeof_dev_md) pad in
  let dev' := dev_write dev (dev_md_grain_offset m) (written n bs) in
  (if negb (n =? Z.of_nat (sizeof_dev_md + pad_b m sizeof_dev_md)) then EIO else 0, dev').

Definition check_dev_size (segment_size : Z) (m : MD) : Z :=
  let logical_size := align_down io_size (u64 (segment_size * grain_size_m m)) in
  let byte_offset := dev_md_grain_offset m in
  if (byte_offset =? 0) || (byte_offset <? logical_size) then EINVAL else 0.

Definition default_dev_md (grain_size segment_size : Z) (m : MD) : salsa_dev_md :=
  mkDevMd io_size 0 segment_size grain_size (seed_m m) 0.

Definition get_seg_md_size (m : MD) : Z :=
  align_up (Z.of_nat sizeof_seg_md) (grain_size_m m) / grain_size_m m.
Definition get_dev_md_size (m : MD) : Z :=
  align_up (Z.of_nat sizeof_dev_md) (grain_size_m m) / grain_size_m m.
Definition get_dev_size (m : MD) : Z :=
  u64 (dm_physical_size (dev_md_m m) - align_up (Z.of_nat sizeof_dev_md) (grain_size_m m)).

(** The seed is a [u32] argument; the second round runs over the 8 bytes of [seed_m]. *)
Definition checksum32 (seed : Z) (buf : list Z) (m : MD) : Z :=
  u32 (crc32 (u32 (crc32 (u32 seed) buf)) (le_bytes 8 (seed_m m))).
Definition checksum16 (seed : Z) (buf : list Z) (m : MD) : Z := u16 (checksum32 seed buf m).

Definition get_seg_ts (seg_idx : nat) (m : MD) : option Z := seg_ts_m m !! seg_idx.
Definition restore_seg_ts (seg_idx : nat) (ts : Z) (m : MD) : option MD :=
  if (seg_idx <? length (seg_ts_m m))%nat
  then Some (mkMD (seed_m m) (grain_size_m m) (restored_m m) (dev_md_m m) (seg_md_m m)
                  (<[seg_idx := ts]> (seg_ts_m m)))
  else None.

End MD.

(** ** Packing and unpacking *)

Lemma unpack_pack fields rest :
  Forall (fun f => in_width (8 * Z.of_nat f.1) f.2) fields ->
  unpack (fst <$> fields) (pack fields ++ rest) = snd <$> fields.
Proof.
  induction 1 as [|[n x] fields Hx _ IH]; [done|]. cbn [pack unpack fmap list_fmap fst snd].
  rewrite <- app_assoc, take_app_length', drop_app_length' by (by rewrite le_bytes_length).
  by rewrite le_val_bytes, IH.
Qed.

Record dev_md_wf (d : salsa_dev_md) : Prop := {
  dw_physical : in_width 64 (dm_physical_size d);
  dw_logical : in_width 64 (dm_logical_size d);
  dw_segment : in_width 64 (dm_segment_size d);
  dw_grain : in_width 64 (dm_grain_size d);
  dw_seed : in_width 64 (dm_seed d);
  dw_csum : in_width 32 (dm_csum d)
}.

Record seg_md_wf (m : salsa_seg_md) : Prop := {
  sw_segment : in_width 64 (sm_segment_size m);
  sw_grain : in_width 64 (sm_grain_size m);
  sw_timestamp : in_width 64 (sm_timestamp m);
  sw_seed : in_width 64 (sm_seed m);
  sw_type : in_width 8 (sm_ctlr_type m);
  sw_csum : in_width 32 (sm_csum m);
  sw_write_nr : in_width 64 (sm_write_nr m);
  sw_reloc_nr : in_width 64 (sm_reloc_nr m)
}.

Lemma dev_md_bytes_length d : length (dev_md_bytes d) = sizeof_dev_md.
Proof. done. Qed.
Lemma seg_md_bytes_length m : length (seg_md_bytes m) = sizeof_seg_md.
Proof. done. Qed.

Lemma dev_md_of_bytes d : dev_md_wf d -> dev_md_of (dev_md_bytes d) = Some d.
Proof.
  intros []. pose proof (unpack_pack
    [(8%nat, dm_physical_size d); (8%nat, dm_logical_size d); (8%nat, dm_segment_size d);
     (8%nat, dm_grain_size d); (8%nat, dm_seed d); (4%nat, dm_csum d)] []) as H.
  rewrite app_nil_r in H. cbn [fmap list_fmap fst snd] in H. unfold dev_md_of.
  replace (dev_md_bytes d) with (pack [(8%nat, dm_physical_size d); (8%nat, dm_logical_size d);
    (8%nat, dm_segment_size d); (8%nat, dm_grain_size d); (8%nat, dm_seed d); (4%nat, dm_csum d)]).
  - rewrite H; [by destruct d|]. repeat (apply List.Forall_cons; [done|]). apply List.Forall_nil.
  - unfold dev_md_bytes, dev_md_head. cbn [pack]. by rewrite app_nil_r, <- !app_assoc.
Qed.

Lemma seg_md_of_bytes m : seg_md_wf m -> seg_md_of (seg_md_bytes m) = Some m.
Proof.
  intros []. pose proof (unpack_pack
    [(8%nat, sm_segment_size m); (8%nat, sm_grain_size m); (8%nat, sm_timestamp m);
     (8%nat, sm_seed m); (1%nat, sm_ctlr_type m); (4%nat, sm_csum m); (8%nat, sm_write_nr m);
     (8%nat, sm_reloc_nr m)] []) as H.
  rewrite app_nil_r in H. cbn [fmap list_fmap fst snd] in H. unfold seg_md_of.
  replace (seg_md_bytes m) with (pack [(8%nat, sm_segment_size m); (8%nat, sm_grain_size m);
    (8%nat, sm_timestamp m); (8%nat, sm_seed m); (1%nat, sm_ctlr_type m); (4%nat, sm_csum m);
    (8%nat, sm_write_nr m); (8%nat, sm_reloc_nr m)]).
  - rewrite H; [by destruct m|]. repeat (apply List.Forall_cons; [done|]). apply List.Forall_nil.
  - unfold seg_md_bytes, seg_md_head. cbn [pack]. by rewrite !app_nil_r, <- !app_assoc.
Qed.

(** ** Layout

    [md_ok]: a store set up on a device of [io_size] bytes. *)

Section Layout.
Context (crc32 : Z -> list Z -> Z) (io_size : Z).

Record md_ok (m : MD) : Prop := {
  mo_size : 0 < io_size < 2 ^ 62;
  mo_grain : 0 < grain_size_m m < 2 ^ 31;
  mo_segment : 0 < sm_segment_size (seg_md_m m) < 2 ^ 31;
  mo_dev : dev_md_wf (dev_md_m m);
  mo_seg : seg_md_wf (seg_md_m m);
  mo_same : sm_segment_size (seg_md_m m) = dm_segment_size (dev_md_m m) /\
            sm_grain_size (seg_md_m m) = dm_grain_size (dev_md_m m) /\
            sm_seed (seg_md_m m) = dm_seed (dev_md_m m);
  mo_nr : length (seg_ts_m m) =
          Z.to_nat (io_size / (sm_segment_size (seg_md_m m) * grain_size_m m));
  mo_check : check_dev_size io_size (sm_segment_size (seg_md_m m)) m = 0;
  mo_fits : get_seg_md_size m <= sm_segment_size (seg_md_m m)
}.

(** The first metadata grain of a segment: its last grains. *)
Definition md_grain (m : MD) (i : nat) : Z :=
  Z.of_nat i * sm_segment_size (seg_md_m m) + (sm_segment_size (seg_md_m m) - get_seg_md_size m).

(** The metadata that [persist_seg_md] writes for a timestamp and a type. *)
Definition stamped (m : MD) (ts : Z) (ty : uDepotSalsaType) : salsa_seg_md :=
  let md := set_seg_stamp ts (type_id ty) (seg_md_m m) in
  set_seg_csum (md_csum crc32 (sm_seed md) (seg_md_head md)) md.

(** The operations on a device: which segment was stamped how, and the padding. *)
Record stamp := mkStamp { st_seg : nat; st_ts : Z; st_type : uDepotSalsaType; st_pad : list Z }.

Definition full_seg_io (m : MD) : Z := Z.of_nat (sizeof_seg_md + pad_b m sizeof_seg_md).
Definition full_dev_io (m : MD) : Z := Z.of_nat (sizeof_dev_md + pad_b m sizeof_dev_md).

Fixpoint persist_all (ops : list stamp) (dev : device) (m : MD) : option (list Z * device * MD) :=
  match ops with
  | [] => Some ([], dev, m)
  | o :: ops' =>
      '(rc, dev1, m1) ← persist_seg_md crc32 (full_seg_io m) (st_pad o) (md_grain m (st_seg o))
                          (st_ts o) (st_type o) dev m;
      '(rcs, dev2, m2) ← persist_all ops' dev1 m1;
      Some (rc :: rcs, dev2, m2)
  end.

(** The last stamp of a segment. *)
Fixpoint last_stamp (i : nat) (ops : list stamp) : option (Z * uDepotSalsaType) :=
  match ops with
  | [] => None
  | o :: ops' =>
      match last_stamp i ops' with
      | Some x => Some x
      | None => if decide (st_seg o = i) then Some (st_ts o, st_type o) else None
      end
  end.

End Layout.

Section Persist.
Context (crc32 : Z -> list Z -> Z) (io_size : Z).

Local Abbreviation md_ok := (md_ok io_size).
Local Abbreviation stamped := (stamped crc32).

Lemma md_csum_width seed head : in_width 32 (md_csum crc32 seed head).
Proof. apply wrap_range. lia. Qed.

Lemma written_full bs : written (Z.of_nat (length bs)) bs = bs.
Proof. unfold written. rewrite Z.min_id, Nat2Z.id. apply firstn_all. Qed.

(** Reading the struct at the start of what was written. *)
Lemma read_written dev off bs rest k :
  k = length bs -> dev_read (dev_write dev off (bs ++ rest)) off k = bs.
Proof.
  intros ->. rewrite <- (dev_read_take _ _ (length (bs ++ rest))) by (rewrite length_app; lia).
  rewrite dev_read_write_same. by apply take_app_length.
Qed.

Lemma validate_dev_read dev m m' :
  let d := set_dev_csum (md_csum crc32 (dm_seed (dev_md_m m)) (dev_md_head (dev_md_m m))) (dev_md_m m) in
  dev_md_wf (dev_md_m m) -> grain_size_m m' = grain_size_m m ->
  dev_read dev (dev_md_grain_offset io_size m) sizeof_dev_md = dev_md_bytes d ->
  validate_dev_md crc32 io_size (full_dev_io m) dev m' = Some d.
Proof.
  intros d [] Hg Hr. unfold validate_dev_md, dev_md_grain_offset, full_dev_io, pad_b. rewrite Hg, Z.eqb_refl.
  cbn [negb]. fold (dev_md_grain_offset io_size m). rewrite Hr, dev_md_of_bytes.
  - cbn [mbind option_bind]. change (dev_md_head d) with (dev_md_head (dev_md_m m)).
    cbn [d dm_seed dm_csum set_dev_csum]. by rewrite Z.eqb_refl.
  - by split; try done; apply md_csum_width.
Qed.

(** *** Where things are *)

Section Geometry.
Context (m : MD) (Hm : md_ok m).

Local Abbreviation gs := (grain_size_m m).
Local Abbreviation seg := (sm_segment_size (seg_md_m m)).

Lemma struct_pad k : (k <= 100)%nat ->
  Z.of_nat (k + pad_b m k) = align_up (Z.of_nat k) gs /\ Z.of_nat k <= align_up (Z.of_nat k) gs.
Proof.
  intros Hk. pose proof (mo_grain _ _ Hm) as Hg.
  destruct (align_up_spec (Z.of_nat k) gs) as [_ Ha]; [lia..|].
  unfold pad_b. rewrite wrap_small by (unfold in_width; lia). lia.
Qed.

Lemma seg_md_extent :
  get_seg_md_size m * gs = align_up (Z.of_nat sizeof_seg_md) gs /\ 0 < get_seg_md_size m.
Proof.
  pose proof (mo_grain _ _ Hm) as Hg.
  destruct (align_up_spec (Z.of_nat sizeof_seg_md) gs) as [[q Hq] Ha]; [unfold sizeof_seg_md; lia..|].
  unfold get_seg_md_size. rewrite Hq in *. rewrite Z.div_mul by lia.
  change (Z.of_nat sizeof_seg_md) with 53 in Ha. nia.
Qed.

(** A segment's metadata is at the end of the segment. *)
Lemma md_grain_extent i : (i < length (seg_ts_m m))%nat ->
  Z.of_nat i * (seg * gs) <= md_grain m i * gs /\
  md_grain m i * gs + Z.of_nat (sizeof_seg_md + pad_b m sizeof_seg_md) = (Z.of_nat i + 1) * (seg * gs) /\
  (Z.of_nat i + 1) * (seg * gs) <= io_size / (seg * gs) * (seg * gs) /\
  md_grain m i / seg = Z.of_nat i.
Proof.
  intros Hi. destruct Hm as [Hs Hg Hsg _ _ _ Hnr _ Hfit]. destruct seg_md_extent as [He Hp].
  rewrite Hnr in Hi. destruct (struct_pad sizeof_seg_md) as [-> _]; [unfold sizeof_seg_md; lia|].
  assert (0 <= io_size / (seg * gs)) by (apply Z.div_pos; nia).
  unfold md_grain. split_and!; try nia.
  rewrite Z.div_add_l by lia. rewrite Z.div_small by lia. lia.
Qed.

(** The device's metadata is behind the segments. *)
Lemma dev_md_extent :
  io_size / (seg * gs) * (seg * gs) <= dev_md_grain_offset io_size m.
Proof.
  destruct Hm as [Hs Hg Hsg _ _ _ _ Hck _]. unfold check_dev_size in Hck.
  rewrite wrap_small in Hck by (unfold in_width; nia). unfold align_down in Hck at 1.
  rewrite (proj2 (Z.eqb_neq 0 _)) in Hck by nia. cbn [negb] in Hck.
  pose proof (Z.mul_div_le io_size (seg * gs) ltac:(nia)).
  assert (0 <= io_size / (seg * gs)) by (apply Z.div_pos; nia).
  rewrite wrap_small in Hck by (unfold in_width; nia).
  destruct (_ || _) eqn:E; [done|]. apply orb_false_iff in E as [_ E%Z.ltb_ge]. done.
Qed.

End Geometry.

(** *** Stamping segments *)

(** What is on the device: the stamps of the segments, the store's own metadata
    [d], and in segments without a stamp what was on the device [dev0] and in the
    timestamps [ts0]. *)
Record stamped_dev (dev0 : device) (ts0 : list Z) (m : MD) (d : salsa_dev_md) (f : nat -> option (Z * uDepotSalsaType)) (dev : device) : Prop := {
  sd_dev : dev_read dev (dev_md_grain_offset io_size m) sizeof_dev_md = dev_md_bytes d;
  sd_seg i ts ty : (i < length (seg_ts_m m))%nat -> f i = Some (ts, ty) ->
    dev_read dev (u64 (md_grain m i * grain_size_m m)) sizeof_seg_md = seg_md_bytes (stamped m ts ty) /\
    seg_ts_m m !! i = Some ts;
  sd_rest i : (i < length (seg_ts_m m))%nat -> f i = None ->
    dev_read dev (u64 (md_grain m i * grain_size_m m)) sizeof_seg_md = dev_read dev0 (u64 (md_grain m i * grain_size_m m)) sizeof_seg_md /\
    seg_ts_m m !! i = ts0 !! i
}.

(** [persist_seg_md] changes the timestamps only. *)
Definition same_md (m m' : MD) : Prop :=
  seed_m m' = seed_m m /\ grain_size_m m' = grain_size_m m /\ dev_md_m m' = dev_md_m m /\
  seg_md_m m' = seg_md_m m /\ length (seg_ts_m m') = length (seg_ts_m m).

Lemma same_md_ok m m' : same_md m m' -> md_ok m -> md_ok m'.
Proof.
  intros (Hs & Hg & Hd & Hsg & Hl) [].
  split; unfold check_dev_size, dev_md_grain_offset, get_seg_md_size in *;
    rewrite ?Hs, ?Hg, ?Hd, ?Hsg, ?Hl; done.
Qed.

Lemma seg_offset_small m i : md_ok m -> (i < length (seg_ts_m m))%nat ->
  u64 (md_grain m i * grain_size_m m) = md_grain m i * grain_size_m m.
Proof.
  intros Hm Hi. destruct (md_grain_extent m Hm i Hi) as (H1 & H2 & H3 & _).
  destruct Hm as [Hs Hg Hsg _ _ _ _ _ _].
  pose proof (Z.mul_div_le io_size (sm_segment_size (seg_md_m m) * grain_size_m m) ltac:(nia)).
  apply wrap_small. unfold in_width. nia.
Qed.

(** Writing the metadata of a segment leaves that of another one alone. *)
Lemma stamp_elsewhere m dev i j bs : md_ok m -> (i < length (seg_ts_m m))%nat -> (j < length (seg_ts_m m))%nat -> j <> i ->
  Z.of_nat (length bs) = Z.of_nat (sizeof_seg_md + pad_b m sizeof_seg_md) ->
  dev_read (dev_write dev (md_grain m j * grain_size_m m) bs) (md_grain m i * grain_size_m m) sizeof_seg_md =
  dev_read dev (md_grain m i * grain_size_m m) sizeof_seg_md.
Proof.
  intros Hm Hi Hj Hne Hbs. rewrite dev_read_write_other; [done|].
  destruct (md_grain_extent m Hm i Hi) as (G1 & G2 & _ & _), (md_grain_extent m Hm j Hj) as (H1 & H2 & _ & _).
  destruct Hm as [_ Hg Hsg _ _ _ _ _ _]. destruct (decide (i < j)%nat); [left|right]; nia.
Qed.

Lemma stamp_step dev0 ts0 m d f dev o :
  md_ok m -> stamped_dev dev0 ts0 m d f dev -> (st_seg o < length (seg_ts_m m))%nat ->
  length (st_pad o) = pad_b m sizeof_seg_md ->
  exists dev' m', persist_seg_md crc32 (full_seg_io m) (st_pad o) (md_grain m (st_seg o))
      (st_ts o) (st_type o) dev m = Some (0, dev', m') /\ same_md m m' /\
    stamped_dev dev0 ts0 m' d (fun i => if decide (st_seg o = i) then Some (st_ts o, st_type o) else f i) dev'.
Proof.
  intros Hm [Hd Hs Hrest] Hi Hp. destruct (md_grain_extent m Hm _ Hi) as (H1 & H2 & H3 & H4).
  pose proof (dev_md_extent m Hm) as H5.
  unfold persist_seg_md. fold (stamped m (st_ts o) (st_type o)).
  rewrite H4, Nat2Z.id, (proj2 (Nat.ltb_lt _ _) Hi). unfold full_seg_io. rewrite Z.eqb_refl. cbn [negb].
  rewrite take_ge by lia.
  replace (sizeof_seg_md + pad_b m sizeof_seg_md)%nat
    with (length (seg_md_bytes (stamped m (st_ts o) (st_type o)) ++ st_pad o))
    by (rewrite length_app, seg_md_bytes_length; lia).
  rewrite written_full. rewrite (seg_offset_small m (st_seg o)) by done.
  eexists _, _. split; [reflexivity|].
  split; [split_and!; try done; cbn [seg_ts_m]; by rewrite length_insert|].
  set (bs := seg_md_bytes _ ++ _).
  assert (Z.of_nat (length bs) = Z.of_nat (sizeof_seg_md + pad_b m sizeof_seg_md)) as Hbs.
  { unfold bs. rewrite length_app, seg_md_bytes_length. lia. }
  split.
  - change (dev_md_grain_offset io_size _) with (dev_md_grain_offset io_size m).
    rewrite dev_read_write_other; [done|]. right. lia.
  - cbn [seg_ts_m grain_size_m]. intros i ts ty Hlt Hf. rewrite length_insert in Hlt.
    change (md_grain _ i) with (md_grain m i). change (stamped _ ts ty) with (stamped m ts ty).
    rewrite (seg_offset_small m i) by done.
    destruct (decide (st_seg o = i)) as [<-|Hne].
    + injection Hf as <- <-. unfold bs. rewrite read_written by done.
      split; [done|]. by apply list_lookup_insert_eq.
    + destruct (Hs i ts ty Hlt Hf) as [Hr Hts].
      rewrite (seg_offset_small m i) in Hr by done. rewrite list_lookup_insert_ne by done.
      split; [|done]. by rewrite stamp_elsewhere.
  - cbn [seg_ts_m grain_size_m]. intros i Hlt Hf. rewrite length_insert in Hlt.
    change (md_grain _ i) with (md_grain m i). destruct (decide (st_seg o = i)) as [|Hne]; [done|].
    destruct (Hrest i Hlt Hf) as [Hr Hts]. rewrite (seg_offset_small m i) in * by done.
    rewrite list_lookup_insert_ne by done. split; [|done]. by rewrite stamp_elsewhere.
Qed.

Lemma stamp_all dev0 ts0 ops m d f dev :
  md_ok m -> stamped_dev dev0 ts0 m d f dev ->
  Forall (fun o => (st_seg o < length (seg_ts_m m))%nat /\ length (st_pad o) = pad_b m sizeof_seg_md) ops ->
  exists rcs dev' m', persist_all crc32 ops dev m = Some (rcs, dev', m') /\ Forall (eq 0) rcs /\
    same_md m m' /\
    stamped_dev dev0 ts0 m' d (fun i => match last_stamp i ops with Some x => Some x | None => f i end) dev'.
Proof.
  intros Hm Hs Hops. revert m f dev Hm Hs Hops. induction ops as [|o ops IH]; intros m f dev Hm Hs Hops.
  { exists [], dev, m. split; [done|]. split; [constructor|]. split; [done|]. by destruct Hs. }
  apply Forall_cons_iff in Hops as [[Hi Hp] Hops].
  destruct (stamp_step dev0 ts0 m d f dev o Hm Hs Hi Hp) as (dev1 & m1 & E1 & Hsame & Hs1).
  pose proof Hsame as (_ & Hg & _ & _ & Hl).
  destruct (IH m1 _ dev1 (same_md_ok _ _ Hsame Hm) Hs1) as (rcs & dev2 & m2 & E2 & Hrcs & Hsame2 & Hs2).
  { rewrite Hl. unfold pad_b in *. by rewrite Hg. }
  exists (0 :: rcs), dev2, m2. cbn [persist_all]. rewrite E1. cbn [mbind option_bind]. rewrite E2.
  split; [done|]. split; [by constructor|]. split.
  - destruct Hsame as (? & ? & ? & ? & ?), Hsame2 as (? & ? & ? & ? & ?). split_and!; congruence.
  - destruct Hs2 as [H2d H2s H2r].
    split; [done|intros i ts ty Hlt Hf; apply H2s; [done|]|intros i Hlt Hf; apply H2r; [done|]];
      (cbn [last_stamp] in Hf; destruct (last_stamp i ops); [done|]; by destruct (decide (st_seg o = i))).
Qed.

Lemma stamped_wf m ts ty : md_ok m -> in_width 64 ts -> seg_md_wf (stamped m ts ty).
Proof.
  intros [_ _ _ _ [] _ _ _ _] Hts. split; try done; [by destruct ty|apply md_csum_width].
Qed.

Lemma stamped_valid m ts ty ty' : md_ok m ->
  validate_seg_md crc32 (stamped m ts ty) ty' m = bool_decide (ty' = ty).
Proof.
  intros [_ _ _ _ _ (Hs & Hg & Hsd) _ _ _]. unfold validate_seg_md.
  change (seg_md_head (stamped m ts ty)) with (seg_md_head (set_seg_stamp ts (type_id ty) (seg_md_m m))).
  cbn [stamped set_seg_csum set_seg_stamp sm_seed sm_csum sm_ctlr_type sm_segment_size sm_grain_size].
  rewrite Hs, Hg, Hsd, !Z.eqb_refl. cbn [andb]. rewrite !andb_true_r.
  destruct ty, ty'; done.
Qed.

Lemma last_stamp_in i ops ts ty :
  last_stamp i ops = Some (ts, ty) -> Forall (fun o => in_width 64 (st_ts o)) ops -> in_width 64 ts.
Proof.
  induction ops as [|o ops IH]; [done|]. intros Hl [Ho Hops]%Forall_cons_iff. cbn [last_stamp] in Hl.
  destruct (last_stamp i ops) as [x|]; [by apply IH|].
  destruct (decide (st_seg o = i)); [by injection Hl as <- _|done].
Qed.

(** C32: A store set up on a device keeps its metadata apart from its segments
    and the segments' from each other: after the device's metadata was written
    and then segments were stamped in any order and any number of times, every
    write having succeeded, the device's metadata validates and reads back, also
    by a store that has not read it yet, and every stamped segment's reads back
    with its last timestamp and validates for the type that stamped it last and
    for no other.  In a segment that was not stamped reads find what the device
    held before, whether or not that validates, and its timestamp is the old one. *)
Theorem metadata_survives m pad0 ops dev fresh :
  md_ok m -> length pad0 = pad_b m sizeof_dev_md ->
  grain_size_m fresh = grain_size_m m ->
  Forall (fun o => (st_seg o < length (seg_ts_m m))%nat /\ length (st_pad o) = pad_b m sizeof_seg_md /\
                   in_width 64 (st_ts o)) ops ->
  exists dev0 rcs dev' m' c, persist_dev_md crc32 io_size (full_dev_io m) pad0 dev m = (0, dev0) /\
    persist_all crc32 ops dev0 m = Some (rcs, dev', m') /\ Forall (eq 0) rcs /\
    validate_dev_md crc32 io_size (full_dev_io m) dev' fresh = Some (set_dev_csum c (dev_md_m m)) /\
    forall i, (i < length (seg_ts_m m))%nat ->
      match last_stamp i ops with
      | None =>
          read_seg_md (full_seg_io m) (md_grain m i) dev' m' = read_seg_md (full_seg_io m) (md_grain m i) dev m /\
          get_seg_ts i m' = get_seg_ts i m
      | Some (ts, ty) => exists md,
          read_seg_md (full_seg_io m) (md_grain m i) dev' m' = Some md /\ sm_timestamp md = ts /\
          (forall ty', validate_seg_md crc32 md ty' m' = bool_decide (ty' = ty)) /\
          get_seg_ts i m' = Some ts
      end.
Proof.
  intros Hm Hp0 Hg Hops.
  set (c := md_csum crc32 (dm_seed (dev_md_m m)) (dev_md_head (dev_md_m m))).
  set (d := set_dev_csum c (dev_md_m m)).
  set (dev0 := dev_write dev (dev_md_grain_offset io_size m) (dev_md_bytes d ++ pad0)).
  assert (stamped_dev dev (seg_ts_m m) m d (const None) dev0) as Hs0.
  { split; [by apply read_written|done|]. intros i Hi _. split; [|done]. rewrite (seg_offset_small m i) by done. unfold dev0.
    rewrite dev_read_write_other; [done|]. left. destruct (md_grain_extent m Hm i Hi) as (H1 & H2 & H3 & _). pose proof (dev_md_extent m Hm). lia. }
  destruct (stamp_all _ _ ops m d _ dev0 Hm Hs0) as (rcs & dev' & m' & E & Hrcs & Hsame & [Hd Hs Hr0]).
  { eapply Forall_impl; [|exact Hops]. naive_solver. }
  exists dev0, rcs, dev', m', c. split_and!; [|done|done| |].
  - unfold persist_dev_md, full_dev_io. rewrite Z.eqb_refl. cbn [negb]. fold c d. rewrite take_ge by lia.
    replace (sizeof_dev_md + pad_b m sizeof_dev_md)%nat with (length (dev_md_bytes d ++ pad0))
      by (rewrite length_app, dev_md_bytes_length; lia).
    by rewrite written_full.
  - apply (validate_dev_read dev' m fresh); [apply Hm|done|].
    destruct Hsame as (_ & Hg' & _). unfold dev_md_grain_offset in *. by rewrite Hg' in Hd.
  - intros i Hi. pose proof (same_md_ok _ _ Hsame Hm) as Hm'. pose proof Hsame as (_ & Hg' & _ & Hsg & Hlen).
    assert (md_grain m' i = md_grain m i) as Hgr by (unfold md_grain, get_seg_md_size; by rewrite Hg', Hsg).
    destruct (last_stamp i ops) as [[ts ty]|] eqn:Hl.
    2: { destruct (Hr0 i) as [Hr Hts]; [by rewrite Hlen|by rewrite Hl|]. split; [|done].
         unfold read_seg_md, full_seg_io, pad_b. rewrite Hg', Z.eqb_refl. cbn [negb]. rewrite Hg', Hgr in Hr. by rewrite Hr. }
    destruct (Hs i ts ty) as [Hr Hts]; [by rewrite Hlen|by rewrite Hl|].
    exists (stamped m' ts ty). split_and!; [|done|intros ty'; by apply stamped_valid|done].
    unfold read_seg_md, full_seg_io, pad_b. rewrite Hg', Z.eqb_refl. cbn [negb].
    rewrite Hg', Hgr in Hr. rewrite Hr. apply seg_md_of_bytes, stamped_wf; [done|].
    apply (last_stamp_in i ops ts ty Hl). eapply Forall_impl; [|exact Hops]. naive_solver.
Qed.

End Persist.

(** Three segments of four 32-byte grains and room for the device's metadata. *)
Definition ex_crc32 (seed : Z) (bs : list Z) : Z := foldl (fun a b => (a * 31 + b) mod 2 ^ 32) seed bs.
Definition ex_fresh_md : MD := MD_new 32 7 false.
Definition ex_md : MD := default ex_fresh_md (init_md (default_dev_md 448 32 4 ex_fresh_md) ex_fresh_md).
Definition ex_stamps : list stamp :=
  [mkStamp 1 10 KV (replicate 11 0); mkStamp 2 11 Directory (replicate 11 1); mkStamp 1 12 KV (replicate 11 2)].

Lemma ex_md_ok : md_ok 448 ex_md.
Proof.
  split; try reflexivity; try (simpl; lia); try (split; unfold in_width; simpl; lia); vm_compute; done.
Qed.

Lemma metadata_survives_witness : exists dev' m' md,
  read_seg_md (full_seg_io ex_md) (md_grain ex_md 1) dev' m' = Some md /\ sm_timestamp md = 12 /\
  validate_seg_md ex_crc32 md KV m' = true /\ validate_seg_md ex_crc32 md Directory m' = false.
Proof.
  destruct (metadata_survives ex_crc32 448 ex_md (replicate 20 0) ex_stamps (const 0) ex_fresh_md
              ex_md_ok eq_refl eq_refl) as (dev0 & rcs & dev' & m' & c & _ & _ & _ & _ & H).
  { repeat (apply List.Forall_cons; [split_and!; [simpl; lia|reflexivity|unfold in_width; simpl; lia]|]).
    apply List.Forall_nil. }
  destruct (H 1%nat ltac:(simpl; lia)) as (md & H1 & H2 & H3 & _).
  exists dev', m', md. split; [exact H1|]. split; [exact H2|]. split; [exact (H3 KV)|exact (H3 Directory)].
Defined.
