(* ===== verification/KvStore.v ===== *)
(** * KvStore: the log-structured key-value store (uDepot/udepot-lsa.cc)

    The Mbuff interface of [uDepotSalsa]: put, get, exists and del with the
    lookups, the record I/O and the mapping updates they are made of, for keys
    served by the local node.

    The store's state [kv] is passed explicitly.  What the operating system, the
    memory allocator and the SALSA allocator answer is read from [kv_env] at the
    current [kv_tick]; what the store tells SALSA is logged in [kv_events].
    [e_other] is what other threads do to the store while an operation has
    dropped the lock of its table: the operations below apply it at every unlock
    and every re-lock.  A null dereference and a loop without end are [None];
    [fuel] bounds the retry loops of put and del. *)
From Stdlib Require Import ZArith Lia.
From stdpp Require Import base tactics list numbers.
From S2P Require Import Prelude Util HashEntry HopscotchMap.
From S2P Require Import DirectoryMap DirectoryGrow Mbuff StoreFormat.

Open Scope Z_scope.

(** ** State and environment *)

Inductive kv_event :=
  | Kv_allocate (grain nr : Z)
  | Kv_release (grain nr : Z)
  | Kv_invalidate (grain nr : Z)
  | Kv_drain (stream : Z).

Record kv := mkKv {
  kv_map : DirMap;
  kv_dev : device;
  kv_seg_ts : Z -> Z;         (** [md_m.get_seg_ts] *)
  kv_key_nr : Z;
  kv_used_bytes : Z;
  kv_total_bytes : Z;
  kv_events : list kv_event;  (** newest first *)
  kv_tick : nat
}.

Record kv_env := mkEnv {
  e_grain_size : Z;
  e_segment_size : Z;                    (** in grains *)
  e_streams : Z;                         (** [salsa_streams_nr_m] *)
  e_hash : list Z -> Z;                  (** [HashFn::hash] *)
  e_checksum16 : Z -> list Z -> Z;       (** [md_m.checksum16] *)
  e_membuf : nat -> nat -> option (Z * list Z);  (** [IO::alloc_iobuff] of a size *)
  e_pread : nat -> Z;                    (** bytes delivered at most, or -errno *)
  e_pwrite : nat -> Z;
  e_alloc : nat -> Z * Z;                (** [allocate_grains]: rc and grain *)
  e_grow : nat -> grow_env;
  e_other : nat -> kv -> kv
}.

(** Store computations: [None] does not return. *)
Definition kvm (A : Type) : Type := kv -> option (A * kv).

#[global] Instance kvm_ret : MRet kvm := fun A a s => Some (a, s).
#[global] Instance kvm_bind : MBind kvm := fun A B f m s =>
  match m s with None => None | Some (a, s') => f a s' end.

Definition stuck {A} : kvm A := fun _ => None.
Definition lift {A} (o : option A) : kvm A := fun s =>
  match o with None => None | Some a => Some (a, s) end.
Definition gets {A} (f : kv -> A) : kvm A := fun s => Some (f s, s).
Definition modify (f : kv -> kv) : kvm unit := fun s => Some (tt, f s).

Definition set_dir (d : DirMap) (s : kv) : kv :=
  mkKv d (kv_dev s) (kv_seg_ts s) (kv_key_nr s) (kv_used_bytes s) (kv_total_bytes s)
       (kv_events s) (kv_tick s).
Definition set_dev (dev : device) (s : kv) : kv :=
  mkKv (kv_map s) dev (kv_seg_ts s) (kv_key_nr s) (kv_used_bytes s) (kv_total_bytes s)
       (kv_events s) (kv_tick s).
Definition set_stats (k u t : Z) (s : kv) : kv :=
  mkKv (kv_map s) (kv_dev s) (kv_seg_ts s) k u t (kv_events s) (kv_tick s).
Definition log (ev : kv_event) (s : kv) : kv :=
  mkKv (kv_map s) (kv_dev s) (kv_seg_ts s) (kv_key_nr s) (kv_used_bytes s) (kv_total_bytes s)
       (ev :: kv_events s) (kv_tick s).
Definition tick (s : kv) : kv :=
  mkKv (kv_map s) (kv_dev s) (kv_seg_ts s) (kv_key_nr s) (kv_used_bytes s) (kv_total_bytes s)
       (kv_events s) (S (kv_tick s)).

(** The next answer of the environment. *)
Definition ask {A} (f : nat -> A) : kvm A := fun s => Some (f (kv_tick s), tick s).

(** ** Accounting (uDepot.hh) *)

Definition kv_added (kv_bytes tot_bytes : Z) : kvm unit :=
  modify (fun s => set_stats (u64 (kv_key_nr s + 1)) (u64 (kv_used_bytes s + kv_bytes))
                             (u64 (kv_total_bytes s + tot_bytes)) s).

Definition kv_removed (kv_bytes tot_bytes : Z) : kvm unit :=
  modify (fun s => set_stats (u64 (kv_key_nr s - 1)) (u64 (kv_used_bytes s - kv_bytes))
                             (u64 (kv_total_bytes s - tot_bytes)) s).

Section Store.
Context (env : kv_env).

Local Abbreviation grain_size := (e_grain_size env).

(** ** Calls into SALSA *)

Definition grain_to_seg_idx (grain : Z) : Z := grain / e_segment_size env.

Definition salsa_stream_get_id (h : Z) : Z := u32 (h mod e_streams env).

Definition allocate_grains (nr : Z) : kvm (Z * Z) :=
  '(rc, grain) ← ask (e_alloc env);
  if rc =? 0 then modify (log (Kv_allocate grain nr));; mret (0, grain) else mret (rc, grain).

Definition invalidate_grains (grain nr : Z) : kvm unit := modify (log (Kv_invalidate grain nr)).
Definition release_grains (grain nr : Z) : kvm unit := modify (log (Kv_release grain nr)).
Definition drain_remaining_grains (stream : Z) : kvm unit := modify (log (Kv_drain stream)).

(** The table lock dropped and taken again: other threads run. *)
Definition others_run : kvm unit :=
  f ← ask (e_other env); modify f.

(** ** Mbuff allocation and device I/O (mbuff-alloc.hh, io/helpers.hh) *)

Definition mbuff_add_buffers (mb : mbuff) (new_free_size : nat) : kvm mbuff :=
  let free_size := get_free_size mb in
  if (new_free_size <=? free_size)%nat then mret mb
  else
    let b_len := Z.to_nat (align_up (Z.of_nat (new_free_size - free_size)) 4096) in
    answer ← ask (e_membuf env);
    match answer b_len with
    | None => mret mb
    | Some (ptr, buf) => mret (add_buff mb ptr buf)
    end.

(** The iovec closure of the read path: at most 16 pieces; the device's bytes
    from [off] on go to the piece.  The state is ([remaining], [iov_cnt]). *)
Definition iov_fn (dev : device) (off : Z) (op_len : nat) : chunk_fn (nat * nat) :=
  fun '(remaining, iov_cnt) c =>
    if (iov_cnt =? 16)%nat || (remaining =? 0)%nat then ((remaining, iov_cnt), c, 0%nat)
    else
      let min_len := Nat.min remaining (length c) in
      ((remaining - min_len, S iov_cnt)%nat,
       write_at c 0 (dev_read dev (off + Z.of_nat (op_len - remaining)) min_len), min_len).

(** [reslice] whose result the caller ignores. *)
Definition reslice_ (mb : mbuff) (len off : nat) : option mbuff := snd <$> reslice mb len off.

Fixpoint pread_loop (fuel : nat) (mb : mbuff) (io_len : nat) (io_off : Z) (bytes_read : nat) :
    kvm (Z * mbuff) :=
  match fuel with
  | O => stuck
  | S k =>
      if (io_len <=? bytes_read)%nat then mret (0, mb)
      else
        let op_len := (io_len - bytes_read)%nat in
        let op_off := io_off + Z.of_nat bytes_read in
        if (append_avail_size mb <? op_len)%nat then mret (ENOSPC, mb)
        else
          dev ← gets kv_dev;
          r ← lift (append (iov_fn dev op_off op_len) (op_len, 0%nat) mb);
          let '((remaining, _), mb1) := r in
          let op_bytes := (op_len - remaining)%nat in
          ret ← ask (e_pread env);
          if ret <? 0 then
            mb2 ← lift (reslice_ mb1 (get_valid_size mb1 - op_bytes) 0); mret (- ret, mb2)
          else
            let n := Z.to_nat (Z.min ret (Z.of_nat op_bytes)) in
            mb2 ← (if (n <? op_bytes)%nat
                   then lift (reslice_ mb1 (get_valid_size mb1 - op_bytes + n) 0) else mret mb1);
            if (n =? 0)%nat then mret (ENODATA, mb2)
            else pread_loop k mb2 io_len io_off (bytes_read + n)
  end.

Definition io_pread_mbuff_append_full (mb : mbuff) (io_len : nat) (io_off : Z) : kvm (Z * mbuff) :=
  if (io_len =? 0)%nat then mret (0, mb) else pread_loop (S io_len) mb io_len io_off 0.

(** One [io_pwrite_mbuff]: the bytes written, or a negative error. *)
Definition io_pwrite_mbuff (mb : mbuff) (io_len : nat) (io_off : Z) (mbuff_off : nat) : kvm Z :=
  r ← lift (fill_iovec_valid mb mbuff_off io_len 16);
  match r with
  | inl err => mret err
  | inr iov =>
      ret ← ask (e_pwrite env);
      if ret <? 0 then mret ret
      else
        let bs := take (Z.to_nat (Z.min ret (Z.of_nat (length (concat iov))))) (concat iov) in
        modify (fun s => set_dev (dev_write (kv_dev s) io_off bs) s);;
        mret (Z.of_nat (length bs))
  end.

Fixpoint pwrite_loop (fuel : nat) (mb : mbuff) (io_len : nat) (io_off : Z) (written : nat) :
    kvm Z :=
  match fuel with
  | O => stuck
  | S k =>
      if (io_len <=? written)%nat then mret 0
      else
        ret ← io_pwrite_mbuff mb (io_len - written) (io_off + Z.of_nat written) written;
        if ret <? 0 then mret (- ret) else pwrite_loop k mb io_len io_off (written + Z.to_nat ret)
  end.

Definition io_pwrite_mbuff_full (mb : mbuff) (io_len : nat) (io_off : Z) : kvm Z :=
  pwrite_loop (S io_len) mb io_len io_off 0.

(** ** Lookup *)

Definition visited_pba (pba_key : Z) (pbas_visited : list Z) : bool :=
  existsb (fun q => pba_key =? q) pbas_visited.

(** The table a hash selects, and the entry a slot of it holds. *)
Definition table_of (d : DirMap) (h : Z) : uDepotMap := map_at d (hash_to_map d h).
Definition entry_at (d : DirMap) (h : Z) (p : nat) : HashEntry := ent (table_of d h) p.

(** The do-while of [lookup_common]; a bucket has [BUCKET] slots. *)
Fixpoint common_loop (fuel : nat) (d : DirMap) (h : Z) (pbas_visited : list Z) (trgt : nat) :
    option nat :=
  match fuel with
  | O => None
  | S k =>
      if negb (visited_pba (pba (entry_at d h trgt)) pbas_visited) then Some trgt
      else match dir_next d (Some trgt) h with
           | None => None
           | Some q => common_loop k d h pbas_visited q
           end
  end.

Definition lookup_common (d : DirMap) (h : Z) (pbas_visited : list Z) : Z * option nat :=
  match dir_lookup d h with
  | (0, Some trgt) => (0, common_loop (S BUCKET) d h pbas_visited trgt)
  | (rc, trgt) => (rc, trgt)
  end.

(** [md.key_size == mb_key_len], then [mem_compare]. *)
Definition key_matches (md : store_header) (mb_key : mbuff) (mb_key_off mb_key_len : nat)
    (mb_dst : mbuff) : option bool :=
  if key_size md =? Z.of_nat mb_key_len
  then (fun r => r =? 0) <$> mem_compare mb_key mb_key_off mb_dst putKeyvalPrefixSize mb_key_len
  else Some false.

Definition io_alignment : Z := Z.min 512 grain_size.

(** [mb_dst] emptied, given room for [n] bytes and filled from the device; the
    error is [ENOMEM] when there is no room. *)
Definition read_record (mb_dst : mbuff) (n : nat) (offset : Z) : kvm (Z * bool * mbuff) :=
  mb0 ← lift (reslice_ mb_dst 0 0);
  mb1 ← mbuff_add_buffers mb0 n;
  if (get_free_size mb1 <? n)%nat then mret (ENOMEM, true, mb1)
  else '(err, mb2) ← io_pread_mbuff_append_full mb1 n offset; mret (err, false, mb2).

(** The do-while of [lookup_mbuff]: the error code, the value size and the Mbuff
    with the record.  A table holds at most [BUCKET] entries of a hash, so the
    loop of a lookup that is not disturbed needs no more rounds; [fuel] bounds
    the disturbed ones. *)
Fixpoint lookup_mbuff_loop (fuel : nat) (key_hash : Z) (mb_key : mbuff) (mb_key_off mb_key_len : nat)
    (mb_dst : mbuff) (pbas_visited : list Z) : kvm (Z * Z * mbuff) :=
  match fuel with
  | O => stuck
  | S k =>
      d ← gets kv_map;
      let '(err, trgt) := lookup_common d key_hash pbas_visited in
      if negb (err =? 0) then mret (err, 0, mb_dst)
      else match trgt with
      | None => mret (ENODATA, 0, mb_dst)
      | Some trgt =>
          let trgtcpy := entry_at d key_hash trgt in
          others_run;;
          let offset := u64 (pba trgtcpy * grain_size) in
          let io_size := u64 (kv_size trgtcpy * grain_size) in
          let io_size_aligned := align_up io_size io_alignment in
          '(err, nomem, mb1) ← read_record mb_dst (Z.to_nat io_size_aligned) offset;
          if negb (err =? 0) then
            others_run;; mret (if nomem : bool then ENOMEM else EIO, 0, mb1)
          else
            hdr ← lift (copy_to_buffer mb1 0 sizeof_store);
            let md := header_of hdr in
            is_match ← lift (key_matches md mb_key mb_key_off mb_key_len mb1);
            if is_match : bool then
              let grains := kv_tot_grains_get grain_size (key_size md) (val_size md) in
              if negb (io_size =? u64 (grain_size * grains)) then
                let new_io_size := align_up (u64 (grains * grain_size)) io_alignment in
                '(err, nomem, mb2) ← read_record mb1 (Z.to_nat new_io_size) offset;
                others_run;;
                if negb (err =? 0) then mret (if nomem : bool then ENOMEM else EIO, 0, mb2)
                else mret (EEXIST, val_size md, mb2)
              else others_run;; mret (EEXIST, val_size md, mb1)
            else
              others_run;;
              lookup_mbuff_loop k key_hash mb_key mb_key_off mb_key_len mb1
                                (pbas_visited ++ [pba trgtcpy])
      end
  end.

Definition lookup_mbuff (fuel : nat) (key_hash : Z) (mb_key : mbuff) (mb_key_off mb_key_len : nat)
    (mb_dst : mbuff) : kvm (Z * Z * mbuff) :=
  lookup_mbuff_loop fuel key_hash mb_key mb_key_off mb_key_len mb_dst [].

(** [lookup_mbuff_put]: the error code, the slot, the header of the record found
    and the Mbuff it was read into. *)
Fixpoint lookup_put_loop (fuel : nat) (key_hash : Z) (mb_key : mbuff) (mb_key_off mb_key_len : nat)
    (old_md : store_header) (mb_dst : mbuff) (pbas_visited : list Z) :
    kvm (Z * option nat * store_header * mbuff) :=
  match fuel with
  | O => stuck
  | S k =>
      d ← gets kv_map;
      let '(err, trgt) := lookup_common d key_hash pbas_visited in
      if negb (err =? 0) then mret (err, trgt, old_md, mb_dst)
      else match trgt with
      | None =>
          let '(err, free) := dir_next_free d key_hash in
          if negb (err =? 0) then mret (ENOSPC, None, old_md, mb_dst)
          else mret (ENODATA, free, old_md, mb_dst)
      | Some trgt =>
          let trgtcpy := entry_at d key_hash trgt in
          others_run;;
          let offset := u64 (pba trgtcpy * grain_size) in
          let io_size := Z.of_nat (putKeyvalPrefixSize + mb_key_len) in
          let io_size_aligned := align_up io_size io_alignment in
          '(err, nomem, mb1) ← read_record mb_dst (Z.to_nat io_size_aligned) offset;
          if negb (err =? 0) then
            others_run;; mret (if nomem : bool then ENOMEM else err, None, old_md, mb1)
          else
            hdr ← lift (copy_to_buffer mb1 0 sizeof_store);
            let md := header_of hdr in
            is_match ← lift (key_matches md mb_key mb_key_off mb_key_len mb1);
            let old_md := if is_match : bool then md else old_md in
            others_run;;
            d ← gets kv_map;
            (* check if entry has changed *)
            let moved := negb (bool_decide (entry_at d key_hash trgt = trgtcpy)) in
            let trgt := if moved then dir_lookup_pba d key_hash (pba trgtcpy) else Some trgt in
            let is_match := is_match && negb (moved && bool_decide (trgt = None)) in
            if is_match then mret (EEXIST, trgt, old_md, mb1)
            else lookup_put_loop k key_hash mb_key mb_key_off mb_key_len old_md mb1
                                 (pbas_visited ++ [pba trgtcpy])
      end
  end.

Definition lookup_mbuff_put (fuel : nat) (key_hash : Z) (mb_key : mbuff)
    (mb_key_off mb_key_len : nat) (old_md : store_header) (mb_dst : mbuff) :
    kvm (Z * option nat * store_header * mbuff) :=
  lookup_put_loop fuel key_hash mb_key mb_key_off mb_key_len old_md mb_dst [].

(** [lookup_exists] reads the header and the key only, into an Mbuff of its own. *)
Fixpoint lookup_exists_loop (fuel : nat) (key_hash : Z) (mb_key : mbuff)
    (mb_key_off mb_key_len : nat) (pbas_visited : list Z) : kvm (Z * Z) :=
  match fuel with
  | O => stuck
  | S k =>
      d ← gets kv_map;
      let '(err, trgt) := lookup_common d key_hash pbas_visited in
      if negb (err =? 0) then mret (err, 0)
      else match trgt with
      | None => mret (ENODATA, 0)
      | Some trgt =>
          let trgtcpy := entry_at d key_hash trgt in
          others_run;;
          let md_io_size :=
            Z.to_nat (align_up (Z.of_nat (putKeyvalPrefixSize + mb_key_len)) io_alignment) in
          mb0 ← mbuff_add_buffers mbuff_empty md_io_size;
          if (get_free_size mb0 <? md_io_size)%nat then others_run;; mret (ENOMEM, 0)
          else
            '(err, md_mb) ← io_pread_mbuff_append_full mb0 md_io_size (u64 (pba trgtcpy * grain_size));
            if negb (err =? 0) then others_run;; mret (EIO, 0)
            else
              hdr ← lift (copy_to_buffer md_mb 0 sizeof_store);
              let md := header_of hdr in
              is_match ← lift (key_matches md mb_key mb_key_off mb_key_len md_mb);
              others_run;;
              if is_match : bool then mret (EEXIST, val_size md)
              else lookup_exists_loop k key_hash mb_key mb_key_off mb_key_len
                                      (pbas_visited ++ [pba trgtcpy])
      end
  end.

Definition lookup_exists (fuel : nat) (key_hash : Z) (mb_key : mbuff)
    (mb_key_off mb_key_len : nat) : kvm (Z * Z) :=
  lookup_exists_loop fuel key_hash mb_key mb_key_off mb_key_len [].

(** ** Writing a record *)

(** The prepend closure: the state is [prepend_ok]. *)
Definition header_fn (md : store_header) : chunk_fn bool := fun ok hdr =>
  if negb (length hdr =? sizeof_store)%nat then (ok, hdr, 0%nat)
  else (true, write_at hdr 0 (header_bytes md), sizeof_store).

Definition suffix_fn (crc16 : Z) : chunk_fn bool := fun ok ftr =>
  if (length ftr <? sizeof_suffix)%nat then (ok, ftr, 0%nat)
  else (true, write_at ftr 0 (le_bytes 2 crc16), sizeof_suffix).

Definition mbuff_prepend_append_md (keyval : mbuff) (ks vs grain : Z) : kvm (Z * mbuff) :=
  ts ← gets (fun s => kv_seg_ts s (grain_to_seg_idx grain));
  let md_base := mkHeader (u16 ks) (u32 vs) ts in
  let '(prepend_ok, mb1) := prepend_inline (header_fn md_base) false keyval in
  let crc16 := u16 (e_checksum16 env (u32 ts) (header_bytes md_base)) in
  let '(append_ok, mb2) := append_inline (suffix_fn crc16) false mb1 in
  mret (if prepend_ok && append_ok then 0 else EINVAL, mb2).

(** [std::memset(b, 0, pad_len)]; the state is [remaining]. *)
Definition pad_fn : chunk_fn nat := fun remaining b =>
  let pad_len := Nat.min (length b) remaining in
  if (pad_len =? 0)%nat then (remaining, b, 0%nat)
  else ((remaining - pad_len)%nat, write_at b 0 (replicate pad_len 0), pad_len).

Definition mbuff_append_padding (keyval : mbuff) (padding : nat) : kvm (Z * mbuff) :=
  mb1 ← (if (append_avail_size keyval <? padding)%nat
         then mbuff_add_buffers keyval (padding - get_free_size keyval) else mret keyval);
  if (append_avail_size mb1 <? padding)%nat then mret (ENOMEM, mb1)
  else
    '(remaining, mb2) ← lift (append pad_fn padding mb1);
    mret (if (remaining =? 0)%nat then 0 else ENOMEM, mb2).

(** The grains given back after a failure of [local_put_mbuff_io]. *)
Definition give_back (grain nr : Z) : kvm unit :=
  invalidate_grains grain nr;; release_grains grain nr.

(** The error code, the grain ([None] is SALSA_INVAL_GRAIN) and the Mbuff as it
    was left.  The errno of a failed write is the error code itself. *)
Definition local_put_mbuff_io (keyval : mbuff) (key_size : nat) : kvm (Z * option Z * mbuff) :=
  let val_len := (get_valid_size keyval - key_size)%nat in
  let io_size :=
    u64 (Z.of_nat (get_valid_size keyval + putKeyvalPrefixSize + putKeyvalSuffixSize)) in
  let io_size_grains := udiv_round_up io_size grain_size in
  '(err, io_grain0) ← allocate_grains io_size_grains;
  if negb (err =? 0) then mret (err, None, keyval)
  else
    '(err, mb1) ← mbuff_prepend_append_md keyval (Z.of_nat key_size) (Z.of_nat val_len) io_grain0;
    if negb (err =? 0) then give_back io_grain0 io_size_grains;; mret (err, None, mb1)
    else
      '(err, mb2) ← mbuff_append_padding mb1 (Z.to_nat (u64 (io_size_grains * grain_size - io_size)));
      if negb (err =? 0) then give_back io_grain0 io_size_grains;; mret (ENOMEM, None, mb2)
      else
        err ← io_pwrite_mbuff_full mb2 (get_valid_size mb2) (u64 (io_grain0 * grain_size));
        if negb (err =? 0) then
          give_back io_grain0 io_size_grains;; mret (err, Some io_grain0, mb2)
        else mret (0, Some io_grain0, mb2).

(** ** Mapping updates *)

(** [seg_ts] is [md_m.get_seg_ts]. *)
Definition is_pba_order_equal_to_total_order (seg_ts : Z -> Z) (old_pba new_pba : Z)
    (old_md : store_header) : bool :=
  let old_seg_idx := grain_to_seg_idx old_pba in
  let new_seg_idx := grain_to_seg_idx new_pba in
  if negb (old_seg_idx =? new_seg_idx) then timestamp old_md <? seg_ts new_seg_idx
  else old_pba <? new_pba.

Definition set_mapping (h : Z) (trgt : nat) (update : bool) (key_len val_len pba' : Z)
    (old_md : store_header) : kvm unit :=
  d ← gets kv_map;
  let e := entry_at d h trgt in
  let old_grains := kv_tot_grains_get grain_size (key_size old_md) (val_size old_md) in
  (if update then
     invalidate_grains (pba e) old_grains;;
     kv_removed (kv_raw_bytes_get (key_size old_md) (val_size old_md))
                (kv_tot_bytes_get grain_size (key_size old_md) (val_size old_md));;
     modify (set_dir (dir_update_inplace d h trgt (kv_tot_grains_get grain_size key_len val_len) pba'))
   else
     (if deleted e then invalidate_grains (pba e) old_grains else mret tt);;
     modify (set_dir (dir_insert d h trgt (kv_tot_grains_get grain_size key_len val_len) pba')));;
  kv_added (kv_raw_bytes_get key_len val_len) (kv_tot_bytes_get grain_size key_len val_len).

(** ** Put *)

Inductive put_op := NORMAL | REPLACE | CREATE.

#[global] Instance put_op_eq_dec : EqDecision put_op.
Proof. solve_decision. Defined.

(** The tail of [local_put_mbuff] once a slot is known: [old_pba_out] is [None]
    when it was not written. *)
Definition put_finish (h : Z) (keyval : mbuff) (key_size val_len : nat) (grain : Z)
    (old_md : store_header) (update : bool) (trgt : option nat) : kvm (Z * option Z * mbuff) :=
  p ← lift trgt;
  d ← gets kv_map;
  seg_ts ← gets kv_seg_ts;
  let old_pba := pba (entry_at d h p) in
  if update && negb (is_pba_order_equal_to_total_order seg_ts old_pba grain old_md)
  then mret (EALREADY, Some old_pba, keyval)
  else
    set_mapping h p update (Z.of_nat key_size) (Z.of_nat val_len) grain old_md;;
    mret (0, None, keyval).

(** Its switch on the answer of the lookup. *)
Definition put_dispatch (h : Z) (keyval : mbuff) (key_size val_len : nat) (grain : Z) (op : put_op)
    (old_md : store_header) (rc : Z) (trgt : option nat) : kvm (Z * option Z * mbuff) :=
  let finish := put_finish h keyval key_size val_len grain old_md in
  if rc =? ENODATA then
    if decide (op = REPLACE) then mret (EINVAL, None, keyval) else finish false trgt
  else if rc =? EEXIST then
    if decide (op = CREATE) then mret (EINVAL, None, keyval) else finish true trgt
  else if rc =? EIO then mret (rc, None, keyval)
  else if rc =? ENOSPC then
    d ← gets kv_map;
    '(rc, o, d') ← lift (dir_try_shift d h);
    modify (set_dir d');;
    if negb (rc =? 0) then mret (rc, None, keyval)
    else if decide (op = REPLACE) then mret (EINVAL, None, keyval)
    else finish false (out trgt o)
  else mret (rc, None, keyval).

(** The Mbuff is returned with the free buffers it lent to the lookup. *)
Definition local_put_mbuff (fuel : nat) (h : Z) (keyval : mbuff) (key_size : nat) (grain : Z)
    (op : put_op) : kvm (Z * option Z * mbuff) :=
  let io_size := align_up (Z.of_nat (putKeyvalPrefixSize + key_size)) 512 in
  let val_len := (get_valid_size keyval - key_size)%nat in
  let '(keyval1, key_mb, _) := move_free_buffs_to keyval mbuff_empty io_size in
  '(rc, trgt, old_md, key_mb1) ←
    lookup_mbuff_put fuel h keyval1 0 key_size header_zero key_mb;
  key_mb2 ← lift (reslice_ key_mb1 0 0);
  let '(_, keyval2, _) := move_free_buffs_to key_mb2 keyval1 (2 ^ 64 - 1) in
  put_dispatch h keyval2 key_size val_len grain op old_md rc trgt.

(** The first inner loop of [put]: write the record, waiting while the allocator
    answers EAGAIN. *)
Fixpoint put_io_loop (fuel : nat) (keyval : mbuff) (size key_size : nat) :
    kvm (Z * option Z * mbuff) :=
  match fuel with
  | O => stuck
  | S k =>
      '(rc, grain, mb1) ← local_put_mbuff_io keyval key_size;
      mb2 ← lift (reslice_ mb1 size putKeyvalPrefixSize);
      if rc =? EAGAIN then others_run;; put_io_loop k mb2 size key_size
      else mret (rc, grain, mb2)
  end.

(** The second: update the mapping, growing the directory when it is full. *)
Fixpoint put_map_loop (fuel : nat) (h : Z) (keyval : mbuff) (key_size : nat) (grain : Z)
    (op : put_op) : kvm (Z * mbuff) :=
  match fuel with
  | O => stuck
  | S k =>
      '(rc, old_pba, mb1) ← local_put_mbuff fuel h keyval key_size grain op;
      if rc =? ENOSPC then
        d ← gets kv_map;
        genv ← ask (e_grow env);
        g ← lift (grow genv d);
        modify (set_dir (g_dir g));;
        if (g_rc g =? 0) || (g_rc g =? EAGAIN) then others_run;; put_map_loop k h mb1 key_size grain op
        else mret (rc, mb1)
      else if rc =? EALREADY then
        (if negb (grain_to_seg_idx (default (2 ^ 64 - 1) old_pba) =? grain_to_seg_idx grain)
         then drain_remaining_grains (salsa_stream_get_id h) else mret tt);;
        mret (rc, mb1)
      else if rc =? EAGAIN then others_run;; put_map_loop k h mb1 key_size grain op
      else mret (rc, mb1)
  end.

Fixpoint put_loop (fuel : nat) (h : Z) (keyval : mbuff) (size key_size : nat) (op : put_op) :
    kvm (Z * mbuff) :=
  match fuel with
  | O => stuck
  | S k =>
      let size_grains :=
        kv_tot_grains_get grain_size (Z.of_nat key_size) (Z.of_nat (size - key_size)) in
      '(rc, grain, mb1) ← put_io_loop fuel keyval size key_size;
      if negb (rc =? 0) then mret (rc, mb1)
      else
        grain ← lift grain;
        others_run;;
        '(rc, mb2) ← put_map_loop fuel h mb1 key_size grain op;
        (if negb (rc =? 0) then invalidate_grains grain size_grains else mret tt);;
        release_grains grain size_grains;;
        if rc =? EALREADY then put_loop k h mb2 size key_size op else mret (rc, mb2)
  end.

(** [HashFn::hash] of a range of an Mbuff; it copies the range when it is not in
    one piece, which [e_membuf] can refuse. *)
Definition hash_mbuff (mb : mbuff) (off len : nat) : kvm (Z * Z) :=
  r ← lift (iterate_valid_init mb off len);
  match r with
  | (_, None) => mret (0, e_hash env [])
  | (_, Some it) =>
      if is_next_valid it then
        answer ← ask (e_membuf env);
        match answer len with
        | None => mret (ENOMEM, 0)
        | Some _ =>
            copied ← lift (copy_to_buffer mb off len);
            mret (if (length copied =? len)%nat then (0, e_hash env copied) else (EINVAL, 0))
        end
      else mret (0, e_hash env (i_chunk_ it))
  end.

Definition put (fuel : nat) (keyval : mbuff) (key_size : nat) (op : put_op) : kvm (Z * mbuff) :=
  '(rc, h) ← hash_mbuff keyval 0 key_size;
  if negb (rc =? 0) then mret (rc, keyval)
  else put_loop fuel h keyval (get_valid_size keyval) key_size op.

(** ** Get and exists *)

Definition get (fuel : nat) (key val_out : mbuff) : kvm (Z * mbuff) :=
  '(err, h) ← hash_mbuff key 0 (get_valid_size key);
  if negb (err =? 0) then mret (err, val_out)
  else
    let key_size := get_valid_size key in
    '(err, val_size, mb) ← lookup_mbuff fuel h key 0 key_size val_out;
    if err =? EEXIST then
      mb' ← lift (reslice_ mb (Z.to_nat val_size) (putKeyvalPrefixSize + key_size)); mret (0, mb')
    else mb' ← lift (reslice_ mb 0 0); mret (err, mb').

(** The value size is set only when the key was found. *)
Definition kv_exists (fuel : nat) (key : mbuff) : kvm (Z * Z) :=
  '(err, h) ← hash_mbuff key 0 (get_valid_size key);
  if negb (err =? 0) then mret (err, 0)
  else
    '(err, val_size) ← lookup_exists fuel h key 0 (get_valid_size key);
    mret (if err =? EEXIST then 0 else err, val_size).

(** ** Del *)

(** The loop that writes the tombstone. *)
Fixpoint del_io_loop (fuel : nat) (key_mb : mbuff) (key_size : nat) : kvm (Z * option Z * mbuff) :=
  match fuel with
  | O => stuck
  | S k =>
      mb1 ← lift (reslice_ key_mb key_size putKeyvalPrefixSize);
      '(rc, grain, mb2) ← local_put_mbuff_io mb1 key_size;
      if rc =? EAGAIN then others_run;; del_io_loop k mb2 key_size else mret (rc, grain, mb2)
  end.

Definition local_del_mbuff (fuel : nat) (h : Z) (key : mbuff) : kvm (Z * mbuff) :=
  let key_size := get_valid_size key in
  let io_size :=
    align_up (Z.of_nat (putKeyvalPrefixSize + key_size + putKeyvalSuffixSize)) 512 in
  let '(key1, key_mb, _) := move_free_buffs_to key mbuff_empty io_size in
  '(rc, trgt, old_md, key_mb1) ← lookup_mbuff_put fuel h key1 0 key_size header_zero key_mb;
  let return_buffers (mb : mbuff) : kvm mbuff :=
    mb' ← lift (reslice_ mb 0 0);
    mret (snd (fst (move_free_buffs_to mb' key1 (2 ^ 64 - 1)))) in
  if negb (rc =? EEXIST) then
    key2 ← return_buffers key_mb1;
    mret (if rc =? ENOSPC then ENODATA
          else if (rc =? EIO) || (rc =? ENODATA) then rc else ENOENT, key2)
  else
    trgt ← lift trgt;
    let size_grains := kv_tot_grains_get grain_size (Z.of_nat key_size) 0 in
    others_run;;
    '(rc, grain, key_mb2) ← del_io_loop fuel key_mb1 key_size;
    key2 ← return_buffers key_mb2;
    others_run;;
    if negb (rc =? 0) then mret (rc, key2)
    else
      grain ← lift grain;
      d ← gets kv_map;
      seg_ts ← gets kv_seg_ts;
      let old_pba := pba (entry_at d h trgt) in
      if negb (is_pba_order_equal_to_total_order seg_ts old_pba grain old_md)
      then mret (EAGAIN, key2)
      else
        invalidate_grains old_pba (kv_tot_grains_get grain_size (StoreFormat.key_size old_md) (val_size old_md));;
        kv_removed (kv_raw_bytes_get (StoreFormat.key_size old_md) (val_size old_md))
                   (kv_tot_bytes_get grain_size (StoreFormat.key_size old_md) (val_size old_md));;
        modify (set_dir (dir_remove d h trgt grain));;
        release_grains grain size_grains;;
        mret (0, key2).

Fixpoint del_loop (fuel : nat) (h : Z) (key : mbuff) : kvm (Z * mbuff) :=
  match fuel with
  | O => stuck
  | S k =>
      '(rc, key1) ← local_del_mbuff fuel h key;
      if rc =? EAGAIN then others_run;; del_loop k h key1 else mret (rc, key1)
  end.

Definition del (fuel : nat) (key : mbuff) : kvm (Z * mbuff) :=
  '(rc, h) ← hash_mbuff key 0 (get_valid_size key);
  if negb (rc =? 0) then mret (rc, key) else del_loop fuel h key.

End Store.

(** ** The cache of Mbuffs (uDepot/mbuff-cache.hh)

    The Mbuffs a thread keeps between requests, the one put back last first. *)

Section Cache.
Context (mbuff_alloc : nat -> bool).   (** an Mbuff can be allocated *)

Definition mb_get (mbs : list mbuff) : kvm (option mbuff * list mbuff) :=
  match mbs with
  | [] => ok ← ask mbuff_alloc; mret (if ok : bool then Some mbuff_empty else None, [])
  | mb :: mbs' => mret (Some mb, mbs')
  end.

Definition mb_put (mb : mbuff) (mbs : list mbuff) : kvm (list mbuff) :=
  mb' ← lift (reslice_ mb 0 0); mret (mb' :: mbs).

End Cache.
