(* ===== verification/KvIo.v ===== *)
(** * KvIo: the record I/O of the store

    What the read and write paths of [KvStore] do when no other thread
    interferes and the calls into the operating system succeed, with reads and
    writes as short as the system likes. *)
From Stdlib Require Import ZArith Lia.
From stdpp Require Import base tactics list numbers.
From S2P Require Import Prelude Util HashEntry HopscotchMap.
From S2P Require Import DirectoryMap DirectoryGrow Mbuff MbuffSpec MbuffHead StoreFormat KvStore.

Open Scope Z_scope.

(** ** Running a computation *)

Lemma bind_run {A B} (m : kvm A) (f : A -> kvm B) (s s' : kv) (a : A) :
  m s = Some (a, s') -> (m ≫= f) s = f a s'.
Proof. intros H. unfold mbind, kvm_bind. by rewrite H. Qed.

Lemma ret_run {A} (a : A) (s : kv) : (mret a : kvm A) s = Some (a, s).
Proof. done. Qed.

Definition at_tick (n : nat) (s : kv) : kv :=
  mkKv (kv_map s) (kv_dev s) (kv_seg_ts s) (kv_key_nr s) (kv_used_bytes s) (kv_total_bytes s)
       (kv_events s) n.

Lemma at_tick_at_tick n n' s : at_tick n (at_tick n' s) = at_tick n s.
Proof. done. Qed.

Lemma at_tick_self s : at_tick (kv_tick s) s = s.
Proof. by destruct s. Qed.

(** No other thread, memory to be had, and calls that make progress. *)
Record quiet (env : kv_env) : Prop := {
  q_grain : 0 < e_grain_size env < 2 ^ 31;
  q_other : forall t s, e_other env t s = s;
  q_mem : forall t n, exists ptr buf, e_membuf env t n = Some (ptr, buf) /\ length buf = n;
  q_pread : forall t, 0 < e_pread env t;
  q_pwrite : forall t, 0 < e_pwrite env t
}.

Section Io.
Context (env : kv_env) (Hq : quiet env).

Lemma others_run_quiet s : others_run env s = Some (tt, at_tick (S (kv_tick s)) s).
Proof. unfold others_run. erewrite bind_run by reflexivity. unfold modify. by rewrite q_other. Qed.

(** Buffers of up to a page stay in one piece where they were. *)
Definition keeps_room (mb mb' : mbuff) : Prop :=
  forall N, (N <= 4096)%nat -> roomy N mb -> roomy N mb'.

Lemma keeps_room_trans mb1 mb2 mb3 : keeps_room mb1 mb2 -> keeps_room mb2 mb3 -> keeps_room mb1 mb3.
Proof. intros H1 H2 N HN Hr. by apply H2, H1. Qed.

Lemma keeps_room_flush mb mb' :
  buffers mb' ≡ₚ buffers mb -> (head_flush (mb_nodes mb) -> head_flush (mb_nodes mb')) -> keeps_room mb mb'.
Proof. intros Hb Hh N _ Hr. apply (roomy_perm N mb); [done|apply Hh, Hr|done]. Qed.

Lemma add_buffers_spec mb n s :
  mb_wf mb -> Z.of_nat n < 2 ^ 63 ->
  exists mb' t, mbuff_add_buffers env mb n s = Some (mb', at_tick t s) /\ mb_wf mb' /\
    data mb' = data mb /\ (n <= get_free_size mb')%nat /\ keeps_room mb mb'.
Proof.
  intros Hw Hn. unfold mbuff_add_buffers.
  destruct (Nat.leb_spec n (get_free_size mb)) as [Hle|Hgt].
  { exists mb, (kv_tick s). rewrite at_tick_self. do 4 (split; [done|]). by intros N _. }
  pose proof (align_up_spec (Z.of_nat (n - get_free_size mb)) 4096) as [Hdiv Hal]; [lia..|].
  set (b_len := Z.to_nat _). erewrite bind_run by reflexivity.
  destruct (q_mem _ Hq (kv_tick s) b_len) as (ptr & buf & -> & Hlen).
  exists (add_buff mb ptr buf), (S (kv_tick s)). split; [done|]. split; [|split; [done|split]].
  - apply put_free_node_wf; [done|]. split; [|done]. unfold mb_buff_len_. simpl. lia.
  - unfold get_free_size, add_buff in *. simpl. unfold mb_buff_len_. simpl. lia.
  - intros N HN [Hh HF]. split; [done|]. unfold buffers in *. cbn [mb_nodes mb_free_ add_buff put_free_node].
    rewrite fmap_app in *. apply Forall_app in HF as [HF1 HF2]. apply Forall_app. split; [done|].
    rewrite fmap_cons. apply Forall_cons_iff. split; [|done]. unfold node_id, mb_buff_len_. simpl.
    apply Z.divide_pos_le in Hdiv; lia.
Qed.

(** ** Reading *)

Lemma iov_fn_inv dev off op_len : (0 < op_len)%nat ->
  chunk_inv (iov_fn dev off op_len)
    (fun '(rem, cnt) acc => (rem <= op_len)%nat /\ acc = dev_read dev off (op_len - rem) /\
                            ((rem = op_len)%nat -> cnt = 0%nat))
    (fun '(rem, cnt) acc => (rem < op_len)%nat) (fun _ _ => True).
Proof.
  intros Hpos [rem cnt] acc c (Hle & -> & Hcnt) Hc. unfold iov_fn.
  destruct ((cnt =? 16)%nat || (rem =? 0)%nat) eqn:Hstop.
  - rewrite take_0, app_nil_r. split; [lia|]. split; [done|]. split; [done|]. split; [|done].
    apply orb_true_iff in Hstop as [H|H]; apply Nat.eqb_eq in H; [|lia].
    destruct (decide (rem = op_len)) as [->|]; [|lia]. rewrite Hcnt in H by done. done.
  - apply orb_false_iff in Hstop as [_ Hrem]. apply Nat.eqb_neq in Hrem.
    set (k := Nat.min rem (length c)).
    assert (length (dev_read dev (off + Z.of_nat (op_len - rem)) k) = k) as Hl by apply dev_read_length.
    split; [lia|]. split; [apply write_at_length; lia|].
    assert (take k (write_at c 0 (dev_read dev (off + Z.of_nat (op_len - rem)) k)) =
            dev_read dev (off + Z.of_nat (op_len - rem)) k) as ->.
    { unfold write_at. simpl. rewrite take_app_length'; [done|done]. }
    rewrite <- dev_read_app. replace (op_len - rem + k)%nat with (op_len - (rem - k))%nat by lia.
    split; [split; [lia|split; [done|lia]]|]. split; [lia|done].
Qed.

Lemma append_read mb dev off op_len :
  mb_wf mb -> (0 < op_len <= append_avail_size mb)%nat ->
  exists rem cnt mb', append (iov_fn dev off op_len) (op_len, 0%nat) mb = Some ((rem, cnt), mb') /\
    (rem < op_len)%nat /\ mb_wf mb' /\ data mb' = data mb ++ dev_read dev off (op_len - rem) /\
    (op_len - rem + append_avail_size mb' = append_avail_size mb)%nat /\ keeps_room mb mb'.
Proof.
  intros Hw [Hpos Hav].
  destruct (append_inv _ _ _ _ (op_len, 0%nat) [] mb (iov_fn_inv dev off op_len Hpos) Hw)
    as ([rem cnt] & mb' & w & He & Hw' & Hd & (Hle & Hacc & _) & Hb & Ha & _ & HJ).
  { rewrite Nat.sub_diag. done. }
  simpl in Hacc. subst w. exists rem, cnt, mb'. rewrite dev_read_length in Ha.
  destruct HJ as [Hz|HJ]; [lia|]. do 5 (split; [done|]).
  apply keeps_room_flush; [done|]. intros Hh.
  apply (append_flush _ _ _ _ (op_len, 0%nat) [] mb (rem, cnt) mb' (iov_fn_inv dev off op_len Hpos)); [done| |done|done].
  rewrite Nat.sub_diag. done.
Qed.

Lemma reslice_prefix mb n :
  mb_wf mb -> (n <= length (data mb))%nat -> Z.of_nat (length (data mb)) < 2 ^ 64 ->
  exists mb', reslice_ mb n 0 = Some mb' /\ mb_wf mb' /\ data mb' = take n (data mb) /\
    (append_avail_size mb + (length (data mb) - n) <= append_avail_size mb')%nat /\ keeps_room mb mb'.
Proof.
  intros Hw Hn Hlt. destruct (reslice_spec mb n 0 Hw) as (mb' & He & Hw' & Hd & Hb); [lia|lia|].
  pose proof (reslice_prefix_room mb n mb' Hw Hn ltac:(lia) He).
  exists mb'. unfold reslice_. rewrite He. rewrite drop_0 in Hd. do 4 (split; [done|]).
  apply keeps_room_flush; [done|]. intros Hh. by apply (reslice_prefix_flush mb n 0 mb').
Qed.

Lemma pread_loop_spec fuel mb io_len off br s :
  mb_wf mb -> (br <= io_len)%nat -> (io_len - br <= append_avail_size mb)%nat ->
  (io_len - br < fuel)%nat -> Z.of_nat (length (data mb) + (io_len - br)) < 2 ^ 64 ->
  exists mb' t, pread_loop env fuel mb io_len off br s = Some ((0, mb'), at_tick t s) /\
    mb_wf mb' /\ data mb' = data mb ++ dev_read (kv_dev s) (off + Z.of_nat br) (io_len - br) /\
    keeps_room mb mb'.
Proof.
  revert mb br s. induction fuel as [|fuel IH]; intros mb br s Hw Hbr Hav Hf Hlt; [lia|].
  cbn [pread_loop]. destruct (Nat.leb_spec io_len br) as [Hle|Hgt].
  { exists mb, (kv_tick s). replace (io_len - br)%nat with 0%nat by lia. rewrite at_tick_self.
    rewrite app_nil_r. do 3 (split; [done|]). by intros N _. }
  destruct (Nat.ltb_spec (append_avail_size mb) (io_len - br)); [lia|].
  erewrite bind_run by reflexivity.
  destruct (append_read mb (kv_dev s) (off + Z.of_nat br) (io_len - br) Hw) as
    (rem & cnt & mb1 & -> & Hrem & Hw1 & Hd1 & Ha1 & Hk1); [lia|].
  erewrite bind_run by reflexivity. cbv beta iota. erewrite bind_run by reflexivity.
  pose proof (q_pread _ Hq (kv_tick s)) as Hpos.
  destruct (Z.ltb_spec (e_pread env (kv_tick s)) 0); [lia|].
  set (op := (io_len - br - rem)%nat) in *.
  set (n := Z.to_nat (Z.min (e_pread env (kv_tick s)) (Z.of_nat op))).
  set (s1 := tick s).
  assert (exists mb2, (if (n <? op)%nat then lift (reslice_ mb1 (get_valid_size mb1 - op + n) 0)
                       else mret mb1) s1 = Some (mb2, s1) /\ mb_wf mb2 /\
            data mb2 = data mb ++ dev_read (kv_dev s) (off + Z.of_nat br) n /\
            (append_avail_size mb - n <= append_avail_size mb2)%nat /\ keeps_room mb1 mb2)
    as (mb2 & He2 & Hw2 & Hd2 & Ha2 & Hk2).
  { assert (length (data mb1) = length (data mb) + op)%nat as Hl1.
    { by rewrite Hd1, length_app, dev_read_length. }
    destruct (Nat.ltb_spec n op) as [Hn|Hn].
    - destruct (reslice_prefix mb1 (get_valid_size mb1 - op + n) Hw1) as (mb2 & -> & Hw2 & Hd2 & Ha2 & Hk2).
      + unfold get_valid_size. rewrite <- data_length by done. lia.
      + lia.
      + exists mb2. split; [done|]. split; [done|]. unfold get_valid_size in *.
        rewrite <- data_length in * by done. rewrite Hl1 in *.
        replace (length (data mb) + op - op + n)%nat with (length (data mb) + n)%nat in * by lia.
        split; [|split; [lia|done]]. rewrite Hd2, Hd1, take_app_add, dev_read_take by lia. done.
    - exists mb1. split; [done|]. split; [done|]. assert (n = op) as -> by lia.
      split; [done|]. split; [lia|by intros N _]. }
  rewrite (bind_run _ _ _ _ _ He2).
  destruct (Nat.eqb_spec n 0); [lia|].
  destruct (IH mb2 (br + n)%nat s1) as (mb' & t & He & Hw' & Hd' & Hk'); [done|lia|lia|lia| |].
  { rewrite Hd2, length_app, dev_read_length. lia. }
  exists mb', t. rewrite He. split; [done|]. split; [done|].
  split; [|by eapply keeps_room_trans; [|eapply keeps_room_trans]]. rewrite Hd', Hd2, <- app_assoc.
  change (kv_dev s1) with (kv_dev s).
  replace (io_len - br)%nat with (n + (io_len - (br + n)))%nat by lia. rewrite dev_read_app.
  do 3 f_equal. lia.
Qed.

Lemma pread_spec mb n off s :
  mb_wf mb -> (n <= append_avail_size mb)%nat -> Z.of_nat (length (data mb) + n) < 2 ^ 64 ->
  exists mb' t, io_pread_mbuff_append_full env mb n off s = Some ((0, mb'), at_tick t s) /\
    mb_wf mb' /\ data mb' = data mb ++ dev_read (kv_dev s) off n /\ keeps_room mb mb'.
Proof.
  intros Hw Hn Hlt. unfold io_pread_mbuff_append_full.
  destruct (Nat.eqb_spec n 0) as [->|Hne].
  { exists mb, (kv_tick s). rewrite at_tick_self, app_nil_r. do 3 (split; [done|]). by intros N _. }
  destruct (pread_loop_spec (S n) mb n off 0 s) as (mb' & t & He & Hw' & Hd & Hk); [done|lia|lia|lia|lia|].
  exists mb', t. rewrite Nat.sub_0_r, Z.add_0_r in Hd. done.
Qed.

(** [read_record] leaves exactly the bytes of the device in the Mbuff. *)
Lemma read_record_spec mb n off s :
  mb_wf mb -> Z.of_nat (length (data mb)) < 2 ^ 64 -> Z.of_nat n < 2 ^ 63 ->
  exists mb' t, read_record env mb n off s = Some ((0, false, mb'), at_tick t s) /\
    mb_wf mb' /\ data mb' = dev_read (kv_dev s) off n /\ keeps_room mb mb'.
Proof.
  intros Hw Hlt Hn. unfold read_record.
  destruct (reslice_prefix mb 0 Hw) as (mb0 & -> & Hw0 & Hd0 & _ & Hk0); [lia|done|].
  erewrite bind_run by reflexivity.
  destruct (add_buffers_spec mb0 n s Hw0 Hn) as (mb1 & t1 & He1 & Hw1 & Hd1 & Hf1 & Hk1).
  rewrite (bind_run _ _ _ _ _ He1). destruct (Nat.ltb_spec (get_free_size mb1) n); [lia|].
  destruct (pread_spec mb1 n off (at_tick t1 s)) as (mb2 & t2 & He2 & Hw2 & Hd2 & Hk2).
  - done.
  - unfold append_avail_size, get_free_size in *. lia.
  - rewrite Hd1, Hd0, take_0. simpl. lia.
  - rewrite (bind_run _ _ _ _ _ He2). exists mb2, t2. split; [done|]. split; [done|].
    split; [by rewrite Hd2, Hd1, Hd0, take_0|]. by eapply keeps_room_trans; [|eapply keeps_room_trans].
Qed.

(** ** Writing *)

Lemma fill_iovec_nonempty mb off len :
  mb_wf mb -> (0 < len)%nat -> Z.of_nat off + Z.of_nat len < 2 ^ 64 ->
  (off + len <= length (data mb))%nat ->
  exists iov, fill_iovec_valid mb off len 16 = Some (inr iov) /\
    concat iov `prefix_of` take len (drop off (data mb)) /\ concat iov <> [].
Proof.
  intros Hw Hlen Hov Hle. unfold fill_iovec_valid.
  pose proof (iterate_valid_init_spec mb off len Hw Hlen Hov) as H.
  rewrite decide_True in H by done. destruct H as (it & He & Hi & Hl & Hr). rewrite He.
  change (negb (0 =? 0)) with false. cbv iota beta.
  destruct (fill_iovec_loop_spec 16 it Hi) as (w & Hw' & Hp & _).
  eexists. split; [done|]. rewrite Hw', <- Hr. split; [done|].
  cbn [fill_iovec_loop concat] in Hw'. intros ->. apply app_nil in Hw' as [Hc _].
  unfold iterate_valid_init in He. destruct (len =? 0)%nat; [by simplify_eq|].
  destruct (_ <? _); [by simplify_eq|]. unfold do_initialize_iterator in He.
  destruct (find_node_spec (mb_nodes mb) off (mwf_nodes _ Hw)) as (n & r & o & Hf & Ho & Hnr & _).
  { unfold data in Hle. lia. }
  rewrite Hf in He. injection He as <-. cbn [i_chunk_] in Hc. apply (f_equal length) in Hc.
  apply Forall_cons_iff in Hnr as [[_ Hfit _] _]. unfold get_valid_chunk, mb_buff_len_ in *.
  rewrite length_take, length_drop in Hc. simpl in Hc. lia.
Qed.

(** A device that agrees with one on which [bs] was written at [off]. *)
Definition dev_eq (d1 d2 : device) : Prop := forall o, d1 o = d2 o.

Lemma dev_write_split dev off b1 b2 :
  dev_eq (dev_write (dev_write dev off b1) (off + Z.of_nat (length b1)) b2) (dev_write dev off (b1 ++ b2)).
Proof.
  intros o. unfold dev_write. rewrite length_app.
  destruct (Z.leb_spec (off + Z.of_nat (length b1)) o), (Z.leb_spec off o),
    (Z.ltb_spec o (off + Z.of_nat (length b1) + Z.of_nat (length b2))),
    (Z.ltb_spec o (off + Z.of_nat (length b1))),
    (Z.ltb_spec o (off + Z.of_nat (length b1 + length b2))); simpl; try lia; try done.
  - rewrite app_nth2 by lia. f_equal. lia.
  - rewrite app_nth1 by lia. done.
Qed.

Lemma pwrite_loop_spec fuel mb io_len off wr s :
  mb_wf mb -> (wr <= io_len)%nat -> io_len = length (data mb) -> (io_len - wr < fuel)%nat ->
  Z.of_nat io_len < 2 ^ 64 ->
  exists dev' t, pwrite_loop env fuel mb io_len off wr s = Some (0, set_dev dev' (at_tick t s)) /\
    dev_eq dev' (dev_write (kv_dev s) (off + Z.of_nat wr) (drop wr (data mb))).
Proof.
  revert wr s. induction fuel as [|fuel IH]; intros wr s Hw Hwr Hlen Hf Hlt; [lia|].
  cbn [pwrite_loop]. destruct (Nat.leb_spec io_len wr) as [Hle|Hgt].
  { exists (kv_dev s), (kv_tick s). split; [by destruct s|]. rewrite drop_ge by lia.
    intros o. unfold dev_write. simpl. rewrite Z.add_0_r.
    destruct (Z.leb_spec (off + Z.of_nat wr) o), (Z.ltb_spec o (off + Z.of_nat wr)); simpl; lia || done. }
  unfold io_pwrite_mbuff.
  destruct (fill_iovec_nonempty mb wr (io_len - wr) Hw) as (iov & Hiov & Hpre & Hne); [lia|lia|lia|].
  rewrite take_ge in Hpre by (rewrite length_drop; lia). destruct Hpre as [rest Hrest].
  pose proof (q_pwrite _ Hq (kv_tick s)) as Hpos.
  set (n := Z.to_nat (Z.min (e_pwrite env (kv_tick s)) (Z.of_nat (length (concat iov))))).
  set (bs := take n (concat iov)).
  assert (0 < length (concat iov))%nat as Hcl by (destruct (concat iov); [done|simpl; lia]).
  assert (length bs = n) as Hbs by (unfold bs; rewrite length_take; lia).
  set (s1 := set_dev (dev_write (kv_dev s) (off + Z.of_nat wr) bs) (tick s)).
  erewrite bind_run.
  2:{ rewrite Hiov. erewrite bind_run by reflexivity. cbv beta iota. erewrite bind_run by reflexivity.
      destruct (Z.ltb_spec (e_pwrite env (kv_tick s)) 0); [lia|]. fold n. fold bs.
      erewrite bind_run by reflexivity. reflexivity. }
  fold s1. cbv beta. rewrite Hbs. destruct (Z.ltb_spec (Z.of_nat n) 0); [lia|]. rewrite Nat2Z.id.
  assert (drop wr (data mb) = bs ++ drop (wr + n) (data mb)) as Hsplit.
  { rewrite <- drop_drop, Hrest. unfold bs. rewrite drop_app_le by lia.
    rewrite app_assoc, take_drop. done. }
  assert (n <= length (drop wr (data mb)))%nat as Hn.
  { rewrite Hrest, length_app. lia. }
  rewrite length_drop in Hn.
  destruct (IH (wr + n)%nat s1) as (dev' & t & He & Hd); [done|lia|done|lia|done|].
  exists dev', t. split; [exact He|]. intros o. rewrite Hd, Hsplit.
  rewrite <- (dev_write_split (kv_dev s) (off + Z.of_nat wr) bs). unfold s1. cbn [kv_dev set_dev].
  rewrite Hbs. f_equal. lia.
Qed.

Lemma pwrite_spec mb off s :
  mb_wf mb -> Z.of_nat (length (data mb)) < 2 ^ 64 ->
  exists dev' t, io_pwrite_mbuff_full env mb (get_valid_size mb) off s =
      Some (0, set_dev dev' (at_tick t s)) /\
    dev_eq dev' (dev_write (kv_dev s) off (data mb)).
Proof.
  intros Hw Hlt. unfold io_pwrite_mbuff_full, get_valid_size. rewrite <- data_length by done.
  destruct (pwrite_loop_spec (S (length (data mb))) mb (length (data mb)) off 0 s)
    as (dev' & t & He & Hd); [done|lia|done|lia|done|].
  exists dev', t. rewrite Z.add_0_r, drop_0 in Hd. done.
Qed.

End Io.
