(* ===== verification/KvInv.v ===== *)
(** * KvInv: what the store holds

    The abstract content of a store is a list of records (key, value, grain,
    timestamp).  [store_inv] ties it to the state of [KvStore]: the entries of
    the directory are the records' fingerprints, sizes and grains; the device
    holds each record's header, key and value at its grain; keys are unique,
    records do not overlap and the statistics count them. *)
From Stdlib Require Import ZArith Lia.
From stdpp Require Import base tactics list numbers.
From S2P Require Import Prelude Util HashEntry HopscotchMap HopscotchSpec HopscotchRefine.
From S2P Require Import FpTable DirectoryMap DirectoryGrow DirectoryOps Mbuff MbuffSpec.
From S2P Require Import StoreFormat KvStore KvIo.

Open Scope Z_scope.

Record krec := Rec { r_key : list Z; r_val : list Z; r_grain : Z; r_ts : Z }.

Definition klen (r : krec) : Z := Z.of_nat (length (r_key r)).
Definition vlen (r : krec) : Z := Z.of_nat (length (r_val r)).

Definition r_header (r : krec) : store_header := mkHeader (klen r) (vlen r) (r_ts r).

(** The bytes of a record up to its checksum. *)
Definition r_bytes (r : krec) : list Z := header_bytes (r_header r) ++ r_key r ++ r_val r.

Section Inv.
Context (env : kv_env).

Local Abbreviation gs := (e_grain_size env).

(** Sizes the on-device format and the map entry can represent. *)
Record fits (key_len val_len : Z) : Prop := {
  f_key : 0 < key_len < 2 ^ 16;
  f_val : 0 <= val_len;
  f_sum : key_len + val_len + 16 + gs < 2 ^ 32;
  f_head : 14 + key_len <= MAX_KV_SIZE * gs
}.

Definition grains_of (key_len val_len : Z) : Z := kv_tot_grains_get gs key_len val_len.

Definition r_grains (r : krec) : Z := grains_of (klen r) (vlen r).

Record rec_ok (dev : device) (r : krec) : Prop := {
  ro_fits : fits (klen r) (vlen r);
  ro_stored : dev_read dev (r_grain r * gs) (length (r_bytes r)) = r_bytes r;
  ro_pba : valid_pba (r_grain r);
  ro_end : (r_grain r + r_grains r) * gs <= 2 ^ 62;
  ro_ts : in_width 64 (r_ts r)
}.

Definition apart (r1 r2 : krec) : Prop :=
  r_grain r1 + r_grains r1 <= r_grain r2 \/ r_grain r2 + r_grains r2 <= r_grain r1.

Definition r_triple (d : DirMap) (r : krec) : triple :=
  (dir_fp d (e_hash env (r_key r)), Z.min (r_grains r) MAX_KV_SIZE, r_grain r).

Record store_inv (k : Z) (s : kv) (recs : list krec) : Prop := {
  si_dir : dir_inv k (kv_map s);
  si_bag : dir_bag (kv_map s) ≡ₚ r_triple (kv_map s) <$> recs;
  si_recs : forall r, r ∈ recs -> rec_ok (kv_dev s) r;
  si_keys : NoDup (r_key <$> recs);
  si_apart : forall r1 r2, r1 ∈ recs -> r2 ∈ recs -> r1 = r2 \/ apart r1 r2;
  si_nr : kv_key_nr s = u64 (Z.of_nat (length recs));
  si_used : kv_used_bytes s = u64 (foldr (fun r a => klen r + vlen r + a) 0 recs);
  si_total : kv_total_bytes s = u64 (foldr (fun r a => r_grains r * gs + a) 0 recs)
}.

(** ** Sizes *)

Section Sizes.
Context (Hq : quiet env) (ks vs : Z) (Hf : fits ks vs).

Lemma raw_bytes_fits : kv_tot_raw_bytes_get ks vs = ks + vs + 16.
Proof.
  destruct Hf as [Hk Hv Hs _]. pose proof (q_grain _ Hq). unfold kv_tot_raw_bytes_get.
  change (Z.of_nat sizeof_store) with 14. change (Z.of_nat sizeof_suffix) with 2.
  rewrite (wrap_small 32 vs), (wrap_small 32 ks), (wrap_small 32 (vs + ks)),
    (wrap_small 64 (vs + ks + 14)), wrap_small by (unfold in_width; lia). lia.
Qed.

Lemma grains_spec : 0 < grains_of ks vs /\
  ks + vs + 16 <= grains_of ks vs * gs < ks + vs + 16 + gs.
Proof.
  destruct Hf as [Hk Hv Hs _]. pose proof (q_grain _ Hq) as Hg.
  unfold grains_of, kv_tot_grains_get. rewrite raw_bytes_fits.
  pose proof (udiv_round_up_spec (ks + vs + 16) gs) as H. simpl in H.
  destruct H as [[Hq0 Hq1]|[? _]]; [lia..| |lia].
  assert (0 < udiv_round_up (ks + vs + 16) gs) by nia. split; [done|]. nia.
Qed.

Lemma tot_bytes_fits : kv_tot_bytes_get gs ks vs = grains_of ks vs * gs.
Proof.
  destruct grains_spec as [H1 H2]. pose proof (q_grain _ Hq). destruct Hf as [Hk Hv Hs _].
  unfold kv_tot_bytes_get. fold (grains_of ks vs). rewrite wrap_small; [lia|]. unfold in_width. nia.
Qed.

Lemma kv_raw_fits : kv_raw_bytes_get ks vs = ks + vs.
Proof.
  destruct Hf as [Hk Hv Hs _]. pose proof (q_grain _ Hq). unfold kv_raw_bytes_get.
  rewrite (wrap_small 32 vs), (wrap_small 32 ks), wrap_small by (unfold in_width; lia). lia.
Qed.

End Sizes.

Lemma r_bytes_length r : Z.of_nat (length (r_bytes r)) = 14 + klen r + vlen r.
Proof.
  unfold r_bytes, klen, vlen. rewrite !length_app, header_bytes_length. unfold sizeof_store. lia.
Qed.

Lemma rec_header_wf dev r : quiet env -> rec_ok dev r -> header_wf (r_header r).
Proof.
  intros Hq [[Hk Hv Hs _] _ _ _ Ht]. pose proof (q_grain _ Hq).
  split; simpl; [|unfold in_width; lia|done]. unfold in_width. lia.
Qed.

(** Reading [n] bytes at a record's grain, at least as many as it has. *)
Lemma rec_read dev r n :
  rec_ok dev r -> (length (r_bytes r) <= n)%nat ->
  exists rest, dev_read dev (r_grain r * gs) n = r_bytes r ++ rest.
Proof.
  intros Hr Hn. replace n with (length (r_bytes r) + (n - length (r_bytes r)))%nat by lia.
  rewrite dev_read_app, (ro_stored _ _ Hr). eauto.
Qed.

(** Reading only the header and [n] bytes after it. *)
Lemma rec_read_head dev r n :
  quiet env -> rec_ok dev r -> (14 <= n)%nat ->
  header_of (take 14 (dev_read dev (r_grain r * gs) n)) = r_header r.
Proof.
  intros Hq Hr Hn. rewrite dev_read_take by done.
  pose proof (ro_stored _ _ Hr) as Hst. apply (f_equal (take 14)) in Hst.
  rewrite dev_read_take in Hst.
  2:{ unfold r_bytes. rewrite length_app, header_bytes_length. unfold sizeof_store. lia. }
  rewrite Hst. unfold r_bytes. rewrite take_app_length' by done.
  rewrite <- (app_nil_r (header_bytes _)). apply header_of_bytes. by apply (rec_header_wf dev).
Qed.

Lemma rec_read_key dev r n :
  rec_ok dev r -> (14 + length (r_key r) <= n)%nat ->
  take (length (r_key r)) (drop 14 (dev_read dev (r_grain r * gs) n)) = r_key r.
Proof.
  intros Hr Hn. pose proof (ro_stored _ _ Hr) as Hst.
  assert (dev_read dev (r_grain r * gs) (14 + length (r_key r)) = header_bytes (r_header r) ++ r_key r) as Hk.
  { apply (f_equal (take (14 + length (r_key r)))) in Hst. rewrite dev_read_take in Hst.
    2:{ unfold r_bytes. rewrite !length_app, header_bytes_length. unfold sizeof_store. lia. }
    rewrite Hst. unfold r_bytes. rewrite app_assoc, take_app_length'; [done|].
    by rewrite length_app, header_bytes_length. }
  replace n with (14 + length (r_key r) + (n - (14 + length (r_key r))))%nat by lia.
  rewrite dev_read_app, Hk, <- app_assoc, drop_app_length' by done. by rewrite take_app_length.
Qed.

End Inv.
