(* ===== verification/KvGet.v ===== *)
(** * KvGet: the lookups of the store are exact

    With no other thread running and I/O that succeeds, get and exists find a
    key exactly when the store holds a record of it, whatever other keys share
    its fingerprint, and return that record's value and size. *)
From Stdlib Require Import ZArith Lia.
From stdpp Require Import base tactics list numbers.
From S2P Require Import Prelude Util HashEntry HopscotchMap HopscotchSpec HopscotchRefine.
From S2P Require Import FpTable DirectoryMap DirectoryGrow DirectoryOps Mbuff MbuffSpec MbuffHead.
From S2P Require Import StoreFormat KvStore KvIo KvInv.

Open Scope Z_scope.

(** ** The slots of a hash *)

Definition slots (d : DirMap) (h : Z) : list nat :=
  match_slots (table d h) h (hb64 (table d h) h) BUCKET.

(** Those whose grain has not been visited. *)
Definition unseen (d : DirMap) (h : Z) (vis : list Z) : list nat :=
  filter (fun q => visited_pba (pba (ent (table d h) q)) vis = false) (slots d h).

Lemma common_loop_spec d h vis fuel p :
  common_loop (S fuel) d h vis p =
  head (filter (fun q => visited_pba (pba (ent (table d h) q)) vis = false)
          (next_list fuel (table d h) h p)).
Proof.
  revert p. induction fuel as [|fuel IH]; intros p.
  all: cbn [next_list]; rewrite filter_cons.
  1: set (f := 0%nat). 2: remember (S fuel) as f eqn:Hf.
  all: cbn [common_loop]; change (entry_at d h p) with (ent (table d h) p).
  all: destruct (visited_pba (pba (ent (table d h) p)) vis) eqn:Hv;
    [rewrite decide_False by done|by rewrite decide_True by done]; cbn [negb].
  all: change (dir_next d (Some p) h) with (next (table d h) (Some p) h);
    destruct (next (table d h) (Some p) h) as [q|]; [|done].
  - done.
  - subst f. apply IH.
Qed.

Section Dir.
Context (k : Z) (d : DirMap) (Hd : dir_inv k d) (h : Z).

Lemma elem_of_slots q : q ∈ slots d h <-> matches (table d h) h q.
Proof.
  unfold slots, match_slots. rewrite list_elem_of_filter, elem_of_seq, matchesb_spec.
  split; [by intros [? _]|]. intros Hm. split; [done|].
  exact (matches_in_bucket _ (table_wf k d Hd h) h q Hm).
Qed.

Lemma lookup_common_cases vis :
  (slots d h <> [] /\ lookup_common d h vis = (0, head (unseen d h vis))) \/
  (slots d h = [] /\ exists p, lookup_common d h vis = (ENODATA, Some p) /\ free_slot (table d h) h p) \/
  (slots d h = [] /\ lookup_common d h vis = (ENOSPC, None) /\ full (table d h) h).
Proof.
  pose proof (table_wf k d Hd h) as Hwf. pose proof (table_chained k d Hd h) as Hc.
  assert (forall r, (forall q, ~ matches (table d h) h q) -> slots d h = [] \/ r) as Hnil.
  { intros r Hno. left.
    destruct (slots d h) as [|q l] eqn:Hs; [done|]. exfalso. apply (Hno q), elem_of_slots.
    rewrite Hs. apply elem_of_cons. by left. }
  unfold lookup_common. change (dir_lookup d h) with (lookup (table d h) h).
  destruct (lookup_cases _ Hwf h) as [(p & Hl & Hm & Hno)|[(p & -> & Hf & Hno)|(-> & Hall & Hno)]].
  - left. rewrite Hl. split.
    + intros Hs. apply elem_of_slots in Hm. rewrite Hs in Hm. by apply elem_of_nil in Hm.
    + f_equal. rewrite common_loop_spec. unfold unseen, slots. do 2 f_equal.
      rewrite <- found_list_spec by done. unfold found_list. by rewrite Hl.
  - right; left. destruct (Hnil False (Hno Hc)) as [Hs|[]]. split; [done|]. by exists p.
  - right; right. destruct (Hnil False Hno) as [Hs|[]]. split; [done|]. split; [done|].
    intros q Hq. by apply Hall.
Qed.

Lemma unseen_in vis q : q ∈ unseen d h vis -> q ∈ slots d h /\ pba (ent (table d h) q) ∉ vis.
Proof.
  unfold unseen. rewrite list_elem_of_filter. intros [Hv Hs]. split; [done|].
  intros Hin. unfold visited_pba in Hv. apply not_true_iff_false in Hv. apply Hv, existsb_exists.
  exists (pba (ent (table d h) q)). split; [|apply Z.eqb_refl]. by apply list_elem_of_In.
Qed.

Lemma in_unseen vis q : q ∈ slots d h -> pba (ent (table d h) q) ∉ vis -> q ∈ unseen d h vis.
Proof.
  intros Hs Hv. unfold unseen. apply list_elem_of_filter. split; [|done].
  apply not_true_iff_false. intros He. apply existsb_exists in He as (x & Hx & Heq%Z.eqb_eq).
  apply Hv. rewrite Heq. by apply list_elem_of_In.
Qed.

Lemma filter_shrink {A} (P Q : A -> Prop) `{forall x, Decision (P x)} `{forall x, Decision (Q x)} (l : list A) (x : A) :
  (forall y, Q y -> P y) -> x ∈ l -> P x -> ~ Q x -> (length (filter Q l) < length (filter P l))%nat.
Proof.
  intros HQP. induction l as [|y l IH]; intros Hin HP HQ; [by apply elem_of_nil in Hin|].
  rewrite !filter_cons. apply elem_of_cons in Hin as [<-|Hin].
  - rewrite decide_False, decide_True by done. simpl.
    assert (length (filter Q l) <= length (filter P l))%nat; [|lia].
    clear -HQP. induction l as [|y l IH]; [done|]. rewrite !filter_cons.
    repeat case_decide; simpl; try lia. exfalso. auto.
  - specialize (IH Hin HP HQ). repeat case_decide; simpl; try lia. exfalso. auto.
Qed.

(** Visiting the grain of an unseen slot leaves fewer unseen. *)
Lemma unseen_shrinks vis q :
  q ∈ unseen d h vis ->
  (length (unseen d h (vis ++ [pba (ent (table d h) q)])) < length (unseen d h vis))%nat.
Proof.
  intros Hq. pose proof (unseen_in vis q Hq) as [Hs Hv]. unfold unseen in *.
  apply list_elem_of_filter in Hq as [Hq _].
  apply (filter_shrink _ _ _ q); [|done|done|].
  - intros y. unfold visited_pba. rewrite existsb_app. intros [? _]%orb_false_iff. done.
  - unfold visited_pba. rewrite existsb_app. simpl. rewrite Z.eqb_refl, orb_true_r. done.
Qed.

Lemma unseen_le vis : (length (unseen d h vis) <= BUCKET)%nat.
Proof.
  unfold unseen, slots, match_slots. etrans; [apply length_filter|]. etrans; [apply length_filter|].
  by rewrite length_seq.
Qed.

(** The slots hold the entries of the directory with the fingerprint. *)
Lemma slot_entry q : q ∈ slots d h ->
  (dir_fp d h, kv_size (ent (table d h) q), pba (ent (table d h) q)) ∈ dir_bag d.
Proof.
  intros Hm%elem_of_slots. pose proof Hm as [Hl Hfp].
  assert ((dir_fp d h, kv_size (ent (table d h) q), pba (ent (table d h) q)) ∈
    filter (fun t => fp_of t = fp (map_entry_nr_bits_m d) h) (dir_bag d)) as Hin.
  { rewrite (filter_dir_bag k d (proj1 Hd)). apply list_elem_of_filter. split; [done|].
    apply elem_of_entries. exists q. split; [done|].
    unfold table in *. rewrite <- Hfp. by rewrite <- (table_fp k d Hd h). }
  by apply list_elem_of_filter in Hin as [_ ?].
Qed.

Lemma entry_slot sz g : (dir_fp d h, sz, g) ∈ dir_bag d ->
  exists q, q ∈ slots d h /\ kv_size (ent (table d h) q) = sz /\ pba (ent (table d h) q) = g.
Proof.
  intros Hin.
  assert ((dir_fp d h, sz, g) ∈ filter (fun t => fp_of t = fp (map_entry_nr_bits_m d) h) (dir_bag d)) as Hf.
  { apply list_elem_of_filter. done. }
  rewrite (filter_dir_bag k d (proj1 Hd)) in Hf. apply list_elem_of_filter in Hf as [Hfp Hent].
  apply elem_of_entries in Hent as (q & Hl & Heq). exists q. fold (table d h) in *.
  injection Heq as Hfp' Hsz Hg. split; [|done]. apply elem_of_slots. split; [done|].
  by rewrite (table_fp k d Hd h).
Qed.

End Dir.

(** ** Reading the record of a slot *)

Section Get.
Context (env : kv_env) (Hq : quiet env).
Context (k : Z) (s : kv) (recs : list krec) (Hinv : store_inv env k s recs).

Local Abbreviation gs := (e_grain_size env).
Local Abbreviation d := (kv_map s).

Definition entry_of (h : Z) (q : nat) (r : krec) : Prop :=
  kv_size (ent (table d h) q) = Z.min (r_grains env r) MAX_KV_SIZE /\
  pba (ent (table d h) q) = r_grain r.

Lemma slot_rec h q : q ∈ slots d h -> exists r, r ∈ recs /\ entry_of h q r.
Proof.
  intros Hs. apply (slot_entry k d (si_dir _ _ _ _ Hinv)) in Hs.
  rewrite (si_bag _ _ _ _ Hinv) in Hs. apply list_elem_of_fmap in Hs as (r & Heq & Hr).
  exists r. split; [done|]. unfold r_triple in Heq. injection Heq as _ H1 H2. done.
Qed.

Lemma rec_slot r : r ∈ recs -> exists q, q ∈ slots d (e_hash env (r_key r)) /\ entry_of (e_hash env (r_key r)) q r.
Proof.
  intros Hr. destruct (entry_slot k d (si_dir _ _ _ _ Hinv) (e_hash env (r_key r))
    (Z.min (r_grains env r) MAX_KV_SIZE) (r_grain r)) as (q & Hs & H1 & H2).
  - rewrite (si_bag _ _ _ _ Hinv). apply list_elem_of_fmap. by exists r.
  - by exists q.
Qed.

Lemma grain_inj r1 r2 : r1 ∈ recs -> r2 ∈ recs -> r_grain r1 = r_grain r2 -> r1 = r2.
Proof.
  intros H1 H2 Hg. destruct (si_apart _ _ _ _ Hinv r1 r2 H1 H2) as [|Ha]; [done|].
  pose proof (grains_spec env Hq _ _ (ro_fits _ _ _ (si_recs _ _ _ _ Hinv r1 H1))) as [Hp1 _].
  pose proof (grains_spec env Hq _ _ (ro_fits _ _ _ (si_recs _ _ _ _ Hinv r2 H2))) as [Hp2 _].
  unfold apart, r_grains in Ha. lia.
Qed.

Lemma key_inj r1 r2 : r1 ∈ recs -> r2 ∈ recs -> r_key r1 = r_key r2 -> r1 = r2.
Proof.
  intros [i H1]%list_elem_of_lookup [j H2]%list_elem_of_lookup Hk.
  pose proof (si_keys _ _ _ _ Hinv) as Hnd. rewrite NoDup_alt in Hnd.
  assert (i = j) as <-; [|congruence].
  apply (Hnd i j (r_key r1)); rewrite list_lookup_fmap; [by rewrite H1|by rewrite H2, Hk].
Qed.

Lemma grain_offset_fits r : r ∈ recs -> u64 (r_grain r * gs) = r_grain r * gs.
Proof.
  intros Hr. pose proof (si_recs _ _ _ _ Hinv r Hr) as Hok. pose proof (q_grain _ Hq).
  pose proof (grains_spec env Hq _ _ (ro_fits _ _ _ Hok)) as [Hp _].
  destruct (ro_pba _ _ _ Hok) as [? _]. pose proof (ro_end _ _ _ Hok). unfold r_grains in *.
  apply wrap_small. unfold in_width. nia.
Qed.

(** The bytes a lookup reads of a record. *)
Definition aligned_size (n : Z) : nat := Z.to_nat (align_up n (io_alignment env)).

Lemma aligned_size_spec n : 0 <= n < 2 ^ 62 ->
  n <= Z.of_nat (aligned_size n) < 2 ^ 63.
Proof.
  intros Hn. pose proof (q_grain _ Hq). unfold aligned_size, io_alignment.
  pose proof (align_up_spec n (Z.min 512 gs)) as [_ Hal]; lia.
Qed.

Section Key.
Context (key : list Z) (mb_key : mbuff) (Hkw : mb_wf mb_key).
Context (Hkey : take (length key) (data mb_key) = key) (Hlen : 0 < Z.of_nat (length key) < 2 ^ 16).

Local Abbreviation h := (e_hash env key).

Lemma key_matches_spec r mb n :
  rec_ok env (kv_dev s) r -> mb_wf mb -> data mb = dev_read (kv_dev s) (r_grain r * gs) n ->
  (length (r_key r) = length key -> 14 + length key <= n)%nat ->
  key_matches (r_header r) mb_key 0 (length key) mb = Some (bool_decide (r_key r = key)).
Proof.
  intros Hr Hw Hd Hn. unfold key_matches. simpl key_size.
  destruct (Z.eqb_spec (klen r) (Z.of_nat (length key))) as [Hl|Hl].
  2:{ rewrite bool_decide_eq_false_2; [done|]. intros <-. done. }
  unfold klen in Hl. rewrite mem_compare_spec; [|done|done|lia|lia|].
  2:{ unfold putKeyvalPrefixSize, sizeof_store. lia. }
  assert (length key <= length (data mb_key))%nat as Hle.
  { rewrite <- Hkey at 1. rewrite length_take. lia. }
  rewrite decide_True.
  2:{ rewrite Hd, dev_read_length. unfold putKeyvalPrefixSize, sizeof_store. lia. }
  rewrite drop_0, Hkey, Hd. replace (length key) with (length (r_key r)) by lia.
  change putKeyvalPrefixSize with 14%nat. rewrite rec_read_key by (done || lia).
  unfold bytes_eqb. f_equal. repeat case_bool_decide; done || congruence.
Qed.

(** A read that covers the header and the key tells whether the key is there. *)
Lemma read_compare mb n r t :
  r ∈ recs -> mb_wf mb -> Z.of_nat (length (data mb)) < 2 ^ 64 ->
  14 <= Z.of_nat n < 2 ^ 63 -> (length (r_key r) = length key -> 14 + length key <= n)%nat ->
  exists mb' t', read_record env mb n (u64 (r_grain r * gs)) (at_tick t s) = Some ((0, false, mb'), at_tick t' s) /\
    mb_wf mb' /\ data mb' = dev_read (kv_dev s) (r_grain r * gs) n /\
    header_of <$> copy_to_buffer mb' 0 sizeof_store = Some (r_header r) /\
    key_matches (r_header r) mb_key 0 (length key) mb' = Some (bool_decide (r_key r = key)) /\
    keeps_room mb mb'.
Proof.
  intros Hr Hw Hlt Hn Hkn. rewrite grain_offset_fits by done.
  pose proof (si_recs _ _ _ _ Hinv r Hr) as Hok.
  destruct (read_record_spec env Hq mb n (r_grain r * gs) (at_tick t s)) as (mb' & t' & He & Hw' & Hd & Hkr);
    [done|done|lia|].
  exists mb', t'. split; [exact He|]. split; [done|]. split; [done|].
  change (kv_dev (at_tick t s)) with (kv_dev s) in Hd. split; [|split; [|done]].
  - rewrite copy_to_buffer_spec by done. simpl. rewrite drop_0, Hd. f_equal.
    apply rec_read_head; [done|done|lia].
  - eapply key_matches_spec; [done|done|done|lia].
Qed.

Definition short (mb : mbuff) : Prop := mb_wf mb /\ Z.of_nat (length (data mb)) < 2 ^ 64.

(** The sizes that the map entry of a record gives for its reads. *)
Lemma entry_io_size r : r ∈ recs ->
  let sz := Z.min (r_grains env r) MAX_KV_SIZE in
  u64 (sz * gs) = sz * gs /\ 14 + klen r <= sz * gs < 2 ^ 62 /\
  u64 (gs * r_grains env r) = r_grains env r * gs /\ r_grains env r * gs < 2 ^ 62 /\
  Z.of_nat (length (r_bytes r)) <= r_grains env r * gs.
Proof.
  intros Hr sz. pose proof (si_recs _ _ _ _ Hinv r Hr) as Hok. pose proof (q_grain _ Hq) as Hg.
  destruct (ro_fits _ _ _ Hok) as [Hk Hv Hs Hh].
  pose proof (grains_spec env Hq _ _ (ro_fits _ _ _ Hok)) as [Hp [Hlo Hhi]].
  fold (r_grains env r) in *. rewrite r_bytes_length.
  assert (sz * gs <= r_grains env r * gs) by (apply Z.mul_le_mono_nonneg_r; lia).
  assert (14 + klen r <= sz * gs) by (unfold sz; destruct (Z.min_spec (r_grains env r) MAX_KV_SIZE) as [[_ ->]|[_ ->]]; lia).
  rewrite (Z.mul_comm gs), !wrap_small by (unfold in_width; lia). lia.
Qed.

(** ** The search loop

    The three lookups are loops of one shape: a round takes the first slot of
    the hash whose grain was not visited, reads its record, and stops if the key
    is there; otherwise it visits the grain and goes on. *)

Section Search.
Context {X R : Type} (P : X -> Prop) (loop : nat -> X -> list Z -> nat -> option (R * kv)).
Context (Found : nat -> krec -> R -> Prop) (Ended : Z * option nat -> R -> Prop).

Definition round_ok : Prop := forall fuel vis x t q r,
  lookup_common d h vis = (0, Some q) -> q ∈ slots d h -> r ∈ recs -> entry_of h q r -> P x ->
  if decide (r_key r = key)
  then exists res t', loop (S fuel) x vis t = Some (res, at_tick t' s) /\ Found q r res
  else exists x' t', P x' /\ loop (S fuel) x vis t = loop fuel x' (vis ++ [r_grain r]) t'.

Definition end_ok : Prop := forall fuel vis x t,
  P x -> (forall q, lookup_common d h vis <> (0, Some q)) ->
  exists res t', loop (S fuel) x vis t = Some (res, at_tick t' s) /\ Ended (lookup_common d h vis) res.

Context (Hround : round_ok) (Hend : end_ok).

Lemma lookup_first vis q l :
  unseen d h vis = q :: l ->
  q ∈ slots d h /\ lookup_common d h vis = (0, Some q) /\
  exists r, r ∈ recs /\ entry_of h q r /\
    (length (unseen d h (vis ++ [r_grain r])) < length (unseen d h vis))%nat.
Proof.
  intros Hu. assert (q ∈ unseen d h vis) as Hin by (rewrite Hu; by left).
  destruct (unseen_in d h vis q Hin) as [Hqs Hqv]. split; [done|]. split.
  - destruct (lookup_common_cases k d (si_dir _ _ _ _ Hinv) h vis) as [[_ ->]|[[Hs _]|[Hs _]]];
      [by rewrite Hu|rewrite Hs in Hqs; by apply elem_of_nil in Hqs..].
  - destruct (slot_rec h q Hqs) as (r & Hr & Hent). exists r. split; [done|]. split; [done|].
    destruct Hent as [_ <-]. by apply unseen_shrinks.
Qed.

(** The loop reaches the record of the key past those of other keys. *)
Lemma search_found fuel vis x t r :
  r ∈ recs -> r_key r = key -> r_grain r ∉ vis -> P x -> (length (unseen d h vis) < fuel)%nat ->
  exists q res t', loop fuel x vis t = Some (res, at_tick t' s) /\ Found q r res /\
    q ∈ slots d h /\ entry_of h q r.
Proof.
  revert vis x t. induction fuel as [|fuel IH]; intros vis x t Hr Hk Hv Hx Hf; [lia|].
  destruct (rec_slot r Hr) as (q0 & Hq0 & _ & Hp0). rewrite Hk in Hq0, Hp0.
  assert (q0 ∈ unseen d h vis) as Hu0 by (apply in_unseen; [done|by rewrite Hp0]).
  destruct (unseen d h vis) as [|q l] eqn:Hu; [by apply elem_of_nil in Hu0|].
  destruct (lookup_first vis q l Hu) as (Hqs & Hlc & r' & Hr' & Hent & Hlt).
  pose proof (Hround fuel vis x t q r' Hlc Hqs Hr' Hent Hx) as Hstep. case_decide as Heq.
  - assert (r' = r) as -> by (apply key_inj; congruence).
    destruct Hstep as (res & t' & He & HF). by exists q, res, t'.
  - destruct Hstep as (x' & t' & Hx' & ->). apply IH; [done|done| |done|rewrite Hu in Hlt; lia].
    intros [?|Hin]%elem_of_app; [done|]. apply list_elem_of_singleton in Hin.
    apply Heq. by rewrite <- (grain_inj r r' Hr Hr' Hin).
Qed.

(** With no record of the key it visits every slot of the hash, and ends. *)
Lemma search_absent fuel vis x t :
  key ∉ r_key <$> recs -> P x -> (length (unseen d h vis) < fuel)%nat ->
  exists vis' res t', loop fuel x vis t = Some (res, at_tick t' s) /\
    Ended (lookup_common d h vis') res /\ unseen d h vis' = [].
Proof.
  revert vis x t. induction fuel as [|fuel IH]; intros vis x t Hk Hx Hf; [lia|].
  destruct (unseen d h vis) as [|q l] eqn:Hu.
  - destruct (Hend fuel vis x t Hx) as (res & t' & He & HE).
    + intros q. destruct (lookup_common_cases k d (si_dir _ _ _ _ Hinv) h vis)
        as [[_ ->]|[(_ & p & -> & _)|(_ & -> & _)]]; [by rewrite Hu|done..].
    + by exists vis, res, t'.
  - destruct (lookup_first vis q l Hu) as (Hqs & Hlc & r' & Hr' & Hent & Hlt).
    pose proof (Hround fuel vis x t q r' Hlc Hqs Hr' Hent Hx) as Hstep. rewrite decide_False in Hstep.
    2:{ intros Hk'. apply Hk, list_elem_of_fmap. by exists r'. }
    destruct Hstep as (x' & t' & Hx' & ->). apply IH; [done|done|rewrite Hu in Hlt; lia].
Qed.

End Search.

Lemma lookup_round fuel vis mb t q r :
  lookup_common d h vis = (0, Some q) -> r ∈ recs -> entry_of h q r -> short mb ->
  exists mb' t', short mb' /\ keeps_room mb mb' /\
    lookup_mbuff_loop env (S fuel) h mb_key 0 (length key) mb vis (at_tick t s) =
      (if decide (r_key r = key) then Some ((EEXIST, vlen r, mb'), at_tick t' s)
       else lookup_mbuff_loop env fuel h mb_key 0 (length key) mb' (vis ++ [r_grain r]) (at_tick t' s)) /\
    (r_key r = key -> exists n, (length (r_bytes r) <= n)%nat /\
       data mb' = dev_read (kv_dev s) (r_grain r * gs) n).
Proof.
  intros Hlc Hr [Hsz Hpba] [Hw Hlt].
  destruct (entry_io_size r Hr) as (Hu & Hio & Hu2 & Hgr & Hrb). set (sz := Z.min _ _) in *.
  pose proof (aligned_size_spec (sz * gs) ltac:(unfold klen in Hio; lia)) as Hal.
  cbn [lookup_mbuff_loop]. erewrite bind_run by reflexivity. change (kv_map (at_tick t s)) with d.
  rewrite Hlc. cbv beta iota. change (negb (0 =? 0)) with false. cbv iota.
  rewrite (bind_run _ _ _ _ _ (others_run_quiet env Hq _)), at_tick_at_tick.
  change (entry_at d h q) with (ent (table d h) q). rewrite Hsz, Hpba, Hu. fold (aligned_size (sz * gs)).
  destruct (read_compare mb (aligned_size (sz * gs)) r (S (kv_tick (at_tick t s))))
    as (mb1 & t1 & He & Hw1 & Hd1 & Hhdr & Hcmp & Hroom); [done..|unfold klen in *; lia|unfold klen in *; lia|].
  rewrite (bind_run _ _ _ _ _ He). change (negb (0 =? 0)) with false. cbv iota beta.
  destruct (copy_to_buffer mb1 0 sizeof_store) as [hdr|]; [|done].
  apply (inj Some) in Hhdr. erewrite bind_run by reflexivity. rewrite Hhdr, Hcmp.
  erewrite bind_run by reflexivity. cbv beta.
  assert (short mb1) as Hs1 by (split; [done|rewrite Hd1, dev_read_length; lia]).
  destruct (decide (r_key r = key)) as [Heq|Hne].
  - rewrite bool_decide_eq_true_2 by done.
    change (kv_tot_grains_get gs (key_size (r_header r)) (val_size (r_header r))) with (r_grains env r).
    rewrite Hu2. destruct (Z.eqb_spec (sz * gs) (r_grains env r * gs)) as [Hsame|Hdiff]; cbn [negb].
    + rewrite (bind_run _ _ _ _ _ (others_run_quiet env Hq _)), at_tick_at_tick.
      eexists mb1, _. do 2 (split; [done|]). split; [reflexivity|]. intros _. eexists. split; [|exact Hd1]. lia.
    + rewrite (Z.mul_comm _ gs), Hu2. fold (aligned_size (r_grains env r * gs)).
      pose proof (aligned_size_spec (r_grains env r * gs) ltac:(lia)) as Hal2.
      destruct (read_compare mb1 (aligned_size (r_grains env r * gs)) r t1)
        as (mb2 & t2 & He2 & Hw2 & Hd2 & _ & _ & Hroom2); [done|done|apply Hs1|rewrite r_bytes_length in Hrb; unfold klen, vlen in *; lia..|].
      rewrite (bind_run _ _ _ _ _ He2). cbv beta iota.
      rewrite (bind_run _ _ _ _ _ (others_run_quiet env Hq _)), at_tick_at_tick.
      change (negb (0 =? 0)) with false. cbv iota.
      eexists mb2, _. split; [split; [done|rewrite Hd2, dev_read_length; lia]|].
      split; [by apply (keeps_room_trans _ mb1)|]. split; [reflexivity|]. intros _. eexists. split; [|exact Hd2]. lia.
  - rewrite bool_decide_eq_false_2 by done.
    rewrite (bind_run _ _ _ _ _ (others_run_quiet env Hq _)), at_tick_at_tick.
    eexists mb1, _. do 2 (split; [done|]). split; [reflexivity|done].
Qed.

(** What a lookup of an absent key answers. *)
Definition bucket_full (m : uDepotMap) (h : Z) : bool := forallb (live_slot m) (seq (hb64 m h) BUCKET).

Definition absent_err : Z :=
  if bool_decide (slots d h = []) && bucket_full (table d h) h then ENOSPC else ENODATA.

Lemma bucket_full_spec (m : uDepotMap) (h' : Z) : bucket_full m h' = true <-> full m h'.
Proof.
  unfold bucket_full, full, in_bucket. rewrite forallb_forall. split; intros H q Hin; apply H.
  - by apply in_seq.
  - by apply in_seq in Hin.
Qed.

Lemma common_absent vis : unseen d h vis = [] ->
  (slots d h <> [] /\ lookup_common d h vis = (0, None) /\ absent_err = ENODATA) \/
  (exists p, lookup_common d h vis = (ENODATA, Some p) /\ free_slot (table d h) h p /\ absent_err = ENODATA) \/
  (lookup_common d h vis = (ENOSPC, None) /\ full (table d h) h /\ absent_err = ENOSPC).
Proof.
  intros Hu. unfold absent_err.
  destruct (lookup_common_cases k d (si_dir _ _ _ _ Hinv) h vis)
    as [[Hne ->]|[(Hs & p & -> & Hfree)|(Hs & -> & Hfull)]].
  - left. rewrite Hu, bool_decide_eq_false_2 by done. done.
  - right; left. exists p. split; [done|]. split; [done|]. rewrite bool_decide_eq_true_2 by done.
    destruct (bucket_full _ h) eqn:Hb; [|done]. apply bucket_full_spec in Hb.
    destruct Hfree as (Hin & Hl & _). by rewrite Hb in Hl.
  - right; right. rewrite bool_decide_eq_true_2 by done. apply bucket_full_spec in Hfull as Hb.
    by rewrite Hb.
Qed.

(** *** lookup_mbuff *)

Definition holds_record (r : krec) (mb : mbuff) : Prop :=
  short mb /\ exists n, (length (r_bytes r) <= n)%nat /\ data mb = dev_read (kv_dev s) (r_grain r * gs) n.

Lemma lookup_mbuff_present fuel mb t r :
  r ∈ recs -> r_key r = key -> short mb -> (BUCKET < fuel)%nat ->
  exists mb' t', lookup_mbuff env fuel h mb_key 0 (length key) mb (at_tick t s) =
    Some ((EEXIST, vlen r, mb'), at_tick t' s) /\ holds_record r mb' /\ keeps_room mb mb'.
Proof.
  intros Hr Hk Hmb Hf. pose proof (unseen_le d h []) as Hle.
  destruct (search_found (fun x => short x /\ keeps_room mb x)
    (fun fuel mb vis t => lookup_mbuff_loop env fuel h mb_key 0 (length key) mb vis (at_tick t s))
    (fun _ r res => exists mb', res = (EEXIST, vlen r, mb') /\ holds_record r mb' /\ keeps_room mb mb'))
    with (fuel := fuel) (vis := @nil Z) (x := mb) (t := t) (r := r)
    as (q & res & t' & He & (mb' & -> & Hmb') & _);
    [|done|done|by apply not_elem_of_nil|by split; [|intros N _]|lia|].
  - intros f vis x t' q r' Hlc _ Hr' Hent [Hx Hxr].
    destruct (lookup_round f vis x t' q r' Hlc Hr' Hent Hx) as (mb1 & t1 & Hmb1 & Hr1 & He & Hdata).
    pose proof (keeps_room_trans _ _ _ Hxr Hr1).
    case_decide; [|by exists mb1, t1]. eexists _, t1. split; [exact He|].
    exists mb1. split; [done|]. split; [|done]. split; [done|]. by apply Hdata.
  - by exists mb', t'.
Qed.

Lemma lookup_mbuff_missing fuel mb t :
  key ∉ r_key <$> recs -> short mb -> (BUCKET < fuel)%nat ->
  exists mb' t', lookup_mbuff env fuel h mb_key 0 (length key) mb (at_tick t s) =
    Some ((absent_err, 0, mb'), at_tick t' s) /\ short mb' /\ keeps_room mb mb'.
Proof.
  intros Hk Hmb Hf. pose proof (unseen_le d h []) as Hle.
  destruct (search_absent (fun x => short x /\ keeps_room mb x)
    (fun fuel mb vis t => lookup_mbuff_loop env fuel h mb_key 0 (length key) mb vis (at_tick t s))
    (fun _ r res => True)
    (fun '(err, _) res => exists mb', res = (if err =? 0 then ENODATA else err, 0, mb') /\ short mb' /\ keeps_room mb mb'))
    with (fuel := fuel) (vis := @nil Z) (x := mb) (t := t)
    as (vis' & res & t' & He & HE & Hu); [| |done|by split; [|intros N _]|lia|].
  - intros f vis x t' q r' Hlc _ Hr' Hent [Hx Hxr].
    destruct (lookup_round f vis x t' q r' Hlc Hr' Hent Hx) as (mb1 & t1 & Hmb1 & Hr1 & He & _).
    pose proof (keeps_room_trans _ _ _ Hxr Hr1). case_decide; [|by exists mb1, t1]. eexists _, t1. by split; [exact He|].
  - intros f vis x t' Hx Hno. cbn [lookup_mbuff_loop]. erewrite bind_run by reflexivity.
    change (kv_map (at_tick t' s)) with d. destruct (lookup_common d h vis) as [err o].
    destruct (Z.eqb_spec err 0) as [->|Hne]; cbn [negb].
    + destruct o as [q|]; [by destruct (Hno q)|]. eexists _, t'. split; [reflexivity|]. by exists x.
    + eexists _, t'. split; [reflexivity|]. by exists x.
  - destruct (common_absent vis' Hu) as [(_ & Hc & Ha)|[(p & Hc & _ & Ha)|(Hc & _ & Ha)]];
      rewrite Hc in HE; destruct HE as (mb' & -> & Hmb'); exists mb', t'; by rewrite Ha.
Qed.

(** *** lookup_exists *)

Definition head_size : nat := aligned_size (Z.of_nat (putKeyvalPrefixSize + length key)).

Lemma head_size_spec : (14 + length key <= head_size)%nat /\ Z.of_nat head_size < 2 ^ 63.
Proof.
  unfold head_size. pose proof (aligned_size_spec (Z.of_nat (putKeyvalPrefixSize + length key))) as H.
  change putKeyvalPrefixSize with 14%nat in *. lia.
Qed.

Lemma exists_round fuel vis t q r :
  lookup_common d h vis = (0, Some q) -> r ∈ recs -> entry_of h q r ->
  exists t',
    lookup_exists_loop env (S fuel) h mb_key 0 (length key) vis (at_tick t s) =
      (if decide (r_key r = key) then Some ((EEXIST, vlen r), at_tick t' s)
       else lookup_exists_loop env fuel h mb_key 0 (length key) (vis ++ [r_grain r]) (at_tick t' s)).
Proof.
  intros Hlc Hr [Hsz Hpba]. destruct head_size_spec as [Hlo Hhi].
  pose proof (si_recs _ _ _ _ Hinv r Hr) as Hok.
  cbn [lookup_exists_loop]. erewrite bind_run by reflexivity. change (kv_map (at_tick t s)) with d.
  rewrite Hlc. cbv beta iota. change (negb (0 =? 0)) with false. cbv iota.
  rewrite (bind_run _ _ _ _ _ (others_run_quiet env Hq _)), at_tick_at_tick.
  change (entry_at d h q) with (ent (table d h) q). rewrite Hpba, grain_offset_fits by done.
  fold (aligned_size (Z.of_nat (putKeyvalPrefixSize + length key))). fold head_size. cbv zeta.
  destruct (add_buffers_spec env Hq mbuff_empty head_size (at_tick (S (kv_tick (at_tick t s))) s))
    as (mb0 & t0 & He0 & Hw0 & Hd0 & Hf0 & _); [apply mbuff_empty_wf|done|].
  rewrite (bind_run _ _ _ _ _ He0), at_tick_at_tick.
  destruct (Nat.ltb_spec (get_free_size mb0) head_size); [lia|].
  destruct (pread_spec env Hq mb0 head_size (r_grain r * gs) (at_tick t0 s)) as (mb1 & t1 & He1 & Hw1 & Hd1 & _).
  { done. } { unfold append_avail_size, get_free_size in *. lia. } { rewrite Hd0. simpl. lia. }
  rewrite Hd0 in Hd1. change (data mbuff_empty) with (@nil Z) in Hd1. rewrite app_nil_l in Hd1.
  rewrite (bind_run _ _ _ _ _ He1), at_tick_at_tick. change (negb (0 =? 0)) with false. cbv iota beta.
  rewrite copy_to_buffer_spec by done. erewrite bind_run by reflexivity.
  rewrite drop_0, Hd1. change (kv_dev (at_tick t0 s)) with (kv_dev s). change sizeof_store with 14%nat.
  rewrite rec_read_head by (done || lia). rewrite (key_matches_spec r mb1 head_size) by (done || lia).
  erewrite bind_run by reflexivity.
  rewrite (bind_run _ _ _ _ _ (others_run_quiet env Hq _)), at_tick_at_tick.
  destruct (decide (r_key r = key)) as [Heq|Hne].
  - rewrite bool_decide_eq_true_2 by done. eexists. reflexivity.
  - rewrite bool_decide_eq_false_2 by done. eexists. reflexivity.
Qed.

Lemma lookup_exists_present fuel t r :
  r ∈ recs -> r_key r = key -> (BUCKET < fuel)%nat ->
  exists t', lookup_exists env fuel h mb_key 0 (length key) (at_tick t s) = Some ((EEXIST, vlen r), at_tick t' s).
Proof.
  intros Hr Hk Hf. pose proof (unseen_le d h []) as Hle.
  destruct (search_found (fun _ : unit => True)
    (fun fuel _ vis t => lookup_exists_loop env fuel h mb_key 0 (length key) vis (at_tick t s))
    (fun _ r res => res = (EEXIST, vlen r)))
    with (fuel := fuel) (vis := @nil Z) (x := tt) (t := t) (r := r)
    as (q & res & t' & He & -> & _); [|done|done|by apply not_elem_of_nil|done|lia|].
  - intros f vis x t' q r' Hlc _ Hr' Hent _. destruct (exists_round f vis t' q r' Hlc Hr' Hent) as (t1 & He).
    case_decide; [eexists _, t1; by split; [exact He|]|by exists tt, t1].
  - by exists t'.
Qed.

Lemma lookup_exists_missing fuel t :
  key ∉ r_key <$> recs -> (BUCKET < fuel)%nat ->
  exists t', lookup_exists env fuel h mb_key 0 (length key) (at_tick t s) = Some ((absent_err, 0), at_tick t' s).
Proof.
  intros Hk Hf. pose proof (unseen_le d h []) as Hle.
  destruct (search_absent (fun _ : unit => True)
    (fun fuel _ vis t => lookup_exists_loop env fuel h mb_key 0 (length key) vis (at_tick t s))
    (fun _ r res => True) (fun '(err, _) res => res = (if err =? 0 then ENODATA else err, 0)))
    with (fuel := fuel) (vis := @nil Z) (x := tt) (t := t)
    as (vis' & res & t' & He & HE & Hu); [| |done|done|lia|].
  - intros f vis x t' q r' Hlc _ Hr' Hent _. destruct (exists_round f vis t' q r' Hlc Hr' Hent) as (t1 & He).
    case_decide; [eexists _, t1; by split; [exact He|]|by exists tt, t1].
  - intros f vis x t' _ Hno. cbn [lookup_exists_loop]. erewrite bind_run by reflexivity.
    change (kv_map (at_tick t' s)) with d. destruct (lookup_common d h vis) as [err o].
    destruct (Z.eqb_spec err 0) as [->|Hne]; cbn [negb]; [destruct o as [q|]; [by destruct (Hno q)|]|];
      eexists _, t'; split; reflexivity.
  - destruct (common_absent vis' Hu) as [(_ & Hc & Ha)|[(p & Hc & _ & Ha)|(Hc & _ & Ha)]];
      rewrite Hc in HE; subst res; exists t'; by rewrite Ha.
Qed.

End Key.

(** ** get *)

Lemma hash_mbuff_spec mb len t :
  mb_wf mb -> (0 < len <= length (data mb))%nat -> Z.of_nat len < 2 ^ 64 ->
  exists t', hash_mbuff env mb 0 len (at_tick t s) =
    Some ((0, e_hash env (take len (data mb))), at_tick t' s).
Proof.
  intros Hw Hlen Hlt. unfold hash_mbuff.
  pose proof (iterate_valid_init_spec mb 0 len Hw ltac:(lia) ltac:(lia)) as Hit.
  rewrite decide_True in Hit by lia. destruct Hit as (it & -> & Hi & Hl & Hr).
  erewrite bind_run by reflexivity. cbv beta iota. rewrite drop_0 in Hr.
  unfold is_next_valid. destruct (Nat.ltb_spec (length (i_chunk_ it)) (i_len_ it)) as [Hm|Hm].
  - erewrite bind_run by reflexivity.
    destruct (q_mem _ Hq (kv_tick (at_tick t s)) len) as (ptr & buf & -> & _).
    rewrite copy_to_buffer_spec, drop_0 by done. erewrite bind_run by reflexivity.
    rewrite length_take, Nat.min_l, Nat.eqb_refl by lia. eexists. reflexivity.
  - exists t. rewrite <- Hr. unfold iter_rest.
    replace (i_len_ it - length (i_chunk_ it))%nat with 0%nat by lia.
    by rewrite take_0, app_nil_r.
Qed.

(** What [get] leaves in the caller's Mbuff, and its return code. *)
Lemma get_found fuel key val_out r :
  mb_wf key -> 0 < Z.of_nat (length (data key)) < 2 ^ 16 -> short val_out -> (BUCKET < fuel)%nat ->
  r ∈ recs -> r_key r = data key ->
  exists mb0 mb t rest, get env fuel key val_out s = Some ((0, mb), at_tick t s) /\ short mb0 /\
    keeps_room val_out mb0 /\ data mb0 = r_bytes r ++ rest /\
    reslice mb0 (length (r_val r)) (14 + length (data key)) = Some (0, mb) /\ mb_wf mb /\ data mb = r_val r.
Proof.
  intros Hw Hlen Hv Hf Hr Hk.
  destruct (hash_mbuff_spec key (length (data key)) (kv_tick s) Hw) as (t0 & Hh); [lia|lia|].
  rewrite at_tick_self, take_ge in Hh by done.
  assert (take (length (data key)) (data key) = data key) as Htk by (by rewrite take_ge).
  assert (get_valid_size key = length (data key)) as Hgv by (symmetry; by apply data_length).
  destruct (lookup_mbuff_present (data key) key Hw Htk Hlen fuel val_out t0 r Hr Hk Hv Hf)
    as (mb & t1 & He & ([Hmw Hms] & n & Hn & Hd) & Hroom).
  pose proof (si_recs _ _ _ _ Hinv r Hr) as Hok. destruct (rec_read env _ r n Hok Hn) as [rest Hrest].
  rewrite Hrest in Hd. assert (length (r_key r) = length (data key)) as Hkl by congruence.
  destruct (reslice_spec mb (length (r_val r)) (14 + length (data key)) Hmw) as (mb' & Hre & Hw' & Hd' & _).
  { pose proof (r_bytes_length r). unfold klen, vlen in *. rewrite Hd, length_app in Hms. lia. }
  { pose proof (r_bytes_length r). unfold klen, vlen in *. rewrite Hd, length_app. lia. }
  exists mb, mb'. eexists _, rest. split; [|split; [done|split; [done|split; [done|split; [done|split; [done|]]]]]].
  - unfold get. rewrite Hgv, (bind_run _ _ _ _ _ Hh). cbn [negb Z.eqb].
    rewrite (bind_run _ _ _ _ _ He). change (EEXIST =? EEXIST) with true. cbv iota.
    unfold vlen. rewrite Nat2Z.id. change putKeyvalPrefixSize with 14%nat. unfold reslice_. rewrite Hre.
    reflexivity.
  - rewrite Hd', Hd. unfold r_bytes. rewrite <- Hkl, !app_assoc.
    rewrite <- (app_assoc (header_bytes _ ++ r_key r)), drop_app_length'.
    2:{ by rewrite length_app, header_bytes_length. }
    by rewrite take_app_length.
Qed.

Lemma get_missed fuel key val_out :
  mb_wf key -> 0 < Z.of_nat (length (data key)) < 2 ^ 16 -> short val_out -> (BUCKET < fuel)%nat -> data key ∉ r_key <$> recs ->
  exists mb0 mb t, get env fuel key val_out s = Some ((absent_err (data key), mb), at_tick t s) /\ short mb0 /\
    keeps_room val_out mb0 /\ reslice mb0 0 0 = Some (0, mb) /\ mb_wf mb /\ data mb = [].
Proof.
  intros Hw Hlen Hv Hf Hk.
  destruct (hash_mbuff_spec key (length (data key)) (kv_tick s) Hw) as (t0 & Hh); [lia|lia|].
  rewrite at_tick_self, take_ge in Hh by done.
  assert (take (length (data key)) (data key) = data key) as Htk by (by rewrite take_ge).
  assert (get_valid_size key = length (data key)) as Hgv by (symmetry; by apply data_length).
  destruct (lookup_mbuff_missing (data key) key Hw Htk Hlen fuel val_out t0 Hk Hv Hf)
    as (mb & t1 & He & [Hmw Hms] & Hroom).
  destruct (reslice_spec mb 0 0 Hmw) as (mb' & Hre & Hw' & Hd' & _); [lia|lia|].
  exists mb, mb'. eexists. split; [|do 4 (split; [done|]); by rewrite Hd', take_0].
  unfold get. rewrite Hgv, (bind_run _ _ _ _ _ Hh). cbn [negb Z.eqb].
  rewrite (bind_run _ _ _ _ _ He). cbv beta iota.
  assert ((absent_err (data key) =? EEXIST) = false) as -> by (unfold absent_err; by destruct (_ && _)).
  unfold reslice_. rewrite Hre. reflexivity.
Qed.

Lemma get_run fuel key val_out :
  mb_wf key -> 0 < Z.of_nat (length (data key)) < 2 ^ 16 -> short val_out -> (BUCKET < fuel)%nat ->
  (forall r, r ∈ recs -> r_key r = data key ->
     exists mb t, get env fuel key val_out s = Some ((0, mb), at_tick t s) /\ mb_wf mb /\ data mb = r_val r) /\
  (data key ∉ r_key <$> recs ->
     exists mb t, get env fuel key val_out s = Some ((absent_err (data key), mb), at_tick t s) /\
       mb_wf mb /\ data mb = []).
Proof.
  intros Hw Hlen Hv Hf. split.
  - intros r Hr Hk. destruct (get_found fuel key val_out r) as (_ & mb & t & _ & He & _ & _ & _ & _ & H); try done.
    by exists mb, t.
  - intros Hk. destruct (get_missed fuel key val_out Hw Hlen Hv Hf Hk) as (_ & mb & t & He & _ & _ & _ & H). by exists mb, t.
Qed.

Lemma exists_run fuel key :
  mb_wf key -> 0 < Z.of_nat (length (data key)) < 2 ^ 16 -> (BUCKET < fuel)%nat ->
  (forall r, r ∈ recs -> r_key r = data key ->
     exists t, kv_exists env fuel key s = Some ((0, vlen r), at_tick t s)) /\
  (data key ∉ r_key <$> recs ->
     exists t, kv_exists env fuel key s = Some ((absent_err (data key), 0), at_tick t s)).
Proof.
  intros Hw Hlen Hf.
  destruct (hash_mbuff_spec key (length (data key)) (kv_tick s) Hw) as (t0 & Hh); [lia|lia|].
  rewrite at_tick_self, take_ge in Hh by done.
  assert (take (length (data key)) (data key) = data key) as Htk by (by rewrite take_ge).
  assert (get_valid_size key = length (data key)) as Hgv by (symmetry; by apply data_length).
  unfold kv_exists. rewrite Hgv, (bind_run _ _ _ _ _ Hh). cbn [negb Z.eqb]. split.
  - intros r Hr Hk.
    destruct (lookup_exists_present (data key) key Hw Htk Hlen fuel t0 r Hr Hk Hf) as (t1 & He).
    rewrite (bind_run _ _ _ _ _ He). eexists. reflexivity.
  - intros Hk. destruct (lookup_exists_missing (data key) key Hw Htk Hlen fuel t0 Hk Hf) as (t1 & He).
    rewrite (bind_run _ _ _ _ _ He). eexists.
    assert ((absent_err (data key) =? EEXIST) = false) as ->
      by (unfold absent_err; by destruct (_ && _)).
    reflexivity.
Qed.

End Get.
