(* ===== verification/KvWrite.v ===== *)
(** * KvWrite: the record a put writes

    An Mbuff that holds key and value behind exactly one header's worth of room,
    with room for the checksum in its last buffer and for the padding, goes to
    the device as header, key, value, checksum and zeros, at the grain that the
    allocator gave. *)
From Stdlib Require Import ZArith Lia.
From stdpp Require Import base tactics list numbers.
From S2P Require Import Prelude Util HashEntry HopscotchMap HopscotchSpec HopscotchRefine.
From S2P Require Import FpTable DirectoryMap DirectoryGrow DirectoryOps Mbuff MbuffSpec.
From S2P Require Import StoreFormat KvStore KvIo KvInv.

Open Scope Z_scope.

(** The layout [put] asks of its caller, for a padding of [pad] bytes. *)
Record put_ready (keyval : mbuff) (pad : nat) : Prop := {
  pr_wf : mb_wf keyval;
  pr_head : exists n l, mb_nodes keyval = n :: l /\ (0 < mb_len_ n)%nat /\ mb_off_ n = sizeof_store;
  pr_tail : (sizeof_suffix <= tail_space (mb_nodes keyval))%nat;
  pr_room : (sizeof_suffix + pad <= append_avail_size keyval)%nat
}.

Lemma tail_space_head n n' l : append_space n' = append_space n ->
  tail_space (n' :: l) = tail_space (n :: l).
Proof. intros H. unfold tail_space. destruct l as [|x l]; [done|]. by rewrite !last_cons_cons. Qed.

Lemma header_prepended md keyval pad :
  put_ready keyval pad ->
  exists mb, prepend_inline (header_fn md) false keyval = (true, mb) /\ mb_wf mb /\
    data mb = header_bytes md ++ data keyval /\
    (sizeof_suffix <= tail_space (mb_nodes mb))%nat /\
    append_avail_size mb = append_avail_size keyval.
Proof.
  intros [Hw (n & l & Hn & Hlen & Hoff) Ht _]. unfold prepend_inline, prepend_prepare_inline. rewrite Hn.
  assert (prepend_space n = sizeof_store) as Hps.
  { unfold prepend_space. destruct (Nat.eqb_spec (mb_len_ n) 0); [lia|done]. }
  rewrite Hps. change (0 <? sizeof_store)%nat with true. cbv iota.
  assert (node_wf n) as Hwn.
  { pose proof (mwf_nodes _ Hw) as H. rewrite Hn in H. by apply Forall_cons_iff in H as [H _]. }
  assert (length (get_prepend_chunk n) = sizeof_store) as Hcl by (by rewrite prepend_chunk_length).
  unfold header_fn. rewrite Hcl, Nat.eqb_refl. cbn [negb]. set (c := write_at _ _ _).
  assert (c = header_bytes md) as Hc.
  { unfold c, write_at. rewrite take_0, header_bytes_length, drop_ge by (rewrite Hcl; done).
    by rewrite app_nil_l, app_nil_r. }
  pose proof (header_bytes_length md) as Hhl.
  destruct (prepend_finalize_spec keyval n l c sizeof_store Hw Hn) as (Hw' & Hd & _ & _ & _).
  { by rewrite Hc, Hhl, Hps. } { rewrite Hc, Hhl. lia. }
  eexists. split; [done|]. split; [done|]. split.
  { rewrite Hd, Hc, Hhl, Nat.sub_diag, drop_0. done. }
  assert (append_space (put_prepend_chunk n c sizeof_store) = append_space n) as Has.
  { unfold put_prepend_chunk. destruct (Nat.eqb_spec (mb_len_ n) 0); [lia|]. rewrite andb_false_r.
    unfold append_space. cbn [mb_off_ mb_len_]. unfold mb_buff_len_. cbn [mb_buff_].
    rewrite write_at_length; [lia|]. rewrite Hc, Hhl. destruct Hwn as [_ Hf _].
    unfold mb_buff_len_ in Hf. lia. }
  pose proof (tail_space_head n _ l Has) as Hts. unfold prepend_finalize. rewrite Hn.
  unfold append_avail_size. cbn [mb_nodes add_valid set_nodes mb_free_size_]. rewrite Hn.
  fold (tail_space (n :: l)) (tail_space (put_prepend_chunk n c sizeof_store :: l)). rewrite Hts, <- Hn. done.
Qed.

Lemma suffix_appended crc mb :
  mb_wf mb -> (sizeof_suffix <= tail_space (mb_nodes mb))%nat ->
  exists mb', append_inline (suffix_fn crc) false mb = (true, mb') /\ mb_wf mb' /\
    data mb' = data mb ++ le_bytes 2 crc /\
    append_avail_size mb' = (append_avail_size mb - sizeof_suffix)%nat.
Proof.
  intros Hw Ht. unfold append_inline, append_prepare_inline. unfold tail_space in Ht.
  destruct (list.last (mb_nodes mb)) as [t|] eqn:Hl; [|unfold sizeof_suffix in Ht; lia].
  apply last_Some in Hl as [l Hl]. unfold sizeof_suffix in *.
  destruct (Nat.ltb_spec 0 (append_space t)); [|lia].
  pose proof (append_chunk_length t (wf_last _ _ _ Hw Hl)) as Hcl.
  unfold suffix_fn, sizeof_suffix. rewrite Hcl. destruct (Nat.ltb_spec (append_space t) 2); [lia|].
  set (c := write_at _ _ _).
  assert (length (le_bytes 2 crc) = 2%nat) as Hlb by apply le_bytes_length.
  assert (length c = append_space t) as Hc by (unfold c; rewrite write_at_length; lia).
  destruct (append_finalize_spec mb l t c 2 Hw Hl ltac:(lia) Hc ltac:(lia)) as (Hw' & Hd & _ & Ha & _).
  eexists. split; [done|]. split; [done|]. split; [|done]. rewrite Hd. done.
Qed.

Lemma pad_fn_stream : writes_stream pad_fn (fun rem s => s = replicate rem 0).
Proof.
  intros rem s c ->. unfold pad_fn. rewrite length_replicate.
  destruct (Nat.eqb_spec (Nat.min (length c) rem) 0) as [Hz|Hz].
  - split; [lia|]. split; [done|]. by rewrite !take_0, drop_0.
  - split; [lia|]. split; [apply write_at_length; rewrite length_replicate; lia|].
    unfold write_at. rewrite take_0, app_nil_l, take_app_length', take_replicate by (by rewrite length_replicate).
    split; [f_equal; lia|]. by rewrite drop_replicate.
Qed.

Lemma padding_appended env mb pad s :
  mb_wf mb -> (pad <= append_avail_size mb)%nat ->
  exists mb', mbuff_append_padding env mb pad s = Some ((0, mb'), s) /\ mb_wf mb' /\
    data mb' = data mb ++ replicate pad 0.
Proof.
  intros Hw Hp. unfold mbuff_append_padding.
  destruct (Nat.ltb_spec (append_avail_size mb) pad) as [|_]; [lia|].
  erewrite bind_run by reflexivity.
  destruct (Nat.ltb_spec (append_avail_size mb) pad) as [|_]; [lia|].
  destruct (append_stream _ _ pad _ mb pad_fn_stream Hw eq_refl) as (rem & mb' & -> & Hw' & Hd & Hr & _).
  erewrite bind_run by reflexivity. cbv beta iota. rewrite drop_replicate in Hr.
  apply (f_equal length) in Hr. rewrite !length_replicate in Hr.
  exists mb'. destruct (Nat.eqb_spec rem 0); [|lia]. split; [done|]. split; [done|].
  rewrite Hd, take_ge; [done|]. rewrite length_replicate. lia.
Qed.

(** ** Device and invariant *)

Lemma dev_read_ext d1 d2 off n : dev_eq d1 d2 -> dev_read d1 off n = dev_read d2 off n.
Proof. intros H. unfold dev_read. apply list_fmap_ext. intros i x _. apply H. Qed.

Section Write.
Context (env : kv_env) (Hq : quiet env).

Local Abbreviation gs := (e_grain_size env).

(** The grains [g .. g + n) hold no record and are on the device. *)
Record fresh_grains (recs : list krec) (g n : Z) : Prop := {
  fg_pba : valid_pba g;
  fg_end : (g + n) * gs <= 2 ^ 62;
  fg_apart : forall r, r ∈ recs -> r_grain r + r_grains env r <= g \/ g + n <= r_grain r
}.

Lemma store_inv_ext k s s' recs :
  store_inv env k s recs -> kv_map s' = kv_map s -> kv_key_nr s' = kv_key_nr s ->
  kv_used_bytes s' = kv_used_bytes s -> kv_total_bytes s' = kv_total_bytes s ->
  (forall r, r ∈ recs -> rec_ok env (kv_dev s') r) -> store_inv env k s' recs.
Proof. intros [] Hm H1 H2 H3 Hd. split; rewrite ?Hm, ?H1, ?H2, ?H3; done. Qed.

Lemma rec_ok_write dev dev' g n bs recs r :
  fresh_grains recs g n -> Z.of_nat (length bs) = n * gs ->
  dev_eq dev' (dev_write dev (g * gs) bs) -> r ∈ recs -> rec_ok env dev r -> rec_ok env dev' r.
Proof.
  intros Hf Hbs Hd Hr [Hfit Hst Hp He Ht]. split; [done| |done|done|done].
  rewrite (dev_read_ext _ _ _ _ Hd), dev_read_write_other; [done|].
  rewrite r_bytes_length, Hbs. pose proof (q_grain _ Hq).
  pose proof (grains_spec env Hq _ _ Hfit) as [_ [Hlo _]]. fold (r_grains env r) in Hlo.
  destruct (fg_apart _ _ _ Hf r Hr) as [Ha|Ha].
  - left. apply (Z.mul_le_mono_nonneg_r _ _ gs) in Ha; lia.
  - right. apply (Z.mul_le_mono_nonneg_r _ _ gs) in Ha; lia.
Qed.

(** The record that a put of [key] and [val] at grain [g] writes. *)
Definition new_rec (s : kv) (key val : list Z) (g : Z) : krec :=
  Rec key val g (kv_seg_ts s (grain_to_seg_idx env g)).

(** The zeros that follow the checksum. *)
Definition pad_of (kl vl : Z) : nat := Z.to_nat (grains_of env kl vl * gs - (kl + vl + 16)).

Lemma put_io_spec keyval key val s g :
  let kl := Z.of_nat (length key) in let vl := Z.of_nat (length val) in
  data keyval = key ++ val -> fits env kl vl -> put_ready keyval (pad_of kl vl) ->
  e_alloc env (kv_tick s) = (0, g) -> 0 <= g -> (g + grains_of env kl vl) * gs <= 2 ^ 62 ->
  in_width 64 (kv_seg_ts s (grain_to_seg_idx env g)) ->
  exists mb t dev rest,
    local_put_mbuff_io env keyval (length key) s =
      Some ((0, Some g, mb), set_dev dev (at_tick t (log (Kv_allocate g (grains_of env kl vl)) s))) /\
    mb_wf mb /\ data mb = r_bytes (new_rec s key val g) ++ rest /\
    Z.of_nat (length (data mb)) = grains_of env kl vl * gs /\
    dev_eq dev (dev_write (kv_dev s) (g * gs) (data mb)).
Proof.
  intros kl vl Hd Hfit Hready Halloc Hg Hend Hts. pose proof (q_grain _ Hq) as Hgs.
  pose proof (pr_wf _ _ Hready) as Hw. destruct (grains_spec env Hq _ _ Hfit) as [Hn [Hlo Hhi]].
  pose proof Hfit as [Hk Hv Hs _]. set (n := grains_of env kl vl) in *.
  assert (get_valid_size keyval = length key + length val)%nat as Hvs.
  { unfold get_valid_size. by rewrite <- data_length, Hd, length_app. }
  unfold local_put_mbuff_io. cbv zeta.
  replace (u64 (Z.of_nat (get_valid_size keyval + putKeyvalPrefixSize + putKeyvalSuffixSize)))
    with (kl + vl + 16).
  2:{ rewrite Hvs, wrap_small; unfold in_width, putKeyvalPrefixSize, putKeyvalSuffixSize, sizeof_store, sizeof_suffix; lia. }
  assert (udiv_round_up (kl + vl + 16) gs = n) as ->.
  { unfold n, grains_of, kv_tot_grains_get. by rewrite (raw_bytes_fits env Hq). }
  set (s1 := log (Kv_allocate g n) (tick s)).
  assert (allocate_grains env n s = Some ((0, g), s1)) as Ha.
  { unfold allocate_grains. erewrite bind_run by reflexivity. rewrite Halloc. reflexivity. }
  rewrite (bind_run _ _ _ _ _ Ha). cbv beta iota. change (negb (0 =? 0)) with false. cbv iota.
  set (md := r_header (new_rec s key val g)).
  set (crc := u16 (e_checksum16 env (u32 (timestamp md)) (header_bytes md))).
  destruct (header_prepended md keyval _ Hready) as (mb1 & He1 & Hw1 & Hd1 & Ht1 & Ha1).
  destruct (suffix_appended crc mb1 Hw1 Ht1) as (mb2 & He2 & Hw2 & Hd2 & Ha2).
  assert (mbuff_prepend_append_md env keyval kl (Z.of_nat (get_valid_size keyval - length key)) g s1 =
          Some ((0, mb2), s1)) as Hmd.
  { unfold mbuff_prepend_append_md. erewrite bind_run by reflexivity.
    change (kv_seg_ts s1) with (kv_seg_ts s). rewrite Hvs.
    replace (length key + length val - length key)%nat with (length val) by lia.
    rewrite (wrap_small 16), (wrap_small 32 (Z.of_nat (length val))) by (unfold in_width; lia).
    change (mkHeader kl (Z.of_nat (length val)) (kv_seg_ts s (grain_to_seg_idx env g))) with md.
    rewrite He1. change (kv_seg_ts s (grain_to_seg_idx env g)) with (timestamp md). fold crc.
    rewrite He2. reflexivity. }
  rewrite (bind_run _ _ _ _ _ Hmd). change (negb (0 =? 0)) with false. cbv beta iota.
  rewrite (wrap_small 64 (n * gs - _)) by (unfold in_width; lia). fold (pad_of kl vl).
  destruct (padding_appended env mb2 (pad_of kl vl) s1 Hw2) as (mb3 & He3 & Hw3 & Hd3).
  { pose proof (pr_room _ _ Hready). lia. }
  unfold pad_of in He3 at 1. fold n in He3.
  rewrite (bind_run _ _ _ _ _ He3). change (negb (0 =? 0)) with false. cbv beta iota.
  assert (data mb3 = r_bytes (new_rec s key val g) ++ le_bytes 2 crc ++ replicate (pad_of kl vl) 0) as Hd4.
  { rewrite Hd3, Hd2, Hd1, Hd. unfold r_bytes. cbn [r_key r_val new_rec]. by rewrite <- !app_assoc. }
  assert (Z.of_nat (length (data mb3)) = n * gs) as Hl3.
  { rewrite Hd4, !length_app, !Nat2Z.inj_add, r_bytes_length, le_bytes_length, length_replicate.
    unfold pad_of. fold n. change (klen (new_rec s key val g)) with kl.
    change (vlen (new_rec s key val g)) with vl. lia. }
  assert (u64 (g * gs) = g * gs) as Hu by (apply wrap_small; unfold in_width; nia).
  destruct (pwrite_spec env Hq mb3 (g * gs) s1) as (dev & t & Hwr & Hdev); [done|lia|].
  rewrite Hu, (bind_run _ _ _ _ _ Hwr). change (negb (0 =? 0)) with false. cbv beta iota.
  exists mb3, t, dev, (le_bytes 2 crc ++ replicate (pad_of kl vl) 0). by split.
Qed.

End Write.
