(* ===== verification/KvPut.v ===== *)
(** * KvPut: put adds or replaces exactly one key

    With no other thread running and calls that succeed, put writes the record
    at the grain it was given and maps the key to it: a new key becomes one more
    record, a present key's record is replaced, and every other record stays. *)
From Stdlib Require Import ZArith Lia.
From stdpp Require Import base tactics list numbers.
From S2P Require Import Prelude Util HashEntry HopscotchMap HopscotchSpec HopscotchRefine.
From S2P Require Import FpTable DirectoryMap DirectoryGrow DirectoryOps Mbuff MbuffSpec MbuffHead.
From S2P Require Import StoreFormat KvStore KvIo KvInv KvGet KvWrite.

Open Scope Z_scope.

(** ** The lookup of put and del *)

Section Lookup.
Context (env : kv_env) (Hq : quiet env).
Context (k : Z) (s : kv) (recs : list krec) (Hinv : store_inv env k s recs).
Context (key : list Z) (mb_key : mbuff) (Hkw : mb_wf mb_key).
Context (Hkey : take (length key) (data mb_key) = key) (Hlen : 0 < Z.of_nat (length key) < 2 ^ 16).

Local Abbreviation gs := (e_grain_size env).
Local Abbreviation d := (kv_map s).
Local Abbreviation h := (e_hash env key).

Lemma put_round fuel vis old_md mb t q r :
  lookup_common d h vis = (0, Some q) -> r ∈ recs -> entry_of env s h q r -> short mb ->
  exists mb' t', short mb' /\ keeps_room mb mb' /\
    data mb' = dev_read (kv_dev s) (r_grain r * gs) (head_size env key) /\
    lookup_put_loop env (S fuel) h mb_key 0 (length key) old_md mb vis (at_tick t s) =
      (if decide (r_key r = key) then Some ((EEXIST, Some q, r_header r, mb'), at_tick t' s)
       else lookup_put_loop env fuel h mb_key 0 (length key) old_md mb' (vis ++ [r_grain r]) (at_tick t' s)).
Proof.
  intros Hlc Hr [Hsz Hpba] [Hw Hlt]. destruct (head_size_spec env Hq key Hlen) as [Hlo Hhi].
  cbn [lookup_put_loop]. erewrite bind_run by reflexivity. change (kv_map (at_tick t s)) with d.
  rewrite Hlc. cbv beta iota. change (negb (0 =? 0)) with false. cbv iota.
  rewrite (bind_run _ _ _ _ _ (others_run_quiet env Hq _)), at_tick_at_tick.
  change (pba (entry_at d h q)) with (pba (ent (table d h) q)). rewrite Hpba.
  fold (aligned_size env (Z.of_nat (putKeyvalPrefixSize + length key))). fold (head_size env key).
  destruct (read_compare env Hq k s recs Hinv key mb_key Hkw Hkey Hlen mb (head_size env key) r
              (S (kv_tick (at_tick t s)))) as (mb1 & t1 & He & Hw1 & Hd1 & Hhdr & Hcmp & Hroom); [done..|lia|lia|].
  rewrite (bind_run _ _ _ _ _ He). change (negb (0 =? 0)) with false. cbv iota beta.
  destruct (copy_to_buffer mb1 0 sizeof_store) as [hdr|]; [|done].
  apply (inj Some) in Hhdr. erewrite bind_run by reflexivity. rewrite Hhdr, Hcmp.
  erewrite bind_run by reflexivity. cbv beta.
  rewrite (bind_run _ _ _ _ _ (others_run_quiet env Hq _)), at_tick_at_tick.
  erewrite bind_run by reflexivity. cbv beta zeta.
  change (kv_map (at_tick (S (kv_tick (at_tick t1 s))) s)) with d.
  rewrite (bool_decide_eq_true_2 (entry_at d h q = entry_at d h q)) by done. cbn [negb andb]. rewrite andb_true_r.
  assert (short mb1) as Hs1 by (split; [done|rewrite Hd1, dev_read_length; lia]).
  destruct (decide (r_key r = key)) as [Heq|Hne].
  - rewrite bool_decide_eq_true_2 by done. eexists mb1, _. by split.
  - rewrite bool_decide_eq_false_2 by done. eexists mb1, _. by split.
Qed.

Lemma lookup_put_present fuel mb t r :
  r ∈ recs -> r_key r = key -> short mb -> (BUCKET < fuel)%nat ->
  exists q mb' t', lookup_mbuff_put env fuel h mb_key 0 (length key) header_zero mb (at_tick t s) =
    Some ((EEXIST, Some q, r_header r, mb'), at_tick t' s) /\ short mb' /\
    keeps_room mb mb' /\ (14 + length key <= length (data mb'))%nat /\
    take (length key) (drop 14 (data mb')) = key /\ q ∈ slots d h /\ entry_of env s h q r.
Proof.
  intros Hr Hk Hmb Hf. pose proof (unseen_le d h []) as Hle.
  destruct (search_found env Hq k s recs Hinv key (fun x => short x /\ keeps_room mb x)
    (fun fuel mb vis t => lookup_put_loop env fuel h mb_key 0 (length key) header_zero mb vis (at_tick t s))
    (fun q r res => exists mb', res = (EEXIST, Some q, r_header r, mb') /\ short mb' /\ keeps_room mb mb' /\
       data mb' = dev_read (kv_dev s) (r_grain r * gs) (head_size env key)))
    with (fuel := fuel) (vis := @nil Z) (x := mb) (t := t) (r := r)
    as (q & res & t' & He & (mb' & -> & Hmb' & Hroom & Hd) & Hqs & Hent);
    [|done|done|by apply not_elem_of_nil|by split; [|intros N _]|lia|].
  - intros f vis x t' q r' Hlc _ Hr' Hent [Hx Hxr].
    destruct (put_round f vis header_zero x t' q r' Hlc Hr' Hent Hx) as (mb1 & t1 & Hmb1 & Hr1 & Hd1 & He).
    pose proof (keeps_room_trans _ _ _ Hxr Hr1).
    case_decide; [|by exists mb1, t1]. eexists _, t1. split; [exact He|]. by exists mb1.
  - exists q, mb', t'. destruct (head_size_spec env Hq key Hlen) as [Hlo _]. do 3 (split; [done|]).
    rewrite Hd, dev_read_length. split; [done|]. split; [|done]. rewrite <- Hk in Hlo |- *.
    apply (rec_read_key env); [by apply (si_recs _ _ _ _ Hinv)|by rewrite Hk in *].
Qed.

Lemma lookup_put_missing fuel mb t :
  key ∉ r_key <$> recs -> short mb -> (BUCKET < fuel)%nat ->
  exists mb' t' err o, lookup_mbuff_put env fuel h mb_key 0 (length key) header_zero mb (at_tick t s) =
    Some ((err, o, header_zero, mb'), at_tick t' s) /\ short mb' /\
    ((err = ENODATA /\ exists p, o = Some p /\ free_slot (table d h) h p) \/
     (err = ENOSPC /\ o = None /\ full (table d h) h)).
Proof.
  intros Hk Hmb Hf. pose proof (unseen_le d h []) as Hle.
  destruct (search_absent env k s recs Hinv key short
    (fun fuel mb vis t => lookup_put_loop env fuel h mb_key 0 (length key) header_zero mb vis (at_tick t s))
    (fun _ r res => True)
    (fun '(err, o) res => exists mb' err' o', res = (err', o', header_zero, mb') /\ short mb' /\
       if err =? 0 then (err', o') = match dir_next_free d h with (0, f) => (ENODATA, f) | _ => (ENOSPC, None) end
       else (err', o') = (err, o)))
    with (fuel := fuel) (vis := @nil Z) (x := mb) (t := t)
    as (vis' & res & t' & He & HE & Hu); [| |done|done|lia|].
  - intros f vis x t' q r' Hlc _ Hr' Hent Hx.
    destruct (put_round f vis header_zero x t' q r' Hlc Hr' Hent Hx) as (mb1 & t1 & Hmb1 & _ & _ & He).
    case_decide; [|by exists mb1, t1]. eexists _, t1. by split; [exact He|].
  - intros f vis x t' Hx Hno. cbn [lookup_put_loop]. erewrite bind_run by reflexivity.
    change (kv_map (at_tick t' s)) with d. destruct (lookup_common d h vis) as [err o].
    destruct (Z.eqb_spec err 0) as [->|Hne]; cbn [negb].
    + destruct o as [q|]; [by destruct (Hno q)|]. destruct (dir_next_free d h) as [e fr].
      destruct (Z.eqb_spec e 0) as [->|Hne]; cbn [negb]; eexists _, t'; (split; [reflexivity|]).
      * by exists x, ENODATA, fr.
      * exists x, ENOSPC, None. by destruct e.
    + eexists _, t'. split; [reflexivity|]. by exists x, err, o.
  - assert (forall e, e = ENODATA \/ e = ENOSPC -> (e =? 0) = false) as Hne by (by intros ? [-> | ->]).
    destruct (common_absent env k s recs Hinv key vis' Hu) as [(_ & Hc & _)|[(p & Hc & Hfr & _)|(Hc & Hfu & _)]];
      rewrite Hc in HE; destruct HE as (mb' & err' & o' & -> & Hmb' & Heo);
      exists mb', t', err', o'; (split; [done|]; split; [done|]).
    + change (dir_next_free d h) with (next_free (table d h) h) in Heo. simpl in Heo.
      destruct (next_free_cases _ (table_wf k d (si_dir _ _ _ _ Hinv) h) h) as [(p & Hn & Hfr)|[Hn Hfu]];
        rewrite Hn in Heo; injection Heo as -> ->; [left; eauto|by right].
    + rewrite Hne in Heo by auto. injection Heo as -> ->. left. eauto.
    + rewrite Hne in Heo by auto. injection Heo as -> ->. by right.
Qed.

End Lookup.

(** ** The mapping *)

Section Mapping.
Context (env : kv_env) (Hq : quiet env).

Local Abbreviation gs := (e_grain_size env).

Lemma foldr_sum_perm {A} (f : A -> Z) (l l' : list A) : l ≡ₚ l' ->
  foldr (fun x a => f x + a) 0 l = foldr (fun x a => f x + a) 0 l'.
Proof. induction 1; simpl; lia. Qed.

Lemma store_inv_perm k s recs recs' : recs ≡ₚ recs' -> store_inv env k s recs -> store_inv env k s recs'.
Proof.
  intros Hp [Hd Hb Hr Hk Ha Hn Hu Ht]. split.
  - done.
  - by rewrite Hb, Hp.
  - intros r. rewrite <- Hp. apply Hr.
  - by rewrite <- Hp.
  - intros r1 r2. rewrite <- Hp. apply Ha.
  - by rewrite <- Hp.
  - rewrite Hu. f_equal. rewrite !(foldr_ext _ (fun r a => (klen r + vlen r) + a) 0 0 _ _) by done.
    by apply (foldr_sum_perm (fun r => klen r + vlen r)).
  - rewrite Ht. f_equal. by apply (foldr_sum_perm (fun r => r_grains env r * gs)).
Qed.

Lemma wrap_sub_l (b x y : Z) : wrap b (wrap b (y + x) - y) = wrap b x.
Proof.
  unfold wrap. rewrite Zminus_mod_idemp_l. f_equal. lia.
Qed.

(** The parts of the state that a mapping update leaves alone. *)
Definition same_io (s s' : kv) : Prop :=
  kv_dev s' = kv_dev s /\ kv_seg_ts s' = kv_seg_ts s /\ kv_tick s' = kv_tick s.

(** A record joins the others. *)
Lemma store_inv_cons k s s' recs nr :
  store_inv env k s recs -> rec_ok env (kv_dev s) nr -> r_key nr ∉ r_key <$> recs ->
  (forall r, r ∈ recs -> apart env nr r) ->
  dir_inv k (kv_map s') -> map_entry_nr_bits_m (kv_map s') = map_entry_nr_bits_m (kv_map s) ->
  dir_bag (kv_map s') ≡ₚ r_triple env (kv_map s) nr :: dir_bag (kv_map s) -> kv_dev s' = kv_dev s ->
  kv_key_nr s' = u64 (kv_key_nr s + 1) ->
  kv_used_bytes s' = u64 (kv_used_bytes s + (klen nr + vlen nr)) ->
  kv_total_bytes s' = u64 (kv_total_bytes s + r_grains env nr * gs) ->
  store_inv env k s' (nr :: recs).
Proof.
  intros [Hd Hb Hr Hk Ha Hn Hu Ht] Hok Hkey Hap Hd' Hbits Hb' Hdev Hn' Hu' Ht'.
  assert (forall r, r_triple env (kv_map s') r = r_triple env (kv_map s) r) as Htr.
  { intros r. unfold r_triple, dir_fp. by rewrite Hbits. }
  split; [done|..].
  - rewrite Hb', Hb, fmap_cons, Htr. f_equiv. erewrite list_fmap_ext; [done|]. intros ? r _. by rewrite Htr.
  - rewrite Hdev. intros r [->|?]%elem_of_cons; auto.
  - rewrite fmap_cons. by constructor.
  - intros r1 r2 [->|H1]%elem_of_cons [->|H2]%elem_of_cons; [by left|right; by apply Hap| |by apply Ha].
    right. destruct (Hap r1 H1); [by right|by left].
  - rewrite Hn', Hn, wrap_add_l. f_equal. cbn [length]. lia.
  - rewrite Hu', Hu, wrap_add_l. f_equal. cbn [foldr]. lia.
  - rewrite Ht', Ht, wrap_add_l. f_equal. cbn [foldr]. lia.
Qed.

(** A record leaves. *)
Lemma store_inv_drop k s s' r recs :
  store_inv env k s (r :: recs) ->
  dir_inv k (kv_map s') -> map_entry_nr_bits_m (kv_map s') = map_entry_nr_bits_m (kv_map s) ->
  r_triple env (kv_map s) r :: dir_bag (kv_map s') ≡ₚ dir_bag (kv_map s) -> kv_dev s' = kv_dev s ->
  kv_key_nr s' = u64 (kv_key_nr s - 1) ->
  kv_used_bytes s' = u64 (kv_used_bytes s - (klen r + vlen r)) ->
  kv_total_bytes s' = u64 (kv_total_bytes s - r_grains env r * gs) ->
  store_inv env k s' recs.
Proof.
  intros [Hd Hb Hr Hk Ha Hn Hu Ht] Hd' Hbits Hb' Hdev Hn' Hu' Ht'.
  assert (forall r, r_triple env (kv_map s') r = r_triple env (kv_map s) r) as Htr.
  { intros r0. unfold r_triple, dir_fp. by rewrite Hbits. }
  split; [done|..].
  - rewrite fmap_cons, <- Hb' in Hb. apply Permutation_cons_inv in Hb. rewrite Hb.
    erewrite list_fmap_ext; [done|]. intros ? r0 _. by rewrite Htr.
  - rewrite Hdev. intros r0 H0. apply Hr, elem_of_cons. by right.
  - rewrite fmap_cons in Hk. by apply NoDup_cons_1_2 in Hk.
  - intros r1 r2 H1 H2. apply Ha; apply elem_of_cons; by right.
  - rewrite Hn', Hn. cbn [length]. rewrite Nat2Z.inj_succ, <- Z.add_1_l. apply wrap_sub_l.
  - rewrite Hu', Hu. cbn [foldr]. apply wrap_sub_l.
  - rewrite Ht', Ht. cbn [foldr]. apply wrap_sub_l.
Qed.

Section Set_mapping.
Context (k : Z) (s : kv) (nr : krec) (Hok : rec_ok env (kv_dev s) nr).

Local Abbreviation d := (kv_map s).
Local Abbreviation h := (e_hash env (r_key nr)).

(** The mapping changed and the record counted. *)
Definition mapped (d' : DirMap) (evs : list kv_event) (kn u t : Z) : kv :=
  mkKv d' (kv_dev s) (kv_seg_ts s) (u64 (kn + 1)) (u64 (u + (klen nr + vlen nr)))
       (u64 (t + r_grains env nr * gs)) (evs ++ kv_events s) (kv_tick s).

Lemma added_amounts :
  kv_raw_bytes_get (klen nr) (vlen nr) = klen nr + vlen nr /\
  kv_tot_bytes_get gs (klen nr) (vlen nr) = r_grains env nr * gs /\ 0 < r_grains env nr.
Proof.
  pose proof (ro_fits _ _ _ Hok) as Hf. split; [by apply (kv_raw_fits env Hq)|].
  split; [by apply (tot_bytes_fits env Hq)|]. apply (grains_spec env Hq _ _ Hf).
Qed.

Lemma set_mapping_insert recs p old_md :
  store_inv env k s recs -> free_slot (table d h) h p -> r_key nr ∉ r_key <$> recs ->
  (forall r, r ∈ recs -> apart env nr r) ->
  exists evs, let s' := mapped (dir_insert d h p (r_grains env nr) (r_grain nr)) evs
                               (kv_key_nr s) (kv_used_bytes s) (kv_total_bytes s) in
  set_mapping env h p false (klen nr) (vlen nr) (r_grain nr) old_md s = Some (tt, s') /\
  store_inv env k s' (nr :: recs) /\ (deleted (entry_at d h p) = false -> evs = []).
Proof.
  intros Hinv Hfree Hkey Hap. destruct added_amounts as (Hraw & Htot & Hpos).
  destruct (dir_insert_spec k d (si_dir _ _ _ _ Hinv) h p (r_grains env nr) (r_grain nr)) as [Hd' Hb'];
    [done|done|apply (ro_pba _ _ _ Hok)|].
  set (ev := Kv_invalidate (pba (entry_at d h p)) (kv_tot_grains_get gs (key_size old_md) (val_size old_md))).
  exists (if deleted (entry_at d h p) then [ev] else []). intros s'. split; [|split; [|by intros ->]].
  - unfold set_mapping. erewrite bind_run by reflexivity. cbv beta iota zeta.
    change (kv_tot_grains_get gs (klen nr) (vlen nr)) with (r_grains env nr). rewrite Hraw, Htot.
    unfold s'. destruct (deleted (entry_at d h p)); reflexivity.
  - by apply (store_inv_cons k s).
Qed.

Lemma set_mapping_update r recs p :
  store_inv env k s (r :: recs) -> p ∈ slots d h -> entry_of env s h p r -> r_key r = r_key nr ->
  (forall r', r' ∈ recs -> apart env nr r') ->
  let s' := mapped (dir_update_inplace d h p (r_grains env nr) (r_grain nr))
                   [Kv_invalidate (r_grain r) (r_grains env r)] (u64 (kv_key_nr s - 1))
                   (u64 (kv_used_bytes s - (klen r + vlen r)))
                   (u64 (kv_total_bytes s - r_grains env r * gs)) in
  set_mapping env h p true (klen nr) (vlen nr) (r_grain nr) (r_header r) s = Some (tt, s') /\
  store_inv env k s' (nr :: recs).
Proof.
  intros Hinv Hp [Hsz Hpba] Hkey Hap s'. destruct added_amounts as (Hraw & Htot & Hpos).
  pose proof (si_dir _ _ _ _ Hinv) as Hd. pose proof (ro_pba _ _ _ Hok) as Hg.
  apply (elem_of_slots k d Hd) in Hp.
  pose proof (si_recs _ _ _ _ Hinv r ltac:(by left)) as Hr. pose proof (ro_fits _ _ _ Hr) as Hf.
  split.
  - unfold set_mapping. erewrite bind_run by reflexivity. cbv beta iota zeta.
    change (kv_tot_grains_get gs (klen nr) (vlen nr)) with (r_grains env nr).
    change (kv_tot_grains_get gs (key_size (r_header r)) (val_size (r_header r))) with (r_grains env r).
    change (key_size (r_header r)) with (klen r). change (val_size (r_header r)) with (vlen r).
    rewrite Hraw, Htot, (kv_raw_fits env Hq), (tot_bytes_fits env Hq) by done.
    change (pba (entry_at d h p)) with (pba (ent (table d h) p)). rewrite Hpba. reflexivity.
  - destruct (dir_update_inplace_spec k d Hd h p (r_grains env nr) (r_grain nr) Hp Hpos Hg) as (Hd' & rest & Hb & Hb').
    destruct (dir_remove_spec k d Hd h p (r_grain nr) Hp Hg) as (Hdr & Hbr).
    set (s1 := mkKv (dir_remove d h p (r_grain nr)) (kv_dev s) (kv_seg_ts s) (u64 (kv_key_nr s - 1))
      (u64 (kv_used_bytes s - (klen r + vlen r))) (u64 (kv_total_bytes s - r_grains env r * gs)) [] 0).
    assert (store_inv env k s1 recs) as Hinv1.
    { apply (store_inv_drop k s s1 r recs); try done. unfold r_triple, s1. cbn [kv_map].
      by rewrite Hkey, <- Hsz, <- Hpba, <- Hbr. }
    pose proof (si_keys _ _ _ _ Hinv) as Hnd. rewrite fmap_cons in Hnd. apply NoDup_cons_1_1 in Hnd.
    apply (store_inv_cons k s1); try done; [by rewrite <- Hkey|].
    unfold s', s1, mapped. cbn [kv_map]. rewrite Hb'. rewrite Hb in Hbr.
    apply Permutation_cons_inv in Hbr. by rewrite Hbr.
Qed.

End Set_mapping.
End Mapping.

(** ** Free buffers lent to the lookup *)

Lemma move_free_spec src dst n src' dst' m :
  mb_wf src -> mb_wf dst -> move_free_buffs_to src dst n = (src', dst', m) ->
  mb_wf src' /\ mb_wf dst' /\ data src' = data src /\ data dst' = data dst.
Proof.
  intros Hs Hd He. unfold move_free_buffs_to in He.
  pose proof (move_free_loop_spec (S (length (mb_free_ src))) src dst 0 n Hs Hd ltac:(lia)) as H.
  rewrite He in H. tauto.
Qed.

(** ** Put *)

Section Put.
Context (env : kv_env) (Hq : quiet env).
Context (k : Z) (s : kv) (recs : list krec) (Hinv : store_inv env k s recs).
Context (nr : krec) (Hok : rec_ok env (kv_dev s) nr).
Context (keyval : mbuff) (Hkw : mb_wf keyval) (Hdata : data keyval = r_key nr ++ r_val nr).
Context (fuel : nat) (Hfuel : (BUCKET < fuel)%nat).

Local Abbreviation gs := (e_grain_size env).
Local Abbreviation d := (kv_map s).
Local Abbreviation h := (e_hash env (r_key nr)).

(** What a successful mapping update leaves. *)
Definition put_done (res : option (Z * option Z * mbuff * kv)) (recs' : list krec) : Prop :=
  exists mb s', res = Some ((0, None, mb), s') /\ mb_wf mb /\ data mb = data keyval /\
    store_inv env k s' recs' /\ kv_dev s' = kv_dev s /\ kv_seg_ts s' = kv_seg_ts s.

Definition put_refused (e : Z) (res : option (Z * option Z * mbuff * kv)) : Prop :=
  exists mb t, res = Some ((e, None, mb), at_tick t s) /\ mb_wf mb /\ data mb = data keyval.

Lemma key_prefix mb : data mb = data keyval -> take (length (r_key nr)) (data mb) = r_key nr.
Proof. intros ->. by rewrite Hdata, take_app_length. Qed.

Lemma key_len : 0 < Z.of_nat (length (r_key nr)) < 2 ^ 16.
Proof. exact (f_key _ _ _ (ro_fits _ _ _ Hok)). Qed.

Lemma put_val_len : (get_valid_size keyval - length (r_key nr))%nat = length (r_val nr).
Proof. unfold get_valid_size. rewrite <- data_length, Hdata, length_app by done. lia. Qed.

Lemma at_tick_inv t : store_inv env k (at_tick t s) recs.
Proof. apply (store_inv_ext env k s); try done. apply (si_recs _ _ _ _ Hinv). Qed.

(** The part of [local_put_mbuff] before the answer of the lookup is used. *)
Lemma put_run op g (Q : Z -> option nat -> store_header -> Prop) :
  (forall mb key_mb, mb_wf mb -> data mb = data keyval -> short key_mb ->
     exists rc trgt md mb1 t,
       lookup_mbuff_put env fuel h mb 0 (length (r_key nr)) header_zero key_mb (at_tick (kv_tick s) s) =
         Some ((rc, trgt, md, mb1), at_tick t s) /\ short mb1 /\ Q rc trgt md) ->
  exists mb t rc trgt md, Q rc trgt md /\ mb_wf mb /\ data mb = data keyval /\
    local_put_mbuff env fuel h keyval (length (r_key nr)) g op s =
    put_dispatch env h mb (length (r_key nr)) (length (r_val nr)) g op md rc trgt (at_tick t s).
Proof.
  intros Hl. unfold local_put_mbuff. rewrite put_val_len.
  destruct (move_free_buffs_to keyval mbuff_empty _) as [[kv1 kmb] m] eqn:Hm.
  apply move_free_spec in Hm as (Hw1 & Hw2 & Hd1 & Hd2); [|done|apply mbuff_empty_wf].
  destruct (Hl kv1 kmb) as (rc & trgt & md & mb1 & t & He & [Hmw Hms] & HQ); [done|done| |].
  { split; [done|]. rewrite Hd2. simpl. lia. }
  rewrite at_tick_self in He. rewrite (bind_run _ _ _ _ _ He). cbv beta iota.
  destruct (reslice_prefix mb1 0 Hmw) as (mb2 & -> & Hmw2 & _); [lia|done|].
  erewrite bind_run by reflexivity.
  destruct (move_free_buffs_to mb2 kv1 _) as [[kmb3 kv2] m'] eqn:Hm2.
  apply move_free_spec in Hm2 as (_ & Hw3 & _ & Hd3); [|done|done].
  exists kv2, t, rc, trgt, md. rewrite Hd3. done.
Qed.

Context (Hap : forall r, r ∈ recs -> r_key r <> r_key nr -> apart env nr r).

Lemma put_missing_run op :
  r_key nr ∉ r_key <$> recs -> bucket_full (table d h) h = false ->
  exists mb t p, free_slot (table d h) h p /\ mb_wf mb /\ data mb = data keyval /\
    local_put_mbuff env fuel h keyval (length (r_key nr)) (r_grain nr) op s =
    put_dispatch env h mb (length (r_key nr)) (length (r_val nr)) (r_grain nr) op header_zero ENODATA (Some p)
      (at_tick t s).
Proof.
  intros Hk Hroom.
  destruct (put_run op (r_grain nr) (fun rc trgt md => rc = ENODATA /\ md = header_zero /\
     exists p, trgt = Some p /\ free_slot (table d h) h p))
    as (mb & t & rc & trgt & md & (-> & -> & p & -> & Hfree) & Hw & Hd & He).
  - intros mb kmb Hw Hd Hs.
    destruct (lookup_put_missing env Hq k s recs Hinv (r_key nr) mb Hw (key_prefix mb Hd) key_len
                fuel kmb (kv_tick s) Hk Hs Hfuel) as (mb' & t & err & o & He & Hs' & Hcase).
    exists err, o, header_zero, mb', t. split; [done|]. split; [done|].
    destruct Hcase as [(-> & Hp)|(_ & _ & Hfull)]; [done|].
    apply bucket_full_spec in Hfull. by rewrite Hfull in Hroom.
  - by exists mb, t, p.
Qed.

Lemma put_new op :
  r_key nr ∉ r_key <$> recs -> bucket_full (table d h) h = false -> op <> REPLACE ->
  put_done (local_put_mbuff env fuel h keyval (length (r_key nr)) (r_grain nr) op s) (nr :: recs).
Proof.
  intros Hk Hroom Hop. destruct (put_missing_run op Hk Hroom) as (mb & t & p & Hfree & Hw & Hd & ->).
  destruct (set_mapping_insert env Hq k (at_tick t s) nr Hok recs p header_zero (at_tick_inv t))
    as (evs & He & Hinv' & _); [done|done| |].
  { intros r Hr. apply Hap; [done|]. intros Hkk. apply Hk, list_elem_of_fmap. by exists r. }
  eexists mb, _. split; [|split; [done|split; [done|split; [exact Hinv'|done]]]].
  unfold put_dispatch. rewrite Z.eqb_refl, decide_False by done. unfold put_finish.
  erewrite bind_run by reflexivity. erewrite bind_run by reflexivity. erewrite bind_run by reflexivity.
  cbn [andb]. rewrite (bind_run _ _ _ _ _ He). reflexivity.
Qed.

Lemma put_new_refused :
  r_key nr ∉ r_key <$> recs -> bucket_full (table d h) h = false ->
  put_refused EINVAL (local_put_mbuff env fuel h keyval (length (r_key nr)) (r_grain nr) REPLACE s).
Proof.
  intros Hk Hroom. destruct (put_missing_run REPLACE Hk Hroom) as (mb & t & p & _ & Hw & Hd & ->).
  exists mb, t. done.
Qed.

Section Present.
Context (r : krec) (rest : list krec) (Hr : recs ≡ₚ r :: rest) (Hkr : r_key r = r_key nr).

Lemma put_present_run op :
  exists mb t p, p ∈ slots d h /\ entry_of env s h p r /\ mb_wf mb /\ data mb = data keyval /\
    local_put_mbuff env fuel h keyval (length (r_key nr)) (r_grain nr) op s =
    put_dispatch env h mb (length (r_key nr)) (length (r_val nr)) (r_grain nr) op (r_header r) EEXIST (Some p)
      (at_tick t s).
Proof.
  assert (r ∈ recs) as Hin by (rewrite Hr; by left).
  destruct (put_run op (r_grain nr) (fun rc trgt md => rc = EEXIST /\ md = r_header r /\
     exists p, trgt = Some p /\ p ∈ slots d h /\ entry_of env s h p r))
    as (mb & t & rc & trgt & md & (-> & -> & p & -> & Hp & Hent) & Hw & Hd & He).
  - intros mb kmb Hw Hd Hs.
    destruct (lookup_put_present env Hq k s recs Hinv (r_key nr) mb Hw (key_prefix mb Hd) key_len
                fuel kmb (kv_tick s) r Hin Hkr Hs Hfuel) as (q & mb' & t & He & Hs' & _ & _ & _ & Hq1 & Hq2).
    exists EEXIST, (Some q), (r_header r), mb', t. do 4 (split; [done|]). by exists q.
  - by exists mb, t, p.
Qed.

Lemma put_existing op :
  is_pba_order_equal_to_total_order env (kv_seg_ts s) (r_grain r) (r_grain nr) (r_header r) = true ->
  op <> CREATE ->
  put_done (local_put_mbuff env fuel h keyval (length (r_key nr)) (r_grain nr) op s) (nr :: rest).
Proof.
  intros Hord Hop. destruct (put_present_run op) as (mb & t & p & Hp & Hent & Hw & Hd & ->).
  pose proof (store_inv_perm env k _ _ _ Hr (at_tick_inv t)) as Hinv'.
  pose proof (si_keys _ _ _ _ Hinv') as Hnd. rewrite fmap_cons in Hnd. apply NoDup_cons_1_1 in Hnd.
  destruct (set_mapping_update env Hq k (at_tick t s) nr Hok r rest p Hinv') as [He Hinv2]; [done|done|done| |].
  { intros r' Hr'. apply Hap; [rewrite Hr; by right|]. rewrite <- Hkr. intros Heq. apply Hnd.
    rewrite <- Heq. apply list_elem_of_fmap. by exists r'. }
  eexists mb, _. split; [|split; [done|split; [done|split; [exact Hinv2|done]]]].
  unfold put_dispatch. change (EEXIST =? ENODATA) with false. rewrite Z.eqb_refl, decide_False by done.
  unfold put_finish. erewrite bind_run by reflexivity. erewrite bind_run by reflexivity.
  erewrite bind_run by reflexivity. destruct Hent as [_ Hpba].
  change (pba (entry_at (kv_map (at_tick t s)) h p)) with (pba (ent (table d h) p)). rewrite Hpba.
  change (kv_seg_ts (at_tick t s)) with (kv_seg_ts s). rewrite Hord. cbn [negb andb].
  rewrite (bind_run _ _ _ _ _ He). reflexivity.
Qed.

Lemma put_existing_refused :
  put_refused EINVAL (local_put_mbuff env fuel h keyval (length (r_key nr)) (r_grain nr) CREATE s).
Proof.
  destruct (put_present_run CREATE) as (mb & t & p & _ & _ & Hw & Hd & ->). exists mb, t. done.
Qed.

End Present.
End Put.

(** ** The whole operation *)

Section Whole.
Context (env : kv_env) (Hq : quiet env).
Context (k : Z) (s : kv) (recs : list krec) (Hinv : store_inv env k s recs).
Context (keyval : mbuff) (key val : list Z) (g : Z) (fuel : nat) (Hfuel : (BUCKET < fuel)%nat).

Local Abbreviation gs := (e_grain_size env).
Local Abbreviation kl := (Z.of_nat (length key)).
Local Abbreviation vl := (Z.of_nat (length val)).
Local Abbreviation nr := (new_rec env s key val g).
Local Abbreviation n := (grains_of env kl vl).

(** What put needs of its caller and of the allocator. *)
Record put_pre : Prop := {
  pp_data : data keyval = key ++ val;
  pp_fits : fits env kl vl;
  pp_ready : put_ready keyval (pad_of env kl vl);
  pp_alloc : forall t, e_alloc env t = (0, g);
  pp_fresh : fresh_grains env recs g n;
  pp_ts : in_width 64 (kv_seg_ts s (grain_to_seg_idx env g))
}.

Context (Hpre : put_pre).

(** The record is on the device before the mapping changes. *)
Lemma put_written : exists mb s1,
  mb_wf mb /\ data mb = key ++ val /\ rec_ok env (kv_dev s1) nr /\ store_inv env k s1 recs /\
  kv_seg_ts s1 = kv_seg_ts s /\ kv_map s1 = kv_map s /\
  forall op, put env fuel keyval (length key) op s =
    (('(rc, mb2) ← put_map_loop env fuel (e_hash env key) mb (length key) g op;
      (if negb (rc =? 0) then invalidate_grains g n else mret tt);;
      release_grains g n;;
      if rc =? EALREADY then put_loop env (pred fuel) (e_hash env key) mb2 (length key + length val) (length key) op
      else mret (rc, mb2)) : kvm (Z * mbuff)) s1.
Proof.
  destruct Hpre as [Hd Hfit Hready Halloc Hfr Hts]. pose proof (pr_wf _ _ Hready) as Hw.
  pose proof Hfit as [Hk Hv Hsum _]. pose proof (q_grain _ Hq) as Hgs.
  assert (length (data keyval) = length key + length val)%nat as Hl by (by rewrite Hd, length_app).
  destruct (hash_mbuff_spec env Hq s keyval (length key) (kv_tick s) Hw) as (t0 & Hh); [lia|lia|].
  rewrite at_tick_self, Hd, take_app_length in Hh.
  destruct (put_io_spec env Hq keyval key val (at_tick t0 s) g) as (mb & t & dev & rest & Hio & Hmw & Hmd & Hml & Hdev);
    [done|done|done|done|apply (fg_pba _ _ _ _ Hfr)|apply (fg_end _ _ _ _ Hfr)|done|].
  change (new_rec env (at_tick t0 s) key val g) with nr in Hmd.
  set (s1 := set_dev dev (at_tick t (log (Kv_allocate g n) (at_tick t0 s)))) in *.
  pose proof (r_bytes_length nr) as Hrb. change (klen nr) with kl in Hrb. change (vlen nr) with vl in Hrb.
  destruct (grains_spec env Hq _ _ Hfit) as [Hnp [Hlo Hhi]].
  destruct (reslice_spec mb (length key + length val) 14 Hmw) as (mb' & Hre & Hw' & Hd' & _).
  { lia. } { rewrite Hmd, length_app. lia. }
  assert (data mb' = key ++ val) as Hd2.
  { rewrite Hd', Hmd. unfold r_bytes. cbn [r_key r_val new_rec]. rewrite <- !app_assoc.
    rewrite drop_app_length' by done. rewrite app_assoc, take_app_length'; [done|]. by rewrite length_app. }
  exists mb', (at_tick (S (kv_tick s1)) s1).
  split; [done|]. split; [done|]. split; [|split; [|split; [done|split; [done|]]]].
  - split; [done| |apply (fg_pba _ _ _ _ Hfr)|apply (fg_end _ _ _ _ Hfr)|done].
    change (kv_dev (at_tick _ s1)) with dev. rewrite (dev_read_ext _ _ _ _ Hdev). cbn [r_grain new_rec].
    rewrite <- (dev_read_take _ _ (length (data mb))) by (rewrite Hmd, length_app; lia).
    rewrite dev_read_write_same, Hmd. by rewrite take_app_length.
  - apply (store_inv_ext env k s); try done. intros r Hr.
    apply (rec_ok_write env Hq (kv_dev s) _ g n (data mb) recs); try done. by apply (si_recs _ _ _ _ Hinv).
  - intros op. unfold put. rewrite (bind_run _ _ _ _ _ Hh). change (negb (0 =? 0)) with false. cbv iota.
    assert (get_valid_size keyval = length key + length val)%nat as Hgv
      by (unfold get_valid_size; by rewrite <- data_length).
    rewrite Hgv. destruct fuel as [|f]; [unfold BUCKET in Hfuel; lia|]. cbn [put_loop].
    assert (put_io_loop env (S f) keyval (length key + length val) (length key) (at_tick t0 s) =
            Some ((0, Some g, mb'), s1)) as Hpio.
    { cbn [put_io_loop]. rewrite (bind_run _ _ _ _ _ Hio). cbv beta iota.
      unfold reslice_. change putKeyvalPrefixSize with 14%nat. rewrite Hre. reflexivity. }
    rewrite (bind_run _ _ _ _ _ Hpio). change (negb (0 =? 0)) with false. cbv beta iota.
    erewrite bind_run by reflexivity. rewrite (bind_run _ _ _ _ _ (others_run_quiet env Hq _)). cbn [pred].
    replace (length key + length val - length key)%nat with (length val) by lia. reflexivity.
Qed.

Lemma map_loop_done op s1 recs' mb :
  put_done env k s1 mb (local_put_mbuff env fuel (e_hash env key) mb (length key) g op s1) recs' ->
  exists mb' s', put_map_loop env fuel (e_hash env key) mb (length key) g op s1 = Some ((0, mb'), s') /\
    mb_wf mb' /\ data mb' = data mb /\ store_inv env k s' recs'.
Proof.
  intros (mb' & s' & He & Hw & Hd & Hinv' & _). exists mb', s'. split; [|done].
  destruct fuel as [|f]; [unfold BUCKET in Hfuel; lia|]. cbn [put_map_loop].
  rewrite (bind_run _ _ _ _ _ He). reflexivity.
Qed.

Lemma map_loop_refused op s1 mb :
  put_refused s1 mb EINVAL (local_put_mbuff env fuel (e_hash env key) mb (length key) g op s1) ->
  exists mb' t, put_map_loop env fuel (e_hash env key) mb (length key) g op s1 = Some ((EINVAL, mb'), at_tick t s1) /\
    mb_wf mb' /\ data mb' = data mb.
Proof.
  intros (mb' & t & He & Hw & Hd). exists mb', t. split; [|done].
  destruct fuel as [|f]; [unfold BUCKET in Hfuel; lia|]. cbn [put_map_loop].
  rewrite (bind_run _ _ _ _ _ He). reflexivity.
Qed.

(** How a put ends: its code, the caller's Mbuff as it was, the new content. *)
Definition put_ends (op : put_op) (rc : Z) (recs' : list krec) : Prop :=
  exists mb s', put env fuel keyval (length key) op s = Some ((rc, mb), s') /\ mb_wf mb /\
    data mb = key ++ val /\ store_inv env k s' recs'.

Lemma log_inv s1 ev recs' : store_inv env k s1 recs' -> store_inv env k (log ev s1) recs'.
Proof. intros H. apply (store_inv_ext env k s1); try done. apply (si_recs _ _ _ _ H). Qed.

Lemma new_apart r : r ∈ recs -> apart env nr r.
Proof.
  intros Hr. destruct (fg_apart _ _ _ _ (pp_fresh Hpre) r Hr) as [H|H]; [by right|by left].
Qed.

Lemma put_ends_new op :
  key ∉ r_key <$> recs -> bucket_full (table (kv_map s) (e_hash env key)) (e_hash env key) = false ->
  put_ends op (if decide (op = REPLACE) then EINVAL else 0)
              (if decide (op = REPLACE) then recs else nr :: recs).
Proof.
  intros Hk Hroom. destruct put_written as (mb & s1 & Hw & Hd & Hok & Hinv1 & Hts & Hmap & Hput).
  rewrite <- Hmap in Hroom. unfold put_ends. setoid_rewrite Hput. case_decide as Hop.
  - subst op. destruct (map_loop_refused REPLACE s1 mb) as (mb' & t & He & Hw' & Hd').
    { apply (put_new_refused env Hq k s1 recs Hinv1 nr Hok mb Hw Hd fuel Hfuel Hk Hroom). }
    eexists mb', _. rewrite (bind_run _ _ _ _ _ He). split; [reflexivity|]. rewrite Hd'. do 2 (split; [done|]).
    do 2 apply log_inv. by apply (at_tick_inv env k s1).
  - destruct (map_loop_done op s1 (nr :: recs) mb) as (mb' & s' & He & Hw' & Hd' & Hinv').
    { apply (put_new env Hq k s1 recs Hinv1 nr Hok mb Hw Hd fuel Hfuel); try done.
      intros r Hr _. by apply new_apart. }
    eexists mb', _. rewrite (bind_run _ _ _ _ _ He). split; [reflexivity|]. rewrite Hd'. do 2 (split; [done|]).
    by apply log_inv.
Qed.

Lemma put_ends_existing op r rest :
  recs ≡ₚ r :: rest -> r_key r = key ->
  (op <> CREATE -> is_pba_order_equal_to_total_order env (kv_seg_ts s) (r_grain r) g (r_header r) = true) ->
  put_ends op (if decide (op = CREATE) then EINVAL else 0)
              (if decide (op = CREATE) then recs else nr :: rest).
Proof.
  intros Hr Hk Hord. destruct put_written as (mb & s1 & Hw & Hd & Hok & Hinv1 & Hts & Hmap & Hput).
  unfold put_ends. setoid_rewrite Hput. case_decide as Hop.
  - subst op. destruct (map_loop_refused CREATE s1 mb) as (mb' & t & He & Hw' & Hd').
    { by apply (put_existing_refused env Hq k s1 recs Hinv1 nr Hok mb Hw Hd fuel Hfuel r rest). }
    eexists mb', _. rewrite (bind_run _ _ _ _ _ He). split; [reflexivity|]. rewrite Hd'. do 2 (split; [done|]).
    do 2 apply log_inv. by apply (at_tick_inv env k s1).
  - destruct (map_loop_done op s1 (nr :: rest) mb) as (mb' & s' & He & Hw' & Hd' & Hinv').
    { apply (put_existing env Hq k s1 recs Hinv1 nr Hok mb Hw Hd fuel Hfuel) with (r := r); try done.
      - intros r' Hr' _. by apply new_apart.
      - rewrite Hts. by apply Hord. }
    eexists mb', _. rewrite (bind_run _ _ _ _ _ He). split; [reflexivity|]. rewrite Hd'. do 2 (split; [done|]).
    by apply log_inv.
Qed.

End Whole.
