(* ===== verification/KvDel.v ===== *)
(** * KvDel: del removes exactly one key

    With no other thread running and calls that succeed, del of a present key
    writes a tombstone record and takes the key out of the map; every other
    record stays.  Del of an absent key changes nothing. *)
From Stdlib Require Import ZArith Lia.
From stdpp Require Import base tactics list numbers.
From S2P Require Import Prelude Util HashEntry HopscotchMap HopscotchSpec HopscotchRefine.
From S2P Require Import FpTable DirectoryMap DirectoryGrow DirectoryOps Mbuff MbuffSpec MbuffHead.
From S2P Require Import StoreFormat KvStore KvIo KvInv KvGet KvWrite KvPut.

Open Scope Z_scope.

Section Del.
Context (env : kv_env) (Hq : quiet env).
Context (k : Z) (s : kv) (recs : list krec) (Hinv : store_inv env k s recs).
Context (key : mbuff) (Hkw : mb_wf key) (Hlen : 0 < Z.of_nat (length (data key)) < 2 ^ 16).

Local Abbreviation gs := (e_grain_size env).
Local Abbreviation d := (kv_map s).
Local Abbreviation h := (e_hash env (data key)).
Local Abbreviation kl := (Z.of_nat (length (data key))).
Local Abbreviation n := (grains_of env kl 0).

Lemma del_key_size : get_valid_size key = length (data key).
Proof. symmetry. by apply data_length. Qed.

Lemma del_absent fuel :
  (BUCKET < fuel)%nat -> data key ∉ r_key <$> recs ->
  exists mb t, del env fuel key s = Some ((ENODATA, mb), at_tick t s) /\ mb_wf mb /\ data mb = data key.
Proof.
  intros Hfuel Hk. destruct (hash_mbuff_spec env Hq s key (length (data key)) (kv_tick s) Hkw) as (t0 & Hh); [lia|lia|].
  rewrite at_tick_self, take_ge in Hh by done.
  unfold del. rewrite del_key_size, (bind_run _ _ _ _ _ Hh). change (negb (0 =? 0)) with false. cbv iota.
  destruct fuel as [|f]; [unfold BUCKET in Hfuel; lia|]. cbn [del_loop].
  destruct (move_free_buffs_to key mbuff_empty (align_up (Z.of_nat (putKeyvalPrefixSize +
    length (data key) + putKeyvalSuffixSize)) 512)) as [[key1 kmb] m] eqn:Hm.
  pose proof (move_free_spec _ _ _ _ _ _ Hkw mbuff_empty_wf Hm) as (Hw1 & Hw2 & Hd1 & Hd2).
  destruct (lookup_put_missing env Hq k s recs Hinv (data key) key1 Hw1 ltac:(by rewrite Hd1, take_ge) Hlen
              (S f) kmb t0 Hk ltac:(by split; [|rewrite Hd2]) Hfuel) as (mb1 & t1 & err & o & He & [Hmw Hms] & Hcase).
  destruct (reslice_prefix mb1 0 Hmw) as (mb2 & Hre & Hmw2 & _); [lia|done|].
  destruct (move_free_buffs_to mb2 key1 (2 ^ 64 - 1)) as [[mb3 key2] m2] eqn:Hm2.
  pose proof (move_free_spec _ _ _ _ _ _ Hmw2 Hw1 Hm2) as (_ & Hw3 & _ & Hd3).
  assert (local_del_mbuff env (S f) h key (at_tick t0 s) = Some ((ENODATA, key2), at_tick t1 s)) as Hdel.
  { unfold local_del_mbuff. rewrite del_key_size, Hm, (bind_run _ _ _ _ _ He). cbv beta iota zeta.
    assert ((err =? EEXIST) = false) as -> by (by destruct Hcase as [[-> _]|[-> _]]).
    cbn [negb]. rewrite Hre. erewrite bind_run by reflexivity. rewrite Hm2.
    by destruct Hcase as [[-> _]|[-> _]]. }
  exists key2. eexists. rewrite (bind_run _ _ _ _ _ Hdel). split; [reflexivity|].
  split; [done|]. by rewrite Hd3.
Qed.

(** ** A present key *)

(** What del needs of its caller and of the allocator: buffers that can hold the
    tombstone in one piece, and grains for it. *)
Record del_pre (N : nat) (g : Z) : Prop := {
  dp_fits : fits env kl 0;
  dp_page : (N <= 4096)%nat;
  dp_tomb : n * gs <= Z.of_nat N;
  dp_bufs : Forall (fun b : Z * nat => (N <= b.2)%nat) (buffers key);
  dp_alloc : forall t, e_alloc env t = (0, g);
  dp_fresh : fresh_grains env recs g n;
  dp_ts : in_width 64 (kv_seg_ts s (grain_to_seg_idx env g))
}.

Context (N : nat) (g : Z) (Hpre : del_pre N g).

Lemma lent_roomy n0 key1 kmb m :
  move_free_buffs_to key mbuff_empty n0 = (key1, kmb, m) -> roomy N kmb.
Proof.
  intros Hm. unfold move_free_buffs_to in Hm.
  pose proof (move_free_loop_spec (S (length (mb_free_ key))) key mbuff_empty 0 n0 Hkw mbuff_empty_wf ltac:(lia)) as H.
  pose proof (move_free_loop_nodes (S (length (mb_free_ key))) key mbuff_empty 0 n0) as Hn.
  rewrite Hm in H, Hn. simpl in Hn. destruct H as (_ & _ & _ & _ & Hb & _). split; [by rewrite Hn|].
  pose proof (dp_bufs _ _ Hpre) as HF. change (buffers mbuff_empty) with (@nil (Z * nat)) in Hb.
  rewrite app_nil_r in Hb. rewrite <- Hb in HF. by apply Forall_app in HF as [_ HF].
Qed.

(** The key as the lookup read it, cut out for the tombstone. *)
Lemma tombstone_ready mb :
  short mb -> roomy N mb -> (14 + length (data key) <= length (data mb))%nat ->
  take (length (data key)) (drop 14 (data mb)) = data key ->
  exists mb', reslice_ mb (length (data key)) putKeyvalPrefixSize = Some mb' /\
    data mb' = data key ++ [] /\ put_ready mb' (pad_of env kl 0).
Proof.
  intros [Hw Hs] Hr Hl Hk. pose proof (dp_fits _ _ Hpre) as Hf.
  destruct (grains_spec env Hq _ _ Hf) as [_ [Hlo _]]. pose proof (dp_tomb _ _ Hpre). pose proof (dp_page _ _ Hpre).
  destruct (reslice_in_head N mb (length (data key)) 14 Hw Hr) as (mb' & n0 & He & Hn & Ho & Hln & HN); [lia..|].
  destruct (reslice_spec mb (length (data key)) 14 Hw) as (mb2 & He2 & Hw2 & Hd2 & _); [lia|lia|].
  rewrite He in He2. injection He2 as <-. change putKeyvalPrefixSize with 14%nat.
  exists mb'. unfold reslice_. rewrite He, app_nil_r. split; [done|]. split; [by rewrite Hd2|].
  assert (append_space n0 = mb_buff_len_ n0 - (14 + length (data key)))%nat as Hsp.
  { unfold append_space. by rewrite Ho, Hln. }
  split; [done| | |].
  - exists n0, []. rewrite Hn, Hln. split; [done|]. split; [lia|done].
  - unfold tail_space. rewrite Hn. simpl. rewrite Hsp. unfold sizeof_suffix. lia.
  - unfold append_avail_size. rewrite Hn. simpl. rewrite Hsp. unfold sizeof_suffix, pad_of. lia.
Qed.

Lemma tombstone_written fuel mb t :
  (0 < fuel)%nat -> short mb -> roomy N mb -> (14 + length (data key) <= length (data mb))%nat ->
  take (length (data key)) (drop 14 (data mb)) = data key ->
  exists mb' s', del_io_loop env fuel mb (length (data key)) (at_tick t s) = Some ((0, Some g, mb'), s') /\
    short mb' /\ store_inv env k s' recs /\ kv_map s' = kv_map s /\ kv_seg_ts s' = kv_seg_ts s.
Proof.
  intros Hf Hs Hr Hl Ht. destruct (tombstone_ready mb Hs Hr Hl Ht) as (mb1 & Hre & Hd & Hready).
  pose proof (dp_fresh _ _ Hpre) as Hfr. pose proof Hfr as [Hg He _].
  destruct (put_io_spec env Hq mb1 (data key) [] (at_tick t s) g Hd (dp_fits _ _ Hpre) Hready
              (dp_alloc _ _ Hpre _) (proj1 Hg) He (dp_ts _ _ Hpre)) as (mb3 & t3 & dev & rst & Hio & Hw3 & Hd3 & Hl3 & Hdev).
  destruct fuel as [|f]; [lia|]. cbn [del_io_loop]. rewrite Hre. erewrite bind_run by reflexivity.
  rewrite (bind_run _ _ _ _ _ Hio). eexists mb3, _. split; [reflexivity|].
  pose proof (grains_spec env Hq _ _ (dp_fits _ _ Hpre)) as [_ [_ Hhi]].
  change (Z.of_nat (length (@nil Z))) with 0 in Hl3.
  pose proof (f_sum _ _ _ (dp_fits _ _ Hpre)). split; [split; [done|lia]|]. split; [|done].
  apply (store_inv_ext env k s); try done. intros r Hin.
  apply (rec_ok_write env Hq (kv_dev s) _ g n (data mb3) recs); try done. by apply (si_recs _ _ _ _ Hinv).
Qed.

(** The last steps: the record's grains and bytes are given up and the slot
    becomes a tombstone. *)
Lemma unmapped s1 r rest q :
  store_inv env k s1 (r :: rest) -> r_key r = data key -> q ∈ slots (kv_map s1) h -> entry_of env s1 h q r ->
  let s' := mkKv (dir_remove (kv_map s1) h q g) (kv_dev s1) (kv_seg_ts s1) (u64 (kv_key_nr s1 - 1))
    (u64 (kv_used_bytes s1 - (klen r + vlen r))) (u64 (kv_total_bytes s1 - r_grains env r * gs))
    (Kv_release g n :: Kv_invalidate (r_grain r) (r_grains env r) :: kv_events s1) (kv_tick s1) in
  store_inv env k s' rest.
Proof.
  intros Hinv1 Hkr Hqs [Hsz Hpba] s'. pose proof (si_dir _ _ _ _ Hinv1) as Hd.
  apply (elem_of_slots k _ Hd) in Hqs.
  destruct (dir_remove_spec k _ Hd h q g Hqs (fg_pba _ _ _ _ (dp_fresh _ _ Hpre))) as [Hd' Hb].
  apply (store_inv_drop env k s1 s' r rest); try done.
  unfold r_triple, s'. cbn [kv_map]. by rewrite Hkr, <- Hsz, <- Hpba, <- Hb.
Qed.

Lemma del_present fuel r rest :
  (BUCKET < fuel)%nat -> recs ≡ₚ r :: rest -> r_key r = data key ->
  is_pba_order_equal_to_total_order env (kv_seg_ts s) (r_grain r) g (r_header r) = true ->
  exists mb s', del env fuel key s = Some ((0, mb), s') /\ mb_wf mb /\ data mb = data key /\
    store_inv env k s' rest.
Proof.
  intros Hfuel Hr Hkr Hord. assert (r ∈ recs) as Hin by (rewrite Hr; by left).
  destruct (hash_mbuff_spec env Hq s key (length (data key)) (kv_tick s) Hkw) as (t0 & Hh); [lia|lia|].
  rewrite at_tick_self, take_ge in Hh by done.
  unfold del. rewrite del_key_size, (bind_run _ _ _ _ _ Hh). change (negb (0 =? 0)) with false. cbv iota.
  destruct fuel as [|f]; [unfold BUCKET in Hfuel; lia|]. cbn [del_loop].
  destruct (move_free_buffs_to key mbuff_empty (align_up (Z.of_nat (putKeyvalPrefixSize +
    length (data key) + putKeyvalSuffixSize)) 512)) as [[key1 kmb] m] eqn:Hm.
  pose proof (move_free_spec _ _ _ _ _ _ Hkw mbuff_empty_wf Hm) as (Hw1 & Hw2 & Hd1 & Hd2).
  destruct (lookup_put_present env Hq k s recs Hinv (data key) key1 Hw1 ltac:(by rewrite Hd1, take_ge) Hlen
              (S f) kmb t0 r Hin Hkr ltac:(by split; [|rewrite Hd2]) Hfuel)
    as (q & mb1 & t1 & He & Hs1 & Hk1 & Hl1 & Ht1 & Hqs & Hent).
  pose proof (Hk1 N (dp_page _ _ Hpre) (lent_roomy _ _ _ _ Hm)) as Hroomy.
  destruct (tombstone_written (S f) mb1 (S (kv_tick (at_tick t1 s))) ltac:(lia) Hs1 Hroomy Hl1 Ht1)
    as (mb2 & s2 & Hio & [Hmw2 Hms2] & Hinv2 & Hmap2 & Hts2).
  destruct (reslice_prefix mb2 0 Hmw2) as (mb3 & Hre & Hmw3 & _); [lia|done|].
  destruct (move_free_buffs_to mb3 key1 (2 ^ 64 - 1)) as [[mb4 key2] m2] eqn:Hm2.
  pose proof (move_free_spec _ _ _ _ _ _ Hmw3 Hw1 Hm2) as (_ & Hw3 & _ & Hd3).
  pose proof (si_recs _ _ _ _ Hinv r Hin) as Hok. pose proof (ro_fits _ _ _ Hok) as Hrf.
  set (s3 := at_tick (S (kv_tick s2)) s2).
  assert (store_inv env k s3 (r :: rest)) as Hinv3.
  { apply (store_inv_perm env k s3 recs); [done|]. by apply (at_tick_inv env k s2). }
  pose proof (unmapped s3 r rest q Hinv3 Hkr) as Hfin.
  change (kv_map s3) with (kv_map s2) in Hfin. rewrite Hmap2 in Hfin.
  specialize (Hfin Hqs). unfold entry_of in Hfin at 1. change (kv_map s3) with (kv_map s2) in Hfin.
  rewrite Hmap2 in Hfin. specialize (Hfin Hent). cbv zeta in Hfin.
  match type of Hfin with store_inv _ _ ?s4 _ =>
    enough (local_del_mbuff env (S f) h key (at_tick t0 s) = Some ((0, key2), s4)) as Hdel end.
  { eexists key2, _. rewrite (bind_run _ _ _ _ _ Hdel). split; [reflexivity|].
    split; [done|]. split; [by rewrite Hd3|exact Hfin]. }
  unfold local_del_mbuff. rewrite del_key_size, Hm, (bind_run _ _ _ _ _ He). cbv beta iota zeta.
  change (negb (EEXIST =? EEXIST)) with false. cbv iota. erewrite bind_run by reflexivity.
  rewrite (bind_run _ _ _ _ _ (others_run_quiet env Hq _)), at_tick_at_tick.
  rewrite (bind_run _ _ _ _ _ Hio). cbv beta iota. erewrite bind_run.
  2:{ rewrite Hre. erewrite bind_run by reflexivity. rewrite Hm2. reflexivity. }
  rewrite (bind_run _ _ _ _ _ (others_run_quiet env Hq _)). fold s3.
  change (negb (0 =? 0)) with false. cbv iota. do 3 (erewrite bind_run by reflexivity).
  change (kv_map s3) with (kv_map s2). rewrite Hmap2. rewrite <- Hts2 in Hord.
  change (kv_seg_ts s2) with (kv_seg_ts s3) in Hord.
  change (pba (entry_at (kv_map s) h q)) with (pba (ent (table (kv_map s) h) q)).
  rewrite (proj2 Hent), Hord. cbn [negb].
  change (kv_tot_grains_get gs (key_size (r_header r)) (val_size (r_header r))) with (r_grains env r).
  change (key_size (r_header r)) with (klen r). change (val_size (r_header r)) with (vlen r).
  rewrite (kv_raw_fits env Hq), (tot_bytes_fits env Hq) by done. reflexivity.
Qed.

End Del.
