(* ===== verification/KvRefine.v ===== *)
(** * KvRefine: the store is a map

    Put, get, exists and del, run one after the other on a store whose
    environment answers, behave as the operations of a finite map from keys to
    values; [store_inv] is the simulation relation. *)
From Stdlib Require Import ZArith Lia.
From stdpp Require Import base tactics list numbers gmap.
From S2P Require Import Prelude Util HashEntry HopscotchMap HopscotchSpec HopscotchRefine.
From S2P Require Import FpTable DirectoryMap DirectoryGrow DirectoryOps Mbuff MbuffSpec MbuffHead.
From S2P Require Import StoreFormat KvStore KvIo KvInv KvGet KvWrite KvPut KvDel.

Open Scope Z_scope.

(** ** The abstract store *)

Abbreviation kvmap := (gmap (list Z) (list Z)).

(** A call of the interface; the Mbuffs are the caller's. *)
Inductive call :=
  | CPut (keyval : mbuff) (key_size : nat) (op : put_op)
  | CGet (key val_out : mbuff)
  | CExists (key : mbuff)
  | CDel (key : mbuff).

(** What a call returns: its code and the bytes or the size that go with it. *)
Inductive reply :=
  | RPut (rc : Z) (keyval : list Z)
  | RGet (rc : Z) (val : list Z)
  | RExists (rc : Z) (val_size : Z)
  | RDel (rc : Z) (key : list Z).

(** The code for an absent key: get and exists also answer [ENOSPC] for one. *)
Definition absent_code (rc : Z) : Prop := rc = ENODATA \/ rc = ENOSPC.

(** [map_call m c r m'] : a map answers [r] to [c] and becomes [m']. *)
Inductive map_call (m : kvmap) : call -> reply -> kvmap -> Prop :=
  | m_put keyval ks op :
      (op = REPLACE -> is_Some (m !! take ks (data keyval))) -> (op = CREATE -> m !! take ks (data keyval) = None) ->
      map_call m (CPut keyval ks op) (RPut 0 (data keyval)) (<[take ks (data keyval) := drop ks (data keyval)]> m)
  | m_put_refused keyval ks op :
      (op = REPLACE /\ m !! take ks (data keyval) = None) \/ (op = CREATE /\ is_Some (m !! take ks (data keyval))) ->
      map_call m (CPut keyval ks op) (RPut EINVAL (data keyval)) m
  | m_get key val_out v : m !! data key = Some v -> map_call m (CGet key val_out) (RGet 0 v) m
  | m_get_absent key val_out rc : m !! data key = None -> absent_code rc ->
      map_call m (CGet key val_out) (RGet rc []) m
  | m_exists key v : m !! data key = Some v ->
      map_call m (CExists key) (RExists 0 (Z.of_nat (length v))) m
  | m_exists_absent key rc : m !! data key = None -> absent_code rc ->
      map_call m (CExists key) (RExists rc 0) m
  | m_del key v : m !! data key = Some v -> map_call m (CDel key) (RDel 0 (data key)) (delete (data key) m)
  | m_del_absent key : m !! data key = None -> map_call m (CDel key) (RDel ENODATA (data key)) m.

(** ** Running calls *)

(** Enough rounds for an undisturbed lookup. *)
Definition rounds_nr : nat := S BUCKET.

Definition run_call (env : kv_env) (c : call) (s : kv) : option (reply * kv) :=
  match c with
  | CPut keyval ks op =>
      '(rc, mb, s') ← put env rounds_nr keyval ks op s; Some (RPut rc (data mb), s')
  | CGet key val_out =>
      '(rc, mb, s') ← get env rounds_nr key val_out s; Some (RGet rc (data mb), s')
  | CExists key =>
      '(rc, sz, s') ← kv_exists env rounds_nr key s; Some (RExists rc sz, s')
  | CDel key =>
      '(rc, mb, s') ← del env rounds_nr key s; Some (RDel rc (data mb), s')
  end.

(** Each call comes with the answers that the environment gives it. *)
Fixpoint run_calls (l : list (kv_env * call)) (s : kv) : option (list reply * kv) :=
  match l with
  | [] => Some ([], s)
  | (env, c) :: l =>
      '(r, s1) ← run_call env c s;
      '(rs, s2) ← run_calls l s1;
      Some (r :: rs, s2)
  end.

Inductive map_calls : kvmap -> list (kv_env * call) -> list reply -> kvmap -> Prop :=
  | mc_nil m : map_calls m [] [] m
  | mc_cons m m1 m2 env c l r rs :
      map_call m c r m1 -> map_calls m1 l rs m2 -> map_calls m ((env, c) :: l) (r :: rs) m2.

(** ** Preconditions *)

(** Keys between 1 byte and 64 KiB. *)
Definition key_ok (key : mbuff) : Prop := mb_wf key /\ 0 < Z.of_nat (length (data key)) < 2 ^ 16.

(** A record of the key is older than what is written at grain [g]. *)
Definition in_order (env : kv_env) (s : kv) (recs : list krec) (key : list Z) (g : Z) : Prop :=
  forall r, r ∈ recs -> r_key r = key ->
    is_pba_order_equal_to_total_order env (kv_seg_ts s) (r_grain r) g (r_header r) = true.

Definition others (key : list Z) (recs : list krec) : list krec :=
  filter (fun r => r_key r <> key) recs.

(** The records after a call for which the allocator gave grain [g]. *)
Definition next_recs (env : kv_env) (s : kv) (recs : list krec) (g : Z) (c : call) : list krec :=
  match c with
  | CPut keyval ks op =>
      let key := take ks (data keyval) in
      if bool_decide (op = REPLACE /\ key ∉ r_key <$> recs \/ op = CREATE /\ key ∈ r_key <$> recs)
      then recs else new_rec env s key (drop ks (data keyval)) g :: others key recs
  | CGet _ _ | CExists _ => recs
  | CDel key => others (data key) recs
  end.

Definition call_ok (env : kv_env) (s : kv) (recs : list krec) (g : Z) (c : call) : Prop :=
  match c with
  | CPut keyval ks op =>
      let key := take ks (data keyval) in
      (ks <= length (data keyval))%nat /\
      put_pre env s recs keyval key (drop ks (data keyval)) g /\
      in_order env s recs key g /\
      (key ∉ r_key <$> recs -> bucket_full (table (kv_map s) (e_hash env key)) (e_hash env key) = false)
  | CGet key val_out => key_ok key /\ short val_out
  | CExists key => key_ok key
  | CDel key =>
      key_ok key /\ in_order env s recs (data key) g /\
      (data key ∈ r_key <$> recs -> exists N, del_pre env s recs key N g)
  end.

(** The environments agree on the geometry of the store and on the hash. *)
Definition same_store (e1 e2 : kv_env) : Prop :=
  e_grain_size e1 = e_grain_size e2 /\ e_segment_size e1 = e_segment_size e2 /\ e_hash e1 = e_hash e2.

Fixpoint calls_ok (e0 : kv_env) (s : kv) (recs : list krec) (l : list (kv_env * call)) : Prop :=
  match l with
  | [] => True
  | (env, c) :: l =>
      same_store e0 env /\ quiet env /\
      exists g, call_ok env s recs g c /\
        forall r s', run_call env c s = Some (r, s') -> calls_ok e0 s' (next_recs env s recs g c) l
  end.

Definition content (recs : list krec) : kvmap := list_to_map ((fun r => (r_key r, r_val r)) <$> recs).

(** ** Content *)

Lemma content_absent key recs : key ∉ r_key <$> recs -> content recs !! key = None.
Proof.
  intros Hk. unfold content. apply not_elem_of_list_to_map. rewrite <- list_fmap_compose. exact Hk.
Qed.

Lemma content_present r recs : NoDup (r_key <$> recs) -> r ∈ recs -> content recs !! r_key r = Some (r_val r).
Proof.
  intros Hnd Hr. unfold content. apply elem_of_list_to_map.
  - rewrite <- list_fmap_compose. exact Hnd.
  - apply list_elem_of_fmap. by exists r.
Qed.

Lemma others_absent key recs : key ∉ r_key <$> recs -> others key recs = recs.
Proof.
  intros Hk. unfold others. induction recs as [|r recs IH]; [done|].
  rewrite fmap_cons, not_elem_of_cons in Hk. destruct Hk as [Hne Hk].
  rewrite filter_cons_True by congruence. f_equal. by apply IH.
Qed.

Lemma others_present r recs : NoDup (r_key <$> recs) -> r ∈ recs -> recs ≡ₚ r :: others (r_key r) recs.
Proof.
  intros Hnd. induction recs as [|r0 recs IH]; intros Hr; [by apply elem_of_nil in Hr|].
  rewrite fmap_cons in Hnd. pose proof (NoDup_cons_1_1 _ _ Hnd) as Hn. apply NoDup_cons_1_2 in Hnd.
  apply elem_of_cons in Hr as [->|Hr].
  - unfold others. rewrite filter_cons_False by auto. fold (others (r_key r0) recs). by rewrite others_absent.
  - unfold others. rewrite filter_cons_True.
    2:{ intros Heq. apply Hn. rewrite Heq. apply list_elem_of_fmap. by exists r. }
    fold (others (r_key r) recs). rewrite (IH Hnd Hr) at 1. apply Permutation_swap.
Qed.

Lemma content_others key recs : content (others key recs) = delete key (content recs).
Proof.
  unfold content, others. induction recs as [|r recs IH]; [symmetry; apply delete_empty|].
  rewrite filter_cons. case_decide as Hne; rewrite !fmap_cons; cbn [list_to_map foldr fst snd].
  - rewrite delete_insert_ne by done. by rewrite <- IH.
  - subst key. rewrite delete_insert_eq. exact IH.
Qed.

Lemma content_put nr key recs :
  r_key nr = key -> content (nr :: others key recs) = <[key := r_val nr]> (content recs).
Proof.
  intros <-. unfold content at 1. rewrite fmap_cons. cbn [list_to_map foldr fst snd].
  fold (content (others (r_key nr) recs)). rewrite content_others. apply insert_delete_eq.
Qed.

Lemma find_key (key : list Z) (recs : list krec) : {r | r ∈ recs /\ r_key r = key} + {key ∉ r_key <$> recs}.
Proof.
  induction recs as [|r recs IH]; [right; by apply not_elem_of_nil|].
  destruct (decide (r_key r = key)) as [Heq|Hne].
  - left. exists r. split; [by left|done].
  - destruct IH as [(r' & Hr' & Heq)|Hn].
    + left. exists r'. split; [by right|done].
    + right. rewrite fmap_cons, not_elem_of_cons. split; congruence.
Qed.

(** ** The simulation *)

Section Step.
Context (env : kv_env) (Hq : quiet env) (k : Z) (s : kv) (recs : list krec).
Context (Hinv : store_inv env k s recs) (g : Z).

(** A call's reply and the new state refine the map's. *)
Definition refined (c : call) : Prop :=
  exists r s', run_call env c s = Some (r, s') /\ store_inv env k s' (next_recs env s recs g c) /\
    map_call (content recs) c r (content (next_recs env s recs g c)).

Lemma rounds_enough : (BUCKET < rounds_nr)%nat.
Proof. unfold rounds_nr. lia. Qed.

Lemma at_tick_store t : store_inv env k (at_tick t s) recs.
Proof. by apply at_tick_inv. Qed.

Lemma absent_code_err key : absent_code (absent_err env s key).
Proof. unfold absent_code, absent_err. destruct (_ && _); auto. Qed.

Lemma get_refined key val_out : call_ok env s recs g (CGet key val_out) -> refined (CGet key val_out).
Proof.
  intros [[Hw Hl] Hv]. destruct (get_run env Hq k s recs Hinv rounds_nr key val_out Hw Hl Hv rounds_enough) as [Hp Ha].
  unfold refined, run_call. destruct (find_key (data key) recs) as [(r & Hr & Hk)|Hk].
  - destruct (Hp r Hr Hk) as (mb & t & -> & _ & Hd). eexists _, _. split; [reflexivity|].
    split; [apply at_tick_store|]. rewrite Hd. constructor. rewrite <- Hk.
    apply content_present; [apply (si_keys _ _ _ _ Hinv)|done].
  - destruct (Ha Hk) as (mb & t & -> & _ & Hd). eexists _, _. split; [reflexivity|].
    split; [apply at_tick_store|]. rewrite Hd. constructor; [by apply content_absent|apply absent_code_err].
Qed.

Lemma exists_refined key : call_ok env s recs g (CExists key) -> refined (CExists key).
Proof.
  intros [Hw Hl]. destruct (exists_run env Hq k s recs Hinv rounds_nr key Hw Hl rounds_enough) as [Hp Ha].
  unfold refined, run_call. destruct (find_key (data key) recs) as [(r & Hr & Hk)|Hk].
  - destruct (Hp r Hr Hk) as (t & ->). eexists _, _. split; [reflexivity|].
    split; [apply at_tick_store|]. constructor. rewrite <- Hk.
    apply content_present; [apply (si_keys _ _ _ _ Hinv)|done].
  - destruct (Ha Hk) as (t & ->). eexists _, _. split; [reflexivity|].
    split; [apply at_tick_store|]. constructor; [by apply content_absent|apply absent_code_err].
Qed.

Lemma del_refined key : call_ok env s recs g (CDel key) -> refined (CDel key).
Proof.
  intros ([Hw Hl] & Hord & Hpre). unfold refined, run_call, next_recs. rewrite content_others.
  pose proof (si_keys _ _ _ _ Hinv) as Hnd.
  destruct (find_key (data key) recs) as [(r & Hr & Hk)|Hk].
  - destruct Hpre as [N Hpre]; [apply list_elem_of_fmap; by exists r|].
    pose proof (others_present r recs Hnd Hr) as Hp. rewrite Hk in Hp.
    destruct (del_present env Hq k s recs Hinv key Hw Hl N g Hpre rounds_nr r _ rounds_enough Hp Hk (Hord r Hr Hk))
      as (mb & s' & -> & _ & Hd & Hinv'). eexists _, s'. split; [reflexivity|]. split; [done|].
    rewrite Hd. apply (m_del _ _ (r_val r)). rewrite <- Hk. by apply content_present.
  - destruct (del_absent env Hq k s recs Hinv key Hw Hl rounds_nr rounds_enough Hk) as (mb & t & -> & _ & Hd).
    eexists _, _. split; [reflexivity|]. rewrite others_absent by done. split; [apply at_tick_store|].
    pose proof (content_absent _ _ Hk) as Hc. rewrite delete_id by done. rewrite Hd. by constructor.
Qed.

Lemma put_refined keyval ks op : call_ok env s recs g (CPut keyval ks op) -> refined (CPut keyval ks op).
Proof.
  intros (Hks & Hpre & Hord & Hroom). unfold refined, run_call, next_recs.
  pose proof (si_keys _ _ _ _ Hinv) as Hnd.
  set (key := take ks (data keyval)) in *. set (val := drop ks (data keyval)) in *.
  assert (length key = ks) as Hlk by (unfold key; rewrite length_take; lia).
  assert (data keyval = key ++ val) as Hkv by (unfold key, val; by rewrite take_drop).
  destruct (find_key key recs) as [(r & Hr & Hk)|Hk].
  - assert (key ∈ r_key <$> recs) as Hin by (apply list_elem_of_fmap; by exists r).
    pose proof (others_present r recs Hnd Hr) as Hp. rewrite Hk in Hp.
    pose proof (content_present r recs Hnd Hr) as Hc. rewrite Hk in Hc.
    destruct (put_ends_existing env Hq k s recs Hinv keyval key val g rounds_nr rounds_enough Hpre op r _ Hp Hk)
      as (mb & s' & He & _ & Hd & Hinv'); [intros _; by apply Hord|]. rewrite Hlk in He. rewrite He.
    case_decide as Hop.
    + rewrite bool_decide_eq_true_2 by (right; done). eexists _, _. split; [reflexivity|]. split; [done|].
      rewrite Hd, <- Hkv. constructor. right. split; [done|]. by exists (r_val r).
    + rewrite bool_decide_eq_false_2 by (intros [[? ?]|[? ?]]; done). eexists _, _. split; [reflexivity|].
      split; [done|]. rewrite Hd, <- Hkv. rewrite content_put by done. constructor; [intros _; by exists (r_val r)|done].
  - destruct (put_ends_new env Hq k s recs Hinv keyval key val g rounds_nr rounds_enough Hpre op Hk (Hroom Hk))
      as (mb & s' & He & _ & Hd & Hinv'). rewrite Hlk in He. rewrite He. pose proof (content_absent _ _ Hk) as Hc.
    case_decide as Hop.
    + rewrite bool_decide_eq_true_2 by (left; done). eexists _, _. split; [reflexivity|]. split; [done|].
      rewrite Hd, <- Hkv. constructor. by left.
    + rewrite bool_decide_eq_false_2 by (intros [[? ?]|[? ?]]; done). eexists _, _. split; [reflexivity|].
      rewrite others_absent by done. split; [done|]. rewrite Hd, <- Hkv.
      rewrite <- (others_absent key recs Hk) at 2. rewrite content_put by done. by constructor.
Qed.

Lemma call_refined c : call_ok env s recs g c -> refined c.
Proof. destruct c; [apply put_refined|apply get_refined|apply exists_refined|apply del_refined]. Qed.

End Step.

Lemma store_inv_geometry e1 e2 k s recs : same_store e1 e2 -> store_inv e1 k s recs -> store_inv e2 k s recs.
Proof.
  intros (Hg & _ & Hh) Hinv. destruct e1 as [g1 ? ? h1], e2 as [g2 ? ? h2]. simpl in Hg, Hh. subst g2 h2.
  destruct Hinv as [Hd Hb Hr Hk Ha Hn Hu Ht]. split; try done.
  intros r Hin. destruct (Hr r Hin) as [[? ? ? ?] ? ? ? ?]. by split.
Qed.

Lemma same_store_sym e1 e2 : same_store e1 e2 -> same_store e2 e1.
Proof. intros (? & ? & ?). by repeat split. Qed.

Lemma calls_refined e0 k l : forall s recs,
  store_inv e0 k s recs -> calls_ok e0 s recs l ->
  exists rs s' recs', run_calls l s = Some (rs, s') /\ store_inv e0 k s' recs' /\
    map_calls (content recs) l rs (content recs').
Proof.
  induction l as [|[env c] l IH]; intros s recs Hinv Hok.
  { exists [], s, recs. split; [done|]. split; [done|]. constructor. }
  destruct Hok as (Hs & Hq & g & Hc & Hnext).
  destruct (call_refined env Hq k s recs (store_inv_geometry _ _ _ _ _ Hs Hinv) g c Hc)
    as (r & s1 & He & Hinv1 & Hm).
  destruct (IH s1 (next_recs env s recs g c)) as (rs & s2 & recs' & He2 & Hinv2 & Hm2).
  { apply (store_inv_geometry env); [by apply same_store_sym|done]. }
  { by apply (Hnext r). }
  exists (r :: rs), s2, recs'. cbn [run_calls]. rewrite He. simpl. rewrite He2. split; [done|].
  split; [done|]. by apply (mc_cons _ (content (next_recs env s recs g c))).
Qed.

(** ** A store without records *)

(** A new store with the directory [d] and the segment timestamps [ts]. *)
Definition kv_fresh (d : DirMap) (dev : device) (ts : Z -> Z) : kv := mkKv d dev ts 0 0 0 [] 0.

Lemma kv_fresh_inv env k d dev ts : dir_inv k d -> dir_bag d = [] -> store_inv env k (kv_fresh d dev ts) [].
Proof.
  intros Hd Hb. split; try done.
  - simpl. by rewrite Hb.
  - intros r Hr. by apply elem_of_nil in Hr.
  - apply NoDup_nil_2.
  - intros r1 r2 Hr. by apply elem_of_nil in Hr.
Qed.


(** *** A run of a small store *)

(** Grains of 32 bytes, the allocator at grain [g]; permuted keys collide. *)
Definition env_at (g : Z) : kv_env := mkEnv 32 48 1 (fun bs => foldr Z.add 0 bs) (fun _ _ => 7)
  (fun t n => Some (Z.of_nat t, replicate n 0)) (fun _ => 5) (fun _ => 7)
  (fun _ => (0, g)) (fun _ => env_small) (fun _ s => s).

Lemma env_at_quiet g : quiet (env_at g).
Proof. split; simpl; intros; try lia; [done|]. eexists _, _. split; [done|]. apply length_replicate. Qed.

Definition keyval_of (bs : list Z) : mbuff :=
  Mbuff (length bs) [Node 4096 (replicate 14 0 ++ bs ++ replicate 34 0) 14 (length bs)] 0 0 [].
Definition key_of (bs : list Z) : mbuff :=
  Mbuff (length bs) [Node 8192 (bs ++ replicate 32 0) 0 (length bs)] 0 0 [].

Definition store0 : kv := kv_fresh dir_small (fun _ => 0) (fun i => i + 1).

Definition state_after (env : kv_env) (c : call) (s : kv) : kv :=
  match run_call env c s with Some (_, s') => s' | None => s end.

Lemma state_after_run env c s r s' : run_call env c s = Some (r, s') -> s' = state_after env c s.
Proof. intros He. unfold state_after. by rewrite He. Qed.

Definition sample_calls : list (kv_env * call) :=
  [(env_at 100, CPut (keyval_of [1; 2; 3; 4; 5]) 2 NORMAL);
   (env_at 102, CPut (keyval_of [2; 1; 9]) 2 CREATE);
   (env_at 0, CGet (key_of [1; 2]) mbuff_empty);
   (env_at 104, CDel (key_of [1; 2]));
   (env_at 0, CExists (key_of [2; 1]))].

Lemma keyval_of_data bs : data (keyval_of bs) = bs.
Proof.
  unfold data, keyval_of. cbn [mb_nodes fmap list_fmap concat]. rewrite app_nil_r.
  unfold node_data, get_valid_chunk. cbn [mb_off_ mb_len_ mb_buff_].
  change (drop (14 + 0) (replicate 14 0 ++ bs ++ replicate 34 0)) with (bs ++ replicate 34 0).
  by rewrite take_app_length.
Qed.

Lemma keyval_of_ready bs pad : bs <> [] -> (pad <= 32)%nat -> put_ready (keyval_of bs) pad.
Proof.
  intros Hne Hp. destruct bs as [|b bs]; [done|].
  assert (append_space (Node 4096 (replicate 14 0 ++ (b :: bs) ++ replicate 34 0) 14 (length (b :: bs))) = 34%nat) as Hsp.
  { unfold append_space, mb_buff_len_. cbn [mb_buff_ mb_off_ mb_len_].
    rewrite !length_app, !length_replicate. simpl length. lia. }
  split; unfold tail_space, append_avail_size, keyval_of; cbn [mb_nodes list.last mb_free_size_]; rewrite ?Hsp;
    unfold sizeof_suffix; try lia.
  - split; cbn [mb_nodes mb_free_ mb_valid_size_ mb_free_size_ mb_free_nodes_]; try done.
    apply Forall_cons_iff. split; [|done]. split; unfold mb_buff_len_; cbn [mb_buff_ mb_off_ mb_len_];
      rewrite ?length_app, ?length_replicate; simpl length; lia.
  - eexists _, _. split; [done|]. simpl. unfold sizeof_store. lia.
Qed.

(** The conditions of the sample's puts that are about numbers. *)
Lemma sample_put_pre s recs bs ks g :
  (0 < ks < 16)%nat -> (ks <= length bs < 100)%nat -> valid_pba g -> g < 2 ^ 20 ->
  (forall r, r ∈ recs -> r_grain r + r_grains (env_at g) r <= g) ->
  in_width 64 (kv_seg_ts s (g / 48)) ->
  put_pre (env_at g) s recs (keyval_of bs) (take ks bs) (drop ks bs) g.
Proof.
  intros Hks Hl Hg Hlt Hap Hts.
  assert (fits (env_at g) (Z.of_nat (length (take ks bs))) (Z.of_nat (length (drop ks bs)))) as Hfit.
  { rewrite length_take, length_drop. split; cbn [e_grain_size env_at]; change MAX_KV_SIZE with 2047; lia. }
  destruct (grains_spec (env_at g) (env_at_quiet g) _ _ Hfit) as [Hn [Hlo Hhi]].
  rewrite length_take, length_drop in Hlo, Hhi. cbn [e_grain_size env_at] in Hlo, Hhi.
  split; [|done| |done| |done].
  - by rewrite keyval_of_data, take_drop.
  - apply keyval_of_ready; [destruct bs; [simpl in Hl; lia|done]|]. unfold pad_of.
    rewrite length_take, length_drop in *. cbn [e_grain_size env_at]. lia.
  - split; [done| |intros r Hr; left; auto]. cbn [e_grain_size env_at].
    rewrite length_take, length_drop in *. lia.
Qed.

Lemma key_of_ok bs : bs <> [] -> Z.of_nat (length bs) < 2 ^ 16 ->
  key_ok (key_of bs) /\ data (key_of bs) = bs /\ Forall (fun b : Z * nat => (32 <= b.2)%nat) (buffers (key_of bs)).
Proof.
  intros Hne Hl. destruct bs as [|b bs]; [done|].
  assert (data (key_of (b :: bs)) = b :: bs) as Hd.
  { unfold data, key_of. cbn [mb_nodes fmap list_fmap concat]. rewrite app_nil_r.
    unfold node_data, get_valid_chunk. cbn [mb_off_ mb_len_ mb_buff_]. by rewrite drop_0, take_app_length. }
  split; [|split; [done|]].
  - split; [|rewrite Hd; simpl in *; lia]. split; try done.
    apply Forall_cons_iff. split; [|done]. split; unfold mb_buff_len_; simpl; rewrite ?length_app; lia.
  - apply Forall_cons_iff. split; [|constructor]. unfold node_id, mb_buff_len_. simpl. rewrite length_app. simpl. lia.
Qed.

Lemma dir_small_inv : dir_inv 0 dir_small.
Proof. destruct dir_small_wf as [Hw Hc]. split; [done|]. intros i e He. apply (Hc i e He). Qed.

(** Numeric side conditions on closed terms. *)
Ltac closed_num := repeat split; vm_compute; first [reflexivity | discriminate | lia].

Ltac sample_recs :=
  match goal with |- calls_ok _ _ ?l _ => let x := eval vm_compute in l in change l with x end.

Ltac sample_cases H :=
  repeat (apply elem_of_cons in H as [->|H]); [..|by apply elem_of_nil in H].

