(* ===== verification/KvGc.v ===== *)
(** * KvGc: relocation of the records of a segment (uDepot/udepot-lsa.cc)

    SALSA calls [gc_callback] with a segment it wants to reuse.  The store walks
    the records it finds there, one behind the other, and writes those its map
    still points to elsewhere.  A segment that is being collected is not written,
    so a header read through the mapping of the segment stays what it was.

    The lemmas follow the walk: whatever the allocator answers and however short
    a write is, the store's invariant and its content survive each record. *)
From Stdlib Require Import ZArith Lia.
From stdpp Require Import base tactics list numbers.
From S2P Require Import Prelude Util HashEntry HopscotchMap HopscotchSpec HopscotchRefine.
From S2P Require Import FpTable DirectoryMap DirectoryGrow DirectoryOps.
From S2P Require Import StoreFormat KvStore KvIo KvInv KvGet KvWrite KvPut.

Open Scope Z_scope.

Section Gc.
Context (env : kv_env).

Local Abbreviation gs := (e_grain_size env).

(** [payload_size]: the two sizes are added as [u32]. *)
Definition payload_size (md : store_header) : Z :=
  u32 (val_size md + key_size md) + Z.of_nat putKeyvalSuffixSize.

(** [pwritev] of [bs]: what it returned, with that much of [bs] on the device. *)
Definition pwritev (bs : list Z) (off : Z) : kvm Z :=
  ret ← ask (e_pwrite env);
  if ret <? 0 then mret ret
  else
    let bs := take (Z.to_nat (Z.min ret (Z.of_nat (length bs)))) bs in
    modify (fun s => set_dev (dev_write (kv_dev s) off bs) s);;
    mret (Z.of_nat (length bs)).

(** [pread] of [n] bytes: what it returned and the bytes of the device. *)
Definition pread (n : nat) (off : Z) : kvm (Z * list Z) :=
  ret ← ask (e_pread env);
  dev ← gets kv_dev;
  let r := if ret <? 0 then ret else Z.min ret (Z.of_nat n) in
  mret (r, dev_read dev off n).

(** The record is written at new grains, [head] and [body] (key, value) with a
    new suffix, and the map's entry [he] pointed to them.  The result is the
    error code and [relocb]. *)
Definition relocate (h : Z) (he : nat) (head body : list Z) (relocb : Z) : kvm (Z * Z) :=
  let md := header_of head in
  let size_grains := kv_tot_grains_get gs (key_size md) (val_size md) in
  '(rc, grain) ← allocate_grains env size_grains;
  if negb (rc =? 0) then mret (rc, relocb)
  else
    timestamp ← gets (fun s => kv_seg_ts s (grain_to_seg_idx env grain));
    let crc16 := u16 (e_checksum16 env (u32 timestamp) head) in
    n ← pwritev (head ++ body ++ le_bytes 2 crc16) (u64 (grain * gs));
    if negb (n =? Z.of_nat sizeof_store + payload_size md) then
      invalidate_grains grain size_grains;; release_grains grain size_grains;; mret (EIO, relocb)
    else
      d ← gets kv_map;
      let invalidated_pba := pba (entry_at d h he) in
      modify (set_dir (dir_update_inplace d h he size_grains grain));;
      release_grains grain size_grains;;
      invalidate_grains invalidated_pba size_grains;;
      mret (0, u64 (relocb + size_grains * gs)).

(** [start] is the grain of the record, [head] the 14 bytes of its header; with
    [mmap] the record is read in place, else with [pread]. *)
Definition local_gc_callback (h start : Z) (head : list Z) (relocb : Z) (mmap : bool) : kvm (Z * Z) :=
  d ← gets kv_map;
  match dir_lookup_pba d h start with
  | None => mret (0, relocb)
  | Some he =>
      let md := header_of head in
      let size_grains := kv_tot_grains_get gs (key_size md) (val_size md) in
      let e := entry_at d h he in
      if deleted e then
        invalidate_grains (pba e) size_grains;;
        modify (set_dir (dir_purge d h he));;
        mret (0, u64 (relocb + size_grains * gs))
      else
        let startb := u64 (start * gs) in
        let n := Z.to_nat (payload_size md) in
        if mmap then
          dev ← gets kv_dev;
          relocate h he head (dev_read dev (startb + Z.of_nat sizeof_store) (n - sizeof_suffix)) relocb
        else
          '(ret, val) ← pread n (startb + Z.of_nat sizeof_store);
          if negb (ret =? Z.of_nat n) then mret (EIO, relocb)
          else relocate h he head (take (n - sizeof_suffix) val) relocb
  end.

(** The callback of the memcache runtimes: entries are dropped, not moved. *)
Definition local_gc_callback_mc (h start : Z) (head : list Z) (relocb : Z) : kvm (Z * Z) :=
  d ← gets kv_map;
  match dir_lookup_pba d h start with
  | None => mret (0, relocb)
  | Some he =>
      let md := header_of head in
      let size_grains := kv_tot_grains_get gs (key_size md) (val_size md) in
      let e := entry_at d h he in
      (if negb (deleted e)
       then kv_removed (kv_raw_bytes_get (key_size md) (val_size md))
                       (kv_tot_bytes_get gs (key_size md) (val_size md));;
            modify (set_dir (dir_remove d h he (pba e)))
       else mret tt);;
      d ← gets kv_map;
      invalidate_grains (pba (entry_at d h he)) size_grains;;
      modify (set_dir (dir_purge d h he));;
      mret (0, u64 (relocb + size_grains * gs))
  end.

Context (mc : bool).                  (** a memcache runtime *)
Context (exit_gc_m : nat -> bool).    (** the store is being shut down *)

(** The callback of the runtime, under the lock of the hash's table. *)
Definition gc_record (h start : Z) (head : list Z) (relocb : Z) (mmap : bool) : kvm (Z * Z) :=
  others_run env;;
  r ← (if mc then local_gc_callback_mc h start head relocb
       else local_gc_callback h start head relocb mmap);
  others_run env;;
  mret r.

(** The loop of [gc_callback] from the record at [p] of the mapped region on,
    whose grain is [grain_start]. *)
Fixpoint gc_loop (fuel : nat) (gc_startb end_ p grain_start relocb : Z) : kvm (Z * Z) :=
  match fuel with
  | O => stuck
  | S fuel' =>
      stop ← ask exit_gc_m;
      if negb (p <? end_) || (stop : bool) then mret (0, relocb)
      else
        dev ← gets kv_dev;
        let head := dev_read dev (gc_startb + p) sizeof_store in
        let md := header_of head in
        if (key_size md =? 0) && (val_size md =? 0) then mret (0, relocb)
        else if end_ <? p + val_size md + key_size md then mret (0, relocb)
        else
          let h := e_hash env (dev_read dev (gc_startb + p + Z.of_nat sizeof_store) (Z.to_nat (key_size md))) in
          '(rc, relocb) ← gc_record h grain_start head relocb true;
          if negb (rc =? 0) then mret (rc, relocb)
          else gc_loop fuel' gc_startb end_
                 (p + kv_tot_bytes_get gs (key_size md) (val_size md))
                 (u64 (grain_start + kv_tot_grains_get gs (key_size md) (val_size md))) relocb
  end.

(** The loop of [gc_callback_base].  [gcu] is the 14-byte local the header is
    read into; a key would be hashed from the bytes behind it, which the local
    does not have. *)
Fixpoint gc_base_loop (fuel : nat) (end_ start : Z) (gcu : list Z) (relocb : Z) : kvm (Z * Z) :=
  match fuel with
  | O => stuck
  | S fuel' =>
      stop ← ask exit_gc_m;
      if negb (start <? end_) || (stop : bool) then mret (0, relocb)
      else
        let startb := u64 (start * gs) in
        let endb := u64 (end_ * gs) in
        let sizeb := if u64 (startb + Z.of_nat sizeof_store) <=? endb
                     then sizeof_store else Z.to_nat (u64 (endb - startb)) in
        '(n, bs) ← pread sizeb startb;
        if negb (n =? Z.of_nat sizeb) then mret (EIO, relocb)
        else
          let gcu := bs ++ drop sizeb gcu in
          let md := header_of gcu in
          if (key_size md =? 0) && (val_size md =? 0) then mret (0, relocb)
          else if endb <? u64 (startb + val_size md + key_size md) then mret (0, relocb)
          else if 0 <? key_size md then stuck
          else
            '(rc, relocb) ← gc_record (e_hash env []) start gcu relocb false;
            if negb (rc =? 0) then mret (rc, relocb)
            else gc_base_loop fuel' end_
                   (u64 (start + kv_tot_grains_get gs (key_size md) (val_size md))) gcu relocb
  end.

(** The end of both: a shutdown is reported when nothing else went wrong. *)
Definition gc_result (res : Z * Z) : kvm (Z * Z) :=
  stop ← ask exit_gc_m;
  mret (if (fst res =? 0) && (stop : bool) then EAGAIN else fst res, snd res).

(** The result is the error code and what is added to [reloc_b_m]. *)
Definition gc_callback_base (fuel : nat) (gcu : list Z) (grain_start grain_nr : Z) : kvm (Z * Z) :=
  res ← gc_base_loop fuel (u64 (grain_start + grain_nr)) grain_start gcu 0;
  gc_result res.

(** [gc_region]: whether the segment could be mapped. *)
Definition gc_callback (fuel : nat) (gc_region : bool) (gcu : list Z) (grain_start grain_nr : Z) :
    kvm (Z * Z) :=
  if negb gc_region then gc_callback_base fuel gcu grain_start grain_nr
  else
    res ← gc_loop fuel (u64 (grain_start * gs)) (u64 (grain_nr * gs) - Z.of_nat sizeof_store) 0 grain_start 0;
    gc_result res.

End Gc.

(** ** What a collection has to keep *)

(** The grains the store holds: what it was given and has not invalidated. *)
Fixpoint remove_one (x : Z * Z) (l : list (Z * Z)) : list (Z * Z) :=
  match l with
  | [] => []
  | y :: l' => if decide (y = x) then l' else y :: remove_one x l'
  end.

(** Events newest first, as [kv_events] has them. *)
Fixpoint held (evs : list kv_event) : list (Z * Z) :=
  match evs with
  | [] => []
  | Kv_allocate g nr :: evs' => (g, nr) :: held evs'
  | Kv_invalidate g nr :: evs' => remove_one (g, nr) (held evs')
  | _ :: evs' => held evs'
  end.

Definition sep (x y : Z * Z) : Prop := fst x + snd x <= fst y \/ fst y + snd y <= fst x.

Section Spec.
Context (env : kv_env).

Local Abbreviation gs := (e_grain_size env).

Definition r_range (r : krec) : Z * Z := (r_grain r, r_grains env r).

(** Every grant of the events, oldest first, lies on the device and clear of the
    ranges taken before it. *)
Fixpoint fresh_run (taken : list (Z * Z)) (evs : list kv_event) : Prop :=
  match evs with
  | [] => True
  | Kv_allocate g nr :: evs' =>
      valid_pba g /\ (g + nr) * gs <= 2 ^ 62 /\ (forall x, x ∈ taken -> sep (g, nr) x) /\
      fresh_run ((g, nr) :: taken) evs'
  | _ :: evs' => fresh_run taken evs'
  end.

Fixpoint grants (taken : list (Z * Z)) (evs : list kv_event) : list (Z * Z) :=
  match evs with
  | [] => taken
  | Kv_allocate g nr :: evs' => grants ((g, nr) :: taken) evs'
  | _ :: evs' => grants taken evs'
  end.

(** The records of a log lie one behind the other, from [g] to at most [e]. *)
Fixpoint log_from (g e : Z) (l : list krec) : Prop :=
  match l with
  | [] => True
  | r :: l' => r_grain r = g /\ g + r_grains env r <= e /\ log_from (g + r_grains env r) e l'
  end.

Definition meets (g0 n : Z) (r : krec) : Prop := ~ sep (g0, n) (r_range r).

(** No tombstone of the map points into the segment. *)
Definition no_tombs (d : DirMap) (g0 n : Z) : Prop := forall h q,
  used (ent (table d h) q) = true -> deleted (ent (table d h) q) = true ->
  ~ (g0 <= pba (ent (table d h) q) < g0 + n).

(** From grain [g] on the segment [g0, g0 + n) holds the records [l], some of
    them outdated; what follows them in the segment may be anything. *)
Record segment_log (dev : device) (g0 n g : Z) (l : list krec) : Prop := {
  sl_range : 0 <= g0 /\ g0 <= g /\ 0 <= n /\ (g0 + n) * gs <= 2 ^ 62;
  sl_from : log_from g (g0 + n) l;
  sl_recs : Forall (rec_ok env dev) l
}.

(** [r'] is [r], moved out of the segment if it was there. *)
Definition moved (g0 n : Z) (r r' : krec) : Prop :=
  r' = r \/ (meets g0 n r /\ exists g, r' = Rec (r_key r) (r_val r) g (r_ts r)).

End Spec.

(** ** The grains held *)

Lemma remove_one_perm x l l' : l ≡ₚ x :: l' -> remove_one x l ≡ₚ l'.
Proof.
  revert l'. induction l as [|y l IH]; intros l' Hp; [by apply Permutation_nil_cons in Hp|].
  cbn [remove_one]. case_decide as Hd; [subst; by apply Permutation_cons_inv in Hp|].
  assert (y ∈ l') as Hy.
  { assert (y ∈ x :: l') as [->|?]%elem_of_cons by (rewrite <- Hp; by left); done. }
  apply elem_of_Permutation in Hy as [l'' Hl]. rewrite Hl in Hp |- *.
  rewrite (Permutation_swap y x) in Hp. apply Permutation_cons_inv in Hp. f_equiv. by apply IH.
Qed.

Section Events.
Context (env : kv_env).

Lemma fresh_run_app taken e1 e2 :
  fresh_run env taken (e1 ++ e2) <-> fresh_run env taken e1 /\ fresh_run env (grants taken e1) e2.
Proof.
  revert taken. induction e1 as [|[g nr| | |] e1 IH]; intros taken; cbn; [tauto| |apply IH..].
  rewrite IH. tauto.
Qed.

Lemma grants_mono taken evs x : x ∈ taken -> x ∈ grants taken evs.
Proof.
  revert taken. induction evs as [|[g nr| | |] evs IH]; intros taken Hx; cbn; auto.
  apply IH. by right.
Qed.

End Events.

(** ** One record *)

Section Record.
Context (env : kv_env) (Hq : quiet env).

Local Abbreviation gs := (e_grain_size env).

(** The state after a grant [g] was written with [bs]. *)
Definition after_grant (s : kv) (g : Z) (bs : list Z) (d : DirMap) (evs : list kv_event) (t : nat) : kv :=
  mkKv d (dev_write (kv_dev s) (u64 (g * gs)) bs) (kv_seg_ts s) (kv_key_nr s) (kv_used_bytes s)
       (kv_total_bytes s) (rev evs ++ kv_events s) t.

(** A relocation is refused a grant, fails to write it, or moves the entry. *)
Lemma relocate_cases h he head body rb s :
  let md := header_of head in
  let nr := kv_tot_grains_get gs (key_size md) (val_size md) in
  exists rc rb' s', relocate env h he head body rb s = Some ((rc, rb'), s') /\
  ((rc <> 0 /\ s' = tick s) \/
   exists g bs rest crc t, head ++ body ++ le_bytes 2 crc = bs ++ rest /\
   ((rc = EIO /\
     s' = after_grant s g bs (kv_map s) [Kv_allocate g nr; Kv_invalidate g nr; Kv_release g nr] t) \/
    (rc = 0 /\ Z.of_nat (length bs) = 14 + payload_size md /\
     s' = after_grant s g bs (dir_update_inplace (kv_map s) h he nr g)
            [Kv_allocate g nr; Kv_release g nr; Kv_invalidate (pba (entry_at (kv_map s) h he)) nr] t))).
Proof.
  intros md nr. unfold relocate, allocate_grains. fold md nr.
  destruct (e_alloc env (kv_tick s)) as [rc0 g] eqn:Ha.
  destruct (Z.eqb_spec rc0 0) as [->|Hne].
  2:{ exists rc0, rb, (tick s). split; [|by left]. unfold mbind, kvm_bind, ask. rewrite Ha.
      apply Z.eqb_neq in Hne. by rewrite Hne; cbn; rewrite Hne. }
  set (crc := u16 (e_checksum16 env (u32 (kv_seg_ts s (grain_to_seg_idx env g))) head)).
  set (all := head ++ body ++ le_bytes 2 crc).
  assert ((e_pwrite env (S (kv_tick s)) <? 0) = false) as Hneg
    by (pose proof (q_pwrite _ Hq (S (kv_tick s))); lia).
  set (bs := take (Z.to_nat (Z.min (e_pwrite env (S (kv_tick s))) (Z.of_nat (length all)))) all).
  assert (all = bs ++ drop (Z.to_nat (Z.min (e_pwrite env (S (kv_tick s))) (Z.of_nat (length all)))) all) as Hall
    by (symmetry; apply take_drop).
  set (t := S (S (kv_tick s))). set (d' := dir_update_inplace (kv_map s) h he nr g).
  set (s1 := after_grant s g bs (kv_map s) [Kv_allocate g nr; Kv_invalidate g nr; Kv_release g nr] t).
  set (s2 := after_grant s g bs d' [Kv_allocate g nr; Kv_release g nr;
                                    Kv_invalidate (pba (entry_at (kv_map s) h he)) nr] t).
  match goal with |- exists rc rb' s', ?run = _ /\ _ => assert (run =
    if negb (Z.of_nat (length bs) =? Z.of_nat sizeof_store + payload_size md)
    then Some ((EIO, rb), s1) else Some ((0, u64 (rb + nr * gs)), s2)) as -> end.
  { unfold mbind, kvm_bind, ask. rewrite Ha. unfold pwritev, mbind, kvm_bind, ask.
    cbn [Z.eqb modify mret kvm_ret negb log tick gets kv_tick kv_seg_ts].
    rewrite Hneg. cbn [modify mret kvm_ret]. fold crc. fold all. fold bs.
    by destruct (Z.of_nat (length bs) =? _). }
  destruct (Z.eqb_spec (Z.of_nat (length bs)) (Z.of_nat sizeof_store + payload_size md)) as [Hlen|Hlen];
    do 3 eexists; (split; [reflexivity|right; do 5 eexists; split; [exact Hall|]]); [by right|by left].
Qed.

Lemma payload_fits ks vs ts : fits env ks vs -> payload_size (mkHeader ks vs ts) = ks + vs + 2.
Proof.
  intros [Hk Hv Hs _]. pose proof (q_grain _ Hq). unfold payload_size. cbn [key_size val_size].
  rewrite wrap_small by (unfold in_width; lia). unfold putKeyvalSuffixSize, sizeof_suffix. lia.
Qed.

(** A record is not touched by a write to other grains. *)
Lemma dev_write_sep dev g nr bs g' off m :
  Z.of_nat (length bs) <= nr * gs -> sep (g, nr) g' ->
  fst g' * gs <= off -> off + Z.of_nat m <= (fst g' + snd g') * gs ->
  dev_read (dev_write dev (g * gs) bs) off m = dev_read dev off m.
Proof.
  intros Hl Hs H1 H2. pose proof (q_grain _ Hq). apply dev_read_write_other.
  destruct g' as [g1 n1]. unfold sep in Hs. simpl in *. destruct Hs as [Hs|Hs]; [right|left]; nia.
Qed.

Lemma rec_extent r : fits env (klen r) (vlen r) ->
  0 < r_grains env r /\ 14 + klen r + vlen r + 2 <= r_grains env r * gs.
Proof. intros Hf. pose proof (grains_spec env Hq _ _ Hf). unfold r_grains. lia. Qed.

Lemma rec_ok_sep dev g nr bs r :
  Z.of_nat (length bs) <= nr * gs -> sep (g, nr) (r_range env r) ->
  rec_ok env dev r -> rec_ok env (dev_write dev (g * gs) bs) r.
Proof.
  intros Hl Hs [Hf Hst Hp He Ht]. split; [done| |done|done|done].
  rewrite (dev_write_sep _ _ nr _ (r_range env r)); [done|done|done|simpl; lia|].
  pose proof (rec_extent r Hf). rewrite r_bytes_length. simpl. nia.
Qed.

Lemma segment_log_sep dev g0 n g l g' nr bs :
  Z.of_nat (length bs) <= nr * gs -> sep (g', nr) (g0, n) ->
  segment_log env dev g0 n g l -> segment_log env (dev_write dev (g' * gs) bs) g0 n g l.
Proof.
  intros Hl Hs [Hr Hf Ho]. split; [done|done|]. destruct Hr as (_ & Hg & _). revert g Hg Hf Ho.
  induction l as [|r l IH]; intros g Hg Hf Ho; [done|].
  destruct Hf as (Hrg & Hre & Hf). apply Forall_cons_iff in Ho as [Hr Ho].
  pose proof (rec_extent r (ro_fits _ _ _ Hr)) as [Hp Hx].
  apply Forall_cons_iff. split; [|apply (IH (g + r_grains env r)); [lia|done|done]].
  apply (rec_ok_sep _ _ nr); [done| |done]. unfold sep, r_range in *. simpl in *. lia.
Qed.

Lemma segment_log_tail dev g0 n r g l :
  segment_log env dev g0 n g (r :: l) -> segment_log env dev g0 n (g + r_grains env r) l.
Proof.
  intros [Hr (Hg & He & Hf) Ho]. apply Forall_cons_iff in Ho as [Hro Ho].
  pose proof (rec_extent r (ro_fits _ _ _ Hro)). split; try done. lia.
Qed.

End Record.

(** ** The entry of a record *)

Section Entry.
Context (env : kv_env) (Hq : quiet env) (k : Z).

Lemma table_alter d h f h' : dir_inv k d ->
  table (dir_alter d h f) h' =
  if (hash_to_map d h' =? hash_to_map d h)%nat then f (table d h) else table d h'.
Proof.
  intros [Hwf _]. unfold table, map_at.
  assert (hash_to_map (dir_alter d h f) h' = hash_to_map d h') as ->
    by (unfold hash_to_map, dir_size; simpl; by rewrite length_alter).
  destruct (hash_to_map_table k d Hwf h) as (e & He & _).
  simpl. destruct (Nat.eqb_spec (hash_to_map d h') (hash_to_map d h)) as [->|Hne].
  - by rewrite list_lookup_alter_eq, He.
  - by rewrite list_lookup_alter_ne by done.
Qed.

Lemma update_no_tombs d h p kvs g g0 n :
  dir_inv k d -> matches (table d h) h p -> 0 < kvs -> valid_pba g ->
  no_tombs d g0 n -> no_tombs (dir_update_inplace d h p kvs g) g0 n.
Proof.
  intros Hd Hm Hk Hg Hn h' q. unfold dir_update_inplace. rewrite table_alter by done.
  destruct (Nat.eqb_spec (hash_to_map d h') (hash_to_map d h)) as [He|]; [|apply Hn].
  rewrite (update_inplace_entry _ (table_wf k d Hd h)) by (done || lia).
  destruct (decide (q = p)) as [->|Hne].
  2:{ rewrite ent_set_ne by done. apply Hn. }
  rewrite ent_set_eq by (apply used_in_range, live_used, Hm).
  unfold deleted. cbn [kv_size]. intros _ Hdel%Z.eqb_eq. exfalso.
  change MAX_KV_SIZE with 2047 in Hdel. change DELETED_KV_SIZE_ENTRY with 0 in Hdel. lia.
Qed.

Context (s : kv) (recs : list krec) (Hinv : store_inv env k s recs).
Context (g0 n : Z) (Hnt : no_tombs (kv_map s) g0 n).

Local Abbreviation d := (kv_map s).

(** A slot the lookup returns for a grain of the segment belongs to a record
    there, whatever hash was asked for. *)
Lemma lookup_pba_rec h g q :
  g0 <= g < g0 + n -> dir_lookup_pba d h g = Some q ->
  deleted (entry_at d h q) = false /\ exists r, r ∈ recs /\ r_grain r = g /\
    (h = e_hash env (r_key r) -> matches (table d h) h q).
Proof.
  intros Hg Hl. pose proof (lookup_pba_cases (table d h) h g) as Hc.
  change (dir_lookup_pba d h g) with (lookup_pba (table d h) h g) in Hl. rewrite Hl in Hc.
  destruct Hc as (_ & Hu & Hp). change (entry_at d h q) with (ent (table d h) q).
  destruct (deleted (ent (table d h) q)) eqn:Hdel; [by destruct (Hnt h q Hu Hdel); rewrite Hp|].
  assert (live_slot (table d h) q = true) as Hlive by (unfold live_slot, live; by rewrite Hu, Hdel).
  split; [done|].
  destruct (dir_alter_split k d (si_dir _ _ _ _ Hinv) h id) as (rest & Hb & _).
  assert ((entry_keyfp (table d h) q, kv_size (ent (table d h) q), g) ∈ dir_bag d) as Hin.
  { rewrite Hb. apply elem_of_app. left. apply elem_of_entries. exists q. by rewrite Hp. }
  rewrite (si_bag _ _ _ _ Hinv) in Hin. apply list_elem_of_fmap in Hin as (r & Heq & Hr).
  exists r. unfold r_triple in Heq. injection Heq as Hfp _ ->. split; [done|]. split; [done|].
  intros ->. split; [done|]. by rewrite (table_fp k d (si_dir _ _ _ _ Hinv)).
Qed.

Lemma lookup_pba_found r : r ∈ recs -> g0 <= r_grain r < g0 + n ->
  let h := e_hash env (r_key r) in
  exists q, dir_lookup_pba d h (r_grain r) = Some q /\ deleted (entry_at d h q) = false /\
    q ∈ slots d h /\ entry_of env s h q r.
Proof.
  intros Hr Hg h. destruct (dir_lookup_pba d h (r_grain r)) as [q|] eqn:Hl.
  - destruct (lookup_pba_rec h _ q Hg Hl) as (Hdel & r' & Hr' & Hgr & Hm).
    pose proof (grain_inj env Hq k s recs Hinv r' r Hr' Hr Hgr) as ->. specialize (Hm eq_refl).
    exists q. split; [done|]. split; [done|]. pose proof (si_dir _ _ _ _ Hinv) as Hd.
    assert (q ∈ slots d h) as Hs by (by apply (elem_of_slots k d Hd)). split; [done|].
    destruct (slot_rec env k s recs Hinv h q Hs) as (r' & Hr'' & He).
    assert (r' = r) as ->; [|done]. apply (grain_inj env Hq k s recs Hinv); [done|done|].
    destruct He as [_ <-]. pose proof (lookup_pba_cases (table d h) h (r_grain r)) as Hc.
    change (dir_lookup_pba d h (r_grain r)) with (lookup_pba (table d h) h (r_grain r)) in Hl.
    rewrite Hl in Hc. apply Hc.
  - destruct (rec_slot env k s recs Hinv r Hr) as (q & Hs & _ & Hp).
    pose proof (lookup_pba_cases (table d h) h (r_grain r)) as Hc.
    change (dir_lookup_pba d h (r_grain r)) with (lookup_pba (table d h) h (r_grain r)) in Hl.
    rewrite Hl in Hc. pose proof (si_dir _ _ _ _ Hinv) as Hd. apply (elem_of_slots k d Hd) in Hs.
    destruct (Hc q); [|apply live_used, Hs|done].
    by apply (matches_in_bucket _ (table_wf k d Hd h)).
Qed.

(** Two records stored at one grain are the same record. *)
Lemma stored_inj dev r1 r2 : rec_ok env dev r1 -> rec_ok env dev r2 -> r_grain r1 = r_grain r2 -> r1 = r2.
Proof.
  intros H1 H2 Hg.
  assert (r_header r1 = r_header r2) as Hh.
  { rewrite <- (rec_read_head env dev r1 14), <- (rec_read_head env dev r2 14) by done. by rewrite Hg. }
  assert (klen r1 = klen r2 /\ vlen r1 = vlen r2 /\ r_ts r1 = r_ts r2) as (Hk & Hv & Ht) by (by injection Hh).
  assert (r_bytes r1 = r_bytes r2) as Hb.
  { rewrite <- (ro_stored _ _ _ H1), <- (ro_stored _ _ _ H2), Hg. f_equal.
    apply Nat2Z.inj. rewrite !r_bytes_length. lia. }
  unfold r_bytes in Hb. rewrite Hh in Hb. apply app_inv_head in Hb. unfold klen, vlen in *.
  apply app_inj_1 in Hb as [He1 He2]; [|lia]. destruct r1, r2. simpl in *. congruence.
Qed.

End Entry.

(** ** A record moves *)

Section Move.
Context (env : kv_env) (Hq : quiet env) (k : Z).

Local Abbreviation gs := (e_grain_size env).

Definition at_grain (r : krec) (g : Z) : krec := Rec (r_key r) (r_val r) g (r_ts r).

Lemma store_inv_moved s s' l1 r l2 q g :
  store_inv env k s (l1 ++ r :: l2) ->
  let h := e_hash env (r_key r) in
  q ∈ slots (kv_map s) h -> entry_of env s h q r ->
  (forall r0, r0 ∈ l1 ++ l2 -> rec_ok env (kv_dev s') r0 /\ apart env (at_grain r g) r0) ->
  rec_ok env (kv_dev s') (at_grain r g) ->
  kv_map s' = dir_update_inplace (kv_map s) h q (r_grains env r) g ->
  kv_key_nr s' = kv_key_nr s -> kv_used_bytes s' = kv_used_bytes s -> kv_total_bytes s' = kv_total_bytes s ->
  store_inv env k s' (l1 ++ at_grain r g :: l2).
Proof.
  intros [Hd Hb Hr Hk Ha Hn Hu Ht] h Hs [Hsz Hpba] Ho Hok Hm E1 E2 E3.
  apply (elem_of_slots k _ Hd) in Hs.
  assert (0 < r_grains env r) as Hpos by (apply (rec_extent env Hq), (ro_fits _ _ _ Hok)).
  destruct (dir_update_inplace_spec k _ Hd h q (r_grains env r) g Hs Hpos (ro_pba _ _ _ Hok))
    as (Hd' & rest & Hb1 & Hb2).
  rewrite <- Hm in Hd', Hb2.
  assert (forall r0, r_triple env (kv_map s') r0 = r_triple env (kv_map s) r0) as Htr by (intros; by rewrite Hm).
  split; [done|..].
  - rewrite Hb2. rewrite Hb1, fmap_app, fmap_cons, <- Permutation_middle in Hb. rewrite Hsz, Hpba in Hb.
    apply Permutation_cons_inv in Hb. rewrite Hb, fmap_app, fmap_cons, <- Permutation_middle, Htr. f_equiv.
    rewrite <- !fmap_app. erewrite list_fmap_ext; [done|]. intros ? r0 _. by rewrite Htr.
  - intros r0. rewrite <- Permutation_middle, elem_of_cons. intros [->|H0]; [done|by apply Ho].
  - rewrite fmap_app, fmap_cons in *. done.
  - intros r1 r2. rewrite <- Permutation_middle, !elem_of_cons. intros [->|H1] [->|H2]; [by left| | |].
    + right. by apply Ho.
    + right. destruct (Ho r1 H1) as [_ [?|?]]; [by right|by left].
    + apply Ha; rewrite <- Permutation_middle, elem_of_cons; by right.
  - rewrite E1, Hn, !length_app. done.
  - by rewrite E2, Hu, !foldr_app.
  - by rewrite E3, Ht, !foldr_app.
Qed.

(** The moved record, as written. *)
Lemma moved_rec_ok dev r g bs crc :
  rec_ok env dev r -> bs = r_bytes r ++ crc -> valid_pba g -> (g + r_grains env r) * gs <= 2 ^ 62 ->
  rec_ok env (dev_write dev (g * gs) bs) (at_grain r g).
Proof.
  intros [Hf Hst Hp He Ht] -> Hg Hend. split; [done| |done|done|done].
  change (r_bytes (at_grain r g)) with (r_bytes r). change (r_grain (at_grain r g)) with g.
  rewrite <- (dev_read_take _ _ (length (r_bytes r ++ crc))) by (rewrite length_app; lia).
  by rewrite dev_read_write_same, take_app_length.
Qed.

End Move.

(** ** The walk *)

Section Walk.
Context (env : kv_env) (Hq : quiet env) (k g0 n : Z) (X : list (Z * Z)).

Local Abbreviation gs := (e_grain_size env).

(** The store while the walk is at grain [g], with the records [l] ahead; [X] is
    what it holds besides its records. *)
Record gc_inv (g : Z) (l : list krec) (s : kv) (recs : list krec) (taken : list (Z * Z)) : Prop := {
  gi_store : store_inv env k s recs;
  gi_tombs : no_tombs (kv_map s) g0 n;
  gi_log : segment_log env (kv_dev s) g0 n g l;
  gi_ahead : forall r, r ∈ recs -> meets env g0 n r -> r ∈ l;
  gi_seg : (g0, n) ∈ taken;
  gi_taken : forall r, r ∈ recs -> r_range env r ∈ taken;
  gi_held : held (kv_events s) ≡ₚ X ++ (r_range env <$> recs)
}.

Definition gc_kept (s' : kv) (recs recs' : list krec) : Prop :=
  store_inv env k s' recs' /\ Forall2 (moved env g0 n) recs recs' /\
  held (kv_events s') ≡ₚ X ++ (r_range env <$> recs').

Lemma moved_refl recs : Forall2 (moved env g0 n) recs recs.
Proof. apply Forall_Forall2_diag, Forall_forall. intros r _. by left. Qed.

Lemma log_head dev r g l : segment_log env dev g0 n g (r :: l) ->
  r_grain r = g /\ rec_ok env dev r /\ 0 <= g0 <= g /\ g + r_grains env r <= g0 + n /\
  0 < r_grains env r /\ (g0 + n) * gs <= 2 ^ 62.
Proof.
  intros [Hr (Hg & He & Hf) Ho]. apply Forall_cons_iff in Ho as [Hro Ho].
  pose proof (rec_extent env Hq r (ro_fits _ _ _ Hro)). do 2 (split; [done|]). lia.
Qed.

(** The bytes the walk reads at a record. *)
Lemma log_bytes dev r : rec_ok env dev r -> 0 <= r_grain r * gs < 2 ^ 64 ->
  let head := dev_read dev (r_grain r * gs) 14 in
  head = header_bytes (r_header r) /\ header_of head = r_header r /\
  dev_read dev (r_grain r * gs + 14) (length (r_key r)) = r_key r /\
  dev_read dev (u64 (r_grain r * gs) + 14) (length (r_key r ++ r_val r)) = r_key r ++ r_val r.
Proof.
  intros Hok Hr head. pose proof (ro_stored _ _ _ Hok) as Hst. unfold r_bytes in Hst.
  rewrite length_app, dev_read_app, header_bytes_length in Hst.
  apply app_inj_1 in Hst as [H1 H2]; [|by rewrite dev_read_length].
  change (Z.of_nat sizeof_store) with 14 in H2. rewrite (wrap_small 64) by (unfold in_width; lia).
  assert (head = header_bytes (r_header r)) as Hh by done. split; [done|]. split; [|split; [|done]].
  - rewrite Hh, <- (app_nil_r (header_bytes _)). apply header_of_bytes. by apply (rec_header_wf env dev).
  - rewrite length_app, dev_read_app in H2. apply app_inj_1 in H2 as [H2 _]; [done|]. apply dev_read_length.
Qed.

(** A record the map no longer points to is skipped. *)
Lemma gc_inv_skip r g l s s' recs taken :
  gc_inv g (r :: l) s recs taken -> r ∉ recs ->
  kv_map s' = kv_map s -> kv_dev s' = kv_dev s -> kv_events s' = kv_events s ->
  store_inv env k s' recs -> gc_inv (g + r_grains env r) l s' recs taken.
Proof.
  intros [Hs Ht Hl Ha Hse Htk Hh] Hr E1 E2 E3 Hs'.
  split; rewrite ?E1, ?E2, ?E3; try done; [by apply segment_log_tail|].
  intros r0 H0 Hm. specialize (Ha r0 H0 Hm). apply elem_of_cons in Ha as [->|]; done.
Qed.

Lemma store_inv_same s s' recs : store_inv env k s recs ->
  kv_map s' = kv_map s -> kv_dev s' = kv_dev s -> kv_key_nr s' = kv_key_nr s ->
  kv_used_bytes s' = kv_used_bytes s -> kv_total_bytes s' = kv_total_bytes s -> store_inv env k s' recs.
Proof.
  intros Hs E1 E2 E3 E4 E5. apply (store_inv_ext env k s); try done.
  rewrite E2. apply (si_recs _ _ _ _ Hs).
Qed.

(** A grant lies clear of the records and of the segment. *)
Lemma grant_clear g l s recs taken gr nr evs :
  gc_inv g l s recs taken -> fresh_run env taken (Kv_allocate gr nr :: evs) ->
  valid_pba gr /\ (gr + nr) * gs <= 2 ^ 62 /\ sep (gr, nr) (g0, n) /\
  forall r, r ∈ recs -> sep (gr, nr) (r_range env r).
Proof.
  intros Hi (Hp & He & Hs & _). do 2 (split; [done|]). split; [apply Hs, (gi_seg _ _ _ _ _ Hi)|].
  intros r Hr. by apply Hs, (gi_taken _ _ _ _ _ Hi).
Qed.

(** A grant whose write fell short. *)
Lemma step_short g l s recs taken gr nr bs t :
  let e := [Kv_allocate gr nr; Kv_invalidate gr nr; Kv_release gr nr] in
  gc_inv g l s recs taken -> fresh_run env taken e -> 0 <= nr -> Z.of_nat (length bs) <= nr * gs ->
  gc_kept (after_grant env s gr bs (kv_map s) e t) recs recs.
Proof.
  intros e Hi Hf Hnr Hbs. destruct (grant_clear _ _ _ _ _ _ _ _ Hi Hf) as (Hp & He & Hseg & Hrec).
  pose proof (q_grain _ Hq). destruct Hp as [Hp _].
  split; [|split; [apply moved_refl|]].
  - apply (store_inv_ext env k s); try done; [apply (gi_store _ _ _ _ _ Hi)|].
    intros r Hr. cbn [kv_dev after_grant]. rewrite wrap_small by (unfold in_width; nia).
    apply (rec_ok_sep env Hq _ _ nr); [done|by apply Hrec|].
    by apply (si_recs _ _ _ _ (gi_store _ _ _ _ _ Hi)).
  - cbn. rewrite decide_True by done. apply (gi_held _ _ _ _ _ Hi).
Qed.

Lemma meets_log dev r g l : segment_log env dev g0 n g (r :: l) -> meets env g0 n r.
Proof.
  intros Hl. destruct (log_head dev r g l Hl) as (<- & _ & H1 & H2 & H3 & _).
  unfold meets, sep, r_range. simpl. lia.
Qed.

(** A grant the record was moved to. *)
Lemma step_moved r l s l1 l2 taken gr bs crc q t :
  let h := e_hash env (r_key r) in
  let nr := r_grains env r in
  let e := [Kv_allocate gr nr; Kv_release gr nr; Kv_invalidate (pba (entry_at (kv_map s) h q)) nr] in
  let s' := after_grant env s gr bs (dir_update_inplace (kv_map s) h q nr gr) e t in
  let recs' := l1 ++ at_grain r gr :: l2 in
  gc_inv (r_grain r) (r :: l) s (l1 ++ r :: l2) taken -> fresh_run env taken e ->
  bs = r_bytes r ++ le_bytes 2 crc -> q ∈ slots (kv_map s) h -> entry_of env s h q r ->
  gc_kept s' (l1 ++ r :: l2) recs' /\
  gc_inv (r_grain r + r_grains env r) l s' recs' (grants taken e).
Proof.
  intros h nr e s' recs' Hi Hf Hbs Hs Hent.
  destruct (grant_clear _ _ _ _ _ _ _ _ Hi Hf) as (Hp & He & Hseg & Hrec).
  destruct (log_head _ _ _ _ (gi_log _ _ _ _ _ Hi)) as (_ & Hok & Hg & Hend & Hpos & H62).
  pose proof (q_grain _ Hq). pose proof Hp as [Hp0 _]. pose proof (gi_store _ _ _ _ _ Hi) as Hst.
  assert (kv_dev s' = dev_write (kv_dev s) (gr * gs) bs) as Hdev.
  { unfold s', after_grant. cbn [kv_dev]. rewrite wrap_small; [done|]. unfold in_width. nia. }
  assert (Z.of_nat (length bs) <= nr * gs) as Hlen.
  { pose proof (rec_extent env Hq r (ro_fits _ _ _ Hok)).
    rewrite Hbs, length_app, le_bytes_length, Nat2Z.inj_add, r_bytes_length. lia. }
  assert (forall r0, r0 ∈ l1 ++ l2 -> r0 ∈ l1 ++ r :: l2) as Hsub
    by (intros r0 H0; rewrite <- Permutation_middle; by right).
  assert (store_inv env k s' recs') as Hst'.
  { apply (store_inv_moved env Hq k s s' l1 r l2 q gr); try done.
    - intros r0 H0. split; [|apply (Hrec r0), Hsub, H0]. rewrite Hdev.
      apply (rec_ok_sep env Hq _ _ nr); [done|by apply Hrec, Hsub|].
      by apply (si_recs _ _ _ _ Hst), Hsub.
    - rewrite Hdev. by apply (moved_rec_ok env _ r gr bs (le_bytes 2 crc)). }
  assert (held (kv_events s') ≡ₚ X ++ (r_range env <$> recs')) as Hheld.
  { destruct Hent as [_ Hpba]. cbn [kv_events s' after_grant rev app e held].
    apply remove_one_perm. change (pba (entry_at (kv_map s) h q)) with (pba (ent (table (kv_map s) h) q)).
    rewrite Hpba, (gi_held _ _ _ _ _ Hi). unfold recs'. rewrite !fmap_app, !fmap_cons.
    change (r_range env (at_grain r gr)) with (gr, nr). change (r_range env r) with (r_grain r, nr).
    rewrite <- !(Permutation_middle (r_range env <$> l1)), <- !(Permutation_middle X). apply Permutation_swap. }
  split; [split; [done|split; [|done]]|split; try done].
  - apply Forall2_app; [apply moved_refl|]. constructor; [|apply moved_refl].
    right. split; [|by exists gr]. exact (meets_log _ _ _ _ (gi_log _ _ _ _ _ Hi)).
  - apply (update_no_tombs k); try done; [apply (si_dir _ _ _ _ Hst)| |apply (gi_tombs _ _ _ _ _ Hi)].
    by apply (elem_of_slots k _ (si_dir _ _ _ _ Hst)).
  - rewrite Hdev. apply (segment_log_sep env Hq _ _ _ _ _ _ nr); [done|done|].
    apply segment_log_tail; [done|]. apply (gi_log _ _ _ _ _ Hi).
  - intros r0. unfold recs'. rewrite <- Permutation_middle, elem_of_cons. intros [->|H0] Hm.
    + destruct Hm. destruct Hseg; [by right|by left].
    + pose proof (gi_ahead _ _ _ _ _ Hi r0 (Hsub _ H0) Hm) as [->|]%elem_of_cons; [|done].
      pose proof (si_keys _ _ _ _ Hst) as Hnd. rewrite fmap_app, fmap_cons, <- Permutation_middle in Hnd.
      apply NoDup_cons_1_1 in Hnd. destruct Hnd. rewrite <- fmap_app. apply list_elem_of_fmap. by exists r.
  - apply grants_mono, (gi_seg _ _ _ _ _ Hi).
  - intros r0. unfold recs'. rewrite <- Permutation_middle, elem_of_cons. intros [->|H0]; [by left|].
    right. by apply (gi_taken _ _ _ _ _ Hi), Hsub.
Qed.

(** What a step from [s] to [s'] has to show when its grants are fresh: at a
    record of the log, and behind the log. *)
Definition step_record (h g : Z) (head : list Z) (rc : Z) (s s' : kv) (e : list kv_event) : Prop :=
  forall r l recs taken, gc_inv g (r :: l) s recs taken ->
  h = e_hash env (r_key r) -> head = header_bytes (r_header r) -> fresh_run env taken e ->
  exists recs', gc_kept s' recs recs' /\
    (rc = 0 -> gc_inv (g + r_grains env r) l s' recs' (grants taken e)).

Definition step_idle (g rc : Z) (s s' : kv) (e : list kv_event) : Prop :=
  forall recs taken, gc_inv g [] s recs taken -> g < g0 + n ->
  rc = 0 /\ e = [] /\ exists t, s' = at_tick t s.

Definition step_keeps (h g : Z) (head : list Z) (rc : Z) (s s' : kv) (e : list kv_event) : Prop :=
  step_record h g head rc s s' e /\ step_idle g rc s s' e.

Lemma step_not_found h g head s :
  dir_lookup_pba (kv_map s) h g = None -> step_keeps h g head 0 s s [].
Proof.
  intros Hl. split; [|intros recs taken _ _; do 2 (split; [done|]); exists (kv_tick s); by rewrite at_tick_self].
  intros r l recs taken Hi -> _ _. exists recs. pose proof (gi_store _ _ _ _ _ Hi) as Hst.
  split; [split; [done|split; [apply moved_refl|apply (gi_held _ _ _ _ _ Hi)]]|].
  intros _. apply (gc_inv_skip r g l s s recs taken Hi); try done. intros Hr.
  destruct (log_head _ _ _ _ (gi_log _ _ _ _ _ Hi)) as (Hg & _ & H1 & H2 & H3 & _).
  destruct (lookup_pba_found env Hq k s recs Hst g0 n (gi_tombs _ _ _ _ _ Hi) r Hr) as (q & Hf & _); [lia|].
  rewrite Hg in Hf. congruence.
Qed.

(** The slot found for the grain of a record of the log is the record's. *)
Lemma found_live r l g s recs taken q :
  gc_inv g (r :: l) s recs taken -> let h := e_hash env (r_key r) in
  dir_lookup_pba (kv_map s) h g = Some q ->
  deleted (entry_at (kv_map s) h q) = false /\ r ∈ recs /\ q ∈ slots (kv_map s) h /\ entry_of env s h q r.
Proof.
  intros Hi h Hl. pose proof (gi_store _ _ _ _ _ Hi) as Hst. pose proof (gi_tombs _ _ _ _ _ Hi) as Hnt.
  destruct (log_head _ _ _ _ (gi_log _ _ _ _ _ Hi)) as (Hg & Hok & H1 & H2 & H3 & _).
  destruct (lookup_pba_rec env k s recs Hst g0 n Hnt h g q) as (Hdel & r' & Hr' & Hg' & _); [lia|done|].
  assert (r' = r) as ->.
  { apply (stored_inj env Hq (kv_dev s)); [by apply (si_recs _ _ _ _ Hst)|done|by rewrite Hg']. }
  destruct (lookup_pba_found env Hq k s recs Hst g0 n Hnt r Hr') as (q' & Hf & _ & Hs & He); [lia|].
  rewrite Hg' in Hf. fold h in Hf. rewrite Hl in Hf. injection Hf as <-. done.
Qed.

(** Behind the log the map points to nothing. *)
Lemma found_not_idle h g s q recs taken :
  dir_lookup_pba (kv_map s) h g = Some q -> gc_inv g [] s recs taken -> g < g0 + n -> False.
Proof.
  intros Hl Hi Hlt. pose proof (gi_store _ _ _ _ _ Hi) as Hst.
  destruct (sl_range _ _ _ _ _ _ (gi_log _ _ _ _ _ Hi)) as (_ & Hg & _).
  destruct (lookup_pba_rec env k s recs Hst g0 n (gi_tombs _ _ _ _ _ Hi) h g q) as (_ & r & Hr & Hgr & _); [lia|done|].
  apply (gi_ahead _ _ _ _ _ Hi) in Hr as Hin; [by apply elem_of_nil in Hin|].
  pose proof (rec_extent env Hq r (ro_fits _ _ _ (si_recs _ _ _ _ Hst r Hr))).
  unfold meets, sep, r_range. simpl. lia.
Qed.

Lemma live_bytes r l g s recs taken : gc_inv g (r :: l) s recs taken ->
  header_of (header_bytes (r_header r)) = r_header r /\ payload_size (r_header r) = klen r + vlen r + 2 /\
  dev_read (kv_dev s) (u64 (g * gs) + Z.of_nat sizeof_store)
    (Z.to_nat (payload_size (r_header r)) - sizeof_suffix) = r_key r ++ r_val r.
Proof.
  intros Hi. pose proof (q_grain _ Hq).
  destruct (log_head _ _ _ _ (gi_log _ _ _ _ _ Hi)) as (<- & Hok & H1 & H2 & H3 & H4).
  destruct (log_bytes _ r Hok) as (Hhd & Hho & _ & Hbody); [nia|]. rewrite Hhd in Hho. split; [done|].
  pose proof (payload_fits env Hq (klen r) (vlen r) (r_ts r) (ro_fits _ _ _ Hok)) as Hpay. split; [done|].
  rewrite <- Hbody. f_equal. unfold r_header. rewrite Hpay, length_app. unfold klen, vlen, sizeof_suffix. lia.
Qed.

Lemma local_gc_step h g head rb s :
  exists rc rb' s' e, local_gc_callback env h g head rb true s = Some ((rc, rb'), s') /\
    kv_events s' = rev e ++ kv_events s /\ step_keeps h g head rc s s' e.
Proof.
  unfold local_gc_callback. erewrite bind_run by reflexivity.
  destruct (dir_lookup_pba (kv_map s) h g) as [q|] eqn:Hl.
  2:{ exists 0, rb, s, []. split; [done|]. split; [done|]. by apply step_not_found. }
  destruct (deleted (entry_at (kv_map s) h q)) eqn:Hdel.
  { eexists 0, _, _, [Kv_invalidate _ _]. split; [reflexivity|]. split; [reflexivity|].
    split; [|intros recs taken Hi Hlt; by destruct (found_not_idle h g s q recs taken)].
    intros r l recs taken Hi -> _ _. destruct (found_live r l g s recs taken q Hi Hl). congruence. }
  erewrite bind_run by reflexivity.
  match goal with |- context [relocate _ _ _ _ ?b] => remember b as body eqn:Hbody end.
  destruct (relocate_cases env Hq h q head body rb s) as (rc & rb' & s' & -> & Hc).
  assert (forall e, step_idle g rc s s' e) as Hidle
    by (intros e recs taken Hi Hlt; by destruct (found_not_idle h g s q recs taken)).
  exists rc, rb', s'. destruct Hc as [(Hrc & ->)|(gr & bs & rest & crc & t & Hall & Hc)].
  { exists []. split; [done|]. split; [done|]. split; [|done]. intros r l recs taken Hi _ _ _. exists recs.
    split; [|done]. split; [|split; [apply moved_refl|apply (gi_held _ _ _ _ _ Hi)]].
    by apply (store_inv_same s); [apply (gi_store _ _ _ _ _ Hi)|..]. }
  destruct Hc as [(-> & ->)|(-> & Hlen & ->)]; eexists; (split; [reflexivity|]; split; [reflexivity|]; split; [|done]);
    intros r l recs taken Hi -> -> Hf.
  all: destruct (found_live r l g s recs taken q Hi Hl) as (_ & Hr & Hs & He).
  all: destruct (log_head _ _ _ _ (gi_log _ _ _ _ _ Hi)) as (Hg & Hok & H1 & H2 & H3 & H4).
  all: pose proof (rec_extent env Hq r (ro_fits _ _ _ Hok)) as [_ Hx].
  all: destruct (live_bytes r l g s recs taken Hi) as (Hho & Hpay & Hkv).
  all: rewrite Hho in *; rewrite Hkv in Hbody; subst body.
  all: change (kv_tot_grains_get gs (key_size (r_header r)) (val_size (r_header r))) with (r_grains env r) in *.
  all: assert (r_bytes r ++ le_bytes 2 crc = bs ++ rest) as Hall'
         by (rewrite <- Hall; unfold r_bytes; by rewrite <- !app_assoc).
  all: pose proof (f_equal length Hall') as Hlens;
       rewrite !length_app, le_bytes_length in Hlens; pose proof (r_bytes_length r) as Hrl.
  - exists recs. split; [|done]. eapply step_short; [done|done|lia|]. lia.
  - apply list_elem_of_split in Hr as (l1 & l2 & ->). exists (l1 ++ at_grain r gr :: l2).
    rewrite <- Hg in Hi |- *.
    assert (bs = r_bytes r ++ le_bytes 2 crc) as Hbs.
    { rewrite <- (app_nil_r (_ ++ _)) in Hall'. symmetry. apply app_inj_1 in Hall' as [? _]; [done|].
      rewrite length_app, le_bytes_length. lia. }
    destruct (step_moved r l s l1 l2 taken gr bs crc q t Hi Hf Hbs Hs He) as [Hk' Hi'].
    split; [exact Hk'|]. intros _. exact Hi'.
Qed.

Lemma gc_inv_tick g l s recs taken t : gc_inv g l s recs taken -> gc_inv g l (at_tick t s) recs taken.
Proof. intros [Hs ? ? ? ? ? ?]. split; try done. by apply (store_inv_same s). Qed.

Lemma gc_kept_tick s recs recs' t : gc_kept s recs recs' -> gc_kept (at_tick t s) recs recs'.
Proof. intros (Hs & ? & ?). split; [|done]. by apply (store_inv_same s). Qed.

Lemma gc_inv_kept g l s recs taken : gc_inv g l s recs taken -> gc_kept s recs recs.
Proof. intros [Hs ? ? ? ? ? ?]. split; [done|]. split; [apply moved_refl|done]. Qed.

Lemma gc_kept_trans s s' r1 r2 r3 : gc_kept s r1 r2 -> gc_kept s' r2 r3 -> gc_kept s' r1 r3.
Proof.
  intros (_ & H1 & _) (Hs & H2 & Hh). split; [done|]. split; [|done].
  revert r3 H2 Hs Hh. assert (forall a b c, moved env g0 n a b -> moved env g0 n b c -> moved env g0 n a c) as Ht.
  2:{ intros r3 H2 _ _. revert r3 H2. induction H1 as [|a b r1 r2 Hab _ IH]; intros r3 H2; inversion H2; subst; eauto. }
  intros a b c [->|(Hm & g & ->)] [->|(Hm' & g' & ->)].
  - by left.
  - right. split; [done|]. by exists g'.
  - right. split; [done|]. by exists g.
  - right. split; [done|]. by exists g'.
Qed.

Lemma gc_record_step h g head rb s :
  exists rc rb' s' e, gc_record env false h g head rb true s = Some ((rc, rb'), s') /\
    kv_events s' = rev e ++ kv_events s /\ step_keeps h g head rc s s' e.
Proof.
  unfold gc_record. rewrite (bind_run _ _ _ _ _ (others_run_quiet env Hq s)).
  destruct (local_gc_step h g head rb (at_tick (S (kv_tick s)) s)) as (rc & rb' & s1 & e & He & Hev & Hst).
  rewrite (bind_run _ _ _ _ _ He), (bind_run _ _ _ _ _ (others_run_quiet env Hq s1)).
  exists rc, rb', (at_tick (S (kv_tick s1)) s1), e. split; [done|]. split; [done|].
  destruct Hst as [Hst Hidle]. split.
  2:{ intros recs taken Hi Hlt. destruct (Hidle recs taken (gc_inv_tick _ _ _ _ _ _ Hi) Hlt) as (? & ? & t & ->).
      split; [done|]. split; [done|]. by eexists. }
  intros r l recs taken Hi Hh Hhd Hf.
  destruct (Hst r l recs taken (gc_inv_tick _ _ _ _ _ _ Hi) Hh Hhd Hf) as (recs' & Hk & Hn).
  exists recs'. split; [by apply gc_kept_tick|]. intros Hrc. by apply gc_inv_tick, Hn.
Qed.

(** Whatever header the walk meets, it moves on. *)
Lemma tot_bytes_spec ks vs : let gr := kv_tot_grains_get gs ks vs in
  0 < gr /\ gr * gs < 2 ^ 33 /\ kv_tot_bytes_get gs ks vs = gr * gs.
Proof.
  pose proof (q_grain _ Hq). unfold kv_tot_bytes_get, kv_tot_grains_get, kv_tot_raw_bytes_get.
  change (Z.of_nat sizeof_store) with 14. change (Z.of_nat sizeof_suffix) with 2.
  pose proof (wrap_range 32 (u32 vs + u32 ks) ltac:(lia)) as Hr. unfold in_width in Hr.
  set (x := u32 (u32 vs + u32 ks)) in *. rewrite (wrap_small 64 (x + 14)), (wrap_small 64 (x + 14 + 2)) by (unfold in_width; lia).
  pose proof (udiv_round_up_spec (x + 14 + 2) gs) as Hu. simpl in Hu.
  destruct Hu as [[Hq0 Hq1]|[? _]]; [lia..| |lia]. cbv zeta.
  split; [nia|]. split; [nia|]. rewrite wrap_small; [|unfold in_width]; nia.
Qed.

(** The header at the walk's position: a record's, or not one. *)
Lemma log_here s p g l recs taken :
  gc_inv g l s recs taken -> g0 * gs + p = g * gs -> p < n * gs - 14 ->
  let head := dev_read (kv_dev s) (g0 * gs + p) 14 in
  let md := header_of head in
  (l = [] /\ g0 <= g < g0 + n) \/
  exists r l', l = r :: l' /\ md = r_header r /\ 0 < klen r /\ p + vlen r + klen r <= n * gs - 14 /\
    head = header_bytes (r_header r) /\
    dev_read (kv_dev s) (g0 * gs + p + 14) (Z.to_nat (klen r)) = r_key r.
Proof.
  intros Hi Hp Hlt head md. pose proof (gi_log _ _ _ _ _ Hi) as Hl. destruct l as [|r l'].
  { left. split; [done|]. destruct (sl_range _ _ _ _ _ _ Hl). pose proof (q_grain _ Hq). nia. }
  right. exists r, l'. destruct (log_head _ _ _ _ Hl) as (Hg & Hok & H1 & He & _ & H62).
  pose proof (rec_extent env Hq r (ro_fits _ _ _ Hok)) as [_ Hx]. pose proof (q_grain _ Hq).
  pose proof (f_key _ _ _ (ro_fits _ _ _ Hok)) as Hk. destruct (log_bytes _ r Hok) as (Hhd & Hho & Hkey & _); [nia|].
  rewrite Hg, <- Hp in *. split; [done|]. split; [done|]. split; [lia|]. split; [nia|]. split; [done|].
  unfold klen. by rewrite Nat2Z.id.
Qed.

Context (exit_gc_m : nat -> bool).

(** What the walk from byte [p] of the segment, grain [g], on keeps, and when it
    has emptied the segment. *)
Definition walk_keeps (p g rc : Z) (s s' : kv) (e : list kv_event) : Prop :=
  forall l recs taken, gc_inv g l s recs taken -> g0 * gs + p = g * gs -> fresh_run env taken e ->
  exists recs', gc_kept s' recs recs' /\
    (rc = 0 -> (exists t, kv_tick s' = S t /\ exit_gc_m t = true) \/
               forall r, r ∈ recs' -> ~ meets env g0 n r).

Lemma walk_stops p g s (t : nat) :
  (forall l recs taken, gc_inv g l s recs taken -> g0 * gs + p = g * gs -> exit_gc_m t = true \/ l = []) ->
  walk_keeps p g 0 s (at_tick (S t) s) [].
Proof.
  intros Hno l recs taken Hi Hp _. exists recs. split; [by eapply gc_kept_tick, gc_inv_kept|]. intros _.
  destruct (Hno _ _ _ Hi Hp) as [Hx| ->]; [left; by exists t|right].
  intros r Hr Hm. by apply (gi_ahead _ _ _ _ _ Hi r Hr), elem_of_nil in Hm.
Qed.

Section Here.
Context (p g : Z) (s : kv) (Hlt : p < n * gs - 14).

Local Abbreviation head := (dev_read (kv_dev s) (g0 * gs + p) 14).
Local Abbreviation md := (header_of head).
Local Abbreviation h :=
  (e_hash env (dev_read (kv_dev s) (g0 * gs + p + 14) (Z.to_nat (key_size md)))).

(** A walk over a record: the step at the record, then the rest. *)
Lemma walk_record rc s1 s2 e1 e2 :
  step_keeps h g head 0 s s1 e1 ->
  walk_keeps (p + kv_tot_bytes_get gs (key_size md) (val_size md))
             (u64 (g + kv_tot_grains_get gs (key_size md) (val_size md))) rc s1 s2 e2 ->
  walk_keeps p g rc s s2 (e1 ++ e2).
Proof.
  intros [Hs Hidle] Hw l recs taken Hi Hp Hf. apply fresh_run_app in Hf as [Hf1 Hf2].
  destruct (log_here s p g l recs taken Hi Hp Hlt) as [[-> Hg]|(r & l' & -> & Hmd & Hk & Hb & Hhd & Hkey)].
  { destruct (Hidle recs taken Hi) as (_ & -> & t & ->); [lia|].
    destruct (tot_bytes_spec (key_size md) (val_size md)) as (T1 & T2 & T3). pose proof (q_grain _ Hq).
    destruct (sl_range _ _ _ _ _ _ (gi_log _ _ _ _ _ Hi)) as (R1 & R2 & R3 & R4).
    rewrite (wrap_small 64), T3 in Hw by (unfold in_width; nia). eapply Hw; [|lia|exact Hf2].
    apply gc_inv_tick. destruct Hi as [? ? [? ? ?] ? ? ? ?]. split; try done. split; try done. lia. }
  rewrite Hmd in *. cbn [key_size val_size r_header] in *.
  destruct (Hs r l' recs taken Hi) as (recs1 & Hk1 & Hi1); [by rewrite Hkey|done|done|]. specialize (Hi1 eq_refl).
  destruct (log_head _ _ _ _ (gi_log _ _ _ _ _ Hi)) as (Hg & Hok & H1 & He & _ & H62). pose proof (q_grain _ Hq).
  change (kv_tot_grains_get gs (klen r) (vlen r)) with (r_grains env r) in *.
  rewrite (tot_bytes_fits env Hq _ _ (ro_fits _ _ _ Hok)) in Hw.
  change (grains_of env (klen r) (vlen r)) with (r_grains env r) in Hw.
  assert (0 < r_grains env r) by apply (rec_extent env Hq r), (ro_fits _ _ _ Hok).
  rewrite (wrap_small 64) in Hw by (unfold in_width; nia).
  destruct (Hw l' recs1 _ Hi1) as (recs2 & Hk2 & Hend); [lia|done|].
  exists recs2. split; [by eapply gc_kept_trans|done].
Qed.

Lemma walk_error rc s1 e1 : rc <> 0 ->
  step_keeps h g head rc s s1 e1 -> walk_keeps p g rc s s1 e1.
Proof.
  intros Hrc [Hs Hidle] l recs taken Hi Hp Hf.
  destruct (log_here s p g l recs taken Hi Hp Hlt) as [[-> Hg]|(r & l' & -> & Hmd & Hk & Hb & Hhd & Hkey)].
  { by destruct (Hidle recs taken Hi) as [? _]; [lia|]. }
  rewrite Hmd in *. cbn [key_size val_size r_header] in *.
  destruct (Hs r l' recs taken Hi) as (recs1 & Hk1 & _); [by rewrite Hkey|done|done|]. by exists recs1.
Qed.

End Here.

Lemma step_keeps_tick h g head rc s s' e t :
  step_keeps h g head rc (at_tick t s) s' e -> step_keeps h g head rc s s' e.
Proof.
  intros [Hs Hidle]. split.
  - intros r l recs taken Hi. apply Hs. by apply gc_inv_tick.
  - intros recs taken Hi Hlt. destruct (Hidle recs taken (gc_inv_tick _ _ _ _ _ _ Hi) Hlt) as (? & ? & t' & ->).
    split; [done|]. split; [done|]. by exists t'.
Qed.

Lemma gc_loop_keeps fuel p g rb s :
  (Z.to_nat (n * gs - 14 - p) < fuel)%nat ->
  exists rc rb' s' e, gc_loop env false exit_gc_m fuel (g0 * gs) (n * gs - 14) p g rb s = Some ((rc, rb'), s') /\
    kv_events s' = rev e ++ kv_events s /\ walk_keeps p g rc s s' e.
Proof.
  revert p g rb s. induction fuel as [|fuel IH]; intros p g rb s Hfuel; [lia|].
  cbn [gc_loop]. erewrite bind_run by reflexivity. set (t := kv_tick s).
  change (tick s) with (at_tick (S t) s). pose proof (q_grain _ Hq) as Hgs.
  assert (forall m : kvm (Z * Z), m = mret (0, rb) -> (forall l recs taken, gc_inv g l s recs taken ->
    g0 * gs + p = g * gs -> exit_gc_m t = true \/ l = []) -> exists rc rb' s' e, m (at_tick (S t) s) = Some ((rc, rb'), s') /\
    kv_events s' = rev e ++ kv_events s /\ walk_keeps p g rc s s' e) as Hstop.
  { intros m -> Hno. exists 0, rb, (at_tick (S t) s), []. split; [done|]. split; [done|]. by apply walk_stops. }
  destruct (Z.ltb_spec p (n * gs - 14)) as [Hlt|Hge]; cbn [negb orb].
  2:{ apply Hstop; [done|]. intros [|r l] recs taken Hi Hp; [by right|]. exfalso.
      destruct (log_head _ _ _ _ (gi_log _ _ _ _ _ Hi)) as (_ & Hok & _ & He & _).
      pose proof (rec_extent env Hq r (ro_fits _ _ _ Hok)). pose proof (f_key _ _ _ (ro_fits _ _ _ Hok)).
      pose proof (f_val _ _ _ (ro_fits _ _ _ Hok)). nia. }
  destruct (exit_gc_m t) eqn:Hexit; [apply Hstop; auto|].
  erewrite bind_run by reflexivity. change (kv_dev (at_tick (S t) s)) with (kv_dev s).
  change (Z.of_nat sizeof_store) with 14. change sizeof_store with 14%nat.
  set (head := dev_read (kv_dev s) (g0 * gs + p) 14). set (md := header_of head).
  destruct ((key_size md =? 0) && (val_size md =? 0)) eqn:Hz.
  { apply Hstop; [done|]. intros l recs taken Hi Hp. right.
    destruct (log_here _ _ _ _ _ _ Hi Hp Hlt) as [[? _]|(r & l' & -> & Hmd & Hk & _)]; [done|].
    fold head md in Hmd. rewrite Hmd in Hz. simpl in Hz. bool_cases. lia. }
  destruct (Z.ltb_spec (n * gs - 14) (p + val_size md + key_size md)) as [Hout|Hin].
  { apply Hstop; [done|]. intros l recs taken Hi Hp. right.
    destruct (log_here _ _ _ _ _ _ Hi Hp Hlt) as [[? _]|(r & l' & -> & Hmd & Hk & Hb & _)]; [done|].
    fold head md in Hmd. rewrite Hmd in Hout. simpl in Hout. lia. }
  match goal with |- context [gc_record _ _ ?h] => set (hh := h) end.
  destruct (gc_record_step hh g head rb (at_tick (S t) s)) as (rc & rb1 & s1 & e1 & He & Hev & Hst).
  rewrite (bind_run _ _ _ _ _ He). apply step_keeps_tick in Hst.
  destruct (Z.eqb_spec rc 0) as [->|Hrc]; cbn [negb].
  2:{ exists rc, rb1, s1, e1. split; [done|]. split; [done|]. by apply walk_error. }
  destruct (IH (p + kv_tot_bytes_get gs (key_size md) (val_size md))
    (u64 (g + kv_tot_grains_get gs (key_size md) (val_size md))) rb1 s1) as (rc & rb2 & s2 & e2 & He2 & Hev2 & Hw).
  { destruct (tot_bytes_spec (key_size md) (val_size md)). nia. }
  exists rc, rb2, s2, (e1 ++ e2). split; [done|]. split; [by rewrite Hev2, Hev, rev_app_distr, <- app_assoc|].
  by apply (walk_record p g s Hlt rc s1).
Qed.

End Walk.
