(* ===== verification/KvGcSafe.v ===== *)
(** * KvGcSafe: garbage collection loses nothing

    The callback SALSA relocates a segment with ([KvGc]) keeps the content of the
    store and empties the segment, and where it does not. *)
From Stdlib Require Import ZArith Lia.
From stdpp Require Import base tactics list numbers.
From S2P Require Import Prelude Util HashEntry HopscotchMap HopscotchSpec HopscotchRefine.
From S2P Require Import FpTable DirectoryMap DirectoryGrow DirectoryOps.
From S2P Require Import StoreFormat KvStore KvIo KvInv KvGet KvWrite KvPut KvRefine KvGc.

Open Scope Z_scope.

(** ** An example store: two records of one key, the first outdated *)

Definition gc_env : kv_env := mkEnv 32 48 1 (fun bs => foldr Z.add 0 bs) (fun _ _ => 7)
  (fun t n => Some (Z.of_nat t, replicate n 0)) (fun _ => 4096) (fun _ => 4096)
  (fun _ => (0, 200)) (fun _ => env_small) (fun _ s => s).

Definition gc_old : krec := Rec [1; 2] [9] 96 3.
Definition gc_live : krec := Rec [1; 2] [3; 4; 5] 97 3.

Definition gc_dev : device :=
  dev_write (dev_write (fun _ => 0) (96 * 32) (r_bytes gc_old)) (97 * 32) (r_bytes gc_live).

Definition gc_store0 : kv := mkKv dir_small gc_dev (fun i => i + 1) 0 0 0 [Kv_allocate 97 1] 0.

Definition gc_slot : nat := default 0%nat (dir_next_free dir_small (e_hash gc_env [1; 2])).2.

Definition gc_store : kv :=
  mapped gc_env gc_store0 gc_live (dir_insert dir_small (e_hash gc_env [1; 2]) gc_slot 1 97) [] 0 0 0.

(** ** Theorems *)

Lemma gc_env_quiet : quiet gc_env.
Proof. split; simpl; intros; try lia; [done|]. eexists _, _. split; [done|]. apply length_replicate. Qed.

(** C4: Called with a mapped segment that holds records one behind the other, some
    of them outdated, and then anything, the store's garbage-collection callback (of
    the runtimes other than memcache's) returns. If the grains SALSA granted
    meanwhile were free, the store still holds exactly the same keys and values:
    every record outside the segment is where it was, records of the segment may
    have moved, and the grains the store holds are those of its records. When the
    callback reports success, no record is left in the segment. This holds when a
    grant is refused, when a write is cut short and when a shutdown interrupts the
    walk. No tombstone of the map points into the segment ([no_tombs]: purging one
    can hide other keys, see [purge_hides]), no other thread changes the store
    meanwhile, memory is granted, and reads and writes make progress ([quiet]). *)
Theorem gc_content (env : kv_env) (k g0 n : Z) (X : list (Z * Z)) (exit_gc_m : nat -> bool)
    (s : kv) (recs l : list krec) (gcu : list Z) (fuel : nat) :
  quiet env -> (forall t t', (t <= t')%nat -> exit_gc_m t = true -> exit_gc_m t' = true) ->
  store_inv env k s recs -> no_tombs (kv_map s) g0 n ->
  segment_log env (kv_dev s) g0 n g0 l -> (forall r, r ∈ recs -> meets env g0 n r -> r ∈ l) ->
  held (kv_events s) ≡ₚ X ++ (r_range env <$> recs) ->
  (Z.to_nat (n * e_grain_size env) < fuel)%nat ->
  exists rc relocb s' e,
    gc_callback env false exit_gc_m fuel true gcu g0 n s = Some ((rc, relocb), s') /\
    kv_events s' = rev e ++ kv_events s /\
    (fresh_run env ((g0, n) :: (r_range env <$> recs)) e ->
     exists recs', store_inv env k s' recs' /\ Forall2 (moved env g0 n) recs recs' /\
       held (kv_events s') ≡ₚ X ++ (r_range env <$> recs') /\
       (rc = 0 -> forall r, r ∈ recs' -> ~ meets env g0 n r)).
Proof.
  intros Hq Hmono Hst Hnt Hl Ha Hh Hfuel. pose proof (q_grain _ Hq) as Hgs.
  destruct (sl_range _ _ _ _ _ _ Hl) as (H0 & _ & Hn & H62).
  unfold gc_callback. cbn [negb]. rewrite !(wrap_small 64) by (unfold in_width; nia).
  change (Z.of_nat sizeof_store) with 14.
  destruct (gc_loop_keeps env Hq k g0 n X exit_gc_m fuel 0 g0 0 s) as (rc & rb & s' & e & He & Hev & Hw); [nia|].
  rewrite (bind_run _ _ _ _ _ He). unfold gc_result. erewrite bind_run by reflexivity. cbn [fst snd].
  do 3 eexists. exists e. split; [reflexivity|]. split; [exact Hev|]. intros Hf.
  assert (gc_inv env k g0 n X g0 l s recs ((g0, n) :: (r_range env <$> recs))) as Hi.
  { split; try done; [by left|]. intros r Hr. right. apply list_elem_of_fmap. by exists r. }
  destruct (Hw l recs _ Hi ltac:(lia) Hf) as (recs' & (Hst' & Hmv & Hh') & Hend).
  exists recs'. split; [by apply (store_inv_same env k s')|]. split; [done|]. split; [done|].
  destruct (Z.eqb_spec rc 0) as [->|Hrc]; cbn [andb]; [|done].
  destruct (exit_gc_m (kv_tick s')) eqn:Hx; [done|]. intros _.
  destruct (Hend eq_refl) as [(t & Ht & Ht')|]; [|done].
  rewrite (Hmono t (kv_tick s')) in Hx; [done|lia|done].
Qed.

Lemma gc_slot_free : free_slot (table dir_small 3) 3 gc_slot.
Proof.
  destruct (next_free_cases _ (table_wf 0 dir_small dir_small_inv 3) 3) as [(p & Hn & Hf)|[Hn _]].
  - unfold gc_slot. change (e_hash gc_env [1; 2]) with 3.
    change (dir_next_free dir_small 3) with (next_free (table dir_small 3) 3). by rewrite Hn.
  - by vm_compute in Hn.
Qed.

Lemma gc_rec_ok r : r = gc_old \/ r = gc_live -> rec_ok gc_env gc_dev r.
Proof.
  intros [-> | ->]; (split; [split; closed_num|vm_compute; reflexivity|closed_num|closed_num|closed_num]).
Qed.

Lemma gc_store0_inv : store_inv gc_env 0 gc_store0 [].
Proof.
  split; [exact dir_small_inv|vm_compute; constructor|intros r Hr; by apply elem_of_nil in Hr|constructor| |
    reflexivity..]. intros r1 r2 Hr. by apply elem_of_nil in Hr.
Qed.

Lemma gc_store_inv : store_inv gc_env 0 gc_store [gc_live].
Proof.
  assert (rec_ok gc_env (kv_dev gc_store0) gc_live) as Hok by (apply gc_rec_ok; by right).
  destruct (set_mapping_insert gc_env gc_env_quiet 0 gc_store0 gc_live Hok [] gc_slot header_zero
              gc_store0_inv gc_slot_free) as (evs & _ & Hinv & _).
  - apply not_elem_of_nil.
  - intros r Hr. by apply elem_of_nil in Hr.
  - refine (store_inv_same gc_env 0 _ gc_store _ Hinv _ _ _ _ _); reflexivity.
Qed.

Lemma gc_store_no_tombs : no_tombs (kv_map gc_store) 96 48.
Proof.
  intros h q Hu Hd _. destruct (hash_to_map_table 0 _ (proj1 (si_dir _ _ _ _ gc_store_inv)) h) as (e & He & Hm).
  unfold table in *. rewrite Hm in Hu, Hd.
  assert (forallb (fun e => forallb (fun x => negb (used x && deleted x)) (ht_m (dme_map e)))
            (directory (kv_map gc_store)) = true) as Hall by (vm_compute; reflexivity).
  rewrite forallb_forall in Hall. apply list_elem_of_lookup_2, list_elem_of_In, Hall in He.
  rewrite forallb_forall in He.
  pose proof (used_in_range _ _ Hu) as Hlt. apply lookup_lt_is_Some_2 in Hlt as [x Hx].
  unfold ent in Hu, Hd. rewrite Hx in Hu, Hd. simpl in Hu, Hd.
  apply list_elem_of_lookup_2, list_elem_of_In, He in Hx. by rewrite Hu, Hd in Hx.
Qed.

Lemma gc_store_log : segment_log gc_env (kv_dev gc_store) 96 48 96 [gc_old; gc_live].
Proof.
  split; [closed_num|closed_num|].
  repeat (apply List.Forall_cons; [apply gc_rec_ok; auto|]). apply List.Forall_nil.
Qed.

Lemma gc_content_witness : exists s' recs',
  kv_events s' = [Kv_invalidate 97 1; Kv_release 200 1; Kv_allocate 200 1; Kv_allocate 97 1] /\
  store_inv gc_env 0 s' recs' /\ Forall2 (moved gc_env 96 48) [gc_live] recs' /\
  forall r, r ∈ recs' -> ~ meets gc_env 96 48 r.
Proof.
  destruct (gc_content gc_env 0 96 48 [] (fun _ => false) gc_store [gc_live] [gc_old; gc_live] [] 1600)
    as (rc & rb & s' & e & Hrun & Hev & Hk); [apply gc_env_quiet|done|apply gc_store_inv|apply gc_store_no_tombs|
      apply gc_store_log|intros r ->%list_elem_of_singleton _; right; by left|by vm_compute|vm_compute; lia|].
  set (evs := [Kv_invalidate 97 1; Kv_release 200 1; Kv_allocate 200 1]).
  assert ((fun x : Z * Z * kv => (x.1.1, kv_events x.2)) <$>
    gc_callback gc_env false (fun _ => false) 1600 true [] 96 48 gc_store = Some (0, evs ++ [Kv_allocate 97 1])) as Hc
    by (vm_compute; reflexivity).
  rewrite Hrun in Hc. injection Hc as -> Hevs.
  assert (e = rev evs) as ->.
  { rewrite Hev in Hevs. change (kv_events gc_store) with [Kv_allocate 97 1] in Hevs.
    apply (app_inv_tail [Kv_allocate 97 1] (rev e) evs) in Hevs. by rewrite <- Hevs, rev_involutive. }
  destruct Hk as (recs' & Hst & Hmv & _ & Hend).
  - split; [closed_num|]. split; [closed_num|]. split; [|done]. intros x Hx. right. vm_compute in Hx |- *.
    repeat (apply elem_of_cons in Hx as [->|Hx]; [done|]). by apply elem_of_nil in Hx.
  - exists s', recs'. split; [exact Hevs|]. split; [done|]. split; [done|]. by apply Hend.
Defined.

(** A hole at the start of the segment: the grain before the record was granted
    to a put whose write failed, and holds zeros. *)
Definition hole_store : kv :=
  mapped gc_env (set_dev (dev_write (fun _ => 0) (97 * 32) (r_bytes gc_live)) gc_store0) gc_live
         (dir_insert dir_small (e_hash gc_env [1; 2]) gc_slot 1 97) [] 0 0 0.

(** C38: A grain that holds zeros, which is what a put whose write failed leaves
    on a new device, ends the walk: the callback reports success without having
    moved the records that follow it in the segment, to which the map still
    points.  On success SALSA puts the segment on its free list. *)
Theorem gc_hole_strands (env : kv_env) (mc : bool) (exit_gc_m : nat -> bool) (k g0 n : Z)
    (s : kv) (recs : list krec) (r : krec) (gcu : list Z) (fuel : nat) :
  quiet env -> store_inv env k s recs -> r ∈ recs -> meets env g0 n r ->
  0 <= g0 -> (g0 + n) * e_grain_size env <= 2 ^ 62 -> 14 < n * e_grain_size env ->
  (forall t, exit_gc_m t = false) ->
  (let md := header_of (dev_read (kv_dev s) (g0 * e_grain_size env) 14) in key_size md = 0 /\ val_size md = 0) ->
  exists s', gc_callback env mc exit_gc_m (S fuel) true gcu g0 n s = Some ((0, 0), s') /\
    kv_events s' = kv_events s /\ store_inv env k s' recs /\ r ∈ recs /\ meets env g0 n r.
Proof.
  intros Hq Hst Hr Hm H0 H62 Hn Hx [Hk Hv]. pose proof (q_grain _ Hq) as Hgs.
  exists (at_tick (S (S (kv_tick s))) s). split; [|split; [done|split; [by apply (store_inv_same env k s)|done]]].
  unfold gc_callback. cbn [negb]. rewrite !(wrap_small 64) by (unfold in_width; nia).
  rewrite (bind_run _ _ _ (at_tick (S (kv_tick s)) s) (0, 0)).
  - unfold gc_result. erewrite bind_run by reflexivity. cbv beta. rewrite Hx. reflexivity.
  - cbn [gc_loop]. erewrite bind_run by reflexivity. cbv beta. rewrite Hx.
    change (Z.of_nat sizeof_store) with 14. rewrite (proj2 (Z.ltb_lt 0 _)) by lia. cbn [negb orb].
    erewrite bind_run by reflexivity. rewrite Z.add_0_r. change (kv_dev (tick s)) with (kv_dev s).
    change sizeof_store with 14%nat. by rewrite Hk, Hv.
Qed.

Lemma hole_store_inv : store_inv gc_env 0 hole_store [gc_live].
Proof.
  set (s := set_dev (dev_write (fun _ => 0) (97 * 32) (r_bytes gc_live)) gc_store0).
  assert (rec_ok gc_env (kv_dev s) gc_live) as Hok.
  { split; [split; closed_num|vm_compute; reflexivity|closed_num|closed_num|closed_num]. }
  refine (store_inv_ext gc_env 0 gc_store hole_store _ gc_store_inv _ _ _ _ _); try reflexivity.
  intros r ->%list_elem_of_singleton. exact Hok.
Qed.

Lemma gc_hole_strands_witness : exists s',
  gc_callback gc_env false (fun _ => false) 1 true [] 96 48 hole_store = Some ((0, 0), s') /\
  kv_events s' = kv_events hole_store /\ store_inv gc_env 0 s' [gc_live] /\ gc_live ∈ [gc_live] /\
  meets gc_env 96 48 gc_live.
Proof.
  apply (gc_hole_strands gc_env false (fun _ => false) 0 96 48 hole_store [gc_live] gc_live [] 0);
    [apply gc_env_quiet|apply hole_store_inv|by left| |done|closed_num|closed_num|done|vm_compute; by split].
  intros [H|H]; vm_compute in H; by destruct H.
Defined.
