(* ===== verification/Restart.v ===== *)
(** * Restart: shutting the directory down and restoring it
      (uDepot/lsa/udepot-directory-map.cc)

    The tables of the directory live in segments of the device that are mapped
    into memory: a header, the entries and a footer.  [dir_shutdown] writes the
    footers and syncs the mappings; [dir_restore] looks for the segments of the
    newest directory, maps its tables again and rebuilds from their entries the
    counters, the valid grains of the data segments and the timestamps;
    [invalidate_ftr] makes sure that this is done once. *)
From Stdlib Require Import ZArith Lia.
From stdpp Require Import base tactics list numbers.
From S2P Require Import Prelude Util HashEntry HopscotchMap FpTable DirectoryMap DirectoryGrow.
From S2P Require Import StoreFormat Metadata.

Open Scope Z_scope.

(** ** Header and footer *)

Record dirmap_ftr := mkFtr {
  ftr_dir_size : Z;
  ftr_idx : Z;
  ftr_csum : Z;
  ftr_ts : Z;
  ftr_used_bytes_kv : Z;
  ftr_tot_bytes_kv : Z
}.

Definition hdr_bytes (h : dirmap_hdr) : list Z :=
  pack [(2%nat, hdr_dir_size h); (2%nat, hdr_idx h); (4%nat, hdr_csum h); (8%nat, hdr_ts h)].
Definition ftr_bytes (f : dirmap_ftr) : list Z :=
  pack [(2%nat, ftr_dir_size f); (2%nat, ftr_idx f); (4%nat, ftr_csum f); (8%nat, ftr_ts f);
        (8%nat, ftr_used_bytes_kv f); (8%nat, ftr_tot_bytes_kv f)].

(** The members of the 512 bytes read. *)
Definition hdr_of (bs : list Z) : dirmap_hdr :=
  match unpack [2; 2; 4; 8]%nat bs with
  | [n; i; c; t] => mkHdr n i c t
  | _ => mkHdr 0 0 0 0
  end.
Definition ftr_of (bs : list Z) : dirmap_ftr :=
  match unpack [2; 2; 4; 8; 8; 8]%nat bs with
  | [n; i; c; t; u; b] => mkFtr n i c t u b
  | _ => mkFtr 0 0 0 0 0 0
  end.

(** ** Environment: geometry, and the answers of the calls *)

Record rs_env := mkRsEnv {
  rs_crc32 : Z -> list Z -> Z;
  rs_seg_size : Z;             (** [scm->get_seg_size()], in grains *)
  rs_grain_size : Z;
  rs_seg_nr : nat;
  rs_dir_ctlr : Z;             (** the controller of the directory *)
  rs_kv_ctlr : Z;              (** and the store's *)
  rs_preadv_md : nat -> Z;     (** bytes read of the metadata of a segment *)
  rs_pread_hdr : nat -> Z;
  rs_pread_ftr : nat -> Z;
  rs_mmap_huge : nat -> bool;  (** by the segment's position among those restored *)
  rs_mmap : nat -> bool;
  rs_pread_rec : Z -> Z;       (** bytes read of the record header at a grain *)
  rs_timestamp : nat -> Z;     (** [md_m.timestamp()] *)
  rs_msync : nat -> Z
}.

(** What [restore] does besides reading: the ranges handed to the controllers,
    and what it tells the store. *)
Record restored := mkRestored {
  rs_dir : DirMap;
  rs_ranges : list (Z * Z * Z);  (** [restore_grain_range]: grain, length, controller *)
  rs_key_nr : Z;
  rs_used_bytes : Z;
  rs_total_bytes : Z;
  rs_md : MD;
  rs_seg_alloc_nr : Z
}.

(** [std::map<u64, u64>]: increasing keys; [map[k] += n]. *)
Fixpoint vm_add (k n : Z) (v : list (Z * Z)) : list (Z * Z) :=
  match v with
  | [] => [(k, n)]
  | (k', n') :: v' =>
      if k <? k' then (k, n) :: v
      else if k =? k' then (k', u64 (n' + n)) :: v'
      else (k', n') :: vm_add k n v'
  end.

(** [while (size >>= 1) nr++]. *)
Fixpoint shr_loop (fuel : nat) (size nr : Z) : Z :=
  match fuel with
  | O => nr
  | S fuel' =>
      let size := Z.shiftr size 1 in
      if size =? 0 then nr else shr_loop fuel' size (u32 (nr + 1))
  end.

Section Restart.
Context (env : rs_env).

Local Abbreviation gs := (rs_grain_size env).
Local Abbreviation crc32 := (rs_crc32 env).

(** The grains of a segment before its metadata. *)
Definition rs_net_size (m : MD) : Z := u64 (rs_seg_size env - get_seg_md_size m).

(** The checksum over [dir_size] and [idx]. *)
Definition dir_csum (m : MD) (ts dir_size idx : Z) : Z :=
  checksum32 crc32 ts (pack [(2%nat, dir_size); (2%nat, idx)]) m.

(** ** Shutdown *)

(** The entries of a table as they lie in its mapping. *)
Definition table_bytes (m : uDepotMap) : list Z := concat ((fun e => le_bytes 8 (to_word e)) <$> ht_m m).

Definition shutdown_ftr (m : MD) (n i : nat) (tot used : Z) : dirmap_ftr :=
  let ts := rs_timestamp env i in
  let last := (i =? n - 1)%nat in
  let dir_size := u16 (Z.of_nat n) in
  let idx := u16 (Z.of_nat i) in
  mkFtr dir_size idx (dir_csum m ts dir_size idx) ts (if last then used else 0) (if last then tot else 0).

Definition ftr_offset (m : MD) (e : DirMapEntry) : Z :=
  grain_offset e * gs + (rs_net_size m * gs - sizeof_dirmap_ftr).

(** Table [i] of [n] after the footer was set and the mapping synced. *)
Definition sync_table (m : MD) (n i : nat) (tot used : Z) (e : DirMapEntry) (dev : device) : device :=
  let dev := dev_write dev (grain_offset e * gs + sizeof_dirmap_hdr) (table_bytes (dme_map e)) in
  dev_write dev (ftr_offset m e) (ftr_bytes (shutdown_ftr m n i tot used)).

(** [None]: the footer is written through a mapping that failed. *)
Fixpoint shutdown_from (m : MD) (n i : nat) (tot used : Z) (dmes : list DirMapEntry) (dev : device) :
    option device :=
  match dmes with
  | [] => Some dev
  | e :: dmes' =>
      if negb (mm_region e) then None
      else shutdown_from m n (S i) tot used dmes' (sync_table m n i tot used e dev)
  end.

Definition dir_shutdown (m : MD) (tot used : Z) (d : DirMap) (dev : device) : option device :=
  shutdown_from m (length (directory d)) 0 tot used (directory d) dev.

(** ** Restore *)

Record restore_md := mkRmd { rmd_grain : Z; rmd_hdr : dirmap_hdr; rmd_ftr : dirmap_ftr }.

(** The segments of directories, oldest segment first; [EIO] ends the scan. *)
Fixpoint restore_scan (m : MD) (dev : device) (segs : list nat) : Z * list restore_md :=
  match segs with
  | [] => (0, [])
  | i :: segs' =>
      let grain_start := u64 (Z.of_nat i * rs_seg_size env) in
      let md_grain := u64 (grain_start + rs_net_size m) in
      if negb (validate_seg_md_at crc32 (rs_preadv_md env i) md_grain Directory dev m)
      then restore_scan m dev segs'
      else if negb (rs_pread_hdr env i =? sizeof_dirmap_hdr) then (EIO, [])
      else if negb (rs_pread_ftr env i =? sizeof_dirmap_ftr) then (EIO, [])
      else
        let hdr := hdr_of (dev_read dev (u64 (grain_start * gs)) 512) in
        let ftr := ftr_of (dev_read dev (u64 (u64 (md_grain * gs) - sizeof_dirmap_ftr)) 512) in
        if negb (dir_csum m (hdr_ts hdr) (hdr_dir_size hdr) (hdr_idx hdr) =? hdr_csum hdr) ||
           negb (dir_csum m (ftr_ts ftr) (ftr_dir_size ftr) (ftr_idx ftr) =? ftr_csum ftr)
        then restore_scan m dev segs'
        else let '(rc, l) := restore_scan m dev segs' in (rc, mkRmd grain_start hdr ftr :: l)
  end.

(** The last group of [std::map<u32, std::list<restore_md>>], keyed by
    [hdr.dir_size - 1]. *)
Definition rmd_key (r : restore_md) : Z := u32 (hdr_dir_size (rmd_hdr r) - 1).

Definition last_group (l : list restore_md) : list restore_md :=
  let key := foldr Z.max 0 (rmd_key <$> l) in
  filter (fun r => rmd_key r = key) l.

(** The words of a table's mapping. *)
Definition region_words (dev : device) (off : Z) (n : nat) : list HashEntry :=
  (fun j => of_word (le_val (dev_read dev (off + 8 * Z.of_nat j) 8))) <$> seq 0 n.

(** Map the tables: [j] is the position in the group.  [None] is an index past
    the new directory, or a table whose sizing does not end. *)
Fixpoint restore_tables (m : MD) (dev : device) (lock_nr : Z) (j : nat) (group : list restore_md)
    (dmes : list DirMapEntry) : option (Z * list DirMapEntry * list (Z * Z * Z)) :=
  match group with
  | [] => Some (0, dmes, [])
  | r :: group' =>
      let idx := Z.to_nat (hdr_idx (rmd_hdr r)) in
      e ← dmes !! idx;
      let full_seg_b := u64 (rs_seg_size env * gs) in
      let hg := (Z.land full_seg_b (Z.shiftl 1 21 - 1) =? 0) && rs_mmap_huge env j in
      if negb hg && negb (rs_mmap env j) then Some (ENOMEM, dmes, [])
      else
        let mmap_size_b := u64 (rs_net_size m * gs) in
        let size := u64 (mmap_size_b - u32 (sizeof_dirmap_hdr + sizeof_dirmap_ftr)) in
        let words := region_words dev (rmd_grain r * gs + sizeof_dirmap_hdr) (Z.to_nat (size / 8)) in
        '(rc, map) ← restore (dme_map e) lock_nr size (Some words);
        let dmes := <[idx := mkDme map true (rmd_grain r) mmap_size_b hg]> dmes in
        if negb (rc =? 0) then Some (rc, dmes, [])
        else
          '(rc, dmes, ranges) ← restore_tables m dev lock_nr (S j) group' dmes;
          Some (rc, dmes, (rmd_grain r, rs_net_size m, rs_dir_ctlr env) :: ranges)
  end.

(** The used entries of a table, from slot [p] on: the error code, the table with
    its counters, the valid grains by segment and the number of keys. *)
Fixpoint restore_entries (dev : device) (p n : nat) (map : uDepotMap) (v : list (Z * Z)) (nr : Z) :
    Z * uDepotMap * list (Z * Z) * Z :=
  match n with
  | O => (0, map, v, nr)
  | S n' =>
      let e := ent map p in
      if negb (used e) then restore_entries dev (S p) n' map v nr
      else
        let grain := align_down (pba e) (rs_seg_size env) in
        let full := (kv_size e =? MAX_KV_SIZE) && negb (deleted e) in
        if full && negb (rs_pread_rec env (pba e) =? Z.of_nat sizeof_store) then (EIO, map, v, nr)
        else
          let md := header_of (dev_read dev (u64 (pba e * gs)) sizeof_store) in
          let grain_nr := if full then kv_tot_grains_get gs (key_size md) (val_size md) else kv_size e in
          let v := vm_add grain grain_nr v in
          if deleted e then restore_entries dev (S p) n' map v nr
          else restore_entries dev (S p) n' (entry_restored map (entry_keyfp map p)) v (u64 (nr + 1))
  end.

Fixpoint restore_counts (dev : device) (dmes : list DirMapEntry) (v : list (Z * Z)) (nr : Z) :
    Z * list DirMapEntry * list (Z * Z) * Z :=
  match dmes with
  | [] => (0, [], v, nr)
  | e :: dmes' =>
      let '(rc, map, v, nr) := restore_entries dev 0 (Z.to_nat (entry_nr_m (dme_map e))) (dme_map e) v nr in
      if negb (rc =? 0) then (rc, set_map e map :: dmes', v, nr)
      else
        let '(rc, dmes', v, nr) := restore_counts dev dmes' v nr in
        (rc, set_map e map :: dmes', v, nr)
  end.

(** The timestamps of the store's segments, and the largest. *)
Fixpoint restore_stamps (dev : device) (segs : list nat) (m : MD) (max : Z) : option (MD * Z) :=
  match segs with
  | [] => Some (m, max)
  | i :: segs' =>
      let grain_start := u64 (Z.of_nat i * rs_seg_size env) in
      match read_seg_md (rs_preadv_md env i) (u64 (grain_start + rs_net_size m)) dev m with
      | None => restore_stamps dev segs' m max
      | Some seg_md =>
          if negb (validate_seg_md crc32 seg_md KV m) then restore_stamps dev segs' m max
          else
            m ← restore_seg_ts (Z.to_nat (grain_start / rs_seg_size env)) (sm_timestamp seg_md) m;
            restore_stamps dev segs' m (Z.max max (sm_timestamp seg_md))
      end
  end.

(** The code of a directory of which some tables are missing is set here and
    overwritten by the next table's; see [partial_accepted]. *)
Definition dir_restore (m : MD) (d : DirMap) (dev : device) : option (Z * restored) :=
  let fail rc ranges nr := Some (rc, mkRestored d ranges nr 0 0 m 0) in
  let '(rc, all) := restore_scan m dev (seq 0 (rs_seg_nr env)) in
  if negb (rc =? 0) then fail rc [] 0
  else
    let group := last_group all in
    let n := length group in
    if (n =? 0)%nat then fail ENODATA [] 0
    else
      let lock_nr := u32 (Z.max 1 (HOP_SCOTCH_LOCK_NR / Z.of_nat n)) in
      '(rc, dmes, ranges) ← restore_tables m dev lock_nr 0 group (replicate n DirMapEntry_new);
      if negb (rc =? 0) then fail rc ranges 0
      else
        let '(rc, dmes, v, nr) := restore_counts dev dmes [] 0 in
        if negb (rc =? 0) then fail rc ranges nr
        else
          let bytes := foldl (fun b r => if ftr_idx (rmd_ftr r) =? Z.of_nat n - 1
                                         then (ftr_used_bytes_kv (rmd_ftr r), ftr_tot_bytes_kv (rmd_ftr r))
                                         else b) (0, 0) group in
          let ranges := ranges ++ ((fun '(g, len) => (g, len, rs_kv_ctlr env)) <$> v) in
          let grow_nr := shr_loop 32 (u32 (Z.of_nat n * 2)) (grow_nr_m d) in
          '(m', max) ← restore_stamps dev (seq 0 (rs_seg_nr env)) m 0;
          Some (0, mkRestored (mkDirMap dmes grow_nr (map_entry_nr_bits_m d)) ranges nr (fst bytes) (snd bytes) m' max).

(** Zero the footers; the code of the first [msync] that fails. *)
Fixpoint invalidate_from (m : MD) (i : nat) (dmes : list DirMapEntry) (dev : device) : Z * device :=
  match dmes with
  | [] => (0, dev)
  | e :: dmes' =>
      if negb (mm_region e) then invalidate_from m (S i) dmes' dev
      else
        let dev := dev_write dev (ftr_offset m e) (replicate 512 0) in
        if negb (rs_msync env i =? 0) then (rs_msync env i, dev)
        else invalidate_from m (S i) dmes' dev
  end.

Definition invalidate_ftr (m : MD) (d : DirMap) (dev : device) : Z * device :=
  invalidate_from m 0 (directory d) dev.

(** The branch of [uDepotDirectoryMap::init] for a store that is there already,
    when its directory can be restored. *)
Definition dir_init_restored (m : MD) (dev : device) : option (Z * restored * device) :=
  '(rc, r) ← dir_restore m DirMap_new dev;
  if negb (rc =? 0) then Some (rc, r, dev)
  else
    let '(rc, dev) := invalidate_ftr (rs_md r) (rs_dir r) dev in
    let d := rs_dir r in
    let d := if rc =? 0 then mkDirMap (directory d) (grow_nr_m d) (entry_nr_bits_m (map_at d 0)) else d in
    Some (rc, mkRestored d (rs_ranges r) (rs_key_nr r) (rs_used_bytes r) (rs_total_bytes r) (rs_md r)
                (rs_seg_alloc_nr r), dev).

End Restart.
