(* ===== verification/RestartSafe.v ===== *)
(** * RestartSafe: a restarted store holds what it held

    After a clean shutdown, [dir_restore] finds every table of the directory,
    with the same entries, exact counters and the store's statistics. *)
From Stdlib Require Import ZArith Lia.
From stdpp Require Import base tactics list numbers.
From S2P Require Import Prelude Util HashEntry HopscotchMap HopscotchSpec HopscotchInit HopscotchRefine.
From S2P Require Import FpTable DirectoryMap DirectoryGrow DirectoryOps.
From S2P Require Import StoreFormat Metadata KvStore KvIo KvInv KvWrite Restart.

Open Scope Z_scope.

(** ** A table's bytes *)

Lemma lor_shiftl_width (k j x y : Z) : 0 <= k -> 0 <= j -> in_width k x -> in_width j y ->
  in_width (k + j) (Z.lor x (Z.shiftl y k)).
Proof.
  intros Hk Hj Hx Hy. pose proof (shiftr_lor_shiftl k x y Hk Hx) as Hs.
  set (w := Z.lor x (Z.shiftl y k)) in *. rewrite Z.shiftr_div_pow2 in Hs by done.
  pose proof (pow2_pos k Hk). pose proof (Z.div_mod w (2 ^ k) ltac:(lia)).
  pose proof (Z.mod_pos_bound w (2 ^ k) ltac:(lia)). unfold in_width in *.
  rewrite Z.pow_add_r by done. nia.
Qed.

Lemma to_word_width e : entry_wf e -> in_width 64 (to_word e).
Proof.
  intros [H1 H2 H3 H4]. rewrite to_word_nested.
  change 64 with (HOP_OFF_BITS + (KEYTAG_BITS + (KV_SIZE_BITS + PBA_BITS))).
  by repeat (apply lor_shiftl_width; [done|done|done|]).
Qed.

Lemma table_bytes_length m : length (table_bytes m) = (8 * length (ht_m m))%nat.
Proof.
  unfold table_bytes. induction (ht_m m) as [|e l IH]; [done|].
  rewrite fmap_cons. cbn [concat]. rewrite length_app, le_bytes_length, IH. simpl. lia.
Qed.

Lemma region_words_read dev off (l : list HashEntry) :
  Forall entry_wf l ->
  dev_read dev off (8 * length l) = concat ((fun e => le_bytes 8 (to_word e)) <$> l) ->
  region_words dev off (length l) = l.
Proof.
  intros Hwf. revert off. induction l as [|e l IH]; intros off Hr; [done|].
  apply Forall_cons_iff in Hwf as [He Hwf]. unfold region_words. cbn [length seq].
  rewrite fmap_cons. cbn [length] in Hr. rewrite fmap_cons in Hr. cbn [concat] in Hr.
  replace (8 * S (length l))%nat with (8 + 8 * length l)%nat in Hr by lia.
  rewrite dev_read_app in Hr. apply app_inj_1 in Hr as [H1 H2]; [|by rewrite dev_read_length, le_bytes_length].
  f_equal.
  - rewrite Z.mul_0_r, Z.add_0_r, H1, le_val_bytes by (by apply to_word_width). by apply of_to_word.
  - transitivity (region_words dev (off + 8) (length l)); [|by apply IH]. unfold region_words.
    rewrite <- fmap_S_seq, <- list_fmap_compose. apply list_fmap_ext. intros j x _. unfold compose.
    do 3 f_equal. lia.
Qed.

(** ** Tables with the same entries *)

Record same_table (m m' : uDepotMap) : Prop := {
  st_ht : ht_m m' = ht_m m;
  st_bits : entry_nr_bits_m m' = entry_nr_bits_m m;
  st_nr : entry_nr_m m' = entry_nr_m m
}.

#[global] Instance same_table_equiv : Equivalence same_table.
Proof.
  split.
  - done.
  - intros m m' [? ? ?]. by split.
  - intros m1 m2 m3 [? ? ?] [? ? ?]. split; congruence.
Qed.

Section Same.
Context (m m' : uDepotMap) (Hs : same_table m m').

Lemma same_ent p : ent m' p = ent m p.
Proof. unfold ent. by rewrite (st_ht _ _ Hs). Qed.

Lemma same_keyfp p : entry_keyfp m' p = entry_keyfp m p.
Proof. unfold entry_keyfp. by rewrite same_ent, (st_bits _ _ Hs). Qed.

Lemma same_live_at p : live_at m' p = live_at m p.
Proof. unfold live_at, live_slot. by rewrite same_ent, same_keyfp. Qed.

Lemma same_used_at p : used_at m' p = used_at m p.
Proof. unfold used_at. by rewrite same_ent, same_keyfp. Qed.

Lemma same_entries : entries m' = entries m.
Proof. unfold entries. rewrite (st_ht _ _ Hs). apply bag_ext. intros i _. apply same_live_at. Qed.

Lemma same_home_ok p : home_ok m p -> home_ok m' p.
Proof. unfold home_ok. by rewrite same_ent, (st_bits _ _ Hs). Qed.

Lemma same_wf : map_wf m -> Z.of_nat (length (used_entry_nr_m m')) = HOP_SCOTCH_LOCK_NR -> map_wf m'.
Proof.
  intros [Hb Hn Hl He Hh Hu _] Hc.
  split; rewrite ?(st_bits _ _ Hs), ?(st_nr _ _ Hs), ?(st_ht _ _ Hs); try done; intros p.
  - rewrite same_ent. apply He.
  - unfold live_slot. rewrite same_ent. intros Hp. by apply same_home_ok, Hh.
  - rewrite same_ent. apply Hu.
Qed.

Lemma same_chained : chained m -> chained m'.
Proof.
  intros Hc p q. unfold live_slot, home. rewrite !same_ent. apply (Hc p q).
Qed.

Lemma same_aligned : aligned m -> aligned m'.
Proof. intros Ha p. rewrite same_ent. intros Hp. by apply same_home_ok, Ha. Qed.

Lemma same_idx h : length (used_entry_nr_m m') = length (used_entry_nr_m m) ->
  used_entry_idx m' h = used_entry_idx m h.
Proof. intros Hl. unfold used_entry_idx, hash_to_hb_. by rewrite (st_nr _ _ Hs), Hl. Qed.

End Same.

(** ** Counting the entries of a restored table *)

Section Counts.
Context (env : rs_env) (dev : device).

(** The headers of the records whose size does not fit the entry can be read. *)
Definition sizes_readable (m : uDepotMap) : Prop := forall p,
  live_slot m p = true -> kv_size (ent m p) = MAX_KV_SIZE ->
  rs_pread_rec env (pba (ent m p)) = Z.of_nat sizeof_store.

(** The counters count the entries [acc]. *)
Definition counts (m : uDepotMap) (acc : list triple) : Prop :=
  Z.of_nat (length (used_entry_nr_m m)) = HOP_SCOTCH_LOCK_NR /\
  forall i, (i < length (used_entry_nr_m m))%nat -> used_entry_nr_m m !! i =
    Some (u64 (Z.of_nat (length (filter (fun t => used_entry_idx m (fp_of t) = i) acc)))).

Lemma counts_add m acc t :
  counts m acc -> same_table m (entry_restored m (fp_of t)) /\ counts (entry_restored m (fp_of t)) (acc ++ [t]).
Proof.
  intros [Hl Hc]. split; [done|]. set (m1 := entry_restored m (fp_of t)).
  assert (used_entry_nr_m m1 = alter (fun c => u64 (c + 1)) (used_entry_idx m (fp_of t)) (used_entry_nr_m m)) as Hu by done.
  assert (forall h, used_entry_idx m1 h = used_entry_idx m h) as Hidx
    by (intros h; apply (same_idx m m1); [done|]; by rewrite Hu, length_alter).
  split; [by rewrite Hu, length_alter|]. intros i. rewrite Hu, length_alter. intros Hi.
  rewrite list.filter_app, length_app, filter_cons, filter_nil.
  assert (filter (fun t0 => used_entry_idx m1 (fp_of t0) = i) acc =
          filter (fun t0 => used_entry_idx m (fp_of t0) = i) acc) as ->.
  { apply list_filter_iff. intros t0. by rewrite Hidx. }
  destruct (decide (used_entry_idx m1 (fp_of t) = i)) as [Hd|Hd]; rewrite Hidx in Hd.
  - rewrite <- Hd at 1. rewrite list_lookup_alter_eq, Hc by (rewrite Hd; done). simpl. rewrite Hd, wrap_add_l.
    do 2 f_equal. lia.
  - rewrite list_lookup_alter_ne by done. rewrite Hc by done. simpl. do 2 f_equal. lia.
Qed.

Lemma restore_entries_spec p n m v nr acc :
  sizes_readable m -> counts m acc -> in_width 64 nr ->
  exists m' v', restore_entries env dev p n m v nr =
      (0, m', v', u64 (nr + Z.of_nat (length (omap (live_at m) (seq p n))))) /\
    same_table m m' /\ counts m' (acc ++ omap (live_at m) (seq p n)).
Proof.
  revert p m v nr acc. induction n as [|n IH]; intros p m v nr acc Hr Hc Hn.
  { exists m, v. cbn [seq omap list_omap]. rewrite app_nil_r, Z.add_0_r, wrap_small by done. done. }
  cbn [restore_entries seq omap list_omap]. fold (omap (M:=list) (live_at m)).
  assert (live_at m p = if used (ent m p) && negb (deleted (ent m p)) then
            Some (entry_keyfp m p, kv_size (ent m p), pba (ent m p)) else None) as -> by done.
  destruct (used (ent m p)) eqn:Hu; cbn [negb andb]; [|by apply IH].
  destruct (deleted (ent m p)) eqn:Hd; cbn [negb andb].
  { rewrite andb_false_r. cbn [andb]. by apply IH. }
  rewrite andb_true_r.
  assert ((kv_size (ent m p) =? MAX_KV_SIZE) && negb (rs_pread_rec env (pba (ent m p)) =? Z.of_nat sizeof_store) = false) as ->.
  { destruct (Z.eqb_spec (kv_size (ent m p)) MAX_KV_SIZE) as [Hm|]; [|done].
    rewrite (Hr p), Z.eqb_refl; [done| |done]. unfold live_slot, live. by rewrite Hu, Hd. }
  set (t := (entry_keyfp m p, kv_size (ent m p), pba (ent m p)) : triple).
  destruct (counts_add m acc t Hc) as [Hst Hc']. change (fp_of t) with (entry_keyfp m p) in *.
  set (m1 := entry_restored m (entry_keyfp m p)) in *.
  match goal with |- context [restore_entries env dev (S p) n m1 ?v1 ?nr1] =>
    destruct (IH (S p) m1 v1 nr1 (acc ++ [t])) as (m2 & v2 & -> & Hst2 & Hc2) end.
  - intros q. unfold live_slot. rewrite !(same_ent m m1 Hst). apply Hr.
  - done.
  - by apply wrap_range.
  - assert (omap (live_at m1) (seq (S p) n) = omap (live_at m) (seq (S p) n)) as Heq.
    { apply list_omap_ext, Forall_Forall2_diag, Forall_forall. intros q _. by apply same_live_at. }
    rewrite Heq in *. exists m2, v2. split; [|split; [by etrans|by rewrite <- app_assoc in Hc2]].
    rewrite wrap_add_l. do 2 f_equal. cbn [length]. lia.
Qed.

(** Live entries lie before [entry_nr_m]. *)
Lemma entries_scan m : map_wf m -> omap (live_at m) (seq 0 (Z.to_nat (entry_nr_m m))) = entries m.
Proof.
  intros Hwf. unfold entries, bag. pose proof (wf_length _ Hwf) as Hl. pose proof (wf_entry_nr _ Hwf) as Hn.
  replace (length (ht_m m)) with (Z.to_nat (entry_nr_m m) + (length (ht_m m) - Z.to_nat (entry_nr_m m)))%nat by lia.
  rewrite seq_app, omap_app. rewrite <- (app_nil_r (omap _ _)) at 1. f_equal. symmetry.
  assert (forall l, Forall (fun q => Z.to_nat (entry_nr_m m) <= q)%nat l -> omap (live_at m) l = []) as Hnil.
  { induction 1 as [|q l Hq _ IH]; [done|]. cbn [omap list_omap]. fold (omap (M:=list) (live_at m)). rewrite IH.
    unfold live_at. destruct (live_slot m q) eqn:Hlv; [|done]. exfalso.
    destruct (wf_home _ Hwf q Hlv) as [H1 H2]. lia. }
  apply Hnil, Forall_forall. intros q Hq. apply in_seq in Hq. lia.
Qed.

(** A table as [restore] leaves it: the entries of [m], and no counts. *)
Definition uncounted (m m0 : uDepotMap) : Prop :=
  same_table m m0 /\ used_entry_nr_m m0 = replicate (Z.to_nat HOP_SCOTCH_LOCK_NR) 0.

Lemma uncounted_counts m m0 : uncounted m m0 -> counts m0 [].
Proof.
  intros [_ Hu]. split; [by rewrite Hu, length_replicate|]. rewrite Hu. intros i Hi.
  rewrite length_replicate in Hi. apply lookup_replicate. split; [done|lia].
Qed.

Lemma recount m m0 v nr :
  map_inv m -> uncounted m m0 -> sizes_readable m -> in_width 64 nr ->
  exists m' v', restore_entries env dev 0 (Z.to_nat (entry_nr_m m0)) m0 v nr =
      (0, m', v', u64 (nr + Z.of_nat (length (entries m)))) /\ same_table m m' /\ map_inv m'.
Proof.
  intros [Hwf Hch _] Hu Hr Hn. pose proof Hu as [Hs Hz].
  assert (map_wf m0) as Hwf0 by (apply (same_wf m m0 Hs Hwf); by rewrite Hz, length_replicate).
  destruct (restore_entries_spec 0 (Z.to_nat (entry_nr_m m0)) m0 v nr []) as (m' & v' & -> & Hs' & Hc).
  { intros q. unfold live_slot. rewrite !(same_ent m m0 Hs). apply Hr. }
  { by apply (uncounted_counts m). }
  { done. }
  rewrite entries_scan in Hc |- * by done. rewrite (same_entries m m0 Hs) in Hc |- *.
  assert (same_table m m') as Hsm by (by etrans). destruct Hc as [Hl Hc].
  exists m', v'. split; [done|]. split; [done|]. split.
  - by apply (same_wf m m').
  - by apply (same_chained m m').
  - intros i Hi. unfold home_count. rewrite (same_entries m m' Hsm). by apply Hc.
Qed.

(** All tables of the directory. *)
Lemma recount_all (os dmes : list DirMapEntry) v nr :
  Forall2 (fun o e => map_inv (dme_map o) /\ sizes_readable (dme_map o) /\
                      uncounted (dme_map o) (dme_map e)) os dmes -> in_width 64 nr ->
  exists dmes' v', restore_counts env dev dmes v nr =
      (0, dmes', v', u64 (nr + Z.of_nat (length (concat (entries <$> (dme_map <$> os)))))) /\
    Forall2 (fun o e' => same_table (dme_map o) (dme_map e') /\ map_inv (dme_map e')) os dmes' /\
    Forall2 (fun e e' => e' = set_map e (dme_map e')) dmes dmes'.
Proof.
  intros HF. revert v nr. induction HF as [|o e os dmes (Hi & Hr & Hu) _ IH]; intros v nr Hn.
  { exists [], v. simpl. rewrite Z.add_0_r, wrap_small by done. by repeat split. }
  cbn [restore_counts]. destruct (recount _ _ v nr Hi Hu Hr Hn) as (m' & v1 & -> & Hs & Hi').
  cbn [negb Z.eqb]. destruct (IH v1 (u64 (nr + Z.of_nat (length (entries (dme_map o)))))) as (dmes' & v2 & -> & HF1 & HF2);
    [by apply wrap_range|].
  exists (set_map e m' :: dmes'), v2. split; [|split; by constructor].
  rewrite wrap_add_l. rewrite !fmap_cons. cbn [concat]. rewrite length_app. do 2 f_equal. lia.
Qed.

End Counts.

(** ** Shutdown *)

Section Layout.
Context (env : rs_env) (m m1 : MD).

Local Abbreviation gs := (rs_grain_size env).
Local Abbreviation seg := (rs_seg_size env).

(** The grains of a segment before its metadata, and the bytes of its table. *)
Definition net : Z := seg - get_seg_md_size m.
Definition table_size : Z := net * gs - 1024.

(** The store that shut down ([m]) and the one that starts ([m1]) agree on the
    geometry, and a segment has room for a table. *)
Record geometry : Prop := {
  ge_gs : 0 < gs < 2 ^ 31;
  ge_gsm : grain_size_m m = gs;
  ge_seg : 0 < seg < 2 ^ 31;
  ge_md : 0 <= get_seg_md_size m <= seg;
  ge_dev : Z.of_nat (rs_seg_nr env) * seg * gs <= 2 ^ 62;
  ge_room : HOP_SCOTCH_BUCKET_SIZE < table_size / 8;
  ge_same : same_md m m1;
  ge_ts : length (seg_ts_m m1) = rs_seg_nr env
}.

Context (Hge : geometry).

Lemma table_size_pos : 256 < table_size.
Proof.
  pose proof (ge_room Hge) as H. change HOP_SCOTCH_BUCKET_SIZE with 32 in H.
  pose proof (Z.mul_div_le table_size 8 ltac:(lia)). lia.
Qed.

Lemma net_pos : 0 < net <= seg.
Proof. pose proof table_size_pos. pose proof (ge_md Hge). pose proof (ge_gs Hge). unfold table_size, net in *. nia. Qed.

Lemma rs_net_spec : rs_net_size env m = net /\ rs_net_size env m1 = net.
Proof.
  pose proof (ge_md Hge). pose proof (ge_seg Hge). destruct (ge_same Hge) as (_ & Hg & _).
  unfold rs_net_size. assert (get_seg_md_size m1 = get_seg_md_size m) as -> by (unfold get_seg_md_size; by rewrite Hg).
  fold net. rewrite wrap_small; [done|]. unfold net, in_width. lia.
Qed.

Lemma seg_bytes (x y : Z) : x < y -> x * seg * gs + seg * gs <= y * seg * gs.
Proof.
  intros Hxy. pose proof (ge_seg Hge). pose proof (ge_gs Hge). transitivity ((x + 1) * seg * gs); [nia|].
  apply Z.mul_le_mono_nonneg_r; [lia|]. apply Z.mul_le_mono_nonneg_r; lia.
Qed.

(** A mapped table in the segment at grain [g]. *)
Definition in_segment (e : DirMapEntry) (g : Z) : Prop :=
  mm_region e = true /\ grain_offset e = g /\
  Z.of_nat (length (ht_m (dme_map e))) = table_size / 8 /\ Forall entry_wf (ht_m (dme_map e)).

(** Bytes that [sync_table] leaves alone: up to the header and after the footer. *)
Definition clear (e : DirMapEntry) (a : Z) (l : nat) : Prop :=
  a + Z.of_nat l <= grain_offset e * gs + 512 \/ grain_offset e * gs + net * gs <= a.

Lemma table_span e g : in_segment e g ->
  Z.of_nat (length (table_bytes (dme_map e))) <= net * gs - 1024.
Proof.
  intros (_ & _ & Hl & _). rewrite table_bytes_length. pose proof (Z.mul_div_le table_size 8 ltac:(lia)).
  unfold table_size in *. lia.
Qed.

Lemma sync_clear n i tot used e g dev a l : in_segment e g -> clear e a l ->
  dev_read (sync_table env m n i tot used e dev) a l = dev_read dev a l.
Proof.
  intros He Hc. pose proof (table_span e g He). pose proof table_size_pos. unfold table_size in *.
  unfold sync_table, ftr_offset. rewrite (proj1 rs_net_spec).
  change sizeof_dirmap_hdr with 512. change sizeof_dirmap_ftr with 512.
  rewrite dev_read_write_other, dev_read_write_other; [done|..]; unfold clear in Hc;
    [|change (length (ftr_bytes _)) with 32%nat]; lia.
Qed.

Lemma sync_self n i tot used e g dev : in_segment e g ->
  let dev' := sync_table env m n i tot used e dev in
  dev_read dev' (g * gs + 512) (length (table_bytes (dme_map e))) = table_bytes (dme_map e) /\
  dev_read dev' (g * gs + (net * gs - 512)) 32 = ftr_bytes (shutdown_ftr env m n i tot used).
Proof.
  intros He dev'. pose proof (table_span e g He). destruct He as (_ & Hg & _).
  unfold dev', sync_table, ftr_offset. rewrite (proj1 rs_net_spec), Hg.
  change sizeof_dirmap_hdr with 512. change sizeof_dirmap_ftr with 512. split.
  - rewrite dev_read_write_other by lia. apply dev_read_write_same.
  - apply (dev_read_write_same _ _ (ftr_bytes _)).
Qed.

(** Where the directory's tables are: in segments of their own. *)
Definition segments_of (dmes : list DirMapEntry) (sg : nat -> nat) : Prop :=
  (forall i e, dmes !! i = Some e -> in_segment e (Z.of_nat (sg i) * seg) /\ (sg i < rs_seg_nr env)%nat) /\
  (forall i j, (i < length dmes)%nat -> (j < length dmes)%nat -> sg i = sg j -> i = j).

Lemma segments_tail e dmes sg : segments_of (e :: dmes) sg -> segments_of dmes (fun i => sg (S i)).
Proof.
  intros [H1 H2]. split; [intros i e' Hi; by apply (H1 (S i))|].
  intros i j Hi Hj Hs. assert (S i = S j); [|lia]. apply H2; simpl; lia || done.
Qed.

(** What a shutdown leaves: the tables [i0], ... of [n] as synced. *)
Record synced (n i0 : nat) (tot used : Z) (dmes : list DirMapEntry) (dev dev' : device) : Prop := {
  sy_other : forall a l, (forall e, e ∈ dmes -> clear e a l) -> dev_read dev' a l = dev_read dev a l;
  sy_table : forall i e, dmes !! i = Some e ->
    dev_read dev' (grain_offset e * gs + 512) (length (table_bytes (dme_map e))) = table_bytes (dme_map e) /\
    dev_read dev' (grain_offset e * gs + (net * gs - 512)) 32 =
      ftr_bytes (shutdown_ftr env m n (i0 + i) tot used)
}.

Lemma shutdown_synced n i0 tot used dmes sg dev :
  segments_of dmes sg ->
  exists dev', shutdown_from env m n i0 tot used dmes dev = Some dev' /\ synced n i0 tot used dmes dev dev'.
Proof.
  revert i0 sg dev. induction dmes as [|e dmes IH]; intros i0 sg dev Hsg.
  { exists dev. split; [done|]. split; [done|]. intros i e Hi. done. }
  cbn [shutdown_from]. destruct (proj1 Hsg 0%nat e eq_refl) as [He Hlt].
  pose proof He as (Hmm & Hg & _). rewrite Hmm. cbn [negb].
  destruct (IH (S i0) _ (sync_table env m n i0 tot used e dev) (segments_tail _ _ _ Hsg)) as (dev' & Hrun & [Ho Ht]).
  exists dev'. split; [done|]. pose proof (sync_self n i0 tot used e _ dev He) as [Hs1 Hs2].
  assert (forall e' a l, e' ∈ dmes -> grain_offset e * gs <= a ->
            a + Z.of_nat l <= grain_offset e * gs + net * gs -> clear e' a l) as Hcl.
  { intros e' a l [j Hj]%list_elem_of_lookup Ha Hl.
    destruct (proj1 Hsg (S j) e' Hj) as [(_ & Hg' & _) _]. unfold clear. rewrite Hg, Hg' in *.
    pose proof net_pos. pose proof (ge_gs Hge).
    assert (sg 0%nat <> sg (S j)) as Hne.
    { intros Heq. apply (proj2 Hsg) in Heq; [done|simpl; lia|]. apply lookup_lt_Some in Hj. simpl. lia. }
    assert (net * gs <= seg * gs) by nia.
    destruct (decide (sg 0 < sg (S j))%nat); [left|right].
    - pose proof (seg_bytes (Z.of_nat (sg 0%nat)) (Z.of_nat (sg (S j))) ltac:(lia)). lia.
    - pose proof (seg_bytes (Z.of_nat (sg (S j))) (Z.of_nat (sg 0%nat)) ltac:(lia)). lia. }
  split.
  - intros a l Ha. rewrite Ho by (intros e' He'; apply Ha; by right).
    apply (sync_clear _ _ _ _ _ _ _ _ _ He). apply Ha. by left.
  - intros [|i] e' Hi.
    + injection Hi as <-. rewrite Nat.add_0_r, Hg. pose proof (table_span e _ He). pose proof net_pos.
      pose proof table_size_pos. unfold table_size in *. rewrite Hg in Hcl.
      split; (rewrite Ho; [done|]); intros e' He'; apply Hcl; try done; lia.
    + replace (i0 + S i)%nat with (S i0 + i)%nat by lia. by apply Ht.
Qed.

(** ** Finding the segments *)

Context (d : DirMap) (sg : nat -> nat) (hts : nat -> Z) (dev : device).

Local Abbreviation n := (length (directory d)).

Definition the_hdr (i : nat) (ts : Z) : dirmap_hdr :=
  mkHdr (Z.of_nat n) (Z.of_nat i) (dir_csum env m ts (Z.of_nat n) (Z.of_nat i)) ts.

(** The directory on the device before the shutdown: every table has a segment
    of its own, stamped as the directory's and with its header in place; no other
    segment looks like one of a directory at least as large. *)
Record dir_layout : Prop := {
  dl_segs : segments_of (directory d) sg;
  dl_size : (0 < n)%nat /\ Z.of_nat n < 2 ^ 16;
  dl_hdr : forall i, (i < n)%nat -> in_width 64 (hts i) /\
    dev_read dev (Z.of_nat (sg i) * seg * gs) 16 = hdr_bytes (the_hdr i (hts i));
  dl_md : forall i, (i < n)%nat ->
    validate_seg_md_at (rs_crc32 env) (rs_preadv_md env (sg i)) (Z.of_nat (sg i) * seg + net) Directory dev m1 = true;
  dl_stale : forall j, (j < rs_seg_nr env)%nat -> (forall i, (i < n)%nat -> sg i <> j) ->
    exists l, restore_scan env m1 dev [j] = (0, l) /\ Forall (fun r => rmd_key r < Z.of_nat n - 1) l
}.

(** The reads and mappings of a restart succeed. *)
Record answers : Prop := {
  an_hdr : forall j, rs_pread_hdr env j = 512;
  an_ftr : forall j, rs_pread_ftr env j = 512;
  an_mmap : forall j, rs_mmap env j = true;
  an_msync : forall j, rs_msync env j = 0
}.

Context (Hl : dir_layout) (Han : answers).
Context (tot used : Z) (Htot : in_width 64 tot) (Hused : in_width 64 used).
Context (Hts : forall i, in_width 64 (rs_timestamp env i)).
Context (dev' : device) (Hsy : synced n 0 tot used (directory d) dev dev').

(** Reads of up to 512 bytes inside a segment, clear of another segment's table. *)
Lemma clear_other j e i a l :
  directory d !! i = Some e -> sg i <> j -> Z.of_nat j * seg * gs <= a -> (l <= 512)%nat ->
  a <= Z.of_nat j * seg * gs + seg * gs -> clear e a l.
Proof.
  intros Hi Hne Ha Hl' Hb. destruct (proj1 (dl_segs Hl) i e Hi) as [(_ & Hg & _) _].
  unfold clear. rewrite Hg. pose proof net_pos. pose proof (ge_gs Hge). assert (net * gs <= seg * gs) by nia.
  destruct (decide (sg i < j)%nat); [right|left].
  - pose proof (seg_bytes (Z.of_nat (sg i)) (Z.of_nat j) ltac:(lia)). lia.
  - pose proof (seg_bytes (Z.of_nat j) (Z.of_nat (sg i)) ltac:(lia)). lia.
Qed.

Lemma seg_small j : (j < rs_seg_nr env)%nat ->
  u64 (Z.of_nat j * seg) = Z.of_nat j * seg /\ u64 (Z.of_nat j * seg * gs) = Z.of_nat j * seg * gs /\
  u64 (Z.of_nat j * seg + net) = Z.of_nat j * seg + net /\
  u64 ((Z.of_nat j * seg + net) * gs) = (Z.of_nat j * seg + net) * gs /\
  u64 ((Z.of_nat j * seg + net) * gs - 512) = (Z.of_nat j * seg + net) * gs - 512 /\
  0 <= Z.of_nat j * seg * gs.
Proof.
  intros Hj. pose proof (seg_bytes (Z.of_nat j) (Z.of_nat (rs_seg_nr env)) ltac:(lia)). pose proof (ge_dev Hge).
  pose proof net_pos. pose proof (ge_gs Hge). pose proof (ge_seg Hge). pose proof table_size_pos. unfold table_size in *.
  assert (net * gs <= seg * gs) by nia. assert (0 <= Z.of_nat j * seg) by nia.
  assert (Z.of_nat j * seg <= Z.of_nat j * seg * gs) by nia. assert (seg <= seg * gs) by nia.
  repeat (rewrite wrap_small by (unfold in_width; lia)). split_and!; try done; lia.
Qed.

(** What the scan sees of a segment: its metadata, header and footer. *)
Lemma validate_ext (dev1 dev2 : device) j : (j < rs_seg_nr env)%nat ->
  dev_read dev2 ((Z.of_nat j * seg + net) * gs) 53 = dev_read dev1 ((Z.of_nat j * seg + net) * gs) 53 ->
  forall ty, validate_seg_md_at (rs_crc32 env) (rs_preadv_md env j) (Z.of_nat j * seg + net) ty dev2 m1 =
             validate_seg_md_at (rs_crc32 env) (rs_preadv_md env j) (Z.of_nat j * seg + net) ty dev1 m1.
Proof.
  intros Hj Heq ty. destruct (seg_small j Hj) as (_ & _ & _ & E4 & _). destruct (ge_same Hge) as (_ & Hgm & _).
  unfold validate_seg_md_at, read_seg_md. rewrite Hgm, (ge_gsm Hge), E4.
  change sizeof_seg_md with 53%nat. by rewrite Heq.
Qed.

Lemma scan_one_ext (dev1 dev2 : device) j :
  (j < rs_seg_nr env)%nat ->
  (forall a l, (l <= 512)%nat -> Z.of_nat j * seg * gs <= a <= Z.of_nat j * seg * gs + seg * gs ->
     dev_read dev2 a l = dev_read dev1 a l) ->
  restore_scan env m1 dev2 [j] = restore_scan env m1 dev1 [j].
Proof.
  intros Hj Heq. destruct (seg_small j Hj) as (E1 & E2 & E3 & E4 & E5 & H0).
  pose proof net_pos. pose proof (ge_gs Hge). pose proof table_size_pos. unfold table_size in *.
  assert (net * gs <= seg * gs) by nia.
  cbn [restore_scan]. rewrite (proj2 rs_net_spec), E1, E2, E3, E4. change sizeof_dirmap_ftr with 512. rewrite E5.
  rewrite (validate_ext dev1 dev2 j Hj) by (apply Heq; lia).
  rewrite (Heq (Z.of_nat j * seg * gs)) by lia. rewrite (Heq ((Z.of_nat j * seg + net) * gs - 512)) by lia. done.
Qed.

Lemma hdr_of_bytes h rest :
  in_width 16 (hdr_dir_size h) -> in_width 16 (hdr_idx h) -> in_width 32 (hdr_csum h) -> in_width 64 (hdr_ts h) ->
  hdr_of (hdr_bytes h ++ rest) = h.
Proof.
  intros H1 H2 H3 H4. unfold hdr_of, hdr_bytes.
  rewrite (unpack_pack [(2%nat, hdr_dir_size h); (2%nat, hdr_idx h); (4%nat, hdr_csum h); (8%nat, hdr_ts h)]).
  - by destruct h.
  - repeat (apply List.Forall_cons; [done|]). apply List.Forall_nil.
Qed.

Lemma ftr_of_bytes f rest :
  in_width 16 (ftr_dir_size f) -> in_width 16 (ftr_idx f) -> in_width 32 (ftr_csum f) -> in_width 64 (ftr_ts f) ->
  in_width 64 (ftr_used_bytes_kv f) -> in_width 64 (ftr_tot_bytes_kv f) ->
  ftr_of (ftr_bytes f ++ rest) = f.
Proof.
  intros H1 H2 H3 H4 H5 H6. unfold ftr_of, ftr_bytes.
  rewrite (unpack_pack [(2%nat, ftr_dir_size f); (2%nat, ftr_idx f); (4%nat, ftr_csum f); (8%nat, ftr_ts f);
    (8%nat, ftr_used_bytes_kv f); (8%nat, ftr_tot_bytes_kv f)]).
  - by destruct f.
  - repeat (apply List.Forall_cons; [done|]). apply List.Forall_nil.
Qed.

Lemma dir_csum_same ts x y : dir_csum env m1 ts x y = dir_csum env m ts x y.
Proof. destruct (ge_same Hge) as (Hs & _). unfold dir_csum, checksum32. by rewrite Hs. Qed.

Lemma dir_csum_width m0 ts x y : in_width 32 (dir_csum env m0 ts x y).
Proof. by apply wrap_range. Qed.

(** What the scan makes of table [i]. *)
Definition the_rmd (i : nat) : restore_md :=
  mkRmd (Z.of_nat (sg i) * seg) (the_hdr i (hts i)) (shutdown_ftr env m n i tot used).

Lemma scan_table_seg i : (i < n)%nat -> restore_scan env m1 dev' [sg i] = (0, [the_rmd i]).
Proof.
  intros Hi. destruct (lookup_lt_is_Some_2 (directory d) i Hi) as [e He].
  destruct (proj1 (dl_segs Hl) i e He) as [Hin Hlt]. pose proof Hin as (_ & Hg & _).
  destruct (seg_small (sg i) Hlt) as (E1 & E2 & E3 & E4 & E5 & H0).
  pose proof net_pos. pose proof (ge_gs Hge). pose proof table_size_pos as Hts0. unfold table_size in Hts0.
  assert (net * gs <= seg * gs) by nia. destruct (dl_size Hl) as [Hn0 Hn].
  assert (forall a l, clear e a l -> Z.of_nat (sg i) * seg * gs <= a <= Z.of_nat (sg i) * seg * gs + seg * gs ->
            (l <= 512)%nat -> dev_read dev' a l = dev_read dev a l) as Hsame.
  { intros a l Hc Ha Hl'. apply (sy_other _ _ _ _ _ _ _ Hsy). intros e' [j Hj]%list_elem_of_lookup.
    destruct (decide (j = i)) as [->|Hne]; [congruence|].
    apply (clear_other (sg i) e' j); try done; try lia.
    intros Heq. apply Hne, (proj2 (dl_segs Hl)); [by eapply lookup_lt_Some|done|done]. }
  cbn [restore_scan]. rewrite (proj2 rs_net_spec), E1, E2, E3, E4. change sizeof_dirmap_ftr with 512. rewrite E5.
  rewrite (validate_ext dev dev' (sg i) Hlt), (dl_md Hl i Hi).
  2:{ apply Hsame; [right; rewrite Hg; lia|lia|lia]. }
  rewrite (an_hdr Han), (an_ftr Han). cbn [negb Z.eqb Pos.eqb]. change (negb (512 =? sizeof_dirmap_hdr)) with false. cbn [negb orb].
  destruct (dl_hdr Hl i Hi) as [Hhts Hhdr].
  assert (hdr_of (dev_read dev' (Z.of_nat (sg i) * seg * gs) 512) = the_hdr i (hts i)) as ->.
  { change 512%nat with (16 + 496)%nat. rewrite dev_read_app, (Hsame _ 16%nat), Hhdr by (lia || (left; rewrite Hg; lia)).
    apply hdr_of_bytes; cbn [the_hdr hdr_dir_size hdr_idx hdr_csum hdr_ts];
      [unfold in_width; lia|unfold in_width; lia|apply dir_csum_width|done]. }
  assert (ftr_of (dev_read dev' ((Z.of_nat (sg i) * seg + net) * gs - 512) 512) = shutdown_ftr env m n i tot used) as ->.
  { change 512%nat with (32 + 480)%nat. rewrite dev_read_app.
    destruct (sy_table _ _ _ _ _ _ _ Hsy i e He) as [_ Hft]. rewrite Hg in Hft.
    replace ((Z.of_nat (sg i) * seg + net) * gs - 512) with (Z.of_nat (sg i) * seg * gs + (net * gs - 512)) by lia.
    rewrite Hft. apply ftr_of_bytes; unfold shutdown_ftr;
      cbn [ftr_dir_size ftr_idx ftr_csum ftr_ts ftr_used_bytes_kv ftr_tot_bytes_kv];
      [by apply wrap_range|by apply wrap_range|apply dir_csum_width|apply Hts| |];
      destruct (_ =? _)%nat; done. }
  unfold shutdown_ftr. cbn [the_hdr hdr_dir_size hdr_idx hdr_csum hdr_ts ftr_dir_size ftr_idx ftr_csum ftr_ts].
  rewrite !dir_csum_same, !Z.eqb_refl. done.
Qed.

Lemma scan_stale_seg j : (j < rs_seg_nr env)%nat -> (forall i, (i < n)%nat -> sg i <> j) ->
  exists l, restore_scan env m1 dev' [j] = (0, l) /\ Forall (fun r => rmd_key r < Z.of_nat n - 1) l.
Proof.
  intros Hj Hno. destruct (dl_stale Hl j Hj Hno) as (l & Hs & HF). exists l. split; [|done].
  rewrite <- Hs. apply scan_one_ext; [done|]. intros a l' Hl' Ha. apply (sy_other _ _ _ _ _ _ _ Hsy).
  intros e [i Hi]%list_elem_of_lookup. apply (clear_other j e i); try done; try lia.
  apply Hno. by eapply lookup_lt_Some.
Qed.

Lemma scan_cons i segs l1 (dv : device) :
  restore_scan env m1 dv [i] = (0, l1) ->
  restore_scan env m1 dv (i :: segs) = let '(rc, l) := restore_scan env m1 dv segs in (rc, l1 ++ l).
Proof.
  cbn [restore_scan]. destruct (negb (validate_seg_md_at _ _ _ _ _ _)).
  { intros [= <-]. by destruct (restore_scan env m1 dv segs). }
  destruct (negb (rs_pread_hdr env i =? _)); [done|]. destruct (negb (rs_pread_ftr env i =? _)); [done|].
  destruct (_ || _); intros [= <-]; by destruct (restore_scan env m1 dv segs).
Qed.

Lemma key_the_rmd i : rmd_key (the_rmd i) = Z.of_nat n - 1.
Proof.
  destruct (dl_size Hl). unfold rmd_key. cbn [the_rmd rmd_hdr the_hdr hdr_dir_size].
  rewrite wrap_small; [done|]. unfold in_width. lia.
Qed.

Local Abbreviation newest := (filter (fun r => rmd_key r = Z.of_nat n - 1)).

(** The scan of a list of segments finds the tables that lie in them. *)
Record found (segs : list nat) (l : list restore_md) : Prop := {
  fd_only : forall r, r ∈ l -> (exists i, (i < n)%nat /\ sg i ∈ segs /\ r = the_rmd i) \/ rmd_key r < Z.of_nat n - 1;
  fd_all : forall i, (i < n)%nat -> sg i ∈ segs -> the_rmd i ∈ l;
  fd_nodup : NoDup (newest l)
}.

Lemma the_rmd_inj i j : the_rmd i = the_rmd j -> i = j.
Proof. intros Heq. apply (f_equal (fun r => hdr_idx (rmd_hdr r))) in Heq. simpl in Heq. lia. Qed.

Lemma scan_all segs :
  NoDup segs -> (forall j, j ∈ segs -> (j < rs_seg_nr env)%nat) ->
  exists l, restore_scan env m1 dev' segs = (0, l) /\ found segs l.
Proof.
  induction segs as [|j segs IH]; intros Hnd Hlt.
  { exists []. split; [done|]. split; [by intros r Hr%elem_of_nil|by intros i _ Hi%elem_of_nil|constructor]. }
  pose proof (NoDup_cons_1_1 _ _ Hnd) as Hj. apply NoDup_cons_1_2 in Hnd.
  destruct (IH Hnd) as (l & Hrun & [Ho Ha Hu]); [intros; apply Hlt; by right|].
  assert (forall l1, restore_scan env m1 dev' [j] = (0, l1) -> restore_scan env m1 dev' (j :: segs) = (0, l1 ++ l)) as Hc
    by (intros l1 H1; by rewrite (scan_cons _ _ _ _ H1), Hrun).
  destruct (decide (j ∈ sg <$> seq 0 n)) as [Hin|Hout].
  - apply list_elem_of_fmap in Hin as (i & -> & Hi%elem_of_seq).
    exists ([the_rmd i] ++ l). split; [apply Hc, scan_table_seg; lia|]. split.
    + intros r [->%list_elem_of_singleton|Hr]%elem_of_app.
      * left. exists i. split; [lia|]. split; [by left|done].
      * destruct (Ho r Hr) as [(i' & ? & ? & ?)|]; [|by right]. left. exists i'. split; [done|]. split; [by right|done].
    + intros i' Hi' [Heq|Hin]%elem_of_cons; [|right; by apply Ha].
      apply (proj2 (dl_segs Hl)) in Heq as ->; [by left|done|lia].
    + rewrite list.filter_app, filter_cons, decide_True by apply key_the_rmd. rewrite filter_nil. simpl.
      constructor; [|done]. intros [_ Hr]%list_elem_of_filter.
      destruct (Ho _ Hr) as [(i' & _ & Hs & <-%the_rmd_inj)|Hk]; [done|]. rewrite key_the_rmd in Hk. lia.
  - assert (forall i, (i < n)%nat -> sg i <> j) as Hno.
    { intros i Hi <-. apply Hout, list_elem_of_fmap. exists i. split; [done|]. apply elem_of_seq. lia. }
    destruct (scan_stale_seg j (Hlt j ltac:(by left)) Hno) as (l1 & H1 & HF).
    exists (l1 ++ l). split; [by apply Hc|]. rewrite Forall_forall in HF. split.
    + intros r [Hr|Hr]%elem_of_app; [right; apply HF; by apply list_elem_of_In|].
      destruct (Ho r Hr) as [(i' & ? & ? & ?)|]; [|by right]. left. exists i'. split; [done|]. split; [by right|done].
    + intros i Hi [Heq|Hin]%elem_of_cons; [by destruct (Hno i)|]. apply elem_of_app. right. by apply Ha.
    + rewrite list.filter_app. replace (newest l1) with (@nil restore_md); [done|].
      destruct (newest l1) as [|r l'] eqn:Hf; [done|]. exfalso.
      assert (r ∈ newest l1) as [Hk Hr]%list_elem_of_filter by (rewrite Hf; by left).
      specialize (HF r (proj1 (list_elem_of_In _ _) Hr)). lia.
Qed.

(** The newest group is the directory's tables, in the order of their segments. *)
Lemma newest_group : exists all, restore_scan env m1 dev' (seq 0 (rs_seg_nr env)) = (0, all) /\
  last_group all ≡ₚ the_rmd <$> seq 0 n.
Proof.
  destruct (scan_all (seq 0 (rs_seg_nr env))) as (all & Hrun & [Ho Ha Hu]).
  { apply NoDup_seq. }
  { intros j Hj%elem_of_seq. lia. }
  exists all. split; [done|].
  assert (forall i, (i < n)%nat -> the_rmd i ∈ all) as Hall.
  { intros i Hi. apply Ha; [done|]. destruct (lookup_lt_is_Some_2 (directory d) i Hi) as [e He].
    apply elem_of_seq. destruct (proj1 (dl_segs Hl) i e He). lia. }
  destruct (dl_size Hl) as [Hn0 Hn].
  assert (foldr Z.max 0 (rmd_key <$> all) = Z.of_nat n - 1) as Hmax.
  { assert (forall l, (forall r, r ∈ l -> rmd_key r <= Z.of_nat n - 1) -> foldr Z.max 0 (rmd_key <$> l) <= Z.of_nat n - 1) as Hle.
    { induction l as [|r l IH]; intros Hr; [simpl; lia|]. rewrite fmap_cons. cbn [foldr]. pose proof (Hr r ltac:(by left)).
      specialize (IH ltac:(intros; apply Hr; by right)). lia. }
    assert (forall l r, r ∈ l -> rmd_key r <= foldr Z.max 0 (rmd_key <$> l)) as Hge'.
    { induction l as [|r' l IH]; intros r; [by intros ?%elem_of_nil|]. rewrite fmap_cons. cbn [foldr].
      intros [->|Hr]%elem_of_cons; [lia|].
      specialize (IH r Hr). lia. }
    pose proof (Hge' all _ (Hall 0%nat Hn0)) as H1. rewrite key_the_rmd in H1.
    pose proof (Hle all) as H2. apply Z.le_antisymm; [|done]. apply H2. intros r Hr.
    destruct (Ho r Hr) as [(i & _ & _ & ->)|]; [rewrite key_the_rmd|]; lia. }
  unfold last_group. rewrite Hmax. apply NoDup_Permutation; [done| |].
  - apply NoDup_fmap_2; [intros i j; apply the_rmd_inj|apply NoDup_seq].
  - intros r. rewrite list_elem_of_filter, list_elem_of_fmap. split.
    + intros [Hk Hr]. destruct (Ho r Hr) as [(i & Hi & _ & ->)|]; [|lia].
      exists i. split; [done|]. apply elem_of_seq. lia.
    + intros (i & -> & Hi%elem_of_seq). split; [apply key_the_rmd|]. apply Hall. lia.
Qed.

(** ** Mapping the tables *)

Context (k : Z) (Hdir : dir_inv k d) (Hbits : map_entry_nr_bits_m d = home_bits table_size).

(** Table [i] as it is mapped again. *)
Definition remapped (i : nat) (e' : DirMapEntry) : Prop :=
  mm_region e' = true /\ grain_offset e' = Z.of_nat (sg i) * seg /\
  exists o, directory d !! i = Some o /\ uncounted (dme_map o) (dme_map e').

Lemma table_words i o : directory d !! i = Some o ->
  region_words dev' (Z.of_nat (sg i) * seg * gs + 512) (Z.to_nat (table_size / 8)) = ht_m (dme_map o).
Proof.
  intros Ho. destruct (proj1 (dl_segs Hl) i o Ho) as [(_ & Hg & Hlen & Hwf) _].
  replace (Z.to_nat (table_size / 8)) with (length (ht_m (dme_map o))) by lia.
  apply region_words_read; [done|]. destruct (sy_table _ _ _ _ _ _ _ Hsy i o Ho) as [Hrd _].
  rewrite Hg, table_bytes_length in Hrd. exact Hrd.
Qed.

Lemma table_remapped i o lock_nr : directory d !! i = Some o -> 1 <= lock_nr <= HOP_SCOTCH_LOCK_NR ->
  exists mp, restore uDepotMap_new lock_nr table_size (Some (ht_m (dme_map o))) = Some (0, mp) /\
    uncounted (dme_map o) mp.
Proof.
  intros Ho Hlk. pose proof table_size_pos. pose proof net_pos. pose proof (ge_gs Hge). pose proof (ge_seg Hge).
  destruct (restore_result uDepotMap_new lock_nr table_size (ht_m (dme_map o))) as (locks & per & -> & _).
  { unfold table_size in *. nia. }
  { done. }
  { apply (ge_room Hge). }
  eexists. split; [done|]. destruct Hdir as [Hwf Hinv]. pose proof (inv_wf _ (Hinv i o Ho)) as Hm.
  destruct (dw_tables _ _ Hwf i o Ho) as (_ & Hb & _). simpl in Hb. rewrite Hbits in Hb.
  split; [|done]. split; simpl; [done|done|]. by rewrite (wf_entry_nr _ Hm), Hb.
Qed.

Lemma restore_tables_spec lock_nr j group dmes :
  1 <= lock_nr <= HOP_SCOTCH_LOCK_NR -> NoDup group -> length dmes = n ->
  (forall r, r ∈ group -> exists i, (i < n)%nat /\ r = the_rmd i /\ dmes !! i = Some DirMapEntry_new) ->
  exists dmes' ranges, restore_tables env m1 dev' lock_nr j group dmes = Some (0, dmes', ranges) /\
    length dmes' = n /\
    (forall i, the_rmd i ∈ group -> exists e', dmes' !! i = Some e' /\ remapped i e') /\
    (forall i, the_rmd i ∉ group -> dmes' !! i = dmes !! i) /\
    ranges = (fun r => (rmd_grain r, net, rs_dir_ctlr env)) <$> group.
Proof.
  intros Hlk. revert j dmes. induction group as [|r group IH]; intros j dmes Hnd Hlen Hg.
  { exists dmes, []. split; [done|]. split; [done|]. split; [by intros i ?%elem_of_nil|done]. }
  destruct (Hg r ltac:(by left)) as (i & Hi & -> & Hnew).
  pose proof (NoDup_cons_1_1 _ _ Hnd) as Hni. apply NoDup_cons_1_2 in Hnd.
  cbn [restore_tables]. replace (Z.to_nat (hdr_idx (rmd_hdr (the_rmd i)))) with i by (simpl; lia).
  rewrite Hnew. cbn [mbind option_bind]. rewrite (an_mmap Han). rewrite andb_false_r.
  destruct (lookup_lt_is_Some_2 (directory d) i Hi) as [o Ho].
  pose proof net_pos. pose proof (ge_gs Hge). pose proof (ge_seg Hge). pose proof table_size_pos as Htp.
  assert (u64 (net * gs) = net * gs) as Hmm by (apply wrap_small; unfold in_width; nia).
  rewrite (proj2 rs_net_spec), Hmm. change (u32 (sizeof_dirmap_hdr + sizeof_dirmap_ftr)) with 1024. fold table_size.
  rewrite (wrap_small 64 table_size) by (unfold in_width, table_size in *; nia).
  change (rmd_grain (the_rmd i)) with (Z.of_nat (sg i) * seg). change sizeof_dirmap_hdr with 512.
  rewrite (table_words i o Ho). destruct (table_remapped i o lock_nr Ho Hlk) as (mp & Hr & Hu).
  change (dme_map DirMapEntry_new) with uDepotMap_new. rewrite Hr. cbn [mbind option_bind negb Z.eqb].
  set (e' := mkDme mp true _ _ _).
  destruct (IH (S j) (<[i := e']> dmes)) as (dmes' & ranges & -> & Hl' & Hin & Hout & Hrg); [done|by rewrite length_insert| |].
  { intros r Hr'. destruct (Hg r ltac:(by right)) as (i' & Hi' & -> & Hnew'). exists i'. split; [done|]. split; [done|].
    rewrite list_lookup_insert_ne; [done|]. by intros <-. }
  eexists dmes', _. cbn [mbind option_bind]. split; [reflexivity|]. split; [done|]. split; [|split; [|by rewrite Hrg]].
  - intros i' [->%the_rmd_inj|Hi']%elem_of_cons; [|by apply Hin].
    exists e'. rewrite Hout by done. rewrite list_lookup_insert_eq by lia. split; [done|]. split; [done|]. split; [done|]. by exists o.
  - intros i' Hi'. apply not_elem_of_cons in Hi' as [Hne Hi']. rewrite Hout by done.
    rewrite list_lookup_insert_ne; [done|]. by intros ->.
Qed.

(** ** Timestamps and statistics *)

(** The timestamp of a segment of the store, as its metadata has it. *)
Definition stamp_of (dv : device) (j : nat) : option Z :=
  seg_md ← read_seg_md (rs_preadv_md env j) (Z.of_nat j * seg + net) dv m;
  if validate_seg_md (rs_crc32 env) seg_md KV m then Some (sm_timestamp seg_md) else None.

Lemma same_md_trans a b c : same_md a b -> same_md b c -> same_md a c.
Proof. intros (? & ? & ? & ? & ?) (? & ? & ? & ? & ?). split_and!; congruence. Qed.

Lemma restore_stamps_spec dv segs mx max :
  NoDup segs -> (forall j, j ∈ segs -> (j < rs_seg_nr env)%nat) -> same_md m mx ->
  length (seg_ts_m mx) = rs_seg_nr env ->
  exists mx' max', restore_stamps env dv segs mx max = Some (mx', max') /\ same_md m mx' /\
    (forall j ts, j ∈ segs -> stamp_of dv j = Some ts -> get_seg_ts j mx' = Some ts) /\
    (forall j, j ∉ segs -> get_seg_ts j mx' = get_seg_ts j mx).
Proof.
  revert mx max. induction segs as [|j segs IH]; intros mx max Hnd Hlt Hs Hlen.
  { exists mx, max. split; [done|]. split; [done|]. split; [by intros j ts ?%elem_of_nil|done]. }
  pose proof (NoDup_cons_1_1 _ _ Hnd) as Hnj. apply NoDup_cons_1_2 in Hnd.
  pose proof (Hlt j ltac:(by left)) as Hj. destruct (seg_small j Hj) as (E1 & _ & E3 & _).
  pose proof Hs as (_ & Hg & Hd & _).
  assert (forall x, read_seg_md (rs_preadv_md env j) x dv mx = read_seg_md (rs_preadv_md env j) x dv m) as Hrd
    by (intros x; unfold read_seg_md, pad_b; by rewrite Hg).
  assert (forall md, validate_seg_md (rs_crc32 env) md KV mx = validate_seg_md (rs_crc32 env) md KV m) as Hval
    by (intros md; unfold validate_seg_md; by rewrite Hd).
  assert (rs_net_size env mx = net) as Hnet.
  { rewrite <- (proj1 rs_net_spec). unfold rs_net_size, get_seg_md_size. by rewrite Hg. }
  cbn [restore_stamps]. rewrite E1, Hnet, E3, Hrd.
  assert (forall mx1 max1, same_md m mx1 -> length (seg_ts_m mx1) = rs_seg_nr env ->
    (forall ts, stamp_of dv j = Some ts -> get_seg_ts j mx1 = Some ts) ->
    (forall i, i <> j -> get_seg_ts i mx1 = get_seg_ts i mx) ->
    exists mx' max', restore_stamps env dv segs mx1 max1 = Some (mx', max') /\ same_md m mx' /\
      (forall i ts, i ∈ j :: segs -> stamp_of dv i = Some ts -> get_seg_ts i mx' = Some ts) /\
      (forall i, i ∉ j :: segs -> get_seg_ts i mx' = get_seg_ts i mx)) as Hnext.
  { intros mx1 max1 Hs1 Hl1 Hj1 Ho1. destruct (IH mx1 max1 Hnd) as (mx' & max' & -> & Hs' & Hin & Hout); [|done|done|].
    { intros i Hi. apply Hlt. by right. }
    exists mx', max'. split; [done|]. split; [done|]. split.
    - intros i ts [->|Hi]%elem_of_cons Hst; [rewrite Hout by done; by apply Hj1|by apply Hin].
    - intros i [Hne Hi]%not_elem_of_cons. rewrite Hout by done. by apply Ho1. }
  unfold stamp_of in Hnext at 1.
  destruct (read_seg_md (rs_preadv_md env j) (Z.of_nat j * seg + net) dv m) as [md|] eqn:Hmd; [|by apply Hnext].
  cbn [mbind option_bind] in Hnext. rewrite Hval. destruct (validate_seg_md (rs_crc32 env) md KV m) eqn:Hv; cbn [negb].
  2:{ by apply Hnext. }
  rewrite Z.div_mul, Nat2Z.id by (pose proof (ge_seg Hge); lia). unfold restore_seg_ts.
  rewrite (proj2 (Nat.ltb_lt j _)) by lia. cbn [mbind option_bind]. apply Hnext.
  - destruct Hs as (? & ? & ? & ? & ?). split_and!; try done. cbn [seg_ts_m]. rewrite length_insert. congruence.
  - cbn [seg_ts_m]. by rewrite length_insert.
  - intros ts [= <-]. unfold get_seg_ts. cbn [seg_ts_m]. apply list_lookup_insert_eq. lia.
  - intros i Hi. unfold get_seg_ts. cbn [seg_ts_m]. by apply list_lookup_insert_ne.
Qed.

Lemma foldl_pick {A B} (P : A -> bool) (f : A -> B) (x b : B) (l : list A) :
  (forall a, a ∈ l -> P a = true -> f a = x) -> (b = x \/ exists a, a ∈ l /\ P a = true) ->
  foldl (fun b a => if P a then f a else b) b l = x.
Proof.
  revert b. induction l as [|a l IH]; intros b Hx Hb.
  { destruct Hb as [->|(a & Ha & _)]; [done|by apply elem_of_nil in Ha]. }
  simpl. apply IH; [intros; apply Hx; [by right|done]|]. destruct (P a) eqn:Hp; [left; apply Hx; [by left|done]|].
  destruct Hb as [|(a' & [->|Ha']%elem_of_cons & Hp')]; [by left|congruence|right; by exists a'].
Qed.

Lemma restored_bytes group : group ≡ₚ the_rmd <$> seq 0 n ->
  foldl (fun b r => if ftr_idx (rmd_ftr r) =? Z.of_nat n - 1
                    then (ftr_used_bytes_kv (rmd_ftr r), ftr_tot_bytes_kv (rmd_ftr r)) else b) (0, 0) group = (used, tot).
Proof.
  intros Hp. destruct (dl_size Hl) as [Hn0 Hn].
  apply (foldl_pick (fun r => ftr_idx (rmd_ftr r) =? Z.of_nat n - 1)
           (fun r => (ftr_used_bytes_kv (rmd_ftr r), ftr_tot_bytes_kv (rmd_ftr r)))).
  - intros r. rewrite Hp, list_elem_of_fmap. intros (i & -> & Hi%elem_of_seq). simpl.
    rewrite wrap_small by (unfold in_width; lia). intros He%Z.eqb_eq.
    by rewrite (proj2 (Nat.eqb_eq i (n - 1))) by lia.
  - right. exists (the_rmd (n - 1)). rewrite Hp, list_elem_of_fmap. split.
    + exists (n - 1)%nat. split; [done|]. apply elem_of_seq. lia.
    + cbn [the_rmd rmd_ftr shutdown_ftr ftr_idx]. rewrite wrap_small by (unfold in_width; lia). apply Z.eqb_eq. lia.
Qed.

(** ** The restored directory *)

Context (Hsz : forall i o, directory d !! i = Some o -> sizes_readable env (dme_map o)).

(** Table [i] is back, counted and where it was. *)
Definition table_back (i : nat) (o e' : DirMapEntry) : Prop :=
  same_table (dme_map o) (dme_map e') /\ map_inv (dme_map e') /\ mm_region e' = true /\
  grain_offset e' = grain_offset o.

Record dir_back (r : restored) : Prop := {
  db_tables : forall i o, directory d !! i = Some o ->
    exists e', directory (rs_dir r) !! i = Some e' /\ table_back i o e';
  db_length : length (directory (rs_dir r)) = n;
  db_nr : rs_key_nr r = u64 (Z.of_nat (length (dir_bag d)));
  db_bytes : rs_used_bytes r = used /\ rs_total_bytes r = tot;
  db_md : same_md m (rs_md r);
  db_ts : forall j ts, (j < rs_seg_nr env)%nat -> stamp_of dev' j = Some ts -> get_seg_ts j (rs_md r) = Some ts
}.

Lemma dir_restore_spec : exists r, dir_restore env m1 DirMap_new dev' = Some (0, r) /\ dir_back r.
Proof.
  destruct newest_group as (all & Hrun & Hgrp). destruct (dl_size Hl) as [Hn0 Hn].
  assert (length (last_group all) = n) as Hlen by (by rewrite Hgrp, length_fmap, length_seq).
  assert (forall i, (i < n)%nat -> the_rmd i ∈ last_group all) as Hall.
  { intros i Hi. rewrite Hgrp. apply list_elem_of_fmap. exists i. split; [done|]. apply elem_of_seq. lia. }
  unfold dir_restore. rewrite Hrun, Hlen. cbn [negb Z.eqb].
  rewrite (proj2 (Nat.eqb_neq n 0)) by lia.
  set (lock_nr := u32 (Z.max 1 _)).
  assert (1 <= lock_nr <= HOP_SCOTCH_LOCK_NR) as Hlk.
  { unfold lock_nr. change HOP_SCOTCH_LOCK_NR with 8192.
    assert (8192 / Z.of_nat n <= 8192) by (apply Z.div_le_upper_bound; lia).
    rewrite (wrap_small 32) by (unfold in_width; lia). lia. }
  destruct (restore_tables_spec lock_nr 0 (last_group all) (replicate n DirMapEntry_new)) as
    (dmes & ranges & -> & Hl2 & Hin & _ & _); [done| |by rewrite length_replicate| |].
  { rewrite Hgrp. apply NoDup_fmap_2; [intros i j; apply the_rmd_inj|apply NoDup_seq]. }
  { intros r Hr. rewrite Hgrp in Hr. apply list_elem_of_fmap in Hr as (i & -> & Hi%elem_of_seq).
    exists i. split; [lia|]. split; [done|]. apply lookup_replicate. split; [done|lia]. }
  cbn [mbind option_bind negb Z.eqb].
  destruct (recount_all env dev' (directory d) dmes [] 0) as (dmes' & v' & -> & HF1 & HF2).
  { apply Forall2_same_length_lookup. split; [done|]. intros i o e Ho He.
    destruct (Hin i (Hall i ltac:(by eapply lookup_lt_Some))) as (e0 & He0 & _ & _ & o' & Ho' & Hu).
    simplify_eq. split; [by apply (proj2 Hdir i)|]. split; [by apply (Hsz i)|done]. }
  { by vm_compute. }
  cbn [negb Z.eqb]. rewrite (restored_bytes (last_group all) Hgrp). cbn [fst snd].
  destruct (restore_stamps_spec dev' (seq 0 (rs_seg_nr env)) m1 0) as (mx & max & -> & Hmx & Hts' & _).
  { apply NoDup_seq. }
  { intros j Hj%elem_of_seq. lia. }
  { apply (ge_same Hge). }
  { apply (ge_ts Hge). }
  cbn [mbind option_bind]. eexists. split; [reflexivity|]. split; cbn [rs_dir directory rs_key_nr rs_used_bytes rs_total_bytes rs_md].
  - intros i o Ho. destruct (Forall2_lookup_l _ _ _ _ _ HF1 Ho) as (e' & He' & Hs & Hi). exists e'. split; [done|].
    destruct (Forall2_lookup_r _ _ _ _ _ HF2 He') as (e & He & Heq).
    destruct (Hin i (Hall i ltac:(by eapply lookup_lt_Some))) as (e0 & He0 & Hm & Hg & _). simplify_eq.
    split; [done|]. split; [done|]. rewrite Heq. split; [done|].
    destruct (proj1 (dl_segs Hl) i o Ho) as [(_ & -> & _) _]. exact Hg.
  - symmetry. by apply (Forall2_length HF1).
  - done.
  - done.
  - done.
  - intros j ts Hj Hst. apply Hts'; [|done]. apply elem_of_seq. lia.
Qed.

(** The directory of the restarted store. *)
Definition dir_after (r : restored) (gnr : Z) : DirMap :=
  mkDirMap (directory (rs_dir r)) gnr (entry_nr_bits_m (map_at (rs_dir r) 0)).

Lemma dir_after_inv r gnr : dir_back r ->
  dir_inv k (dir_after r gnr) /\ dir_bag (dir_after r gnr) = dir_bag d /\
  map_entry_nr_bits_m (dir_after r gnr) = map_entry_nr_bits_m d.
Proof.
  intros [Ht Hlen _ _ _ _]. destruct Hdir as [Hwf Hinv]. destruct (dl_size Hl) as [Hn0 Hn].
  assert (forall i e', directory (rs_dir r) !! i = Some e' ->
    exists o, directory d !! i = Some o /\ table_back i o e') as Hback.
  { intros i e' He'. destruct (lookup_lt_is_Some_2 (directory d) i) as [o Ho].
    { rewrite <- Hlen. by eapply lookup_lt_Some. }
    destruct (Ht i o Ho) as (e0 & He0 & Hb). simplify_eq. by exists o. }
  assert (map_entry_nr_bits_m (dir_after r gnr) = map_entry_nr_bits_m d) as Hbits'.
  { cbn [dir_after map_entry_nr_bits_m]. unfold map_at.
    destruct (lookup_lt_is_Some_2 (directory d) 0 Hn0) as [o Ho]. destruct (Ht 0%nat o Ho) as (e' & He' & Hs & _).
    rewrite He'. simpl. rewrite (st_bits _ _ Hs). destruct (dw_tables _ _ Hwf _ _ Ho) as (_ & Hb & _). exact Hb. }
  split; [split; [split|]|split; [|done]].
  - unfold dir_size. cbn [dir_after directory]. rewrite Hlen. apply (dw_size _ _ Hwf).
  - rewrite Hbits'. apply (dw_bits _ _ Hwf).
  - rewrite Hbits'. apply (dw_k _ _ Hwf).
  - intros i e' He'. rewrite Hbits'. destruct (Hback i e' He') as (o & Ho & Hs & Hi & _).
    destruct (dw_tables _ _ Hwf i o Ho) as (_ & Hb & Ha & _ & Hx).
    split; [apply (inv_wf _ Hi)|]. split; [etrans; [exact (st_bits _ _ Hs)|exact Hb]|].
    split; [by apply (same_aligned (dme_map o))|]. split; [done|]. intros q x Hq. apply (Hx q x).
    rewrite <- Hq. symmetry. by apply same_used_at.
  - intros i e' He'. destruct (Hback i e' He') as (o & _ & _ & Hi & _). exact Hi.
  - unfold dir_bag. cbn [dir_after directory]. f_equal. apply list_eq. intros i. rewrite !list_lookup_fmap.
    destruct (directory d !! i) as [o|] eqn:Ho.
    + destruct (Ht i o Ho) as (e' & -> & Hs & _). simpl. f_equal. by apply same_entries.
    + rewrite lookup_ge_None_2; [done|]. rewrite Hlen. by apply lookup_ge_None_1.
Qed.

Lemma invalidate_spec i0 dmes (dv : device) : Forall (fun e => mm_region e = true) dmes ->
  exists dv', invalidate_from env m i0 dmes dv = (0, dv') /\
    forall a l, (forall e, e ∈ dmes -> clear e a l) -> dev_read dv' a l = dev_read dv a l.
Proof.
  revert i0 dv. induction dmes as [|e dmes IH]; intros i0 dv Hm; [by exists dv|].
  apply Forall_cons_iff in Hm as [He Hm]. cbn [invalidate_from]. rewrite He, (an_msync Han). cbn [negb Z.eqb].
  destruct (IH (S i0) (dev_write dv (ftr_offset env m e) (replicate 512 0)) Hm) as (dv' & -> & Hr).
  exists dv'. split; [done|]. intros a l Ha. rewrite Hr by (intros e' He'; apply Ha; by right).
  apply dev_read_write_other. rewrite length_replicate. unfold ftr_offset. rewrite (proj1 rs_net_spec).
  change sizeof_dirmap_ftr with 512. pose proof table_size_pos. unfold table_size in *.
  destruct (Ha e ltac:(by left)); lia.
Qed.

End Layout.

(** ** The restarted store *)

(** The store over what [dir_init_restored] leaves. *)
Definition kv_restarted (r : restored) (dev : device) : kv :=
  mkKv (rs_dir r) dev (fun i => default 0 (get_seg_ts (Z.to_nat i) (rs_md r)))
    (rs_key_nr r) (rs_used_bytes r) (rs_total_bytes r) [] 0.

Section Store.
Context (kenv : kv_env) (Hq : quiet kenv) (env : rs_env) (m m1 : MD).

Local Abbreviation seg := (rs_seg_size env).
Local Abbreviation gs := (rs_grain_size env).

(** A store about to shut down, with its directory on the device. *)
Record ready (k : Z) (s : kv) (recs : list krec) (sg : nat -> nat) (hts : nat -> Z) : Prop := {
  rd_inv : store_inv kenv k s recs;
  rd_gs : e_grain_size kenv = gs;
  rd_geometry : geometry env m m1;
  rd_layout : dir_layout env m m1 (kv_map s) sg hts (kv_dev s);
  rd_bits : map_entry_nr_bits_m (kv_map s) = home_bits (table_size env m);
  rd_apart : forall r i, r ∈ recs -> (i < length (directory (kv_map s)))%nat ->
    r_grain r + r_grains kenv r <= Z.of_nat (sg i) * seg \/ Z.of_nat (sg i) * seg + seg <= r_grain r
}.

Lemma apart_clear r e (z : nat) :
  fits kenv (klen r) (vlen r) -> e_grain_size kenv = gs -> geometry env m m1 ->
  grain_offset e = Z.of_nat z * seg ->
  r_grain r + r_grains kenv r <= Z.of_nat z * seg \/ Z.of_nat z * seg + seg <= r_grain r ->
  clear env m e (r_grain r * e_grain_size kenv) (length (r_bytes r)).
Proof.
  intros Hf Hgs Hge He Hap. destruct (grains_spec kenv Hq _ _ Hf) as [_ [Hlo _]].
  pose proof (net_pos _ _ _ Hge) as [_ Hnet]. pose proof (ge_gs _ _ _ Hge). unfold clear.
  rewrite r_bytes_length, He, Hgs in *. fold (r_grains kenv r) in Hlo. destruct Hap as [Hap|Hap].
  - left. apply (Z.mul_le_mono_nonneg_r _ _ gs) in Hap; lia.
  - right. apply (Z.mul_le_mono_nonneg_r _ _ gs) in Hap; [|lia].
    apply (Z.mul_le_mono_nonneg_r _ _ gs) in Hnet; lia.
Qed.

Lemma invalidate_md i0 dmes dv mx : same_md m mx -> invalidate_from env mx i0 dmes dv = invalidate_from env m i0 dmes dv.
Proof.
  intros (_ & Hg & _). revert i0 dv. induction dmes as [|e dmes IH]; intros i0 dv; [done|]. cbn [invalidate_from].
  unfold ftr_offset, rs_net_size, get_seg_md_size. rewrite Hg. by rewrite !IH.
Qed.

(** The invariant depends on the entries, the statistics and the records' bytes. *)
Lemma store_inv_carry k s s' recs :
  store_inv kenv k s recs -> dir_inv k (kv_map s') -> dir_bag (kv_map s') = dir_bag (kv_map s) ->
  map_entry_nr_bits_m (kv_map s') = map_entry_nr_bits_m (kv_map s) ->
  (forall r, r ∈ recs -> dev_read (kv_dev s') (r_grain r * e_grain_size kenv) (length (r_bytes r)) =
                         dev_read (kv_dev s) (r_grain r * e_grain_size kenv) (length (r_bytes r))) ->
  kv_key_nr s' = kv_key_nr s -> kv_used_bytes s' = kv_used_bytes s -> kv_total_bytes s' = kv_total_bytes s ->
  store_inv kenv k s' recs.
Proof.
  intros [H1 H2 H3 H4 H5 H6 H7 H8] Hd Hb Hbits Hdev Hn Hu Ht. split; try done; try congruence.
  - rewrite Hb, H2. unfold r_triple, dir_fp. by rewrite Hbits.
  - intros r Hr. destruct (H3 r Hr) as [? Hst ? ? ?]. split; try done. by rewrite Hdev.
Qed.

(** The tables that are back lie where the old ones did. *)
Lemma back_regions d sg hts dev dev' tot used r :
  geometry env m m1 -> dir_layout env m m1 d sg hts dev -> dir_back env m d tot used dev' r ->
  Forall (fun e => mm_region e = true) (directory (rs_dir r)) /\
  forall e', e' ∈ directory (rs_dir r) -> exists i, (i < length (directory d))%nat /\ grain_offset e' = Z.of_nat (sg i) * seg.
Proof.
  intros Hge Hl [Ht Hlen _ _ _ _].
  assert (forall e', e' ∈ directory (rs_dir r) ->
    mm_region e' = true /\ exists i, (i < length (directory d))%nat /\ grain_offset e' = Z.of_nat (sg i) * seg) as H.
  { intros e' (i & He')%list_elem_of_lookup. assert (i < length (directory d))%nat as Hi
      by (rewrite <- Hlen; by eapply lookup_lt_Some).
    destruct (lookup_lt_is_Some_2 _ _ Hi) as [o Ho]. destruct (Ht i o Ho) as (e0 & He0 & _ & _ & Hm & Hg). simplify_eq.
    split; [done|]. exists i. split; [done|]. rewrite Hg.
    by destruct (proj1 (dl_segs _ _ _ _ _ _ _ Hl) i o Ho) as [(_ & Hgo & _) _]. }
  split; [|intros e' He'; by apply H]. apply List.Forall_forall. intros e' He'%list_elem_of_In. by apply H.
Qed.

Lemma restart_store k s recs sg hts :
  ready k s recs sg hts -> answers env -> (forall i, in_width 64 (rs_timestamp env i)) ->
  (forall g, rs_pread_rec env g = Z.of_nat sizeof_store) ->
  exists dev' r dev'',
    dir_shutdown env m (kv_total_bytes s) (kv_used_bytes s) (kv_map s) (kv_dev s) = Some dev' /\
    dir_init_restored env m1 dev' = Some (0, r, dev'') /\
    store_inv kenv k (kv_restarted r dev'') recs /\
    (forall j ts, (j < rs_seg_nr env)%nat -> stamp_of env m dev' j = Some ts -> get_seg_ts j (rs_md r) = Some ts).
Proof.
  intros [Hinv Hgs Hge Hl Hbits Hap] Han Hts Hrec. pose proof (si_dir _ _ _ _ Hinv) as Hdir.
  assert (in_width 64 (kv_total_bytes s)) as Htot by (rewrite (si_total _ _ _ _ Hinv); by apply wrap_range).
  assert (in_width 64 (kv_used_bytes s)) as Hused by (rewrite (si_used _ _ _ _ Hinv); by apply wrap_range).
  pose proof (dl_segs _ _ _ _ _ _ _ Hl) as Hsegs.
  destruct (shutdown_synced env m m1 Hge (length (directory (kv_map s))) 0 (kv_total_bytes s) (kv_used_bytes s)
    (directory (kv_map s)) sg (kv_dev s) Hsegs) as (dev' & Hsd & Hsy).
  destruct (dir_restore_spec env m m1 Hge (kv_map s) sg hts (kv_dev s) Hl Han _ _ Htot Hused Hts dev' Hsy k Hdir Hbits)
    as (r & Hrun & Hback); [intros i o _ p _ _; apply Hrec|].
  destruct (back_regions _ _ _ _ _ _ _ _ Hge Hl Hback) as [Hmm Hat].
  destruct (invalidate_spec env m m1 Hge Han 0 (directory (rs_dir r)) dev' Hmm) as (dev'' & Hinvd & Hsame).
  pose proof (dir_after_inv env m m1 (kv_map s) sg hts (kv_dev s) Hl _ _ dev' k Hdir r (grow_nr_m (rs_dir r)) Hback)
    as (Hdir' & Hbag & Hb').
  destruct Hback as [_ _ Hnr [Hu Ht] Hmd Hst].
  eexists dev', _, dev''. split; [done|]. split; [|split].
  - unfold dir_init_restored. rewrite Hrun. cbn [mbind option_bind negb Z.eqb]. unfold invalidate_ftr.
    rewrite invalidate_md by done. rewrite Hinvd. cbn [Z.eqb]. reflexivity.
  - apply (store_inv_carry k s); try done.
    + intros x Hx. assert (forall e (z : nat), (z < length (directory (kv_map s)))%nat ->
        grain_offset e = Z.of_nat (sg z) * seg -> clear env m e (r_grain x * e_grain_size kenv) (length (r_bytes x))) as Hcl.
      { intros e z Hz He. apply (apart_clear x e (sg z)); try done; [|by apply Hap].
        apply (ro_fits _ _ _ (si_recs _ _ _ _ Hinv x Hx)). }
      cbn [kv_restarted kv_dev]. rewrite Hsame, (sy_other _ _ _ _ _ _ _ _ _ Hsy); [done|..].
      * intros e (i & He)%list_elem_of_lookup. apply (Hcl e i); [by eapply lookup_lt_Some|].
        by destruct (proj1 Hsegs i e He) as [(_ & Hgo & _) _].
      * intros e He. destruct (Hat e He) as (i & Hi & Hgo). by apply (Hcl e i).
    + cbn [kv_restarted kv_key_nr rs_key_nr]. rewrite Hnr, (si_nr _ _ _ _ Hinv), (Permutation_length (si_bag _ _ _ _ Hinv)).
      by rewrite length_fmap.
  - done.
Qed.
End Store.
