(* ===== verification/RestartTheorems.v ===== *)
(** * RestartTheorems: a restarted store holds what it held

    What a clean shutdown and a restart keep ([RestartSafe]), and what a restart
    from an incomplete directory loses. *)
From Stdlib Require Import ZArith Lia.
From stdpp Require Import base tactics list numbers.
From S2P Require Import Prelude Util HashEntry HopscotchMap HopscotchSpec HopscotchInit HopscotchRefine.
From S2P Require Import FpTable DirectoryMap DirectoryGrow DirectoryOps.
From S2P Require Import StoreFormat Metadata KvStore KvIo KvInv KvWrite KvRefine KvGcSafe Restart RestartSafe.

Open Scope Z_scope.

(** ** An example: two segments of 50 grains of 32 bytes *)

(** The directory is in the first segment, the store's record in the second. *)
Definition rs_ex_env : rs_env := mkRsEnv ex_crc32 50 32 2 1 0 (fun _ => 64) (fun _ => 512) (fun _ => 512)
  (fun _ => false) (fun _ => true) (fun _ => 14) (fun _ => 20) (fun _ => 0).

Definition rs_ex_fresh : MD := MD_new 32 7 false.
Definition rs_ex_md : MD := default rs_ex_fresh (init_md (default_dev_md 3264 32 50 rs_ex_fresh) rs_ex_fresh).

Definition rs_ex_stamp (grain ts : Z) (ty : uDepotSalsaType) (dev : device) : device :=
  match persist_seg_md ex_crc32 64 (replicate 11 0) grain ts ty dev rs_ex_md with
  | Some (_, dev', _) => dev'
  | None => dev
  end.

Definition rs_ex_hdr (n i : nat) : dirmap_hdr :=
  mkHdr (Z.of_nat n) (Z.of_nat i) (dir_csum rs_ex_env rs_ex_md 5 (Z.of_nat n) (Z.of_nat i)) 5.

Definition rs_ex_dev : device :=
  rs_ex_stamp 98 4 KV (rs_ex_stamp 48 3 Directory (dev_write gc_dev 0 (hdr_bytes (rs_ex_hdr 1 0)))).

Definition rs_ex_store : kv := mkKv (kv_map gc_store) rs_ex_dev (fun i => i + 1)
  (kv_key_nr gc_store) (kv_used_bytes gc_store) (kv_total_bytes gc_store) [] 0.

(** A directory of two tables, the second with an entry, in the two segments; the
    second time the read of the second segment's metadata fails. *)
Definition rs_ex_two : DirMap := mkDirMap
  [mkDme (map_at dir_small 0) true 0 1536 false; mkDme (map_at dir_one 0) true 50 1536 false] 2 5.

Definition rs_ex_two_dev : device :=
  rs_ex_stamp 98 4 Directory (rs_ex_stamp 48 3 Directory
    (dev_write (dev_write (fun _ => 0) 0 (hdr_bytes (rs_ex_hdr 2 0))) 1600 (hdr_bytes (rs_ex_hdr 2 1)))).

Definition rs_ex_failing : rs_env := mkRsEnv ex_crc32 50 32 2 1 0 (fun i => if (i =? 1)%nat then -1 else 64)
  (fun _ => 512) (fun _ => 512) (fun _ => false) (fun _ => true) (fun _ => 14) (fun _ => 20) (fun _ => 0).

(** The outcome of a restart: the code, the number of tables and of keys. *)
Definition rs_outcome (o : option (Z * restored * device)) : option (Z * nat * Z) :=
  (fun '(rc, r, _) => (rc, length (directory (rs_dir r)), rs_key_nr r)) <$> o.

(** ** Theorems *)

Lemma rs_ex_inv : store_inv gc_env 0 rs_ex_store [gc_live].
Proof.
  apply (store_inv_carry gc_env 0 gc_store); try reflexivity; [apply gc_store_inv|apply (si_dir _ _ _ _ gc_store_inv)|].
  intros r ->%list_elem_of_singleton. vm_compute; reflexivity.
Qed.

Lemma rs_ex_segments : segments_of rs_ex_env rs_ex_md (directory (kv_map rs_ex_store)) (fun _ => 0%nat).
Proof.
  assert (length (directory (kv_map rs_ex_store)) = 1%nat) as Hlen by (vm_compute; reflexivity).
  split; [|intros i j; rewrite Hlen; lia]. intros i e He. split; [|simpl; lia].
  destruct (si_dir _ _ _ _ rs_ex_inv) as [_ Hinv]. pose proof (wf_entry _ (inv_wf _ (Hinv i e He))) as Hwf.
  assert (forallb (fun e => mm_region e && (grain_offset e =? 0) && (Z.of_nat (length (ht_m (dme_map e))) =? 64))
            (directory (kv_map rs_ex_store)) = true) as Hall by (vm_compute; reflexivity).
  rewrite forallb_forall in Hall. apply list_elem_of_lookup_2, list_elem_of_In, Hall in He.
  rewrite !andb_true_iff, !Z.eqb_eq in He. destruct He as [[Hm Hg] Hn].
  split; [done|]. split; [done|]. split; [done|]. apply List.Forall_forall.
  intros x (p & Hp)%list_elem_of_In%list_elem_of_lookup. specialize (Hwf p). unfold ent in Hwf. by rewrite Hp in Hwf.
Qed.

Lemma rs_ex_layout :
  dir_layout rs_ex_env rs_ex_md rs_ex_md (kv_map rs_ex_store) (fun _ => 0%nat) (fun _ => 5) (kv_dev rs_ex_store).
Proof.
  assert (length (directory (kv_map rs_ex_store)) = 1%nat) as Hlen by (vm_compute; reflexivity).
  split; [apply rs_ex_segments|lia| |intros i _; vm_compute; reflexivity|].
  - intros i Hi. split; [closed_num|]. assert (i = 0%nat) as -> by lia. vm_compute. reflexivity.
  - intros [|[|j]] Hj Hs; [exfalso; apply (Hs 0%nat); [lia|done]| |simpl in Hj; lia].
    exists []. split; [vm_compute; reflexivity|constructor].
Qed.

Lemma rs_ex_ready : ready gc_env rs_ex_env rs_ex_md rs_ex_md 0 rs_ex_store [gc_live] (fun _ => 0%nat) (fun _ => 5).
Proof.
  split; [apply rs_ex_inv|reflexivity| |apply rs_ex_layout|vm_compute; reflexivity|].
  - split; try (vm_compute; done).
  - intros r i ->%list_elem_of_singleton Hi. right. vm_compute. done.
Qed.

(** C5: A store that shuts down cleanly restarts with what it held. The shutdown,
    run over a directory of fewer than 2^16 tables, which lie in segments of their
    own apart from the records, succeeds; the restart then finds all of the
    directory's tables on the device and returns success, the store's invariant
    holds for the very same records, whose bytes are unchanged, with exact entry
    counters and statistics, and every segment of the store that carries a valid
    stamp has its timestamp back. All reads, mappings and syncs succeed ([answers]),
    and no other segment of the device still looks like one of a directory at least
    as large ([dl_stale]: directories only grow; what restore does with a larger one
    is [partial_accepted]). *)
Theorem restart_keeps (kenv : kv_env) (env : rs_env) (m m1 : MD) (k : Z) (s : kv) (recs : list krec)
    (sg : nat -> nat) (hts : nat -> Z) :
  quiet kenv -> ready kenv env m m1 k s recs sg hts -> answers env ->
  (forall i, in_width 64 (rs_timestamp env i)) -> (forall g, rs_pread_rec env g = Z.of_nat sizeof_store) ->
  exists dev' r dev'',
    dir_shutdown env m (kv_total_bytes s) (kv_used_bytes s) (kv_map s) (kv_dev s) = Some dev' /\
    dir_init_restored env m1 dev' = Some (0, r, dev'') /\
    store_inv kenv k (kv_restarted r dev'') recs /\
    forall j ts, (j < rs_seg_nr env)%nat -> stamp_of env m dev' j = Some ts -> get_seg_ts j (rs_md r) = Some ts.
Proof. intros Hq Hr Ha Ht Hp. by apply (restart_store kenv Hq env m m1 k s recs sg hts). Qed.

Lemma restart_keeps_witness : exists dev' r dev'',
  dir_shutdown rs_ex_env rs_ex_md (kv_total_bytes rs_ex_store) (kv_used_bytes rs_ex_store)
    (kv_map rs_ex_store) (kv_dev rs_ex_store) = Some dev' /\
  dir_init_restored rs_ex_env rs_ex_md dev' = Some (0, r, dev'') /\
  store_inv gc_env 0 (kv_restarted r dev'') [gc_live].
Proof.
  destruct (restart_keeps gc_env rs_ex_env rs_ex_md rs_ex_md 0 rs_ex_store [gc_live] (fun _ => 0%nat) (fun _ => 5)
              gc_env_quiet rs_ex_ready) as (dev' & r & dev'' & H1 & H2 & H3 & _).
  - split; reflexivity.
  - intros i. unfold in_width. simpl. lia.
  - reflexivity.
  - exists dev', r, dev''. split; [exact H1|]. split; [exact H2|exact H3].
Defined.

(** A restart accepts a directory some of whose tables it did not find.  After
    a clean shutdown of a store of one key, whose directory has two tables, a
    restart finds both tables and the key; if the one read of the second table's
    segment metadata fails, the restart reports success all the same, with a
    directory of one table and no key. *)
Theorem partial_accepted :
  length (dir_bag rs_ex_two) = 1%nat /\
  exists dev', dir_shutdown rs_ex_env rs_ex_md 32 7 rs_ex_two rs_ex_two_dev = Some dev' /\
    rs_outcome (dir_init_restored rs_ex_env rs_ex_md dev') = Some (0, 2%nat, 1) /\
    rs_outcome (dir_init_restored rs_ex_failing rs_ex_md dev') = Some (0, 1%nat, 0).
Proof.
  split; [vm_compute; reflexivity|]. eexists. split; [reflexivity|]. split; vm_compute; reflexivity.
Qed.
