(* ===== verification/Recovery.v ===== *)
(** * Recovery: rebuilding the index after a crash
      (uDepot/lsa/udepot-directory-map.cc, uDepot/udepot-lsa.cc)

    When the directory cannot be restored, [prep_crash_recovery] hands the
    segments of the store back to it, a fresh directory is made, and
    [crash_recovery] walks the log of every segment and enters its records with
    [try_restore_entry], keeping the newest one of a key. *)
From Stdlib Require Import ZArith Lia.
From stdpp Require Import base tactics list numbers.
From S2P Require Import Prelude Util HashEntry HopscotchMap FpTable DirectoryMap DirectoryGrow.
From S2P Require Import Mbuff StoreFormat Metadata KvStore Restart.

Open Scope Z_scope.

Record rec_env := mkRecEnv {
  re_kv : kv_env;
  re_rs : rs_env;
  re_mbuff : nat -> bool;   (** an Mbuff can be allocated *)
  re_mmap : nat -> bool     (** the [mmap] of a segment *)
}.

(** A tombstone met in the log: its hash and header. *)
Definition ts_data : Type := Z * store_header.

(** [std::map<u64, ts_data>]: increasing keys; [emplace]. *)
Fixpoint tomb_emplace (k : Z) (x : ts_data) (ts : list (Z * ts_data)) : list (Z * ts_data) :=
  match ts with
  | [] => [(k, x)]
  | (k', x') :: ts' =>
      if k <? k' then (k, x) :: ts
      else if k =? k' then ts
      else (k', x') :: tomb_emplace k x ts'
  end.

Section Recovery.
Context (renv : rec_env).

Local Abbreviation env := (re_kv renv).
Local Abbreviation rs := (re_rs renv).
Local Abbreviation grain_size := (e_grain_size env).

(** ** One record *)

(** The switch of [try_restore_entry] on the answer [rc] of the lookup: the error
    code and the grains invalidated.  After a grow [trgt] does not point into the
    new tables: the call does not return. *)
Definition restore_dispatch (s : store_header) (h grain_start : Z) (old_md : store_header)
    (rc : Z) (trgt : option nat) : kvm (Z * Z) :=
  let map_it (update : bool) (trgt : option nat) (inval_grain_nr : Z) : kvm (Z * Z) :=
    p ← lift trgt;
    set_mapping env h p update (key_size s) (val_size s) grain_start old_md;;
    mret (0, inval_grain_nr) in
  if rc =? ENOSPC then
    d ← gets kv_map;
    '(rc, o, d') ← lift (dir_try_shift d h);
    modify (set_dir d');;
    if negb (rc =? 0) then
      genv ← ask (e_grow env);
      g ← lift (grow genv d');
      modify (set_dir (g_dir g));;
      if negb (g_rc g =? 0) then mret (ENOSPC, 0) else stuck
    else map_it false (out trgt o) 0
  else if rc =? ENODATA then map_it false trgt 0
  else if rc =? EEXIST then
    p ← lift trgt;
    d ← gets kv_map;
    seg_ts ← gets kv_seg_ts;
    if is_pba_order_equal_to_total_order env seg_ts (pba (entry_at d h p)) grain_start old_md
    then map_it true trgt (kv_tot_grains_get grain_size (key_size old_md) (val_size old_md))
    else
      invalidate_grains grain_start (kv_tot_grains_get grain_size (key_size s) (val_size s));;
      mret (EEXIST, 0)
  else if rc =? ENOMEM then mret (rc, 0)
  else map_it false trgt 0.

(** [key] is [s.buf]; the cache of Mbuffs is returned. *)
Definition try_restore_entry (fuel : nat) (mbs : list mbuff) (s : store_header) (key : list Z)
    (grain_start : Z) : kvm (Z * Z * list mbuff) :=
  let h := e_hash env key in
  '(keysrc, mbs) ← mb_get (re_mbuff renv) mbs;
  match keysrc with
  | None => mret (ENOMEM, 0, mbs)
  | Some keysrc =>
      let key_size := length key in
      keysrc ← (if (get_free_size keysrc <? key_size)%nat
                then mbuff_add_buffers env keysrc key_size else mret keysrc);
      if (get_free_size keysrc <? key_size)%nat then
        mbs ← mb_put keysrc mbs; mret (ENOMEM, 0, mbs)
      else
        '(copied, keysrc) ← lift (append_from_buffer keysrc key);
        if negb (copied =? key_size)%nat then mbs ← mb_put keysrc mbs; mret (ENOMEM, 0, mbs)
        else
          '(keymb, mbs) ← mb_get (re_mbuff renv) mbs;
          match keymb with
          | None => mbs ← mb_put keysrc mbs; mret (ENOMEM, 0, mbs)
          | Some keymb =>
              '(rc, trgt, old_md, keymb) ← lookup_mbuff_put env fuel h keysrc 0 key_size header_zero keymb;
              mbs ← mb_put keymb mbs;
              mbs ← mb_put keysrc mbs;
              '(rc, inval) ← restore_dispatch s h grain_start old_md rc trgt;
              mret (rc, inval, mbs)
          end
  end.

(** ** One segment *)

(** What [crash_recovery] keeps between the records. *)
Record walk_state := mkWalk {
  ws_mbs : list mbuff;
  ws_tombstones : list (Z * ts_data);
  ws_valid_grain_nr : Z
}.

(** The walk over a mapped segment of [size] bytes at byte [base] of the device,
    from offset [p] and grain [grain_start]: the error code and the first grain
    behind the records.  The mapping has whole pages; a read behind it does not
    return. *)
Fixpoint recover_walk (rounds fuel : nat) (timestamp base size p grain_start rc : Z) (w : walk_state) :
    kvm (Z * Z * walk_state) :=
  match rounds with
  | O => stuck
  | S k =>
      if size <=? p then mret (rc, grain_start, w)
      else
        let mapped := align_up size 4096 in
        if mapped <? p + Z.of_nat sizeof_store then stuck
        else
          dev ← gets kv_dev;
          let head := dev_read dev (base + p) sizeof_store in
          let s := header_of head in
          let end_ := p + Z.of_nat sizeof_store + key_size s + val_size s in
          if size <? p + val_size s + key_size s then mret (rc, grain_start, w)
          else if mapped <? end_ + Z.of_nat sizeof_suffix then stuck
          else
            let exp_crc16 := u16 (e_checksum16 env (u32 timestamp) head) in
            if negb (exp_crc16 =? le_val (dev_read dev (base + end_) sizeof_suffix))
            then mret (rc, grain_start, w)
            else
              let key := dev_read dev (base + p + Z.of_nat sizeof_store) (Z.to_nat (key_size s)) in
              '(rc, inval_grain_nr, mbs) ← try_restore_entry fuel (ws_mbs w) s key grain_start;
              let grain_nr := kv_tot_grains_get grain_size (key_size s) (val_size s) in
              let tombs := if (rc =? 0) && (val_size s =? 0)
                           then tomb_emplace grain_start (e_hash env key, s) (ws_tombstones w)
                           else ws_tombstones w in
              let valid := if rc =? 0 then u64 (ws_valid_grain_nr w + grain_nr) else ws_valid_grain_nr w in
              if (rc =? 0) || (rc =? EEXIST) then
                recover_walk k fuel timestamp base size
                  (p + kv_tot_bytes_get grain_size (key_size s) (val_size s)) (u64 (grain_start + grain_nr)) 0
                  (mkWalk mbs tombs (u64 (valid - inval_grain_nr)))
              else
                mret (if rc =? ENOSPC then rc else ENOENT, grain_start, mkWalk mbs tombs valid)
  end.

(** ** All segments *)

(** The segments with valid metadata of the store, their whole ranges and
    timestamps. *)
Fixpoint prep_segments (dev : device) (segs : list nat) (m : MD) (ranges : list (Z * Z * Z)) (nr : Z) :
    option (MD * list (Z * Z * Z) * Z) :=
  match segs with
  | [] => Some (m, ranges, nr)
  | i :: segs' =>
      let grain_start := u64 (Z.of_nat i * rs_seg_size rs) in
      match read_seg_md (rs_preadv_md rs i) (u64 (grain_start + rs_net_size rs m)) dev m with
      | None => prep_segments dev segs' m ranges nr
      | Some seg_md =>
          if negb (validate_seg_md (rs_crc32 rs) seg_md KV m) then prep_segments dev segs' m ranges nr
          else
            m' ← restore_seg_ts (Z.to_nat (grain_start / rs_seg_size rs)) (sm_timestamp seg_md) m;
            prep_segments dev segs' m' (ranges ++ [(grain_start, rs_net_size rs m, rs_kv_ctlr rs)]) (u64 (nr + 1))
      end
  end.

Definition prep_crash_recovery (m : MD) (dev : device) : option (Z * MD * list (Z * Z * Z)) :=
  '(m', ranges, nr) ← prep_segments dev (seq 0 (rs_seg_nr rs)) m [] 0;
  Some (if nr =? 0 then ENODATA else 0, m', ranges).

(** The error code, the tombstones, the largest timestamp and the number of
    segments. *)
Fixpoint recover_segments (fuel : nat) (m : MD) (segs : list nat) (w : walk_state) (max nr : Z) :
    kvm (Z * walk_state * Z * Z) :=
  match segs with
  | [] => mret (0, w, max, nr)
  | i :: segs' =>
      dev ← gets kv_dev;
      let seg_size := rs_net_size rs m in
      let gr_start := u64 (Z.of_nat i * rs_seg_size rs) in
      match read_seg_md (rs_preadv_md rs i) (u64 (gr_start + seg_size)) dev m with
      | None => recover_segments fuel m segs' w max nr
      | Some seg_md =>
          if negb (validate_seg_md (rs_crc32 rs) seg_md KV m) then recover_segments fuel m segs' w max nr
          else if negb (re_mmap renv i) then mret (ENOMEM, w, max, nr)
          else
            let mmap_size_b := u64 (seg_size * grain_size) in
            '(rc, grain_start, w) ←
              recover_walk (S (Z.to_nat mmap_size_b)) fuel (sm_timestamp seg_md) (u64 (gr_start * grain_size))
                mmap_size_b 0 gr_start ENOENT w;
            if negb (rc =? 0) then mret (rc, w, max, nr)
            else
              let grain_end := u64 (gr_start + seg_size) in
              (if grain_start <? grain_end
               then invalidate_grains grain_start (grain_end - grain_start) else mret tt);;
              recover_segments fuel m segs' w (Z.max max (sm_timestamp seg_md)) (u64 (nr + 1))
      end
  end.

(** [kv_remove_restored_tombstone] of the tombstones that are still mapped. *)
Fixpoint remove_tombstones (ts : list (Z * ts_data)) : kvm unit :=
  match ts with
  | [] => mret tt
  | (pba, (h, md)) :: ts' =>
      d ← gets kv_map;
      (match dir_lookup_pba d h pba with
       | None => mret tt
       | Some _ => kv_removed (kv_raw_bytes_get (key_size md) (val_size md))
                              (kv_tot_bytes_get grain_size (key_size md) (val_size md))
       end);;
      remove_tombstones ts'
  end.

(** The error code and the [seg_alloc_nr] handed to the controller. *)
Definition crash_recovery (fuel : nat) (m : MD) (mbs : list mbuff) : kvm (Z * Z) :=
  '(rc, w, max, nr) ← recover_segments fuel m (seq 0 (rs_seg_nr rs)) (mkWalk mbs [] 0) 0 0;
  if negb (rc =? 0) then mret (rc, 0)
  else if nr =? 0 then mret (ENODATA, 0)
  else remove_tombstones (ws_tombstones w);; mret (0, max).

(** ** [uDepotDirectoryMap::init] after a failed restore

    [key_nr] is what the restore counted before it failed.  The result is the
    error code, the ranges handed back and the metadata; the state is the store's. *)
Definition dir_init_recovered (fuel : nat) (genv : grow_env) (m : MD) (d : DirMap) (key_nr : Z)
    (dev : device) : option (Z * list (Z * Z * Z) * MD * kv) :=
  let store (d : DirMap) (m : MD) :=
    mkKv d dev (fun i => default 0 (get_seg_ts (Z.to_nat i) m)) key_nr 0 0 [] 0 in
  '(rc, m', ranges) ← prep_crash_recovery m dev;
  if negb (rc =? 0) then Some (rc, ranges, m', store d m')
  else
    g ← grow genv d;
    if negb (g_rc g =? 0) then Some (g_rc g, ranges, m', store (g_dir g) m')
    else
      match crash_recovery fuel m' [] (store (g_dir g) m') with
      | None => None
      | Some ((rc, _), s) =>
          let d := kv_map s in
          Some (rc, ranges, m',
                if rc =? 0
                then set_dir (mkDirMap (directory d) (grow_nr_m d) (entry_nr_bits_m (map_at d 0))) s
                else s)
      end.

End Recovery.
