(* ===== verification/RecoverySafe.v ===== *)
(** * RecoverySafe: what a recovery after a crash finds

    The walk over the logs ([Recovery]) maps the newest record of every key. *)
From Stdlib Require Import ZArith Lia.
From stdpp Require Import base tactics list numbers.
From S2P Require Import Prelude Util HashEntry HopscotchMap HopscotchSpec HopscotchInit HopscotchRefine HopscotchShift.
From S2P Require Import FpTable DirectoryMap DirectoryGrow DirectoryOps Mbuff MbuffSpec.
From S2P Require Import StoreFormat Metadata KvStore KvIo KvInv KvGet KvWrite KvPut KvGc Restart RestartSafe Recovery.

Open Scope Z_scope.

(** ** A directory of one table

    Until recovery ends, [map_entry_nr_bits_m] is 0.  With one table this does not
    matter: the operations act as they do with the width of the table. *)

Definition set_bits (b : Z) (d : DirMap) : DirMap := mkDirMap (directory d) (grow_nr_m d) b.
Definition with_bits (b : Z) (s : kv) : kv := set_dir (set_bits b (kv_map s)) s.

Definition one_table (b0 : Z) (d : DirMap) : Prop := length (directory d) = 1%nat /\ map_entry_nr_bits_m d = b0.

Section One_table.
Context (b0 b : Z) (Hb0 : 0 <= b0 <= 32) (Hb : 0 <= b <= 32).

Lemma one_table_idx c d h : 0 <= c <= 32 -> one_table c d -> hash_to_map d h = 0%nat.
Proof.
  intros Hc [Hl Hd]. unfold hash_to_map, dir_size. rewrite Hl, Hd. change (dir_idx_bits_ (Z.of_nat 1)) with 0.
  destruct (hash_to_dir_idx_spec c h 0 Hc) as [_ Hw]; [unfold KEYTAG_BITS; lia|].
  unfold in_width in Hw. lia.
Qed.

Lemma set_bits_one d : one_table b0 d -> one_table b (set_bits b d).
Proof. by intros [Hl _]. Qed.

Lemma set_bits_idx d h : one_table b0 d -> hash_to_map (set_bits b d) h = hash_to_map d h.
Proof. intros H. by rewrite (one_table_idx b _ h Hb (set_bits_one d H)), (one_table_idx b0 _ h Hb0 H). Qed.

Lemma set_bits_table d h : one_table b0 d -> table (set_bits b d) h = table d h.
Proof. intros H. unfold table. by rewrite set_bits_idx. Qed.

Lemma set_bits_alter d h f : one_table b0 d -> dir_alter (set_bits b d) h f = set_bits b (dir_alter d h f).
Proof. intros H. unfold dir_alter. by rewrite set_bits_idx. Qed.

Lemma alter_one d h f : one_table b0 d -> one_table b0 (dir_alter d h f).
Proof. intros [Hl Hd]. split; [|done]. cbn [dir_alter directory]. by rewrite length_alter. Qed.

Lemma with_bits_back s : one_table b0 (kv_map s) -> with_bits b0 (with_bits b s) = s.
Proof. intros [_ Hd]. destruct s as [[] ? ? ? ? ? ? ?]. unfold with_bits, set_bits, set_dir. simpl in *. by rewrite Hd. Qed.

(** [m'] does on the store with the width [b] what [m] does without. *)
Definition sim {A} (m m' : kvm A) : Prop := forall s, one_table b0 (kv_map s) ->
  match m s with
  | None => m' (with_bits b s) = None
  | Some (a, s1) => m' (with_bits b s) = Some (a, with_bits b s1) /\ one_table b0 (kv_map s1)
  end.

Lemma sim_ret {A} (a : A) : sim (mret a) (mret a).
Proof. by intros s Hs. Qed.

Lemma sim_bind {A B} (m m' : kvm A) (f f' : A -> kvm B) :
  sim m m' -> (forall a, sim (f a) (f' a)) -> sim (m ≫= f) (m' ≫= f').
Proof.
  intros Hm Hf s Hs. specialize (Hm s Hs). unfold mbind, kvm_bind. destruct (m s) as [[a s1]|]; [|by rewrite Hm].
  destruct Hm as [-> Hs1]. by apply Hf.
Qed.

Lemma sim_stuck {A} : sim (@stuck A) stuck.
Proof. by intros s Hs. Qed.

Lemma sim_lift {A} (o : option A) : sim (lift o) (lift o).
Proof. intros s Hs. unfold lift. by destruct o. Qed.

Lemma sim_ask {A} (f : nat -> A) : sim (ask f) (ask f).
Proof. by intros s Hs. Qed.

Lemma sim_gets {A} (f : kv -> A) : (forall s, f (with_bits b s) = f s) -> sim (gets f) (gets f).
Proof. intros Hf s Hs. unfold gets. by rewrite Hf. Qed.

Lemma sim_map {A} (f f' : DirMap -> kvm A) :
  (forall d, one_table b0 d -> sim (f d) (f' (set_bits b d))) -> sim (d ← gets kv_map; f d) (d ← gets kv_map; f' d).
Proof. intros Hf s Hs. by apply (Hf (kv_map s) Hs). Qed.

Lemma sim_modify (f f' : kv -> kv) :
  (forall s, one_table b0 (kv_map s) -> f' (with_bits b s) = with_bits b (f s) /\ one_table b0 (kv_map (f s))) ->
  sim (modify f) (modify f').
Proof. intros Hf s Hs. unfold modify. by destruct (Hf s Hs) as [-> ?]. Qed.

Lemma sim_set_dir d : one_table b0 d -> sim (modify (set_dir d)) (modify (set_dir (set_bits b d))).
Proof. intros Hd. apply sim_modify. by intros s Hs. Qed.

Lemma sim_run {A} (m : kvm A) s a s' : sim m m -> one_table b0 (kv_map s) ->
  m (with_bits b s) = Some (a, s') -> m s = Some (a, with_bits b0 s') /\ one_table b0 (kv_map (with_bits b0 s')).
Proof.
  intros Hm Hs Hr. specialize (Hm s Hs). rewrite Hr in Hm. destruct (m s) as [[a1 s1]|]; [|done].
  destruct Hm as [[= -> ->] H1]. by rewrite with_bits_back.
Qed.

End One_table.

Create HintDb sim.
#[export] Hint Resolve sim_ret sim_stuck sim_lift sim_ask sim_set_dir alter_one : sim.

(** Walk a computation that does not look at the map. *)
Ltac sim_step :=
  match goal with
  | |- sim _ _ (_ ≫= _) (_ ≫= _) => apply sim_bind; [|intros ?]
  | |- sim _ _ (gets _) (gets _) => apply sim_gets; reflexivity
  | |- sim _ _ (modify _) (modify _) => apply sim_modify; intros s Hs; split; [reflexivity|exact Hs]
  | |- sim _ _ (if ?c then _ else _) (if ?c then _ else _) => destruct c
  | |- sim _ _ (match ?x with _ => _ end) (match ?x with _ => _ end) => destruct x
  | |- sim _ _ (let '(_, _) := ?x in _) _ => destruct x
  | |- sim _ _ _ _ => solve [eauto with sim]
  end.
Ltac sim_tac := repeat sim_step.

Section Sim.
Context (env : kv_env) (Hq : quiet env) (b0 b : Z) (Hb0 : 0 <= b0 <= 32) (Hb : 0 <= b <= 32).

Lemma sim_others : sim b0 b (others_run env) (others_run env).
Proof.
  intros s Hs. rewrite (others_run_quiet env Hq s). split; [|done].
  by rewrite (others_run_quiet env Hq (with_bits b s)).
Qed.

Lemma sim_add_buffers mb n : sim b0 b (mbuff_add_buffers env mb n) (mbuff_add_buffers env mb n).
Proof. unfold mbuff_add_buffers. sim_tac. Qed.

Lemma sim_pread_loop fuel mb n off k : sim b0 b (pread_loop env fuel mb n off k) (pread_loop env fuel mb n off k).
Proof. revert mb k. induction fuel as [|f IH]; intros mb k; cbn [pread_loop]; sim_tac; apply IH. Qed.

Lemma sim_read_record mb n off : sim b0 b (read_record env mb n off) (read_record env mb n off).
Proof.
  unfold read_record, io_pread_mbuff_append_full.
  sim_tac; first [apply sim_add_buffers|apply sim_pread_loop].
Qed.

Lemma set_bits_common_loop fuel d h vis q : one_table b0 d ->
  common_loop fuel (set_bits b d) h vis q = common_loop fuel d h vis q.
Proof.
  intros Hd. revert q. induction fuel as [|f IH]; intros q; [done|]. cbn [common_loop].
  unfold entry_at, table_of, dir_next. rewrite (set_bits_idx b0 b Hb0 Hb) by done.
  change (map_at (set_bits b d)) with (map_at d). destruct (negb _); [done|]. by destruct (next _ _ _).
Qed.

Lemma set_bits_common d h vis : one_table b0 d -> lookup_common (set_bits b d) h vis = lookup_common d h vis.
Proof.
  intros Hd. unfold lookup_common, dir_lookup. rewrite (set_bits_idx b0 b Hb0 Hb) by done.
  change (map_at (set_bits b d)) with (map_at d). destruct (lookup _ h) as [[|z|z] [q|]]; [by rewrite set_bits_common_loop|reflexivity..].
Qed.

Lemma set_bits_entry d h p : one_table b0 d -> entry_at (set_bits b d) h p = entry_at d h p.
Proof. intros Hd. unfold entry_at, table_of. by rewrite (set_bits_idx b0 b Hb0 Hb). Qed.

Lemma sim_lookup_put fuel h mb_key off len md mb vis :
  sim b0 b (lookup_put_loop env fuel h mb_key off len md mb vis) (lookup_put_loop env fuel h mb_key off len md mb vis).
Proof.
  revert md mb vis. induction fuel as [|f IH]; intros md mb vis; cbn [lookup_put_loop]; [apply sim_stuck|].
  apply sim_map. intros d Hd. rewrite set_bits_common by done.
  destruct (lookup_common d h vis) as [err trgt]. sim_step; [by apply sim_ret|].
  destruct trgt as [q|].
  - rewrite set_bits_entry by done.
    sim_step; [apply sim_others|]. sim_step; [apply sim_read_record|]. destruct a0 as [[err1 nomem] mb1].
    sim_step; [sim_step; [apply sim_others|apply sim_ret]|].
    sim_step; [apply sim_lift|]. sim_step; [apply sim_lift|]. sim_step; [apply sim_others|].
    apply sim_map. intros d1 Hd1. rewrite set_bits_entry by done.
    unfold dir_lookup_pba. rewrite (set_bits_idx b0 b Hb0 Hb) by done.
    change (map_at (set_bits b d1)) with (map_at d1). sim_step; [apply sim_ret|apply IH].
  - unfold dir_next_free. rewrite (set_bits_idx b0 b Hb0 Hb) by done. change (map_at (set_bits b d)) with (map_at d).
    sim_tac.
Qed.

Lemma sim_set_mapping h p u kl vl g md : sim b0 b (set_mapping env h p u kl vl g md) (set_mapping env h p u kl vl g md).
Proof.
  unfold set_mapping. apply sim_map. intros d Hd. rewrite set_bits_entry by done.
  unfold dir_update_inplace, dir_insert. rewrite !(set_bits_alter b0 b Hb0 Hb) by done.
  unfold invalidate_grains, kv_removed, kv_added. sim_tac; try apply sim_set_dir; by apply alter_one.
Qed.

End Sim.

(** ** One record *)

(** The ranges invalidated. *)
Definition invals (evs : list kv_event) : list (Z * Z) :=
  omap (fun ev => match ev with Kv_invalidate g n => Some (g, n) | _ => None end) evs.

Definition cache_ok (mbs : list mbuff) : Prop := Forall (fun mb => mb_wf mb /\ data mb = []) mbs.

Section Entry.
Context (renv : rec_env) (Hq : quiet (re_kv renv)) (Halloc : forall t, re_mbuff renv t = true).

Local Abbreviation env := (re_kv renv).
Local Abbreviation gs := (e_grain_size env).

Lemma mb_get_spec mbs s : cache_ok mbs -> exists mb mbs' t,
  mb_get (re_mbuff renv) mbs s = Some ((Some mb, mbs'), at_tick t s) /\ cache_ok mbs' /\ mb_wf mb /\ data mb = [].
Proof.
  intros Hc. destruct mbs as [|mb mbs].
  - eexists mbuff_empty, [], _. split; [|split; [constructor|split; [apply mbuff_empty_wf|done]]].
    unfold mb_get. erewrite bind_run by reflexivity. rewrite Halloc. reflexivity.
  - apply Forall_cons_iff in Hc as [[Hw Hd] Hc]. exists mb, mbs, (kv_tick s). by rewrite at_tick_self.
Qed.

Lemma mb_put_spec mb mbs s : short mb -> cache_ok mbs ->
  exists mbs', mb_put mb mbs s = Some (mbs', s) /\ cache_ok mbs'.
Proof.
  intros [Hw Hlt] Hc. destruct (reslice_prefix mb 0 Hw) as (mb' & He & Hw' & Hd' & _); [lia|done|].
  exists (mb' :: mbs). unfold mb_put. rewrite He. erewrite bind_run by reflexivity. split; [done|].
  by constructor.
Qed.

(** The Mbuffs are there; what follows is the lookup. *)
Lemma try_restore_run fuel mbs md key g s (Q : Z * option nat * store_header -> kv -> Prop) :
  cache_ok mbs -> Z.of_nat (length key) < 2 ^ 16 ->
  (forall keysrc keymb t, mb_wf keysrc -> data keysrc = key -> short keymb ->
     exists rc trgt old keymb' s1,
       lookup_mbuff_put env fuel (e_hash env key) keysrc 0 (length key) header_zero keymb (at_tick t s) =
         Some ((rc, trgt, old, keymb'), s1) /\ short keymb' /\ Q (rc, trgt, old) s1) ->
  exists mbs' rc trgt old s1, cache_ok mbs' /\ Q (rc, trgt, old) s1 /\
    try_restore_entry renv fuel mbs md key g s =
      ('(rc, inval) ← restore_dispatch renv md (e_hash env key) g old rc trgt; mret (rc, inval, mbs')) s1.
Proof.
  intros Hc Hlen Hlook. unfold try_restore_entry.
  destruct (mb_get_spec mbs s Hc) as (mb & mbs1 & t1 & He1 & Hc1 & Hw & Hd).
  rewrite (bind_run _ _ _ _ _ He1). cbv beta iota.
  assert (exists mb2 t2, (if (get_free_size mb <? length key)%nat then mbuff_add_buffers env mb (length key) else mret mb)
      (at_tick t1 s) = Some (mb2, at_tick t2 s) /\ mb_wf mb2 /\ data mb2 = [] /\ (length key <= get_free_size mb2)%nat)
    as (mb2 & t2 & He2 & Hw2 & Hd2 & Hf2).
  { destruct (Nat.ltb_spec (get_free_size mb) (length key)); [|by exists mb, t1].
    destruct (add_buffers_spec env Hq mb (length key) (at_tick t1 s) Hw) as (mb2 & t2 & He & ? & Hd2 & ? & _); [lia|].
    exists mb2, t2. rewrite He, at_tick_at_tick. by rewrite Hd2. }
  rewrite (bind_run _ _ _ _ _ He2). rewrite (proj2 (Nat.ltb_ge _ _)) by done.
  destruct (append_from_buffer_spec mb2 key Hw2) as (mb3 & He3 & Hw3 & Hd3 & _).
  assert (length key <= append_avail_size mb2)%nat as Hav by (unfold append_avail_size, get_free_size in *; lia).
  rewrite He3, Nat.min_l by done. erewrite bind_run by reflexivity. cbv beta iota.
  rewrite Nat.eqb_refl. cbn [negb]. rewrite Hd2, take_ge in Hd3 by done.
  destruct (mb_get_spec mbs1 (at_tick t2 s) Hc1) as (mb4 & mbs4 & t4 & He4 & Hc4 & Hw4 & Hd4).
  rewrite (bind_run _ _ _ _ _ He4), at_tick_at_tick. cbv beta iota.
  destruct (Hlook mb3 mb4 t4 Hw3 Hd3) as (rc & trgt & old & mb5 & s1 & He5 & Hs5 & HQ).
  { split; [done|]. rewrite Hd4. simpl. lia. }
  rewrite (bind_run _ _ _ _ _ He5). cbv beta iota.
  destruct (mb_put_spec mb5 mbs4 s1 Hs5 Hc4) as (mbs6 & He6 & Hc6). rewrite (bind_run _ _ _ _ _ He6).
  destruct (mb_put_spec mb3 mbs6 s1) as (mbs7 & He7 & Hc7); [split; [done|rewrite Hd3; simpl; lia]|done|].
  rewrite (bind_run _ _ _ _ _ He7). by exists mbs7, rc, trgt, old, s1.
Qed.

Context (b : Z) (Hb : 0 <= b <= 32).

(** The state between two records: the store's invariant holds with the width of
    the table, and no slot is a tombstone. *)
Record rec_state (s : kv) (recs : list krec) : Prop := {
  rt_one : one_table 0 (kv_map s);
  rt_store : store_inv env 0 (with_bits b s) recs;
  rt_clean : forall h p, deleted (entry_at (kv_map s) h p) = false
}.

Lemma zero_bits : 0 <= 0 <= 32.
Proof. lia. Qed.

Lemma one_table_alter d h h' f : one_table 0 d -> table (dir_alter d h f) h' = f (table d h').
Proof.
  intros Hd. pose proof (alter_one 0 d h f Hd) as Hd'. unfold table.
  rewrite !(one_table_idx 0) by (done || lia). unfold map_at. cbn [dir_alter directory].
  rewrite (one_table_idx 0 d h) by (done || lia). destruct Hd as [Hl _].
  destruct (directory d) as [|e [|]]; done.
Qed.

(** What entering the record [r] does. *)
Definition entered (s : kv) (recs : list krec) (r : krec) (rc : Z) (s' : kv) (recs' : list krec) : Prop :=
  kv_dev s' = kv_dev s /\ kv_seg_ts s' = kv_seg_ts s /\ rec_state s' recs' /\
  ((rc = 0 /\ ~ (r_key r ∈ r_key <$> recs) /\ recs' = r :: recs /\ invals (kv_events s') = invals (kv_events s)) \/
   (exists r0 rest, recs ≡ₚ r0 :: rest /\ r_key r0 = r_key r /\
     let newer := is_pba_order_equal_to_total_order env (kv_seg_ts s) (r_grain r0) (r_grain r) (r_header r0) in
     ((rc = 0 /\ newer = true /\ recs' = r :: rest /\
       invals (kv_events s') = r_range env r0 :: invals (kv_events s)) \/
      (rc = EEXIST /\ newer = false /\ recs' = recs /\
       invals (kv_events s') = r_range env r :: invals (kv_events s))))).

(** The slot changed by [set_mapping] of a live size holds no tombstone. *)
Lemma live_entry_at d h f : one_table 0 d ->
  (forall h p, deleted (entry_at d h p) = false) ->
  (tomb_free (table d h) -> tomb_free (f (table d h))) ->
  forall h' p, deleted (entry_at (dir_alter d h f) h' p) = false.
Proof.
  intros Hd Hc Hf h' p. unfold entry_at, table_of. fold (table (dir_alter d h f) h').
  rewrite one_table_alter by done. assert (table d h' = table d h) as ->.
  { unfold table. by rewrite !(one_table_idx 0) by (done || lia). }
  apply Hf. intros q. apply (Hc h q).
Qed.

Section One.
Context (s : kv) (recs : list krec) (Hst : rec_state s recs) (r : krec) (Hok : rec_ok env (kv_dev s) r).
Context (fuel : nat) (Hfuel : (BUCKET < fuel)%nat) (mbs : list mbuff) (Hmbs : cache_ok mbs).
Context (Hap : forall r', r' ∈ recs -> apart env r r').

Local Abbreviation h := (e_hash env (r_key r)).
Local Abbreviation sb := (with_bits b s).

Lemma key_short : 0 < Z.of_nat (length (r_key r)) < 2 ^ 16.
Proof. exact (f_key _ _ _ (ro_fits _ _ _ Hok)). Qed.

Lemma sb_tick t : store_inv env 0 (at_tick t sb) recs.
Proof. apply (at_tick_inv env 0 sb recs (rt_store _ _ Hst)). Qed.

(** A lookup of the store with the right width is one of the store. *)
Lemma lookup_back keysrc keymb t x s1 :
  lookup_mbuff_put env fuel h keysrc 0 (length (r_key r)) header_zero keymb (at_tick t sb) = Some (x, s1) ->
  lookup_mbuff_put env fuel h keysrc 0 (length (r_key r)) header_zero keymb (at_tick t s) = Some (x, with_bits 0 s1).
Proof.
  intros He. apply (sim_run 0 b _ (at_tick t s)); [|apply (rt_one _ _ Hst)|exact He].
  apply (sim_lookup_put env Hq 0 b zero_bits Hb).
Qed.

(** The store after a mapping update. *)
Lemma mapped_state t f evs kn u tb recs' :
  (tomb_free (table (kv_map s) h) -> tomb_free (f (table (kv_map s) h))) ->
  let s1 := mapped env (at_tick t sb) r (set_bits b (dir_alter (kv_map s) h f)) evs kn u tb in
  store_inv env 0 s1 recs' -> rec_state (with_bits 0 s1) recs'.
Proof.
  intros Hf s1 Hi. pose proof (alter_one 0 _ h f (rt_one _ _ Hst)) as Ho. split; [|exact Hi|].
  - exact (conj (proj1 Ho) eq_refl).
  - intros h' p. change (kv_map (with_bits 0 s1)) with (set_bits 0 (dir_alter (kv_map s) h f)).
    rewrite (set_bits_entry 0 0 zero_bits zero_bits) by done.
    apply live_entry_at; [apply (rt_one _ _ Hst)|apply (rt_clean _ _ Hst)|done].
Qed.

Lemma sb_map t : kv_map (at_tick t sb) = set_bits b (kv_map s).
Proof. done. Qed.

Lemma sb_table h' : table (set_bits b (kv_map s)) h' = table (kv_map s) h'.
Proof. apply (set_bits_table 0 b zero_bits Hb), (rt_one _ _ Hst). Qed.

Lemma sb_alter f : dir_alter (set_bits b (kv_map s)) h f = set_bits b (dir_alter (kv_map s) h f).
Proof. apply (set_bits_alter 0 b zero_bits Hb), (rt_one _ _ Hst). Qed.

Lemma s_table_wf : map_wf (table (kv_map s) h).
Proof. rewrite <- sb_table. exact (table_wf 0 _ (si_dir _ _ _ _ (rt_store _ _ Hst)) h). Qed.

Lemma tick_back t : with_bits 0 (at_tick t sb) = at_tick t s.
Proof.
  change (with_bits 0 (at_tick t sb)) with (at_tick t (with_bits 0 sb)). rewrite with_bits_back; [done|].
  apply (rt_one _ _ Hst).
Qed.

Lemma enter_new : r_key r ∉ r_key <$> recs -> bucket_full (table (kv_map s) h) h = false ->
  exists mbs' s', try_restore_entry renv fuel mbs (r_header r) (r_key r) (r_grain r) s = Some ((0, 0, mbs'), s') /\
    cache_ok mbs' /\ entered s recs r 0 s' (r :: recs).
Proof.
  intros Hk Hroom. pose proof key_short as Hkl. pose proof (rt_one _ _ Hst) as Hone.
  destruct (try_restore_run fuel mbs (r_header r) (r_key r) (r_grain r) s
    (fun '(rc, trgt, old) s1 => rc = ENODATA /\ old = header_zero /\ (exists p, trgt = Some p /\
       free_slot (table (kv_map s) h) h p) /\ exists t, s1 = at_tick t s)) as
    (mbs' & rc & trgt & old & s1 & Hc' & (-> & -> & (p & -> & Hfree) & t & ->) & ->); [done|lia| |].
  { intros ks km t Hw Hd Hs.
    destruct (lookup_put_missing env Hq 0 sb recs (rt_store _ _ Hst) (r_key r) ks Hw
      ltac:(rewrite Hd; by rewrite take_ge) Hkl fuel km t Hk Hs Hfuel) as (km' & t' & err & o & He & Hs' & Hcase).
    apply lookup_back in He. eexists _, _, _, _, _. split; [exact He|]. split; [done|].
    change (kv_map sb) with (set_bits b (kv_map s)) in Hcase. rewrite sb_table in Hcase.
    destruct Hcase as [(-> & q & -> & Hf)|(_ & _ & Hfull)].
    - split; [done|]. split; [done|]. split; [by exists q|]. exists t'. apply tick_back.
    - apply bucket_full_spec in Hfull. by rewrite Hfull in Hroom. }
  destruct (added_amounts env Hq sb r Hok) as (_ & _ & Hpos).
  destruct (set_mapping_insert env Hq 0 (at_tick t sb) r Hok recs p header_zero (sb_tick t))
    as (evs & He & Hinv' & Hevs); [by rewrite sb_map, sb_table|done|done|].
  apply (sim_run 0 b _ (at_tick t s)) in He as [He _]; [|apply (sim_set_mapping env 0 b zero_bits Hb)|done].
  rewrite sb_map in *. rewrite (set_bits_entry 0 b zero_bits Hb) in Hevs by done.
  rewrite Hevs in * by apply (rt_clean _ _ Hst). unfold dir_insert in *. rewrite sb_alter in *.
  unfold restore_dispatch. change (ENODATA =? ENOSPC) with false. change (ENODATA =? ENODATA) with true. cbv iota.
  erewrite bind_run. 2:{ erewrite bind_run by reflexivity. rewrite (bind_run _ _ _ _ _ He). reflexivity. }
  eexists mbs', _. split; [reflexivity|]. split; [done|]. split; [done|]. split; [done|]. split; [|by left].
  apply mapped_state; [|exact Hinv']. intros Ht.
  apply insert_tomb_free; [apply s_table_wf|done|apply Hfree|done|apply (ro_pba _ _ _ Hok)].
Qed.

Lemma sb_slots : slots (set_bits b (kv_map s)) h = slots (kv_map s) h.
Proof. unfold slots. by rewrite sb_table. Qed.

Lemma update_tomb_free p : p ∈ slots (kv_map s) h -> 0 < r_grains env r ->
  tomb_free (table (kv_map s) h) ->
  tomb_free (update_inplace (table (kv_map s) h) p h (r_grains env r) (r_grain r)).
Proof.
  intros Hp Hpos Ht q. pose proof s_table_wf as Hwf.
  assert (matches (table (kv_map s) h) h p) as Hm.
  { rewrite <- sb_slots in Hp. apply (elem_of_slots 0 _ (si_dir _ _ _ _ (rt_store _ _ Hst))) in Hp.
    by rewrite sb_table in Hp. }
  rewrite update_inplace_entry by (done || lia || apply (ro_pba _ _ _ Hok)).
  pose proof (used_in_range _ p (live_used _ _ (proj1 Hm))) as Hlt.
  destruct (decide (p = q)) as [<-|Hne]; [rewrite ent_set_eq by done|by rewrite ent_set_ne].
  unfold deleted, DELETED_KV_SIZE_ENTRY. simpl. change MAX_KV_SIZE with 2047. apply Z.eqb_neq. lia.
Qed.

Section Existing.
Context (r0 : krec) (rest : list krec) (Hr0 : recs ≡ₚ r0 :: rest) (Hkey : r_key r0 = r_key r).

Lemma enter_existing :
  exists rc inval mbs' s' recs', try_restore_entry renv fuel mbs (r_header r) (r_key r) (r_grain r) s =
      Some ((rc, inval, mbs'), s') /\ (rc = 0 \/ rc = EEXIST) /\
    cache_ok mbs' /\ entered s recs r rc s' recs'.
Proof.
  pose proof key_short as Hkl. pose proof (rt_one _ _ Hst) as Hone.
  assert (r0 ∈ recs) as Hin by (rewrite Hr0; by left).
  destruct (try_restore_run fuel mbs (r_header r) (r_key r) (r_grain r) s
    (fun '(rc, trgt, old) s1 => rc = EEXIST /\ old = r_header r0 /\ (exists p, trgt = Some p /\
       p ∈ slots (kv_map s) h /\ entry_of env sb h p r0) /\ exists t, s1 = at_tick t s)) as
    (mbs' & rc & trgt & old & s1 & Hc' & (-> & -> & (p & -> & Hp & Hent) & t & ->) & ->); [done|lia| |].
  { intros ks km t Hw Hd Hs.
    destruct (lookup_put_present env Hq 0 sb recs (rt_store _ _ Hst) (r_key r) ks Hw
      ltac:(rewrite Hd; by rewrite take_ge) Hkl fuel km t r0 Hin Hkey Hs Hfuel)
      as (q & km' & t' & He & Hs' & _ & _ & _ & Hq' & He').
    apply lookup_back in He. eexists _, _, _, _, _. split; [exact He|]. split; [done|].
    split; [done|]. split; [done|]. split; [|exists t'; apply tick_back]. exists q. split; [done|].
    change (kv_map sb) with (set_bits b (kv_map s)) in Hq'. by rewrite sb_slots in Hq'. }
  destruct (added_amounts env Hq sb r Hok) as (_ & _ & Hpos).
  unfold restore_dispatch. change (EEXIST =? ENOSPC) with false. change (EEXIST =? ENODATA) with false.
  change (EEXIST =? EEXIST) with true. cbv iota.
  assert (pba (entry_at (kv_map s) h p) = r_grain r0) as Hpba.
  { destruct Hent as [_ Hent]. change (kv_map sb) with (set_bits b (kv_map s)) in Hent. by rewrite sb_table in Hent. }
  destruct (is_pba_order_equal_to_total_order env (kv_seg_ts s) (r_grain r0) (r_grain r) (r_header r0)) eqn:Hord.
  - pose proof (store_inv_perm env 0 _ _ _ Hr0 (sb_tick t)) as Hinv.
    destruct (set_mapping_update env Hq 0 (at_tick t sb) r Hok r0 rest p Hinv) as [He Hinv'].
    + by rewrite sb_map, sb_slots.
    + exact Hent.
    + done.
    + intros r' Hr'. apply Hap. rewrite Hr0. by right.
    + apply (sim_run 0 b _ (at_tick t s)) in He as [He _]; [|apply (sim_set_mapping env 0 b zero_bits Hb)|done].
      rewrite sb_map in *. unfold dir_update_inplace in *. rewrite sb_alter in *.
      erewrite bind_run.
      2:{ do 3 erewrite bind_run by reflexivity. cbn [kv_map at_tick kv_seg_ts]. rewrite Hpba, Hord.
          erewrite bind_run by reflexivity. rewrite (bind_run _ _ _ _ _ He). reflexivity. }
      eexists _, _, mbs', _, _. split; [reflexivity|]. split; [by left|]. split; [done|].
      split; [done|]. split; [done|]. split.
      * apply mapped_state; [|exact Hinv']. by apply update_tomb_free.
      * right. exists r0, rest. split; [done|]. split; [done|]. left. by rewrite Hord.
  - erewrite bind_run.
    2:{ do 3 erewrite bind_run by reflexivity. cbn [kv_map at_tick kv_seg_ts]. rewrite Hpba, Hord. reflexivity. }
    eexists _, _, mbs', _, recs. split; [reflexivity|]. split; [by right|]. split; [done|].
    split; [done|]. split; [done|]. split.
    + split; [done| |apply (rt_clean _ _ Hst)]. apply (store_inv_same env 0 sb); try done. apply (rt_store _ _ Hst).
    + right. exists r0, rest. split; [done|]. split; [done|]. right. by rewrite Hord.
Qed.

End Existing.
End One.
(** ** Room in the buckets *)

(** The homes of two hashes are less than a bucket apart. *)
Definition near (h h' : Z) : bool :=
  (fp_home b h' <? fp_home b h + BUCKET)%nat && (fp_home b h <? fp_home b h' + BUCKET)%nat.

(** The keys that may compete for a slot of the bucket of [h]. *)
Definition crowd (all : list krec) (h : Z) : list (list Z) :=
  remove_dups (r_key <$> filter (fun r => near h (e_hash env (r_key r)) = true) all).

Lemma filter_fmap_length {A B} (P : B -> Prop) `{!forall x, Decision (P x)} (f : A -> B) (l : list A) :
  length (filter P (f <$> l)) = length (filter (fun x => P (f x)) l).
Proof. induction l as [|x l IH]; [done|]. rewrite fmap_cons, !filter_cons. case_decide; simpl; congruence. Qed.

Lemma filter_all {A} (P : A -> Prop) `{!forall x, Decision (P x)} (l : list A) : Forall P l -> filter P l = l.
Proof. induction 1; [done|]. rewrite filter_cons, decide_True by done. congruence. Qed.

Lemma fp_home_fp h : fp_home b (fp b h) = fp_home b h.
Proof. unfold fp_home, fp, KEYTAG_BITS. by rewrite wrap_narrow by lia. Qed.

Lemma live_at_all m (l : list nat) : (forall q, q ∈ l -> live_slot m q = true) ->
  omap (live_at m) l = (fun q => (entry_keyfp m q, kv_size (ent m q), pba (ent m q))) <$> l.
Proof.
  induction l as [|q l IH]; intros Hl; [done|]. rewrite fmap_cons, <- IH by (intros; apply Hl; by right).
  simpl. unfold live_at at 1. by rewrite Hl by (by left).
Qed.

(** The entries of a full bucket. *)
Lemma full_bucket_entries m h : map_wf m -> entry_nr_bits_m m = b -> full m h ->
  exists W rest, entries m ≡ₚ W ++ rest /\ length W = BUCKET /\
    Forall (fun x : triple => near h (fp_of x) = true) W.
Proof.
  intros Hwf Hbits Hfull. pose proof (bucket_in_range m Hwf h) as Hr.
  exists (omap (live_at m) (seq (hb64 m h) BUCKET)).
  exists (omap (live_at m) (seq 0 (hb64 m h)) ++
          omap (live_at m) (seq (hb64 m h + BUCKET) (length (ht_m m) - hb64 m h - BUCKET))).
  assert (forall q, q ∈ seq (hb64 m h) BUCKET -> live_slot m q = true) as Hlive.
  { intros q Hin%elem_of_seq. by apply Hfull. }
  split; [|rewrite live_at_all by done; split; [by rewrite length_fmap, length_seq|]].
  - unfold entries, bag.
    replace (length (ht_m m)) with (hb64 m h + (BUCKET + (length (ht_m m) - hb64 m h - BUCKET)))%nat at 1 by lia.
    rewrite !seq_app, !omap_app, !Nat.add_0_l. by rewrite Permutation_app_swap_app.
  - apply List.Forall_forall. intros x (q & -> & Hin)%list_elem_of_In%list_elem_of_fmap.
    pose proof (wf_home _ Hwf q (Hlive q Hin)) as Hok. pose proof (home_ok_window m Hwf q Hok).
    apply elem_of_seq in Hin. unfold near, fp_of. simpl. rewrite <- Hbits, !fp_home_hb, (home_ok_hb m Hwf) by done.
    apply andb_true_iff. rewrite !Nat.ltb_lt. lia.
Qed.

Lemma bucket_has_room s recs all r : rec_state s recs -> (forall r', r' ∈ recs -> r' ∈ all) -> r ∈ all ->
  r_key r ∉ r_key <$> recs -> (length (crowd all (e_hash env (r_key r))) <= BUCKET)%nat ->
  bucket_full (table (kv_map s) (e_hash env (r_key r))) (e_hash env (r_key r)) = false.
Proof.
  intros Hst Hsub Hr Hk Hcrowd. set (h := e_hash env (r_key r)) in *.
  destruct (bucket_full _ h) eqn:Hf; [|done]. exfalso. apply bucket_full_spec in Hf.
  pose proof (rt_store _ _ Hst) as Hinv. pose proof (si_dir _ _ _ _ Hinv) as Hd.
  destruct (table_inv 0 _ Hd h) as (_ & _ & Hbits & _).
  change (kv_map (with_bits b s)) with (set_bits b (kv_map s)) in Hbits.
  rewrite (set_bits_table 0 b zero_bits Hb) in Hbits by apply (rt_one _ _ Hst).
  destruct (full_bucket_entries _ h (s_table_wf s recs Hst r) Hbits Hf) as (W & rest & HW & HlW & HnW). fold h in HW.
  destruct (dir_alter_split 0 _ Hd h id) as (rest' & Hbag & _).
  change (kv_map (with_bits b s)) with (set_bits b (kv_map s)) in Hbag.
  rewrite (set_bits_table 0 b zero_bits Hb) in Hbag by apply (rt_one _ _ Hst).
  rewrite (si_bag _ _ _ _ Hinv), HW in Hbag.
  set (P := fun x : triple => near h (fp_of x) = true) in *.
  assert (BUCKET <= length (filter (fun r => near h (e_hash env (r_key r)) = true) recs))%nat as Hlen.
  { pose proof (filter_fmap_length P (r_triple env (kv_map (with_bits b s))) recs) as Hfm.
    rewrite Hbag, !list.filter_app, !length_app in Hfm.
    rewrite (list_filter_iff (fun r => P (r_triple env (kv_map (with_bits b s)) r))
               (fun r => near h (e_hash env (r_key r)) = true)) in Hfm.
    - rewrite <- Hfm. rewrite (filter_all P W HnW). lia.
    - intros x. unfold P, near, r_triple, fp_of, dir_fp. simpl. by rewrite fp_home_fp. }
  set (N := filter _ recs) in *.
  assert (NoDup (r_key r :: (r_key <$> N))) as HndN.
  { constructor.
    - intros (x & Hx & [_ Hin]%list_elem_of_filter)%list_elem_of_fmap. apply Hk, list_elem_of_fmap. by exists x.
    - apply (sublist_NoDup _ (r_key <$> recs)); [apply (si_keys _ _ _ _ Hinv)|].
      apply fmap_sublist, sublist_filter. }
  apply NoDup_submseteq with (k := crowd all h) in HndN.
  - apply submseteq_length in HndN. simpl in HndN. rewrite length_fmap in HndN. lia.
  - intros key [->|(x & -> & [Hn Hin]%list_elem_of_filter)%list_elem_of_fmap]%elem_of_cons;
      unfold crowd; apply elem_of_remove_dups, list_elem_of_fmap; eexists; (split; [reflexivity|]);
      apply list_elem_of_filter; (split; [|by auto]); [|done].
    unfold near. apply andb_true_iff. rewrite !Nat.ltb_lt. fold h. change BUCKET with 32%nat. lia.
Qed.

(** ** The newest records *)

Section Log.
Context (all : list krec) (dev : device) (tsf : Z -> Z).

Definition seg_of (r : krec) : Z := grain_to_seg_idx env (r_grain r).

(** The records of the log, outdated ones included: they do not overlap, carry
    the timestamp of their segment, which is the segment's own, and compete for
    no more slots than a bucket has. *)
Record log_ok : Prop := {
  lg_apart : forall r1 r2, r1 ∈ all -> r2 ∈ all -> r1 = r2 \/ apart env r1 r2;
  lg_recs : forall r, r ∈ all -> rec_ok env dev r;
  lg_ts : forall r, r ∈ all -> r_ts r = tsf (seg_of r);
  lg_order : forall r1 r2, r1 ∈ all -> r2 ∈ all -> tsf (seg_of r1) = tsf (seg_of r2) -> seg_of r1 = seg_of r2;
  lg_room : forall r, r ∈ all -> (length (crowd all (e_hash env (r_key r))) <= BUCKET)%nat
}.

Definition older (r r' : krec) : Prop :=
  is_pba_order_equal_to_total_order env tsf (r_grain r) (r_grain r') (r_header r) = true.

Definition newest (done : list krec) (r : krec) : Prop :=
  r ∈ done /\ forall r', r' ∈ done -> r_key r' = r_key r -> r' = r \/ older r' r.

Context (Hlog : log_ok).

Lemma older_spec r r' : r ∈ all -> r' ∈ all ->
  older r r' <-> tsf (seg_of r) < tsf (seg_of r') \/ (tsf (seg_of r) = tsf (seg_of r') /\ r_grain r < r_grain r').
Proof.
  intros Hr Hr'. unfold older, is_pba_order_equal_to_total_order.
  change (grain_to_seg_idx env (r_grain ?x)) with (seg_of x). change (timestamp (r_header r)) with (r_ts r).
  rewrite (lg_ts Hlog r Hr). pose proof (lg_order Hlog r r' Hr Hr') as Ho.
  destruct (Z.eqb_spec (seg_of r) (seg_of r')) as [->|Hne]; cbn [negb]; rewrite Z.ltb_lt; [lia|].
  split; [by left|]. intros [?|[He _]]; [done|]. by destruct Hne; apply Ho.
Qed.

Lemma older_trans r1 r2 r3 : r1 ∈ all -> r2 ∈ all -> r3 ∈ all -> older r1 r2 -> older r2 r3 -> older r1 r3.
Proof. intros. rewrite older_spec in * by done. lia. Qed.

Lemma older_total r r' : r ∈ all -> r' ∈ all -> r <> r' -> older r r' \/ older r' r.
Proof.
  intros Hr Hr' Hne. rewrite !older_spec by done.
  destruct (lg_apart Hlog r r' Hr Hr') as [|Hap]; [done|].
  pose proof (rec_extent env Hq r (ro_fits _ _ _ (lg_recs Hlog r Hr))).
  pose proof (rec_extent env Hq r' (ro_fits _ _ _ (lg_recs Hlog r' Hr'))).
  unfold apart in Hap. lia.
Qed.

Definition tomb_of (r : krec) : Z * ts_data := (r_grain r, (e_hash env (r_key r), r_header r)).

(** The walk has met the records [done], and [tails] were left over: [recs] are
    mapped, and [T] are the tombstones remembered. *)
Record walked (done : list krec) (tails : list (Z * Z)) (s : kv) (w : walk_state) (recs T : list krec) : Prop := {
  wk_state : rec_state s recs;
  wk_dev : kv_dev s = dev;
  wk_ts : kv_seg_ts s = tsf;
  wk_cache : cache_ok (ws_mbs w);
  wk_done : forall r, r ∈ done -> r ∈ all;
  wk_newest : forall r, r ∈ recs -> newest done r;
  wk_keys : forall r, r ∈ done -> r_key r ∈ r_key <$> recs;
  wk_tombs : ws_tombstones w ≡ₚ tomb_of <$> T;
  wk_nodup : NoDup T;
  wk_T : forall r, r ∈ T -> r ∈ done /\ vlen r = 0;
  wk_Trecs : forall r, r ∈ recs -> vlen r = 0 -> r ∈ T;
  wk_inval : (r_range env <$> recs) ++ invals (kv_events s) ≡ₚ (r_range env <$> done) ++ tails
}.

Lemma newest_new done r : r ∈ all -> (forall r', r' ∈ done -> r_key r' <> r_key r) -> newest (r :: done) r.
Proof.
  intros Hr Hk. split; [by left|]. intros r' [->|Hin]%elem_of_cons He; [by left|]. by destruct (Hk r').
Qed.

Lemma newest_other done r x : newest done x -> r_key r <> r_key x -> newest (r :: done) x.
Proof.
  intros [Hx Hn] Hk. split; [by right|]. intros r' [->|Hin]%elem_of_cons He; [done|]. by apply Hn.
Qed.

Lemma newest_replace done r0 r : (forall x, x ∈ done -> x ∈ all) -> r ∈ all ->
  newest done r0 -> r_key r0 = r_key r -> older r0 r -> newest (r :: done) r.
Proof.
  intros Hd Hr [Hin Hn] Hk Ho. split; [by left|]. intros r' [->|Hin']%elem_of_cons He; [by left|]. right.
  destruct (Hn r' Hin') as [->|Ho']; [congruence|done|].
  apply (older_trans r' r0 r); auto.
Qed.

Lemma newest_keep done r0 r : newest done r0 -> r_key r0 = r_key r -> older r r0 -> newest (r :: done) r0.
Proof.
  intros [Hin Hn] Hk Ho. split; [by right|]. intros r' [->|Hin']%elem_of_cons He; [by right|]. by apply Hn.
Qed.

Lemma tomb_emplace_new k x ts : k ∉ ts.*1 -> tomb_emplace k x ts ≡ₚ (k, x) :: ts.
Proof.
  induction ts as [|[k' x'] ts IH]; [done|]. rewrite fmap_cons, not_elem_of_cons. intros [Hne Hts].
  cbn [tomb_emplace]. destruct (k <? k'); [done|]. destruct (Z.eqb_spec k k'); [done|].
  rewrite (IH Hts). apply Permutation_swap.
Qed.

Section Step.
Context (done : list krec) (tails : list (Z * Z)) (s : kv) (w : walk_state) (recs T : list krec).
Context (Hw : walked done tails s w recs T) (r : krec) (Hr : r ∈ all) (Hnew : r ∉ done).

(** The tombstones remembered after [r] was entered with code [rc]. *)
Definition next_T (rc : Z) : list krec := if (rc =? 0) && (vlen r =? 0) then r :: T else T.
Definition next_tombs (rc : Z) : list (Z * ts_data) :=
  if (rc =? 0) && (vlen r =? 0) then tomb_emplace (r_grain r) (e_hash env (r_key r), r_header r) (ws_tombstones w)
  else ws_tombstones w.

Lemma grain_eq r1 r2 : r1 ∈ all -> r2 ∈ all -> r_grain r1 = r_grain r2 -> r1 = r2.
Proof.
  intros H1 H2 Hg. destruct (lg_apart Hlog r1 r2 H1 H2) as [|Hap]; [done|].
  pose proof (rec_extent env Hq r1 (ro_fits _ _ _ (lg_recs Hlog r1 H1))).
  pose proof (rec_extent env Hq r2 (ro_fits _ _ _ (lg_recs Hlog r2 H2))).
  unfold apart in Hap. lia.
Qed.

Lemma next_tombs_ok rc : next_tombs rc ≡ₚ tomb_of <$> next_T rc.
Proof.
  unfold next_tombs, next_T. destruct (_ && _); [|apply (wk_tombs _ _ _ _ _ _ Hw)].
  rewrite tomb_emplace_new, (wk_tombs _ _ _ _ _ _ Hw); [done|].
  rewrite (wk_tombs _ _ _ _ _ _ Hw). intros (x & Hx & (t & -> & Ht)%list_elem_of_fmap)%list_elem_of_fmap.
  destruct (wk_T _ _ _ _ _ _ Hw t Ht) as [Hin _]. apply Hnew.
  rewrite (grain_eq r t Hr (wk_done _ _ _ _ _ _ Hw t Hin) Hx). done.
Qed.

Lemma next_T_ok rc : NoDup (next_T rc) /\ forall x, x ∈ next_T rc -> x ∈ r :: done /\ vlen x = 0.
Proof.
  assert (forall x, x ∈ T -> x ∈ r :: done /\ vlen x = 0) as HT.
  { intros x Hx. destruct (wk_T _ _ _ _ _ _ Hw x Hx). split; [by right|done]. }
  unfold next_T. destruct (Z.eqb_spec rc 0), (Z.eqb_spec (vlen r) 0); cbn [andb];
    [|split; [apply (wk_nodup _ _ _ _ _ _ Hw)|done]..]. split.
  - constructor; [|apply (wk_nodup _ _ _ _ _ _ Hw)]. intros Ht. by destruct (wk_T _ _ _ _ _ _ Hw r Ht).
  - intros x [->|Hx]%elem_of_cons; [split; [by left|done]|by apply HT].
Qed.

(** The mapped records after [r] was entered. *)
Lemma entered_newest rc s' recs' : entered s recs r rc s' recs' ->
  (forall x, x ∈ recs' -> newest (r :: done) x) /\ (forall x, x ∈ r :: done -> r_key x ∈ r_key <$> recs') /\
  (forall x, x ∈ recs' -> vlen x = 0 -> x ∈ next_T rc) /\
  (r_range env <$> recs') ++ invals (kv_events s') ≡ₚ (r_range env <$> r :: done) ++ tails.
Proof.
  intros (_ & _ & _ & Hcase). destruct Hw as [Hst _ Hts _ Hd Hn Hkeys _ _ _ HT Hinv].
  assert (forall x, x ∈ recs -> x ∈ done) as Hsub by (intros x Hx; by apply Hn).
  destruct Hcase as [(-> & Hk & -> & ->)|(r0 & rest & Hp & Hk & [(-> & Ho & -> & ->)|(-> & Ho & -> & ->)])].
  - split_and!.
    + intros x [->|Hx]%elem_of_cons.
      * apply newest_new; [done|]. intros r' Hr' He. apply Hk. rewrite <- He. by apply Hkeys.
      * apply newest_other; [by apply Hn|]. intros He. apply Hk. rewrite He. apply list_elem_of_fmap. by exists x.
    + intros x [->|Hx]%elem_of_cons; [by left|right; by apply Hkeys].
    + intros x [->|Hx]%elem_of_cons Hv; unfold next_T; [|destruct (_ && _); [right|]; by apply HT].
      rewrite Hv. by left.
    + by rewrite !fmap_cons, <- !app_comm_cons, Hinv.
  - assert (r0 ∈ recs) as Hr0 by (rewrite Hp; by left). rewrite Hts in Ho.
    pose proof (si_keys _ _ _ _ (rt_store _ _ Hst)) as Hnd. rewrite Hp, fmap_cons in Hnd.
    assert (forall x, x ∈ rest -> x ∈ recs) as Hrest by (intros x Hx; rewrite Hp; by right).
    split_and!.
    + intros x [->|Hx]%elem_of_cons; [by apply (newest_replace done r0); [| |apply Hn| |]|].
      apply newest_other; [by apply Hn, Hrest|]. rewrite <- Hk. intros He. apply NoDup_cons_1_1 in Hnd.
      apply Hnd. rewrite He. apply list_elem_of_fmap. by exists x.
    + intros x [->|Hx]%elem_of_cons; [by left|]. specialize (Hkeys x Hx).
      rewrite Hp, fmap_cons in Hkeys. rewrite fmap_cons, <- Hk. done.
    + intros x [->|Hx]%elem_of_cons Hv; unfold next_T; [rewrite Hv; by left|].
      destruct (_ && _); [right|]; apply HT; auto.
    + rewrite !fmap_cons, <- !app_comm_cons, <- Hinv. f_equiv. rewrite Hp, fmap_cons, <- app_comm_cons.
      by rewrite Permutation_middle.
  - assert (r0 ∈ recs) as Hr0 by (rewrite Hp; by left). rewrite Hts in Ho.
    assert (older r r0) as Hold.
    { destruct (older_total r r0) as [|Hb']; [done|by apply Hd, Hsub| |done|].
      - intros ->. by apply Hnew, Hsub.
      - unfold older in Hb'. congruence. }
    split_and!.
    + intros x Hx. destruct (decide (r_key x = r_key r)) as [He|Hne].
      * apply newest_keep; [by apply Hn|done|]. assert (x = r0) as ->; [|done].
        apply (key_inj env 0 _ recs (rt_store _ _ Hst)); [done|done|congruence].
      * apply newest_other; [by apply Hn|done].
    + intros x [->|Hx]%elem_of_cons; [|by apply Hkeys]. rewrite <- Hk. apply list_elem_of_fmap. by exists r0.
    + intros x Hx Hv. by apply HT.
    + rewrite fmap_cons, <- app_comm_cons, <- Hinv. by rewrite Permutation_middle.
Qed.

Lemma enter_step fuel : (BUCKET < fuel)%nat ->
  exists rc inval mbs' s' recs',
    try_restore_entry renv fuel (ws_mbs w) (r_header r) (r_key r) (r_grain r) s = Some ((rc, inval, mbs'), s') /\
    (rc = 0 \/ rc = EEXIST) /\
    forall v, walked (r :: done) tails s' (mkWalk mbs' (next_tombs rc) v) recs' (next_T rc).
Proof.
  intros Hfuel. pose proof Hw as [Hst Hdev Hts Hc Hd Hn Hkeys _ _ _ _ _].
  assert (forall x, x ∈ recs -> x ∈ all) as Hsub by (intros x Hx; by apply Hd, Hn).
  assert (rec_ok env (kv_dev s) r) as Hok by (rewrite Hdev; by apply (lg_recs Hlog)).
  assert (forall x, x ∈ recs -> apart env r x) as Hap.
  { intros x Hx. destruct (lg_apart Hlog r x Hr (Hsub x Hx)) as [->|]; [|done].
    destruct Hnew. by apply Hn. }
  assert (exists rc inval mbs' s' recs',
    try_restore_entry renv fuel (ws_mbs w) (r_header r) (r_key r) (r_grain r) s = Some ((rc, inval, mbs'), s') /\
    (rc = 0 \/ rc = EEXIST) /\ cache_ok mbs' /\ entered s recs r rc s' recs')
    as (rc & inval & mbs' & s' & recs' & He & Hrc & Hc' & Hent).
  { destruct (decide (r_key r ∈ r_key <$> recs)) as [(r0 & Hk & [rest Hp]%elem_of_Permutation)%list_elem_of_fmap|Hk].
    - by apply (enter_existing s recs Hst r Hok fuel Hfuel (ws_mbs w) Hc Hap r0 rest).
    - destruct (enter_new s recs Hst r Hok fuel Hfuel (ws_mbs w) Hc Hap Hk) as (mbs' & s' & ? & ? & ?).
      + apply (bucket_has_room s recs all); try done. by apply (lg_room Hlog).
      + eexists 0, 0, mbs', s', _. split; [done|]. split; [by left|]. by split. }
  exists rc, inval, mbs', s', recs'. split; [done|]. split; [done|]. intros v.
  destruct (entered_newest rc s' recs' Hent) as (H1 & H2 & H3 & H4). destruct (next_T_ok rc) as [H5 H6].
  destruct Hent as (Hdev' & Hts' & Hst' & _).
  split; try done; [congruence|congruence| |apply next_tombs_ok].
  intros x [->|Hx]%elem_of_cons; [done|by apply Hd].
Qed.

End Step.

(** ** The walk over a segment *)

Section Segment.
Context (G net ts : Z) (fuel : nat) (Hfuel : (BUCKET < fuel)%nat).

(** The record has the checksum of a segment stamped [ts]. *)
Definition sealed (r : krec) : Prop :=
  dev_read dev (r_grain r * gs + Z.of_nat (length (r_bytes r))) sizeof_suffix =
  le_bytes 2 (u16 (e_checksum16 env (u32 ts) (header_bytes (r_header r)))).

(** The walk stops at offset [p]: at the end, at a header that leads out of the
    segment or before a wrong checksum. *)
Definition log_stops (p : Z) : bool :=
  let size := net * gs in
  let mapped := align_up size 4096 in
  let head := dev_read dev (G * gs + p) sizeof_store in
  let s := header_of head in
  let end_ := p + Z.of_nat sizeof_store + key_size s + val_size s in
  (size <=? p) ||
  ((p + Z.of_nat sizeof_store <=? mapped) &&
   ((size <? p + val_size s + key_size s) ||
    ((end_ + Z.of_nat sizeof_suffix <=? mapped) &&
     negb (u16 (e_checksum16 env (u32 ts) head) =? le_val (dev_read dev (G * gs + end_) sizeof_suffix))))).

Fixpoint log_end (g : Z) (l : list krec) : Z :=
  match l with
  | [] => g
  | r :: l' => log_end (g + r_grains env r) l'
  end.

Lemma recover_stops k p g rc w s : kv_dev s = dev -> log_stops p = true ->
  recover_walk renv (S k) fuel ts (G * gs) (net * gs) p g rc w s = Some ((rc, g, w), s).
Proof.
  intros Hd Hstop. unfold log_stops in Hstop. cbn [recover_walk].
  destruct (Z.leb_spec (net * gs) p) as [|Hp]; [done|]. cbn [orb] in Hstop.
  apply andb_true_iff in Hstop as [H1 Hstop]. apply Z.leb_le in H1.
  rewrite (proj2 (Z.ltb_ge _ _)) by done. erewrite bind_run by reflexivity. rewrite Hd. cbv zeta.
  destruct (Z.ltb_spec (net * gs) (p + val_size (header_of (dev_read dev (G * gs + p) sizeof_store)) +
    key_size (header_of (dev_read dev (G * gs + p) sizeof_store)))); [done|]. cbn [orb] in Hstop.
  apply andb_true_iff in Hstop as [H2 Hcrc]. apply Z.leb_le in H2.
  rewrite (proj2 (Z.ltb_ge _ _)) by done. by rewrite Hcrc.
Qed.

(** One record. *)
Lemma recover_record k r g l rc w s : kv_dev s = dev -> segment_log env dev G net g (r :: l) -> sealed r ->
  recover_walk renv (S k) fuel ts (G * gs) (net * gs) ((g - G) * gs) g rc w s =
    ('(rc, inval, mbs) ← try_restore_entry renv fuel (ws_mbs w) (r_header r) (r_key r) g;
     let valid := if rc =? 0 then u64 (ws_valid_grain_nr w + r_grains env r) else ws_valid_grain_nr w in
     if (rc =? 0) || (rc =? EEXIST) then
       recover_walk renv k fuel ts (G * gs) (net * gs) ((g + r_grains env r - G) * gs) (g + r_grains env r) 0
         (mkWalk mbs (next_tombs w r rc) (u64 (valid - inval)))
     else mret (if rc =? ENOSPC then rc else ENOENT, g, mkWalk mbs (next_tombs w r rc) valid)) s.
Proof.
  intros Hd Hsl Hseal. pose proof (log_head env Hq G net dev r g l Hsl) as (Hg & Hok & HG & Hend & Hpos & H62).
  pose proof (ro_fits _ _ _ Hok) as Hf. pose proof Hf as [Hkl Hvl Hsum _]. pose proof (q_grain _ Hq) as Hgs.
  destruct (grains_spec env Hq _ _ Hf) as [_ [Hlo _]]. fold (r_grains env r) in Hlo.
  assert (g * gs + r_grains env r * gs <= (G + net) * gs) as Hext by nia.
  pose proof (align_up_spec (net * gs) 4096 ltac:(nia) ltac:(lia) ltac:(nia)) as [_ Hal].
  destruct (log_bytes env Hq dev r Hok ltac:(nia)) as (Hhead & Hhdr & Hkey & _).
  cbn [recover_walk]. rewrite (proj2 (Z.leb_gt (net * gs) _)) by nia.
  change (Z.of_nat sizeof_store) with 14. change (Z.of_nat sizeof_suffix) with 2.
  rewrite (proj2 (Z.ltb_ge _ _)) by nia. erewrite bind_run by reflexivity. rewrite Hd. cbv zeta.
  replace (G * gs + (g - G) * gs) with (r_grain r * gs) by (rewrite Hg; lia).
  change 14%nat with sizeof_store in Hhead, Hhdr. rewrite Hhdr, Hhead.
  change (val_size (r_header r)) with (vlen r). change (key_size (r_header r)) with (klen r).
  rewrite (proj2 (Z.ltb_ge _ _)) by nia. rewrite (proj2 (Z.ltb_ge _ _)) by nia.
  unfold sealed in Hseal. rewrite r_bytes_length in Hseal.
  replace (G * gs + ((g - G) * gs + 14 + klen r + vlen r)) with (r_grain r * gs + (14 + klen r + vlen r))
    by (rewrite Hg; lia).
  rewrite Hseal, le_val_bytes by (apply wrap_range; lia). rewrite Z.eqb_refl. cbn [negb].
  change (Z.to_nat (klen r)) with (Z.to_nat (Z.of_nat (length (r_key r)))). rewrite Nat2Z.id, Hkey.
  change (kv_tot_grains_get gs (klen r) (vlen r)) with (r_grains env r).
  rewrite (tot_bytes_fits env Hq) by done. fold (r_grains env r).
  rewrite (wrap_small 64 (g + r_grains env r)) by (unfold in_width; nia).
  replace ((g - G) * gs + r_grains env r * gs) with ((g + r_grains env r - G) * gs) by lia.
  unfold next_tombs. rewrite Hg. reflexivity.
Qed.

Lemma segment_log_next r g l : segment_log env dev G net g (r :: l) -> segment_log env dev G net (g + r_grains env r) l.
Proof.
  intros Hsl. pose proof (log_head env Hq G net dev r g l Hsl) as (_ & _ & _ & _ & Hpos & _).
  destruct Hsl as [Hrg (_ & _ & Hf) Ho]. apply Forall_cons_iff in Ho as [_ Ho].
  split; [lia|done|done].
Qed.

Lemma log_count l g : segment_log env dev G net g l -> Z.of_nat (length l) <= G + net - g \/ l = [].
Proof.
  revert g. induction l as [|r l IH]; intros g Hsl; [by right|]. left.
  pose proof (log_head env Hq G net dev r g l Hsl) as (_ & _ & _ & He & Hpos & _).
  destruct (IH _ (segment_log_next _ _ _ Hsl)) as [?| ->]; cbn [length]; lia.
Qed.

Lemma walk_log tails l : forall rounds g rc done s w recs T,
  walked done tails s w recs T -> segment_log env dev G net g l -> Forall sealed l ->
  (forall r, r ∈ l -> r ∈ all) -> NoDup (l ++ done) ->
  log_stops ((log_end g l - G) * gs) = true -> (length l < rounds)%nat ->
  exists s' w' recs' T',
    recover_walk renv rounds fuel ts (G * gs) (net * gs) ((g - G) * gs) g rc w s =
      Some ((if l is [] then rc else 0, log_end g l, w'), s') /\
    walked (rev l ++ done) tails s' w' recs' T'.
Proof.
  induction l as [|r l IH]; intros [|k] g rc done s w recs T Hw Hsl Hse Hin Hnd Hst Hk; [simpl in Hk; lia..| |simpl in Hk; lia|].
  { exists s, w, recs, T. split; [|done]. apply recover_stops; [apply (wk_dev _ _ _ _ _ _ Hw)|done]. }
  apply Forall_cons_iff in Hse as [Hser Hse]. cbn [app] in Hnd.
  rewrite (recover_record k r g l rc w s (wk_dev _ _ _ _ _ _ Hw) Hsl Hser).
  pose proof (log_head env Hq G net dev r g l Hsl) as (Hg & _).
  destruct (enter_step done tails s w recs T Hw r) with (fuel := fuel)
    as (rc' & inval & mbs' & s' & recs' & He & Hrc & Hw'); [by apply Hin; left| |done|].
  { intros Hd. apply NoDup_cons_1_1 in Hnd. apply Hnd, elem_of_app. by right. }
  rewrite Hg in He. rewrite (bind_run _ _ _ _ _ He). cbv beta iota zeta. set (v := u64 (_ - inval)).
  destruct (IH k (g + r_grains env r) 0 (r :: done) s' _ recs' _ (Hw' v) (segment_log_next _ _ _ Hsl) Hse)
    as (s2 & w2 & recs2 & T2 & He2 & Hw2); [intros x Hx; apply Hin; by right| |done|simpl in Hk; lia|].
  { by rewrite <- Permutation_middle. }
  exists s2, w2, recs2, T2. split; [|cbn [rev]; by rewrite <- app_assoc].
  assert ((rc' =? 0) || (rc' =? EEXIST) = true) as -> by (by destruct Hrc as [-> | ->]).
  rewrite He2. by destruct l.
Qed.

End Segment.
(** ** All segments *)

Lemma walked_perm done done' tails tails' s w recs T :
  done ≡ₚ done' -> tails ≡ₚ tails' -> walked done tails s w recs T -> walked done' tails' s w recs T.
Proof.
  intros Hp Ht [H1 H2 H3 H4 H5 H6 H7 H8 H9 H10 H11 H12]. split; try done.
  - intros r. rewrite <- Hp. apply H5.
  - intros r Hr. destruct (H6 r Hr) as [Hin Hn]. split; [by rewrite <- Hp|]. intros r'. rewrite <- Hp. apply Hn.
  - intros r. rewrite <- Hp. apply H7.
  - intros r Hr. rewrite <- Hp. by apply H10.
  - by rewrite H12, Hp, Ht.
Qed.

Lemma walked_tail done tails s w recs T g n :
  walked done tails s w recs T -> walked done ((g, n) :: tails) (KvStore.log (Kv_invalidate g n) s) w recs T.
Proof.
  intros [H1 H2 H3 H4 H5 H6 H7 H8 H9 H10 H11 H12]. split; try done.
  - destruct H1 as [Ho Hs Hc]. split; [done| |done]. apply (store_inv_same env 0 (with_bits b s)); done.
  - cbn [KvStore.log kv_events invals omap list_omap]. fold (invals (kv_events s)).
    by rewrite <- !Permutation_middle, H12.
Qed.

Section Segments.
Context (m : MD) (logs : nat -> option (Z * list krec)) (fuel : nat) (Hfuel : (BUCKET < fuel)%nat).

Local Abbreviation rs := (re_rs renv).
Local Abbreviation seg := (rs_seg_size rs).

Local Abbreviation seg_net := (net rs m).

Definition seg_records (j : nat) : list krec := from_option snd [] (logs j).
Definition seg_tail (j : nat) : list (Z * Z) :=
  match logs j with
  | None => []
  | Some (_, l) =>
      let e := log_end (Z.of_nat j * seg) l in
      if e <? Z.of_nat j * seg + seg_net then [(e, Z.of_nat j * seg + seg_net - e)] else []
  end.

(** What is on the device: which segments are stamped as the store's, and that
    each of those starts with records. *)
Record device_ok : Prop := {
  do_seg : 0 < seg < 2 ^ 31;
  do_md : 0 <= get_seg_md_size m <= seg;
  do_size : Z.of_nat (rs_seg_nr rs) * seg * gs <= 2 ^ 62;
  do_nr : Z.of_nat (rs_seg_nr rs) < 2 ^ 32;
  do_stamp : forall j, (j < rs_seg_nr rs)%nat -> stamp_of rs m dev j = fst <$> logs j;
  do_mmap : forall j, re_mmap renv j = true;
  do_log : forall j ts l, (j < rs_seg_nr rs)%nat -> logs j = Some (ts, l) ->
    l <> [] /\ segment_log env dev (Z.of_nat j * seg) seg_net (Z.of_nat j * seg) l /\ Forall (sealed ts) l /\
    log_stops (Z.of_nat j * seg) seg_net ts ((log_end (Z.of_nat j * seg) l - Z.of_nat j * seg) * gs) = true;
  do_all : all = concat (seg_records <$> seq 0 (rs_seg_nr rs));
  do_nodup : NoDup all
}.

Context (Hdev : device_ok).

Lemma seg_net_size : rs_net_size rs m = seg_net /\ 0 <= seg_net <= seg.
Proof.
  pose proof (do_seg Hdev). pose proof (do_md Hdev). unfold rs_net_size, net. split; [|lia].
  rewrite wrap_small; [done|]. unfold in_width. lia.
Qed.

Lemma seg_start j : (j < rs_seg_nr rs)%nat ->
  u64 (Z.of_nat j * seg) = Z.of_nat j * seg /\ u64 (Z.of_nat j * seg + seg_net) = Z.of_nat j * seg + seg_net /\
  u64 (Z.of_nat j * seg * gs) = Z.of_nat j * seg * gs /\ u64 (seg_net * gs) = seg_net * gs /\
  0 <= Z.of_nat j * seg /\ (Z.of_nat j * seg + seg) * gs <= 2 ^ 62.
Proof.
  intros Hj. pose proof (do_seg Hdev). pose proof (do_size Hdev) as Hd. pose proof (q_grain _ Hq).
  pose proof seg_net_size as [_ Hn].
  assert ((Z.of_nat j * seg + seg) * gs <= Z.of_nat (rs_seg_nr rs) * seg * gs) as Hle.
  { apply Z.mul_le_mono_nonneg_r; [lia|]. nia. }
  assert (Z.of_nat j * seg + seg <= (Z.of_nat j * seg + seg) * gs) by nia.
  assert (seg_net * gs <= (Z.of_nat j * seg + seg) * gs) by (apply Z.mul_le_mono_nonneg_r; lia).
  assert (Z.of_nat j * seg * gs <= (Z.of_nat j * seg + seg) * gs) by (apply Z.mul_le_mono_nonneg_r; lia).
  rewrite !wrap_small by (unfold in_width; nia). split_and!; try done; lia.
Qed.

Definition max_ts (mx : Z) (segs : list nat) : Z :=
  foldl (fun a j => from_option (fun x => Z.max a (fst x)) a (logs j)) mx segs.
Definition stamped_nr (segs : list nat) : nat := length (filter (fun j => is_Some (logs j)) segs).

Lemma seg_records_all j r : (j < rs_seg_nr rs)%nat -> r ∈ seg_records j -> r ∈ all.
Proof.
  intros Hj Hr%list_elem_of_In. rewrite (do_all Hdev). apply list_elem_of_In, in_concat.
  exists (seg_records j). split; [|done]. apply list_elem_of_In, list_elem_of_fmap.
  exists j. split; [done|]. apply elem_of_seq. lia.
Qed.

(** One stamped segment. *)
Lemma recover_segment j ts l segs done tails s w recs T mx nr :
  walked done tails s w recs T -> (j < rs_seg_nr rs)%nat -> logs j = Some (ts, l) -> NoDup (l ++ done) ->
  exists s' w' recs' T', walked (l ++ done) (seg_tail j ++ tails) s' w' recs' T' /\
    recover_segments renv fuel m (j :: segs) w mx nr s =
    recover_segments renv fuel m segs w' (Z.max mx ts) (u64 (nr + 1)) s'.
Proof.
  intros Hw Hj Hl Hnd. destruct seg_net_size as [Hns Hn0]. destruct (seg_start j Hj) as (E1 & E2 & E3 & E4 & E5 & E6).
  destruct (do_log Hdev j ts l Hj Hl) as (Hne & Hsl & Hse & Hstop).
  pose proof (do_stamp Hdev j Hj) as Hst. rewrite Hl in Hst. unfold stamp_of in Hst.
  cbn [recover_segments]. erewrite bind_run by reflexivity. rewrite (wk_dev _ _ _ _ _ _ Hw), Hns, E1, E2.
  destruct (read_seg_md _ _ dev m) as [md|]; [|done]. cbn [mbind option_bind] in Hst.
  destruct (validate_seg_md _ md KV m); [|done]. injection Hst as ->. cbn [negb].
  rewrite (do_mmap Hdev). cbn [negb]. rewrite E3, E4.
  destruct (walk_log (Z.of_nat j * seg) seg_net ts fuel Hfuel tails l (S (Z.to_nat (seg_net * gs)))
    (Z.of_nat j * seg) ENOENT done s w recs T Hw Hsl Hse) as (s' & w' & recs' & T' & He & Hw').
  - intros r Hr. apply (seg_records_all j); [done|]. unfold seg_records. by rewrite Hl.
  - done.
  - done.
  - destruct (log_count _ _ fuel Hfuel l _ Hsl) as [?| ->]; [|done]. pose proof (q_grain _ Hq). nia.
  - rewrite Z.sub_diag, Z.mul_0_l in He. rewrite (bind_run _ _ _ _ _ He).
    assert ((if l is [] then ENOENT else 0) = 0) as -> by (by destruct l).
    cbv beta iota. cbn [negb Z.eqb]. unfold seg_tail. rewrite Hl.
    apply (walked_perm _ (l ++ done) _ tails) in Hw'; [|by rewrite <- (Permutation_rev l)|done].
    destruct (Z.ltb_spec (log_end (Z.of_nat j * seg) l) (Z.of_nat j * seg + seg_net)).
    + eexists _, w', recs', T'. split; [by apply walked_tail|]. by erewrite bind_run by reflexivity.
    + exists s', w', recs', T'. split; [done|]. by erewrite bind_run by reflexivity.
Qed.

Lemma recover_skipped j segs w mx nr s : kv_dev s = dev -> (j < rs_seg_nr rs)%nat -> logs j = None ->
  recover_segments renv fuel m (j :: segs) w mx nr s = recover_segments renv fuel m segs w mx nr s.
Proof.
  intros Hd Hj Hl. destruct seg_net_size as [Hns _]. destruct (seg_start j Hj) as (E1 & E2 & _).
  pose proof (do_stamp Hdev j Hj) as Hst. rewrite Hl in Hst. unfold stamp_of in Hst.
  cbn [recover_segments]. erewrite bind_run by reflexivity. rewrite Hd, Hns, E1, E2.
  destruct (read_seg_md _ _ dev m) as [md|]; [|done]. cbn [mbind option_bind] in Hst.
  by destruct (validate_seg_md _ md KV m).
Qed.

Lemma recover_segments_spec segs : forall done tails s w recs T mx nr,
  walked done tails s w recs T -> (forall j, j ∈ segs -> (j < rs_seg_nr rs)%nat) ->
  NoDup (concat (seg_records <$> segs) ++ done) -> 0 <= nr -> nr + Z.of_nat (length segs) < 2 ^ 64 ->
  exists s' w' recs' T',
    recover_segments renv fuel m segs w mx nr s =
      Some ((0, w', max_ts mx segs, nr + Z.of_nat (stamped_nr segs)), s') /\
    walked (concat (seg_records <$> segs) ++ done) (concat (seg_tail <$> segs) ++ tails) s' w' recs' T'.
Proof.
  induction segs as [|j segs IH]; intros done tails s w recs T mx nr Hw Hj Hnd H0 Hnr.
  { exists s, w, recs, T. split; [|done]. cbn [recover_segments]. by rewrite Z.add_0_r. }
  rewrite fmap_cons in Hnd. cbn [concat] in Hnd. cbn [length] in Hnr. unfold stamped_nr, max_ts.
  rewrite filter_cons. cbn [foldl]. rewrite !fmap_cons. cbn [concat].
  destruct (logs j) as [[ts l]|] eqn:Hl.
  - assert (seg_records j = l) as Hsr by (unfold seg_records; by rewrite Hl). rewrite Hsr in *.
    destruct (recover_segment j ts l segs done tails s w recs T mx nr Hw) as (s1 & w1 & recs1 & T1 & Hw1 & ->);
      [by apply Hj; left|done| |].
    { rewrite <- app_assoc in Hnd. rewrite Permutation_app_swap_app in Hnd. by apply list.NoDup_app in Hnd as (_ & _ & ?). }
    rewrite (wrap_small 64 (nr + 1)) by (unfold in_width; lia).
    destruct (IH (l ++ done) (seg_tail j ++ tails) s1 w1 recs1 T1 (Z.max mx ts) (nr + 1) Hw1)
      as (s2 & w2 & recs2 & T2 & -> & Hw2); [intros i Hi; apply Hj; by right| |lia|lia|].
    { by rewrite <- app_assoc, Permutation_app_swap_app in Hnd. }
    exists s2, w2, recs2, T2. rewrite decide_True by done. split.
    + cbn [length from_option fst]. unfold stamped_nr, max_ts.
      assert (forall x : nat, nr + 1 + Z.of_nat x = nr + Z.of_nat (S x)) as -> by lia. done.
    + apply (walked_perm _ _ _ _ _ _ _ _) with (3 := Hw2); by rewrite <- app_assoc, Permutation_app_swap_app.
  - assert (seg_records j = []) as Hsr by (unfold seg_records; by rewrite Hl). rewrite Hsr in *.
    assert (seg_tail j = []) as -> by (unfold seg_tail; by rewrite Hl).
    rewrite recover_skipped; [|apply (wk_dev _ _ _ _ _ _ Hw)|apply Hj; by left|done].
    destruct (IH done tails s w recs T mx nr Hw) as (s2 & w2 & recs2 & T2 & -> & Hw2);
      [intros i Hi; apply Hj; by right|done|lia|lia|].
    exists s2, w2, recs2, T2. by rewrite decide_False by (by intros []).
Qed.

End Segments.

(** ** The tombstones *)

(** The statistics count the records [X]. *)
Definition counts_of (X : list krec) (s : kv) : Prop :=
  kv_key_nr s = u64 (Z.of_nat (length X)) /\
  kv_used_bytes s = u64 (foldr (fun r a => klen r + vlen r + a) 0 X) /\
  kv_total_bytes s = u64 (foldr (fun r a => r_grains env r * gs + a) 0 X).

Lemma counts_of_perm X Y s : X ≡ₚ Y -> counts_of X s -> counts_of Y s.
Proof.
  intros Hp (H1 & H2 & H3). unfold counts_of. rewrite H1, H2, H3, (Permutation_length Hp).
  rewrite (foldr_sum_perm (fun r => klen r + vlen r) X Y Hp), (foldr_sum_perm (fun r => r_grains env r * gs) X Y Hp).
  done.
Qed.

Lemma counts_of_drop r X k u t s : rec_ok env dev r -> counts_of (r :: X) (set_stats k u t s) ->
  counts_of X (set_stats (u64 (k - 1)) (u64 (u - kv_raw_bytes_get (klen r) (vlen r)))
                         (u64 (t - kv_tot_bytes_get gs (klen r) (vlen r))) s).
Proof.
  intros Hok (H1 & H2 & H3). pose proof (ro_fits _ _ _ Hok) as Hf. unfold counts_of in *.
  cbn [set_stats kv_key_nr kv_used_bytes kv_total_bytes foldr length] in *.
  rewrite (kv_raw_fits env Hq), (tot_bytes_fits env Hq), H1, H2, H3 by done.
  change (grains_of env (klen r) (vlen r)) with (r_grains env r).
  replace (Z.of_nat (S (length X))) with (1 + Z.of_nat (length X)) by lia.
  by rewrite !wrap_sub_l.
Qed.

Section Tombstones.
Context (s : kv) (recs : list krec) (Hst : rec_state s recs).

Lemma tomb_lookup r : r ∈ all -> (forall x, x ∈ recs -> x ∈ all) ->
  is_Some (dir_lookup_pba (kv_map s) (e_hash env (r_key r)) (r_grain r)) <-> r ∈ recs.
Proof.
  intros Hr Hsub. set (h := e_hash env (r_key r)).
  assert (dir_lookup_pba (set_bits b (kv_map s)) h (r_grain r) = dir_lookup_pba (kv_map s) h (r_grain r)) as <-.
  { unfold dir_lookup_pba. by rewrite (set_bits_idx 0 b zero_bits Hb) by apply (rt_one _ _ Hst). }
  assert (no_tombs (kv_map (with_bits b s)) (r_grain r) 1) as Hnt.
  { intros h' q _ Hd _. change (kv_map (with_bits b s)) with (set_bits b (kv_map s)) in Hd.
    rewrite (set_bits_table 0 b zero_bits Hb) in Hd by apply (rt_one _ _ Hst).
    pose proof (rt_clean _ _ Hst h' q) as Hc. unfold entry_at, table_of in Hc. unfold table in Hd. congruence. }
  pose proof (rt_store _ _ Hst) as Hinv. split.
  - intros [q Hl]. destruct (lookup_pba_rec env 0 _ recs Hinv _ _ Hnt h (r_grain r) q ltac:(lia) Hl)
      as (_ & x & Hx & Hg & _).
    by rewrite <- (grain_eq x r (Hsub x Hx) Hr Hg).
  - intros Hin. destruct (lookup_pba_found env Hq 0 _ recs Hinv _ _ Hnt r Hin ltac:(lia)) as (q & Hl & _).
    by exists q.
Qed.

Lemma remove_tombstones_spec T : forall X k u t, NoDup T -> (forall r, r ∈ T -> r ∈ all) ->
  (forall x, x ∈ recs -> x ∈ all) -> (forall r, r ∈ T -> r ∈ recs -> r ∈ X) ->
  counts_of X (set_stats k u t s) ->
  exists k' u' t' R X', remove_tombstones renv (tomb_of <$> T) (set_stats k u t s) = Some (tt, set_stats k' u' t' s) /\
    X ≡ₚ R ++ X' /\ (forall r, r ∈ R <-> r ∈ T /\ r ∈ recs) /\ counts_of X' (set_stats k' u' t' s).
Proof.
  induction T as [|r T IH]; intros X k u t Hnd Hall Hsub HX Hc.
  { exists k, u, t, [], X. split; [done|]. split; [done|]. split; [|done]. intros r.
    split; [|intros [[]%elem_of_nil _]]. by intros ?%elem_of_nil. }
  pose proof (Hall r ltac:(by left)) as Hr. pose proof (tomb_lookup r Hr Hsub) as Hl.
  rewrite fmap_cons. cbn [tomb_of remove_tombstones]. erewrite bind_run by reflexivity.
  change (kv_map (set_stats k u t s)) with (kv_map s).
  destruct (dir_lookup_pba (kv_map s) (e_hash env (r_key r)) (r_grain r)) as [q|].
  - assert (r ∈ recs) as Hin by (by apply Hl).
    assert (r ∈ X) as [X1 HX1]%elem_of_Permutation by (apply HX; [by left|done]).
    apply (counts_of_perm _ _ _ HX1), counts_of_drop in Hc; [|by apply (lg_recs Hlog)].
    erewrite bind_run by reflexivity.
    change (set_stats _ _ _ (set_stats k u t s)) with
      (set_stats (u64 (k - 1)) (u64 (u - kv_raw_bytes_get (klen r) (vlen r)))
                 (u64 (t - kv_tot_bytes_get gs (klen r) (vlen r))) s).
    destruct (IH X1 (u64 (k - 1)) (u64 (u - kv_raw_bytes_get (klen r) (vlen r)))
                 (u64 (t - kv_tot_bytes_get gs (klen r) (vlen r)))) as (k' & u' & t' & R & X' & He & HX' & HR & Hc');
      [by apply NoDup_cons_1_2 in Hnd|intros; apply Hall; by right|done| |done|].
    { intros x Hx Hxr. assert (x ∈ X) as Hxx by (apply HX; [by right|done]). rewrite HX1 in Hxx.
      apply elem_of_cons in Hxx as [->|]; [by apply NoDup_cons_1_1 in Hnd|done]. }
    exists k', u', t', (r :: R), X'. split; [done|]. split; [by rewrite HX1, HX'|]. split; [|done].
    intros x. rewrite !elem_of_cons, HR. split; [intros [->|[]]; auto|intros [[]]; auto].
  - assert (r ∉ recs) as Hin by (rewrite <- Hl; by intros []).
    destruct (IH X k u t) as (k' & u' & t' & R & X' & He & HX' & HR & Hc');
      [by apply NoDup_cons_1_2 in Hnd|intros; apply Hall; by right|done|intros; apply HX; [by right|done]|done|].
    erewrite bind_run by reflexivity. exists k', u', t', R, X'. split; [done|]. split; [done|]. split; [|done].
    intros x. rewrite HR, elem_of_cons. split; [intros []; auto|intros [[->|?] ?]; done].
Qed.

End Tombstones.
(** ** The whole recovery *)

(** The store's invariant, but for the statistics. *)
Definition holds (k : Z) (s : kv) (recs : list krec) : Prop :=
  exists kn u t, store_inv env k (set_stats kn u t s) recs.

Definition live_recs (recs : list krec) : list krec := filter (fun r => vlen r <> 0) recs.

Lemma newest_unique r r' : newest all r -> newest all r' -> r_key r = r_key r' -> r = r'.
Proof.
  intros [H1 Hn] [H2 Hn'] Hk. destruct (Hn r' H2) as [|Ho]; [done|done|].
  destruct (Hn' r H1) as [|Ho']; [done|done|]. apply older_spec in Ho, Ho'; [|done..]. lia.
Qed.

(** The statistics after the tombstones are taken out. *)
Lemma recs_split (recs T R X' : list krec) : NoDup recs -> recs ≡ₚ R ++ X' -> (forall r, r ∈ R <-> r ∈ T /\ r ∈ recs) ->
  (forall r, r ∈ T -> vlen r = 0) -> (forall r, r ∈ recs -> vlen r = 0 -> r ∈ T) -> X' ≡ₚ live_recs recs.
Proof.
  intros Hnd Hp HR HT HrT. unfold live_recs. rewrite Hp, list.filter_app.
  rewrite (filter_none (fun r => vlen r <> 0) R), (filter_all (fun r => vlen r <> 0) X'); [done|..].
  - apply List.Forall_forall. intros r Hr%list_elem_of_In Hv.
    assert (r ∈ recs) as Hin by (rewrite Hp; apply elem_of_app; by right).
    rewrite Hp in Hnd. apply list.NoDup_app in Hnd as (_ & Hd & _). apply (Hd r); [|done].
    apply HR. split; [by apply HrT|done].
  - intros r Hr Hv. apply Hv, HT. by apply HR.
Qed.

Section Whole.
Context (m : MD) (logs : nat -> option (Z * list krec)) (fuel : nat) (Hfuel : (BUCKET < fuel)%nat).
Context (Hdev : device_ok m logs).

Local Abbreviation segs := (seq 0 (rs_seg_nr (re_rs renv))).

Lemma crash_recovery_spec s :
  rec_state s [] -> kv_dev s = dev -> kv_seg_ts s = tsf -> kv_events s = [] -> (0 < stamped_nr logs segs)%nat ->
  exists s' recs, crash_recovery renv fuel m [] s = Some ((0, max_ts logs 0 segs), s') /\
    (forall r, r ∈ recs <-> newest all r) /\ one_table 0 (kv_map s') /\
    holds 0 (with_bits b s') recs /\ counts_of (live_recs recs) s' /\
    (r_range env <$> recs) ++ invals (kv_events s') ≡ₚ (r_range env <$> all) ++ concat (seg_tail m logs <$> segs).
Proof.
  intros Hst Hd Hts Hev Hnr.
  assert (walked [] [] s (mkWalk [] [] 0) [] []) as Hw0.
  { split; try done; try (intros r ?%elem_of_nil; done); [constructor|constructor|]. by rewrite Hev. }
  pose proof (do_nodup _ _ Hdev) as Hnd. rewrite (do_all _ _ Hdev) in Hnd.
  destruct (recover_segments_spec m logs fuel Hfuel Hdev segs [] [] s _ [] [] 0 0 Hw0)
    as (s1 & w1 & recs & T & He & Hw1); [intros j ?%elem_of_seq; lia|by rewrite app_nil_r|lia| |].
  { rewrite length_seq. pose proof (do_nr _ _ Hdev). lia. }
  rewrite !app_nil_r, <- (do_all _ _ Hdev) in Hw1. unfold crash_recovery.
  rewrite (bind_run _ _ _ _ _ He). cbv beta iota. cbn [negb Z.eqb]. rewrite (proj2 (Z.eqb_neq _ 0)) by lia.
  destruct Hw1 as [Hst1 Hd1 Hts1 _ _ Hn Hk Htm HndT HT HTr Hin].
  apply Permutation_map_inv in Htm as (T' & -> & HpT).
  assert (forall x, x ∈ recs -> x ∈ all) as Hsub by (intros x Hx; by apply Hn).
  pose proof (rt_store _ _ Hst1) as Hinv.
  assert (s1 = set_stats (kv_key_nr s1) (kv_used_bytes s1) (kv_total_bytes s1) s1) as Heta by (by destruct s1).
  destruct (remove_tombstones_spec s1 recs Hst1 T' recs (kv_key_nr s1) (kv_used_bytes s1) (kv_total_bytes s1))
    as (kn & u & t & R & X' & He' & HX & HR & Hc).
  - by rewrite <- HpT.
  - intros r. rewrite <- HpT. intros Hr. by apply HT.
  - done.
  - done.
  - destruct Hinv as [_ _ _ _ _ H1 H2 H3]. done.
  - rewrite <- Heta in He'. rewrite (bind_run _ _ _ _ _ He').
    exists (set_stats kn u t s1), recs. split; [done|]. split; [|split; [apply (rt_one _ _ Hst1)|split; [|split; [|done]]]].
    + intros r. split; [apply Hn|]. intros Hr. pose proof (Hk r (proj1 Hr)) as (x & Hkx & Hx)%list_elem_of_fmap.
      by rewrite (newest_unique r x Hr (Hn x Hx) Hkx).
    + eexists _, _, _. apply (store_inv_same env 0 (with_bits b s1)); [exact Hinv|reflexivity..].
    + apply (counts_of_perm X'); [|done]. apply (recs_split recs T' R X'); try done.
      * apply (NoDup_fmap_1 r_key), (si_keys _ _ _ _ Hinv).
      * intros r. rewrite <- HpT. intros Hr. by apply HT.
      * intros r. rewrite <- HpT. apply HTr.
Qed.

End Whole.
End Log.
End Entry.

(** ** The preparation *)

Section Prep.
Context (renv : rec_env) (m : MD) (dev : device) (logs : nat -> option (Z * list krec)).
Context (Hge : geometry (re_rs renv) m m).

Local Abbreviation rs := (re_rs renv).
Local Abbreviation seg := (rs_seg_size rs).

Context (Hstamp : forall j, (j < rs_seg_nr rs)%nat -> stamp_of rs m dev j = fst <$> logs j).

(** The ranges of the stamped segments. *)
Definition seg_ranges (segs : list nat) : list (Z * Z * Z) :=
  (fun j => (Z.of_nat j * seg, net rs m, rs_kv_ctlr rs)) <$> filter (fun j => is_Some (logs j)) segs.

Lemma prep_segments_spec segs : forall mx ranges nr max mx' max',
  same_md m mx -> (forall j, j ∈ segs -> (j < rs_seg_nr rs)%nat) -> 0 <= nr -> nr + Z.of_nat (length segs) < 2 ^ 64 ->
  restore_stamps rs dev segs mx max = Some (mx', max') ->
  prep_segments renv dev segs mx ranges nr =
    Some (mx', ranges ++ seg_ranges segs, nr + Z.of_nat (stamped_nr logs segs)).
Proof.
  induction segs as [|j segs IH]; intros mx ranges nr max mx' max' Hs Hlt H0 Hnr Hr.
  { injection Hr as -> ->. cbn [prep_segments]. unfold seg_ranges, stamped_nr. cbn. by rewrite app_nil_r, Z.add_0_r. }
  pose proof (Hlt j ltac:(by left)) as Hj. destruct (seg_small rs m m Hge j Hj) as (E1 & _ & E3 & _).
  pose proof Hs as (_ & Hg & Hd & _).
  assert (rs_net_size rs mx = net rs m) as Hnet.
  { rewrite <- (proj1 (rs_net_spec rs m m Hge)). unfold rs_net_size, get_seg_md_size. by rewrite Hg. }
  assert (forall x, read_seg_md (rs_preadv_md rs j) x dev mx = read_seg_md (rs_preadv_md rs j) x dev m) as Hrd
    by (intros x; unfold read_seg_md, pad_b; by rewrite Hg).
  assert (forall md, validate_seg_md (rs_crc32 rs) md KV mx = validate_seg_md (rs_crc32 rs) md KV m) as Hval
    by (intros md; unfold validate_seg_md; by rewrite Hd).
  pose proof (Hstamp j Hj) as Hst. unfold stamp_of in Hst.
  cbn [restore_stamps prep_segments length] in *. rewrite E1, Hnet, E3, Hrd in *.
  unfold seg_ranges, stamped_nr. rewrite filter_cons.
  assert (logs j = None -> restore_stamps rs dev segs mx max = Some (mx', max') ->
    prep_segments renv dev segs mx ranges nr = Some (mx', ranges ++ ((fun j => (Z.of_nat j * seg, net rs m, rs_kv_ctlr rs)) <$>
      (if decide (is_Some (logs j)) then j :: filter (fun j => is_Some (logs j)) segs
       else filter (fun j => is_Some (logs j)) segs)),
      nr + Z.of_nat (length (if decide (is_Some (logs j)) then j :: filter (fun j => is_Some (logs j)) segs
       else filter (fun j => is_Some (logs j)) segs)))) as Hskip.
  { intros Hl Hr'. rewrite decide_False by (rewrite Hl; by intros []).
    apply (IH mx ranges nr max mx' max'); auto; [|lia]. intros i Hi. apply Hlt. by right. }
  destruct (read_seg_md _ _ dev m) as [md|]; [|by apply Hskip; [revert Hst; destruct (logs j)|]].
  cbn [mbind option_bind] in Hst. rewrite Hval in *.
  destruct (validate_seg_md _ md KV m); cbn [negb] in *; [|by apply Hskip; [revert Hst; destruct (logs j)|]].
  destruct (restore_seg_ts _ _ mx) as [mx1|] eqn:Hts; [|done]. cbn [mbind option_bind] in *.
  assert (is_Some (logs j)) as Hl by (by revert Hst; destruct (logs j)).
  rewrite decide_True by done. rewrite wrap_small by (unfold in_width; lia).
  rewrite (IH mx1 _ (nr + 1) (Z.max max (sm_timestamp md)) mx' max'); try done; try lia.
  - rewrite fmap_cons, <- app_assoc. cbn [app length]. unfold seg_ranges, stamped_nr. 
    by replace (nr + 1 + Z.of_nat (length (filter (fun j => is_Some (logs j)) segs))) with
      (nr + Z.of_nat (S (length (filter (fun j => is_Some (logs j)) segs)))) by lia.
  - unfold restore_seg_ts in Hts. destruct (_ <? _)%nat; [|done]. apply (inj Some) in Hts as <-.
    destruct Hs as (? & ? & ? & ? & ?). split_and!; try done. cbn [seg_ts_m]. by rewrite length_insert.
  - intros i Hi. apply Hlt. by right.
Qed.

End Prep.
