(* ===== verification/RecoveryTheorems.v ===== *)
(** * RecoveryTheorems: what a crash leaves behind

    A recovery maps the newest record of every key of the log ([RecoverySafe]);
    and where the code falls short of that. *)
From Stdlib Require Import ZArith Lia.
From stdpp Require Import base tactics list numbers.
From S2P Require Import Prelude Util HashEntry HopscotchMap HopscotchSpec HopscotchInit HopscotchRefine.
From S2P Require Import FpTable DirectoryMap DirectoryGrow DirectoryOps Mbuff MbuffSpec.
From S2P Require Import StoreFormat Metadata KvStore KvIo KvInv KvGet KvRefine KvGc KvGcSafe Restart RestartSafe.
From S2P Require Import Recovery RecoverySafe.

Open Scope Z_scope.

(** ** Examples: three segments of 50 grains of 32 bytes *)

(** SALSA grants grain [g]. *)
Definition rec_ex_kv (g : Z) : kv_env := mkEnv 32 50 1 (fun bs => foldr Z.add 0 bs)
  (fun ts head => ts + foldr Z.add 7 head) (fun t n => Some (Z.of_nat t, replicate n 0)) (fun _ => 4096) (fun _ => 4096)
  (fun _ => (0, g)) (fun _ => env_small) (fun _ s => s).

Definition rec_ex_rs : rs_env := mkRsEnv ex_crc32 50 32 3 1 0 (fun _ => 64) (fun _ => 512) (fun _ => 512)
  (fun _ => false) (fun _ => true) (fun _ => 14) (fun _ => 20) (fun _ => 0).

Definition rec_ex_env : rec_env := mkRecEnv (rec_ex_kv 149) rec_ex_rs (fun _ => true) (fun _ => true).

Definition rec_ex_fresh : MD := MD_new 32 7 false.
Definition rec_ex_md : MD := default rec_ex_fresh (init_md (default_dev_md 4864 32 50 rec_ex_fresh) rec_ex_fresh).

(** What [seg_md_callback] writes behind segment [j] when it is opened. *)
Definition rec_ex_stamp (j ts : Z) (dev : device) : device :=
  match persist_seg_md ex_crc32 64 (replicate 11 0) (50 * j + 48) ts KV dev rec_ex_md with
  | Some (_, dev', _) => dev'
  | None => dev
  end.

(** A record with its suffix. *)
Definition rec_ex_write (r : krec) (dev : device) : device :=
  dev_write dev (r_grain r * 32) (r_bytes r ++
    le_bytes 2 (u16 (e_checksum16 (rec_ex_kv 0) (u32 (r_ts r)) (header_bytes (r_header r))))).

(** Segment 1 is older than segment 0: its first record is outdated, its second
    one was deleted. *)
Definition rec_ex_logs (j : nat) : option (Z * list krec) :=
  match j with
  | 0%nat => Some (4, [Rec [1; 2] [3; 4; 5] 0 4; Rec [7] [] 1 4])
  | 1%nat => Some (3, [Rec [1; 2] [9] 50 3; Rec [7] [8; 8] 51 3])
  | _ => None
  end.

Definition rec_ex_dev : device :=
  foldr rec_ex_write (rec_ex_stamp 1 3 (rec_ex_stamp 0 4 (fun _ => 0)))
    (concat (seg_records rec_ex_logs <$> [0%nat; 1%nat])).

(** An empty store with open segments: their numbers and timestamps. *)
Definition rec_ex_start (segs : list (Z * Z)) : kv :=
  mkKv dir_small (foldr (fun '(j, ts) => rec_ex_stamp j ts) (fun _ => 0) segs)
    (fun i => foldr (fun '(j, ts) z => if j =? i then ts else z) 0 segs) 0 0 0 [] 0.

(** A crash and the recovery; the answers to [l] afterwards. *)
Definition rec_ex_crash (l : list (kv_env * call)) (s : kv) : option (Z * list reply) :=
  '(rc, _, _, s') ← dir_init_recovered rec_ex_env 100 env_small rec_ex_md DirMap_new 0 (kv_dev s);
  '(replies, _) ← run_calls l s';
  Some (rc, replies).

Definition rec_ex_put (key val : list Z) (g : Z) : kv_env * call :=
  (rec_ex_kv g, CPut (keyval_of (key ++ val)) (length key) NORMAL).
Definition rec_ex_get (key : list Z) : kv_env * call := (rec_ex_kv 0, CGet (key_of key) mbuff_empty).

(** A key is written, moved by the collection of segment 2 and overwritten. *)
Definition rec_ex_overwrite : option (list reply * (Z * Z) * list reply * (Z * list reply)) :=
  '(r1, s1) ← run_calls [rec_ex_put [1; 2] [9] 100] (rec_ex_start [(0, 4); (1, 5); (2, 3)]);
  '(gc, s2) ← gc_callback (rec_ex_kv 50) false (fun _ => false) 2000 true [] 100 48 s1;
  '(r2, s3) ← run_calls [rec_ex_put [1; 2] [3; 4; 5] 0; rec_ex_get [1; 2]] s2;
  crash ← rec_ex_crash [rec_ex_get [1; 2]] s3;
  Some (r1, gc, r2, crash).


(** A key is written and deleted, with the open segments [segs]. *)
Definition rec_ex_delete (segs : list (Z * Z)) : option (list reply * (Z * list reply)) :=
  '(r, s1) ← run_calls [rec_ex_put [7] [8; 8] 0; (rec_ex_kv 1, CDel (key_of [7])); rec_ex_get [7]] (rec_ex_start segs);
  crash ← rec_ex_crash [rec_ex_get [7]] s1;
  Some (r, crash).
(** A key is written, with the open segments [segs]. *)
Definition rec_ex_opened (segs : list (Z * Z)) : option (list reply * (Z * list reply)) :=
  '(r, s1) ← run_calls [rec_ex_put [1; 2] [9] 0] (rec_ex_start segs);
  crash ← rec_ex_crash [rec_ex_get [1; 2]] s1;
  Some (r, crash).
Section Crash.
Context (renv : rec_env) (b : Z) (m : MD) (dev : device) (logs : nat -> option (Z * list krec)).

Local Abbreviation env := (re_kv renv).
Local Abbreviation rs := (re_rs renv).
Local Abbreviation seg := (rs_seg_size rs).
Local Abbreviation gs := (e_grain_size env).

(** All records of the log, segment by segment. *)
Definition log_records : list krec := concat (seg_records logs <$> seq 0 (rs_seg_nr rs)).

(** The device after a crash.  [logs] gives for every segment stamped as the
    store's its timestamp and its records; what follows them in the segment makes
    the walk stop. *)
Record crash_state : Prop := {
  cs_geometry : geometry rs m m;
  cs_sizes : gs = rs_grain_size rs /\ e_segment_size env = seg;
  cs_nr : Z.of_nat (rs_seg_nr rs) < 2 ^ 32;
  cs_stamp : forall j, (j < rs_seg_nr rs)%nat -> stamp_of rs m dev j = fst <$> logs j;
  cs_some : (0 < stamped_nr logs (seq 0 (rs_seg_nr rs)))%nat;
  cs_log : forall j ts l, (j < rs_seg_nr rs)%nat -> logs j = Some (ts, l) ->
    l <> [] /\ segment_log env dev (Z.of_nat j * seg) (net rs m) (Z.of_nat j * seg) l /\
    Forall (fun r => r_ts r = ts) l /\ Forall (sealed renv dev ts) l /\
    log_stops renv dev (Z.of_nat j * seg) (net rs m) ts
      ((log_end renv (Z.of_nat j * seg) l - Z.of_nat j * seg) * gs) = true;
  cs_order : forall i j ts l l', (i < rs_seg_nr rs)%nat -> (j < rs_seg_nr rs)%nat ->
    logs i = Some (ts, l) -> logs j = Some (ts, l') -> i = j;
  cs_room : forall r, r ∈ log_records -> (length (crowd renv b log_records (e_hash env (r_key r))) <= BUCKET)%nat
}.

(** [r] was written last among the records of its key. *)
Definition last_written (r : krec) : Prop := r ∈ log_records /\
  forall r', r' ∈ log_records -> r_key r' = r_key r ->
    r' = r \/ r_ts r' < r_ts r \/ (r_ts r' = r_ts r /\ r_grain r' < r_grain r).

Context (Hq : quiet env) (Hcs : crash_state).

(** ** Where the records lie *)

Lemma log_from_range g e l : log_from env g e l -> Forall (rec_ok env dev) l ->
  NoDup l /\ (forall r, r ∈ l -> g <= r_grain r /\ r_grain r + r_grains env r <= e) /\
  forall r1 r2, r1 ∈ l -> r2 ∈ l -> r1 = r2 \/ apart env r1 r2.
Proof.
  revert g. induction l as [|r l IH]; intros g Hl Ho.
  { split; [constructor|]. split; [intros r []%elem_of_nil|intros r1 r2 []%elem_of_nil]. }
  destruct Hl as (Hg & He & Hl). apply Forall_cons_iff in Ho as [Hr Ho].
  pose proof (rec_extent env Hq r (ro_fits _ _ _ Hr)) as Hpos. destruct (IH _ Hl Ho) as (Hnd & Hin & Hap).
  assert (forall x, x ∈ l -> apart env r x) as Hrx by (intros x Hx; destruct (Hin x Hx); left; lia).
  split; [|split].
  - constructor; [|done]. intros Hx. destruct (Hin r Hx). lia.
  - intros x [->|Hx]%elem_of_cons; [lia|]. destruct (Hin x Hx). lia.
  - intros r1 r2 [->|H1]%elem_of_cons [->|H2]%elem_of_cons; auto. right.
    destruct (Hrx r1 H1); [by right|by left].
Qed.

Lemma seg_record j r : (j < rs_seg_nr rs)%nat -> r ∈ seg_records logs j -> exists ts l, logs j = Some (ts, l) /\ r ∈ l /\
  r_ts r = ts /\ rec_ok env dev r /\ Z.of_nat j * seg <= r_grain r /\
  r_grain r + r_grains env r <= Z.of_nat j * seg + seg /\ seg_of renv r = Z.of_nat j.
Proof.
  intros Hj Hr. unfold seg_records in Hr. destruct (logs j) as [[ts l]|] eqn:El; [|by apply elem_of_nil in Hr].
  simpl in Hr. destruct (cs_log Hcs j ts l Hj El) as (_ & [Hrg Hf Ho] & Hts & _ & _).
  exists ts, l. destruct (log_from_range _ _ _ Hf Ho) as (_ & Hin & _). destruct (Hin r Hr).
  rewrite List.Forall_forall in Hts, Ho. pose proof (net_pos _ _ _ (cs_geometry Hcs)).
  apply list_elem_of_In in Hr. pose proof (rec_extent env Hq r (ro_fits _ _ _ (Ho r Hr))).
  split_and!; try lia; auto; [by apply list_elem_of_In|].
  unfold seg_of, grain_to_seg_idx. rewrite (proj2 (cs_sizes Hcs)). symmetry.
  apply (Z.div_unique _ _ _ (r_grain r - Z.of_nat j * seg)); lia.
Qed.

Lemma log_record r : r ∈ log_records -> exists j, (j < rs_seg_nr rs)%nat /\ r ∈ seg_records logs j.
Proof.
  intros Hr. unfold log_records in Hr. apply list_elem_of_In, in_concat in Hr as (l & Hl & Hr).
  apply list_elem_of_In in Hl, Hr. apply list_elem_of_fmap in Hl as (j & -> & Hj%elem_of_seq).
  exists j. split; [lia|done].
Qed.

Lemma seg_records_nodup j : (j < rs_seg_nr rs)%nat -> NoDup (seg_records logs j).
Proof.
  intros Hj. unfold seg_records. destruct (logs j) as [[ts l]|] eqn:El; [|constructor].
  destruct (cs_log Hcs j ts l Hj El) as (_ & [_ Hf Ho] & _). by apply (log_from_range _ _ _ Hf Ho).
Qed.

Lemma log_records_nodup : NoDup log_records.
Proof.
  unfold log_records.
  assert (forall segs, NoDup segs -> (forall j, j ∈ segs -> (j < rs_seg_nr rs)%nat) ->
    NoDup (concat (seg_records logs <$> segs))) as H.
  { induction segs as [|j segs IH]; intros Hnd Hlt; [constructor|]. rewrite fmap_cons. cbn [concat].
    pose proof (Hlt j ltac:(by left)) as Hj. apply list.NoDup_app. split; [by apply seg_records_nodup|].
    split; [|apply IH; [by apply NoDup_cons_1_2 in Hnd|intros; apply Hlt; by right]].
    intros r Hr Hin. apply list_elem_of_In, in_concat in Hin as (l & Hl & Hin). apply list_elem_of_In in Hl, Hin.
    apply list_elem_of_fmap in Hl as (i & -> & Hi). destruct (seg_record j r Hj Hr) as (_ & _ & _ & _ & _ & _ & _ & _ & H1).
    destruct (seg_record i r ltac:(apply Hlt; by right) Hin) as (_ & _ & _ & _ & _ & _ & _ & _ & H2).
    apply NoDup_cons_1_1 in Hnd. apply Hnd. by replace j with i by lia. }
  apply H; [apply NoDup_seq|]. intros j Hj%elem_of_seq. lia.
Qed.

Lemma log_records_apart r1 r2 : r1 ∈ log_records -> r2 ∈ log_records -> r1 = r2 \/ apart env r1 r2.
Proof.
  intros (i & Hi & H1)%log_record (j & Hj & H2)%log_record.
  destruct (seg_record i r1 Hi H1) as (ts1 & l1 & E1 & Hl1 & _ & _ & Ha1 & Hb1 & _).
  destruct (seg_record j r2 Hj H2) as (ts2 & l2 & E2 & Hl2 & _ & _ & Ha2 & Hb2 & _).
  destruct (decide (i = j)) as [<-|Hne].
  - rewrite E1 in E2. injection E2 as <- <-. destruct (cs_log Hcs i ts1 l1 Hi E1) as (_ & [_ Hf Ho] & _).
    by apply (log_from_range _ _ _ Hf Ho).
  - right. pose proof (ge_seg _ _ _ (cs_geometry Hcs)). unfold apart.
    destruct (decide (i < j)%nat); [left|right]; nia.
Qed.

(** ** The order of the records *)

Context (tsf : Z -> Z).
Context (Htsf : forall j ts l, (j < rs_seg_nr rs)%nat -> logs j = Some (ts, l) -> tsf (Z.of_nat j) = ts).

Lemma record_ts r : r ∈ log_records -> r_ts r = tsf (seg_of renv r).
Proof.
  intros (j & Hj & Hr)%log_record. destruct (seg_record j r Hj Hr) as (ts & l & E & _ & -> & _ & _ & _ & ->).
  symmetry. by apply (Htsf j ts l).
Qed.

Lemma crash_log_ok : log_ok renv b log_records dev tsf.
Proof.
  split; [apply log_records_apart| |apply record_ts| |apply (cs_room Hcs)].
  - intros r (j & Hj & Hr)%log_record. by destruct (seg_record j r Hj Hr) as (_ & _ & _ & _ & _ & ? & _).
  - intros r1 r2 (i & Hi & H1)%log_record (j & Hj & H2)%log_record.
    destruct (seg_record i r1 Hi H1) as (ts1 & l1 & E1 & _ & _ & _ & _ & _ & ->).
    destruct (seg_record j r2 Hj H2) as (ts2 & l2 & E2 & _ & _ & _ & _ & _ & ->).
    rewrite (Htsf i ts1 l1), (Htsf j ts2 l2) by done. intros <-. f_equal. by apply (cs_order Hcs i j ts1 l1 l2).
Qed.

Lemma newest_last_written r : newest renv tsf log_records r <-> last_written r.
Proof.
  unfold newest, last_written.
  assert (forall r', r ∈ log_records -> r' ∈ log_records -> older renv tsf r' r <->
    r_ts r' < r_ts r \/ (r_ts r' = r_ts r /\ r_grain r' < r_grain r)) as Ho.
  { intros r' Hr Hr'. rewrite (older_spec renv b _ dev tsf crash_log_ok) by done. by rewrite !record_ts by done. }
  split; intros [Hr Hn]; (split; [done|]); intros r' Hr' Hk; (destruct (Hn r' Hr' Hk) as [|Hc]; [by left|right]); by apply Ho.
Qed.

End Crash.

(** ** From the device to the store *)

Lemma grow_bits genv d out : grow genv d = Some out -> map_entry_nr_bits_m (g_dir out) = map_entry_nr_bits_m d.
Proof.
  unfold grow. intros H.
  repeat first [ progress simplify_eq/= | done
               | match type of H with
                 | (if ?c then _ else _) = _ => destruct c
                 | (let '(_, _) := ?p in _) = _ => destruct p
                 | (_ ← ?o; _) = _ => destruct o as [[]|]
                 end ].
Qed.

(** The fresh directory a recovery starts with. *)
Lemma fresh_rec_state renv genv b dev ts : env_ok genv 1 b -> exists out,
  grow genv DirMap_new = Some out /\ g_rc out = 0 /\ 0 <= b <= 32 /\
  rec_state renv b (mkKv (g_dir out) dev ts 0 0 0 [] 0) [].
Proof.
  intros He. destruct (dir_init_fresh_ok genv b He) as (d & Hd & Hwf & Hbag & Hcl & Hbits). unfold dir_init_fresh in Hd.
  destruct (grow genv DirMap_new) as [out|] eqn:Hg; [|done]. cbn [mbind option_bind] in Hd.
  pose proof (grow_bits _ _ _ Hg) as Hb0. cbn in Hb0.
  destruct (Z.eqb_spec (g_rc out) 0) as [Hrc|]; cbn [negb] in Hd; [|congruence]. injection Hd as Hd.
  assert (set_bits b (g_dir out) = d) as Hset by (rewrite <- Hd in *; cbn in Hbits; rewrite <- Hbits; done).
  assert (one_table 0 (g_dir out)) as Hone.
  { split; [|done]. pose proof (dw_size _ _ Hwf) as Hs. rewrite <- Hset in Hs. unfold dir_size in Hs. cbn in Hs. lia. }
  pose proof (dw_bits _ _ Hwf). rewrite Hbits in *.
  exists out. split; [done|]. split; [done|]. split; [done|]. split; [done| |].
  - split; unfold with_bits; cbn [kv_map set_dir kv_dev kv_key_nr kv_used_bytes kv_total_bytes];
      rewrite ?Hset; try done; try (intros r Hr; by apply elem_of_nil in Hr).
    + split; [done|]. intros i e Hi. by apply (Hcl i e Hi).
    + by rewrite Hbag.
    + constructor.
    + intros r1 r2 Hr. by apply elem_of_nil in Hr.
  - intros h p. cbn [kv_map]. unfold entry_at, table_of.
    rewrite (one_table_idx 0 _ h) by (done || lia). unfold map_at.
    destruct (directory (g_dir out) !! 0%nat) as [e|] eqn:E; [|done].
    cbn. change (directory (g_dir out)) with (directory (set_bits b (g_dir out))) in E. rewrite Hset in E. apply (Hcl 0%nat e E).
Qed.

Lemma stamp_of_same rs m m' dv j : same_md m m' -> stamp_of rs m' dv j = stamp_of rs m dv j.
Proof.
  intros (_ & Hg & Hd & _). unfold stamp_of, net, read_seg_md, pad_b, get_seg_md_size, validate_seg_md. by rewrite Hg, Hd.
Qed.

Section Init.
Context (renv : rec_env) (b : Z) (m : MD) (dev : device) (logs : nat -> option (Z * list krec)).
Context (Hq : quiet (re_kv renv)) (Hcs : crash_state renv b m dev logs).

Local Abbreviation env := (re_kv renv).
Local Abbreviation rs := (re_rs renv).
Local Abbreviation segs := (seq 0 (rs_seg_nr rs)).

(** The metadata after the preparation. *)
Lemma prep_ok : exists m', prep_crash_recovery renv m dev = Some (0, m', seg_ranges renv m logs segs) /\
  same_md m m' /\ forall j ts l, (j < rs_seg_nr rs)%nat -> logs j = Some (ts, l) -> get_seg_ts j m' = Some ts.
Proof.
  pose proof (cs_geometry _ _ _ _ _ Hcs) as Hge.
  assert (forall j, j ∈ segs -> (j < rs_seg_nr rs)%nat) as Hlt by (intros j Hj%elem_of_seq; lia).
  destruct (restore_stamps_spec rs m m Hge dev segs m 0 (NoDup_seq _ _) Hlt) as (m' & mx & Hr & Hs & Hts & _);
    [done|apply (ge_ts _ _ _ Hge)|].
  exists m'. split; [|split; [done|]].
  - unfold prep_crash_recovery.
    assert (0 + Z.of_nat (length segs) < 2 ^ 64) as Hlen by (rewrite length_seq; pose proof (cs_nr _ _ _ _ _ Hcs); lia).
    rewrite (prep_segments_spec renv m dev logs Hge (cs_stamp _ _ _ _ _ Hcs) segs m [] 0 0 m' mx
      ltac:(done) Hlt (Z.le_refl _) Hlen Hr).
    cbn [mbind option_bind app]. pose proof (cs_some _ _ _ _ _ Hcs). by rewrite (proj2 (Z.eqb_neq _ 0)) by lia.
  - intros j ts l Hj Hl. apply Hts; [apply elem_of_seq; lia|]. rewrite (cs_stamp _ _ _ _ _ Hcs j Hj). by rewrite Hl.
Qed.

Context (Hmmap : forall j, re_mmap renv j = true).

Lemma crash_device_ok m' : same_md m m' -> device_ok renv (log_records renv logs) dev m' logs.
Proof.
  intros Hs. pose proof (cs_geometry _ _ _ _ _ Hcs) as Hge.
  assert (net rs m' = net rs m) as Hnet by (destruct Hs as (_ & Hg & _); unfold net, get_seg_md_size; by rewrite Hg).
  split; try done.
  - apply (ge_seg _ _ _ Hge).
  - pose proof (ge_md _ _ _ Hge). destruct Hs as (_ & Hg & _). unfold get_seg_md_size in *. by rewrite Hg.
  - rewrite (proj1 (cs_sizes _ _ _ _ _ Hcs)). apply (ge_dev _ _ _ Hge).
  - apply (cs_nr _ _ _ _ _ Hcs).
  - intros j Hj. rewrite (stamp_of_same rs m) by done. by apply (cs_stamp _ _ _ _ _ Hcs).
  - intros j ts l Hj Hl. rewrite Hnet. by destruct (cs_log _ _ _ _ _ Hcs j ts l Hj Hl) as (? & ? & _ & ? & ?).
  - by apply (log_records_nodup renv b m dev logs Hq).
Qed.

Lemma recover_store fuel genv :
  env_ok genv 1 b -> (forall t, re_mbuff renv t = true) -> (BUCKET < fuel)%nat ->
  exists m' s' recs,
    dir_init_recovered renv fuel genv m DirMap_new 0 dev = Some (0, seg_ranges renv m logs segs, m', s') /\
    (forall r, r ∈ recs <-> last_written renv logs r) /\
    holds renv 0 s' recs /\ counts_of renv (live_recs recs) s' /\
    (r_range env <$> recs) ++ invals (kv_events s') ≡ₚ
      (r_range env <$> log_records renv logs) ++ concat (seg_tail renv m logs <$> segs).
Proof.
  intros He Hmb Hfuel. destruct prep_ok as (m' & Hprep & Hs & Hts).
  set (tsf := fun i => default 0 (get_seg_ts (Z.to_nat i) m')).
  destruct (fresh_rec_state renv genv b dev tsf He) as (out & Hg & Hrc & Hb & Hst).
  assert (forall j ts l, (j < rs_seg_nr rs)%nat -> logs j = Some (ts, l) -> tsf (Z.of_nat j) = ts) as Htsf.
  { intros j ts l Hj Hl. unfold tsf. by rewrite Nat2Z.id, (Hts j ts l Hj Hl). }
  destruct (crash_recovery_spec renv Hq Hmb b Hb _ dev tsf (crash_log_ok renv b m dev logs Hq Hcs tsf Htsf) m' logs fuel
    Hfuel (crash_device_ok m' Hs) _ Hst eq_refl eq_refl eq_refl (cs_some _ _ _ _ _ Hcs))
    as (s' & recs & Hrun & Hrecs & Hone & Hh & Hc & Hac).
  exists m', (with_bits b s'), recs. split; [|split; [|split; [|split]]].
  - unfold dir_init_recovered. rewrite Hprep. cbn [mbind option_bind]. cbn [negb Z.eqb].
    rewrite Hg. cbn [mbind option_bind]. rewrite Hrc. cbn [negb Z.eqb]. fold tsf. rewrite Hrun. cbn [Z.eqb].
    do 2 f_equal. unfold with_bits, set_bits. do 2 f_equal. destruct Hh as (kn & u & t & Hh).
    destruct (si_dir _ _ _ _ Hh) as [Hwf _]. cbn in Hwf. unfold map_at.
    destruct Hone as [Hl _]. destruct (lookup_lt_is_Some_2 (directory (kv_map s')) 0 ltac:(lia)) as [e E].
    destruct (dw_tables _ _ Hwf 0%nat e E) as (_ & Hbits & _). rewrite E. exact Hbits.
  - intros r. rewrite Hrecs. by apply (newest_last_written renv b m dev logs Hq Hcs tsf Htsf).
  - done.
  - done.
  - destruct Hs as (_ & Hgm & _). cbn [with_bits set_dir kv_events]. rewrite Hac.
    unfold seg_tail, net, get_seg_md_size. by rewrite Hgm.
Qed.

End Init.

(** ** Theorems *)

(** C6: Recovery after a crash restores the last version of every key.  Let the
    segments stamped as the store's hold records that were written there, one
    behind the other, before anything that ends the walk, let no two of them have
    the same timestamp, and let no bucket overflow.  If memory suffices, opening
    the store rebuilds the index and succeeds: the segments are handed back to the
    store; the records mapped are exactly those written last for their key; the
    store's invariant holds for them; the statistics count those that are no
    tombstones; and every grain of the segments is accounted for once, as a mapped
    record or as invalidated. *)
Theorem recovery_restores (renv : rec_env) (b : Z) (m : MD) (dev : device) (logs : nat -> option (Z * list krec))
    (fuel : nat) (genv : grow_env) :
  quiet (re_kv renv) -> crash_state renv b m dev logs -> env_ok genv 1 b ->
  (forall j, re_mmap renv j = true) -> (forall t, re_mbuff renv t = true) -> (BUCKET < fuel)%nat ->
  let segs := seq 0 (rs_seg_nr (re_rs renv)) in
  exists m' s' recs,
    dir_init_recovered renv fuel genv m DirMap_new 0 dev = Some (0, seg_ranges renv m logs segs, m', s') /\
    (forall r, r ∈ recs <-> last_written renv logs r) /\
    holds renv 0 s' recs /\ counts_of renv (live_recs recs) s' /\
    (r_range (re_kv renv) <$> recs) ++ invals (kv_events s') ≡ₚ
      (r_range (re_kv renv) <$> log_records renv logs) ++ concat (seg_tail renv m logs <$> segs).
Proof. intros Hq Hcs He Hmmap Hmb Hf. by apply (recover_store renv b). Qed.

Lemma rec_ex_quiet g : quiet (rec_ex_kv g).
Proof. split; simpl; intros; try lia; [done|]. eexists _, _. split; [done|]. apply length_replicate. Qed.

Lemma rec_ex_crash_state : crash_state rec_ex_env 5 rec_ex_md rec_ex_dev rec_ex_logs.
Proof.
  split.
  - split; try (vm_compute; done).
  - done.
  - done.
  - intros [|[|[|j]]] Hj; [vm_compute; reflexivity..|simpl in Hj; lia].
  - vm_compute. lia.
  - intros [|[|j]] ts l _ [= <- <-];
      (split; [done|split; [|split; [by repeat constructor|split; [by repeat constructor; vm_compute|by vm_compute]]]]).
    + split; [vm_compute; intuition congruence|by vm_compute|]. repeat constructor; vm_compute; intuition congruence.
    + split; [vm_compute; intuition congruence|by vm_compute|]. repeat constructor; vm_compute; intuition congruence.
  - intros [|[|i]] [|[|j]] ts l l' _ _; simpl; congruence.
  - intros r Hr. repeat (apply elem_of_cons in Hr as [->|Hr]); [vm_compute; lia..|by apply elem_of_nil in Hr].
Qed.

Lemma recovery_restores_witness : exists m' s' recs,
  dir_init_recovered rec_ex_env 33 env_small rec_ex_md DirMap_new 0 rec_ex_dev =
    Some (0, [(0, 48, 0); (50, 48, 0)], m', s') /\
  (forall r, r ∈ recs <-> last_written rec_ex_env rec_ex_logs r) /\ counts_of rec_ex_env (live_recs recs) s'.
Proof.
  destruct (recovery_restores rec_ex_env 5 rec_ex_md rec_ex_dev rec_ex_logs 33 env_small
    (rec_ex_quiet 149) rec_ex_crash_state (env_small_ok 1)) as (m' & s' & recs & H1 & H2 & _ & H4 & _);
    [reflexivity..|apply Nat.ltb_lt; reflexivity|].
  exists m', s', recs. split; [exact H1|]. split; [exact H2|exact H4].
Defined.

(** C39: A value that was overwritten can come back with a crash.  Whenever the
    recovery meets a record of a key that it has mapped to a record in another
    segment, and the segment of the record it meets is stamped later than the
    mapped record's header, it maps the one it meets in place of the other, whose
    grains it invalidates - whatever the timestamp in its own header is.  The
    garbage collector makes such pairs: a record that it moves keeps its header's
    timestamp, and the segment it goes to may have been opened after that of a
    later put. *)
Theorem recovery_old_value (renv : rec_env) (b : Z) (s : kv) (recs rest : list krec) (newer met : krec)
    (fuel : nat) (mbs : list mbuff) :
  quiet (re_kv renv) -> (forall t, re_mbuff renv t = true) -> 0 <= b <= 32 -> (BUCKET < fuel)%nat -> cache_ok mbs ->
  rec_state renv b s recs -> recs ≡ₚ newer :: rest -> r_key newer = r_key met ->
  rec_ok (re_kv renv) (kv_dev s) met -> (forall r, r ∈ recs -> apart (re_kv renv) met r) ->
  seg_of renv newer <> seg_of renv met -> r_ts newer < kv_seg_ts s (seg_of renv met) ->
  exists inval mbs' s',
    try_restore_entry renv fuel mbs (r_header met) (r_key met) (r_grain met) s = Some ((0, inval, mbs'), s') /\
    (exists rest', rec_state renv b s' (met :: rest') /\ rest' ≡ₚ rest) /\ kv_dev s' = kv_dev s /\
    invals (kv_events s') = r_range (re_kv renv) newer :: invals (kv_events s).
Proof.
  intros Hq Hmb Hb Hf Hc Hst Hp Hk Hok Hap Hseg Hts.
  destruct (enter_existing renv Hq Hmb b Hb s recs Hst met Hok fuel Hf mbs Hc Hap newer rest Hp Hk)
    as (rc & inval & mbs' & s' & recs' & He & _ & _ & Hd & _ & Hst' & [(_ & Hno & _)|(r0 & rest' & Hp0 & Hk0 & H)]).
  { destruct Hno. rewrite Hp, <- Hk. by left. }
  assert (r0 = newer) as ->.
  { apply (key_inj (re_kv renv) 0 _ recs (rt_store _ _ _ _ Hst)); [rewrite Hp0; by left|rewrite Hp; by left|congruence]. }
  assert (is_pba_order_equal_to_total_order (re_kv renv) (kv_seg_ts s) (r_grain newer) (r_grain met) (r_header newer) = true) as Hord.
  { unfold is_pba_order_equal_to_total_order. change (grain_to_seg_idx (re_kv renv) (r_grain ?x)) with (seg_of renv x).
    rewrite (proj2 (Z.eqb_neq _ _)) by done. by apply Z.ltb_lt. }
  rewrite Hord in H. destruct H as [(-> & _ & -> & Hi)|(_ & ? & _)]; [|done].
  exists inval, mbs', s'. split; [done|]. split; [|done]. exists rest'. split; [done|].
  apply (Permutation_cons_inv (a := newer)). by rewrite <- Hp0.
Qed.

(** The put is in segment 0; the collector moved the outdated record to segment 1,
    stamped 5. *)
Definition rec_ex_new : krec := Rec [1; 2] [3; 4; 5] 0 4.
Definition rec_ex_old : krec := Rec [1; 2] [9] 50 3.

Lemma rec_ex_rec_ok r : r ∈ log_records rec_ex_env rec_ex_logs -> rec_ok (rec_ex_kv 149) rec_ex_dev r.
Proof.
  intros (j & Hj & Hr)%log_record. by destruct (seg_record rec_ex_env 5 rec_ex_md rec_ex_dev rec_ex_logs (rec_ex_quiet 149) rec_ex_crash_state j r Hj Hr)
    as (_ & _ & _ & _ & _ & ? & _).
Qed.

Lemma recovery_old_value_witness : exists s s' inval mbs' rest', rec_state rec_ex_env 5 s [rec_ex_new] /\ r_ts rec_ex_old < r_ts rec_ex_new /\
  try_restore_entry rec_ex_env 33 [] (r_header rec_ex_old) (r_key rec_ex_old) 50 s = Some ((0, inval, mbs'), s') /\
  rec_state rec_ex_env 5 s' (rec_ex_old :: rest').
Proof.
  destruct (fresh_rec_state rec_ex_env env_small 5 rec_ex_dev (fun i => if i =? 1 then 5 else 4) (env_small_ok 1)) as (out & _ & _ & Hb & Hst).
  assert (BUCKET < 33)%nat as Hf by (apply Nat.ltb_lt; reflexivity).
  destruct (enter_new rec_ex_env (rec_ex_quiet 149) ltac:(reflexivity) 5 Hb _ [] Hst rec_ex_new
    ltac:(apply rec_ex_rec_ok; by left) 33 Hf [] ltac:(constructor)) as (mbs & s & _ & Hc & Hd & Hts & Hst1 & _).
  { intros r []%elem_of_nil. } { by intros []%elem_of_nil. } 
  { apply (bucket_has_room rec_ex_env 5 Hb _ [] [rec_ex_new] rec_ex_new Hst); [intros r []%elem_of_nil|by left|by intros []%elem_of_nil|vm_compute; lia]. }
  destruct (recovery_old_value rec_ex_env 5 s [rec_ex_new] [] rec_ex_new rec_ex_old 33 [])
    as (inval & mbs' & s' & He & (rest' & Hst2 & _) & _).
  - exact (rec_ex_quiet 149).
  - reflexivity.
  - exact Hb.
  - exact Hf.
  - constructor.
  - exact Hst1.
  - reflexivity.
  - reflexivity.
  - rewrite Hd. apply rec_ex_rec_ok. right; right; by left.
  - intros r [->|[]%elem_of_nil]%elem_of_cons. vm_compute. intuition congruence.
  - vm_compute. congruence.
  - rewrite Hts. vm_compute. reflexivity.
  - exists s, s', inval, mbs', rest'. split; [exact Hst1|]. split; [vm_compute; reflexivity|]. split; [exact He|exact Hst2].
Defined.

(** From a put to the old value: a key is written, the collector moves the record
    into a segment opened after the one that puts go to, and the key is
    overwritten: get returns the new value.  After a crash and a successful
    recovery it returns the old one. *)
Theorem recovery_old_value_run : rec_ex_overwrite =
  Some ([RPut 0 [1; 2; 9]], (0, 32), [RPut 0 [1; 2; 3; 4; 5]; RGet 0 [3; 4; 5]], (0, [RGet 0 [9]])).
Proof. vm_compute. reflexivity. Qed.

(** A key that was deleted comes back with a crash, with an empty value: get
    answers that there is no such key before the crash and succeeds after it. *)
Theorem recovery_deleted_back : rec_ex_delete [(0, 4)] =
  Some ([RPut 0 [7; 8; 8]; RDel 0 [7]; RGet ENODATA []], (0, [RGet 0 []])).
Proof. vm_compute. reflexivity. Qed.

(** A crash just after a segment was opened makes the store unusable.  With
    one open segment the recovery of a store of one key succeeds; if a second
    segment is stamped and holds no record yet, it fails with [ENOENT]. *)
Theorem recovery_empty_segment :
  rec_ex_opened [(0, 4)] = Some ([RPut 0 [1; 2; 9]], (0, [RGet 0 [9]])) /\
  fst <$> (snd <$> rec_ex_opened [(1, 5); (0, 4)]) = Some ENOENT.
Proof. split; vm_compute; reflexivity. Qed.
