(* ===== verification/StateM.v ===== *)
(** * StateM: stateful computations that may not return

    The SALSA components are written in a state monad over their store.  [None]
    is a [BUG_ON] that fires, a null dereference, an index past a table or a wait
    that nobody ends.  [wp m Q s] says that [m], run in [s], returns and leaves
    [Q]: a total specification. *)
From Stdlib Require Import ZArith Lia.
From stdpp Require Import base tactics list numbers.
From S2P Require Import Prelude.

Open Scope Z_scope.

Definition stm (S A : Type) : Type := S -> option (A * S).

#[global] Instance stm_ret S : MRet (stm S) := fun A a s => Some (a, s).
#[global] Instance stm_bind S : MBind (stm S) := fun A B f m s =>
  match m s with None => None | Some (a, s') => f a s' end.

Section StateM.
Context {S : Type}.

Definition bug {A} : stm S A := fun _ => None.
Definition lifto {A} (o : option A) : stm S A := fun s =>
  match o with None => None | Some a => Some (a, s) end.
Definition reads {A} (f : S -> A) : stm S A := fun s => Some (f s, s).
Definition writes (f : S -> S) : stm S unit := fun s => Some (tt, f s).

(** [BUG_ON(b)]. *)
Definition bug_on (b : bool) : stm S unit := if b then bug else mret tt.

(** [for (i = a; i < a + n; ++i) f(i);] *)
Fixpoint for_range (a n : nat) (f : nat -> stm S unit) : stm S unit :=
  match n with
  | O => mret tt
  | Datatypes.S n' => f a;; for_range (Datatypes.S a) n' f
  end.

(** A loop over a snapshot of a list. *)
Fixpoint for_list {B} (l : list B) (f : B -> stm S unit) : stm S unit :=
  match l with
  | [] => mret tt
  | x :: l' => f x;; for_list l' f
  end.

Definition wp {A} (m : stm S A) (Q : A -> S -> Prop) (s : S) : Prop :=
  exists a s', m s = Some (a, s') /\ Q a s'.

(** The state a computation leaves, for evaluating runs. *)
Definition state_of {A} (m : stm S A) (s : S) : S :=
  match m s with Some (_, s') => s' | None => s end.

Lemma run_state {A} (m : stm S A) (a : A) s :
  fst <$> m s = Some a -> m s = Some (a, state_of m s).
Proof. unfold state_of. destruct (m s) as [[a' s']|]; simpl; congruence. Qed.

Lemma wp_run {A} (m : stm S A) (Q : A -> S -> Prop) s a s' :
  wp m Q s -> m s = Some (a, s') -> Q a s'.
Proof. intros (a' & s'' & E & HQ) E'. rewrite E in E'. by injection E' as <- <-. Qed.

Lemma wp_ret {A} (a : A) Q s : Q a s -> wp (mret a) Q s.
Proof. intros HQ. by exists a, s. Qed.

Lemma wp_bind {A B} (m : stm S A) (f : A -> stm S B) Q s :
  wp m (fun a s' => wp (f a) Q s') s -> wp (m ≫= f) Q s.
Proof.
  intros (a & s' & Hm & b & s'' & Hf & HQ). exists b, s''. split; [|done].
  unfold mbind, stm_bind. by rewrite Hm.
Qed.

Lemma wp_mono {A} (m : stm S A) (Q R : A -> S -> Prop) s :
  wp m Q s -> (forall a s', Q a s' -> R a s') -> wp m R s.
Proof. intros (a & s' & Hm & HQ) HR. exists a, s'. split; [done|by apply HR]. Qed.

Lemma wp_reads {A} (f : S -> A) Q s : Q (f s) s -> wp (reads f) Q s.
Proof. intros HQ. by exists (f s), s. Qed.

Lemma wp_writes (f : S -> S) Q s : Q tt (f s) -> wp (writes f) Q s.
Proof. intros HQ. by exists tt, (f s). Qed.

Lemma wp_lifto {A} (o : option A) a Q s : o = Some a -> Q a s -> wp (lifto o) Q s.
Proof. intros -> HQ. by exists a, s. Qed.

Lemma wp_bug_on b Q s : b = false -> Q tt s -> wp (bug_on b) Q s.
Proof. intros -> HQ. by exists tt, s. Qed.

Lemma wp_for_range (I : nat -> S -> Prop) a n f s :
  (forall i s', (a <= i < a + n)%nat -> I i s' -> wp (f i) (fun _ => I (Datatypes.S i)) s') ->
  I a s -> wp (for_range a n f) (fun _ => I (a + n)%nat) s.
Proof.
  revert a s. induction n as [|n IH]; intros a s Hf HI; simpl.
  { apply wp_ret. by rewrite Nat.add_0_r. }
  apply wp_bind. eapply wp_mono; [apply Hf; [lia|done]|].
  intros [] s' HI'. replace (a + Datatypes.S n)%nat with (Datatypes.S a + n)%nat by lia.
  apply IH; [|done]. intros i s'' ?. apply Hf. lia.
Qed.

Lemma wp_for_list {B} (I : list B -> S -> Prop) (l : list B) f s :
  (forall x l' s', I (x :: l') s' -> wp (f x) (fun _ => I l') s') ->
  I l s -> wp (for_list l f) (fun _ => I []) s.
Proof.
  intros Hf. revert s. induction l as [|x l IH]; intros s HI; simpl; [by apply wp_ret|].
  apply wp_bind. eapply wp_mono; [by apply Hf|]. intros [] s' HI'. by apply IH.
Qed.

End StateM.

Create HintDb wp.
#[export] Hint Resolve wp_ret wp_reads wp_writes : wp.

(** Step through the binds, reads and writes of a computation. *)
Ltac wp_step :=
  match goal with
  | |- wp (_ ≫= _) _ _ => apply wp_bind
  | |- wp (mret _) _ _ => apply wp_ret
  | |- wp (reads _) _ _ => apply wp_reads
  | |- wp (writes _) _ _ => apply wp_writes
  end.
Ltac wp_steps := repeat (wp_step; cbn beta).
