(* ===== verification/Throttle.v ===== *)
(** * Throttle: pacing user writes against the garbage collector
      (salsa/src/sto-ctlr/scm-throttler.c)

    While the collector runs, user writes draw from the budget [ua_nr] and
    relocation writes from [ga_nr]; when the collector has used up its budget
    both are refilled from [u] and [g].  The compare-and-swap loops are run
    without a competing thread, so the swap succeeds at the first attempt. *)
From Stdlib Require Import ZArith Lia.
From stdpp Require Import base tactics list numbers.
From S2P Require Import Prelude.

Open Scope Z_scope.

Definition SCM_USER_AVAIL : Z := 1000.

Record throttler := mkThr { ua_nr : Z; u : Z; ga_nr : Z; g : Z }.

Definition scm_throttle_init : throttler :=
  mkThr SCM_USER_AVAIL SCM_USER_AVAIL SCM_USER_AVAIL SCM_USER_AVAIL.

(** [true] asks the caller to wait. *)
Definition scm_throttle_user_slot (t : throttler) : bool * throttler :=
  let old := ua_nr t in
  if u64 old =? 0 then (true, t) else (false, mkThr (u64 (old - 1)) (u t) (ga_nr t) (g t)).

(** One round of [scm_throttle_gc_slot]: what is left of [gc_nr]. *)
Definition gc_slot_round (gc_nr : Z) (t : throttler) : Z * throttler :=
  let old := u64 (ga_nr t) in
  let new := if old =? 0 then 0 else if gc_nr <=? old then u64 (old - gc_nr) else 0 in
  let ga := if old =? 0 then ga_nr t else new in
  let gc_nr' := u32 (gc_nr - u64 (old - new)) in
  if new =? 0 then (gc_nr', mkThr (u t) (u t) (g t) (g t))
  else (gc_nr', mkThr (ua_nr t) (u t) ga (g t)).

(** [while (gc_nr)]; [None] when [fuel] rounds do not reach 0. *)
Fixpoint scm_throttle_gc_slot (fuel : nat) (gc_nr : Z) (t : throttler) : option throttler :=
  if gc_nr =? 0 then Some t
  else match fuel with
       | O => None
       | S fuel' => let '(gc_nr', t') := gc_slot_round gc_nr t in
                    scm_throttle_gc_slot fuel' gc_nr' t'
       end.

Definition scm_throttle_gc_starts (t : throttler) : throttler :=
  mkThr (u t) (u t) (ga_nr t) (g t).

Definition scm_throttle_update (seg_size relocs : Z) (t : throttler) : throttler :=
  if relocs =? 0 then t
  else if seg_size <=? relocs then t
  else
    let write_amp := u64 (seg_size * SCM_USER_AVAIL) / (seg_size - relocs) in
    if write_amp <=? SCM_USER_AVAIL then t
    else mkThr (if SCM_USER_AVAIL <? ua_nr t then SCM_USER_AVAIL else ua_nr t) (u t) (ga_nr t)
               (write_amp - SCM_USER_AVAIL).

(** ** Budgets *)

(** What every operation keeps: the user budget between 0 and the refill, the
    relocation refill positive. *)
Record throttler_ok (t : throttler) : Prop := {
  to_ua : 0 <= ua_nr t <= SCM_USER_AVAIL;
  to_u : u t = SCM_USER_AVAIL;
  to_ga : 0 <= ga_nr t < 2 ^ 63;
  to_g : 0 < g t < 2 ^ 63
}.

(** The budgets after [gc_nr] relocation writes. *)
Definition gc_slot_spec (gc_nr : Z) (t : throttler) : throttler :=
  if gc_nr =? 0 then t
  else if gc_nr <? ga_nr t then mkThr (ua_nr t) (u t) (ga_nr t - gc_nr) (g t)
  else mkThr (u t) (u t) (g t - (gc_nr - ga_nr t) mod g t) (g t).

Lemma gc_slot_round_below gc_nr t :
  throttler_ok t -> 0 < gc_nr < 2 ^ 32 -> gc_nr < ga_nr t ->
  gc_slot_round gc_nr t = (0, mkThr (ua_nr t) (u t) (ga_nr t - gc_nr) (g t)).
Proof.
  intros [_ _ Hga _] Hn Hlt. unfold gc_slot_round.
  rewrite (wrap_small 64 (ga_nr t)) by (unfold in_width; lia).
  rewrite (proj2 (Z.eqb_neq (ga_nr t) 0)) by lia.
  rewrite (proj2 (Z.leb_le gc_nr (ga_nr t))) by lia.
  rewrite (wrap_small 64 (ga_nr t - gc_nr)) by (unfold in_width; lia).
  rewrite (wrap_small 64 (ga_nr t - (ga_nr t - gc_nr))) by (unfold in_width; lia).
  rewrite (proj2 (Z.eqb_neq (ga_nr t - gc_nr) 0)) by lia.
  f_equal. replace (gc_nr - (ga_nr t - (ga_nr t - gc_nr))) with 0 by lia. reflexivity.
Qed.

Lemma gc_slot_round_above gc_nr t :
  throttler_ok t -> 0 < gc_nr < 2 ^ 32 -> ga_nr t <= gc_nr ->
  gc_slot_round gc_nr t = (gc_nr - ga_nr t, mkThr (u t) (u t) (g t) (g t)).
Proof.
  intros [_ _ Hga _] Hn Hle. unfold gc_slot_round.
  rewrite (wrap_small 64 (ga_nr t)) by (unfold in_width; lia).
  assert ((if ga_nr t =? 0 then 0
           else if gc_nr <=? ga_nr t then u64 (ga_nr t - gc_nr) else 0) = 0) as ->.
  { destruct (ga_nr t =? 0); [done|]. destruct (Z.leb_spec gc_nr (ga_nr t)); [|done].
    by replace (ga_nr t - gc_nr) with 0 by lia. }
  rewrite Z.eqb_refl, Z.sub_0_r.
  rewrite (wrap_small 64 (ga_nr t)) by (unfold in_width; lia).
  by rewrite (wrap_small 32) by (unfold in_width; lia).
Qed.

Lemma refilled_ok t : throttler_ok t -> throttler_ok (mkThr (u t) (u t) (g t) (g t)).
Proof. intros [Hua Hu Hga Hg]. split; simpl; rewrite ?Hu; unfold SCM_USER_AVAIL in *; lia. Qed.

(** From a full budget of relocations. *)
Lemma gc_slot_full fuel gc_nr t :
  throttler_ok t -> ga_nr t = g t -> ua_nr t = u t -> 0 <= gc_nr < 2 ^ 32 ->
  (Z.to_nat gc_nr <= fuel)%nat ->
  scm_throttle_gc_slot fuel gc_nr t =
    Some (mkThr (u t) (u t) (g t - gc_nr mod g t) (g t)).
Proof.
  revert gc_nr t. induction fuel as [|fuel IH]; intros gc_nr t Hok Hga Hua Hn Hf; simpl.
  { assert (gc_nr = 0) as -> by lia. rewrite Z.mod_0_l by (destruct Hok; lia).
    rewrite Z.sub_0_r. destruct t; simpl in *; by subst. }
  destruct (Z.eqb_spec gc_nr 0) as [->|Hne].
  { rewrite Z.mod_0_l by (destruct Hok; lia). rewrite Z.sub_0_r.
    destruct t; simpl in *; by subst. }
  pose proof (to_g _ Hok) as Hg. destruct (Z.ltb_spec gc_nr (ga_nr t)).
  - rewrite gc_slot_round_below by (done || lia). rewrite Z.mod_small by lia.
    rewrite Hga, Hua. by destruct fuel.
  - rewrite gc_slot_round_above by (done || lia).
    rewrite IH; simpl; [|by apply refilled_ok|done|done|lia|lia].
    rewrite Hga. f_equal. f_equal. f_equal.
    rewrite <- (Z.mod_add (gc_nr - g t) 1 (g t)) by lia. f_equal. lia.
Qed.

(** The loop ends and has the closed form [gc_slot_spec]. *)
Lemma gc_slot_closed fuel gc_nr t :
  throttler_ok t -> 0 <= gc_nr < 2 ^ 32 -> (Z.to_nat gc_nr < fuel)%nat ->
  scm_throttle_gc_slot fuel gc_nr t = Some (gc_slot_spec gc_nr t).
Proof.
  intros Hok Hn Hf. unfold gc_slot_spec. destruct fuel as [|fuel]; [lia|]. simpl.
  destruct (Z.eqb_spec gc_nr 0) as [->|Hne]; [done|].
  destruct (Z.ltb_spec gc_nr (ga_nr t)).
  - rewrite gc_slot_round_below by (done || lia). by destruct fuel.
  - rewrite gc_slot_round_above by (done || lia).
    pose proof (to_ga _ Hok). rewrite gc_slot_full; simpl; [done|by apply refilled_ok|..]; done || lia.
Qed.

Lemma gc_slot_spec_ok gc_nr t :
  throttler_ok t -> 0 <= gc_nr -> throttler_ok (gc_slot_spec gc_nr t).
Proof.
  intros [Hua Hu Hga Hg] Hn. unfold gc_slot_spec.
  destruct (Z.eqb_spec gc_nr 0); [done|]. destruct (Z.ltb_spec gc_nr (ga_nr t)).
  - split; simpl; lia.
  - pose proof (Z.mod_pos_bound (gc_nr - ga_nr t) (g t)). split; simpl; lia.
Qed.

Lemma user_slot_ok t : throttler_ok t -> throttler_ok (snd (scm_throttle_user_slot t)).
Proof.
  intros [Hua Hu Hga Hg]. unfold scm_throttle_user_slot. unfold SCM_USER_AVAIL in *.
  rewrite (wrap_small 64 (ua_nr t)) by (unfold in_width; lia).
  destruct (Z.eqb_spec (ua_nr t) 0); simpl; [done|].
  rewrite wrap_small by (unfold in_width; lia). split; simpl; unfold SCM_USER_AVAIL; lia.
Qed.

(** The user waits exactly when the budget is empty, and a granted write costs
    one unit of it. *)
Lemma user_slot_spec t :
  throttler_ok t ->
  scm_throttle_user_slot t =
    if ua_nr t =? 0 then (true, t) else (false, mkThr (ua_nr t - 1) (u t) (ga_nr t) (g t)).
Proof.
  intros [Hua _ _ _]. unfold scm_throttle_user_slot, SCM_USER_AVAIL in *.
  rewrite (wrap_small 64 (ua_nr t)) by (unfold in_width; lia).
  destruct (Z.eqb_spec (ua_nr t) 0); [done|].
  by rewrite wrap_small by (unfold in_width; lia).
Qed.

Lemma throttle_update_ok seg_size relocs t :
  0 < seg_size < 2 ^ 31 -> 0 <= relocs -> throttler_ok t ->
  throttler_ok (scm_throttle_update seg_size relocs t).
Proof.
  intros Hs Hr [Hua Hu Hga Hg]. unfold scm_throttle_update.
  destruct (Z.eqb_spec relocs 0); [done|]. destruct (Z.leb_spec seg_size relocs); [done|].
  rewrite wrap_small by (unfold in_width, SCM_USER_AVAIL; lia).
  set (w := seg_size * SCM_USER_AVAIL / (seg_size - relocs)).
  assert (w <= seg_size * SCM_USER_AVAIL).
  { apply Z.div_le_upper_bound; unfold SCM_USER_AVAIL; nia. }
  destruct (Z.leb_spec w SCM_USER_AVAIL); [done|].
  split; simpl; unfold SCM_USER_AVAIL in *; [|lia..]. destruct (Z.ltb_spec 1000 (ua_nr t)); lia.
Qed.

Lemma throttle_init_ok : throttler_ok scm_throttle_init.
Proof. split; simpl; unfold SCM_USER_AVAIL; lia. Qed.

Lemma gc_starts_ok t : throttler_ok t -> throttler_ok (scm_throttle_gc_starts t).
Proof. intros [Hua Hu Hga Hg]. split; simpl; rewrite ?Hu; unfold SCM_USER_AVAIL in *; lia. Qed.

(** ** Runs of the throttler *)

Inductive throttle_op :=
  | T_user_write
  | T_gc_write (gc_nr : Z)
  | T_gc_starts
  | T_update (seg_size relocs : Z).

Definition throttle_op_ok (op : throttle_op) : Prop :=
  match op with
  | T_gc_write n => 0 <= n < 2 ^ 32
  | T_update seg_size relocs => 0 < seg_size < 2 ^ 31 /\ 0 <= relocs
  | _ => True
  end.

Definition throttle_step (op : throttle_op) (t : throttler) : option throttler :=
  match op with
  | T_user_write => Some (snd (scm_throttle_user_slot t))
  | T_gc_write n => scm_throttle_gc_slot (S (Z.to_nat n)) n t
  | T_gc_starts => Some (scm_throttle_gc_starts t)
  | T_update seg_size relocs => Some (scm_throttle_update seg_size relocs t)
  end.

Fixpoint throttle_run (ops : list throttle_op) (t : throttler) : option throttler :=
  match ops with
  | [] => Some t
  | op :: ops' => t' ← throttle_step op t; throttle_run ops' t'
  end.

Lemma throttle_step_ok op t :
  throttle_op_ok op -> throttler_ok t ->
  exists t', throttle_step op t = Some t' /\ throttler_ok t'.
Proof.
  intros Hop Ht. destruct op as [|n| |sz r]; simpl in *.
  - eexists. split; [done|by apply user_slot_ok].
  - exists (gc_slot_spec n t). split; [|apply gc_slot_spec_ok; [done|lia]].
    by apply (gc_slot_closed (S (Z.to_nat n))); [|lia|lia].
  - eexists. split; [done|by apply gc_starts_ok].
  - eexists. split; [done|]. apply throttle_update_ok; tauto || lia.
Qed.

Lemma throttle_run_ok ops t :
  Forall throttle_op_ok ops -> throttler_ok t ->
  exists t', throttle_run ops t = Some t' /\ throttler_ok t'.
Proof.
  intros Hops. revert t. induction Hops as [|op ops Hop _ IH]; intros t Ht; [by exists t|].
  destruct (throttle_step_ok op t Hop Ht) as (t1 & Hs & Ht1). simpl. rewrite Hs. by apply IH.
Qed.

(** from [scm_throttle_init], after any sequence of user writes, relocation
    writes, collector starts and write-amplification updates, each of which
    returns, the loop of [scm_throttle_gc_slot] for [gc_nr] more relocation
    writes ends within [gc_nr + 1] rounds in the closed form [gc_slot_spec]: a
    user write is granted [u] fresh slots exactly when the relocation budget is
    used up, and the user budget stays between 0 and [SCM_USER_AVAIL]. *)
Theorem throttle_gc_slot_returns ops gc_nr fuel :
  Forall throttle_op_ok ops -> 0 <= gc_nr < 2 ^ 32 -> (Z.to_nat gc_nr < fuel)%nat ->
  exists t, throttle_run ops scm_throttle_init = Some t /\
    0 <= ua_nr t <= SCM_USER_AVAIL /\
    scm_throttle_gc_slot fuel gc_nr t = Some (gc_slot_spec gc_nr t).
Proof.
  intros Hops Hn Hf. destruct (throttle_run_ok ops _ Hops throttle_init_ok) as (t & Ht & Hok).
  exists t. split; [done|]. split; [by destruct Hok|by apply gc_slot_closed].
Qed.

Lemma throttle_gc_slot_returns_witness :
  exists t, throttle_run [T_user_write; T_update 512 100; T_gc_write 1200; T_user_write]
              scm_throttle_init = Some t /\
    0 <= ua_nr t <= SCM_USER_AVAIL /\ scm_throttle_gc_slot 701 700 t = Some (gc_slot_spec 700 t).
Proof.
  apply throttle_gc_slot_returns; [|lia|lia].
  repeat constructor; simpl; lia.
Defined.
