(* ===== verification/SalsaScm.v ===== *)
(** * SalsaScm: segments and the storage capacity manager
      (salsa/src/sto-ctlr, salsa/src/include/sto-ctlr)

    The segment table, the lists segments are linked into, the queues of free
    segments and their allocation.

    A segment has one list node ([seg->list]), so a list is named by its head and
    the store [scm] maps each head to the segments on it; [cds_list_del] takes a
    node off whichever list it is on.  Every head has the element counter the
    code keeps next to it ([cds_queue_base.size], [gc_queue.lst_len],
    [xnp_wait_nr]).  The spin locks and the wait queues that wake sleeping threads
    have no state here: which accesses other threads can come between is said by
    the step relations of SalsaRun and SalsaThreads. *)
From Stdlib Require Import ZArith Lia.
From stdpp Require Import base tactics list numbers.
From S2P Require Import Prelude StateM Throttle.

Open Scope Z_scope.

(** ** Segments (sto-segment.h) *)

Inductive segment_state :=
  | SEG_INVALID | SEG_FREE | SEG_FREE_REL | SEG_LSA_ALLOCATOR | SEG_GC | SEG_GC_XNP.

#[global] Instance segment_state_eq : EqDecision segment_state.
Proof. solve_decision. Defined.

Definition SALSA_MAX_PRIVATE_ID : Z := 255.
Definition SALSA_INVALID_PRIVATE_ID : Z := SALSA_MAX_PRIVATE_ID.
Definition SALSA_INVALID_CTLR_ID : Z := 255.

Record segment := mkSegment {
  nr3 : Z;             (** allocator: next free grain *)
  nr4 : Z;             (** allocator: grains not released *)
  valid_nr : Z;
  outs_read_nr : Z;
  ctlr_id : Z;
  stream : Z;
  priv : Z;
  is_reloc : bool;
  queue_id : nat;
  seg_state : segment_state;
  seg_prop : Z
}.

Definition set_nr3 (n : Z) (s : segment) : segment :=
  mkSegment n (nr4 s) (valid_nr s) (outs_read_nr s) (ctlr_id s) (stream s) (priv s)
            (is_reloc s) (queue_id s) (seg_state s) (seg_prop s).
Definition set_nr4 (n : Z) (s : segment) : segment :=
  mkSegment (nr3 s) n (valid_nr s) (outs_read_nr s) (ctlr_id s) (stream s) (priv s)
            (is_reloc s) (queue_id s) (seg_state s) (seg_prop s).
Definition set_valid_nr (n : Z) (s : segment) : segment :=
  mkSegment (nr3 s) (nr4 s) n (outs_read_nr s) (ctlr_id s) (stream s) (priv s)
            (is_reloc s) (queue_id s) (seg_state s) (seg_prop s).
Definition segment_set_ctlr (id : Z) (s : segment) : segment :=
  mkSegment (nr3 s) (nr4 s) (valid_nr s) (outs_read_nr s) id (stream s) (priv s)
            (is_reloc s) (queue_id s) (seg_state s) (seg_prop s).
Definition segment_set_private (p : Z) (s : segment) : segment :=
  mkSegment (nr3 s) (nr4 s) (valid_nr s) (outs_read_nr s) (ctlr_id s) (stream s) p
            (is_reloc s) (queue_id s) (seg_state s) (seg_prop s).
Definition segment_set_reloc (s : segment) : segment :=
  mkSegment (nr3 s) (nr4 s) (valid_nr s) (outs_read_nr s) (ctlr_id s) (stream s) (priv s)
            true (queue_id s) (seg_state s) (seg_prop s).
Definition segment_set_state (st : segment_state) (s : segment) : segment :=
  mkSegment (nr3 s) (nr4 s) (valid_nr s) (outs_read_nr s) (ctlr_id s) (stream s) (priv s)
            (is_reloc s) (queue_id s) st (seg_prop s).

(** [hash_list_init(&seg->hlist)] overwrites the union that holds [nr3] and
    [nr4]; the allocator sets both before it reads them. *)
Definition segment_reset (page_nr : Z) (s : segment) : segment :=
  mkSegment 0 0 (s32 page_nr) (outs_read_nr s) SALSA_INVALID_CTLR_ID 0 SALSA_INVALID_PRIVATE_ID
            false (queue_id s) SEG_INVALID (seg_prop s).

Definition segment_init (page_nr prop : Z) (qid : nat) (s : segment) : segment :=
  let s := segment_reset page_nr s in
  mkSegment (nr3 s) (nr4 s) (valid_nr s) 1 (ctlr_id s) (stream s) (priv s)
            (is_reloc s) qid (seg_state s) prop.

(** The new value of [valid_nr]. *)
Definition segment_getn (n : Z) (s : segment) : segment := set_valid_nr (s32 (valid_nr s + n)) s.
Definition segment_putn (n : Z) (s : segment) : option segment :=
  if valid_nr s <? s32 n then None else Some (set_valid_nr (s32 (valid_nr s - n)) s).

(** ** The store *)

Inductive place :=
  | QSegs (q : nat)       (** [seg_qs.qs[q].q_segs] *)
  | QRelSegs (q : nat)    (** [seg_qs.qs[q].q_rel_segs] *)
  | Fifo (bin : nat)      (** [gc->fifo[bin]] *)
  | XnpWait (lvl : nat)   (** [gc->xnp_wait[lvl]] *)
  | StageFifo (a : nat)   (** [stage_fifo] of allocator [a] *)
  | DoneFifo (a : nat).   (** [done_fifo] of allocator [a] *)

#[global] Instance place_eq : EqDecision place.
Proof. solve_decision. Defined.

Definition SALSA_MIN_REL_SEGMENTS : Z := 1.

Record scm := mkScm {
  segs : nat -> segment;
  heads : place -> list nat;
  sizes : place -> Z;
  thin_prov_segs : Z;
  used_capacity : Z;            (** [Scm::used_capacity_], grains *)
  scmt : throttler;
  valid_seg_nr : Z;             (** [gc->valid_seg_nr] *)
  zero_valid_nr : Z;
  cherry_picked_nr : Z;
  page_relocs : nat -> Z;       (** per bin *)
  seg_relocs : nat -> Z;
  seg_bmap : list nat;          (** the bits set in [gc->seg_bmap] *)
  allocating : nat -> bool;     (** per allocator *)
  seg_alloc_nr : Z;             (** [SalsaCtlr::seg_alloc_nr_] *)
  seg_md_log : list (Z * Z)     (** calls of the controller's [seg_md_callback], newest first *)
}.

Definition fupd {A B} `{EqDecision A} (f : A -> B) (x : A) (v : B) : A -> B :=
  fun y => if decide (y = x) then v else f y.

Definition set_segs (f : nat -> segment) (s : scm) : scm :=
  mkScm f (heads s) (sizes s) (thin_prov_segs s) (used_capacity s) (scmt s) (valid_seg_nr s)
        (zero_valid_nr s) (cherry_picked_nr s) (page_relocs s) (seg_relocs s) (seg_bmap s)
        (allocating s) (seg_alloc_nr s) (seg_md_log s).
Definition set_lists (h : place -> list nat) (sz : place -> Z) (s : scm) : scm :=
  mkScm (segs s) h sz (thin_prov_segs s) (used_capacity s) (scmt s) (valid_seg_nr s)
        (zero_valid_nr s) (cherry_picked_nr s) (page_relocs s) (seg_relocs s) (seg_bmap s)
        (allocating s) (seg_alloc_nr s) (seg_md_log s).
Definition set_thin_prov (n : Z) (s : scm) : scm :=
  mkScm (segs s) (heads s) (sizes s) n (used_capacity s) (scmt s) (valid_seg_nr s)
        (zero_valid_nr s) (cherry_picked_nr s) (page_relocs s) (seg_relocs s) (seg_bmap s)
        (allocating s) (seg_alloc_nr s) (seg_md_log s).
Definition set_used_capacity (n : Z) (s : scm) : scm :=
  mkScm (segs s) (heads s) (sizes s) (thin_prov_segs s) n (scmt s) (valid_seg_nr s)
        (zero_valid_nr s) (cherry_picked_nr s) (page_relocs s) (seg_relocs s) (seg_bmap s)
        (allocating s) (seg_alloc_nr s) (seg_md_log s).
Definition set_scmt (t : throttler) (s : scm) : scm :=
  mkScm (segs s) (heads s) (sizes s) (thin_prov_segs s) (used_capacity s) t (valid_seg_nr s)
        (zero_valid_nr s) (cherry_picked_nr s) (page_relocs s) (seg_relocs s) (seg_bmap s)
        (allocating s) (seg_alloc_nr s) (seg_md_log s).
(** The counters of the collector. *)
Definition set_gc_stats (v z c : Z) (pr sr : nat -> Z) (s : scm) : scm :=
  mkScm (segs s) (heads s) (sizes s) (thin_prov_segs s) (used_capacity s) (scmt s) v z c pr sr
        (seg_bmap s) (allocating s) (seg_alloc_nr s) (seg_md_log s).
Definition set_seg_bmap (b : list nat) (s : scm) : scm :=
  mkScm (segs s) (heads s) (sizes s) (thin_prov_segs s) (used_capacity s) (scmt s) (valid_seg_nr s)
        (zero_valid_nr s) (cherry_picked_nr s) (page_relocs s) (seg_relocs s) b
        (allocating s) (seg_alloc_nr s) (seg_md_log s).
(** The allocator's flag and the controller's record of its segments. *)
Definition set_alloc (al : nat -> bool) (n : Z) (l : list (Z * Z)) (s : scm) : scm :=
  mkScm (segs s) (heads s) (sizes s) (thin_prov_segs s) (used_capacity s) (scmt s) (valid_seg_nr s)
        (zero_valid_nr s) (cherry_picked_nr s) (page_relocs s) (seg_relocs s) (seg_bmap s)
        al n l.

Definition scmm (A : Type) : Type := stm scm A.

Definition seg_get (i : nat) : scmm segment := reads (fun s => segs s i).
Definition seg_upd (i : nat) (f : segment -> segment) : scmm unit :=
  writes (fun s => set_segs (fupd (segs s) i (f (segs s i))) s).

(** [segment_putn] on segment [i]: the valid count it leaves. *)
Definition seg_putn (i : nat) (n : Z) : scmm Z :=
  sg ← seg_get i;
  sg' ← lifto (segment_putn n sg);
  seg_upd i (const sg');;
  mret (valid_nr sg').

(** ** Lists and queues (cds-queue.h) *)

Definition cds_list_add (i : nat) (p : place) (s : scm) : scm :=
  set_lists (fupd (heads s) p (i :: heads s p)) (sizes s) s.
Definition cds_list_add_tail (i : nat) (p : place) (s : scm) : scm :=
  set_lists (fupd (heads s) p (heads s p ++ [i])) (sizes s) s.
Definition cds_list_del (i : nat) (s : scm) : scm :=
  set_lists (fun p => filter (fun j => j <> i) (heads s p)) (sizes s) s.

Definition size_add (p : place) (n : Z) (s : scm) : scm :=
  set_lists (heads s) (fupd (sizes s) p (sizes s p + n)) s.

Definition cds_queue_base_enqueue_tail (p : place) (i : nat) : scmm unit :=
  writes (cds_list_add_tail i p);; writes (size_add p 1).

Definition cds_queue_base_del (p : place) (i : nat) : scmm unit :=
  writes (cds_list_del i);; writes (size_add p (-1)).

Definition cds_queue_base_is_empty (p : place) : scmm bool :=
  reads (fun s => match heads s p with [] => true | _ => false end).

Definition cds_queue_base_size (p : place) : scmm Z := reads (fun s => sizes s p).

(** The popped segment and the count left. *)
Definition cds_queue_base_pop_head (p : place) : scmm (option nat) :=
  l ← reads (fun s => heads s p);
  match l with
  | [] => mret None
  | i :: _ => writes (cds_list_del i);; writes (size_add p (-1));; mret (Some i)
  end.

(** ** Property sets (scm-dev-properties.h) *)

Definition SCM_PROP_NVRAM : Z := 0.
Definition SCM_PROP_FLASH : Z := 1.
Definition SCM_PROP_SMR_CONV : Z := 2.
Definition SCM_PROP_SMR_SEQ1 : Z := 3.
Definition SCM_PROP_SMR_SEQ2 : Z := 4.
Definition SCM_PROP_LAST : Z := 5.

Definition SCM_PROP_SET_ALL : Z := Z.shiftl 1 SCM_PROP_LAST - 1.

Definition scm_prop_set_contains (mask p : Z) : bool := negb (Z.land mask (Z.shiftl 1 p) =? 0).
Definition scm_prop_set_is_subset_of (m1 m2 : Z) : bool := Z.land m1 m2 =? m1.
Definition scm_prop_set_union (m1 m2 : Z) : Z := Z.lor m1 m2.

(** ** Configuration

    Fixed once the manager, the collector and the controller are set up. *)
Record gfs_flags := mkGfs {
  gf_reloc : bool;
  gf_thin_prov : bool;
  gf_no_blocking : bool;
  prop_set_preferred : Z;
  prop_set_default : Z
}.

Record scm_conf := mkScmConf {
  seg_nr : nat;
  seg_size : Z;                     (** grains *)
  qs_nr : nat;
  q_prop_set : nat -> Z;
  dev_linear : bool;                (** one device, or [SALSA_LINEAR] *)
  seg_alloc_cb : nat -> Z           (** what [r_seg_alloc_cb] answers for a segment *)
}.

Section Scm.
Context (c : scm_conf).

(** ** Grains and segments (sto-capacity-mgr-common.h) *)

Definition scm_seg_to_grain (i : nat) : Z := u64 (Z.of_nat i * seg_size c).

Definition scm_grain_to_segment (grain : Z) : option nat :=
  let i := Z.to_nat (grain / seg_size c) in
  if (i <? seg_nr c)%nat then Some i else None.

(** ** Thin provisioning (scm-seg-alloc.c) *)

Definition scm_get_segs_thin_prov (n : Z) : scmm Z :=
  free ← reads thin_prov_segs;
  if free <? n then mret ENOSPC
  else writes (set_thin_prov (free - n));; mret 0.

Definition scm_put_segs_thin_prov (n : Z) : scmm unit :=
  old ← reads thin_prov_segs; writes (set_thin_prov (u64 (old + n))).

(** ** Choosing a queue (scm-seg-queues.c) *)

Definition free_place (reloc : bool) (q : nat) : place := if reloc then QRelSegs q else QSegs q.

(** The [for] loop over the queues from queue [i] on: a queue with a free
    segment, or whether a matching queue was empty. *)
Fixpoint find_queue (reloc : bool) (props : Z) (i n : nat) (q_empty : bool)
  : scmm (option place * bool) :=
  match n with
  | O => mret (None, q_empty)
  | S n' =>
      if scm_prop_set_is_subset_of (q_prop_set c i) props
      then e ← cds_queue_base_is_empty (free_place reloc i);
           if (e : bool) then find_queue reloc props (S i) n' true
           else mret (Some (free_place reloc i), q_empty)
      else find_queue reloc props (S i) n' q_empty
  end.

Definition scm_seg_queues_get_queue (flags : gfs_flags) : scmm (Z * option place) :=
  '(q1, e1) ← find_queue (gf_reloc flags) (prop_set_preferred flags) 0 (qs_nr c) false;
  match q1 with
  | Some p => mret (0, Some p)
  | None =>
      '(q2, e2) ← find_queue (gf_reloc flags) (prop_set_default flags) 0 (qs_nr c) e1;
      match q2 with
      | Some p => mret (0, Some p)
      | None => mret (if (e2 : bool) then - EAGAIN else - EINVAL, None)
      end
  end.

(** ** Taking and returning a segment (scm-seg-alloc.c) *)

Definition scm_put_free_seg (i : nat) (thin_prov : bool) : scmm unit :=
  sg ← seg_get i;
  let freeq := QSegs (queue_id sg) in
  let freeq_rel := QRelSegs (queue_id sg) in
  seg_upd i (segment_reset (u32 (seg_size c)));;
  n ← cds_queue_base_size freeq_rel;
  (if n <? SALSA_MIN_REL_SEGMENTS
   then seg_upd i (segment_set_state SEG_FREE_REL);; cds_queue_base_enqueue_tail freeq_rel i
   else seg_upd i (segment_set_state SEG_FREE);; cds_queue_base_enqueue_tail freeq i);;
  if thin_prov then scm_put_segs_thin_prov 1 else mret tt.

(** [fail_reclaim_thin:] *)
Definition fail_reclaim_thin {A} (flags : gfs_flags) (err : Z) : scmm (Z * option A) :=
  (if gf_thin_prov flags then scm_put_segs_thin_prov 1 else mret tt);;
  mret (err, None).

(** [scm_get_free_seg] up to the pop: the queue to take from.  A caller that may
    block sleeps while every matching queue is empty. *)
Definition scm_get_free_queue (flags : gfs_flags) : scmm (Z * option place) :=
  if gf_reloc flags && gf_thin_prov flags then mret (EINVAL, None)
  else
    err0 ← (if gf_thin_prov flags then scm_get_segs_thin_prov 1 else mret 0);
    if negb (err0 =? 0) then mret (err0, None)
    else
      '(err, freeq) ← scm_seg_queues_get_queue flags;
      bug_on ((err =? - EAGAIN) && negb (gf_no_blocking flags));;
      if negb (err =? 0) then fail_reclaim_thin flags err
      else p ← lifto freeq; mret (0, Some p).

(** From the pop on; another thread may have emptied the queue. *)
Definition scm_seg_popped (flags : gfs_flags) (seg : option nat) : scmm (Z * option nat) :=
  match seg with
  | None => fail_reclaim_thin flags EAGAIN
  | Some i =>
      bug_on (dev_linear c && negb (i <? seg_nr c)%nat);;
      let err := if dev_linear c then seg_alloc_cb c i else 0 in
      if negb (err =? 0)
      then scm_put_free_seg i (gf_thin_prov flags);; fail_reclaim_thin flags err
      else mret (0, Some i)
  end.

Definition scm_get_free_seg (flags : gfs_flags) : scmm (Z * option nat) :=
  '(err, freeq) ← scm_get_free_queue flags;
  match freeq with
  | None => mret (err, None)
  | Some p => seg ← cds_queue_base_pop_head p; scm_seg_popped flags seg
  end.

End Scm.
