(* ===== verification/SalsaGc.v ===== *)
(** * SalsaGc: the garbage collector's bins
      (salsa/src/gc/gc-common.c, salsa/src/gc/gc-nbin.c, include/gc/private)

    Written segments wait in bins by the number of their valid grains; the XNP
    variants keep recently written ones apart in waiting queues.  The operations
    of the 3BIN, NBIN, XNP, XNP_OVRW (the default), DYN_THRESHOLD and
    INTRPT_SAFE collectors, the choice of the segment to relocate and what
    becomes of it. *)
From Stdlib Require Import ZArith Lia.
From stdpp Require Import base tactics list numbers.
From S2P Require Import Prelude StateM Throttle SalsaScm.

Open Scope Z_scope.

(** ** Configuration *)

Inductive gc_type :=
  | GC_SALSA_3BIN | GC_SALSA_NBIN | GC_NBIN_XNP_INTRPT_SAFE | GC_NBIN_XNP_HEAT_SEG
  | GC_NBIN_HEAT_SEG | GC_NBIN_XNP_OVRW_HEAT_SEG | GC_NBIN_DYN_THRESHOLD.

#[global] Instance gc_type_eq : EqDecision gc_type.
Proof. solve_decision. Defined.

Record gc_parameters := mkGcParams {
  gp_gc : gc_type;
  gp_low_watermark : Z;
  gp_high_watermark : Z;
  gp_xnp_pct : Z;
  gp_xnp_hot_pct : Z;
  gp_bin_nr : Z
}.

Record gc_conf := mkGcConf {
  gc_ty : gc_type;
  bin_nr : Z;
  bin_div : Z;
  xnp_levels : Z;
  xnp_thr : nat -> Z;
  threshold : nat -> Z;        (** [gc->fifo[bin].threshold] *)
  LOW_WATERMARK : Z;
  HIGH_WATERMARK : Z
}.

(** The registered controllers: the queue set of each ([gc->ctl_data]). *)
Definition ctl_table : Type := list (option Z).

Definition gc_salsa_bin_div (seg_size bin_nr : Z) : Z :=
  let d := seg_size / bin_nr in
  if negb (seg_size mod bin_nr =? 0) then d + 1 else d.

(** The number of bins asked for, cut to what a segment's [priv] can name. *)
Definition clip_bin_nr (seg_size n : Z) : Z :=
  if (seg_size <? n) || (SALSA_MAX_PRIVATE_ID - 1 <? n)
  then Z.min seg_size (SALSA_MAX_PRIVATE_ID - 2) else n.

Definition GC_STREAM_NR : Z := 1.

(** The threshold of one waiting queue. *)
Definition xnp_threshold (seg_nr pct : Z) : Z :=
  let thr := u32 (u64 (u64 (seg_nr - SALSA_MIN_REL_SEGMENTS - GC_STREAM_NR * 2) * pct) / 100) in
  if 1 <? thr then thr else 2.

(** [bin_nr], [bin_div] and the waiting queues of [gc_salsa_ctr]. *)
Definition gc_salsa_ctr (seg_size seg_nr : Z) (p : gc_parameters) : Z * Z * Z * (nat -> Z) :=
  let n := clip_bin_nr seg_size (gp_bin_nr p) in
  match gp_gc p with
  | GC_SALSA_3BIN => (3, 1, 0, const 0)
  | GC_NBIN_XNP_INTRPT_SAFE | GC_NBIN_XNP_HEAT_SEG | GC_NBIN_XNP_OVRW_HEAT_SEG
  | GC_NBIN_DYN_THRESHOLD =>
      let xnp_pct := if gp_xnp_pct p <? 30 then gp_xnp_pct p else 30 in
      let xnp_hot_pct := if gp_xnp_hot_pct p <? 30 then gp_xnp_hot_pct p else 30 in
      let levels := if 0 =? xnp_hot_pct then 1 else 2 in
      (n + 1, gc_salsa_bin_div seg_size n, levels,
       fun i => if (Z.of_nat i <? levels)
                then xnp_threshold seg_nr (if (i =? 0)%nat then xnp_pct else xnp_hot_pct) else 0)
  | GC_SALSA_NBIN | GC_NBIN_HEAT_SEG => (n + 1, gc_salsa_bin_div seg_size n, 0, const 0)
  end.

(** The thresholds [gc_salsa_init] gives the bins. *)
Definition gc_salsa_init (seg_size bin_nr bin_div : Z) : nat -> Z :=
  let t i := if (Z.of_nat i <? bin_nr - 1) then (Z.of_nat i + 1) * bin_div - 1 else seg_size in
  fun i => if (Z.of_nat i =? bin_nr - 2) && (seg_size <=? t i) then seg_size - 1 else t i.

Definition gc_ctr (seg_size seg_nr : Z) (p : gc_parameters) : gc_conf :=
  let '(n, d, l, thr) := gc_salsa_ctr seg_size seg_nr p in
  let dflt := (gp_low_watermark p <? 2) || (gp_high_watermark p <=? gp_low_watermark p) in
  let low := if dflt then 2 * SALSA_MIN_REL_SEGMENTS else gp_low_watermark p in
  let high := if dflt then low + 2 else gp_high_watermark p in
  mkGcConf (gp_gc p) n d l thr (gc_salsa_init seg_size n d) low high.

Definition XNP_BIN_ID : Z := SALSA_MAX_PRIVATE_ID - 2.

Section Gc.
Context (c : scm_conf) (gc : gc_conf).

(** ** Queues of the collector (gc-queue.h) *)

Definition gc_queue_enqueue (bin i : nat) : scmm unit :=
  writes (size_add (Fifo bin) 1);; writes (cds_list_add_tail i (Fifo bin)).

Definition gc_queue_enqueue_head (bin i : nat) : scmm unit :=
  writes (size_add (Fifo bin) 1);; writes (cds_list_add i (Fifo bin)).

Definition gc_queue_dequeue (bin i : nat) : scmm unit :=
  e ← cds_queue_base_is_empty (Fifo bin);
  (if (e : bool) then mret tt else writes (size_add (Fifo bin) (-1)));;
  writes (cds_list_del i).

Definition gc_queue_add_page_relocs (bin : nat) (n : Z) : scmm unit :=
  writes (fun s => set_gc_stats (valid_seg_nr s) (zero_valid_nr s) (cherry_picked_nr s)
                     (fupd (page_relocs s) bin (page_relocs s bin + n)) (seg_relocs s) s).

(** ** Common bookkeeping (gc-common.c) *)

Definition inc_valid_seg_nr : scmm unit :=
  writes (fun s => set_gc_stats (valid_seg_nr s + 1) (zero_valid_nr s) (cherry_picked_nr s)
                     (page_relocs s) (seg_relocs s) s).

Definition gc_seg_released (bin : nat) : scmm unit :=
  writes (fun s => set_gc_stats (valid_seg_nr s - 1) (zero_valid_nr s) (cherry_picked_nr s)
                     (page_relocs s) (fupd (seg_relocs s) bin (seg_relocs s bin + 1)) s).

Definition inc_zero_valid_nr : scmm unit :=
  writes (fun s => set_gc_stats (valid_seg_nr s) (zero_valid_nr s + 1) (cherry_picked_nr s)
                     (page_relocs s) (seg_relocs s) s).

Definition inc_cherry_picked_nr : scmm unit :=
  writes (fun s => set_gc_stats (valid_seg_nr s) (zero_valid_nr s) (cherry_picked_nr s + 1)
                     (page_relocs s) (seg_relocs s) s).

Definition gc_seg_selected (i : nat) : scmm unit :=
  sg ← seg_get i;
  writes (fun s => set_scmt (scm_throttle_update (seg_size c) (u32 (seg_size c - valid_nr sg))
                               (scmt s)) s).

Definition gc_page_invalidate_reloc (i : nat) (n : Z) : scmm unit :=
  _ ← seg_putn i n; mret tt.

(** ** Bins (gc-nbin.c) *)

(** A bin past the array is no bin. *)
Definition gc_salsa_n_segment_rm_from_bin (i : nat) (bin : Z) : scmm unit :=
  bug_on (negb (bin <? bin_nr gc));; gc_queue_dequeue (Z.to_nat bin) i.

Definition gc_salsa_n_segment_add_to_bin (i : nat) (bin : Z) : scmm unit :=
  bug_on (negb (bin <? bin_nr gc));;
  gc_queue_enqueue (Z.to_nat bin) i;;
  seg_upd i (segment_set_private (wrap 8 bin)).

Definition gc_salsa_n_segment_add_to_bin_head (i : nat) (bin : Z) : scmm unit :=
  bug_on (negb (bin <? bin_nr gc));;
  gc_queue_enqueue_head (Z.to_nat bin) i;;
  seg_upd i (segment_set_private (wrap 8 bin)).

Definition gc_salsa_n_segment_locks_activate (i : nat) : scmm unit :=
  seg_upd i (segment_set_state SEG_GC).
Definition gc_salsa_n_segment_locks_deactivate (i : nat) : scmm unit :=
  seg_upd i (segment_set_state SEG_INVALID).

(** Into a bin, and visible to invalidations. *)
Definition add_and_activate (i : nat) (bin : Z) : scmm unit :=
  gc_salsa_n_segment_add_to_bin i bin;; gc_salsa_n_segment_locks_activate i.

Definition gc_recycle_seg_on_zero_valid_pages (i : nat) (bin : Z) : scmm unit :=
  scm_put_free_seg c i false;;
  gc_seg_released (Z.to_nat bin);;
  inc_zero_valid_nr.

Definition gc_free_seg_on_zero_valid_pages (i : nat) : scmm unit :=
  seg_upd i (segment_set_state SEG_INVALID);;
  sg ← seg_get i;
  gc_salsa_n_segment_rm_from_bin i (priv sg);;
  bug_on (negb (valid_nr sg =? 0));;
  gc_recycle_seg_on_zero_valid_pages i (priv sg).

Definition gc_salsa_n_seg2bin (n : Z) : Z :=
  if seg_size c =? n then bin_nr gc - 1 else n / bin_div gc.

(** ** Waiting queues *)

Definition xnp_lvl (sg : segment) : nat :=
  Z.to_nat (if stream sg <? xnp_levels gc then stream sg else xnp_levels gc - 1).

(** The head of a waiting queue, taken off it. *)
Definition xnp_pop (lvl : nat) : scmm (option nat) :=
  l ← reads (fun s => heads s (XnpWait lvl));
  match l with
  | [] => mret None
  | j :: _ => writes (cds_list_del j);; writes (size_add (XnpWait lvl) (-1));; mret (Some j)
  end.

Definition gc_xnp_popone_force (lvl : nat) : scmm (option nat) := xnp_pop lvl.

Definition gc_xnp_try_popone (i : nat) : scmm Z :=
  sg ← seg_get i;
  let lvl := xnp_lvl sg in
  l ← reads (fun s => heads s (XnpWait lvl));
  if decide (i ∈ l)
  then writes (size_add (XnpWait lvl) (-1));; writes (cds_list_del i);; mret 0
  else mret (- ENOENT).

Definition gc_xnp_pushone_popone (i lvl : nat) : scmm (option nat) :=
  writes (size_add (XnpWait lvl) 1);;
  len ← reads (fun s => sizes s (XnpWait lvl));
  writes (cds_list_add_tail i (XnpWait lvl));;
  seg_pop ← (if xnp_thr gc lvl <=? len then xnp_pop lvl else mret None);
  seg_upd i (segment_set_state SEG_GC_XNP);;
  seg_upd i (segment_set_private XNP_BIN_ID);;
  mret seg_pop.

(** Delay [i] and bin the segment it pushes out, [bin_of] its valid count. *)
Definition xnp_delay (bin_of : Z -> Z) (i : nat) : scmm unit :=
  sg ← seg_get i;
  seg_pop ← gc_xnp_pushone_popone i (xnp_lvl sg);
  match seg_pop with
  | None => mret tt
  | Some j => sj ← seg_get j; add_and_activate j (bin_of (valid_nr sj))
  end.

(** ** Destaging: a written segment comes to the collector *)

Definition MED_BIN_THRESHOLD (seg_size : Z) : Z := seg_size * 120 / 400.
Definition HIGH_BIN_THRESHOLD (seg_size : Z) : Z := seg_size * 180 / 400.
Definition GC_SALSA_LOW_QUEUE : Z := 0.
Definition GC_SALSA_MED_QUEUE : Z := 1.
Definition GC_SALSA_HIGH_QUEUE : Z := 2.

Definition salsa_3bin (n : Z) : Z :=
  let nfree := seg_size c - n in
  if nfree <? MED_BIN_THRESHOLD (seg_size c) then GC_SALSA_LOW_QUEUE
  else if nfree <? HIGH_BIN_THRESHOLD (seg_size c) then GC_SALSA_MED_QUEUE
  else GC_SALSA_HIGH_QUEUE.

Definition gc_salsa_seg_destaged (i : nat) : scmm unit :=
  sg ← seg_get i; add_and_activate i (salsa_3bin (valid_nr sg)).

Definition gc_salsa_n_seg_destaged (i : nat) : scmm unit :=
  sg ← seg_get i;
  if valid_nr sg =? 0 then gc_recycle_seg_on_zero_valid_pages i 0
  else add_and_activate i (valid_nr sg / bin_div gc).

Definition gc_salsa_n_xnp_seg_destaged (i : nat) : scmm unit :=
  sg ← seg_get i;
  if valid_nr sg =? 0 then gc_recycle_seg_on_zero_valid_pages i 0
  else if negb (is_reloc sg) then xnp_delay (fun n => n / bin_div gc) i
  else add_and_activate i (valid_nr sg / bin_div gc).

Definition gc_salsa_n_xnp_ovrw_seg_destaged (i : nat) : scmm unit :=
  sg ← seg_get i;
  if valid_nr sg =? 0 then gc_recycle_seg_on_zero_valid_pages i 0
  else if seg_size c =? valid_nr sg then add_and_activate i (gc_salsa_n_seg2bin (valid_nr sg))
  else xnp_delay gc_salsa_n_seg2bin i.

(** [find_right_bin]: the first bin whose threshold is above the count. *)
Fixpoint find_right_bin (n : Z) (bin todo : nat) : nat :=
  match todo with
  | O => bin
  | S todo' => if n <? threshold gc bin then bin else find_right_bin n (S bin) todo'
  end.

Definition seg2bin (n : Z) : Z := Z.of_nat (find_right_bin n 0 (Z.to_nat (bin_nr gc - 2))).

Definition gc_salsa_n_dyn_thr_seg_destaged (i : nat) : scmm unit :=
  sg ← seg_get i;
  if valid_nr sg =? 0 then gc_recycle_seg_on_zero_valid_pages i 0
  else add_and_activate i (seg2bin (valid_nr sg)).

(** The [seg_write]/[seg_relocate] entry of the collector's function table. *)
Definition seg_write (i : nat) : scmm unit :=
  match gc_ty gc with
  | GC_SALSA_3BIN => gc_salsa_seg_destaged i
  | GC_SALSA_NBIN | GC_NBIN_HEAT_SEG => gc_salsa_n_seg_destaged i
  | GC_NBIN_XNP_INTRPT_SAFE | GC_NBIN_XNP_HEAT_SEG => gc_salsa_n_xnp_seg_destaged i
  | GC_NBIN_XNP_OVRW_HEAT_SEG => gc_salsa_n_xnp_ovrw_seg_destaged i
  | GC_NBIN_DYN_THRESHOLD => gc_salsa_n_dyn_thr_seg_destaged i
  end.

(** Every collector of this file writes and relocates through the same entry. *)
Definition gc_seg_destaged (i : nat) : scmm unit := inc_valid_seg_nr;; seg_write i.

(** ** Invalidation of grains *)

(** [newbin != oldbin]: move to the bin of the count. *)
Definition rebin (i : nat) (newbin : Z) : scmm unit :=
  sg ← seg_get i;
  if newbin =? priv sg then mret tt
  else gc_salsa_n_segment_rm_from_bin i (priv sg);; gc_salsa_n_segment_add_to_bin i newbin.

Definition gc_salsa_page_invalidate (i : nat) (n : Z) : scmm unit :=
  valid ← seg_putn i n;
  let nfree := u32 (seg_size c - valid) in
  sg ← seg_get i;
  if decide (seg_state sg = SEG_GC) then
    if valid_nr sg =? 0 then gc_free_seg_on_zero_valid_pages i
    else rebin i (if MED_BIN_THRESHOLD (seg_size c) =? nfree then GC_SALSA_MED_QUEUE
                  else if HIGH_BIN_THRESHOLD (seg_size c) =? nfree then GC_SALSA_HIGH_QUEUE
                  else priv sg)
  else mret tt.

Definition gc_salsa_n_page_invalidate_common (i : nat) : scmm unit :=
  sg ← seg_get i;
  if decide (seg_state sg = SEG_GC) then
    if valid_nr sg =? 0 then gc_free_seg_on_zero_valid_pages i
    else rebin i (valid_nr sg / bin_div gc)
  else mret tt.

Definition gc_salsa_n_page_invalidate (i : nat) (n : Z) : scmm unit :=
  _ ← seg_putn i n; gc_salsa_n_page_invalidate_common i.

Definition gc_salsa_n_xnp_intrpt_safe_page_invalidate (i : nat) (n : Z) : scmm unit :=
  valid ← seg_putn i n;
  bug_on (seg_size c <? valid);;
  writes (fun s => if decide (i ∈ seg_bmap s) then s else set_seg_bmap (seg_bmap s ++ [i]) s).

Definition XNP_CHERRY_PICK_THRESHOLD : Z := 10.

Definition gc_salsa_n_xnp_try_cherry_pick (i : nat) (valid : Z) : scmm Z :=
  sg ← seg_get i;
  let thr := u32 (seg_size c * XNP_CHERRY_PICK_THRESHOLD / 100) in
  if negb ((valid <? thr) && (XNP_BIN_ID =? priv sg)) then mret (- ENOENT)
  else
    let valid := valid_nr sg in
    if negb ((valid <? thr) && (XNP_BIN_ID =? priv sg)) then mret (- ENOENT)
    else
      rc ← gc_xnp_try_popone i;
      if negb (rc =? 0) then mret (- ENOENT)
      else
        (if valid_nr sg =? 0 then gc_recycle_seg_on_zero_valid_pages i 0
         else gc_salsa_n_segment_add_to_bin i (gc_salsa_n_seg2bin (valid_nr sg));;
              seg_upd i (segment_set_state SEG_GC));;
        inc_cherry_picked_nr;;
        mret 0.

Definition gc_salsa_n_xnp_ovrw_page_invalidate (i : nat) (n : Z) : scmm unit :=
  valid ← seg_putn i n;
  rc ← gc_salsa_n_xnp_try_cherry_pick i valid;
  if rc =? 0 then mret tt
  else
    sg ← seg_get i;
    if decide (seg_state sg = SEG_GC) then
      if valid_nr sg =? 0 then gc_free_seg_on_zero_valid_pages i
      else if seg_size c - 1 =? valid
      then gc_salsa_n_segment_rm_from_bin i (priv sg);;
           gc_salsa_n_segment_locks_deactivate i;;
           xnp_delay gc_salsa_n_seg2bin i
      else rebin i (gc_salsa_n_seg2bin (valid_nr sg))
    else mret tt.

Definition gc_salsa_n_dyn_thr_page_invalidate (i : nat) (n : Z) : scmm unit :=
  _ ← seg_putn i n;
  sg ← seg_get i;
  if decide (seg_state sg = SEG_GC) then rebin i (seg2bin (valid_nr sg)) else mret tt.

Definition gc_page_invalidate (i : nat) (n : Z) : scmm unit :=
  match gc_ty gc with
  | GC_SALSA_3BIN => gc_salsa_page_invalidate i n
  | GC_SALSA_NBIN | GC_NBIN_HEAT_SEG | GC_NBIN_XNP_HEAT_SEG => gc_salsa_n_page_invalidate i n
  | GC_NBIN_XNP_INTRPT_SAFE => gc_salsa_n_xnp_intrpt_safe_page_invalidate i n
  | GC_NBIN_XNP_OVRW_HEAT_SEG => gc_salsa_n_xnp_ovrw_page_invalidate i n
  | GC_NBIN_DYN_THRESHOLD => gc_salsa_n_dyn_thr_page_invalidate i n
  end.

End Gc.

(** ** When the collector runs (gc-common.c) *)

Section Run.
Context (c : scm_conf) (gc : gc_conf) (ctlrs : ctl_table).

(** [scm_seg_queues_free_qset] *)
Fixpoint free_qset (qm : Z) (i n : nat) (s : scm) : Z :=
  match n with
  | O => 0
  | S n' => (if Z.testbit qm (Z.of_nat i) then sizes s (QSegs i) else 0) + free_qset qm (S i) n' s
  end.

Definition scm_seg_queues_free_qset (qm : Z) (s : scm) : Z := free_qset qm 0 (qs_nr c) s.

(** The scan of the registered controllers the three checks share. *)
Definition some_ctlr (P : Z -> bool) (s : scm) : bool :=
  existsb (fun o => match o with
                    | None => false
                    | Some qm => P (scm_seg_queues_free_qset qm s)
                    end) ctlrs.

Definition gc_check_start (s : scm) : bool := some_ctlr (fun n => n <=? LOW_WATERMARK gc) s.
Definition gc_check_critical (s : scm) : bool := some_ctlr (fun n => n <=? 1) s.
Definition gc_check_continue (s : scm) : bool := some_ctlr (fun n => n <? HIGH_WATERMARK gc) s.

(** ** Relocating a segment (gc-nbin.c) *)

(** A segment at the head of a bin that is not the collector's yet is waited
    for; without other threads that never ends. *)
Definition gc_salsa_get_first_seg (bin : nat) : scmm (option nat) :=
  l ← reads (fun s => heads s (Fifo bin));
  match l with
  | [] => mret None
  | i :: _ =>
      sg ← seg_get i;
      if decide (seg_state sg = SEG_GC) then
        seg_upd i (segment_set_state SEG_INVALID);;
        gc_salsa_n_segment_rm_from_bin gc i (priv sg);;
        mret (Some i)
      else bug
  end.

(** The bins from [bin] on, emptiest first. *)
Fixpoint first_of_bins (bin n : nat) : scmm (option nat) :=
  match n with
  | O => mret None
  | S n' =>
      o ← gc_salsa_get_first_seg bin;
      match o with
      | Some i => mret (Some i)
      | None => first_of_bins (S bin) n'
      end
  end.

(** The 3BIN collector starts from the bin of the most free grains. *)
Fixpoint first_of_bins_down (n : nat) : scmm (option nat) :=
  match n with
  | O => mret None
  | S n' =>
      o ← gc_salsa_get_first_seg n';
      match o with
      | Some i => mret (Some i)
      | None => first_of_bins_down n'
      end
  end.

Definition gc_salsa_return_failed_reloc_seg (i : nat) : scmm unit :=
  sg ← seg_get i;
  gc_salsa_n_segment_add_to_bin_head gc i (salsa_3bin c (valid_nr sg));;
  gc_salsa_n_segment_locks_activate i.

Definition gc_salsa_n_return_failed_reloc_seg (i : nat) : scmm unit :=
  sg ← seg_get i; add_and_activate gc i (valid_nr sg / bin_div gc).

(** What the controller does with segment [i]: its return code and the number of
    grains it counted. *)
Context (reloc_fn : nat -> scmm (Z * Z)).
(** [gc->exit] is read after each attempt. *)
Context (exiting : bool).

(** [tries] more attempts; the code gives up after 1000. *)
Fixpoint relocate_loop (tries : nat) (i : nat) (bin : Z) : scmm Z :=
  '(rc, cnt) ← reloc_fn i;
  gc_queue_add_page_relocs (Z.to_nat bin) cnt;;
  match tries with
  | O => mret rc
  | S tries' => if (rc =? EAGAIN) && negb exiting then relocate_loop tries' i bin else mret rc
  end.

Definition gc_salsa_relocate_seg (i : nat) (bin : Z) : scmm Z := relocate_loop 999 i bin.

Fixpoint xnp_try_pop (lvl n : nat) : scmm (option nat) :=
  match n with
  | O => mret None
  | S n' =>
      o ← gc_xnp_popone_force lvl;
      match o with
      | Some j => mret (Some j)
      | None => xnp_try_pop (S lvl) n'
      end
  end.

Definition gc_salsa_n_xnp_try_pop_one : scmm unit :=
  o ← xnp_try_pop 0 (Z.to_nat (xnp_levels gc));
  match o with
  | None => mret tt
  | Some j => sj ← seg_get j; add_and_activate gc j (valid_nr sj / bin_div gc)
  end.

(** What a relocated segment becomes. *)
Definition seg_relocated (i : nat) (bin : Z) : scmm unit :=
  scm_put_free_seg c i false;; gc_seg_released (Z.to_nat bin).

(** One round of the NBIN collectors; they leave the bin of the fully valid
    segments alone ([gc_salsa_n_get_bin_nr]). *)
Definition gc_salsa_n_run_choose_seg_and_reloc : scmm unit :=
  o ← first_of_bins 0 (Z.to_nat (bin_nr gc - 1));
  match o with
  | None => gc_salsa_n_xnp_try_pop_one
  | Some i =>
      sg ← seg_get i;
      gc_seg_selected c i;;
      rc ← gc_salsa_relocate_seg i (priv sg);
      if negb (rc =? 0) then gc_salsa_n_return_failed_reloc_seg i
      else seg_relocated i (priv sg)
  end.

(** One round of the 3BIN collector. *)
Definition gc_salsa_run_round : scmm unit :=
  o ← first_of_bins_down 3;
  match o with
  | None => mret tt
  | Some i =>
      sg ← seg_get i;
      gc_seg_selected c i;;
      rc ← gc_salsa_relocate_seg i (priv sg);
      if negb (rc =? 0) then gc_salsa_return_failed_reloc_seg i
      else seg_relocated i (priv sg)
  end.

(** The segments invalidated since the last round, in the order of their bits. *)
Definition gc_salsa_n_xnp_intrpt_safe_update_segs : scmm unit :=
  bits ← reads (fun s => filter (fun i => i ∈ seg_bmap s) (seq 0 (seg_nr c)));
  for_list bits (fun i =>
    writes (fun s => set_seg_bmap (filter (fun j => j <> i) (seg_bmap s)) s);;
    sg ← seg_get i;
    rc ← gc_salsa_n_xnp_try_cherry_pick c gc i (valid_nr sg);
    if rc =? 0 then mret tt else gc_salsa_n_page_invalidate_common c gc i).

(** A round of the collector the configuration names. *)
Definition gc_round : scmm unit :=
  match gc_ty gc with
  | GC_SALSA_3BIN => gc_salsa_run_round
  | GC_NBIN_XNP_INTRPT_SAFE =>
      gc_salsa_n_xnp_intrpt_safe_update_segs;; gc_salsa_n_run_choose_seg_and_reloc
  | _ => gc_salsa_n_run_choose_seg_and_reloc
  end.

(** [scm_throttle_user]: whether a user write has to wait. *)
Definition scm_throttle_user (exit active : bool) : scmm bool :=
  if exit then mret false
  else
    crit ← reads gc_check_critical;
    if (crit : bool) then mret true
    else if negb active then mret false
    else
      t ← reads scmt;
      let '(b, t') := scm_throttle_user_slot t in
      writes (set_scmt t');; mret b.

End Run.
