(* ===== verification/SalsaAlloc.v ===== *)
(** * SalsaAlloc: grains for the log, and their controller
      (salsa/src/frontends/usalsa++: allocator.c, SalsaCtlr.cc, Scm.cc)

    An allocator cuts segments into ranges of grains: it hands ranges out of the
    segments of its [stage_fifo] in order, and a segment whose grains have all
    been released goes over its [done_fifo] to the collector.  The last
    [reserved_per_seg] grains of a segment hold its metadata.  The controller
    owns one allocator per stream and accounts for the capacity in use. *)
From Stdlib Require Import ZArith Lia.
From stdpp Require Import base tactics list numbers.
From S2P Require Import Prelude Util StateM Throttle SalsaScm SalsaGc.

Open Scope Z_scope.

Definition SALSA_INVAL_GRAIN : Z := 2 ^ 64 - 1.
Definition USALSAPP_MAX_STREAMS : Z := 128.

Record ctlr_conf := mkCtlrConf {
  cc_id : Z;
  reserved_per_seg : Z;
  stream_nr : Z;
  rel_stream_nr : Z;
  a_flags : nat -> gfs_flags;   (** per allocator *)
  max_capacity : Z;             (** grains *)
  max_capacity_reloc : Z
}.

(** [stream_nr_] and [rel_stream_nr_] of [SalsaCtlr::init]. *)
Definition init_stream_nr (n : Z) : Z := Z.max (Z.min n USALSAPP_MAX_STREAMS) 1.
Definition init_rel_stream_nr (n : Z) : Z := Z.max (Z.min n USALSAPP_MAX_STREAMS) 0.

Section Alloc.
Context (c : scm_conf) (gc : gc_conf) (ctlrs : ctl_table) (cc : ctlr_conf).

(** ** The allocator (allocator.c) *)

Definition allocator_seg_next_range (i : nat) (len : Z) : scmm Z :=
  sg ← seg_get i;
  let idx := u64 (nr3 sg) in
  let next_idx := u64 (idx + len) in
  if (seg_size c <=? idx) || (seg_size c <? next_idx) then mret SALSA_INVAL_GRAIN
  else seg_upd i (set_nr3 (s32 next_idx));; mret idx.

(** [os_atomic32_sub_return(&seg->nr4, n)] *)
Definition nr4_sub (i : nat) (n : Z) : scmm Z :=
  sg ← seg_get i;
  seg_upd i (set_nr4 (s32 (nr4 sg - n)));;
  mret (s32 (nr4 sg - n)).

(** [seg_md_callback] of the controller: count the segment, pass the call on. *)
Definition seg_md_fn (grain len : Z) : scmm unit :=
  writes (fun s => set_alloc (allocating s) (u64 (seg_alloc_nr s + 1))
                     ((grain, len) :: seg_md_log s) s).

(** [allocator_allocate_segment] with the answer of [scm_get_free_seg]: nobody
    else knows the segment until it is on the staging list. *)
Definition stage_segment (a : nat) (answer : Z * option nat) : scmm Z :=
  let '(err, seg) := answer in
  if negb (err =? 0) then mret ENOSPC
  else
    i ← lifto seg;
    seg_upd i (segment_set_ctlr (cc_id cc));;
    seg_upd i (segment_set_state SEG_LSA_ALLOCATOR);;
    seg_upd i (set_nr3 0);;
    seg_upd i (set_nr4 (s32 (seg_size c)));;
    (if 0 <? reserved_per_seg cc
     then grain ← allocator_seg_next_range i (reserved_per_seg cc);
          _ ← nr4_sub i (reserved_per_seg cc);
          _ ← seg_putn i (reserved_per_seg cc);
          let grain := u64 (grain + scm_seg_to_grain c i) in
          seg_md_fn (u64 (grain + seg_size c - reserved_per_seg cc)) (reserved_per_seg cc)
     else mret tt);;
    cds_queue_base_enqueue_tail (StageFifo a) i;;
    mret 0.

Definition allocator_allocate_segment (a : nat) : scmm Z :=
  answer ← scm_get_free_seg c (a_flags cc a);
  stage_segment a answer.

(** A staged segment gives up what it has left. *)
Definition recycle (a i : nat) : scmm Z :=
  sg ← seg_get i;
  let rem := u64 (seg_size c - nr3 sg) in
  _ ← seg_putn i rem;
  cds_queue_base_del (StageFifo a) i;;
  n ← nr4_sub i rem;
  (if n =? 0 then cds_queue_base_enqueue_tail (DoneFifo a) i else mret tt);;
  mret rem.

(** The walk over the staged segments: the offset found and its segment. *)
Fixpoint stage_scan (a : nat) (len : Z) (l : list nat) : scmm (Z * option nat) :=
  match l with
  | [] => mret (SALSA_INVAL_GRAIN, None)
  | p :: l' =>
      grain ← allocator_seg_next_range p len;
      if negb (grain =? SALSA_INVAL_GRAIN)
      then (if seg_size c =? u64 (grain + len) then cds_queue_base_del (StageFifo a) p else mret tt);;
           mret (grain, Some p)
      else _ ← recycle a p; stage_scan a len l'
  end.

Definition set_allocating (a : nat) (b : bool) : scmm unit :=
  writes (fun s => set_alloc (fupd (allocating s) a b) (seg_alloc_nr s) (seg_md_log s) s).

(** One stretch under the lock of the staging list, from the label [retry] to
    the unlock: the grain found, and whether the caller took the right to
    allocate a segment. *)
Definition stage_section (a : nat) (len : Z) : scmm (Z * bool) :=
  l ← reads (fun s => heads s (StageFifo a));
  '(grain, seg) ← stage_scan a len l;
  e ← cds_queue_base_is_empty (StageFifo a);
  busy ← reads (fun s => allocating s a);
  if (grain =? SALSA_INVAL_GRAIN) && e && negb busy
  then set_allocating a true;; mret (SALSA_INVAL_GRAIN, true)
  else if negb (grain =? SALSA_INVAL_GRAIN)
  then i ← lifto seg; mret (u64 (scm_seg_to_grain c i + grain - reserved_per_seg cc), false)
  else mret (SALSA_INVAL_GRAIN, false).

(** [fuel] bounds the retries. *)
Fixpoint allocate_retry (fuel : nat) (a : nat) (len : Z) : scmm Z :=
  '(grain, go) ← stage_section a len;
  if (go : bool)
  then
    rc ← allocator_allocate_segment a;
    set_allocating a false;;
    (if rc =? 0
     then match fuel with O => bug | S fuel' => allocate_retry fuel' a len end
     else mret SALSA_INVAL_GRAIN)
  else mret grain.

Definition allocator_allocate_grains (fuel : nat) (a : nat) (len : Z) : scmm Z :=
  allocate_retry fuel a len.

(** Only the first staged segment is drained. *)
Definition allocator_drain_remaining_grains (a : nat) : scmm Z :=
  l ← reads (fun s => heads s (StageFifo a));
  match l with
  | [] => mret 0
  | p :: _ => rem ← recycle a p; mret (u32 rem)
  end.

(** The count-down: the segment, when nothing of it is left to release. *)
Definition release_count (grain len : Z) : scmm (option nat) :=
  i ← lifto (scm_grain_to_segment c grain);
  n ← nr4_sub i len;
  mret (if n =? 0 then Some i else None).

Definition allocator_release_grains (a : nat) (grain len : Z) : scmm unit :=
  o ← release_count grain len;
  match o with
  | Some i => cds_queue_base_enqueue_tail (DoneFifo a) i
  | None => mret tt
  end.

(** One turn of the allocator's thread. *)
Definition lsa_allocator_thread (a : nat) : scmm unit :=
  o ← cds_queue_base_pop_head (DoneFifo a);
  match o with
  | None => mret tt
  | Some i => gc_seg_destaged c gc i
  end.

(** ** Capacity (Scm.cc) *)

(** The [fetch_add] of the length and the comparison: whether there is room. *)
Definition provision_add (len : Z) (is_reloc : bool) : scmm bool :=
  old ← reads used_capacity;
  writes (set_used_capacity (u64 (old + len)));;
  mret (negb ((if is_reloc then max_capacity_reloc cc else max_capacity cc) <? u64 (old + len))).

(** [used_capacity_.fetch_sub(len)] *)
Definition unprovision_grains (len : Z) : scmm unit :=
  old ← reads used_capacity; writes (set_used_capacity (u64 (old - len))).

Definition provision_grains (len : Z) (is_reloc : bool) : scmm Z :=
  crit ← reads (gc_check_critical c ctlrs);
  if negb is_reloc && crit then mret EAGAIN
  else
    ok ← provision_add len is_reloc;
    if (ok : bool) then mret 0
    else unprovision_grains len;; mret ENOSPC.

Definition scm_invalidate_grains (grain len : Z) (is_reloc : bool) : scmm unit :=
  i ← lifto (scm_grain_to_segment c grain);
  (if negb is_reloc then gc_page_invalidate c gc i (u32 len)
   else gc_page_invalidate_reloc i (u32 len));;
  unprovision_grains len.

(** [scm_detach_free_seg] *)
Definition scm_detach_free_seg (i : nat) : scmm unit :=
  sg ← seg_get i;
  cds_queue_base_del (match seg_state sg with
                      | SEG_FREE => QSegs (queue_id sg)
                      | _ => QRelSegs (queue_id sg)
                      end) i.

(** A segment found on the device at start-up, with [len] valid grains. *)
Definition restore_grain_range (grain len id : Z) : scmm unit :=
  i ← lifto (scm_grain_to_segment c grain);
  seg_upd i (segment_getn (u32 len));;
  sg ← seg_get i;
  if decide (seg_state sg = SEG_FREE \/ seg_state sg = SEG_FREE_REL) then
    scm_detach_free_seg i;;
    _ ← seg_putn i (u32 (seg_size c));
    seg_upd i (segment_set_ctlr id);;
    gc_seg_destaged c gc i;;
    _ ← provision_grains len true;
    mret tt
  else mret tt.

(** ** The controller (SalsaCtlr.cc) *)

(** The allocator of a stream; without relocation streams relocation shares the
    last user stream. *)
Definition stream_to_alltr (stream : Z) (is_reloc : bool) : nat :=
  let n := if negb is_reloc then stream_nr cc
           else if 0 =? rel_stream_nr cc then 1 else rel_stream_nr cc in
  let s := stream mod n in
  Z.to_nat (if negb is_reloc then s
            else if 0 =? rel_stream_nr cc then stream_nr cc - 1 else stream_nr cc + s).

Definition allocate_grains_no_wait (fuel : nat) (len stream : Z) (is_reloc : bool) : scmm (Z * Z) :=
  if seg_size c <? u64 (len + reserved_per_seg cc) then mret (EINVAL, SALSA_INVAL_GRAIN)
  else
    rc ← provision_grains len is_reloc;
    if negb (rc =? 0) then mret (rc, SALSA_INVAL_GRAIN)
    else
      grain ← allocator_allocate_grains fuel (stream_to_alltr stream is_reloc) len;
      if grain =? SALSA_INVAL_GRAIN
      then unprovision_grains len;; mret (EAGAIN, SALSA_INVAL_GRAIN)
      else mret (0, grain).

(** [others] is what other threads do while the caller waits. *)
Definition allocate_grains (fuel : nat) (others : scmm unit) (len stream : Z) (is_reloc : bool)
  : scmm (Z * Z) :=
  '(rc, grain) ← allocate_grains_no_wait fuel len stream is_reloc;
  if rc =? EAGAIN
  then others;; allocate_grains_no_wait fuel len stream is_reloc
  else mret (rc, grain).

Definition drain_remaining_grains (stream : Z) (is_reloc : bool) : scmm Z :=
  allocator_drain_remaining_grains (stream_to_alltr stream is_reloc).

Definition release_grains (grain len stream : Z) (is_reloc : bool) : scmm unit :=
  allocator_release_grains (stream_to_alltr stream is_reloc) grain len.

Definition invalidate_grains (grain len : Z) (is_reloc : bool) : scmm unit :=
  scm_invalidate_grains grain len is_reloc.

End Alloc.
