(* ===== verification/SalsaInv.v ===== *)
(** * SalsaInv: where every segment is and what it holds

    The ranges of grains the users of SALSA hold are kept in a [ledger].  The
    invariant [inv] names for every segment the one list it is on ([where]), and
    ties its state word, its counters and its bin to that place and to the ranges
    of the ledger that lie in it. *)
From Stdlib Require Import ZArith Lia.
From stdpp Require Import base tactics list numbers.
From S2P Require Import Prelude StateM Throttle SalsaScm SalsaGc SalsaAlloc.

Open Scope Z_scope.

(** ** Ranges *)

Record range := mkRange {
  r_grain : Z;
  r_len : Z;
  r_live : bool;     (** not invalidated *)
  r_pend : bool      (** not released: a write may be under way *)
}.

Definition ledger : Type := list range.

Definition disj (r1 r2 : range) : Prop :=
  r_grain r1 + r_len r1 <= r_grain r2 \/ r_grain r2 + r_len r2 <= r_grain r1.

Fixpoint all_disj (L : ledger) : Prop :=
  match L with
  | [] => True
  | r :: L' => Forall (disj r) L' /\ all_disj L'
  end.

(** Where a segment is: on a list; handed out in full or in part and off the
    staging list; or in the hands of one thread, which is the collector ([Held]),
    an allocation that has taken it from a free queue ([Taken]), or whoever takes
    a segment with nothing left to release to the collector ([Done]). *)
Inductive where_is := At (p : place) | Out | Held | Taken | Done.

#[global] Instance where_is_eq : EqDecision where_is.
Proof. solve_decision. Defined.

Section Inv.
Context (c : scm_conf) (gc : gc_conf) (cc : ctlr_conf).

Local Abbreviation size := (seg_size c).
Local Abbreviation reserved := (reserved_per_seg cc).

Definition in_seg (i : nat) (r : range) : bool := r_grain r / size =? Z.of_nat i.

(** Grains of the ranges of segment [i] that [f] selects. *)
Fixpoint tally (f : range -> bool) (i : nat) (L : ledger) : Z :=
  match L with
  | [] => 0
  | r :: L' => (if in_seg i r && f r then r_len r else 0) + tally f i L'
  end.

Fixpoint live_total (L : ledger) : Z :=
  match L with
  | [] => 0
  | r :: L' => (if r_live r then r_len r else 0) + live_total L'
  end.

Record range_ok (r : range) : Prop := {
  ro_len : 0 < r_len r;
  ro_grain : 0 <= r_grain r;
  ro_seg : r_grain r / size < Z.of_nat (seg_nr c);
  ro_end : r_grain r mod size + r_len r <= size - reserved;
  ro_used : r_live r || r_pend r = true
}.

Definition ledger_ok (L : ledger) : Prop := Forall range_ok L /\ all_disj L.

(** ** The invariant *)

Record lists_ok (w : nat -> where_is) (s : scm) : Prop := {
  lo_nodup p : NoDup (heads s p);
  lo_size p : sizes s p = Z.of_nat (length (heads s p));
  lo_mem p i : i ∈ heads s p <-> (i < seg_nr c)%nat /\ w i = At p
}.

(** A segment with all its grains free. *)
Definition seg_free (i : nat) (sg : segment) (L : ledger) : Prop :=
  valid_nr sg = size /\ tally r_live i L = 0 /\ tally r_pend i L = 0.

(** A written segment: only what users hold is valid, and nothing is in flight. *)
Definition seg_written (i : nat) (sg : segment) (L : ledger) : Prop :=
  valid_nr sg = tally r_live i L /\ tally r_pend i L = 0.

Record seg_base (sg : segment) : Prop := {
  sb_queue : (queue_id sg < qs_nr c)%nat;
  sb_stream : 0 <= stream sg;
  sb_valid : valid_nr sg <= size;
  sb_nr4 : nr4 sg <= size
}.

Definition seg_ok (x : where_is) (i : nat) (sg : segment) (L : ledger) : Prop :=
  seg_base sg /\
  match x with
  | At (QSegs q) => seg_state sg = SEG_FREE /\ queue_id sg = q /\ seg_free i sg L
  | At (QRelSegs q) => seg_state sg = SEG_FREE_REL /\ queue_id sg = q /\ seg_free i sg L
  | At (Fifo b) =>
      seg_state sg = SEG_GC /\ priv sg = Z.of_nat b /\ Z.of_nat b < bin_nr gc /\
      seg_written i sg L
  | At (XnpWait l) =>
      seg_state sg = SEG_GC_XNP /\ priv sg = XNP_BIN_ID /\ xnp_lvl gc sg = l /\
      seg_written i sg L
  | At (StageFifo a) =>
      seg_state sg = SEG_LSA_ALLOCATOR /\ reserved <= nr3 sg < size /\
      valid_nr sg = tally r_live i L + (size - nr3 sg) /\
      nr4 sg = tally r_pend i L + (size - nr3 sg) /\
      Forall (fun r => in_seg i r = true -> r_grain r mod size + r_len r <= nr3 sg - reserved) L
  | At (DoneFifo a) => seg_state sg = SEG_LSA_ALLOCATOR /\ nr4 sg = 0 /\ seg_written i sg L
  | Out =>
      seg_state sg = SEG_LSA_ALLOCATOR /\ valid_nr sg = tally r_live i L /\
      nr4 sg = tally r_pend i L /\ 0 < nr4 sg
  | Held => seg_state sg = SEG_INVALID /\ seg_written i sg L
  | Taken => (seg_state sg = SEG_FREE \/ seg_state sg = SEG_FREE_REL) /\ seg_free i sg L
  | Done => seg_state sg = SEG_LSA_ALLOCATOR /\ nr4 sg = 0 /\ seg_written i sg L
  end.

(** Everything but the segments that [open] names. *)
Record inv_open (open : nat -> Prop) (w : nat -> where_is) (L : ledger) (s : scm) : Prop := {
  io_lists : lists_ok w s;
  io_segs i : (i < seg_nr c)%nat -> ~ open i -> seg_ok (w i) i (segs s i) L;
  io_ledger : ledger_ok L;
  io_thr : throttler_ok (scmt s)
}.

(** All segments, with [U] grains of capacity in use. *)
Definition inv_used (w : nat -> where_is) (L : ledger) (U : Z) (s : scm) : Prop :=
  inv_open (fun _ => False) w L s /\ used_capacity s = U.

(** Between the calls of users the capacity in use is what they hold. *)
Definition inv (w : nat -> where_is) (L : ledger) (s : scm) : Prop :=
  inv_used w L (live_total L) s.

(** In the hands of one thread. *)
Definition owned (x : where_is) : bool :=
  match x with Held | Taken | Done => true | _ => false end.

(** The segments in somebody's hands are the same. *)
Definition held_same (w w' : nat -> where_is) : Prop :=
  forall i x, owned x = true -> w i = x <-> w' i = x.

(** The configuration the theorems are about. *)
Record conf_ok : Prop := {
  co_size : 0 < size < 2 ^ 31;
  co_nr : Z.of_nat (seg_nr c) * size < 2 ^ 62;
  co_res : 0 <= reserved < size;
  co_bins : 1 < bin_nr gc <= 255;
  co_div : 0 < bin_div gc;
  co_cover : gc_ty gc <> GC_SALSA_3BIN -> size / bin_div gc < bin_nr gc;
  co_3bin : gc_ty gc = GC_SALSA_3BIN -> bin_nr gc = 3;
  co_xnp : match gc_ty gc with
           | GC_NBIN_XNP_INTRPT_SAFE | GC_NBIN_XNP_HEAT_SEG | GC_NBIN_XNP_OVRW_HEAT_SEG =>
               0 < xnp_levels gc
           | _ => True
           end;
  co_thr l : (Z.of_nat l < xnp_levels gc) -> 2 <= xnp_thr gc l
}.

(** ** Tallies *)

Lemma tally_nonneg f i L : Forall range_ok L -> 0 <= tally f i L.
Proof.
  induction 1 as [|r L [Hl _ _ _ _] _ IH]; simpl; [lia|]. destruct (_ && _); lia.
Qed.

Lemma tally_perm f i L L' : L ≡ₚ L' -> tally f i L = tally f i L'.
Proof. induction 1; simpl; lia. Qed.

Lemma live_total_perm L L' : L ≡ₚ L' -> live_total L = live_total L'.
Proof. induction 1; simpl; lia. Qed.

Lemma tally_zero f i L r :
  Forall range_ok L -> tally f i L = 0 -> r ∈ L -> in_seg i r = true -> f r = false.
Proof.
  intros HL. induction HL as [|r' L [Hl _ _ _ _] HL IH]; simpl; intros Ht Hr Hi.
  { by apply elem_of_nil in Hr. }
  pose proof (tally_nonneg f i L HL). apply elem_of_cons in Hr as [->|Hr].
  - rewrite Hi in Ht. simpl in Ht. destruct (f r'); [lia|done].
  - apply IH; try done. destruct (in_seg i r' && f r'); lia.
Qed.

Lemma tally_le_size_aux f i L r :
  Forall range_ok L -> r ∈ L -> in_seg i r = true -> f r = true -> r_len r <= tally f i L.
Proof.
  intros HL. induction HL as [|r' L [Hl _ _ _ _] HL IH]; simpl; intros Hr Hi Hf.
  { by apply elem_of_nil in Hr. }
  pose proof (tally_nonneg f i L HL). apply elem_of_cons in Hr as [->|Hr].
  - rewrite Hi, Hf. simpl. lia.
  - specialize (IH Hr Hi Hf). destruct (in_seg i r' && f r'); lia.
Qed.

(** ** Disjointness *)

Lemma disj_sym r1 r2 : disj r1 r2 -> disj r2 r1.
Proof. unfold disj. tauto. Qed.

Lemma all_disj_perm L L' : L ≡ₚ L' -> all_disj L -> all_disj L'.
Proof.
  induction 1 as [|r L L' Hp IH|r r' L|L1 L2 L3 _ IH1 _ IH2]; simpl; [done|..|tauto].
  - intros [Hr HL]. split; [by rewrite <- Hp|by apply IH].
  - rewrite !Forall_cons_iff. intros [[H1 H2] [H3 H4]]. split_and!; try done. by apply disj_sym.
Qed.

Lemma ledger_ok_perm L L' : L ≡ₚ L' -> ledger_ok L -> ledger_ok L'.
Proof. intros Hp [H1 H2]. split; [by rewrite <- Hp|by eapply all_disj_perm]. Qed.

Lemma seg_ok_perm x i sg L L' : L ≡ₚ L' -> seg_ok x i sg L -> seg_ok x i sg L'.
Proof.
  intros Hp [Hq Hx]. split; [done|]. unfold seg_free, seg_written in *.
  rewrite <- !(tally_perm _ _ _ _ Hp). destruct x as [[]| | | |]; try done.
  by rewrite <- Hp.
Qed.

(** ** Lists *)

Lemma fupd_same {A B} `{EqDecision A} (f : A -> B) x v : fupd f x v x = v.
Proof. unfold fupd. by rewrite decide_True. Qed.
Lemma fupd_other {A B} `{EqDecision A} (f : A -> B) x y v : y <> x -> fupd f x v y = f y.
Proof. intros. unfold fupd. by rewrite decide_False. Qed.

Definition unlisted (x : where_is) : Prop := match x with At _ => False | _ => True end.

Lemma lists_add w s s' p i :
  lists_ok w s -> (i < seg_nr c)%nat -> unlisted (w i) ->
  (heads s' p = heads s p ++ [i] \/ heads s' p = i :: heads s p) ->
  (forall q, q <> p -> heads s' q = heads s q) ->
  sizes s' p = sizes s p + 1 -> (forall q, q <> p -> sizes s' q = sizes s q) ->
  lists_ok (fupd w i (At p)) s'.
Proof.
  intros [Hn Hs Hm] Hi Hun Hp Hq Hsp Hsq.
  assert (forall q, i ∉ heads s q) as Hni.
  { intros q Hin. apply Hm in Hin as [_ Hw]. by rewrite Hw in Hun. }
  assert (heads s' p ≡ₚ i :: heads s p) as Hperm.
  { destruct Hp as [->| ->]; [by rewrite Permutation_app_comm|done]. }
  split.
  - intros q. destruct (decide (q = p)) as [->|Hne]; [|by rewrite Hq].
    rewrite Hperm. constructor; auto.
  - intros q. destruct (decide (q = p)) as [->|Hne]; [|by rewrite Hq, Hsq].
    rewrite Hsp, (Permutation_length Hperm), Hs. simpl. lia.
  - intros q j. destruct (decide (j = i)) as [->|Hj].
    + rewrite fupd_same. destruct (decide (q = p)) as [->|Hne].
      * rewrite Hperm. split; [done|]. intros _. apply elem_of_cons. by left.
      * rewrite Hq by done. split; [intros Hin; by destruct (Hni q)|]. intros [_ [=]]. congruence.
    + rewrite fupd_other by done. destruct (decide (q = p)) as [->|Hne].
      * rewrite Hperm, elem_of_cons, Hm. naive_solver.
      * rewrite Hq by done. apply Hm.
Qed.

Lemma filter_ne_notin (i : nat) (l : list nat) : i ∉ l -> filter (fun j => j <> i) l = l.
Proof.
  induction l as [|x l IH]; intros Hi; [done|]. apply not_elem_of_cons in Hi as [Hx Hi].
  rewrite filter_cons_True by done. by rewrite IH.
Qed.

Lemma filter_ne_length (i : nat) (l : list nat) :
  NoDup l -> i ∈ l -> length l = S (length (filter (fun j => j <> i) l)).
Proof.
  induction l as [|x l IH]; intros Hn Hi; [by apply elem_of_nil in Hi|].
  pose proof (NoDup_cons_1_1 _ _ Hn). pose proof (NoDup_cons_1_2 _ _ Hn).
  apply elem_of_cons in Hi as [->|Hi].
  - rewrite filter_cons_False by tauto. by rewrite filter_ne_notin.
  - rewrite filter_cons_True by congruence. simpl. by rewrite <- IH.
Qed.

Lemma lists_del w s s' p i x :
  lists_ok w s -> w i = At p -> (i < seg_nr c)%nat -> unlisted x ->
  (forall q, heads s' q = filter (fun j => j <> i) (heads s q)) ->
  sizes s' p = sizes s p - 1 -> (forall q, q <> p -> sizes s' q = sizes s q) ->
  lists_ok (fupd w i x) s'.
Proof.
  intros [Hn Hs Hm] Hw Hi Hx Hh Hsp Hsq.
  assert (i ∈ heads s p) as Hin by (apply Hm; done).
  split.
  - intros q. rewrite Hh. by apply list.NoDup_filter.
  - intros q. rewrite Hh. destruct (decide (q = p)) as [->|Hne].
    + rewrite Hsp, Hs. rewrite (filter_ne_length i (heads s p)) by done. lia.
    + rewrite Hsq, Hs, filter_ne_notin; [done| |done].
      intros [_ Hwq]%Hm. congruence.
  - intros q j. rewrite Hh, list_elem_of_filter. destruct (decide (j = i)) as [->|Hj].
    + rewrite fupd_same. split; [naive_solver|]. intros [_ ->]. done.
    + rewrite fupd_other, Hm by done. naive_solver.
Qed.

(** ** Opening a segment

    While an operation works on segment [i] the invariant holds for the others;
    [at_seg] follows what [i] holds meanwhile. *)

Definition at_seg (i : nat) (sg : segment) (w : nat -> where_is) (L : ledger) (U : Z) (s : scm)
  : Prop :=
  inv_open (fun j => j = i) w L s /\ segs s i = sg /\ (i < seg_nr c)%nat /\ used_capacity s = U.

(** A segment in no list passes from hand to hand. *)
Lemma at_seg_rename i sg w L U s x :
  at_seg i sg w L U s -> unlisted (w i) -> unlisted x -> at_seg i sg (fupd w i x) L U s.
Proof.
  intros ([[Hn Hz Hm] Hs HL Ht] & Hsg & Hi & Hc) Hw Hx. split_and!; try done. split; try done.
  - split; [done|done|]. intros p j. rewrite Hm. destruct (decide (j = i)) as [->|Hne].
    + rewrite fupd_same. split; intros [_ E]; rewrite E in *; done.
    + by rewrite fupd_other.
  - intros j Hj Hne. rewrite fupd_other by done. by apply Hs.
Qed.

Lemma inv_at_seg w L U s i :
  inv_used w L U s -> (i < seg_nr c)%nat ->
  at_seg i (segs s i) w L U s /\ seg_ok (w i) i (segs s i) L.
Proof.
  intros [[Hl Hs HL Ht] Hc] Hi. split; [|by apply Hs; [|tauto]].
  split_and!; try done. split; try done. intros j Hj _. apply Hs; tauto.
Qed.

Lemma at_seg_inv w L U s i sg :
  at_seg i sg w L U s -> seg_ok (w i) i sg L -> inv_used w L U s.
Proof.
  intros ([Hl Hs HL Ht] & <- & Hi & Hc) Hok. split; [|done]. split; try done.
  intros j Hj _. destruct (decide (j = i)) as [->|]; [done|by apply Hs].
Qed.

(** Only fields outside of the invariant differ. *)
Lemma at_seg_frame i sg w L U s s' :
  at_seg i sg w L U s ->
  segs s' = segs s -> heads s' = heads s -> sizes s' = sizes s -> scmt s' = scmt s ->
  used_capacity s' = used_capacity s -> at_seg i sg w L U s'.
Proof.
  intros ([[H1 H2 H3] Hs HL Ht] & Hsg & Hi & Hc) E1 E2 E3 E4 E5.
  unfold at_seg. rewrite E1, E5. split_and!; try done.
  split; [|by rewrite E1|done|by rewrite E4].
  split; by rewrite ?E2, ?E3.
Qed.

(** The same for the closed invariant. *)
Lemma inv_frame w L U s s' :
  inv_used w L U s ->
  segs s' = segs s -> heads s' = heads s -> sizes s' = sizes s -> scmt s' = scmt s ->
  used_capacity s' = used_capacity s -> inv_used w L U s'.
Proof.
  intros ([[H1 H2 H3] Hs HL Ht] & Hc) E1 E2 E3 E4 E5.
  split; [|by rewrite E5]. split; [|by rewrite E1|done|by rewrite E4].
  split; by rewrite ?E2, ?E3.
Qed.

Lemma wp_seg_get i sg w L U s (Q : segment -> scm -> Prop) :
  at_seg i sg w L U s -> Q sg s -> wp (seg_get i) Q s.
Proof. intros (_ & Hsg & _) HQ. apply wp_reads. by rewrite Hsg. Qed.

Lemma wp_seg_upd i sg w L U s f (Q : unit -> scm -> Prop) :
  at_seg i sg w L U s -> (forall s', at_seg i (f sg) w L U s' -> Q tt s') ->
  wp (seg_upd i f) Q s.
Proof.
  intros ([Hl Hs HL Ht] & Hsg & Hi & Hc) HQ. apply wp_writes. apply HQ.
  split_and!; [|simpl; by rewrite fupd_same, Hsg|done|done].
  split; [by destruct Hl|..|done|done].
  intros j Hj Hne. simpl. rewrite fupd_other by done. by apply Hs.
Qed.

Lemma wp_seg_putn i sg w L U s n (Q : Z -> scm -> Prop) :
  at_seg i sg w L U s -> 0 <= n <= valid_nr sg -> valid_nr sg < 2 ^ 31 ->
  (forall s', at_seg i (set_valid_nr (valid_nr sg - n) sg) w L U s' -> Q (valid_nr sg - n) s') ->
  wp (seg_putn i n) Q s.
Proof.
  intros Hat Hn Hv HQ. unfold seg_putn. apply wp_bind. apply (wp_seg_get _ _ _ _ _ _ _ Hat).
  apply wp_bind. unfold segment_putn. rewrite !s32_small by lia.
  rewrite (proj2 (Z.ltb_ge (valid_nr sg) n)) by lia.
  eapply wp_lifto; [done|]. apply wp_bind. eapply wp_seg_upd; [exact Hat|].
  intros s' Hat'. apply wp_ret. by apply HQ.
Qed.

Lemma wp_list_add i sg w L U s p m (Q : unit -> scm -> Prop) :
  (m = (writes (cds_list_add_tail i p);; writes (size_add p 1)) \/
   m = (writes (size_add p 1);; writes (cds_list_add_tail i p)) \/
   m = (writes (size_add p 1);; writes (cds_list_add i p))) ->
  at_seg i sg w L U s -> unlisted (w i) ->
  (forall s', at_seg i sg (fupd w i (At p)) L U s' -> Q tt s') ->
  wp m Q s.
Proof.
  intros Hm ([Hl Hs HL Ht] & Hsg & Hi & Hc) Hun HQ.
  destruct Hm as [->|[->| ->]]; wp_steps; apply HQ; split_and!; try done;
    (split; [|intros j Hj Hne; rewrite fupd_other by done; by apply Hs|done|done]);
    eapply lists_add; try done; simpl;
    first [by intros; rewrite ?fupd_other|rewrite ?fupd_same; tauto].
Qed.

Lemma wp_list_del i sg w L U s p x m (Q : unit -> scm -> Prop) :
  (m = (writes (cds_list_del i);; writes (size_add p (-1))) \/
   m = (writes (size_add p (-1));; writes (cds_list_del i))) ->
  at_seg i sg w L U s -> w i = At p -> unlisted x ->
  (forall s', at_seg i sg (fupd w i x) L U s' -> Q tt s') ->
  wp m Q s.
Proof.
  intros Hm ([Hl Hs HL Ht] & Hsg & Hi & Hc) Hw Hx HQ.
  destruct Hm as [->| ->]; wp_steps; apply HQ; split_and!; try done;
    (split; [|intros j Hj Hne; rewrite fupd_other by done; by apply Hs|done|done]);
    eapply lists_del; try done; simpl;
    first [by intros; rewrite ?fupd_other|rewrite ?fupd_same; lia].
Qed.

End Inv.
