(* ===== verification/SalsaMoves.v ===== *)
(** * SalsaMoves: the collector's operations keep the invariant

    Each operation of SalsaGc that moves a segment between the free queues, the
    bins and the waiting queues takes a state that satisfies the invariant of
    SalsaInv to one that does, and gives up or takes no segment from a relocation
    under way. *)
From Stdlib Require Import ZArith Lia.
From stdpp Require Import base tactics list numbers.
From S2P Require Import Prelude StateM Throttle SalsaScm SalsaGc SalsaAlloc SalsaInv.

Open Scope Z_scope.

(** The place of a segment is known and is in nobody's hands. *)
Ltac unowned :=
  match goal with
  | H : _ = At _ |- owned _ = false => by rewrite H
  | H : _ = Out |- owned _ = false => by rewrite H
  end.

Section Moves.
Context (c : scm_conf) (gc : gc_conf) (cc : ctlr_conf).
Context (Hco : conf_ok c gc cc).

Local Abbreviation size := (seg_size c).
Local Abbreviation at_seg := (at_seg c gc cc).
Local Abbreviation inv_used := (inv_used c gc cc).
Local Abbreviation seg_ok := (seg_ok c gc cc).

(** Segment [i] moved from [w i] to [x]. *)
Definition moved (w : nat -> where_is) (i : nat) (x : where_is) (w' : nat -> where_is) : Prop :=
  w' i = x /\ forall j, j <> i -> w' j = w j.

Lemma moved_fupd w i x : moved w i x (fupd w i x).
Proof. split; [by apply fupd_same|]. intros. by apply fupd_other. Qed.

Lemma moved_fupd2 w i x y : moved w i y (fupd (fupd w i x) i y).
Proof. split; [by apply fupd_same|]. intros. by rewrite !fupd_other. Qed.

Lemma held_same_refl w : held_same w w.
Proof. done. Qed.

Lemma held_same_trans w1 w2 w3 : held_same w1 w2 -> held_same w2 w3 -> held_same w1 w3.
Proof. intros H1 H2 i x Hx. by rewrite (H1 i x Hx), (H2 i x Hx). Qed.

Lemma moved_held w i x w' :
  moved w i x w' -> owned (w i) = false -> owned x = false -> held_same w w'.
Proof.
  intros [Hi Hj] H1 H2 j y Hy. destruct (decide (j = i)) as [->|Hne]; [|by rewrite Hj].
  rewrite Hi. split; congruence.
Qed.

(** ** Counters outside of the invariant *)

Lemma wp_writes_frame f w L U s (Q : unit -> scm -> Prop) :
  (forall s, segs (f s) = segs s /\ heads (f s) = heads s /\ sizes (f s) = sizes s /\
             scmt (f s) = scmt s /\ used_capacity (f s) = used_capacity s) ->
  inv_used w L U s -> (forall s', inv_used w L U s' -> Q tt s') -> wp (writes f) Q s.
Proof.
  intros Hf Hinv HQ. apply wp_writes, HQ. destruct (Hf s) as (E1 & E2 & E3 & E4 & E5).
  by eapply inv_frame.
Qed.

Lemma wp_gc_seg_released bin w L U s (Q : unit -> scm -> Prop) :
  inv_used w L U s -> (forall s', inv_used w L U s' -> Q tt s') -> wp (gc_seg_released bin) Q s.
Proof. by apply wp_writes_frame. Qed.

Lemma wp_inc_zero_valid_nr w L U s (Q : unit -> scm -> Prop) :
  inv_used w L U s -> (forall s', inv_used w L U s' -> Q tt s') -> wp inc_zero_valid_nr Q s.
Proof. by apply wp_writes_frame. Qed.

Lemma wp_inc_cherry_picked_nr w L U s (Q : unit -> scm -> Prop) :
  inv_used w L U s -> (forall s', inv_used w L U s' -> Q tt s') -> wp inc_cherry_picked_nr Q s.
Proof. by apply wp_writes_frame. Qed.

Lemma wp_add_page_relocs bin n w L U s (Q : unit -> scm -> Prop) :
  inv_used w L U s -> (forall s', inv_used w L U s' -> Q tt s') ->
  wp (gc_queue_add_page_relocs bin n) Q s.
Proof. by apply wp_writes_frame. Qed.

(** ** Back to the free queues *)

Lemma size_u32 : s32 (u32 size) = size.
Proof.
  destruct (co_size _ _ _ Hco). rewrite (wrap_small 32) by (unfold in_width; lia).
  apply s32_small. lia.
Qed.

Lemma free_seg_ok i sg L (st : segment_state) (p : place) :
  seg_base c sg -> tally c r_live i L = 0 -> tally c r_pend i L = 0 ->
  (st = SEG_FREE /\ p = QSegs (queue_id sg)) \/ (st = SEG_FREE_REL /\ p = QRelSegs (queue_id sg)) ->
  seg_ok (At p) i (segment_set_state st (segment_reset (u32 size) sg)) L.
Proof.
  intros [Hq _ _ _] Hl Hp Hst. pose proof size_u32 as Hsz. destruct (co_size _ _ _ Hco).
  split; [split; simpl; [done|lia..]|].
  destruct Hst as [[-> ->]|[-> ->]]; simpl; by split_and!.
Qed.

Lemma wp_put_free i sg w L U s (Q : unit -> scm -> Prop) :
  at_seg i sg w L U s -> unlisted (w i) -> seg_base c sg ->
  tally c r_live i L = 0 -> tally c r_pend i L = 0 ->
  (forall s' w' p, inv_used w' L U s' -> moved w i (At p) w' -> Q tt s') ->
  wp (scm_put_free_seg c i false) Q s.
Proof.
  intros Hat Hun Hq Hl Hp HQ. unfold scm_put_free_seg.
  apply wp_bind. apply (wp_seg_get _ _ _ _ _ _ _ _ _ _ Hat).
  apply wp_bind. apply (wp_seg_upd _ _ _ _ _ _ _ _ _ _ _ Hat). clear s Hat. intros s Hat.
  unfold cds_queue_base_size. do 2 wp_step. destruct (_ <? _).
  - apply wp_bind, wp_bind. apply (wp_seg_upd _ _ _ _ _ _ _ _ _ _ _ Hat). clear s Hat. intros s Hat.
    eapply (wp_list_add _ _ _ _ _ _ _ _ _ (QRelSegs (queue_id sg)));
      [left; reflexivity|exact Hat|done|].
    clear s Hat. intros s Hat. apply wp_ret.
    eapply HQ; [|apply moved_fupd]. apply (at_seg_inv _ _ _ _ _ _ _ _ _ Hat).
    rewrite fupd_same. apply free_seg_ok; auto.
  - apply wp_bind, wp_bind. apply (wp_seg_upd _ _ _ _ _ _ _ _ _ _ _ Hat). clear s Hat. intros s Hat.
    eapply (wp_list_add _ _ _ _ _ _ _ _ _ (QSegs (queue_id sg)));
      [left; reflexivity|exact Hat|done|].
    clear s Hat. intros s Hat. apply wp_ret.
    eapply HQ; [|apply moved_fupd]. apply (at_seg_inv _ _ _ _ _ _ _ _ _ Hat).
    rewrite fupd_same. apply free_seg_ok; auto.
Qed.

Lemma wp_recycle_zero i bin sg w L U s (Q : unit -> scm -> Prop) :
  at_seg i sg w L U s -> unlisted (w i) -> seg_base c sg ->
  tally c r_live i L = 0 -> tally c r_pend i L = 0 ->
  (forall s' w' p, inv_used w' L U s' -> moved w i (At p) w' -> Q tt s') ->
  wp (gc_recycle_seg_on_zero_valid_pages c i bin) Q s.
Proof.
  intros Hat Hun Hq Hl Hp HQ. unfold gc_recycle_seg_on_zero_valid_pages. apply wp_bind.
  eapply wp_put_free; try done. clear s Hat. intros s w' p Hinv Hmv.
  apply wp_bind. eapply wp_gc_seg_released; [done|]. clear s Hinv. intros s Hinv.
  eapply wp_inc_zero_valid_nr; [done|]. clear s Hinv. intros s Hinv. by eapply HQ.
Qed.

(** ** Into and out of a bin *)

Lemma wp_add_to_bin i bin sg w L U s (Q : unit -> scm -> Prop) :
  at_seg i sg w L U s -> unlisted (w i) -> 0 <= bin < bin_nr gc ->
  (forall s', at_seg i (segment_set_private bin sg) (fupd w i (At (Fifo (Z.to_nat bin)))) L U s' ->
              Q tt s') ->
  wp (gc_salsa_n_segment_add_to_bin gc i bin) Q s.
Proof.
  intros Hat Hun Hb HQ. destruct (co_bins _ _ _ Hco).
  unfold gc_salsa_n_segment_add_to_bin. apply wp_bind, wp_bug_on.
  { by rewrite (proj2 (Z.ltb_lt bin (bin_nr gc))) by lia. }
  apply wp_bind. eapply (wp_list_add _ _ _ _ _ _ _ _ _ (Fifo (Z.to_nat bin)));
    [right; left; reflexivity|exact Hat|done|].
  clear s Hat. intros s Hat. rewrite (wrap_small 8) by (unfold in_width; lia).
  by apply (wp_seg_upd _ _ _ _ _ _ _ _ _ _ _ Hat).
Qed.

Lemma binned_ok i bin sg L :
  seg_base c sg -> 0 <= bin < bin_nr gc -> seg_written c i sg L ->
  seg_ok (At (Fifo (Z.to_nat bin))) i (segment_set_state SEG_GC (segment_set_private bin sg)) L.
Proof.
  intros [Hq Hst Hv H4] Hb Hw. split; [by split|]. simpl. split_and!; try done; lia.
Qed.

(** A segment in no list goes into a bin, visible to invalidations. *)
Lemma wp_add_and_activate i bin sg w L U s (Q : unit -> scm -> Prop) :
  at_seg i sg w L U s -> unlisted (w i) -> 0 <= bin < bin_nr gc ->
  seg_base c sg -> seg_written c i sg L ->
  (forall s' w', inv_used w' L U s' -> moved w i (At (Fifo (Z.to_nat bin))) w' -> Q tt s') ->
  wp (add_and_activate gc i bin) Q s.
Proof.
  intros Hat Hun Hb Hbase Hw HQ. unfold add_and_activate. apply wp_bind.
  eapply wp_add_to_bin; [exact Hat|done|done|]. clear s Hat. intros s Hat.
  apply (wp_seg_upd _ _ _ _ _ _ _ _ _ _ _ Hat). clear s Hat. intros s Hat.
  eapply HQ; [|apply moved_fupd]. apply (at_seg_inv _ _ _ _ _ _ _ _ _ Hat).
  rewrite fupd_same. by apply binned_ok.
Qed.

Lemma at_seg_listed i sg w L U s p : at_seg i sg w L U s -> w i = At p -> i ∈ heads s p.
Proof. intros (Hio & _ & Hi & _) Hw. by apply (lo_mem _ _ _ (io_lists _ _ _ _ _ _ _ Hio)). Qed.

Lemma wp_dequeue i b x sg w L U s (Q : unit -> scm -> Prop) :
  at_seg i sg w L U s -> w i = At (Fifo b) -> unlisted x ->
  (forall s', at_seg i sg (fupd w i x) L U s' -> Q tt s') ->
  wp (gc_queue_dequeue b i) Q s.
Proof.
  intros Hat Hw Hx HQ. unfold gc_queue_dequeue, cds_queue_base_is_empty. do 2 wp_step.
  pose proof (at_seg_listed _ _ _ _ _ _ _ Hat Hw) as Hin.
  destruct (heads s (Fifo b)) as [|j l]; [by apply elem_of_nil in Hin|].
  eapply (wp_list_del _ _ _ _ _ _ _ _ _ (Fifo b) x); [right; reflexivity|exact Hat|done|done|done].
Qed.

Lemma wp_rm_from_bin i b x sg w L U s (Q : unit -> scm -> Prop) :
  at_seg i sg w L U s -> w i = At (Fifo b) -> Z.of_nat b < bin_nr gc -> unlisted x ->
  (forall s', at_seg i sg (fupd w i x) L U s' -> Q tt s') ->
  wp (gc_salsa_n_segment_rm_from_bin gc i (Z.of_nat b)) Q s.
Proof.
  intros Hat Hw Hb Hx HQ. unfold gc_salsa_n_segment_rm_from_bin. apply wp_bind, wp_bug_on.
  { by rewrite (proj2 (Z.ltb_lt _ _) Hb). }
  rewrite Nat2Z.id. by eapply wp_dequeue.
Qed.

(** Where a segment in state [SEG_GC] is. *)
Lemma seg_gc_fifo x i sg L :
  seg_ok x i sg L -> seg_state sg = SEG_GC ->
  exists b, x = At (Fifo b) /\ priv sg = Z.of_nat b /\ Z.of_nat b < bin_nr gc /\ seg_written c i sg L.
Proof.
  intros (_ & Hx) Hst. destruct x as [[q|q|b|l|a|a]| | | |]; try (destruct Hx as [[] _]; congruence);
    try (destruct Hx; congruence).
  exists b. tauto.
Qed.

(** The waiting queue of a segment in state [SEG_GC_XNP]. *)
Lemma seg_xnp_wait x i sg L :
  seg_ok x i sg L -> seg_state sg = SEG_GC_XNP ->
  x = At (XnpWait (xnp_lvl gc sg)) /\ seg_written c i sg L.
Proof.
  intros (_ & Hx) Hst. destruct x as [[q|q|b|l|a|a]| | | |]; try (destruct Hx as [[] _]; congruence);
    try (destruct Hx; congruence).
  destruct Hx as (_ & _ & <- & ?). done.
Qed.

(** ** Invalidations re-sort a bin *)

Lemma wp_rebin i b newbin sg w L U s (Q : unit -> scm -> Prop) :
  inv_used w L U s -> (i < seg_nr c)%nat -> segs s i = sg -> w i = At (Fifo b) ->
  0 <= newbin < bin_nr gc ->
  (forall s' w', inv_used w' L U s' -> moved w i (At (Fifo (Z.to_nat newbin))) w' -> Q tt s') ->
  wp (rebin gc i newbin) Q s.
Proof.
  intros Hinv Hi Hsg Hw Hb HQ. destruct (inv_at_seg _ _ _ _ _ _ _ _ Hinv Hi) as [Hat Hok].
  rewrite Hsg in *. rewrite Hw in Hok. destruct Hok as (Hbase & Hs & Hp & Hbb & Hwr).
  unfold rebin. apply wp_bind. apply (wp_seg_get _ _ _ _ _ _ _ _ _ _ Hat). rewrite Hp.
  destruct (Z.eqb_spec newbin (Z.of_nat b)) as [->|Hne].
  { apply wp_ret. eapply HQ; [done|]. rewrite Nat2Z.id. by split. }
  apply wp_bind. eapply (wp_rm_from_bin i b Out); [exact Hat|done|done|done|].
  clear s Hinv Hsg Hat. intros s Hat.
  eapply wp_add_to_bin; [exact Hat|by rewrite fupd_same|done|]. clear s Hat. intros s Hat.
  eapply HQ; [|apply moved_fupd2]. apply (at_seg_inv _ _ _ _ _ _ _ _ _ Hat).
  rewrite fupd_same. destruct Hbase. split; [by split|]. simpl. split_and!; try done; lia.
Qed.

Lemma wp_free_on_zero i b sg w L U s (Q : unit -> scm -> Prop) :
  inv_used w L U s -> (i < seg_nr c)%nat -> segs s i = sg -> w i = At (Fifo b) ->
  valid_nr sg = 0 ->
  (forall s' w' p, inv_used w' L U s' -> moved w i (At p) w' -> Q tt s') ->
  wp (gc_free_seg_on_zero_valid_pages c gc i) Q s.
Proof.
  intros Hinv Hi Hsg Hw Hv HQ. destruct (inv_at_seg _ _ _ _ _ _ _ _ Hinv Hi) as [Hat Hok].
  rewrite Hsg in *. rewrite Hw in Hok. destruct Hok as ([Hq1 Hq2 Hq3 Hq4] & Hs & Hp & Hbb & Hval & Hpend).
  unfold gc_free_seg_on_zero_valid_pages. apply wp_bind.
  apply (wp_seg_upd _ _ _ _ _ _ _ _ _ _ _ Hat). clear s Hinv Hsg Hat. intros s Hat.
  apply wp_bind. apply (wp_seg_get _ _ _ _ _ _ _ _ _ _ Hat).
  apply wp_bind. cbn [priv segment_set_state]. rewrite Hp.
  eapply (wp_rm_from_bin i b Out); [exact Hat|done|done|done|]. clear s Hat. intros s Hat.
  apply wp_bind, wp_bug_on; [simpl; by rewrite Hv|].
  eapply wp_recycle_zero; [exact Hat|by rewrite fupd_same|by split|congruence|done|].
  clear s Hat. intros s w' p Hinv [H1 H2]. eapply HQ; [done|]. split; [done|].
  intros j Hj. by rewrite H2, fupd_other.
Qed.

(** ** Bin numbers *)

Lemma div_bin v : gc_ty gc <> GC_SALSA_3BIN -> 0 <= v <= size -> 0 <= v / bin_div gc < bin_nr gc.
Proof.
  intros Ht Hv. pose proof (co_div _ _ _ Hco). pose proof (co_cover _ _ _ Hco Ht). split.
  - by apply Z.div_pos; lia.
  - eapply Z.le_lt_trans; [apply (Z.div_le_mono v size); lia|done].
Qed.

Lemma seg2bin_bin v : gc_ty gc <> GC_SALSA_3BIN -> 0 <= v <= size -> 0 <= gc_salsa_n_seg2bin c gc v < bin_nr gc.
Proof.
  intros Ht Hv. unfold gc_salsa_n_seg2bin. destruct (size =? v); [|by apply div_bin].
  destruct (co_bins _ _ _ Hco). lia.
Qed.

Lemma find_right_bin_bound v b n : (b <= find_right_bin gc v b n <= b + n)%nat.
Proof.
  revert b. induction n as [|n IH]; intros b; simpl; [lia|]. destruct (_ <? _); [lia|].
  specialize (IH (S b)). lia.
Qed.

Lemma dyn_bin v : 0 <= seg2bin gc v < bin_nr gc.
Proof.
  unfold seg2bin. destruct (co_bins _ _ _ Hco).
  pose proof (find_right_bin_bound v 0 (Z.to_nat (bin_nr gc - 2))). lia.
Qed.

Lemma salsa_3bin_bin v : gc_ty gc = GC_SALSA_3BIN -> 0 <= salsa_3bin c v < bin_nr gc.
Proof.
  intros Ht. rewrite (co_3bin _ _ _ Hco Ht). unfold salsa_3bin.
  destruct (_ <? _); [unfold GC_SALSA_LOW_QUEUE; lia|].
  destruct (_ <? _); [unfold GC_SALSA_MED_QUEUE|unfold GC_SALSA_HIGH_QUEUE]; lia.
Qed.

Lemma written_range i sg L :
  ledger_ok c cc L -> seg_base c sg -> seg_written c i sg L -> 0 <= valid_nr sg <= size.
Proof.
  intros [HL _] Hb [Hv _]. pose proof (tally_nonneg c cc r_live i L HL).
  destruct Hb. lia.
Qed.

(** ** Waiting queues *)

Lemma xnp_lvl_bound sg : 0 < xnp_levels gc -> 0 <= stream sg -> Z.of_nat (xnp_lvl gc sg) < xnp_levels gc.
Proof. intros Hl Hs. unfold xnp_lvl. destruct (Z.ltb_spec (stream sg) (xnp_levels gc)); lia. Qed.

(** A segment in [SEG_GC_XNP] on its waiting queue. *)
Definition waiting (sg : segment) : segment :=
  segment_set_private XNP_BIN_ID (segment_set_state SEG_GC_XNP sg).

Definition set_waiting (i : nat) (s : scm) : scm :=
  set_segs (fupd (fupd (segs s) i (segment_set_state SEG_GC_XNP (segs s i))) i
              (segment_set_private XNP_BIN_ID
                 (fupd (segs s) i (segment_set_state SEG_GC_XNP (segs s i)) i))) s.

Lemma at_seg_waiting i sg w L U s :
  at_seg i sg w L U s -> w i = Out -> seg_base c sg -> seg_written c i sg L ->
  inv_used (fupd w i (At (XnpWait (xnp_lvl gc sg)))) L U
    (set_waiting i (cds_list_add_tail i (XnpWait (xnp_lvl gc sg))
                      (size_add (XnpWait (xnp_lvl gc sg)) 1 s))).
Proof.
  intros Hat Hw Hbase Hwr. set (p := XnpWait (xnp_lvl gc sg)).
  assert (at_seg i sg (fupd w i (At p)) L U (cds_list_add_tail i p (size_add p 1 s))) as Hat1.
  { destruct (wp_list_add c gc cc i sg w L U s p (writes (size_add p 1);; writes (cds_list_add_tail i p))
                (fun _ => at_seg i sg (fupd w i (At p)) L U)) as ([] & s' & E & H);
      [tauto|done|by rewrite Hw|done|]. injection E as <-. exact H. }
  set (s1 := cds_list_add_tail i p (size_add p 1 s)) in *.
  assert (at_seg i (waiting sg) (fupd w i (At p)) L U (set_waiting i s1)) as Hat2.
  { destruct (wp_seg_upd c gc cc i sg _ L U s1 (segment_set_state SEG_GC_XNP)
                (fun _ => at_seg i (segment_set_state SEG_GC_XNP sg) (fupd w i (At p)) L U) Hat1)
      as ([] & s2 & E & H); [done|]. injection E as <-.
    destruct (wp_seg_upd c gc cc i _ _ L U _ (segment_set_private XNP_BIN_ID)
                (fun _ => at_seg i (waiting sg) (fupd w i (At p)) L U) H)
      as ([] & s3 & E & H'); [done|]. injection E as <-. exact H'. }
  apply (at_seg_inv _ _ _ _ _ _ _ _ _ Hat2). rewrite fupd_same.
  destruct Hbase. split; [by split|]. by split_and!.
Qed.

(** What a push does: nobody is pushed out, or the oldest of the queue. *)
Lemma pushone_run i sg w L U s (lvl := xnp_lvl gc sg) (p := XnpWait lvl)
    (s1 := set_waiting i (cds_list_add_tail i p (size_add p 1 s))) :
  at_seg i sg w L U s -> w i = Out -> 0 < xnp_levels gc -> 0 <= stream sg ->
  gc_xnp_pushone_popone gc i lvl s = Some (None, s1) \/
  exists j, j <> i /\ j ∈ heads s p /\
    gc_xnp_pushone_popone gc i lvl s = Some (Some j, size_add p (-1) (cds_list_del j s1)).
Proof.
  intros Hat Hw Hl Hst.
  pose proof (co_thr _ _ _ Hco lvl (xnp_lvl_bound sg Hl Hst)) as Hthr.
  assert (sizes s p = Z.of_nat (length (heads s p))) as Hsz.
  { destruct Hat as ([[_ Hsz _] _ _ _] & _). apply Hsz. }
  destruct (Z.leb_spec (xnp_thr gc lvl) (sizes s p + 1)) as [Hge|Hlt].
  - right. destruct (heads s p) as [|j l] eqn:Hh; [simpl in Hsz; lia|].
    exists j. assert (j ∈ j :: l) as Hin by (apply elem_of_cons; by left).
    assert (j <> i) as Hji.
    { intros ->. destruct Hat as ([[_ _ Hm] _ _ _] & _).
      rewrite <- Hh in Hin. apply Hm in Hin as [_ Hin]. congruence. }
    split_and!; [done|done|]. unfold gc_xnp_pushone_popone, xnp_pop.
    cbv [mbind stm_bind mret stm_ret writes reads seg_upd]. cbn [sizes size_add set_lists].
    fold p. rewrite fupd_same, (proj2 (Z.leb_le _ _) Hge).
    cbn [heads cds_list_add_tail size_add set_lists]. rewrite fupd_same, Hh. reflexivity.
  - left. unfold gc_xnp_pushone_popone.
    cbv [mbind stm_bind mret stm_ret writes reads seg_upd]. cbn [sizes size_add set_lists].
    fold p. rewrite fupd_same, (proj2 (Z.leb_gt _ _) Hlt). reflexivity.
Qed.

Lemma wp_xnp_delay bin_of i sg w L U s (Q : unit -> scm -> Prop) :
  at_seg i sg w L U s -> w i = Out -> seg_base c sg -> seg_written c i sg L ->
  0 < xnp_levels gc -> (forall v, 0 <= v <= size -> 0 <= bin_of v < bin_nr gc) ->
  (forall s' w', inv_used w' L U s' -> held_same w w' -> Q tt s') ->
  wp (xnp_delay gc bin_of i) Q s.
Proof.
  intros Hat Hw Hbase Hwr Hlv Hbin HQ. unfold xnp_delay. apply wp_bind.
  apply (wp_seg_get _ _ _ _ _ _ _ _ _ _ Hat). apply wp_bind.
  pose proof (at_seg_waiting i sg w L U s Hat Hw Hbase Hwr) as Hinv.
  set (lvl := xnp_lvl gc sg) in *. set (p := XnpWait lvl) in *.
  assert (held_same w (fupd w i (At p))) as Hh1.
  { eapply moved_held; [apply moved_fupd|unowned|done]. }
  destruct (pushone_run i sg w L U s Hat Hw Hlv (sb_stream _ _ Hbase)) as [E|(j & Hji & Hj & E)];
    fold lvl p in E; eexists _, _; (split; [exact E|]); cbn beta iota.
  - apply wp_ret. by eapply HQ.
  - set (s1 := set_waiting _ _) in *.
    assert ((j < seg_nr c)%nat /\ w j = At p) as [Hjn Hwj].
    { destruct Hat as ([[_ _ Hm] _ _ _] & _). by apply Hm. }
    destruct (inv_at_seg _ _ _ _ _ _ _ _ Hinv Hjn) as [Hatj Hokj].
    set (sj := segs s1 j) in *. rewrite fupd_other, Hwj in Hokj by done.
    destruct Hokj as (Hbj & _ & _ & _ & Hwrj).
    assert (at_seg j sj (fupd (fupd w i (At p)) j Out) L U (size_add p (-1) (cds_list_del j s1)))
      as Hatj'.
    { destruct (wp_list_del c gc cc j sj (fupd w i (At p)) L U s1 p Out
                  (writes (cds_list_del j);; writes (size_add p (-1)))
                  (fun _ => at_seg j sj (fupd (fupd w i (At p)) j Out) L U))
        as ([] & s2 & E2 & H); [tauto|done|by rewrite fupd_other|done|done|].
      injection E2 as <-. exact H. }
    apply wp_bind. apply (wp_seg_get _ _ _ _ _ _ _ _ _ _ Hatj').
    assert (ledger_ok c cc L) as HL by (by destruct Hinv as [[] _]).
    eapply (wp_add_and_activate j); [exact Hatj'|by rewrite fupd_same| |done|done|].
    { by apply Hbin, (written_range j sj L). }
    intros s' w' Hinv' Hmv. eapply HQ; [done|].
    eapply held_same_trans; [done|].
    eapply held_same_trans; [|eapply moved_held; [exact Hmv|by rewrite fupd_same|done]].
    eapply moved_held; [apply moved_fupd|rewrite fupd_other by done; unowned|done].
Qed.

(** ** Destaging *)

Lemma wp_seg_write i sg w L U s (Q : unit -> scm -> Prop) :
  at_seg i sg w L U s -> w i = Out -> seg_base c sg -> seg_written c i sg L ->
  (forall s' w', inv_used w' L U s' -> held_same w w' -> Q tt s') ->
  wp (seg_write c gc i) Q s.
Proof.
  intros Hat Hw Hbase Hwr HQ. pose proof (co_xnp _ _ _ Hco) as Hx.
  assert (ledger_ok c cc L) as HL by (by destruct Hat as [[] _]).
  pose proof (written_range i sg L HL Hbase Hwr) as Hv.
  assert (unlisted (w i)) as Hun by (by rewrite Hw).
  assert (forall bin s' w', moved w i (At bin) w' -> inv_used w' L U s' -> Q tt s') as HQ'.
  { intros p s' w' Hmv Hinv. eapply HQ; [done|]. eapply moved_held; [done|unowned|done]. }
  assert (forall bin, valid_nr sg = 0 ->
            wp (gc_recycle_seg_on_zero_valid_pages c i bin) Q s) as Hzero.
  { intros bin Hz. destruct Hwr as [Hwr1 Hwr2].
    eapply wp_recycle_zero; [exact Hat|done|done|congruence|done|]. eauto. }
  assert (forall bin, 0 <= bin < bin_nr gc -> wp (add_and_activate gc i bin) Q s) as Hbin.
  { intros bin Hb. eapply wp_add_and_activate; [exact Hat|done|done|done|done|]. eauto. }
  assert (gc_ty gc <> GC_SALSA_3BIN -> forall v, 0 <= v <= size -> 0 <= v / bin_div gc < bin_nr gc) as Hdiv.
  { intros Ht v. by apply div_bin. }
  assert (gc_ty gc <> GC_SALSA_3BIN ->
          forall v, 0 <= v <= size -> 0 <= gc_salsa_n_seg2bin c gc v < bin_nr gc) as Hs2b.
  { intros Ht v. by apply seg2bin_bin. }
  unfold seg_write. destruct (gc_ty gc) eqn:Ht;
    [apply wp_bind, (wp_seg_get _ _ _ _ _ _ _ _ _ _ Hat); by apply Hbin, salsa_3bin_bin|..];
    (apply wp_bind, (wp_seg_get _ _ _ _ _ _ _ _ _ _ Hat); destruct (Z.eqb_spec (valid_nr sg) 0);
     [by apply Hzero|]).
  - by apply Hbin, Hdiv.
  - destruct (negb (is_reloc sg)); [|by apply Hbin, Hdiv].
    eapply wp_xnp_delay; try done. by apply Hdiv.
  - destruct (negb (is_reloc sg)); [|by apply Hbin, Hdiv].
    eapply wp_xnp_delay; try done. by apply Hdiv.
  - by apply Hbin, Hdiv.
  - destruct (size =? valid_nr sg); [by apply Hbin, Hs2b|].
    eapply wp_xnp_delay; try done. by apply Hs2b.
  - apply Hbin, dyn_bin.
Qed.

Lemma wp_gc_seg_destaged i sg w L U s (Q : unit -> scm -> Prop) :
  at_seg i sg w L U s -> w i = Out -> seg_base c sg -> seg_written c i sg L ->
  (forall s' w', inv_used w' L U s' -> held_same w w' -> Q tt s') ->
  wp (gc_seg_destaged c gc i) Q s.
Proof.
  intros Hat Hw Hbase Hwr HQ. unfold gc_seg_destaged. apply wp_bind, wp_writes.
  eapply wp_seg_write; [|done..]. by eapply at_seg_frame.
Qed.

(** ** Ranges given back *)

(** What is left of a range once it is invalidated, and once it is released. *)
Definition invalidated (r : range) : ledger :=
  if r_pend r then [mkRange (r_grain r) (r_len r) false true] else [].
Definition released (r : range) : ledger :=
  if r_live r then [mkRange (r_grain r) (r_len r) true false] else [].

(** [e] becomes what [l] keeps of it. *)
Record shrinks (e : range) (l : ledger) : Prop := {
  sh_same r : r ∈ l -> r_grain r = r_grain e /\ r_len r = r_len e /\ r_live r || r_pend r = true;
  sh_one : (length l <= 1)%nat
}.

Lemma invalidated_shrinks e : shrinks e (invalidated e).
Proof.
  unfold invalidated. destruct (r_pend e); split; simpl; try lia; intros r Hr.
  - apply list_elem_of_singleton in Hr. by subst.
  - by apply elem_of_nil in Hr.
Qed.

Lemma released_shrinks e : shrinks e (released e).
Proof.
  unfold released. destruct (r_live e); split; simpl; try lia; intros r Hr.
  - apply list_elem_of_singleton in Hr. by subst.
  - by apply elem_of_nil in Hr.
Qed.

Lemma shrinks_ledger e l L0 :
  shrinks e l -> ledger_ok c cc (e :: L0) -> ledger_ok c cc (l ++ L0).
Proof.
  intros [Hs Hone] [HF [Hd HD]]. apply Forall_cons_iff in HF as [He HF].
  destruct l as [|r [|r2 l]]; simpl in *; [by split| |lia].
  destruct (Hs r) as (Hg & Hl & Hu); [apply elem_of_cons; by left|].
  split; [apply Forall_cons_iff; split; [|done]|split; [|done]].
  - destruct He. split; rewrite ?Hg, ?Hl; done.
  - eapply Forall_impl; [|exact Hd]. intros r' Hr'. unfold disj in *. by rewrite Hg, Hl.
Qed.

Lemma tally_app f i L1 L2 : tally c f i (L1 ++ L2) = tally c f i L1 + tally c f i L2.
Proof. induction L1 as [|r L1 IH]; simpl; [done|]. rewrite IH. lia. Qed.

Lemma shrinks_tally_other e l f j :
  shrinks e l -> in_seg c j e = false -> tally c f j l = 0.
Proof.
  intros [Hs Hone] Hj. destruct l as [|r [|r2 l]]; simpl in *; [done| |lia].
  destruct (Hs r) as (Hg & _ & _); [apply elem_of_cons; by left|].
  unfold in_seg in *. by rewrite Hg, Hj.
Qed.

(** Segments the range does not lie in do not notice. *)
Lemma shrinks_seg_ok e l L0 x j sg :
  shrinks e l -> in_seg c j e = false -> seg_ok x j sg (e :: L0) -> seg_ok x j sg (l ++ L0).
Proof.
  intros Hsh Hj [Hb Hx]. split; [done|].
  assert (forall f, tally c f j (l ++ L0) = tally c f j (e :: L0)) as Ht.
  { intros f. rewrite tally_app, (shrinks_tally_other e l f j Hsh Hj). simpl. by rewrite Hj. }
  unfold seg_free, seg_written in *. rewrite !Ht. destruct x as [[q|q|b|lv|a|a]| | | |]; try done.
  destruct Hx as (H1 & H2 & H3 & H4 & H5). split_and!; try (done || lia).
  apply Forall_cons_iff in H5 as [_ H5]. apply Forall_app. split; [|done].
  apply Forall_forall. intros r Hr%list_elem_of_In Hin. destruct (sh_same _ _ Hsh r Hr) as (Hg & _ & _).
  unfold in_seg in *. congruence.
Qed.

(** Giving back part of the ledger while a segment of it is open. *)
Lemma at_seg_shrink i sg w L L0 e l U s :
  at_seg i sg w L U s -> L ≡ₚ e :: L0 -> in_seg c i e = true -> shrinks e l ->
  at_seg i sg w (l ++ L0) U s.
Proof.
  intros ([Hl Hs HL Ht] & Hsg & Hi & Hc) Hp Hin Hsh. split_and!; try done.
  split; try done.
  - intros j Hj Hne. eapply shrinks_seg_ok; [done| |].
    + unfold in_seg in *. apply Z.eqb_neq. apply Z.eqb_eq in Hin. lia.
    + eapply seg_ok_perm; [exact Hp|]. by apply Hs.
  - eapply shrinks_ledger; [done|]. by eapply ledger_ok_perm.
Qed.

Lemma tally_invalidated i e L0 :
  in_seg c i e = true -> r_live e = true ->
  tally c r_live i (invalidated e ++ L0) = tally c r_live i (e :: L0) - r_len e /\
  tally c r_pend i (invalidated e ++ L0) = tally c r_pend i (e :: L0).
Proof.
  intros Hin Hl. rewrite !tally_app. unfold invalidated. cbn [tally]. rewrite Hin, Hl.
  destruct (r_pend e) eqn:Hp; cbn [tally r_live r_pend r_len andb]; unfold in_seg in *;
    cbn [r_grain]; rewrite ?Hin; simpl; lia.
Qed.

Lemma tally_released i e L0 :
  in_seg c i e = true -> r_pend e = true ->
  tally c r_pend i (released e ++ L0) = tally c r_pend i (e :: L0) - r_len e /\
  tally c r_live i (released e ++ L0) = tally c r_live i (e :: L0).
Proof.
  intros Hin Hl. rewrite !tally_app. unfold released. cbn [tally]. rewrite Hin, Hl.
  destruct (r_live e) eqn:Hp; cbn [tally r_live r_pend r_len andb]; unfold in_seg in *;
    cbn [r_grain]; rewrite ?Hin; simpl; lia.
Qed.

Lemma live_total_invalidated e L0 :
  r_live e = true -> live_total (invalidated e ++ L0) = live_total (e :: L0) - r_len e.
Proof. intros Hl. unfold invalidated. simpl. rewrite Hl. destruct (r_pend e); simpl; lia. Qed.

Lemma live_total_released e L0 : live_total (released e ++ L0) = live_total (e :: L0).
Proof. unfold released. simpl. destruct (r_live e); simpl; lia. Qed.

(** The stage bound survives. *)
Lemma shrinks_bound e l L0 i b :
  shrinks e l ->
  Forall (fun r => in_seg c i r = true -> r_grain r mod size + r_len r <= b) (e :: L0) ->
  Forall (fun r => in_seg c i r = true -> r_grain r mod size + r_len r <= b) (l ++ L0).
Proof.
  intros Hsh [He HL]%Forall_cons_iff. apply Forall_app. split; [|done].
  apply Forall_forall. intros r Hr%list_elem_of_In Hin. destruct (sh_same _ _ Hsh r Hr) as (Hg & Hl & _).
  unfold in_seg in *. rewrite Hg in *. rewrite Hl. by apply He.
Qed.

(** A segment with a live range holds it as valid grains; taking them off leaves
    the segment in order for the ledger without the range. *)
Lemma invalidate_seg_ok x i sg e L0 :
  ledger_ok c cc (e :: L0) -> seg_ok x i sg (e :: L0) -> in_seg c i e = true -> r_live e = true ->
  r_len e <= valid_nr sg /\
  seg_ok x i (set_valid_nr (valid_nr sg - r_len e) sg) (invalidated e ++ L0).
Proof.
  intros [HF _] [[Hb1 Hb2 Hb3 Hb4] Hx] Hin Hl.
  destruct (tally_invalidated i e L0 Hin Hl) as [Tl Tp].
  pose proof (tally_le_size_aux c cc r_live i (e :: L0) e HF (list_elem_of_here _ _) Hin Hl) as Hle.
  assert (0 < r_len e) as Hpos by (by apply Forall_cons_iff in HF as [[] _]).
  assert (forall v, v = valid_nr sg - r_len e -> seg_base c (set_valid_nr v sg)) as Hbase.
  { intros v ->. split; simpl; try done. lia. }
  destruct x as [[q|q|b|lv|a|a]| | | |]; unfold seg_free, seg_written in Hx; simpl.
  - destruct Hx as (_ & _ & _ & Hz & _). lia.
  - destruct Hx as (_ & _ & _ & Hz & _). lia.
  - destruct Hx as (H1 & H2 & H3 & H4 & H5). split; [lia|]. split; [by apply Hbase|].
    split_and!; try done. split; simpl; lia.
  - destruct Hx as (H1 & H2 & H3 & H4 & H5). split; [lia|]. split; [by apply Hbase|].
    split_and!; try done. split; simpl; lia.
  - destruct Hx as (H1 & H2 & H3 & H4 & H5). split; [lia|]. split; [by apply Hbase|].
    simpl. split_and!; try done; try lia. eapply shrinks_bound; [apply invalidated_shrinks|done].
  - destruct Hx as (H1 & H2 & H3 & H4). split; [lia|]. split; [by apply Hbase|].
    split_and!; try done. split; simpl; lia.
  - destruct Hx as (H1 & H2 & H3 & H4). split; [lia|]. split; [by apply Hbase|].
    simpl. split_and!; try done; lia.
  - destruct Hx as (H1 & H2 & H3). split; [lia|]. split; [by apply Hbase|].
    split_and!; try done. split; simpl; lia.
  - destruct Hx as (_ & _ & Hz & _). lia.
  - destruct Hx as (H1 & H2 & H3 & H4). split; [lia|]. split; [by apply Hbase|].
    split_and!; try done. split; simpl; lia.
Qed.

Lemma wp_invalidate_putn i w L L0 e U s (Q : Z -> scm -> Prop) :
  inv_used w L U s -> L ≡ₚ e :: L0 -> in_seg c i e = true -> (i < seg_nr c)%nat -> r_live e = true ->
  (forall s', inv_used w (invalidated e ++ L0) U s' -> Q (valid_nr (segs s' i)) s') ->
  wp (seg_putn i (r_len e)) Q s.
Proof.
  intros Hinv Hp Hin Hi Hl HQ. destruct (inv_at_seg _ _ _ _ _ _ _ _ Hinv Hi) as [Hat Hok].
  assert (ledger_ok c cc (e :: L0)) as HL.
  { eapply ledger_ok_perm; [exact Hp|]. by destruct Hat as [[] _]. }
  apply (seg_ok_perm _ _ _ _ _ _ _ _ Hp) in Hok.
  pose proof (sb_valid _ _ (proj1 Hok)) as Hv. destruct (co_size _ _ _ Hco).
  destruct (invalidate_seg_ok _ _ _ _ _ HL Hok Hin Hl) as [Hle Hok'].
  assert (0 < r_len e) by (by destruct HL as [[[] _]%Forall_cons_iff _]).
  eapply (wp_seg_putn _ _ _ _ _ _ _ _ _ _ _ Hat); [lia|lia|].
  intros s' Hat'. apply (at_seg_shrink _ _ _ _ L0 e (invalidated e)) in Hat';
    [|done|done|apply invalidated_shrinks].
  replace (valid_nr (segs s i) - r_len e) with (valid_nr (segs s' i))
    by (destruct Hat' as (_ & -> & _); done).
  apply HQ. by apply (at_seg_inv _ _ _ _ _ _ _ _ _ Hat').
Qed.

End Moves.
