(* ===== verification/SalsaInval.v ===== *)
(** * SalsaInval: invalidating and relocating keep the invariant

    The [page_invalidate] entry of every collector, and the rounds in which a
    collector picks a segment, has the controller relocate it and frees it. *)
From Stdlib Require Import ZArith Lia.
From stdpp Require Import base tactics list numbers.
From S2P Require Import Prelude StateM Throttle SalsaScm SalsaGc SalsaAlloc SalsaInv SalsaMoves.

Open Scope Z_scope.

Section Inval.
Context (c : scm_conf) (gc : gc_conf) (cc : ctlr_conf).
Context (Hco : conf_ok c gc cc).

Local Abbreviation size := (seg_size c).
Local Abbreviation at_seg := (at_seg c gc cc).
Local Abbreviation inv_used := (inv_used c gc cc).
Local Abbreviation seg_ok := (seg_ok c gc cc).

(** The computation keeps the invariant and the collector's segments. *)
Definition keeps {A} (m : scmm A) : Prop :=
  forall w L U s, inv_used w L U s ->
    wp m (fun _ s' => exists w', inv_used w' L U s' /\ held_same w w') s.

Lemma keeps_ret {A} (a : A) : keeps (mret a).
Proof. intros w L U s Hinv. apply wp_ret. by exists w. Qed.

Lemma keeps_bind {A B} (m : scmm A) (f : A -> scmm B) :
  keeps m -> (forall a, keeps (f a)) -> keeps (m ≫= f).
Proof.
  intros Hm Hf w L U s Hinv. apply wp_bind. eapply wp_mono; [by apply Hm|].
  intros a s' (w' & Hinv' & Hh). eapply wp_mono; [by apply Hf|].
  intros b s'' (w'' & Hinv'' & Hh'). exists w''. split; [done|by eapply held_same_trans].
Qed.

(** ** Sorting a segment of the bins again *)

Definition resort (i : nat) (zero : bool) (f : segment -> Z) : scmm unit :=
  sg ← seg_get i;
  if decide (seg_state sg = SEG_GC) then
    if zero && (valid_nr sg =? 0) then gc_free_seg_on_zero_valid_pages c gc i
    else rebin gc i (f sg)
  else mret tt.

Lemma keeps_resort i zero f :
  (i < seg_nr c)%nat ->
  (forall sg, seg_base c sg -> 0 <= valid_nr sg -> 0 <= priv sg < bin_nr gc ->
              0 <= f sg < bin_nr gc) ->
  keeps (resort i zero f).
Proof.
  intros Hi Hf w L U s Hinv. unfold resort.
  destruct (inv_at_seg _ _ _ _ _ _ _ _ Hinv Hi) as [Hat Hok].
  apply wp_bind. apply (wp_seg_get _ _ _ _ _ _ _ _ _ _ Hat).
  destruct (decide _) as [Hst|]; [|apply wp_ret; by exists w].
  destruct (seg_gc_fifo _ _ _ _ _ _ _ Hok Hst) as (b & Hw & Hp & Hb & Hwr).
  assert (ledger_ok c cc L) as HL by (by destruct Hat as [[] _]).
  pose proof (written_range _ _ _ _ _ HL (proj1 Hok) Hwr) as Hv.
  assert (forall s' w' p, inv_used w' L U s' -> moved w i (At p) w' ->
            exists w'', inv_used w'' L U s' /\ held_same w w'') as Hdone.
  { intros s' w' p Hinv' Hmv. exists w'. split; [done|]. eapply moved_held; [done|unowned|done]. }
  destruct (zero && _) eqn:Hz.
  - apply andb_prop in Hz as [_ Hz]. apply Z.eqb_eq in Hz.
    by eapply (wp_free_on_zero c gc cc Hco i b (segs s i)).
  - eapply (wp_rebin c gc cc Hco i b); [done|done|done|done| |].
    + apply Hf; [apply Hok|lia|]. rewrite Hp. lia.
    + intros s' w' Hinv' Hmv. by eapply Hdone.
Qed.

Lemma keeps_invalidate_common i :
  gc_ty gc <> GC_SALSA_3BIN -> (i < seg_nr c)%nat ->
  keeps (gc_salsa_n_page_invalidate_common c gc i).
Proof.
  intros Hty Hi. apply (keeps_resort i true (fun sg => valid_nr sg / bin_div gc) Hi).
  intros sg [_ _ Hb _] Hv _. by eapply (div_bin c gc cc).
Qed.

(** ** Cherry-picking from the waiting queues *)

Lemma wp_try_popone i sg w L U s (Q : Z -> scm -> Prop) :
  inv_used w L U s -> (i < seg_nr c)%nat -> segs s i = sg ->
  (w i = At (XnpWait (xnp_lvl gc sg)) ->
     forall s', at_seg i sg (fupd w i Out) L U s' -> Q 0 s') ->
  Q (- ENOENT) s ->
  wp (gc_xnp_try_popone gc i) Q s.
Proof.
  intros Hinv Hi Hsg H0 Hno. destruct (inv_at_seg _ _ _ _ _ _ _ _ Hinv Hi) as [Hat Hok].
  rewrite Hsg in *. unfold gc_xnp_try_popone. apply wp_bind.
  apply (wp_seg_get _ _ _ _ _ _ _ _ _ _ Hat). do 2 wp_step. destruct (decide _) as [Hin|].
  - assert (w i = At (XnpWait (xnp_lvl gc sg))) as Hw.
    { destruct Hat as ([[_ _ Hm] _ _ _] & _). by apply Hm in Hin as [_ ?]. }
    apply wp_bind. do 2 wp_step.
    destruct (wp_list_del c gc cc i sg w L U s (XnpWait (xnp_lvl gc sg)) Out
                (writes (size_add (XnpWait (xnp_lvl gc sg)) (-1));; writes (cds_list_del i))
                (fun _ => at_seg i sg (fupd w i Out) L U)) as ([] & s' & E & H);
      [by right|done|done|done|done|]. injection E as <-. wp_steps. by apply H0.
  - by apply wp_ret.
Qed.

Lemma wp_cherry_pick i valid w L U s (Q : Z -> scm -> Prop) :
  gc_ty gc <> GC_SALSA_3BIN -> inv_used w L U s -> (i < seg_nr c)%nat ->
  (forall s' w', inv_used w' L U s' -> held_same w w' -> Q 0 s') ->
  Q (- ENOENT) s ->
  wp (gc_salsa_n_xnp_try_cherry_pick c gc i valid) Q s.
Proof.
  intros Hty Hinv Hi H0 Hno. destruct (inv_at_seg _ _ _ _ _ _ _ _ Hinv Hi) as [Hat Hok].
  unfold gc_salsa_n_xnp_try_cherry_pick. apply wp_bind.
  apply (wp_seg_get _ _ _ _ _ _ _ _ _ _ Hat).
  destruct (negb _); [by apply wp_ret|]. destruct (negb _); [by apply wp_ret|].
  apply wp_bind. eapply wp_try_popone; [done|done|done| |by apply wp_ret].
  intros Hw s1 Hat1. rewrite Hw in Hok. destruct Hok as (Hbase & Hst & Hp & _ & Hwr).
  assert (ledger_ok c cc L) as HL by (by destruct Hat as [[] _]).
  pose proof (written_range _ _ _ _ _ HL Hbase Hwr) as Hv.
  assert (forall s' w' p, inv_used w' L U s' -> moved (fupd w i Out) i (At p) w' ->
            wp (inc_cherry_picked_nr;; mret 0) Q s') as Hdone.
  { intros s' w' p Hinv' [Hm1 Hm2]. apply wp_bind. eapply wp_inc_cherry_picked_nr; [done|].
    intros s'' Hinv''. apply wp_ret. eapply H0; [done|].
    eapply (moved_held _ i (At p)); [split; [done|]|unowned|done].
    intros j Hj. by rewrite Hm2, fupd_other. }
  cbn beta iota. apply wp_bind. destruct (Z.eqb_spec (valid_nr (segs s i)) 0) as [Hz|Hnz].
  - destruct Hwr as [Hwr1 Hwr2].
    eapply (wp_recycle_zero c gc cc Hco); [exact Hat1|by rewrite fupd_same|done|congruence|done|done].
  - apply wp_bind. eapply (wp_add_to_bin c gc cc Hco); [exact Hat1|by rewrite fupd_same| |].
    { by eapply (seg2bin_bin c gc cc). }
    intros s2 Hat2. apply (wp_seg_upd _ _ _ _ _ _ _ _ _ _ _ Hat2). intros s3 Hat3.
    eapply Hdone; [|apply moved_fupd]. apply (at_seg_inv _ _ _ _ _ _ _ _ _ Hat3).
    rewrite fupd_same. apply binned_ok; [done|by eapply (seg2bin_bin c gc cc)|done].
Qed.

(** What the default collector does after it has counted the grains. *)
Definition ovrw_resort (i : nat) (valid : Z) : scmm unit :=
  rc ← gc_salsa_n_xnp_try_cherry_pick c gc i valid;
  if rc =? 0 then mret tt
  else
    sg ← seg_get i;
    if decide (seg_state sg = SEG_GC) then
      if valid_nr sg =? 0 then gc_free_seg_on_zero_valid_pages c gc i
      else if size - 1 =? valid
      then gc_salsa_n_segment_rm_from_bin gc i (priv sg);;
           gc_salsa_n_segment_locks_deactivate i;;
           xnp_delay gc (gc_salsa_n_seg2bin c gc) i
      else rebin gc i (gc_salsa_n_seg2bin c gc (valid_nr sg))
    else mret tt.

Lemma keeps_ovrw_resort i valid :
  gc_ty gc <> GC_SALSA_3BIN -> (i < seg_nr c)%nat -> 0 < xnp_levels gc -> keeps (ovrw_resort i valid).
Proof.
  intros Hty Hi Hlv w L U s Hinv. unfold ovrw_resort. apply wp_bind.
  eapply wp_cherry_pick; [done|done|done|intros s' w' Hinv' Hh; apply wp_ret; by exists w'|].
  cbn beta iota. change (- ENOENT =? 0) with false. cbn iota.
  destruct (inv_at_seg _ _ _ _ _ _ _ _ Hinv Hi) as [Hat Hok].
  apply wp_bind. apply (wp_seg_get _ _ _ _ _ _ _ _ _ _ Hat).
  destruct (decide _) as [Hst|Hst]; [|apply wp_ret; by exists w].
  destruct (seg_gc_fifo _ _ _ _ _ _ _ Hok Hst) as (b & Hw & Hp & Hb & Hwr).
  destruct (size - 1 =? valid) eqn:Hfirst.
  - destruct (Z.eqb_spec (valid_nr (segs s i)) 0) as [Hz|_].
    { eapply (wp_free_on_zero c gc cc Hco i b); [done|done|done|done|done|].
      intros s' w' p Hinv' Hmv. exists w'. split; [done|]. eapply moved_held; [done|unowned|done]. }
    apply wp_bind. rewrite Hp. eapply (wp_rm_from_bin c gc cc i b Out); [exact Hat|done|done|done|].
    intros s1 Hat1. apply wp_bind. apply (wp_seg_upd _ _ _ _ _ _ _ _ _ _ _ Hat1). intros s2 Hat2.
    eapply (wp_xnp_delay c gc cc Hco); [exact Hat2|by rewrite fupd_same| |done|done| |].
    + destruct Hok as [[] _]. by split.
    + intros v Hv. by eapply (seg2bin_bin c gc cc).
    + intros s' w' Hinv' Hh. exists w'. split; [done|]. eapply held_same_trans; [|done].
      eapply moved_held; [apply moved_fupd|unowned|done].
  - pose proof (keeps_resort i true (fun sg => gc_salsa_n_seg2bin c gc (valid_nr sg)) Hi) as Hk.
    destruct (Hk ltac:(intros sg [_ _ ? _] ? _; by eapply (seg2bin_bin c gc cc)) w L U s Hinv)
      as (a & s' & E & H). exists a, s'. split; [|done]. revert E. unfold resort.
    cbv [mbind stm_bind seg_get reads]. rewrite decide_True by done. done.
Qed.

(** ** [gc_page_invalidate] *)

(** What each collector does once [seg_putn] has counted the grains. *)
Definition invalidate_rest (i : nat) (valid : Z) : scmm unit :=
  match gc_ty gc with
  | GC_SALSA_3BIN =>
      resort i true (fun sg =>
        if MED_BIN_THRESHOLD size =? u32 (size - valid) then GC_SALSA_MED_QUEUE
        else if HIGH_BIN_THRESHOLD size =? u32 (size - valid) then GC_SALSA_HIGH_QUEUE
        else priv sg)
  | GC_SALSA_NBIN | GC_NBIN_HEAT_SEG | GC_NBIN_XNP_HEAT_SEG =>
      gc_salsa_n_page_invalidate_common c gc i
  | GC_NBIN_XNP_INTRPT_SAFE =>
      bug_on (size <? valid);;
      writes (fun s => if decide (i ∈ seg_bmap s) then s else set_seg_bmap (seg_bmap s ++ [i]) s)
  | GC_NBIN_XNP_OVRW_HEAT_SEG => ovrw_resort i valid
  | GC_NBIN_DYN_THRESHOLD => resort i false (fun sg => seg2bin gc (valid_nr sg))
  end.

Lemma gc_page_invalidate_split i n s :
  gc_page_invalidate c gc i n s = (valid ← seg_putn i n; invalidate_rest i valid) s.
Proof.
  unfold gc_page_invalidate, invalidate_rest. destruct (gc_ty gc); try reflexivity;
    unfold gc_salsa_page_invalidate, gc_salsa_n_dyn_thr_page_invalidate, mbind, stm_bind;
    destruct (seg_putn i n s) as [[v s']|]; reflexivity.
Qed.

Lemma keeps_invalidate_rest i valid :
  (i < seg_nr c)%nat -> valid <= size -> keeps (invalidate_rest i valid).
Proof.
  intros Hi Hv. pose proof (co_xnp _ _ _ Hco) as Hx. unfold invalidate_rest.
  destruct (gc_ty gc) eqn:Ht.
  - apply keeps_resort; [done|]. intros sg _ _ Hp. pose proof (co_3bin _ _ _ Hco Ht) as H3.
    destruct (_ =? _); [unfold GC_SALSA_MED_QUEUE; lia|].
    destruct (_ =? _); [unfold GC_SALSA_HIGH_QUEUE; lia|done].
  - apply keeps_invalidate_common; [congruence|done].
  - intros w L U s Hinv. apply wp_bind, wp_bug_on; [by apply Z.ltb_ge|]. apply wp_writes.
    exists w. split; [|done]. destruct (decide _); [done|]. by eapply inv_frame.
  - apply keeps_invalidate_common; [congruence|done].
  - apply keeps_invalidate_common; [congruence|done].
  - apply keeps_ovrw_resort; [congruence|done|done].
  - apply keeps_resort; [done|]. intros. by eapply (dyn_bin c gc cc).
Qed.

Lemma wp_page_invalidate i w L L0 e U s (Q : unit -> scm -> Prop) :
  inv_used w L U s -> L ≡ₚ e :: L0 -> in_seg c i e = true -> (i < seg_nr c)%nat -> r_live e = true ->
  (forall s' w', inv_used w' (invalidated e ++ L0) U s' -> held_same w w' -> Q tt s') ->
  wp (gc_page_invalidate c gc i (r_len e)) Q s.
Proof.
  intros Hinv Hp Hin Hi Hl HQ.
  enough (wp (valid ← seg_putn i (r_len e); invalidate_rest i valid) Q s) as (a & s' & E & H).
  { exists a, s'. by rewrite gc_page_invalidate_split. }
  apply wp_bind. eapply wp_invalidate_putn; [done..|]. intros s1 Hinv1.
  destruct (inv_at_seg _ _ _ _ _ _ _ _ Hinv1 Hi) as [_ [Hbase _]].
  eapply wp_mono; [by apply (keeps_invalidate_rest i _ Hi (sb_valid _ _ Hbase))|].
  intros [] s2 (w' & Hinv2 & Hh). by eapply HQ.
Qed.

(** Relocation invalidates without sorting. *)
Lemma wp_page_invalidate_reloc i w L L0 e U s (Q : unit -> scm -> Prop) :
  inv_used w L U s -> L ≡ₚ e :: L0 -> in_seg c i e = true -> (i < seg_nr c)%nat -> r_live e = true ->
  (forall s', inv_used w (invalidated e ++ L0) U s' -> Q tt s') ->
  wp (gc_page_invalidate_reloc i (r_len e)) Q s.
Proof.
  intros Hinv Hp Hin Hi Hl HQ. unfold gc_page_invalidate_reloc. apply wp_bind.
  eapply wp_invalidate_putn; [done..|]. intros s1 Hinv1. apply wp_ret. by apply HQ.
Qed.

(** ** Rounds of the collector *)

Lemma wp_get_first_seg bin w L U s (Q : option nat -> scm -> Prop) :
  inv_used w L U s ->
  (forall i b s', (i < seg_nr c)%nat -> w i = At (Fifo b) -> inv_used (fupd w i Held) L U s' ->
     Q (Some i) s') ->
  Q None s ->
  wp (gc_salsa_get_first_seg gc bin) Q s.
Proof.
  intros Hinv HS HN. unfold gc_salsa_get_first_seg. do 2 wp_step.
  destruct (heads s (Fifo bin)) as [|i l] eqn:Hh; [by apply wp_ret|].
  assert ((i < seg_nr c)%nat /\ w i = At (Fifo bin)) as [Hi Hw].
  { destruct Hinv as [[[_ _ Hm] _ _ _] _]. apply Hm. rewrite Hh. apply elem_of_cons. by left. }
  destruct (inv_at_seg _ _ _ _ _ _ _ _ Hinv Hi) as [Hat Hok]. rewrite Hw in Hok.
  destruct Hok as ([Hb1 Hb2 Hb3 Hb4] & Hst & Hp & Hb & Hwr).
  apply wp_bind. apply (wp_seg_get _ _ _ _ _ _ _ _ _ _ Hat). rewrite decide_True by done.
  apply wp_bind. apply (wp_seg_upd _ _ _ _ _ _ _ _ _ _ _ Hat). intros s1 Hat1.
  apply wp_bind. rewrite Hp.
  eapply (wp_rm_from_bin c gc cc i bin Held); [exact Hat1|done|done|done|]. intros s2 Hat2.
  apply wp_ret. eapply HS; [done|done|]. apply (at_seg_inv _ _ _ _ _ _ _ _ _ Hat2).
  rewrite fupd_same. split; [by split|]. by split_and!.
Qed.

Lemma wp_first_of_bins bin n w L U s (Q : option nat -> scm -> Prop) :
  inv_used w L U s ->
  (forall i b s', (i < seg_nr c)%nat -> w i = At (Fifo b) -> inv_used (fupd w i Held) L U s' ->
     Q (Some i) s') ->
  Q None s ->
  wp (first_of_bins gc bin n) Q s.
Proof.
  intros Hinv HS HN. revert bin. induction n as [|n IH]; intros bin; simpl; [by apply wp_ret|].
  apply wp_bind. eapply wp_get_first_seg; [done| |apply IH].
  intros i b s' Hi Hw Hinv'. apply wp_ret. by eapply HS.
Qed.

Lemma wp_first_of_bins_down n w L U s (Q : option nat -> scm -> Prop) :
  inv_used w L U s ->
  (forall i b s', (i < seg_nr c)%nat -> w i = At (Fifo b) -> inv_used (fupd w i Held) L U s' ->
     Q (Some i) s') ->
  Q None s ->
  wp (first_of_bins_down gc n) Q s.
Proof.
  intros Hinv HS HN. induction n as [|n IH]; simpl; [by apply wp_ret|].
  apply wp_bind. eapply wp_get_first_seg; [done| |apply IH].
  intros i b s' Hi Hw Hinv'. apply wp_ret. by eapply HS.
Qed.

Lemma wp_seg_selected i w L U s (Q : unit -> scm -> Prop) :
  inv_used w L U s -> (i < seg_nr c)%nat -> (forall s', inv_used w L U s' -> Q tt s') ->
  wp (gc_seg_selected c i) Q s.
Proof.
  intros Hinv Hi HQ. unfold gc_seg_selected. apply wp_bind, wp_reads, wp_writes, HQ.
  destruct Hinv as [[Hl Hs HL Ht] Hc]. split; [|done]. split; try done; simpl.
  - by destruct Hl.
  - apply throttle_update_ok; [apply (co_size _ _ _ Hco)|apply wrap_range; lia|done].
Qed.

(** What a controller owes the collector: it keeps the invariant, leaves the
    segments under relocation alone, and reports success only when nothing of the
    segment is in use any more. *)
Definition reloc_contract (fn : nat -> scmm (Z * Z)) : Prop :=
  forall i w L s, inv c gc cc w L s -> w i = Held -> (i < seg_nr c)%nat ->
    wp (fn i) (fun r s' => exists w' L', inv c gc cc w' L' s' /\ held_same w w' /\
                             (fst r = 0 -> tally c r_live i L' = 0)) s.

Section Relocation.
Context (fn : nat -> scmm (Z * Z)) (Hfn : reloc_contract fn) (exiting : bool).

Lemma wp_relocate tries i bin w L s (Q : Z -> scm -> Prop) :
  inv c gc cc w L s -> w i = Held -> (i < seg_nr c)%nat ->
  (forall rc s' w' L', inv c gc cc w' L' s' -> held_same w w' ->
     (rc = 0 -> tally c r_live i L' = 0) -> Q rc s') ->
  wp (relocate_loop fn exiting tries i bin) Q s.
Proof.
  intros Hinv Hw Hi HQ. revert w L s Hinv Hw HQ.
  induction tries as [|tries IH]; intros w L s Hinv Hw HQ; simpl; apply wp_bind;
    (eapply wp_mono; [by eapply Hfn|]); intros [rc cnt] s1 (w1 & L1 & Hinv1 & Hh1 & Hz1);
    apply wp_bind; (eapply wp_add_page_relocs; [exact Hinv1|]); intros s2 Hinv2.
  - apply wp_ret. by eapply HQ.
  - destruct (_ && _); [|apply wp_ret; by eapply HQ].
    eapply (IH w1 L1); [done|by apply (Hh1 i)|]. intros rc' s' w' L' Hinv' Hh' Hz'.
    eapply HQ; [done|by eapply held_same_trans|done].
Qed.

Lemma held_same_cycle w w1 w2 i b p :
  w i = At (Fifo b) -> held_same (fupd w i Held) w1 -> moved w1 i (At p) w2 -> held_same w w2.
Proof.
  intros Hw Hh [Hm1 Hm2] j x Hx. destruct (decide (j = i)) as [->|Hne].
  - rewrite Hm1, Hw. by destruct x.
  - rewrite Hm2 by done. rewrite <- (Hh j x Hx). by rewrite fupd_other.
Qed.

Lemma wp_relocated i bin w L U s (Q : unit -> scm -> Prop) :
  inv_used w L U s -> w i = Held -> (i < seg_nr c)%nat -> tally c r_live i L = 0 ->
  (forall s' w' p, inv_used w' L U s' -> moved w i (At p) w' -> Q tt s') ->
  wp (seg_relocated c i bin) Q s.
Proof.
  intros Hinv Hw Hi Hz HQ. destruct (inv_at_seg _ _ _ _ _ _ _ _ Hinv Hi) as [Hat Hok].
  rewrite Hw in Hok. destruct Hok as (Hbase & _ & _ & Hpend).
  unfold seg_relocated. apply wp_bind.
  eapply (wp_put_free c gc cc Hco); [exact Hat|by rewrite Hw|done|done|done|].
  intros s1 w1 p Hinv1 Hmv. eapply wp_gc_seg_released; [exact Hinv1|]. intros s2 Hinv2.
  by eapply HQ.
Qed.

Lemma wp_return_failed i w L U s (Q : unit -> scm -> Prop) :
  gc_ty gc <> GC_SALSA_3BIN ->
  inv_used w L U s -> w i = Held -> (i < seg_nr c)%nat ->
  (forall s' w' p, inv_used w' L U s' -> moved w i (At p) w' -> Q tt s') ->
  wp (gc_salsa_n_return_failed_reloc_seg gc i) Q s.
Proof.
  intros Hty Hinv Hw Hi HQ. destruct (inv_at_seg _ _ _ _ _ _ _ _ Hinv Hi) as [Hat Hok].
  rewrite Hw in Hok. destruct Hok as (Hbase & _ & Hwr).
  assert (ledger_ok c cc L) as HL by (by destruct Hat as [[] _]).
  unfold gc_salsa_n_return_failed_reloc_seg. apply wp_bind.
  apply (wp_seg_get _ _ _ _ _ _ _ _ _ _ Hat).
  eapply (wp_add_and_activate c gc cc Hco); [exact Hat|by rewrite Hw| |done|done|].
  - eapply (div_bin c gc cc); [done|done|]. by eapply (written_range c cc).
  - intros s' w' Hinv' Hmv. by eapply HQ.
Qed.

Lemma wp_return_failed_3bin i w L U s (Q : unit -> scm -> Prop) :
  gc_ty gc = GC_SALSA_3BIN ->
  inv_used w L U s -> w i = Held -> (i < seg_nr c)%nat ->
  (forall s' w' p, inv_used w' L U s' -> moved w i (At p) w' -> Q tt s') ->
  wp (gc_salsa_return_failed_reloc_seg c gc i) Q s.
Proof.
  intros Ht Hinv Hw Hi HQ. destruct (inv_at_seg _ _ _ _ _ _ _ _ Hinv Hi) as [Hat Hok].
  rewrite Hw in Hok. destruct Hok as (Hbase & _ & Hwr). destruct (co_bins _ _ _ Hco).
  unfold gc_salsa_return_failed_reloc_seg. apply wp_bind.
  apply (wp_seg_get _ _ _ _ _ _ _ _ _ _ Hat).
  pose proof (salsa_3bin_bin c gc cc Hco (valid_nr (segs s i)) Ht) as Hb.
  set (bin := salsa_3bin c _) in *. unfold gc_salsa_n_segment_add_to_bin_head.
  apply wp_bind, wp_bind, wp_bug_on; [by rewrite (proj2 (Z.ltb_lt bin (bin_nr gc))) by lia|].
  apply wp_bind. eapply (wp_list_add _ _ _ _ _ _ _ _ _ (Fifo (Z.to_nat bin)));
    [right; right; reflexivity|exact Hat|by rewrite Hw|]. intros s1 Hat1.
  rewrite (wrap_small 8) by (unfold in_width; lia).
  apply (wp_seg_upd _ _ _ _ _ _ _ _ _ _ _ Hat1). intros s2 Hat2.
  apply (wp_seg_upd _ _ _ _ _ _ _ _ _ _ _ Hat2). intros s3 Hat3.
  eapply HQ; [|apply moved_fupd]. apply (at_seg_inv _ _ _ _ _ _ _ _ _ Hat3).
  rewrite fupd_same. by apply binned_ok.
Qed.

(** A round: some ledger and some places, the same segments in relocation. *)
Definition round_done (w : nat -> where_is) (s' : scm) : Prop :=
  exists w' L', inv c gc cc w' L' s' /\ held_same w w'.

(** What both kinds of round do with the chosen segment. *)
Lemma wp_reloc_chosen i b w L s back :
  inv c gc cc (fupd w i Held) L s -> w i = At (Fifo b) -> (i < seg_nr c)%nat ->
  (forall w' L' s' (Q : unit -> scm -> Prop), inv c gc cc w' L' s' -> w' i = Held ->
     (forall s'' w'' p, inv c gc cc w'' L' s'' -> moved w' i (At p) w'' -> Q tt s'') ->
     wp back Q s') ->
  wp (sg ← seg_get i;
      gc_seg_selected c i;;
      rc ← gc_salsa_relocate_seg fn exiting i (priv sg);
      if negb (rc =? 0) then back else seg_relocated c i (priv sg))
     (fun _ => round_done w) s.
Proof.
  intros Hinv Hw Hi Hback. apply wp_bind, wp_reads. apply wp_bind.
  eapply wp_seg_selected; [exact Hinv|done|]. intros s1 Hinv1.
  apply wp_bind. eapply wp_relocate; [exact Hinv1|by rewrite fupd_same|done|].
  intros rc s2 w2 L2 Hinv2 Hh2 Hz2.
  assert (w2 i = Held) as Hw2 by (apply (Hh2 i); [done|by rewrite fupd_same]).
  destruct (Z.eqb_spec rc 0) as [Hrc|Hrc]; cbn [negb].
  - eapply wp_relocated; [exact Hinv2|done|done|by apply Hz2|].
    intros s3 w3 p Hinv3 Hmv. exists w3, L2. split; [done|by eapply held_same_cycle].
  - eapply Hback; [exact Hinv2|done|].
    intros s3 w3 p Hinv3 Hmv. exists w3, L2. split; [done|by eapply held_same_cycle].
Qed.

Lemma wp_xnp_try_pop lvl n w L U s (Q : option nat -> scm -> Prop) :
  inv_used w L U s ->
  (forall j p s', (j < seg_nr c)%nat -> w j = At (XnpWait p) ->
     at_seg j (segs s' j) (fupd w j Out) L U s' -> segs s' j = segs s j -> Q (Some j) s') ->
  Q None s -> wp (xnp_try_pop lvl n) Q s.
Proof.
  intros Hinv HS HN. revert lvl. induction n as [|n IH]; intros lvl; simpl; [by apply wp_ret|].
  apply wp_bind. unfold gc_xnp_popone_force, xnp_pop. do 2 wp_step.
  destruct (heads s (XnpWait lvl)) as [|j l] eqn:Hh; [apply wp_ret; apply IH|].
  assert ((j < seg_nr c)%nat /\ w j = At (XnpWait lvl)) as [Hj Hw].
  { destruct Hinv as [[[_ _ Hm] _ _ _] _]. apply Hm. rewrite Hh. apply elem_of_cons. by left. }
  destruct (inv_at_seg _ _ _ _ _ _ _ _ Hinv Hj) as [Hat _].
  destruct (wp_list_del c gc cc j (segs s j) w L U s (XnpWait lvl) Out
              (writes (cds_list_del j);; writes (size_add (XnpWait lvl) (-1)))
              (fun _ => at_seg j (segs s j) (fupd w j Out) L U)) as ([] & s' & E & H);
    [by left|done|done|done|done|]. injection E as <-. wp_steps. by eapply HS.
Qed.

Lemma keeps_xnp_try_pop_one :
  gc_ty gc <> GC_SALSA_3BIN -> keeps (gc_salsa_n_xnp_try_pop_one gc).
Proof.
  intros Hty w L U s Hinv. unfold gc_salsa_n_xnp_try_pop_one. apply wp_bind.
  eapply wp_xnp_try_pop; [exact Hinv| |apply wp_ret; by exists w].
  intros j p s' Hj Hw Hat Hsame.
  destruct (inv_at_seg _ _ _ _ _ _ _ _ Hinv Hj) as [_ Hok]. rewrite Hw in Hok.
  destruct Hok as (Hbase & _ & _ & _ & Hwr). rewrite <- Hsame in Hbase, Hwr.
  assert (ledger_ok c cc L) as HL by (by destruct Hat as [[] _]).
  apply wp_bind. apply (wp_seg_get _ _ _ _ _ _ _ _ _ _ Hat).
  eapply (wp_add_and_activate c gc cc Hco); [exact Hat|by rewrite fupd_same| |done|done|].
  - eapply (div_bin c gc cc); [done|done|]. by eapply (written_range c cc).
  - intros s2 w2 Hinv2 [Hm1 Hm2]. exists w2. split; [done|].
    eapply (moved_held _ j); [split; [exact Hm1|]|unowned|done].
    intros k Hk. by rewrite Hm2, fupd_other.
Qed.

Lemma wp_choose_seg_and_reloc w L s :
  gc_ty gc <> GC_SALSA_3BIN -> inv c gc cc w L s ->
  wp (gc_salsa_n_run_choose_seg_and_reloc c gc fn exiting) (fun _ => round_done w) s.
Proof.
  intros Hty Hinv. unfold gc_salsa_n_run_choose_seg_and_reloc. apply wp_bind.
  eapply wp_first_of_bins; [exact Hinv| |].
  - intros i b s1 Hi Hw Hinv1. eapply wp_reloc_chosen; [exact Hinv1|done|done|].
    intros w' L' s' Q Hinv' Hw' HQ. by eapply wp_return_failed.
  - eapply wp_mono; [by apply keeps_xnp_try_pop_one|].
    intros [] s' (w' & Hinv' & Hh). by exists w', L.
Qed.

Lemma wp_3bin_round w L s :
  gc_ty gc = GC_SALSA_3BIN -> inv c gc cc w L s ->
  wp (gc_salsa_run_round c gc fn exiting) (fun _ => round_done w) s.
Proof.
  intros Ht Hinv. unfold gc_salsa_run_round. apply wp_bind.
  eapply wp_first_of_bins_down; [exact Hinv| |].
  - intros i b s1 Hi Hw Hinv1. eapply wp_reloc_chosen; [exact Hinv1|done|done|].
    intros w' L' s' Q Hinv' Hw' HQ. by eapply wp_return_failed_3bin.
  - apply wp_ret. by exists w, L.
Qed.

Lemma keeps_for_list (l : list nat) (f : nat -> scmm unit) :
  (forall i, i ∈ l -> keeps (f i)) -> keeps (for_list l f).
Proof.
  induction l as [|x l IH]; intros Hf; simpl; [apply keeps_ret|].
  apply keeps_bind; [apply Hf, elem_of_cons; by left|].
  intros _. apply IH. intros i Hi. apply Hf, elem_of_cons. by right.
Qed.

Lemma keeps_update_segs :
  gc_ty gc <> GC_SALSA_3BIN -> keeps (gc_salsa_n_xnp_intrpt_safe_update_segs c gc).
Proof.
  intros Hty w L U s Hinv. unfold gc_salsa_n_xnp_intrpt_safe_update_segs. do 2 wp_step.
  apply keeps_for_list; [|done]. intros i [_ [_ Hi]%elem_of_seq]%list_elem_of_filter.
  clear w L U s Hinv. intros w L U s Hinv. apply wp_bind.
  eapply wp_writes_frame; [done|exact Hinv|]. intros s1 Hinv1. apply wp_bind, wp_reads. apply wp_bind.
  eapply wp_cherry_pick; [done|exact Hinv1|simpl in Hi; lia| |].
  - intros s2 w2 Hinv2 Hh2. apply wp_ret. by exists w2.
  - apply keeps_invalidate_common; [done|simpl in Hi; lia|done].
Qed.

Lemma wp_gc_round w L s :
  inv c gc cc w L s -> wp (gc_round c gc fn exiting) (fun _ => round_done w) s.
Proof.
  intros Hinv. unfold gc_round. destruct (gc_ty gc) eqn:Ht;
    try (eapply wp_choose_seg_and_reloc; [congruence|done]).
  - by eapply wp_3bin_round.
  - apply wp_bind. eapply wp_mono; [by apply keeps_update_segs; [congruence|]|].
    intros [] s1 (w1 & Hinv1 & Hh1).
    eapply wp_mono; [eapply wp_choose_seg_and_reloc; [congruence|done]|].
    intros [] s2 (w2 & L2 & Hinv2 & Hh2). exists w2, L2. split; [done|by eapply held_same_trans].
Qed.

End Relocation.

End Inval.
