(* ===== verification/SalsaSafe.v ===== *)
(** * SalsaSafe: the allocator hands out only free grains

    Every operation of the allocator and of the controller keeps the invariant of
    SalsaInv; a range they hand out is disjoint from every range in use, lies in
    the data part of one segment and is entered in the ledger. *)
From Stdlib Require Import ZArith Lia.
From stdpp Require Import base tactics list numbers.
From S2P Require Import Prelude StateM Throttle SalsaScm SalsaGc SalsaAlloc SalsaInv SalsaMoves.
From S2P Require Import SalsaInval.

Open Scope Z_scope.

Section Safe.
Context (c : scm_conf) (gc : gc_conf) (ctlrs : ctl_table) (cc : ctlr_conf).
Context (Hco : conf_ok c gc cc).

Local Abbreviation size := (seg_size c).
Local Abbreviation reserved := (reserved_per_seg cc).
Local Abbreviation at_seg := (at_seg c gc cc).
Local Abbreviation inv_used := (inv_used c gc cc).
Local Abbreviation seg_ok := (seg_ok c gc cc).

(** The allocators of a controller do not block and are not thin-provisioned
    ([allocator_init], [SalsaCtlr::SalsaCtlr]). *)
Definition flags_ok : Prop :=
  forall a, gf_thin_prov (a_flags cc a) = false /\ gf_no_blocking (a_flags cc a) = true.

Context (Hfl : flags_ok).

(** ** A free segment *)

Lemma find_queue_run reloc props i n e s :
  exists o e', find_queue c reloc props i n e s = Some ((o, e'), s) /\
    (forall p, o = Some p -> heads s p <> [] /\ exists q, p = free_place reloc q).
Proof.
  revert i e. induction n as [|n IH]; intros i e; simpl.
  { exists None, e. split; [done|]. done. }
  destruct (scm_prop_set_is_subset_of _ _); [|apply IH].
  cbv [mbind stm_bind cds_queue_base_is_empty reads].
  destruct (heads s (free_place reloc i)) eqn:Hh; [apply IH|].
  exists (Some (free_place reloc i)), e. split; [done|]. intros p [= <-].
  split; [congruence|by exists i].
Qed.

Lemma get_queue_run flags s :
  exists err o, scm_seg_queues_get_queue c flags s = Some ((err, o), s) /\
    ((err = 0 /\ exists q, o = Some (free_place (gf_reloc flags) q) /\
                           heads s (free_place (gf_reloc flags) q) <> []) \/
     ((err = - EAGAIN \/ err = - EINVAL) /\ o = None)).
Proof.
  unfold scm_seg_queues_get_queue.
  destruct (find_queue_run (gf_reloc flags) (prop_set_preferred flags) 0 (qs_nr c) false s)
    as (o1 & e1 & E1 & H1).
  unfold mbind, stm_bind. rewrite E1. destruct o1 as [p1|].
  { destruct (H1 p1 eq_refl) as [Hne [q ->]]. eexists _, _. split; [reflexivity|].
    left. split; [done|]. by exists q. }
  destruct (find_queue_run (gf_reloc flags) (prop_set_default flags) 0 (qs_nr c) e1 s)
    as (o2 & e2 & E2 & H2).
  rewrite E2. destruct o2 as [p2|].
  { destruct (H2 p2 eq_refl) as [Hne [q ->]]. eexists _, _. split; [reflexivity|].
    left. split; [done|]. by exists q. }
  eexists _, _. split; [reflexivity|]. right. split; [|done]. destruct e2; tauto.
Qed.

(** The first segment of a list passes to [x]. *)
Lemma wp_pop_head p x w L U s (Q : option nat -> scm -> Prop) :
  inv_used w L U s -> unlisted x -> (heads s p = [] -> Q None s) ->
  (forall i s', (i < seg_nr c)%nat -> w i = At p -> at_seg i (segs s i) (fupd w i x) L U s' ->
     Q (Some i) s') ->
  wp (cds_queue_base_pop_head p) Q s.
Proof.
  intros Hinv Hx HN HQ. unfold cds_queue_base_pop_head. do 2 wp_step.
  destruct (heads s p) as [|i l] eqn:Hh; [by apply wp_ret, HN|].
  assert ((i < seg_nr c)%nat /\ w i = At p) as [Hi Hw].
  { destruct Hinv as [[[_ _ Hm] _ _ _] _]. apply Hm. rewrite Hh. apply elem_of_cons. by left. }
  destruct (inv_at_seg _ _ _ _ _ _ _ _ Hinv Hi) as [Hat _].
  destruct (wp_list_del c gc cc i (segs s i) w L U s p x
              (writes (cds_list_del i);; writes (size_add p (-1)))
              (fun _ => at_seg i (segs s i) (fupd w i x) L U)) as ([] & s' & E & H);
    [by left|done|done|done|done|]. injection E as <-. wp_steps. by eapply HQ.
Qed.

Lemma wp_get_free_queue a s (Q : Z * option place -> scm -> Prop) :
  (forall q, Q (0, Some (free_place (gf_reloc (a_flags cc a)) q)) s) ->
  (forall err, err <> 0 -> Q (err, None) s) ->
  wp (scm_get_free_queue c (a_flags cc a)) Q s.
Proof.
  intros HS HF. destruct (Hfl a) as [Hthin Hnb]. unfold scm_get_free_queue, fail_reclaim_thin.
  rewrite Hthin, Hnb, andb_false_r. apply wp_bind, wp_ret. cbn [negb Z.eqb].
  destruct (get_queue_run (a_flags cc a) s) as (err & o & E & Ho).
  apply wp_bind. eexists _, _. split; [exact E|]. cbn beta iota.
  rewrite andb_false_r. apply wp_bind, wp_ret. destruct Ho as [(-> & q & -> & Hne)|[Herr ->]].
  - cbn [negb Z.eqb]. apply wp_bind. eapply wp_lifto; [reflexivity|]. apply wp_ret, HS.
  - assert (err <> 0) by (destruct Herr; subst; done).
    rewrite (proj2 (Z.eqb_neq err 0)) by done. cbn [negb]. apply wp_bind, wp_ret, wp_ret.
    by apply HF.
Qed.

(** A free segment passes from its queue to the caller. *)
Lemma wp_take reloc q w L U s (Q : option nat -> scm -> Prop) :
  inv_used w L U s -> Q None s ->
  (forall i s', (i < seg_nr c)%nat -> w i = At (free_place reloc q) ->
     inv_used (fupd w i Taken) L U s' -> Q (Some i) s') ->
  wp (cds_queue_base_pop_head (free_place reloc q)) Q s.
Proof.
  intros Hinv HN HS. eapply (wp_pop_head _ Taken); [exact Hinv|done|done|].
  intros i s' Hi Hw Hat. apply HS; [done|done|].
  destruct (inv_at_seg _ _ _ _ _ _ _ _ Hinv Hi) as [_ Hok]. rewrite Hw in Hok.
  apply (at_seg_inv _ _ _ _ _ _ _ _ _ Hat). rewrite fupd_same.
  destruct Hok as [Hb Hx]. split; [done|]. destruct reloc; destruct Hx as (? & _ & ?); tauto.
Qed.

(** ** Staging a segment *)

Lemma free_no_range i sg L r :
  ledger_ok c cc L -> seg_free c i sg L -> r ∈ L -> in_seg c i r = false.
Proof.
  intros [HF _] (_ & Hl & Hp) Hr. destruct (in_seg c i r) eqn:Hin; [|done].
  pose proof (tally_zero c cc r_live i L r HF Hl Hr Hin) as H1.
  pose proof (tally_zero c cc r_pend i L r HF Hp Hr Hin) as H2.
  apply list_elem_of_In in Hr. rewrite List.Forall_forall in HF. destruct (HF r Hr).
  rewrite H1, H2 in *. done.
Qed.

Lemma staged_ok a i sg L :
  ledger_ok c cc L -> seg_base c sg -> seg_free c i sg L ->
  seg_ok (At (StageFifo a)) i
    (set_valid_nr (size - reserved) (set_nr4 (size - reserved) (set_nr3 reserved
       (segment_set_state SEG_LSA_ALLOCATOR (segment_set_ctlr (cc_id cc) sg))))) L.
Proof.
  intros HL [Hb1 Hb2 Hb3 Hb4] Hfr. destruct (co_res _ _ _ Hco). pose proof Hfr as (Hv & Hl & Hp).
  split; [split; simpl; [done|done|lia|lia]|]. simpl. rewrite Hl, Hp. split_and!; try (done || lia).
  apply List.Forall_forall. intros r Hr%list_elem_of_In Hin.
  by rewrite (free_no_range i sg L r HL Hfr Hr) in Hin.
Qed.

Lemma wp_nr4_sub i n sg w L U s (Q : Z -> scm -> Prop) :
  at_seg i sg w L U s -> - 2 ^ 31 <= nr4 sg - n < 2 ^ 31 ->
  (forall s', at_seg i (set_nr4 (nr4 sg - n) sg) w L U s' -> Q (nr4 sg - n) s') ->
  wp (nr4_sub i n) Q s.
Proof.
  intros Hat Hn HQ. unfold nr4_sub. apply wp_bind. apply (wp_seg_get _ _ _ _ _ _ _ _ _ _ Hat).
  rewrite s32_small by done. apply wp_bind. apply (wp_seg_upd _ _ _ _ _ _ _ _ _ _ _ Hat).
  intros s' Hat'. apply wp_ret. by apply HQ.
Qed.

Lemma wp_next_range_hit i len sg w L U s (Q : Z -> scm -> Prop) :
  at_seg i sg w L U s -> 0 <= nr3 sg < size -> 0 <= len -> nr3 sg + len <= size ->
  (forall s', at_seg i (set_nr3 (nr3 sg + len) sg) w L U s' -> Q (nr3 sg) s') ->
  wp (allocator_seg_next_range c i len) Q s.
Proof.
  intros Hat Hn Hlen Hfit HQ. destruct (co_size _ _ _ Hco). unfold allocator_seg_next_range.
  apply wp_bind. apply (wp_seg_get _ _ _ _ _ _ _ _ _ _ Hat).
  rewrite !wrap_small by (unfold in_width; lia).
  rewrite (proj2 (Z.leb_gt _ _)) by lia. rewrite (proj2 (Z.ltb_ge _ _)) by lia. cbn [orb].
  apply wp_bind. apply (wp_seg_upd _ _ _ _ _ _ _ _ _ _ _ Hat). intros s' Hat'.
  rewrite s32_small in Hat' by lia. apply wp_ret. by apply HQ.
Qed.

(** A free segment in hand is set up and staged. *)
Lemma wp_stage_segment a i sg w L U s (Q : Z -> scm -> Prop) :
  at_seg i sg w L U s -> unlisted (w i) -> seg_base c sg -> seg_free c i sg L ->
  (forall s' w', inv_used w' L U s' -> moved w i (At (StageFifo a)) w' ->
     nr3 (segs s' i) = reserved -> Q 0 s') ->
  wp (stage_segment c cc a (0, Some i)) Q s.
Proof.
  intros Hat Hun Hbase Hfree HS. destruct (co_size _ _ _ Hco). destruct (co_res _ _ _ Hco).
  assert (ledger_ok c cc L) as HL by (by destruct Hat as [[] _]).
  unfold stage_segment. cbn [Z.eqb negb]. apply wp_bind. eapply wp_lifto; [reflexivity|].
  apply wp_bind. apply (wp_seg_upd _ _ _ _ _ _ _ _ _ _ _ Hat). clear s Hat. intros s1 Hat.
  apply wp_bind. apply (wp_seg_upd _ _ _ _ _ _ _ _ _ _ _ Hat). clear s1 Hat. intros s1 Hat.
  apply wp_bind. apply (wp_seg_upd _ _ _ _ _ _ _ _ _ _ _ Hat). clear s1 Hat. intros s1 Hat.
  apply wp_bind. apply (wp_seg_upd _ _ _ _ _ _ _ _ _ _ _ Hat). clear s1 Hat. intros s1 Hat.
  rewrite (s32_small size) in Hat by lia.
  assert (forall s2, at_seg i (set_valid_nr (size - reserved) (set_nr4 (size - reserved)
             (set_nr3 reserved (segment_set_state SEG_LSA_ALLOCATOR (segment_set_ctlr (cc_id cc) sg)))))
             w L U s2 ->
           wp (cds_queue_base_enqueue_tail (StageFifo a) i;; mret 0) Q s2) as Hfin.
  { intros s2 Hat2. apply wp_bind.
    eapply (wp_list_add _ _ _ _ _ _ _ _ _ (StageFifo a));
      [left; reflexivity|exact Hat2|done|]. intros s3 Hat3. apply wp_ret.
    eapply HS; [|apply moved_fupd|].
    - apply (at_seg_inv _ _ _ _ _ _ _ _ _ Hat3). rewrite fupd_same. by apply staged_ok.
    - destruct Hat3 as (_ & -> & _). done. }
  apply wp_bind. destruct Hfree as (Hv & Hfree).
  destruct (Z.ltb_spec 0 reserved) as [Hres|Hres].
  - apply wp_bind. eapply wp_next_range_hit; [exact Hat|simpl; lia|lia|simpl; lia|].
    clear s1 Hat. intros s1 Hat. simpl in Hat.
    apply wp_bind. eapply wp_nr4_sub; [exact Hat|simpl; lia|]. clear s1 Hat. intros s1 Hat.
    apply wp_bind. eapply (wp_seg_putn _ _ _ _ _ _ _ _ _ _ _ Hat); [simpl; lia|simpl; lia|].
    clear s1 Hat. intros s1 Hat. apply wp_writes. apply Hfin.
    apply (at_seg_frame _ _ _ _ _ _ _ _ s1); [|reflexivity..].
    simpl in Hat. rewrite Hv, Z.add_0_l in Hat. exact Hat.
  - apply wp_ret, Hfin. assert (reserved = 0) as -> by lia. rewrite Z.sub_0_r.
    replace (set_valid_nr size _) with
      (set_nr4 size (set_nr3 0 (segment_set_state SEG_LSA_ALLOCATOR (segment_set_ctlr (cc_id cc) sg))));
      [exact Hat|]. unfold set_valid_nr, set_nr4, set_nr3. simpl. by rewrite Hv.
Qed.

(** What a caller does with the segment it took: it is staged, or put back when
    the range's callback fails. *)
Lemma wp_popped a i w L U s (Q : Z -> scm -> Prop) :
  inv_used w L U s -> (i < seg_nr c)%nat -> w i = Taken ->
  (forall s' w', inv_used w' L U s' -> moved w i (At (StageFifo a)) w' ->
     nr3 (segs s' i) = reserved -> Q 0 s') ->
  (forall s' w' p, inv_used w' L U s' -> moved w i (At p) w' -> Q ENOSPC s') ->
  wp (answer ← scm_seg_popped c (a_flags cc a) (Some i); stage_segment c cc a answer) Q s.
Proof.
  intros Hinv Hi Hw HS HF. destruct (Hfl a) as [Hthin _].
  destruct (inv_at_seg _ _ _ _ _ _ _ _ Hinv Hi) as [Hat Hok]. rewrite Hw in Hok.
  destruct Hok as (Hbase & _ & Hfree). unfold scm_seg_popped, fail_reclaim_thin. rewrite Hthin.
  apply wp_bind, wp_bind, wp_bug_on.
  { rewrite (proj2 (Nat.ltb_lt _ _) Hi). by rewrite andb_false_r. }
  destruct (Z.eqb_spec (if dev_linear c then seg_alloc_cb c i else 0) 0) as [_|Hcb]; cbn [negb].
  - apply wp_ret. eapply wp_stage_segment; [exact Hat|by rewrite Hw|done|done|done].
  - apply wp_bind. destruct Hfree as (_ & Hl & Hp).
    eapply (wp_put_free c gc cc Hco); [exact Hat|by rewrite Hw|done|done|done|].
    intros s2 w2 p Hinv2 Hmv. apply wp_bind, wp_ret, wp_ret.
    unfold stage_segment. rewrite (proj2 (Z.eqb_neq _ _) Hcb). cbn [negb]. apply wp_ret.
    by eapply HF.
Qed.

Lemma moved_twice w i x y w' : moved (fupd w i x) i y w' -> moved w i y w'.
Proof. intros [H1 H2]. split; [done|]. intros j Hj. by rewrite H2, fupd_other. Qed.

Lemma wp_allocate_segment a w L U s (Q : Z -> scm -> Prop) :
  inv_used w L U s ->
  (forall i s' w', (i < seg_nr c)%nat -> owned (w i) = false -> inv_used w' L U s' ->
     moved w i (At (StageFifo a)) w' -> nr3 (segs s' i) = reserved -> Q 0 s') ->
  (forall s' w', inv_used w' L U s' -> held_same w w' -> Q ENOSPC s') ->
  wp (allocator_allocate_segment c cc a) Q s.
Proof.
  intros Hinv HS HF. destruct (Hfl a) as [Hthin _].
  unfold allocator_allocate_segment, scm_get_free_seg. apply wp_bind, wp_bind.
  apply wp_get_free_queue.
  2:{ intros err Hne. cbn beta iota. apply wp_ret. unfold stage_segment.
      rewrite (proj2 (Z.eqb_neq err 0)) by done. apply wp_ret. by eapply HF. }
  intros q. cbn beta iota. apply wp_bind. eapply wp_take; [exact Hinv| |].
  { unfold scm_seg_popped, fail_reclaim_thin. rewrite Hthin. apply wp_bind, wp_ret, wp_ret.
    apply wp_ret. by eapply HF. }
  intros i s1 Hi Hw Hinv1.
  destruct (wp_popped a i _ L U s1 Q Hinv1 Hi (fupd_same _ _ _)) as (rc & s' & E & H).
  - intros s' w' Hinv' Hmv Hnr. eapply (HS i _ _ Hi); [by rewrite Hw|exact Hinv'| |done].
    by eapply moved_twice.
  - intros s' w' p Hinv' Hmv. eapply HF; [done|]. apply moved_twice in Hmv.
    eapply moved_held; [exact Hmv|unowned|done].
  - revert E. unfold mbind, stm_bind. destruct (scm_seg_popped _ _ _ s1) as [[r s2]|] eqn:Er; [|done].
    intros E. exists r, s2. split; [exact Er|]. by exists rc, s'.
Qed.

(** ** A new range *)

(** The range cut at offset [idx] of segment [i]. *)
Definition cut (i : nat) (idx len : Z) : range :=
  mkRange (Z.of_nat i * size + idx - reserved) len true true.

Lemma cut_seg i idx len :
  reserved <= idx < size -> r_grain (cut i idx len) / size = Z.of_nat i /\
  r_grain (cut i idx len) mod size = idx - reserved.
Proof.
  intros Hi. destruct (co_res _ _ _ Hco). simpl.
  replace (Z.of_nat i * size + idx - reserved) with (idx - reserved + Z.of_nat i * size) by lia.
  rewrite Z.div_add, Z.mod_add by lia. rewrite Z.div_small, Z.mod_small by lia. lia.
Qed.

Lemma range_end r : range_ok c cc r -> r_grain r + r_len r <= (r_grain r / size + 1) * size.
Proof.
  intros [H1 H2 H3 H4 _]. destruct (co_size _ _ _ Hco). destruct (co_res _ _ _ Hco).
  pose proof (Z.div_mod (r_grain r) size). lia.
Qed.

Lemma range_start r : range_ok c cc r -> r_grain r / size * size <= r_grain r.
Proof.
  intros [H1 H2 H3 H4 _]. destruct (co_size _ _ _ Hco).
  pose proof (Z.mul_div_le (r_grain r) size). lia.
Qed.

(** Ranges of different segments do not meet. *)
Lemma disj_other_seg r1 r2 :
  range_ok c cc r1 -> range_ok c cc r2 -> r_grain r1 / size <> r_grain r2 / size -> disj r1 r2.
Proof.
  intros H1 H2 Hne. pose proof (range_end _ H1). pose proof (range_end _ H2).
  pose proof (range_start _ H1). pose proof (range_start _ H2). destruct (co_size _ _ _ Hco).
  unfold disj. destruct (Z.lt_total (r_grain r1 / size) (r_grain r2 / size)) as [|[|]]; [left|done|right];
    nia.
Qed.

Lemma cut_ok i idx len :
  (i < seg_nr c)%nat -> reserved <= idx < size -> 0 < len -> idx + len <= size ->
  range_ok c cc (cut i idx len).
Proof.
  intros Hi Hidx Hlen Hfit. destruct (cut_seg i idx len Hidx) as [Hd Hm].
  destruct (co_res _ _ _ Hco). destruct (co_size _ _ _ Hco).
  split; [done|simpl; nia|lia|rewrite Hm; simpl; lia|done].
Qed.

Lemma cut_ledger a i sg len L :
  (i < seg_nr c)%nat -> 0 < len -> nr3 sg + len <= size -> ledger_ok c cc L ->
  seg_ok (At (StageFifo a)) i sg L -> ledger_ok c cc (cut i (nr3 sg) len :: L).
Proof.
  intros Hi Hlen Hfit [HF HD] (_ & _ & Hn & _ & _ & Hbound).
  pose proof (cut_ok i (nr3 sg) len Hi Hn Hlen Hfit) as Hcut.
  destruct (cut_seg i (nr3 sg) len Hn) as [Hd Hm].
  split; [by constructor|]. split; [|done].
  apply List.Forall_forall. intros r Hr. rewrite List.Forall_forall in HF, Hbound.
  specialize (HF r Hr). specialize (Hbound r Hr).
  destruct (decide (r_grain r / size = Z.of_nat i)) as [Heq|Hne].
  - right. specialize (Hbound (proj2 (Z.eqb_eq _ _) Heq)). simpl.
    destruct (co_size _ _ _ Hco). pose proof (Z.div_mod (r_grain r) size). lia.
  - apply disj_other_seg; [done|done|]. congruence.
Qed.

(** The other segments do not notice. *)
Lemma cut_seg_ok x i j idx len sg L :
  reserved <= idx < size -> j <> i -> seg_ok x j sg L -> seg_ok x j sg (cut i idx len :: L).
Proof.
  intros Hidx Hne [Hb Hx]. destruct (cut_seg i idx len Hidx) as [Hd Hm].
  assert (in_seg c j (cut i idx len) = false) as Hin.
  { unfold in_seg. rewrite Hd. apply Z.eqb_neq. lia. }
  split; [done|].
  assert (forall f, tally c f j (cut i idx len :: L) = tally c f j L) as Ht.
  { intros f. cbn [tally]. by rewrite Hin. }
  unfold seg_free, seg_written in *. rewrite !Ht. destruct x as [[q|q|b|lv|a|a]| | | |]; try done.
  destruct Hx as (H1 & H2 & H3 & H4 & H5). split_and!; try (done || lia).
  constructor; [congruence|done].
Qed.

Lemma at_seg_cut i idx len sg w L U s :
  at_seg i sg w L U s -> reserved <= idx < size -> ledger_ok c cc (cut i idx len :: L) ->
  at_seg i sg w (cut i idx len :: L) U s.
Proof.
  intros ([Hl Hs HL Ht] & Hsg & Hi & Hc) Hidx HL'. split_and!; try done. split; try done.
  intros j Hj Hne. apply cut_seg_ok; [done|done|by apply Hs].
Qed.

Lemma tally_cut f i idx len L :
  reserved <= idx < size -> (forall g, f (mkRange g len true true) = true) ->
  tally c f i (cut i idx len :: L) = len + tally c f i L.
Proof.
  intros Hidx Hf. destruct (cut_seg i idx len Hidx) as [Hd _]. cbn [tally].
  unfold in_seg at 1. rewrite Hd, Z.eqb_refl. unfold cut. by rewrite Hf.
Qed.

(** The staged segment after the cut, still staged or full. *)
Lemma cut_staged_ok a i sg len L :
  0 < len -> nr3 sg + len <= size -> seg_ok (At (StageFifo a)) i sg L -> Forall (range_ok c cc) L ->
  seg_ok (if size =? nr3 sg + len then Out else At (StageFifo a)) i
         (set_nr3 (nr3 sg + len) sg) (cut i (nr3 sg) len :: L).
Proof.
  intros Hlen Hfit ([Hb1 Hb2 Hb3 Hb4] & Hst & Hn & Hv & H4 & Hbound) HF.
  destruct (cut_seg i (nr3 sg) len Hn) as [Hd Hm].
  split; [by split|]. pose proof (tally_nonneg c cc r_pend i L HF).
  pose proof (tally_cut r_live i (nr3 sg) len L Hn ltac:(done)) as Tl.
  pose proof (tally_cut r_pend i (nr3 sg) len L Hn ltac:(done)) as Tp.
  destruct (Z.eqb_spec size (nr3 sg + len)) as [Heq|Hne].
  - cbn [seg_state set_nr3 valid_nr nr4]. rewrite Tl, Tp. split_and!; try (done || lia).
  - cbn [seg_state set_nr3 valid_nr nr4 nr3]. rewrite Tl, Tp. split_and!; try (done || lia).
    constructor; [intros _; rewrite Hm; cbn [cut r_len]; lia|].
    eapply Forall_impl; [|exact Hbound]. simpl. intros r Hr Hin. specialize (Hr Hin). lia.
Qed.

(** ** The scan of the staged segments *)

(** What a successful allocation leaves: the range is in the ledger. *)
Definition granted (w : nat -> where_is) (L : ledger) (U g len : Z) (s : scm) : Prop :=
  exists w', inv_used w' (mkRange g len true true :: L) U s /\ held_same w w'.

Lemma wp_scan_hit a len p l w L U s (Q : Z * option nat -> scm -> Prop) :
  inv_used w L U s -> w p = At (StageFifo a) -> (p < seg_nr c)%nat -> 0 < len ->
  nr3 (segs s p) + len <= size ->
  (forall s' idx, idx <> SALSA_INVAL_GRAIN ->
     granted w L U (Z.of_nat p * size + idx - reserved) len s' -> reserved <= idx < size ->
     Q (idx, Some p) s') ->
  wp (stage_scan c a len (p :: l)) Q s.
Proof.
  intros Hinv Hw Hp Hlen Hfit HQ. destruct (co_size _ _ _ Hco). destruct (co_res _ _ _ Hco).
  destruct (inv_at_seg _ _ _ _ _ _ _ _ Hinv Hp) as [Hat Hok]. rewrite Hw in Hok.
  pose proof Hok as (_ & _ & Hn & _). set (sg := segs s p) in *.
  assert (ledger_ok c cc L) as HL by (by destruct Hat as [[] _]).
  cbn [stage_scan]. apply wp_bind.
  eapply wp_next_range_hit; [exact Hat|lia|lia|done|]. intros s1 Hat1.
  assert (nr3 sg <> SALSA_INVAL_GRAIN) as Hni by (unfold SALSA_INVAL_GRAIN; lia).
  rewrite (proj2 (Z.eqb_neq _ _) Hni). cbn [negb].
  rewrite wrap_small by (unfold in_width; lia).
  pose proof (cut_ledger a p sg len L Hp Hlen Hfit HL Hok) as HL'.
  pose proof (cut_staged_ok a p sg len L Hlen Hfit Hok (proj1 HL)) as Hok'.
  apply (at_seg_cut p (nr3 sg) len) in Hat1; [|done|done]. apply wp_bind.
  destruct (size =? nr3 sg + len).
  - eapply (wp_list_del _ _ _ _ _ _ _ _ _ (StageFifo a) Out);
      [left; reflexivity|exact Hat1|done|done|]. intros s2 Hat2. apply wp_ret.
    apply HQ; [done| |done]. exists (fupd w p Out). split.
    + apply (at_seg_inv _ _ _ _ _ _ _ _ _ Hat2). by rewrite fupd_same.
    + eapply moved_held; [apply moved_fupd|unowned|done].
  - apply wp_ret, wp_ret. apply HQ; [done| |done]. exists w. split; [|done].
    apply (at_seg_inv _ _ _ _ _ _ _ _ _ Hat1). by rewrite Hw.
Qed.

(** A segment without room leaves the staging list. *)
Lemma wp_recycle a i w L U s (Q : Z -> scm -> Prop) :
  inv_used w L U s -> w i = At (StageFifo a) -> (i < seg_nr c)%nat ->
  (forall s' w' x rem, inv_used w' L U s' -> moved w i x w' -> x = Out \/ x = At (DoneFifo a) ->
     Q rem s') ->
  wp (recycle c a i) Q s.
Proof.
  intros Hinv Hw Hi HQ. destruct (co_size _ _ _ Hco). destruct (co_res _ _ _ Hco).
  destruct (inv_at_seg _ _ _ _ _ _ _ _ Hinv Hi) as [Hat Hok]. rewrite Hw in Hok.
  destruct Hok as ([Hb1 Hb2 Hb3 Hb4] & Hst & Hn & Hv & H4 & Hbound). set (sg := segs s i) in *.
  assert (ledger_ok c cc L) as [HF HD] by (by destruct Hat as [[] _]).
  pose proof (tally_nonneg c cc r_live i L HF). pose proof (tally_nonneg c cc r_pend i L HF).
  unfold recycle. apply wp_bind. apply (wp_seg_get _ _ _ _ _ _ _ _ _ _ Hat).
  rewrite wrap_small by (unfold in_width; lia). set (rem := size - nr3 sg).
  apply wp_bind. eapply (wp_seg_putn _ _ _ _ _ _ _ _ _ _ _ Hat); [lia|lia|]. intros s1 Hat1.
  apply wp_bind. eapply (wp_list_del _ _ _ _ _ _ _ _ _ (StageFifo a) Out);
    [left; reflexivity|exact Hat1|done|done|]. intros s2 Hat2.
  apply wp_bind. eapply wp_nr4_sub; [exact Hat2|simpl; lia|]. intros s3 Hat3. cbn [nr4 set_valid_nr] in Hat3 |- *.
  apply wp_bind. destruct (Z.eqb_spec (nr4 sg - rem) 0) as [Hz|Hnz].
  - eapply (wp_list_add _ _ _ _ _ _ _ _ _ (DoneFifo a));
      [left; reflexivity|exact Hat3|by rewrite fupd_same|]. intros s4 Hat4. apply wp_ret.
    eapply HQ; [|apply moved_fupd2|by right]. apply (at_seg_inv _ _ _ _ _ _ _ _ _ Hat4).
    rewrite fupd_same. split; [split; simpl; try done; lia|]. simpl. split_and!; try done.
    split; simpl; lia.
  - apply wp_ret, wp_ret. eapply HQ; [|apply moved_fupd|by left].
    apply (at_seg_inv _ _ _ _ _ _ _ _ _ Hat3). rewrite fupd_same.
    split; [split; simpl; try done; lia|]. simpl. split_and!; try done; lia.
Qed.

Lemma wp_next_range_miss i len sg w L U s (Q : Z -> scm -> Prop) :
  at_seg i sg w L U s -> 0 <= nr3 sg < size -> 0 < len <= size -> size < nr3 sg + len ->
  Q SALSA_INVAL_GRAIN s ->
  wp (allocator_seg_next_range c i len) Q s.
Proof.
  intros Hat Hn Hlen Hmiss HQ. destruct (co_size _ _ _ Hco). unfold allocator_seg_next_range.
  apply wp_bind. apply (wp_seg_get _ _ _ _ _ _ _ _ _ _ Hat).
  rewrite !wrap_small by (unfold in_width; lia).
  rewrite (proj2 (Z.ltb_lt _ _) Hmiss), orb_true_r. by apply wp_ret.
Qed.

(** The segments of [l] are staged. *)
Definition staged (a : nat) (w : nat -> where_is) (l : list nat) : Prop :=
  NoDup l /\ forall j, j ∈ l -> (j < seg_nr c)%nat /\ w j = At (StageFifo a).

(** None of [l] is staged any more, and nothing else moved. *)
Definition unstaged (a : nat) (l : list nat) (w w' : nat -> where_is) : Prop :=
  held_same w w' /\ (forall j, j ∈ l -> w' j <> At (StageFifo a)) /\
  (forall j, j ∉ l -> w' j = w j).

Lemma wp_stage_scan a len l w L U s (Q : Z * option nat -> scm -> Prop) :
  inv_used w L U s -> staged a w l -> 0 < len <= size ->
  (forall s' p idx, idx <> SALSA_INVAL_GRAIN -> (p < seg_nr c)%nat -> reserved <= idx < size ->
     granted w L U (Z.of_nat p * size + idx - reserved) len s' -> Q (idx, Some p) s') ->
  (forall s' w', inv_used w' L U s' -> unstaged a l w w' -> Q (SALSA_INVAL_GRAIN, None) s') ->
  wp (stage_scan c a len l) Q s.
Proof.
  revert w s Q. induction l as [|p l IH]; intros w s Q Hinv [Hnd Hst] Hlen HS HN.
  { apply wp_ret. eapply HN; [done|]. split_and!; [done|by intros j Hj%elem_of_nil|done]. }
  destruct (Hst p (list_elem_of_here _ _)) as [Hp Hw].
  destruct (inv_at_seg _ _ _ _ _ _ _ _ Hinv Hp) as [Hat Hok]. rewrite Hw in Hok.
  destruct Hok as (_ & _ & Hn & _). destruct (co_res _ _ _ Hco).
  destruct (Z.le_gt_cases (nr3 (segs s p) + len) size) as [Hfit|Hmiss].
  { eapply wp_scan_hit; [done|done|done|lia|done|]. intros s' idx Hi Hg Hr. by eapply HS. }
  cbn [stage_scan]. apply wp_bind.
  eapply wp_next_range_miss; [exact Hat|lia|done|lia|].
  rewrite Z.eqb_refl. cbn [negb]. apply wp_bind.
  eapply wp_recycle; [exact Hinv|done|done|]. intros s1 w1 x rem Hinv1 [Hm1 Hm2] Hx.
  assert (held_same w w1) as Hh1.
  { eapply (moved_held _ p x); [by split|unowned|by destruct Hx as [->| ->]]. }
  pose proof (NoDup_cons_1_1 _ _ Hnd) as Hpl.
  eapply IH; [exact Hinv1| |done| |].
  - split; [by eapply NoDup_cons_1_2|]. intros j Hj.
    assert (j <> p) by congruence. rewrite Hm2 by done. apply Hst, elem_of_cons. by right.
  - intros s' p' idx Hi Hp' Hr (w' & Hinv' & Hh'). eapply HS; try done.
    exists w'. split; [done|by eapply held_same_trans].
  - intros s' w' Hinv' (Hh' & Hg1 & Hg2). eapply HN; [done|]. split_and!.
    + by eapply held_same_trans.
    + intros j Hj. apply elem_of_cons in Hj as [->|Hj]; [|by apply Hg1].
      rewrite (Hg2 p Hpl), Hm1. destruct Hx as [->| ->]; discriminate.
    + intros j Hj. apply not_elem_of_cons in Hj as [Hjp Hjl]. rewrite (Hg2 j Hjl). by apply Hm2.
Qed.

Lemma staged_heads a w L U s : inv_used w L U s -> staged a w (heads s (StageFifo a)).
Proof. intros [[[Hn Hs Hm] _ _ _] _]. split; [done|]. intros j Hj. by apply Hm. Qed.

Lemma unstaged_empty a w w' L U s s' :
  inv_used w L U s -> inv_used w' L U s' -> unstaged a (heads s (StageFifo a)) w w' ->
  heads s' (StageFifo a) = [].
Proof.
  intros [[[_ _ Hm] _ _ _] _] [[[_ _ Hm'] _ _ _] _] (_ & H1 & H2).
  destruct (heads s' (StageFifo a)) as [|j l] eqn:Hh; [done|]. exfalso.
  assert ((j < seg_nr c)%nat /\ w' j = At (StageFifo a)) as [Hj Hw'].
  { apply Hm'. rewrite Hh. apply elem_of_cons. by left. }
  destruct (decide (j ∈ heads s (StageFifo a))) as [Hin|Hin]; [by apply (H1 j Hin)|].
  apply Hin, Hm. split; [done|]. by rewrite <- H2.
Qed.

(** The grain number returned for an offset. *)
Lemma granted_grain p idx :
  (p < seg_nr c)%nat -> reserved <= idx < size ->
  u64 (scm_seg_to_grain c p + idx - reserved) = Z.of_nat p * size + idx - reserved /\
  Z.of_nat p * size + idx - reserved <> SALSA_INVAL_GRAIN.
Proof.
  intros Hp Hi. destruct (co_size _ _ _ Hco). destruct (co_res _ _ _ Hco).
  pose proof (co_nr _ _ _ Hco). unfold scm_seg_to_grain, SALSA_INVAL_GRAIN.
  rewrite (wrap_small 64 (Z.of_nat p * size)) by (unfold in_width; nia).
  split; [apply wrap_small; unfold in_width; nia|nia].
Qed.

(** A pass that finds room in the staged segment. *)
Lemma wp_stage_section_hit a p len w L U s (Q : Z * bool -> scm -> Prop) :
  inv_used w L U s -> heads s (StageFifo a) = [p] -> 0 < len -> nr3 (segs s p) + len <= size ->
  (forall g s', granted w L U g len s' -> g <> SALSA_INVAL_GRAIN -> Q (g, false) s') ->
  wp (stage_section c cc a len) Q s.
Proof.
  intros Hinv Hh Hlen Hfit HQ. pose proof (staged_heads a _ _ _ _ Hinv) as [_ Hst].
  rewrite Hh in Hst. destruct (Hst p (list_elem_of_here _ _)) as [Hp Hw].
  unfold stage_section. do 2 wp_step. rewrite Hh. apply wp_bind.
  eapply wp_scan_hit; [exact Hinv|done|done|done|done|]. intros s1 idx Hi Hg Hr.
  cbn beta iota. unfold cds_queue_base_is_empty. do 4 wp_step.
  rewrite (proj2 (Z.eqb_neq _ _) Hi). cbn [andb negb].
  apply wp_bind. eapply wp_lifto; [reflexivity|]. apply wp_ret.
  destruct (granted_grain p idx Hp Hr) as [-> ?]. by apply HQ.
Qed.

Lemma inv_frame_alloc w L U s al n l :
  inv_used w L U s -> inv_used w L U (set_alloc al n l s).
Proof. intros H. by eapply inv_frame. Qed.

Lemma moved_stage_heads a i w w' L U s s' :
  inv_used w L U s -> inv_used w' L U s' -> heads s (StageFifo a) = [] ->
  (i < seg_nr c)%nat -> moved w i (At (StageFifo a)) w' -> heads s' (StageFifo a) = [i].
Proof.
  intros [[[_ _ Hm] _ _ _] _] [[[Hn _ Hm'] _ _ _] _] He Hi [Hm1 Hm2].
  assert (forall j, j ∈ heads s' (StageFifo a) <-> j = i) as Hall.
  { intros j. rewrite Hm'. split.
    - intros [Hj Hwj]. destruct (decide (j = i)) as [|Hne]; [done|]. exfalso.
      rewrite Hm2 in Hwj by done. assert (j ∈ heads s (StageFifo a)) as Hin by (apply Hm; done).
      rewrite He in Hin. by apply elem_of_nil in Hin.
    - intros ->. done. }
  specialize (Hn (StageFifo a)). destruct (heads s' (StageFifo a)) as [|x [|y l]].
  - exfalso. assert (i ∈ []) as Hin by (by apply Hall). by apply elem_of_nil in Hin.
  - f_equal. apply Hall. apply elem_of_cons. by left.
  - exfalso. apply (NoDup_cons_1_1 _ _ Hn).
    rewrite (proj1 (Hall x)) by (apply elem_of_cons; by left).
    apply elem_of_cons. left. symmetry. apply Hall, elem_of_cons. right. apply elem_of_cons. by left.
Qed.

(** One pass: a range is cut, or the staging list is empty, and then the caller
    takes the right to allocate a segment unless somebody has it. *)
Lemma wp_stage_section a len w L U s (Q : Z * bool -> scm -> Prop) :
  inv_used w L U s -> 0 < len -> len + reserved <= size ->
  (forall g s', granted w L U g len s' -> g <> SALSA_INVAL_GRAIN -> Q (g, false) s') ->
  (forall s' w' go, inv_used w' L U s' -> held_same w w' -> heads s' (StageFifo a) = [] ->
     Q (SALSA_INVAL_GRAIN, go) s') ->
  wp (stage_section c cc a len) Q s.
Proof.
  intros Hinv Hlen Hfit HS HN. destruct (co_res _ _ _ Hco). unfold stage_section. do 2 wp_step. apply wp_bind.
  eapply wp_stage_scan; [exact Hinv|by eapply staged_heads|lia| |].
  - intros s1 p idx Hi Hp Hr Hg. cbn beta iota. unfold cds_queue_base_is_empty. do 4 wp_step.
    rewrite (proj2 (Z.eqb_neq _ _) Hi). cbn [andb negb].
    apply wp_bind. eapply wp_lifto; [reflexivity|]. apply wp_ret.
    destruct (granted_grain p idx Hp Hr) as [-> ?]. by apply HS.
  - intros s1 w1 Hinv1 Hun. pose proof (unstaged_empty a w w1 L U s s1 Hinv Hinv1 Hun) as He.
    cbn beta iota. unfold cds_queue_base_is_empty. do 4 wp_step. rewrite He, Z.eqb_refl. cbn [andb].
    destruct (allocating s1 a); cbn [negb]; [apply wp_ret; by eapply HN; [|apply Hun|]|].
    apply wp_bind, wp_writes, wp_ret. eapply HN; [by apply inv_frame_alloc|apply Hun|done].
Qed.

(** Two passes are enough: after the first one the staging list is empty, and a
    fresh segment has room. *)
Lemma wp_allocate_grains a len w L U s (Q : Z -> scm -> Prop) fuel :
  inv_used w L U s -> 0 < len -> len + reserved <= size ->
  (forall g s', granted w L U g len s' -> g <> SALSA_INVAL_GRAIN -> Q g s') ->
  (forall s' w', inv_used w' L U s' -> held_same w w' -> Q SALSA_INVAL_GRAIN s') ->
  wp (allocator_allocate_grains c cc (S fuel) a len) Q s.
Proof.
  intros Hinv Hlen Hfit HS HN. unfold allocator_allocate_grains. cbn [allocate_retry].
  apply wp_bind. eapply wp_stage_section; [exact Hinv|done|done| |].
  { intros g s' Hg Hne. cbn beta iota. by apply wp_ret, HS. }
  intros s1 w1 go Hinv1 Hh1 He. cbn beta iota. destruct go; [|apply wp_ret; by eapply HN].
  apply wp_bind. eapply wp_allocate_segment; [exact Hinv1| |].
  - intros i s3 w3 Hi Hnh Hinv3 Hmv Hnr. apply wp_bind, wp_writes.
    set (s4 := set_alloc _ _ _ s3).
    assert (inv_used w3 L U s4) as Hinv4 by (by apply inv_frame_alloc). cbn [Z.eqb].
    assert (wp (stage_section c cc a len) (fun r s' => snd r = false /\ Q (fst r) s') s4)
      as ([g go] & s' & E & [= ->] & HQ).
    { eapply (wp_stage_section_hit a i); [exact Hinv4| |done|simpl; lia|].
      - by apply (moved_stage_heads a i w1 w3 L U s1 s4).
      - intros g s' (w' & Hinv' & Hh') Hg. split; [done|]. apply HS; [|done]. exists w'.
        split; [done|]. eapply held_same_trans; [exact Hh1|].
        eapply held_same_trans; [|exact Hh']. by eapply moved_held. }
    destruct fuel; cbn [allocate_retry]; apply wp_bind; (eexists _, _; split; [exact E|]);
      by apply wp_ret.
  - intros s3 w3 Hinv3 Hh3. apply wp_bind, wp_writes, wp_ret.
    eapply HN; [by apply inv_frame_alloc|]. by eapply held_same_trans.
Qed.

(** ** Releasing, draining, destaging *)

Lemma in_seg_segment i r :
  range_ok c cc r -> scm_grain_to_segment c (r_grain r) = Some i <->
  in_seg c i r = true /\ (i < seg_nr c)%nat.
Proof.
  intros [_ Hg Hs _ _]. destruct (co_size _ _ _ Hco). unfold scm_grain_to_segment, in_seg.
  pose proof (Z.div_pos (r_grain r) size Hg). destruct (Nat.ltb_spec (Z.to_nat (r_grain r / size)) (seg_nr c)).
  - rewrite Z.eqb_eq. split; [intros [= <-]; lia|]. intros [-> _]. by rewrite Nat2Z.id.
  - split; [done|]. intros [Heq%Z.eqb_eq Hi]. lia.
Qed.

Lemma range_segment r : range_ok c cc r -> exists i, scm_grain_to_segment c (r_grain r) = Some i.
Proof.
  intros Hr. exists (Z.to_nat (r_grain r / size)). apply in_seg_segment; [done|].
  destruct Hr as [_ Hg Hs _ _]. destruct (co_size _ _ _ Hco).
  pose proof (Z.div_pos (r_grain r) size Hg). unfold in_seg. rewrite Z.eqb_eq. lia.
Qed.

(** A segment with a range in flight is staged or out. *)
Lemma pending_place x i sg e L0 :
  Forall (range_ok c cc) (e :: L0) -> seg_ok x i sg (e :: L0) -> in_seg c i e = true ->
  r_pend e = true -> x = Out \/ exists a, x = At (StageFifo a).
Proof.
  intros HF [_ Hx] Hin Hp.
  pose proof (tally_le_size_aux c cc r_pend i (e :: L0) e HF (list_elem_of_here _ _) Hin Hp) as Hle.
  assert (0 < r_len e) by (by apply Forall_cons_iff in HF as [[] _]).
  unfold seg_free, seg_written in Hx.
  destruct x as [[q|q|b|lv|a|a]| | | |]; [lia|lia|lia|lia|by right; exists a|lia|by left|lia|lia|lia].
Qed.

Lemma release_seg_ok x i sg e L0 :
  ledger_ok c cc (e :: L0) -> seg_ok x i sg (e :: L0) -> in_seg c i e = true -> r_pend e = true ->
  let sg' := set_nr4 (nr4 sg - r_len e) sg in
  (x = Out \/ exists a, x = At (StageFifo a)) /\ 0 <= nr4 sg' /\
  (nr4 sg' <> 0 -> seg_ok x i sg' (released e ++ L0)) /\
  (nr4 sg' = 0 -> x = Out /\ forall a, seg_ok (At (DoneFifo a)) i sg' (released e ++ L0)).
Proof.
  intros HL Hok Hin Hp sg'. pose proof (pending_place _ _ _ _ _ (proj1 HL) Hok Hin Hp) as Hx.
  destruct (tally_released c i e L0 Hin Hp) as [Tp Tl].
  assert (0 < r_len e) as Hpos by (by destruct HL as [[[] _]%Forall_cons_iff _]).
  assert (ledger_ok c cc (released e ++ L0)) as [HF' _].
  { eapply shrinks_ledger; [apply released_shrinks|done]. }
  pose proof (tally_nonneg c cc r_pend i _ HF') as Hnn.
  split; [done|]. destruct Hok as [[Hb1 Hb2 Hb3 Hb4] Hx'].
  assert (seg_base c sg') as Hbase by (split; simpl; try done; lia).
  destruct Hx as [->|[a ->]].
  - destruct Hx' as (H1 & H2 & H3 & H4). simpl. split; [lia|]. split.
    + intros Hnz. split; [done|]. simpl. split_and!; try done; lia.
    + intros Hz. split; [done|]. intros a. split; [done|]. simpl. split_and!; try done.
      split; simpl; lia.
  - destruct Hx' as (H1 & H2 & H3 & H4 & H5). simpl. split; [lia|]. split; [|lia].
    intros _. split; [done|]. simpl. split_and!; try (done || lia).
    eapply shrinks_bound; [apply released_shrinks|done].
Qed.

(** The last release of a segment passes it to the caller. *)
Lemma wp_release_count w L L0 e U s (Q : option nat -> scm -> Prop) :
  inv_used w L U s -> L ≡ₚ e :: L0 -> r_pend e = true ->
  (forall s', inv_used w (released e ++ L0) U s' -> Q None s') ->
  (forall i s', (i < seg_nr c)%nat -> w i = Out ->
     inv_used (fupd w i Done) (released e ++ L0) U s' -> Q (Some i) s') ->
  wp (release_count c (r_grain e) (r_len e)) Q s.
Proof.
  intros Hinv Hp Hpend HN HS. destruct (co_size _ _ _ Hco).
  assert (ledger_ok c cc (e :: L0)) as HL.
  { eapply ledger_ok_perm; [exact Hp|]. by destruct Hinv as [[] _]. }
  assert (range_ok c cc e) as He by (by destruct HL as [[? _]%Forall_cons_iff _]).
  destruct (range_segment e He) as [i Hseg].
  pose proof (proj1 (in_seg_segment i e He) Hseg) as [Hin Hi].
  destruct (inv_at_seg _ _ _ _ _ _ _ _ Hinv Hi) as [Hat Hok].
  apply (seg_ok_perm _ _ _ _ _ _ _ _ Hp) in Hok.
  pose proof (sb_nr4 _ _ (proj1 Hok)) as Hb4.
  destruct (release_seg_ok _ _ _ _ _ HL Hok Hin Hpend) as (Hx & Hnn & Hnz & Hz).
  set (sg := segs s i) in *. cbn [nr4 set_nr4] in Hnn, Hnz, Hz.
  assert (0 < r_len e) as Hpos by (by destruct He).
  unfold release_count. apply wp_bind. eapply wp_lifto; [exact Hseg|].
  apply wp_bind. eapply wp_nr4_sub; [exact Hat|lia|]. intros s1 Hat1. apply wp_ret.
  apply (at_seg_shrink _ _ _ _ _ _ _ L0 e (released e)) in Hat1;
    [|done|done|apply released_shrinks].
  destruct (Z.eqb_spec (nr4 sg - r_len e) 0) as [Heq|Hne].
  - destruct (Hz Heq) as [Hw Hdone]. apply HS; [done|done|].
    apply (at_seg_rename _ _ _ _ _ _ _ _ _ Done) in Hat1; [|by rewrite Hw|done].
    apply (at_seg_inv _ _ _ _ _ _ _ _ _ Hat1). rewrite fupd_same. exact (Hdone 0%nat).
  - apply HN. apply (at_seg_inv _ _ _ _ _ _ _ _ _ Hat1). by apply Hnz.
Qed.

Lemma wp_enqueue_done a i w L U s (Q : unit -> scm -> Prop) :
  inv_used w L U s -> (i < seg_nr c)%nat -> w i = Done ->
  (forall s', inv_used (fupd w i (At (DoneFifo a))) L U s' -> Q tt s') ->
  wp (cds_queue_base_enqueue_tail (DoneFifo a) i) Q s.
Proof.
  intros Hinv Hi Hw HQ. destruct (inv_at_seg _ _ _ _ _ _ _ _ Hinv Hi) as [Hat Hok].
  eapply (wp_list_add _ _ _ _ _ _ _ _ _ (DoneFifo a)); [left; reflexivity|exact Hat|by rewrite Hw|].
  intros s' Hat'. apply HQ, (at_seg_inv _ _ _ _ _ _ _ _ _ Hat'). rewrite fupd_same.
  rewrite Hw in Hok. exact Hok.
Qed.

Lemma wp_release a w L L0 e U s (Q : unit -> scm -> Prop) :
  inv_used w L U s -> L ≡ₚ e :: L0 -> r_pend e = true ->
  (forall s' w', inv_used w' (released e ++ L0) U s' -> held_same w w' -> Q tt s') ->
  wp (allocator_release_grains c a (r_grain e) (r_len e)) Q s.
Proof.
  intros Hinv Hp Hpend HQ. unfold allocator_release_grains. apply wp_bind.
  eapply wp_release_count; [exact Hinv|done|done|intros s1 Hinv1; apply wp_ret; by eapply HQ|].
  intros i s1 Hi Hw Hinv1. eapply wp_enqueue_done; [exact Hinv1|done|by rewrite fupd_same|].
  intros s2 Hinv2. eapply HQ; [exact Hinv2|]. eapply moved_held; [apply moved_fupd2|unowned|done].
Qed.

Lemma keeps_drain a : keeps c gc cc (allocator_drain_remaining_grains c a).
Proof.
  intros w L U s Hinv. unfold allocator_drain_remaining_grains. do 2 wp_step.
  destruct (heads s (StageFifo a)) as [|p l] eqn:Hh; [apply wp_ret; by exists w|].
  pose proof (staged_heads a _ _ _ _ Hinv) as [_ Hst]. rewrite Hh in Hst.
  destruct (Hst p (list_elem_of_here _ _)) as [Hp Hw]. apply wp_bind.
  eapply wp_recycle; [exact Hinv|done|done|]. intros s1 w1 x rem Hinv1 Hmv Hx. apply wp_ret.
  exists w1. split; [done|]. eapply moved_held; [exact Hmv|unowned|].
  by destruct Hx as [->| ->].
Qed.

(** A segment of the done list passes to the caller. *)
Lemma wp_pop_done a w L U s (Q : option nat -> scm -> Prop) :
  inv_used w L U s -> Q None s ->
  (forall i s', (i < seg_nr c)%nat -> w i = At (DoneFifo a) -> inv_used (fupd w i Done) L U s' ->
     Q (Some i) s') ->
  wp (cds_queue_base_pop_head (DoneFifo a)) Q s.
Proof.
  intros Hinv HN HS. eapply (wp_pop_head _ Done); [exact Hinv|done|done|].
  intros i s' Hi Hw Hat. apply HS; [done|done|].
  destruct (inv_at_seg _ _ _ _ _ _ _ _ Hinv Hi) as [_ Hok]. rewrite Hw in Hok.
  apply (at_seg_inv _ _ _ _ _ _ _ _ _ Hat). rewrite fupd_same. exact Hok.
Qed.

Lemma wp_destage i w L U s (Q : unit -> scm -> Prop) :
  inv_used w L U s -> (i < seg_nr c)%nat -> w i = Done ->
  (forall s' w', inv_used w' L U s' -> held_same (fupd w i Out) w' -> Q tt s') ->
  wp (gc_seg_destaged c gc i) Q s.
Proof.
  intros Hinv Hi Hw HQ. destruct (inv_at_seg _ _ _ _ _ _ _ _ Hinv Hi) as [Hat Hok].
  rewrite Hw in Hok. destruct Hok as (Hbase & _ & _ & Hwr).
  apply (at_seg_rename _ _ _ _ _ _ _ _ _ Out) in Hat; [|by rewrite Hw|done].
  eapply (wp_gc_seg_destaged c gc cc Hco); [exact Hat|by rewrite fupd_same|done|done|done].
Qed.

Lemma keeps_allocator_thread a : keeps c gc cc (lsa_allocator_thread c gc a).
Proof.
  intros w L U s Hinv. unfold lsa_allocator_thread. apply wp_bind.
  eapply wp_pop_done; [exact Hinv|apply wp_ret; by exists w|]. intros i s1 Hi Hw Hinv1.
  eapply wp_destage; [exact Hinv1|done|by rewrite fupd_same|].
  intros s2 w2 Hinv2 Hh2. exists w2. split; [done|]. eapply held_same_trans; [|exact Hh2].
  eapply moved_held; [apply moved_fupd2|unowned|done].
Qed.

(** ** Capacity *)

Fixpoint sum_segs (f : nat -> Z) (n : nat) : Z :=
  match n with O => 0 | S n' => sum_segs f n' + f n' end.

Lemma sum_segs_le f b n : (forall i, (i < n)%nat -> f i <= b) -> sum_segs f n <= Z.of_nat n * b.
Proof.
  intros Hf. induction n as [|n IH]; simpl; [lia|].
  specialize (Hf n ltac:(lia)) as Hn. specialize (IH ltac:(intros; apply Hf; lia)). lia.
Qed.

Lemma sum_segs_plus f g n : sum_segs (fun i => f i + g i) n = sum_segs f n + sum_segs g n.
Proof. induction n as [|n IH]; simpl; [done|]. rewrite IH. lia. Qed.

Lemma sum_segs_one k v n :
  sum_segs (fun i => if k =? Z.of_nat i then v else 0) n =
  if (0 <=? k) && (k <? Z.of_nat n) then v else 0.
Proof.
  induction n as [|n IH]; cbn [sum_segs].
  - destruct (Z.leb_spec 0 k), (Z.ltb_spec k (Z.of_nat 0)); cbn [andb]; lia.
  - rewrite IH. destruct (Z.leb_spec 0 k), (Z.ltb_spec k (Z.of_nat n)),
      (Z.eqb_spec k (Z.of_nat n)), (Z.ltb_spec k (Z.of_nat (S n))); cbn [andb]; lia.
Qed.

Lemma sum_segs_ext f g n : (forall i, (i < n)%nat -> f i = g i) -> sum_segs f n = sum_segs g n.
Proof.
  intros Hfg. induction n as [|n IH]; simpl; [done|].
  rewrite IH by (intros; apply Hfg; lia). by rewrite Hfg by lia.
Qed.

Lemma live_total_sum L :
  Forall (range_ok c cc) L -> live_total L = sum_segs (fun i => tally c r_live i L) (seg_nr c).
Proof.
  induction 1 as [|r L Hr _ IH]; simpl.
  { by induction (seg_nr c) as [|n IH]; simpl; [|rewrite <- IH]. }
  rewrite sum_segs_plus, <- IH. f_equal. destruct Hr as [_ Hg Hs _ _].
  destruct (co_size _ _ _ Hco). pose proof (Z.div_pos (r_grain r) size Hg).
  pose proof (sum_segs_one (r_grain r / size) (if r_live r then r_len r else 0) (seg_nr c)) as Hone.
  rewrite (proj2 (Z.leb_le _ _)), (proj2 (Z.ltb_lt _ _) Hs) in Hone by lia. cbn [andb] in Hone.
  rewrite <- Hone. apply sum_segs_ext. intros i _. unfold in_seg.
  by destruct (_ =? _), (r_live r).
Qed.

(** What users hold fits on the device. *)
Lemma live_total_bound w L U s :
  inv_used w L U s -> 0 <= live_total L <= Z.of_nat (seg_nr c) * size.
Proof.
  intros [[_ Hs [HF HD] _] _]. split.
  { clear Hs HD. induction HF as [|r L [Hl _ _ _ _] _ IH]; simpl; [lia|]. destruct (r_live r); lia. }
  rewrite (live_total_sum L HF). apply sum_segs_le. intros i Hi.
  pose proof (tally_nonneg c cc r_live i L HF). destruct (co_size _ _ _ Hco).
  destruct (Hs i Hi ltac:(tauto)) as [[_ _ Hv _] Hx]. unfold seg_free, seg_written in Hx.
  destruct (w i) as [[q|q|b|lv|a|a]| | | |]; lia.
Qed.

End Safe.
