(* ===== verification/SalsaRun.v ===== *)
(** * SalsaRun: runs of the space manager, call by call

    The calls of users, allocator threads and collectors in any order, each taken
    as one step, and what holds in every state they reach.  Calls that overlap
    are the subject of SalsaThreads. *)
From Stdlib Require Import ZArith Lia.
From stdpp Require Import base tactics list numbers relations.
From S2P Require Import Prelude StateM Throttle SalsaScm SalsaGc SalsaAlloc SalsaInv SalsaMoves.
From S2P Require Import SalsaInval SalsaSafe.

Open Scope Z_scope.

Section Run.
Context (c : scm_conf) (gc : gc_conf) (ctlrs : ctl_table) (cc : ctlr_conf).

Local Abbreviation size := (seg_size c).
Local Abbreviation reserved := (reserved_per_seg cc).
Local Abbreviation inv := (inv c gc cc).
Local Abbreviation inv_used := (inv_used c gc cc).

(** ** Steps

    A collector's round is split where other threads run: it takes a segment
    ([step_gc_select]), the controller relocates what is valid in it (steps of its
    own), and the segment is freed or put back. *)

Definition alloc_result (L : ledger) (len rc g : Z) : ledger :=
  if rc =? 0 then mkRange g len true true :: L else L.

Definition gc_select : scmm (option nat) :=
  o ← (if decide (gc_ty gc = GC_SALSA_3BIN) then first_of_bins_down gc 3
       else first_of_bins gc 0 (Z.to_nat (bin_nr gc - 1)));
  match o with
  | None => mret None
  | Some i => gc_seg_selected c i;; mret (Some i)
  end.

Definition gc_put_back (i : nat) : scmm unit :=
  if decide (gc_ty gc = GC_SALSA_3BIN) then gc_salsa_return_failed_reloc_seg c gc i
  else gc_salsa_n_return_failed_reloc_seg gc i.

Inductive salsa_step : ledger * scm -> ledger * scm -> Prop :=
  | step_alloc L s len stream reloc rc g s' :
      0 < len < 2 ^ 32 ->
      allocate_grains_no_wait c ctlrs cc 1 len stream reloc s = Some ((rc, g), s') ->
      salsa_step (L, s) (alloc_result L len rc g, s')
  | step_release L L0 e s stream reloc s' :
      L ≡ₚ e :: L0 -> r_pend e = true ->
      release_grains c cc (r_grain e) (r_len e) stream reloc s = Some (tt, s') ->
      salsa_step (L, s) (released e ++ L0, s')
  | step_invalidate L L0 e s reloc s' :
      L ≡ₚ e :: L0 -> r_live e = true ->
      invalidate_grains c gc (r_grain e) (r_len e) reloc s = Some (tt, s') ->
      salsa_step (L, s) (invalidated e ++ L0, s')
  | step_drain L s stream reloc n s' :
      drain_remaining_grains c cc stream reloc s = Some (n, s') -> salsa_step (L, s) (L, s')
  | step_destage L s a s' :
      lsa_allocator_thread c gc a s = Some (tt, s') -> salsa_step (L, s) (L, s')
  | step_gc_select L s o s' : gc_select s = Some (o, s') -> salsa_step (L, s) (L, s')
  | step_gc_free L s i bin s' :
      (i < seg_nr c)%nat -> seg_state (segs s i) = SEG_INVALID -> valid_nr (segs s i) = 0 ->
      seg_relocated c i bin s = Some (tt, s') -> salsa_step (L, s) (L, s')
  | step_gc_put_back L s i s' :
      (i < seg_nr c)%nat -> seg_state (segs s i) = SEG_INVALID ->
      gc_put_back i s = Some (tt, s') -> salsa_step (L, s) (L, s')
  | step_gc_pop L s s' :
      gc_ty gc <> GC_SALSA_3BIN ->
      gc_salsa_n_xnp_try_pop_one gc s = Some (tt, s') -> salsa_step (L, s) (L, s')
  | step_gc_update L s s' :
      gc_ty gc = GC_NBIN_XNP_INTRPT_SAFE ->
      gc_salsa_n_xnp_intrpt_safe_update_segs c gc s = Some (tt, s') -> salsa_step (L, s) (L, s').

Definition reachable (s0 : scm) (L : ledger) (s : scm) : Prop :=
  rtc salsa_step ([], s0) (L, s).

Context (Hco : conf_ok c gc cc) (Hfl : flags_ok cc).

(** ** The controller's calls *)

Lemma wp_provision_add len reloc U w L s (Q : bool -> scm -> Prop) :
  inv_used w L U s -> 0 <= U + len < 2 ^ 64 ->
  (forall s', inv_used w L (U + len) s' ->
     Q (negb ((if reloc : bool then max_capacity_reloc cc else max_capacity cc) <? U + len)) s') ->
  wp (provision_add cc len reloc) Q s.
Proof.
  intros [[[] ? ? ?] Hu] Hlen HQ. unfold provision_add. do 2 wp_step. rewrite Hu.
  rewrite wrap_small by done. apply wp_bind, wp_writes, wp_ret, HQ. split; [|done]. by split.
Qed.

Lemma wp_unprovision len U w L s (Q : unit -> scm -> Prop) :
  inv_used w L U s -> 0 <= U - len < 2 ^ 64 ->
  (forall s', inv_used w L (U - len) s' -> Q tt s') -> wp (unprovision_grains len) Q s.
Proof.
  intros [[[] ? ? ?] Hu] Hlen HQ. unfold unprovision_grains. do 3 wp_step. apply HQ.
  rewrite Hu, wrap_small by done. split; [|done]. by split.
Qed.

Lemma wp_provision len reloc w L s (Q : Z -> scm -> Prop) :
  inv w L s -> 0 <= len < 2 ^ 32 ->
  (forall s', inv_used w L (live_total L + len) s' ->
     live_total L + len <= (if reloc : bool then max_capacity_reloc cc else max_capacity cc) ->
     Q 0 s') ->
  (forall rc s', inv w L s' ->
     rc = EAGAIN \/
     rc = ENOSPC /\ (if reloc then max_capacity_reloc cc else max_capacity cc) < live_total L + len ->
     Q rc s') ->
  wp (provision_grains c ctlrs cc len reloc) Q s.
Proof.
  intros Hinv Hlen H0 HE. unfold provision_grains. do 2 wp_step.
  destruct (_ && _); [apply wp_ret; by eapply HE; [|left]|].
  pose proof (live_total_bound c gc cc Hco _ _ _ _ Hinv) as Hb. pose proof (co_nr _ _ _ Hco).
  apply wp_bind. eapply wp_provision_add; [exact Hinv|lia|]. intros s1 Hinv1.
  destruct (Z.ltb_spec (if reloc then max_capacity_reloc cc else max_capacity cc) (live_total L + len));
    cbn [negb]; [|by apply wp_ret, H0].
  apply wp_bind. eapply wp_unprovision; [exact Hinv1|lia|]. intros s2 Hinv2. apply wp_ret.
  apply HE; [|by right]. unfold SalsaInv.inv.
  by replace (live_total L) with (live_total L + len - len) by lia.
Qed.

(** Allocation, whatever the request: it returns; a refusal changes nothing that
    users hold; a success enters the range. *)
Lemma wp_allocate_no_wait fuel len stream reloc w L s (Q : Z * Z -> scm -> Prop) :
  inv w L s -> 0 < len < 2 ^ 32 ->
  (forall g s' w', inv w' (mkRange g len true true :: L) s' -> held_same w w' ->
     len + reserved <= size ->
     live_total L + len <= (if reloc : bool then max_capacity_reloc cc else max_capacity cc) ->
     Q (0, g) s') ->
  (forall rc s' w', inv w' L s' -> held_same w w' ->
     (rc = EINVAL /\ size < len + reserved) \/ rc = EAGAIN \/
     rc = ENOSPC /\ (if reloc then max_capacity_reloc cc else max_capacity cc) < live_total L + len ->
     Q (rc, SALSA_INVAL_GRAIN) s') ->
  wp (allocate_grains_no_wait c ctlrs cc (S fuel) len stream reloc) Q s.
Proof.
  intros Hinv Hlen H0 HE. destruct (co_size _ _ _ Hco). destruct (co_res _ _ _ Hco).
  unfold allocate_grains_no_wait. rewrite wrap_small by (unfold in_width; lia).
  destruct (Z.ltb_spec size (len + reserved)) as [Hbig|Hfit].
  { apply wp_ret. eapply HE; [done|done|]. left. done. }
  apply wp_bind. eapply wp_provision; [exact Hinv|lia| |].
  2:{ intros rc s1 Hinv1 Hrc. assert (rc <> 0) by (destruct Hrc as [->|[-> _]]; done).
      rewrite (proj2 (Z.eqb_neq rc 0)) by done. apply wp_ret. eapply HE; [done|done|tauto]. }
  intros s1 Hinv1 Hcap. cbn [Z.eqb negb]. apply wp_bind.
  pose proof (live_total_bound c gc cc Hco _ _ _ _ Hinv) as Hb. pose proof (co_nr _ _ _ Hco).
  eapply (wp_allocate_grains c gc cc Hco Hfl); [exact Hinv1|lia|lia| |].
  - intros g s2 (w2 & Hinv2 & Hh2) Hg. rewrite (proj2 (Z.eqb_neq _ _) Hg). apply wp_ret.
    eapply H0; [|done|lia|done]. unfold SalsaInv.inv. cbn [live_total r_live r_len].
    by rewrite Z.add_comm.
  - intros s2 w2 Hinv2 Hh2. rewrite Z.eqb_refl. apply wp_bind.
    eapply wp_unprovision; [exact Hinv2|lia|]. intros s3 Hinv3. apply wp_ret.
    eapply HE; [|done|tauto]. unfold SalsaInv.inv.
    by replace (live_total L) with (live_total L + len - len) by lia.
Qed.

Lemma wp_release_grains stream reloc w L L0 e s (Q : unit -> scm -> Prop) :
  inv w L s -> L ≡ₚ e :: L0 -> r_pend e = true ->
  (forall s' w', inv w' (released e ++ L0) s' -> held_same w w' -> Q tt s') ->
  wp (release_grains c cc (r_grain e) (r_len e) stream reloc) Q s.
Proof.
  intros Hinv Hp Hpend HQ. unfold release_grains.
  eapply (wp_release c gc cc Hco); [exact Hinv|done|done|]. intros s' w' Hinv' Hh.
  eapply HQ; [|done]. unfold SalsaInv.inv. rewrite live_total_released.
  by rewrite <- (live_total_perm _ _ Hp).
Qed.

Lemma wp_invalidate_grains reloc w L L0 e s (Q : unit -> scm -> Prop) :
  inv w L s -> L ≡ₚ e :: L0 -> r_live e = true ->
  (forall s' w', inv w' (invalidated e ++ L0) s' -> held_same w w' -> Q tt s') ->
  wp (invalidate_grains c gc (r_grain e) (r_len e) reloc) Q s.
Proof.
  intros Hinv Hp Hl HQ. destruct (co_size _ _ _ Hco). destruct (co_res _ _ _ Hco).
  assert (ledger_ok c cc (e :: L0)) as HL.
  { eapply ledger_ok_perm; [exact Hp|]. by destruct Hinv as [[] _]. }
  assert (range_ok c cc e) as He by (by destruct HL as [[? _]%Forall_cons_iff _]).
  destruct (range_segment c gc cc Hco e He) as [i Hseg].
  pose proof (proj1 (in_seg_segment c gc cc Hco i e He) Hseg) as [Hin Hi].
  pose proof (live_total_bound c gc cc Hco _ _ _ _ Hinv) as Hb. pose proof (co_nr _ _ _ Hco).
  assert (0 < r_len e < 2 ^ 32) as Hlen.
  { destruct He as [He1 He2 He3 He4 _]. pose proof (Z.mod_pos_bound (r_grain e) size). lia. }
  pose proof (live_total_invalidated e L0 Hl) as Htot.
  assert (forall w' s', inv_used w' (invalidated e ++ L0) (live_total L) s' -> held_same w w' ->
            wp (unprovision_grains (r_len e)) Q s') as Hend.
  { intros w' s' Hinv' Hh. rewrite (live_total_perm _ _ Hp) in Hinv'.
    pose proof (live_total_bound c gc cc Hco _ _ _ _ Hinv') as Hb'.
    eapply wp_unprovision; [exact Hinv'|lia|]. intros s'' Hinv''. eapply HQ; [|done].
    unfold SalsaInv.inv. by rewrite Htot. }
  unfold invalidate_grains, scm_invalidate_grains. apply wp_bind. eapply wp_lifto; [exact Hseg|].
  rewrite wrap_small by (unfold in_width; lia). apply wp_bind. destruct reloc; cbn [negb].
  - eapply (wp_page_invalidate_reloc c gc cc Hco); [exact Hinv|exact Hp|done|done|done|].
    intros s1 Hinv1. by eapply Hend.
  - eapply (wp_page_invalidate c gc cc Hco); [exact Hinv|exact Hp|done|done|done|].
    intros s1 w1 Hinv1 Hh1. by eapply Hend.
Qed.

(** ** Every step keeps the invariant *)

Lemma keeps_run {A} (m : scmm A) w L s a s' :
  keeps c gc cc m -> inv w L s -> m s = Some (a, s') -> exists w', inv w' L s'.
Proof.
  intros Hk Hinv E. destruct (wp_run _ _ _ _ _ (Hk _ _ _ _ Hinv) E) as (w' & Hinv' & _).
  by exists w'.
Qed.

(** The collector's segments are the ones in no state of their own. *)
Lemma invalid_held w L U s i :
  inv_used w L U s -> (i < seg_nr c)%nat -> seg_state (segs s i) = SEG_INVALID -> w i = Held.
Proof.
  intros Hinv Hi Hst. destruct (inv_at_seg _ _ _ _ _ _ _ _ Hinv Hi) as [_ [_ Hx]].
  destruct (w i) as [[q|q|b|lv|a|a]| | | |]; try done; try (destruct Hx as [[] _]; congruence);
    destruct Hx; congruence.
Qed.

(** A round of the collector moves segments between its lists and its hands. *)
Definition gc_moved (w w' : nat -> where_is) : Prop :=
  forall i x, x = Taken \/ x = Done -> w i = x <-> w' i = x.

Lemma held_same_gc w w' : held_same w w' -> gc_moved w w'.
Proof. intros Hh i x [->| ->]; by apply Hh. Qed.

Lemma moved_gc w i x w' :
  moved w i x w' -> w i <> Taken -> w i <> Done -> x <> Taken -> x <> Done -> gc_moved w w'.
Proof.
  intros [H1 H2] ? ? ? ? j y Hy. destruct (decide (j = i)) as [->|]; [|by rewrite H2].
  rewrite H1. destruct Hy as [->| ->]; done.
Qed.

Lemma wp_gc_select w L U s :
  inv_used w L U s ->
  wp gc_select (fun _ s' => exists w', inv_used w' L U s' /\ gc_moved w w') s.
Proof.
  intros Hinv. unfold gc_select. apply wp_bind.
  assert (forall i b s', (i < seg_nr c)%nat -> w i = At (Fifo b) -> inv_used (fupd w i Held) L U s' ->
            wp (gc_seg_selected c i;; mret (Some i))
               (fun _ s' => exists w', inv_used w' L U s' /\ gc_moved w w') s') as Hsel.
  { intros i b s' Hi Hw Hinv'. apply wp_bind. eapply (wp_seg_selected c gc cc Hco); [exact Hinv'|done|].
    intros s'' Hinv''. apply wp_ret. eexists. split; [exact Hinv''|].
    eapply moved_gc; [apply moved_fupd|congruence..|done|done]. }
  destruct (decide _).
  - eapply wp_first_of_bins_down; [exact Hinv|exact Hsel|]. apply wp_ret. by exists w.
  - eapply wp_first_of_bins; [exact Hinv|exact Hsel|]. apply wp_ret. by exists w.
Qed.

Lemma wp_gc_free i bin w L U s :
  inv_used w L U s -> (i < seg_nr c)%nat -> seg_state (segs s i) = SEG_INVALID ->
  valid_nr (segs s i) = 0 ->
  wp (seg_relocated c i bin) (fun _ s' => exists w', inv_used w' L U s' /\ gc_moved w w') s.
Proof.
  intros Hinv Hi Hst Hv. pose proof (invalid_held w L U s i Hinv Hi Hst) as Hw.
  destruct (inv_at_seg _ _ _ _ _ _ _ i Hinv Hi) as [_ [_ Hx]]. rewrite Hw in Hx.
  destruct Hx as (_ & Hval & _).
  eapply (wp_relocated c gc cc Hco); [exact Hinv|done|done|congruence|].
  intros s' w' p Hinv' Hmv. exists w'. split; [done|]. eapply moved_gc; [exact Hmv|congruence..|done|done].
Qed.

Lemma wp_gc_put_back i w L U s :
  inv_used w L U s -> (i < seg_nr c)%nat -> seg_state (segs s i) = SEG_INVALID ->
  wp (gc_put_back i) (fun _ s' => exists w', inv_used w' L U s' /\ gc_moved w w') s.
Proof.
  intros Hinv Hi Hst. pose proof (invalid_held w L U s i Hinv Hi Hst) as Hw.
  assert (forall s' w' p, inv_used w' L U s' -> moved w i (At p) w' ->
            exists w'', inv_used w'' L U s' /\ gc_moved w w'') as Hdone.
  { intros s' w' p Hinv' Hmv. exists w'. split; [done|].
    eapply moved_gc; [exact Hmv|congruence..|done|done]. }
  unfold gc_put_back. destruct (decide _) as [Ht|].
  - by eapply (wp_return_failed_3bin c gc cc Hco).
  - by eapply (wp_return_failed c gc cc Hco).
Qed.

Lemma step_inv x y :
  salsa_step x y -> forall w, inv w (fst x) (snd x) -> exists w', inv w' (fst y) (snd y).
Proof.
  intros Hstep w. destruct Hstep as
    [L s len stream reloc rc g s' Hlen E|L L0 e s stream reloc s' Hp He E|L L0 e s reloc s' Hp He E
    |L s stream reloc n s' E|L s a s' E|L s o s' E|L s i bin s' Hi Hst Hv E|L s i s' Hi Hst E
    |L s s' Ht E|L s s' Ht E]; cbn [fst snd]; intros Hinv.
  - refine (wp_run _ (fun r s' => exists w', inv w' (alloc_result L len (fst r) (snd r)) s') _ _ _ _ E).
    eapply (wp_allocate_no_wait 0); [exact Hinv|done|..].
    + intros g' s'' w' Hinv' _ _ _. by exists w'.
    + intros rc' s'' w' Hinv' _ Hrc. exists w'. unfold alloc_result. cbn [fst snd].
      destruct Hrc as [[-> _]|[->|[-> _]]]; done.
  - refine (wp_run _ (fun _ s' => exists w', inv w' (released e ++ L0) s') _ _ _ _ E).
    eapply wp_release_grains; [exact Hinv|done|done|]. intros. by eexists.
  - refine (wp_run _ (fun _ s' => exists w', inv w' (invalidated e ++ L0) s') _ _ _ _ E).
    eapply wp_invalidate_grains; [exact Hinv|done|done|]. intros. by eexists.
  - eapply keeps_run; [by apply (keeps_drain c gc cc Hco)|done|exact E].
  - eapply keeps_run; [by apply (keeps_allocator_thread c gc cc Hco)|done|exact E].
  - by destruct (wp_run _ _ _ _ _ (wp_gc_select w L _ s Hinv) E) as (w' & ? & _); exists w'.
  - by destruct (wp_run _ _ _ _ _ (wp_gc_free i bin w L _ s Hinv Hi Hst Hv) E) as (w' & ? & _); exists w'.
  - by destruct (wp_run _ _ _ _ _ (wp_gc_put_back i w L _ s Hinv Hi Hst) E) as (w' & ? & _); exists w'.
  - eapply keeps_run; [by apply (keeps_xnp_try_pop_one c gc cc Hco)|done|exact E].
  - eapply keeps_run; [apply (keeps_update_segs c gc cc Hco); congruence|done|exact E].
Qed.

Lemma reachable_inv s0 w0 L s :
  inv w0 [] s0 -> reachable s0 L s -> exists w, inv w L s.
Proof.
  intros Hinit Hr.
  assert (forall x y, rtc salsa_step x y -> (exists w, inv w (fst x) (snd x)) ->
            exists w, inv w (fst y) (snd y)) as Hall.
  { induction 1 as [|x y z Hst _ IH]; [done|]. intros [w Hw]. apply IH. by eapply step_inv. }
  apply (Hall _ _ Hr). by exists w0.
Qed.

End Run.
