(* ===== verification/SalsaInit.v ===== *)
(** * SalsaInit: setting up the segment queues
      (salsa/src/sto-ctlr/scm-seg-queues.c)

    The device is a sequence of ranges with a property each; its segments are
    spread over the queues whose property masks partition the properties.  The
    state this leaves satisfies the invariant of SalsaInv with an empty ledger. *)
From Stdlib Require Import ZArith Lia.
From stdpp Require Import base tactics list numbers.
From S2P Require Import Prelude StateM Throttle SalsaScm SalsaGc SalsaAlloc SalsaInv SalsaMoves.

Open Scope Z_scope.

Definition SCM_MAX_QUEUES : nat := 16.

Record dev_range := mkDevRange { r_bytes : Z; r_prop : Z; r_real_len : Z }.

(** The masks from [m] on; [m] collects the properties seen. *)
Fixpoint verify_masks_from (m : Z) (masks : list Z) : Z :=
  match masks with
  | [] => if m =? SCM_PROP_SET_ALL then 0 else - EINVAL
  | x :: masks' =>
      if negb (Z.land m x =? 0) then - EINVAL else verify_masks_from (Z.lor m x) masks'
  end.

Definition verify_masks (masks : list Z) : Z :=
  if (SCM_MAX_QUEUES <? length masks)%nat then - EINVAL else verify_masks_from 0 masks.

(** The state before: zeroed memory, every segment to be provisioned. *)
Definition zero_segment : segment := mkSegment 0 0 0 0 0 0 0 false 0 SEG_INVALID 0.
Definition scm_zero (c : scm_conf) : scm :=
  mkScm (const zero_segment) (const []) (const 0) (Z.of_nat (seg_nr c)) 0 scm_throttle_init 0 0 0 (const 0) (const 0) []
        (const false) 0 [].

Section Init.
Context (c : scm_conf).

Definition masks : list Z := map (q_prop_set c) (seq 0 (qs_nr c)).

(** The first queue with the property. *)
Definition scm_prop_find_queue (prop : Z) : option nat :=
  for_first (fun q => scm_prop_set_contains (q_prop_set c q) prop) 0 (qs_nr c).

(** Segments [base + rsi ..] of a range; [inserted] of them are queued so far. *)
Fixpoint fill_loop (base : nat) (nsegs d rel_rem : Z) (prop : Z) (q : nat)
    (rsi todo : nat) (inserted : Z) : scmm unit :=
  match todo with
  | O => mret tt
  | S todo' =>
      let i := (base + rsi)%nat in
      seg_upd i (segment_init (u32 (seg_size c)) prop q);;
      if negb (Z.of_nat rsi mod d =? 0)
      then fill_loop base nsegs d rel_rem prop q (S rsi) todo' inserted
      else if nsegs <=? inserted
      then fill_loop base nsegs d rel_rem prop q (S rsi) todo' (inserted + 1)
      else
        (if Z.of_nat rsi <? rel_rem
         then seg_upd i (segment_set_state SEG_FREE_REL);; cds_queue_base_enqueue_tail (QRelSegs q) i
         else seg_upd i (segment_set_state SEG_FREE);; cds_queue_base_enqueue_tail (QSegs q) i);;
        fill_loop base nsegs d rel_rem prop q (S rsi) todo' (inserted + 1)
  end.

Definition fill_queue (q base : nat) (nsegs nsegs_real prop : Z) : scmm unit :=
  rel_size ← cds_queue_base_size (QRelSegs q);
  fill_loop base nsegs (nsegs_real / nsegs) (u64 (SALSA_MIN_REL_SEGMENTS - rel_size)) prop q
            0 (Z.to_nat nsegs_real) 0.

(** The ranges from segment [s_idx] on. *)
Fixpoint init_ranges (bytes_per_segment : Z) (s_idx : nat) (ranges : list dev_range) : scmm unit :=
  match ranges with
  | [] => mret tt
  | r :: ranges' =>
      q ← lifto (scm_prop_find_queue (r_prop r));
      let nsegs := r_bytes r / bytes_per_segment in
      if nsegs =? 0 then init_ranges bytes_per_segment s_idx ranges'
      else
        let real := r_real_len r / bytes_per_segment in
        fill_queue q s_idx nsegs (if real <=? nsegs then nsegs else real) (r_prop r);;
        init_ranges bytes_per_segment (s_idx + Z.to_nat nsegs)%nat ranges'
  end.

Definition scm_seg_queues_init (grain_size : Z) (ranges : list dev_range) : scmm Z :=
  let err := verify_masks masks in
  if negb (err =? 0) then mret err
  else init_ranges (u64 (grain_size * seg_size c)) 0 ranges;; mret 0.

(** [q_nsegs_max] and [q_rel_nsegs_max], read off the filled queues. *)
Definition q_nsegs_max (s : scm) (q : nat) : Z := sizes s (QSegs q).
Definition q_rel_nsegs_max (s : scm) (q : nat) : Z := sizes s (QRelSegs q).

(** [scm_seg_queues_avail_props]: the queues of a property set that ever had
    segments, as a bit set. *)
Definition scm_seg_queues_avail_props (s0 : scm) (prop_set : Z) : Z :=
  foldl (fun m q => Z.lor m (Z.shiftl 1 (Z.of_nat q))) 0
    (filter (fun q => scm_prop_set_is_subset_of (q_prop_set c q) prop_set = true /\
                      q_nsegs_max s0 q + q_rel_nsegs_max s0 q <> 0) (seq 0 (qs_nr c))).

End Init.

(** The two configurations of [scm_seg_queues_init_conf]. *)
Definition masks_one : list Z := [Z.shiftl 1 SCM_PROP_LAST - 1].
Definition masks_all : list Z :=
  [Z.shiftl 1 SCM_PROP_NVRAM; Z.shiftl 1 SCM_PROP_FLASH; Z.shiftl 1 SCM_PROP_SMR_CONV;
   Z.shiftl 1 SCM_PROP_SMR_SEQ1; Z.shiftl 1 SCM_PROP_SMR_SEQ2].

(** ** The masks partition the properties *)

Lemma prop_contains m p : 0 <= p -> scm_prop_set_contains m p = Z.testbit m p.
Proof.
  intros Hp. unfold scm_prop_set_contains. rewrite Z.shiftl_1_l.
  destruct (Z.testbit m p) eqn:Ht.
  - apply negb_true_iff, Z.eqb_neq. intros H0.
    assert (Z.testbit (Z.land m (2 ^ p)) p = false) as H1 by (by rewrite H0, Z.bits_0).
    rewrite Z.land_spec, Ht, Z.pow2_bits_true in H1 by done. done.
  - apply negb_false_iff, Z.eqb_eq, Z.bits_inj'. intros n Hn.
    rewrite Z.land_spec, Z.bits_0. destruct (decide (n = p)) as [->|Hne]; [by rewrite Ht|].
    rewrite Z.pow2_bits_false by done. apply andb_false_r.
Qed.

Lemma all_bits p : 0 <= p -> Z.testbit SCM_PROP_SET_ALL p = (p <? SCM_PROP_LAST).
Proof.
  intros Hp. change SCM_PROP_SET_ALL with (Z.ones 5). unfold SCM_PROP_LAST.
  rewrite Z.testbit_ones by lia. by rewrite (proj2 (Z.leb_le 0 p) Hp).
Qed.

(** How many masks hold bit [p]. *)
Definition holders (p : Z) (l : list Z) : nat := length (filter (fun m => Z.testbit m p = true) l).

Lemma verify_masks_from_spec m l :
  verify_masks_from m l = 0 <->
  forall p, 0 <= p ->
    ((if Z.testbit m p then 1 else 0) + holders p l)%nat = if p <? SCM_PROP_LAST then 1%nat else 0%nat.
Proof.
  revert m. induction l as [|x l IH]; intros m; simpl.
  - unfold holders. simpl. destruct (Z.eqb_spec m SCM_PROP_SET_ALL) as [->|Hne].
    + split; [|done]. intros _ p Hp. rewrite all_bits by done. by destruct (_ <? _).
    + split; [done|]. intros Hall. exfalso. apply Hne. apply Z.bits_inj'. intros p Hp.
      rewrite all_bits by done. specialize (Hall p Hp).
      destruct (Z.testbit m p), (p <? SCM_PROP_LAST); done.
  - assert (forall p, holders p (x :: l) = ((if Z.testbit x p then 1 else 0) + holders p l)%nat) as Hh.
    { intros p. unfold holders. destruct (Z.testbit x p) eqn:Ht.
      - by rewrite filter_cons_True.
      - by rewrite filter_cons_False by congruence. }
    destruct (Z.eqb_spec (Z.land m x) 0) as [H0|H0]; simpl.
    + rewrite IH. split; intros Hall p Hp; specialize (Hall p Hp); rewrite ?Hh in *;
        rewrite Z.lor_spec in *;
        assert (Z.testbit m p && Z.testbit x p = false) as Hmx
          by (by rewrite <- Z.land_spec, H0, Z.bits_0);
        destruct (Z.testbit m p), (Z.testbit x p); simpl in *; done || lia.
    + split; [done|]. intros Hall. exfalso. apply H0. apply Z.bits_inj'. intros p Hp.
      rewrite Z.land_spec, Z.bits_0. specialize (Hall p Hp). rewrite Hh in Hall.
      destruct (Z.testbit m p), (Z.testbit x p); try done.
      destruct (p <? SCM_PROP_LAST); simpl in Hall; lia.
Qed.

(** [verify_masks] accepts a list of at most 16 masks exactly when the masks
    partition the properties: every property is in one mask and no mask names
    anything else. *)
Theorem verify_masks_partition l :
  verify_masks l = 0 <->
  (length l <= SCM_MAX_QUEUES)%nat /\
  forall p, 0 <= p -> holders p l = if p <? SCM_PROP_LAST then 1%nat else 0%nat.
Proof.
  unfold verify_masks. destruct (Nat.ltb_spec SCM_MAX_QUEUES (length l)) as [Hlt|Hge].
  - split; [done|]. intros [Hle _]. lia.
  - rewrite verify_masks_from_spec. setoid_rewrite Z.bits_0. simpl. naive_solver.
Qed.

(** ** The initial state *)

Section InitInv.
Context (c : scm_conf) (gc : gc_conf) (cc : ctlr_conf).
Context (Hco : conf_ok c gc cc).

(** On a free queue, or not queued yet. *)
Definition at_rest (x : where_is) : Prop :=
  x = Out \/ exists q, x = At (QSegs q) \/ x = At (QRelSegs q).

(** The segments below [n] are on the free queues, one per queue at most on its
    relocation queue; the others are on no list. *)
Definition filled (n : nat) (s : scm) : Prop :=
  exists w, inv_open c gc cc (fun j => (n <= j)%nat) w [] s /\
    (forall j, (n <= j)%nat -> w j = Out) /\ used_capacity s = 0 /\
    (forall q, sizes s (QRelSegs q) <= 1) /\ (forall j, at_rest (w j)).

Lemma filled_zero : filled 0 (scm_zero c).
Proof.
  exists (const Out). split_and!; try done; [|by left]. split; [|lia|by repeat split|apply throttle_init_ok].
  split; simpl; [constructor|done|]. intros p i. split; [by intros ?%elem_of_nil|].
  by intros [_ ?].
Qed.

Lemma filled_step n s s' sg (st : segment_state) p q :
  filled n s -> (n < seg_nr c)%nat -> (q < qs_nr c)%nat ->
  (st = SEG_FREE /\ p = QSegs q) \/ (st = SEG_FREE_REL /\ p = QRelSegs q /\ sizes s p = 0) ->
  segs s' n = sg -> (forall j, j <> n -> segs s' j = segs s j) ->
  seg_state sg = st -> queue_id sg = q -> stream sg = 0 -> valid_nr sg = seg_size c -> nr4 sg = 0 ->
  heads s' = fupd (heads s) p (heads s p ++ [n]) -> sizes s' = fupd (sizes s) p (sizes s p + 1) ->
  scmt s' = scmt s -> used_capacity s' = used_capacity s -> filled (S n) s'.
Proof.
  intros (w & [Hl Hs HL Ht] & Hw & Hu & Hrel & Hrest) Hn Hq Hst Hsegn Hsegs Hs1 Hs2 Hs3 Hs4 Hs5 Hh Hsz Hthr Huc.
  destruct (co_size _ _ _ Hco).
  exists (fupd w n (At p)). split_and!.
  - split; [|..|done|by rewrite Hthr].
    + eapply lists_add; [exact Hl|done|by rewrite Hw|rewrite Hh, fupd_same; by left| |
        by rewrite Hsz, fupd_same|]; intros p' Hp'; [rewrite Hh|rewrite Hsz]; by rewrite fupd_other.
    + intros j Hj Hlt. destruct (decide (j = n)) as [->|Hne].
      * rewrite fupd_same, Hsegn. split; [split; [congruence|lia..]|].
        destruct Hst as [[E ->]|(E & -> & _)]; rewrite <- E in *; by split_and!.
      * rewrite fupd_other, Hsegs by done. apply Hs; [done|lia].
  - intros j Hj. rewrite fupd_other by lia. apply Hw. lia.
  - congruence.
  - intros q'. rewrite Hsz. destruct (decide (QRelSegs q' = p)) as [<-|Hne].
    + rewrite fupd_same. destruct Hst as [[_ E]|(_ & _ & ->)]; [done|lia].
    + rewrite fupd_other by done. apply Hrel.
  - intros j. destruct (decide (j = n)) as [->|Hne]; [|by rewrite fupd_other].
    rewrite fupd_same. right. exists q. destruct Hst as [[_ ->]|(_ & -> & _)]; auto.
Qed.

Lemma init_size : s32 (u32 (seg_size c)) = seg_size c.
Proof. by eapply (size_u32 c gc cc). Qed.

Lemma wp_fill_loop base nsegs rel_rem prop q rsi todo s :
  filled (base + rsi) s -> (base + rsi + todo <= seg_nr c)%nat -> (q < qs_nr c)%nat ->
  Z.of_nat (rsi + todo) = nsegs -> rel_rem <= 1 ->
  (Z.of_nat rsi < rel_rem -> sizes s (QRelSegs q) = 0) ->
  wp (fill_loop c base nsegs 1 rel_rem prop q rsi todo (Z.of_nat rsi))
     (fun _ => filled (base + rsi + todo)) s.
Proof.
  revert rsi s. induction todo as [|todo IH]; intros rsi s Hf Hle Hq Hn Hrem Hrel.
  { apply wp_ret. by rewrite Nat.add_0_r. }
  cbn [fill_loop]. apply wp_bind, wp_writes. rewrite Z.mod_1_r. cbn [Z.eqb negb].
  rewrite (proj2 (Z.leb_gt nsegs (Z.of_nat rsi))) by lia.
  replace (Z.of_nat rsi + 1) with (Z.of_nat (S rsi)) by lia.
  replace (base + rsi + S todo)%nat with (base + S rsi + todo)%nat by lia.
  pose proof init_size as Hsz. apply wp_bind.
  assert (forall st p, (st = SEG_FREE /\ p = QSegs q) \/
             (st = SEG_FREE_REL /\ p = QRelSegs q /\ sizes s p = 0) ->
           (forall s', filled (base + S rsi) s' ->
              (Z.of_nat (S rsi) < rel_rem -> sizes s' (QRelSegs q) = 0) ->
              wp (fill_loop c base nsegs 1 rel_rem prop q (S rsi) todo (Z.of_nat (S rsi)))
                 (fun _ => filled (base + S rsi + todo)) s') ->
           wp (seg_upd (base + rsi) (segment_set_state st);; cds_queue_base_enqueue_tail p (base + rsi))
              (fun _ => wp (fill_loop c base nsegs 1 rel_rem prop q (S rsi) todo (Z.of_nat (S rsi)))
                           (fun _ => filled (base + S rsi + todo)))
              (set_segs (fupd (segs s) (base + rsi)%nat
                 (segment_init (u32 (seg_size c)) prop q (segs s (base + rsi)%nat))) s)) as Hput.
  { intros st p Hst Hk. apply wp_bind, wp_writes. unfold cds_queue_base_enqueue_tail. wp_steps.
    apply Hk; [|lia]. replace (base + S rsi)%nat with (S (base + rsi)) by lia.
    eapply (filled_step (base + rsi) s _ _ st p q); try done; try lia; cbn [segs set_segs size_add set_lists cds_list_add_tail].
    1: { intros j Hj. by rewrite !fupd_other. }
    all: rewrite !fupd_same; cbn. all: done || lia. }
  destruct (Z.ltb_spec (Z.of_nat rsi) rel_rem) as [Hlt|Hge].
  - apply Hput; [right; split_and!; try done; by apply Hrel|]. intros s' Hf' Hr'. apply IH; done || lia.
  - apply Hput; [by left|]. intros s' Hf' Hr'. apply IH; done || lia.
Qed.

(** The number of segments of a list of ranges. *)
Definition nsegs_of (bps : Z) (ranges : list dev_range) : nat :=
  list_sum (map (fun r => Z.to_nat (r_bytes r / bps)) ranges).

(** A range without the [r_real_len_] override, of a property a queue serves. *)
Definition plain_range (bps : Z) (r : dev_range) : Prop :=
  0 <= r_bytes r /\ r_real_len r / bps <= r_bytes r / bps /\
  0 <= r_prop r < SCM_PROP_LAST.

Lemma find_queue_partition prop :
  verify_masks (masks c) = 0 -> 0 <= prop < SCM_PROP_LAST ->
  exists q, scm_prop_find_queue c prop = Some q /\ (q < qs_nr c)%nat.
Proof.
  unfold verify_masks. destruct (_ <? _)%nat; [done|]. rewrite verify_masks_from_spec.
  intros Hall Hp. specialize (Hall prop ltac:(lia)). rewrite Z.bits_0 in Hall. simpl in Hall.
  rewrite (proj2 (Z.ltb_lt _ _)) in Hall by lia.
  destruct (scm_prop_find_queue c prop) as [q|] eqn:Hq.
  { exists q. split; [done|]. apply for_first_Some in Hq. lia. }
  exfalso. unfold scm_prop_find_queue in Hq. rewrite for_first_None in Hq.
  unfold holders in Hall. rewrite filter_none in Hall; [done|].
  intros m Hm Ht. unfold masks in Hm. apply list_elem_of_fmap in Hm as (q & -> & Hin).
  apply elem_of_seq in Hin. specialize (Hq q ltac:(lia)).
  rewrite prop_contains in Hq by lia. congruence.
Qed.

Lemma wp_init_ranges bps base ranges s :
  verify_masks (masks c) = 0 -> 0 < bps -> Forall (plain_range bps) ranges ->
  filled base s -> (base + nsegs_of bps ranges <= seg_nr c)%nat ->
  wp (init_ranges c bps base ranges) (fun _ => filled (base + nsegs_of bps ranges)) s.
Proof.
  intros Hm Hb Hpl. revert base s. induction Hpl as [|r ranges (Hr1 & Hr2 & Hr3) _ IH]; intros base s Hf Hle.
  { apply wp_ret. simpl. by rewrite Nat.add_0_r. }
  cbn [init_ranges]. destruct (find_queue_partition (r_prop r) Hm Hr3) as (q & Hq & Hqn).
  apply wp_bind. eapply wp_lifto; [exact Hq|].
  unfold nsegs_of in *. cbn [map list_sum foldr] in *. fold (list_sum (map (fun r => Z.to_nat (r_bytes r / bps)) ranges)) in *.
  pose proof (Z.div_pos (r_bytes r) bps Hr1 Hb) as Hnn.
  destruct (Z.eqb_spec (r_bytes r / bps) 0) as [Hz|Hnz].
  { rewrite Hz in *. apply IH; [done|]. simpl in *. lia. }
  rewrite (proj2 (Z.leb_le _ _) Hr2). apply wp_bind. unfold fill_queue, cds_queue_base_size.
  do 2 wp_step. rewrite Z.div_same by done.
  set (n := Z.to_nat (r_bytes r / bps)) in *.
  destruct Hf as (w & Hio & Hw & Hu & Hrel & Hrest).
  assert (0 <= sizes s (QRelSegs q) <= 1) as Hsz.
  { split; [|apply Hrel]. destruct Hio as [[_ Hs _] _ _ _]. rewrite Hs. lia. }
  eapply wp_mono; [eapply (wp_fill_loop base (r_bytes r / bps) _ _ _ 0)|].
  - rewrite Nat.add_0_r. by exists w.
  - lia.
  - done.
  - simpl. lia.
  - unfold SALSA_MIN_REL_SEGMENTS. rewrite wrap_small by (unfold in_width; lia). lia.
  - unfold SALSA_MIN_REL_SEGMENTS. rewrite wrap_small by (unfold in_width; lia). lia.
  - intros [] s' Hf'. rewrite Nat.add_0_r in Hf'. rewrite Nat.add_assoc. apply IH; [done|lia].
Qed.

(** A device whose segments are all in plain ranges, and the state its set-up
    leaves. *)
Record device_ok (grain_size : Z) (ranges : list dev_range) : Prop := {
  dv_masks : verify_masks (masks c) = 0;
  dv_grain : 0 < grain_size < 2 ^ 32;
  dv_ranges : Forall (plain_range (grain_size * seg_size c)) ranges;
  dv_nsegs : nsegs_of (grain_size * seg_size c) ranges = seg_nr c
}.

Lemma wp_init grain_size ranges :
  device_ok grain_size ranges ->
  wp (scm_seg_queues_init c grain_size ranges)
     (fun rc s => rc = 0 /\ exists w, inv c gc cc w [] s /\ forall j, at_rest (w j)) (scm_zero c).
Proof.
  intros [Hm Hg Hpl Hn]. destruct (co_size _ _ _ Hco).
  unfold scm_seg_queues_init. rewrite Hm. cbn [Z.eqb negb].
  rewrite wrap_small by (unfold in_width; nia). apply wp_bind.
  eapply wp_mono; [apply wp_init_ranges; [done|nia|done|apply filled_zero|lia]|].
  intros [] s' (w & [Hl Hs HL Ht] & Hw & Hu & _ & Hrest). rewrite Nat.add_0_l, Hn in *.
  apply wp_ret. split; [done|]. exists w. split; [|done]. split; [|done]. split; try done.
  intros i Hi _. apply Hs; lia.
Qed.

End InitInv.
