(* ===== verification/SalsaTheorems.v ===== *)
(** * SalsaTheorems: what users of SALSA rely on

    Stated for every state that a device set up by [scm_seg_queues_init] reaches
    by whole calls, one after the other in any order (SalsaRun): the grains a call hands out,
    the accounting of segments, bins and capacity, the refusals, the rounds of
    the collector. *)
From Stdlib Require Import ZArith Lia.
From stdpp Require Import base tactics list numbers relations.
From S2P Require Import Prelude StateM Throttle SalsaScm SalsaGc SalsaAlloc SalsaInv SalsaMoves.
From S2P Require Import SalsaInval SalsaSafe SalsaRun SalsaInit.

Open Scope Z_scope.

(** A device set up without errors, and a state it has come to with the ledger
    [L]. *)
Record running (c : scm_conf) (gc : gc_conf) (ctlrs : ctl_table) (cc : ctlr_conf)
    (L : ledger) (s : scm) : Prop := {
  rn_conf : conf_ok c gc cc;
  rn_flags : flags_ok cc;
  rn_reach : exists grain_size ranges s0,
    device_ok c grain_size ranges /\
    scm_seg_queues_init c grain_size ranges (scm_zero c) = Some (0, s0) /\
    reachable c gc ctlrs cc s0 L s
}.

(** The bin a collector destages a segment of [v] valid grains to. *)
Definition bin_of (c : scm_conf) (gc : gc_conf) (v : Z) : Z :=
  match gc_ty gc with
  | GC_SALSA_3BIN => salsa_3bin c v
  | GC_NBIN_XNP_OVRW_HEAT_SEG => gc_salsa_n_seg2bin c gc v
  | GC_NBIN_DYN_THRESHOLD => seg2bin gc v
  | _ => v / bin_div gc
  end.

Section Running.
Context (c : scm_conf) (gc : gc_conf) (ctlrs : ctl_table) (cc : ctlr_conf).

Lemma running_inv L s : running c gc ctlrs cc L s -> exists w, inv c gc cc w L s.
Proof.
  intros [Hco Hfl (gs & rs & s0 & Hd & Hb & Hr)].
  destruct (wp_run _ _ _ _ _ (wp_init c gc cc Hco _ _ Hd) Hb) as (_ & w & Hinv & _).
  exact (reachable_inv c gc ctlrs cc Hco Hfl s0 w L s Hinv Hr).
Qed.

(** A new range does not meet the others and lies in the data part of a segment. *)
Lemma granted_fresh w r L s :
  inv c gc cc w (r :: L) s ->
  0 <= r_grain r /\ r_grain r / seg_size c < Z.of_nat (seg_nr c) /\
  r_grain r mod seg_size c + r_len r <= seg_size c - reserved_per_seg cc /\
  Forall (disj r) L.
Proof. intros [[_ _ [[[] _]%Forall_cons_iff [Hd _]] _] _]. done. Qed.

(** In any state a device reaches call by call, a request for grains returns, and
    the range of a granted one is new: it meets no range that a user still holds or
    still writes, and lies inside the data part of one segment, clear of the
    grains reserved for the segment's metadata.  A refused one reports [EINVAL],
    [EAGAIN] or [ENOSPC] with the invalid grain, and the capacity in use is as
    before. *)
Theorem allocate_call_fresh L s len stream reloc :
  running c gc ctlrs cc L s -> 0 < len < 2 ^ 32 ->
  exists rc g s', allocate_grains_no_wait c ctlrs cc 1 len stream reloc s = Some ((rc, g), s') /\
    ((rc = 0 /\ 0 <= g /\ g / seg_size c < Z.of_nat (seg_nr c) /\
      g mod seg_size c + len <= seg_size c - reserved_per_seg cc /\
      Forall (fun r => g + len <= r_grain r \/ r_grain r + r_len r <= g) L /\
      used_capacity s' = used_capacity s + len) \/
     (g = SALSA_INVAL_GRAIN /\ (rc = EINVAL \/ rc = EAGAIN \/ rc = ENOSPC) /\
      used_capacity s' = used_capacity s)).
Proof.
  intros Hr Hlen. destruct (running_inv _ _ Hr) as [w Hinv]. destruct Hr as [Hco Hfl _].
  enough (wp (allocate_grains_no_wait c ctlrs cc 1 len stream reloc) (fun r s' => 
    ((r.1 = 0 /\ 0 <= r.2 /\ r.2 / seg_size c < Z.of_nat (seg_nr c) /\
      r.2 mod seg_size c + len <= seg_size c - reserved_per_seg cc /\
      Forall (fun e => r.2 + len <= r_grain e \/ r_grain e + r_len e <= r.2) L /\
      used_capacity s' = used_capacity s + len) \/
     (r.2 = SALSA_INVAL_GRAIN /\ (r.1 = EINVAL \/ r.1 = EAGAIN \/ r.1 = ENOSPC) /\
      used_capacity s' = used_capacity s))) s) as ([rc g] & s' & E & HQ) by (by exists rc, g, s').
  pose proof Hinv as [_ Hu].
  eapply (wp_allocate_no_wait c gc ctlrs cc Hco Hfl 0); [exact Hinv|done| |].
  - intros g s' w' Hinv' _ _ _. left. pose proof (granted_fresh _ _ _ _ Hinv') as (H1 & H2 & H3 & H4).
    split_and!; try done. destruct Hinv' as [_ ->]. rewrite Hu. simpl. lia.
  - intros rc s' w' [_ Hu'] _ Hrc. right. simpl. split_and!; [done|tauto|congruence].
Qed.

Lemma place_unique w s p q i : lists_ok c w s -> i ∈ heads s p -> i ∈ heads s q -> p = q.
Proof. intros [_ _ Hm] [_ Hp]%Hm [_ Hq]%Hm. congruence. Qed.

Lemma segment_at w L s p i :
  inv c gc cc w L s -> i ∈ heads s p -> seg_ok c gc cc (At p) i (segs s i) L.
Proof.
  intros [[[_ _ Hm] Hs _ _] _] [Hi Hw]%Hm. rewrite <- Hw. by apply Hs; [|intros []].
Qed.



(** C34: What a refused request reports, and that nothing changes: a range that
    does not fit a segment is [EINVAL]; a user's request while some controller has
    one free segment left is [EAGAIN]; beyond the controller's capacity it is
    [ENOSPC]; any other request is granted or gets [EAGAIN]. *)
Theorem allocate_refusals L s len stream reloc :
  running c gc ctlrs cc L s -> 0 < len < 2 ^ 32 ->
  let run := allocate_grains_no_wait c ctlrs cc 1 len stream reloc s in
  let critical := negb reloc && gc_check_critical c ctlrs s in
  let max := if (reloc : bool) then max_capacity_reloc cc else max_capacity cc in
  if seg_size c <? len + reserved_per_seg cc then run = Some ((EINVAL, SALSA_INVAL_GRAIN), s)
  else if critical then run = Some ((EAGAIN, SALSA_INVAL_GRAIN), s)
  else if max <? used_capacity s + len then run = Some ((ENOSPC, SALSA_INVAL_GRAIN), s)
  else exists rc g s', run = Some ((rc, g), s') /\ (rc = 0 \/ rc = EAGAIN).
Proof.
  intros Hr Hlen. destruct (running_inv _ _ Hr) as [w Hinv]. destruct Hr as [Hco Hfl _].
  destruct (co_size _ _ _ Hco). destruct (co_res _ _ _ Hco). pose proof (co_nr _ _ _ Hco).
  pose proof (live_total_bound c gc cc Hco _ _ _ _ Hinv) as Hb. pose proof Hinv as [_ Hu].
  assert (u64 (len + reserved_per_seg cc) = len + reserved_per_seg cc) as Hw1
    by (apply wrap_small; unfold in_width; lia).
  assert (u64 (used_capacity s + len) = used_capacity s + len) as Hw2
    by (apply wrap_small; unfold in_width; lia).
  cbv zeta. destruct (_ <? _) eqn:Hfit; [|destruct (negb reloc && _) eqn:Hcrit; [|destruct (_ <? used_capacity s + len) eqn:Hcap]].
  - unfold allocate_grains_no_wait. by rewrite Hw1, Hfit.
  - unfold allocate_grains_no_wait, provision_grains. rewrite Hw1, Hfit.
    cbv [mbind stm_bind reads]. by rewrite Hcrit.
  - unfold allocate_grains_no_wait, provision_grains, provision_add, unprovision_grains.
    rewrite Hw1, Hfit. cbv [mbind stm_bind reads writes mret stm_ret]. rewrite Hcrit, Hw2, Hcap.
    cbn [used_capacity set_used_capacity Z.eqb negb]. do 2 f_equal.
    replace (used_capacity s + len - len) with (used_capacity s) by lia.
    rewrite wrap_small by (unfold in_width; lia). by destruct s.
  - apply Z.ltb_ge in Hfit. apply Z.ltb_ge in Hcap.
    enough (wp (allocate_grains_no_wait c ctlrs cc 1 len stream reloc)
              (fun r _ => r.1 = 0 \/ r.1 = EAGAIN) s) as ([rc g] & s' & E & HQ) by (by exists rc, g, s').
    eapply (wp_allocate_no_wait c gc ctlrs cc Hco Hfl 0); [exact Hinv|done|by left|].
    intros rc s' w' _ _ Hrc. rewrite Hu in Hcap. destruct Hrc as [[_ ?]|[?|[_ ?]]]; [lia|by right|lia].
Qed.

Lemma held_invalid w L s i :
  inv c gc cc w L s -> (i < seg_nr c)%nat -> w i = Held <-> seg_state (segs s i) = SEG_INVALID.
Proof.
  intros Hinv Hi. split; [|by apply (invalid_held c gc cc w L (live_total L) s)].
  intros Hw. destruct (inv_at_seg _ _ _ _ _ _ _ _ Hinv Hi) as [_ Hok]. rewrite Hw in Hok.
  by destruct Hok as (_ & ? & _).
Qed.

(** C21: A round of one of the seven collectors with bins (those of gc-nbin.c and
    the 3-bin one; not the greedy, the circular-buffer and the XNP_PATENT
    collectors) returns when the controller keeps its side: relocation keeps the
    accounting, leaves segments under relocation alone and reports success only when
    nothing live is left ([reloc_contract]; the store's own callback breaks this in
    the case of [gc_hole_strands]). The accounting holds afterwards, and no segment
    is stranded: those out of the collector's bins are the ones that were before. *)
Theorem gc_round_keeps L s fn exiting :
  running c gc ctlrs cc L s -> reloc_contract c gc cc fn ->
  exists s', gc_round c gc fn exiting s = Some (tt, s') /\
    (exists w' L', inv c gc cc w' L' s') /\
    forall i, (i < seg_nr c)%nat ->
      seg_state (segs s' i) = SEG_INVALID <-> seg_state (segs s i) = SEG_INVALID.
Proof.
  intros Hr Hfn. destruct (running_inv _ _ Hr) as [w Hinv]. destruct Hr as [Hco Hfl _].
  destruct (wp_gc_round c gc cc Hco fn Hfn exiting w L s Hinv) as ([] & s' & E & w' & L' & Hinv' & Hh).
  exists s'. split; [done|]. split; [by exists w', L'|]. intros i Hi.
  by rewrite <- (held_invalid w' L' s' i Hinv' Hi), <- (held_invalid w L s i Hinv Hi), (Hh i).
Qed.

End Running.

(** ** The bins of a configuration *)

Lemma bin_div_pos size n : 0 < size -> 0 < n -> 0 < gc_salsa_bin_div size n.
Proof.
  intros Hs Hn. unfold gc_salsa_bin_div. pose proof (Z.div_pos size n ltac:(lia) Hn).
  destruct (Z.eqb_spec (size mod n) 0) as [Hm|]; simpl; [|lia].
  pose proof (Z.div_mod size n). nia.
Qed.

Lemma bin_div_cover size n : 0 < size -> 0 < n -> size / gc_salsa_bin_div size n < n + 1.
Proof.
  intros Hs Hn. pose proof (bin_div_pos size n Hs Hn) as Hd.
  apply Z.div_lt_upper_bound; [done|]. unfold gc_salsa_bin_div in *.
  pose proof (Z.div_mod size n). pose proof (Z.mod_pos_bound size n Hn).
  destruct (Z.eqb_spec (size mod n) 0); simpl in *; nia.
Qed.

Lemma clip_bin_nr_range size n : 0 < size -> 0 < n -> 0 < clip_bin_nr size n <= 254.
Proof.
  intros Hs Hn. unfold clip_bin_nr, SALSA_MAX_PRIVATE_ID.
  destruct (_ || _) eqn:Hc; [lia|]. apply orb_false_iff in Hc as [_ ?%Z.ltb_ge]. lia.
Qed.

(** A configuration [gc_ctr] builds is one the other theorems are about. *)
Lemma gc_ctr_ok c cc p nr :
  0 < seg_size c < 2 ^ 31 -> Z.of_nat (seg_nr c) * seg_size c < 2 ^ 62 ->
  0 <= reserved_per_seg cc < seg_size c -> 0 < gp_bin_nr p ->
  conf_ok c (gc_ctr (seg_size c) nr p) cc.
Proof.
  intros Hs Hn Hr Hb. pose proof (clip_bin_nr_range (seg_size c) (gp_bin_nr p) ltac:(lia) Hb) as Hc.
  pose proof (bin_div_pos (seg_size c) _ ltac:(lia) (proj1 Hc)) as Hd.
  pose proof (bin_div_cover (seg_size c) _ ltac:(lia) (proj1 Hc)) as Hv.
  assert (forall pct, 2 <= xnp_threshold nr pct) as Ht.
  { intros pct. unfold xnp_threshold. cbv zeta. destruct (Z.ltb_spec 1 (u32 (u64 (u64 (nr - SALSA_MIN_REL_SEGMENTS - GC_STREAM_NR * 2) * pct) / 100))); lia. }
  unfold gc_ctr, gc_salsa_ctr. destruct (gp_gc p) eqn:Hty; split; cbn [gc_ty bin_nr bin_div xnp_levels xnp_thr]; try done; try lia;
    try (destruct (0 =? _); lia); intros l Hl; try (simpl in Hl; lia);
    rewrite (proj2 (Z.ltb_lt _ _) Hl); apply Ht.
Qed.

Lemma find_right_bin_mono gc v v' b n : v <= v' -> (find_right_bin gc v b n <= find_right_bin gc v' b n)%nat.
Proof.
  intros Hv. revert b. induction n as [|n IH]; intros b; simpl; [lia|].
  destruct (Z.ltb_spec v (threshold gc b)), (Z.ltb_spec v' (threshold gc b)); try lia; [|apply IH].
  pose proof (find_right_bin_bound gc v' (S b) n). lia.
Qed.

Section BinOf.
Context (c : scm_conf) (gc : gc_conf) (cc : ctlr_conf) (Hco : conf_ok c gc cc).

Lemma bin_of_bound v : 0 <= v <= seg_size c -> 0 <= bin_of c gc v < bin_nr gc.
Proof.
  intros Hv. unfold bin_of.
  destruct (gc_ty gc) eqn:E; try (apply (div_bin c gc cc Hco); [congruence|lia]).
  - by apply (salsa_3bin_bin c gc cc Hco).
  - apply (seg2bin_bin c gc cc Hco); [congruence|lia].
  - apply (dyn_bin c gc cc Hco).
Qed.

Lemma salsa_3bin_mono v v' : v <= v' -> salsa_3bin c v' <= salsa_3bin c v.
Proof.
  intros Hv. unfold salsa_3bin, GC_SALSA_LOW_QUEUE, GC_SALSA_MED_QUEUE, GC_SALSA_HIGH_QUEUE. cbv zeta.
  repeat match goal with |- context [?a <? ?b] => destruct (Z.ltb_spec a b) end; lia.
Qed.

Lemma seg2bin_mono v v' :
  gc_ty gc <> GC_SALSA_3BIN -> 0 <= v <= v' -> v' <= seg_size c ->
  gc_salsa_n_seg2bin c gc v <= gc_salsa_n_seg2bin c gc v'.
Proof.
  intros Ht Hv Hv'. pose proof (div_bin c gc cc Hco v Ht ltac:(lia)).
  pose proof (Z.div_le_mono v v' (bin_div gc) (co_div _ _ _ Hco) ltac:(lia)).
  unfold gc_salsa_n_seg2bin.
  destruct (Z.eqb_spec (seg_size c) v), (Z.eqb_spec (seg_size c) v'); lia.
Qed.

Lemma bin_of_mono v v' :
  gc_ty gc <> GC_SALSA_3BIN -> 0 <= v <= v' -> v' <= seg_size c -> bin_of c gc v <= bin_of c gc v'.
Proof.
  intros Ht Hv Hv'. pose proof (seg2bin_mono v v' Ht Hv Hv') as Hs2b.
  pose proof (Z.div_le_mono v v' (bin_div gc) (co_div _ _ _ Hco) ltac:(lia)) as Hdiv.
  unfold bin_of. destruct (gc_ty gc); try done. unfold seg2bin.
  apply Nat2Z.inj_le, find_right_bin_mono. lia.
Qed.

End BinOf.

(** C37: Whatever the collector's parameters, every number of valid grains has a
    bin, the bins' numbers fit the 8 bits of a segment's [priv], and the bins are
    in the order of the counts: for the 3BIN collector fewer valid grains never
    mean a lower bin, for all others they never mean a higher one. *)
Theorem bins_ordered c nr p v v' :
  0 < seg_size c < 2 ^ 31 -> Z.of_nat (seg_nr c) * seg_size c < 2 ^ 62 -> 0 < gp_bin_nr p ->
  0 <= v <= v' -> v' <= seg_size c ->
  let gc := gc_ctr (seg_size c) nr p in
  0 <= bin_of c gc v < bin_nr gc /\ bin_nr gc <= 255 /\
  if decide (gp_gc p = GC_SALSA_3BIN) then bin_of c gc v' <= bin_of c gc v
  else bin_of c gc v <= bin_of c gc v'.
Proof.
  intros Hs Hn Hb Hv Hv'. cbv zeta. set (gc := gc_ctr (seg_size c) nr p).
  set (cc := mkCtlrConf 0 0 1 0 (const (mkGfs false false true 0 0)) 0 0).
  assert (conf_ok c gc cc) as Hco by (apply gc_ctr_ok; simpl; lia).
  assert (gc_ty gc = gp_gc p) as Ht.
  { unfold gc, gc_ctr. by destruct (gc_salsa_ctr _ _ _) as [[[? ?] ?] ?]. }
  split; [apply (bin_of_bound c gc cc Hco); lia|]. split; [apply (co_bins _ _ _ Hco)|].
  rewrite <- Ht. destruct (decide _) as [E|E].
  - unfold bin_of. rewrite E. apply salsa_3bin_mono. lia.
  - by apply (bin_of_mono c gc cc Hco).
Qed.

(** ** Where the code falls short *)

Lemma wp_put_free_thin c i s (Q : unit -> scm -> Prop) :
  (forall s', thin_prov_segs s' = u64 (thin_prov_segs s + 1) -> Q tt s') ->
  wp (scm_put_free_seg c i true) Q s.
Proof.
  intros HQ. unfold scm_put_free_seg, scm_put_segs_thin_prov, cds_queue_base_size.
  apply wp_bind, wp_reads. apply wp_bind, wp_writes. do 2 wp_step. apply wp_bind.
  destruct (_ <? _); (apply wp_bind, wp_writes); unfold cds_queue_base_enqueue_tail; wp_steps;
    by apply HQ.
Qed.

(** A thin-provisioned request whose segment callback fails gives its unit of
    the thin-provisioning pool back twice: [scm_put_free_seg] returns it and the
    error path returns it again, so that every failure makes the pool larger. *)
Theorem thin_prov_reclaimed_twice c flags s i l :
  gf_thin_prov flags = true -> gf_reloc flags = false ->
  1 <= thin_prov_segs s < 2 ^ 64 - 1 -> (0 < qs_nr c)%nat ->
  scm_prop_set_is_subset_of (q_prop_set c 0) (prop_set_preferred flags) = true ->
  heads s (QSegs 0) = i :: l -> (i < seg_nr c)%nat -> dev_linear c = true -> seg_alloc_cb c i <> 0 ->
  exists s', scm_get_free_seg c flags s = Some ((seg_alloc_cb c i, None), s') /\
    thin_prov_segs s' = thin_prov_segs s + 1.
Proof.
  intros Hth Hre Hfree Hq Hsub Hh Hi Hlin Hcb.
  destruct (qs_nr c) as [|n] eqn:En; [lia|].
  enough (wp (scm_get_free_seg c flags) (fun r s' => r = (seg_alloc_cb c i, None) /\
            thin_prov_segs s' = thin_prov_segs s + 1) s) as (r & s' & E & -> & Ht) by (by exists s').
  unfold scm_get_free_seg, scm_get_free_queue, scm_seg_popped, scm_get_segs_thin_prov, scm_seg_queues_get_queue, fail_reclaim_thin,
    scm_put_segs_thin_prov.
  rewrite Hth, Hre, En, Hlin. cbn [andb find_queue]. rewrite Hsub.
  unfold cds_queue_base_is_empty, cds_queue_base_pop_head, free_place.
  wp_steps. rewrite (proj2 (Z.ltb_ge (thin_prov_segs s) 1)) by lia. wp_steps. cbn [Z.eqb negb heads set_thin_prov]. wp_steps. cbn [heads set_thin_prov].
  rewrite Hh. wp_steps. apply wp_bug_on; [done|]. cbn [Z.eqb negb].
  apply wp_bind, (wp_lifto _ (QSegs 0)); [done|]. wp_steps. cbn [heads set_thin_prov].
  rewrite Hh. wp_steps.
  apply wp_bug_on; [by rewrite (proj2 (Nat.ltb_lt _ _) Hi)|].
  rewrite (proj2 (Z.eqb_neq _ _) Hcb). apply wp_bind, wp_put_free_thin. intros s1 Hs1. wp_steps.
  split; [done|]. cbn [thin_prov_segs set_thin_prov size_add set_lists cds_list_del] in *.
  rewrite Hs1, Z.sub_add, (wrap_small 64 (thin_prov_segs s)) by (unfold in_width; lia).
  apply wrap_small. unfold in_width. lia.
Qed.

(** The 3BIN collector moves a segment between bins only when its number of
    free grains meets a threshold exactly: a segment of the low bin that loses
    several grains at once, past the high threshold, stays in the low bin and on
    its list, although a segment destaged with that count goes to the high one. *)
Theorem salsa_3bin_skips_threshold c gc s i n :
  let size := seg_size c in
  let v := valid_nr (segs s i) in
  0 < size < 2 ^ 31 -> 0 < n < v -> v <= size ->
  seg_state (segs s i) = SEG_GC -> priv (segs s i) = GC_SALSA_LOW_QUEUE ->
  HIGH_BIN_THRESHOLD size < size - (v - n) ->
  salsa_3bin c (v - n) = GC_SALSA_HIGH_QUEUE /\
  exists s', gc_salsa_page_invalidate c gc i n s = Some (tt, s') /\
    heads s' = heads s /\ priv (segs s' i) = GC_SALSA_LOW_QUEUE /\ valid_nr (segs s' i) = v - n.
Proof.
  cbv zeta. intros Hs Hn Hv Hst Hp Hth.
  assert (MED_BIN_THRESHOLD (seg_size c) <= HIGH_BIN_THRESHOLD (seg_size c)) as Hmh.
  { apply Z.div_le_mono; lia. }
  split.
  { unfold salsa_3bin. cbv zeta. rewrite !(proj2 (Z.ltb_ge _ _)) by lia. done. }
  assert (forall x, 0 <= x < 2 ^ 31 -> s32 x = x) as Hs32.
  { intros x Hx. apply s32_small. lia. }
  enough (wp (gc_salsa_page_invalidate c gc i n) (fun _ s' => heads s' = heads s /\
    priv (segs s' i) = GC_SALSA_LOW_QUEUE /\ valid_nr (segs s' i) = valid_nr (segs s i) - n) s)
    as ([] & s' & E & HQ) by (by exists s').
  unfold gc_salsa_page_invalidate, seg_putn, segment_putn. apply wp_bind, wp_bind, wp_reads.
  rewrite (proj2 (Z.ltb_ge _ _)) by (rewrite Hs32; lia).
  apply wp_bind. eapply wp_lifto; [done|]. apply wp_bind, wp_writes, wp_ret.
  cbn [valid_nr set_valid_nr]. rewrite Hs32 by lia. apply wp_bind, wp_reads.
  cbn [segs set_segs]. rewrite fupd_same. cbn [const seg_state set_valid_nr valid_nr priv].
  rewrite decide_True by done. rewrite (proj2 (Z.eqb_neq _ 0)) by lia.
  rewrite wrap_small by (unfold in_width; lia). rewrite !(proj2 (Z.eqb_neq _ _)) by lia.
  unfold rebin. apply wp_bind, wp_reads. cbn [segs set_segs]. rewrite fupd_same.
  cbn [const priv set_valid_nr]. rewrite Z.eqb_refl. apply wp_ret.
  cbn [segs set_segs heads]. rewrite fupd_same. done.
Qed.

(** ** A small device

    Four segments of eight 32-byte grains, one queue, the default collector; a
    controller with one user stream and one relocation stream that keeps a grain
    per segment for metadata. *)

Definition ex_conf : scm_conf := mkScmConf 4 8 1 (const SCM_PROP_SET_ALL) true (const 0).
Definition ex_params : gc_parameters := mkGcParams GC_NBIN_XNP_OVRW_HEAT_SEG 3 5 9 0 4.
Definition ex_gc : gc_conf := gc_ctr 8 4 ex_params.
Definition ex_cc : ctlr_conf :=
  mkCtlrConf 0 1 1 1 (fun a => mkGfs (a =? 1)%nat false true SCM_PROP_SET_ALL SCM_PROP_SET_ALL) 24 28.
Definition ex_ranges : list dev_range := [mkDevRange (4 * 8 * 32) SCM_PROP_FLASH 0].
Definition ex_s0 : scm := state_of (scm_seg_queues_init ex_conf 32 ex_ranges) (scm_zero ex_conf).
Local Abbreviation ex_alloc len := (allocate_grains_no_wait ex_conf [Some 1] ex_cc 1 len 0 false).
(** Two allocations from one segment; then both are released, and the
    allocator's thread hands the segment to the collector. *)
Definition ex_s1 : scm := state_of (ex_alloc 3) ex_s0.
Definition ex_s2 : scm := state_of (ex_alloc 4) ex_s1.
Definition ex_s3 : scm := state_of (release_grains ex_conf ex_cc 8 3 0 false) ex_s2.
Definition ex_s4 : scm := state_of (release_grains ex_conf ex_cc 11 4 0 false) ex_s3.
Definition ex_s5 : scm := state_of (lsa_allocator_thread ex_conf ex_gc 0) ex_s4.

Definition ex_L2 : ledger := [mkRange 11 4 true true; mkRange 8 3 true true].
Definition ex_L5 : ledger := [mkRange 11 4 true false; mkRange 8 3 true false].

Lemma ex_conf_ok : conf_ok ex_conf ex_gc ex_cc.
Proof. apply gc_ctr_ok; simpl; lia. Qed.

Lemma ex_device_ok : device_ok ex_conf 32 ex_ranges.
Proof.
  split; [reflexivity|lia| |reflexivity]. repeat constructor; simpl; unfold SCM_PROP_FLASH, SCM_PROP_LAST; try lia.
  by vm_compute.
Qed.

Ltac ex_run st m a s := unfold st; refine (run_state m a s _); vm_compute; reflexivity.

Lemma ex_reach2 : reachable ex_conf ex_gc [Some 1] ex_cc ex_s0 ex_L2 ex_s2.
Proof.
  eapply rtc_l; [|eapply rtc_l; [|apply rtc_refl]].
  - eapply (step_alloc _ _ _ _ [] ex_s0 3 0 false 0 8 ex_s1); [lia|]. ex_run ex_s1 (ex_alloc 3) (0, 8) ex_s0.
  - eapply (step_alloc _ _ _ _ _ ex_s1 4 0 false 0 11 ex_s2); [lia|]. ex_run ex_s2 (ex_alloc 4) (0, 11) ex_s1.
Qed.

Lemma ex_reach5 : reachable ex_conf ex_gc [Some 1] ex_cc ex_s0 ex_L5 ex_s5.
Proof.
  unfold reachable; etrans; [exact ex_reach2|]. unfold ex_L2.
  eapply rtc_l; [|eapply rtc_l; [|eapply rtc_l; [|apply rtc_refl]]].
  - eapply (step_release _ _ _ _ _ [mkRange 11 4 true true] (mkRange 8 3 true true) ex_s2 0 false ex_s3);
      [apply Permutation_swap|done|]. ex_run ex_s3 (release_grains ex_conf ex_cc 8 3 0 false) tt ex_s2.
  - eapply (step_release _ _ _ _ _ [mkRange 8 3 true false] (mkRange 11 4 true true) ex_s3 0 false ex_s4);
      [apply Permutation_swap|done|]. ex_run ex_s4 (release_grains ex_conf ex_cc 11 4 0 false) tt ex_s3.
  - eapply (step_destage _ _ _ _ _ ex_s4 0 ex_s5). ex_run ex_s5 (lsa_allocator_thread ex_conf ex_gc 0) tt ex_s4.
Qed.

Lemma ex_running L s :
  reachable ex_conf ex_gc [Some 1] ex_cc ex_s0 L s -> running ex_conf ex_gc [Some 1] ex_cc L s.
Proof.
  intros Hr. split; [exact ex_conf_ok|by split|].
  exists 32, ex_ranges, ex_s0. split; [exact ex_device_ok|]. split; [|done].
  ex_run ex_s0 (scm_seg_queues_init ex_conf 32 ex_ranges) 0 (scm_zero ex_conf).
Qed.

(** The next request is granted in the next segment. *)
Lemma allocate_call_fresh_witness :
  fst <$> ex_alloc 2 ex_s5 = Some (0, 16) /\
  exists rc g s', ex_alloc 2 ex_s5 = Some ((rc, g), s') /\
    (rc = 0 -> Forall (fun r => g + 2 <= r_grain r \/ r_grain r + r_len r <= g) ex_L5).
Proof.
  split; [vm_compute; reflexivity|].
  destruct (allocate_call_fresh ex_conf ex_gc [Some 1] ex_cc ex_L5 ex_s5 2 0 false
              (ex_running _ _ ex_reach5) ltac:(lia)) as (rc & g & s' & E & HQ).
  exists rc, g, s'. split; [exact E|]. intros H0.
  destruct HQ as [(_ & _ & _ & _ & HF & _)|(_ & Hrc & _)]; [exact HF|].
  exfalso. rewrite H0 in Hrc. destruct Hrc as [Hx|[Hx|Hx]]; discriminate Hx.
Defined.



(** Eight grains do not fit beside the metadata grain. *)
Lemma allocate_refusals_witness : ex_alloc 8 ex_s5 = Some ((EINVAL, SALSA_INVAL_GRAIN), ex_s5).
Proof.
  exact (allocate_refusals ex_conf ex_gc [Some 1] ex_cc ex_L5 ex_s5 8 0 false
           (ex_running _ _ ex_reach5) ltac:(lia)).
Defined.

(** A controller that reports success for segments without valid grains only. *)
Definition ex_reloc (i : nat) : scmm (Z * Z) :=
  sg ← seg_get i; mret (if valid_nr sg =? 0 then 0 else EIO, 0).

Lemma ex_reloc_contract : reloc_contract ex_conf ex_gc ex_cc ex_reloc.
Proof.
  intros i w L s Hinv Hw Hi. unfold ex_reloc. apply wp_bind, wp_reads, wp_ret. exists w, L.
  split; [done|]. split; [done|]. simpl. destruct (Z.eqb_spec (valid_nr (segs s i)) 0) as [E|]; [|done].
  intros _. destruct (inv_at_seg _ _ _ _ _ _ _ _ Hinv Hi) as [_ (_ & Hx)]. rewrite Hw in Hx.
  destruct Hx as (_ & Hv & _). congruence.
Qed.

Lemma gc_round_keeps_witness :
  exists s', gc_round ex_conf ex_gc ex_reloc false ex_s5 = Some (tt, s') /\
    exists w' L', inv ex_conf ex_gc ex_cc w' L' s'.
Proof.
  destruct (gc_round_keeps ex_conf ex_gc [Some 1] ex_cc ex_L5 ex_s5 ex_reloc false
              (ex_running _ _ ex_reach5) ex_reloc_contract) as (s' & E & HI & _).
  exists s'. split; [exact E|exact HI].
Defined.

Lemma bins_ordered_witness :
  0 <= bin_of ex_conf ex_gc 3 < bin_nr ex_gc /\ bin_of ex_conf ex_gc 3 <= bin_of ex_conf ex_gc 8.
Proof.
  destruct (bins_ordered ex_conf 4 ex_params 3 8) as (H1 & _ & H2); try (simpl; lia).
  split; [exact H1|exact H2].
Defined.

Definition ex_failing : scm_conf := mkScmConf 4 8 1 (const SCM_PROP_SET_ALL) true (const EIO).
Definition ex_thin : gfs_flags := mkGfs false true true SCM_PROP_SET_ALL SCM_PROP_SET_ALL.

Lemma thin_prov_reclaimed_twice_witness :
  exists s', scm_get_free_seg ex_failing ex_thin (set_thin_prov 2 ex_s0) = Some ((EIO, None), s') /\
    thin_prov_segs s' = 3.
Proof.
  apply (thin_prov_reclaimed_twice ex_failing ex_thin (set_thin_prov 2 ex_s0) 1 [2%nat; 3%nat]);
    try reflexivity; try (simpl; lia). discriminate.
Defined.

(** A hundred valid grains in the low bin; fifty of them are invalidated. *)
Definition ex_big : scm_conf := mkScmConf 1 100 1 (const SCM_PROP_SET_ALL) true (const 0).
Definition ex_full : scm :=
  set_segs (const (mkSegment 0 0 100 0 0 0 0 false 0 SEG_GC 0)) (scm_zero ex_big).

Lemma salsa_3bin_skips_threshold_witness :
  salsa_3bin ex_big 50 = GC_SALSA_HIGH_QUEUE /\
  exists s', gc_salsa_page_invalidate ex_big (gc_ctr 100 1 ex_params) 0 50 ex_full = Some (tt, s') /\
    priv (segs s' 0) = GC_SALSA_LOW_QUEUE.
Proof.
  destruct (salsa_3bin_skips_threshold ex_big (gc_ctr 100 1 ex_params) ex_full 0 50)
    as (H1 & s' & E & _ & H2 & _); try reflexivity; try (simpl; lia).
  split; [exact H1|]. exists s'. split; [exact E|exact H2].
Defined.
