(* ===== verification/SalsaThreads.v ===== *)
(** * SalsaThreads: calls of the space manager that overlap

    A call is cut where another thread can come between: [used_capacity_] is added
    to, compared and taken back in separate steps; a pass over the staging list is
    one stretch under its lock, which is dropped while a segment is taken from a
    free queue and set up; a release counts down and then queues, an invalidation
    counts out, lets the collector sort and then gives the capacity back.  Calls
    under way are [flight]s, any number of them.  Setting up a segment, which no
    other thread can reach until it is staged, goes with the staging, and what the
    collector does with one segment (destaging it, sorting it, picking it, freeing
    it or putting it back) is one step.

    The invariant of SalsaInv holds at every step, with the segments in the hands of
    calls at places of their own; [allocate_fresh] says what it means for users.
    Whole calls are runs of these steps ([running_overlapping]). *)
From Stdlib Require Import ZArith Lia.
From stdpp Require Import base tactics list numbers relations.
From S2P Require Import Prelude StateM Throttle SalsaScm SalsaGc SalsaAlloc SalsaInv SalsaMoves.
From S2P Require Import SalsaInval SalsaSafe SalsaRun SalsaInit SalsaTheorems.

Open Scope Z_scope.

(** ** Staging lists

    [calm b m]: [m] leaves the flags of the allocators alone, and stages nothing
    with allocator [b]. *)
Definition calm {A} (b : nat) (m : scmm A) : Prop :=
  forall s x s', m s = Some (x, s') ->
    allocating s' = allocating s /\
    (length (heads s' (StageFifo b)) <= length (heads s (StageFifo b)))%nat.

Create HintDb calm.

Section Calm.
Context (b : nat).

Lemma calm_ret {A} (a : A) : calm b (mret a).
Proof. intros s x s' [= <- <-]. done. Qed.

Lemma calm_bind {A B} (m : scmm A) (f : A -> scmm B) :
  calm b m -> (forall a, calm b (f a)) -> calm b (m ≫= f).
Proof.
  intros Hm Hf s x s'. unfold mbind, stm_bind. destruct (m s) as [[a s1]|] eqn:E; [|done].
  intros E'. destruct (Hm _ _ _ E) as [H1 H2]. destruct (Hf _ _ _ _ E') as [H3 H4].
  split; [congruence|lia].
Qed.

Lemma calm_reads {A} (f : scm -> A) : calm b (reads f).
Proof. intros s x s' [= <- <-]. done. Qed.

Lemma calm_bug {A} : calm b (@bug scm A).
Proof. intros s x s' [=]. Qed.

Lemma calm_bug_on x : calm b (bug_on x).
Proof. destruct x; [apply calm_bug|apply calm_ret]. Qed.

Lemma calm_lifto {A} (o : option A) : calm b (lifto o).
Proof. intros s x s'. destruct o; [|done]. intros [= <- <-]. done. Qed.

Lemma calm_writes (f : scm -> scm) :
  (forall s, allocating (f s) = allocating s) ->
  (forall s, (length (heads (f s) (StageFifo b)) <= length (heads s (StageFifo b)))%nat) ->
  calm b (writes f).
Proof. intros H1 H2 s x s' [= <- <-]. done. Qed.

Lemma calm_del i : calm b (writes (cds_list_del i)).
Proof. apply calm_writes; [done|]. intros s. apply length_filter. Qed.

Lemma calm_add_tail i p : p <> StageFifo b -> calm b (writes (cds_list_add_tail i p)).
Proof. intros Hp. apply calm_writes; [done|]. intros s. simpl. by rewrite fupd_other. Qed.

Lemma calm_add i p : p <> StageFifo b -> calm b (writes (cds_list_add i p)).
Proof. intros Hp. apply calm_writes; [done|]. intros s. simpl. by rewrite fupd_other. Qed.

Lemma calm_for_list {B} (l : list B) f : (forall x, calm b (f x)) -> calm b (for_list l f).
Proof.
  intros Hf. induction l as [|x l IH]; simpl; [apply calm_ret|]. by apply calm_bind.
Qed.

End Calm.

#[export] Hint Resolve calm_ret calm_reads calm_bug calm_bug_on calm_lifto calm_del : calm.

(** Through the binds and branches of a computation. *)
Ltac calm :=
  repeat first
    [ progress (auto with calm)
    | apply calm_bind; [|intros ?]
    | apply calm_for_list; intros ?
    | apply calm_add_tail; [discriminate || congruence]
    | apply calm_add; [discriminate || congruence]
    | match goal with
      | |- calm _ (if ?x then _ else _) => destruct x
      | |- calm _ (match ?x with _ => _ end) => destruct x
      end
    | apply calm_writes; intros ?; simpl; (done || by case_decide) ].

Section Ops.
Context (c : scm_conf) (gc : gc_conf) (cc : ctlr_conf) (b : nat).

Lemma calm_seg_get i : calm b (seg_get i).
Proof. apply calm_reads. Qed.
Lemma calm_seg_upd i f : calm b (seg_upd i f).
Proof. unfold seg_upd. calm. Qed.
Lemma calm_size_add p n : calm b (writes (size_add p n)).
Proof. calm. Qed.
Lemma calm_is_empty p : calm b (cds_queue_base_is_empty p).
Proof. apply calm_reads. Qed.
Lemma calm_queue_del p i : calm b (cds_queue_base_del p i).
Proof. unfold cds_queue_base_del. calm. Qed.
Lemma calm_pop_head p : calm b (cds_queue_base_pop_head p).
Proof. unfold cds_queue_base_pop_head. calm. Qed.
Lemma calm_enqueue p i : p <> StageFifo b -> calm b (cds_queue_base_enqueue_tail p i).
Proof. intros Hp. unfold cds_queue_base_enqueue_tail. calm. Qed.
Hint Resolve calm_seg_get calm_seg_upd calm_size_add calm_is_empty calm_queue_del calm_pop_head : calm.

Lemma calm_seg_putn i n : calm b (seg_putn i n).
Proof. unfold seg_putn. calm. Qed.
Lemma calm_nr4_sub i n : calm b (nr4_sub i n).
Proof. unfold nr4_sub. calm. Qed.
Lemma calm_next_range i len : calm b (allocator_seg_next_range c i len).
Proof. unfold allocator_seg_next_range. calm. Qed.
Lemma calm_thin n : calm b (scm_put_segs_thin_prov n).
Proof. unfold scm_put_segs_thin_prov. calm. Qed.
Lemma calm_put_free i t : calm b (scm_put_free_seg c i t).
Proof. unfold scm_put_free_seg, cds_queue_base_size, cds_queue_base_enqueue_tail. calm. Qed.
Hint Resolve calm_seg_putn calm_nr4_sub calm_next_range calm_thin calm_put_free : calm.

Lemma calm_fail {A} flags err : calm b (@fail_reclaim_thin A flags err).
Proof. unfold fail_reclaim_thin. calm. Qed.
Hint Resolve calm_fail : calm.
Lemma calm_find_queue reloc props i n e : calm b (find_queue c reloc props i n e).
Proof. revert i e. induction n; intros i e; simpl; calm. Qed.
Hint Resolve calm_find_queue : calm.
Lemma calm_free_queue flags : calm b (scm_get_free_queue c flags).
Proof. unfold scm_get_free_queue, scm_seg_queues_get_queue, scm_get_segs_thin_prov. calm. Qed.
Lemma calm_popped flags o : calm b (scm_seg_popped c flags o).
Proof. unfold scm_seg_popped. calm. Qed.

Lemma calm_stage_segment a answer : a <> b -> calm b (stage_segment c cc a answer).
Proof.
  intros Hab. unfold stage_segment, seg_md_fn, cds_queue_base_enqueue_tail. calm.
Qed.
Lemma calm_recycle a i : calm b (recycle c a i).
Proof. unfold recycle, cds_queue_base_enqueue_tail. calm. Qed.
Hint Resolve calm_recycle : calm.
Lemma calm_stage_scan a len l : calm b (stage_scan c a len l).
Proof. induction l; simpl; calm. Qed.
Lemma calm_drain a : calm b (allocator_drain_remaining_grains c a).
Proof. unfold allocator_drain_remaining_grains. calm. Qed.
Lemma calm_release_count g n : calm b (release_count c g n).
Proof. unfold release_count. calm. Qed.
Lemma calm_provision_add n r : calm b (provision_add cc n r).
Proof. unfold provision_add. calm. Qed.
Lemma calm_unprovision n : calm b (unprovision_grains n).
Proof. unfold unprovision_grains. calm. Qed.

Lemma calm_rm_from_bin i bin : calm b (gc_salsa_n_segment_rm_from_bin gc i bin).
Proof. unfold gc_salsa_n_segment_rm_from_bin, gc_queue_dequeue. calm. Qed.
Lemma calm_add_to_bin i bin : calm b (gc_salsa_n_segment_add_to_bin gc i bin).
Proof. unfold gc_salsa_n_segment_add_to_bin, gc_queue_enqueue. calm. Qed.
Lemma calm_add_and_activate i bin : calm b (add_and_activate gc i bin).
Proof.
  unfold add_and_activate, gc_salsa_n_segment_locks_activate. apply calm_bind; [|calm].
  apply calm_add_to_bin.
Qed.
Lemma calm_recycle_zero i bin : calm b (gc_recycle_seg_on_zero_valid_pages c i bin).
Proof. unfold gc_recycle_seg_on_zero_valid_pages, gc_seg_released, inc_zero_valid_nr. calm. Qed.
Hint Resolve calm_rm_from_bin calm_add_to_bin calm_add_and_activate calm_recycle_zero : calm.
Lemma calm_free_on_zero i : calm b (gc_free_seg_on_zero_valid_pages c gc i).
Proof. unfold gc_free_seg_on_zero_valid_pages. calm. Qed.
Lemma calm_xnp_pop lvl : calm b (xnp_pop lvl).
Proof. unfold xnp_pop. calm. Qed.
Hint Resolve calm_free_on_zero calm_xnp_pop : calm.
Lemma calm_xnp_delay f i : calm b (xnp_delay gc f i).
Proof. unfold xnp_delay, gc_xnp_pushone_popone. calm. Qed.
Lemma calm_rebin i n : calm b (rebin gc i n).
Proof. unfold rebin. calm. Qed.
Hint Resolve calm_xnp_delay calm_rebin : calm.
Lemma calm_cherry_pick i v : calm b (gc_salsa_n_xnp_try_cherry_pick c gc i v).
Proof. unfold gc_salsa_n_xnp_try_cherry_pick, gc_xnp_try_popone, inc_cherry_picked_nr. calm. Qed.
Lemma calm_invalidate_common i : calm b (gc_salsa_n_page_invalidate_common c gc i).
Proof. unfold gc_salsa_n_page_invalidate_common. calm. Qed.
Hint Resolve calm_cherry_pick calm_invalidate_common : calm.

Lemma calm_destaged i : calm b (gc_seg_destaged c gc i).
Proof.
  unfold gc_seg_destaged, inc_valid_seg_nr, seg_write, gc_salsa_seg_destaged,
    gc_salsa_n_seg_destaged, gc_salsa_n_xnp_seg_destaged, gc_salsa_n_xnp_ovrw_seg_destaged,
    gc_salsa_n_dyn_thr_seg_destaged. calm.
Qed.
Lemma calm_invalidate_rest i v : calm b (invalidate_rest c gc i v).
Proof. unfold invalidate_rest, resort, ovrw_resort, gc_salsa_n_segment_locks_deactivate. calm. Qed.

Lemma calm_get_first bin : calm b (gc_salsa_get_first_seg gc bin).
Proof. unfold gc_salsa_get_first_seg. calm. Qed.
Hint Resolve calm_get_first : calm.
Lemma calm_first_of_bins bin n : calm b (first_of_bins gc bin n).
Proof. revert bin. induction n; intros bin; simpl; calm. Qed.
Lemma calm_first_of_bins_down n : calm b (first_of_bins_down gc n).
Proof. induction n; simpl; calm. Qed.
Hint Resolve calm_first_of_bins calm_first_of_bins_down : calm.
Lemma calm_gc_select : calm b (gc_select c gc).
Proof. unfold gc_select, gc_seg_selected. calm. Qed.
Lemma calm_relocated i bin : calm b (seg_relocated c i bin).
Proof. unfold seg_relocated, gc_seg_released. calm. Qed.
Lemma calm_put_back i : calm b (gc_put_back c gc i).
Proof.
  unfold gc_put_back, gc_salsa_return_failed_reloc_seg, gc_salsa_n_return_failed_reloc_seg,
    gc_salsa_n_segment_add_to_bin_head, gc_queue_enqueue_head, gc_salsa_n_segment_locks_activate.
  calm.
Qed.
Lemma calm_xnp_try_pop lvl n : calm b (xnp_try_pop lvl n).
Proof. revert lvl. induction n; intros lvl; simpl; unfold gc_xnp_popone_force; calm. Qed.
Hint Resolve calm_xnp_try_pop : calm.
Lemma calm_try_pop_one : calm b (gc_salsa_n_xnp_try_pop_one gc).
Proof. unfold gc_salsa_n_xnp_try_pop_one. calm. Qed.
Lemma calm_update_segs : calm b (gc_salsa_n_xnp_intrpt_safe_update_segs c gc).
Proof. unfold gc_salsa_n_xnp_intrpt_safe_update_segs. calm. Qed.

End Ops.

(** ** Calls under way *)

(** Where a call is: what its thread does next. *)
Inductive flight :=
  | Checked (a : nat) (len : Z) (reloc : bool)
      (** space is not critical: count the length in ([provision_grains]) *)
  | Over (len : Z)                         (** past the capacity: take it back, [ENOSPC] *)
  | Scanning (a : nat) (len : Z)           (** lock the staging list and look for room *)
  | Queueing (a : nat) (len : Z)           (** [allocating] taken: choose a free queue *)
  | Popping (a : nat) (len : Z) (p : place)
  | Popped (a : nat) (len : Z) (o : option nat)   (** set the segment up and stage it *)
  | Staged (a : nat) (len : Z)             (** lock again, clear [allocating], [goto retry] *)
  | Failed (a : nat) (len : Z)             (** no segment: clear [allocating] *)
  | Returning (len : Z)                    (** take the length back ([unprovision_grains]) *)
  | Releasing (a i : nat)                  (** nothing left to release: to the done list *)
  | Destaging (i : nat)                    (** off the done list: to the collector *)
  | Sorting (i : nat) (valid len : Z).     (** grains counted out: the collector's lists *)

Section Steps.
Context (c : scm_conf) (gc : gc_conf) (ctlrs : ctl_table) (cc : ctlr_conf).

(** A pass over the staging list ends in a grant, with the right to allocate a
    segment, or with nothing ([EAGAIN]). *)
Definition after_section (a : nat) (len : Z) (r : Z * bool) : ledger * list flight :=
  let '(grain, go) := r in
  if (go : bool) then ([], [Queueing a len])
  else if grain =? SALSA_INVAL_GRAIN then ([], [Returning len])
  else ([mkRange grain len true true], []).

(** The next stretch of a call: the ranges it enters and what is left of it. *)
Definition advance (f : flight) : scmm (ledger * list flight) :=
  match f with
  | Checked a len reloc =>
      ok ← provision_add cc len reloc;
      mret ([], [if (ok : bool) then Scanning a len else Over len])
  | Over len | Returning len => unprovision_grains len;; mret ([], [])
  | Scanning a len => r ← stage_section c cc a len; mret (after_section a len r)
  | Queueing a len =>
      '(_, q) ← scm_get_free_queue c (a_flags cc a);
      mret ([], [match q with Some p => Popping a len p | None => Failed a len end])
  | Popping a len p => o ← cds_queue_base_pop_head p; mret ([], [Popped a len o])
  | Popped a len o =>
      rc ← (answer ← scm_seg_popped c (a_flags cc a) o; stage_segment c cc a answer);
      mret ([], [if rc =? 0 then Staged a len else Failed a len])
  | Staged a len =>
      set_allocating a false;; r ← stage_section c cc a len; mret (after_section a len r)
  | Failed a len => set_allocating a false;; mret ([], [Returning len])
  | Releasing a i => cds_queue_base_enqueue_tail (DoneFifo a) i;; mret ([], [])
  | Destaging i => gc_seg_destaged c gc i;; mret ([], [])
  | Sorting i valid len => invalidate_rest c gc i valid;; mret ([], [Returning len])
  end.

(** No more calls than this are under way at once. *)
Definition MAX_FLIGHTS : Z := 2 ^ 30.

(** Any call under way goes on, or a call begins: an allocation passes its two
    tests, a release counts down, an invalidation counts out, an allocator's
    thread takes a segment off its done list.  Draining is one stretch under the
    lock of the staging list.  What the collector does with one segment is one
    step. *)
Inductive thread_step : ledger * list flight * scm -> ledger * list flight * scm -> Prop :=
  | ts_advance L F F0 f s L1 F1 s' :
      F ≡ₚ f :: F0 -> advance f s = Some ((L1, F1), s') ->
      thread_step (L, F, s) (L1 ++ L, F1 ++ F0, s')
  | ts_allocate L F s len stream reloc :
      0 < len < 2 ^ 32 -> (seg_size c <? u64 (len + reserved_per_seg cc)) = false ->
      negb reloc && gc_check_critical c ctlrs s = false -> Z.of_nat (length F) < MAX_FLIGHTS ->
      thread_step (L, F, s) (L, Checked (stream_to_alltr cc stream reloc) len reloc :: F, s)
  | ts_release L L0 e F s stream reloc o s' :
      L ≡ₚ e :: L0 -> r_pend e = true -> Z.of_nat (length F) < MAX_FLIGHTS ->
      release_count c (r_grain e) (r_len e) s = Some (o, s') ->
      thread_step (L, F, s)
        (released e ++ L0,
         (match o with Some i => [Releasing (stream_to_alltr cc stream reloc) i] | None => [] end) ++ F,
         s')
  | ts_invalidate L L0 e F s (reloc : bool) i valid s' :
      L ≡ₚ e :: L0 -> r_live e = true -> Z.of_nat (length F) < MAX_FLIGHTS ->
      scm_grain_to_segment c (r_grain e) = Some i ->
      seg_putn i (u32 (r_len e)) s = Some (valid, s') ->
      thread_step (L, F, s)
        (invalidated e ++ L0,
         [if reloc then Returning (r_len e) else Sorting i valid (r_len e)] ++ F, s')
  | ts_pop_done L F s a o s' :
      Z.of_nat (length F) < MAX_FLIGHTS -> cds_queue_base_pop_head (DoneFifo a) s = Some (o, s') ->
      thread_step (L, F, s) (L, (match o with Some i => [Destaging i] | None => [] end) ++ F, s')
  | ts_drain L F s stream reloc n s' :
      drain_remaining_grains c cc stream reloc s = Some (n, s') ->
      thread_step (L, F, s) (L, F, s')
  | ts_gc_select L F s o s' : gc_select c gc s = Some (o, s') -> thread_step (L, F, s) (L, F, s')
  | ts_gc_free L F s i bin s' :
      (i < seg_nr c)%nat -> seg_state (segs s i) = SEG_INVALID -> valid_nr (segs s i) = 0 ->
      seg_relocated c i bin s = Some (tt, s') -> thread_step (L, F, s) (L, F, s')
  | ts_gc_put_back L F s i s' :
      (i < seg_nr c)%nat -> seg_state (segs s i) = SEG_INVALID ->
      gc_put_back c gc i s = Some (tt, s') -> thread_step (L, F, s) (L, F, s')
  | ts_gc_pop L F s s' :
      gc_ty gc <> GC_SALSA_3BIN ->
      gc_salsa_n_xnp_try_pop_one gc s = Some (tt, s') -> thread_step (L, F, s) (L, F, s')
  | ts_gc_update L F s s' :
      gc_ty gc = GC_NBIN_XNP_INTRPT_SAFE ->
      gc_salsa_n_xnp_intrpt_safe_update_segs c gc s = Some (tt, s') ->
      thread_step (L, F, s) (L, F, s').

(** ** What a call under way holds *)

Definition msum (g : flight -> Z) (F : list flight) : Z := foldr (fun f z => g f + z) 0 F.

(** Grains counted in the capacity in use beside the live ones. *)
Definition weight (f : flight) : Z :=
  match f with
  | Over len | Scanning _ len | Queueing _ len | Popping _ len _ | Popped _ len _ | Staged _ len
  | Failed _ len | Returning len | Sorting _ _ len => len
  | Checked _ _ _ | Releasing _ _ | Destaging _ => 0
  end.

(** The same without the requests that turn out too large. *)
Definition booked (f : flight) : Z := match f with Over _ => 0 | _ => weight f end.

(** Whether it has the flag of allocator [a] ... *)
Definition has_flag (a : nat) (f : flight) : Z :=
  match f with
  | Queueing a' _ | Popping a' _ _ | Popped a' _ _ | Staged a' _ | Failed a' _ =>
      Z.b2z (bool_decide (a' = a))
  | _ => 0
  end.

(** ... and has not staged a segment yet. *)
Definition will_stage (a : nat) (f : flight) : Z :=
  match f with Staged _ _ => 0 | _ => has_flag a f end.

(** A free segment, or one that has been written, in its hands. *)
Definition has_taken (i : nat) (f : flight) : Z :=
  match f with Popped _ _ (Some j) => Z.b2z (bool_decide (j = i)) | _ => 0 end.
Definition has_done (i : nat) (f : flight) : Z :=
  match f with Releasing _ j | Destaging j => Z.b2z (bool_decide (j = i)) | _ => 0 end.

Definition seg_fits (len : Z) : Prop := 0 < len < 2 ^ 32 /\ len + reserved_per_seg cc <= seg_size c.

Definition flight_ok (f : flight) : Prop :=
  match f with
  | Checked _ len _ | Scanning _ len | Queueing _ len | Staged _ len | Failed _ len => seg_fits len
  | Over len | Returning len => 0 < len < 2 ^ 32
  | Popping a len p => seg_fits len /\ exists q, p = free_place (gf_reloc (a_flags cc a)) q
  | Popped a len o => seg_fits len /\ match o with Some i => (i < seg_nr c)%nat | None => True end
  | Releasing _ i | Destaging i => (i < seg_nr c)%nat
  | Sorting i valid len => (i < seg_nr c)%nat /\ valid <= seg_size c /\ 0 < len < 2 ^ 32
  end.

Definition capacity : Z := Z.max (max_capacity cc) (max_capacity_reloc cc).

Record tinv (w : nat -> where_is) (L : ledger) (F : list flight) (s : scm) : Prop := {
  ti_inv : inv_used c gc cc w L (live_total L + msum weight F) s;
  ti_ok : Forall flight_ok F;
  ti_len : Z.of_nat (length F) <= MAX_FLIGHTS;
  ti_taken i : msum (has_taken i) F = Z.b2z (bool_decide (w i = Taken));
  ti_done i : msum (has_done i) F = Z.b2z (bool_decide (w i = Done));
  ti_flag a : msum (has_flag a) F = Z.b2z (allocating s a);
  ti_stage a : Z.of_nat (length (heads s (StageFifo a))) + msum (will_stage a) F <= 1;
  ti_cap : live_total L + msum booked F <= capacity
}.

Context (Hco : conf_ok c gc cc) (Hfl : flags_ok cc).

Local Abbreviation inv_used := (inv_used c gc cc).

(** ** Sums over the calls under way *)

Lemma msum_perm g F F' : F ≡ₚ F' -> msum g F = msum g F'.
Proof. induction 1; simpl; lia. Qed.

Lemma msum_app g F F' : msum g (F ++ F') = msum g F + msum g F'.
Proof. induction F; simpl; lia. Qed.

Lemma msum_nonneg g F : (forall f, f ∈ F -> 0 <= g f) -> 0 <= msum g F.
Proof.
  induction F as [|f F IH]; simpl; intros Hg; [lia|].
  pose proof (Hg f (list_elem_of_here _ _)).
  specialize (IH (fun f' Hf' => Hg f' (list_elem_of_further _ _ _ Hf'))). lia.
Qed.

Lemma msum_le g g' F : (forall f, f ∈ F -> g f <= g' f) -> msum g F <= msum g' F.
Proof.
  induction F as [|f F IH]; simpl; intros Hg; [lia|].
  pose proof (Hg f (list_elem_of_here _ _)).
  specialize (IH (fun f' Hf' => Hg f' (list_elem_of_further _ _ _ Hf'))). lia.
Qed.

Lemma has_flag_nonneg a f : 0 <= has_flag a f.
Proof. destruct f; simpl; try lia; destruct (bool_decide _); simpl; lia. Qed.

Lemma will_stage_le a f : 0 <= will_stage a f <= has_flag a f.
Proof. pose proof (has_flag_nonneg a f). destruct f; simpl in *; lia. Qed.

Lemma weight_range f : flight_ok f -> 0 <= weight f <= 2 ^ 32.
Proof. unfold flight_ok, seg_fits. destruct f; simpl; lia. Qed.

Lemma weights_range F :
  Forall flight_ok F -> 0 <= msum weight F <= Z.of_nat (length F) * 2 ^ 32.
Proof.
  induction 1 as [|f F Hf _ IH]; simpl; [lia|]. pose proof (weight_range f Hf). lia.
Qed.

(** Nobody has the flag, or this call alone. *)
Lemma no_flag_no_stage a F : msum (has_flag a) F <= 0 -> msum (will_stage a) F = 0.
Proof.
  intros H. pose proof (msum_le (will_stage a) (has_flag a) F (fun f _ => proj2 (will_stage_le a f))).
  pose proof (msum_nonneg (will_stage a) F (fun f _ => proj1 (will_stage_le a f))). lia.
Qed.

Lemma tinv_perm w L F F' s : F ≡ₚ F' -> tinv w L F s -> tinv w L F' s.
Proof.
  intros Hp [H1 H2 H3 H4 H5 H6 H7 H8].
  split; intros; rewrite <- ?(msum_perm _ _ _ Hp), <- ?(Permutation_length Hp); auto.
  by rewrite <- Hp.
Qed.

(** The capacity in use never wraps around. *)
Lemma in_use_range w L F s :
  tinv w L F s -> 0 <= live_total L /\ 0 <= msum weight F /\
    live_total L + msum weight F <= 2 ^ 62 + 2 ^ 62.
Proof.
  intros [Hinv Hok Hlen _ _ _ _ _].
  pose proof (live_total_bound c gc cc Hco _ _ _ _ Hinv). pose proof (co_nr _ _ _ Hco).
  pose proof (weights_range F Hok). unfold MAX_FLIGHTS in Hlen. nia.
Qed.

(** One call is replaced by what is left of it, or a call begins. *)
Lemma tinv_next w w' L L' Fo F1 F0 s s' :
  tinv w L (Fo ++ F0) s ->
  inv_used w' L' (live_total L' + msum weight F1 + msum weight F0) s' ->
  Forall flight_ok F1 -> Z.of_nat (length (F1 ++ F0)) <= MAX_FLIGHTS ->
  (forall i, msum (has_taken i) F1 + Z.b2z (bool_decide (w i = Taken)) =
             msum (has_taken i) Fo + Z.b2z (bool_decide (w' i = Taken))) ->
  (forall i, msum (has_done i) F1 + Z.b2z (bool_decide (w i = Done)) =
             msum (has_done i) Fo + Z.b2z (bool_decide (w' i = Done))) ->
  (forall a, msum (has_flag a) F1 + Z.b2z (allocating s a) =
             msum (has_flag a) Fo + Z.b2z (allocating s' a)) ->
  (forall a, Z.of_nat (length (heads s' (StageFifo a))) + msum (will_stage a) F1 +
             msum (will_stage a) F0 <= 1) ->
  live_total L' + msum booked F1 + msum booked F0 <= capacity ->
  tinv w' L' (F1 ++ F0) s'.
Proof.
  intros [H1 H2 H3 H4 H5 H6 H7 H8] Hinv Hok Hlen Ht Hd Hf Hs Hc.
  split; intros; rewrite ?msum_app in *; rewrite ?Z.add_assoc; auto.
  - apply Forall_app in H2 as [_ H2]. by apply Forall_app.
  - specialize (H4 i). specialize (Ht i). rewrite msum_app in H4. lia.
  - specialize (H5 i). specialize (Hd i). rewrite msum_app in H5. lia.
  - specialize (H6 a). specialize (Hf a). rewrite msum_app in H6. lia.
Qed.

Lemma moved_taken w w' i x :
  gc_moved w w' -> x = Taken \/ x = Done ->
  Z.b2z (bool_decide (w i = x)) = Z.b2z (bool_decide (w' i = x)).
Proof. intros Hg Hx. f_equal. apply bool_decide_ext. by apply Hg. Qed.

(** A step that touches no flag, stages nothing and moves nothing in anybody's
    hands. *)
Lemma tinv_calm w w' L L' Fo F1 F0 s s' :
  tinv w L (Fo ++ F0) s ->
  inv_used w' L' (live_total L' + msum weight F1 + msum weight F0) s' -> gc_moved w w' ->
  allocating s' = allocating s ->
  (forall b, (length (heads s' (StageFifo b)) <= length (heads s (StageFifo b)))%nat) ->
  Forall flight_ok F1 -> Z.of_nat (length (F1 ++ F0)) <= MAX_FLIGHTS ->
  (forall i, msum (has_taken i) F1 = msum (has_taken i) Fo) ->
  (forall i, msum (has_done i) F1 = msum (has_done i) Fo) ->
  (forall a, msum (has_flag a) F1 = msum (has_flag a) Fo) ->
  (forall a, msum (will_stage a) F1 = msum (will_stage a) Fo) ->
  live_total L' + msum booked F1 + msum booked F0 <= capacity ->
  tinv w' L' (F1 ++ F0) s'.
Proof.
  intros Ht Hinv Hg Hal Hl Hok Hlen H1 H2 H3 H4 Hc.
  eapply tinv_next; [exact Ht|done|done|done|..|done].
  - intros i. rewrite H1, (moved_taken w w') by auto. lia.
  - intros i. rewrite H2, (moved_taken w w') by auto. lia.
  - intros a. rewrite H3, Hal. lia.
  - intros a. specialize (Hl a). rewrite H4. pose proof (ti_stage _ _ _ _ Ht a) as Hs.
    rewrite msum_app in Hs. lia.
Qed.

(** A run with what its calmness gives. *)
Lemma wp_calm {A} (m : scmm A) (Q : A -> scm -> Prop) s :
  (forall b, calm b m) ->
  wp m (fun x s' => allocating s' = allocating s ->
          (forall b, (length (heads s' (StageFifo b)) <= length (heads s (StageFifo b)))%nat) ->
          Q x s') s ->
  wp m Q s.
Proof.
  intros Hc (x & s' & E & HQ). exists x, s'. split; [done|].
  apply HQ; [by apply (Hc 0%nat s x s')|]. intros b. by apply (Hc b s x s').
Qed.

(** What a stretch of a call has to leave. *)
Definition next_ok (L : ledger) (F0 : list flight) (r : ledger * list flight) (s : scm) : Prop :=
  exists w, tinv w (r.1 ++ L) (r.2 ++ F0) s.

Lemma tinv_head w L f F0 s :
  tinv w L (f :: F0) s ->
  inv_used w L (live_total L + weight f + msum weight F0) s /\ flight_ok f /\
  Z.of_nat (length F0) < MAX_FLIGHTS /\ live_total L + booked f + msum booked F0 <= capacity /\
  0 <= live_total L /\ 0 <= msum weight F0 /\
  live_total L + weight f + msum weight F0 <= 2 ^ 62 + 2 ^ 62.
Proof.
  intros Ht. destruct (in_use_range _ _ _ _ Ht) as (Hl & _ & Hu).
  destruct Ht as [H1 [Hf H2]%Forall_cons_iff H3 _ _ _ _ H8]. pose proof (weights_range F0 H2).
  simpl in *. rewrite !Z.add_assoc in *. split_and!; try done; lia.
Qed.

Lemma wp_adv_checked a len reloc w L F0 s :
  tinv w L (Checked a len reloc :: F0) s -> wp (advance (Checked a len reloc)) (next_ok L F0) s.
Proof.
  intros Ht. destruct (tinv_head _ _ _ _ _ Ht) as (Hinv & Hf & Hlen & Hcap & Hl & Hw & Hu).
  simpl in Hinv, Hcap, Hu, Hf. destruct (Hf) as [Hr _]. simpl.
  apply wp_bind, wp_calm; [intros; apply calm_provision_add|].
  eapply wp_provision_add; [exact Hinv|lia|]. intros s' Hinv' Hal Hh. apply wp_ret.
  exists w. simpl.
  assert (forall f, f = Scanning a len \/ f = Over len ->
            booked f = 0 \/ live_total L + 0 + msum weight F0 + len <= capacity ->
            tinv w L ([f] ++ F0) s') as Hgo.
  { intros f Hfo Hb. eapply (tinv_calm w w L L [Checked a len reloc]); [exact Ht| |done|done|done|..].
    - destruct Hfo as [->| ->]; simpl; rewrite ?Z.add_0_r in *; 
        replace (live_total L + len + msum weight F0) with (live_total L + msum weight F0 + len) by lia;
        done.
    - constructor; [|done]. by destruct Hfo as [->| ->].
    - simpl. lia.
    - by destruct Hfo as [->| ->].
    - by destruct Hfo as [->| ->].
    - by destruct Hfo as [->| ->].
    - by destruct Hfo as [->| ->].
    - assert (msum booked F0 <= msum weight F0).
      { apply msum_le. intros f' Hf'. pose proof (ti_ok _ _ _ _ Ht) as HF.
        apply Forall_cons_iff in HF as [_ HF]. rewrite list.Forall_forall in HF.
        pose proof (weight_range f' (HF f' Hf')). destruct f'; simpl in *; lia. }
      simpl. destruct Hfo as [->| ->]; simpl in *; lia. }
  destruct (Z.ltb_spec (if reloc then max_capacity_reloc cc else max_capacity cc)
              (live_total L + 0 + msum weight F0 + len)) as [|Hfit]; cbn [negb].
  - apply Hgo; [by right|by left].
  - apply Hgo; [by left|right]. unfold capacity. destruct reloc; lia.
Qed.

(** The length of a request that fails, and of a range given up, is taken back. *)
Lemma wp_adv_back f len w L F0 s :
  f = Over len \/ f = Returning len ->
  tinv w L (f :: F0) s -> wp (unprovision_grains len;; mret ([], [])) (next_ok L F0) s.
Proof.
  intros Hf Ht. destruct (tinv_head _ _ _ _ _ Ht) as (Hinv & Hok & Hlen & Hcap & Hl & Hw & Hu).
  assert (weight f = len /\ 0 < len < 2 ^ 32) as [Hwt Hr] by (by destruct Hf as [->| ->]).
  rewrite Hwt in Hinv. apply wp_bind, wp_calm; [intros; apply calm_unprovision|].
  eapply wp_unprovision; [exact Hinv|lia|]. intros s' Hinv' Hal Hh. apply wp_ret. exists w.
  eapply (tinv_calm w w L L [f] []); [exact Ht| |done|done|done|..].
  - simpl. replace (live_total L + 0 + msum weight F0) with
      (live_total L + len + msum weight F0 - len) by lia. done.
  - done.
  - simpl. lia.
  - by destruct Hf as [->| ->].
  - by destruct Hf as [->| ->].
  - by destruct Hf as [->| ->].
  - by destruct Hf as [->| ->].
  - assert (0 <= booked f) by (destruct Hf as [->| ->]; simpl; lia). simpl. lia.
Qed.

(** The choice of a queue changes nothing. *)
Lemma wp_adv_queueing a len w L F0 s :
  tinv w L (Queueing a len :: F0) s -> wp (advance (Queueing a len)) (next_ok L F0) s.
Proof.
  intros Ht. destruct (tinv_head _ _ _ _ _ Ht) as (Hinv & Hok & Hlen & Hcap & Hl & Hw & Hu).
  assert (forall f, flight_ok f -> weight f = len -> booked f = len ->
            (forall i, has_taken i f = 0) -> (forall i, has_done i f = 0) ->
            (forall b, has_flag b f = has_flag b (Queueing a len)) ->
            (forall b, will_stage b f = has_flag b (Queueing a len)) ->
            next_ok L F0 ([], [f]) s) as Hgo.
  { intros f H1 H2 H3 H4 H5 H6 H7. exists w.
    eapply (tinv_calm w w L L [Queueing a len] [f]); [exact Ht| |done|done|done|by constructor|..];
      simpl; intros; rewrite ?H2, ?H3, ?H4, ?H5, ?H6, ?H7, ?Z.add_0_r; auto; try done; simpl in Hcap; try lia. }
  simpl. apply wp_bind. eapply (wp_get_free_queue c cc Hfl a); intros; apply wp_ret; apply Hgo; try done.
  by split; [|eexists].
Qed.

(** A segment passes from the queue to the call, unless somebody was faster. *)
Lemma wp_adv_popping a len p w L F0 s :
  tinv w L (Popping a len p :: F0) s -> wp (advance (Popping a len p)) (next_ok L F0) s.
Proof.
  intros Ht. destruct (tinv_head _ _ _ _ _ Ht) as (Hinv & Hok & Hlen & Hcap & Hl & Hw & Hu).
  destruct Hok as [Hfit [q ->]]. simpl in Hcap. simpl. apply wp_bind, wp_calm; [intros; apply calm_pop_head|].
  eapply (wp_take c gc cc); [exact Hinv| |].
  - intros _ _. apply wp_ret. exists w.
    eapply (tinv_calm w w L L [Popping a len _] [Popped a len None]); [exact Ht| |done|done|done|..];
      simpl; intros; rewrite ?Z.add_0_r; auto; try lia.
    + by constructor; [split|].
  - intros i s' Hi Hwi Hinv' Hal Hh. apply wp_ret. exists (fupd w i Taken).
    eapply (tinv_next w _ L L [Popping a len _] [Popped a len (Some i)]); [exact Ht|..];
      simpl; intros; rewrite ?Z.add_0_r; auto; try lia.
    + by constructor; [split|].
    + unfold fupd. case_decide as Hd; [subst|].
      * rewrite Hwi. rewrite !bool_decide_eq_true_2 by done. done.
      * rewrite (bool_decide_eq_false_2 (i = _)) by congruence. done.
    + unfold fupd. case_decide as Hd; [subst; by rewrite Hwi|done].
    + rewrite Hal. done.
    + specialize (Hh a0). pose proof (ti_stage _ _ _ _ Ht a0) as Hs. simpl in Hs. lia.
Qed.

(** A segment in a call's hands is where the invariant says. *)
Lemma b2z_pos (P : Prop) `{Decision P} : 0 < Z.b2z (bool_decide P) -> P.
Proof. case_bool_decide; [done|simpl; lia]. Qed.

Lemma holds_taken w L a len i F0 s : tinv w L (Popped a len (Some i) :: F0) s -> w i = Taken.
Proof.
  intros Ht. apply (b2z_pos (w i = Taken)). rewrite <- (ti_taken _ _ _ _ Ht i). simpl.
  rewrite bool_decide_eq_true_2 by done.
  assert (0 <= msum (has_taken i) F0); [|simpl; lia]. apply msum_nonneg. intros f _.
  destruct f as [| | | | |? ? [j|]| | | | | |]; simpl; try lia. destruct (bool_decide _); simpl; lia.
Qed.

Lemma holds_done w L f i F0 s :
  tinv w L (f :: F0) s -> f = Destaging i \/ (exists a, f = Releasing a i) -> w i = Done.
Proof.
  intros Ht Hf. apply (b2z_pos (w i = Done)). rewrite <- (ti_done _ _ _ _ Ht i). simpl.
  assert (has_done i f = 1) as ->.
  { destruct Hf as [->|[a ->]]; simpl; by rewrite bool_decide_eq_true_2. }
  assert (0 <= msum (has_done i) F0); [|lia]. apply msum_nonneg. intros f' _.
  destruct f'; simpl; try lia; destruct (bool_decide _); simpl; lia.
Qed.

(** The staging list of an allocator is empty while a call prepares a segment. *)
Lemma preparing_empty w L f F0 a s :
  tinv w L (f :: F0) s -> will_stage a f = 1 ->
  heads s (StageFifo a) = [] /\ msum (will_stage a) F0 = 0.
Proof.
  intros Ht Hf. pose proof (ti_stage _ _ _ _ Ht a) as Hs. simpl in Hs. rewrite Hf in Hs.
  pose proof (msum_nonneg (will_stage a) F0 (fun f _ => proj1 (will_stage_le a f))).
  split; [|lia]. destruct (heads s (StageFifo a)); [done|]. simpl in Hs. lia.
Qed.

(** ** Staging *)

Definition always {A} (m : scmm A) (v : A) : Prop := forall s x s', m s = Some (x, s') -> x = v.

Lemma always_bind {A B} (m : scmm A) (f : A -> scmm B) v :
  (forall a, always (f a) v) -> always (m ≫= f) v.
Proof.
  intros Hf s x s'. unfold mbind, stm_bind. destruct (m s) as [[a s1]|]; [|done]. apply Hf.
Qed.

Lemma stage_segment_rc a seg : always (stage_segment c cc a (0, seg)) 0.
Proof.
  unfold stage_segment. cbn [Z.eqb negb]. repeat (apply always_bind; intros ?).
  by intros s x s' [= <- <-].
Qed.

(** Only a call that succeeds adds to the staging list, to that of its allocator. *)
Lemma popped_effect a o s rc s' :
  (answer ← scm_seg_popped c (a_flags cc a) o; stage_segment c cc a answer) s = Some (rc, s') ->
  allocating s' = allocating s /\
  forall b, b <> a \/ rc <> 0 ->
    (length (heads s' (StageFifo b)) <= length (heads s (StageFifo b)))%nat.
Proof.
  intros E.
  assert (forall b, b <> a -> calm b (answer ← scm_seg_popped c (a_flags cc a) o;
                                      stage_segment c cc a answer)) as Hc.
  { intros b Hb. apply calm_bind; [apply calm_popped|]. intros. by apply calm_stage_segment. }
  split; [by apply (Hc (S a) ltac:(lia) _ _ _ E)|]. intros b Hb.
  destruct (decide (b = a)) as [->|Hne]; [|by apply (Hc b Hne _ _ _ E)].
  destruct Hb as [?|Hrc]; [done|]. revert E. unfold mbind, stm_bind.
  destruct (scm_seg_popped c (a_flags cc a) o s) as [[[err seg] s1]|] eqn:E1; [|done].
  intros E2. destruct (Z.eq_dec err 0) as [->|Herr].
  { by apply stage_segment_rc in E2. }
  revert E2. unfold stage_segment. rewrite (proj2 (Z.eqb_neq err 0)) by done. cbn [negb].
  intros [= <- <-]. by apply (calm_popped c a (a_flags cc a) o s _ s1 E1).
Qed.

(** The segment [i] in a call's hands goes back to a list. *)
Lemma popped_hands w i p w' a len :
  w i = Taken -> moved w i (At p) w' ->
  (forall j, Z.b2z (bool_decide (w j = Taken)) = has_taken j (Popped a len (Some i)) +
               Z.b2z (bool_decide (w' j = Taken))) /\
  (forall j, Z.b2z (bool_decide (w j = Done)) = Z.b2z (bool_decide (w' j = Done))).
Proof.
  intros Hw [Hm1 Hm2]. split; intros j; destruct (decide (j = i)) as [->|Hne]; simpl.
  - rewrite Hm1, Hw, (bool_decide_eq_true_2 (i = i)) by done. done.
  - rewrite Hm2, (bool_decide_eq_false_2 (i = j)) by congruence. done.
  - by rewrite Hm1, Hw.
  - by rewrite Hm2.
Qed.

(** The call goes on, with the flag and a segment staged or without one. *)
Lemma popped_next a len o w w' L F0 s rc s' :
  tinv w L (Popped a len o :: F0) s ->
  inv_used w' L (live_total L + len + msum weight F0) s' ->
  (forall i, Z.b2z (bool_decide (w i = Taken)) = has_taken i (Popped a len o) +
               Z.b2z (bool_decide (w' i = Taken))) ->
  (forall i, Z.b2z (bool_decide (w i = Done)) = Z.b2z (bool_decide (w' i = Done))) ->
  allocating s' = allocating s ->
  (forall b, b <> a \/ rc <> 0 ->
     (length (heads s' (StageFifo b)) <= length (heads s (StageFifo b)))%nat) ->
  (rc = 0 -> length (heads s' (StageFifo a)) = 1%nat) ->
  tinv w' L ([if rc =? 0 then Staged a len else Failed a len] ++ F0) s'.
Proof.
  intros Ht Hinv' H1 H2 Hal Hh H3.
  destruct (tinv_head _ _ _ _ _ Ht) as (_ & [Hfit _] & Hlen & Hcap & _). simpl in Hcap.
  destruct (preparing_empty _ _ _ _ a _ Ht) as [He Hz].
  { simpl. by rewrite bool_decide_eq_true_2. }
  eapply (tinv_next w w' L L [Popped a len o] [_]); [exact Ht|..]; simpl; intros; rewrite ?Z.add_0_r.
  - destruct (rc =? 0); done.
  - constructor; [|done]. destruct (rc =? 0); done.
  - lia.
  - specialize (H1 i). simpl in H1. destruct (rc =? 0); simpl; lia.
  - specialize (H2 i). destruct (rc =? 0); simpl; lia.
  - rewrite Hal. destruct (rc =? 0); simpl; lia.
  - pose proof (ti_stage _ _ _ _ Ht a0) as Hs. simpl in Hs. destruct (decide (a0 = a)) as [->|Hne].
    + rewrite Hz. destruct (Z.eqb_spec rc 0) as [Hrc|Hrc]; simpl; [rewrite H3 by done; lia|].
      specialize (Hh a (or_intror Hrc)). rewrite He in Hh. simpl in Hh.
      rewrite bool_decide_eq_true_2 by done. simpl. lia.
    + specialize (Hh a0 (or_introl Hne)).
      rewrite (bool_decide_eq_false_2 (a = a0)) in Hs by congruence. simpl in Hs.
      destruct (rc =? 0); simpl; [lia|]. rewrite (bool_decide_eq_false_2 (a = a0)) by congruence.
      simpl. lia.
  - destruct (rc =? 0); simpl; lia.
Qed.

(** What the segment becomes: staged, or free again. *)
Lemma wp_adv_popped a len o w L F0 s :
  tinv w L (Popped a len o :: F0) s -> wp (advance (Popped a len o)) (next_ok L F0) s.
Proof.
  intros Ht. destruct (tinv_head _ _ _ _ _ Ht) as (Hinv & [Hfit Hi] & _).
  destruct (preparing_empty _ _ _ _ a _ Ht) as [He _].
  { simpl. by rewrite bool_decide_eq_true_2. }
  simpl. apply wp_bind. set (m := answer ← _; _).
  enough (wp m (fun rc s' => exists w', inv_used w' L (live_total L + len + msum weight F0) s' /\
    (forall i, Z.b2z (bool_decide (w i = Taken)) = has_taken i (Popped a len o) +
                 Z.b2z (bool_decide (w' i = Taken))) /\
    (forall i, Z.b2z (bool_decide (w i = Done)) = Z.b2z (bool_decide (w' i = Done))) /\
    (rc = 0 -> length (heads s' (StageFifo a)) = 1%nat)) s) as (rc & s' & E & w' & Hinv' & H1 & H2 & H3).
  { exists rc, s'. split; [exact E|]. apply wp_ret. exists w'.
    destruct (popped_effect _ _ _ _ _ E) as [Hal Hh]. by eapply popped_next. }
  destruct o as [i|].
  - pose proof (holds_taken _ _ _ _ _ _ _ Ht) as Hw. simpl in Hinv.
    eapply (wp_popped c gc cc Hco Hfl); [exact Hinv|done|done|..].
    + intros s' w' Hinv' Hmv _. exists w'. destruct (popped_hands _ _ _ _ a len Hw Hmv).
      split_and!; [done..|]. intros _.
      by rewrite (moved_stage_heads c gc cc a i w w' L _ s s' Hinv Hinv' He Hi Hmv).
    + intros s' w' p Hinv' Hmv. exists w'. destruct (popped_hands _ _ _ _ a len Hw Hmv). by split_and!.
  - unfold m, scm_seg_popped, fail_reclaim_thin. rewrite (proj1 (Hfl a)).
    apply wp_bind, wp_bind, wp_ret, wp_ret, wp_ret. exists w. by split_and!.
Qed.

(** ** A pass over the staging list *)

Lemma stage_section_effect a len s r s' :
  stage_section c cc a len s = Some (r, s') ->
  (forall b, (length (heads s' (StageFifo b)) <= length (heads s (StageFifo b)))%nat) /\
  allocating s' = (if r.2 then fupd (allocating s) a true else allocating s) /\
  (r.2 = true -> allocating s a = false).
Proof.
  unfold stage_section, cds_queue_base_is_empty. cbv [mbind stm_bind reads].
  destruct (stage_scan c a len (heads s (StageFifo a)) s) as [[[g seg] s1]|] eqn:E; [|done].
  assert (allocating s1 = allocating s) as Hal by (by apply (calm_stage_scan c 0 a len _ _ _ _ E)).
  assert (forall b, (length (heads s1 (StageFifo b)) <= length (heads s (StageFifo b)))%nat) as Hh
    by (intros b; by apply (calm_stage_scan c b a len _ _ _ _ E)).
  rewrite Hal. destruct ((g =? SALSA_INVAL_GRAIN) && _ && _) eqn:Hgo.
  - intros [= <- <-]. simpl. rewrite Hal. split_and!; try done. intros _.
    apply andb_true_iff in Hgo as [_ Hb]. by destruct (allocating s a).
  - intros E'. assert (r.2 = false /\ s' = s1) as [-> ->]; [|done].
    destruct (negb (g =? _)); [destruct seg as [i|]; [|done]|]; injection E' as <- <-; done.
Qed.

(** The flag is free: nobody of this allocator prepares a segment. *)
Lemma flag_free w L F a s :
  tinv w L F s -> allocating s a = false -> msum (will_stage a) F = 0.
Proof.
  intros Ht Ha. apply no_flag_no_stage. rewrite (ti_flag _ _ _ _ Ht a), Ha. done.
Qed.

Lemma wp_adv_scanning a len w L F0 s :
  tinv w L (Scanning a len :: F0) s -> wp (advance (Scanning a len)) (next_ok L F0) s.
Proof.
  intros Ht. destruct (tinv_head _ _ _ _ _ Ht) as (Hinv & [Hr Hfit] & Hlen & Hcap & _).
  simpl in Hinv, Hcap.
  enough (wp (stage_section c cc a len) (fun r s' =>
    (r.2 = false /\ r.1 <> SALSA_INVAL_GRAIN /\
       granted c gc cc w L (live_total L + len + msum weight F0) r.1 len s') \/
    (r.1 = SALSA_INVAL_GRAIN /\ heads s' (StageFifo a) = [] /\
       exists w', inv_used w' L (live_total L + len + msum weight F0) s' /\ held_same w w')) s)
    as ([g go] & s' & E & HQ).
  { destruct (stage_section_effect _ _ _ _ _ E) as (Hh & Hal & Hfree). simpl in Hal, Hfree.
    apply wp_bind. exists (g, go), s'. split; [exact E|]. apply wp_ret. simpl in HQ. simpl.
    destruct HQ as [(-> & Hg & w' & Hinv' & Hw')|(-> & He & w' & Hinv' & Hw')].
    - rewrite (proj2 (Z.eqb_neq _ _) Hg). exists w'. 
      apply (tinv_calm w w' L (mkRange g len true true :: L) [Scanning a len] [] F0 s s' Ht);
        simpl; try done; try lia; [|by apply held_same_gc].
      by replace (len + live_total L + 0 + msum weight F0) with (live_total L + len + msum weight F0) by lia.
    - rewrite Z.eqb_refl. exists w'.
      assert (forall b, Z.of_nat (length (heads s' (StageFifo b))) + msum (will_stage b) F0 <= 1) as Hst.
      { intros b. specialize (Hh b). pose proof (ti_stage _ _ _ _ Ht b) as Hs. simpl in Hs. lia. }
      destruct go; simpl;
        (eapply (tinv_next w w' L L [Scanning a len] [_]); [exact Ht|..]);
        simpl; intros; rewrite ?Z.add_0_r, ?Hal;
        try (rewrite (moved_taken w w') by eauto using held_same_gc); auto; try lia.
      + by constructor.
      + unfold fupd. case_decide as Hd; [subst|by rewrite bool_decide_eq_false_2 by congruence].
        rewrite (Hfree eq_refl), bool_decide_eq_true_2 by done. done.
      + specialize (Hst a0). case_bool_decide as Hd; [subst|simpl; lia].
        pose proof (flag_free _ _ _ _ _ Ht (Hfree eq_refl)) as Hz. simpl in Hz. rewrite He. simpl. lia. }
  eapply (wp_stage_section c gc cc Hco); [exact Hinv|lia|done|..].
  - intros g s' Hg Hne. by left.
  - intros s' w' go Hinv' Hw' He. right. split_and!; [done|done|by exists w'].
Qed.

(** Clearing the flag. *)
Lemma clear_flag a f f' w L F0 s :
  tinv w L (f :: F0) s -> flight_ok f' -> weight f' = weight f -> booked f' = weight f ->
  booked f = weight f -> (forall i, has_taken i f' = has_taken i f) ->
  (forall i, has_done i f' = has_done i f) ->
  (forall b, has_flag b f' = 0) -> (forall b, will_stage b f' = 0) ->
  (forall b, has_flag b f = Z.b2z (bool_decide (a = b))) ->
  tinv w L (f' :: F0) (set_alloc (fupd (allocating s) a false) (seg_alloc_nr s) (seg_md_log s) s).
Proof.
  intros Ht Hok Hwt Hb Hbo Htk Hdn Hfl' Hws Hfl0.
  destruct (tinv_head _ _ _ _ _ Ht) as (Hinv & _ & Hlen & Hcap & _).
  assert (allocating s a = true) as Ha.
  { pose proof (ti_flag _ _ _ _ Ht a) as Hf. simpl in Hf.
    rewrite Hfl0, bool_decide_eq_true_2 in Hf by done.
    pose proof (msum_nonneg (has_flag a) F0 (fun f _ => has_flag_nonneg a f)).
    destruct (allocating s a); [done|]. simpl in Hf. lia. }
  apply (tinv_next w w L L [f] [f'] F0 s _ Ht); simpl; intros; rewrite ?Z.add_0_r.
  - rewrite Hwt. by apply inv_frame_alloc.
  - by constructor.
  - lia.
  - rewrite Htk. lia.
  - rewrite Hdn. lia.
  - rewrite Hfl', Hfl0. unfold fupd. case_decide as Hd; [subst|].
    + rewrite Ha, bool_decide_eq_true_2 by done. done.
    + rewrite bool_decide_eq_false_2 by congruence. done.
  - rewrite Hws. pose proof (ti_stage _ _ _ _ Ht a0) as Hs. simpl in Hs.
    pose proof (will_stage_le a0 f). lia.
  - rewrite Hb. lia.
Qed.

Lemma wp_adv_staged a len w L F0 s :
  tinv w L (Staged a len :: F0) s -> wp (advance (Staged a len)) (next_ok L F0) s.
Proof.
  intros Ht. destruct (tinv_head _ _ _ _ _ Ht) as (_ & Hok & _). simpl. apply wp_bind, wp_writes.
  apply (wp_adv_scanning a len w). by apply (clear_flag a (Staged a len)).
Qed.

Lemma wp_adv_failed a len w L F0 s :
  tinv w L (Failed a len :: F0) s -> wp (advance (Failed a len)) (next_ok L F0) s.
Proof.
  intros Ht. destruct (tinv_head _ _ _ _ _ Ht) as (_ & [Hok _] & _). simpl. apply wp_bind, wp_writes, wp_ret.
  exists w. by apply (clear_flag a (Failed a len)).
Qed.

(** ** Written segments *)

(** A written segment leaves a call's hands. *)
Lemma done_hands w i y w' :
  w i = Done -> owned y = false -> held_same (fupd w i y) w' ->
  (forall j, Z.b2z (bool_decide (w j = Taken)) = Z.b2z (bool_decide (w' j = Taken))) /\
  (forall j, Z.b2z (bool_decide (w j = Done)) =
             Z.b2z (bool_decide (i = j)) + Z.b2z (bool_decide (w' j = Done))).
Proof.
  intros Hw Hy Hh.
  assert (forall x, owned x = true -> (w' i = x <-> False) /\ (forall j, j <> i -> w' j = x <-> w j = x)) as H.
  { intros x Hx. split; [|intros j Hj]; rewrite <- (Hh _ x Hx).
    - rewrite fupd_same. split; [|done]. congruence.
    - by rewrite fupd_other. }
  split; intros j; destruct (decide (j = i)) as [->|Hne].
  - rewrite (bool_decide_eq_false_2 (w' i = Taken)) by (by intros ?%(proj1 (H Taken eq_refl))).
    by rewrite bool_decide_eq_false_2 by congruence.
  - f_equal. apply bool_decide_ext. symmetry. by apply (H Taken).
  - rewrite (bool_decide_eq_true_2 (i = i)) by done. rewrite (bool_decide_eq_true_2 (w i = Done)) by done.
    rewrite (bool_decide_eq_false_2 (w' i = Done)) by (by intros ?%(proj1 (H Done eq_refl))). done.
  - rewrite (bool_decide_eq_false_2 (i = j)) by congruence. rewrite Z.add_0_l. f_equal.
    apply bool_decide_ext. symmetry. by apply (H Done).
Qed.

(** The call that had it ends. *)
Lemma done_next f i y w w' L F0 s s' :
  tinv w L (f :: F0) s -> f = Destaging i \/ (exists a, f = Releasing a i) ->
  owned y = false -> held_same (fupd w i y) w' ->
  inv_used w' L (live_total L + msum weight F0) s' -> allocating s' = allocating s ->
  (forall b, (length (heads s' (StageFifo b)) <= length (heads s (StageFifo b)))%nat) ->
  tinv w' L F0 s'.
Proof.
  intros Ht Hf Hy Hh Hinv' Hal Hl. pose proof (holds_done _ _ _ _ _ _ Ht Hf) as Hw.
  destruct (tinv_head _ _ _ _ _ Ht) as (_ & _ & Hlen & Hcap & _).
  destruct (done_hands w i y w' Hw Hy Hh) as [H1 H2].
  assert ((forall j, has_done j f = Z.b2z (bool_decide (i = j))) /\ (forall j, has_taken j f = 0) /\
          booked f = 0 /\ (forall a, has_flag a f = 0) /\ (forall a, will_stage a f = 0))
    as (Hfd & Hft & Hfb & Hff & Hfs) by (by destruct Hf as [->|[a ->]]).
  apply (tinv_next w w' L L [f] [] F0 s s' Ht); simpl; intros; rewrite ?Z.add_0_r; try done.
  - lia.
  - by rewrite Hft, H1.
  - by rewrite Hfd, H2.
  - by rewrite Hff, Hal.
  - specialize (Hl a). pose proof (ti_stage _ _ _ _ Ht a) as Hs. simpl in Hs. rewrite Hfs in Hs. lia.
  - lia.
Qed.

Lemma wp_adv_releasing a i w L F0 s :
  tinv w L (Releasing a i :: F0) s -> wp (advance (Releasing a i)) (next_ok L F0) s.
Proof.
  intros Ht. destruct (tinv_head _ _ _ _ _ Ht) as (Hinv & Hi & _). simpl in Hinv. rewrite Z.add_0_r in Hinv.
  pose proof (holds_done _ _ _ i _ _ Ht (or_intror (ex_intro _ a eq_refl))) as Hw.
  simpl. apply wp_bind, wp_calm; [intros; by apply calm_enqueue|].
  eapply (wp_enqueue_done c gc cc); [exact Hinv|done|done|]. intros s' Hinv' Hal Hh. apply wp_ret.
  exists (fupd w i (At (DoneFifo a))).
  eapply (done_next (Releasing a i) i (At (DoneFifo a))); [exact Ht|right; by exists a|done|done..].
Qed.

Lemma wp_adv_destaging i w L F0 s :
  tinv w L (Destaging i :: F0) s -> wp (advance (Destaging i)) (next_ok L F0) s.
Proof.
  intros Ht. destruct (tinv_head _ _ _ _ _ Ht) as (Hinv & Hi & _). simpl in Hinv. rewrite Z.add_0_r in Hinv.
  pose proof (holds_done _ _ _ i _ _ Ht (or_introl eq_refl)) as Hw.
  simpl. apply wp_bind, wp_calm; [intros; by apply calm_destaged|].
  eapply (wp_destage c gc cc Hco); [exact Hinv|done|done|]. intros s' w' Hinv' Hhs Hal Hh. apply wp_ret.
  exists w'. eapply (done_next (Destaging i) i Out); [exact Ht|by left|done|done..].
Qed.

Lemma wp_adv_sorting i valid len w L F0 s :
  tinv w L (Sorting i valid len :: F0) s -> wp (advance (Sorting i valid len)) (next_ok L F0) s.
Proof.
  intros Ht. destruct (tinv_head _ _ _ _ _ Ht) as (Hinv & (Hi & Hv & Hr) & Hlen & Hcap & _).
  simpl in Hcap. simpl. apply wp_bind, wp_calm; [intros; by apply calm_invalidate_rest|].
  eapply wp_mono; [by apply (keeps_invalidate_rest c gc cc Hco i valid Hi Hv), Hinv|].
  intros [] s' (w' & Hinv' & Hh') Hal Hh. apply wp_ret. exists w'.
  eapply (tinv_calm w w' L L [Sorting i valid len] [Returning len]);
    [exact Ht| |by apply held_same_gc|done|done|..]; simpl; intros; rewrite ?Z.add_0_r; auto; lia.
Qed.

(** ** Every call goes on *)

Lemma wp_advance f w L F0 s : tinv w L (f :: F0) s -> wp (advance f) (next_ok L F0) s.
Proof.
  intros Ht. destruct f.
  - by eapply wp_adv_checked.
  - by eapply wp_adv_back; [left|].
  - by eapply wp_adv_scanning.
  - by eapply wp_adv_queueing.
  - by eapply wp_adv_popping.
  - by eapply wp_adv_popped.
  - by eapply wp_adv_staged.
  - by eapply wp_adv_failed.
  - by eapply wp_adv_back; [right|].
  - by eapply wp_adv_releasing.
  - by eapply wp_adv_destaging.
  - by eapply wp_adv_sorting.
Qed.

(** ** Calls begin *)

Lemma begin_allocate w L F s len a reloc :
  tinv w L F s -> 0 < len < 2 ^ 32 -> (seg_size c <? u64 (len + reserved_per_seg cc)) = false ->
  Z.of_nat (length F) < MAX_FLIGHTS -> tinv w L (Checked a len reloc :: F) s.
Proof.
  intros Ht Hr Hfit Hlen. destruct (co_res _ _ _ Hco). destruct (co_size _ _ _ Hco).
  rewrite wrap_small in Hfit by (unfold in_width; lia). apply Z.ltb_ge in Hfit.
  destruct Ht as [T1 T2 T3 T4 T5 T6 T7 T8].
  by split; simpl; auto; [constructor; [split|done]|lia].
Qed.

(** The last release of a segment takes it into the call's hands. *)
Lemma begin_release w L L0 e F s a :
  tinv w L F s -> L ≡ₚ e :: L0 -> r_pend e = true -> Z.of_nat (length F) < MAX_FLIGHTS ->
  wp (release_count c (r_grain e) (r_len e)) (fun o s' => exists w',
    tinv w' (released e ++ L0) ((match o with Some i => [Releasing a i] | None => [] end) ++ F) s') s.
Proof.
  intros Ht Hp He Hlen. pose proof (ti_cap _ _ _ _ Ht) as Hcap.
  assert (live_total (released e ++ L0) = live_total L) as Hlt.
  { rewrite live_total_released. by rewrite <- (live_total_perm _ _ Hp). }
  apply wp_calm; [intros; apply calm_release_count|].
  eapply (wp_release_count c gc cc Hco); [exact (ti_inv _ _ _ _ Ht)|exact Hp|done|..].
  - intros s' Hinv' Hal Hh. exists w.
    apply (tinv_calm w w L _ [] [] F s s' Ht); simpl; rewrite ?Hlt, ?Z.add_0_r; try done. lia.
  - intros i s' Hi Hw Hinv' Hal Hh. exists (fupd w i Done).
    apply (tinv_next w _ L _ [] [Releasing a i] F s s' Ht); simpl; intros;
      rewrite ?Hlt, ?Hal, ?Z.add_0_r; try done.
    + by constructor.
    + lia.
    + unfold fupd. case_decide as Hd; [subst; by rewrite Hw|done].
    + unfold fupd. case_decide as Hd; [subst|].
      * by rewrite Hw, !bool_decide_eq_true_2 by done.
      * by rewrite bool_decide_eq_false_2 by congruence.
    + specialize (Hh a0). pose proof (ti_stage _ _ _ _ Ht a0). lia.
Qed.

Lemma begin_pop_done w L F s a :
  tinv w L F s -> Z.of_nat (length F) < MAX_FLIGHTS ->
  wp (cds_queue_base_pop_head (DoneFifo a)) (fun o s' => exists w',
    tinv w' L ((match o with Some i => [Destaging i] | None => [] end) ++ F) s') s.
Proof.
  intros Ht Hlen. pose proof (ti_cap _ _ _ _ Ht) as Hcap.
  apply wp_calm; [intros; apply calm_pop_head|].
  eapply (wp_pop_done c gc cc); [exact (ti_inv _ _ _ _ Ht)|by exists w|].
  intros i s' Hi Hw Hinv' Hal Hh. exists (fupd w i Done).
  apply (tinv_next w _ L _ [] [Destaging i] F s s' Ht); simpl; intros;
    rewrite ?Hal, ?Z.add_0_r; try done.
  - by constructor.
  - lia.
  - unfold fupd. case_decide as Hd; [subst; by rewrite Hw|done].
  - unfold fupd. case_decide as Hd; [subst|].
    + by rewrite Hw, !bool_decide_eq_true_2 by done.
    + by rewrite bool_decide_eq_false_2 by congruence.
  - specialize (Hh a0). pose proof (ti_stage _ _ _ _ Ht a0). lia.
Qed.

(** What is counted out of a segment stays in the capacity in use until the call
    ends. *)
Lemma begin_invalidate w L L0 e F s (reloc : bool) i :
  tinv w L F s -> L ≡ₚ e :: L0 -> r_live e = true -> Z.of_nat (length F) < MAX_FLIGHTS ->
  scm_grain_to_segment c (r_grain e) = Some i ->
  wp (seg_putn i (u32 (r_len e))) (fun valid s' => exists w',
    tinv w' (invalidated e ++ L0)
      ([if reloc then Returning (r_len e) else Sorting i valid (r_len e)] ++ F) s') s.
Proof.
  intros Ht Hp He Hlen Hseg. destruct (co_size _ _ _ Hco). destruct (co_res _ _ _ Hco).
  pose proof (ti_inv _ _ _ _ Ht) as Hinv. pose proof (ti_cap _ _ _ _ Ht) as Hcap.
  assert (range_ok c cc e) as Hre.
  { destruct Hinv as [[_ _ HL _] _]. eapply ledger_ok_perm in HL; [|exact Hp].
    by destruct HL as [[? _]%Forall_cons_iff _]. }
  pose proof (proj1 (in_seg_segment c gc cc Hco i e Hre) Hseg) as [Hin Hi].
  assert (0 < r_len e < 2 ^ 32) as Hr.
  { destruct Hre as [He1 He2 He3 He4 _]. pose proof (Z.mod_pos_bound (r_grain e) (seg_size c)). lia. }
  pose proof (live_total_invalidated e L0 He) as Htot. rewrite <- (live_total_perm _ _ Hp) in Htot.
  rewrite wrap_small by (unfold in_width; lia). apply wp_calm; [intros; apply calm_seg_putn|].
  eapply (wp_invalidate_putn c gc cc Hco); [exact Hinv|exact Hp|done..|]. intros s' Hinv' Hal Hh.
  exists w. destruct (inv_at_seg _ _ _ _ _ _ _ _ Hinv' Hi) as [_ [Hbase _]].
  apply (tinv_calm w w L _ [] [_] F s s' Ht); intros; try done.
  - replace (live_total _ + _ + _) with (live_total L + msum weight F); [done|].
    destruct reloc; simpl; lia.
  - constructor; [|done]. destruct reloc; [done|]. split; [done|]. by split; [apply (sb_valid _ _ Hbase)|].
  - simpl. lia.
  - by destruct reloc.
  - by destruct reloc.
  - by destruct reloc.
  - by destruct reloc.
  - destruct reloc; simpl; lia.
Qed.

(** Steps of the collector and of [drain_remaining_grains]. *)
Lemma tinv_idle {A} (m : scmm A) w L F s x s' :
  tinv w L F s -> (forall b, calm b m) ->
  wp m (fun _ s' => exists w', inv_used w' L (live_total L + msum weight F) s' /\ gc_moved w w') s ->
  m s = Some (x, s') -> exists w', tinv w' L F s'.
Proof.
  intros Ht Hc Hm E. destruct (wp_run _ _ _ _ _ Hm E) as (w' & Hinv' & Hg). exists w'.
  apply (tinv_calm w w' L L [] [] F s s' Ht); simpl; rewrite ?Z.add_0_r; try done.
  - by apply (Hc 0%nat s x s').
  - intros b. by apply (Hc b s x s').
  - exact (ti_len _ _ _ _ Ht).
  - exact (ti_cap _ _ _ _ Ht).
Qed.

Lemma keeps_idle {A} (m : scmm A) w L F s :
  tinv w L F s -> keeps c gc cc m ->
  wp m (fun _ s' => exists w', inv_used w' L (live_total L + msum weight F) s' /\ gc_moved w w') s.
Proof.
  intros Ht Hk. eapply wp_mono; [apply Hk, (ti_inv _ _ _ _ Ht)|].
  intros x s' (w' & Hinv' & Hh). exists w'. split; [done|by apply held_same_gc].
Qed.

(** Every step keeps the invariant. *)
Lemma thread_step_inv x y w :
  thread_step x y -> tinv w x.1.1 x.1.2 x.2 -> exists w', tinv w' y.1.1 y.1.2 y.2.
Proof.
  intros Hst. destruct Hst as
    [L F F0 f s L1 F1 s' Hp E|L F s len stream reloc Hl Hfit _ Hn|L L0 e F s stream reloc o s' Hp He Hn E
    |L L0 e F s reloc i valid s' Hp He Hn Hseg E|L F s a o s' Hn E|L F s stream reloc n s' E
    |L F s o s' E|L F s i bin s' Hi Hst Hv E|L F s i s' Hi Hst E|L F s s' Hty E|L F s s' Hty E];
    cbn [fst snd]; intros Ht; pose proof (ti_inv _ _ _ _ Ht) as Hinv.
  - apply (tinv_perm w L F _ s Hp) in Ht.
    destruct (wp_run _ _ _ _ _ (wp_advance _ _ _ _ _ Ht) E) as [w' Hw']. by exists w'.
  - exists w. by apply begin_allocate.
  - exact (wp_run _ _ _ _ _ (begin_release w L L0 e F s _ Ht Hp He Hn) E).
  - exact (wp_run _ _ _ _ _ (begin_invalidate w L L0 e F s reloc i Ht Hp He Hn Hseg) E).
  - exact (wp_run _ _ _ _ _ (begin_pop_done w L F s a Ht Hn) E).
  - eapply tinv_idle; [exact Ht| |exact (keeps_idle _ _ _ _ _ Ht (keeps_drain c gc cc Hco (stream_to_alltr cc stream reloc)))|exact E].
    intros. apply calm_drain.
  - eapply tinv_idle; [exact Ht| |exact (wp_gc_select c gc cc Hco w L _ s Hinv)|exact E].
    intros. apply calm_gc_select.
  - eapply tinv_idle; [exact Ht| |exact (wp_gc_free c gc cc Hco i bin w L _ s Hinv Hi Hst Hv)|exact E].
    intros. apply calm_relocated.
  - eapply tinv_idle; [exact Ht| |exact (wp_gc_put_back c gc cc Hco i w L _ s Hinv Hi Hst)|exact E].
    intros. apply calm_put_back.
  - eapply tinv_idle; [exact Ht| |exact (keeps_idle _ _ _ _ _ Ht (keeps_xnp_try_pop_one c gc cc Hco Hty))|exact E].
    intros. apply calm_try_pop_one.
  - eapply tinv_idle; [exact Ht| |refine (keeps_idle _ _ _ _ _ Ht (keeps_update_segs c gc cc Hco _))|exact E];
      [intros; apply calm_update_segs|congruence].
Qed.

Lemma threads_inv s0 w0 L F s :
  tinv w0 [] [] s0 -> rtc thread_step ([], [], s0) (L, F, s) -> exists w, tinv w L F s.
Proof.
  intros Hinit Hr.
  assert (forall x y, rtc thread_step x y -> (exists w, tinv w x.1.1 x.1.2 x.2) ->
            exists w, tinv w y.1.1 y.1.2 y.2) as Hall.
  { induction 1 as [|x y z Hst _ IH]; [done|]. intros [w Hw]. apply IH. by eapply thread_step_inv. }
  apply (Hall _ _ Hr). by exists w0.
Qed.

(** ** Whole calls are runs

    A call of SalsaRun is what a thread does when no other thread comes between. *)

Local Abbreviation steps := (rtc thread_step).

Lemma bind_inv {A B} (m : scmm A) (f : A -> scmm B) s x s' :
  (m ≫= f) s = Some (x, s') -> exists a s1, m s = Some (a, s1) /\ f a s1 = Some (x, s').
Proof.
  unfold mbind, stm_bind. destruct (m s) as [[a s1]|]; [|done]. intros E. by exists a, s1.
Qed.

Lemma bind_do {A B} (m : scmm A) (f : A -> scmm B) s a s1 :
  m s = Some (a, s1) -> (m ≫= f) s = f a s1.
Proof. intros E. unfold mbind, stm_bind. by rewrite E. Qed.

Lemma advance_alone f L s L1 F1 s' y :
  advance f s = Some ((L1, F1), s') -> steps (L1 ++ L, F1, s') y -> steps (L, [f], s) y.
Proof.
  intros E Hy. eapply rtc_l; [|exact Hy].
  pose proof (ts_advance L [f] [] f s L1 F1 s' ltac:(done) E) as H. by rewrite app_nil_r in H.
Qed.

(** From the choice of a queue on. *)
Lemma run_segment a len L s rc s' y :
  allocator_allocate_segment c cc a s = Some (rc, s') ->
  steps (L, [if rc =? 0 then Staged a len else Failed a len], s') y ->
  steps (L, [Queueing a len], s) y.
Proof.
  unfold allocator_allocate_segment, scm_get_free_seg. intros E Hy.
  apply bind_inv in E as (answer & s2 & E & E2). apply bind_inv in E as ([err q] & s1 & E0 & E1).
  eapply advance_alone; [simpl; by rewrite (bind_do _ _ _ _ _ E0)|]. destruct q as [p|].
  - apply bind_inv in E1 as (o & s3 & E1 & E3).
    eapply advance_alone; [simpl; by rewrite (bind_do _ _ _ _ _ E1)|].
    eapply advance_alone; [|exact (Hy : steps ([] ++ L, [_], s') y)]. simpl.
    erewrite bind_do; [reflexivity|]. rewrite (bind_do _ _ _ _ _ E3). exact E2.
  - injection E1 as <- <-. assert (err <> 0) as Herr.
    { destruct (wp_get_free_queue c cc Hfl a s (fun r _ => r.2 = None -> r.1 <> 0)) as (r & s3 & E & H);
        [done|done|]. rewrite E0 in E. injection E as <- <-. by apply H. }
    revert E2. unfold stage_segment. rewrite (proj2 (Z.eqb_neq err 0) Herr). cbn [negb].
    intros [= <- <-]. exact Hy.
Qed.

(** From a pass over the staging list on, with all its retries. *)
Lemma run_retry fuel a len L f s0 s g s' y :
  advance f s0 = (r ← stage_section c cc a len; mret (after_section a len r)) s ->
  allocate_retry c cc fuel a len s = Some (g, s') ->
  steps (if g =? SALSA_INVAL_GRAIN then (L, [Returning len], s')
         else (mkRange g len true true :: L, [], s')) y ->
  steps (L, [f], s0) y.
Proof.
  revert f s0 s. induction fuel as [|fuel IH]; intros f s0 s Hf E Hy; cbn [allocate_retry] in E;
    apply bind_inv in E as ([grain go] & s1 & E1 & E); rewrite (bind_do _ _ _ _ _ E1) in Hf;
    unfold after_section in Hf; destruct go.
  - eapply advance_alone; [exact Hf|].
    apply bind_inv in E as (rc & s2 & E2 & E). apply bind_inv in E as ([] & s3 & E3 & E).
    injection E3 as <-. eapply run_segment; [exact E2|]. destruct (rc =? 0); [done|].
    injection E as <- <-. by eapply advance_alone; [reflexivity|].
  - injection E as <- <-. by destruct (grain =? _); (eapply advance_alone; [exact Hf|]).
  - eapply advance_alone; [exact Hf|].
    apply bind_inv in E as (rc & s2 & E2 & E). apply bind_inv in E as ([] & s3 & E3 & E).
    injection E3 as <-. eapply run_segment; [exact E2|]. destruct (rc =? 0).
    + by eapply IH; [|exact E|].
    + injection E as <- <-. by eapply advance_alone; [reflexivity|].
  - injection E as <- <-. by destruct (grain =? _); (eapply advance_alone; [exact Hf|]).
Qed.

Lemma run_allocate L s fuel len stream reloc rc g s' :
  0 < len < 2 ^ 32 ->
  allocate_grains_no_wait c ctlrs cc fuel len stream reloc s = Some ((rc, g), s') ->
  steps (L, [], s) (alloc_result L len rc g, [], s').
Proof.
  unfold allocate_grains_no_wait, provision_grains. intros Hlen E.
  destruct (seg_size c <? _) eqn:Hfit; [by injection E as <- <- <-|].
  apply bind_inv in E as (rc1 & s1 & E1 & E). apply bind_inv in E1 as (crit & s2 & [= <- <-] & E1).
  destruct (negb reloc && _) eqn:Hcrit.
  { injection E1 as <- <-. by injection E as <- <- <-. }
  eapply rtc_l; [by apply (ts_allocate L [] s len stream reloc)|].
  apply bind_inv in E1 as (ok & s2 & E1 & E2).
  eapply advance_alone; [simpl; by rewrite (bind_do _ _ _ _ _ E1)|]. destruct ok.
  - injection E2 as <- <-. cbn [Z.eqb negb] in E.
    apply bind_inv in E as (grain & s3 & E3 & E). eapply run_retry; [reflexivity|exact E3|].
    destruct (grain =? SALSA_INVAL_GRAIN).
    + apply bind_inv in E as ([] & s4 & E4 & E). injection E as <- <- <-.
      by eapply advance_alone; [simpl; by rewrite (bind_do _ _ _ _ _ E4)|].
    + by injection E as <- <- <-.
  - apply bind_inv in E2 as ([] & s3 & E3 & [= <- <-]). injection E as <- <- <-.
    by eapply advance_alone; [simpl; by rewrite (bind_do _ _ _ _ _ E3)|].
Qed.

Lemma run_invalidate L L0 e s reloc s' :
  L ≡ₚ e :: L0 -> r_live e = true ->
  invalidate_grains c gc (r_grain e) (r_len e) reloc s = Some (tt, s') ->
  steps (L, [], s) (invalidated e ++ L0, [], s').
Proof.
  unfold invalidate_grains, scm_invalidate_grains. intros Hp He E.
  apply bind_inv in E as (i & s1 & E1 & E).
  assert (scm_grain_to_segment c (r_grain e) = Some i /\ s1 = s) as [Hseg ->].
  { revert E1. unfold lifto. destruct (scm_grain_to_segment _ _); [|done]. by intros [= <- <-]. }
  apply bind_inv in E as ([] & s2 & E2 & E). destruct reloc; cbn [negb] in E2.
  - unfold gc_page_invalidate_reloc in E2. apply bind_inv in E2 as (v & s3 & E2 & [= <-]).
    eapply rtc_l; [by eapply (ts_invalidate L L0 e [] s true i v)|].
    by eapply advance_alone; [simpl; by rewrite (bind_do _ _ _ _ _ E)|].
  - rewrite gc_page_invalidate_split in E2. apply bind_inv in E2 as (v & s3 & E2 & E3).
    eapply rtc_l; [by eapply (ts_invalidate L L0 e [] s false i v)|].
    eapply advance_alone; [simpl; by rewrite (bind_do _ _ _ _ _ E3)|].
    by eapply advance_alone; [simpl; by rewrite (bind_do _ _ _ _ _ E)|].
Qed.

Lemma run_call x y :
  salsa_step c gc ctlrs cc x y -> steps (x.1, [], x.2) (y.1, [], y.2).
Proof.
  intros Hst. destruct Hst as
    [L s len stream reloc rc g s' Hlen E|L L0 e s stream reloc s' Hp He E|L L0 e s reloc s' Hp He E
    |L s stream reloc n s' E|L s a s' E|L s o s' E|L s i bin s' Hi Hst Hv E|L s i s' Hi Hst E
    |L s s' Ht E|L s s' Ht E]; cbn [fst snd].
  - by eapply run_allocate.
  - unfold release_grains, allocator_release_grains in E. apply bind_inv in E as (o & s1 & E1 & E).
    eapply rtc_l; [by eapply (ts_release L L0 e [] s stream reloc o s1)|]. destruct o as [i|].
    + by eapply advance_alone; [simpl; by rewrite (bind_do _ _ _ _ _ E)|].
    + by injection E as <-.
  - by eapply run_invalidate.
  - apply rtc_once. by eapply ts_drain.
  - unfold lsa_allocator_thread in E. apply bind_inv in E as (o & s1 & E1 & E).
    eapply rtc_l; [by eapply (ts_pop_done L [] s a o s1)|]. destruct o as [i|].
    + by eapply advance_alone; [simpl; by rewrite (bind_do _ _ _ _ _ E)|].
    + by injection E as <-.
  - apply rtc_once. by eapply ts_gc_select.
  - apply rtc_once. by eapply ts_gc_free.
  - apply rtc_once. by eapply ts_gc_put_back.
  - apply rtc_once. by eapply ts_gc_pop.
  - apply rtc_once. by eapply ts_gc_update.
Qed.

End Steps.

Section Overlapping.
Context (c : scm_conf) (gc : gc_conf) (ctlrs : ctl_table) (cc : ctlr_conf).

(** A device set up without errors, and a state it has come to with the ledger
    [L] while the calls [F] are under way. *)
Record overlapping (L : ledger) (F : list flight) (s : scm) : Prop := {
  ov_conf : conf_ok c gc cc;
  ov_flags : flags_ok cc;
  ov_cap : 0 <= max_capacity cc;
  ov_reach : exists grain_size ranges s0,
    device_ok c grain_size ranges /\
    scm_seg_queues_init c grain_size ranges (scm_zero c) = Some (0, s0) /\
    rtc (thread_step c gc ctlrs cc) ([], [], s0) (L, F, s)
}.

(** Every state of SalsaRun is one of these, with no call under way. *)
Lemma running_overlapping L s :
  0 <= max_capacity cc -> running c gc ctlrs cc L s -> overlapping L [] s.
Proof.
  intros Hc [Hco Hfl (gs & rs & s0 & Hd & Hb & Hr)]. split; [done|done|done|].
  exists gs, rs, s0. split; [done|]. split; [done|].
  assert (forall x y, rtc (salsa_step c gc ctlrs cc) x y ->
            rtc (thread_step c gc ctlrs cc) (x.1, [], x.2) (y.1, [], y.2)) as Hall.
  { induction 1 as [|x y z Hst _ IH]; [done|]. etrans; [by apply run_call|done]. }
  apply (Hall _ _ Hr).
Qed.

Lemma calm_init b gs rs : calm b (scm_seg_queues_init c gs rs).
Proof.
  assert (forall base n d rr prop q rsi todo ins,
            calm b (fill_loop c base n d rr prop q rsi todo ins)) as Hfill.
  { intros base n d rr prop q rsi todo. revert rsi.
    induction todo as [|todo IH]; intros rsi ins; cbn [fill_loop];
      unfold seg_upd, cds_queue_base_enqueue_tail; calm. }
  assert (forall bps i, calm b (init_ranges c bps i rs)) as Hrs.
  { intros bps. induction rs as [|r rs' IH]; intros i; cbn [init_ranges];
      unfold fill_queue, cds_queue_base_size; calm. }
  unfold scm_seg_queues_init. calm.
Qed.

Lemma overlapping_inv L F s : overlapping L F s -> exists w, tinv c gc cc w L F s.
Proof.
  intros [Hco Hfl Hcap (gs & rs & s0 & Hd & Hb & Hr)].
  destruct (wp_run _ _ _ _ _ (wp_init c gc cc Hco _ _ Hd) Hb) as (_ & w & Hinv & Hrest).
  apply (threads_inv c gc ctlrs cc Hco Hfl s0 w L F s); [|exact Hr].
  assert (forall a, heads s0 (StageFifo a) = []) as Hh.
  { intros a. destruct (calm_init a gs rs _ _ _ Hb) as [_ Hl]. simpl in Hl.
    destruct (heads s0 (StageFifo a)); [done|]. simpl in Hl. lia. }
  assert (forall j, w j <> Taken /\ w j <> Done) as Hw.
  { intros j. destruct (Hrest j) as [->|(q & [->| ->])]; done. }
  split; simpl; intros; rewrite ?Z.add_0_r; try done.
  - by rewrite bool_decide_eq_false_2 by apply Hw.
  - by rewrite bool_decide_eq_false_2 by apply Hw.
  - by rewrite (proj1 (calm_init 0 gs rs _ _ _ Hb)).
  - by rewrite Hh.
  - unfold capacity. lia.
Qed.

(** Two entries of a list of disjoint ranges. *)
Lemma all_disj_lookup L i j r r' :
  all_disj L -> L !! i = Some r -> L !! j = Some r' -> i <> j -> disj r r'.
Proof.
  revert i j. induction L as [|x L IH]; intros i j; simpl; [done|]. intros [Hx HL].
  rewrite list.Forall_forall in Hx. destruct i as [|i], j as [|j]; simpl; intros Hi Hj Hne.
  - done.
  - injection Hi as <-. by apply Hx, (list_elem_of_lookup_2 _ j).
  - injection Hj as <-. apply disj_sym, Hx. by apply (list_elem_of_lookup_2 _ i).
  - eapply IH; [done|exact Hi|exact Hj|lia].
Qed.

(** What a stretch of a call enters in the ledger meets nothing in it. *)
Lemma entered_fresh w L L1 F s : tinv c gc cc w (L1 ++ L) F s -> Forall (fun r => Forall (disj r) L) L1.
Proof.
  intros [[[_ _ [_ HD] _] _] _ _ _ _ _ _ _]. induction L1 as [|r L1 IH]; [done|].
  simpl in HD. destruct HD as [Hr HD]. constructor; [|by apply IH]. by apply Forall_app in Hr as [_ ?].
Qed.

(** A segment in a call's hands is on no list and in no other hands. *)
Lemma in_one_hand w L F s i :
  tinv c gc cc w L F s -> msum (has_taken i) F + msum (has_done i) F <= 1 /\
  (msum (has_taken i) F + msum (has_done i) F = 1 -> forall p, i ∉ heads s p).
Proof.
  intros Ht. rewrite (ti_taken _ _ _ _ _ _ _ Ht i), (ti_done _ _ _ _ _ _ _ Ht i). split.
  - do 2 case_bool_decide; simpl; congruence || lia.
  - intros H1 p Hp. destruct (ti_inv _ _ _ _ _ _ _ Ht) as [[[_ _ Hm] _ _ _] _].
    apply Hm in Hp as [_ Hw]. by rewrite Hw in H1.
Qed.


End Overlapping.

(** ** Two calls that overlap on the small device

    Both have counted their lengths in; the first finds the staging list empty and
    takes the flag, and the second comes before a segment is staged. *)

Local Abbreviation ex_adv := (advance ex_conf ex_gc ex_cc).
Definition ex_t1 : scm := state_of (ex_adv (Checked 0 3 false)) ex_s0.
Definition ex_t2 : scm := state_of (ex_adv (Checked 0 4 false)) ex_t1.
Definition ex_t3 : scm := state_of (ex_adv (Scanning 0 3)) ex_t2.

Lemma ex_overlapping :
  overlapping ex_conf ex_gc [Some 1] ex_cc [] [Queueing 0 3; Scanning 0 4] ex_t3.
Proof.
  split; [exact ex_conf_ok|by split|simpl; lia|].
  exists 32, ex_ranges, ex_s0. split; [exact ex_device_ok|].
  split; [ex_run ex_s0 (scm_seg_queues_init ex_conf 32 ex_ranges) 0 (scm_zero ex_conf)|].
  eapply rtc_l; [apply (ts_allocate _ _ _ _ [] [] ex_s0 4 0 false); [lia|vm_compute; reflexivity..]|].
  eapply rtc_l; [apply (ts_allocate _ _ _ _ [] _ ex_s0 3 0 false); [lia|vm_compute; reflexivity..]|].
  eapply rtc_l.
  { apply (ts_advance _ _ _ _ [] _ [Checked 0 4 false] (Checked 0 3 false) ex_s0 [] [Scanning 0 3] ex_t1);
      [done|]. ex_run ex_t1 (ex_adv (Checked 0 3 false)) (@nil range, [Scanning 0 3]) ex_s0. }
  eapply rtc_l.
  { apply (ts_advance _ _ _ _ [] _ [Scanning 0 3] (Checked 0 4 false) ex_t1 [] [Scanning 0 4] ex_t2);
      [apply Permutation_swap|].
    ex_run ex_t2 (ex_adv (Checked 0 4 false)) (@nil range, [Scanning 0 4]) ex_t1. }
  apply rtc_once.
  apply (ts_advance _ _ _ _ [] _ [Scanning 0 4] (Scanning 0 3) ex_t2 [] [Queueing 0 3] ex_t3);
    [apply Permutation_swap|].
  ex_run ex_t3 (ex_adv (Scanning 0 3)) (@nil range, [Queueing 0 3]) ex_t2.
Qed.

