(* ===== verification/CString.v ===== *)
(** * CString: C strings and numbers in them

    Strings are lists of bytes without their terminating zero.  What the code uses
    of the C library: character classes, decimal output and [strtoul]. *)
From Stdlib Require Import ZArith Lia Ascii String.
From stdpp Require Import base tactics list numbers.
From S2P Require Import Prelude.

Open Scope Z_scope.

(** The bytes of a string literal. *)
Definition cstr (s : string) : list Z := (fun c => Z.of_nat (nat_of_ascii c)) <$> list_ascii_of_string s.

Definition isspace (c : Z) : bool := (c =? 32) || ((9 <=? c) && (c <=? 13)).
Definition isdigit (c : Z) : bool := (48 <=? c) && (c <=? 57).

Fixpoint skip_spaces (s : list Z) : list Z :=
  match s with
  | c :: s' => if isspace c then skip_spaces s' else s
  | [] => []
  end.

(** ** Reading numbers *)

Fixpoint scan_digits (s : list Z) (acc : Z) : Z * list Z :=
  match s with
  | c :: s' => if isdigit c then scan_digits s' (10 * acc + (c - 48)) else (acc, s)
  | [] => (acc, [])
  end.

(** The value of a letter or digit; 36 for other characters. *)
Definition digit_val (c : Z) : Z :=
  if isdigit c then c - 48
  else if (97 <=? c) && (c <=? 122) then c - 87
  else if (65 <=? c) && (c <=? 90) then c - 55
  else 36.

Fixpoint scan_base (base : Z) (s : list Z) (acc : Z) : Z * list Z :=
  match s with
  | c :: s' => if digit_val c <? base then scan_base base s' (base * acc + digit_val c) else (acc, s)
  | [] => (acc, [])
  end.

(** An optional sign. *)
Definition scan_sign (s : list Z) : bool * list Z :=
  match s with
  | c :: r => if c =? 45 then (true, r) else if c =? 43 then (false, r) else (false, s)
  | [] => (false, [])
  end.

(** The digits behind the sign with base 0: hexadecimal behind 0x, octal behind 0,
    else decimal; [None] without a digit. *)
Definition scan_number (s : list Z) : option (Z * list Z) :=
  match s with
  | [] => None
  | c :: r =>
      if c =? 48 then
        match r with
        | x :: ((h :: _) as r') =>
            Some (if ((x =? 120) || (x =? 88)) && (digit_val h <? 16) then scan_base 16 r' 0 else scan_base 8 s 0)
        | _ => Some (scan_base 8 s 0)
        end
      else if isdigit c then Some (scan_base 10 s 0) else None
  end.

(** [strtoul(s, &endp, 0)]: the value and the text at [endp]. *)
Definition strtoul (s : list Z) : Z * list Z :=
  let '(neg, s2) := scan_sign (skip_spaces s) in
  match scan_number s2 with
  | None => (0, s)
  | Some (m, r) => (if 2 ^ 64 <=? m then 2 ^ 64 - 1 else if neg : bool then u64 (- m) else m, r)
  end.

(** ** Printing numbers *)

(** [%lu], for numbers below 10^20. *)
Fixpoint dec_digits (fuel : nat) (n : Z) : list Z :=
  match fuel with
  | O => []
  | S k => if n <? 10 then [48 + n] else dec_digits k (n / 10) ++ [48 + n mod 10]
  end.
Definition dec (n : Z) : list Z := dec_digits 20 n.

(** ** Printed numbers are read back *)

Lemma dec_digits_nonempty k n : 0 < Z.of_nat k -> exists c l, dec_digits k n = c :: l.
Proof.
  intros Hk. destruct k as [|k]; [lia|]. cbn [dec_digits]. destruct (n <? 10); [eauto|].
  destruct (dec_digits k (n / 10)); simpl; eauto.
Qed.

Lemma dec_digits_digit k : forall n, 0 <= n -> Forall (fun c => 48 <= c <= 57) (dec_digits k n).
Proof.
  induction k as [|k IH]; intros n Hn; [constructor|]. cbn [dec_digits].
  destruct (Z.ltb_spec n 10); [repeat constructor; lia|]. apply Forall_app. split; [apply IH; apply Z.div_pos; lia|].
  repeat constructor; pose proof (Z.mod_pos_bound n 10); lia.
Qed.

Lemma digit_char c : 48 <= c <= 57 -> isdigit c = true /\ isspace c = false /\ digit_val c = c - 48.
Proof.
  intros Hc. assert (isdigit c = true) as Hd by (unfold isdigit; by rewrite (proj2 (Z.leb_le 48 c)), (proj2 (Z.leb_le c 57)) by lia).
  split; [done|]. split; [|unfold digit_val; by rewrite Hd].
  unfold isspace. rewrite (proj2 (Z.eqb_neq c 32)), (proj2 (Z.leb_gt c 13)) by lia. cbn. by rewrite andb_false_r.
Qed.

Lemma scan_dec_digits k : forall n r acc, 0 <= n < 10 ^ Z.of_nat k ->
  exists p, scan_digits (dec_digits k n ++ r) acc = scan_digits r (acc * p + n).
Proof.
  induction k as [|k IH]; intros n r acc Hn.
  { exists 1. simpl. f_equal. simpl in Hn. lia. }
  cbn [dec_digits]. assert (forall c r a, 0 <= c < 10 -> scan_digits ((48 + c) :: r) a = scan_digits r (10 * a + c)) as Hone.
  { intros c r' a Hc. cbn [scan_digits]. rewrite (proj1 (digit_char (48 + c) ltac:(lia))). f_equal. lia. }
  destruct (Z.ltb_spec n 10).
  - exists 10. cbn [app]. rewrite Hone by lia. f_equal. lia.
  - rewrite Nat2Z.inj_succ, Z.pow_succ_r in Hn by lia.
    destruct (IH (n / 10) ([48 + n mod 10] ++ r) acc) as [p Hp].
    { split; [apply Z.div_pos; lia|apply Z.div_lt_upper_bound; lia]. }
    exists (10 * p). rewrite <- app_assoc, Hp. cbn [app]. rewrite Hone by (apply Z.mod_pos_bound; lia).
    f_equal. pose proof (Z.div_mod n 10). lia.
Qed.

Lemma dec_facts n : 0 <= n -> exists c l, dec n = c :: l /\ Forall (fun c => 48 <= c <= 57) (dec n).
Proof.
  intros Hn. destruct (dec_digits_nonempty 20 n) as (c & l & E); [lia|]. exists c, l. split; [done|].
  by apply dec_digits_digit.
Qed.

(** A character that ends a number. *)
Definition ends_number (s : list Z) : Prop := match s with c :: _ => digit_val c = 36 | [] => True end.

Lemma scan_base_10 s : forall acc, ends_number (snd (scan_digits s acc)) -> scan_base 10 s acc = scan_digits s acc.
Proof.
  induction s as [|c s IH]; intros acc Hr; [done|]. cbn [scan_digits scan_base] in *. destruct (isdigit c) eqn:Ed.
  - unfold isdigit in Ed. apply andb_true_iff in Ed as [H1 H2]. apply Z.leb_le in H1, H2.
    destruct (digit_char c) as (_ & _ & Hv); [lia|]. rewrite Hv, (proj2 (Z.ltb_lt _ 10)) by lia. by apply IH.
  - cbn [snd ends_number] in Hr. by rewrite Hr.
Qed.

(** Only 0 starts with a zero. *)
Lemma dec_digits_head k : forall n, 0 < n < 10 ^ Z.of_nat k -> exists c l, dec_digits k n = c :: l /\ 49 <= c <= 57.
Proof.
  induction k as [|k IH]; intros n Hn; [simpl in Hn; lia|]. rewrite Nat2Z.inj_succ, Z.pow_succ_r in Hn by lia.
  cbn [dec_digits]. destruct (Z.ltb_spec n 10); [exists (48 + n), []; split; [done|lia]|].
  destruct (IH (n / 10)) as (c & l & E & Hc); [split; [apply Z.div_str_pos; lia|apply Z.div_lt_upper_bound; lia]|].
  exists c, (l ++ [48 + n mod 10]). by rewrite E.
Qed.

Lemma strtoul_dec_app n r : in_width 64 n -> ends_number r -> strtoul (dec n ++ r) = (n, r).
Proof.
  unfold in_width. intros Hn Hr. destruct (decide (n = 0)) as [->|Hn0].
  - change (dec 0 ++ r) with (48 :: r). unfold strtoul. change (skip_spaces (48 :: r)) with (48 :: r). change (scan_sign (48 :: r)) with (false, 48 :: r).
    cbv iota beta. assert (scan_base 8 (48 :: r) 0 = (0, r)) as Hs.
    { change (scan_base 8 (48 :: r) 0) with (scan_base 8 r 0). destruct r as [|c r]; [done|]. cbn [ends_number] in Hr. cbn [scan_base]. by rewrite Hr. }
    assert (scan_number (48 :: r) = Some (scan_base 8 (48 :: r) 0)) as ->; [|by rewrite Hs].
    destruct r as [|x [|h r]]; try done. cbn [scan_number]. cbn [ends_number] in Hr.
    destruct (Z.eqb_spec x 120) as [->|]; [done|]. destruct (Z.eqb_spec x 88) as [->|]; [done|]. done.
  - destruct (dec_digits_head 20 n) as (c & l & E & Hc); [change (Z.of_nat 20) with 20; lia|].
    destruct (digit_char c) as (Hd & Hsp & _); [lia|].
    destruct (scan_dec_digits 20 n r 0) as [p Hp]; [change (Z.of_nat 20) with 20; lia|]. rewrite Z.mul_0_l, Z.add_0_l in Hp.
    assert (scan_digits r n = (n, r)) as Hrr.
    { destruct r as [|x r]; [done|]. cbn [ends_number] in Hr. cbn [scan_digits]. destruct (isdigit x) eqn:Ex; [|done].
      unfold digit_val in Hr. rewrite Ex in Hr. unfold isdigit in Ex. lia. }
    rewrite Hrr in Hp. fold (dec n) in Hp, E. unfold strtoul. rewrite E in *. cbn [app] in *. cbn [skip_spaces]. rewrite Hsp. cbn [scan_sign].
    rewrite (proj2 (Z.eqb_neq c 45)), (proj2 (Z.eqb_neq c 43)) by lia. cbv iota beta.
    assert (scan_number (c :: l ++ r) = Some (scan_base 10 (c :: l ++ r) 0)) as ->.
    { cbn [scan_number]. rewrite (proj2 (Z.eqb_neq c 48)) by lia. by rewrite Hd. }
    rewrite scan_base_10; rewrite Hp; [|done]. by rewrite (proj2 (Z.leb_gt _ n)) by lia.
Qed.
