(* ===== verification/DevProps.v ===== *)
(** * DevProps: the ranges of a device
      (include/sto-ctlr/scm-dev-properties.h, sto-ctlr/scm-dev-properties.c)

    A device is a sequence of ranges, each with a length in bytes, a storage
    property, the device it lies on, a zone length and a real length.  The
    operations that copy, truncate, append, measure, search and parse such
    sequences, and the map from addresses of the whole to addresses of the devices.

    An array of ranges with its count is the list of the ranges in use.  Device
    pointers are numbers, 0 the null pointer.  [None] is [BUG_ON], a division by
    zero or an access outside the array. *)
From Stdlib Require Import ZArith Lia Ascii String.
From stdpp Require Import base tactics list numbers option.
From S2P Require Import Prelude SalsaScm CString.

Open Scope Z_scope.

Record scm_dev_range_prop := mkDevProp {
  dr_len : Z;
  dr_prop : Z;
  dr_dev : Z;
  dr_zone : Z;
  dr_real : Z
}.

Definition set_len (len : Z) (r : scm_dev_range_prop) : scm_dev_range_prop :=
  mkDevProp len (dr_prop r) (dr_dev r) (dr_zone r) (dr_real r).
Definition set_zone_len (z : Z) (r : scm_dev_range_prop) : scm_dev_range_prop :=
  mkDevProp (dr_len r) (dr_prop r) (dr_dev r) z (dr_real r).

(** [SCM_DEV_RPROP__] and [SCM_DEV_RPROP]. *)
Definition SCM_DEV_RPROP__ (l p r d : Z) : scm_dev_range_prop := mkDevProp l p d 0 r.
Definition SCM_DEV_RPROP (l p : Z) : scm_dev_range_prop := SCM_DEV_RPROP__ l p 0 0.

Notation scm_dev_properties := (list scm_dev_range_prop).

Definition SCM_DEV_RANGES_MAX : nat := 16.
Definition SCM_PROP_DEFAULT : Z := SCM_PROP_FLASH.

Definition scm_dev_prop_is_smr_seq (p : Z) : bool := (SCM_PROP_SMR_SEQ1 <=? p) && (p <=? SCM_PROP_SMR_SEQ2).

(** ** Copying and truncating *)

Fixpoint copy_from (src : scm_dev_properties) (rem_len : Z) : scm_dev_properties * Z :=
  match src with
  | [] => ([], rem_len)
  | r :: src' =>
      if 0 <? rem_len then
        let len := Z.min (dr_len r) rem_len in
        let '(dst, rem') := copy_from src' (rem_len - len) in (set_len len r :: dst, rem')
      else ([], rem_len)
  end.

(** The copy, and what is returned. *)
Definition scm_dev_props_copy (src : scm_dev_properties) (max_len : Z) : scm_dev_properties * Z :=
  let '(dst, rem_len) := copy_from src max_len in (dst, max_len - rem_len).

Definition scm_dev_props_set_default (dev_bytes : Z) : scm_dev_properties := [SCM_DEV_RPROP dev_bytes SCM_PROP_DEFAULT].

Fixpoint truncate_from (props : scm_dev_properties) (grain rem_grains : Z) : option scm_dev_properties :=
  match props with
  | [] => Some []
  | r :: props' =>
      if 0 <? rem_grains then
        if u64 (grain * rem_grains) <? dr_len r then Some [set_len (u64 (grain * rem_grains)) r]
        else if grain =? 0 then None
        else rest ← truncate_from props' grain (u64 (rem_grains - dr_len r / grain)); Some (r :: rest)
      else Some props
  end.

Definition scm_dev_props_truncate_grain (props : scm_dev_properties) (grain max_grains : Z) : option scm_dev_properties :=
  truncate_from props grain max_grains.

(** ** Appending *)

Definition scm_dev_range_props_compatible (p1 p2 : scm_dev_range_prop) : option bool :=
  if negb (dr_prop p1 =? dr_prop p2) then Some false
  else if negb (dr_dev p1 =? dr_dev p2) then Some false
  else if (dr_prop p1 =? SCM_PROP_FLASH) || (dr_prop p1 =? SCM_PROP_SMR_CONV) then Some true
  else if (dr_prop p1 =? SCM_PROP_SMR_SEQ1) || (dr_prop p1 =? SCM_PROP_SMR_SEQ2) then Some (dr_zone p1 =? dr_zone p2)
  else None.

Definition scm_dev_props_add_range_prop (props : scm_dev_properties) (new : scm_dev_range_prop) : option scm_dev_properties :=
  match props !! (length props - 1)%nat with
  | None => Some [new]
  | Some r =>
      c ← scm_dev_range_props_compatible r new;
      if c : bool then Some (<[(length props - 1)%nat := set_len (u64 (dr_len r + dr_len new)) r]> props)
      else if (length props <? SCM_DEV_RANGES_MAX)%nat then Some (props ++ [new])
      else None
  end.

Fixpoint scm_dev_props_append (p1 p2 : scm_dev_properties) : option scm_dev_properties :=
  match p2 with
  | [] => Some p1
  | r :: p2' => p1' ← scm_dev_props_add_range_prop p1 r; scm_dev_props_append p1' p2'
  end.

(** ** Measuring *)

(** [grain] is not 0. *)
Definition scm_dev_props_size_grain_set (props : scm_dev_properties) (grain set : Z) : Z :=
  foldl (fun ret r => if scm_prop_set_contains set (dr_prop r) then u64 (ret + dr_len r / grain) else ret) 0 props.

Definition scm_dev_props_real_size_grain_set (props : scm_dev_properties) (grain set : Z) : Z :=
  foldl (fun ret r =>
           if scm_prop_set_contains set (dr_prop r)
           then u64 (ret + (if negb (dr_real r =? 0) then dr_real r else dr_len r) / grain) else ret) 0 props.

Definition scm_dev_props_size_grain (props : scm_dev_properties) (grain : Z) : Z :=
  scm_dev_props_size_grain_set props grain SCM_PROP_SET_ALL.
Definition scm_dev_props_size (props : scm_dev_properties) : Z := scm_dev_props_size_grain_set props 1 SCM_PROP_SET_ALL.

Definition scm_dev_props_copy_full (src : scm_dev_properties) : scm_dev_properties :=
  fst (scm_dev_props_copy src (scm_dev_props_size src)).

(** The lengths of the ranges scaled to [new_len]. *)
Fixpoint scale_from (p : scm_dev_properties) (new_len old_len rem : Z) : list Z :=
  match p with
  | [] => []
  | r :: p' =>
      let n := u64 (u64 (new_len * dr_len r) + old_len - 1) / old_len in
      let n := if rem <? n then rem else n in
      n :: scale_from p' new_len old_len (rem - n)
  end.

Definition scm_dev_props_scale__ (p : scm_dev_properties) (new_len : Z) : option (list Z) :=
  if decide (p = []) then Some []
  else if new_len <? Z.of_nat (length p) then None
  else if scm_dev_props_size p =? 0 then None
  else Some (scale_from p new_len (scm_dev_props_size p) new_len).

(** ** Addresses *)

(** The number of the range at a byte offset. *)
Fixpoint find_from (ps : scm_dev_properties) (offset len : Z) (i : nat) : option nat :=
  match ps with
  | [] => None
  | r :: ps' =>
      let next_len := u64 (len + dr_len r) in
      if offset <? next_len then Some i else find_from ps' offset next_len (S i)
  end.

Definition scm_dev_props_find (ps : scm_dev_properties) (offset : Z) : option nat := find_from ps offset 0 0.

(** [prev] is the length of the range before, [dev] and [addr] are [ret]. *)
Fixpoint linear_from (ps : scm_dev_properties) (prev : option Z) (dev addr rem : Z) : option (Z * Z) :=
  match ps with
  | [] => Some (0, 0)
  | r :: ps' =>
      start ← (if negb (dr_dev r =? dev) then Some 0 else l ← prev; Some (u64 (addr + l)));
      if rem <? dr_len r then Some (dr_dev r, u64 (start + rem))
      else linear_from ps' (Some (dr_len r)) (dr_dev r) start (rem - dr_len r)
  end.

Definition scm_dev_linear_map (ps : scm_dev_properties) (vpba : Z) : option (Z * Z) := linear_from ps None 0 0 vpba.

(** ** Parsing *)

Definition scm_dev_props_parse_attribute (rp : scm_dev_range_prop) (attribute : list Z) : scm_dev_range_prop :=
  if decide (attribute = cstr "zone_len=") then
    let '(z, _) := strtoul (drop 9 attribute) in
    if scm_dev_prop_is_smr_seq (dr_prop rp) then set_zone_len (u32 z) rp else rp
  else rp.

(** [cur] is the attribute from [start] up to where the scan is. *)
Fixpoint scm_dev_props_parse_attrs (rp : scm_dev_range_prop) (s cur : list Z) : scm_dev_range_prop :=
  match s with
  | [] => if decide (cur = []) then rp else scm_dev_props_parse_attribute rp cur
  | c :: s' =>
      if c =? 44 then scm_dev_props_parse_attrs (scm_dev_props_parse_attribute rp cur) s' []
      else scm_dev_props_parse_attrs rp s' (cur ++ [c])
  end.

(** What the specifiers of a range set. *)
Record specs := mkSpecs { sp_prop : Z; sp_real_len : Z; sp_dev : Z; sp_attrs : list Z }.

(** The text up to the closing brace, and behind it. *)
Fixpoint until_brace (s acc : list Z) : option (list Z * list Z) :=
  match s with
  | [] => None
  | c :: s' => if c =? 125 then Some (acc, s') else until_brace s' (acc ++ [c])
  end.

(** The specifiers at [s]; [fuel] bounds the turns of the loop. *)
Fixpoint parse_specs (fuel : nat) (s : list Z) (sp : specs) : option (list Z * specs) :=
  match fuel with
  | O => None
  | S fuel' =>
      match s with
      | [] => Some (s, sp)
      | c :: s' =>
          let '(v, endp) := strtoul s' in
          if c =? 46 then
            let p := if (s64 v <? SCM_PROP_NVRAM) || (SCM_PROP_LAST <=? s64 v) then sp_prop sp else s64 v in
            parse_specs fuel' endp (mkSpecs p (sp_real_len sp) (sp_dev sp) (sp_attrs sp))
          else if c =? 64 then parse_specs fuel' endp (mkSpecs (sp_prop sp) (sp_real_len sp) v (sp_attrs sp))
          else if c =? 47 then parse_specs fuel' endp (mkSpecs (sp_prop sp) v (sp_dev sp) (sp_attrs sp))
          else if c =? 123 then
            match until_brace s' [] with
            | Some (attrs, rest) => parse_specs fuel' rest (mkSpecs (sp_prop sp) (sp_real_len sp) (sp_dev sp) attrs)
            | None => parse_specs fuel' [] (mkSpecs (sp_prop sp) (sp_real_len sp) (sp_dev sp) [])
            end
          else Some (s, sp)
      end
  end.

(** The ranges from number [r_i] on, [n] more at most.  The attributes of a range
    stay for the next ones; [malloc] says whether the copy of range [r_i]'s is
    allocated. *)
Fixpoint parse_ranges (malloc : nat -> bool) (n r_i : nat) (s attrs : list Z) : option scm_dev_properties :=
  match n with
  | O => Some []
  | S n' =>
      let '(len, s1) := strtoul s in
      '(s2, sp) ← parse_specs (S (length s1)) s1 (mkSpecs SCM_PROP_DEFAULT 0 0 attrs);
      let r := SCM_DEV_RPROP__ len (sp_prop sp) (sp_real_len sp) (sp_dev sp) in
      if decide (sp_attrs sp <> [] /\ malloc r_i = false) then Some []
      else
        let r := if decide (sp_attrs sp = []) then r else scm_dev_props_parse_attrs r (sp_attrs sp) [] in
        match s2 with
        | c :: s3 => if c =? 58 then rest ← parse_ranges malloc n' (S r_i) s3 (sp_attrs sp); Some (r :: rest) else Some [r]
        | [] => Some [r]
        end
  end.

Definition scm_dev_props_parse (malloc : nat -> bool) (str : list Z) : option scm_dev_properties :=
  parse_ranges malloc SCM_DEV_RANGES_MAX 0 str [].

(** ** Comparing *)

Inductive scm_dev_props_cmp_t :=
  | SCM_DEV_PROP_CMP_EQ | SCM_DEV_PROP_CMP_NEQ_RANGES | SCM_DEV_PROP_CMP_NEQ_I_PROP | SCM_DEV_PROP_CMP_NEQ_I_LEN
  | SCM_DEV_PROP_CMP_NEQ_I_RLEN | SCM_DEV_PROP_CMP_NEQ_I_DEV.

#[global] Instance cmp_eq_dec : EqDecision scm_dev_props_cmp_t.
Proof. solve_decision. Defined.

Fixpoint cmp_from (p1 p2 : scm_dev_properties) : scm_dev_props_cmp_t :=
  match p1, p2 with
  | r1 :: p1', r2 :: p2' =>
      if negb (dr_prop r1 =? dr_prop r2) then SCM_DEV_PROP_CMP_NEQ_I_PROP
      else if negb (dr_len r1 =? dr_len r2) then SCM_DEV_PROP_CMP_NEQ_I_LEN
      else if negb (dr_real r1 =? dr_real r2) then SCM_DEV_PROP_CMP_NEQ_I_RLEN
      else if negb (dr_dev r1 =? dr_dev r2) then SCM_DEV_PROP_CMP_NEQ_I_DEV
      else cmp_from p1' p2'
  | _, _ => SCM_DEV_PROP_CMP_EQ
  end.

Definition scm_dev_props_cmp (p1 p2 : scm_dev_properties) : scm_dev_props_cmp_t :=
  if negb (length p1 =? length p2)%nat then SCM_DEV_PROP_CMP_NEQ_RANGES else cmp_from p1 p2.

Definition scm_dev_props_eq (p1 p2 : scm_dev_properties) : bool := bool_decide (scm_dev_props_cmp p1 p2 = SCM_DEV_PROP_CMP_EQ).
