(* ===== verification/DevPropsSpec.v ===== *)
(** * DevPropsSpec: devices as bytes

    The operations of [DevProps] against the function that gives each byte of a
    device its property and the device it lies on. *)
From Stdlib Require Import ZArith Lia Ascii String.
From stdpp Require Import base tactics list numbers option.
From S2P Require Import Prelude SalsaScm CString DevProps SalsaInit.

Open Scope Z_scope.

(** ** The bytes of a device *)

Definition total (ps : scm_dev_properties) : Z := foldr (fun r t => dr_len r + t) 0 ps.

(** The property and the device of a byte. *)
Fixpoint at_byte (ps : scm_dev_properties) (off : Z) : option (Z * Z) :=
  match ps with
  | [] => None
  | r :: ps' => if off <? dr_len r then Some (dr_prop r, dr_dev r) else at_byte ps' (off - dr_len r)
  end.

Definition valid_range (r : scm_dev_range_prop) : Prop := 0 <= dr_len r /\ 0 <= dr_prop r < SCM_PROP_LAST.

Record valid_props (ps : scm_dev_properties) : Prop := {
  vp_ranges : Forall valid_range ps;
  vp_total : total ps < 2 ^ 64
}.

Lemma total_app p1 p2 : total (p1 ++ p2) = total p1 + total p2.
Proof. induction p1 as [|r p1 IH]; [done|]. cbn [app]. unfold total in *. cbn [foldr]. lia. Qed.

Lemma total_nonneg ps : Forall valid_range ps -> 0 <= total ps.
Proof. induction 1 as [|r ps [Hr _] _ IH]; [done|]. unfold total in *. cbn [foldr]. lia. Qed.

Lemma valid_cons r ps : valid_props (r :: ps) -> valid_range r /\ valid_props ps.
Proof.
  intros [Hr Ht]. apply Forall_cons_1 in Hr as [Hr Hps]. split; [done|]. split; [done|].
  unfold total in *. cbn [foldr] in Ht. destruct Hr. lia.
Qed.

Lemma at_byte_Some ps off : Forall valid_range ps -> 0 <= off -> is_Some (at_byte ps off) <-> off < total ps.
Proof.
  intros Hv. revert off. induction Hv as [|r ps [Hr _] Hv IH]; intros off Hoff; cbn [at_byte].
  - split; [by intros [? ?]|unfold total; simpl; lia].
  - pose proof (total_nonneg ps Hv). change (total (r :: ps)) with (dr_len r + total ps). destruct (Z.ltb_spec off (dr_len r)).
    + split; [lia|by eexists].
    + rewrite IH by lia. lia.
Qed.

Lemma at_byte_app p1 p2 off : Forall valid_range p1 -> 0 <= off ->
  at_byte (p1 ++ p2) off = if off <? total p1 then at_byte p1 off else at_byte p2 (off - total p1).
Proof.
  intros Hv. revert off. induction Hv as [|r p1 [Hr _] Hv IH]; intros off Hoff; cbn [app at_byte].
  - unfold total. cbn [foldr]. rewrite (proj2 (Z.ltb_ge off 0)) by lia. f_equal. lia.
  - pose proof (total_nonneg p1 Hv). change (total (r :: p1)) with (dr_len r + total p1). destruct (Z.ltb_spec off (dr_len r)).
    + by rewrite (proj2 (Z.ltb_lt off _)) by lia.
    + rewrite IH by lia. destruct (Z.ltb_spec (off - dr_len r) (total p1)).
      * by rewrite (proj2 (Z.ltb_lt off _)) by lia.
      * rewrite (proj2 (Z.ltb_ge off _)) by lia. f_equal. lia.
Qed.

(** ** Sizes *)

Lemma size_total ps : valid_props ps -> scm_dev_props_size ps = total ps.
Proof.
  intros Hv. unfold scm_dev_props_size, scm_dev_props_size_grain_set.
  assert (forall acc, 0 <= acc -> acc + total ps < 2 ^ 64 ->
    foldl (fun ret r => if scm_prop_set_contains SCM_PROP_SET_ALL (dr_prop r) then u64 (ret + dr_len r / 1) else ret) acc ps = acc + total ps) as H.
  { clear -Hv. destruct Hv as [Hv _]. induction Hv as [|r ps [Hr Hp] Hv IH]; intros acc Ha Ht; [unfold total; simpl; lia|].
    cbn [foldl]. pose proof (total_nonneg ps Hv). change (total (r :: ps)) with (dr_len r + total ps) in *.
    rewrite prop_contains by lia. rewrite all_bits by lia. rewrite (proj2 (Z.ltb_lt _ SCM_PROP_LAST)) by lia.
    rewrite Z.div_1_r, wrap_small by (unfold in_width; lia). rewrite IH by lia. lia. }
  rewrite H; [lia|lia|]. destruct Hv. lia.
Qed.

(** ** Copying *)

Lemma copy_from_spec src : forall rem_len dst rem', Forall valid_range src -> 0 <= rem_len -> copy_from src rem_len = (dst, rem') ->
  rem' = rem_len - Z.min rem_len (total src) /\ Forall valid_range dst /\ total dst = Z.min rem_len (total src) /\
  forall off, 0 <= off -> at_byte dst off = if off <? rem_len then at_byte src off else None.
Proof.
  induction src as [|r src IH]; intros rem_len dst rem' Hv Hrem; cbn [copy_from].
  - intros [= <- <-]. unfold total. cbn [foldr]. split; [lia|]. split; [constructor|]. split; [lia|]. intros off _. cbn. by destruct (off <? rem_len).
  - apply Forall_cons_1 in Hv as [[Hr Hp] Hv]. pose proof (total_nonneg src Hv). change (total (r :: src)) with (dr_len r + total src).
    destruct (Z.ltb_spec 0 rem_len).
    + destruct (copy_from src (rem_len - Z.min (dr_len r) rem_len)) as [dst1 rem1] eqn:E. intros [= <- <-].
      apply IH in E as (-> & Hv1 & Ht1 & Hb1); [|done|lia].
      split; [lia|]. split; [constructor; [split; [cbn; lia|done]|done]|].
      change (total (set_len (Z.min (dr_len r) rem_len) r :: dst1)) with (Z.min (dr_len r) rem_len + total dst1). split; [lia|].
      intros off Hoff. cbn [at_byte dr_len set_len dr_prop dr_dev]. destruct (Z.ltb_spec off (Z.min (dr_len r) rem_len)).
      * rewrite (proj2 (Z.ltb_lt off rem_len)), (proj2 (Z.ltb_lt off (dr_len r))) by lia. done.
      * rewrite Hb1 by lia. destruct (Z.ltb_spec off rem_len).
        -- rewrite (proj2 (Z.ltb_lt _ _)), (proj2 (Z.ltb_ge off (dr_len r))) by lia. f_equal. lia.
        -- by rewrite (proj2 (Z.ltb_ge _ _)) by lia.
    + intros [= <- <-]. unfold total at 2. cbn [foldr]. split; [lia|]. split; [constructor|]. split; [lia|].
      intros off Hoff. rewrite (proj2 (Z.ltb_ge off rem_len)) by lia. done.
Qed.

(** ** Appending *)

Lemma last_split {A} (l : list A) : match l !! (length l - 1)%nat with Some x => exists l', l = l' ++ [x] | None => l = [] end.
Proof.
  destruct l as [|x l _] using rev_ind; [done|]. rewrite length_app. cbn [length].
  replace (length l + 1 - 1)%nat with (length l) by lia. rewrite list_lookup_middle by done. by exists l.
Qed.

Lemma compatible_same r new : scm_dev_range_props_compatible r new = Some true -> dr_prop new = dr_prop r /\ dr_dev new = dr_dev r.
Proof.
  unfold scm_dev_range_props_compatible. destruct (Z.eqb_spec (dr_prop r) (dr_prop new)); [|done].
  destruct (Z.eqb_spec (dr_dev r) (dr_dev new)); [|done]. done.
Qed.

Lemma add_range_bytes ps new ps' : valid_props ps -> valid_range new -> total ps + dr_len new < 2 ^ 64 ->
  scm_dev_props_add_range_prop ps new = Some ps' ->
  valid_props ps' /\ total ps' = total ps + dr_len new /\ forall off, 0 <= off -> at_byte ps' off = at_byte (ps ++ [new]) off.
Proof.
  intros [Hv Ht] Hnew Hlt. unfold scm_dev_props_add_range_prop. pose proof (last_split ps) as Hl.
  assert (total [new] = dr_len new) as Htn by (unfold total; simpl; lia).
  destruct (ps !! (length ps - 1)%nat) as [r|].
  - destruct Hl as [l ->]. apply Forall_app in Hv as [Hvl Hvr]. apply Forall_cons_1 in Hvr as [Hvr _].
    destruct (scm_dev_range_props_compatible r new) as [[|]|] eqn:Ec; cbn [mbind option_bind]; [| |done].
    + apply compatible_same in Ec as [Hp Hd]. rewrite total_app in *. unfold total in Hlt at 2. cbn [foldr] in Hlt.
      destruct Hvr as [Hr1 Hr2], Hnew as [Hn1 Hn2]. pose proof (total_nonneg l Hvl). rewrite wrap_small by (unfold in_width; lia).
      intros [= <-]. rewrite length_app. cbn [length]. replace (length l + 1 - 1)%nat with (length l + 0)%nat by lia.
      rewrite insert_app_r. cbn [list_insert insert]. split; [|split].
      * split; [apply Forall_app; split; [done|]; constructor; [|constructor]; split; cbn; [lia|done]|]. rewrite total_app. unfold total at 2. cbn. lia.
      * rewrite total_app. unfold total at 2 4. cbn. lia.
      * intros off Hoff. rewrite <- app_assoc, !at_byte_app by done. destruct (Z.ltb_spec off (total l)); [done|]. cbn [app at_byte set_len dr_len dr_prop dr_dev].
        rewrite Hp, Hd. destruct (Z.ltb_spec (off - total l) (dr_len r)), (Z.ltb_spec (off - total l) (dr_len r + dr_len new)); try lia; try done;
          [by rewrite (proj2 (Z.ltb_lt _ _)) by lia|by rewrite (proj2 (Z.ltb_ge _ _)) by lia].
    + destruct (length (l ++ [r]) <? SCM_DEV_RANGES_MAX)%nat; [|done]. intros [= <-]. rewrite (total_app (l ++ [r])), Htn. split; [|done].
      split; [|rewrite total_app, Htn; lia]. apply Forall_app. split; [by apply Forall_app; split; [|constructor]|]. by constructor.
  - subst ps. intros [= <-]. cbn [app]. split; [|split; [unfold total; simpl; lia|done]]. split; [by constructor|]. rewrite Htn. unfold total in Hlt. cbn in Hlt. lia.
Qed.

Lemma append_bytes p2 : forall p1 p, valid_props p1 -> Forall valid_range p2 -> total p1 + total p2 < 2 ^ 64 -> scm_dev_props_append p1 p2 = Some p ->
  valid_props p /\ total p = total p1 + total p2 /\ forall off, 0 <= off -> at_byte p off = at_byte (p1 ++ p2) off.
Proof.
  induction p2 as [|r p2 IH]; intros p1 p Hv1 Hv2 Hlt; cbn [scm_dev_props_append].
  - intros [= <-]. rewrite app_nil_r. split; [done|]. split; [unfold total at 3; simpl; lia|done].
  - apply Forall_cons_1 in Hv2 as [Hr Hv2]. pose proof (total_nonneg p2 Hv2). change (total (r :: p2)) with (dr_len r + total p2) in *.
    destruct (scm_dev_props_add_range_prop p1 r) as [p1'|] eqn:Ea; cbn [mbind option_bind]; [|done]. intros Happ.
    destruct (add_range_bytes p1 r p1' Hv1 Hr ltac:(lia) Ea) as (Hv' & Ht' & Hb').
    destruct (IH p1' p Hv' Hv2 ltac:(lia) Happ) as (Hvp & Htp & Hbp). split; [done|]. split; [lia|].
    intros off Hoff. rewrite Hbp by done. destruct Hv1 as [Hv1 _], Hv' as [Hv' _].
    rewrite at_byte_app by done. rewrite Hb' by done. change (r :: p2) with ([r] ++ p2). rewrite app_assoc, (at_byte_app (p1 ++ [r])); [|apply Forall_app; by split; [|constructor]|done].
    rewrite (total_app p1 [r]), Ht'. unfold total at 4 6. cbn [foldr]. by rewrite Z.add_0_r.
Qed.

(** Appending fails only on NVRAM ranges and on too many. *)
Lemma append_succeeds p2 : forall p1, Forall (fun r => 0 < dr_prop r < SCM_PROP_LAST) p1 -> Forall (fun r => 0 < dr_prop r < SCM_PROP_LAST) p2 ->
  (length p1 + length p2 <= SCM_DEV_RANGES_MAX)%nat -> is_Some (scm_dev_props_append p1 p2).
Proof.
  induction p2 as [|r p2 IH]; intros p1 H1 H2 Hlen; cbn [scm_dev_props_append]; [by eexists|]. apply Forall_cons_1 in H2 as [Hr H2].
  assert (exists p, scm_dev_props_add_range_prop p1 r = Some p /\ Forall (fun r => 0 < dr_prop r < SCM_PROP_LAST) p /\ (length p <= S (length p1))%nat) as (p & -> & Hp & Hlp).
  { unfold scm_dev_props_add_range_prop. pose proof (last_split p1) as Hl. destruct (p1 !! (length p1 - 1)%nat) as [x|].
    - destruct Hl as [l ->]. apply Forall_app in H1 as [Hl1 Hx]. apply Forall_cons_1 in Hx as [Hx _].
      assert (exists c, scm_dev_range_props_compatible x r = Some c) as [c ->].
      { unfold scm_dev_range_props_compatible. do 2 (destruct (negb _); [by eexists|]). unfold SCM_PROP_LAST, SCM_PROP_FLASH, SCM_PROP_SMR_CONV, SCM_PROP_SMR_SEQ1, SCM_PROP_SMR_SEQ2 in *.
        destruct (_ || _) eqn:E1; [by eexists|]. destruct (_ || _) eqn:E2 in |- *; [by eexists|]. exfalso. repeat (apply orb_false_iff in E1 as [?%Z.eqb_neq ?%Z.eqb_neq] || apply orb_false_iff in E2 as [?%Z.eqb_neq ?%Z.eqb_neq]). lia. }
      cbn [mbind option_bind]. destruct c.
      + eexists. split; [done|]. split; [|rewrite length_insert; lia]. rewrite length_app. cbn [length]. replace (length l + 1 - 1)%nat with (length l + 0)%nat by lia.
        rewrite insert_app_r. apply Forall_app. split; [done|]. by constructor.
      + cbn [length] in Hlen. rewrite (proj2 (Nat.ltb_lt _ _)) by lia. eexists. split; [done|]. split; [|rewrite length_app; simpl; lia].
        apply Forall_app. split; [by apply Forall_app; split; [|constructor]|by constructor].
    - subst p1. exists [r]. split; [done|]. split; [by constructor|done]. }
  cbn [mbind option_bind]. apply IH; [done..|]. cbn [length] in Hlen. lia.
Qed.

(** ** Finding *)

Lemma find_from_spec ps : forall offset len i, Forall valid_range ps -> 0 <= len <= offset -> len + total ps < 2 ^ 64 ->
  match find_from ps offset len i with
  | Some j => exists r, (i <= j)%nat /\ ps !! (j - i)%nat = Some r /\ at_byte ps (offset - len) = Some (dr_prop r, dr_dev r)
  | None => at_byte ps (offset - len) = None
  end.
Proof.
  induction ps as [|r ps IH]; intros offset len i Hv Hlen Ht; cbn [find_from at_byte]; [done|].
  apply Forall_cons_1 in Hv as [[Hr Hp] Hv]. pose proof (total_nonneg ps Hv). change (total (r :: ps)) with (dr_len r + total ps) in Ht.
  rewrite wrap_small by (unfold in_width; lia). destruct (Z.ltb_spec offset (len + dr_len r)).
  - exists r. split; [lia|]. rewrite Nat.sub_diag. split; [done|]. by rewrite (proj2 (Z.ltb_lt _ _)) by lia.
  - rewrite (proj2 (Z.ltb_ge (offset - len) _)) by lia. specialize (IH offset (len + dr_len r) (S i) Hv ltac:(lia) ltac:(lia)).
    replace (offset - (len + dr_len r)) with (offset - len - dr_len r) in IH by lia. destruct (find_from _ _ _ _) as [j|]; [|done].
    destruct IH as (r' & Hj & Hl & Hb). exists r'. split; [lia|]. split; [|done]. by replace (j - i)%nat with (S (j - S i)) by lia.
Qed.

Lemma find_bytes ps off : valid_props ps -> 0 <= off ->
  (fun r => (dr_prop r, dr_dev r)) <$> (scm_dev_props_find ps off ≫= (fun i => ps !! i)) = at_byte ps off.
Proof.
  intros [Hv Ht] Hoff. pose proof (find_from_spec ps off 0 0 Hv ltac:(lia) ltac:(lia)) as H. unfold scm_dev_props_find. rewrite Z.sub_0_r in H.
  destruct (find_from ps off 0 0) as [j|]; [|done]. destruct H as (r & _ & Hl & ->). rewrite Nat.sub_0_r in Hl. cbn [mbind option_bind]. by rewrite Hl.
Qed.

(** ** Truncating *)

(** A length is that of the first ranges. *)
Definition at_boundary (ps : scm_dev_properties) (n : Z) : Prop := exists k, total (take k ps) = n.

(** Truncating cuts the device at the given number of grains, except at a boundary
    of two ranges, where it leaves it as it is. *)
Lemma truncate_from_spec ps : forall grain m, Forall valid_range ps -> Forall (fun r => dr_len r mod grain = 0) ps -> 0 < grain -> 0 <= m -> grain * m < 2 ^ 64 ->
  exists ps', truncate_from ps grain m = Some ps' /\ (at_boundary ps (grain * m) -> ps' = ps) /\
  (~ at_boundary ps (grain * m) -> total ps' = Z.min (total ps) (grain * m) /\
     forall off, 0 <= off -> at_byte ps' off = if off <? grain * m then at_byte ps off else None).
Proof.
  induction ps as [|r ps IH]; intros grain m Hv Hg Hgr Hm Hlt; cbn [truncate_from].
  - exists []. split; [done|]. split; [done|]. intros _. split; [unfold total; simpl; lia|]. intros off _. cbn. by destruct (off <? _).
  - apply Forall_cons_1 in Hv as [[Hr Hp] Hv]. apply Forall_cons_1 in Hg as [Hgl Hg]. pose proof (total_nonneg ps Hv). change (total (r :: ps)) with (dr_len r + total ps).
    destruct (Z.ltb_spec 0 m) as [Hm0|Hm0].
    2: { exists (r :: ps). split; [done|]. split; [done|]. intros Hb. destruct Hb. exists 0%nat. replace m with 0 by lia. cbn. lia. }
    rewrite wrap_small by (unfold in_width; nia). destruct (Z.ltb_spec (grain * m) (dr_len r)).
    + eexists. split; [done|]. split.
      * intros [[|k] Hk]; [cbn in Hk; nia|]. cbn [take] in Hk. change (total (r :: take k ps)) with (dr_len r + total (take k ps)) in Hk.
        pose proof (total_nonneg (take k ps) ltac:(by apply Forall_take)). lia.
      * intros _. split; [unfold total at 1; cbn; nia|]. intros off Hoff. cbn [at_byte set_len dr_len dr_prop dr_dev].
        destruct (Z.ltb_spec off (grain * m)); [by rewrite (proj2 (Z.ltb_lt _ _)) by lia|done].
    + rewrite (proj2 (Z.eqb_neq grain 0)) by lia. assert (grain * (m - dr_len r / grain) = grain * m - dr_len r) as Hrem.
      { pose proof (Z.div_mod (dr_len r) grain ltac:(lia)). nia. }
      assert (0 <= m - dr_len r / grain) as Hnn by nia. rewrite wrap_small by (unfold in_width; nia).
      destruct (IH grain (m - dr_len r / grain) Hv Hg Hgr Hnn ltac:(nia)) as (ps' & -> & Hb & Hnb). cbn [mbind option_bind].
      exists (r :: ps'). split; [done|]. rewrite Hrem in Hb, Hnb.
      assert (at_boundary (r :: ps) (grain * m) <-> at_boundary ps (grain * m - dr_len r)) as Hiff.
      { split; [intros [[|k] Hk]; [cbn in Hk; nia|]; exists k; cbn [take] in Hk|intros [k Hk]; exists (S k); cbn [take]];
          change (total (r :: take k ps)) with (dr_len r + total (take k ps)) in *; lia. }
      split; [intros Hx; by rewrite (Hb (proj1 Hiff Hx))|]. intros Hx. destruct Hnb as [Ht Hbt]; [by intros Hy; apply Hx, Hiff|].
      change (total (r :: ps')) with (dr_len r + total ps'). split; [lia|]. intros off Hoff. cbn [at_byte].
      destruct (Z.ltb_spec off (dr_len r)); [by rewrite (proj2 (Z.ltb_lt off _)) by lia|]. rewrite Hbt by lia.
      destruct (Z.ltb_spec (off - dr_len r) (grain * m - dr_len r)), (Z.ltb_spec off (grain * m)); try lia; done.
Qed.

(** ** Scaling *)

Lemma scale_from_spec ps : forall new_len old_len rem, Forall valid_range ps -> 0 < old_len -> 0 <= rem -> old_len * rem <= new_len * total ps ->
  0 <= new_len -> new_len * total ps + old_len < 2 ^ 64 -> foldr Z.add 0 (scale_from ps new_len old_len rem) = rem.
Proof.
  induction ps as [|r ps IH]; intros new_len old_len rem Hv Hold Hrem Hle Hnew Hlt; cbn [scale_from foldr].
  - unfold total in Hle. cbn in Hle. nia.
  - apply Forall_cons_1 in Hv as [[Hr Hp] Hv]. pose proof (total_nonneg ps Hv). change (total (r :: ps)) with (dr_len r + total ps) in *.
    rewrite !wrap_small by (unfold in_width; rewrite ?wrap_small by (unfold in_width; nia); nia).
    set (n := (new_len * dr_len r + old_len - 1) / old_len).
    assert (new_len * dr_len r <= old_len * n /\ 0 <= n) as [Hn Hn0].
    { pose proof (Z.div_mod (new_len * dr_len r + old_len - 1) old_len ltac:(lia)). pose proof (Z.mod_pos_bound (new_len * dr_len r + old_len - 1) old_len ltac:(lia)).
      fold n in H0. split; [nia|]. apply Z.div_pos; nia. }
    destruct (Z.ltb_spec rem n).
    + rewrite Z.sub_diag. rewrite IH; try done; nia.
    + rewrite IH; try done; nia.
Qed.

(** ** The linear map *)

(** Where the ranges of a device start, and their length. *)
Fixpoint dev_start (ps : scm_dev_properties) (d : Z) : Z :=
  match ps with [] => 0 | r :: ps' => if dr_dev r =? d then 0 else dr_len r + dev_start ps' d end.
Fixpoint dev_size (ps : scm_dev_properties) (d : Z) : Z :=
  match ps with [] => 0 | r :: ps' => (if dr_dev r =? d then dr_len r else 0) + dev_size ps' d end.

Definition has_dev (ps : scm_dev_properties) (d : Z) : Prop := exists r, r ∈ ps /\ dr_dev r = d.

(** If there is a range of device [d], the first one is. *)
Definition leads (ps : scm_dev_properties) (d : Z) : Prop := has_dev ps d -> exists r ps', ps = r :: ps' /\ dr_dev r = d.

(** The ranges of each device are consecutive. *)
Fixpoint grouped (ps : scm_dev_properties) : Prop :=
  match ps with [] => True | r :: ps' => leads ps' (dr_dev r) /\ grouped ps' end.

Lemma has_dev_cons r ps d : has_dev (r :: ps) d <-> dr_dev r = d \/ has_dev ps d.
Proof.
  split.
  - intros (x & [->|Hx]%elem_of_cons & Hd); [by left|right; by exists x].
  - intros [Hd|(x & Hx & Hd)]; [exists r; split; [left|done]|exists x; split; [by right|done]].
Qed.

Lemma leads_start ps d : leads ps d -> has_dev ps d -> dev_start ps d = 0.
Proof. intros Hl Hd. destruct (Hl Hd) as (r & ps' & -> & E). cbn. by rewrite E, Z.eqb_refl. Qed.

Lemma dev_size_nonneg ps d : Forall valid_range ps -> 0 <= dev_size ps d.
Proof. induction 1 as [|r ps [Hr _] _ IH]; cbn; [lia|]. destruct (_ =? _); lia. Qed.

Lemma dev_size_absent ps d : ~ has_dev ps d -> dev_size ps d = 0.
Proof.
  induction ps as [|r ps IH]; intros Hn; [done|]. rewrite has_dev_cons in Hn. cbn. rewrite (proj2 (Z.eqb_neq _ _)) by tauto. rewrite IH by tauto. done.
Qed.

(** The bytes of a device are those from its start on. *)
Lemma dev_bytes ps d : forall v, Forall valid_range ps -> grouped ps -> 0 <= v -> has_dev ps d ->
  (exists p, at_byte ps v = Some (p, d)) <-> dev_start ps d <= v < dev_start ps d + dev_size ps d.
Proof.
  induction ps as [|r ps IH]; intros v Hv Hg Hv0 Hd; [by destruct Hd as (x & Hx%elem_of_nil & _)|].
  apply Forall_cons_1 in Hv as [[Hr _] Hv]. destruct Hg as [Hl Hg]. pose proof (dev_size_nonneg ps d Hv) as Hs. cbn [at_byte dev_start dev_size].
  assert (has_dev ps d \/ ~ has_dev ps d) as Hdec.
  { destruct (decide (Exists (fun r => dr_dev r = d) ps)) as [H|H]; [left; by apply Exists_exists in H as (x & ? & ?); exists x; split; [apply list_elem_of_In|]|right].
    intros (x & Hx & E). apply H, Exists_exists. exists x. split; [by apply list_elem_of_In|done]. }
  destruct (Z.eqb_spec (dr_dev r) d) as [E|E].
  - destruct (Z.ltb_spec v (dr_len r)); [split; [lia|intros _; exists (dr_prop r); by rewrite E]|]. destruct Hdec as [Hh|Hh].
    + rewrite IH by (done || lia). rewrite E in Hl. rewrite (leads_start ps d Hl Hh). lia.
    + rewrite dev_size_absent by done. split; [|lia]. intros [p Hp]. destruct Hh. clear -Hp. revert Hp. generalize (v - dr_len r). induction ps as [|x ps IH]; intros w; [done|].
      cbn [at_byte]. destruct (w <? dr_len x); [intros [= <- <-]; apply has_dev_cons; by left|]. intros H. apply has_dev_cons. right. by apply (IH _ H).
  - apply has_dev_cons in Hd as [?|Hd]; [done|]. rewrite Z.add_0_l. destruct (Z.ltb_spec v (dr_len r)).
    + split; [intros [p [= _ ?]]; done|]. assert (0 <= dev_start ps d) by (clear -Hv; induction Hv as [|x ps [Hx _] _ IH]; cbn; [lia|]; destruct (_ =? _); lia). lia.
    + rewrite IH by (done || lia). lia.
Qed.

Lemma at_byte_has ps d p : forall v, at_byte ps v = Some (p, d) -> has_dev ps d.
Proof.
  induction ps as [|r ps IH]; intros v; [done|]. cbn [at_byte]. rewrite has_dev_cons. destruct (v <? dr_len r); [intros [= _ ->]; by left|].
  intros H. right. by apply (IH _ H).
Qed.

Lemma linear_from_spec ps : forall prev dev addr rem p d, Forall valid_range ps -> grouped ps ->
  0 <= match prev with Some l => addr + l | None => 0 end -> match prev with Some l => addr + l | None => 0 end + total ps < 2 ^ 64 ->
  match prev with Some _ => leads ps dev | None => ~ has_dev ps dev end -> 0 <= rem -> at_byte ps rem = Some (p, d) ->
  linear_from ps prev dev addr rem = Some (d, rem - dev_start ps d + (if d =? dev then match prev with Some l => addr + l | None => 0 end else 0)).
Proof.
  induction ps as [|r ps IH]; intros prev dev addr rem p d Hv Hg Hb0 Hb Hprev Hrem Hat; [done|]. cbn [linear_from at_byte dev_start] in *.
  set (base := match prev with Some l => addr + l | None => 0 end) in *.
  apply Forall_cons_1 in Hv as [[Hr _] Hv]. destruct Hg as [Hl Hg]. pose proof (total_nonneg ps Hv). change (total (r :: ps)) with (dr_len r + total ps) in Hb.
  assert ((if negb (dr_dev r =? dev) then Some 0 else l ← prev; Some (u64 (addr + l))) = Some (if dr_dev r =? dev then base else 0)) as ->.
  { destruct (Z.eqb_spec (dr_dev r) dev) as [E|]; [|done]. cbn [negb]. destruct prev as [l|]; [|destruct Hprev; rewrite has_dev_cons; by left].
    cbn. unfold base. by rewrite wrap_small by (unfold in_width; unfold base in *; lia). }
  cbn [mbind option_bind]. set (start := if dr_dev r =? dev then base else 0). assert (0 <= start <= base) as Hst by (unfold start; destruct (_ =? _); lia).
  destruct (Z.ltb_spec rem (dr_len r)).
  - injection Hat as <- <-. rewrite Z.eqb_refl, wrap_small by (unfold in_width; lia). fold start. do 2 f_equal. lia.
  - rewrite (IH (Some (dr_len r)) (dr_dev r) start (rem - dr_len r) p d Hv Hg) by (done || lia). f_equal. f_equal.
    pose proof (at_byte_has ps d p _ Hat) as Hd. destruct (Z.eqb_spec (dr_dev r) d) as [<-|Hne].
    + rewrite Z.eqb_refl, (leads_start ps _ Hl Hd). fold start. lia.
    + rewrite (proj2 (Z.eqb_neq d (dr_dev r))) by congruence. rewrite (proj2 (Z.eqb_neq d dev)); [lia|]. intros ->.
      destruct prev as [l|]; [|destruct Hprev; apply has_dev_cons; by right]. destruct (Hprev ltac:(apply has_dev_cons; by right)) as (x & xs & [= <- <-] & ?). done.
Qed.

Lemma linear_from_out ps : forall prev dev addr rem, Forall valid_range ps -> match prev with Some _ => True | None => ~ has_dev ps dev end ->
  total ps <= rem -> linear_from ps prev dev addr rem = Some (0, 0).
Proof.
  induction ps as [|r ps IH]; intros prev dev addr rem Hv Hprev Hrem; [done|]. apply Forall_cons_1 in Hv as [[Hr _] Hv]. pose proof (total_nonneg ps Hv).
  change (total (r :: ps)) with (dr_len r + total ps) in Hrem. cbn [linear_from].
  assert (exists x, (if negb (dr_dev r =? dev) then Some 0 else l ← prev; Some (u64 (addr + l))) = Some x) as [x ->].
  { destruct (Z.eqb_spec (dr_dev r) dev) as [E|]; [|by eexists]. cbn [negb]. destruct prev; [by eexists|]. destruct Hprev. apply has_dev_cons. by left. }
  cbn [mbind option_bind]. rewrite (proj2 (Z.ltb_ge rem _)) by lia. apply IH; [done..|lia].
Qed.

(** ** Parsing what was printed *)

Definition print_range (r : scm_dev_range_prop) : list Z :=
  dec (dr_len r) ++ 46 :: dec (dr_prop r) ++ 47 :: dec (dr_real r) ++ 64 :: dec (dr_dev r).

Fixpoint print_props (ps : scm_dev_properties) : list Z :=
  match ps with
  | [] => []
  | [r] => print_range r
  | r :: ps' => print_range r ++ 58 :: print_props ps'
  end.

Definition printable (r : scm_dev_range_prop) : Prop :=
  in_width 64 (dr_len r) /\ 0 <= dr_prop r < SCM_PROP_LAST /\ in_width 64 (dr_real r) /\ in_width 64 (dr_dev r) /\ dr_zone r = 0.

Lemma specs_end fuel rest sp : rest = [] \/ (exists s, rest = 58 :: s) -> parse_specs (S fuel) rest sp = Some (rest, sp).
Proof. intros [->|[s ->]]; cbn [parse_specs]; [done|]. by destruct (strtoul s). Qed.

(** One specifier with its number. *)
Lemma specs_number fuel c v s sp : in_width 64 v -> ends_number s -> c = 46 /\ v < SCM_PROP_LAST \/ c = 47 \/ c = 64 ->
  parse_specs (S fuel) (c :: dec v ++ s) sp =
  parse_specs fuel s (mkSpecs (if c =? 46 then v else sp_prop sp) (if c =? 47 then v else sp_real_len sp) (if c =? 64 then v else sp_dev sp) (sp_attrs sp)).
Proof.
  intros Hv He Hc. cbn [parse_specs]. rewrite strtoul_dec_app by done. destruct Hc as [[-> Hp]|[-> | ->]]; cbn [Z.eqb Pos.eqb]; try done.
  unfold in_width, SCM_PROP_LAST in *. rewrite s64_small by lia.
  by rewrite (proj2 (Z.ltb_ge v _)), (proj2 (Z.leb_gt _ v)) by (unfold SCM_PROP_NVRAM; lia).
Qed.

Lemma specs_printed fuel p real dev rest sp : (3 < fuel)%nat -> 0 <= p < SCM_PROP_LAST -> in_width 64 real -> in_width 64 dev ->
  rest = [] \/ (exists s, rest = 58 :: s) ->
  parse_specs fuel (46 :: dec p ++ 47 :: dec real ++ 64 :: dec dev ++ rest) sp = Some (rest, mkSpecs p real dev (sp_attrs sp)).
Proof.
  intros Hf Hp Hr Hd Hrest. destruct fuel as [|[|[|[|fuel]]]]; [lia..|].
  assert (ends_number rest) as He by (destruct Hrest as [->|[s ->]]; done).
  rewrite specs_number; [|unfold in_width, SCM_PROP_LAST in *; lia|done|left; split; [done|lia]].
  rewrite specs_number by (done || tauto). rewrite specs_number by (done || tauto). by apply specs_end.
Qed.

Lemma parse_print_ranges malloc ps : forall n r_i, ps <> [] -> (length ps <= n)%nat -> Forall printable ps -> parse_ranges malloc n r_i (print_props ps) [] = Some ps.
Proof.
  induction ps as [|r ps IH]; intros n r_i Hne Hn Hp; [done|]. destruct n as [|n]; [simpl in Hn; lia|]. apply Forall_cons_1 in Hp as [(H1 & H2 & H3 & H4 & H5) Hps].
  assert (exists rest, print_props (r :: ps) = print_range r ++ rest /\ match ps with [] => rest = [] | _ => rest = 58 :: print_props ps end) as (rest & -> & Hrest).
  { destruct ps; [exists []|eexists]; [by rewrite app_nil_r|done]. }
  assert (rest = [] \/ exists s, rest = 58 :: s) as Hr by (destruct ps; [by left|right; by eexists]).
  unfold print_range. repeat (rewrite <- ?app_assoc; cbn [app]). cbn [parse_ranges]. rewrite strtoul_dec_app by done.
  rewrite specs_printed by (done || (cbn [length]; rewrite !length_app; cbn [length]; rewrite !length_app; cbn [length]; lia)).
  cbn [mbind option_bind sp_attrs sp_prop sp_real_len sp_dev]. rewrite decide_False by tauto. rewrite decide_True by done.
  assert (SCM_DEV_RPROP__ (dr_len r) (dr_prop r) (dr_real r) (dr_dev r) = r) as -> by (destruct r; cbn in *; by subst).
  destruct ps as [|r2 ps]; rewrite Hrest; [done|]. cbn [Z.eqb Pos.eqb]. rewrite IH; [done|done|simpl in *; lia|done].
Qed.

(** The parser always comes to an end. *)
Lemma strtoul_length s : (length (snd (strtoul s)) <= length s)%nat.
Proof.
  unfold strtoul. assert (forall b l a, (length (snd (scan_base b l a)) <= length l)%nat) as Hb.
  { intros b l. induction l as [|c l IH]; intros a; cbn [scan_base]; [done|]. destruct (_ <? _); [etrans; [apply IH|simpl; lia]|done]. }
  assert (forall l, (length (skip_spaces l) <= length l)%nat) as Hsk by (induction l as [|c l IH]; cbn; [done|]; destruct (isspace c); simpl in *; lia).
  assert (forall l, (length (snd (scan_sign l)) <= length l)%nat) as Hsg by (intros [|c l]; cbn; [done|]; destruct (c =? 45); [simpl; lia|]; destruct (c =? 43); simpl; lia).
  destruct (scan_sign (skip_spaces s)) as [neg s2] eqn:Es. pose proof (Hsg (skip_spaces s)) as H1. rewrite Es in H1. cbn [snd] in H1. specialize (Hsk s).
  assert (match scan_number s2 with Some (_, r) => (length r <= length s2)%nat | None => True end) as Hn.
  { unfold scan_number. destruct s2 as [|c r]; [done|]. destruct (c =? 48).
    - destruct r as [|x [|h r]].
      + pose proof (Hb 8 [c] 0). by destruct (scan_base 8 [c] 0).
      + pose proof (Hb 8 [c; x] 0). by destruct (scan_base 8 [c; x] 0).
      + destruct (_ && _).
        * pose proof (Hb 16 (h :: r) 0). destruct (scan_base 16 (h :: r) 0). cbn [snd length] in *. lia.
        * pose proof (Hb 8 (c :: x :: h :: r) 0). by destruct (scan_base 8 (c :: x :: h :: r) 0).
    - destruct (isdigit c); [|done]. pose proof (Hb 10 (c :: r) 0). by destruct (scan_base 10 (c :: r) 0). }
  destruct (scan_number s2) as [[m r]|]; cbn [snd]; lia.
Qed.

Lemma until_brace_length s : forall acc attrs rest, until_brace s acc = Some (attrs, rest) -> (length rest <= length s)%nat.
Proof.
  induction s as [|c s IH]; intros acc attrs rest; cbn [until_brace]; [done|]. destruct (c =? 125); [intros [= _ <-]; simpl; lia|].
  intros H. apply IH in H. simpl. lia.
Qed.

Lemma parse_specs_ends fuel : forall s sp, (length s < fuel)%nat -> exists s' sp', parse_specs fuel s sp = Some (s', sp').
Proof.
  induction fuel as [|fuel IH]; intros s sp Hf; [lia|]. cbn [parse_specs]. destruct s as [|c s]; [by eexists _, _|]. cbn [length] in Hf.
  pose proof (strtoul_length s) as Hl. destruct (strtoul s) as [v e]. cbn [snd] in Hl.
  destruct (c =? 46); [apply IH; lia|]. destruct (c =? 64); [apply IH; lia|]. destruct (c =? 47); [apply IH; lia|].
  destruct (c =? 123); [|by eexists _, _]. destruct (until_brace s []) as [[attrs rest]|] eqn:E; [apply IH; apply until_brace_length in E; lia|apply IH; simpl; lia].
Qed.

Lemma parse_ranges_ends malloc n : forall r_i s attrs, exists ps, parse_ranges malloc n r_i s attrs = Some ps /\ (length ps <= n)%nat.
Proof.
  induction n as [|n IH]; intros r_i s attrs; cbn [parse_ranges]; [by exists []|]. destruct (strtoul s) as [len s1].
  destruct (parse_specs_ends (S (length s1)) s1 (mkSpecs SCM_PROP_DEFAULT 0 0 attrs)) as (s2 & sp & ->); [lia|]. cbn [mbind option_bind].
  case_decide; [exists []; split; [done|simpl; lia]|]. destruct s2 as [|c s3]; [eexists; split; [done|simpl; lia]|].
  destruct (c =? 58); [|eexists; split; [done|simpl; lia]]. destruct (IH (S r_i) s3 (sp_attrs sp)) as (ps & -> & Hl). cbn [mbind option_bind].
  eexists. split; [done|simpl; lia].
Qed.
