(* ===== verification/ScmConfig.v ===== *)
(** * ScmConfig: from a command line to a running SALSA
      (util/parse-storage-args.c, util/scm_usr_helpers.c,
      sto-ctlr/sto-capacity-mgr.c, usalsa++/Scm.cc, and [init_local] of
      udepot-lsa.cc)

    The store prints a command line for SALSA, which parses it into its parameters,
    works out the ranges of its device, checks them and sets its queues and its
    collector up.  Strings are lists of bytes; [None] is a write outside an array, a
    division by zero or [BUG_ON]. *)
From Stdlib Require Import ZArith Lia Ascii String.
From stdpp Require Import base tactics list numbers option.
From S2P Require Import Prelude Util StateM Throttle SalsaScm SalsaGc SalsaAlloc SalsaInit CString DevProps.

Open Scope Z_scope.

(** ** Parameters *)

(** [struct scm_parameters], its [gc_params] in line. *)
Record scm_parameters := mkScmParams {
  cfg_dev_size_raw : Z;
  cfg_segment_size : Z;
  cfg_grain_size : Z;
  cfg_rmap_grain_size : Z;
  cfg_use_rmap : bool;
  cfg_simulation : bool;
  cfg_must_rebuild : bool;
  cfg_dont_rebuild : bool;
  cfg_raid : Z;
  cfg_dev_nr : Z;
  cfg_gc : Z;
  cfg_low_watermark : Z;
  cfg_high_watermark : Z;
  cfg_xnp_pct : Z;
  cfg_xnp_hot_pct : Z;
  cfg_bin_nr : Z;
  cfg_thread_nr : Z;
  cfg_seg_qs_conf : Z;
  cfg_scm_props : scm_dev_properties;
  cfg_dev_props : list scm_dev_properties;
  cfg_dev_names : list (list Z)
}.

Definition cfg_set_dev_size_raw (x : Z) (c : scm_parameters) : scm_parameters :=
  mkScmParams x (cfg_segment_size c) (cfg_grain_size c) (cfg_rmap_grain_size c) (cfg_use_rmap c) (cfg_simulation c)
    (cfg_must_rebuild c) (cfg_dont_rebuild c) (cfg_raid c) (cfg_dev_nr c) (cfg_gc c) (cfg_low_watermark c)
    (cfg_high_watermark c) (cfg_xnp_pct c) (cfg_xnp_hot_pct c) (cfg_bin_nr c) (cfg_thread_nr c) (cfg_seg_qs_conf c)
    (cfg_scm_props c) (cfg_dev_props c) (cfg_dev_names c).
Definition cfg_set_segment_size (x : Z) (c : scm_parameters) : scm_parameters :=
  mkScmParams (cfg_dev_size_raw c) x (cfg_grain_size c) (cfg_rmap_grain_size c) (cfg_use_rmap c) (cfg_simulation c)
    (cfg_must_rebuild c) (cfg_dont_rebuild c) (cfg_raid c) (cfg_dev_nr c) (cfg_gc c) (cfg_low_watermark c)
    (cfg_high_watermark c) (cfg_xnp_pct c) (cfg_xnp_hot_pct c) (cfg_bin_nr c) (cfg_thread_nr c) (cfg_seg_qs_conf c)
    (cfg_scm_props c) (cfg_dev_props c) (cfg_dev_names c).
Definition cfg_set_grain_size (x : Z) (c : scm_parameters) : scm_parameters :=
  mkScmParams (cfg_dev_size_raw c) (cfg_segment_size c) x (cfg_rmap_grain_size c) (cfg_use_rmap c) (cfg_simulation c)
    (cfg_must_rebuild c) (cfg_dont_rebuild c) (cfg_raid c) (cfg_dev_nr c) (cfg_gc c) (cfg_low_watermark c)
    (cfg_high_watermark c) (cfg_xnp_pct c) (cfg_xnp_hot_pct c) (cfg_bin_nr c) (cfg_thread_nr c) (cfg_seg_qs_conf c)
    (cfg_scm_props c) (cfg_dev_props c) (cfg_dev_names c).
Definition cfg_set_rmap_grain_size (x : Z) (c : scm_parameters) : scm_parameters :=
  mkScmParams (cfg_dev_size_raw c) (cfg_segment_size c) (cfg_grain_size c) x (cfg_use_rmap c) (cfg_simulation c)
    (cfg_must_rebuild c) (cfg_dont_rebuild c) (cfg_raid c) (cfg_dev_nr c) (cfg_gc c) (cfg_low_watermark c)
    (cfg_high_watermark c) (cfg_xnp_pct c) (cfg_xnp_hot_pct c) (cfg_bin_nr c) (cfg_thread_nr c) (cfg_seg_qs_conf c)
    (cfg_scm_props c) (cfg_dev_props c) (cfg_dev_names c).
Definition cfg_set_use_rmap (x : bool) (c : scm_parameters) : scm_parameters :=
  mkScmParams (cfg_dev_size_raw c) (cfg_segment_size c) (cfg_grain_size c) (cfg_rmap_grain_size c) x (cfg_simulation c)
    (cfg_must_rebuild c) (cfg_dont_rebuild c) (cfg_raid c) (cfg_dev_nr c) (cfg_gc c) (cfg_low_watermark c)
    (cfg_high_watermark c) (cfg_xnp_pct c) (cfg_xnp_hot_pct c) (cfg_bin_nr c) (cfg_thread_nr c) (cfg_seg_qs_conf c)
    (cfg_scm_props c) (cfg_dev_props c) (cfg_dev_names c).
Definition cfg_set_simulation (x : bool) (c : scm_parameters) : scm_parameters :=
  mkScmParams (cfg_dev_size_raw c) (cfg_segment_size c) (cfg_grain_size c) (cfg_rmap_grain_size c) (cfg_use_rmap c) x
    (cfg_must_rebuild c) (cfg_dont_rebuild c) (cfg_raid c) (cfg_dev_nr c) (cfg_gc c) (cfg_low_watermark c)
    (cfg_high_watermark c) (cfg_xnp_pct c) (cfg_xnp_hot_pct c) (cfg_bin_nr c) (cfg_thread_nr c) (cfg_seg_qs_conf c)
    (cfg_scm_props c) (cfg_dev_props c) (cfg_dev_names c).
Definition cfg_set_must_rebuild (x : bool) (c : scm_parameters) : scm_parameters :=
  mkScmParams (cfg_dev_size_raw c) (cfg_segment_size c) (cfg_grain_size c) (cfg_rmap_grain_size c) (cfg_use_rmap c)
    (cfg_simulation c) x (cfg_dont_rebuild c) (cfg_raid c) (cfg_dev_nr c) (cfg_gc c) (cfg_low_watermark c)
    (cfg_high_watermark c) (cfg_xnp_pct c) (cfg_xnp_hot_pct c) (cfg_bin_nr c) (cfg_thread_nr c) (cfg_seg_qs_conf c)
    (cfg_scm_props c) (cfg_dev_props c) (cfg_dev_names c).
Definition cfg_set_dont_rebuild (x : bool) (c : scm_parameters) : scm_parameters :=
  mkScmParams (cfg_dev_size_raw c) (cfg_segment_size c) (cfg_grain_size c) (cfg_rmap_grain_size c) (cfg_use_rmap c)
    (cfg_simulation c) (cfg_must_rebuild c) x (cfg_raid c) (cfg_dev_nr c) (cfg_gc c) (cfg_low_watermark c)
    (cfg_high_watermark c) (cfg_xnp_pct c) (cfg_xnp_hot_pct c) (cfg_bin_nr c) (cfg_thread_nr c) (cfg_seg_qs_conf c)
    (cfg_scm_props c) (cfg_dev_props c) (cfg_dev_names c).
Definition cfg_set_raid (x : Z) (c : scm_parameters) : scm_parameters :=
  mkScmParams (cfg_dev_size_raw c) (cfg_segment_size c) (cfg_grain_size c) (cfg_rmap_grain_size c) (cfg_use_rmap c)
    (cfg_simulation c) (cfg_must_rebuild c) (cfg_dont_rebuild c) x (cfg_dev_nr c) (cfg_gc c) (cfg_low_watermark c)
    (cfg_high_watermark c) (cfg_xnp_pct c) (cfg_xnp_hot_pct c) (cfg_bin_nr c) (cfg_thread_nr c) (cfg_seg_qs_conf c)
    (cfg_scm_props c) (cfg_dev_props c) (cfg_dev_names c).
Definition cfg_set_dev_nr (x : Z) (c : scm_parameters) : scm_parameters :=
  mkScmParams (cfg_dev_size_raw c) (cfg_segment_size c) (cfg_grain_size c) (cfg_rmap_grain_size c) (cfg_use_rmap c)
    (cfg_simulation c) (cfg_must_rebuild c) (cfg_dont_rebuild c) (cfg_raid c) x (cfg_gc c) (cfg_low_watermark c)
    (cfg_high_watermark c) (cfg_xnp_pct c) (cfg_xnp_hot_pct c) (cfg_bin_nr c) (cfg_thread_nr c) (cfg_seg_qs_conf c)
    (cfg_scm_props c) (cfg_dev_props c) (cfg_dev_names c).
Definition cfg_set_gc (x : Z) (c : scm_parameters) : scm_parameters :=
  mkScmParams (cfg_dev_size_raw c) (cfg_segment_size c) (cfg_grain_size c) (cfg_rmap_grain_size c) (cfg_use_rmap c)
    (cfg_simulation c) (cfg_must_rebuild c) (cfg_dont_rebuild c) (cfg_raid c) (cfg_dev_nr c) x (cfg_low_watermark c)
    (cfg_high_watermark c) (cfg_xnp_pct c) (cfg_xnp_hot_pct c) (cfg_bin_nr c) (cfg_thread_nr c) (cfg_seg_qs_conf c)
    (cfg_scm_props c) (cfg_dev_props c) (cfg_dev_names c).
Definition cfg_set_low_watermark (x : Z) (c : scm_parameters) : scm_parameters :=
  mkScmParams (cfg_dev_size_raw c) (cfg_segment_size c) (cfg_grain_size c) (cfg_rmap_grain_size c) (cfg_use_rmap c)
    (cfg_simulation c) (cfg_must_rebuild c) (cfg_dont_rebuild c) (cfg_raid c) (cfg_dev_nr c) (cfg_gc c) x
    (cfg_high_watermark c) (cfg_xnp_pct c) (cfg_xnp_hot_pct c) (cfg_bin_nr c) (cfg_thread_nr c) (cfg_seg_qs_conf c)
    (cfg_scm_props c) (cfg_dev_props c) (cfg_dev_names c).
Definition cfg_set_high_watermark (x : Z) (c : scm_parameters) : scm_parameters :=
  mkScmParams (cfg_dev_size_raw c) (cfg_segment_size c) (cfg_grain_size c) (cfg_rmap_grain_size c) (cfg_use_rmap c)
    (cfg_simulation c) (cfg_must_rebuild c) (cfg_dont_rebuild c) (cfg_raid c) (cfg_dev_nr c) (cfg_gc c)
    (cfg_low_watermark c) x (cfg_xnp_pct c) (cfg_xnp_hot_pct c) (cfg_bin_nr c) (cfg_thread_nr c) (cfg_seg_qs_conf c)
    (cfg_scm_props c) (cfg_dev_props c) (cfg_dev_names c).
Definition cfg_set_xnp_pct (x : Z) (c : scm_parameters) : scm_parameters :=
  mkScmParams (cfg_dev_size_raw c) (cfg_segment_size c) (cfg_grain_size c) (cfg_rmap_grain_size c) (cfg_use_rmap c)
    (cfg_simulation c) (cfg_must_rebuild c) (cfg_dont_rebuild c) (cfg_raid c) (cfg_dev_nr c) (cfg_gc c)
    (cfg_low_watermark c) (cfg_high_watermark c) x (cfg_xnp_hot_pct c) (cfg_bin_nr c) (cfg_thread_nr c)
    (cfg_seg_qs_conf c) (cfg_scm_props c) (cfg_dev_props c) (cfg_dev_names c).
Definition cfg_set_xnp_hot_pct (x : Z) (c : scm_parameters) : scm_parameters :=
  mkScmParams (cfg_dev_size_raw c) (cfg_segment_size c) (cfg_grain_size c) (cfg_rmap_grain_size c) (cfg_use_rmap c)
    (cfg_simulation c) (cfg_must_rebuild c) (cfg_dont_rebuild c) (cfg_raid c) (cfg_dev_nr c) (cfg_gc c)
    (cfg_low_watermark c) (cfg_high_watermark c) (cfg_xnp_pct c) x (cfg_bin_nr c) (cfg_thread_nr c) (cfg_seg_qs_conf c)
    (cfg_scm_props c) (cfg_dev_props c) (cfg_dev_names c).
Definition cfg_set_bin_nr (x : Z) (c : scm_parameters) : scm_parameters :=
  mkScmParams (cfg_dev_size_raw c) (cfg_segment_size c) (cfg_grain_size c) (cfg_rmap_grain_size c) (cfg_use_rmap c)
    (cfg_simulation c) (cfg_must_rebuild c) (cfg_dont_rebuild c) (cfg_raid c) (cfg_dev_nr c) (cfg_gc c)
    (cfg_low_watermark c) (cfg_high_watermark c) (cfg_xnp_pct c) (cfg_xnp_hot_pct c) x (cfg_thread_nr c)
    (cfg_seg_qs_conf c) (cfg_scm_props c) (cfg_dev_props c) (cfg_dev_names c).
Definition cfg_set_thread_nr (x : Z) (c : scm_parameters) : scm_parameters :=
  mkScmParams (cfg_dev_size_raw c) (cfg_segment_size c) (cfg_grain_size c) (cfg_rmap_grain_size c) (cfg_use_rmap c)
    (cfg_simulation c) (cfg_must_rebuild c) (cfg_dont_rebuild c) (cfg_raid c) (cfg_dev_nr c) (cfg_gc c)
    (cfg_low_watermark c) (cfg_high_watermark c) (cfg_xnp_pct c) (cfg_xnp_hot_pct c) (cfg_bin_nr c) x (cfg_seg_qs_conf c)
    (cfg_scm_props c) (cfg_dev_props c) (cfg_dev_names c).
Definition cfg_set_seg_qs_conf (x : Z) (c : scm_parameters) : scm_parameters :=
  mkScmParams (cfg_dev_size_raw c) (cfg_segment_size c) (cfg_grain_size c) (cfg_rmap_grain_size c) (cfg_use_rmap c)
    (cfg_simulation c) (cfg_must_rebuild c) (cfg_dont_rebuild c) (cfg_raid c) (cfg_dev_nr c) (cfg_gc c)
    (cfg_low_watermark c) (cfg_high_watermark c) (cfg_xnp_pct c) (cfg_xnp_hot_pct c) (cfg_bin_nr c) (cfg_thread_nr c) x
    (cfg_scm_props c) (cfg_dev_props c) (cfg_dev_names c).
Definition cfg_set_scm_props (x : scm_dev_properties) (c : scm_parameters) : scm_parameters :=
  mkScmParams (cfg_dev_size_raw c) (cfg_segment_size c) (cfg_grain_size c) (cfg_rmap_grain_size c) (cfg_use_rmap c)
    (cfg_simulation c) (cfg_must_rebuild c) (cfg_dont_rebuild c) (cfg_raid c) (cfg_dev_nr c) (cfg_gc c)
    (cfg_low_watermark c) (cfg_high_watermark c) (cfg_xnp_pct c) (cfg_xnp_hot_pct c) (cfg_bin_nr c) (cfg_thread_nr c)
    (cfg_seg_qs_conf c) x (cfg_dev_props c) (cfg_dev_names c).
Definition cfg_set_dev_props (x : list scm_dev_properties) (c : scm_parameters) : scm_parameters :=
  mkScmParams (cfg_dev_size_raw c) (cfg_segment_size c) (cfg_grain_size c) (cfg_rmap_grain_size c) (cfg_use_rmap c)
    (cfg_simulation c) (cfg_must_rebuild c) (cfg_dont_rebuild c) (cfg_raid c) (cfg_dev_nr c) (cfg_gc c)
    (cfg_low_watermark c) (cfg_high_watermark c) (cfg_xnp_pct c) (cfg_xnp_hot_pct c) (cfg_bin_nr c) (cfg_thread_nr c)
    (cfg_seg_qs_conf c) (cfg_scm_props c) x (cfg_dev_names c).
Definition cfg_set_dev_names (x : list (list Z)) (c : scm_parameters) : scm_parameters :=
  mkScmParams (cfg_dev_size_raw c) (cfg_segment_size c) (cfg_grain_size c) (cfg_rmap_grain_size c) (cfg_use_rmap c)
    (cfg_simulation c) (cfg_must_rebuild c) (cfg_dont_rebuild c) (cfg_raid c) (cfg_dev_nr c) (cfg_gc c)
    (cfg_low_watermark c) (cfg_high_watermark c) (cfg_xnp_pct c) (cfg_xnp_hot_pct c) (cfg_bin_nr c) (cfg_thread_nr c)
    (cfg_seg_qs_conf c) (cfg_scm_props c) (cfg_dev_props c) x.

Definition RAID0 : Z := 0.
Definition RAID5 : Z := 5.
Definition SALSA_LINEAR : Z := 11.
Definition SCM_MAX_DEVICES : nat := 6.
Definition SCM_MAX_DEV_NAME : nat := 256.
Definition SALSA_MAX_GRAIN_SIZE : Z := 131072.
Definition SALSA_MAX_SEGMENT_SIZE : Z := 2 ^ 31 - 2.
Definition PBA_INVAL_ENTRY : Z := 2 ^ 64 - 1.
Definition PAGE_SIZE : Z := 4096.
Definition SCM_SEG_QUEUES_ONE : Z := 0.
Definition SCM_SEG_QUEUES_ALL : Z := 1.

Definition SEC2B (s : Z) : Z := u64 (Z.shiftl s 9).
Definition B2SEC (b : Z) : Z := Z.shiftr b 9.

(** [reset_scm_config] and [reset_gc_config]. *)
Definition reset_scm_config : scm_parameters :=
  mkScmParams 0 64 4096 1 false false false false RAID0 1 14 3 5 9 0 4 1 SCM_SEG_QUEUES_ONE
              [] (replicate SCM_MAX_DEVICES []) (replicate SCM_MAX_DEVICES []).

(** ** Arguments *)

Definition str_starts_with (s prefix : list Z) : bool := bool_decide (take (length prefix) s = prefix).

(** What is behind the first [=]. *)
Fixpoint after_eq (s : list Z) : option (list Z) :=
  match s with [] => None | c :: s' => if c =? 61 then Some s' else after_eq s' end.

(** A device name is added. *)
Definition add_dev_name (name : list Z) (c : scm_parameters) : option scm_parameters :=
  let di := Z.to_nat (cfg_dev_nr c) in
  if (di <? SCM_MAX_DEVICES)%nat then
    Some (cfg_set_dev_names (<[di := take (SCM_MAX_DEV_NAME - 1) name]> (cfg_dev_names c)) (cfg_set_dev_nr (u16 (cfg_dev_nr c + 1)) c))
  else None.

(** The arguments that start with [/dev/]; what is left. *)
Fixpoint parse_dev_args (argv : list (list Z)) (c : scm_parameters) : option (list (list Z) * scm_parameters) :=
  match argv with
  | a :: argv' => if str_starts_with a (cstr "/dev/") then c' ← add_dev_name a c; parse_dev_args argv' c' else Some (argv, c)
  | [] => Some ([], c)
  end.

(** The options with a number, in the order of the tests. *)
Definition number_options : list (string * (Z -> scm_parameters -> scm_parameters)) :=
  [("dev_size="%string, cfg_set_dev_size_raw);
   ("grain_size="%string, fun v => cfg_set_grain_size (u32 v));
   ("rmap_grain_size="%string, fun v => cfg_set_rmap_grain_size (u32 v));
   ("segment_size="%string, cfg_set_segment_size);
   ("raid="%string, fun v => cfg_set_raid (u32 v));
   ("dev_nr="%string, fun v => cfg_set_dev_nr (u16 v));
   ("gc_type="%string, fun v => cfg_set_gc (u32 v));
   ("bin_nr="%string, fun v => cfg_set_bin_nr (u32 v));
   ("gc_thread_nr="%string, fun v => cfg_set_thread_nr (u32 v));
   ("simulation="%string, fun v => cfg_set_simulation (negb (v =? 0)));
   ("must_rebuild="%string, fun v => cfg_set_must_rebuild (negb (v =? 0)));
   ("use_rmap="%string, fun v => cfg_set_use_rmap (negb (v =? 0)));
   ("dont_rebuild="%string, fun v => cfg_set_dont_rebuild (negb (v =? 0)));
   ("gc_xnp_pct="%string, fun v => cfg_set_xnp_pct (u32 v));
   ("gc_xnp_hot_pct="%string, fun v => cfg_set_xnp_hot_pct (u32 v));
   ("gc_low_wm="%string, fun v => cfg_set_low_watermark (u32 v));
   ("gc_high_wm="%string, fun v => cfg_set_high_watermark (u32 v));
   ("seg_qs_conf="%string, fun v => cfg_set_seg_qs_conf (u32 v))].

(** The first option of a list that a token starts with. *)
Fixpoint find_option {A} (token : list Z) (opts : list (string * A)) : option A :=
  match opts with
  | [] => None
  | (name, x) :: opts' => if str_starts_with token (cstr name) then Some x else find_option token opts'
  end.

(** One argument: 0 or an error, and the parameters. *)
Definition parse_scm_arg (malloc : nat -> bool) (token : list Z) (c : scm_parameters) : option (Z * scm_parameters) :=
  match after_eq token with
  | None => Some (- EINVAL, c)
  | Some val =>
      match find_option token number_options with
      | Some set => Some (0, set (fst (strtoul val)) c)
      | None =>
          if str_starts_with token (cstr "scm_dev=") then c' ← add_dev_name val c; Some (0, c')
          else if str_starts_with token (cstr "scm_props_dev") then
            let dev := s32 (fst (strtoul (drop 13 token))) in
            if Z.of_nat SCM_MAX_DEVICES <=? dev then Some (- EINVAL, c)
            else if dev <? 0 then None
            else ps ← scm_dev_props_parse malloc val; Some (0, cfg_set_dev_props (<[Z.to_nat dev := ps]> (cfg_dev_props c)) c)
          else Some (- EINVAL, c)
      end
  end.

Fixpoint parse_arg_loop (malloc : nat -> bool) (argv : list (list Z)) (c : scm_parameters) : option (Z * scm_parameters) :=
  match argv with
  | [] => Some (0, c)
  | a :: argv' => '(rc, c') ← parse_scm_arg malloc a c; if rc =? 0 then parse_arg_loop malloc argv' c' else Some (rc, c')
  end.

Definition parse_scm_args (malloc : nat -> bool) (argv : list (list Z)) (c : scm_parameters) : option (Z * scm_parameters) :=
  if negb (cfg_simulation c) && (length argv <? 1)%nat then Some (- EINVAL, c)
  else
    '(rest, c) ← parse_dev_args argv (cfg_set_dev_nr 0 c);
    '(rc, c) ← parse_arg_loop malloc rest c;
    if negb (rc =? 0) then Some (rc, c)
    else
      let c := if negb (cfg_dev_size_raw c =? 0) && negb (cfg_simulation c) then cfg_set_dev_size_raw 0 c else c in
      if cfg_dev_nr c =? 0 then
        if cfg_simulation c
        then Some (0, cfg_set_dev_names (<[0%nat := cstr "SIM-DEVICE"]> (cfg_dev_names c)) (cfg_set_dev_nr 1 c))
        else Some (- EINVAL, c)
      else if cfg_dev_nr c =? 1 then Some (0, cfg_set_raid RAID0 c)
      else Some (0, c).

(** ** The device's ranges *)

(** The properties of device [i]; none beyond the array. *)
Definition dev_props_of (c : scm_parameters) (i : nat) : option scm_dev_properties := cfg_dev_props c !! i.

(** [append]s of the properties of the devices from [i] on. *)
Fixpoint append_devs (c : scm_parameters) (i n : nat) (ps : scm_dev_properties) : option scm_dev_properties :=
  match n with
  | O => Some ps
  | S n' => d ← dev_props_of c i; ps' ← scm_dev_props_append ps d; append_devs c (S i) n' ps'
  end.

(** The loop over the devices of a RAID: what it leaves in [min_capacity]. *)
Fixpoint min_capacity_loop (c : scm_parameters) (i n : nat) (min_raw_capacity min_capacity : Z) : option Z :=
  match n with
  | O => Some min_capacity
  | S n' =>
      d ← dev_props_of c i;
      let x := scm_dev_props_size_grain d (SEC2B 1) in
      min_capacity_loop c (S i) n' min_raw_capacity (if x <? min_raw_capacity then x else min_capacity)
  end.

Definition scm_cfg_set_scm_props (c : scm_parameters) (target_len : Z) : option (Z * scm_parameters) :=
  let sector_size := SEC2B 1 in
  let segment_size := u64 (cfg_segment_size c * cfg_grain_size c) in
  let seg_sectors := B2SEC segment_size in
  let done raw_dev_sectors ps := Some (0, cfg_set_dev_size_raw (SEC2B raw_dev_sectors) (cfg_set_scm_props ps c)) in
  if seg_sectors =? 0 then Some (- EINVAL, c)
  else if cfg_dev_nr c =? 1 then
    d ← dev_props_of c 0;
    let raw := scm_dev_props_size_grain d sector_size in
    let raw := if target_len =? 0 then raw else Z.min raw target_len in
    let dev_sectors := u64 (raw / seg_sectors * seg_sectors) in
    done raw (fst (scm_dev_props_copy d (SEC2B dev_sectors)))
  else if cfg_raid c =? SALSA_LINEAR then
    ps ← append_devs c 0 (Z.to_nat (cfg_dev_nr c)) (cfg_scm_props c);
    let raw := scm_dev_props_size_grain ps sector_size in
    ps ← (if target_len =? 0 then Some ps else scm_dev_props_truncate_grain ps sector_size target_len);
    done raw ps
  else if (cfg_raid c =? RAID0) || (cfg_raid c =? RAID5) then
    let raid_n := u32 (if cfg_raid c =? RAID5 then cfg_dev_nr c - 1 else cfg_dev_nr c) in
    if raid_n =? 0 then None
    else if negb (cfg_segment_size c mod raid_n =? 0) then Some (- EINVAL, c)
    else
      d ← dev_props_of c 0;
      let min_raw_capacity := scm_dev_props_size_grain d sector_size in
      _ ← min_capacity_loop c 1 (Z.to_nat (cfg_dev_nr c) - 1) min_raw_capacity 0;
      let min_capacity := u64 (min_raw_capacity / seg_sectors * seg_sectors) in
      done (u64 (raid_n * min_raw_capacity)) (scm_dev_props_set_default (SEC2B (u64 (raid_n * min_capacity))))
  else None.

(** What the platform answers: [open] and [lseek] on a device, [malloc]. *)
Record usr_env := mkUsrEnv {
  ue_open : list Z -> Z;          (** 0, or [errno] *)
  ue_size : list Z -> option Z;   (** [None]: [lseek64] failed *)
  ue_malloc : nat -> bool
}.

Definition usr_dev_set_props (e : usr_env) (name : list Z) (props : scm_dev_properties) : option (Z * scm_dev_properties) :=
  if decide (props <> []) then Some (0, props)
  else if negb (ue_open e name =? 0) then Some (ue_open e name, props)
  else
    match ue_size e name with
    | None => Some (EINVAL, props)
    | Some size => ps ← scm_dev_props_add_range_prop [] (SCM_DEV_RPROP size SCM_PROP_DEFAULT); Some (0, ps)
    end.

Fixpoint usr_scm_parse_devs (e : usr_env) (i n : nat) (c : scm_parameters) : option (Z * scm_parameters) :=
  match n with
  | O => Some (0, c)
  | S n' =>
      name ← cfg_dev_names c !! i;
      props ← dev_props_of c i;
      '(err, ps) ← usr_dev_set_props e name props;
      let c := cfg_set_dev_props (<[i := ps]> (cfg_dev_props c)) c in
      if err =? 0 then usr_scm_parse_devs e (S i) n' c else Some (err, c)
  end.

Definition scm_usr_init_cfg (e : usr_env) (argv : list (list Z)) : option (Z * scm_parameters) :=
  '(err, c) ← parse_scm_args (ue_malloc e) argv reset_scm_config;
  if negb (err =? 0) then Some (-1, c)
  else
    c ← (if cfg_simulation c then
           ps ← scm_dev_props_add_range_prop [] (SCM_DEV_RPROP (cfg_dev_size_raw c) SCM_PROP_DEFAULT);
           Some (cfg_set_dev_props (<[0%nat := ps]> (cfg_dev_props c)) c)
         else '(_, c) ← usr_scm_parse_devs e 0 (Z.to_nat (cfg_dev_nr c)) c; Some c);
    '(err, c) ← scm_cfg_set_scm_props c 0;
    if err <? 0 then Some (- EINVAL, c)
    else if scm_dev_props_size (cfg_scm_props c) =? 0 then Some (- EINVAL, c)
    else Some (0, c).
