(* ===== verification/DevTheorems.v ===== *)
(** * DevTheorems: the ranges of a device, theorems

    Copying, appending, measuring and searching against the bytes of a device; the
    map to the addresses of several devices; parsing; and where the code departs from
    what its comments say; the unit tests that the source carries. *)
From Stdlib Require Import ZArith Lia Ascii String.
From stdpp Require Import base tactics list numbers option.
From S2P Require Import Prelude SalsaScm SalsaInit CString DevProps DevPropsSpec ScmConfig.

Open Scope Z_scope.

Lemma joinable ps : Forall valid_range ps -> Forall (fun r => dr_prop r <> SCM_PROP_NVRAM) ps ->
  Forall (fun r => 0 < dr_prop r < SCM_PROP_LAST) ps.
Proof.
  intros Hv Hn. rewrite List.Forall_forall in *. intros r Hr. destruct (Hv r Hr) as [_ Hp]. specialize (Hn r Hr). unfold SCM_PROP_NVRAM in Hn. lia.
Qed.

(** C24: the operations on the ranges of a device are operations on its bytes.  The
    size is the number of bytes; a copy holds the first [n] bytes and says how many it
    took; appending, where it returns, puts the bytes of the second device behind those
    of the first, whether or not the ranges at the seam are merged, and it returns when
    no range is NVRAM and the two have at most 16 ranges together; and searching for an offset finds
    a range with the property and the device of that byte, or nothing beyond the end. *)
Theorem dev_props_bytes p1 p2 n :
  valid_props p1 -> valid_props p2 -> total p1 + total p2 < 2 ^ 64 -> 0 <= n ->
  scm_dev_props_size p1 = total p1 /\
  (let '(dst, len) := scm_dev_props_copy p1 n in
   len = Z.min n (total p1) /\ total dst = len /\
   forall off, 0 <= off -> at_byte dst off = if off <? n then at_byte p1 off else None) /\
  (Forall (fun r => dr_prop r <> SCM_PROP_NVRAM) (p1 ++ p2) -> (length p1 + length p2 <= SCM_DEV_RANGES_MAX)%nat ->
     is_Some (scm_dev_props_append p1 p2)) /\
  (forall p, scm_dev_props_append p1 p2 = Some p ->
     scm_dev_props_size p = total p1 + total p2 /\ forall off, 0 <= off -> at_byte p off = at_byte (p1 ++ p2) off) /\
  (forall off, 0 <= off ->
     (fun r => (dr_prop r, dr_dev r)) <$> (scm_dev_props_find p1 off ≫= (fun i => p1 !! i)) = at_byte p1 off).
Proof.
  intros H1 H2 Hlt Hn. split; [by apply size_total|]. split; [|split; [|split]].
  - unfold scm_dev_props_copy. destruct (copy_from p1 n) as [dst rem] eqn:E.
    apply copy_from_spec in E as (-> & _ & Ht & Hb); [|apply H1|done]. split; [lia|]. split; [lia|done].
  - intros [Hp1 Hp2]%Forall_app Hlen. by apply append_succeeds; [apply joinable; [apply H1|]|apply joinable; [apply H2|]|].
  - intros p E. apply append_bytes in E as (Hv & Ht & Hb); [|done|apply H2|done]. split; [|done]. by rewrite size_total, Ht.
  - intros off Hoff. by apply find_bytes.
Qed.

(** C26: the linear map is a bijection.  On ranges grouped by device, every address
    below the size goes to its offset within the device it lies on; every offset of
    every device is the image of exactly the address behind the device's start; and
    addresses beyond the end go nowhere. *)
Theorem linear_map_bijective ps v :
  valid_props ps -> grouped ps -> ~ has_dev ps 0 -> 0 <= v ->
  (v < total ps -> exists p d, at_byte ps v = Some (p, d) /\ dev_start ps d <= v < dev_start ps d + dev_size ps d /\
     scm_dev_linear_map ps v = Some (d, v - dev_start ps d)) /\
  (forall d a, has_dev ps d -> 0 <= a < dev_size ps d -> v = dev_start ps d + a -> scm_dev_linear_map ps v = Some (d, a)) /\
  (total ps <= v -> scm_dev_linear_map ps v = Some (0, 0)).
Proof.
  intros [Hv Ht] Hg H0 Hv0.
  assert (forall p d, at_byte ps v = Some (p, d) -> scm_dev_linear_map ps v = Some (d, v - dev_start ps d)) as Hmap.
  { intros p d Hat. unfold scm_dev_linear_map. rewrite (linear_from_spec ps None 0 0 v p d) by (done || lia). do 2 f_equal. destruct (d =? 0); lia. }
  split; [|split].
  - intros Hlt. apply at_byte_Some in Hlt as [[p d] Hat]; [|done|done]. exists p, d. split; [done|]. split; [|by eapply Hmap].
    apply (dev_bytes ps d v Hv Hg Hv0 (at_byte_has _ _ _ _ Hat)). by exists p.
  - intros d a Hd Ha ->. destruct (proj2 (dev_bytes ps d _ Hv Hg Hv0 Hd)) as [p Hp]; [lia|]. rewrite (Hmap p d Hp). do 2 f_equal. lia.
  - intros Hle. by apply linear_from_out.
Qed.

(** C33: ranges without a zone length, which the parser never sets, written in the
    syntax of the [scm_props_dev] argument are read back: length, property, real
    length and device of up to 16 ranges. And whatever the text, the parser comes to
    an end with at most 16 ranges. *)
Theorem dev_props_parse_print malloc ps str :
  ps <> [] -> (length ps <= SCM_DEV_RANGES_MAX)%nat -> Forall printable ps ->
  scm_dev_props_parse malloc (print_props ps) = Some ps /\
  exists qs, scm_dev_props_parse malloc str = Some qs /\ (length qs <= SCM_DEV_RANGES_MAX)%nat.
Proof.
  intros Hne Hlen Hp. split; [by apply parse_print_ranges|]. apply parse_ranges_ends.
Qed.

(** Two devices of [a] and [b] bytes striped. *)
Definition striped (a b : Z) : scm_parameters :=
  cfg_set_dev_nr 2 (cfg_set_dev_props (<[0%nat := [SCM_DEV_RPROP a SCM_PROP_DEFAULT]]>
    (<[1%nat := [SCM_DEV_RPROP b SCM_PROP_DEFAULT]]> (replicate SCM_MAX_DEVICES []))) reset_scm_config).

Lemma total_mod grain ps : 0 < grain -> Forall (fun r => dr_len r mod grain = 0) ps -> total ps mod grain = 0.
Proof.
  intros Hg. induction 1 as [|r ps Hr _ IH]; [by apply Z.mod_0_l; lia|]. change (total (r :: ps)) with (dr_len r + total ps).
  by rewrite Z.add_mod, Hr, IH by lia.
Qed.

(** where the device code departs from its comments.  Truncating at the end of a
    range keeps every later range; two NVRAM ranges of one device cannot be joined
    ([BUG_ON]); no attribute ever gives a range a zone length other than the one it has
    or 0; and the capacity of a striped pair is that of the first device doubled,
    however small the second is. *)
Theorem dev_props_hazards grain k ps :
  Forall valid_range ps -> Forall (fun r => dr_len r mod grain = 0) ps -> 0 < grain -> total ps < 2 ^ 64 ->
  scm_dev_props_truncate_grain ps grain (total (take k ps) / grain) = Some ps /\
  (forall a b, scm_dev_props_append [SCM_DEV_RPROP a SCM_PROP_NVRAM] [SCM_DEV_RPROP b SCM_PROP_NVRAM] = None) /\
  (forall r attribute, dr_zone (scm_dev_props_parse_attribute r attribute) = dr_zone r \/ dr_zone (scm_dev_props_parse_attribute r attribute) = 0) /\
  (forall a b, (fun r => cfg_scm_props (snd r)) <$> scm_cfg_set_scm_props (striped a b) 0 =
               (fun r => cfg_scm_props (snd r)) <$> scm_cfg_set_scm_props (striped a a) 0).
Proof.
  intros Hv Hg Hgr Ht. split; [|split_and!].
  - assert (grain * (total (take k ps) / grain) = total (take k ps)) as Hm.
    { symmetry. apply Z.div_exact; [lia|]. apply total_mod; [done|by apply Forall_take]. }
    assert (0 <= total (take k ps) <= total ps) as Hle.
    { split; [apply total_nonneg; by apply Forall_take|]. rewrite <- (take_drop k ps) at 2. rewrite total_app.
      pose proof (total_nonneg (drop k ps) ltac:(by apply Forall_drop)). lia. }
    destruct (truncate_from_spec ps grain (total (take k ps) / grain) Hv Hg Hgr) as (ps' & E & Hb & _); [apply Z.div_pos; lia|lia|].
    unfold scm_dev_props_truncate_grain. rewrite E, Hb; [done|]. rewrite Hm. by exists k.
  - done.
  - intros r attribute. unfold scm_dev_props_parse_attribute. case_decide as Ha; [|by left]. subst attribute. cbn.
    destruct (scm_dev_prop_is_smr_seq (dr_prop r)); [by right|by left].
  - done.
Qed.

(** ** Examples *)

Definition ex_p1 : scm_dev_properties := [mkDevProp 8192 SCM_PROP_FLASH 1 0 0; mkDevProp 4096 SCM_PROP_SMR_CONV 1 0 0].
Definition ex_p2 : scm_dev_properties := [mkDevProp 4096 SCM_PROP_FLASH 2 0 0].

Lemma ex_valid : valid_props ex_p1 /\ valid_props ex_p2 /\ valid_props (ex_p1 ++ ex_p2).
Proof. split_and!; (split; [repeat constructor; cbn; unfold SCM_PROP_LAST, SCM_PROP_FLASH, SCM_PROP_SMR_CONV; lia|reflexivity]). Qed.

Lemma dev_props_bytes_witness : scm_dev_props_size ex_p1 = 12288 /\
  (forall off, 0 <= off -> at_byte (fst (scm_dev_props_copy ex_p1 10000)) off = if off <? 10000 then at_byte ex_p1 off else None) /\
  exists p, scm_dev_props_append ex_p1 ex_p2 = Some p /\ scm_dev_props_size p = 16384 /\
    forall off, 0 <= off -> at_byte p off = at_byte (ex_p1 ++ ex_p2) off.
Proof.
  destruct (dev_props_bytes ex_p1 ex_p2 10000) as (Hs & Hc & [p Hp] & Ha & _); [apply ex_valid|apply ex_valid|reflexivity|lia| | |].
  - repeat constructor; discriminate.
  - vm_compute. lia.
  - split; [exact Hs|]. split; [exact (proj2 (proj2 Hc))|]. exists p. split; [exact Hp|exact (Ha p Hp)].
Defined.

Lemma linear_map_bijective_witness : scm_dev_linear_map (ex_p1 ++ ex_p2) 13000 = Some (2, 712).
Proof.
  destruct (linear_map_bijective (ex_p1 ++ ex_p2) 13000) as (_ & H & _).
  - apply ex_valid.
  - split; [intros _; eexists _, _; split; reflexivity|].
    split; [|split; [|exact I]]; intros (r & Hr & Hd); repeat (apply elem_of_cons in Hr as [->|Hr]; [discriminate|]); by apply elem_of_nil in Hr.
  - intros (r & Hr & Hd). cbn in Hr. repeat (apply elem_of_cons in Hr as [->|Hr]; [done|]). by apply elem_of_nil in Hr.
  - lia.
  - apply H; [|cbn; lia|reflexivity]. exists (mkDevProp 4096 SCM_PROP_FLASH 2 0 0). split; [|reflexivity]. repeat constructor.
Defined.

Lemma dev_props_parse_print_witness : scm_dev_props_parse (const true) (print_props ex_p1) = Some ex_p1.
Proof.
  destruct (dev_props_parse_print (const true) ex_p1 []) as [H _]; [discriminate|vm_compute; lia| |exact H].
  repeat (constructor; [unfold printable, in_width, SCM_PROP_LAST, SCM_PROP_FLASH, SCM_PROP_SMR_CONV; cbn; lia|]). constructor.
Defined.

Lemma dev_props_hazards_witness : scm_dev_props_truncate_grain ex_p1 4096 2 = Some ex_p1.
Proof.
  destruct (dev_props_hazards 4096 1 ex_p1) as [H _]; [apply ex_valid|repeat constructor|lia|reflexivity|exact H].
Defined.

(** ** The unit tests of scm-dev-properties.c

    As functions that say whether no failure would be printed, run on the model. *)

(** The device a test names. *)
Definition parsed (s : string) : scm_dev_properties := default [] (scm_dev_props_parse (const true) (cstr s)).

(** No failure is printed for result [r] and expected [e]. *)
Definition test_compare (r : option scm_dev_properties) (e : scm_dev_properties) : bool :=
  match r with Some r => bool_decide (scm_dev_props_cmp r e = SCM_DEV_PROP_CMP_EQ) | None => false end.

Definition scm_dev_prop_copy_test : bool :=
  forallb (fun '(src, len, res) => test_compare (Some (fst (scm_dev_props_copy (parsed src) len))) (parsed res))
    [("100:200"%string, 150, "100:50"%string)].

Definition scm_dev_prop_truncate_test : bool :=
  forallb (fun '(grain, src, grains, res) => test_compare (scm_dev_props_truncate_grain (parsed src) grain grains) (parsed res))
    [(1, "100:200"%string, 300, "100:200"%string);
     (1, "100:200"%string, 150, "100:50"%string);
     (1, "100.1:200.0"%string, 50, "50.1"%string);
     (4, "5:30"%string, 3, "5:8"%string)].

Definition scm_dev_prop_append_test : bool :=
  forallb (fun '(p1, p2, r) => test_compare (scm_dev_props_append (parsed p1) (parsed p2)) (parsed r))
    [("100"%string, "200"%string, "300"%string);
     ("100.1"%string, "100.0"%string, "100.1:100.0"%string);
     ("100@1"%string, "200@2"%string, "100@1:200@2"%string)].

(** The expected lengths are followed by zeros in the source. *)
Definition scm_dev_props_scale__test : bool :=
  forallb (fun '(p, new_len, res) => bool_decide (scm_dev_props_scale__ (parsed p) new_len = Some res))
    [("100:200"%string, 600, [200; 400]);
     ("100:200"%string, 150, [50; 100])].

(** -1 is no range. *)
Definition scm_dev_props_find_test : bool :=
  forallb (fun '(p, off, res) =>
      match scm_dev_props_find (parsed p) off with None => res =? -1 | Some i => Z.of_nat i =? res end)
    [("100:200"%string, 300, -1);
     ("100:200"%string, 50, 0);
     ("100:200"%string, 99, 0);
     ("100:200"%string, 100, 1);
     ("100:200"%string, 299, 1)].

Definition scm_dev_linear_map_test : bool :=
  forallb (fun '(p, vpba, pba) => bool_decide (scm_dev_linear_map (parsed p) vpba = Some pba))
    [("100@1"%string, 50, (1, 50));
     ("100@1:50@2"%string, 110, (2, 10));
     ("100@1:50@2"%string, 99, (1, 99));
     ("100@1:50@2"%string, 100, (2, 0))].

Definition SCM_DEV_RPROP_SMR (l p z : Z) : scm_dev_range_prop := mkDevProp l p 0 z 0.

Definition parse_test : bool :=
  forallb (fun '(input, expected) => test_compare (scm_dev_props_parse (const true) (cstr input)) expected)
    [("1000"%string, [SCM_DEV_RPROP 1000 SCM_PROP_DEFAULT]);
     ("100@55:300"%string, [SCM_DEV_RPROP__ 100 SCM_PROP_DEFAULT 0 55; SCM_DEV_RPROP 300 SCM_PROP_DEFAULT]);
     ("100:200"%string, [SCM_DEV_RPROP 100 SCM_PROP_DEFAULT; SCM_DEV_RPROP 200 SCM_PROP_DEFAULT]);
     ("100:200.1"%string, [SCM_DEV_RPROP 100 SCM_PROP_DEFAULT; SCM_DEV_RPROP 200 1]);
     ("100:200.1:100.2"%string, [SCM_DEV_RPROP 100 SCM_PROP_DEFAULT; SCM_DEV_RPROP 200 1; SCM_DEV_RPROP 100 2]);
     ("100/1000:200.1/1000:100/2000.2"%string,
      [SCM_DEV_RPROP__ 100 SCM_PROP_DEFAULT 1000 0; SCM_DEV_RPROP__ 200 1 1000 0; SCM_DEV_RPROP__ 100 2 2000 0]);
     ("100.3{zone_len=536870912}"%string, [SCM_DEV_RPROP_SMR 100 3 536870912]);
     ("100.1:100.3{zone_len=536870912}:100.2"%string,
      [SCM_DEV_RPROP 100 1; SCM_DEV_RPROP_SMR 100 3 536870912; SCM_DEV_RPROP 100 2])].

(** The tests in the order [main] runs them. *)
Definition dev_props_tests : list bool :=
  [parse_test; scm_dev_prop_copy_test; scm_dev_prop_truncate_test; scm_dev_prop_append_test; scm_dev_linear_map_test;
   scm_dev_props_find_test; scm_dev_props_scale__test].

(** All pass on the model, although the parsed zone length is not the one expected:
    the comparison does not look at it. *)
Example dev_props_tests_pass :
  Forall (fun b => b = true) dev_props_tests /\
  dr_zone <$> parsed "100.3{zone_len=536870912}" <> dr_zone <$> [SCM_DEV_RPROP_SMR 100 3 536870912].
Proof. split; [repeat constructor|]. vm_compute. discriminate. Qed.
