(* ===== verification/ScmStart.v ===== *)
(** * ScmStart: building SALSA
      (sto-ctlr/sto-capacity-mgr.c, util/parse-storage-args.c, gc/gc-common.c,
      usalsa++/Scm.cc, usalsa++/SalsaCtlr.cc, usalsa++/allocator.c)

    The capacity manager is built from its parameters, wrapped in an [Scm], and a
    controller registers with it.  [None] is a division by zero, [BUG_ON] or the use
    of a null pointer; answers of the allocators of memory and threads are the
    environment's. *)
From Stdlib Require Import ZArith Lia.
From stdpp Require Import base tactics list numbers option.
From S2P Require Import Prelude Util StateM Throttle SalsaScm SalsaGc SalsaAlloc SalsaInit CString DevProps ScmConfig.

Open Scope Z_scope.

(** ** The capacity manager *)

Definition gc_type_of (t : Z) : option gc_type :=
  if t =? 4 then Some GC_SALSA_3BIN
  else if t =? 5 then Some GC_SALSA_NBIN
  else if t =? 10 then Some GC_NBIN_XNP_INTRPT_SAFE
  else if t =? 11 then Some GC_NBIN_XNP_HEAT_SEG
  else if t =? 13 then Some GC_NBIN_HEAT_SEG
  else if t =? 14 then Some GC_NBIN_XNP_OVRW_HEAT_SEG
  else if t =? 15 then Some GC_NBIN_DYN_THRESHOLD
  else None.

(** A collector with bins, or one of the other kinds (greedy window, circular
    buffer, the variant of XNP_OVRW with number 16). *)
Inductive built_gc := GcBins (g : gc_conf) | GcOther (t : Z).

Definition check_sto_capacity_mgr_parameters (c : scm_parameters) : Z :=
  let dev_size := scm_dev_props_size (cfg_scm_props c) in
  if negb (cfg_simulation c) && ((cfg_grain_size c <? PAGE_SIZE) || (SALSA_MAX_GRAIN_SIZE <? cfg_grain_size c)) then - EINVAL
  else if negb (is_power_of_two (cfg_grain_size c)) then - EINVAL
  else if (cfg_segment_size c =? 0) || (SALSA_MAX_SEGMENT_SIZE <? cfg_segment_size c) then - EINVAL
  else if negb (cfg_raid c =? RAID0) && negb (cfg_raid c =? RAID5) && negb (cfg_raid c =? SALSA_LINEAR) then - EINVAL
  else if dev_size <? u64 (u64 (cfg_segment_size c * cfg_grain_size c) * SALSA_MIN_REL_SEGMENTS) then - EINVAL
  else if negb (cfg_simulation c) && (u64 (PBA_INVAL_ENTRY * cfg_grain_size c) <? dev_size) then - EINVAL
  else 0.

Definition scm_cfg_get_segs_nr (c : scm_parameters) : Z :=
  scm_dev_props_size_grain (cfg_scm_props c) (u64 (cfg_grain_size c * cfg_segment_size c)).
Definition scm_cfg_get_real_segs_nr (c : scm_parameters) : Z :=
  scm_dev_props_real_size_grain_set (cfg_scm_props c) (u64 (cfg_grain_size c * cfg_segment_size c)) SCM_PROP_SET_ALL.

Record start_env := mkStartEnv {
  se_usr : usr_env;
  se_scm : Z -> bool;      (** memory for a manager of that many segments *)
  se_rmap : Z -> bool;     (** memory for a reverse map of that many entries *)
  se_gc : Z -> Z           (** 0, or the error of the constructor of a collector of that type *)
}.

Definition SALSA_MAX_CTLRS : nat := 255.

(** [struct sto_capacity_mgr] with its collector.  [so_init] is the state right after
    the queues were filled, which their maxima are read from; the controllers are
    pointers, 0 the null pointer. *)
Record scm_object := mkScmObject {
  so_conf : scm_conf;
  so_grain_size : Z;
  so_rmap_nr : Z;
  so_raw : Z;
  so_props : scm_dev_properties;
  so_init : scm;
  so_state : scm;
  so_gc : built_gc;
  so_ctlrs : list Z;
  so_ctl_data : ctl_table
}.

Definition set_ctlrs (l : list Z) (o : scm_object) : scm_object :=
  mkScmObject (so_conf o) (so_grain_size o) (so_rmap_nr o) (so_raw o) (so_props o) (so_init o) (so_state o) (so_gc o)
              l (so_ctl_data o).
Definition set_ctl_data (l : ctl_table) (o : scm_object) : scm_object :=
  mkScmObject (so_conf o) (so_grain_size o) (so_rmap_nr o) (so_raw o) (so_props o) (so_init o) (so_state o) (so_gc o)
              (so_ctlrs o) l.

Definition dev_range_of (r : scm_dev_range_prop) : dev_range := mkDevRange (dr_len r) (dr_prop r) (dr_real r).

Definition seg_qs_masks (conf : Z) : option (list Z) :=
  if conf =? SCM_SEG_QUEUES_ONE then Some masks_one
  else if conf =? SCM_SEG_QUEUES_ALL then Some masks_all
  else None.

Definition conf_of (c : scm_parameters) (masks : list Z) : scm_conf :=
  mkScmConf (Z.to_nat (scm_cfg_get_segs_nr c)) (cfg_segment_size c) (length masks)
            (fun q => default 0 (masks !! q))
            ((cfg_dev_nr c =? 1) || (cfg_raid c =? SALSA_LINEAR)) (const 0).

(** An unknown configuration leaves the state alone. *)
Definition scm_seg_queues_init_conf (c : scm_parameters) (props : scm_dev_properties) : option (Z * scm_conf * scm) :=
  match seg_qs_masks (cfg_seg_qs_conf c) with
  | None => let sc := conf_of c [] in Some (- EINVAL, sc, scm_zero sc)
  | Some ms =>
      let sc := conf_of c ms in
      '(err, s) ← scm_seg_queues_init sc (cfg_grain_size c) (dev_range_of <$> props) (scm_zero sc);
      Some (err, sc, s)
  end.

(** [gc_ctr] by the type asked for; [None] is the division by [bin_nr]. *)
Definition gc_ctr_type (e : start_env) (c : scm_parameters) (sc : scm_conf) : option (Z * option built_gc) :=
  match gc_type_of (cfg_gc c) with
  | None =>
      if (cfg_gc c =? 0) || (cfg_gc c =? 1) || (cfg_gc c =? 16)
      then Some (se_gc e (cfg_gc c), if se_gc e (cfg_gc c) =? 0 then Some (GcOther (cfg_gc c)) else None)
      else Some (EINVAL, None)
  | Some ty =>
      let p := mkGcParams ty (cfg_low_watermark c) (cfg_high_watermark c) (cfg_xnp_pct c) (cfg_xnp_hot_pct c) (cfg_bin_nr c) in
      if negb (se_gc e (cfg_gc c) =? 0) then Some (se_gc e (cfg_gc c), None)
      else if (cfg_bin_nr c =? 0) && negb (cfg_gc c =? 4) then None
      else Some (0, Some (GcBins (gc_ctr (seg_size sc) (Z.of_nat (seg_nr sc)) p)))
  end.

(** The places of the segments in the reverse map, from segment [i] on. *)
Fixpoint rmap_loop (seg_size rmap_size rmap_nr : Z) (i n : nat) : option unit :=
  match n with
  | O => Some tt
  | S n' =>
      if rmap_nr <? u64 (Z.of_nat i * seg_size) / rmap_size then None
      else rmap_loop seg_size rmap_size rmap_nr (S i) n'
  end.

Definition sto_capacity_mgr_ctr (e : start_env) (c : scm_parameters) : option (Z * option scm_object) :=
  let err := check_sto_capacity_mgr_parameters c in
  if negb (err =? 0) then Some (err, None)
  else
    let seg_nr := scm_cfg_get_segs_nr c in
    let dev_size := u64 (u64 (seg_nr * cfg_segment_size c) * cfg_grain_size c) in
    let grain_nr := dev_size / cfg_grain_size c in
    if negb (se_scm e (scm_cfg_get_real_segs_nr c)) then Some (ENOMEM, None)
    else if cfg_use_rmap c && (cfg_rmap_grain_size c =? 0) then None
    else
      let rmap_size := if cfg_use_rmap c then cfg_rmap_grain_size c else 1 in
      let rmap_nr := grain_nr / rmap_size in
      if cfg_use_rmap c && negb (se_rmap e (u64 (rmap_nr + 1))) then Some (ENOMEM, None)
      else
        let props := scm_dev_props_copy_full (cfg_scm_props c) in
        '(err, sc, s) ← scm_seg_queues_init_conf c props;
        if negb (err =? 0) then Some (err, None)
        else
          '(err, gc) ← gc_ctr_type e c sc;
          match gc with
          | None => Some (err, None)
          | Some gc =>
              _ ← (if cfg_use_rmap c then rmap_loop (cfg_segment_size c) rmap_size rmap_nr 0 (Z.to_nat seg_nr) else Some tt);
              Some (0, Some (mkScmObject sc (cfg_grain_size c) rmap_nr (cfg_dev_size_raw c) props s s gc
                               (replicate SALSA_MAX_CTLRS 0) (replicate SALSA_MAX_CTLRS None)))
          end.

Definition scm_get_dev_size (o : scm_object) : Z := scm_dev_props_size (so_props o).

(** ** The table of controllers *)

(** The first place that holds [p]. *)
Definition scm_find_ctlr (ctlrs : list Z) (p : Z) : option nat :=
  for_first (fun i => bool_decide (ctlrs !! i = Some p)) 0 (length ctlrs).

(** The error, and the number given. *)
Definition scm_register_sto_ctlr (o : scm_object) (sc : Z) : Z * nat * scm_object :=
  match scm_find_ctlr (so_ctlrs o) sc with
  | Some _ => (EEXIST, 0%nat, o)
  | None =>
      match scm_find_ctlr (so_ctlrs o) 0 with
      | Some i => (0, i, set_ctlrs (<[i := sc]> (so_ctlrs o)) o)
      | None => (ENOSPC, 0%nat, o)
      end
  end.

Definition scm_unregister_sto_ctlr (o : scm_object) (sc : Z) : scm_object :=
  match scm_find_ctlr (so_ctlrs o) sc with
  | Some i => set_ctlrs (<[i := 0]> (so_ctlrs o)) o
  | None => o
  end.

(** [None] is the access outside the table. *)
Definition gc_register_ctlr (o : scm_object) (id : nat) (qset : Z) : option (Z * scm_object) :=
  sc ← so_ctlrs o !! id;
  if sc =? 0 then Some (EINVAL, o) else Some (0, set_ctl_data (<[id := Some qset]> (so_ctl_data o)) o).

Definition gc_unregister_ctlr (o : scm_object) (id : nat) : scm_object :=
  set_ctl_data (<[id := None]> (so_ctl_data o)) o.

(** ** The class [Scm] *)

Record Scm := mkScmClass {
  scm_ : option scm_object;
  used_streams_ : Z;
  max_capacity_ : Z;
  max_capacity_reloc_ : Z
}.

Definition Scm_new : Scm := mkScmClass None 0 0 0.

Definition set_scm_ (o : scm_object) (used : Z) (m : Scm) : Scm := mkScmClass (Some o) used (max_capacity_ m) (max_capacity_reloc_ m).

(** [None] is the division by zero. *)
Definition has_enough_spare_segments (m : Scm) (dev_size grain_size segment_size stream_nr : Z) : option bool :=
  let new_stream_nr := u32 (used_streams_ m + stream_nr) in
  let seg_sizeb := u64 (grain_size * segment_size) in
  if seg_sizeb =? 0 then None
  else
    let tot_segs := align_down dev_size seg_sizeb / seg_sizeb in
    let used_segs := align_down (u64 (max_capacity_reloc_ m * grain_size)) seg_sizeb / seg_sizeb in
    let min_seg_nr := u32 (SALSA_MIN_REL_SEGMENTS + new_stream_nr) in
    let spare_seg_nr := if used_segs <? tot_segs then tot_segs - used_segs else 0 in
    Some (negb ((spare_seg_nr <? min_seg_nr) || (dev_size <=? u64 (max_capacity_reloc_ m * grain_size)))).

Definition Scm_init (e : start_env) (argv : list (list Z)) (overprovision : Z) : option (Z * Scm) :=
  '(err, c) ← scm_usr_init_cfg (se_usr e) argv;
  let reloc_spare := u64 (cfg_segment_size c * 2) in
  let seg_aligned_dev_size := align_down (cfg_dev_size_raw c) (u64 (cfg_grain_size c * cfg_segment_size c)) in
  if negb (err =? 0) then Some (err, Scm_new)
  else if cfg_grain_size c =? 0 then None
  else
    let max_capacity := u64 (cfg_dev_size_raw c / cfg_grain_size c * u64 (1000 - overprovision)) / 1000 in
    let m := mkScmClass None 0 max_capacity (u64 (max_capacity + reloc_spare)) in
    enough ← has_enough_spare_segments m seg_aligned_dev_size (cfg_grain_size c) (cfg_segment_size c) 3;
    if negb enough then Some (EINVAL, m)
    else
      '(err, o) ← sto_capacity_mgr_ctr e c;
      Some (err, mkScmClass o 0 max_capacity (max_capacity_reloc_ m)).

Record RegistrationInfo := mkReg { ri_err : Z; ri_ctlr_id : Z; ri_stream_nr : Z; ri_qset : Z }.

(** What the constructor leaves; [ri_qset] is not initialised. *)
Definition Reg_new : RegistrationInfo := mkReg (-1) 255 255 0.

(** [ctlr] is the controller's address. *)
Definition register_ctlr (m : Scm) (ctlr prop_set stream_nr : Z) : option (RegistrationInfo * Scm) :=
  o ← scm_ m;
  let qset := scm_seg_queues_avail_props (so_conf o) (so_init o) prop_set in
  if qset =? 0 then Some (mkReg ENOSPC 255 255 qset, m)
  else
    enough ← has_enough_spare_segments m (scm_get_dev_size o) (so_grain_size o) (seg_size (so_conf o)) stream_nr;
    if negb enough then Some (mkReg EINVAL 255 255 qset, m)
    else
      let used := u32 (used_streams_ m + stream_nr) in
      let '(err, id, o1) := scm_register_sto_ctlr o ctlr in
      if negb (err =? 0) then Some (mkReg err 255 (wrap 8 stream_nr) qset, set_scm_ o1 (u32 (used - stream_nr)) m)
      else
        '(err, o2) ← gc_register_ctlr o1 id qset;
        let ri := mkReg err (Z.of_nat id) (wrap 8 stream_nr) qset in
        if negb (err =? 0)
        then Some (ri, set_scm_ (scm_unregister_sto_ctlr o2 ctlr) (u32 (used - stream_nr)) m)
        else Some (ri, set_scm_ o2 used m).

Definition unregister_ctlr (m : Scm) (ctlr : Z) (ri : RegistrationInfo) : option (RegistrationInfo * Scm) :=
  if negb (ri_err ri =? 0) then Some (ri, m)
  else
    o ← scm_ m;
    Some (mkReg (-1) (ri_ctlr_id ri) (ri_stream_nr ri) (ri_qset ri),
          set_scm_ (scm_unregister_sto_ctlr (gc_unregister_ctlr o (Z.to_nat (ri_ctlr_id ri))) ctlr)
                   (u32 (used_streams_ m - ri_stream_nr ri)) m).

(** ** The controller *)

(** What [malloc] and the start of a thread answer to allocator [i], a user's or a
    relocation's. *)
Record alltr_env := mkAlltrEnv { ae_malloc : bool -> nat -> bool; ae_thread : bool -> nat -> Z }.

(** An allocator is known by its flags. *)
Definition allocator_init (ae : alltr_env) (rel : bool) (i : nat) (seg_size reserved_per_seg : Z) (flags : gfs_flags)
  : Z * option gfs_flags :=
  if negb (ae_malloc ae rel i) then (ENOMEM, None)
  else if seg_size <? reserved_per_seg then (EINVAL, None)
  else if negb (ae_thread ae rel i =? 0) then (ae_thread ae rel i, None)
  else (0, Some (mkGfs (gf_reloc flags) (gf_thin_prov flags) true (prop_set_preferred flags) (prop_set_default flags))).

(** [SalsaCtlr]: [sl_scm] says whether [cb_scm_] is set. *)
Record SalsaCtlr := mkSalsaCtlr {
  sl_scm : bool;
  sl_ri : RegistrationInfo;
  sl_flags : gfs_flags;
  sl_stream_nr : Z;
  sl_rel_stream_nr : Z;
  sl_reserved : Z;
  sl_alltr : list (option gfs_flags);
  sl_rel_alltr : list (option gfs_flags)
}.

Definition SalsaCtlr_new : SalsaCtlr :=
  mkSalsaCtlr false Reg_new (mkGfs false false false SCM_PROP_SET_ALL SCM_PROP_SET_ALL) 0 0 0
    (replicate (Z.to_nat USALSAPP_MAX_STREAMS) None) (replicate (Z.to_nat USALSAPP_MAX_STREAMS) None).

(** Allocators [i ..]: the error, the number reached and the table. *)
Fixpoint init_alltrs (ae : alltr_env) (rel : bool) (seg_size reserved : Z) (flags : gfs_flags) (i n : nat)
    (l : list (option gfs_flags)) : Z * nat * list (option gfs_flags) :=
  match n with
  | O => (0, i, l)
  | S n' =>
      let '(err, a) := allocator_init ae rel i seg_size reserved flags in
      if negb (err =? 0) then (err, i, l)
      else init_alltrs ae rel seg_size reserved flags (S i) n' (<[i := a]> l)
  end.

(** Allocators [n - 1] down to 0; [None] is a null pointer or the end of the table. *)
Fixpoint exit_alltrs (n : nat) (l : list (option gfs_flags)) : option (list (option gfs_flags)) :=
  match n with
  | O => Some l
  | S i => _ ← mjoin (l !! i); exit_alltrs i (<[i := None]> l)
  end.

(** The flags of the allocators are copied before the property set is stored in
    them. *)
Definition SalsaCtlr_init (ae : alltr_env) (m : Scm) (ctlr reserved_per_seg stream_nr rel_stream_nr pset : Z) (sc : SalsaCtlr)
  : option (Z * Scm * SalsaCtlr) :=
  let n := init_stream_nr stream_nr in
  let rel_n := init_rel_stream_nr rel_stream_nr in
  let flags := sl_flags sc in
  '(ri, m1) ← register_ctlr m ctlr pset (u32 (n + rel_n));
  let with_alltrs f l rl := mkSalsaCtlr true ri f n rel_n (u32 reserved_per_seg) l rl in
  if negb (ri_err ri =? 0)
  then Some (ri_err ri, m1, mkSalsaCtlr false ri flags n rel_n (u32 reserved_per_seg) (sl_alltr sc) (sl_rel_alltr sc))
  else
    o ← scm_ m1;
    let flags' := mkGfs (gf_reloc flags) (gf_thin_prov flags) (gf_no_blocking flags) pset pset in
    let flags_for rel := mkGfs rel (gf_thin_prov flags) (gf_no_blocking flags) (prop_set_preferred flags) (prop_set_default flags) in
    let undo err stop l rl :=
      l' ← exit_alltrs stop l;
      '(ri', m2) ← unregister_ctlr m1 ctlr ri;
      Some (err, m2, mkSalsaCtlr false ri' flags' n rel_n (u32 reserved_per_seg) l' rl) in
    let '(err, stop, l) := init_alltrs ae false (seg_size (so_conf o)) reserved_per_seg (flags_for false) 0 (Z.to_nat n) (sl_alltr sc) in
    if negb (err =? 0) then undo err stop l (sl_rel_alltr sc)
    else
      let '(err, stop, rl) := init_alltrs ae true (seg_size (so_conf o)) reserved_per_seg (flags_for true) 0 (Z.to_nat rel_n) (sl_rel_alltr sc) in
      if negb (err =? 0) then rl' ← exit_alltrs stop rl; undo err (Z.to_nat n + 1)%nat l rl'
      else
        let rl := if rel_n =? 0 then <[0%nat := mjoin (l !! (Z.to_nat n - 1)%nat)]> rl else rl in
        Some (0, m1, with_alltrs flags' l rl).

(** The order of the calls does not matter: each allocator is left once. *)
Definition SalsaCtlr_shutdown (m : Scm) (ctlr : Z) (sc : SalsaCtlr) : option (Z * Scm * SalsaCtlr) :=
  if negb (sl_scm sc) then Some (EINVAL, m, sc)
  else
    l ← exit_alltrs (Z.to_nat (sl_stream_nr sc)) (sl_alltr sc);
    rl ← exit_alltrs (Z.to_nat (sl_rel_stream_nr sc)) (sl_rel_alltr sc);
    '(ri, m') ← unregister_ctlr m ctlr (sl_ri sc);
    Some (0, m', mkSalsaCtlr false ri (sl_flags sc) (sl_stream_nr sc) (sl_rel_stream_nr sc) (sl_reserved sc) l rl).

(** The configuration of the controller that its operations run with.  Allocators
    are numbered as [stream_to_alltr] does. *)
Definition ctlr_conf_of (m : Scm) (sc : SalsaCtlr) : ctlr_conf :=
  mkCtlrConf (ri_ctlr_id (sl_ri sc)) (sl_reserved sc) (sl_stream_nr sc) (sl_rel_stream_nr sc)
    (fun a => default (mkGfs false false true SCM_PROP_SET_ALL SCM_PROP_SET_ALL)
                (mjoin (if (a <? Z.to_nat (sl_stream_nr sc))%nat then sl_alltr sc !! a
                        else sl_rel_alltr sc !! (a - Z.to_nat (sl_stream_nr sc))%nat)))
    (max_capacity_ m) (max_capacity_reloc_ m).
