(* ===== verification/StoreStart.v ===== *)
(** * StoreStart: starting the store
      ([register_local_region] and [init_local] of udepot-lsa.cc,
      [sanitize_segment_size] of kv-conf.cc)

    The store looks for metadata on its device, or for a segment size that leaves
    room for it, prints a command line for SALSA and starts it with ever smaller
    segments until it accepts; then it registers with ever fewer streams.  The
    later steps of [init_local] are those of Restart. *)
From Stdlib Require Import ZArith Lia Ascii String.
From stdpp Require Import base tactics list numbers option.
From S2P Require Import Prelude Util StoreFormat Metadata StateM SalsaScm SalsaGc SalsaAlloc SalsaInit CString DevProps ScmConfig ScmStart.

Open Scope Z_scope.

(** ** The command line *)

(** The tokens [strtok] finds between spaces; [cur] is the one being read. *)
Fixpoint strtok_from (s cur : list Z) : list (list Z) :=
  match s with
  | [] => if decide (cur = []) then [] else [cur]
  | c :: s' =>
      if c =? 32 then if decide (cur = []) then strtok_from s' [] else cur :: strtok_from s' []
      else strtok_from s' (cur ++ [c])
  end.
Definition strtok (s : list Z) : list (list Z) := strtok_from s [].

Definition command_line (size grain_size segment_size gc_type gc_low_wm gc_high_wm : Z) : list Z :=
  cstr "scm_dev= dev_size=" ++ dec size ++ cstr " grain_size=" ++ dec grain_size ++
  cstr " segment_size=" ++ dec segment_size ++ cstr " gc_type=" ++ dec gc_type ++
  cstr " gc_low_wm=" ++ dec gc_low_wm ++ cstr " gc_high_wm=" ++ dec gc_high_wm ++
  cstr " gc_thread_nr=1 simulation=1".

(** [argv_base] holds 256 bytes; [argv] 16 pointers, [None] beyond. *)
Definition make_argv (size grain_size segment_size gc_type gc_low_wm gc_high_wm : Z) : option (list (list Z)) :=
  let argv := strtok (take 255 (command_line size grain_size segment_size gc_type gc_low_wm gc_high_wm)) in
  if (length argv <=? 16)%nat then Some argv else None.

(** ** The segment size *)

(** [grain_size] is not 0. *)
Definition sanitize_segment_size (page_size grain_size segment_size : Z) : Z :=
  let step_size := if grain_size <? page_size then page_size / grain_size else 1 in
  Z.max 1 (align_down segment_size step_size).

(** The sizes from [ns] down to [new_seg_min]; [None] is the end of the fuel. *)
Fixpoint least_waste (fuel : nat) (page_size grain_size new_seg_min size ns min_waste new_seg_size : Z) : option Z :=
  match fuel with
  | O => None
  | S fuel' =>
      if new_seg_min <? ns then
        let seg_sizeb := u64 (ns * grain_size) in
        let net_size := u64 (size - grain_size) in
        let waste := u64 (net_size - align_down net_size seg_sizeb) in
        let next := sanitize_segment_size page_size grain_size (ns - 1) in
        if waste <? min_waste then least_waste fuel' page_size grain_size new_seg_min size next waste ns
        else least_waste fuel' page_size grain_size new_seg_min size next min_waste new_seg_size
      else Some new_seg_size
  end.

(** A smaller size to try; [Some None] when there is none. *)
Definition smaller_segment (fuel : nat) (page_size grain_size size segment_size : Z) : option (option Z) :=
  let new_seg_size := u64 (segment_size - 1) in
  if new_seg_size =? 0 then Some None
  else
    let new_seg_size := sanitize_segment_size page_size grain_size new_seg_size in
    ns ← least_waste fuel page_size grain_size (segment_size / 2) size new_seg_size (2 ^ 64 - 1) new_seg_size;
    Some (Some ns).

(** ** The search *)

(** Members of the store that the search changes. *)
Record local := mkLocal { lo_size : Z; lo_grain : Z; lo_segment : Z; lo_md : MD }.

Inductive round :=
  | Again (l : local)
  | Stop (rc : Z) (restored : bool) (l : local) (m : option Scm).

Section Start.
Context (crc32 : Z -> list Z -> Z).          (** zlib *)
Context (page_size : Z).                     (** [sysconf(_SC_PAGESIZE)] *)
Context (io_size : Z) (dev : device).        (** the device *)
Context (e : start_env).
Context (force_destroy : bool) (overprovision gc_type gc_low_wm gc_high_wm : Z).

(** One turn of the loop; [n] is what reading the metadata returned. *)
Definition init_round (fuel : nat) (n : Z) (l : local) : option round :=
  let dflt := default_dev_md io_size (lo_grain l) (lo_segment l) (lo_md l) in
  let found := if force_destroy then None else validate_dev_md crc32 io_size n dev (lo_md l) in
  let restored := match found with Some _ => true | None => false end in
  let dev_md := default dflt found in
  md ← init_md dev_md (lo_md l);
  let l := mkLocal (lo_size l) (dm_grain_size dev_md) (dm_segment_size dev_md) md in
  let rc := check_dev_size io_size (lo_segment l) md in
  if negb (rc =? 0) then
    if restored then Some (Stop rc restored l None)
    else
      ns ← smaller_segment fuel page_size (lo_grain l) (lo_size l) (lo_segment l);
      match ns with
      | None => Some (Stop rc restored l None)
      | Some ns => Some (Again (mkLocal (lo_size l) (lo_grain l) ns md))
      end
  else
    let l := mkLocal (get_dev_size md) (lo_grain l) (lo_segment l) md in
    if restored && negb (io_size =? dm_physical_size dev_md) then Some (Stop EINVAL restored l None)
    else
      argv ← make_argv (lo_size l) (lo_grain l) (lo_segment l) gc_type gc_low_wm gc_high_wm;
      '(rc, m) ← Scm_init e argv overprovision;
      if (rc =? 0) || restored then Some (Stop rc restored l (Some m))
      else
        let ns := sanitize_segment_size page_size (lo_grain l) (lo_segment l / 2) in
        let l' := mkLocal (lo_size l) (lo_grain l) ns md in
        if ns <=? 1 then Some (Stop EINVAL restored l' (Some m)) else Some (Again l').

(** The loop; [None] also when the fuel ends. *)
Fixpoint init_search (fuel : nat) (ns : nat -> Z) (l : local) : option round :=
  match fuel with
  | O => None
  | S fuel' =>
      r ← init_round (S (Z.to_nat (lo_segment l))) (ns fuel') l;
      match r with
      | Again l' => init_search fuel' ns l'
      | Stop _ _ _ _ => Some r
      end
  end.

(** Registration with [streams], then ever fewer, streams.  [ctlr] is the store's
    address. *)
Fixpoint register_loop (fuel : nat) (ae : nat -> alltr_env) (m : Scm) (ctlr reserved streams : Z) (sc : SalsaCtlr)
  : option (Z * Z * Scm * SalsaCtlr) :=
  match fuel with
  | O => None
  | S fuel' =>
      '(rc, m', sc') ← SalsaCtlr_init (ae fuel') m ctlr reserved streams 1 SCM_PROP_SET_ALL sc;
      if rc =? 0 then Some (0, streams, m', sc')
      else
        let streams' := streams / 2 in
        if streams' =? 0 then Some (EINVAL, streams', m', sc')
        else register_loop fuel' ae m' ctlr reserved streams' sc'
  end.

(** [init_local] up to the start of the map. *)
Definition init_salsa (fuel : nat) (ns : nat -> Z) (ae : nat -> alltr_env) (ctlr streams : Z) (l : local)
  : option (Z * bool * local * option Scm * SalsaCtlr) :=
  r ← init_search fuel ns l;
  match r with
  | Again _ => None
  | Stop rc restored l' m =>
      if negb (rc =? 0) then Some (rc, restored, l', m, SalsaCtlr_new)
      else
        m ← m;
        '(rc, _, m', sc) ← register_loop fuel ae m ctlr (get_seg_md_size (lo_md l')) streams SalsaCtlr_new;
        Some (rc, restored, l', Some m', sc)
  end.

End Start.
