(* ===== verification/StoreStartSpec.v ===== *)
(** * StoreStartSpec: what the start of the store leaves

    The command line the store prints is read back as it was meant; the device that
    SALSA sets up for it; and the state and configuration after a start that succeeds
    are those the theorems on SALSA begin with. *)
From Stdlib Require Import ZArith Lia Ascii String.
From stdpp Require Import base tactics list numbers option.
From S2P Require Import Prelude Util StoreFormat Metadata StateM Throttle SalsaScm SalsaGc SalsaAlloc SalsaInv SalsaMoves.
From S2P Require Import SalsaInval SalsaSafe SalsaRun SalsaInit SalsaTheorems CString DevProps DevPropsSpec ScmConfig ScmStart StoreStart.

Open Scope Z_scope.

(** ** The command line *)

Lemma dec_digits_bound f : forall k n, 0 <= n < 10 ^ Z.of_nat (S k) -> (length (dec_digits f n) <= S k)%nat.
Proof.
  induction f as [|f IH]; intros k n Hn; cbn [dec_digits]; [simpl; lia|].
  destruct (Z.ltb_spec n 10); [simpl; lia|]. rewrite length_app. cbn [length].
  destruct k as [|k]; [simpl in Hn; lia|].
  assert (length (dec_digits f (n / 10)) <= S k)%nat; [|lia]. apply IH.
  rewrite Nat2Z.inj_succ, Z.pow_succ_r in Hn by lia.
  split; [apply Z.div_pos; lia|apply Z.div_lt_upper_bound; lia].
Qed.

Lemma dec_length_64 n : in_width 64 n -> (length (dec n) <= 20)%nat.
Proof. unfold in_width. intros Hn. apply dec_digits_bound. change (Z.of_nat 20) with 20. lia. Qed.

Lemma dec_length_32 n : in_width 32 n -> (length (dec n) <= 10)%nat.
Proof. unfold in_width. intros Hn. apply dec_digits_bound. change (Z.of_nat 10) with 10. lia. Qed.

(** A nospace without spaces. *)
Definition nospace (w : list Z) : Prop := Forall (fun c => c <> 32) w.

Lemma strtok_word w : forall r cur, nospace w -> cur ++ w <> [] -> strtok_from (w ++ 32 :: r) cur = (cur ++ w) :: strtok_from r [].
Proof.
  induction w as [|c w IH]; intros r cur Hw Hne.
  - rewrite app_nil_r in *. cbn. by rewrite decide_False by done.
  - apply Forall_cons_1 in Hw as [Hc Hw]. cbn [app strtok_from]. rewrite (proj2 (Z.eqb_neq c 32)) by done.
    rewrite IH, <- app_assoc; [done|done|]. by destruct cur.
Qed.

Lemma strtok_last w : forall cur, nospace w -> cur ++ w <> [] -> strtok_from w cur = [cur ++ w].
Proof.
  induction w as [|c w IH]; intros cur Hw Hne.
  - rewrite app_nil_r in *. cbn. by rewrite decide_False by done.
  - apply Forall_cons_1 in Hw as [Hc Hw]. cbn [strtok_from]. rewrite (proj2 (Z.eqb_neq c 32)) by done.
    rewrite IH, <- app_assoc; [done|done|]. by destruct cur.
Qed.

Lemma dec_nospace n : 0 <= n -> nospace (dec n).
Proof. intros Hn. eapply Forall_impl; [|by apply dec_digits_digit]. intros c Hc. simpl in Hc. lia. Qed.

(** An option of the command line and the space in front of the next. *)
Lemma strtok_option name n r : nospace (cstr name) -> cstr name <> [] -> 0 <= n ->
  strtok_from (cstr name ++ dec n ++ 32 :: r) [] = (cstr name ++ dec n) :: strtok_from r [].
Proof.
  intros Hw Hne Hn. rewrite app_assoc, strtok_word; [done| |].
  - apply Forall_app. split; [done|by apply dec_nospace].
  - destruct (cstr name); done.
Qed.

Ltac word_lit := repeat (constructor; [done|]); constructor.

Lemma strtok_command_line size grain seg ty low high :
  0 <= size -> 0 <= grain -> 0 <= seg -> 0 <= ty -> 0 <= low -> 0 <= high ->
  strtok (command_line size grain seg ty low high) =
    [cstr "scm_dev="; cstr "dev_size=" ++ dec size; cstr "grain_size=" ++ dec grain; cstr "segment_size=" ++ dec seg;
     cstr "gc_type=" ++ dec ty; cstr "gc_low_wm=" ++ dec low; cstr "gc_high_wm=" ++ dec high;
     cstr "gc_thread_nr=1"; cstr "simulation=1"].
Proof.
  intros. unfold strtok, command_line.
  change (cstr "scm_dev= dev_size=" ++ ?r) with (cstr "scm_dev=" ++ 32 :: (cstr "dev_size=" ++ r)).
  change (cstr " grain_size=" ++ ?r) with (32 :: (cstr "grain_size=" ++ r)).
  change (cstr " segment_size=" ++ ?r) with (32 :: (cstr "segment_size=" ++ r)).
  change (cstr " gc_type=" ++ ?r) with (32 :: (cstr "gc_type=" ++ r)).
  change (cstr " gc_low_wm=" ++ ?r) with (32 :: (cstr "gc_low_wm=" ++ r)).
  change (cstr " gc_high_wm=" ++ ?r) with (32 :: (cstr "gc_high_wm=" ++ r)).
  change (cstr " gc_thread_nr=1 simulation=1") with (32 :: (cstr "gc_thread_nr=1" ++ 32 :: cstr "simulation=1")).
  rewrite strtok_word by (done || word_lit). do 6 (rewrite strtok_option by (done || word_lit)).
  rewrite strtok_word by (done || word_lit). by rewrite strtok_last by (done || word_lit).
Qed.

Lemma command_line_fits size grain seg ty low high :
  in_width 64 size -> in_width 64 grain -> in_width 64 seg -> in_width 32 ty -> in_width 32 low -> in_width 32 high ->
  (length (command_line size grain seg ty low high) < 255)%nat.
Proof.
  intros H1%dec_length_64 H2%dec_length_64 H3%dec_length_64 H4%dec_length_32 H5%dec_length_32 H6%dec_length_32.
  unfold command_line. rewrite !length_app.
  repeat match goal with |- context [length (cstr ?s)] => let n := eval vm_compute in (length (cstr s)) in change (length (cstr s)) with n end.
  lia.
Qed.

(** The parameters the store asks for. *)
Definition store_cfg (size grain seg ty low high : Z) : scm_parameters :=
  mkScmParams size seg grain 1 false true false false RAID0 1 ty low high 9 0 4 1 SCM_SEG_QUEUES_ONE
              [] (replicate SCM_MAX_DEVICES []) (replicate SCM_MAX_DEVICES []).

Lemma parse_loop_cons malloc a r c c' :
  parse_scm_arg malloc a c = Some (0, c') -> parse_arg_loop malloc (a :: r) c = parse_arg_loop malloc r c'.
Proof. intros E. cbn [parse_arg_loop]. by rewrite E. Qed.

(** An option with a printed number. *)
Lemma parse_loop_option malloc name set n r c :
  in_width 64 n ->
  (forall t, parse_scm_arg malloc (cstr name ++ t) c = Some (0, set (fst (strtoul t)) c)) ->
  parse_arg_loop malloc ((cstr name ++ dec n) :: r) c = parse_arg_loop malloc r (set n c).
Proof. intros Hn Hset. apply parse_loop_cons. by rewrite Hset, <- (app_nil_r (dec n)), strtoul_dec_app. Qed.

Lemma parse_store_loop malloc size grain seg ty low high :
  in_width 64 size -> in_width 32 grain -> in_width 64 seg -> in_width 32 ty -> in_width 32 low -> in_width 32 high ->
  parse_arg_loop malloc (strtok (command_line size grain seg ty low high)) (cfg_set_dev_nr 0 reset_scm_config) =
  Some (0, store_cfg size grain seg ty low high).
Proof.
  intros Hs Hg Hseg Ht Hl Hh. rewrite strtok_command_line by (unfold in_width in *; lia).
  assert (forall x, in_width 32 x -> in_width 64 x) as Hw by (unfold in_width; lia).
  rewrite (parse_loop_cons _ _ _ _ (cfg_set_dev_nr 1 reset_scm_config)) by done.
  rewrite (parse_loop_option _ "dev_size=" cfg_set_dev_size_raw) by done.
  rewrite (parse_loop_option _ "grain_size=" (fun v => cfg_set_grain_size (u32 v))) by auto.
  rewrite (parse_loop_option _ "segment_size=" cfg_set_segment_size) by done.
  rewrite (parse_loop_option _ "gc_type=" (fun v => cfg_set_gc (u32 v))) by auto.
  rewrite (parse_loop_option _ "gc_low_wm=" (fun v => cfg_set_low_watermark (u32 v))) by auto.
  rewrite (parse_loop_option _ "gc_high_wm=" (fun v => cfg_set_high_watermark (u32 v))) by auto.
  rewrite !wrap_small by done.
  erewrite (parse_loop_cons _ (cstr "gc_thread_nr=1")); [|reflexivity].
  erewrite (parse_loop_cons _ (cstr "simulation=1")); [|reflexivity]. done.
Qed.

(** The end of the parser on a simulated device. *)
Lemma parse_simulated malloc argv rest c0 c1 c :
  (0 < length argv)%nat -> parse_dev_args argv (cfg_set_dev_nr 0 c0) = Some (rest, c1) ->
  parse_arg_loop malloc rest c1 = Some (0, c) -> cfg_simulation c = true -> cfg_dev_nr c = 1 ->
  parse_scm_args malloc argv c0 = Some (0, cfg_set_raid RAID0 c).
Proof.
  intros Ha Hd Hp Hs Hn. unfold parse_scm_args. destruct (Nat.ltb_spec (length argv) 1); [lia|]. rewrite andb_false_r, Hd.
  cbn [mbind option_bind]. rewrite Hp. cbn [mbind option_bind]. rewrite Hs, andb_false_r. cbv zeta. by rewrite Hn.
Qed.

Lemma parse_store_args malloc size grain seg ty low high :
  in_width 64 size -> in_width 32 grain -> in_width 64 seg -> in_width 32 ty -> in_width 32 low -> in_width 32 high ->
  parse_scm_args malloc (strtok (command_line size grain seg ty low high)) reset_scm_config =
  Some (0, store_cfg size grain seg ty low high).
Proof.
  intros Hs Hg Hseg Ht Hl Hh.
  rewrite (parse_simulated _ _ (strtok (command_line size grain seg ty low high)) _ (cfg_set_dev_nr 0 reset_scm_config)
             (store_cfg size grain seg ty low high)); [done| | |by apply parse_store_loop|done|done];
    rewrite strtok_command_line by (unfold in_width in *; lia); [cbn [length]; lia|].
  generalize (dec size) (dec grain). intros t1 t2. cbn [parse_dev_args]. done.
Qed.

(** ** The device and the parameters *)

(** Sectors of a device, in whole segments. *)
Definition start_sectors (size grain seg : Z) : Z :=
  let s := seg * grain / 512 in size / 512 / s * s.

(** The parameters when the arguments are read and the device is known. *)
Definition start_cfg (size grain seg ty low high : Z) : scm_parameters :=
  mkScmParams (512 * (size / 512)) seg grain 1 false true false false RAID0 1 ty low high 9 0 4 1 SCM_SEG_QUEUES_ONE
              [SCM_DEV_RPROP (512 * start_sectors size grain seg) SCM_PROP_DEFAULT]
              (<[0%nat := [SCM_DEV_RPROP size SCM_PROP_DEFAULT]]> (replicate SCM_MAX_DEVICES [])) (replicate SCM_MAX_DEVICES []).

Lemma sec2b_small s : 0 <= s -> 512 * s < 2 ^ 64 -> SEC2B s = 512 * s.
Proof.
  intros H1 H2. unfold SEC2B. rewrite Z.shiftl_mul_pow2 by lia. change (2 ^ 9) with 512.
  rewrite wrap_small by (unfold in_width; lia). lia.
Qed.

Lemma b2sec_div b : B2SEC b = b / 512.
Proof. unfold B2SEC. by rewrite Z.shiftr_div_pow2 by lia. Qed.

Lemma one_range_size len g : 0 <= len < 2 ^ 64 -> 0 < g -> scm_dev_props_size_grain [SCM_DEV_RPROP len SCM_PROP_DEFAULT] g = len / g.
Proof.
  intros Hl Hg. unfold scm_dev_props_size_grain, scm_dev_props_size_grain_set. cbn [foldl].
  change (scm_prop_set_contains SCM_PROP_SET_ALL (dr_prop (SCM_DEV_RPROP len SCM_PROP_DEFAULT))) with true. cbv iota.
  change (dr_len (SCM_DEV_RPROP len SCM_PROP_DEFAULT)) with len. rewrite Z.add_0_l. apply wrap_small.
  unfold in_width. split; [apply Z.div_pos; lia|]. apply Z.div_lt_upper_bound; nia.
Qed.

Lemma start_sectors_bounds size grain seg : 0 <= size -> 512 <= seg * grain ->
  0 <= start_sectors size grain seg /\ 512 * start_sectors size grain seg <= size /\
  (start_sectors size grain seg = 0 <-> size / 512 < seg * grain / 512).
Proof.
  intros Hs Hg. unfold start_sectors. cbv zeta. set (q := seg * grain / 512).
  assert (1 <= q) by (apply Z.div_le_lower_bound; lia).
  pose proof (Z.div_pos size 512 Hs ltac:(lia)). pose proof (Z.mul_div_le size 512 ltac:(lia)).
  pose proof (Z.div_pos (size / 512) q ltac:(lia) ltac:(lia)). pose proof (Z.mul_div_le (size / 512) q ltac:(lia)).
  split; [nia|]. split; [nia|]. split.
  - intros Hz. assert (size / 512 / q = 0) as Hd by nia. apply Z.div_small_iff in Hd; lia.
  - intros Hlt. rewrite Z.div_small; lia.
Qed.

(** One device and no bound on the length. *)
Lemma scm_props_one size grain seg ty low high :
  in_width 64 size -> 512 <= seg * grain < 2 ^ 64 ->
  let c := store_cfg size grain seg ty low high in
  let c' := cfg_set_dev_props (<[0%nat := [SCM_DEV_RPROP size SCM_PROP_DEFAULT]]> (cfg_dev_props c)) c in
  scm_cfg_set_scm_props c' 0 =
  Some (0, if start_sectors size grain seg =? 0 then cfg_set_scm_props [] (start_cfg size grain seg ty low high)
           else start_cfg size grain seg ty low high).
Proof.
  intros Hs Hg c c'. unfold in_width in Hs. destruct (start_sectors_bounds size grain seg ltac:(lia) ltac:(lia)) as (Hp & Hle & _).
  unfold scm_cfg_set_scm_props. change (cfg_segment_size c') with seg. change (cfg_grain_size c') with grain. change (cfg_dev_nr c') with 1.
  rewrite (wrap_small 64 (seg * grain)) by (unfold in_width; lia). rewrite b2sec_div. cbv zeta.
  assert (1 <= seg * grain / 512) by (apply Z.div_le_lower_bound; lia). rewrite (proj2 (Z.eqb_neq _ 0)) by lia. cbn [Z.eqb].
  change (dev_props_of c' 0) with (Some [SCM_DEV_RPROP size SCM_PROP_DEFAULT]). cbn [mbind option_bind].
  change (SEC2B 1) with 512. rewrite one_range_size by lia. fold (start_sectors size grain seg).
  pose proof (Z.mul_div_le size 512 ltac:(lia)). pose proof (Z.div_pos size 512 ltac:(lia) ltac:(lia)).
  rewrite (wrap_small 64 (start_sectors size grain seg)) by (unfold in_width; lia).
  rewrite !sec2b_small by lia. unfold scm_dev_props_copy, copy_from. change (dr_len (SCM_DEV_RPROP size SCM_PROP_DEFAULT)) with size.
  destruct (Z.eqb_spec (start_sectors size grain seg) 0) as [Hz|Hz].
  - unfold start_cfg. rewrite Hz. done.
  - rewrite (proj2 (Z.ltb_lt 0 _)), Z.min_r by lia. cbn [fst]. done.
Qed.

(** Segments of less than a sector. *)
Lemma scm_props_tiny c : 0 <= cfg_segment_size c * cfg_grain_size c < 512 -> scm_cfg_set_scm_props c 0 = Some (- EINVAL, c).
Proof.
  intros Hg. unfold scm_cfg_set_scm_props. rewrite wrap_small by (unfold in_width; lia).
  by rewrite b2sec_div, Z.div_small.
Qed.

Lemma usr_init_store e size grain seg ty low high :
  in_width 64 size -> in_width 32 grain -> in_width 64 seg -> in_width 32 ty -> in_width 32 low -> in_width 32 high ->
  seg * grain < 2 ^ 64 ->
  exists err c, scm_usr_init_cfg e (strtok (command_line size grain seg ty low high)) = Some (err, c) /\
    if start_sectors size grain seg =? 0 then err <> 0 else err = 0 /\ c = start_cfg size grain seg ty low high.
Proof.
  intros Hs Hg Hseg Ht Hl Hh Hsg. unfold scm_usr_init_cfg. rewrite parse_store_args by done. cbn [mbind option_bind Z.eqb negb].
  change (cfg_simulation (store_cfg size grain seg ty low high)) with true. cbv iota.
  change (cfg_dev_size_raw (store_cfg size grain seg ty low high)) with size.
  change (scm_dev_props_add_range_prop [] (SCM_DEV_RPROP size SCM_PROP_DEFAULT)) with (Some [SCM_DEV_RPROP size SCM_PROP_DEFAULT]).
  cbn [mbind option_bind]. unfold in_width in Hs, Hg, Hseg. destruct (Z.ltb_spec (seg * grain) 512) as [Htiny|Hbig].
  { rewrite scm_props_tiny by (change (0 <= seg * grain < 512); nia). eexists _, _. split; [done|].
    unfold start_sectors. cbv zeta. rewrite (Z.div_small (seg * grain)), Z.mul_0_r by nia. done. }
  rewrite scm_props_one by done. cbn [mbind option_bind Z.ltb Z.compare].
  destruct (start_sectors_bounds size grain seg ltac:(lia) ltac:(lia)) as (Hp & Hle & _).
  destruct (Z.eqb_spec (start_sectors size grain seg) 0) as [Hz|Hz].
  - exists (- EINVAL). eexists. done.
  - change (cfg_scm_props (start_cfg size grain seg ty low high)) with [SCM_DEV_RPROP (512 * start_sectors size grain seg) SCM_PROP_DEFAULT].
    unfold scm_dev_props_size. pose proof (one_range_size (512 * start_sectors size grain seg) 1 ltac:(lia) ltac:(lia)) as Hone.
    unfold scm_dev_props_size_grain in Hone. rewrite Hone, Z.div_1_r, (proj2 (Z.eqb_neq _ 0)) by lia. eauto.
Qed.

(** ** The capacity manager *)

Definition start_seg_nr (size grain seg : Z) : Z := 512 * start_sectors size grain seg / (grain * seg).

Definition start_range (size grain seg : Z) : dev_range :=
  dev_range_of (SCM_DEV_RPROP (512 * start_sectors size grain seg) SCM_PROP_DEFAULT).

(** The configuration of the one queue. *)
Definition start_conf (size grain seg : Z) : scm_conf :=
  mkScmConf (Z.to_nat (start_seg_nr size grain seg)) seg 1 (fun q => default 0 (masks_one !! q)) true (const 0).

Lemma start_conf_of size grain seg ty low high :
  in_width 64 size -> in_width 32 grain -> 512 <= seg * grain < 2 ^ 64 ->
  conf_of (start_cfg size grain seg ty low high) masks_one = start_conf size grain seg.
Proof.
  unfold in_width. intros Hs Hg Hsg. unfold conf_of, start_conf, scm_cfg_get_segs_nr, start_seg_nr.
  destruct (start_sectors_bounds size grain seg ltac:(lia) ltac:(lia)) as (Hp & Hle & _).
  change (cfg_grain_size (start_cfg size grain seg ty low high)) with grain.
  change (cfg_segment_size (start_cfg size grain seg ty low high)) with seg.
  change (cfg_scm_props (start_cfg size grain seg ty low high)) with [SCM_DEV_RPROP (512 * start_sectors size grain seg) SCM_PROP_DEFAULT].
  rewrite (wrap_small 64 (grain * seg)) by (unfold in_width; lia). by rewrite one_range_size by lia.
Qed.

Lemma start_seg_nr_fits size grain seg : 0 <= size -> 512 <= seg * grain ->
  0 <= start_seg_nr size grain seg /\ start_seg_nr size grain seg * (grain * seg) <= size.
Proof.
  intros Hs Hg. destruct (start_sectors_bounds size grain seg Hs Hg) as (Hp & Hle & _). unfold start_seg_nr.
  split; [apply Z.div_pos; lia|]. pose proof (Z.mul_div_le (512 * start_sectors size grain seg) (grain * seg) ltac:(lia)). lia.
Qed.

Lemma start_device_ok size grain seg : 0 <= size -> 0 < grain < 2 ^ 32 -> 512 <= seg * grain ->
  device_ok (start_conf size grain seg) grain [start_range size grain seg].
Proof.
  intros Hs Hg Hsg. destruct (start_sectors_bounds size grain seg Hs Hsg) as (Hp & Hle & _). split.
  - reflexivity.
  - done.
  - constructor; [|constructor]. unfold plain_range, start_range. cbn. split; [lia|]. split; [|done].
    rewrite Z.div_0_l by lia. apply Z.div_pos; lia.
  - unfold nsegs_of, start_range, start_conf. cbn [map list_sum foldr dev_range_of r_bytes dr_len SCM_DEV_RPROP SCM_DEV_RPROP__ seg_nr seg_size]. unfold start_seg_nr. rewrite Nat.add_0_r. done.
Qed.

Definition start_gc (size grain seg low high : Z) (t : gc_type) : gc_conf :=
  gc_ctr seg (start_seg_nr size grain seg) (mkGcParams t low high 9 0 4).

Lemma start_conf_ok size grain seg low high t cc : 0 <= size < 2 ^ 62 -> 0 < grain -> 512 <= seg * grain -> 0 < seg < 2 ^ 31 ->
  0 <= reserved_per_seg cc < seg -> conf_ok (start_conf size grain seg) (start_gc size grain seg low high t) cc.
Proof.
  intros Hs Hg Hsg Hseg Hr. destruct (start_seg_nr_fits size grain seg ltac:(lia) Hsg) as [H1 H2].
  apply (gc_ctr_ok (start_conf size grain seg) cc (mkGcParams t low high 9 0 4) (start_seg_nr size grain seg)); try done.
  unfold start_conf. cbn [seg_nr seg_size]. rewrite Z2Nat.id by lia. nia.
Qed.

(** The queues of the device are filled. *)
Lemma start_queues size grain seg : 0 <= size < 2 ^ 62 -> 0 < grain < 2 ^ 32 -> 512 <= seg * grain -> 0 < seg < 2 ^ 31 ->
  exists s, scm_seg_queues_init (start_conf size grain seg) grain [start_range size grain seg] (scm_zero (start_conf size grain seg)) = Some (0, s).
Proof.
  intros Hs Hg Hsg Hseg. pose (cc := mkCtlrConf 0 0 1 0 (const (mkGfs false false true 0 0)) 0 0).
  destruct (wp_init _ _ _ (start_conf_ok size grain seg 2 4 GC_SALSA_NBIN cc Hs ltac:(lia) Hsg Hseg ltac:(simpl; lia)) grain
              [start_range size grain seg]) as (r & s & E & -> & _); [by apply start_device_ok; lia|]. eauto.
Qed.

(** A manager built for the store. *)
Record started (size grain seg ty low high : Z) (o : scm_object) : Prop := {
  st_grain : 0 < grain < 2 ^ 32;
  st_seg : 0 < seg < 2 ^ 31;
  st_bytes : 512 <= seg * grain;
  st_conf : so_conf o = start_conf size grain seg;
  st_state : scm_seg_queues_init (so_conf o) grain [start_range size grain seg] (scm_zero (so_conf o)) = Some (0, so_state o);
  st_init : so_init o = so_state o;
  st_gc t : gc_type_of ty = Some t -> so_gc o = GcBins (start_gc size grain seg low high t);
  st_grain_size : so_grain_size o = grain;
  st_props : so_props o = [SCM_DEV_RPROP (512 * start_sectors size grain seg) SCM_PROP_DEFAULT];
  st_ctlrs : length (so_ctlrs o) = SALSA_MAX_CTLRS;
  st_ctl_data : length (so_ctl_data o) = SALSA_MAX_CTLRS
}.

Lemma gc_ctr_start e size grain seg ty low high sc :
  sc = start_conf size grain seg -> 0 <= start_seg_nr size grain seg ->
  exists err gc, gc_ctr_type e (start_cfg size grain seg ty low high) sc = Some (err, gc) /\
    (gc = None -> err <> 0) /\
    (forall g t, gc = Some g -> gc_type_of ty = Some t -> g = GcBins (start_gc size grain seg low high t)).
Proof.
  intros -> Hnr. unfold gc_ctr_type. change (cfg_gc (start_cfg size grain seg ty low high)) with ty.
  change (cfg_bin_nr (start_cfg size grain seg ty low high) =? 0) with false. cbn [andb].
  destruct (gc_type_of ty) as [t|].
  - destruct (Z.eqb_spec (se_gc e ty) 0) as [Hz|Hz]; cbn [negb]; eexists _, _; (split; [done|]).
    + split; [done|]. intros g t' [= <-] [= <-]. unfold start_gc. cbn [start_conf seg_size seg_nr]. by rewrite Z2Nat.id.
    + split; [done|]. done.
  - destruct (_ || _); eexists _, _; (split; [done|]); [|done].
    destruct (Z.eqb_spec (se_gc e ty) 0); done.
Qed.

Lemma check_start size grain seg ty low high : in_width 32 grain ->
  check_sto_capacity_mgr_parameters (start_cfg size grain seg ty low high) = 0 ->
  0 < grain /\ seg <> 0 /\ seg < 2 ^ 31.
Proof.
  unfold in_width. intros Hg. unfold check_sto_capacity_mgr_parameters.
  change (cfg_simulation _) with true. cbn [negb andb].
  change (cfg_grain_size (start_cfg size grain seg ty low high)) with grain.
  change (cfg_segment_size (start_cfg size grain seg ty low high)) with seg.
  destruct (is_power_of_two grain) eqn:Ep; [|done]. cbn [negb].
  destruct (Z.eqb_spec seg 0); [done|]. cbn [orb]. destruct (Z.ltb_spec SALSA_MAX_SEGMENT_SIZE seg) as [|Hle]; [done|]. intros _.
  unfold is_power_of_two in Ep. apply andb_true_iff in Ep as [?%Z.ltb_lt _]. unfold SALSA_MAX_SEGMENT_SIZE in Hle. lia.
Qed.

Lemma one_range_copy len : 0 < len < 2 ^ 64 ->
  scm_dev_props_copy_full [SCM_DEV_RPROP len SCM_PROP_DEFAULT] = [SCM_DEV_RPROP len SCM_PROP_DEFAULT].
Proof.
  intros Hl. unfold scm_dev_props_copy_full, scm_dev_props_size. pose proof (one_range_size len 1 ltac:(lia) ltac:(lia)) as Hone.
  unfold scm_dev_props_size_grain in Hone. rewrite Hone, Z.div_1_r. unfold scm_dev_props_copy, copy_from.
  rewrite (proj2 (Z.ltb_lt 0 len)) by lia. cbn [SCM_DEV_RPROP SCM_DEV_RPROP__ dr_len]. by rewrite Z.min_id.
Qed.

Lemma ctr_start e size grain seg ty low high :
  0 <= size < 2 ^ 62 -> in_width 32 grain -> in_width 64 seg -> 512 <= seg * grain < 2 ^ 64 -> start_sectors size grain seg <> 0 ->
  exists err o, sto_capacity_mgr_ctr e (start_cfg size grain seg ty low high) = Some (err, o) /\
    (err = 0 -> exists o', o = Some o' /\ started size grain seg ty low high o').
Proof.
  intros Hs Hg Hseg Hsg Hz. unfold sto_capacity_mgr_ctr. set (c := start_cfg size grain seg ty low high).
  destruct (Z.eqb_spec (check_sto_capacity_mgr_parameters c) 0) as [Hc|Hc]; cbn [negb]; [|by eexists _, None].
  pose proof Hc as (Hg0 & Hs0 & Hs1)%check_start; [|done]. cbv zeta.
  change (cfg_use_rmap c) with false. cbn [andb]. destruct (se_scm e _); cbn [negb]; [|by eexists _, None].
  unfold scm_seg_queues_init_conf. change (seg_qs_masks (cfg_seg_qs_conf c)) with (Some masks_one). cbv iota beta.
  unfold c. rewrite start_conf_of by (unfold in_width in *; lia).
  change (cfg_scm_props (start_cfg size grain seg ty low high)) with [SCM_DEV_RPROP (512 * start_sectors size grain seg) SCM_PROP_DEFAULT].
  destruct (start_sectors_bounds size grain seg ltac:(lia) ltac:(lia)) as (? & ? & _). rewrite one_range_copy by lia.
  change (dev_range_of <$> [SCM_DEV_RPROP (512 * start_sectors size grain seg) SCM_PROP_DEFAULT]) with [start_range size grain seg].
  change (cfg_grain_size (start_cfg size grain seg ty low high)) with grain. unfold in_width in Hg, Hseg.
  destruct (start_queues size grain seg) as (s & E); [lia..|]. rewrite E. cbn [mbind option_bind Z.eqb negb].
  destruct (start_seg_nr_fits size grain seg ltac:(lia) ltac:(lia)) as [Hnr _].
  destruct (gc_ctr_start e size grain seg ty low high _ eq_refl Hnr) as (err & gc & -> & Hn & Hgc). cbn [mbind option_bind].
  destruct gc as [gc|]; [|eexists _, None; split; [done|]; intros ->; by destruct (Hn eq_refl)].
  eexists _, (Some _). split; [done|]. intros _. eexists. split; [done|].
  split; try done; try lia. intros t. by apply (Hgc gc t).
Qed.

(** Enough spare segments: the capacity ends two segments before the device does. *)
Lemma start_spare m size grain seg : 0 <= size < 2 ^ 62 -> 0 < grain -> 512 <= seg * grain -> seg * grain <= size + 512 ->
  0 <= max_capacity_reloc_ m * grain < 2 ^ 64 -> used_streams_ m = 0 ->
  has_enough_spare_segments m (align_down (512 * (size / 512)) (u64 (grain * seg))) grain seg 3 = Some true ->
  max_capacity_reloc_ m < (start_seg_nr size grain seg - 2) * seg.
Proof.
  intros Hs Hg Hsg Hle Hcap Hu. unfold has_enough_spare_segments. rewrite Hu, (wrap_small 64 (grain * seg)) by (unfold in_width; lia).
  rewrite (wrap_small 64 (max_capacity_reloc_ m * grain)) by (unfold in_width; lia). cbv zeta. rewrite (proj2 (Z.eqb_neq (grain * seg) 0)) by lia.
  change (u32 (SALSA_MIN_REL_SEGMENTS + u32 (0 + 3))) with 4. intros [= H%negb_true_iff]. apply orb_false_iff in H as [H _]. apply Z.ltb_ge in H.
  pose proof (Z.mul_div_le size 512 ltac:(lia)) as Hr1. pose proof (Z.mod_pos_bound size 512 ltac:(lia)) as Hr2. pose proof (Z.div_mod size 512 ltac:(lia)) as Hr3.
  set (raw := 512 * (size / 512)) in *. set (B := grain * seg) in *.
  destruct (align_down_spec raw B) as ([t Ht] & Ht1 & Ht0); [lia|lia|]. destruct (align_down_spec (align_down raw B) B) as ([t' Ht'] & Ht1' & _); [lia|lia|].
  destruct (align_down_spec (max_capacity_reloc_ m * grain) B) as ([u Hu'] & Hu1 & _); [lia|lia|].
  rewrite Ht', Hu', !Z.div_mul in H by lia. assert (t' = t) as -> by nia.
  assert (u + 4 <= t) as Hut by (destruct (Z.ltb_spec u t); lia). clear H.
  unfold start_seg_nr, start_sectors. cbv zeta. fold raw.
  replace (seg * grain) with B in * by (unfold B; lia). fold B. set (q := B / 512) in *.
  assert (1 <= q) by (apply Z.div_le_lower_bound; lia). pose proof (Z.mul_div_le B 512 ltac:(lia)) as Hq. fold q in Hq.
  set (k := size / 512 / q * q). assert (size / 512 - q < k) as Hk.
  { unfold k. pose proof (Z.mod_pos_bound (size / 512) q ltac:(lia)). pose proof (Z.div_mod (size / 512) q ltac:(lia)). lia. }
  assert (t - 1 <= 512 * k / B) as Hn by (apply Z.div_le_lower_bound; nia).
  assert (max_capacity_reloc_ m * grain < (512 * k / B - 2) * seg * grain); [|nia].
  replace ((512 * k / B - 2) * seg * grain) with ((512 * k / B - 2) * B) by (unfold B; ring). nia.
Qed.

Lemma start_capacity over size grain seg : 0 <= over <= 1000 -> 0 <= size < 2 ^ 62 -> 0 < grain -> 0 < seg -> seg * grain <= size + 512 ->
  let cap := u64 (u64 (512 * (size / 512) / grain * u64 (1000 - over)) / 1000 + u64 (seg * 2)) in 0 <= cap * grain < 2 ^ 64.
Proof.
  intros Ho Hs Hg Hseg Hle cap. unfold cap. rewrite (wrap_small 64 (1000 - over)), (wrap_small 64 (seg * 2)) by (unfold in_width; nia).
  set (r := 512 * (size / 512) / grain). pose proof (Z.mul_div_le size 512 ltac:(lia)).
  pose proof (Z.div_pos size 512 ltac:(lia) ltac:(lia)).
  assert (0 <= r) by (apply Z.div_pos; lia). pose proof (Z.mul_div_le (512 * (size / 512)) grain Hg). fold r in H2.
  assert (u64 (r * (1000 - over)) / 1000 <= r) as Hr.
  { apply Z.div_le_upper_bound; [lia|]. unfold wrap. pose proof (Z.mod_le (r * (1000 - over)) (2 ^ 64) ltac:(nia) ltac:(lia)). nia. }
  assert (0 <= u64 (r * (1000 - over)) / 1000) by (apply Z.div_pos; [|lia]; apply Z.mod_pos_bound; lia).
  rewrite wrap_small by (unfold in_width; nia). nia.
Qed.

Lemma scm_init_start e over size grain seg ty low high :
  0 <= size < 2 ^ 62 -> in_width 32 grain -> in_width 64 seg -> in_width 32 ty -> in_width 32 low -> in_width 32 high ->
  seg * grain < 2 ^ 64 ->
  exists err m, Scm_init e (strtok (command_line size grain seg ty low high)) over = Some (err, m) /\
    (err = 0 -> exists o, scm_ m = Some o /\ started size grain seg ty low high o /\
       (0 <= over <= 1000 -> max_capacity_reloc_ m < (start_seg_nr size grain seg - 2) * seg)).
Proof.
  intros Hs Hg Hseg Ht Hl Hh Hsg. unfold Scm_init.
  destruct (usr_init_store (se_usr e) size grain seg ty low high) as (err & c & -> & Hc); try done; [unfold in_width; lia|].
  cbn [mbind option_bind]. cbv zeta. destruct (Z.eqb_spec (start_sectors size grain seg) 0) as [Hz|Hz].
  { rewrite (proj2 (Z.eqb_neq err 0)) by done. by eexists _, _. }
  destruct Hc as [-> ->]. cbn [Z.eqb negb].
  change (cfg_grain_size (start_cfg size grain seg ty low high)) with grain.
  change (cfg_segment_size (start_cfg size grain seg ty low high)) with seg.
  change (cfg_dev_size_raw (start_cfg size grain seg ty low high)) with (512 * (size / 512)). unfold in_width in Hg, Hseg.
  assert (512 <= seg * grain) as Hsg'.
  { destruct (Z.le_gt_cases 512 (seg * grain)); [done|]. exfalso. apply Hz. unfold start_sectors. cbv zeta.
    rewrite (Z.div_small (seg * grain)) by nia. lia. }
  rewrite (proj2 (Z.eqb_neq grain 0)) by nia. set (m := mkScmClass None 0 _ _).
  destruct (has_enough_spare_segments m _ grain seg 3) as [enough|] eqn:Eh.
  2: { exfalso. revert Eh. unfold has_enough_spare_segments. cbv zeta.
       rewrite (wrap_small 64 (grain * seg)) by (unfold in_width; lia). by rewrite (proj2 (Z.eqb_neq (grain * seg) 0)) by lia. }
  cbn [mbind option_bind]. destruct enough; cbn [negb]; [|by eexists _, _].
  destruct (ctr_start e size grain seg ty low high) as (err & o & -> & Ho); [done..|].
  cbn [mbind option_bind]. eexists _, _. split; [done|]. intros ->. destruct (Ho eq_refl) as (o' & -> & Hst). exists o'.
  split; [done|]. split; [done|]. intros Hover. cbn [max_capacity_reloc_].
  assert (seg * grain <= size + 512) as Hle.
  { destruct (start_sectors_bounds size grain seg ltac:(lia) ltac:(lia)) as (_ & _ & Hzz). apply Z.nlt_ge. intros Hlt. apply Hz, Hzz.
    apply Z.div_lt_upper_bound; [lia|]. pose proof (Z.div_mod (seg * grain) 512 ltac:(lia)). pose proof (Z.mod_pos_bound (seg * grain) 512 ltac:(lia)). lia. }
  apply (start_spare m); try done; try nia. by apply start_capacity; nia.
Qed.

(** ** Registration *)

(** Two managers that differ in their tables of controllers only. *)
Record same_core (o o' : scm_object) : Prop := {
  sm_conf : so_conf o' = so_conf o;
  sm_state : so_state o' = so_state o;
  sm_init : so_init o' = so_init o;
  sm_gc : so_gc o' = so_gc o;
  sm_grain : so_grain_size o' = so_grain_size o;
  sm_props : so_props o' = so_props o;
  sm_ctlrs : length (so_ctlrs o') = length (so_ctlrs o);
  sm_ctl_data : length (so_ctl_data o') = length (so_ctl_data o)
}.

Lemma same_core_refl o : same_core o o.
Proof. done. Qed.

Lemma same_core_trans o1 o2 o3 : same_core o1 o2 -> same_core o2 o3 -> same_core o1 o3.
Proof. intros [] []. split; congruence. Qed.

Lemma started_core size grain seg ty low high o o' :
  same_core o o' -> started size grain seg ty low high o -> started size grain seg ty low high o'.
Proof. intros [] []. split; try done; try congruence. intros t Ht. rewrite <- st_gc0; congruence. Qed.

Lemma find_ctlr_lt l p i : scm_find_ctlr l p = Some i -> (i < length l)%nat.
Proof. unfold scm_find_ctlr. intros H%for_first_Some. lia. Qed.

Lemma unregister_core o p : same_core o (scm_unregister_sto_ctlr o p).
Proof. unfold scm_unregister_sto_ctlr. destruct (scm_find_ctlr _ _); [|done]. split; try done. apply length_insert. Qed.

Lemma gc_unregister_core o i : same_core o (gc_unregister_ctlr o i).
Proof. split; try done. apply length_insert. Qed.

(** [register_ctlr] on a manager with segments. *)
Lemma register_spec m ctlr pset n o :
  scm_ m = Some o -> u64 (so_grain_size o * seg_size (so_conf o)) <> 0 ->
  exists ri m' o', register_ctlr m ctlr pset n = Some (ri, m') /\ scm_ m' = Some o' /\ same_core o o' /\
    max_capacity_ m' = max_capacity_ m /\ max_capacity_reloc_ m' = max_capacity_reloc_ m.
Proof.
  intros Ho Hb. unfold register_ctlr. rewrite Ho. cbn [mbind option_bind]. cbv zeta.
  destruct (_ =? 0); [by eexists _, _, o|]. unfold has_enough_spare_segments. rewrite (proj2 (Z.eqb_neq _ 0)) by done.
  cbn [mbind option_bind]. match goal with |- context [if negb ?b then _ else _] => destruct b end; cbn [negb]; [|by eexists _, _, o].
  unfold scm_register_sto_ctlr. destruct (scm_find_ctlr (so_ctlrs o) ctlr); [by eexists _, _, o|].
  destruct (scm_find_ctlr (so_ctlrs o) 0) as [i|] eqn:Ei; [|by eexists _, _, o].
  pose proof (find_ctlr_lt _ _ _ Ei) as Hi. cbn [Z.eqb negb]. unfold gc_register_ctlr. cbn [set_ctlrs so_ctlrs].
  rewrite list_lookup_insert_eq by done. cbn [mbind option_bind].
  set (o1 := set_ctlrs _ o). assert (same_core o o1) as H1 by (split; try done; apply length_insert).
  destruct (ctlr =? 0); cbn [mbind option_bind]; eexists _, _, _; (split; [done|]); (split; [done|]); (split; [|done]).
  - eapply same_core_trans; [exact H1|]. apply unregister_core.
  - eapply same_core_trans; [exact H1|]. split; try done. apply length_insert.
Qed.

Lemma unregister_spec m ctlr ri o : scm_ m = Some o ->
  exists ri' m' o', unregister_ctlr m ctlr ri = Some (ri', m') /\ scm_ m' = Some o' /\ same_core o o' /\
    max_capacity_ m' = max_capacity_ m /\ max_capacity_reloc_ m' = max_capacity_reloc_ m.
Proof.
  intros Ho. unfold unregister_ctlr. destruct (negb _); [by eexists _, _, o|]. rewrite Ho. cbn [mbind option_bind].
  eexists _, _, _. split; [done|]. split; [done|]. split; [|done].
  eapply same_core_trans; [apply gc_unregister_core|apply unregister_core].
Qed.

(** ** Allocators *)

Definition flags_good (f : gfs_flags) : Prop := gf_thin_prov f = false /\ gf_no_blocking f = true.
Definition alltrs_ok (l : list (option gfs_flags)) : Prop := forall a f, l !! a = Some (Some f) -> flags_good f.

Lemma alltrs_ok_insert l i x : alltrs_ok l -> (forall f, x = Some f -> flags_good f) -> alltrs_ok (<[i := x]> l).
Proof. intros Hl Hx a f [(-> & E & _)|[_ E]]%list_lookup_insert_Some; [by apply Hx|by apply (Hl a)]. Qed.

Lemma allocator_init_spec ae rel i sz res flags err a : gf_thin_prov flags = false ->
  allocator_init ae rel i sz res flags = (err, a) ->
  (err = 0 -> exists f, a = Some f /\ flags_good f /\ res <= sz) /\
  (err <> 0 -> ae_malloc ae rel i = false \/ ae_thread ae rel i <> 0 \/ sz < res).
Proof.
  unfold allocator_init. intros Hf E. destruct (ae_malloc ae rel i); cbn [negb] in E; [|injection E as <- <-; split; [done|tauto]].
  destruct (Z.ltb_spec sz res); [injection E as <- <-; split; [done|tauto]|].
  destruct (Z.eqb_spec (ae_thread ae rel i) 0); cbn [negb] in E; injection E as <- <-; split; try done; [|tauto].
  intros _. eexists. split; [done|]. done.
Qed.

Lemma init_alltrs_spec ae rel sz res flags : gf_thin_prov flags = false -> forall n i l err stop l',
  init_alltrs ae rel sz res flags i n l = (err, stop, l') -> (i + n <= length l)%nat -> alltrs_ok l ->
  (forall j, (j < i)%nat -> is_Some (mjoin (l !! j))) ->
  alltrs_ok l' /\ length l' = length l /\ (stop <= i + n)%nat /\ (forall j, (j < stop)%nat -> is_Some (mjoin (l' !! j))) /\
  (err = 0 -> stop = (i + n)%nat /\ ((0 < n)%nat -> res <= sz)) /\
  (err <> 0 -> ae_malloc ae rel stop = false \/ ae_thread ae rel stop <> 0 \/ sz < res).
Proof.
  intros Hf. induction n as [|n IH]; intros i l err stop l' E Hlen Hok Hj; cbn [init_alltrs] in E.
  { injection E as <- <- <-. split_and!; try done; lia. }
  destruct (allocator_init ae rel i sz res flags) as [e a] eqn:Ea. apply allocator_init_spec in Ea as [Hz Hn]; [|done].
  destruct (Z.eqb_spec e 0) as [->|He]; cbn [negb] in E.
  - destruct (Hz eq_refl) as (f & -> & Hfg & Hres). apply IH in E as (H1 & H2 & H3 & H4 & H5 & H6).
    + rewrite length_insert in H2. split_and!; [done|lia|lia|done| |done]. intros ->. destruct (H5 eq_refl). split; [lia|done].
    + rewrite length_insert. lia.
    + apply alltrs_ok_insert; [done|]. by intros f' [= <-].
    + intros j Hji. destruct (decide (j = i)) as [->|].
      * rewrite list_lookup_insert_eq by lia. by eexists.
      * rewrite list_lookup_insert_ne by done. apply Hj. lia.
  - injection E as <- <- <-. split_and!; try done; try lia; by auto.
Qed.

Lemma exit_alltrs_spec n : forall l, (forall j, (j < n)%nat -> is_Some (mjoin (l !! j))) -> alltrs_ok l ->
  exists l', exit_alltrs n l = Some l' /\ alltrs_ok l' /\ length l' = length l.
Proof.
  induction n as [|n IH]; intros l Hj Hok; cbn [exit_alltrs]; [eauto|].
  destruct (Hj n ltac:(lia)) as [f Hfn]. rewrite Hfn. cbn [mbind option_bind].
  destruct (IH (<[n := None]> l)) as (l' & E & H1 & H2).
  - intros j Hjn. rewrite list_lookup_insert_ne by lia. apply Hj. lia.
  - by apply alltrs_ok_insert.
  - exists l'. rewrite length_insert in H2. done.
Qed.

Lemma exit_alltrs_ok n : forall l l', exit_alltrs n l = Some l' -> alltrs_ok l -> alltrs_ok l' /\ length l' = length l.
Proof.
  induction n as [|n IH]; intros l l' E Hok; cbn [exit_alltrs] in E; [by injection E as <-|].
  destruct (mjoin (l !! n)); [|done]. cbn [mbind option_bind] in E.
  apply IH in E as [? Hlen]; [by rewrite length_insert in Hlen|by apply alltrs_ok_insert].
Qed.

(** ** The controller *)

Record ctlr_ok (sc : SalsaCtlr) : Prop := {
  ck_thin : gf_thin_prov (sl_flags sc) = false;
  ck_alltr : alltrs_ok (sl_alltr sc);
  ck_rel_alltr : alltrs_ok (sl_rel_alltr sc);
  ck_len : length (sl_alltr sc) = Z.to_nat USALSAPP_MAX_STREAMS;
  ck_rel_len : length (sl_rel_alltr sc) = Z.to_nat USALSAPP_MAX_STREAMS
}.

Lemma ctlr_new_ok : ctlr_ok SalsaCtlr_new.
Proof.
  assert (forall n, alltrs_ok (replicate n None)) as Hr by (by intros n a f [? _]%lookup_replicate).
  split; try done; apply Hr.
Qed.

Lemma ctlr_flags_ok m sc : ctlr_ok sc -> flags_ok (ctlr_conf_of m sc).
Proof.
  intros [_ Ha Hr _ _] a. unfold ctlr_conf_of. cbn [a_flags].
  destruct (a <? _)%nat.
  - destruct (sl_alltr sc !! a) as [[f|]|] eqn:E; [|done|done]. by apply (Ha a).
  - destruct (sl_rel_alltr sc !! _) as [[f|]|] eqn:E; [|done|done]. by eapply Hr.
Qed.

(** An allocator for relocation that cannot be set up. *)
Definition rel_fails (ae : alltr_env) : Prop := exists i, ae_malloc ae true i = false \/ ae_thread ae true i <> 0.

(** [init] either ends, keeping the manager, or a relocation allocator failed. *)
Lemma ctlr_init_spec ae m ctlr reserved streams rel pset sc o :
  ctlr_ok sc -> scm_ m = Some o -> u64 (so_grain_size o * seg_size (so_conf o)) <> 0 ->
  (SalsaCtlr_init ae m ctlr reserved streams rel pset sc = None /\ rel_fails ae) \/
  exists rc m' sc' o', SalsaCtlr_init ae m ctlr reserved streams rel pset sc = Some (rc, m', sc') /\
    ctlr_ok sc' /\ scm_ m' = Some o' /\ same_core o o' /\ max_capacity_reloc_ m' = max_capacity_reloc_ m /\
    (rc = 0 -> reserved <= seg_size (so_conf o) /\ sl_reserved sc' = u32 reserved).
Proof.
  intros [Ht Ha Hra Hl Hrl] Ho Hb. unfold SalsaCtlr_init. cbv zeta. set (n := init_stream_nr streams). set (k := init_rel_stream_nr rel).
  assert (1 <= n <= 128 /\ 0 <= k <= 128) as Hnk by (unfold n, k, init_stream_nr, init_rel_stream_nr, USALSAPP_MAX_STREAMS; lia).
  destruct (register_spec m ctlr pset (u32 (n + k)) o Ho Hb) as (ri & m1 & o1 & -> & Ho1 & Hc1 & _ & Hcap1). cbn [mbind option_bind].
  destruct (Z.eqb_spec (ri_err ri) 0) as [Hri|Hri]; cbn [negb]; [|right; by eexists _, _, _, o1].
  rewrite Ho1. cbn [mbind option_bind]. rewrite (sm_conf _ _ Hc1).
  destruct (init_alltrs ae false _ _ _ _ _ _) as [[e1 stop1] l1] eqn:E1.
  apply init_alltrs_spec in E1 as (HA1 & HL1 & HS1 & HP1 & HZ1 & HN1); [|done|rewrite Hl; change (Z.to_nat USALSAPP_MAX_STREAMS) with 128%nat; lia|done|lia].
  destruct (unregister_spec m1 ctlr ri o1 Ho1) as (ri2 & m2 & o2 & Hu & Ho2 & Hc2 & _ & Hcap2). rewrite Hcap1 in Hcap2.
  pose proof (same_core_trans _ _ _ Hc1 Hc2) as Hc12.
  destruct (Z.eqb_spec e1 0) as [->|He1]; cbn [negb].
  2: { destruct (exit_alltrs_spec stop1 l1 HP1 HA1) as (l' & -> & ? & ?). cbn [mbind option_bind]. rewrite Hu. cbn [mbind option_bind].
       right. eexists _, _, _, o2. split; [done|]. split; [|done]. split; try done. cbn [sl_alltr]. congruence. }
  destruct (HZ1 eq_refl) as [-> Hres]. specialize (Hres ltac:(lia)).
  destruct (init_alltrs ae true _ _ _ _ _ _) as [[e2 stop2] l2] eqn:E2.
  apply init_alltrs_spec in E2 as (HA2 & HL2 & HS2 & HP2 & HZ2 & HN2); [|done|rewrite Hrl; change (Z.to_nat USALSAPP_MAX_STREAMS) with 128%nat; lia|done|lia].
  destruct (Z.eqb_spec e2 0) as [->|He2]; cbn [negb].
  2: { destruct (exit_alltrs_spec stop2 l2 HP2 HA2) as (l' & -> & ? & ?). cbn [mbind option_bind].
       destruct (exit_alltrs (Z.to_nat n + 1) l1) as [l''|] eqn:Ex; cbn [mbind option_bind].
       - rewrite Hu. cbn [mbind option_bind]. right. eexists _, _, _, o2. split; [done|]. split; [|done].
         destruct (exit_alltrs_ok _ _ _ Ex HA1). split; try done; cbn [sl_alltr sl_rel_alltr]; congruence.
       - left. split; [done|]. exists stop2. destruct (HN2 He2) as [|[|]]; [tauto|tauto|lia]. }
  right. eexists _, _, _, o1. split; [done|]. split; [|done]. split; try done; cbn [sl_alltr sl_rel_alltr]; try congruence.
  - destruct (k =? 0); [|done]. apply alltrs_ok_insert; [done|]. intros f Hf.
    destruct (l1 !! (Z.to_nat n - 1)%nat) as [[f'|]|] eqn:El; try done. injection Hf as <-. by apply (HA1 _ _ El).
  - destruct (k =? 0); [rewrite length_insert|]; congruence.
Qed.
