(* ===== verification/StoreStartTheorems.v ===== *)
(** * StoreStartTheorems: the start of the store, theorems

    The search for a segment size ends; a start that succeeds leaves SALSA in a state
    and with a configuration that the theorems on it are about, its segments in front
    of the metadata on the device. *)
From Stdlib Require Import ZArith Lia Ascii String.
From stdpp Require Import base tactics list numbers option.
From S2P Require Import Prelude Util StoreFormat Metadata StateM Throttle SalsaScm SalsaGc SalsaAlloc SalsaInv SalsaMoves.
From S2P Require Import SalsaInval SalsaSafe SalsaRun SalsaInit SalsaTheorems CString DevProps DevPropsSpec ScmConfig ScmStart StoreStart StoreStartSpec.

Open Scope Z_scope.

(** ** Registration ends *)

Lemma register_loop_spec fuel : forall ae m ctlr reserved streams sc o,
  (Z.to_nat streams < fuel)%nat -> 0 <= streams ->
  ctlr_ok sc -> scm_ m = Some o -> u64 (so_grain_size o * seg_size (so_conf o)) <> 0 ->
  (register_loop fuel ae m ctlr reserved streams sc = None /\ exists k, rel_fails (ae k)) \/
  exists rc n m' sc' o', register_loop fuel ae m ctlr reserved streams sc = Some (rc, n, m', sc') /\
    ctlr_ok sc' /\ scm_ m' = Some o' /\ same_core o o' /\ max_capacity_reloc_ m' = max_capacity_reloc_ m /\
    (rc = 0 -> reserved <= seg_size (so_conf o) /\ sl_reserved sc' = u32 reserved).
Proof.
  induction fuel as [|fuel IH]; intros ae m ctlr reserved streams sc o Hf Hs Hsc Ho Hb; [lia|]. cbn [register_loop].
  destruct (ctlr_init_spec (ae fuel) m ctlr reserved streams 1 SCM_PROP_SET_ALL sc o Hsc Ho Hb)
    as [[-> Hrel]|(rc & m' & sc' & o' & -> & Hsc' & Ho' & Hc & Hcap & Hz)]; [left; eauto|]. cbn [mbind option_bind].
  destruct (Z.eqb_spec rc 0) as [->|Hrc]; [right; by eexists _, _, _, _, o'|].
  destruct (Z.eqb_spec (streams / 2) 0) as [|Hne]; [right; by eexists _, _, _, _, o'|].
  assert (0 < streams) by (destruct (decide (streams = 0)) as [->|]; [done|lia]).
  pose proof (Z.div_lt streams 2 ltac:(lia) ltac:(lia)). pose proof (Z.div_pos streams 2 ltac:(lia) ltac:(lia)).
  destruct (IH ae m' ctlr reserved (streams / 2) sc' o') as [[E Hrel]|(rc' & n & m2 & sc2 & o2 & E & K1 & K2 & K3 & K5 & K4)]; try done; [lia| | |].
  - by rewrite (sm_grain _ _ Hc), (sm_conf _ _ Hc).
  - rewrite E. by left.
  - right. eexists _, _, _, _, o2. split; [exact E|]. rewrite (sm_conf _ _ Hc) in K4. split_and!; try done; [by eapply same_core_trans|congruence].
Qed.

(** ** The segment sizes tried *)

Lemma sanitize_bounds p g s : 0 < g -> 0 <= s < 2 ^ 64 -> 1 <= sanitize_segment_size p g s <= Z.max 1 s.
Proof.
  intros Hg Hs. unfold sanitize_segment_size. cbv zeta. set (step := if g <? p then p / g else 1).
  assert (0 < step) as Hst by (unfold step; destruct (Z.ltb_spec g p); [apply Z.div_str_pos|]; lia).
  destruct (align_down_spec s step Hs Hst) as (_ & ? & ?). lia.
Qed.

Lemma least_waste_spec fuel : forall p g mn size ns w best b,
  0 < g -> 1 <= mn -> 1 <= ns <= b -> b < 2 ^ 64 -> 1 <= best <= b -> (Z.to_nat ns < fuel)%nat ->
  exists r, least_waste fuel p g mn size ns w best = Some r /\ 1 <= r <= b.
Proof.
  induction fuel as [|fuel IH]; intros p g mn size ns w best b Hg Hmn Hns Hb Hbest Hf; [lia|]. cbn [least_waste].
  destruct (Z.ltb_spec mn ns); [|eauto]. pose proof (sanitize_bounds p g (ns - 1) Hg ltac:(lia)). cbv zeta.
  destruct (_ <? w); (apply IH with (b := b); [lia..|]); lia.
Qed.

Lemma smaller_segment_spec fuel p g size s : 0 < g -> 1 <= s < 2 ^ 64 -> (Z.to_nat s < fuel)%nat ->
  exists r, smaller_segment fuel p g size s = Some r /\ match r with None => s = 1 | Some ns => 1 <= ns < s end.
Proof.
  intros Hg Hs Hf. unfold smaller_segment. rewrite wrap_small by (unfold in_width; lia). cbv zeta.
  destruct (Z.eqb_spec (s - 1) 0); [exists None; split; [done|lia]|].
  pose proof (sanitize_bounds p g (s - 1) Hg ltac:(lia)) as Hsan.
  assert (1 <= s / 2) by (apply Z.div_le_lower_bound; lia).
  destruct (least_waste_spec fuel p g (s / 2) size (sanitize_segment_size p g (s - 1)) (2 ^ 64 - 1) (sanitize_segment_size p g (s - 1)) (s - 1))
    as (r & -> & Hr); try lia. exists (Some r). split; [done|lia].
Qed.

(** ** One turn *)

Definition sane_sizes (grain seg : Z) : Prop := 0 < grain < 2 ^ 31 /\ 0 < seg < 2 ^ 64 /\ seg * grain < 2 ^ 64.

(** What the search keeps of the store's members. *)
Record local_ok (l : local) : Prop := {
  lk_sizes : sane_sizes (lo_grain l) (lo_segment l);
  lk_seed : in_width 64 (seed_m (lo_md l));
  lk_seg : seg_md_wf (seg_md_m (lo_md l))
}.

Section Turn.
Context (crc32 : Z -> list Z -> Z) (page_size io_size : Z) (dev : device) (e : start_env).
Context (force_destroy : bool) (over ty low high : Z).
Context (Hio : 0 <= io_size < 2 ^ 62).
Context (Hty : in_width 32 ty) (Hlow : in_width 32 low) (Hhigh : in_width 32 high).
(** What the checksum accepts is metadata of an earlier start. *)
Context (Hmd : forall n m d, validate_dev_md crc32 io_size n dev m = Some d ->
           sane_sizes (dm_grain_size d) (dm_segment_size d) /\ dev_md_wf d).

(** A device found to be large enough has room for its segments and the metadata. *)
Lemma checked_size seg md : 0 < grain_size_m md < 2 ^ 31 -> dm_physical_size (dev_md_m md) = io_size ->
  check_dev_size io_size seg md = 0 ->
  0 < get_dev_size md <= io_size /\
  forall n, n * grain_size_m md <= get_dev_size md -> n * grain_size_m md <= dev_md_grain_offset io_size md.
Proof.
  intros Hg Hp. unfold check_dev_size, get_dev_size, dev_md_grain_offset. cbv zeta. rewrite Hp. set (g := grain_size_m md) in *.
  set (A := align_up (Z.of_nat sizeof_dev_md) g).
  destruct (align_up_spec (Z.of_nat sizeof_dev_md) g) as [[a Ha] HA]; [lia|lia|change (Z.of_nat sizeof_dev_md) with 44; lia|].
  fold A in Ha, HA. change (Z.of_nat sizeof_dev_md) with 44 in HA.
  destruct (align_down_spec io_size g) as ([d Hd] & HD & _); [lia|lia|].
  destruct (Z.ltb_spec A (align_down io_size g)) as [Hlt|]; [|done]. intros _.
  rewrite wrap_small by (unfold in_width; lia). split; [lia|]. intros n Hn.
  assert (n + a < d + 1) by nia. nia.
Qed.

(** A segment holds more than its metadata. *)
Lemma reserved_lt seg md : 0 < grain_size_m md < 2 ^ 31 -> 0 < seg -> 512 <= seg * grain_size_m md ->
  check_dev_size io_size seg md = 0 -> get_seg_md_size md < seg.
Proof.
  intros Hg Hs Hb. unfold check_dev_size, get_seg_md_size, dev_md_grain_offset. cbv zeta. set (g := grain_size_m md) in *.
  destruct (align_up_spec (Z.of_nat sizeof_seg_md) g) as [[a ->] HA]; [lia|lia|change (Z.of_nat sizeof_seg_md) with 53; lia|].
  change (Z.of_nat sizeof_seg_md) with 53 in HA. rewrite Z.div_mul by lia. intros Hc.
  destruct (decide (seg = 1)) as [->|]; [|destruct (Z.le_gt_cases 53 g); nia]. exfalso. revert Hc.
  destruct (align_up_spec (Z.of_nat sizeof_dev_md) g) as [_ HD]; [lia|lia|change (Z.of_nat sizeof_dev_md) with 44; lia|].
  change (Z.of_nat sizeof_dev_md) with 44 in HD. rewrite Z.mul_1_l, wrap_small by (unfold in_width; lia).
  set (A := align_up _ g) in *. set (D := align_down io_size g). destruct (A <? D); [|done].
  rewrite (proj2 (Z.ltb_lt (D - A) D)) by lia. by rewrite orb_true_r.
Qed.

(** What a turn that ends the search leaves. *)
Record round_result (l : local) (m : Scm) (o : scm_object) : Prop := {
  rr_scm : scm_ m = Some o;
  rr_started : started (lo_size l) (lo_grain l) (lo_segment l) ty low high o;
  rr_capacity : 0 <= over <= 1000 ->
    max_capacity_reloc_ m < (start_seg_nr (lo_size l) (lo_grain l) (lo_segment l) - 2) * lo_segment l;
  rr_grain : grain_size_m (lo_md l) = lo_grain l /\ 0 < lo_grain l < 2 ^ 31;
  rr_size : 0 < lo_size l <= io_size;
  rr_room n : n * lo_grain l <= lo_size l -> n * lo_grain l <= dev_md_grain_offset io_size (lo_md l);
  rr_reserved : get_seg_md_size (lo_md l) < lo_segment l;
  rr_md : md_ok io_size (lo_md l);
  rr_nr : (Z.to_nat (start_seg_nr (lo_size l) (lo_grain l) (lo_segment l)) <= length (seg_ts_m (lo_md l)))%nat
}.

Lemma make_argv_store size grain seg : in_width 64 size -> in_width 64 grain -> in_width 64 seg ->
  make_argv size grain seg ty low high = Some (strtok (command_line size grain seg ty low high)).
Proof.
  intros Hs Hg Hseg. unfold make_argv. cbv zeta.
  pose proof (command_line_fits size grain seg ty low high Hs Hg Hseg Hty Hlow Hhigh). rewrite take_ge by lia.
  by rewrite strtok_command_line by (unfold in_width in *; lia).
Qed.

(** [MD::init] on sizes that do not wrap. *)
Record md_from (d : salsa_dev_md) (md : MD) : Prop := {
  mf_grain : grain_size_m md = dm_grain_size d;
  mf_dev : dev_md_m md = d;
  mf_seg : sm_segment_size (seg_md_m md) = dm_segment_size d /\ sm_grain_size (seg_md_m md) = dm_grain_size d /\
           sm_seed (seg_md_m md) = dm_seed d;
  mf_wf : seg_md_wf (seg_md_m md);
  mf_seed : in_width 64 (seed_m md);
  mf_ts : length (seg_ts_m md) = Z.to_nat (dm_physical_size d / (dm_segment_size d * dm_grain_size d))
}.

Lemma init_md_spec d m : sane_sizes (dm_grain_size d) (dm_segment_size d) -> dev_md_wf d -> seg_md_wf (seg_md_m m) ->
  exists md, init_md d m = Some md /\ md_from d md.
Proof.
  intros (Hg & Hs & Hsg) [] []. unfold init_md. rewrite wrap_small by (unfold in_width; nia). cbv zeta.
  rewrite (proj2 (Z.eqb_neq _ 0)) by nia. eexists. split; [done|]. split; try done. cbn [seg_ts_m]. by rewrite length_replicate.
Qed.

(** The metadata of a store that started. *)
Lemma started_md size d md o : md_from d md -> dev_md_wf d -> 0 < dm_grain_size d < 2 ^ 31 -> 0 < size <= io_size ->
  dm_physical_size d = io_size -> check_dev_size io_size (dm_segment_size d) md = 0 ->
  started size (dm_grain_size d) (dm_segment_size d) ty low high o ->
  get_seg_md_size md < dm_segment_size d /\ md_ok io_size md /\
  (Z.to_nat (start_seg_nr size (dm_grain_size d) (dm_segment_size d)) <= length (seg_ts_m md))%nat.
Proof.
  intros [Hg Hd (Hs1 & Hs2 & Hs3) Hwf _ Hts] Hdwf Hgr Hsize Hp Hc Hst. pose proof (st_seg _ _ _ _ _ _ _ Hst).
  pose proof (st_bytes _ _ _ _ _ _ _ Hst). rewrite Hp in Hts.
  assert (get_seg_md_size md < dm_segment_size d) as Hfit by (apply reserved_lt; rewrite ?Hg; lia). split; [done|]. split.
  - split; rewrite ?Hs1, ?Hg, ?Hd; try done; lia.
  - rewrite Hts. apply Z2Nat.inj_le.
    + apply start_seg_nr_fits; lia.
    + apply Z.div_pos; lia.
    + destruct (start_seg_nr_fits size (dm_grain_size d) (dm_segment_size d) ltac:(lia) ltac:(lia)).
      apply Z.div_le_lower_bound; [lia|]. lia.
Qed.

Lemma init_round_spec fuel n l : local_ok l -> (Z.to_nat (lo_segment l) < fuel)%nat ->
  exists r, init_round crc32 page_size io_size dev e force_destroy over ty low high fuel n l = Some r /\
    match r with
    | Again l' => local_ok l' /\ lo_segment l' < lo_segment l
    | Stop rc _ l' m => rc = 0 -> exists m' o, m = Some m' /\ round_result l' m' o
    end.
Proof.
  intros [Hl Hseed Hsegwf] Hf. unfold init_round. cbv zeta. set (found := if force_destroy then None else _). set (d := default _ found).
  assert (found = None -> dm_segment_size d = lo_segment l /\ dm_grain_size d = lo_grain l /\ dm_physical_size d = io_size) as Hdflt
    by (unfold d; by intros ->).
  assert (sane_sizes (dm_grain_size d) (dm_segment_size d) /\ dev_md_wf d) as [Hd Hwf].
  { destruct found as [x|] eqn:Ef; [unfold found in Ef; destruct force_destroy; [done|by eapply Hmd]|].
    unfold d. cbn [default]. split; [exact Hl|]. destruct Hl as (? & ? & _). split; try done; unfold in_width in *; cbn; lia. }
  destruct (init_md_spec d (lo_md l) Hd Hwf Hsegwf) as (md & -> & Hmf). cbn [mbind option_bind].
  cbn [lo_grain lo_segment lo_size lo_md]. destruct Hd as (Hg & Hs & Hsg).
  assert (forall size ns, 0 < ns < dm_segment_size d -> local_ok (mkLocal size (dm_grain_size d) ns md)) as Hnext.
  { intros size ns Hns. split; cbn; [unfold sane_sizes; nia|apply (mf_seed _ _ Hmf)|apply (mf_wf _ _ Hmf)]. }
  destruct (Z.eqb_spec (check_dev_size io_size (dm_segment_size d) md) 0) as [Hc|Hc]; cbn [negb].
  2: { destruct found as [x|] eqn:Ef; [eexists; split; [done|]; by intros ?|]. destruct (Hdflt eq_refl) as (Es & Eg & _).
       rewrite Es in *. destruct (smaller_segment_spec fuel page_size (dm_grain_size d) (lo_size l) (lo_segment l)) as (r & -> & Hr); [lia|lia|done|].
       cbn [mbind option_bind]. destruct r as [ns|]; eexists; (split; [done|]); [|by intros ?]. split; [apply Hnext|cbn [lo_segment]]; lia. }
  destruct (_ && negb (io_size =? _)) eqn:Ep; [eexists; split; [done|]; by intros ?|].
  assert (dm_physical_size d = io_size) as Hphys.
  { destruct found eqn:Ef; [|by apply Hdflt]. cbn [andb] in Ep. apply negb_false_iff, Z.eqb_eq in Ep. done. }
  destruct (checked_size (dm_segment_size d) md) as (Hszb & Hin); [by rewrite (mf_grain _ _ Hmf)|by rewrite (mf_dev _ _ Hmf)|done|].
  rewrite make_argv_store by (unfold in_width; lia). cbn [mbind option_bind].
  destruct (scm_init_start e over (get_dev_size md) (dm_grain_size d) (dm_segment_size d) ty low high) as (rc & m & -> & Hm);
    try done; try (unfold in_width; lia). cbn [mbind option_bind]. rewrite (mf_grain _ _ Hmf) in Hin.
  assert (rc = 0 -> exists o, round_result (mkLocal (get_dev_size md) (dm_grain_size d) (dm_segment_size d) md) m o) as Hres.
  { intros Hrc. destruct (Hm Hrc) as (o & Ho & Hst & Hcap). exists o.
    destruct (started_md (get_dev_size md) d md o) as (? & ? & ?); try done. split; try done. split; [apply (mf_grain _ _ Hmf)|done]. }
  destruct (Z.eqb_spec rc 0) as [->|Hrc]; cbn [orb]; [eexists; split; [done|]; intros _; destruct (Hres eq_refl); eauto|].
  destruct found eqn:Ef; [eexists; split; [done|]; by intros ?|]. destruct (Hdflt eq_refl) as (Es & Eg & _). cbn [orb].
  pose proof (sanitize_bounds page_size (dm_grain_size d) (dm_segment_size d / 2) ltac:(lia)
                ltac:(split; [apply Z.div_pos; lia|apply Z.div_lt_upper_bound; lia])) as Hsan.
  pose proof (Z.div_lt (dm_segment_size d) 2 ltac:(lia) ltac:(lia)).
  destruct (Z.leb_spec (sanitize_segment_size page_size (dm_grain_size d) (dm_segment_size d / 2)) 1); eexists; (split; [done|]);
    [by intros ?|]. split; [apply Hnext|cbn [lo_segment]]; lia.
Qed.

Lemma init_search_spec fuel : forall ns l, local_ok l -> (Z.to_nat (lo_segment l) < fuel)%nat ->
  exists rc restored l' m, init_search crc32 page_size io_size dev e force_destroy over ty low high fuel ns l = Some (Stop rc restored l' m) /\
    (rc = 0 -> exists m' o, m = Some m' /\ round_result l' m' o).
Proof.
  induction fuel as [|fuel IH]; intros ns l Hl Hf; [lia|]. cbn [init_search].
  destruct (init_round_spec (S (Z.to_nat (lo_segment l))) (ns fuel) l Hl ltac:(lia)) as (r & -> & Hr). cbn [mbind option_bind].
  destruct r as [l'|rc restored l' m]; [|by eexists _, _, _, _]. destruct Hr as [Hl' Hlt].
  apply IH; [done|]. destruct (lk_sizes _ Hl'). lia.
Qed.

End Turn.

(** ** The start *)

(** The sizes the store is given, and what the device holds. *)
Record start_pre (crc32 : Z -> list Z -> Z) (io_size : Z) (dev : device) (ty low high : Z) (l : local) : Prop := {
  sp_io : 0 <= io_size < 2 ^ 62;
  sp_ty : in_width 32 ty;
  sp_low : in_width 32 low;
  sp_high : in_width 32 high;
  sp_md n m d : validate_dev_md crc32 io_size n dev m = Some d ->
    sane_sizes (dm_grain_size d) (dm_segment_size d) /\ dev_md_wf d;
  sp_local : local_ok l
}.

Lemma started_bytes size grain seg ty low high o : started size grain seg ty low high o ->
  u64 (so_grain_size o * seg_size (so_conf o)) <> 0.
Proof.
  intros Hst. rewrite (st_grain_size _ _ _ _ _ _ _ Hst), (st_conf _ _ _ _ _ _ _ Hst). cbn [start_conf seg_size].
  pose proof (st_grain _ _ _ _ _ _ _ Hst). pose proof (st_seg _ _ _ _ _ _ _ Hst). rewrite wrap_small by (unfold in_width; nia). nia.
Qed.

Lemma started_running size grain seg ty low high o m sc t :
  0 < size < 2 ^ 62 -> started size grain seg ty low high o -> ctlr_ok sc -> 0 <= sl_reserved sc < seg -> gc_type_of ty = Some t ->
  so_gc o = GcBins (start_gc size grain seg low high t) /\
  running (so_conf o) (start_gc size grain seg low high t) (so_ctl_data o) (ctlr_conf_of m sc) [] (so_state o).
Proof.
  intros Hs Hst Hsc Hr Ht. split; [by apply (st_gc _ _ _ _ _ _ _ Hst)|].
  pose proof (st_grain _ _ _ _ _ _ _ Hst). pose proof (st_seg _ _ _ _ _ _ _ Hst). pose proof (st_bytes _ _ _ _ _ _ _ Hst).
  pose proof (st_state _ _ _ _ _ _ _ Hst) as Hq. rewrite (st_conf _ _ _ _ _ _ _ Hst) in *. split.
  - apply start_conf_ok; try lia. exact Hr.
  - by apply ctlr_flags_ok.
  - exists grain, [start_range size grain seg], (so_state o). split; [apply start_device_ok; lia|]. split; [done|]. unfold reachable. reflexivity.
Qed.

Lemma seg_md_size_nonneg md : 0 < grain_size_m md < 2 ^ 31 -> 0 <= get_seg_md_size md.
Proof.
  intros Hg. unfold get_seg_md_size. apply Z.div_pos; [|lia].
  destruct (align_up_spec (Z.of_nat sizeof_seg_md) (grain_size_m md)) as [_ ?]; change (Z.of_nat sizeof_seg_md) with 53 in *; lia.
Qed.

(** C29: the SALSA part of a start ends. For a device of less than 2^62 bytes, when
    the sizes asked for, and those in metadata that its checksum accepts, are sane
    ([start_pre]), the search over segment sizes and the registration with ever
    fewer streams come to a result within as many turns as a segment has grains and
    the store has streams, provided SALSA's relocation allocators can be set up. *)
Theorem store_start_terminates crc32 page_size io_size dev e force_destroy over ty low high fuel ns ae ctlr streams l :
  start_pre crc32 io_size dev ty low high l ->
  (Z.to_nat (lo_segment l) < fuel)%nat -> 0 <= streams -> (Z.to_nat streams < fuel)%nat ->
  (forall k, ~ rel_fails (ae k)) ->
  exists rc restored l' m sc,
    init_salsa crc32 page_size io_size dev e force_destroy over ty low high fuel ns ae ctlr streams l = Some (rc, restored, l', m, sc).
Proof.
  intros [Hio Hty Hlow Hhigh Hmd Hl] Hf Hs Hfs Hrel. unfold init_salsa.
  destruct (init_search_spec crc32 page_size io_size dev e force_destroy over ty low high Hio Hty Hlow Hhigh Hmd fuel ns l Hl Hf)
    as (rc & restored & l' & m & -> & Hr). cbn [mbind option_bind].
  destruct (Z.eqb_spec rc 0) as [->|]; cbn [negb]; [|by eexists _, _, _, _, _].
  destruct (Hr eq_refl) as (m' & o & -> & Hrr). cbn [mbind option_bind].
  destruct (register_loop_spec fuel ae m' ctlr (get_seg_md_size (lo_md l')) streams SalsaCtlr_new o Hfs Hs ctlr_new_ok (rr_scm _ _ _ _ _ _ _ _ Hrr)
              (started_bytes _ _ _ _ _ _ _ (rr_started _ _ _ _ _ _ _ _ Hrr)))
    as [[_ [k Hk]]|(rc' & n & m2 & sc2 & o2 & -> & _)]; [by destruct (Hrel k)|]. cbn [mbind option_bind]. by eexists _, _, _, _, _.
Qed.

(** C14: what the SALSA part of a start that succeeds leaves, that is [init_local]
    up to the registration of the store's controller, before the map is set up. With
    one of the seven collectors with bins, the configuration, the controller and the
    state of SALSA are those its theorems begin with, with nothing allocated; the
    segments lie in front of the metadata on the device and each has a place in the
    table of time stamps; the metadata is well formed; and with an overprovision of
    at most 1000 per mille the capacity granted ends two segments before the device.
    The sizes asked for, and those in metadata that its checksum accepts, are sane
    ([start_pre]). *)
Theorem store_start_running crc32 page_size io_size dev e force_destroy over ty low high fuel ns ae ctlr streams l restored l' m sc t :
  start_pre crc32 io_size dev ty low high l ->
  (Z.to_nat (lo_segment l) < fuel)%nat -> 0 <= streams -> (Z.to_nat streams < fuel)%nat -> 0 <= over <= 1000 ->
  gc_type_of ty = Some t ->
  init_salsa crc32 page_size io_size dev e force_destroy over ty low high fuel ns ae ctlr streams l = Some (0, restored, l', Some m, sc) ->
  exists o gc, scm_ m = Some o /\ so_gc o = GcBins gc /\
    running (so_conf o) gc (so_ctl_data o) (ctlr_conf_of m sc) [] (so_state o) /\
    seg_size (so_conf o) = lo_segment l' /\
    Z.of_nat (seg_nr (so_conf o)) * lo_segment l' * lo_grain l' <= dev_md_grain_offset io_size (lo_md l') /\
    (seg_nr (so_conf o) <= length (seg_ts_m (lo_md l')))%nat /\
    md_ok io_size (lo_md l') /\
    max_capacity_reloc (ctlr_conf_of m sc) < (Z.of_nat (seg_nr (so_conf o)) - 2) * lo_segment l'.
Proof.
  intros [Hio Hty Hlow Hhigh Hmd Hl] Hf Hs Hfs Hov Ht E. unfold init_salsa in E.
  destruct (init_search_spec crc32 page_size io_size dev e force_destroy over ty low high Hio Hty Hlow Hhigh Hmd fuel ns l Hl Hf)
    as (rc & restored1 & l1 & m1 & Es & Hr). rewrite Es in E. cbn [mbind option_bind] in E.
  destruct (Z.eqb_spec rc 0) as [->|Hrc]; cbn [negb] in E; [|by injection E].
  destruct (Hr eq_refl) as (m' & o & -> & Hrr). cbn [mbind option_bind] in E.
  pose proof (rr_started _ _ _ _ _ _ _ _ Hrr) as Hst. pose proof (rr_scm _ _ _ _ _ _ _ _ Hrr) as Hscm.
  destruct (register_loop_spec fuel ae m' ctlr (get_seg_md_size (lo_md l1)) streams SalsaCtlr_new o Hfs Hs ctlr_new_ok Hscm (started_bytes _ _ _ _ _ _ _ Hst))
    as [[E2 _]|(rc' & n & m2 & sc2 & o2 & E2 & Hsc2 & Ho2 & Hc2 & Hcap2 & Hz2)]; rewrite E2 in E; [done|].
  cbn [mbind option_bind] in E. injection E as -> -> -> -> ->. destruct (Hz2 eq_refl) as [Hres Hsr].
  pose proof (started_core _ _ _ _ _ _ _ _ Hc2 Hst) as Hst2. rewrite (st_conf _ _ _ _ _ _ _ Hst) in Hres. cbn [start_conf seg_size] in Hres.
  pose proof (rr_size _ _ _ _ _ _ _ _ Hrr) as Hsz. pose proof (st_seg _ _ _ _ _ _ _ Hst) as Hseg. pose proof (st_bytes _ _ _ _ _ _ _ Hst) as Hby.
  pose proof (rr_reserved _ _ _ _ _ _ _ _ Hrr) as Hrl. destruct (rr_grain _ _ _ _ _ _ _ _ Hrr) as [Hgm Hgr].
  pose proof (seg_md_size_nonneg (lo_md l') ltac:(by rewrite Hgm)) as Hmdn.
  rewrite wrap_small in Hsr by (unfold in_width; lia).
  destruct (started_running (lo_size l') (lo_grain l') (lo_segment l') ty low high o2 m sc t ltac:(lia) Hst2 Hsc2 ltac:(lia) Ht) as [Hgc Hrun].
  destruct (start_seg_nr_fits (lo_size l') (lo_grain l') (lo_segment l') ltac:(lia) ltac:(lia)) as [Hn1 Hn2].
  exists o2, (start_gc (lo_size l') (lo_grain l') (lo_segment l') low high t). split; [done|]. split; [done|]. split; [done|].
  rewrite (st_conf _ _ _ _ _ _ _ Hst2). cbn [start_conf seg_size seg_nr]. rewrite Z2Nat.id by lia.
  split; [done|]. split; [|split; [apply (rr_nr _ _ _ _ _ _ _ _ Hrr)|split]].
  - apply (rr_room _ _ _ _ _ _ _ _ Hrr). nia.
  - apply (rr_md _ _ _ _ _ _ _ _ Hrr).
  - cbn [ctlr_conf_of max_capacity_reloc]. rewrite Hcap2. by apply (rr_capacity _ _ _ _ _ _ _ _ Hrr).
Qed.

(** ** A relocation allocator that fails *)

Lemma init_alltrs_all ae rel sz res flags : res <= sz -> (forall i, ae_malloc ae rel i = true /\ ae_thread ae rel i = 0) ->
  forall n i l, exists l', init_alltrs ae rel sz res flags i n l = (0, (i + n)%nat, l') /\
    forall j, (i + n <= j)%nat -> l' !! j = l !! j.
Proof.
  intros Hr Hok. induction n as [|n IH]; intros i l; cbn [init_alltrs].
  - exists l. split; [f_equal; f_equal; lia|done].
  - unfold allocator_init. destruct (Hok i) as [-> ->]. cbn [negb Z.eqb]. rewrite (proj2 (Z.ltb_ge sz res)) by lia. cbn [Z.eqb negb].
    edestruct (IH (S i)) as (l' & -> & Hl'). exists l'. split; [f_equal; f_equal; lia|].
    intros j Hj. rewrite Hl' by lia. apply list_lookup_insert_ne. lia.
Qed.

(** the failure of a relocation allocator brings the store down.  When a
    controller is registered and its user allocators are set up but the first
    relocation allocator cannot be, [SalsaCtlr::init] starts taking the user
    allocators down one past the last and calls [allocator_exit] on a null pointer
    instead of returning the error. *)
Theorem relocation_failure_crashes ae m ctlr reserved streams sc ri m1 o :
  register_ctlr m ctlr SCM_PROP_SET_ALL (u32 (init_stream_nr streams + init_rel_stream_nr 1)) = Some (ri, m1) ->
  ri_err ri = 0 -> scm_ m1 = Some o -> reserved <= seg_size (so_conf o) ->
  (forall i, ae_malloc ae false i = true /\ ae_thread ae false i = 0) ->
  ae_malloc ae true 0 = false \/ ae_thread ae true 0 <> 0 ->
  mjoin (sl_alltr sc !! Z.to_nat (init_stream_nr streams)) = None ->
  SalsaCtlr_init ae m ctlr reserved streams 1 SCM_PROP_SET_ALL sc = None.
Proof.
  intros Hreg Hri Ho Hres Hok Hfail Hnone. unfold SalsaCtlr_init. cbv zeta. rewrite Hreg. cbn [mbind option_bind]. rewrite Hri. cbn [Z.eqb negb].
  rewrite Ho. cbn [mbind option_bind].
  edestruct (init_alltrs_all ae false (seg_size (so_conf o)) reserved) as (l' & -> & Hl'); [done|done|]. cbn [Z.eqb negb].
  change (Z.to_nat (init_rel_stream_nr 1)) with 1%nat. cbn [init_alltrs].
  set (f := mkGfs true _ _ _ _). destruct (allocator_init ae true 0 _ reserved f) as [err a] eqn:Ea.
  assert (err <> 0) as Herr.
  { revert Ea. unfold allocator_init. destruct (ae_malloc ae true 0); cbn [negb]; [|by intros [= <- _]]. destruct Hfail as [|Hth]; [done|].
    destruct (_ <? _); [by intros [= <- _]|]. rewrite (proj2 (Z.eqb_neq _ 0)) by done. cbn [negb]. by intros [= <- _]. }
  rewrite (proj2 (Z.eqb_neq err 0)) by done. cbn [negb exit_alltrs mbind option_bind]. rewrite (proj2 (Z.eqb_neq err 0)) by done. cbn [negb].
  rewrite Nat.add_1_r. cbn [exit_alltrs]. by rewrite Hl', Hnone by lia.
Qed.

(** ** Examples *)

Definition ex_start_env : start_env := mkStartEnv (mkUsrEnv (const 0) (const None) (const true)) (const true) (const true) (const 0).
Definition ex_alltr_env : alltr_env := mkAlltrEnv (fun _ _ => true) (fun _ _ => 0).
Definition ex_crc : Z -> list Z -> Z := fun _ _ => 1.
Definition ex_zeros : device := const 0.
Definition ex_local (io_size grain seg : Z) : local := mkLocal io_size grain seg (MD_new grain 1 false).

(** A start with grains of 512 bytes and pages of 4096. *)
Notation ex_start io_size seg over streams ae :=
  (init_salsa ex_crc 4096 io_size ex_zeros ex_start_env false over 14 2 4 30 (const 0) (const ae) 7 streams (ex_local io_size 512 seg))
  (only parsing).

Lemma ex_pre io_size seg : 0 <= io_size < 2 ^ 62 -> 0 < seg < 2 ^ 32 -> start_pre ex_crc io_size ex_zeros 14 2 4 (ex_local io_size 512 seg).
Proof.
  intros Hio Hs. split; try done.
  - intros n m d. unfold validate_dev_md. destruct (negb _); [done|]. unfold dev_read. by cbn.
  - split; [unfold sane_sizes; cbn; lia|done|done].
Qed.

(** The parts of the result of a start. *)
Definition start_result : Type := option (Z * bool * local * option Scm * SalsaCtlr).
Definition result_local (r : start_result) : local := match r with Some (_, _, l, _, _) => l | None => ex_local 0 0 0 end.
Definition result_scm (r : start_result) : Scm := match r with Some (_, _, _, Some m, _) => m | _ => Scm_new end.
Definition result_ctlr (r : start_result) : SalsaCtlr := match r with Some (_, _, _, _, sc) => sc | None => SalsaCtlr_new end.
Definition result_rc (r : start_result) : option Z := match r with Some (rc, _, _, _, _) => Some rc | None => None end.
Definition fresh_start (r : start_result) : bool :=
  match r with Some (rc, restored, _, Some _, _) => (rc =? 0) && negb restored | _ => false end.

Lemma fresh_start_parts r : fresh_start r = true -> r = Some (0, false, result_local r, Some (result_scm r), result_ctlr r).
Proof. destruct r as [[[[[rc []] l] [m|]] sc]|]; cbn; try done; rewrite ?andb_false_r; [done|]. rewrite andb_true_r. by intros ->%Z.eqb_eq. Qed.

Notation ex_result := (ex_start 102912 8 500 3 ex_alltr_env) (only parsing).

Lemma store_start_terminates_witness : exists rc restored l' m sc, ex_result = Some (rc, restored, l', m, sc).
Proof.
  apply store_start_terminates; [apply ex_pre; lia|cbn; lia|lia|lia|]. intros k [i [?|?]]; done.
Defined.

Lemma store_start_running_witness :
  exists o gc, scm_ (result_scm ex_result) = Some o /\ so_gc o = GcBins gc /\
    running (so_conf o) gc (so_ctl_data o) (ctlr_conf_of (result_scm ex_result) (result_ctlr ex_result)) [] (so_state o).
Proof.
  assert (forall r, ex_result = r -> fresh_start r = true -> exists o gc, scm_ (result_scm r) = Some o /\ so_gc o = GcBins gc /\
            running (so_conf o) gc (so_ctl_data o) (ctlr_conf_of (result_scm r) (result_ctlr r)) [] (so_state o)) as H.
  { intros r Hr Hf. pose proof (fresh_start_parts r Hf) as E.
    destruct (store_start_running ex_crc 4096 102912 ex_zeros ex_start_env false 500 14 2 4 30 (const 0) (const ex_alltr_env) 7 3
                (ex_local 102912 512 8) false (result_local r) (result_scm r) (result_ctlr r) GC_NBIN_XNP_OVRW_HEAT_SEG)
      as (o & gc & Ho & Hgc & Hrun & _); [apply ex_pre; lia|cbn; lia|lia|lia|lia|reflexivity|rewrite Hr; exact E|].
    exact (ex_intro _ o (ex_intro _ gc (conj Ho (conj Hgc Hrun)))). }
  apply (H _ eq_refl). vm_compute. reflexivity.
Defined.

Definition ex_rel_fails : alltr_env := mkAlltrEnv (fun _ _ => true) (fun rel _ => if rel : bool then EAGAIN else 0).

(** A manager of 25 segments of 8 grains. *)
Definition ex_scm : Scm :=
  match Scm_init ex_start_env (strtok (command_line 102400 512 8 14 2 4)) 500 with Some (_, m) => m | None => Scm_new end.

Lemma relocation_failure_crashes_witness :
  SalsaCtlr_init ex_rel_fails ex_scm 7 1 3 1 SCM_PROP_SET_ALL SalsaCtlr_new = None.
Proof.
  assert (forall x : option (RegistrationInfo * Scm), match x with Some (ri, m1) => (ri_err ri =? 0) && match scm_ m1 with Some o => 1 <=? seg_size (so_conf o) | None => false end | None => false end = true ->
            exists ri m1 o, x = Some (ri, m1) /\ ri_err ri = 0 /\ scm_ m1 = Some o /\ 1 <= seg_size (so_conf o)) as H.
  { intros [[ri m1]|]; [|done]. intros [Hri Hm]%andb_true_iff. apply Z.eqb_eq in Hri. destruct (scm_ m1) as [o|] eqn:Eo; [|done].
    apply Z.leb_le in Hm. by exists ri, m1, o. }
  destruct (H (register_ctlr ex_scm 7 SCM_PROP_SET_ALL (u32 (init_stream_nr 3 + init_rel_stream_nr 1)))) as (ri & m1 & o & E & Hri & Ho & Hs).
  { vm_compute. reflexivity. }
  apply (relocation_failure_crashes ex_rel_fails ex_scm 7 1 3 SalsaCtlr_new ri m1 o E Hri Ho Hs); [intros i; split; reflexivity|right; discriminate|reflexivity].
Defined.

(** The search for a segment size gives up on a device that has room: of two starting
    sizes, 40 grains find none and 48 find 24. *)
Example search_misses :
  result_rc (ex_start 262144 40 300 1 ex_alltr_env) = Some EINVAL /\
  result_rc (ex_start 262144 48 300 1 ex_alltr_env) = Some 0 /\
  lo_segment (result_local (ex_start 262144 48 300 1 ex_alltr_env)) = 24.
Proof. vm_compute. split_and!; reflexivity. Qed.
