(* ===== verification/McParse.v ===== *)
(** * McParse: the memcache request parser
      (uDepot/net/mc-helpers.hh, uDepot/net/mc-helpers.cc)

    The text of a request line up to the command it asks for: the search for the
    line's end in the receive buffer, the tokens, the numbers and the commands with
    their arguments. *)
From Stdlib Require Import ZArith Lia Ascii String.
From stdpp Require Import base tactics list numbers.
From S2P Require Import Prelude Util Mbuff CString.

Open Scope Z_scope.

Definition crlf : list Z := [13; 10].

(** ** Data *)

Inductive mc_req_type :=
  | REQ_INVAL | REQ_GET | REQ_GETS | REQ_SET | REQ_ADD | REQ_REPLACE | REQ_APPEND | REQ_PREPEND
  | REQ_CAS | REQ_INCR | REQ_DECR | REQ_DEL | REQ_TOUCH | REQ_FLUSH_ALL | REQ_QUIT | REQ_WATCH
  | REQ_LRU_CRAWLER | REQ_CACHE_MEMLIMIT | REQ_VERBOSITY | REQ_SLABS | REQ_STATS | REQ_VERSION
  | REQ_NOT_IMPLEMENTED | REQ_LAST.

Inductive mc_rsp_type :=
  | RSP_INVAL | RSP_KEY_VALUE | RSP_STORED | RSP_NOT_STORED | RSP_EXISTS | RSP_NOT_FOUND | RSP_TOUCHED
  | RSP_DELETED | RSP_VERSION | RSP_CONNECTION_CLOSE | RSP_ERROR | RSP_CLIENT_ERROR_FORMAT
  | RSP_CLIENT_ERROR_NON_NUMERIC | RSP_CLIENT_ERROR_BAD_DATA_CHUNK | RSP_CLIENT_ERROR_BOUND
  | RSP_SERVER_ERROR | RSP_SERVER_ERROR_UNSUPPORTED_MULTIGET | RSP_LAST.

#[global] Instance mc_req_type_eq_dec : EqDecision mc_req_type.
Proof. solve_decision. Defined.
#[global] Instance mc_rsp_type_eq_dec : EqDecision mc_rsp_type.
Proof. solve_decision. Defined.

(** The receive buffer: the [rb_] bytes received, the [ab_] bytes allocated and the
    offset of [pos_]. *)
Record msg_buff := mkMsgBuff { bf_rcv : list Z; bf_ab : Z; bf_pos : nat }.

Definition bf_rb (b : msg_buff) : Z := Z.of_nat (length (bf_rcv b)).

Definition msg_buff_new : msg_buff := mkMsgBuff [] 0 0.
Definition msg_buff_reset (b : msg_buff) : msg_buff := mkMsgBuff [] (bf_ab b) 0.

(** [ok] is the answer of [realloc]. *)
Definition add_free_size (ok : bool) (new_free : Z) (b : msg_buff) : Z * msg_buff :=
  if new_free <=? u32 (bf_ab b - bf_rb b) then (0, b)
  else if negb ok then (ENOMEM, b)
  else (0, mkMsgBuff (bf_rcv b) (u32 (bf_ab b + new_free)) (bf_pos b)).

(** A request.  [c_tokens] are the tokens in front of the last one, which has
    length 0 and whose value is [c_rest]; a token's string is the token itself, as
    the byte behind it was set to 0. *)
Record cmd := mkCmd {
  c_req : mc_req_type;
  c_rsp : mc_rsp_type;
  c_flags : Z;      (** u32 *)
  c_vlen : Z;       (** s32 *)
  c_expiry : Z;     (** s64 *)
  c_num : Z;        (** u64 *)
  c_err : Z;
  c_noreply : bool;
  c_tokens : list (list Z);
  c_rest : option (list Z)
}.

Definition cmd_new : cmd := mkCmd REQ_INVAL RSP_INVAL 0 0 0 0 (-1) false [] None.

Definition set_req (r : mc_req_type) (c : cmd) : cmd :=
  mkCmd r (c_rsp c) (c_flags c) (c_vlen c) (c_expiry c) (c_num c) (c_err c) (c_noreply c) (c_tokens c) (c_rest c).
Definition set_rsp (r : mc_rsp_type) (c : cmd) : cmd :=
  mkCmd (c_req c) r (c_flags c) (c_vlen c) (c_expiry c) (c_num c) (c_err c) (c_noreply c) (c_tokens c) (c_rest c).
Definition set_flags (z : Z) (c : cmd) : cmd :=
  mkCmd (c_req c) (c_rsp c) z (c_vlen c) (c_expiry c) (c_num c) (c_err c) (c_noreply c) (c_tokens c) (c_rest c).
Definition set_vlen (z : Z) (c : cmd) : cmd :=
  mkCmd (c_req c) (c_rsp c) (c_flags c) z (c_expiry c) (c_num c) (c_err c) (c_noreply c) (c_tokens c) (c_rest c).
Definition set_expiry (z : Z) (c : cmd) : cmd :=
  mkCmd (c_req c) (c_rsp c) (c_flags c) (c_vlen c) z (c_num c) (c_err c) (c_noreply c) (c_tokens c) (c_rest c).
Definition set_num (z : Z) (c : cmd) : cmd :=
  mkCmd (c_req c) (c_rsp c) (c_flags c) (c_vlen c) (c_expiry c) z (c_err c) (c_noreply c) (c_tokens c) (c_rest c).
Definition set_err (z : Z) (c : cmd) : cmd :=
  mkCmd (c_req c) (c_rsp c) (c_flags c) (c_vlen c) (c_expiry c) (c_num c) z (c_noreply c) (c_tokens c) (c_rest c).
Definition set_noreply (b : bool) (c : cmd) : cmd :=
  mkCmd (c_req c) (c_rsp c) (c_flags c) (c_vlen c) (c_expiry c) (c_num c) (c_err c) b (c_tokens c) (c_rest c).
Definition set_tokens (l : list (list Z)) (rest : option (list Z)) (c : cmd) : cmd :=
  mkCmd (c_req c) (c_rsp c) (c_flags c) (c_vlen c) (c_expiry c) (c_num c) (c_err c) (c_noreply c) l rest.

Definition MAX_TOKENS : nat := 512.
Definition max_key_length : nat := 250.
Definition read_cmd_chunk : Z := 1048576.
Definition REALTIME_MAXDELTA : Z := 60 * 60 * 24 * 30.

Definition c_ntokens (c : cmd) : nat := S (length (c_tokens c)).
Definition COMMAND_TOKEN : nat := 0.
Definition KEY_TOKEN : nat := 1.

(** A token in front of the last one. *)
Definition c_token (c : cmd) (i : nat) : list Z := c_tokens c !!! i.

(** ** Numbers *)

(** The number at the start of [s] as the [strto] functions read it with base 10:
    the sign, the digits' value and the text at [endptr]. *)
Definition strto (s : list Z) : option (bool * Z * list Z) :=
  let s1 := skip_spaces s in
  let '(neg, s2) :=
    match s1 with
    | c :: r => if c =? 45 then (true, r) else if c =? 43 then (false, r) else (false, s1)
    | [] => (false, [])
    end in
  match s2 with
  | c :: _ => if isdigit c then let '(m, r) := scan_digits s2 0 in Some (neg, m, r) else None
  | [] => None
  end.

(** [isspace( *endptr) || *endptr == 0] *)
Definition number_ends (r : list Z) : bool := match r with [] => true | c :: _ => isspace c end.

(** Whether the number was accepted, and [*out]. *)
Definition safe_strtoull (str : list Z) : bool * Z :=
  match strto str with
  | None => (false, 0)
  | Some (neg, m, r) =>
      if 2 ^ 64 <=? m then (false, 0)
      else
        let ull := if neg : bool then u64 (- m) else m in
        if number_ends r then
          if (2 ^ 63 <=? ull) && bool_decide (45 ∈ str) then (false, 0) else (true, ull)
        else (false, 0)
  end.

(** [unsigned long] has 64 bits; [*out] 32. *)
Definition safe_strtoul (str : list Z) : bool * Z :=
  let '(ok, l) := safe_strtoull str in (ok, u32 l).

Definition safe_strtol (str : list Z) : bool * Z :=
  match strto str with
  | None => (false, 0)
  | Some (neg, m, r) =>
      let l := if neg : bool then - m else m in
      if (l <? - 2 ^ 63) || (2 ^ 63 <=? l) then (false, 0)
      else if number_ends r then (true, l) else (false, 0)
  end.

(** [%d] *)
Definition dec_int (n : Z) : list Z := if n <? 0 then 45 :: dec (- n) else dec n.

(** ** Tokens *)

(** [cur] is the text between [s] and [e], [rest] the text from [e] on.  The
    result is the tokens with the value of the last one. *)
Fixpoint tokenize (max_tokens : nat) (rest cur : list Z) (tokens : list (list Z)) :
    list (list Z) * option (list Z) :=
  match rest with
  | [] => (if bool_decide (cur = []) then tokens else tokens ++ [cur], None)
  | c :: rest' =>
      if c =? 32 then
        if bool_decide (cur = []) then tokenize max_tokens rest' [] tokens
        else
          let tokens' := tokens ++ [cur] in
          if (length tokens' =? max_tokens - 1)%nat
          then (tokens', match rest' with [] => None | _ => Some rest' end)
          else tokenize max_tokens rest' [] tokens'
      else tokenize max_tokens rest' (cur ++ [c]) tokens
  end.

(** The string at the start of a buffer. *)
Fixpoint c_string (b : list Z) : list Z :=
  match b with
  | [] => []
  | c :: b' => if c =? 0 then [] else c :: c_string b'
  end.

Definition tokenize_command (command : list Z) (max_tokens : nat) : list (list Z) * option (list Z) :=
  tokenize max_tokens (c_string command) [] [].

(** ** The end of the line *)

(** [memchr(b, c, n)] over all of [b]. *)
Fixpoint memchr (b : list Z) (c : Z) : option nat :=
  match b with
  | [] => None
  | x :: b' => if x =? c then Some O else S <$> memchr b' c
  end.

Fixpoint leading_spaces (b : list Z) : nat :=
  match b with
  | c :: b' => if c =? 32 then S (leading_spaces b') else O
  | [] => O
  end.

(** [strncmp(b, s, strlen(s)) == 0] *)
Definition has_prefix (b s : list Z) : bool := bytes_eqb (take (length s) b) s.

(** The buffer is read from its start on, where [pos_] is. *)
Definition try_parse_command (b : msg_buff) (c : cmd) : Z * msg_buff * cmd :=
  match memchr (bf_rcv b) 10 with
  | None =>
      let ptr := leading_spaces (bf_rcv b) in
      if (1024 <? bf_rb b) &&
         ((100 <? ptr)%nat ||
          (negb (has_prefix (drop ptr (bf_rcv b)) (cstr "get ")) &&
           negb (has_prefix (drop ptr (bf_rcv b)) (cstr "gets "))))
      then (EINVAL, b, set_req REQ_INVAL c)
      else (EAGAIN, b, c)
  | Some el =>
      let el' := if (1 <? el)%nat && bool_decide (bf_rcv b !! (el - 1)%nat = Some 13) then (el - 1)%nat else el in
      (0, mkMsgBuff (<[el' := 0]> (bf_rcv b)) (bf_ab b) (S el), c)
  end.

(** ** The arguments *)

Definition sanitize_exp_time (cur_time : Z) (c : cmd) : cmd :=
  if c_expiry c <? 0 then set_expiry (if cur_time =? 0 then 1 else cur_time - 1) c
  else if negb (c_expiry c =? 0) && (c_expiry c <=? REALTIME_MAXDELTA)
  then set_expiry (c_expiry c + cur_time) c
  else c.

(** [0 == strncmp(tok.value, "noreply", tok.length)] *)
Definition is_noreply (tok : list Z) : bool := has_prefix (cstr "noreply") tok.

Definition check_noreply (c : cmd) : cmd :=
  if is_noreply (c_token c (c_ntokens c - 2)) then set_noreply true c else c.

Definition parse_arithmetic_arguments (c : cmd) : cmd :=
  let c := check_noreply (set_rsp RSP_CLIENT_ERROR_FORMAT c) in
  if (max_key_length <? length (c_token c KEY_TOKEN))%nat then set_req REQ_INVAL c
  else
    let '(ok, delta) := safe_strtoull (c_token c 2) in
    if negb ok then set_req REQ_INVAL c else set_rsp RSP_INVAL (set_num delta c).

(** [cur_time] is the answer of the clock. *)
Definition parse_storage_arguments (cur_time : Z) (c : cmd) : cmd :=
  let c := check_noreply (set_rsp RSP_CLIENT_ERROR_FORMAT c) in
  if (max_key_length <? length (c_token c KEY_TOKEN))%nat then set_req REQ_INVAL c
  else
    let '(ok1, flags) := safe_strtoul (c_token c 2) in
    let c := set_flags flags c in
    if negb ok1 then set_req REQ_INVAL c
    else
      let '(ok2, expiry) := safe_strtol (c_token c 3) in
      let c := set_expiry expiry c in
      if negb ok2 then set_req REQ_INVAL c
      else
        let '(ok3, vlen) := safe_strtol (c_token c 4) in
        if negb ok3 then set_req REQ_INVAL c
        else
          let c := if c_expiry c =? 0 then c else sanitize_exp_time cur_time c in
          let c := set_vlen (s32 vlen) c in
          if (c_vlen c <? 0) || (2 ^ 31 - 1 - 2 <? c_vlen c) then set_req REQ_INVAL c
          else set_rsp RSP_INVAL c.

(** ** The command *)

Definition between (lo hi n : nat) : bool := (lo <=? n)%nat && (n <=? hi)%nat.

(** [strcmp(tokens[COMMAND_TOKEN].value, s) == 0] *)
Definition cmd_is (c : cmd) (s : string) : bool := bytes_eqb (c_token c COMMAND_TOKEN) (cstr s).

Definition parse (cur_time : Z) (b : msg_buff) (c : cmd) : cmd :=
  let '(tokens, rest) := tokenize_command (bf_rcv b) MAX_TOKENS in
  let c := set_tokens tokens rest c in
  let n := c_ntokens c in
  if (3 <=? n)%nat && (cmd_is c "get" || cmd_is c "gets" || cmd_is c "bget") then
    set_req (if cmd_is c "gets" then REQ_GETS else REQ_GET) c
  else if between 6 7 n && (cmd_is c "add" || cmd_is c "set" || cmd_is c "replace" ||
                            cmd_is c "prepend" || cmd_is c "append") then
    parse_storage_arguments cur_time (set_req
      (if cmd_is c "add" then REQ_ADD else if cmd_is c "set" then REQ_SET
       else if cmd_is c "replace" then REQ_REPLACE else if cmd_is c "prepend" then REQ_PREPEND
       else REQ_APPEND) c)
  else if between 7 8 n && cmd_is c "cas" then set_req REQ_CAS c
  else if between 4 5 n && (cmd_is c "incr" || cmd_is c "decr") then
    parse_arithmetic_arguments (set_req (if cmd_is c "incr" then REQ_INCR else REQ_DECR) c)
  else if between 3 5 n && cmd_is c "delete" then set_req REQ_DEL c
  else if between 4 5 n && cmd_is c "touch" then set_req REQ_TOUCH c
  else if (2 <=? n)%nat && cmd_is c "stats" then set_req REQ_STATS c
  else if between 2 4 n && cmd_is c "flush_all" then set_req REQ_FLUSH_ALL c
  else if (n =? 2)%nat && cmd_is c "version" then set_req REQ_VERSION c
  else if (n =? 2)%nat && cmd_is c "quit" then set_req REQ_QUIT c
  else if (n =? 2)%nat && cmd_is c "shutdown" then set_req REQ_QUIT c
  else if (1 <? n)%nat && cmd_is c "slabs" then set_req REQ_SLABS c
  else if (1 <? n)%nat && cmd_is c "lru_crawler" then set_req REQ_LRU_CRAWLER c
  else if (1 <? n)%nat && cmd_is c "watch" then set_req REQ_WATCH c
  else if between 3 4 n && cmd_is c "cache_memlimit" then set_req REQ_CACHE_MEMLIMIT c
  else if between 3 4 n && cmd_is c "verbosity" then set_req REQ_VERBOSITY c
  else set_rsp RSP_ERROR (set_req REQ_INVAL c).
