(* ===== verification/McServer.v ===== *)
(** * McServer: the memcache server
      (uDepot/net/mc-helpers.cc, uDepot/net/connection.cc, uDepot/net/memcache.cc)

    What a connection's thread does with the requests it reads: the socket, the
    store's calls and the replies. *)
From Stdlib Require Import ZArith Lia String.
From stdpp Require Import base tactics list numbers.
From S2P Require Import Prelude Util Mbuff StoreFormat KvStore StateM CString McParse.

Open Scope Z_scope.

Definition EINTR : Z := 4.
Definition ECONNRESET : Z := 104.

(** ** The connection *)

(** What the client will still send, what was sent to it, [errno] and the number
    of answers asked for. *)
Record con := mkCon { cn_in : list Z; cn_out : list Z; cn_errno : Z; cn_tick : nat }.

Record mc_env := mkMcEnv {
  me_kv : kv_env;
  me_recv : nat -> Z;        (** bytes delivered at most, or -errno *)
  me_send : nat -> Z;        (** bytes taken at most, or -errno *)
  me_time : nat -> Z;        (** [time(nullptr)] *)
  me_realloc : nat -> bool;
  me_mbuff : nat -> bool;    (** an Mbuff can be allocated *)
  me_recv_err : nat -> Z     (** what the variable [recv_err] holds before it is set *)
}.

Section Con.
Context (env : mc_env).

Definition recv (n : nat) (c : con) : (Z * list Z) * con :=
  let r := me_recv env (cn_tick c) in
  if r <? 0 then ((-1, []), mkCon (cn_in c) (cn_out c) (- r) (S (cn_tick c)))
  else
    let bs := take (Nat.min (Z.to_nat r) n) (cn_in c) in
    ((Z.of_nat (length bs), bs), mkCon (drop (length bs) (cn_in c)) (cn_out c) (cn_errno c) (S (cn_tick c))).

Definition send (bs : list Z) (c : con) : Z * con :=
  let r := me_send env (cn_tick c) in
  if r <? 0 then (-1, mkCon (cn_in c) (cn_out c) (- r) (S (cn_tick c)))
  else
    let sent := take (Z.to_nat r) bs in
    (Z.of_nat (length sent), mkCon (cn_in c) (cn_out c ++ sent) (cn_errno c) (S (cn_tick c))).

(** [n] bytes are left to be read, as many rounds are enough. *)
Fixpoint recv_full (fuel n : nat) (data : list Z) (c : con) : (Z * list Z) * con :=
  match fuel, n with
  | S fuel', S _ =>
      let '((ret, bs), c') := recv n c in
      if ret <? 0 then ((-1, data), c')
      else if ret =? 0 then ((-1, data), mkCon (cn_in c') (cn_out c') ECONNRESET (cn_tick c'))
      else recv_full fuel' (n - length bs) (data ++ bs) c'
  | _, _ => ((0, data), c)
  end.

(** The closure of [recv_append_to_mbuff]; the state is [remaining], [recv_err]
    and the connection. *)
Definition recv_fn : chunk_fn (nat * Z * con) := fun '(remaining, recv_err, c) b =>
  let recv_len := Nat.min remaining (length b) in
  if (recv_len =? 0)%nat then ((remaining, recv_err, c), b, 0%nat)
  else
    let '((err, bs), c') := recv_full recv_len recv_len [] c in
    ((remaining - length bs, err, c')%nat, write_at b 0 bs, length bs).

Definition recv_append_to_mbuff (mb : mbuff) (size : Z) (c : con) : option (Z * mbuff * con) :=
  if Z.of_nat (append_avail_size mb) <? size then Some (ENOSPC, mb, c)
  else
    let recv_err := me_recv_err env (cn_tick c) in
    '((_, recv_err, c'), mb') ← append recv_fn (Z.to_nat size, recv_err, c) mb;
    Some (if recv_err =? 0 then 0 else cn_errno c', mb', c').

(** The pieces left after [ret] bytes. *)
Fixpoint iov_advance (iov : list (list Z)) (ret : nat) : list (list Z) :=
  match iov with
  | [] => []
  | b :: iov' =>
      if (ret =? 0)%nat then iov
      else if (length b <=? ret)%nat then iov_advance iov' (ret - length b) else drop ret b :: iov'
  end.

(** [sendmsg] is asked again until all pieces are gone. *)
Fixpoint sendv_full (fuel : nat) (iov : list (list Z)) (send_bytes : Z) (c : con) : option (Z * con) :=
  match iov with
  | [] => Some (send_bytes, c)
  | _ =>
      match fuel with
      | O => None
      | S fuel' =>
          let '(ret, c') := send (concat iov) c in
          if ret <? 0 then Some (ret, c')
          else sendv_full fuel' (iov_advance iov (Z.to_nat ret)) (send_bytes + ret) c'
      end
  end.

End Con.

(** ** The server's state: the store, the connection and the cache of Mbuffs *)

Record mcs := mkMcs { ms_kv : kv; ms_con : con; ms_mbs : list mbuff }.

Definition mcm (A : Type) : Type := stm mcs A.

Definition on_kv {A} (m : kvm A) : mcm A := fun s =>
  '(a, k) ← m (ms_kv s); Some (a, mkMcs k (ms_con s) (ms_mbs s)).

Definition on_con {A} (f : con -> option (A * con)) : mcm A := fun s =>
  '(a, c) ← f (ms_con s); Some (a, mkMcs (ms_kv s) c (ms_mbs s)).

(** The next answer of the environment, one per call. *)
Definition con_ask {A} (f : nat -> A) : mcm A :=
  on_con (fun c => Some (f (cn_tick c), mkCon (cn_in c) (cn_out c) (cn_errno c) (S (cn_tick c)))).

(** [read_val<char>]: aborts outside the valid bytes. *)
Definition read_val_char (mb : mbuff) (off : nat) : option Z :=
  match iterate_valid_init mb off 1 with
  | Some (err, Some it) => if err =? 0 then head (i_chunk_ it) else None
  | _ => None
  end.

(** [get_valid_nchunks]: an error code below 0 or 0 with the number of chunks. *)
Fixpoint nchunks_loop (fuel len : nat) (it : option iterator) : nat :=
  match fuel, len, it with
  | S k, S _, Some it => S (nchunks_loop k (len - length (i_chunk_ it)) (iter_next it))
  | _, _, _ => 0
  end.

Definition get_valid_nchunks (mb : mbuff) (mbuff_off len : nat) : option (Z * nat) :=
  '(err, it) ← iterate_valid_init mb mbuff_off len;
  Some (if negb (err =? 0) then (- err, 0%nat)
        else (0, nchunks_loop (match it with Some i => length (i_nodes i) | None => 0 end) len it)).

Definition sizeof_flags : nat := 4.
Definition sizeof_expiry : nat := 8.
Definition end_get_rsp_msg : list Z := cstr "END" ++ crlf.

Section Server.
(** [fuel] bounds the retry loops of the store, [rounds] those of the connection. *)
Context (env : mc_env) (fuel rounds : nat).

Local Abbreviation kenv := (me_kv env).

(** ** Replies *)

(** The text of a response and what it does to [err_]: [None] leaves it. *)
Definition rsp_str (r : mc_rsp_type) : list Z * option Z :=
  match r with
  | RSP_STORED => (cstr "STORED" ++ crlf, None)
  | RSP_NOT_STORED => (cstr "NOT_STORED" ++ crlf, None)
  | RSP_NOT_FOUND => (cstr "NOT_FOUND" ++ crlf, None)
  | RSP_ERROR => (cstr "ERROR" ++ crlf, Some 0)
  | RSP_CLIENT_ERROR_FORMAT => (cstr "CLIENT_ERROR bad command line format" ++ crlf, Some 0)
  | RSP_CLIENT_ERROR_NON_NUMERIC =>
      (cstr "CLIENT_ERROR cannot increment or decrement non-numeric value" ++ crlf, Some 0)
  | RSP_CLIENT_ERROR_BOUND | RSP_CLIENT_ERROR_BAD_DATA_CHUNK => (cstr "CLIENT_ERROR bad data chunk" ++ crlf, Some 0)
  | RSP_EXISTS | RSP_TOUCHED | RSP_DELETED | RSP_VERSION | RSP_CONNECTION_CLOSE =>
      (cstr "SERVER_ERROR command not supported " ++ crlf, Some ECONNRESET)
  | RSP_KEY_VALUE | RSP_LAST | RSP_SERVER_ERROR => (cstr "SERVER_ERROR" ++ crlf, Some ECONNRESET)
  | RSP_SERVER_ERROR_UNSUPPORTED_MULTIGET =>
      (cstr "SERVER_ERROR multiget not yet supported" ++ crlf, Some ECONNRESET)
  | RSP_INVAL => (cstr "SERVER_ERROR un-handled cmd" ++ crlf, Some ECONNRESET)
  end.

Definition handle_rsp (c : cmd) : mcm cmd :=
  let '(rspstr, err) := rsp_str (c_rsp c) in
  let c := match err with Some e => set_err e c | None => c end in
  n ← on_con (fun k => Some (send env rspstr k));
  mret (if n =? Z.of_nat (length rspstr) then c else set_err ECONNRESET c).

(** ** Get *)

Definition fixed_cmd_size : nat := 5 + sizeof_flags + 4 + 8 + 2 + 6.

Definition prepare_kvmbuff_for_get (key : list Z) (key_mbuff val_mbuff : mbuff) : mcm (Z * mbuff * mbuff) :=
  let need := (length key + fixed_cmd_size)%nat in
  kmb ← lifto (reslice_ key_mbuff 0 0);
  kmb ← on_kv (mbuff_add_buffers kenv kmb need);
  if (get_free_size kmb <? need)%nat then mret (ENOMEM, kmb, val_mbuff)
  else
    kmb ← lifto (append_uninitialized kmb 6);
    '(_, kmb) ← lifto (append_from_buffer kmb key);
    kmb ← lifto (reslice_ kmb (length key) 6);
    vmb ← lifto (reslice_ val_mbuff 0 0);
    mret (0, kmb, vmb).

(** [len] bytes at [off] bytes from the end: nothing is copied if they are more. *)
Definition copy_from_end (mb : mbuff) (off len : nat) : option (list Z) :=
  if (get_valid_size mb <? off)%nat then Some [] else copy_to_buffer mb (get_valid_size mb - off) len.

Definition kv_get_for_mc (c : cmd) (key_mbuff val_mbuff : mbuff) : mcm (Z * cmd * mbuff) :=
  '(rc, vmb) ← on_kv (get kenv fuel key_mbuff val_mbuff);
  if rc =? 0 then
    copied ← lifto (copy_from_end vmb (sizeof_flags + sizeof_expiry) sizeof_expiry);
    if negb (length copied =? sizeof_expiry)%nat then mret (ENODATA, c, vmb)
    else
      let c := set_expiry (s64 (le_val copied)) c in
      if c_expiry c =? 0 then mret (0, c, vmb)
      else
        cur_time ← con_ask (me_time env);
        mret (if c_expiry c <? cur_time then ENODATA else 0, c, vmb)
  else mret (rc, c, vmb).

Definition prepare_kvmbuff_for_send (c : cmd) (key_mbuff val_mbuff : mbuff) : mcm (Z * cmd * mbuff * mbuff) :=
  '(_, kmb) ← lifto (prepend_from_buffer key_mbuff (cstr "VALUE "));
  copied ← lifto (copy_from_end val_mbuff sizeof_flags sizeof_flags);
  let c := set_flags (le_val copied) c in
  let vlen := Z.of_nat (get_valid_size val_mbuff) - 12 in
  let mid_msg := cstr " " ++ dec (c_flags c) ++ cstr " " ++ dec_int (s32 vlen) ++ cstr " " ++ crlf in
  if (length mid_msg <? 7)%nat || (31 <? length mid_msg)%nat then mret (EINVAL, c, kmb, val_mbuff)
  else
    '(_, kmb) ← lifto (append_from_buffer kmb mid_msg);
    vmb ← on_kv (mbuff_add_buffers kenv val_mbuff (length crlf));
    vmb ← lifto (reslice_ vmb (get_valid_size vmb - (sizeof_flags + sizeof_expiry)) 0);
    '(_, vmb) ← lifto (append_from_buffer vmb crlf);
    mret (0, c, kmb, vmb).

(** The error code, the chunks and bytes of the two Mbuffs. *)
Definition handle_single_kv_get (c : cmd) (key : list Z) (keymb valmb : mbuff) :
    mcm (Z * nat * nat * cmd * mbuff * mbuff) :=
  '(rc, kmb, vmb) ← prepare_kvmbuff_for_get key keymb valmb;
  if negb (rc =? 0) then mret (rc, 0%nat, 0%nat, c, kmb, vmb)
  else
    '(rc, c, vmb) ← kv_get_for_mc c kmb vmb;
    if negb (rc =? 0) then mret (rc, 0%nat, 0%nat, c, kmb, vmb)
    else
      '(rc, c, kmb, vmb) ← prepare_kvmbuff_for_send c kmb vmb;
      if negb (rc =? 0) then mret (rc, 0%nat, 0%nat, c, kmb, vmb)
      else
        let lenkb := get_valid_size kmb in
        let lenvb := get_valid_size vmb in
        '(rc, lenk) ← lifto (get_valid_nchunks kmb 0 lenkb);
        if negb (rc =? 0) then mret (rc, lenk, (lenkb + lenvb)%nat, c, kmb, vmb)
        else
          '(rc, lenv) ← lifto (get_valid_nchunks vmb 0 lenvb);
          mret (rc, (lenk + lenv)%nat, (lenkb + lenvb)%nat, c, kmb, vmb).

(** [fill_iovec_valid] of a whole Mbuff into [iov_len] entries, with the test of
    its result. *)
Definition fill_iov (mb : mbuff) (iov_len : nat) : option (option (list (list Z))) :=
  r ← fill_iovec_valid mb 0 (get_valid_size mb) iov_len;
  Some match r with
  | inl _ => None
  | inr chunks =>
      if (length chunks =? 0)%nat || (iov_len <? length chunks)%nat ||
         negb (get_valid_size mb =? length (concat chunks))%nat
      then None else Some chunks
  end.

(** Sending [END] alone. *)
Definition send_end (c : cmd) (ok : cmd -> cmd) : mcm cmd :=
  n ← on_con (fun k => Some (send env end_get_rsp_msg k));
  if n =? Z.of_nat (length end_get_rsp_msg) then mret (ok c)
  else handle_rsp (set_rsp RSP_SERVER_ERROR c).

(** The loop of [handle_multiget] over the keys.  [cur] is the pair of Mbuffs at
    index [keys_found], [found] the pairs in front of it, the last one first. *)
Fixpoint multiget_loop (keys : list (list Z)) (c : cmd) (cur : option mbuff * option mbuff)
    (found : list (mbuff * mbuff)) (tot_iov_len tot_iov_lenb : nat) :
    mcm (cmd * (option mbuff * option mbuff) * list (mbuff * mbuff) * nat * nat) :=
  match keys, cur with
  | key :: keys', (Some keymb, Some valmb) =>
      '(rc, len, lenb, c, kmb, vmb) ← handle_single_kv_get c key keymb valmb;
      if negb (rc =? 0) then multiget_loop keys' c (Some kmb, Some vmb) found tot_iov_len tot_iov_lenb
      else
        mbs ← reads ms_mbs;
        '(k1, mbs) ← on_kv (mb_get (me_mbuff env) mbs);
        '(v1, mbs) ← on_kv (mb_get (me_mbuff env) mbs);
        writes (fun s => mkMcs (ms_kv s) (ms_con s) mbs);;
        multiget_loop keys' c (k1, v1) ((kmb, vmb) :: found) (tot_iov_len + len) (tot_iov_lenb + lenb)
  | _, _ => mret (c, cur, found, tot_iov_len, tot_iov_lenb)
  end.

(** The pieces of the pairs [l] and the entries of the vector left; an error ends
    the loop. *)
Fixpoint fill_pairs (l : list (mbuff * mbuff)) (iov : list (list Z)) (iov_len : nat) :
    option (list (list Z) * nat) :=
  match l with
  | [] => Some (iov, iov_len)
  | (kmb, vmb) :: l' =>
      k ← fill_iov kmb iov_len;
      match k with
      | None => Some (iov, iov_len)
      | Some kc =>
          let iov_len := (iov_len - length kc)%nat in
          v ← fill_iov vmb iov_len;
          match v with
          | None => Some (iov ++ kc, iov_len)
          | Some vc => fill_pairs l' (iov ++ kc ++ vc) (iov_len - length vc)
          end
      end
  end.

Definition mb_put_opt (mb : option mbuff) : mcm unit :=
  match mb with
  | None => mret tt
  | Some mb =>
      mbs ← reads ms_mbs;
      mbs ← on_kv (mb_put mb mbs);
      writes (fun s => mkMcs (ms_kv s) (ms_con s) mbs)
  end.

Fixpoint put_pairs (l : list (option mbuff * option mbuff)) : mcm unit :=
  match l with
  | [] => mret tt
  | (kmb, vmb) :: l' => mb_put_opt kmb;; mb_put_opt vmb;; put_pairs l'
  end.

(** The keys are the tokens behind the command. *)
Definition handle_multiget (c : cmd) (val_mbuff_in key_mbuff_in : mbuff) : mcm (cmd * mbuff * mbuff) :=
  let keys := drop KEY_TOKEN (c_tokens c) in
  '(c, cur, found, tot_iov_len, tot_iov_lenb) ←
    multiget_loop keys (set_err ENOENT c) (Some key_mbuff_in, Some val_mbuff_in) [] 0 0;
  '(copied, cur, found) ←
    match found, cur with
    | (kmb, vmb) :: found', _ =>
        '(n, vmb) ← lifto (append_from_buffer vmb end_get_rsp_msg); mret (n, cur, (kmb, vmb) :: found')
    | [], (kmb, Some vmb) =>
        '(n, vmb) ← lifto (append_from_buffer vmb end_get_rsp_msg); mret (n, (kmb, Some vmb), [])
    | [], (_, None) => bug
    end;
  '(iov, iov_len) ← lifto (fill_pairs (rev found) [] tot_iov_len);
  iov_len ←
    (if (iov_len =? 0)%nat then
       n ← on_con (sendv_full env rounds (iov ++ replicate (tot_iov_len - length iov) []) 0);
       mret (if n =? Z.of_nat (tot_iov_lenb + copied) then 0%nat else 1%nat)
     else mret iov_len);
  let all := rev ((fun '(k, v) => (Some k, Some v)) <$> found) ++ [cur] in
  put_pairs (tail all);;
  let '(kmb, vmb) := match all with (Some k, Some v) :: _ => (k, v) | _ => (key_mbuff_in, val_mbuff_in) end in
  if (iov_len =? 0)%nat then mret (set_err 0 c, vmb, kmb)
  else c ← send_end c (set_err 0); mret (c, vmb, kmb).

Definition handle_get (c : cmd) (val_mbuff key_mbuff : mbuff) : mcm (cmd * mbuff * mbuff) :=
  if (3 <? c_ntokens c)%nat then handle_multiget c val_mbuff key_mbuff
  else
    '(rc, tot_iov_len, lenb, c, kmb, vmb) ← handle_single_kv_get c (c_token c KEY_TOKEN) key_mbuff val_mbuff;
    let not_found (vmb : mbuff) : mcm (cmd * mbuff * mbuff) := c ← send_end c id; mret (c, vmb, kmb) in
    if negb (rc =? 0) then not_found vmb
    else
      '(copied, vmb) ← lifto (append_from_buffer vmb end_get_rsp_msg);
      k ← lifto (fill_iov kmb tot_iov_len);
      match k with
      | None => not_found vmb
      | Some kc =>
          v ← lifto (fill_iov vmb (tot_iov_len - length kc));
          match v with
          | None => not_found vmb
          | Some vc =>
              n ← on_con (sendv_full env rounds ((kc ++ vc) ++ replicate (tot_iov_len - length (kc ++ vc)) []) 0);
              if n =? Z.of_nat (lenb + copied) then mret (set_err 0 c, vmb, kmb) else not_found vmb
          end
      end.

(** ** Set, add, replace, append and prepend *)

Definition store_op (r : mc_req_type) : put_op :=
  if decide (r = REQ_SET) then NORMAL else if decide (r = REQ_ADD) then CREATE else REPLACE.

(** The merge of an append or a prepend with the old value: whether it was stored,
    and the Mbuff. *)
Definition store_merged (c : cmd) (mbuff : mbuff) : mcm (bool * cmd * Mbuff.mbuff) :=
  let key := c_token c KEY_TOKEN in
  let meta := (sizeof_flags + sizeof_expiry)%nat in
  keymb ← on_kv (mbuff_add_buffers kenv mbuff_empty (length key));
  if (get_free_size keymb <? length key)%nat then mret (false, c, mbuff)
  else
    '(copied, keymb) ← lifto (append_from_buffer keymb key);
    if negb (length key =? copied)%nat then mret (false, c, mbuff)
    else
      '(rc, c, oldval) ← kv_get_for_mc c keymb mbuff_empty;
      if negb (rc =? 0) then mret (false, c, mbuff)
      else if decide (c_req c = REQ_PREPEND) then
        mb ← on_kv (mbuff_add_buffers kenv mbuff (get_valid_size oldval));
        if (get_free_size mb <? get_valid_size oldval)%nat then mret (false, c, mb)
        else
          '(copied, mb) ← lifto (append_from_mbuff mb oldval 0 (get_valid_size oldval));
          if negb (get_valid_size oldval =? copied)%nat then mret (false, c, mb)
          else
            '(rc, mb) ← on_kv (put kenv fuel mb (length key) NORMAL);
            mret (rc =? 0, c, mb)
      else
        oldval ← on_kv (mbuff_add_buffers kenv oldval (get_valid_size mbuff));
        if (get_free_size oldval <? get_valid_size mbuff)%nat then mret (false, c, mbuff)
        else
          mb ← lifto (reslice_ mbuff (Z.to_nat (c_vlen c)) (length key));
          '(_, mb) ← lifto (append_from_mbuff mb oldval (get_valid_size oldval - meta) meta);
          oldval ← lifto (reslice_ oldval (get_valid_size oldval - meta) 0);
          '(_, oldval) ← lifto (append_from_mbuff oldval mb 0 (get_valid_size mb));
          '(_, oldval) ← lifto (prepend_from_buffer oldval key);
          '(rc, _) ← on_kv (put kenv fuel oldval (length key) NORMAL);
          mret (rc =? 0, c, mb).

(** The switch of [handle_store] on the request, the value being in [mb]. *)
Definition store_dispatch (c : cmd) (mb : mbuff) : mcm (cmd * mbuff) :=
  let key := c_token c KEY_TOKEN in
  match c_req c with
  | REQ_ADD | REQ_REPLACE | REQ_SET =>
      let store_size := (putKeyvalPrefixSize + length key + Z.to_nat (c_vlen c) + sizeof_flags + sizeof_expiry +
                         putKeyvalSuffixSize)%nat in
      '(_, mb) ← lifto (append_from_buffer mb (le_bytes sizeof_expiry (c_expiry c)));
      '(_, mb) ← lifto (append_from_buffer mb (le_bytes sizeof_flags (c_flags c)));
      mb ← lifto (reslice_ mb store_size 0);
      '(err, mb) ← on_kv (put kenv fuel mb (length key) (store_op (c_req c)));
      mret (set_err 0 (set_rsp (if err =? 0 then RSP_STORED else RSP_NOT_STORED) c), mb)
  | REQ_APPEND | REQ_PREPEND =>
      '(stored, c, mb) ← store_merged c mb;
      mret (set_err 0 (if stored : bool then set_rsp RSP_STORED c else c), mb)
  | _ => mret (set_err 0 c, mb)
  end.

Definition handle_store (b : msg_buff) (c : cmd) (mbuff : mbuff) : mcm (cmd * Mbuff.mbuff) :=
  let key := c_token c KEY_TOKEN in
  let vlen := Z.to_nat (c_vlen c) in
  let msg_size := (vlen + length crlf)%nat in
  let prefix_size := putKeyvalPrefixSize in
  let store_size := (prefix_size + length key + vlen + sizeof_flags + sizeof_expiry + putKeyvalSuffixSize)%nat in
  let mbuff_size := Nat.max store_size msg_size in
  let c := set_rsp RSP_SERVER_ERROR c in
  mb ← lifto (reslice_ mbuff 0 0);
  mb ← on_kv (mbuff_add_buffers kenv mb mbuff_size);
  if (get_free_size mb <? mbuff_size)%nat then mret (set_err ENOMEM c, mb)
  else
    mb ← lifto (append_uninitialized mb prefix_size);
    '(_, mb) ← lifto (append_from_buffer mb key);
    let received := drop (bf_pos b) (bf_rcv b) in
    let remaining := length received in
    '(_, mb) ← (if (0 <? remaining)%nat then lifto (append_from_buffer mb received) else mret (0%nat, mb));
    '(err, mb) ← on_con (fun k =>
      '(err, mb, k') ← recv_append_to_mbuff env mb (u64 (Z.of_nat msg_size - Z.of_nat remaining)) k;
      Some ((err, mb), k'));
    if negb (err =? 0) then mret (set_err err c, mb)
    else
      cr ← lifto (read_val_char mb (prefix_size + length key + vlen));
      lf ← (if cr =? 13 then lifto (read_val_char mb (prefix_size + length key + vlen + 1)) else mret 0);
      if negb (cr =? 13) || negb (lf =? 10) then mret (set_rsp RSP_CLIENT_ERROR_BAD_DATA_CHUNK c, mb)
      else
        mb ← lifto (reslice_ mb (length key + vlen) prefix_size);
        store_dispatch c mb.

(** ** Incr and decr *)

(** What follows a successful get: [oldval] holds the old value.  [true] means
    that the reply is on its way. *)
Definition arithmetic_put (c : cmd) (mbuff oldval : mbuff) : mcm (bool * cmd * Mbuff.mbuff) :=
  let key := c_token c KEY_TOKEN in
  let meta := (sizeof_flags + sizeof_expiry)%nat in
  let val_size := (get_valid_size oldval - meta)%nat in
  msg ← lifto (copy_to_buffer oldval 0 (Nat.min 22 val_size));
  let '(ok, old) := safe_strtoull (c_string msg) in
  if (val_size <=? 2)%nat || (20 <? val_size)%nat || negb ok
  then mret (false, set_rsp RSP_CLIENT_ERROR_NON_NUMERIC c, mbuff)
  else
    let num := if decide (c_req c = REQ_INCR) then u64 (c_num c + old)
               else if old <? c_num c then 0 else old - c_num c in
    let c := set_num num c in
    let digits := dec num in
    mb ← lifto (reslice_ mbuff 0 0);
    mb ← lifto (append_uninitialized mb putKeyvalPrefixSize);
    '(_, mb) ← lifto (append_from_buffer mb key);
    '(_, mb) ← lifto (append_from_buffer mb digits);
    '(_, mb) ← lifto (append_from_mbuff mb oldval val_size meta);
    mb ← lifto (reslice_ mb (length key + length digits + meta) putKeyvalPrefixSize);
    '(rc, mb) ← on_kv (put kenv fuel mb (length key) NORMAL);
    if negb (rc =? 0) || c_noreply c then mret (false, c, mb)
    else
      n ← on_con (fun k => Some (send env (digits ++ crlf) k));
      mret (n =? Z.of_nat (length (digits ++ crlf)), c, mb).

Definition handle_arithmetic_cmd (c : cmd) (mbuff : mbuff) : mcm (cmd * Mbuff.mbuff) :=
  let key := c_token c KEY_TOKEN in
  let store_size := (putKeyvalPrefixSize + length key + 20 + sizeof_flags + sizeof_expiry + putKeyvalSuffixSize)%nat in
  let c := set_rsp RSP_SERVER_ERROR c in
  mb ← lifto (reslice_ mbuff 0 0);
  mb ← on_kv (mbuff_add_buffers kenv mb store_size);
  if (get_free_size mb <? store_size)%nat then mret (set_err ENOMEM c, mb)
  else
    '(_, mb) ← lifto (append_from_buffer mb key);
    mb ← lifto (reslice_ mb (length key) putKeyvalPrefixSize);
    '(rc, c, oldval) ← kv_get_for_mc c mb mbuff_empty;
    '(replied, c, mb) ←
      (if negb (rc =? 0) then mret (false, set_rsp RSP_NOT_FOUND c, mb) else arithmetic_put c mb oldval);
    if (replied : bool) || c_noreply c then mret (c, mb)
    else c ← handle_rsp c; mret (c, mb).

(** ** Stats *)

Definition handle_stats_cmd (c : cmd) : mcm cmd :=
  bytes_used ← reads (fun s => kv_used_bytes (ms_kv s));
  on_con (fun k => Some (send env (cstr "STAT bytes " ++ dec bytes_used ++ crlf ++ end_get_rsp_msg) k));;
  mret c.

(** ** Requests *)

Definition handle (b : msg_buff) (c : cmd) (mbuff keymbuff : mbuff) : mcm (cmd * Mbuff.mbuff * Mbuff.mbuff) :=
  match c_req c with
  | REQ_GET | REQ_GETS => handle_get c mbuff keymbuff
  | REQ_SET | REQ_ADD | REQ_REPLACE | REQ_APPEND | REQ_PREPEND =>
      '(c, mb) ← handle_store b c mbuff;
      if c_noreply c then mret (c, mb, keymbuff) else c ← handle_rsp c; mret (c, mb, keymbuff)
  | REQ_QUIT => mret (set_err ECONNRESET c, mbuff, keymbuff)
  | REQ_INCR | REQ_DECR => '(c, mb) ← handle_arithmetic_cmd c mbuff; mret (c, mb, keymbuff)
  | REQ_CAS | REQ_DEL | REQ_STATS => c ← handle_stats_cmd c; mret (c, mbuff, keymbuff)
  | REQ_VERSION | REQ_FLUSH_ALL | REQ_WATCH | REQ_VERBOSITY | REQ_LRU_CRAWLER | REQ_INVAL =>
      c ← handle_rsp c; mret (c, mbuff, keymbuff)
  | _ => c ← handle_rsp (set_rsp RSP_SERVER_ERROR c); mret (c, mbuff, keymbuff)
  end.

(** An interrupted [recv] ends the loop with no error set. *)
Fixpoint read_cmd (n : nat) (b : msg_buff) (c : cmd) : mcm (msg_buff * cmd) :=
  match n with
  | O => bug
  | S k =>
      ok ← con_ask (me_realloc env);
      let '(rc, b) := add_free_size ok read_cmd_chunk b in
      if negb (rc =? 0) then mret (b, set_err ENOMEM c)
      else
        '(ret, bs) ← on_con (fun k => Some (recv env (Z.to_nat read_cmd_chunk) k));
        errno ← reads (fun s => cn_errno (ms_con s));
        if ret =? 0 then mret (b, set_err ECONNRESET c)
        else if ret <? 0 then
          if errno =? EINTR then mret (b, c)
          else if errno =? EAGAIN then read_cmd k b c
          else mret (b, set_err errno c)
        else
          let b := mkMsgBuff (bf_rcv b ++ bs) (bf_ab b) (bf_pos b) in
          let '(rc, b, c) := try_parse_command b c in
          if rc =? EAGAIN then read_cmd k b c
          else if negb (rc =? 0) then mret (b, c)
          else
            cur_time ← con_ask (me_time env);
            mret (b, parse cur_time b c)
  end.

(** One round of [handle_request_thread]: whether the connection goes on. *)
Definition serve_request (b : msg_buff) (mbuff keymbuff : mbuff) :
    mcm (bool * msg_buff * Mbuff.mbuff * Mbuff.mbuff) :=
  mb ← lifto (reslice_ mbuff 0 0);
  '(b, c) ← read_cmd rounds (msg_buff_reset b) (set_err 0 cmd_new);
  '(c, mb, kmb) ← (if c_err c =? 0 then handle b c mb keymbuff else mret (c, mb, keymbuff));
  mret ((c_err c =? 0) || (c_err c =? ENOMEM), b, mb, kmb).

(** [handle_request_thread], until the connection ends or [n] requests were
    served. *)
Fixpoint serve (n : nat) (b : msg_buff) (mbuff keymbuff : mbuff) : mcm unit :=
  match n with
  | O => mret tt
  | S k =>
      '(go, b, mb, kmb) ← serve_request b mbuff keymbuff;
      if go : bool then serve k b mb kmb else mret tt
  end.

End Server.
