(* ===== verification/McParseSpec.v ===== *)
(** * McParseSpec: request lines are read back as they were written

    Printing and reading of numbers, of tokens and of the storage, arithmetic and
    retrieval requests of [McParse]. *)
From Stdlib Require Import ZArith Lia Ascii String.
From stdpp Require Import base tactics list numbers.
From S2P Require Import Prelude Util Mbuff CString McParse.

Open Scope Z_scope.

(** ** Request lines *)

Fixpoint unwords (ws : list (list Z)) : list Z :=
  match ws with
  | [] => []
  | [w] => w
  | w :: ws' => w ++ 32 :: unwords ws'
  end.

(** A byte of a word: no end of a string, of a line or of a word. *)
Definition word_byte (c : Z) : Prop := c <> 0 /\ c <> 10 /\ c <> 32.
Definition word (w : list Z) : Prop := w <> [] /\ Forall word_byte w.

Definition storage_name (r : mc_req_type) : option string :=
  match r with
  | REQ_SET => Some "set"%string
  | REQ_ADD => Some "add"%string
  | REQ_REPLACE => Some "replace"%string
  | REQ_APPEND => Some "append"%string
  | REQ_PREPEND => Some "prepend"%string
  | _ => None
  end.

Definition storage_words (name : string) (key : list Z) (flags exptime bytes : Z) (noreply : bool) : list (list Z) :=
  [cstr name; key; dec flags; dec_int exptime; dec bytes] ++ (if noreply then [cstr "noreply"] else []).

(** The expiration time stored for the one in a request. *)
Definition stored_expiry (cur_time exptime : Z) : Z :=
  if exptime =? 0 then 0
  else if exptime <? 0 then (if cur_time =? 0 then 1 else cur_time - 1)
  else if exptime <=? REALTIME_MAXDELTA then exptime + cur_time
  else exptime.

(** ** Numbers *)

(** A number ends at the end of its token. *)
Lemma strto_dec_signed (neg : bool) n : 0 <= n < 10 ^ 20 ->
  strto ((if neg then [45] else []) ++ dec n) = Some (neg, n, []).
Proof.
  intros Hn. destruct (dec_facts n) as (c & l & E & Hd); [lia|].
  assert (48 <= c <= 57) as Hc by (rewrite E in Hd; apply Forall_cons_iff in Hd as [Hc _]; exact Hc).
  assert (scan_digits (dec n) 0 = (n, [])) as Hs.
  { destruct (scan_dec_digits 20 n [] 0) as [p Hp]; [done|]. rewrite app_nil_r in Hp. exact Hp. }
  assert (isspace c = false) as Hsp.
  { unfold isspace. rewrite (proj2 (Z.eqb_neq c 32)), (proj2 (Z.leb_gt c 13)) by lia. cbn. by rewrite andb_false_r. }
  assert (isdigit c = true) as Hdg.
  { unfold isdigit. by rewrite (proj2 (Z.leb_le 48 c)), (proj2 (Z.leb_le c 57)) by lia. }
  unfold strto. destruct neg; cbn [app].
  - change (skip_spaces (45 :: dec n)) with (45 :: dec n). cbn [Z.eqb Pos.eqb].
    rewrite E in Hs |- *. by rewrite Hdg, Hs.
  - rewrite E in Hs |- *. cbn [skip_spaces]. rewrite Hsp. rewrite (proj2 (Z.eqb_neq c 45)), (proj2 (Z.eqb_neq c 43)) by lia.
    by rewrite Hdg, Hs.
Qed.

Lemma strto_dec n : 0 <= n < 10 ^ 20 -> strto (dec n) = Some (false, n, []).
Proof. apply (strto_dec_signed false). Qed.

Lemma strtoull_dec n : in_width 64 n -> safe_strtoull (dec n) = (true, n).
Proof.
  intros Hn. unfold in_width in Hn. unfold safe_strtoull. rewrite strto_dec by lia. cbv iota.
  rewrite (proj2 (Z.leb_gt (2 ^ 64) n)) by lia. cbn [number_ends].
  rewrite (bool_decide_eq_false_2 (45 ∈ dec n)), andb_false_r; [done|].
  intros Hin. destruct (dec_facts n) as (_ & _ & _ & Hd); [lia|].
  pose proof (proj1 (List.Forall_forall _ _) Hd 45 (proj1 (list_elem_of_In _ _) Hin)) as H45. simpl in H45. lia.
Qed.

Lemma strtoul_dec n : in_width 32 n -> safe_strtoul (dec n) = (true, n).
Proof.
  intros Hn. unfold safe_strtoul. rewrite strtoull_dec; [by rewrite wrap_small|].
  unfold in_width in *. lia.
Qed.

Lemma strtol_dec_int n : - 2 ^ 63 <= n < 2 ^ 63 -> safe_strtol (dec_int n) = (true, n).
Proof.
  intros Hn. unfold safe_strtol, dec_int. destruct (Z.ltb_spec n 0).
  - pose proof (strto_dec_signed true (- n) ltac:(lia)) as E. cbn [app] in E. rewrite E.
    rewrite Z.opp_involutive, (proj2 (Z.ltb_ge n _)), (proj2 (Z.leb_gt _ n)) by lia. done.
  - rewrite strto_dec by lia. rewrite (proj2 (Z.ltb_ge n _)), (proj2 (Z.leb_gt _ n)) by lia. done.
Qed.

Lemma strtol_dec n : 0 <= n < 2 ^ 63 -> safe_strtol (dec n) = (true, n).
Proof.
  intros Hn. pose proof (strtol_dec_int n ltac:(lia)) as H. unfold dec_int in H.
  by rewrite (proj2 (Z.ltb_ge n 0)) in H by lia.
Qed.

Lemma dec_word n : 0 <= n -> word (dec n).
Proof.
  intros Hn. destruct (dec_facts n Hn) as (c & l & E & Hd). split; [by rewrite E|].
  eapply List.Forall_impl; [|exact Hd]. intros x Hx. simpl in Hx. unfold word_byte. lia.
Qed.

Lemma dec_int_word n : word (dec_int n).
Proof.
  unfold dec_int. destruct (Z.ltb_spec n 0); [|apply dec_word; lia].
  destruct (dec_word (- n)) as [_ Hd]; [lia|]. split; [done|]. constructor; [|done]. unfold word_byte. lia.
Qed.

(** ** Tokens *)

Lemma tokenize_word max w : forall rest cur acc, Forall word_byte w ->
  tokenize max (w ++ rest) cur acc = tokenize max rest (cur ++ w) acc.
Proof.
  induction w as [|c w IH]; intros rest cur acc Hw; [by rewrite app_nil_r|].
  apply Forall_cons_iff in Hw as [(_ & _ & Hc) Hw]. cbn [app tokenize].
  rewrite (proj2 (Z.eqb_neq c 32)) by done. rewrite IH by done. by rewrite <- app_assoc.
Qed.

Lemma tokenize_unwords max ws : forall acc, Forall word ws -> (length acc + length ws < max)%nat ->
  tokenize max (unwords ws) [] acc = (acc ++ ws, None).
Proof.
  induction ws as [|w ws IH]; intros acc Hw Hlen; [by rewrite app_nil_r|].
  apply Forall_cons_iff in Hw as [[Hne Hw] Hws]. destruct ws as [|w' ws].
  - cbn [unwords]. rewrite <- (app_nil_r w) at 1. rewrite tokenize_word by done. cbn [app tokenize].
    by rewrite bool_decide_eq_false_2.
  - change (unwords (w :: w' :: ws)) with (w ++ 32 :: unwords (w' :: ws)).
    rewrite tokenize_word by done. cbn [app]. cbn [tokenize Z.eqb Pos.eqb].
    rewrite bool_decide_eq_false_2 by done. simpl in Hlen.
    rewrite (proj2 (Nat.eqb_neq (length (acc ++ [w])) (max - 1))) by (rewrite length_app; simpl; lia).
    rewrite IH by (done || (rewrite length_app; simpl; lia)). by rewrite <- app_assoc.
Qed.

Lemma unwords_bytes ws : Forall word ws -> Forall (fun c => c <> 0 /\ c <> 10) (unwords ws).
Proof.
  induction ws as [|w ws IH]; intros Hw; [constructor|]. apply Forall_cons_iff in Hw as [[_ Hw] Hws].
  assert (Forall (fun c => c <> 0 /\ c <> 10) w) as Hw' by (eapply List.Forall_impl; [|exact Hw]; intros x (? & ? & _); done).
  destruct ws as [|w' ws]; [done|]. change (unwords (w :: w' :: ws)) with (w ++ 32 :: unwords (w' :: ws)).
  apply Forall_app. split; [done|]. constructor; [lia|by apply IH].
Qed.

Lemma c_string_spec l r : Forall (fun c => c <> 0 /\ c <> 10) l -> c_string (l ++ 0 :: r) = l.
Proof.
  induction 1 as [|c l [Hc _] _ IH]; [done|]. cbn [app c_string]. rewrite (proj2 (Z.eqb_neq c 0)) by done. by rewrite IH.
Qed.

Lemma memchr_line l r : Forall (fun c => c <> 0 /\ c <> 10) l -> memchr (l ++ 13 :: 10 :: r) 10 = Some (S (length l)).
Proof.
  induction 1 as [|c l [_ Hc] _ IH]; [done|]. cbn [app memchr length]. rewrite (proj2 (Z.eqb_neq c 10)) by done.
  by rewrite IH.
Qed.

(** The end of a line found, the line is a string and what follows it is behind
    [pos_]. *)
Lemma try_parse_line l r ab pos c : l <> [] -> Forall (fun c => c <> 0 /\ c <> 10) l ->
  try_parse_command (mkMsgBuff (l ++ crlf ++ r) ab pos) c =
    (0, mkMsgBuff (l ++ 0 :: 10 :: r) ab (S (S (length l))), c).
Proof.
  intros Hne Hl. unfold try_parse_command. cbn [bf_rcv crlf app]. rewrite memchr_line by done.
  destruct (Nat.ltb_spec 1 (S (length l))) as [_|Hlt]; [|destruct l; [done|simpl in Hlt; lia]].
  replace (S (length l) - 1)%nat with (length l) by lia.
  rewrite list_lookup_middle by done. rewrite bool_decide_eq_true_2 by done. cbn [andb bf_ab].
  rewrite insert_app_r_alt, Nat.sub_diag by lia. done.
Qed.

(** ** Requests *)

Lemma is_noreply_dec n : 0 <= n -> is_noreply (dec n) = false.
Proof.
  intros Hn. destruct (dec_facts n Hn) as (c & l & E & Hd). rewrite E in *. apply Forall_cons_iff in Hd as [Hc _].
  unfold is_noreply, has_prefix, bytes_eqb. apply bool_decide_eq_false_2. cbn [length take].
  change (cstr "noreply") with (110 :: cstr "oreply"). intros [= Hx _]. lia.
Qed.

Lemma storage_words_ok name key flags exptime bytes noreply :
  word (cstr name) -> word key -> in_width 32 flags -> 0 <= bytes ->
  Forall word (storage_words name key flags exptime bytes noreply).
Proof.
  intros Hn Hk Hf Hb. unfold in_width in Hf. unfold storage_words. apply Forall_app. split.
  - repeat constructor; try apply dec_word; try apply dec_int_word; try apply Hn; try apply Hk; lia.
  - destruct noreply; [|constructor]. repeat constructor; vm_compute; done.
Qed.

Lemma cstr_eqb a b : bytes_eqb (cstr a) (cstr b) = String.eqb a b.
Proof.
  unfold bytes_eqb. apply eq_true_iff_eq. rewrite bool_decide_eq_true, String.eqb_eq. split; [|by intros ->].
  unfold cstr. revert b. induction a as [|x a IH]; intros [|y b]; try done. cbn. intros [= Hxy Hab].
  f_equal; [|by apply IH]. apply Nat2Z.inj in Hxy.
  by rewrite <- (ascii_nat_embedding x), <- (ascii_nat_embedding y), Hxy.
Qed.

(** The command of a request is its first token. *)
Lemma cmd_is_head c name ws s : c_tokens c = cstr name :: ws -> cmd_is c s = String.eqb name s.
Proof. intros E. unfold cmd_is, c_token, COMMAND_TOKEN. rewrite E. apply cstr_eqb. Qed.

(** Evaluates the fields and tokens of a request. *)
Ltac cmd_simpl :=
  unfold c_token, storage_words;
  cbn [negb set_req set_flags set_expiry set_noreply set_rsp set_vlen set_num set_err c_req c_rsp c_flags c_vlen c_expiry
       c_num c_err c_noreply c_tokens c_rest app lookup_total list_lookup_total KEY_TOKEN].

Section Storage.
Context (r : mc_req_type) (name : string) (key : list Z) (flags exptime bytes : Z) (noreply : bool).
Context (Hname : storage_name r = Some name) (Hkey : word key) (Hlen : (length key <= max_key_length)%nat).
Context (Hflags : in_width 32 flags) (Hexp : - 2 ^ 63 <= exptime < 2 ^ 63) (Hbytes : 0 <= bytes <= 2 ^ 31 - 3).

Local Abbreviation ws := (storage_words name key flags exptime bytes noreply).

(** The request as the parser leaves it. *)
Definition storage_cmd (cur_time : Z) : cmd :=
  mkCmd r RSP_INVAL flags bytes (stored_expiry cur_time exptime) 0 0 noreply ws None.

Lemma storage_ws : Forall word ws.
Proof.
  apply storage_words_ok; [|done|done|lia].
  destruct r; try done; injection Hname as <-; split; try done; repeat constructor; vm_compute; done.
Qed.

Lemma storage_line : unwords ws <> [] /\ Forall (fun c => c <> 0 /\ c <> 10) (unwords ws).
Proof.
  split; [|apply unwords_bytes, storage_ws]. unfold storage_words. intros H. destruct r; try done; injection Hname as <-; done.
Qed.

Lemma storage_noreply c : c_tokens c = ws -> c_noreply c = false ->
  check_noreply c = set_noreply noreply c.
Proof.
  intros Et En. unfold check_noreply, c_ntokens, c_token. rewrite Et. unfold storage_words.
  destruct noreply; cbn [app length Nat.sub lookup_total list_lookup_total].
  - done.
  - rewrite is_noreply_dec by lia. destruct c. simpl in *. by subst.
Qed.

Lemma storage_arguments cur_time : parse_storage_arguments cur_time (mkCmd r RSP_INVAL 0 0 0 0 0 false ws None) =
  storage_cmd cur_time.
Proof.
  unfold parse_storage_arguments. rewrite storage_noreply by done. cmd_simpl.
  rewrite (proj2 (Nat.ltb_ge max_key_length _)) by done.
  rewrite strtoul_dec by done. cmd_simpl. rewrite strtol_dec_int by done. cmd_simpl.
  rewrite strtol_dec by lia. cmd_simpl. rewrite s32_small by lia. unfold storage_cmd, stored_expiry, sanitize_exp_time.
  cmd_simpl.
  destruct (Z.eqb_spec exptime 0) as [->|Hne]; [|destruct (Z.ltb_spec exptime 0); [|destruct (Z.leb_spec exptime REALTIME_MAXDELTA)]];
    cmd_simpl; cbn [andb]; cmd_simpl;
    rewrite (proj2 (Z.ltb_ge bytes 0)), (proj2 (Z.ltb_ge (2 ^ 31 - 1 - 2) bytes)) by lia; done.
Qed.

Lemma storage_parse cur_time ab body :
  let b := mkMsgBuff (unwords ws ++ 0 :: 10 :: body) ab (S (S (length (unwords ws)))) in
  parse cur_time b (set_err 0 cmd_new) = storage_cmd cur_time.
Proof.
  unfold parse, tokenize_command. cbn [bf_rcv]. rewrite c_string_spec by apply storage_line.
  rewrite tokenize_unwords; [|apply storage_ws|unfold storage_words; destruct noreply; simpl; unfold MAX_TOKENS; lia].
  cbn [app]. set (c := set_tokens _ _ _).
  assert (forall s, cmd_is c s = String.eqb name s) as Hc by (intros s; by eapply cmd_is_head).
  rewrite !Hc. rewrite <- storage_arguments.
  assert (c_ntokens c = if noreply then 7%nat else 6%nat) as -> by (unfold c, storage_words; by destruct noreply).
  destruct r; try done; injection Hname as <-; destruct noreply; reflexivity.
Qed.

End Storage.
