(* ===== verification/MbuffChunks.v ===== *)
(** * MbuffChunks: where the bytes of an Mbuff lie

    Facts about single buffers and about the chunks that an Mbuff is sent in,
    which the flat view of [MbuffSpec] does not give. *)
From Stdlib Require Import ZArith Lia.
From stdpp Require Import base tactics list numbers.
From S2P Require Import Prelude Util Mbuff MbuffSpec MbuffHead KvStore KvIo McServer.

Local Open Scope nat_scope.

(** ** Closures and the head *)

(** What any closure does: it leaves the chunk's length. *)
Definition tame {S} (f : chunk_fn S) : Prop :=
  chunk_inv f (fun _ _ => True) (fun _ _ => True) (fun _ _ => True).

Lemma writes_tame {S} (f : chunk_fn S) : (forall st c, match f st c with (_, c', k) => k <= length c /\ length c' = length c end) ->
  tame f.
Proof. intros Hf st acc c _ _. specialize (Hf st c). destruct (f st c) as [[st' c'] k]. destruct Hf. done. Qed.

Lemma append_room {S} (f : chunk_fn S) st mb st' mb' :
  tame f -> mb_wf mb -> append f st mb = Some (st', mb') -> keeps_room mb mb'.
Proof.
  intros Hf Hw He. apply keeps_room_flush.
  - destruct (append_inv f _ _ _ st [] mb Hf Hw I) as (st1 & mb1 & w & He1 & _ & _ & _ & Hb & _).
    rewrite He in He1. by injection He1 as <- <-.
  - intros Hh. by apply (append_flush f _ _ _ st [] mb st' mb' Hf Hw I).
Qed.

Lemma copy_fn_tame src : tame (copy_fn src).
Proof.
  apply writes_tame. intros st c. unfold copy_fn. destruct (Nat.eqb_spec (Nat.min (length src - st) (length c)) 0); [split; lia|].
  split; [lia|]. apply write_at_length. rewrite length_take, length_drop. lia.
Qed.

Lemma uninit_fn_tame : tame uninit_fn.
Proof. apply writes_tame. intros st c. unfold uninit_fn. split; lia. Qed.

Lemma append_from_buffer_room mb src n mb' :
  mb_wf mb -> append_from_buffer mb src = Some (n, mb') -> keeps_room mb mb'.
Proof. apply append_room, copy_fn_tame. Qed.

Lemma append_uninitialized_room mb n mb' : mb_wf mb -> append_uninitialized mb n = Some mb' -> keeps_room mb mb'.
Proof.
  intros Hw. unfold append_uninitialized. destruct (append uninit_fn n mb) as [[st mb1]|] eqn:E; [|done].
  intros [= <-]. by apply (append_room uninit_fn n mb st mb1 uninit_fn_tame).
Qed.

(** ** One buffer *)

(** All valid bytes lie in one buffer of [N] bytes at least, from [off] on. *)
Definition in_one (N off : nat) (mb : mbuff) : Prop :=
  exists n, mb_nodes mb = [n] /\ mb_off_ n = off /\ mb_len_ n = length (data mb) /\ N <= mb_buff_len_ n.

Lemma in_one_resliced N mb len off mb' :
  mb_wf mb -> roomy N mb -> 0 < len -> off + len <= N -> off + len <= length (data mb) -> (Z.of_nat N < 2 ^ 64)%Z ->
  reslice mb len off = Some (0%Z, mb') -> in_one N off mb' /\ mb_wf mb' /\ data mb' = take len (drop off (data mb)).
Proof.
  intros Hw Hr Hlen HN Hd Hov He.
  destruct (reslice_spec mb len off Hw) as (mb1 & He1 & Hw1 & Hd1 & _); [lia|done|].
  rewrite He in He1. injection He1 as <-. split; [|done].
  destruct (reslice_in_head N mb len off Hw Hr Hlen HN Hd Hov) as (mb2 & n & He2 & Hn & Ho & Hl & HNn).
  rewrite He in He2. injection He2 as <-. exists n. do 2 (split; [done|]). split; [|done].
  rewrite Hd1, length_take, length_drop. lia.
Qed.

Lemma append_one N off mb src : mb_wf mb -> in_one N off mb -> off + length (data mb) + length src < N ->
  exists mb', append_from_buffer mb src = Some (length src, mb') /\ mb_wf mb' /\ data mb' = data mb ++ src /\
    in_one N off mb'.
Proof.
  intros Hw (n & Hn & Ho & Hl & HN) Hlt.
  destruct (append_from_buffer_spec mb src Hw) as (mb' & He & Hw' & Hd & _).
  assert (node_wf n) as Hnw by (pose proof (mwf_nodes _ Hw) as H; rewrite Hn in H; by inversion H).
  assert (append_space n = mb_buff_len_ n - (off + length (data mb))) as Hs by (unfold append_space; lia).
  pose proof (append_chunk_length n Hnw) as Hcl.
  assert (length src <= append_avail_size mb) as Ha.
  { unfold append_avail_size. rewrite Hn. cbn [list.last]. lia. }
  rewrite Nat.min_l in He by done. rewrite take_ge in Hd by done.
  exists mb'. do 3 (split; [done|]). pose proof (data_length mb' Hw') as Hdl.
  unfold append_from_buffer, append in He. cbn [append_loop Nat.add] in He.
  unfold append_prepare, append_prepare_inline in He. rewrite Hn in He. cbn [list.last] in He.
  rewrite (proj2 (Nat.ltb_lt 0 (append_space n))) in He by lia.
  assert (match copy_fn src 0 (get_append_chunk n) with (st, c', k) => k = length src /\ length c' = length (get_append_chunk n) end) as Hc.
  { unfold copy_fn. rewrite Nat.sub_0_r. destruct (Nat.eqb_spec (Nat.min (length src) (length (get_append_chunk n))) 0); [lia|].
    split; [lia|]. apply write_at_length. rewrite length_take, length_drop. lia. }
  destruct (copy_fn src 0 (get_append_chunk n)) as [[st c'] k]. destruct Hc as [-> Hc'].
  rewrite (proj2 (Nat.ltb_lt (length src) _)), orb_true_r in He by lia. injection He as _ <-.
  eexists. cbn [append_finalize mb_nodes add_valid set_nodes]. rewrite Hn. cbn [alter_last]. split; [done|].
  unfold put_append_chunk. cbn [mb_off_ mb_len_]. rewrite Hd, length_app. split; [done|]. split; [lia|].
  unfold mb_buff_len_ in *. cbn [mb_buff_]. rewrite write_at_length; lia.
Qed.

(** Cutting off the end. *)
Lemma in_one_prefix N off mb len : mb_wf mb -> in_one N off mb -> 0 < len <= length (data mb) ->
  (Z.of_nat (length (data mb)) < 2 ^ 64)%Z ->
  exists mb', reslice mb len 0 = Some (0%Z, mb') /\ mb_wf mb' /\ data mb' = take len (data mb) /\ in_one N off mb'.
Proof.
  intros Hw (n & Hn & Ho & Hl & HN) Hlen Hov.
  destruct (reslice_spec mb len 0 Hw) as (mb' & He & Hw' & Hd & _); [lia|lia|]. rewrite drop_0 in Hd.
  exists mb'. do 3 (split; [done|]). unfold reslice in He.
  rewrite wrap_small in He by (split; lia). pose proof (data_length mb Hw) as Hdl.
  destruct (Z.ltb_spec (Z.of_nat (mb_valid_size_ mb)) (Z.of_nat 0 + Z.of_nat len)); [lia|].
  destruct (Nat.eqb_spec len 0); [lia|]. rewrite Hn in He. cbn [reslice_head reslice_tail] in He.
  rewrite (proj2 (Nat.leb_le len (mb_len_ n))) in He by lia. injection He as <-.
  eexists. cbn [mb_nodes free_nodes set_nodes]. split; [done|]. cbn [mb_off_ mb_len_ mb_buff_len_].
  split; [done|]. split; [|exact HN]. rewrite Hd, length_take. lia.
Qed.

(** ** Room behind the data *)

Lemma put_prepend_space h c k : node_wf h -> 0 < mb_len_ h -> k <= prepend_space h -> length c = prepend_space h ->
  append_space (put_prepend_chunk h c k) = append_space h /\ 0 < mb_len_ (put_prepend_chunk h c k).
Proof.
  intros [_ Hf _] Hl Hk Hc. unfold put_prepend_chunk, append_space, prepend_space in *.
  rewrite (proj2 (Nat.eqb_neq (mb_len_ h) 0)), andb_false_r in * by lia. cbn [mb_off_ mb_len_].
  unfold mb_buff_len_ in *. cbn [mb_buff_]. rewrite write_at_length; lia.
Qed.

Lemma prepend_prepare_tail mb c mb1 l t : mb_nodes mb = l ++ [t] -> (l = [] -> 0 < mb_len_ t) ->
  prepend_prepare mb = (c, mb1) -> exists l', mb_nodes mb1 = l' ++ [t] /\ (l' = [] -> 0 < mb_len_ t).
Proof.
  intros Hn Hl. unfold prepend_prepare. destruct (prepend_prepare_inline mb); [intros [= _ <-]; by exists l|].
  unfold get_free_node. destruct (mb_free_ mb) as [|n r]; intros [= _ <-]; [by exists l|].
  exists (n :: l). cbn [mb_nodes set_nodes]. by rewrite Hn.
Qed.

Lemma prepend_loop_tail src fuel : forall rem mb rem' mb' l t,
  mb_wf mb -> mb_nodes mb = l ++ [t] -> (l = [] -> 0 < mb_len_ t) ->
  prepend_loop (copy_back_fn src) fuel rem mb = Some (rem', mb') ->
  exists l' t', mb_nodes mb' = l' ++ [t'] /\ append_space t' = append_space t.
Proof.
  induction fuel as [|fuel IH]; intros rem mb rem' mb' l t Hw Hn Hl; [done|]. cbn [prepend_loop].
  pose proof (prepend_prepare_spec mb Hw) as Hp. destruct (prepend_prepare mb) as [o mb1] eqn:Ep.
  destruct (prepend_prepare_tail mb o mb1 l t Hn Hl Ep) as (l1 & Hn1 & Hl1).
  destruct o as [c|]; [|intros [= _ <-]; by exists l1, t].
  destruct Hp as (h & r & Hn2 & -> & _ & Hw1 & _). rewrite Hn1 in Hn2.
  pose proof (mwf_nodes _ Hw1) as Hnw. rewrite Hn1, Hn2 in Hnw. apply Forall_cons_iff in Hnw as [Hh _].
  pose proof (prepend_chunk_length h Hh) as Hcl.
  assert (match copy_back_fn src rem (get_prepend_chunk h) with (st, c', k) =>
            k <= length (get_prepend_chunk h) /\ length c' = length (get_prepend_chunk h) end) as Hf.
  { unfold copy_back_fn. destruct (Nat.eqb_spec (Nat.min rem (length (get_prepend_chunk h))) 0); [split; lia|].
    split; [lia|]. apply write_at_length. rewrite length_take, length_drop. lia. }
  destruct (copy_back_fn src rem (get_prepend_chunk h)) as [[st c'] k]. destruct Hf as [Hk Hc'].
  rewrite Hn2 in Hn1. destruct (prepend_finalize_spec mb1 h r c' k Hw1 Hn1) as (Hw2 & _); [lia|lia|].
  assert (exists l2 t2, mb_nodes (prepend_finalize mb1 c' k) = l2 ++ [t2] /\ append_space t2 = append_space t /\
            (l2 = [] -> 0 < mb_len_ t2)) as (l2 & t2 & Hn3 & Ha2 & Hl2).
  { unfold prepend_finalize. rewrite Hn1. cbn [mb_nodes add_valid set_nodes].
    destruct l1 as [|h1 l1]; injection Hn2 as <- <-.
    - destruct (put_prepend_space t c' k) as [Ha Hp]; [done|by apply Hl1|lia|lia|].
      exists [], (put_prepend_chunk t c' k). done.
    - exists (put_prepend_chunk h1 c' k :: l1), t. done. }
  destruct (_ || _); [intros [= _ <-]; by exists l2, t2|].
  intros He. destruct (IH st _ rem' mb' l2 t2 Hw2 Hn3 Hl2 He) as (l' & t' & ? & ?). exists l', t'. split; [done|congruence].
Qed.

(** Prepending into a buffer leaves the room behind the data. *)
Lemma prepend_one N off mb src : mb_wf mb -> in_one N off mb -> data mb <> [] -> length src <= off ->
  exists k mb', prepend_from_buffer mb src = Some (k, mb') /\ mb_wf mb' /\ data mb' = src ++ data mb /\
    N - (off + length (data mb)) <= append_avail_size mb'.
Proof.
  intros Hw (n & Hn & Ho & Hl & HN) Hd Hs.
  assert (0 < length (data mb)) as Hpos by (destruct (data mb); simpl; [done|lia]).
  destruct (prepend_from_buffer_spec mb src Hw) as (mb' & He & Hw' & Hd' & _).
  assert (length src - prepend_avail mb = 0) as Hz.
  { unfold prepend_avail. rewrite Hn. unfold prepend_space. rewrite (proj2 (Nat.eqb_neq (mb_len_ n) 0)) by lia. lia. }
  rewrite Hz, drop_0 in Hd'. eexists _, mb'. do 3 (split; [done|]).
  unfold prepend_from_buffer, prepend in He.
  destruct (prepend_loop (copy_back_fn src) _ (length src) mb) as [[rem mb1]|] eqn:E; [|done]. injection He as _ <-.
  destruct (prepend_loop_tail src _ _ mb rem mb1 [] n Hw Hn ltac:(lia) E) as (l' & t' & Hn' & Ha).
  unfold append_avail_size. rewrite Hn', list.last_snoc, Ha. unfold append_space. lia.
Qed.

(** ** Reading one byte *)

Lemma init_chunk mb off len it : mb_wf mb -> 0 < len -> off + len <= length (data mb) ->
  do_initialize_iterator mb off len = Some it -> i_chunk_ it <> [].
Proof.
  intros Hw Hlen Hle. unfold do_initialize_iterator.
  destruct (find_node_spec (mb_nodes mb) off (mwf_nodes _ Hw)) as (n & r & o & -> & Ho & Hnr & _); [unfold data in Hle; lia|].
  apply Forall_cons_iff in Hnr as [[_ Hf _] _]. intros [= <-]. cbn [i_chunk_]. intros Hnil.
  apply (f_equal length) in Hnil. unfold get_valid_chunk in Hnil. rewrite length_take, length_drop in Hnil.
  unfold mb_buff_len_ in Hf. simpl in Hnil. lia.
Qed.

Lemma iterate_all mb : mb_wf mb -> data mb <> [] -> (Z.of_nat (length (data mb)) < 2 ^ 64)%Z ->
  exists it, iterate_valid_init mb 0 (get_valid_size mb) = Some (0%Z, Some it) /\ iter_wf it /\
    i_len_ it = length (data mb) /\ iter_rest it = data mb /\ length (i_nodes it) <= length (mb_nodes mb).
Proof.
  intros Hw Hd Hov. assert (0 < length (data mb)) as Hpos by (destruct (data mb); simpl; [done|lia]).
  unfold get_valid_size. rewrite <- (data_length mb Hw).
  pose proof (iterate_valid_init_spec mb 0 (length (data mb)) Hw Hpos ltac:(lia)) as H. rewrite decide_True in H by lia.
  destruct H as (it & He & Hi & Hl & Hr). exists it. rewrite drop_0, take_ge in Hr by done. do 4 (split; [done|]).
  unfold iterate_valid_init in He. destruct (_ =? 0) eqn:E0; [done|]. destruct (_ <? _)%Z; [done|].
  unfold do_initialize_iterator in He.
  destruct (find_node_spec (mb_nodes mb) 0 (mwf_nodes _ Hw)) as (n & r & o & Hf & _ & _ & _ & Hlen); [unfold data in Hpos; lia|].
  rewrite Hf in He. injection He as <-. exact Hlen.
Qed.

Lemma read_val_char_spec mb off c : mb_wf mb -> data mb !! off = Some c -> (Z.of_nat off < 2 ^ 63)%Z ->
  read_val_char mb off = Some c.
Proof.
  intros Hw Hc Hov. pose proof (lookup_lt_Some _ _ _ Hc) as Hlt. unfold read_val_char, iterate_valid_init.
  cbn [Nat.eqb]. rewrite wrap_small by (split; lia). rewrite (data_length mb Hw) in Hlt.
  destruct (Z.ltb_spec (Z.of_nat (mb_valid_size_ mb)) (Z.of_nat off + Z.of_nat 1)); [lia|].
  rewrite <- (data_length mb Hw) in Hlt. destruct (init_iterator_spec mb off 1 Hw) as (it & He & _ & Hl & Hr); [lia|lia|].
  pose proof (init_chunk mb off 1 it Hw ltac:(lia) ltac:(lia) He) as Hne. rewrite He. cbn [fmap option_fmap option_map Z.eqb].
  rewrite (drop_S _ _ _ Hc) in Hr. cbn [take] in Hr. unfold iter_rest in Hr.
  destruct (i_chunk_ it) as [|x l]; [done|]. by injection Hr as -> _.
Qed.

(** ** The chunks an Mbuff is sent in *)

Definition chunk_list (mb : mbuff) : list (list Z) :=
  match iterate_valid_init mb 0 (get_valid_size mb) with
  | Some (_, Some it) => fill_iovec_loop (length (i_nodes it)) (Some it)
  | _ => []
  end.

(** More entries than chunks change nothing. *)
Lemma fill_more it : iter_wf it -> forall k m, length (i_nodes it) <= k -> length (fill_iovec_loop k (Some it)) <= m ->
  fill_iovec_loop m (Some it) = fill_iovec_loop k (Some it).
Proof.
  intros Hi k. revert it Hi. induction k as [|k IH]; intros it Hi m Hk Hm.
  { destruct (iwf_some _ Hi). apply nil_length_inv. lia. }
  cbn [fill_iovec_loop length] in *. destruct m as [|m]; [lia|]. cbn [fill_iovec_loop]. f_equal.
  destruct (iter_next it) as [it'|] eqn:Hn; [|by destruct m, k].
  destruct (iter_next_Some _ _ Hi Hn) as (Hi' & _ & _ & Hl). apply IH; [done|lia|lia].
Qed.

Lemma nchunks_fill it : iter_wf it -> 0 < i_len_ it -> forall k, length (i_nodes it) <= k ->
  nchunks_loop (length (i_nodes it)) (i_len_ it) (Some it) = length (fill_iovec_loop k (Some it)).
Proof.
  intros Hi Hpos k. revert it Hi Hpos. induction k as [|k IH]; intros it Hi Hpos Hk.
  { destruct (iwf_some _ Hi). apply nil_length_inv. lia. }
  cbn [fill_iovec_loop length]. pose proof (iwf_chunk _ Hi) as Hc.
  destruct (iter_next it) as [it'|] eqn:Hn.
  - destruct (iter_next_Some _ _ Hi Hn) as (Hi' & _ & Hl & Hlen). rewrite Hlen.
    destruct (i_len_ it) as [|n] eqn:El; [lia|]. cbn [nchunks_loop]. f_equal. rewrite <- Hl, Hn. apply IH; [done| |lia].
    unfold iter_next in Hn. rewrite El in Hn. destruct (Nat.eqb_spec (S n - length (i_chunk_ it)) 0); [done|lia].
  - apply iter_next_None in Hn as Hn'; [|done]. destruct (length (i_nodes it)) eqn:Eln; [destruct (iwf_some _ Hi); by apply nil_length_inv|].
    destruct (i_len_ it) as [|n0] eqn:El; [lia|]. cbn [nchunks_loop]. rewrite Hn, Hn', Nat.sub_diag. by destruct n, k.
Qed.

Lemma chunk_list_spec mb : mb_wf mb -> data mb <> [] -> (Z.of_nat (length (data mb)) < 2 ^ 64)%Z ->
  concat (chunk_list mb) = data mb /\ chunk_list mb <> [] /\
  get_valid_nchunks mb 0 (get_valid_size mb) = Some (0%Z, length (chunk_list mb)) /\
  forall m, length (chunk_list mb) <= m -> fill_iov mb m = Some (Some (chunk_list mb)).
Proof.
  intros Hw Hd Hov. destruct (iterate_all mb Hw Hd Hov) as (it & He & Hi & Hl & Hr & _).
  assert (0 < length (data mb)) as Hpos by (destruct (data mb); simpl; [done|lia]).
  unfold chunk_list, get_valid_nchunks, fill_iov, fill_iovec_valid. rewrite He. cbn [mbind option_bind Z.eqb negb].
  destruct (fill_iovec_loop_spec (length (i_nodes it)) it Hi) as (w & Hc & _ & Hall).
  specialize (Hall (Nat.le_refl _)). subst w. rewrite Hr in Hall.
  pose proof (iwf_some _ Hi) as Hs.
  assert (fill_iovec_loop (length (i_nodes it)) (Some it) <> []) as Hne by (destruct (i_nodes it); done).
  split; [done|]. split; [done|]. split.
  { rewrite <- (nchunks_fill it Hi ltac:(lia) _ (Nat.le_refl _)), Hl. unfold get_valid_size. by rewrite <- (data_length mb Hw). }
  intros m Hm. rewrite (fill_more it Hi (length (i_nodes it)) m) by lia.
  rewrite Hall, (proj2 (Nat.ltb_ge m _)) by done. unfold get_valid_size. rewrite <- (data_length mb Hw), Nat.eqb_refl.
  destruct (fill_iovec_loop (length (i_nodes it)) (Some it)); done.
Qed.

Lemma chunk_list_one N off mb : mb_wf mb -> in_one N off mb -> data mb <> [] -> (Z.of_nat (length (data mb)) < 2 ^ 64)%Z ->
  chunk_list mb = [data mb].
Proof.
  intros Hw (n & Hn & _) Hd Hov. destruct (chunk_list_spec mb Hw Hd Hov) as (Hc & Hne & _).
  destruct (iterate_all mb Hw Hd Hov) as (it & He & Hi & _ & _ & Hlen). unfold chunk_list in *. rewrite He in *.
  rewrite Hn in Hlen. simpl in Hlen. pose proof (iwf_some _ Hi) as Hs. destruct (i_nodes it) as [|n0 [|]]; [done| |simpl in Hlen; lia].
  cbn [fill_iovec_loop length concat] in *. rewrite app_nil_r in Hc. by rewrite Hc.
Qed.
