(* ===== verification/KvPage.v ===== *)
(** * KvPage: buffers and records of a page

    The store moves buffers between Mbuffs and adds buffers of whole pages, but
    never splits one: an Mbuff whose buffers have [N] bytes or more each comes back
    from [put] and [del] as one, whatever the environment answers.  Then what the
    users of the store (memcache server, remote service, byte arrays) share: Mbuffs
    whose buffers have a page or more, a put of a key and a value in one page, and
    what the store needs for it. *)
From Stdlib Require Import ZArith Lia.
From stdpp Require Import base tactics list numbers.
From S2P Require Import Prelude Util HashEntry HopscotchMap HopscotchSpec FpTable DirectoryMap DirectoryGrow DirectoryOps.
From S2P Require Import Mbuff MbuffSpec MbuffHead StoreFormat KvStore KvIo KvInv KvGet KvWrite KvPut KvRefine MbuffChunks.

Open Scope Z_scope.

(** ** Whatever a computation returns *)

Definition only {A} (P : A -> Prop) (m : kvm A) : Prop := forall s a s', m s = Some (a, s') -> P a.

Lemma only_ret {A} (P : A -> Prop) (a : A) : P a -> only P (@mret kvm kvm_ret A a).
Proof. by intros HP s a' s' [= <- _]. Qed.

Lemma only_bind {A B} (P : A -> Prop) (Q : B -> Prop) (m : kvm A) (f : A -> kvm B) :
  only P m -> (forall a, P a -> only Q (f a)) -> only Q (@mbind kvm kvm_bind A B f m).
Proof.
  intros Hm Hf s b s' E. unfold mbind, kvm_bind in E. destruct (m s) as [[a s1]|] eqn:Em; [|done].
  by apply (Hf a (Hm _ _ _ Em) _ _ _ E).
Qed.

(** A computation about whose result nothing needs to be known. *)
Lemma only_any {A B} (Q : B -> Prop) (m : kvm A) (f : A -> kvm B) : (forall a, only Q (f a)) -> only Q (m ≫= f).
Proof. intros Hf. apply (only_bind (fun _ => True)); [done|]. by intros a _. Qed.

Lemma only_lift {A B} (P : A -> Prop) (Q : B -> Prop) (o : option A) (f : A -> kvm B) :
  (forall a, o = Some a -> P a) -> (forall a, P a -> only Q (f a)) -> only Q (lift o ≫= f).
Proof. intros Ho. apply only_bind. intros s a s'. unfold lift. destruct o; [|done]. intros [= <- _]. by apply Ho. Qed.

(** ** Buffers of [N] bytes or more *)

Section Big.
Context (N : nat) (HN : (N <= 4096)%nat).

Definition big_node (n : node) : Prop := (N <= mb_buff_len_ n)%nat.
Definition big (mb : mbuff) : Prop := Forall big_node (mb_nodes mb) /\ Forall big_node (mb_free_ mb).

Lemma big_buffers mb : big mb <-> Forall (fun b : Z * nat => (N <= b.2)%nat) (buffers mb).
Proof. unfold buffers, big. rewrite Forall_fmap, Forall_app. done. Qed.

Lemma big_empty : big mbuff_empty.
Proof. by split. Qed.

Lemma big_set_nodes mb l : Forall big_node l -> big mb -> big (set_nodes mb l).
Proof. by intros Hl [_ Hf]. Qed.

Lemma big_put_free mb n : big_node n -> big mb -> big (put_free_node mb n).
Proof. intros Hn [H1 H2]. split; [done|]. by constructor. Qed.

Lemma big_get_free mb : big mb -> match get_free_node mb with (o, mb') => big mb' /\ forall n, o = Some n -> big_node n end.
Proof.
  intros [H1 H2]. unfold get_free_node. destruct (mb_free_ mb) as [|n r] eqn:E.
  - split; [split; [done|by rewrite E]|done].
  - apply Forall_cons_iff in H2 as [Hn Hr]. split; [by split|]. by intros n' [= <-].
Qed.

(** Writing into a chunk leaves the size of its buffer. *)
Lemma put_append_size n c k : length c = length (get_append_chunk n) -> mb_buff_len_ (put_append_chunk n c k) = mb_buff_len_ n.
Proof.
  unfold put_append_chunk, mb_buff_len_, write_at, get_append_chunk, append_space. cbn [mb_buff_]. rewrite length_take, length_drop.
  unfold mb_buff_len_. intros Hc. rewrite !length_app, length_take, length_drop. lia.
Qed.

Lemma put_prepend_size n c k : length c = length (get_prepend_chunk n) -> mb_buff_len_ (put_prepend_chunk n c k) = mb_buff_len_ n.
Proof.
  unfold put_prepend_chunk, mb_buff_len_, write_at, get_prepend_chunk. rewrite length_take. intros Hc.
  destruct (_ && _); cbn [mb_buff_]; rewrite take_0; cbn [app]; rewrite length_app, length_drop; lia.
Qed.

(** A closure that leaves the length of its chunk. *)
Definition level {S} (f : chunk_fn S) : Prop := forall st c, length (f st c).1.2 = length c.

Lemma big_append_prepare mb : big mb ->
  match append_prepare mb with
  | (Some c, mb') => big mb' /\ exists l t, mb_nodes mb' = l ++ [t] /\ c = get_append_chunk t
  | (None, mb') => big mb'
  end.
Proof.
  intros Hb. unfold append_prepare. destruct (append_prepare_inline mb) as [c|] eqn:Ei.
  - split; [done|]. unfold append_prepare_inline in Ei. destruct (list.last (mb_nodes mb)) as [t|] eqn:El; [|done].
    apply last_Some in El as [l El]. exists l, t. split; [done|]. destruct (_ <? _)%nat; [by injection Ei as <-|done].
  - pose proof (big_get_free mb Hb) as Hg. destruct (get_free_node mb) as [[n|] mb']; destruct Hg as [Hb' Hn]; [|done].
    split; [|by exists (mb_nodes mb'), n]. apply big_set_nodes; [|done].
    apply Forall_app. split; [apply Hb'|]. apply Forall_singleton. by apply Hn.
Qed.

Lemma big_append_finalize mb l t c k : big mb -> mb_nodes mb = l ++ [t] -> length c = length (get_append_chunk t) ->
  big (append_finalize mb c k).
Proof.
  intros [H1 H2] Hn Hc. split; [|done]. cbn [append_finalize add_valid set_nodes mb_nodes]. rewrite Hn, alter_last_snoc.
  rewrite Hn in H1. apply Forall_app in H1 as [Hl Ht]. apply Forall_app. split; [done|]. apply Forall_singleton.
  rewrite Forall_singleton in Ht. unfold big_node in *. by rewrite put_append_size.
Qed.

Lemma big_append_loop {S} (f : chunk_fn S) fuel : level f -> forall st mb st' mb', big mb ->
  append_loop f fuel st mb = Some (st', mb') -> big mb'.
Proof.
  intros Hf. induction fuel as [|fuel IH]; intros st mb st' mb' Hb; [done|]. cbn [append_loop].
  pose proof (big_append_prepare mb Hb) as Hp. destruct (append_prepare mb) as [[c|] mb1]; [|by intros [= _ <-]].
  destruct Hp as (Hb1 & l & t & Hn & ->). pose proof (Hf st (get_append_chunk t)) as Hl.
  destruct (f st (get_append_chunk t)) as [[st1 c'] k]. cbn [fst snd] in Hl.
  pose proof (big_append_finalize mb1 l t c' k Hb1 Hn Hl) as Hb2.
  destruct (_ || _); [by intros [= _ <-]|]. by apply IH.
Qed.

Lemma big_append {S} (f : chunk_fn S) st mb st' mb' : level f -> big mb -> append f st mb = Some (st', mb') -> big mb'.
Proof. intros Hf Hb. by apply big_append_loop. Qed.

Lemma big_append_inline {S} (f : chunk_fn S) st mb : level f -> big mb -> big (append_inline f st mb).2.
Proof.
  intros Hf Hb. unfold append_inline. destruct (append_prepare_inline mb) as [c|] eqn:E; [|done].
  pose proof (big_append_prepare mb Hb) as Hp. unfold append_prepare in Hp. rewrite E in Hp.
  destruct Hp as (_ & l & t & Hn & ->). pose proof (Hf st (get_append_chunk t)) as Hl.
  destruct (f st (get_append_chunk t)) as [[st1 c'] k]. by apply (big_append_finalize mb l t).
Qed.

Lemma big_prepend_inline {S} (f : chunk_fn S) st mb : level f -> big mb -> big (prepend_inline f st mb).2.
Proof.
  intros Hf Hb. unfold prepend_inline, prepend_prepare_inline, prepend_finalize.
  destruct (mb_nodes mb) as [|h r] eqn:En; [done|]. destruct (_ <? _)%nat; [|done].
  pose proof (Hf st (get_prepend_chunk h)) as Hl. destruct (f st (get_prepend_chunk h)) as [[st1 c'] k].
  destruct Hb as [H1 H2]. rewrite En in H1. apply Forall_cons_iff in H1 as [Hh Hr].
  split; [|done]. cbn [snd add_valid set_nodes mb_nodes]. constructor; [|done]. unfold big_node in *. by rewrite put_prepend_size.
Qed.

Lemma big_free_nodes l : forall mb, Forall big_node l -> big mb -> big (free_nodes mb l).
Proof.
  induction l as [|n l IH]; intros mb Hl Hb; [done|]. apply Forall_cons_iff in Hl as [Hn Hl]. cbn [free_nodes].
  apply IH; [done|]. by apply big_put_free.
Qed.

Lemma big_reslice_head l : forall off mb l' mb', Forall big_node l -> big mb -> reslice_head l off mb = Some (l', mb') ->
  Forall big_node l' /\ big mb'.
Proof.
  induction l as [|n l IH]; intros off mb l' mb' Hl Hb; destruct off as [|off]; cbn [reslice_head]; try done; try (by intros [= <- <-]).
  apply Forall_cons_iff in Hl as [Hn Hl]. destruct (_ <? _)%nat.
  - intros [= <- <-]. split; [by constructor|done].
  - apply IH; [done|]. by apply big_put_free.
Qed.

Lemma big_reslice_tail l : forall len kept rest, Forall big_node l -> reslice_tail l len = Some (kept, rest) ->
  Forall big_node kept /\ Forall big_node rest.
Proof.
  induction l as [|n l IH]; intros len kept rest Hl; [done|]. apply Forall_cons_iff in Hl as [Hn Hl]. cbn [reslice_tail].
  destruct (_ <=? _)%nat; [intros [= <- <-]; split; [by apply Forall_singleton|done]|].
  destruct (reslice_tail l _) as [[k r]|] eqn:E; [|done]. intros [= <- <-]. destruct (IH _ _ _ Hl E) as [H1 H2].
  split; [by constructor|done].
Qed.

Lemma big_reslice mb len off mb' : big mb -> reslice_ mb len off = Some mb' -> big mb'.
Proof.
  intros Hb. pose proof (proj1 Hb) as Hl0. unfold reslice_, reslice. destruct (_ <? _); [by intros [= <-]|]. destruct (_ =? 0)%nat.
  { intros [= <-]. cbn [snd]. pose proof (big_free_nodes (mb_nodes mb) mb (proj1 Hb) Hb) as [_ H]. by split. }
  destruct (mb_nodes mb) as [|n r]; [by intros [= <-]|].
  destruct (reslice_head (n :: r) off mb) as [[l mb1]|] eqn:Eh; [|done].
  destruct (reslice_tail l len) as [[kept rest]|] eqn:Et; [|done]. intros [= <-]. cbn [snd].
  destruct (big_reslice_head _ _ _ _ _ Hl0 Hb Eh) as [Hl Hb1].
  destruct (big_reslice_tail _ _ _ _ Hl Et) as [Hk Hr].
  destruct (big_free_nodes rest (set_nodes mb1 kept) Hr ltac:(by apply big_set_nodes)) as [H1 H2]. by split.
Qed.

Lemma big_move_loop fuel : forall src dst moved max src' dst' n, big src -> big dst ->
  move_free_loop fuel src dst moved max = (src', dst', n) -> big src' /\ big dst'.
Proof.
  induction fuel as [|fuel IH]; intros src dst moved max src' dst' n Hs Hd; cbn [move_free_loop]; [by intros [= <- <- _]|].
  unfold get_free_buff. pose proof (big_get_free src Hs) as Hg. destruct (get_free_node src) as [[x|] s1]; destruct Hg as [Hs1 Hx];
    [|by intros [= <- <- _]].
  assert (big (add_buff dst (mb_ptr x) (mb_buff_ x))) as Hd1 by (apply big_put_free; [by apply (Hx x)|done]).
  destruct (_ <? _); [by apply IH|]. by intros [= <- <- _].
Qed.

Lemma big_move src dst max src' dst' n : big src -> big dst -> move_free_buffs_to src dst max = (src', dst', n) -> big src' /\ big dst'.
Proof. intros Hs Hd. by apply big_move_loop. Qed.

(** *** The closures of the store *)

Lemma write_level (c bs : list Z) off : (off + length bs <= length c)%nat -> length (write_at c off bs) = length c.
Proof. apply write_at_length. Qed.

Lemma iov_fn_level dev off op_len : level (iov_fn dev off op_len).
Proof.
  intros [rem cnt] c. unfold iov_fn. destruct (_ || _); [done|]. cbn [fst snd]. apply write_level. rewrite dev_read_length. lia.
Qed.

Lemma pad_fn_level : level pad_fn.
Proof. intros rem c. unfold pad_fn. destruct (_ =? 0)%nat; [done|]. apply write_level. rewrite length_replicate. lia. Qed.

Lemma header_fn_level md : level (header_fn md).
Proof.
  intros ok c. unfold header_fn. destruct (Nat.eqb_spec (length c) sizeof_store) as [Hc|]; [|done]. apply write_level.
  unfold header_bytes. rewrite !length_app, !le_bytes_length. unfold sizeof_store in Hc. lia.
Qed.

Lemma suffix_fn_level crc : level (suffix_fn crc).
Proof.
  intros ok c. unfold suffix_fn. destruct (Nat.ltb_spec (length c) sizeof_suffix) as [|Hc]; [done|]. apply write_level.
  rewrite le_bytes_length. unfold sizeof_suffix in Hc. lia.
Qed.

(** *** The operations of the store *)

Context (env : kv_env) (Hgrain : 0 < e_grain_size env < 2 ^ 31).
Context (Hmem : forall t n ptr buf, e_membuf env t n = Some (ptr, buf) -> length buf = n).

Lemma big_add_buffers mb n : Z.of_nat n < 2 ^ 63 -> big mb -> only big (mbuff_add_buffers env mb n).
Proof.
  intros Hn Hb s mb' s'. unfold mbuff_add_buffers. destruct (Nat.leb_spec n (get_free_size mb)) as [|Hgt]; [by intros [= <- _]|].
  pose proof (align_up_spec (Z.of_nat (n - get_free_size mb)) 4096) as [[q Hd] Hal]; [lia..|].
  unfold mbind, kvm_bind, ask. destruct (e_membuf env _ _) as [[ptr buf]|] eqn:E; intros [= <- _]; [|done].
  apply big_put_free; [|done]. unfold big_node, mb_buff_len_. cbn [mb_buff_]. rewrite (Hmem _ _ _ _ E). nia.
Qed.

Lemma big_pread_loop fuel : forall mb io_len io_off done_, big mb ->
  only (fun r : Z * mbuff => big r.2) (pread_loop env fuel mb io_len io_off done_).
Proof.
  induction fuel as [|fuel IH]; intros mb io_len io_off done_ Hb; [done|]. cbn [pread_loop].
  destruct (_ <=? _)%nat; [by apply only_ret|]. destruct (_ <? _)%nat; [by apply only_ret|]. apply only_any. intros dev.
  apply (only_lift (fun r => big r.2)). { intros [st mb1] E. by eapply big_append; [apply iov_fn_level| |apply E]. }
  intros [[rem cnt] mb1] Hb1. cbn [snd] in Hb1. apply only_any. intros ret. destruct (_ <? 0).
  { apply (only_lift big); [intros mb2; by apply big_reslice|]. intros mb2 Hb2. by apply only_ret. }
  apply (only_bind big). { destruct (_ <? _)%nat; [|by apply only_ret]. intros s a s'. unfold lift. destruct (reslice_ _ _ _) eqn:E; [|done].
    intros [= <- _]. by eapply big_reslice. }
  intros mb2 Hb2. destruct (_ =? 0)%nat; [by apply only_ret|by apply IH].
Qed.

Lemma big_pread mb io_len io_off : big mb -> only (fun r : Z * mbuff => big r.2) (io_pread_mbuff_append_full env mb io_len io_off).
Proof. intros Hb. unfold io_pread_mbuff_append_full. destruct (_ =? 0)%nat; [by apply only_ret|by apply big_pread_loop]. Qed.

Lemma big_read_record mb n off : Z.of_nat n < 2 ^ 63 -> big mb -> only (fun r : Z * bool * mbuff => big r.2) (read_record env mb n off).
Proof.
  intros Hn Hb. unfold read_record. apply (only_lift big); [intros mb0; by apply big_reslice|]. intros mb0 Hb0.
  apply (only_bind big); [by apply big_add_buffers|]. intros mb1 Hb1. destruct (_ <? _)%nat; [by apply only_ret|].
  apply (only_bind (fun r => big r.2)); [by apply big_pread|]. intros [err mb2] Hb2. by apply only_ret.
Qed.

Lemma padding_bound x : 0 <= x < 2 ^ 64 ->
  0 <= u64 (udiv_round_up x (e_grain_size env) * e_grain_size env - x) < 2 ^ 31.
Proof.
  intros Hx. unfold udiv_round_up. rewrite (proj2 (Z.eqb_neq 0 _)) by lia. cbn [negb]. set (g := e_grain_size env) in *.
  destruct (Z_lt_le_dec (x + g - 1) (2 ^ 64)) as [Hlt|Hge].
  - rewrite (wrap_small 64 (x + g - 1)) by (split; lia). pose proof (Z.div_mod (x + g - 1) g). pose proof (Z.mod_pos_bound (x + g - 1) g).
    rewrite wrap_small by (split; nia). nia.
  - assert (u64 (x + g - 1) = x + g - 1 - 2 ^ 64) as ->.
    { symmetry. unfold wrap. apply (Z.mod_unique_pos _ _ 1); lia. }
    rewrite Z.div_small by lia. assert (u64 (0 * g - x) = 2 ^ 64 - x) as ->; [|lia].
    symmetry. unfold wrap. apply (Z.mod_unique_pos _ _ (-1)); lia.
Qed.

Lemma key_io_bound n : Z.of_nat n < 2 ^ 32 ->
  Z.of_nat (Z.to_nat (align_up (Z.of_nat (putKeyvalPrefixSize + n)) (io_alignment env))) < 2 ^ 63.
Proof.
  intros Hn. unfold io_alignment, putKeyvalPrefixSize, sizeof_store.
  pose proof (align_up_spec (Z.of_nat (14 + n)) (Z.min 512 (e_grain_size env))) as [_ H]; lia.
Qed.

Lemma big_lookup_put_loop fuel h mb_key off len : Z.of_nat len < 2 ^ 32 -> forall old_md mb visited, big mb ->
  only (fun r : Z * option nat * store_header * mbuff => big r.2) (lookup_put_loop env fuel h mb_key off len old_md mb visited).
Proof.
  intros Hlen. induction fuel as [|fuel IH]; intros old_md mb visited Hb; [done|]. cbn [lookup_put_loop]. apply only_any. intros d.
  destruct (lookup_common d h visited) as [err [t|]]; (destruct (negb (err =? 0)); [by apply only_ret|]).
  2:{ destruct (dir_next_free d h) as [err' free]. destruct (negb _); by apply only_ret. }
  apply only_any. intros _. apply (only_bind (fun r => big r.2)); [apply big_read_record; [by apply key_io_bound|done]|].
  intros [[err' nomem] mb1] Hb1. cbn [snd] in Hb1. destruct (negb (err' =? 0)); [apply only_any; intros _; by apply only_ret|].
  do 2 (apply only_any; intros ?). apply only_any. intros _. apply only_any. intros d'.
  destruct (_ && _); [by apply only_ret|by apply IH].
Qed.

Lemma big_put_dispatch h mb ks vl grain op old_md rc trgt : big mb ->
  only (fun r : Z * option Z * mbuff => big r.2) (put_dispatch env h mb ks vl grain op old_md rc trgt).
Proof.
  intros Hb. assert (forall upd t, only (fun r : Z * option Z * mbuff => big r.2) (put_finish env h mb ks vl grain old_md upd t)) as Hfin.
  { intros upd t. unfold put_finish. do 3 (apply only_any; intros ?). destruct (_ && _); [by apply only_ret|].
    apply only_any. intros _. by apply only_ret. }
  unfold put_dispatch. destruct (rc =? ENODATA); [destruct (decide _); [by apply only_ret|done]|].
  destruct (rc =? EEXIST); [destruct (decide _); [by apply only_ret|done]|].
  destruct (rc =? EIO); [by apply only_ret|]. destruct (rc =? ENOSPC); [|by apply only_ret].
  apply only_any. intros d. apply only_any. intros [[rc' o] d']. apply only_any. intros _.
  destruct (negb _); [by apply only_ret|]. destruct (decide _); [by apply only_ret|done].
Qed.

Lemma big_local_put fuel h mb ks grain op : Z.of_nat ks < 2 ^ 32 -> big mb ->
  only (fun r : Z * option Z * mbuff => big r.2) (local_put_mbuff env fuel h mb ks grain op).
Proof.
  intros Hks Hb. unfold local_put_mbuff. destruct (move_free_buffs_to mb mbuff_empty _) as [[mb1 key_mb] n] eqn:E1.
  destruct (big_move _ _ _ _ _ _ Hb big_empty E1) as [Hb1 Hk]. apply (only_bind (fun r => big r.2)); [by apply big_lookup_put_loop|].
  intros [[[rc trgt] old_md] key1] Hk1. apply (only_lift big); [intros k2; by apply big_reslice|]. intros k2 Hk2.
  destruct (move_free_buffs_to k2 mb1 _) as [[x mb2] n2] eqn:E2. destruct (big_move _ _ _ _ _ _ Hk2 Hb1 E2) as [_ Hb2].
  by apply big_put_dispatch.
Qed.

Lemma big_prepend_append_md mb ks vs grain : big mb ->
  only (fun r : Z * mbuff => big r.2) (mbuff_prepend_append_md env mb ks vs grain).
Proof.
  intros Hb. unfold mbuff_prepend_append_md. apply only_any. intros ts.
  pose proof (big_prepend_inline (header_fn (mkHeader (u16 ks) (u32 vs) ts)) false mb (header_fn_level _) Hb) as H1.
  destruct (prepend_inline _ _ mb) as [ok1 mb1]. set (crc := u16 _).
  pose proof (big_append_inline (suffix_fn crc) false mb1 (suffix_fn_level _) H1) as H2.
  destruct (append_inline _ _ mb1) as [ok2 mb2]. by apply only_ret.
Qed.

Lemma big_append_padding mb padding : Z.of_nat padding < 2 ^ 32 -> big mb ->
  only (fun r : Z * mbuff => big r.2) (mbuff_append_padding env mb padding).
Proof.
  intros Hp Hb. unfold mbuff_append_padding. apply (only_bind big).
  { destruct (_ <? _)%nat; [apply big_add_buffers; [lia|done]|by apply only_ret]. }
  intros mb1 Hb1. destruct (_ <? _)%nat; [by apply only_ret|]. apply (only_lift (fun r => big r.2)).
  { intros [st mb2] E. by eapply big_append; [apply pad_fn_level| |apply E]. }
  intros [rem mb2] Hb2. by apply only_ret.
Qed.

Lemma big_local_put_io mb ks : big mb -> only (fun r : Z * option Z * mbuff => big r.2) (local_put_mbuff_io env mb ks).
Proof.
  intros Hb. unfold local_put_mbuff_io. apply only_any. intros [err grain]. destruct (negb _); [by apply only_ret|].
  apply (only_bind (fun r => big r.2)); [by apply big_prepend_append_md|]. intros [err1 mb1] Hb1. cbn [snd] in Hb1.
  destruct (negb _); [apply only_any; intros _; by apply only_ret|].
  set (io := u64 (Z.of_nat (get_valid_size mb + _ + _))).
  assert (0 <= io < 2 ^ 64) as Hio by (unfold io, wrap; apply Z.mod_pos_bound; lia). pose proof (padding_bound io Hio) as Hpad.
  apply (only_bind (fun r => big r.2)); [apply big_append_padding; [lia|done]|]. intros [err2 mb2] Hb2. cbn [snd] in Hb2.
  destruct (negb _); [apply only_any; intros _; by apply only_ret|]. apply only_any. intros err3.
  destruct (negb _); [apply only_any; intros _|]; by apply only_ret.
Qed.

Lemma big_put_io_loop fuel size ks : forall mb, big mb -> only (fun r : Z * option Z * mbuff => big r.2) (put_io_loop env fuel mb size ks).
Proof.
  induction fuel as [|fuel IH]; intros mb Hb; [done|]. cbn [put_io_loop].
  apply (only_bind (fun r => big r.2)); [by apply big_local_put_io|]. intros [[rc grain] mb1] Hb1. cbn [snd] in Hb1.
  apply (only_lift big); [intros mb2; by apply big_reslice|]. intros mb2 Hb2.
  destruct (rc =? EAGAIN); [apply only_any; intros _; by apply IH|by apply only_ret].
Qed.

Lemma big_put_map_loop fuel h ks grain op : Z.of_nat ks < 2 ^ 32 -> forall mb, big mb ->
  only (fun r : Z * mbuff => big r.2) (put_map_loop env fuel h mb ks grain op).
Proof.
  intros Hks. induction fuel as [|fuel IH]; intros mb Hb; [done|]. cbn [put_map_loop].
  apply (only_bind (fun r => big r.2)); [by apply big_local_put|]. intros [[rc old] mb1] Hb1. cbn [snd] in Hb1.
  destruct (rc =? ENOSPC).
  { do 4 (apply only_any; intros ?). destruct (_ || _); [apply only_any; intros _; by apply IH|by apply only_ret]. }
  destruct (rc =? EALREADY); [apply only_any; intros _; by apply only_ret|].
  destruct (rc =? EAGAIN); [apply only_any; intros _; by apply IH|by apply only_ret].
Qed.

Lemma big_put_loop fuel h size ks op : Z.of_nat ks < 2 ^ 32 -> forall mb, big mb ->
  only (fun r : Z * mbuff => big r.2) (put_loop env fuel h mb size ks op).
Proof.
  intros Hks. induction fuel as [|fuel IH]; intros mb Hb; [done|]. cbn [put_loop].
  apply (only_bind (fun r => big r.2)); [by apply big_put_io_loop|]. intros [[rc grain] mb1] Hb1. cbn [snd] in Hb1.
  destruct (negb _); [by apply only_ret|]. do 2 (apply only_any; intros ?).
  apply (only_bind (fun r => big r.2)); [by apply big_put_map_loop|]. intros [rc2 mb2] Hb2. cbn [snd] in Hb2.
  do 2 (apply only_any; intros ?). destruct (rc2 =? EALREADY); [by apply IH|by apply only_ret].
Qed.

(** [put] gives the Mbuff back with buffers of [N] bytes or more. *)
Lemma big_put fuel mb ks op : Z.of_nat ks < 2 ^ 32 -> big mb -> only (fun r : Z * mbuff => big r.2) (put env fuel mb ks op).
Proof.
  intros Hks Hb. unfold put. apply only_any. intros [rc h]. destruct (negb _); [by apply only_ret|by apply big_put_loop].
Qed.

(** *** [del] *)

Lemma big_del_io_loop fuel ks : forall mb, big mb -> only (fun r : Z * option Z * mbuff => big r.2) (del_io_loop env fuel mb ks).
Proof.
  induction fuel as [|fuel IH]; intros mb Hb; [done|]. cbn [del_io_loop].
  apply (only_lift big); [intros mb1; by apply big_reslice|]. intros mb1 Hb1.
  apply (only_bind (fun r => big r.2)); [by apply big_local_put_io|]. intros [[rc grain] mb2] Hb2. cbn [snd] in Hb2.
  destruct (rc =? EAGAIN); [|by apply only_ret]. apply only_any. intros ?. by apply IH.
Qed.

(** Moving free buffers leaves the valid bytes of both sides. *)
Lemma move_valid_loop fuel : forall src dst moved max src' dst' n, move_free_loop fuel src dst moved max = (src', dst', n) ->
  get_valid_size src' = get_valid_size src /\ get_valid_size dst' = get_valid_size dst.
Proof.
  induction fuel as [|fuel IH]; intros src dst moved max src' dst' n; cbn [move_free_loop]; [by intros [= <- <- _]|].
  unfold get_free_buff, get_free_node. destruct (mb_free_ src) as [|x r]; [by intros [= <- <- _]|].
  destruct (_ <? _); [|by intros [= <- <- _]]. intros E. by destruct (IH _ _ _ _ _ _ _ E) as [-> ->].
Qed.

Definition big_sized (n : nat) (mb : mbuff) : Prop := big mb /\ get_valid_size mb = n.

Lemma big_local_del fuel h key ks : Z.of_nat ks < 2 ^ 32 -> big_sized ks key ->
  only (fun r : Z * mbuff => big_sized ks r.2) (local_del_mbuff env fuel h key).
Proof.
  intros Hks [Hb Hs]. unfold local_del_mbuff. rewrite Hs.
  destruct (move_free_buffs_to key mbuff_empty _) as [[key1 kmb] m] eqn:Em.
  destruct (big_move _ _ _ _ _ _ Hb big_empty Em) as [Hb1 Hbk]. destruct (move_valid_loop _ _ _ _ _ _ _ _ Em) as [Hs1 _].
  apply (only_bind (fun r : Z * option nat * store_header * mbuff => big r.2)); [by apply big_lookup_put_loop|].
  intros [[[rc trgt] md] kmb1] Hbk1. cbn [snd] in Hbk1.
  assert (forall mb, big mb -> only (big_sized ks) (mb' ← lift (reslice_ mb 0 0); mret (snd (fst (move_free_buffs_to mb' key1 (2 ^ 64 - 1)))))) as Hret.
  { intros mb Hm. apply (only_lift big); [intros x; by apply big_reslice|]. intros mb' Hm'. apply only_ret.
    destruct (move_free_buffs_to mb' key1 _) as [[x key2] m2] eqn:E2. destruct (big_move _ _ _ _ _ _ Hm' Hb1 E2) as [_ H2].
    split; [done|]. cbn [fst snd]. destruct (move_valid_loop _ _ _ _ _ _ _ _ E2) as [_ ->]. by rewrite Hs1. }
  cbv zeta. destruct (negb (rc =? EEXIST)).
  - apply (only_bind (big_sized ks)); [by apply Hret|]. intros key2 H2. by apply only_ret.
  - do 2 (apply only_any; intros ?). apply (only_bind (fun r => big r.2)); [by apply big_del_io_loop|].
    intros [[rc2 grain] kmb2] Hk2. apply (only_bind (big_sized ks)); [by apply Hret|]. intros key2 H2.
    apply only_any. intros _. destruct (negb _); [by apply only_ret|]. do 3 (apply only_any; intros ?).
    destruct (negb _); [by apply only_ret|]. do 4 (apply only_any; intros ?). by apply only_ret.
Qed.

(** So does [del]. *)
Lemma big_del fuel key : Z.of_nat (get_valid_size key) < 2 ^ 32 -> big key -> only (fun r : Z * mbuff => big r.2) (del env fuel key).
Proof.
  intros Hks Hb. unfold del. apply only_any. intros [rc h]. destruct (negb _); [by apply only_ret|].
  assert (forall mb, big_sized (get_valid_size key) mb -> only (fun r : Z * mbuff => big r.2) (del_loop env fuel h mb)) as H; [|by apply H].
  induction fuel as [|fuel IH]; intros mb Hm; [done|]. cbn [del_loop].
  apply (only_bind (fun r => big_sized (get_valid_size key) r.2)); [by apply big_local_del|]. intros [rc1 mb1] H1. cbn [snd] in H1.
  destruct (rc1 =? EAGAIN); [apply only_any; intros ?; by apply IH|]. apply only_ret. apply H1.
Qed.

End Big.

(** ** Buffers of a page *)

Definition page : nat := 4096.

(** An Mbuff whose buffers have a page or more each. *)
Definition paged (mb : mbuff) : Prop := short mb /\ Forall (fun b : Z * nat => (page <= b.2)%nat) (buffers mb).

Lemma paged_emptied mb : paged mb -> exists mb0, reslice_ mb 0 0 = Some mb0 /\ mb_wf mb0 /\ data mb0 = [] /\ roomy page mb0.
Proof.
  intros [[Hw Hlt] Hb]. destruct (reslice_spec mb 0 0 Hw) as (mb0 & He & Hw0 & Hd0 & Hb0); [lia|lia|].
  exists mb0. unfold reslice_. rewrite He. do 3 (split; [done|]). split; [|by rewrite Hb0].
  unfold reslice in He. destruct (_ <? _); [|cbn [Nat.eqb] in He; by injection He as <-].
  injection He as ? _. done.
Qed.

Lemma emptied_paged mb : mb_wf mb -> data mb = [] -> roomy page mb -> paged mb.
Proof. intros Hw Hd [_ Hr]. split; [split; [done|by rewrite Hd]|done]. Qed.

Lemma roomy_keeps mb mb' : roomy page mb -> keeps_room mb mb' -> roomy page mb'.
Proof. intros Hr Hk. apply Hk; [unfold page; lia|done]. Qed.

Lemma mbuff_empty_paged : paged mbuff_empty.
Proof. repeat split; simpl; try done; try constructor. Qed.

(** ** What a put does, whatever its mode *)

Section Put.
Context (env : kv_env) (Hq : quiet env) (k : Z) (s : kv) (recs : list krec) (Hinv : store_inv env k s recs).
Context (keyval : mbuff) (key val : list Z) (g : Z) (fuel : nat) (Hfuel : (BUCKET < fuel)%nat).
Context (Hpre : put_pre env s recs keyval key val g) (Hord : in_order env s recs key g).
Context (Hroom : key ∉ r_key <$> recs -> bucket_full (table (kv_map s) (e_hash env key)) (e_hash env key) = false).

Definition refuses (op : put_op) : bool :=
  bool_decide (op = REPLACE /\ key ∉ r_key <$> recs \/ op = CREATE /\ key ∈ r_key <$> recs).

Lemma put_outcome op : put_ends env k s keyval key val fuel op (if refuses op then EINVAL else 0)
  (if refuses op then recs else new_rec env s key val g :: others key recs).
Proof.
  unfold refuses. pose proof (si_keys _ _ _ _ Hinv) as Hnd. destruct (find_key key recs) as [(r & Hr & Hk)|Hk].
  - assert (key ∈ r_key <$> recs) as Hin by (apply list_elem_of_fmap; by exists r).
    pose proof (others_present r recs Hnd Hr) as Hp. rewrite Hk in Hp.
    pose proof (put_ends_existing env Hq k s recs Hinv keyval key val g fuel Hfuel Hpre op r _ Hp Hk) as H.
    destruct (decide (op = CREATE)) as [->|Hop].
    + rewrite bool_decide_eq_true_2 by (by right). by apply H.
    + rewrite bool_decide_eq_false_2 by naive_solver. apply H. intros _. by apply Hord.
  - pose proof (put_ends_new env Hq k s recs Hinv keyval key val g fuel Hfuel Hpre op Hk (Hroom Hk)) as H.
    destruct (decide (op = REPLACE)) as [->|Hop].
    + rewrite bool_decide_eq_true_2 by (by left). exact H.
    + rewrite bool_decide_eq_false_2 by naive_solver. by rewrite others_absent.
Qed.

End Put.

(** A key behind [pre] bytes at the start of an Mbuff that was emptied and given
    [size] bytes. *)
Lemma key_placed env mbf key pre size s : quiet env -> paged mbf -> (pre + length key <= size)%nat -> Z.of_nat size < 2 ^ 63 ->
  exists mb0 mb1 t mb2 n mb3 w, reslice_ mbf 0 0 = Some mb0 /\
    mbuff_add_buffers env mb0 size s = Some (mb1, at_tick t s) /\ (size <= get_free_size mb1)%nat /\
    append_uninitialized mb1 pre = Some mb2 /\ append_from_buffer mb2 key = Some (n, mb3) /\ mb_wf mb3 /\
    data mb3 = w ++ key /\ length w = pre /\ roomy page mb3 /\ (size - pre - length key <= append_avail_size mb3)%nat.
Proof.
  intros Hq Hmb Hsize Hsz. destruct (paged_emptied mbf Hmb) as (mb0 & E0 & Hw0 & Hd0 & Hr0).
  destruct (add_buffers_spec env Hq mb0 size s Hw0 Hsz) as (mb1 & t1 & E1 & Hw1 & Hd1 & Hf1 & Hk1).
  assert (size <= append_avail_size mb1)%nat as Ha1 by (unfold append_avail_size, get_free_size in *; lia).
  destruct (append_uninitialized_spec mb1 pre Hw1) as (mb2 & w & E2 & Hw2 & Hd2 & Hlw & _ & Ha2).
  pose proof (append_uninitialized_room _ _ _ Hw1 E2) as Hk2.
  destruct (append_from_buffer_spec mb2 key Hw2) as (mb3 & E3 & Hw3 & Hd3 & _ & Ha3).
  pose proof (append_from_buffer_room _ _ _ _ Hw2 E3) as Hk3. rewrite take_ge in Hd3 by lia.
  eexists mb0, mb1, t1, mb2, _, mb3, w. do 6 (split; [done|]). split; [by rewrite Hd3, Hd2, Hd1, Hd0|]. split; [lia|].
  split; [|lia]. apply (roomy_keeps mb0); [done|]. by do 2 (eapply keeps_room_trans; [eassumption|]).
Qed.

(** What the store needs for a value of [vl] bytes: the record fits a page, the
    allocator grants fresh grains in the order of the timestamps, and the bucket
    of a new key has room. *)
Record store_ready (env : kv_env) (k : Z) (recs : list krec) (g : Z) (key : list Z) (vl : Z) (s : kv) : Prop := {
  sr_inv : store_inv env k s recs;
  sr_fits : fits env (Z.of_nat (length key)) vl;
  sr_page : grains_of env (Z.of_nat (length key)) vl * e_grain_size env <= Z.of_nat page;
  sr_alloc : forall t, e_alloc env t = (0, g);
  sr_fresh : fresh_grains env recs g (grains_of env (Z.of_nat (length key)) vl);
  sr_ts : in_width 64 (kv_seg_ts s (grain_to_seg_idx env g));
  sr_order : in_order env s recs key g;
  sr_room : key ∉ r_key <$> recs -> bucket_full (table (kv_map s) (e_hash env key)) (e_hash env key) = false
}.

Lemma store_ready_tick env k recs g key vl s t : store_ready env k recs g key vl s -> store_ready env k recs g key vl (at_tick t s).
Proof. intros [H1 H2 H3 H4 H5 H6 H7 H8]. split; try done. by apply at_tick_inv. Qed.

(** Key and value in one page satisfy what [put] asks of its Mbuff. *)
Lemma page_ready env k recs g key val s mb : quiet env -> store_ready env k recs g key (Z.of_nat (length val)) s ->
  mb_wf mb -> data mb = key ++ val -> in_one page putKeyvalPrefixSize mb -> put_pre env s recs mb key val g.
Proof.
  intros Hq [_ Hfit Hpg Halloc Hfresh Hts _ _] Hw Hd (n & Hn & Ho & Hl & HN). rewrite Hd, length_app in Hl.
  pose proof (grains_spec env Hq _ _ Hfit) as [_ [Hlo _]].
  assert (append_space n = mb_buff_len_ n - (14 + (length key + length val)))%nat as Hs.
  { unfold append_space. rewrite Ho, Hl. unfold putKeyvalPrefixSize, sizeof_store. lia. }
  unfold page in *. pose proof (f_key _ _ _ Hfit). constructor; try done. constructor; [done| | |].
  - exists n, []. do 2 (split; [done || lia|]). done.
  - rewrite Hn. unfold tail_space, sizeof_suffix. simpl. lia.
  - unfold append_avail_size, tail_space, sizeof_suffix, pad_of. rewrite Hn. simpl. lia.
Qed.

Lemma quiet_mem env : quiet env -> forall t n ptr buf, e_membuf env t n = Some (ptr, buf) -> length buf = n.
Proof. intros Hq t n ptr buf E. destruct (q_mem _ Hq t n) as (ptr' & buf' & E' & Hn). by simplify_eq. Qed.

(** [put] gives the Mbuff back ready. *)
Lemma put_paged env fuel mb key val op s rc mb' s' : quiet env -> paged mb -> Z.of_nat (length key) < 2 ^ 16 ->
  Z.of_nat (length (key ++ val)) < 2 ^ 64 -> put env fuel mb (length key) op s = Some ((rc, mb'), s') -> mb_wf mb' ->
  data mb' = key ++ val -> paged mb'.
Proof.
  intros Hq [_ Hb] Hk Hl Ep Hw Hd. split; [split; [done|by rewrite Hd]|]. apply big_buffers.
  apply (big_put page (Nat.le_refl _) env (q_grain _ Hq)) in Ep; [done|by apply quiet_mem|lia|by apply big_buffers].
Qed.

(** [put] of a key and a value in one page. *)
Lemma put_one env k recs g key val s mb fuel : quiet env -> store_ready env k recs g key (Z.of_nat (length val)) s -> (BUCKET < fuel)%nat ->
  mb_wf mb -> data mb = key ++ val -> in_one page putKeyvalPrefixSize mb -> paged mb ->
  exists mb' s', put env fuel mb (length key) NORMAL s = Some ((0, mb'), s') /\ paged mb' /\
    store_inv env k s' (new_rec env s key val g :: others key recs).
Proof.
  intros Hq Hsr Hfuel Hw Hd Hone Hp. pose proof (page_ready env k recs g key val _ mb Hq Hsr Hw Hd Hone) as Hpre.
  destruct (put_outcome env Hq k _ recs (sr_inv _ _ _ _ _ _ _ Hsr) mb key val g fuel Hfuel Hpre
    (sr_order _ _ _ _ _ _ _ Hsr) (sr_room _ _ _ _ _ _ _ Hsr) NORMAL) as (mb' & s' & Ep & Hw' & Hd' & Hinv').
  unfold refuses in Ep, Hinv'. rewrite bool_decide_eq_false_2 in Ep by naive_solver. rewrite bool_decide_eq_false_2 in Hinv' by naive_solver.
  exists mb', s'. split; [done|]. split; [|done]. pose proof (f_key _ _ _ (sr_fits _ _ _ _ _ _ _ Hsr)).
  destruct Hp as [Hs Hb]. eapply (put_paged env fuel mb key val); [done|done|lia| |exact Ep|done|done].
  destruct Hs as [_ Hs]. by rewrite Hd in Hs.
Qed.

(** What a get of [key] finds: the code and the value. *)
Definition finds (recs : list krec) (key : list Z) (rc : Z) (val : list Z) : Prop :=
  (exists r, r ∈ recs /\ r_key r = key /\ rc = 0 /\ val = r_val r) \/ ((key ∉ (r_key <$> recs)) /\ absent_code rc /\ val = []).

(** [get] finds, and leaves the caller's Mbuff with buffers of a page. *)
Lemma get_finds env k s recs fuel key vmb : quiet env -> store_inv env k s recs -> (BUCKET < fuel)%nat ->
  mb_wf key -> 0 < Z.of_nat (length (data key)) < 2 ^ 16 -> short vmb -> roomy page vmb ->
  exists rc vmb' t, get env fuel key vmb s = Some ((rc, vmb'), at_tick t s) /\ paged vmb' /\ finds recs (data key) rc (data vmb').
Proof.
  intros Hq Hinv Hf Hw Hl Hv Hr.
  assert (forall mb0 mb len off, mb_wf mb0 -> (Z.of_nat off + Z.of_nat len < 2 ^ 64) -> (off + len <= length (data mb0))%nat -> keeps_room vmb mb0 ->
    reslice mb0 len off = Some (0, mb) -> mb_wf mb -> length (data mb) = len -> paged mb) as Hpg.
  { intros mb0 mb len off Hw0 Hlt Hle Hk E Hwm Hlen. destruct (reslice_spec mb0 len off Hw0 Hlt Hle) as (mb' & E' & _ & _ & Hb).
    rewrite E in E'. injection E' as <-. split; [split; [done|lia]|]. rewrite Hb. by apply (roomy_keeps vmb). }
  destruct (find_key (data key) recs) as [(r & Hin & Hk)|Hk].
  - destruct (get_found env Hq k s recs Hinv fuel key vmb r Hw Hl Hv Hf Hin Hk) as (mb0 & mb & t & rest & E & [Hw0 Hs0] & Hkr & Hd0 & Er & Hwm & Hd).
    pose proof (r_bytes_length r) as Hrl. unfold klen, vlen in Hrl. rewrite Hk in Hrl.
    assert (14 + length (data key) + length (r_val r) <= length (data mb0))%nat by (rewrite Hd0, length_app; lia).
    exists 0, mb, t. split; [done|]. split; [apply (Hpg mb0 mb (length (r_val r)) (14 + length (data key))%nat); try done; try lia; by rewrite Hd|].
    left. by exists r.
  - destruct (get_missed env Hq k s recs Hinv fuel key vmb Hw Hl Hv Hf Hk) as (mb0 & mb & t & E & [Hw0 _] & Hkr & Er & Hwm & Hd).
    eexists _, mb, t. split; [exact E|]. split; [apply (Hpg mb0 mb 0%nat 0%nat); try done; try lia; by rewrite Hd|].
    right. split; [done|]. split; [|done]. by eapply absent_code_err.
Qed.
