(* ===== verification/KvBytes.v ===== *)
(** * KvBytes: the store's interface on byte arrays (uDepot/udepot-lsa.cc)

    [get], [put], [del] and [exists] for keys and values in the caller's memory:
    the bytes are copied into Mbuffs of the cache, the Mbuff operations do the
    work, and the Mbuffs go back to the cache on every exit.  Then the theorem that
    any sequence of them is a finite map from byte strings to byte strings. *)
From Stdlib Require Import ZArith Lia.
From stdpp Require Import base tactics list numbers gmap.
From S2P Require Import Prelude Util HashEntry HopscotchMap HopscotchSpec FpTable DirectoryMap DirectoryGrow DirectoryOps.
From S2P Require Import Mbuff MbuffSpec MbuffHead StoreFormat KvStore KvIo KvInv KvGet KvWrite KvPut KvDel KvRefine.
From S2P Require Import MbuffChunks KvPage.

Open Scope Z_scope.

(** ** The operations *)

Section Ops.
Context (env : kv_env) (fuel : nat) (mbuff_alloc : nat -> bool).

(** Room for [size] bytes in an Mbuff of the cache; whether there is. *)
Definition ensure_free (mb : mbuff) (size : nat) : kvm (bool * mbuff) :=
  if (get_free_size mb <? size)%nat
  then mb1 ← mbuff_add_buffers env mb size; mret (negb (get_free_size mb1 <? size)%nat, mb1)
  else mret (true, mb).

(** The key copied to an Mbuff of the cache. *)
Definition copy_key (mb : mbuff) (key : list Z) : kvm (Z * mbuff) :=
  '(ok, mb1) ← ensure_free mb (length key);
  if negb ok then mret (ENOMEM, mb1)
  else
    '(copied, mb2) ← lift (append_from_buffer mb1 key);
    mret (if (copied =? length key)%nat then 0 else ENOMEM, mb2).

Definition mb_put_some (o : option mbuff) (mbs : list mbuff) : kvm (list mbuff) :=
  match o with Some mb => mb_put mb mbs | None => mret mbs end.

(** The error code, the bytes copied to [val_buff] and the size of the value (the
    last two when there is no error), and the cache. *)
Definition get_bytes (key : list Z) (val_buff_size : nat) (mbs : list mbuff) : kvm (Z * option (list Z * nat) * list mbuff) :=
  '(key_mb, mbs1) ← mb_get mbuff_alloc mbs;
  '(val_mb, mbs2) ← mb_get mbuff_alloc mbs1;
  match key_mb, val_mb with
  | Some key_mb, Some val_mb =>
      '(err, key_mb1) ← copy_key key_mb key;
      if negb (err =? 0) then
        mbs3 ← mb_put key_mb1 mbs2; mbs4 ← mb_put val_mb mbs3; mret (err, None, mbs4)
      else
        '(err, val_mb1) ← get env fuel key_mb1 val_mb;
        out ← (if negb (err =? 0) then mret None
               else bytes ← lift (copy_to_buffer val_mb1 0 val_buff_size); mret (Some (bytes, get_valid_size val_mb1)));
        mbs3 ← mb_put key_mb1 mbs2; mbs4 ← mb_put val_mb1 mbs3; mret (err, out, mbs4)
  | _, _ => mbs3 ← mb_put_some key_mb mbs2; mbs4 ← mb_put_some val_mb mbs3; mret (ENOMEM, None, mbs4)
  end.

(** Prefix, key and value one behind the other in [kv]; then the prefix is taken off
    the valid bytes, so that [put] can prepend its header there. *)
Definition copy_keyval (kv : mbuff) (key val : list Z) : kvm (Z * mbuff) :=
  let prefix_size := putKeyvalPrefixSize in
  let total_size := (prefix_size + length key + length val + putKeyvalSuffixSize)%nat in
  '(ok, kv1) ← ensure_free kv total_size;
  if negb ok then mret (ENOMEM, kv1)
  else
    kv2 ← lift (append_uninitialized kv1 prefix_size);
    '(copied, kv3) ← lift (append_from_buffer kv2 key);
    if negb (copied =? length key)%nat then mret (ENOMEM, kv3)
    else
      '(copied, kv4) ← lift (append_from_buffer kv3 val);
      if negb (copied =? length val)%nat then mret (ENOMEM, kv4)
      else kv5 ← lift (reslice_ kv4 (length key + length val) prefix_size); mret (0, kv5).

Definition put_bytes (key val : list Z) (mbs : list mbuff) : kvm (Z * list mbuff) :=
  '(kv, mbs1) ← mb_get mbuff_alloc mbs;
  match kv with
  | None => mret (ENOMEM, mbs1)
  | Some kv =>
      '(err, kv1) ← copy_keyval kv key val;
      '(err, kv2) ← (if negb (err =? 0) then mret (err, kv1) else put env fuel kv1 (length key) NORMAL);
      mbs2 ← mb_put kv2 mbs1; mret (err, mbs2)
  end.

Definition del_bytes (key : list Z) (mbs : list mbuff) : kvm (Z * list mbuff) :=
  '(kv, mbs1) ← mb_get mbuff_alloc mbs;
  match kv with
  | None => mret (ENOMEM, mbs1)
  | Some kv =>
      '(err, kv1) ← copy_key kv key;
      '(err, kv2) ← (if negb (err =? 0) then mret (err, kv1) else del env fuel kv1);
      mbs2 ← mb_put kv2 mbs1; mret (err, mbs2)
  end.

(** [val_size] is what the caller passed when the key could not be copied. *)
Definition exists_bytes (key : list Z) (val_size : Z) (mbs : list mbuff) : kvm (Z * Z * list mbuff) :=
  '(key_mb, mbs1) ← mb_get mbuff_alloc mbs;
  match key_mb with
  | None => mret (ENOMEM, val_size, mbs1)
  | Some key_mb =>
      '(err, key_mb1) ← copy_key key_mb key;
      '(err, sz) ← (if negb (err =? 0) then mret (err, val_size) else kv_exists env fuel key_mb1);
      mbs2 ← mb_put key_mb1 mbs1; mret (err, sz, mbs2)
  end.

End Ops.

(** ** The cache *)

(** An Mbuff between two calls. *)
Definition cached (mb : mbuff) : Prop := mb_wf mb /\ data mb = [] /\ roomy page mb.

Lemma cached_short mb : cached mb -> short mb.
Proof. intros (Hw & Hd & _). split; [done|by rewrite Hd]. Qed.

Lemma cached_empty : cached mbuff_empty.
Proof. by repeat split; simpl; try constructor. Qed.

Lemma roomy_paged mb : mb_wf mb -> Z.of_nat (length (data mb)) < 2 ^ 64 -> roomy page mb -> paged mb.
Proof. by intros Hw Hl [_ Hb]. Qed.

Lemma tick_at s : tick s = at_tick (S (kv_tick s)) s.
Proof. done. Qed.

Section Runs.
Context (env : kv_env) (Hq : quiet env) (fuel : nat) (Hfuel : (BUCKET < fuel)%nat).
Context (mbuff_alloc : nat -> bool) (Halloc : forall t, mbuff_alloc t = true).

(** An Mbuff is taken out of the cache, and put back. *)
Lemma cache_get mbs s : Forall cached mbs -> exists mb mbs' t, mb_get mbuff_alloc mbs s = Some ((Some mb, mbs'), at_tick t s) /\
  cached mb /\ Forall cached mbs' /\ length mbs' = (length mbs - 1)%nat.
Proof.
  intros Hc. destruct mbs as [|mb mbs].
  - exists mbuff_empty, [], (S (kv_tick s)). cbn [mb_get]. unfold mbind, kvm_bind, ask. rewrite Halloc.
    split; [reflexivity|]. split; [apply cached_empty|done].
  - apply Forall_cons_iff in Hc as [Hm Hc]. exists mb, mbs, (kv_tick s). rewrite at_tick_self. cbn. rewrite Nat.sub_0_r. done.
Qed.

Lemma cache_put mb mbs s : paged mb -> Forall cached mbs ->
  exists mbs', mb_put mb mbs s = Some (mbs', s) /\ Forall cached mbs' /\ length mbs' = S (length mbs).
Proof.
  intros Hp Hc. destruct (paged_emptied mb Hp) as (mb0 & E & Hw & Hd & Hr). exists (mb0 :: mbs). unfold mb_put. rewrite E.
  split; [reflexivity|]. split; [by constructor|done].
Qed.

(** ** Filling an Mbuff of the cache *)

Lemma free_ensured mb size s : cached mb -> Z.of_nat size < 2 ^ 63 ->
  exists mb1 t, ensure_free env mb size s = Some ((true, mb1), at_tick t s) /\ cached mb1 /\ (size <= append_avail_size mb1)%nat.
Proof.
  intros (Hw & Hd & Hr) Hs. unfold ensure_free. destruct (Nat.ltb_spec (get_free_size mb) size) as [Hlt|Hge].
  - destruct (add_buffers_spec env Hq mb size s Hw Hs) as (mb1 & t & E & Hw1 & Hd1 & Hf & Hk). exists mb1, t.
    rewrite (bind_run _ _ _ _ _ E). rewrite (proj2 (Nat.ltb_ge _ _)) by done. split; [reflexivity|].
    split; [split; [done|split; [by rewrite Hd1|by apply (roomy_keeps mb)]]|]. unfold append_avail_size, get_free_size in *. lia.
  - exists mb, (kv_tick s). rewrite at_tick_self. do 2 (split; [done|]). unfold append_avail_size, get_free_size in *. lia.
Qed.

(** Bytes that fit are copied whole. *)
Lemma bytes_appended mb bs : mb_wf mb -> roomy page mb -> (length bs <= append_avail_size mb)%nat ->
  exists mb', append_from_buffer mb bs = Some (length bs, mb') /\ mb_wf mb' /\ data mb' = data mb ++ bs /\ roomy page mb' /\
    append_avail_size mb' = (append_avail_size mb - length bs)%nat.
Proof.
  intros Hw Hr Ha. destruct (append_from_buffer_spec mb bs Hw) as (mb' & E & Hw' & Hd & _ & Ha').
  rewrite Nat.min_l in E by done. rewrite take_ge in Hd by done. exists mb'. do 3 (split; [done|]). split; [|done].
  apply (roomy_keeps mb); [done|]. by apply (append_from_buffer_room _ _ _ _ Hw E).
Qed.

Lemma key_copied mb key s : cached mb -> Z.of_nat (length key) < 2 ^ 63 ->
  exists mb1 t, copy_key env mb key s = Some ((0, mb1), at_tick t s) /\ mb_wf mb1 /\ data mb1 = key /\ paged mb1.
Proof.
  intros Hc Hl. destruct (free_ensured mb (length key) s Hc Hl) as (mb1 & t & E & (Hw & Hd & Hr) & Ha).
  destruct (bytes_appended mb1 key Hw Hr Ha) as (mb2 & E2 & Hw2 & Hd2 & Hr2 & _). rewrite Hd in Hd2. exists mb2, t.
  unfold copy_key. rewrite (bind_run _ _ _ _ _ E). cbn [negb]. rewrite E2. erewrite bind_run by reflexivity. cbv beta iota. rewrite Nat.eqb_refl.
  do 3 (split; [done|]). apply roomy_paged; [done| |done]. rewrite Hd2. simpl. lia.
Qed.

Lemma keyval_copied mb key val s : cached mb -> (0 < length key)%nat -> (16 + length key + length val <= page)%nat ->
  exists mb1 t, copy_keyval env mb key val s = Some ((0, mb1), at_tick t s) /\ mb_wf mb1 /\ data mb1 = key ++ val /\
    in_one page putKeyvalPrefixSize mb1 /\ paged mb1.
Proof.
  intros Hc Hk Hp. unfold page in Hp. unfold copy_keyval. change putKeyvalPrefixSize with 14%nat. change putKeyvalSuffixSize with 2%nat.
  set (size := (14 + length key + length val + 2)%nat).
  destruct (free_ensured mb size s Hc ltac:(unfold size; lia)) as (mb1 & t & E1 & (Hw1 & Hd1 & Hr1) & Ha1).
  destruct (append_uninitialized_spec mb1 14 Hw1) as (mb2 & w & E2 & Hw2 & Hd2 & Hlw & _ & Ha2).
  rewrite Nat.min_r in Hlw by (unfold size in Ha1; lia). rewrite Hd1 in Hd2. cbn [app] in Hd2.
  pose proof (roomy_keeps _ _ Hr1 (append_uninitialized_room _ _ _ Hw1 E2)) as Hr2.
  destruct (bytes_appended mb2 key Hw2 Hr2 ltac:(unfold size in *; lia)) as (mb3 & E3 & Hw3 & Hd3 & Hr3 & Ha3).
  destruct (bytes_appended mb3 val Hw3 Hr3 ltac:(unfold size in *; lia)) as (mb4 & E4 & Hw4 & Hd4 & Hr4 & _).
  assert (data mb4 = w ++ key ++ val) as Hd by (by rewrite Hd4, Hd3, Hd2, app_assoc).
  assert (length (data mb4) = 14 + (length key + length val))%nat as Hl by (rewrite Hd, !length_app; lia).
  destruct (reslice_spec mb4 (length key + length val) 14 Hw4) as (mb5 & E5 & Hw5 & Hd5 & Hb5); [lia|lia|].
  destruct (in_one_resliced page mb4 (length key + length val) 14 mb5 Hw4 Hr4 ltac:(lia) ltac:(unfold page; lia) ltac:(lia) ltac:(done) E5) as (Hone & _).
  assert (data mb5 = key ++ val) as Hdk by (rewrite Hd5, Hd, drop_app_length' by lia; by rewrite take_ge by (rewrite length_app; lia)).
  exists mb5, t. rewrite (bind_run _ _ _ _ _ E1). cbn [negb]. rewrite E2. erewrite bind_run by reflexivity.
  rewrite E3. erewrite bind_run by reflexivity. cbv beta iota. rewrite Nat.eqb_refl. cbn [negb]. rewrite E4. erewrite bind_run by reflexivity.
  cbv beta iota. rewrite Nat.eqb_refl. cbn [negb]. unfold reslice_. rewrite E5. erewrite bind_run by reflexivity.
  do 4 (split; [done|]). split; [split; [done|rewrite Hdk, length_app; lia]|]. rewrite Hb5. apply Hr4.
Qed.

(** ** The operations on a store with records [recs] *)

Context (k : Z) (recs : list krec) (s : kv) (Hinv : store_inv env k s recs) (mbs : list mbuff) (Hmbs : Forall cached mbs).

(** A call ended with [r], the cache has [n] Mbuffs or what it had, and the store the records [recs']. *)
Definition ends {R} (m : kvm (R * list mbuff)) (n : nat) (P : R -> Prop) (recs' : list krec) : Prop :=
  exists r mbs' s', m s = Some ((r, mbs'), s') /\ Forall cached mbs' /\ length mbs' = Nat.max n (length mbs) /\ P r /\
    store_inv env k s' recs'.

(** The common frame: an Mbuff is taken, filled, used and put back. *)
Lemma put_back {R} (r : R) mb mbs' s' n : paged mb -> Forall cached mbs' -> length mbs' = (length mbs - 1)%nat -> n = Nat.max 1 (length mbs) ->
  exists mbs2, (mbs2 ← mb_put mb mbs'; mret (r, mbs2)) s' = Some ((r, mbs2), s') /\ Forall cached mbs2 /\ length mbs2 = n.
Proof.
  intros Hp Hc Hl ->. destruct (cache_put mb mbs' s' Hp Hc) as (mbs2 & E & Hc2 & Hl2). exists mbs2.
  rewrite (bind_run _ _ _ _ _ E). split; [reflexivity|]. split; [done|lia].
Qed.

Lemma put_bytes_ends key val g : store_ready env k recs g key (Z.of_nat (length val)) s ->
  ends (put_bytes env fuel mbuff_alloc key val mbs) 1 (fun rc => rc = 0) (new_rec env s key val g :: others key recs).
Proof.
  intros Hsr. pose proof (sr_fits _ _ _ _ _ _ _ Hsr) as Hfit. pose proof (f_key _ _ _ Hfit) as Hk.
  pose proof (grains_spec env Hq _ _ Hfit) as [_ [Hlo _]]. pose proof (sr_page _ _ _ _ _ _ _ Hsr) as Hpg.
  destruct (cache_get mbs s Hmbs) as (mb & mbs1 & t1 & E1 & Hc & Hc1 & Hl1).
  destruct (keyval_copied mb key val (at_tick t1 s) Hc) as (mb1 & t2 & E2 & Hw & Hd & Hone & Hp); [lia|unfold page in *; lia|].
  rewrite at_tick_at_tick in E2.
  destruct (put_one env k recs g key val _ mb1 fuel Hq (store_ready_tick _ _ _ _ _ _ _ t2 Hsr) Hfuel Hw Hd Hone Hp) as (mb2 & s2 & E3 & Hp2 & Hinv2).
  destruct (put_back 0 mb2 mbs1 s2 _ Hp2 Hc1 Hl1 eq_refl) as (mbs2 & E4 & Hc2 & Hl2). exists 0, mbs2, s2.
  unfold put_bytes. rewrite (bind_run _ _ _ _ _ E1). cbv beta iota. rewrite (bind_run _ _ _ _ _ E2). cbv beta iota. cbn [Z.eqb negb].
  rewrite (bind_run _ _ _ _ _ E3). cbv beta iota. by rewrite E4.
Qed.

Lemma get_bytes_ends key n : 0 < Z.of_nat (length key) < 2 ^ 16 ->
  ends (get_bytes env fuel mbuff_alloc key n mbs) 2
    (fun '(rc, out) => exists val, finds recs key rc val /\ out = if rc =? 0 then Some (take n val, length val) else None) recs.
Proof.
  intros Hk. destruct (cache_get mbs s Hmbs) as (kmb & mbs1 & t1 & E1 & Hck & Hc1 & Hl1).
  destruct (cache_get mbs1 (at_tick t1 s) Hc1) as (vmb & mbs2 & t2 & E2 & Hcv & Hc2 & Hl2). rewrite at_tick_at_tick in E2.
  destruct (key_copied kmb key (at_tick t2 s) Hck ltac:(lia)) as (kmb1 & t3 & E3 & Hw & Hd & Hp). rewrite at_tick_at_tick in E3.
  destruct (get_finds env k (at_tick t3 s) recs fuel kmb1 vmb Hq (at_tick_inv _ _ _ _ Hinv _) Hfuel Hw ltac:(by rewrite Hd)
    (cached_short _ Hcv) ltac:(apply Hcv)) as (rc & vmb1 & t4 & E4 & Hpv & Hf). rewrite at_tick_at_tick in E4. rewrite Hd in Hf.
  set (s4 := at_tick t4 s) in *. destruct (cache_put kmb1 mbs2 s4 Hp Hc2) as (mbs3 & E5 & Hc3 & Hl3).
  destruct (cache_put vmb1 mbs3 s4 Hpv Hc3) as (mbs4 & E6 & Hc4 & Hl4). destruct Hpv as [[Hwv _] _].
  set (out := if rc =? 0 then Some (take n (data vmb1), length (data vmb1)) else None).
  exists (rc, out), mbs4, s4. split; [|split; [done|split; [lia|split; [by exists (data vmb1)|by apply at_tick_inv]]]].
  unfold get_bytes. rewrite (bind_run _ _ _ _ _ E1). cbv beta iota. rewrite (bind_run _ _ _ _ _ E2). cbv beta iota.
  rewrite (bind_run _ _ _ _ _ E3). cbv beta iota. cbn [Z.eqb negb]. rewrite (bind_run _ _ _ _ _ E4). cbv beta iota.
  assert ((if negb (rc =? 0) then mret None
           else bytes ← lift (copy_to_buffer vmb1 0 n); mret (Some (bytes, get_valid_size vmb1)) : kvm (option (list Z * nat))) s4 = Some (out, s4)) as Eo.
  { unfold out. destruct (rc =? 0); cbn [negb]; [|reflexivity]. rewrite copy_to_buffer_spec, drop_0 by done.
    unfold get_valid_size. rewrite <- data_length by done. reflexivity. }
  rewrite (bind_run _ _ _ _ _ Eo).
  rewrite (bind_run _ _ _ _ _ E5), (bind_run _ _ _ _ _ E6). reflexivity.
Qed.

Lemma exists_bytes_ends key vs : 0 < Z.of_nat (length key) < 2 ^ 16 ->
  ends (exists_bytes env fuel mbuff_alloc key vs mbs) 1
    (fun '(rc, sz) => exists val, finds recs key rc val /\ sz = Z.of_nat (length val)) recs.
Proof.
  intros Hk. destruct (cache_get mbs s Hmbs) as (mb & mbs1 & t1 & E1 & Hc & Hc1 & Hl1).
  destruct (key_copied mb key (at_tick t1 s) Hc ltac:(lia)) as (mb1 & t2 & E2 & Hw & Hd & Hp). rewrite at_tick_at_tick in E2.
  destruct (exists_run env Hq k _ recs (at_tick_inv _ _ _ _ Hinv t2) fuel mb1 Hw ltac:(by rewrite Hd) Hfuel) as [Hpres Habs]. rewrite Hd in Hpres, Habs.
  assert (exists rc sz t, kv_exists env fuel mb1 (at_tick t2 s) = Some ((rc, sz), at_tick t s) /\
    exists val, finds recs key rc val /\ sz = Z.of_nat (length val)) as (rc & sz & t3 & E3 & Hf).
  { destruct (find_key key recs) as [(r & Hr & Hrk)|Hnone].
    - destruct (Hpres r Hr Hrk) as (t & E). rewrite at_tick_at_tick in E. exists 0, (vlen r), t. split; [done|]. exists (r_val r). split; [left; by exists r|done].
    - destruct (Habs Hnone) as (t & E). rewrite at_tick_at_tick in E. eexists _, 0, t. split; [exact E|]. exists [].
      split; [|done]. right. split; [done|]. split; [by eapply absent_code_err|done]. }
  destruct (put_back (rc, sz) mb1 mbs1 (at_tick t3 s) _ Hp Hc1 Hl1 eq_refl) as (mbs2 & E4 & Hc2 & Hl2).
  exists (rc, sz), mbs2, (at_tick t3 s). split; [|split; [done|split; [done|split; [done|by apply at_tick_inv]]]].
  unfold exists_bytes. rewrite (bind_run _ _ _ _ _ E1). cbv beta iota. rewrite (bind_run _ _ _ _ _ E2). cbv beta iota. cbn [Z.eqb negb].
  rewrite (bind_run _ _ _ _ _ E3). cbv beta iota. exact E4.
Qed.

Lemma del_bytes_ends key g : 0 < Z.of_nat (length key) < 2 ^ 16 ->
  (key ∈ r_key <$> recs -> store_ready env k recs g key 0 s) ->
  ends (del_bytes env fuel mbuff_alloc key mbs) 1 (fun rc => rc = if bool_decide (key ∈ r_key <$> recs) then 0 else ENODATA) (others key recs).
Proof.
  intros Hk Hready. destruct (cache_get mbs s Hmbs) as (mb & mbs1 & t1 & E1 & Hc & Hc1 & Hl1).
  destruct (key_copied mb key (at_tick t1 s) Hc ltac:(lia)) as (mb1 & t2 & E2 & Hw & Hd & Hp). rewrite at_tick_at_tick in E2.
  assert (exists mb2 s2, del env fuel mb1 (at_tick t2 s) = Some ((if bool_decide (key ∈ r_key <$> recs) then 0 else ENODATA, mb2), s2) /\
    mb_wf mb2 /\ data mb2 = key /\ store_inv env k s2 (others key recs)) as (mb2 & s2 & E3 & Hw2 & Hd2 & Hinv2).
  { pose proof (at_tick_inv env k s recs Hinv t2) as Hi. pose proof (si_keys _ _ _ _ Hinv) as Hnd.
    destruct (find_key key recs) as [(r & Hr & Hrk)|Hnone].
    - assert (key ∈ r_key <$> recs) as Hin by (apply list_elem_of_fmap; by exists r). rewrite bool_decide_eq_true_2 by done.
      destruct (Hready Hin) as [_ Hfit Hpg Hal Hfr Hts Hord _]. pose proof (others_present r recs Hnd Hr) as Hperm. rewrite Hrk in Hperm.
      assert (del_pre env (at_tick t2 s) recs mb1 page g) as Hpre by (split; rewrite ?Hd; try done; apply Hp).
      destruct (del_present env Hq k _ recs Hi mb1 Hw ltac:(by rewrite Hd) page g Hpre fuel r (others key recs) Hfuel Hperm ltac:(by rewrite Hd) (Hord r Hr Hrk))
        as (mb2 & s2 & E & Hw2 & Hd2 & Hi2). exists mb2, s2. by rewrite Hd in Hd2.
    - rewrite bool_decide_eq_false_2 by done. rewrite others_absent by done.
      destruct (del_absent env Hq k _ recs Hi mb1 Hw ltac:(by rewrite Hd) fuel Hfuel ltac:(by rewrite Hd)) as (mb2 & t & E & Hw2 & Hd2).
      rewrite at_tick_at_tick in E. exists mb2, (at_tick t s). rewrite Hd in Hd2. do 3 (split; [done|]). by apply at_tick_inv. }
  assert (paged mb2) as Hp2.
  { split; [split; [done|rewrite Hd2; lia]|]. apply big_buffers. destruct Hp as [_ Hb].
    apply (big_del page (Nat.le_refl _) env (q_grain _ Hq)) in E3; [done|by apply quiet_mem| |by apply big_buffers].
    unfold get_valid_size. rewrite <- data_length, Hd by done. lia. }
  set (rc := if bool_decide _ then 0 else ENODATA) in *.
  destruct (put_back rc mb2 mbs1 s2 _ Hp2 Hc1 Hl1 eq_refl) as (mbs2 & E4 & Hc2 & Hl2). exists rc, mbs2, s2.
  unfold del_bytes. rewrite (bind_run _ _ _ _ _ E1). cbv beta iota. rewrite (bind_run _ _ _ _ _ E2). cbv beta iota. cbn [Z.eqb negb].
  rewrite (bind_run _ _ _ _ _ E3). cbv beta iota. by rewrite E4.
Qed.

End Runs.

(** ** Sequences of calls *)

Inductive bytes_call :=
  | BPut (key val : list Z)
  | BGet (key : list Z) (val_buff_size : nat)
  | BExists (key : list Z) (val_size : Z)
  | BDel (key : list Z).

Inductive bytes_reply :=
  | BCode (rc : Z)
  | BGot (rc : Z) (out : option (list Z * nat))
  | BSize (rc : Z) (val_size : Z).

Definition run_bytes (env : kv_env) (mbuff_alloc : nat -> bool) (c : bytes_call) (mbs : list mbuff) : kvm (bytes_reply * list mbuff) :=
  match c with
  | BPut key val => '(rc, mbs1) ← put_bytes env rounds_nr mbuff_alloc key val mbs; mret (BCode rc, mbs1)
  | BGet key n => '(r, mbs1) ← get_bytes env rounds_nr mbuff_alloc key n mbs; mret (BGot (fst r) (snd r), mbs1)
  | BExists key vs => '(r, mbs1) ← exists_bytes env rounds_nr mbuff_alloc key vs mbs; mret (BSize (fst r) (snd r), mbs1)
  | BDel key => '(rc, mbs1) ← del_bytes env rounds_nr mbuff_alloc key mbs; mret (BCode rc, mbs1)
  end.

(** A map answers [r] to [c] and becomes [m']: a get fills the caller's buffer and
    reports the size of the whole value. *)
Inductive map_bytes (m : kvmap) : bytes_call -> bytes_reply -> kvmap -> Prop :=
  | mb_put_ok key val : map_bytes m (BPut key val) (BCode 0) (<[key := val]> m)
  | mb_get_ok key n v : m !! key = Some v -> map_bytes m (BGet key n) (BGot 0 (Some (take n v, length v))) m
  | mb_get_absent key n rc : m !! key = None -> absent_code rc -> map_bytes m (BGet key n) (BGot rc None) m
  | mb_exists_ok key vs v : m !! key = Some v -> map_bytes m (BExists key vs) (BSize 0 (Z.of_nat (length v))) m
  | mb_exists_absent key vs rc : m !! key = None -> absent_code rc -> map_bytes m (BExists key vs) (BSize rc 0) m
  | mb_del_ok key v : m !! key = Some v -> map_bytes m (BDel key) (BCode 0) (delete key m)
  | mb_del_absent key : m !! key = None -> map_bytes m (BDel key) (BCode ENODATA) m.

Inductive map_bytes_list : kvmap -> list (kv_env * bytes_call) -> list bytes_reply -> kvmap -> Prop :=
  | mbl_nil m : map_bytes_list m [] [] m
  | mbl_cons m m1 m2 env c l r rs :
      map_bytes m c r m1 -> map_bytes_list m1 l rs m2 -> map_bytes_list m ((env, c) :: l) (r :: rs) m2.

(** The calls one after the other, with the cache of the thread between them. *)
Fixpoint run_bytes_list (mbuff_alloc : nat -> bool) (l : list (kv_env * bytes_call)) (mbs : list mbuff) (s : kv) :
    option (list bytes_reply * list mbuff * kv) :=
  match l with
  | [] => Some ([], mbs, s)
  | (env, c) :: l =>
      '(r, mbs1, s1) ← run_bytes env mbuff_alloc c mbs s;
      '(rs, mbs2, s2) ← run_bytes_list mbuff_alloc l mbs1 s1;
      Some (r :: rs, mbs2, s2)
  end.

(** The records after a call for which the allocator gave grain [g]. *)
Definition bytes_recs (env : kv_env) (s : kv) (recs : list krec) (g : Z) (c : bytes_call) : list krec :=
  match c with
  | BPut key val => new_rec env s key val g :: others key recs
  | BGet _ _ | BExists _ _ => recs
  | BDel key => others key recs
  end.

(** Keys of 1 byte to 64 KiB; for what is written (a record, or the tombstone of a
    key that is there) the store is ready. *)
Definition bytes_call_ok (env : kv_env) (k : Z) (s : kv) (recs : list krec) (g : Z) (c : bytes_call) : Prop :=
  match c with
  | BPut key val => store_ready env k recs g key (Z.of_nat (length val)) s
  | BGet key _ | BExists key _ => 0 < Z.of_nat (length key) < 2 ^ 16
  | BDel key => 0 < Z.of_nat (length key) < 2 ^ 16 /\ (key ∈ r_key <$> recs -> store_ready env k recs g key 0 s)
  end.

Fixpoint bytes_list_ok (e0 : kv_env) (k : Z) (mbuff_alloc : nat -> bool) (mbs : list mbuff) (s : kv) (recs : list krec)
    (l : list (kv_env * bytes_call)) : Prop :=
  match l with
  | [] => True
  | (env, c) :: l =>
      same_store e0 env /\ quiet env /\
      exists g, bytes_call_ok env k s recs g c /\
        forall r mbs' s', run_bytes env mbuff_alloc c mbs s = Some ((r, mbs'), s') ->
          bytes_list_ok e0 k mbuff_alloc mbs' s' (bytes_recs env s recs g c) l
  end.

(** ** The simulation *)

Lemma ends_with {R R'} env k s mbs (m : kvm (R * list mbuff)) (f : R -> R') n (P : R -> Prop) (Q : R' -> Prop) recs' :
  ends env k s mbs m n P recs' -> (forall r, P r -> Q (f r)) ->
  ends env k s mbs ('(r, mbs1) ← m; mret (f r, mbs1)) n Q recs'.
Proof.
  intros (r & mbs' & s' & E & Hc & Hl & HP & Hi) HQ. exists (f r), mbs', s'. rewrite (bind_run _ _ _ _ _ E).
  split; [reflexivity|]. do 2 (split; [done|]). split; [by apply HQ|done].
Qed.

Lemma finds_content recs key rc val : NoDup (r_key <$> recs) -> finds recs key rc val ->
  rc = 0 /\ content recs !! key = Some val \/ absent_code rc /\ content recs !! key = None /\ val = [].
Proof.
  intros Hnd [(r & Hr & <- & -> & ->)|(Hk & Ha & ->)]; [left|right].
  - split; [done|]. by apply content_present.
  - split; [done|]. split; [by apply content_absent|done].
Qed.

Lemma absent_not_ok rc : absent_code rc -> (rc =? 0) = false.
Proof. by intros [-> | ->]. Qed.

Lemma bytes_refined env k s recs mbs mbuff_alloc g c : quiet env -> (forall t, mbuff_alloc t = true) -> store_inv env k s recs ->
  Forall cached mbs -> bytes_call_ok env k s recs g c ->
  exists n, (n <= 2)%nat /\ ends env k s mbs (run_bytes env mbuff_alloc c mbs) n
    (fun r => map_bytes (content recs) c r (content (bytes_recs env s recs g c))) (bytes_recs env s recs g c).
Proof.
  intros Hq Ha Hinv Hc Hok. pose proof (si_keys _ _ _ _ Hinv) as Hnd. destruct c as [key val|key n|key vs|key]; cbn [bytes_call_ok bytes_recs run_bytes] in *.
  - exists 1%nat. split; [lia|]. eapply ends_with; [by apply put_bytes_ends; [done|apply rounds_enough|done|done|]|].
    intros rc ->. rewrite content_put by done. constructor.
  - exists 2%nat. split; [lia|]. eapply ends_with; [by apply get_bytes_ends; [done|apply rounds_enough|done|done|done|]|].
    intros [rc out] (val & Hf & ->). cbn [fst snd]. destruct (finds_content _ _ _ _ Hnd Hf) as [[-> Hv]|(Hab & Hv & _)].
    + by constructor.
    + rewrite absent_not_ok by done. by constructor.
  - exists 1%nat. split; [lia|]. eapply ends_with; [by apply exists_bytes_ends; [done|apply rounds_enough|done|done|done|]|].
    intros [rc sz] (val & Hf & ->). cbn [fst snd]. destruct (finds_content _ _ _ _ Hnd Hf) as [[-> Hv]|(Hab & Hv & ->)]; by constructor.
  - exists 1%nat. split; [lia|]. destruct Hok as [Hk Hready].
    eapply ends_with; [by apply (del_bytes_ends env Hq rounds_nr rounds_enough mbuff_alloc Ha k recs s Hinv mbs Hc key g)|].
    intros rc ->. rewrite content_others. destruct (find_key key recs) as [(r & Hr & <-)|Hnone].
    + rewrite bool_decide_eq_true_2 by (apply list_elem_of_fmap; by exists r). apply (mb_del_ok _ _ (r_val r)). by apply content_present.
    + rewrite bool_decide_eq_false_2 by done. pose proof (content_absent _ _ Hnone) as Hn. rewrite delete_id by done. by constructor.
Qed.

Lemma bytes_list_refined e0 k mbuff_alloc l : (forall t, mbuff_alloc t = true) -> forall mbs s recs,
  store_inv e0 k s recs -> Forall cached mbs -> (length mbs <= 2)%nat -> bytes_list_ok e0 k mbuff_alloc mbs s recs l ->
  exists rs mbs' s' recs', run_bytes_list mbuff_alloc l mbs s = Some (rs, mbs', s') /\ (length mbs' <= 2)%nat /\
    store_inv e0 k s' recs' /\ map_bytes_list (content recs) l rs (content recs').
Proof.
  intros Ha. induction l as [|[env c] l IH]; intros mbs s recs Hinv Hc Hl Hok.
  { exists [], mbs, s, recs. do 3 (split; [done|]). constructor. }
  destruct Hok as (Hs & Hq & g & Hok & Hnext).
  destruct (bytes_refined env k s recs mbs mbuff_alloc g c Hq Ha (store_inv_geometry _ _ _ _ _ Hs Hinv) Hc Hok)
    as (n & Hn & r & mbs1 & s1 & E1 & Hc1 & Hl1 & Hm & Hinv1).
  destruct (IH mbs1 s1 (bytes_recs env s recs g c)) as (rs & mbs2 & s2 & recs' & E2 & Hl2 & Hinv2 & Hm2).
  { apply (store_inv_geometry env); [by apply same_store_sym|done]. } { done. } { lia. } { by apply (Hnext r). }
  exists (r :: rs), mbs2, s2, recs'. cbn [run_bytes_list]. rewrite E1. cbn [mbind option_bind]. rewrite E2.
  do 3 (split; [done|]). by apply (mbl_cons _ (content (bytes_recs env s recs g c))).
Qed.


Definition bytes_sample : list (kv_env * bytes_call) :=
  [(env_at 100, BPut [1; 2] [3; 4; 5]); (env_at 0, BGet [1; 2] 2); (env_at 0, BExists [1; 2] 0);
   (env_at 0, BGet [7] 10); (env_at 0, BDel [7])].

(** The store is ready for the sample's put. *)
Lemma sample_store_ready : store_ready (env_at 100) 0 [] 100 [1; 2] 3 store0.
Proof.
  assert (put_pre (env_at 100) store0 [] (keyval_of [1; 2; 3; 4; 5]) [1; 2] [3; 4; 5] 100) as [_ Hfit _ Hal Hfr Hts].
  { apply (sample_put_pre store0 [] [1; 2; 3; 4; 5] 2 100); [lia|simpl; lia|closed_num|lia| |closed_num]. intros r Hr. by apply elem_of_nil in Hr. }
  constructor; [|exact Hfit| |exact Hal|exact Hfr|exact Hts| |].
  - apply kv_fresh_inv; [apply dir_small_inv|by vm_compute].
  - vm_compute. discriminate.
  - intros r Hr. by apply elem_of_nil in Hr.
  - intros _. by vm_compute.
Qed.


(** Whether a put works depends on what the cached Mbuff was used for before: the
    suffix of a record has to fit behind the value in the same buffer.  A put whose
    key and value leave one byte of a page works when the page it needs is not there
    yet, and is refused with EINVAL after a put that left a page in the cache. *)
Definition near_page : list Z := replicate 4080 6.

Lemma put_after_put_refused :
  (fun x => fst (fst x)) <$> put_bytes (env_at 100) rounds_nr (fun _ => true) [1] near_page [] store0 = Some 0 /\
  (fun x => fst (fst x)) <$> ('(_, mbs) ← put_bytes (env_at 100) rounds_nr (fun _ => true) [1] [2] [];
     put_bytes (env_at 102) rounds_nr (fun _ => true) [1] near_page mbs) store0 = Some EINVAL.
Proof. split; vm_compute; reflexivity. Qed.
