(* ===== verification/McSpec.v ===== *)
(** * McSpec: what the memcache server does with a request

    Reading a request from the connection, and the replies to the storage and
    retrieval requests, over the store's invariant. *)
From Stdlib Require Import ZArith Lia String.
From stdpp Require Import base tactics list numbers.
From S2P Require Import Prelude Util HashEntry HopscotchMap HopscotchSpec FpTable DirectoryMap DirectoryGrow DirectoryOps.
From S2P Require Import Mbuff MbuffSpec MbuffHead StoreFormat KvStore KvIo KvInv KvGet KvWrite KvPut KvRefine.
From S2P Require Import StateM CString McParse McServer McParseSpec MbuffChunks KvPage.

Open Scope Z_scope.

Lemma mc_run {A B} (m : mcm A) (f : A -> mcm B) s a s' : m s = Some (a, s') -> (m ≫= f) s = f a s'.
Proof. intros E. unfold mbind, stm_bind. by rewrite E. Qed.

(** The connection answers: every read delivers something, and short replies are
    taken whole. *)
Record net_ok (env : mc_env) : Prop := {
  nk_recv : forall t, 0 < me_recv env t;
  nk_send : forall t, 4096 <= me_send env t;
  nk_realloc : forall t, me_realloc env t = true
}.

(** [recv_append_to_mbuff] tests [recv_err] also when there is nothing left to
    receive and it was never set.  It happens to be 0, or no read brings more than
    [n] bytes, so that a block of [n] bytes does not come with the line before it. *)
Definition recv_err_ok (env : mc_env) (n : nat) : Prop :=
  (forall t, me_recv_err env t = 0) \/ (forall t, me_recv env t <= Z.of_nat n).

(** A connection that is not interrupted: every call moves something. *)
Record link_up (env : mc_env) : Prop := {
  lu_recv : forall t, 0 < me_recv env t;
  lu_send : forall t, 0 < me_send env t
}.

Lemma net_up env : net_ok env -> link_up env.
Proof. intros [H1 H2 _]. split; [done|]. intros t. specialize (H2 t). lia. Qed.

(** ** The connection *)

Section Con.
Context (env : mc_env) (Hup : link_up env).

(** [c'] is [c] after the bytes [i] were read and [o] was written. *)
Definition con_moved (c c' : con) (i o : list Z) : Prop :=
  cn_in c = i ++ cn_in c' /\ cn_out c' = cn_out c ++ o.

Lemma con_moved_trans c1 c2 c3 i1 o1 i2 o2 :
  con_moved c1 c2 i1 o1 -> con_moved c2 c3 i2 o2 -> con_moved c1 c3 (i1 ++ i2) (o1 ++ o2).
Proof. intros [H1 H2] [H3 H4]. split; [by rewrite H1, H3, app_assoc|by rewrite H4, H2, app_assoc]. Qed.

Lemma con_moved_refl c : con_moved c c [] [].
Proof. split; [done|by rewrite app_nil_r]. Qed.

Lemma recv_some n c : (0 < n)%nat -> cn_in c <> [] ->
  exists bs c', recv env n c = ((Z.of_nat (length bs), bs), c') /\ (0 < length bs <= n)%nat /\ con_moved c c' bs [].
Proof.
  intros Hn Hc. pose proof (lu_recv _ Hup (cn_tick c)) as Hr. unfold recv.
  rewrite (proj2 (Z.ltb_ge _ 0)) by lia. eexists _, _. split; [reflexivity|]. rewrite length_take.
  assert (0 < length (cn_in c))%nat by (destruct (cn_in c); [done|simpl; lia]). split; [lia|].
  split; cbn [cn_in cn_out]; [|by rewrite app_nil_r]. set (k := Nat.min _ n).
  rewrite <- (take_drop (Nat.min k (length (cn_in c))) (cn_in c)) at 1. f_equal.
  destruct (Nat.le_ge_cases k (length (cn_in c))); [by rewrite Nat.min_l|].
  rewrite Nat.min_r by done. by rewrite !take_ge by lia.
Qed.

Lemma recv_at_most n c r bs c' : recv env n c = ((r, bs), c') -> Z.of_nat (length bs) <= Z.max 0 (me_recv env (cn_tick c)).
Proof. unfold recv. destruct (_ <? 0); intros [= _ <- _]; [simpl; lia|]. rewrite length_take. lia. Qed.

Lemma recv_full_all fuel : forall n data c i rest, (n <= fuel)%nat -> length i = n -> cn_in c = i ++ rest ->
  exists c', recv_full env fuel n data c = ((0, data ++ i), c') /\ con_moved c c' i [].
Proof.
  induction fuel as [|fuel IH]; intros n data c i rest Hn Hi Hc.
  { destruct i; [|simpl in Hi; lia]. exists c. rewrite app_nil_r. split; [by destruct n|apply con_moved_refl]. }
  destruct n as [|n].
  { destruct i; [|simpl in Hi; lia]. exists c. rewrite app_nil_r. split; [done|apply con_moved_refl]. }
  cbn [recv_full]. destruct (recv_some (S n) c) as (bs & c1 & -> & Hl & Hm); [lia|rewrite Hc; destruct i; [simpl in Hi; lia|done]|].
  rewrite (proj2 (Z.ltb_ge _ 0)), (proj2 (Z.eqb_neq _ 0)) by lia. pose proof Hm as [H1 _].
  assert (i = bs ++ drop (length bs) i) as Hsplit.
  { rewrite Hc in H1. apply (f_equal (take (length bs))) in H1. rewrite take_app_le, take_app_length in H1 by lia.
    rewrite <- (take_drop (length bs) i) at 1. by rewrite H1. }
  destruct (IH (S n - length bs)%nat (data ++ bs) c1 (drop (length bs) i) rest) as (c2 & He & Hm2).
  - lia.
  - rewrite length_drop. lia.
  - rewrite Hc, Hsplit, <- app_assoc in H1. by apply app_inv_head in H1.
  - exists c2. rewrite He, <- app_assoc, <- Hsplit. split; [done|].
    pose proof (con_moved_trans _ _ _ _ _ _ _ Hm Hm2) as Hm3. by rewrite <- Hsplit in Hm3.
Qed.

(** The closure of [recv_append_to_mbuff] appends what comes next; [recv_err] is
    what it was before, [e0], until something was received. *)
Lemma recv_fn_stream c0 e0 bs : writes_stream (recv_fn env) (fun '(remaining, recv_err, c) s =>
  remaining = length s /\ exists i rest, recv_err = (if decide (i = []) then e0 else 0) /\
    bs = i ++ s /\ cn_in c = s ++ rest /\ con_moved c0 c i []).
Proof.
  intros [[remaining recv_err] c] s b (-> & i & rest & He & Hbs & Hc & Hm). unfold recv_fn.
  destruct (Nat.eqb_spec (Nat.min (length s) (length b)) 0) as [Hz|Hz].
  { rewrite Hz, !take_0, drop_0. do 4 (split; [done|]). by exists i, rest. }
  set (k := Nat.min (length s) (length b)) in *.
  destruct (recv_full_all k k [] c (take k s) (drop k s ++ rest)) as (c' & -> & Hm').
  { done. } { rewrite length_take. lia. } { by rewrite Hc, app_assoc, take_drop. }
  cbn [app]. rewrite length_take. replace (Nat.min k (length s)) with k by lia.
  split; [done|]. split; [apply write_at_length; rewrite length_take; lia|]. split.
  { unfold write_at. simpl. rewrite take_app_le, take_ge by (rewrite length_take; lia). done. }
  split; [by rewrite length_drop|]. exists (i ++ take k s), rest. split.
  { rewrite decide_False; [done|]. intros [_ Hk]%app_nil. apply (f_equal length) in Hk. rewrite length_take in Hk. simpl in Hk. lia. }
  split; [by rewrite <- app_assoc, take_drop|].
  split; [|apply (con_moved_trans _ _ _ _ _ _ _ Hm Hm')].
  destruct Hm' as [H1 _]. rewrite Hc, <- (take_drop k s), <- app_assoc in H1 at 1. by apply app_inv_head in H1.
Qed.

Lemma recv_full_length fuel : forall n data c,
  match recv_full env fuel n data c with ((_, d), _) => (length d <= length data + n)%nat end.
Proof.
  induction fuel as [|fuel IH]; intros n data c; [destruct n; simpl; lia|]. destruct n as [|n]; [simpl; lia|].
  cbn [recv_full]. unfold recv. destruct (_ <? 0); [simpl; lia|]. set (bs := take _ _).
  destruct (_ <? 0); [simpl; lia|]. destruct (_ =? 0); [simpl; lia|]. cbv beta iota.
  specialize (IH (S n - length bs)%nat (data ++ bs) (mkCon (drop (length bs) (cn_in c)) (cn_out c) (cn_errno c) (S (cn_tick c)))).
  destruct (recv_full _ _ _ _ _) as [[ret d] c']. rewrite length_app in IH.
  assert (length bs <= S n)%nat by (unfold bs; rewrite length_take; lia). lia.
Qed.

Lemma recv_fn_tame : tame (recv_fn env).
Proof.
  apply writes_tame. intros [[r e] k] b. unfold recv_fn.
  destruct (Nat.eqb_spec (Nat.min r (length b)) 0); [split; lia|].
  pose proof (recv_full_length (Nat.min r (length b)) (Nat.min r (length b)) [] k) as Hl.
  destruct (recv_full _ _ _ _ _) as [[err bs] c']. simpl in Hl. split; [lia|]. apply write_at_length. lia.
Qed.

Lemma recv_append_all mb bs c rest : mb_wf mb -> cn_in c = bs ++ rest -> (length bs <= append_avail_size mb)%nat ->
  (bs = [] -> forall t, me_recv_err env t = 0) ->
  exists mb' c', recv_append_to_mbuff env mb (Z.of_nat (length bs)) c = Some (0, mb', c') /\ mb_wf mb' /\
    data mb' = data mb ++ bs /\ keeps_room mb mb' /\ con_moved c c' bs [].
Proof.
  intros Hw Hc Ha Hz. unfold recv_append_to_mbuff. rewrite (proj2 (Z.ltb_ge _ _)) by lia. rewrite Nat2Z.id. set (e0 := me_recv_err env (cn_tick c)).
  destruct (append_stream _ _ (length bs, e0, c) bs mb (recv_fn_stream c e0 bs) Hw) as ([[rem err] c'] & mb' & He & Hw' & Hd & HP & _).
  { split; [done|]. exists [], rest. split; [done|]. do 2 (split; [done|]). apply con_moved_refl. }
  rewrite take_ge in Hd by done. rewrite drop_ge in HP by done. destruct HP as (_ & i & rest' & Herr & Hi & _ & Hm).
  rewrite app_nil_r in Hi. subst i. assert (err = 0) as ->.
  { rewrite Herr. destruct (decide (bs = [])) as [E|]; [by apply Hz|done]. }
  rewrite He. cbn [mbind option_bind]. exists mb', c'. split; [done|]. do 2 (split; [done|]).
  split; [|done]. by apply (append_room (recv_fn env) (length bs, e0, c) mb (rem, 0, c') mb' recv_fn_tame).
Qed.

(** ** Sending *)

Lemma send_short bs c : net_ok env -> Z.of_nat (length bs) <= 4096 ->
  exists c', send env bs c = (Z.of_nat (length bs), c') /\ con_moved c c' [] bs.
Proof.
  intros Hnet Hl. pose proof (nk_send _ Hnet (cn_tick c)) as Hs. unfold send. rewrite (proj2 (Z.ltb_ge _ 0)) by lia.
  rewrite take_ge by lia. eexists. split; [reflexivity|]. by split.
Qed.

(** The last piece has bytes. *)
Definition ends (iov : list (list Z)) : Prop := match list.last iov with None => True | Some b => b <> [] end.

Lemma ends_tail b iov : ends (b :: iov) -> ends iov.
Proof. unfold ends. destruct iov as [|b' iov]; [done|]. by rewrite last_cons_cons. Qed.

Lemma ends_bytes iov : ends iov -> iov <> [] -> concat iov <> [].
Proof.
  intros He Hne Hc. unfold ends in He. destruct (list.last iov) as [x|] eqn:El; [|by apply last_None in El].
  apply last_Some in El as [l ->]. rewrite concat_app in Hc. apply app_nil in Hc as [_ Hc]. simpl in Hc.
  by rewrite app_nil_r in Hc.
Qed.

Lemma iov_advance_spec iov : forall n, ends iov -> (n <= length (concat iov))%nat ->
  ends (iov_advance iov n) /\ concat (iov_advance iov n) = drop n (concat iov).
Proof.
  induction iov as [|b iov IH]; intros n He Hn; [simpl in *; by destruct n|]. cbn [iov_advance concat] in *.
  rewrite length_app in Hn. destruct (Nat.eqb_spec n 0) as [->|Hz]; [split; [done|]; by rewrite drop_0|].
  destruct (Nat.leb_spec (length b) n) as [Hle|Hgt].
  - destruct (IH (n - length b)%nat (ends_tail _ _ He)) as (H1 & H2); [lia|].
    split; [done|]. by rewrite H2, drop_app_ge.
  - split; [|cbn [concat]; by rewrite drop_app_le by lia].
    unfold ends in *. destruct iov as [|b' iov]; [|by rewrite last_cons_cons in *]. simpl in *.
    intros Hd. apply (f_equal length) in Hd. rewrite length_drop in Hd. simpl in Hd. lia.
Qed.

Lemma sendv_full_all rounds : forall iov acc c, ends iov -> (length (concat iov) <= rounds)%nat ->
  exists c', sendv_full env rounds iov acc c = Some (acc + Z.of_nat (length (concat iov)), c') /\
    con_moved c c' [] (concat iov).
Proof.
  induction rounds as [|rounds IH]; intros iov acc c He Hr; (destruct (decide (iov = [])) as [->|Hne];
    [exists c; split; [simpl; do 2 f_equal; lia|apply con_moved_refl]|]); pose proof (ends_bytes iov He Hne) as Hb.
  { destruct (concat iov); [done|simpl in Hr; lia]. }
  assert (0 < length (concat iov))%nat as Hpos by (destruct (concat iov); [done|simpl; lia]).
  pose proof (lu_send _ Hup (cn_tick c)) as Hs. assert (exists k c1, send env (concat iov) c = (Z.of_nat k, c1) /\
    (0 < k <= length (concat iov))%nat /\ con_moved c c1 [] (take k (concat iov))) as (k & c1 & Es & Hk & Hm).
  { unfold send. rewrite (proj2 (Z.ltb_ge _ 0)) by lia. eexists _, _. split; [reflexivity|].
    rewrite length_take. split; [lia|]. split; [done|]. cbn [cn_out]. f_equal.
    destruct (Nat.le_ge_cases (Z.to_nat (me_send env (cn_tick c))) (length (concat iov))); [by rewrite Nat.min_l|].
    rewrite Nat.min_r by done. by rewrite !take_ge by lia. }
  destruct (iov_advance_spec iov k He ltac:(lia)) as [He' Hc'].
  destruct (IH (iov_advance iov k) (acc + Z.of_nat k) c1 He') as (c2 & E2 & Hm2); [rewrite Hc', length_drop; lia|].
  exists c2. destruct iov as [|b iov]; [done|]. cbn [sendv_full]. rewrite Es. rewrite (proj2 (Z.ltb_ge _ 0)), Nat2Z.id by lia.
  rewrite E2, Hc'. rewrite length_drop. split; [do 2 f_equal; lia|].
  pose proof (con_moved_trans _ _ _ _ _ _ _ Hm Hm2) as H. rewrite Hc', take_drop in H. exact H.
Qed.

End Con.

(** ** Reading a request *)

Section Read.
Context (env : mc_env) (Hnet : net_ok env).

Definition set_con (c : con) (s : mcs) : mcs := mkMcs (ms_kv s) c (ms_mbs s).

Lemma con_ask_run {A} (f : nat -> A) s : exists c', con_ask f s = Some (f (cn_tick (ms_con s)), set_con c' s) /\
  con_moved (ms_con s) c' [] [].
Proof. eexists. split; [reflexivity|]. split; [done|]. cbn [cn_out]. by rewrite app_nil_r. Qed.

Lemma add_free_ok b n : exists ab, add_free_size true n b = (0, mkMsgBuff (bf_rcv b) ab (bf_pos b)).
Proof. unfold add_free_size. destruct (_ <=? _); [exists (bf_ab b); by destruct b|]. eexists. reflexivity. Qed.

Lemma no_line_yet line l : Forall (fun c => c <> 0 /\ c <> 10) line -> l `prefix_of` line ++ [13] -> memchr l 10 = None.
Proof.
  intros Hl [r Hr]. assert (10 ∉ l) as Hn.
  { intros Hin. assert (10 ∈ line ++ [13]) as Hx by (rewrite Hr; apply elem_of_app; by left).
    apply elem_of_app in Hx as [Hx|Hx%list_elem_of_singleton]; [|done].
    pose proof (proj1 (List.Forall_forall _ _) Hl 10 (proj1 (list_elem_of_In _ _) Hx)) as [_ H]. done. }
  clear Hr. induction l as [|x l IH]; [done|]. apply not_elem_of_cons in Hn as [Hx Hn]. cbn [memchr].
  rewrite (proj2 (Z.eqb_neq x 10)) by congruence. by rewrite IH.
Qed.

Context (line body : list Z) (Hne : line <> []) (Hline : Forall (fun c => c <> 0 /\ c <> 10) line).
Context (Hlen : (length line <= 1000)%nat).

(** What the buffer holds when the line is complete. *)
Definition line_buff (got : list Z) (ab : Z) : msg_buff := mkMsgBuff (line ++ 0 :: 10 :: got) ab (S (S (length line))).

Lemma read_cmd_line n : forall b c s, bf_rcv b ++ cn_in (ms_con s) = line ++ crlf ++ body ->
  (length (bf_rcv b) <= S (length line))%nat -> (length (cn_in (ms_con s)) < n)%nat ->
  exists got ab t con', body = got ++ cn_in con' /\ cn_out con' = cn_out (ms_con s) /\
    (exists t', Z.of_nat (length got) < me_recv env t') /\
    read_cmd env n b c s = Some ((line_buff got ab, parse (me_time env t) (line_buff got ab) c), set_con con' s).
Proof.
  induction n as [|n IH]; intros b c s Hb Hl Hn; [lia|]. cbn [read_cmd].
  destruct (con_ask_run (me_realloc env) s) as (c1 & E1 & Hm1). rewrite (mc_run _ _ _ _ _ E1).
  rewrite (nk_realloc _ Hnet). destruct (add_free_ok b read_cmd_chunk) as [ab ->]. cbv beta iota. cbn [Z.eqb negb].
  destruct Hm1 as [Hi1 Ho1]. cbn [app] in Hi1. rewrite app_nil_r in Ho1.
  destruct (recv_some env (net_up env Hnet) (Z.to_nat read_cmd_chunk) c1) as (bs & c2 & E2 & Hbs & Hi2 & Ho2).
  { unfold read_cmd_chunk. lia. }
  { rewrite <- Hi1. intros Hz. rewrite Hz, app_nil_r in Hb. rewrite Hb, !length_app in Hl. simpl in Hl. lia. }
  erewrite mc_run by (unfold on_con; cbn [ms_con set_con]; rewrite E2; reflexivity). cbv beta iota.
  erewrite mc_run by reflexivity. rewrite (proj2 (Z.eqb_neq (Z.of_nat (length bs)) 0)), (proj2 (Z.ltb_ge (Z.of_nat (length bs)) 0)) by lia.
  rewrite app_nil_r in Ho2. rewrite Hi1, Hi2, app_assoc in Hb. rewrite Hi1, Hi2, length_app in Hn. cbn [bf_rcv bf_ab bf_pos].
  set (s2 := mkMcs _ c2 _).
  destruct (decide (S (S (length line)) <= length (bf_rcv b ++ bs))%nat) as [Hfull|Hpart].
  - assert (exists got, bf_rcv b ++ bs = line ++ crlf ++ got /\ body = got ++ cn_in c2) as (got & Hgot & Hbody).
    { exists (drop (S (S (length line))) (bf_rcv b ++ bs)).
      pose proof (f_equal (take (S (S (length line)))) Hb) as Ht. pose proof (f_equal (drop (S (S (length line)))) Hb) as Hd.
      rewrite app_assoc in Ht, Hd. rewrite length_app in Hfull.
      assert (length (line ++ crlf) = S (S (length line))) as Hlc by (rewrite length_app; simpl; lia).
      rewrite (take_app_le (bf_rcv b ++ bs)) in Ht by (rewrite length_app; lia). rewrite (take_app_length' (line ++ crlf)) in Ht by done.
      rewrite (drop_app_le (bf_rcv b ++ bs)) in Hd by (rewrite length_app; lia). rewrite (drop_app_length' (line ++ crlf)) in Hd by done.
      split; [|by rewrite Hd]. rewrite app_assoc, <- Ht. by rewrite take_drop. }
    rewrite Hgot, try_parse_line by done. cbv beta iota. change (0 =? EAGAIN) with false. cbn [Z.eqb negb].
    destruct (con_ask_run (me_time env) s2) as (c3 & E3 & Hi3 & Ho3). rewrite (mc_run _ _ _ _ _ E3).
    exists got, ab, (cn_tick c2), c3. cbn [app] in Hi3. rewrite app_nil_r in Ho3. cbn [s2 ms_con] in Hi3, Ho3.
    split; [by rewrite <- Hi3|]. split; [by rewrite Ho3, Ho2, Ho1|]. split; [|reflexivity].
    exists (cn_tick c1). apply recv_at_most in E2. apply (f_equal length) in Hgot. rewrite !length_app in Hgot.
    change (length crlf) with 2%nat in Hgot. lia.
  - assert (bf_rcv b ++ bs `prefix_of` line ++ [13]) as Hpre.
    { exists (take (S (length line) - length (bf_rcv b ++ bs)) (cn_in c2)).
      pose proof (f_equal (take (S (length line))) Hb) as Ht. rewrite (take_app_ge (bf_rcv b ++ bs)) in Ht by lia.
      rewrite Ht. rewrite take_app_ge by lia. by replace (S (length line) - length line)%nat with 1%nat by lia. }
    unfold try_parse_command. cbn [bf_rcv]. rewrite (no_line_yet line) by done. unfold bf_rb. cbn [bf_rcv].
    rewrite (proj2 (Z.ltb_ge 1024 _)) by lia. cbn [andb]. change (EAGAIN =? EAGAIN) with true. cbv iota.
    destruct (IH (mkMsgBuff (bf_rcv b ++ bs) ab (bf_pos b)) c s2) as (got & ab' & t & c3 & H1 & H2 & Hr & H3).
    { exact Hb. } { cbn [bf_rcv]. lia. } { cbn [s2 ms_con]. lia. }
    exists got, ab', t, c3. split; [done|]. split; [by rewrite H2, <- Ho1, <- Ho2|]. split; [exact Hr|exact H3].
Qed.

End Read.

Lemma on_kv_run {A} (m : kvm A) s a k : m (ms_kv s) = Some (a, k) -> on_kv m s = Some (a, mkMcs k (ms_con s) (ms_mbs s)).
Proof. intros E. unfold on_kv. by rewrite E. Qed.

Lemma lifto_run {A} (o : option A) (s : mcs) a : o = Some a -> (lifto o : mcm A) s = Some (a, s).
Proof. by intros ->. Qed.

Lemma on_con_run {A} (f : con -> option (A * con)) s a c : f (ms_con s) = Some (a, c) -> on_con f s = Some (a, set_con c s).
Proof. intros E. unfold on_con. by rewrite E. Qed.

(** ** Storing *)

(** The value as it is stored: the expiry and the flags follow the data. *)
Definition stored_val (expiry flags : Z) (val : list Z) : list Z :=
  val ++ le_bytes sizeof_expiry expiry ++ le_bytes sizeof_flags flags.

Lemma stored_val_length expiry flags val : length (stored_val expiry flags val) = (length val + 12)%nat.
Proof. unfold stored_val. rewrite !length_app, !le_bytes_length. unfold sizeof_expiry, sizeof_flags. lia. Qed.

Section Store.
Context (env : mc_env) (Hnet : net_ok env) (Hq : quiet (me_kv env)) (fuel : nat) (Hfuel : (BUCKET < fuel)%nat).
Context (c : cmd) (b : msg_buff) (key val : list Z).
Context (Hckey : c_token c KEY_TOKEN = key) (Hcvlen : c_vlen c = Z.of_nat (length val)).
Context (Hkey : (0 < length key)%nat) (Hpage : (length key + length val + 28 <= page)%nat).

Local Abbreviation kenv := (me_kv env).
Local Abbreviation got := (drop (bf_pos b) (bf_rcv b)).

(** The bytes of the data block that are in the receive buffer already. *)
Lemma got_appended mb s : mb_wf mb -> (length got <= append_avail_size mb)%nat ->
  exists n mb', (if (0 <? length got)%nat then lifto (append_from_buffer mb got) else mret (0%nat, mb) : mcm (nat * mbuff)) s =
      Some ((n, mb'), s) /\ mb_wf mb' /\ data mb' = data mb ++ got /\ keeps_room mb mb' /\
      (append_avail_size mb' = append_avail_size mb - length got)%nat.
Proof.
  intros Hw Ha. destruct (Nat.ltb_spec 0 (length got)) as [Hpos|Hz].
  - destruct (append_from_buffer_spec mb got Hw) as (mb' & E & Hw' & Hd & _ & Ha'). rewrite take_ge in Hd by lia.
    eexists _, mb'. split; [by apply lifto_run|]. do 2 (split; [done|]).
    split; [by apply (append_from_buffer_room _ _ _ _ Hw E)|done].
  - destruct got; [|simpl in Hz; lia]. exists 0%nat, mb. rewrite app_nil_r. simpl. do 3 (split; [done|]).
    split; [by intros N _|lia].
Qed.

(** A complete data block with its end. *)
Lemma block_checked w mb s : mb_wf mb -> roomy page mb -> data mb = (w ++ key ++ val) ++ crlf -> length w = 14%nat ->
  exists mb', (lifto (read_val_char mb (14 + length key + length val)) : mcm Z) s = Some (13, s) /\
    (lifto (read_val_char mb (14 + length key + length val + 1)) : mcm Z) s = Some (10, s) /\
    (lifto (reslice_ mb (length key + length val) 14) : mcm mbuff) s = Some (mb', s) /\
    mb_wf mb' /\ data mb' = key ++ val /\ in_one page 14 mb'.
Proof.
  intros Hw Hr Hd Hw14. unfold page in *.
  assert (length (w ++ key ++ val) = 14 + length key + length val)%nat as Hlen by (rewrite !length_app; lia).
  destruct (reslice_spec mb (length key + length val) 14 Hw) as (mb' & E & _); [lia|rewrite Hd, length_app, Hlen; lia|].
  destruct (in_one_resliced 4096 mb (length key + length val) 14 mb' Hw Hr ltac:(lia) ltac:(lia)
    ltac:(rewrite Hd, length_app, Hlen; lia) ltac:(lia) E) as (Hone & Hw' & Hd').
  exists mb'. split; [|split; [|split; [apply lifto_run; unfold reslice_; by rewrite E|split; [done|split; [|done]]]]].
  - apply lifto_run, read_val_char_spec; [done| |lia]. rewrite Hd, <- Hlen. by apply list_lookup_middle.
  - apply lifto_run, read_val_char_spec; [done| |lia]. rewrite Hd, lookup_app_r by lia. rewrite Hlen.
    by replace (14 + length key + length val + 1 - (14 + length key + length val))%nat with 1%nat by lia.
  - rewrite Hd', Hd, <- app_assoc, drop_app_length' by lia. rewrite take_app_length'; [done|rewrite length_app; lia].
Qed.

(** The request's data block is received behind the key. *)
Lemma store_received mbf s rest :
  paged mbf -> got ++ cn_in (ms_con s) = (val ++ crlf) ++ rest -> (length got <= length (val ++ crlf))%nat ->
  (length got = length (val ++ crlf) -> forall t, me_recv_err env t = 0) ->
  exists mb t con', handle_store env fuel b c mbf s =
      store_dispatch env fuel (set_rsp RSP_SERVER_ERROR c) mb (mkMcs (at_tick t (ms_kv s)) con' (ms_mbs s)) /\
    mb_wf mb /\ data mb = key ++ val /\ in_one page putKeyvalPrefixSize mb /\
    cn_in con' = rest /\ cn_out con' = cn_out (ms_con s).
Proof.
  intros Hmb Hin Hgot Hz. unfold handle_store. rewrite Hckey, Hcvlen, Nat2Z.id.
  change putKeyvalPrefixSize with 14%nat. change putKeyvalSuffixSize with 2%nat. change sizeof_flags with 4%nat.
  change sizeof_expiry with 8%nat. change (length crlf) with 2%nat. set (size := Nat.max _ _).
  assert (14 + length key + length val + 2 <= size)%nat as Hsize by (unfold size; lia).
  destruct (key_placed kenv mbf key 14 size (ms_kv s) Hq Hmb ltac:(lia) ltac:(unfold size, page in *; lia))
    as (mb0 & mb1 & t & mb2 & n3 & mb3 & w & E0 & E1 & Hf & E2 & E3 & Hw3 & Hd3 & Hw14 & Hr3 & Ha3).
  rewrite (mc_run _ _ _ _ _ (lifto_run _ s _ E0)), (mc_run _ _ _ _ _ (on_kv_run _ s _ _ E1)).
  rewrite (proj2 (Nat.ltb_ge _ size)) by done. set (s1 := mkMcs (at_tick t (ms_kv s)) (ms_con s) (ms_mbs s)).
  rewrite (mc_run _ _ _ _ _ (lifto_run _ s1 _ E2)), (mc_run _ _ _ _ _ (lifto_run _ s1 _ E3)). cbv beta iota.
  set (bs := drop (length got) (val ++ crlf)). assert (val ++ crlf = got ++ bs) as Hvb.
  { apply (f_equal (take (length got))) in Hin. rewrite take_app_length, take_app_le in Hin by done.
    unfold bs. rewrite Hin at 1. by rewrite take_drop. }
  assert (length got + length bs = length val + 2)%nat as Hlb by (by rewrite <- length_app, <- Hvb, length_app).
  destruct (got_appended mb3 s1 Hw3 ltac:(lia)) as (n4 & mb4 & E4 & Hw4 & Hd4 & Hk4 & Ha4).
  rewrite (mc_run _ _ _ _ _ E4). cbv beta iota. rewrite (wrap_small 64) by (unfold in_width, page in *; lia).
  replace (Z.of_nat (length val + 2) - Z.of_nat (length got)) with (Z.of_nat (length bs)) by lia.
  rewrite Hvb, <- app_assoc in Hin. apply app_inv_head in Hin.
  destruct (recv_append_all env (net_up env Hnet) mb4 bs (ms_con s) rest Hw4 Hin ltac:(lia)
    ltac:(intros Hbs; apply Hz; rewrite Hbs in Hlb; rewrite length_app; simpl in *; lia)) as (mb5 & con5 & E5 & Hw5 & Hd5 & Hk5 & Hi5 & Ho5).
  erewrite (mc_run _ _ s1) by (apply on_con_run; cbn [s1 ms_con]; rewrite E5; reflexivity). cbn [Z.eqb negb].
  set (s5 := set_con con5 s1).
  destruct (block_checked w mb5 s5 Hw5) as (mb6 & E6 & E7 & E8 & Hw6 & Hd6 & Hone).
  { apply (roomy_keeps mb3); [done|]. by eapply keeps_room_trans. }
  { rewrite Hd5, Hd4, Hd3, <- !app_assoc. do 2 f_equal. by rewrite <- Hvb. } { done. }
  exists mb6, t, con5. split.
  { rewrite (mc_run _ _ _ _ _ E6). cbn [Z.eqb Pos.eqb]. rewrite (mc_run _ _ _ _ _ E7). cbn [Z.eqb Pos.eqb negb orb].
    by rewrite (mc_run _ _ _ _ _ E8). }
  do 3 (split; [done|]). split; [|by rewrite Ho5, app_nil_r]. rewrite Hin in Hi5. by apply app_inv_head in Hi5.
Qed.

Context (k : Z) (recs : list krec) (g : Z).

Local Abbreviation ready := (store_ready kenv k recs g key (Z.of_nat (length val + 12))).
Local Abbreviation sval := (stored_val (c_expiry c) (c_flags c) val).

Lemma one_ready s mb : ready s -> mb_wf mb -> data mb = key ++ sval -> in_one page putKeyvalPrefixSize mb ->
  put_pre kenv s recs mb key (sval) g.
Proof. intros Hr. apply (page_ready kenv k); [done|]. by rewrite stored_val_length. Qed.

Lemma stored s mb : ready (ms_kv s) -> mb_wf mb -> data mb = key ++ val -> in_one page putKeyvalPrefixSize mb ->
  c_req c = REQ_SET \/ c_req c = REQ_ADD \/ c_req c = REQ_REPLACE ->
  let refused := refuses recs key (store_op (c_req c)) in
  exists mb' s', store_dispatch env fuel (set_rsp RSP_SERVER_ERROR c) mb s =
      Some ((set_err 0 (set_rsp (if refused then RSP_NOT_STORED else RSP_STORED) c), mb'), mkMcs s' (ms_con s) (ms_mbs s)) /\
    store_inv kenv k s' (if refused then recs else new_rec kenv (ms_kv s) key (sval) g :: others key recs).
Proof.
  intros Hsr Hw Hd Hone Hreq refused. pose proof (stored_val_length (c_expiry c) (c_flags c) val) as Hlv.
  unfold putKeyvalPrefixSize, sizeof_store in Hone. unfold page in *.
  destruct (append_one 4096 14 mb (le_bytes sizeof_expiry (c_expiry c)) Hw Hone) as (mb1 & E1 & Hw1 & Hd1 & Hone1).
  { rewrite Hd, length_app, le_bytes_length. unfold sizeof_expiry. lia. }
  destruct (append_one 4096 14 mb1 (le_bytes sizeof_flags (c_flags c)) Hw1 Hone1) as (mb2 & E2 & Hw2 & Hd2 & Hone2).
  { rewrite Hd1, Hd, !length_app, !le_bytes_length. unfold sizeof_expiry, sizeof_flags. lia. }
  assert (data mb2 = key ++ sval) as Hdata by (rewrite Hd2, Hd1, Hd; unfold stored_val; by rewrite <- !app_assoc).
  destruct (put_outcome kenv Hq k (ms_kv s) recs (sr_inv _ _ _ _ _ _ _ Hsr) mb2 key (sval) g fuel Hfuel
    (one_ready _ _ Hsr Hw2 Hdata Hone2) (sr_order _ _ _ _ _ _ _ Hsr) (sr_room _ _ _ _ _ _ _ Hsr) (store_op (c_req c))) as (mb' & s' & Ep & _ & _ & Hinv').
  exists mb', s'. split; [|done]. unfold store_dispatch.
  change (c_token (set_rsp RSP_SERVER_ERROR c) KEY_TOKEN) with (c_token c KEY_TOKEN). rewrite Hckey.
  change (c_req (set_rsp RSP_SERVER_ERROR c)) with (c_req c). change (c_vlen (set_rsp RSP_SERVER_ERROR c)) with (c_vlen c).
  change (c_flags (set_rsp RSP_SERVER_ERROR c)) with (c_flags c). change (c_expiry (set_rsp RSP_SERVER_ERROR c)) with (c_expiry c).
  rewrite Hcvlen, Nat2Z.id. set (size := (_ + _ + putKeyvalSuffixSize)%nat).
  assert (reslice_ mb2 size 0 = Some mb2) as E3.
  { unfold reslice_. rewrite reslice_refused; [done|done|..]; rewrite ?Hdata, ?length_app, ?Hlv; unfold size, putKeyvalSuffixSize,
      putKeyvalPrefixSize, sizeof_flags, sizeof_expiry, sizeof_store, sizeof_suffix; lia. }
  clear Hinv'. fold refused in Ep. clearbody refused.
  destruct Hreq as [Hr|[Hr|Hr]]; rewrite Hr in *; cbv iota; rewrite (mc_run _ _ _ _ _ (lifto_run _ s _ E1)); cbv beta iota;
    rewrite (mc_run _ _ _ _ _ (lifto_run _ s _ E2)); cbv beta iota; rewrite (mc_run _ _ _ _ _ (lifto_run _ s _ E3));
    rewrite (mc_run _ _ _ _ _ (on_kv_run _ s _ _ Ep)); by destruct refused.
Qed.

End Store.
