(* ===== verification/McGet.v ===== *)
(** * McGet: how the memcache server answers a get

    From the key in a request to the reply with its value, over the store's
    invariant. *)
From Stdlib Require Import ZArith Lia String.
From stdpp Require Import base tactics list numbers.
From S2P Require Import Prelude Util HashEntry HopscotchMap HopscotchSpec FpTable DirectoryMap DirectoryGrow DirectoryOps.
From S2P Require Import Mbuff MbuffSpec MbuffHead StoreFormat KvStore KvIo KvInv KvGet KvWrite KvPut KvRefine.
From S2P Require Import StateM CString McParse McServer McParseSpec MbuffChunks KvPage McSpec.

Open Scope Z_scope.

(** The text between the key and the data of a value. *)
Definition mid_msg (flags vlen : Z) : list Z :=
  cstr " " ++ dec flags ++ cstr " " ++ dec vlen ++ cstr " " ++ crlf.

Definition get_reply (key : list Z) (flags : Z) (val : list Z) : list Z :=
  (cstr "VALUE " ++ key ++ mid_msg flags (Z.of_nat (length val))) ++ val ++ crlf ++ end_get_rsp_msg.

Lemma dec_digits_length m : forall k n, 0 <= n < 10 ^ Z.of_nat (S m) -> (length (dec_digits k n) <= S m)%nat.
Proof.
  induction m as [|m IH]; intros k n Hn; (destruct k as [|k]; [simpl; lia|]); cbn [dec_digits];
    destruct (Z.ltb_spec n 10); try (simpl; lia).
  rewrite length_app. enough (length (dec_digits k (n / 10)) <= S m)%nat by (simpl; lia). apply IH.
  rewrite (Nat2Z.inj_succ (S m)), Z.pow_succ_r in Hn by lia. split; [apply Z.div_pos; lia|apply Z.div_lt_upper_bound; lia].
Qed.

Lemma dec_length n m : 0 <= n < 10 ^ Z.of_nat (S m) -> (1 <= length (dec n) <= S m)%nat.
Proof.
  intros Hn. destruct (dec_facts n ltac:(lia)) as (c & l & E & _). split; [rewrite E; simpl; lia|by apply dec_digits_length].
Qed.

Lemma mid_msg_length flags vlen : in_width 32 flags -> 0 <= vlen < 2 ^ 31 -> (7 <= length (mid_msg flags vlen) <= 25)%nat.
Proof.
  intros Hf Hv. pose proof (dec_length flags 9 ltac:(unfold in_width in *; lia)). pose proof (dec_length vlen 9 ltac:(lia)).
  unfold mid_msg. rewrite !length_app. simpl. lia.
Qed.

Lemma length_nonempty (l : list Z) : l <> [] <-> (0 < length l)%nat.
Proof. destruct l; simpl; [|split; [lia|done]]. split; [done|lia]. Qed.

Lemma add_buffers_nodes env mb n s mb' s' : mbuff_add_buffers env mb n s = Some (mb', s') -> mb_nodes mb' = mb_nodes mb.
Proof.
  unfold mbuff_add_buffers. destruct (_ <=? _)%nat; [by intros [= <- _]|]. erewrite bind_run by reflexivity.
  destruct (e_membuf env _ _) as [[ptr buf]|]; by intros [= <- _].
Qed.

Lemma in_one_nodes N off mb mb' : mb_nodes mb' = mb_nodes mb -> data mb' = data mb -> in_one N off mb -> in_one N off mb'.
Proof. intros Hn Hd (n & ?). exists n. by rewrite Hn, Hd. Qed.

Lemma copy_from_end_spec mb a b off len : mb_wf mb -> data mb = a ++ b -> length b = off -> (len <= off)%nat ->
  copy_from_end mb off len = Some (take len b).
Proof.
  intros Hw Hd Hb Hl. unfold copy_from_end, get_valid_size. rewrite <- (data_length mb Hw), Hd, length_app.
  rewrite (proj2 (Nat.ltb_ge _ off)) by lia. rewrite copy_to_buffer_spec, Hd by done. do 2 f_equal. apply drop_app_length'. lia.
Qed.

(** The pieces of a short Mbuff. *)
Lemma sent_chunks mb : mb_wf mb -> data mb <> [] -> (length (data mb) <= 5000)%nat ->
  concat (chunk_list mb) = data mb /\
  (get_valid_nchunks mb 0 (get_valid_size mb) = Some (0, length (chunk_list mb)) /\ get_valid_size mb = length (data mb) /\
   forall m, (length (chunk_list mb) <= m)%nat -> fill_iov mb m = Some (Some (chunk_list mb))).
Proof.
  intros Hw Hd Hl. destruct (chunk_list_spec mb Hw Hd ltac:(lia)) as (Hc & _ & Hn & Hf). do 2 (split; [done|]).
  split; [|done]. symmetry. by apply data_length.
Qed.

Lemma one_chunk N off mb : mb_wf mb -> in_one N off mb -> (0 < length (data mb) <= 5000)%nat ->
  chunk_list mb = [data mb] /\ fill_iov mb 1 = Some (Some [data mb]).
Proof.
  intros Hw Ho Hl. assert (data mb <> []) as Hd by (apply length_nonempty; lia).
  pose proof (chunk_list_one N off mb Hw Ho Hd ltac:(lia)) as Hc. split; [done|].
  destruct (sent_chunks mb Hw Hd ltac:(lia)) as [_ (_ & _ & Hf)]. rewrite Hf; by rewrite Hc.
Qed.

Section Get.
Context (env : mc_env) (Hnet : net_ok env) (Hq : quiet (me_kv env)) (fuel rounds : nat) (Hfuel : (BUCKET < fuel)%nat).
Context (k : Z) (recs : list krec) (key : list Z) (Hk0 : (0 < length key)%nat) (Hkl : (length key <= max_key_length)%nat).

Local Abbreviation kenv := (me_kv env).
Local Abbreviation moved s t := (mkMcs (at_tick t (ms_kv s)) (ms_con s) (ms_mbs s)).

Lemma get_prepared kmb vmb s : paged kmb -> paged vmb ->
  exists kmb' vmb' t, prepare_kvmbuff_for_get env key kmb vmb s = Some ((0, kmb', vmb'), moved s t) /\
    mb_wf kmb' /\ data kmb' = key /\ in_one page 6 kmb' /\ mb_wf vmb' /\ data vmb' = [] /\ roomy page vmb'.
Proof.
  intros Hkp Hvp. unfold max_key_length in Hkl. unfold prepare_kvmbuff_for_get. set (need := (_ + fixed_cmd_size)%nat).
  destruct (key_placed kenv kmb key 6 need (ms_kv s) Hq Hkp ltac:(unfold need, fixed_cmd_size; lia) ltac:(unfold need, fixed_cmd_size; simpl; lia))
    as (mb0 & mb1 & t & mb2 & n & mb3 & w & E0 & E1 & Hf & E2 & E3 & Hw3 & Hd3 & Hw6 & Hr3 & _).
  destruct (paged_emptied vmb Hvp) as (vmb0 & Ev & Hwv & Hdv & Hrv).
  assert (6 + length key <= length (data mb3))%nat as Hlen by (rewrite Hd3, length_app; lia).
  destruct (reslice_spec mb3 (length key) 6 Hw3) as (mb4 & E4 & _); [lia|lia|].
  destruct (in_one_resliced page mb3 (length key) 6 mb4 Hw3 Hr3 Hk0 ltac:(unfold page; lia) Hlen ltac:(done) E4) as (Hone & Hw4 & Hd4).
  exists mb4, vmb0, t. rewrite (mc_run _ _ _ _ _ (lifto_run _ s _ E0)), (mc_run _ _ _ _ _ (on_kv_run _ s _ _ E1)).
  rewrite (proj2 (Nat.ltb_ge _ need)) by done. set (s1 := mkMcs _ _ _).
  rewrite (mc_run _ _ _ _ _ (lifto_run _ s1 _ E2)), (mc_run _ _ _ _ _ (lifto_run _ s1 _ E3)). cbv beta iota.
  erewrite (mc_run _ _ s1) by (apply lifto_run; unfold reslice_; rewrite E4; reflexivity).
  rewrite (mc_run _ _ _ _ _ (lifto_run _ s1 _ Ev)). do 2 (split; [done|]).
  split; [|done]. rewrite Hd4, Hd3, drop_app_length' by lia. by rewrite take_ge.
Qed.

(** A get that finds nothing. *)
Definition misses (c : cmd) (kmb vmb : mbuff) (s : mcs) : Prop :=
  exists rc n m c' kmb' vmb' t con', handle_single_kv_get env fuel c key kmb vmb s =
      Some ((rc, n, m, c', kmb', vmb'), mkMcs (at_tick t (ms_kv s)) con' (ms_mbs s)) /\
    rc <> 0 /\ c_err c' = c_err c /\ con_moved (ms_con s) con' [] [].

Lemma miss_answered c kmb vmb s : misses c kmb vmb s -> c_ntokens c = 3%nat -> c_token c KEY_TOKEN = key ->
  exists c' kmb' vmb' t con', handle_get env fuel rounds c vmb kmb s =
      Some ((c', vmb', kmb'), mkMcs (at_tick t (ms_kv s)) con' (ms_mbs s)) /\ c_err c' = c_err c /\
    con_moved (ms_con s) con' [] end_get_rsp_msg.
Proof.
  intros (rc & n & m & c' & kmb' & vmb' & t & con1 & E & Hrc & Hc & Hm) Hnt Htok.
  unfold handle_get. rewrite Hnt, Htok. cbn [Nat.ltb Nat.leb]. rewrite (mc_run _ _ _ _ _ E).
  rewrite (proj2 (Z.eqb_neq rc 0)) by done. cbn [negb].
  destruct (send_short env end_get_rsp_msg con1 Hnet ltac:(done)) as (con2 & E2 & Hm2).
  eexists c', kmb', vmb', t, con2. split; [|split; [done|by apply (con_moved_trans _ _ _ _ _ _ _ Hm Hm2)]].
  erewrite mc_run by (unfold send_end; erewrite mc_run by (apply on_con_run; cbn [ms_con]; rewrite E2; reflexivity);
    rewrite Z.eqb_refl; reflexivity). reflexivity.
Qed.

Lemma absent_misses c kmb vmb s : store_inv kenv k (ms_kv s) recs -> paged kmb -> paged vmb -> key ∉ r_key <$> recs ->
  misses c kmb vmb s.
Proof.
  intros Hinv Hkp Hvp Hk. unfold max_key_length in Hkl.
  destruct (get_prepared kmb vmb s Hkp Hvp) as (kmb1 & vmb1 & t1 & E1 & Hwk1 & Hdk1 & _ & Hwv1 & Hdv1 & _).
  destruct (get_run kenv Hq k (at_tick t1 (ms_kv s)) recs (at_tick_inv _ _ _ _ Hinv _) fuel kmb1 vmb1 Hwk1) as [_ Hmiss];
    [rewrite Hdk1; lia|split; [done|by rewrite Hdv1]|done|].
  destruct Hmiss as (vmb2 & t2 & E2 & _ & _); [by rewrite Hdk1|]. set (rc := absent_err _ _ _) in E2.
  assert (rc <> 0) as Hrc by (unfold rc, absent_err; by destruct (_ && _)).
  unfold misses, handle_single_kv_get. rewrite (mc_run _ _ _ _ _ E1). cbn [Z.eqb negb].
  eexists rc, _, _, c, kmb1, vmb2, t2, (ms_con s). split; [|split; [done|split; [done|apply con_moved_refl]]].
  erewrite mc_run by (unfold kv_get_for_mc; rewrite (mc_run _ _ _ _ _ (on_kv_run _ (moved s t1) _ _ E2));
    rewrite (proj2 (Z.eqb_neq rc 0)) by done; reflexivity).
  cbv beta iota. rewrite (proj2 (Z.eqb_neq rc 0)) by done. reflexivity.
Qed.

Context (now : Z) (Hnow : forall t, me_time env t = now).
Context (r : krec) (expiry flags : Z) (val : list Z) (Hr : r ∈ recs) (Hrk : r_key r = key).
Context (Hrv : r_val r = stored_val expiry flags val) (Hexp : 0 <= expiry < 2 ^ 63) (Hflags : in_width 32 flags).
Context (Hval : val <> []) (Hpage : (14 + length key + length val + 12 <= page)%nat).

(** The value's time has not passed. *)
Definition not_expired : bool := (expiry =? 0) || (now <=? expiry).

Lemma value_got c kmb vmb s : store_inv kenv k (ms_kv s) recs -> mb_wf kmb -> data kmb = key ->
  mb_wf vmb -> data vmb = [] -> roomy page vmb ->
  exists vmb' t con', kv_get_for_mc env fuel c kmb vmb s =
      Some ((if not_expired then 0 else ENODATA, set_expiry expiry c, vmb'), mkMcs (at_tick t (ms_kv s)) con' (ms_mbs s)) /\
    con_moved (ms_con s) con' [] [] /\ mb_wf vmb' /\ data vmb' = stored_val expiry flags val /\ in_one page (14 + length key) vmb'.
Proof.
  intros Hinv Hwk Hdk Hwv Hdv Hroom. unfold max_key_length in Hkl. pose proof (stored_val_length expiry flags val) as Hl.
  destruct (get_found kenv Hq k (ms_kv s) recs Hinv fuel kmb vmb r Hwk) as (mb0 & mb & t & rest & E & [Hw0 _] & Hk1 & Hd0 & Er & _ & Hd);
    [rewrite Hdk; lia|split; [done|by rewrite Hdv]|done|done|congruence|].
  rewrite Hrv, Hl, Hdk in Er. pose proof (r_bytes_length r) as Hrl. unfold klen, vlen in Hrl. rewrite Hrk, Hrv, Hl in Hrl.
  destruct (in_one_resliced page mb0 (length val + 12) (14 + length key) mb Hw0 (roomy_keeps _ _ Hroom Hk1) ltac:(lia) ltac:(lia)
    ltac:(rewrite Hd0, length_app; lia) ltac:(done) Er) as (Hone & Hw & _).
  rewrite Hrv in Hd. unfold kv_get_for_mc. rewrite (mc_run _ _ _ _ _ (on_kv_run _ s _ _ E)). cbn [Z.eqb].
  assert (copy_from_end mb (sizeof_flags + sizeof_expiry) sizeof_expiry = Some (le_bytes sizeof_expiry expiry)) as Ec.
  { erewrite (copy_from_end_spec mb val) by (exact Hw || exact Hd || (unfold sizeof_flags, sizeof_expiry; lia) ||
      (rewrite length_app, !le_bytes_length; done)). reflexivity. }
  rewrite (mc_run _ _ (moved s t) _ _ (lifto_run _ _ _ Ec)). rewrite le_bytes_length, Nat.eqb_refl. cbn [negb].
  rewrite le_val_bytes by (unfold in_width, sizeof_expiry; simpl; lia). rewrite s64_small by lia.
  change (c_expiry (set_expiry expiry c)) with expiry. unfold not_expired. destruct (Z.eqb_spec expiry 0) as [_|Hne].
  { eexists _, t, (ms_con s). split; [reflexivity|]. split; [apply con_moved_refl|done]. }
  destruct (con_ask_run (me_time env) (moved s t)) as (con' & Ea & Hm). rewrite (mc_run _ _ _ _ _ Ea), Hnow.
  eexists _, t, con'. split; [|done]. cbn [orb]. rewrite Z.ltb_antisym. by destruct (now <=? expiry).
Qed.

(** The end of the value is cut off and the end of the data put in its place. *)
Lemma value_ended vmb s : mb_wf vmb -> data vmb = stored_val expiry flags val -> in_one page (14 + length key) vmb ->
  exists vmb1 t vmb2 vmb3, mbuff_add_buffers kenv vmb (length crlf) s = Some (vmb1, at_tick t s) /\
    reslice_ vmb1 (get_valid_size vmb1 - (sizeof_flags + sizeof_expiry)) 0 = Some vmb2 /\
    append_from_buffer vmb2 crlf = Some (length crlf, vmb3) /\
    mb_wf vmb3 /\ data vmb3 = val ++ crlf /\ in_one page (14 + length key) vmb3.
Proof.
  intros Hwv Hdv Hv1. unfold page, max_key_length in *.
  destruct (add_buffers_spec kenv Hq vmb (length crlf) s Hwv) as (vmb1 & t & Ev1 & Hwv1 & Hdv1 & _); [done|].
  pose proof (in_one_nodes _ _ _ _ (add_buffers_nodes _ _ _ _ _ _ Ev1) Hdv1 Hv1) as Hv2.
  assert (get_valid_size vmb1 = length val + 12)%nat as Hvs1.
  { unfold get_valid_size. rewrite <- (data_length vmb1 Hwv1), Hdv1, Hdv. apply stored_val_length. }
  assert (0 < length val)%nat as Hpos by (by apply length_nonempty).
  destruct (in_one_prefix 4096 (14 + length key) vmb1 (length val) Hwv1 Hv2) as (vmb2 & Ev2 & Hwv2 & Hdv2 & Hv3);
    [rewrite Hdv1, Hdv, stored_val_length; lia..|].
  rewrite Hdv1, Hdv in Hdv2. unfold stored_val in Hdv2. rewrite take_app_length in Hdv2.
  destruct (append_one 4096 (14 + length key) vmb2 crlf Hwv2 Hv3) as (vmb3 & Ev3 & Hwv3 & Hdv3 & Hv4); [rewrite Hdv2; simpl; lia|].
  exists vmb1, t, vmb2, vmb3. split; [done|]. split; [|split; [done|split; [done|split; [by rewrite Hdv3, Hdv2|done]]]].
  rewrite Hvs1. replace (length val + 12 - (sizeof_flags + sizeof_expiry))%nat with (length val) by (unfold sizeof_flags, sizeof_expiry; lia).
  unfold reslice_. by rewrite Ev2.
Qed.

(** What is sent: the key with what surrounds it, and the value with its end. *)
Lemma send_prepared c kmb vmb s : mb_wf kmb -> data kmb = key -> in_one page 6 kmb ->
  mb_wf vmb -> data vmb = stored_val expiry flags val -> in_one page (14 + length key) vmb ->
  exists kmb' vmb' t, prepare_kvmbuff_for_send env c kmb vmb s = Some ((0, set_flags flags c, kmb', vmb'), moved s t) /\
    mb_wf kmb' /\ data kmb' = cstr "VALUE " ++ key ++ mid_msg flags (Z.of_nat (length val)) /\
    mb_wf vmb' /\ data vmb' = val ++ crlf /\ in_one page (14 + length key) vmb'.
Proof.
  intros Hwk Hdk Hk1 Hwv Hdv Hv1. unfold prepare_kvmbuff_for_send, max_key_length in *.
  destruct (value_ended vmb (ms_kv s) Hwv Hdv Hv1) as (vmb1 & t & vmb2 & vmb3 & Ev1 & Ev2 & Ev3 & Hv3). unfold page in *.
  destruct (prepend_one 4096 6 kmb (cstr "VALUE ") Hwk Hk1) as (n & kmb1 & Ek1 & Hwk1 & Hdk1 & Ha);
    [rewrite Hdk; by apply length_nonempty|done|]. rewrite (mc_run _ _ _ _ _ (lifto_run _ s _ Ek1)). cbv beta iota.
  erewrite (mc_run _ _ s) by (apply lifto_run, (copy_from_end_spec vmb (val ++ le_bytes sizeof_expiry expiry) (le_bytes sizeof_flags flags));
    [done|rewrite Hdv; apply app_assoc|apply le_bytes_length|done]).
  rewrite take_ge, le_val_bytes by (done || by rewrite le_bytes_length). change (c_flags (set_flags flags c)) with flags.
  assert (get_valid_size vmb = length val + 12)%nat as ->.
  { unfold get_valid_size. rewrite <- (data_length vmb Hwv), Hdv. apply stored_val_length. }
  replace (Z.of_nat (length val + 12) - 12) with (Z.of_nat (length val)) by lia. rewrite s32_small by lia.
  unfold dec_int. rewrite (proj2 (Z.ltb_ge _ 0)) by lia. fold (mid_msg flags (Z.of_nat (length val))).
  pose proof (mid_msg_length flags (Z.of_nat (length val)) Hflags ltac:(lia)) as Hm. set (mid := mid_msg _ _) in *.
  rewrite (proj2 (Nat.ltb_ge (length mid) 7)), (proj2 (Nat.ltb_ge 31 (length mid))) by lia. cbn [orb].
  destruct (append_from_buffer_spec kmb1 mid Hwk1) as (kmb2 & Ek2 & Hwk2 & Hdk2 & _). rewrite take_ge in Hdk2 by (rewrite Hdk in Ha; lia).
  exists kmb2, vmb3, t. split; [|split; [done|split; [by rewrite Hdk2, Hdk1, Hdk, <- app_assoc|done]]].
  rewrite (mc_run _ _ _ _ _ (lifto_run _ s _ Ek2)). cbv beta iota. rewrite (mc_run _ _ _ _ _ (on_kv_run _ s _ _ Ev1)).
  rewrite (mc_run _ _ _ _ _ (lifto_run _ _ _ Ev2)). by rewrite (mc_run _ _ _ _ _ (lifto_run _ _ _ Ev3)).
Qed.

Lemma key_part_short : (length (cstr "VALUE " ++ key ++ mid_msg flags (Z.of_nat (length val))) <= 300)%nat.
Proof.
  pose proof (mid_msg_length flags (Z.of_nat (length val)) Hflags ltac:(unfold page in *; lia)).
  unfold max_key_length in Hkl. rewrite !length_app. change (length (cstr "VALUE ")) with 6%nat. lia.
Qed.

Lemma single_found c kmb vmb s : store_inv kenv k (ms_kv s) recs -> paged kmb -> paged vmb -> not_expired = true ->
  exists c' kmb' vmb' t con', handle_single_kv_get env fuel c key kmb vmb s =
      Some ((0%Z, length (chunk_list kmb') + length (chunk_list vmb'), length (data kmb') + length (data vmb'), c', kmb', vmb')%nat,
            mkMcs (at_tick t (ms_kv s)) con' (ms_mbs s)) /\ con_moved (ms_con s) con' [] [] /\
    mb_wf kmb' /\ data kmb' = cstr "VALUE " ++ key ++ mid_msg flags (Z.of_nat (length val)) /\
    mb_wf vmb' /\ data vmb' = val ++ crlf /\ in_one page (14 + length key) vmb'.
Proof.
  intros Hinv Hkp Hvp Hlive. unfold handle_single_kv_get.
  destruct (get_prepared kmb vmb s Hkp Hvp) as (kmb1 & vmb1 & t1 & E1 & Hwk1 & Hdk1 & Hk1 & Hwv1 & Hdv1 & Hrv1).
  rewrite (mc_run _ _ _ _ _ E1). cbn [Z.eqb negb].
  destruct (value_got c kmb1 vmb1 (moved s t1) (at_tick_inv _ _ _ _ Hinv _) Hwk1 Hdk1 Hwv1 Hdv1 Hrv1)
    as (vmb2 & t2 & con2 & E2 & Hm2 & Hwv2 & Hdv2 & Hv2). rewrite Hlive in E2. rewrite (mc_run _ _ _ _ _ E2). cbn [Z.eqb negb].
  destruct (send_prepared (set_expiry expiry c) kmb1 vmb2 (mkMcs (at_tick t2 (ms_kv (moved s t1))) con2 (ms_mbs s)) Hwk1 Hdk1 Hk1 Hwv2 Hdv2 Hv2)
    as (kmb3 & vmb3 & t3 & E3 & Hwk3 & Hdk3 & Hwv3 & Hdv3 & Hv3). rewrite (mc_run _ _ _ _ _ E3). cbn [Z.eqb negb].
  destruct (sent_chunks kmb3 Hwk3) as [_ (E4 & Hs4 & _)]; [by rewrite Hdk3|rewrite Hdk3; pose proof key_part_short; lia|].
  destruct (sent_chunks vmb3 Hwv3) as [_ (E5 & Hs5 & _)]; [rewrite Hdv3; by destruct val|rewrite Hdv3, length_app; unfold page in *; simpl; lia|].
  rewrite (mc_run _ _ _ _ _ (lifto_run _ _ _ E4)). cbn [Z.eqb negb]. rewrite (mc_run _ _ _ _ _ (lifto_run _ _ _ E5)), Hs4, Hs5.
  eexists _, kmb3, vmb3, t3, con2. split; [reflexivity|]. done.
Qed.

Lemma expired_misses c kmb vmb s : store_inv kenv k (ms_kv s) recs -> paged kmb -> paged vmb -> not_expired = false -> misses c kmb vmb s.
Proof.
  intros Hinv Hkp Hvp Hlive. unfold misses, handle_single_kv_get.
  destruct (get_prepared kmb vmb s Hkp Hvp) as (kmb1 & vmb1 & t1 & E1 & Hwk1 & Hdk1 & Hk1 & Hwv1 & Hdv1 & Hrv1).
  rewrite (mc_run _ _ _ _ _ E1). cbn [Z.eqb negb].
  destruct (value_got c kmb1 vmb1 (moved s t1) (at_tick_inv _ _ _ _ Hinv _) Hwk1 Hdk1 Hwv1 Hdv1 Hrv1)
    as (vmb2 & t2 & con2 & E2 & Hm2 & _). rewrite Hlive in E2. rewrite (mc_run _ _ _ _ _ E2).
  eexists ENODATA, _, _, _, kmb1, vmb2, t2, con2. by split; [reflexivity|].
Qed.

Lemma get_answered c kmb vmb s : store_inv kenv k (ms_kv s) recs -> paged kmb -> paged vmb -> not_expired = true ->
  c_ntokens c = 3%nat -> c_token c KEY_TOKEN = key -> (5000 <= rounds)%nat ->
  exists c' kmb' vmb' t con', handle_get env fuel rounds c vmb kmb s =
      Some ((set_err 0 c', vmb', kmb'), mkMcs (at_tick t (ms_kv s)) con' (ms_mbs s)) /\
    con_moved (ms_con s) con' [] (get_reply key flags val).
Proof.
  intros Hinv Hkp Hvp Hlive Hnt Htok Hrounds. unfold handle_get. rewrite Hnt, Htok. cbn [Nat.ltb Nat.leb].
  destruct (single_found c kmb vmb s Hinv Hkp Hvp Hlive) as (c' & kmb1 & vmb1 & t & con1 & E1 & Hm1 & Hwk & Hdk & Hwv & Hdv & Hv).
  rewrite (mc_run _ _ _ _ _ E1). cbn [Z.eqb negb]. set (s1 := mkMcs _ con1 _).
  destruct (append_one page (14 + length key) vmb1 end_get_rsp_msg Hwv Hv) as (vmb2 & E2 & Hwv2 & Hdv2 & Hv2);
    [rewrite Hdv, length_app; unfold page in *; simpl; lia|].
  rewrite (mc_run _ _ _ _ _ (lifto_run _ s1 _ E2)). cbv beta iota.
  destruct (sent_chunks kmb1 Hwk) as [Hck (_ & _ & Hfk)]; [by rewrite Hdk|rewrite Hdk; pose proof key_part_short; lia|].
  pose proof key_part_short as Hks. rewrite <- Hdk in Hks.
  assert (length (data vmb1) = length val + 2)%nat as Hlv1 by (by rewrite Hdv, length_app).
  assert (length (data vmb2) = length val + 7)%nat as Hlv2 by (rewrite Hdv2, length_app, Hlv1; simpl; lia).
  destruct (one_chunk page (14 + length key) vmb1 Hwv Hv ltac:(unfold page in *; lia)) as [Hc1 _]. rewrite Hc1.
  destruct (one_chunk page (14 + length key) vmb2 Hwv2 Hv2 ltac:(unfold page in *; lia)) as [_ E3].
  rewrite (mc_run _ _ _ _ _ (lifto_run _ s1 _ (Hfk _ (Nat.le_add_r _ _)))). cbn [length]. 
  replace (length (chunk_list kmb1) + 1 - length (chunk_list kmb1))%nat with 1%nat by lia.
  rewrite (mc_run _ _ _ _ _ (lifto_run _ s1 _ E3)). rewrite length_app. cbn [length]. rewrite Nat.sub_diag. cbn [replicate].
  rewrite app_nil_r. set (iov := chunk_list kmb1 ++ [data vmb2]).
  assert (concat iov = get_reply key flags val) as Hiov.
  { unfold iov. rewrite concat_app, Hck, Hdk. cbn [concat]. by rewrite app_nil_r, Hdv2, Hdv, <- (app_assoc val). }
  destruct (sendv_full_all env (net_up env Hnet) rounds iov 0 con1) as (con2 & E4 & Hm4).
  { unfold ends, iov. rewrite list.last_snoc. apply length_nonempty. lia. }
  { unfold iov. rewrite concat_app, Hck. cbn [concat]. rewrite app_nil_r, length_app. unfold page in *. lia. }
  rewrite (mc_run _ _ _ _ _ (on_con_run _ s1 _ _ E4)).
  assert (0 + Z.of_nat (length (concat iov)) = Z.of_nat (length (data kmb1) + length (data vmb1) + length end_get_rsp_msg)) as ->.
  { unfold iov. rewrite concat_app, Hck. cbn [concat]. rewrite app_nil_r, length_app. simpl. lia. }
  rewrite Z.eqb_refl. eexists c', kmb1, vmb2, t, con2. split; [reflexivity|]. rewrite <- Hiov.
  apply (con_moved_trans _ _ _ _ _ _ _ Hm1 Hm4).
Qed.

End Get.
