(* ===== verification/McTheorems.v ===== *)
(** * McTheorems: requests to the memcache server and their replies *)
From Stdlib Require Import ZArith Lia String.
From stdpp Require Import base tactics list numbers.
From S2P Require Import Prelude Util HashEntry HopscotchMap HopscotchSpec FpTable DirectoryMap DirectoryGrow DirectoryOps.
From S2P Require Import Mbuff MbuffSpec MbuffHead StoreFormat KvStore KvIo KvInv KvGet KvWrite KvPut KvRefine.
From S2P Require Import StateM CString McParse McServer McParseSpec MbuffChunks KvPage McSpec McGet.

Open Scope Z_scope.

(** A fixed reply goes out whole. *)
Lemma rsp_sent env c bs s : net_ok env -> rsp_str (c_rsp c) = (bs, None) -> Z.of_nat (length bs) <= 4096 ->
  exists con', handle_rsp env c s = Some (c, set_con con' s) /\ con_moved (ms_con s) con' [] bs.
Proof.
  intros Hnet Hr Hl. destruct (send_short env bs (ms_con s) Hnet Hl) as (con' & E & Hm). exists con'. split; [|done].
  unfold handle_rsp. rewrite Hr. erewrite mc_run by (apply on_con_run; rewrite E; reflexivity). by rewrite Z.eqb_refl.
Qed.

Lemma dec_short n : (length (dec n) <= 20)%nat.
Proof.
  unfold dec. generalize 20%nat as k. intros k. revert n.
  induction k as [|k IH]; intros n; cbn [dec_digits]; [done|]. destruct (_ <? _); [simpl; lia|].
  rewrite length_app. specialize (IH (n / 10)). simpl. lia.
Qed.

Lemma unwords_length ws : (length (unwords ws) <= foldr (fun w n => S (length w) + n) 0 ws)%nat.
Proof.
  induction ws as [|w [|w' ws] IH]; [done|simpl; lia|].
  change (unwords (w :: w' :: ws)) with (w ++ 32 :: unwords (w' :: ws)). rewrite length_app. cbn [foldr length] in *. lia.
Qed.

(** ** Storage requests *)

Lemma storage_line_length r name key flags exptime bytes noreply : storage_name r = Some name -> (length key <= max_key_length)%nat ->
  (length (unwords (storage_words name key flags exptime bytes noreply)) <= 400)%nat.
Proof.
  intros Hname Hkl. pose proof (dec_short flags). pose proof (dec_short bytes).
  assert (length (dec_int exptime) <= 21)%nat.
  { unfold dec_int. pose proof (dec_short exptime). pose proof (dec_short (- exptime)). destruct (_ <? _); simpl; lia. }
  assert (length (cstr name) <= 7)%nat by (destruct r; try done; injection Hname as <-; simpl; lia).
  pose proof (unwords_length (storage_words name key flags exptime bytes noreply)).
  unfold max_key_length in Hkl. unfold storage_words in *. destruct noreply; simpl in *; lia.
Qed.

(** The expiration time of a request that is to be kept. *)
Lemma expiry_live now exptime : 0 <= now < 2 ^ 62 -> 0 <= exptime < 2 ^ 63 -> exptime <= REALTIME_MAXDELTA \/ now <= exptime ->
  0 <= stored_expiry now exptime < 2 ^ 63 /\ not_expired now (stored_expiry now exptime) = true.
Proof.
  intros Hn He Hl. unfold stored_expiry, not_expired, REALTIME_MAXDELTA in *. destruct (Z.eqb_spec exptime 0); [done|].
  rewrite (proj2 (Z.ltb_ge exptime 0)) by lia. destruct (Z.leb_spec exptime (60 * 60 * 24 * 30));
    (split; [lia|]); rewrite (proj2 (Z.leb_le now _)) by lia; apply orb_true_r.
Qed.

Section StoreRequest.
Context (env : mc_env) (Hnet : net_ok env) (Hq : quiet (me_kv env)) (fuel rounds : nat) (Hfuel : (BUCKET < fuel)%nat).
Context (k : Z) (recs : list krec) (g : Z).
Context (r : mc_req_type) (name : string) (key val : list Z) (flags exptime : Z) (noreply : bool).
Context (Hname : storage_name r = Some name) (Hr : r = REQ_SET \/ r = REQ_ADD \/ r = REQ_REPLACE).
Context (Hkey : word key) (Hkl : (length key <= max_key_length)%nat).
Context (Hflags : in_width 32 flags) (Hexp : - 2 ^ 63 <= exptime < 2 ^ 63) (Herr : recv_err_ok env (length val + 2)).

Local Abbreviation kenv := (me_kv env).
Local Abbreviation ws := (storage_words name key flags exptime (Z.of_nat (length val)) noreply).

Definition store_reply (refused : bool) : list Z :=
  if noreply then [] else cstr (if refused then "NOT_STORED" else "STORED")%string ++ crlf.

Lemma store_answered (refused : bool) bf c mb kmb s (c' : cmd) (mb' : mbuff) s' : c_req c = r -> c_noreply c' = noreply ->
  c_rsp c' = (if refused then RSP_NOT_STORED else RSP_STORED) -> handle_store env fuel bf c mb s = Some ((c', mb'), s') ->
  exists con', handle env fuel rounds bf c mb kmb s = Some ((c', mb', kmb), set_con con' s') /\
    con_moved (ms_con s') con' [] (store_reply refused).
Proof.
  intros Hreq Hn Hrsp E. assert (exists con', (if c_noreply c' then mret (c', mb', kmb) else
      c ← handle_rsp env c'; mret (c, mb', kmb) : mcm (cmd * mbuff * mbuff)) s' = Some ((c', mb', kmb), set_con con' s') /\
    con_moved (ms_con s') con' [] (store_reply refused)) as (con' & E' & Hm).
  { rewrite Hn. unfold store_reply. destruct noreply; [exists (ms_con s'); split; [by destruct s'|apply con_moved_refl]|].
    destruct (rsp_sent env c' (cstr (if refused then "NOT_STORED" else "STORED")%string ++ crlf) s' Hnet) as (con' & E1 & Hm).
    - rewrite Hrsp. by destruct refused.
    - by destruct refused.
    - exists con'. by rewrite (mc_run _ _ _ _ _ E1). }
  exists con'. split; [|done]. unfold handle. rewrite Hreq.
  destruct Hr as [-> |[-> | ->]]; cbv iota; rewrite (mc_run _ _ _ _ _ E); exact E'.
Qed.

Lemma store_served b mbf kmb s :
  paged mbf -> store_ready kenv k recs g key (Z.of_nat (length val + 12)) (ms_kv s) ->
  cn_in (ms_con s) = unwords ws ++ crlf ++ val ++ crlf -> (length (cn_in (ms_con s)) < rounds)%nat ->
  let refused := refuses recs key (store_op r) in
  exists t b' mb' s', serve_request env fuel rounds b mbf kmb s = Some ((true, b', mb', kmb), s') /\
    cn_in (ms_con s') = [] /\ cn_out (ms_con s') = cn_out (ms_con s) ++ store_reply refused /\
    store_inv kenv k (ms_kv s') (if refused then recs else
      new_rec kenv (ms_kv s) key (stored_val (stored_expiry (me_time env t) exptime) flags val) g :: others key recs).
Proof.
  intros Hmb Hrdy Hin Hrounds refused. pose proof (sr_fits _ _ _ _ _ _ _ Hrdy) as Hfit. pose proof (sr_page _ _ _ _ _ _ _ Hrdy) as Hpg.
  pose proof (grains_spec kenv Hq _ _ Hfit) as [_ [Hlo _]]. unfold serve_request.
  assert (0 <= Z.of_nat (length val) <= 2 ^ 31 - 3) as Hvl by (unfold page in *; lia).
  destruct (storage_line r name key flags exptime (Z.of_nat (length val)) noreply Hname Hkey Hkl Hflags Hvl) as [Hne Hlb].
  destruct (paged_emptied mbf Hmb) as (mb0 & E0 & Hw0 & Hd0 & Hr0). rewrite (mc_run _ _ _ _ _ (lifto_run _ s _ E0)).
  assert (length (unwords ws) <= 1000)%nat as Hll by (etransitivity; [by eapply storage_line_length|lia]).
  destruct (read_cmd_line env Hnet (unwords ws) (val ++ crlf) Hne Hlb Hll rounds (msg_buff_reset b) (set_err 0 cmd_new) s)
    as (got & ab & t & con1 & Hgot & Ho1 & [t' Hpiece] & E1).
  { simpl. by rewrite Hin. } { simpl. lia. } { done. }
  rewrite (mc_run _ _ _ _ _ E1). cbv beta iota. unfold line_buff.
  rewrite (storage_parse r name key flags exptime (Z.of_nat (length val)) noreply Hname Hkey Hkl Hflags Hexp Hvl).
  set (c := storage_cmd _ _ _ _ _ _ _ _). set (bf := mkMsgBuff _ _ _). cbn [c_err c storage_cmd Z.eqb].
  assert (drop (bf_pos bf) (bf_rcv bf) = got) as Hrem.
  { cbn [bf bf_pos bf_rcv]. change (unwords ws ++ 0 :: 10 :: got) with (unwords ws ++ [0; 10] ++ got).
    rewrite app_assoc. apply drop_app_length'. rewrite length_app. simpl. lia. }
  assert (0 < length key)%nat as Hk0 by (destruct Hkey as [Hk _]; destruct key; [done|simpl; lia]).
  destruct (store_received env Hnet Hq fuel Hfuel c bf key val eq_refl eq_refl Hk0 ltac:(unfold page in *; lia) mb0 (set_con con1 s) [])
    as (mb & t2 & con2 & E2 & Hw2 & Hd2 & Hone2 & Hi2 & Ho2).
  { by apply emptied_paged. } { rewrite Hrem, app_nil_r. done. } { rewrite Hrem, Hgot, length_app. lia. }
  { rewrite Hrem, length_app. simpl length. intros Hl. destruct Herr as [He|He]; [done|]. specialize (He t'). lia. }
  destruct (stored env Hq fuel Hfuel c key val eq_refl eq_refl Hk0 ltac:(unfold page in *; lia) k recs g
    (mkMcs (at_tick t2 (ms_kv s)) con2 (ms_mbs s)) mb (store_ready_tick _ _ _ _ _ _ _ _ Hrdy) Hw2 Hd2 Hone2 Hr)
    as (mb' & s' & E3 & Hinv').
  set (c3 := set_err 0 _) in E3. cbn [ms_con ms_mbs] in E3.
  assert (exists con', handle env fuel rounds bf c mb0 kmb (set_con con1 s) = Some ((c3, mb', kmb), mkMcs s' con' (ms_mbs s)) /\
    con_moved con2 con' [] (store_reply refused)) as (con' & E4 & Hi4 & Ho4).
  { apply (store_answered refused bf c mb0 kmb (set_con con1 s) c3 mb' (mkMcs s' con2 (ms_mbs s))); [done..|]. by rewrite E2. }
  exists t, bf, mb', (mkMcs s' con' (ms_mbs s)). split; [by rewrite (mc_run _ _ _ _ _ E4)|]. cbn [ms_con ms_kv].
  split; [by rewrite <- Hi2, Hi4|]. split; [by rewrite Ho4, Ho2; cbn [ms_con set_con]; rewrite Ho1|exact Hinv'].
Qed.

End StoreRequest.

(** ** Get requests *)

Section GetRequest.
Context (env : mc_env) (Hnet : net_ok env) (Hq : quiet (me_kv env)) (fuel rounds : nat) (Hfuel : (BUCKET < fuel)%nat).
Context (Hrounds : (5000 <= rounds)%nat) (now : Z) (Hnow : forall t, me_time env t = now).
Context (k : Z) (recs : list krec) (key : list Z) (Hkey : word key) (Hkl : (length key <= max_key_length)%nat).

Local Abbreviation kenv := (me_kv env).
Local Abbreviation ws := [cstr "get"; key].

(** The request as the parser leaves it. *)
Definition get_cmd : cmd := mkCmd REQ_GET RSP_INVAL 0 0 0 0 0 false ws None.

Lemma get_words : Forall word ws.
Proof. repeat constructor; try apply Hkey; vm_compute; done. Qed.

Lemma get_parse cur_time ab body pos :
  parse cur_time (mkMsgBuff (unwords ws ++ 0 :: 10 :: body) ab pos) (set_err 0 cmd_new) = get_cmd.
Proof.
  unfold parse, tokenize_command. cbn [bf_rcv]. rewrite c_string_spec by (apply unwords_bytes, get_words).
  rewrite tokenize_unwords by (apply get_words || (simpl; unfold MAX_TOKENS; lia)). reflexivity.
Qed.

(** The request is answered with [reply] and leaves the records. *)
Definition get_answers (b : msg_buff) (mbf kmb : mbuff) (s : mcs) (reply : list Z) : Prop :=
  exists b' mb' kmb' s', serve_request env fuel rounds b mbf kmb s = Some ((true, b', mb', kmb'), s') /\
    cn_in (ms_con s') = [] /\ cn_out (ms_con s') = cn_out (ms_con s) ++ reply /\ store_inv kenv k (ms_kv s') recs.

Lemma get_served b mbf kmb s reply :
  paged mbf -> paged kmb -> store_inv kenv k (ms_kv s) recs -> cn_in (ms_con s) = unwords ws ++ crlf ->
  (forall mb con1, paged mb -> exists c' kmb' vmb' t con',
     handle_get env fuel rounds get_cmd mb kmb (set_con con1 s) = Some ((c', vmb', kmb'), mkMcs (at_tick t (ms_kv s)) con' (ms_mbs s)) /\
     c_err c' = 0 /\ con_moved con1 con' [] reply) ->
  get_answers b mbf kmb s reply.
Proof.
  intros Hmb Hkmb Hinv Hin Hget. unfold get_answers, serve_request. unfold max_key_length in Hkl.
  destruct (paged_emptied mbf Hmb) as (mb0 & E0 & Hw0 & Hd0 & Hr0). rewrite (mc_run _ _ _ _ _ (lifto_run _ s _ E0)).
  destruct (read_cmd_line env Hnet (unwords ws) [] ltac:(done) (unwords_bytes _ get_words)
    ltac:(simpl; lia) rounds (msg_buff_reset b) (set_err 0 cmd_new) s) as (got & ab & t & con1 & Hgot & Ho1 & _ & E1).
  { simpl. by rewrite Hin. } { simpl. lia. } { rewrite Hin, length_app. simpl. lia. }
  rewrite (mc_run _ _ _ _ _ E1). cbv beta iota. unfold line_buff. rewrite get_parse. cbn [get_cmd c_err Z.eqb].
  symmetry in Hgot. apply app_nil in Hgot as [-> Hi1].
  destruct (Hget mb0 con1) as (c' & kmb' & vmb' & t2 & con2 & E2 & Hc & Hi2 & Ho2); [by apply emptied_paged|].
  eexists _, vmb', kmb', _. erewrite mc_run by exact E2. cbv beta iota. rewrite Hc. split; [reflexivity|]. cbn [ms_con ms_kv].
  cbn [app] in Hi2. split; [by rewrite <- Hi2|]. split; [by rewrite Ho2, Ho1|]. by apply at_tick_inv.
Qed.

Lemma get_request_missed b mbf kmb s :
  paged mbf -> paged kmb -> store_inv kenv k (ms_kv s) recs -> cn_in (ms_con s) = unwords ws ++ crlf ->
  (forall mb con1, paged mb -> misses env fuel key get_cmd kmb mb (set_con con1 s)) ->
  get_answers b mbf kmb s end_get_rsp_msg.
Proof.
  intros Hmb Hkmb Hinv Hin Hmiss. apply get_served; [done..|]. intros mb con1 Hp.
  destruct (miss_answered env Hnet fuel rounds key get_cmd kmb mb (set_con con1 s) (Hmiss mb con1 Hp) eq_refl eq_refl)
    as (c' & kmb' & vmb' & t & con' & E & Hc & Hm). by exists c', kmb', vmb', t, con'.
Qed.

Lemma get_request b mbf kmb s :
  paged mbf -> paged kmb -> store_inv kenv k (ms_kv s) recs -> cn_in (ms_con s) = cstr "get " ++ key ++ crlf ->
  (forall r expiry flags val, r ∈ recs -> r_key r = key -> r_val r = stored_val expiry flags val ->
     0 <= expiry < 2 ^ 63 -> in_width 32 flags -> val <> [] -> (14 + length key + length val + 12 <= page)%nat ->
     get_answers b mbf kmb s (if not_expired now expiry then get_reply key flags val else end_get_rsp_msg)) /\
  (key ∉ r_key <$> recs -> get_answers b mbf kmb s end_get_rsp_msg).
Proof.
  intros Hmb Hkmb Hinv Hin. assert (0 < length key)%nat as Hk0 by (apply length_nonempty, Hkey).
  assert (cn_in (ms_con s) = unwords ws ++ crlf) as Hin' by (rewrite Hin; cbn [unwords app]; by rewrite <- app_assoc). split.
  - intros r expiry flags val Hr Hrk Hrv He Hf Hv Hp. destruct (not_expired now expiry) eqn:Hl.
    + apply get_served; [done..|]. intros mb con1 Hmp.
      destruct (get_answered env Hnet Hq fuel rounds Hfuel k recs key Hk0 Hkl now Hnow r expiry flags val Hr Hrk Hrv He Hf Hv Hp
        get_cmd kmb mb (set_con con1 s) Hinv Hkmb Hmp Hl eq_refl eq_refl Hrounds) as (c' & kmb' & vmb' & t & con' & E & Hm).
      by exists (set_err 0 c'), kmb', vmb', t, con'.
    + apply get_request_missed; [done..|]. intros mb con1 Hmp. by eapply expired_misses.
  - intros Hk. apply get_request_missed; [done..|]. intros mb con1 Hmp. by eapply absent_misses.
Qed.

End GetRequest.

(** ** Conversations

    A client that sends each request when the reply to the one before has come,
    over a connection of its own; the replies and the server's state. *)
Fixpoint converse (env : mc_env) (fuel rounds : nat) (requests : list (list Z)) (b : msg_buff) (mbf kmb : mbuff) (s : mcs) :
    option (list (list Z) * mcs) :=
  match requests with
  | [] => Some ([], s)
  | i :: l =>
      '((go, b, mbf, kmb), s') ← serve_request env fuel rounds b mbf kmb (set_con (mkCon i [] 0 (cn_tick (ms_con s))) s);
      let reply := cn_out (ms_con s') in
      if go : bool then '(rs, s'') ← converse env fuel rounds l b mbf kmb s'; Some (reply :: rs, s'')
      else Some ([reply], s')
  end.

Definition connect (env : mc_env) (requests : list (list Z)) (s : mcs) : option (list (list Z) * mcs) :=
  converse env 100 5000 requests msg_buff_new mbuff_empty mbuff_empty s.

Definition line (words : string) : list Z := cstr words ++ crlf.

(** A server whose clock stands still and whose store hands out grain [g]. *)
Definition mc_at (g : Z) : mc_env :=
  mkMcEnv (env_at g) (fun _ => 7) (fun _ => 4096) (fun _ => 1000) (fun _ => true) (fun _ => true) (fun _ => 1).

Definition server0 (i : list Z) : mcs := mkMcs store0 (mkCon i [] 0 0) [].

Lemma mc_at_net g : net_ok (mc_at g).
Proof. split; simpl; intros; lia || done. Qed.

(** It reads in pieces of 7 bytes: a block of 5 bytes with its end comes by itself. *)
Lemma mc_at_recv_err g : recv_err_ok (mc_at g) 7.
Proof. right. intros t. simpl. lia. Qed.

(** ** Theorems *)

(** C15: Requests to store. A line
      set|add|replace <key> <flags> <exptime> <bytes> [noreply]
    with its data block, however the two arrive in pieces, is read, stored and
    answered: with STORED, the store holding the data with its expiry and flags
    under the key in place of what it held, or with NOT_STORED and an unchanged
    store when an add finds the key or a replace does not; noreply leaves the answer
    out. The key is a word of up to 250 bytes, the record fits a page, the store is
    ready for the write ([store_ready]: fresh grains behind the key's record in the
    order of the log, room in the bucket), the connection delivers all bytes
    ([net_ok]), and the variable that the server reads although it was not set holds
    0, or no read brings more than the data block ([recv_err_ok]). *)
Theorem mc_storage_request (env : mc_env) (fuel rounds : nat) (k : Z) (recs : list krec) (g : Z)
    (r : mc_req_type) (name : string) (key val : list Z) (flags exptime : Z) (noreply : bool)
    (b : msg_buff) (mbf kmb : mbuff) (s : mcs) :
  net_ok env -> quiet (me_kv env) -> (BUCKET < fuel)%nat ->
  storage_name r = Some name -> r = REQ_SET \/ r = REQ_ADD \/ r = REQ_REPLACE ->
  word key -> (length key <= max_key_length)%nat -> in_width 32 flags -> - 2 ^ 63 <= exptime < 2 ^ 63 ->
  recv_err_ok env (length val + 2) -> paged mbf -> store_ready (me_kv env) k recs g key (Z.of_nat (length val + 12)) (ms_kv s) ->
  cn_in (ms_con s) = unwords (storage_words name key flags exptime (Z.of_nat (length val)) noreply) ++ crlf ++ val ++ crlf ->
  (length (cn_in (ms_con s)) < rounds)%nat ->
  let refused := refuses recs key (store_op r) in
  exists t b' mb' s', serve_request env fuel rounds b mbf kmb s = Some ((true, b', mb', kmb), s') /\
    cn_in (ms_con s') = [] /\ cn_out (ms_con s') = cn_out (ms_con s) ++ store_reply noreply refused /\
    store_inv (me_kv env) k (ms_kv s') (if refused then recs else
      new_rec (me_kv env) (ms_kv s) key (stored_val (stored_expiry (me_time env t) exptime) flags val) g :: others key recs).
Proof. intros. eapply store_served; eassumption. Qed.

Lemma store0_empty g : store_inv (env_at g) 0 store0 [].
Proof. apply kv_fresh_inv; [apply dir_small_inv|by vm_compute]. Qed.

Lemma sample_ready : store_ready (env_at 100) 0 [] 100 (cstr "abc") 17 store0.
Proof.
  split.
  - apply store0_empty.
  - split; vm_compute; repeat split; discriminate.
  - vm_compute. discriminate.
  - done.
  - split; [closed_num|closed_num|]. intros r Hr. by apply elem_of_nil in Hr.
  - closed_num.
  - intros r Hr. by apply elem_of_nil in Hr.
  - intros _. by vm_compute.
Qed.

Lemma abc_word : word (cstr "abc").
Proof. split; [done|]. repeat constructor; vm_compute; discriminate. Qed.

Lemma mc_storage_request_witness :
  exists t b' mb' s', serve_request (mc_at 100) 100 100 msg_buff_new mbuff_empty mbuff_empty
      (server0 (line "set abc 7 60 5" ++ line "hello")) = Some ((true, b', mb', mbuff_empty), s') /\
    cn_in (ms_con s') = [] /\ cn_out (ms_con s') = [] ++ line "STORED" /\
    store_inv (env_at 100) 0 (ms_kv s')
      [new_rec (env_at 100) store0 (cstr "abc") (stored_val (stored_expiry (me_time (mc_at 100) t) 60) 7 (cstr "hello")) 100].
Proof.
  refine (mc_storage_request (mc_at 100) 100 100 0 [] 100 REQ_SET "set" (cstr "abc") (cstr "hello") 7 60 false
    msg_buff_new mbuff_empty mbuff_empty (server0 (line "set abc 7 60 5" ++ line "hello"))
    (mc_at_net 100) (env_at_quiet 100) _ eq_refl (or_introl eq_refl) abc_word _ _ _ (mc_at_recv_err 100) mbuff_empty_paged sample_ready _ _).
  - apply Nat.ltb_lt. by vm_compute.
  - unfold max_key_length. simpl. lia.
  - closed_num.
  - lia.
  - by vm_compute.
  - simpl. lia.
Defined.

(** C16: Requests to get. A line
      get <key>
    with one key, a word of up to 250 bytes, is answered from the records of the
    store, however it arrives in pieces and however the store's buffers cut the
    value: with the line VALUE, the key, the flags and the size, the data and END
    when there is a record of the key that has not expired, and with END alone when
    there is none or when it has; the store is left as it was. The data is not empty
    and the record fits a page, which is the size of the connection's buffers (for
    larger ones the reply can be END alone although the value is there:
    [mc_get_lost]); the clock stands still, and the connection delivers all bytes. *)
Theorem mc_get_request (env : mc_env) (fuel rounds : nat) (now k : Z) (recs : list krec) (key : list Z)
    (b : msg_buff) (mbf kmb : mbuff) (s : mcs) :
  net_ok env -> quiet (me_kv env) -> (BUCKET < fuel)%nat -> (5000 <= rounds)%nat -> (forall t, me_time env t = now) ->
  word key -> (length key <= max_key_length)%nat -> paged mbf -> paged kmb -> store_inv (me_kv env) k (ms_kv s) recs ->
  cn_in (ms_con s) = cstr "get " ++ key ++ crlf ->
  (forall r expiry flags val, r ∈ recs -> r_key r = key -> r_val r = stored_val expiry flags val ->
     0 <= expiry < 2 ^ 63 -> in_width 32 flags -> val <> [] -> (14 + length key + length val + 12 <= page)%nat ->
     get_answers env fuel rounds k recs b mbf kmb s
       (if (expiry =? 0) || (now <=? expiry) then get_reply key flags val else end_get_rsp_msg)) /\
  (key ∉ r_key <$> recs -> get_answers env fuel rounds k recs b mbf kmb s end_get_rsp_msg).
Proof. intros. eapply get_request; eassumption. Qed.

(** The store of the sample with one record. *)
Lemma sample_stored : exists s, store_inv (env_at 100) 0 s
  [new_rec (env_at 100) store0 (cstr "abc") (stored_val 1060 7 (cstr "hello")) 100].
Proof.
  destruct (store_served (mc_at 100) (mc_at_net 100) (env_at_quiet 100) 100 100 ltac:(apply Nat.ltb_lt; by vm_compute) 0 [] 100
    REQ_SET "set" (cstr "abc") (cstr "hello") 7 60 false eq_refl (or_introl eq_refl) abc_word ltac:(apply Nat.leb_le; by vm_compute)
    ltac:(closed_num) ltac:(lia) (mc_at_recv_err 100) msg_buff_new mbuff_empty mbuff_empty (server0 (line "set abc 7 60 5" ++ line "hello"))
    mbuff_empty_paged sample_ready ltac:(by vm_compute) ltac:(simpl; lia)) as (t & _ & _ & s & _ & _ & _ & Hinv).
  exists (ms_kv s). exact Hinv.
Qed.

Lemma mc_get_request_witness : exists s,
  get_answers (mc_at 100) 100 5000 0 [new_rec (env_at 100) store0 (cstr "abc") (stored_val 1060 7 (cstr "hello")) 100]
    msg_buff_new mbuff_empty mbuff_empty (mkMcs s (mkCon (line "get abc") [] 0 0) [])
    (line "VALUE abc 7 5 " ++ line "hello" ++ line "END").
Proof.
  destruct sample_stored as [s Hinv]. exists s.
  destruct (mc_get_request (mc_at 100) 100 5000 1000 0 _ (cstr "abc") msg_buff_new mbuff_empty mbuff_empty
    (mkMcs s (mkCon (line "get abc") [] 0 0) []) (mc_at_net 100) (env_at_quiet 100) ltac:(apply Nat.ltb_lt; by vm_compute)
    (Nat.le_refl _) (fun _ => eq_refl) abc_word ltac:(apply Nat.leb_le; by vm_compute) mbuff_empty_paged mbuff_empty_paged
    Hinv eq_refl) as [Hfound _].
  apply (Hfound (new_rec (env_at 100) store0 (cstr "abc") (stored_val 1060 7 (cstr "hello")) 100) 1060 7 (cstr "hello"));
    [by left|done|done|lia|closed_num|done|apply Nat.leb_le; by vm_compute].
Defined.

(** C7: What was set is what a get returns. Once the server has answered a set, add
    or replace that the store did not refuse, a get of the key on any connection is
    answered with the data and the flags of the request, if the expiration time of
    the request has not passed: it is 0, a number of seconds of up to 30 days, or a
    time not before the present one; the clock stands still meanwhile. The key is a
    word of up to 250 bytes, the data is not empty, and the record with its header,
    expiry and flags fits a page, the size of the connection's buffers (for larger
    ones a get can be lost: [mc_get_lost]). The store is ready for the write
    ([store_ready]), the connections deliver all bytes in pieces of any size
    ([net_ok]), and the variable that the server reads although it was not set holds
    0, or no read brings more than the data block ([recv_err_ok]). *)
Theorem mc_set_get (env : mc_env) (fuel rounds : nat) (now k : Z) (recs : list krec) (g : Z)
    (r : mc_req_type) (name : string) (key val : list Z) (flags exptime : Z) (noreply : bool)
    (b : msg_buff) (mbf kmb : mbuff) (s : mcs) :
  net_ok env -> quiet (me_kv env) -> (BUCKET < fuel)%nat -> (5000 <= rounds)%nat ->
  (forall t, me_time env t = now) -> 0 <= now < 2 ^ 62 ->
  storage_name r = Some name -> r = REQ_SET \/ r = REQ_ADD \/ r = REQ_REPLACE -> refuses recs key (store_op r) = false ->
  word key -> (length key <= max_key_length)%nat -> val <> [] -> in_width 32 flags ->
  0 <= exptime < 2 ^ 63 -> exptime <= REALTIME_MAXDELTA \/ now <= exptime ->
  recv_err_ok env (length val + 2) -> paged mbf -> store_ready (me_kv env) k recs g key (Z.of_nat (length val + 12)) (ms_kv s) ->
  cn_in (ms_con s) = unwords (storage_words name key flags exptime (Z.of_nat (length val)) noreply) ++ crlf ++ val ++ crlf ->
  exists b' mb' s' recs', serve_request env fuel rounds b mbf kmb s = Some ((true, b', mb', kmb), s') /\
    forall con2 b2 mb2 kmb2, cn_in con2 = cstr "get " ++ key ++ crlf -> paged mb2 -> paged kmb2 ->
      get_answers env fuel rounds k recs' b2 mb2 kmb2 (set_con con2 s') (get_reply key flags val).
Proof.
  intros Hnet Hq Hfuel Hrounds Hnow Hn Hname Hr Href Hkey Hkl Hval Hflags Hexp Hlive Herr Hmb Hrdy Hin.
  pose proof (sr_fits _ _ _ _ _ _ _ Hrdy) as Hfit. pose proof (sr_page _ _ _ _ _ _ _ Hrdy) as Hpg.
  pose proof (grains_spec (me_kv env) Hq _ _ Hfit) as [_ [Hlo _]].
  pose proof (storage_line_length r name key flags exptime (Z.of_nat (length val)) noreply Hname Hkl) as Hll.
  destruct (store_served env Hnet Hq fuel rounds Hfuel k recs g r name key val flags exptime noreply Hname Hr Hkey Hkl Hflags
    ltac:(lia) Herr b mbf kmb s Hmb Hrdy Hin) as (t & b' & mb' & s' & E & _ & _ & Hinv).
  { rewrite Hin, !length_app. change (length crlf) with 2%nat. unfold page in *. lia. }
  rewrite Href, Hnow in Hinv. eexists b', mb', s', _. split; [exact E|]. intros con2 b2 mb2 kmb2 Hc2 Hm2 Hk2.
  destruct (get_request env Hnet Hq fuel rounds Hfuel ltac:(lia) now Hnow k _ key Hkey Hkl b2 mb2 kmb2 (set_con con2 s') Hm2 Hk2 Hinv Hc2)
    as [Hfound _].
  destruct (expiry_live now exptime Hn Hexp Hlive) as [He Hl].
  specialize (Hfound _ (stored_expiry now exptime) flags val (list_elem_of_here _ _) eq_refl eq_refl He Hflags Hval).
  rewrite Hl in Hfound. apply Hfound. unfold page in *. lia.
Qed.

Lemma mc_set_get_witness :
  exists b' mb' s' recs', serve_request (mc_at 100) 100 5000 msg_buff_new mbuff_empty mbuff_empty
      (server0 (line "set abc 7 60 5" ++ line "hello")) = Some ((true, b', mb', mbuff_empty), s') /\
    forall con2 b2 mb2 kmb2, cn_in con2 = line "get abc" -> paged mb2 -> paged kmb2 ->
      get_answers (mc_at 100) 100 5000 0 recs' b2 mb2 kmb2 (set_con con2 s') (line "VALUE abc 7 5 " ++ line "hello" ++ line "END").
Proof.
  refine (mc_set_get (mc_at 100) 100 5000 1000 0 [] 100 REQ_SET "set" (cstr "abc") (cstr "hello") 7 60 false
    msg_buff_new mbuff_empty mbuff_empty (server0 (line "set abc 7 60 5" ++ line "hello"))
    (mc_at_net 100) (env_at_quiet 100) _ (Nat.le_refl _) (fun _ => eq_refl) _ eq_refl (or_introl eq_refl) eq_refl abc_word _ _ _ _ _
    (mc_at_recv_err 100) mbuff_empty_paged sample_ready eq_refl).
  - apply Nat.ltb_lt. by vm_compute.
  - lia.
  - apply Nat.leb_le. by vm_compute.
  - done.
  - closed_num.
  - lia.
  - left. unfold REALTIME_MAXDELTA. lia.
Defined.

(** A server whose store hands out a new run of 300 grains with every answer. *)
Definition mc_fresh : mc_env :=
  mkMcEnv (mkEnv 32 48 1 (fun bs => foldr Z.add 0 bs) (fun _ _ => 7) (fun t n => Some (Z.of_nat t, replicate n 0))
             (fun _ => 5000) (fun _ => 5000) (fun t => (0, 300 * Z.of_nat t)) (fun _ => env_small) (fun _ s => s))
    (fun _ => 5000) (fun _ => 5000) (fun _ => 1000) (fun _ => true) (fun _ => true) (fun _ => 0).

Definition replies (r : option (list (list Z) * mcs)) : list (list Z) := match r with Some (rs, _) => rs | None => [] end.
Definition server_of (r : option (list (list Z) * mcs)) : mcs := match r with Some (_, s) => s | None => server0 [] end.

Definition long_value : list Z := replicate 4076 120.

(** A value can be hidden by the get before it.  Of two values that one client
    stores, another gets the small one and then the one of 4076 bytes, which is
    answered with END alone, as if it were absent: the room behind it in the
    connection's buffers takes only part of the END line, which then needs a piece
    more than were counted before it was appended.  On a connection of its own the
    same get is answered with the line VALUE. *)
Theorem mc_get_lost :
  let set := connect mc_fresh [line "set a 0 0 1" ++ line "x"; line "set b 0 0 4076" ++ long_value ++ crlf] (server0 []) in
  replies set = [line "STORED"; line "STORED"] /\
  replies (connect mc_fresh [line "get a"; line "get b"] (server_of set)) = [get_reply (cstr "a") 0 (cstr "x"); line "END"] /\
  take 17 <$> replies (connect mc_fresh [line "get b"] (server_of set)) = [line "VALUE b 0 4076 "].
Proof. split; [|split]; vm_compute; reflexivity. Qed.

(** A counter below 100 cannot be incremented or decremented: the server takes
    a value of one or two digits for no number, whatever they are. *)
Theorem mc_counter_rejected :
  replies (connect mc_fresh [line "set n 0 0 3" ++ line "299"; line "incr n 5"; line "decr n 296"; line "incr n 1"] (server0 [])) =
    [line "STORED"; line "304"; line "8";
     line "CLIENT_ERROR cannot increment or decrement non-numeric value"].
Proof. vm_compute. reflexivity. Qed.
