(* ===== verification/RemoteWire.v ===== *)
(** * RemoteWire: the headers of the key-value service (include/uDepot/kv-wire.hh)

    A request is a packed 24-byte header and a body, a reply a packed header of 16
    or 24 bytes and, for a value, the value.  Words are little endian, as on the
    machines the code runs on. *)
From Stdlib Require Import ZArith Lia.
From stdpp Require Import base tactics list numbers.
From S2P Require Import Prelude Util StoreFormat.

Open Scope Z_scope.

Definition MAGIC : Z := 0xfa73fa11.

(** ** Requests *)

(** [enum Op] *)
Definition op_NOP : Z := 0.
Definition op_PUT : Z := 1.
Definition op_GET : Z := 2.
Definition op_DEL : Z := 3.

(** The two words of the union: [get.key_len], [del.key_len] and [put.key_len]
    are the first one, [put.val_len] the second. *)
Record ReqHdr := mkReqHdr { rq_magic : Z; rq_op : Z; rq_req_id : Z; rq_word0 : Z; rq_word1 : Z }.

Definition sizeof_ReqHdr : nat := 24.

Definition req_bytes (h : ReqHdr) : list Z :=
  le_bytes 4 (rq_magic h) ++ le_bytes 4 (rq_op h) ++ le_bytes 8 (rq_req_id h) ++
  le_bytes 4 (rq_word0 h) ++ le_bytes 4 (rq_word1 h).

Definition req_of (bs : list Z) : ReqHdr :=
  mkReqHdr (le_val (take 4 bs)) (le_val (take 4 (drop 4 bs))) (le_val (take 8 (drop 8 bs)))
           (le_val (take 4 (drop 16 bs))) (le_val (take 4 (drop 20 bs))).

(** [abort()] on an operation that is none of the four. *)
Definition req_key_len (h : ReqHdr) : option Z :=
  if rq_op h =? op_NOP then Some 0
  else if (rq_op h =? op_PUT) || (rq_op h =? op_GET) || (rq_op h =? op_DEL) then Some (rq_word0 h)
  else None.

(** The two lengths of a put are added as [uint32_t]. *)
Definition req_body_len (h : ReqHdr) : option Z :=
  if rq_op h =? op_NOP then Some 0
  else if (rq_op h =? op_GET) || (rq_op h =? op_DEL) then Some (rq_word0 h)
  else if rq_op h =? op_PUT then Some (u32 (rq_word0 h + rq_word1 h))
  else None.

Definition req_val_len (h : ReqHdr) : option Z :=
  if (rq_op h =? op_NOP) || (rq_op h =? op_GET) || (rq_op h =? op_DEL) then Some 0
  else if rq_op h =? op_PUT then Some (rq_word1 h)
  else None.

(** The words that are not set keep what is on the stack. *)
Definition mkGET (junk req_id key_len : Z) : ReqHdr := mkReqHdr MAGIC op_GET req_id (u32 key_len) junk.
Definition mkPUT (req_id key_len val_len : Z) : ReqHdr :=
  mkReqHdr MAGIC op_PUT req_id (u32 key_len) (u32 val_len).
Definition mkNOP (junk0 junk1 req_id : Z) : ReqHdr := mkReqHdr MAGIC op_NOP req_id junk0 junk1.

Definition req_verify_magic (h : ReqHdr) : bool := rq_magic h =? MAGIC.

(** ** Replies *)

Record ResHdr := mkResHdr { rs_magic : Z; rs_req_id : Z; rs_error : Z }.

Definition sizeof_ResHdr : nat := 16.

(** [ResHdr(int res, uint64_t rid)] *)
Definition res_hdr (res rid : Z) : ResHdr := mkResHdr MAGIC rid (u32 res).

Definition res_bytes (h : ResHdr) : list Z :=
  le_bytes 4 (rs_magic h) ++ le_bytes 8 (rs_req_id h) ++ le_bytes 4 (rs_error h).

Definition res_of (bs : list Z) : ResHdr :=
  mkResHdr (le_val (take 4 bs)) (le_val (take 8 (drop 4 bs))) (le_val (take 4 (drop 12 bs))).

Definition res_verify_magic (h : ResHdr) : bool := rs_magic h =? MAGIC.

Record ResGetHdr := mkResGetHdr { rg_hdr : ResHdr; rg_val_len : Z }.

Definition sizeof_ResGetHdr : nat := 24.

Definition res_get_hdr (res rid vlen : Z) : ResGetHdr := mkResGetHdr (res_hdr res rid) vlen.

Definition resget_bytes (h : ResGetHdr) : list Z := res_bytes (rg_hdr h) ++ le_bytes 8 (rg_val_len h).

Definition resget_of (bs : list Z) : ResGetHdr :=
  mkResGetHdr (res_of bs) (le_val (take 8 (drop 16 bs))).

(** ** Facts *)

Record req_wf (h : ReqHdr) : Prop := {
  rw_magic : in_width 32 (rq_magic h);
  rw_op : in_width 32 (rq_op h);
  rw_id : in_width 64 (rq_req_id h);
  rw_word0 : in_width 32 (rq_word0 h);
  rw_word1 : in_width 32 (rq_word1 h)
}.

Record res_wf (h : ResHdr) : Prop := {
  rsw_magic : in_width 32 (rs_magic h);
  rsw_id : in_width 64 (rs_req_id h);
  rsw_error : in_width 32 (rs_error h)
}.

(** The word at byte [off] of what was put together from words. *)
Lemma word_at (pre rest : list Z) n x : in_width (8 * Z.of_nat n) x ->
  le_val (take n (drop (length pre) (pre ++ le_bytes n x ++ rest))) = x.
Proof.
  intros Hx. rewrite drop_app_length, (take_app_length' (le_bytes n x)) by (by rewrite le_bytes_length).
  by apply le_val_bytes.
Qed.

Lemma req_bytes_length h : length (req_bytes h) = sizeof_ReqHdr.
Proof. done. Qed.

Lemma res_bytes_length h : length (res_bytes h) = sizeof_ResHdr.
Proof. done. Qed.

Lemma resget_bytes_length h : length (resget_bytes h) = sizeof_ResGetHdr.
Proof. done. Qed.

Lemma req_of_bytes h rest : req_wf h -> req_of (req_bytes h ++ rest) = h.
Proof.
  destruct h as [m o i w0 w1]. intros [Hm Ho Hi H0 H1]. cbn [rq_magic rq_op rq_req_id rq_word0 rq_word1] in *.
  unfold req_of, req_bytes. cbn [rq_magic rq_op rq_req_id rq_word0 rq_word1]. rewrite <- !app_assoc. f_equal.
  - exact (word_at [] _ 4 m Hm).
  - exact (word_at (le_bytes 4 m) _ 4 o Ho).
  - rewrite (app_assoc (le_bytes 4 m)). exact (word_at (le_bytes 4 m ++ le_bytes 4 o) _ 8 i Hi).
  - rewrite (app_assoc (le_bytes 4 m)), (app_assoc (_ ++ _)).
    exact (word_at ((le_bytes 4 m ++ le_bytes 4 o) ++ le_bytes 8 i) _ 4 w0 H0).
  - rewrite (app_assoc (le_bytes 4 m)), (app_assoc (_ ++ _)), (app_assoc ((_ ++ _) ++ _)).
    exact (word_at (((le_bytes 4 m ++ le_bytes 4 o) ++ le_bytes 8 i) ++ le_bytes 4 w0) _ 4 w1 H1).
Qed.

Lemma res_of_bytes h rest : res_wf h -> res_of (res_bytes h ++ rest) = h.
Proof.
  destruct h as [m i e]. intros [Hm Hi He]. cbn [rs_magic rs_req_id rs_error] in *.
  unfold res_of, res_bytes. cbn [rs_magic rs_req_id rs_error]. rewrite <- !app_assoc. f_equal.
  - exact (word_at [] _ 4 m Hm).
  - exact (word_at (le_bytes 4 m) _ 8 i Hi).
  - rewrite (app_assoc (le_bytes 4 m)). exact (word_at (le_bytes 4 m ++ le_bytes 8 i) _ 4 e He).
Qed.

Lemma resget_of_bytes h rest : res_wf (rg_hdr h) -> in_width 64 (rg_val_len h) ->
  resget_of (resget_bytes h ++ rest) = h.
Proof.
  destruct h as [r v]. cbn [rg_hdr rg_val_len]. intros Hr Hv. unfold resget_of, resget_bytes. cbn [rg_hdr rg_val_len].
  rewrite <- app_assoc. f_equal; [by apply res_of_bytes|].
  exact (word_at (res_bytes r) _ 8 v Hv).
Qed.

Lemma res_hdr_wf res rid : in_width 64 rid -> res_wf (res_hdr res rid).
Proof. intros Hr. split; [done|done|]. unfold res_hdr, in_width, wrap. cbn. apply Z.mod_pos_bound. lia. Qed.
