(* ===== verification/RemoteKv.v ===== *)
(** * RemoteKv: the key-value service over a socket
      (uDepot/net/serve-kv-request.cc, uDepot/net/socket.cc, uDepot/net/connection.cc,
      include/util/sys-helpers.hh, and the socket functions of include/uDepot/mbuff.hh)

    The server receives a request into an Mbuff with one [recvmsg], runs it on its
    store and replies; the client sends a request and waits for the reply.  Both
    ends are modelled over a [con]: what the peer will still send, and what was sent
    to it.  How many bytes a call moves, errors, memory and what uninitialized words
    hold are answers of the environment.  A node that serves answers every key from
    its own store ([node_routes] of RemoteTheorems), so the server's calls are those
    of the local store. *)
From Stdlib Require Import ZArith Lia.
From stdpp Require Import base tactics list numbers.
From S2P Require Import Prelude Util Mbuff StoreFormat KvStore StateM McServer RemoteWire.

Open Scope Z_scope.

Definition EBADF : Z := 9.
Definition EBADMSG : Z := 74.
Definition ENOTSUP : Z := 95.

(** ** Vectors into the buffers of an Mbuff (mbuff.hh) *)

(** [iov_len] bytes from [iov_off] on of the buffer at place [iov_node] of the
    chain. *)
Record iovec := IoVec { iov_node : nat; iov_off : nat; iov_len : nat }.

(** The address of the chunk that [append_prepare] hands out. *)
Definition tail_addr (mb : mbuff) : nat * nat :=
  match list.last (mb_nodes mb) with
  | Some t => ((length (mb_nodes mb) - 1)%nat, (mb_off_ t + mb_len_ t)%nat)
  | None => (0%nat, 0%nat)
  end.

(** [append] with a closure that keeps the address of its chunk. *)
Definition chunk_at_fn (S : Type) : Type := S -> nat * nat -> list Z -> S * list Z * nat.

Fixpoint append_at_loop {S} (f : chunk_at_fn S) (fuel : nat) (st : S) (mb : mbuff) : option (S * mbuff) :=
  match fuel with
  | O => None
  | Datatypes.S k =>
      match append_prepare mb with
      | (None, mb1) => Some (st, mb1)
      | (Some c, mb1) =>
          let '(st', c', appended) := f st (tail_addr mb1) c in
          let mb2 := append_finalize mb1 c' appended in
          if (appended =? 0)%nat || (appended <? length c)%nat then Some (st', mb2)
          else append_at_loop f k st' mb2
      end
  end.

(** The closure of [fill_iovec_append]; the state is ([rem], the entries). *)
Definition iov_append_fn (iov_max : nat) : chunk_at_fn (nat * list iovec) := fun '(rem, iov) '(node, off) b =>
  if (length iov =? iov_max)%nat then ((rem, iov), b, 0%nat)
  else
    let len := Nat.min (length b) rem in
    if (len =? 0)%nat then ((rem, iov), b, 0%nat)
    else (((rem - len)%nat, iov ++ [IoVec node off len]), b, len).

(** The entries and their bytes. *)
Definition fill_iovec_append (mb : mbuff) (len iov_max : nat) : option (list iovec * nat * mbuff) :=
  '((rem, iov), mb') ← append_at_loop (iov_append_fn iov_max) (2 + length (mb_free_ mb)) (len, []) mb;
  Some (iov, (len - rem)%nat, mb').

(** What the kernel writes through the vector. *)
Fixpoint iov_write (iov : list iovec) (bs : list Z) (l : list node) : list node :=
  match iov with
  | [] => l
  | v :: iov' =>
      iov_write iov' (drop (iov_len v) bs)
        (alter (fun n => Node (mb_ptr n) (write_at (mb_buff_ n) (iov_off v) (take (iov_len v) bs))
                              (mb_off_ n) (mb_len_ n)) (iov_node v) l)
  end.

Section Remote.
(** [rounds] bounds the calls of [send] for one message. *)
Context (env : mc_env) (fuel rounds : nat).

Local Abbreviation kenv := (me_kv env).

Definition errno : mcm Z := on_con (fun c => Some (cn_errno c, c)).

(** ** Sending and receiving in full (connection.cc, sys-helpers.hh) *)

(** The error (-1 or 0) and the bytes sent. *)
Fixpoint send_full (n : nat) (bs : list Z) (sent : nat) (c : con) : option ((Z * nat) * con) :=
  match bs with
  | [] => Some ((0, sent), c)
  | _ =>
      match n with
      | O => None
      | S n' =>
          let '(ret, c') := send env bs c in
          if ret <? 0 then Some ((-1, sent), c')
          else send_full n' (drop (Z.to_nat ret) bs) (sent + Z.to_nat ret) c'
      end
  end.

Definition send_all (bs : list Z) : mcm (Z * nat) := on_con (send_full rounds bs 0).

(** [err ? errno : 0] *)
Definition errno_if (err : Z) : mcm Z := if err =? 0 then mret 0 else errno.

(** ** The server (serve-kv-request.cc) *)

(** The error, the header and the body.  The header and the body are received with
    one call; only what is missing of the body is received afterwards. *)
Definition recv_request (mb_body : mbuff) : mcm (Z * ReqHdr * mbuff) :=
  let none := mkReqHdr 0 0 0 0 0 in
  let iov_len := Nat.min (1 + append_avail_nchunks mb_body) 8 in
  let prev_valid_size := get_valid_size mb_body in
  '(iov, iov_bytes, mb1) ←
    lifto (fill_iovec_append mb_body (append_avail_size mb_body) (iov_len - 1));
  '(recv_bytes, bs) ← on_con (fun c => Some (recv env (iov_bytes + sizeof_ReqHdr) c));
  if recv_bytes =? -1 then err ← errno; mret (err, none, mb1)
  else if recv_bytes =? 0 then mret (ECONNRESET, none, mb1)
  else if recv_bytes <? Z.of_nat sizeof_ReqHdr then mret (ECONNRESET, none, mb1)
  else
    let req_hdr := req_of bs in
    let received_body_bytes := recv_bytes - Z.of_nat sizeof_ReqHdr in
    let mb2 := set_nodes mb1 (iov_write iov (drop sizeof_ReqHdr bs) (mb_nodes mb1)) in
    mb3 ← lifto (reslice_ mb2 (prev_valid_size + Z.to_nat received_body_bytes) 0);
    if negb (req_verify_magic req_hdr) then
      _ ← send_all (res_bytes (res_hdr EBADMSG 0)); mret (EBADMSG, req_hdr, mb3)
    else
      body_len ← lifto (req_body_len req_hdr);
      if body_len <? received_body_bytes then mret (EBADMSG, req_hdr, mb3)
      else if received_body_bytes <? body_len then
        mb4 ← on_kv (mbuff_add_buffers kenv mb3 (prev_valid_size + Z.to_nat body_len));
        '(err, mb5) ← on_con (fun c =>
          '(err, mb5, c') ← recv_append_to_mbuff env mb4 (body_len - received_body_bytes) c;
          Some ((err, mb5), c'));
        mret (err, req_hdr, mb5)
      else mret (0, req_hdr, mb3).

(** A reply of a header alone. *)
Definition reply_hdr (bs : list Z) : mcm Z := '(err, _) ← send_all bs; errno_if err.

(** More than 8 pieces need memory for the vector. *)
Definition send_get_responose (reshdr : ResGetHdr) (val : mbuff) : mcm Z :=
  if rg_val_len reshdr =? 0 then reply_hdr (resget_bytes reshdr)
  else
    '(_, nchunks) ← lifto (get_valid_nchunks val 0 (Z.to_nat (rg_val_len reshdr)));
    let iov_size := S nchunks in
    ok ← (if (8 <? iov_size)%nat then con_ask (me_realloc env) else mret true);
    if negb ok then mret ENOMEM
    else
      chunks ← lifto (fill_iovec_valid val 0 (Z.to_nat (rg_val_len reshdr)) nchunks);
      let iov := resget_bytes reshdr :: match chunks with inr l => l | inl _ => [] end in
      ret ← on_con (sendv_full env rounds iov 0);
      if ret <? 0 then errno else mret 0.

(** The switch over the operation; [rb] is the body. *)
Definition serve_op (req_hdr : ReqHdr) (rb result : mbuff) : mcm (Z * mbuff * mbuff) :=
  if rq_op req_hdr =? op_NOP then
    err ← reply_hdr (res_bytes (res_hdr 0 (rq_req_id req_hdr))); mret (err, rb, result)
  else if rq_op req_hdr =? op_PUT then
    '(ret, rb) ← on_kv (put kenv fuel rb (Z.to_nat (rq_word0 req_hdr)) NORMAL);
    err ← reply_hdr (res_bytes (res_hdr ret (rq_req_id req_hdr))); mret (err, rb, result)
  else if rq_op req_hdr =? op_GET then
    val ← lifto (reslice_ result 0 0);
    '(op_err, val) ← on_kv (get kenv fuel rb val);
    let reshdr := res_get_hdr op_err (rq_req_id req_hdr)
                    (if op_err =? 0 then Z.of_nat (get_valid_size val) else 0) in
    err ← send_get_responose reshdr val; mret (err, rb, val)
  else if rq_op req_hdr =? op_DEL then mret (ENOTSUP, rb, result)
  else mret (EINVAL, rb, result).

Definition serve_kv_request (req_body result : mbuff) : mcm (Z * mbuff * mbuff) :=
  rb ← lifto (reslice_ req_body 0 0);
  rb ← on_kv (mbuff_add_buffers kenv rb putKeyvalPrefixSize);
  rb ← lifto (append_uninitialized rb putKeyvalPrefixSize);
  '(err, req_hdr, rb) ← recv_request rb;
  if negb (err =? 0) then mret (err, rb, result)
  else
    body_size ← lifto (req_body_len req_hdr);
    rb ← lifto (reslice_ rb (Z.to_nat body_size) putKeyvalPrefixSize);
    serve_op req_hdr rb result.

(** ** The socket functions of an Mbuff (mbuff.hh) *)

(** [append_recv]: the closure is that of [recv_append_to_mbuff]. *)
Definition append_recv (mb : mbuff) (size : Z) (c : con) : option ((Z * mbuff) * con) :=
  if Z.of_nat (append_avail_size mb) <? size then Some ((ENOMEM, mb), c)
  else
    '((remaining, recv_err, c'), mb') ←
      append (recv_fn env) (Z.to_nat size, me_recv_err env (cn_tick c), c) mb;
    Some ((if recv_err =? -1 then cn_errno c' else if negb (remaining =? 0)%nat then ECONNRESET else 0, mb'), c').

(** The loop of [Mbuff::send] over the chunks; [k] bounds the nodes. *)
Fixpoint mbuff_send_loop (k : nat) (it : option iterator) (len : nat) (c : con) : option (Z * con) :=
  match k, it with
  | S k', Some it =>
      '((err, sent), c') ← send_full rounds (i_chunk_ it) 0 c;
      if negb (err =? 0) then Some (cn_errno c', c')
      else mbuff_send_loop k' (iter_next it) (len - sent) c'
  | _, _ => Some (if (len =? 0)%nat then 0 else EINVAL, c)
  end.

Definition mbuff_send (mb : mbuff) (off len : nat) (c : con) : option (Z * con) :=
  '(err, it) ← iterate_valid_init mb off len;
  if negb (err =? 0) then Some (EINVAL, c)
  else mbuff_send_loop (match it with Some i => length (i_nodes i) | None => 0 end) it len c.

(** ** The client (socket.cc) *)

(** [cli_fd_m] is -1 or a socket; [junk] is what is on the stack. *)
Record client := mkClient { cl_connected : bool; cl_req_id : Z }.

Context (junk : Z).

Definition get_next_reqid (cl : client) : Z * client := (cl_req_id cl, mkClient (cl_connected cl) (u64 (cl_req_id cl + 1))).

Definition disconnect (cl : client) : client := mkClient false (cl_req_id cl).

Definition sendReq (reqhdr : ReqHdr) (body : mbuff) : mcm Z :=
  '(err, _) ← send_all (req_bytes reqhdr);
  if err =? -1 then errno
  else err ← on_con (mbuff_send body 0 (get_valid_size body)); mret err.

(** The error and the header. *)
Definition recvResHdr (req_id : Z) : mcm (Z * ResHdr) :=
  '(err, bs) ← on_con (fun c => Some (recv_full env sizeof_ResHdr sizeof_ResHdr [] c));
  let reshdr := res_of bs in
  if err =? -1 then e ← errno; mret (e, reshdr)
  else if negb (res_verify_magic reshdr) then mret (EBADMSG, reshdr)
  else if negb (rs_req_id reshdr =? req_id) then mret (EINVAL, reshdr)
  else mret (0, reshdr).

Definition recvGetResHdr (req_id : Z) : mcm (Z * ResGetHdr) :=
  '(err, bs) ← on_con (fun c => Some (recv_full env sizeof_ResGetHdr sizeof_ResGetHdr [] c));
  let reshdr := resget_of bs in
  if err =? -1 then e ← errno; mret (e, reshdr)
  else if negb (res_verify_magic (rg_hdr reshdr)) then mret (EBADMSG, reshdr)
  else if negb (rs_req_id (rg_hdr reshdr) =? req_id) then mret (EINVAL, reshdr)
  else mret (0, reshdr).

(** A failed send leaves the client connected. *)
Definition nop (cl : client) : mcm (Z * client) :=
  if negb (cl_connected cl) then mret (EBADF, cl)
  else
    let '(myreqid, cl) := get_next_reqid cl in
    '(err, _) ← send_all (req_bytes (mkNOP junk junk myreqid));
    if err =? -1 then e ← errno; mret (e, cl)
    else
      '(err, reshdr) ← recvResHdr myreqid;
      if negb (err =? 0) then mret (err, disconnect cl) else mret (s32 (rs_error reshdr), cl).

Definition remote_put (cl : client) (keyval : mbuff) (key_len : Z) : mcm (Z * client) :=
  if negb (cl_connected cl) then mret (EBADF, cl)
  else
    let '(myreqid, cl) := get_next_reqid cl in
    let val_len := u64 (Z.of_nat (get_valid_size keyval) - key_len) in
    err ← sendReq (mkPUT myreqid key_len val_len) keyval;
    if negb (err =? 0) then mret (err, disconnect cl)
    else
      '(err, reshdr) ← recvResHdr myreqid;
      if negb (err =? 0) then mret (err, disconnect cl) else mret (s32 (rs_error reshdr), cl).

Definition remote_get (cl : client) (key val_out : mbuff) : mcm (Z * client * mbuff) :=
  if negb (cl_connected cl) then mret (EBADF, cl, val_out)
  else
    let '(myreqid, cl) := get_next_reqid cl in
    err ← sendReq (mkGET junk myreqid (Z.of_nat (get_valid_size key))) key;
    if negb (err =? 0) then mret (err, disconnect cl, val_out)
    else
      '(err, reshdr) ← recvGetResHdr myreqid;
      if negb (err =? 0) then mret (err, disconnect cl, val_out)
      else if negb (rs_error (rg_hdr reshdr) =? 0) then mret (s32 (rs_error (rg_hdr reshdr)), cl, val_out)
      else
        val ← on_kv (mbuff_add_buffers kenv val_out (Z.to_nat (rg_val_len reshdr)));
        if Z.of_nat (get_free_size val) <? rg_val_len reshdr then mret (ENOMEM, disconnect cl, val)
        else
          '(err, val) ← on_con (append_recv val (rg_val_len reshdr));
          if negb (err =? 0) then mret (err, disconnect cl, val) else mret (0, cl, val).

Definition remote_del (cl : client) (key : mbuff) : mcm (Z * client) := mret (ENOTSUP, cl).

End Remote.

(** ** The server's thread (socket.cc) *)

(** The sockets of the clients, and the connection behind each. *)
Record server := mkServer {
  sv_kv : kv;
  sv_mb1 : mbuff;
  sv_mb2 : mbuff;
  sv_fds : list Z;
  sv_conns : Z -> con
}.

(** What [epoll_wait] reports: a client to accept, with its new socket, or
    something to read. *)
Inductive epoll_event := EvAccept (fd : Z) | EvClient (fd : Z).

Section SocketServer.
Context (env : mc_env) (fuel rounds : nat).

Definition remove_client (fd : Z) (s : server) : server :=
  mkServer (sv_kv s) (sv_mb1 s) (sv_mb2 s) (filter (fun x => x <> fd) (sv_fds s)) (sv_conns s).

Definition recv_from_client (fd : Z) : stm server Z := fun s =>
  '((err, mb1, mb2), m) ←
    serve_kv_request env fuel rounds (sv_mb1 s) (sv_mb2 s) (mkMcs (sv_kv s) (sv_conns s fd) []);
  let s' := mkServer (ms_kv m) mb1 mb2 (sv_fds s)
              (fun x => if decide (x = fd) then ms_con m else sv_conns s x) in
  Some (if err =? ECONNRESET then 0 else err, if err =? 0 then s' else remove_client fd s').

Definition accept_client (fd : Z) (s : server) : server :=
  mkServer (sv_kv s) (sv_mb1 s) (sv_mb2 s) (sv_fds s ++ [fd]) (sv_conns s).

Fixpoint handle_events (evs : list epoll_event) : stm server unit :=
  match evs with
  | [] => mret tt
  | EvAccept fd :: evs' => writes (accept_client fd);; handle_events evs'
  | EvClient fd :: evs' => recv_from_client fd;; handle_events evs'
  end.

(** The loop of [socket_key_value_server]: before each wait [srv_thread_exit_m] is
    read.  The result says whether the thread ended. *)
Fixpoint socket_key_value_server (waits : list (bool * list epoll_event)) : stm server bool :=
  match waits with
  | [] => mret false
  | (exit, evs) :: waits' =>
      n ← reads (fun s => length (sv_fds s));
      if negb exit || (0 <? n)%nat
      then handle_events evs;; socket_key_value_server waits'
      else mret true
  end.

End SocketServer.
