(* ===== verification/RemoteRoute.v ===== *)
(** * RemoteRoute: which node a key belongs to
      (uDepot/net.cc, include/uDepot/net.hh, include/util/socket-peer-conf.hh,
      uDepot/socket-peer-conf.cc, and get_client and its uses in uDepot/udepot-lsa.cc)

    A node knows its own address, when it serves, and those of its peers; a table
    per thread maps a hash to the connection to a peer or, where it holds null, to
    the node's own store.  Connections are named by their place in [conn_m]. *)
From Stdlib Require Import ZArith Lia.
From stdpp Require Import base tactics list numbers.
From S2P Require Import Prelude Util Mbuff StoreFormat KvStore StateM McServer RemoteWire RemoteKv.

Open Scope Z_scope.

(** ** Addresses (socket-peer-conf.hh) *)

Record SocketPeerConf := mkPeer { protocol_m : list Z; node_m : list Z; service_m : list Z }.

#[global] Instance SocketPeerConf_eq : EqDecision SocketPeerConf.
Proof. solve_decision. Defined.

(** [operator==] *)
Definition peer_eqb (l r : SocketPeerConf) : bool := bool_decide (l = r).

Definition is_invalid (p : SocketPeerConf) : bool :=
  match protocol_m p, node_m p, service_m p with [], [], [] => true | _, _, _ => false end.

(** [operator<] of strings and of tuples of three strings. *)
Fixpoint str_lt (a b : list Z) : bool :=
  match a, b with
  | _, [] => false
  | [], _ => true
  | x :: a', y :: b' => (x <? y) || ((x =? y) && str_lt a' b')
  end.

Definition tuple_lt (a b : list Z * list Z * list Z) : bool :=
  let '(a1, a2, a3) := a in let '(b1, b2, b3) := b in
  str_lt a1 b1 || (negb (str_lt b1 a1) && (str_lt a2 b2 || (negb (str_lt b2 a2) && str_lt a3 b3))).

(** [std::less<SocketPeerConf>]: both tuples are taken from the left argument. *)
Definition peer_less (lhs rhs : SocketPeerConf) : bool :=
  let lhs_ := (protocol_m lhs, node_m lhs, node_m lhs) in
  let rhs_ := (protocol_m lhs, node_m lhs, node_m lhs) in
  tuple_lt lhs_ rhs_.

(** [std::set::insert], the set in its order: an element that is equivalent to the
    new one keeps it out. *)
Fixpoint set_insert (less : SocketPeerConf -> SocketPeerConf -> bool) (x : SocketPeerConf)
    (l : list SocketPeerConf) : list SocketPeerConf :=
  match l with
  | [] => [x]
  | y :: l' => if less x y then x :: l else if less y x then y :: set_insert less x l' else l
  end.

(** ** The tables (net.cc) *)

Record uDepotNet := mkNet {
  client_confs_m : list SocketPeerConf;
  server_conf_m : SocketPeerConf;
  conn_m : list (list SocketPeerConf);
  consistent_hash_m : list (list (option nat))
}.

Definition net_new (thread_nr : nat) (client_confs : list SocketPeerConf) (server_conf : SocketPeerConf) : uDepotNet :=
  mkNet client_confs server_conf (replicate thread_nr [])
    (replicate thread_nr (replicate (length client_confs + if is_invalid server_conf then 0 else 1) None)).

Definition ordered_ids (net : uDepotNet) : list SocketPeerConf :=
  let own := if is_invalid (server_conf_m net) then [] else [server_conf_m net] in
  foldl (fun ids c => set_insert peer_less c ids) own (client_confs_m net).

(** The connections to [id] are written to slot [idx] in turn; [None] is a write
    past the table. *)
Fixpoint slot_fill (id : SocketPeerConf) (idx : nat) (conns : list SocketPeerConf) (j : nat)
    (tab : list (option nat)) : option (list (option nat)) :=
  match conns with
  | [] => Some tab
  | c :: conns' =>
      if peer_eqb id c
      then if (idx <? length tab)%nat then slot_fill id idx conns' (S j) (<[idx := Some j]> tab) else None
      else slot_fill id idx conns' (S j) tab
  end.

(** The loop over the ids for one thread. *)
Fixpoint table_fill (self : SocketPeerConf) (ids conns : list SocketPeerConf) (idx : nat)
    (tab : list (option nat)) : option (list (option nat)) :=
  match ids with
  | [] => Some tab
  | id :: ids' =>
      if peer_eqb id self then table_fill self ids' conns idx tab
      else tab' ← slot_fill id idx conns 0 tab; table_fill self ids' conns (S idx) tab'
  end.

Definition setup_consistent_hash_map (net : uDepotNet) : option uDepotNet :=
  tabs ← mapM (fun '(conns, tab) => table_fill (server_conf_m net) (ordered_ids net) conns 0 tab)
              (zip (conn_m net) (consistent_hash_m net));
  Some (mkNet (client_confs_m net) (server_conf_m net) (conn_m net) tabs).

Section Start.
(** What [start] of the server answers, and that of the client of a thread. *)
Context (server_start : Z) (client_start : nat -> nat -> Z).

(** The connections of one thread up to the first that fails, with its error. *)
Fixpoint start_clients (tid i : nat) (confs conns : list SocketPeerConf) : Z * list SocketPeerConf :=
  match confs with
  | [] => (0, conns)
  | conf :: confs' =>
      let err := client_start tid i in
      if negb (err =? 0) then (err, conns) else start_clients tid (S i) confs' (conns ++ [conf])
  end.

Fixpoint start_thread_clients (tid : nat) (confs : list SocketPeerConf) (conns : list (list SocketPeerConf))
  : Z * list (list SocketPeerConf) :=
  match conns with
  | [] => (0, [])
  | c :: conns' =>
      let '(err, c') := start_clients tid 0 confs c in
      if negb (err =? 0) then (err, c' :: conns')
      else let '(err, r) := start_thread_clients (S tid) confs conns' in (err, c' :: r)
  end.

Definition init_socket_key_value_client (net : uDepotNet) : Z * uDepotNet :=
  let '(err, conns) := start_thread_clients 0 (client_confs_m net) (conn_m net) in
  (err, mkNet (client_confs_m net) (server_conf_m net) conns (consistent_hash_m net)).

Definition start_net_all (net : uDepotNet) : option (Z * uDepotNet) :=
  if negb (server_start =? 0) then Some (-1, net)
  else
    let '(err, net1) := init_socket_key_value_client net in
    if negb (err =? 0) then Some (-1, net1)
    else net2 ← setup_consistent_hash_map net1; Some (0, net2).

End Start.

(** [get_scd] and [get_client]: null is [Some None]; [None] is a thread past the
    tables. *)
Definition get_scd (net : uDepotNet) (tid idx : nat) : option nat :=
  match consistent_hash_m net !! tid with
  | Some tab => default None (tab !! idx)
  | None => None
  end.

Definition get_client (net : uDepotNet) (h : Z) (tid : nat) : option (option nat) :=
  tab ← consistent_hash_m net !! tid;
  Some (if (length tab =? 0)%nat then None
        else get_scd net tid (Z.to_nat (u32 (h mod Z.of_nat (length tab))))).

(** ** Operations of a node (udepot-lsa.cc) *)

(** The node's store and the connections of one thread, with their clients. *)
Record node_st := mkNode { n_kv : kv; n_conns : nat -> con; n_clients : nat -> client }.

Definition on_store {A} (m : kvm A) : stm node_st A := fun s =>
  '(a, k) ← m (n_kv s); Some (a, mkNode k (n_conns s) (n_clients s)).

(** A call of client [j]. *)
Definition on_client {A} (j : nat) (m : client -> mcm (A * client)) : stm node_st A := fun s =>
  '((a, cl), m') ← m (n_clients s j) (mkMcs (n_kv s) (n_conns s j) []);
  Some (a, mkNode (ms_kv m') (fun i => if decide (i = j) then ms_con m' else n_conns s i)
                  (fun i => if decide (i = j) then cl else n_clients s i)).

Section Node.
Context (env : mc_env) (fuel rounds : nat) (junk : Z) (net : uDepotNet) (tid : nat).

Local Abbreviation kenv := (me_kv env).

Definition node_put (keyval : mbuff) (key_size : nat) (op : put_op) : stm node_st (Z * mbuff) :=
  '(rc, h) ← on_store (hash_mbuff kenv keyval 0 key_size);
  if negb (rc =? 0) then mret (rc, keyval)
  else
    client ← lifto (get_client net h tid);
    match client with
    | Some j => rc ← on_client j (fun cl => remote_put env rounds cl keyval (Z.of_nat key_size)); mret (rc, keyval)
    | None => on_store (put_loop kenv fuel h keyval (get_valid_size keyval) key_size op)
    end.

Definition node_get (key val_out : mbuff) : stm node_st (Z * mbuff) :=
  '(err, h) ← on_store (hash_mbuff kenv key 0 (get_valid_size key));
  if negb (err =? 0) then mret (err, val_out)
  else
    cli ← lifto (get_client net h tid);
    match cli with
    | Some j => on_client j (fun cl => '(rc, cl, val) ← remote_get env rounds junk cl key val_out; mret ((rc, val), cl))
    | None =>
        let key_size := get_valid_size key in
        '(err, val_size, mb) ← on_store (lookup_mbuff kenv fuel h key 0 key_size val_out);
        if err =? EEXIST then
          mb' ← lifto (reslice_ mb (Z.to_nat val_size) (putKeyvalPrefixSize + key_size)); mret (0, mb')
        else mb' ← lifto (reslice_ mb 0 0); mret (err, mb')
    end.

(** A remote [exists] reads the value into an Mbuff of its own. *)
Definition node_exists (key : mbuff) : stm node_st (Z * Z) :=
  '(err, h) ← on_store (hash_mbuff kenv key 0 (get_valid_size key));
  if negb (err =? 0) then mret (err, 0)
  else
    cli ← lifto (get_client net h tid);
    match cli with
    | Some j =>
        '(xret, val_mb) ← on_client j (fun cl =>
          '(rc, cl, val) ← remote_get env rounds junk cl key mbuff_empty; mret ((rc, val), cl));
        mret (xret, if xret =? 0 then Z.of_nat (get_valid_size val_mb) else 0)
    | None =>
        '(err, val_size) ← on_store (lookup_exists kenv fuel h key 0 (get_valid_size key));
        mret (if err =? EEXIST then 0 else err, val_size)
    end.

Definition node_del (key : mbuff) : stm node_st (Z * mbuff) :=
  '(rc, h) ← on_store (hash_mbuff kenv key 0 (get_valid_size key));
  if negb (rc =? 0) then mret (rc, key)
  else
    cli ← lifto (get_client net h tid);
    match cli with
    | Some j => rc ← on_client j (fun cl => remote_del cl key); mret (rc, key)
    | None => on_store (del_loop kenv fuel h key)
    end.

End Node.

(** ** The set of addresses *)

Lemma str_lt_irrefl a : str_lt a a = false.
Proof. induction a as [|x a IH]; [done|]. simpl. by rewrite Z.ltb_irrefl, Z.eqb_refl, IH. Qed.

(** No address is less than another one. *)
Lemma peer_less_never l r : peer_less l r = false.
Proof. unfold peer_less, tuple_lt. by rewrite !str_lt_irrefl. Qed.

(** So a set never grows past its first element. *)
Lemma set_insert_full x y l : set_insert peer_less x (y :: l) = y :: l.
Proof. cbn [set_insert]. by rewrite !peer_less_never. Qed.

Lemma inserts_full l : forall y ids, foldl (fun ids c => set_insert peer_less c ids) (y :: ids) l = y :: ids.
Proof. induction l as [|c l IH]; intros y ids; [done|]. cbn [foldl]. rewrite set_insert_full. apply IH. Qed.

Lemma ordered_ids_serving net : is_invalid (server_conf_m net) = false -> ordered_ids net = [server_conf_m net].
Proof. intros Hv. unfold ordered_ids. rewrite Hv. apply inserts_full. Qed.

Lemma ordered_ids_client net : is_invalid (server_conf_m net) = true -> ordered_ids net = take 1 (client_confs_m net).
Proof.
  intros Hv. unfold ordered_ids. rewrite Hv. destruct (client_confs_m net) as [|c l]; [done|]. apply inserts_full.
Qed.

(** ** Connections *)

Lemma start_clients_ok cs tid confs : forall i conns conns',
  start_clients cs tid i confs conns = (0, conns') -> conns' = conns ++ confs.
Proof.
  induction confs as [|c confs IH]; intros i conns conns'; cbn [start_clients].
  - intros [= <-]. by rewrite app_nil_r.
  - destruct (Z.eqb_spec (cs tid i) 0); cbn [negb]; [|by intros [= ? _]]. intros H. apply IH in H as ->. by rewrite <- app_assoc.
Qed.

Lemma start_thread_clients_ok cs confs n : forall tid conns,
  start_thread_clients cs tid confs (replicate n []) = (0, conns) -> conns = replicate n confs.
Proof.
  induction n as [|n IH]; intros tid conns; cbn [replicate start_thread_clients]; [by intros [= <-]|].
  destruct (start_clients cs tid 0 confs []) as [err c'] eqn:E.
  destruct (Z.eqb_spec err 0) as [->|]; cbn [negb]; [|by intros [= ? _]].
  destruct (start_thread_clients cs (S tid) confs (replicate n [])) as [e r] eqn:E2. intros [= -> <-].
  apply start_clients_ok in E as ->. by apply IH in E2 as ->.
Qed.

(** ** Tables *)

Lemma slot_fill_spec id idx conns : forall j tab, (idx < length tab)%nat ->
  exists tab', slot_fill id idx conns j tab = Some tab' /\ length tab' = length tab /\
    (forall i, i <> idx -> tab' !! i = tab !! i) /\
    (tab' !! idx = tab !! idx /\ id ∉ conns \/
     exists k, conns !! k = Some id /\ tab' !! idx = Some (Some (j + k)%nat)).
Proof.
  induction conns as [|c conns IH]; intros j tab Hi; cbn [slot_fill].
  { exists tab. do 3 (split; [done|]). left. split; [done|]. apply not_elem_of_nil. }
  unfold peer_eqb. destruct (bool_decide_reflect (id = c)) as [->|Hne].
  - rewrite (proj2 (Nat.ltb_lt _ _) Hi).
    destruct (IH (S j) (<[idx := Some j]> tab)) as (tab' & E & Hl & Ho & Hs); [by rewrite length_insert|].
    exists tab'. rewrite length_insert in Hl. split; [done|]. split; [done|]. split.
    { intros i Hne. rewrite Ho by done. by apply list_lookup_insert_ne. }
    right. destruct Hs as [[Hs _]|(k & Hk & Hs)].
    + exists 0%nat. split; [done|]. rewrite Hs, Nat.add_0_r. by apply list_lookup_insert_eq.
    + exists (S k). split; [done|]. rewrite Hs. do 2 f_equal. lia.
  - destruct (IH (S j) tab Hi) as (tab' & E & Hl & Ho & Hs). exists tab'. do 3 (split; [done|]).
    destruct Hs as [[Hs Hn]|(k & Hk & Hs)].
    + left. split; [done|]. apply not_elem_of_cons. done.
    + right. exists (S k). split; [done|]. rewrite Hs. do 2 f_equal. lia.
Qed.

(** The slots of a table before the start. *)
Definition slot_nr (clients : list SocketPeerConf) (server : SocketPeerConf) : nat :=
  (length clients + if is_invalid server then 0 else 1)%nat.

(** What a hash maps to: the node itself when it serves; otherwise the first peer
    has the first slot and no other slot is used. *)
Definition routed (clients : list SocketPeerConf) (server : SocketPeerConf) (tab : list (option nat)) : Prop :=
  length tab = slot_nr clients server /\
  (forall i, (0 < i)%nat -> default None (tab !! i) = None) /\
  (is_invalid server = false -> default None (tab !! 0%nat) = None) /\
  (is_invalid server = true -> forall c, head clients = Some c -> is_invalid c = false ->
    exists j, clients !! j = Some c /\ tab !! 0%nat = Some (Some j)).

Lemma table_filled net : exists tab,
  table_fill (server_conf_m net) (ordered_ids net) (client_confs_m net) 0
    (replicate (slot_nr (client_confs_m net) (server_conf_m net)) None) = Some tab /\
  routed (client_confs_m net) (server_conf_m net) tab.
Proof.
  destruct net as [clients server cn ch]. cbn [server_conf_m client_confs_m].
  assert (forall n i, default None ((replicate n None : list (option nat)) !! i) = None) as Hnone.
  { intros n i. destruct (replicate n None !! i) as [x|] eqn:E; [|done]. by apply lookup_replicate in E as [-> _]. }
  destruct (is_invalid server) eqn:Hv.
  - rewrite ordered_ids_client by done. cbn [client_confs_m]. unfold routed. rewrite Hv. destruct clients as [|c clients].
    { exists []. split; [unfold slot_nr; by rewrite Hv|]. unfold slot_nr. rewrite Hv. by do 3 (split; [done|]). }
    cbn [take table_fill firstn]. unfold peer_eqb at 1. destruct (bool_decide_reflect (c = server)) as [->|Hne].
    + eexists. split; [reflexivity|]. rewrite length_replicate. split; [done|]. split; [done|]. split; [done|].
      intros _ c' [= <-]. congruence.
    + assert (0 < slot_nr (c :: clients) server)%nat as Hpos by (unfold slot_nr; simpl; lia).
      destruct (slot_fill_spec c 0 (c :: clients) 0 (replicate (slot_nr (c :: clients) server) None)) as (tab & E & Hl & Ho & Hs).
      { by rewrite length_replicate. }
      exists tab. rewrite E. cbn [mbind option_bind]. split; [done|]. rewrite length_replicate in Hl. split; [done|]. split.
      { intros i Hi. rewrite Ho by lia. apply Hnone. }
      split; [done|]. intros _ c' [= <-] _. destruct Hs as [[_ Hn]|(k & Hk & Hs)].
      { exfalso. apply Hn, list_elem_of_here. }
      by exists k.
  - rewrite ordered_ids_serving by done. cbn [server_conf_m table_fill]. unfold peer_eqb. rewrite bool_decide_eq_true_2 by done.
    eexists. split; [reflexivity|]. unfold routed. rewrite length_replicate, Hv. split; [done|]. split; [by intros|]. by split.
Qed.

Lemma mapM_replicate {A B} (f : A -> option B) x y n : f x = Some y -> mapM f (replicate n x) = Some (replicate n y).
Proof. intros Hf. induction n as [|n IH]; [done|]. cbn [replicate mapM]. rewrite Hf. cbn [mbind option_bind]. by rewrite IH. Qed.

Lemma zip_replicate {A B} (a : A) (b : B) n : zip (replicate n a) (replicate n b) = replicate n (a, b).
Proof. induction n as [|n IH]; [done|]. cbn [replicate zip zip_with]. f_equal. exact IH. Qed.

(** Every table after a start, whether the start fails or not. *)
Lemma start_tables server_start client_start thread_nr clients server :
  exists rc net, start_net_all server_start client_start (net_new thread_nr clients server) = Some (rc, net) /\
    (rc = 0 -> conn_m net = replicate thread_nr clients /\
      exists tab, consistent_hash_m net = replicate thread_nr tab /\ routed clients server tab).
Proof.
  unfold start_net_all. destruct (Z.eqb_spec server_start 0); cbn [negb]; [|eexists _, _; split; [reflexivity|done]].
  unfold init_socket_key_value_client. cbn [net_new client_confs_m conn_m server_conf_m consistent_hash_m].
  destruct (start_thread_clients client_start 0 clients (replicate thread_nr [])) as [err conns] eqn:E.
  destruct (Z.eqb_spec err 0) as [->|]; cbn [negb]; [|eexists _, _; split; [reflexivity|done]].
  apply start_thread_clients_ok in E as ->. unfold setup_consistent_hash_map. cbn [client_confs_m conn_m server_conf_m consistent_hash_m].
  set (net1 := mkNet _ _ _ _). destruct (table_filled net1) as (tab & Et & Hr). cbn [net1 client_confs_m server_conf_m] in Et, Hr.
  rewrite zip_replicate. erewrite mapM_replicate by exact Et. cbn [mbind option_bind].
  eexists _, _. split; [reflexivity|]. intros _. split; [done|]. by exists tab.
Qed.

Lemma get_client_slot net thread_nr tab h tid : (tid < thread_nr)%nat -> in_width 64 h ->
  consistent_hash_m net = replicate thread_nr tab -> Z.of_nat (length tab) < 2 ^ 32 ->
  get_client net h tid = Some (default None (tab !! Z.to_nat (h mod Z.of_nat (length tab)))).
Proof.
  intros Ht Hh Hn Hl. unfold get_client, get_scd. rewrite Hn, lookup_replicate_2 by done. cbn [mbind option_bind].
  destruct tab as [|x tab]; [done|]. set (l := x :: tab) in *. assert (0 < Z.of_nat (length l)) by (simpl; lia).
  replace (length l =? 0)%nat with false by done. rewrite (wrap_small 32); [done|]. unfold in_width.
  pose proof (Z.mod_pos_bound h (Z.of_nat (length l))). lia.
Qed.

(** The tables of a node that serves hold no client. *)
Lemma get_client_serving net thread_nr clients server tab h tid : (tid < thread_nr)%nat -> is_invalid server = false ->
  consistent_hash_m net = replicate thread_nr tab -> routed clients server tab -> get_client net h tid = Some None.
Proof.
  intros Ht Hv Hn (_ & Hrest & Hfirst & _). unfold get_client, get_scd. rewrite Hn, lookup_replicate_2 by done. cbn [mbind option_bind].
  destruct (_ =? 0)%nat; [done|]. f_equal. set (i := Z.to_nat _). destruct (decide (i = 0%nat)) as [->|Hne]; [by apply Hfirst|].
  apply Hrest. lia.
Qed.
