(* ===== verification/RemoteMbuff.v ===== *)
(** * RemoteMbuff: receiving through a vector into an Mbuff

    The entries of [fill_iovec_append] point at the bytes it appended, in order, so
    what the kernel writes through them is what the Mbuff holds afterwards. *)
From Stdlib Require Import ZArith Lia.
From stdpp Require Import base tactics list numbers.
From S2P Require Import Prelude Util Mbuff MbuffSpec MbuffHead StoreFormat KvStore KvIo StateM McServer MbuffChunks.
From S2P Require Import RemoteWire RemoteKv.

Local Open Scope nat_scope.

(** ** Nodes of the same shape *)

Definition same_shape (n n' : node) : Prop :=
  mb_ptr n' = mb_ptr n /\ mb_buff_len_ n' = mb_buff_len_ n /\ mb_off_ n' = mb_off_ n /\ mb_len_ n' = mb_len_ n.

Lemma same_shape_refl n : same_shape n n.
Proof. done. Qed.

Lemma same_shapes_refl l : Forall2 same_shape l l.
Proof. apply Forall2_same_length_lookup. split; [done|]. intros i x y Hx Hy. rewrite Hx in Hy. injection Hy as <-. done. Qed.

Lemma shape_wf n n' : same_shape n n' -> node_wf n -> node_wf n'.
Proof. intros (_ & Hb & Ho & Hl) [H1 H2 H3]. split; rewrite ?Hb, ?Ho, ?Hl; done. Qed.

Lemma shapes_wf l l' : Forall2 same_shape l l' -> Forall node_wf l -> Forall node_wf l'.
Proof.
  induction 1 as [|n n' l l' Hn _ IH]; [done|]. rewrite !Forall_cons_iff. intros [H1 H2].
  split; [by apply (shape_wf n)|by apply IH].
Qed.

Lemma shapes_len l l' : Forall2 same_shape l l' -> sum_list_with mb_len_ l' = sum_list_with mb_len_ l.
Proof. induction 1 as [|n n' l l' (_ & _ & _ & Hl) _ IH]; [done|]. simpl. lia. Qed.

Lemma shapes_ids l l' : Forall2 same_shape l l' -> node_id <$> l' = node_id <$> l.
Proof.
  induction 1 as [|n n' l l' (Hp & Hb & _ & _) _ IH]; [done|]. rewrite !fmap_cons. f_equal; [|done].
  unfold node_id. by rewrite Hp, Hb.
Qed.

Lemma shapes_flush l l' : Forall2 same_shape l l' -> head_flush l -> head_flush l'.
Proof.
  destruct 1 as [|n n' l l' (_ & Hb & Ho & Hl) Hr]; [done|]. intros [H1 H2]. split; [congruence|].
  intros Hne. unfold append_space in *. rewrite Hb, Ho, Hl. apply H2. by inversion Hr; subst.
Qed.

Lemma shapes_last l l' : Forall2 same_shape l l' ->
  match list.last l' with Some t => append_space t | None => 0 end = match list.last l with Some t => append_space t | None => 0 end.
Proof.
  intros H. destruct (list.last l) as [t|] eqn:E.
  - apply last_Some in E as [l0 ->]. apply Forall2_app_inv_l in H as (l1 & l2 & _ & H2 & ->).
    inversion H2 as [|? t' ? ? (_ & Hb & Ho & Hl) H3]; subst. inversion H3; subst. rewrite last_snoc.
    unfold append_space. by rewrite Hb, Ho, Hl.
  - apply last_None in E as ->. by inversion H.
Qed.

(** An Mbuff whose nodes got other bytes. *)
Lemma shapes_mbuff mb l : mb_wf mb -> Forall2 same_shape (mb_nodes mb) l ->
  let mb' := set_nodes mb l in
  mb_wf mb' /\ buffers mb' = buffers mb /\ append_avail_size mb' = append_avail_size mb /\ keeps_room mb mb' /\
  get_valid_size mb' = get_valid_size mb.
Proof.
  intros [H1 H2 H3 H4 H5] Hs mb'.
  assert (buffers mb' = buffers mb) as Hb.
  { unfold buffers. cbn [mb' set_nodes mb_nodes mb_free_]. by rewrite !fmap_app, (shapes_ids _ _ Hs). }
  split; [split|]; cbn [mb' set_nodes mb_nodes mb_free_ mb_valid_size_ mb_free_size_ mb_free_nodes_]; try done.
  - by apply (shapes_wf (mb_nodes mb)).
  - rewrite H3. unfold compute_valid_size. cbn [mb' set_nodes mb_nodes]. by rewrite (shapes_len _ _ Hs).
  - split; [done|]. split; [|split; [|done]].
    + unfold append_avail_size. cbn [mb' set_nodes mb_nodes mb_free_size_]. by rewrite (shapes_last _ _ Hs).
    + apply keeps_room_flush; [by rewrite Hb|]. by apply shapes_flush.
Qed.

(** ** Writing through entries *)

(** A piece of the valid bytes of a node overwritten. *)
Lemma node_written n off bs : node_wf n -> mb_off_ n <= off -> off + length bs <= mb_off_ n + mb_len_ n ->
  let n' := Node (mb_ptr n) (write_at (mb_buff_ n) off bs) (mb_off_ n) (mb_len_ n) in
  same_shape n n' /\
  node_data n' = take (off - mb_off_ n) (node_data n) ++ bs ++ drop (off - mb_off_ n + length bs) (node_data n).
Proof.
  intros [Hr Hf _] Ho Hb n'. unfold mb_buff_len_ in *.
  assert (length (write_at (mb_buff_ n) off bs) = length (mb_buff_ n)) as Hl by (apply write_at_length; lia).
  split; [by repeat split|]. unfold n', node_data, get_valid_chunk. cbn [mb_off_ mb_len_ mb_buff_].
  rewrite !Nat.add_0_r. set (o := mb_off_ n) in *. set (L := mb_len_ n) in *. set (k := off - o).
  set (d := take L (drop o (mb_buff_ n))).
  assert (length d = L) as Hd by (unfold d; rewrite length_take, length_drop; lia).
  assert (mb_buff_ n = take o (mb_buff_ n) ++ d ++ drop (o + L) (mb_buff_ n)) as Hsplit.
  { rewrite <- (drop_drop (mb_buff_ n) L o). unfold d. by rewrite take_drop, take_drop. }
  assert (length (take o (mb_buff_ n)) = o) as Hp by (rewrite length_take; lia).
  rewrite Hsplit. set (p := take o (mb_buff_ n)) in *. set (q := drop (o + L) (mb_buff_ n)). clearbody p q d.
  unfold write_at. rewrite take_app_ge, (drop_app_ge p) by lia. rewrite Hp. fold k.
  replace (off + length bs - o) with (k + length bs) by lia.
  rewrite take_app_le, (drop_app_le d) by lia. rewrite <- (app_assoc p), drop_app_length' by done.
  rewrite !app_assoc. rewrite take_app_length'; [done|].
  rewrite !length_app, length_take, length_drop. lia.
Qed.

Lemma list_alter_middle {A} (f : A -> A) l x r : alter f (length l) (l ++ x :: r) = l ++ f x :: r.
Proof. induction l as [|y l IH]; [done|]. cbn [length app]. simpl. f_equal. exact IH. Qed.

(** The entries for whole nodes from place [k] on. *)
Fixpoint whole_entries (k : nat) (l : list node) : list iovec :=
  match l with
  | [] => []
  | n :: l' => IoVec k (mb_off_ n) (mb_len_ n) :: whole_entries (S k) l'
  end.

Lemma iov_write_whole l : forall bs pre post, Forall node_wf l -> length bs <= sum_list_with mb_len_ l ->
  exists l', iov_write (whole_entries (length pre) l) bs (pre ++ l ++ post) = pre ++ l' ++ post /\
    Forall2 same_shape l l' /\ concat (node_data <$> l') = bs ++ drop (length bs) (concat (node_data <$> l)).
Proof.
  induction l as [|n l IH]; intros bs pre post Hw Hb.
  { exists []. cbn [whole_entries iov_write]. simpl in Hb. destruct bs; [|simpl in Hb; lia]. done. }
  apply Forall_cons_iff in Hw as [Hn Hw]. simpl in Hb. cbn [whole_entries iov_write iov_node iov_off iov_len].
  change (pre ++ (n :: l) ++ post) with (pre ++ n :: (l ++ post)).
  rewrite list_alter_middle.
  destruct (node_written n (mb_off_ n) (take (mb_len_ n) bs) Hn) as (Hs & Hd); [lia|rewrite length_take; lia|].
  set (n' := Node (mb_ptr n) _ _ _) in *. rewrite Nat.sub_diag, take_0 in Hd. cbn [app] in Hd.
  destruct (IH (drop (mb_len_ n) bs) (pre ++ [n']) post Hw) as (l' & E & Hs' & Hd'); [rewrite length_drop; lia|].
  rewrite length_app in E. simpl in E. rewrite Nat.add_1_r, <- app_assoc in E. cbn [app] in E.
  exists (n' :: l'). split; [by rewrite E, <- app_assoc|]. split; [by constructor|].
  rewrite !fmap_cons. cbn [concat]. rewrite Hd, Hd'. rewrite length_take, length_drop.
  pose proof (node_data_length n Hn) as Hln. destruct (Nat.le_ge_cases (mb_len_ n) (length bs)) as [Hle|Hge].
  - rewrite Nat.min_l, drop_ge, app_nil_r by lia. rewrite app_assoc, take_drop. f_equal.
    rewrite drop_app_ge by lia. by rewrite Hln.
  - rewrite Nat.min_r by lia. rewrite take_ge, (drop_ge bs) by lia. cbn [app].
    replace (length bs - mb_len_ n) with 0 by lia. by rewrite drop_0, drop_app_le, app_assoc by lia.
Qed.

(** ** What [fill_iovec_append] leaves *)

(** The closure without the entries. *)
Definition count_fn (iov_max : nat) : chunk_fn (nat * nat) := fun '(rem, cnt) b =>
  if cnt =? iov_max then ((rem, cnt), b, 0)
  else let len := Nat.min (length b) rem in
    if len =? 0 then ((rem, cnt), b, 0) else ((rem - len, S cnt), b, len).

Lemma iov_fn_count m rem iov a c :
  count_fn m (rem, length iov) c =
    (let '((rem', iov'), c', k) := iov_append_fn m (rem, iov) a c in ((rem', length iov'), c', k)).
Proof.
  unfold count_fn, iov_append_fn. destruct a as [node off]. destruct (length iov =? m); [done|].
  destruct (_ =? 0); [done|]. rewrite length_app. simpl. by rewrite Nat.add_1_r.
Qed.

Lemma append_at_count m fuel : forall rem iov mb,
  append_loop (count_fn m) fuel (rem, length iov) mb =
    (fun '((rem', iov'), mb') => ((rem', length iov'), mb')) <$> append_at_loop (iov_append_fn m) fuel (rem, iov) mb.
Proof.
  induction fuel as [|fuel IH]; intros rem iov mb; [done|]. cbn [append_loop append_at_loop].
  destruct (append_prepare mb) as [[c|] mb1]; [|done]. rewrite (iov_fn_count m rem iov (tail_addr mb1) c).
  destruct (iov_append_fn m (rem, iov) (tail_addr mb1) c) as [[[rem' iov'] c'] k].
  destruct (_ || _); [done|]. apply IH.
Qed.

Lemma count_fn_inv m tot : chunk_inv (count_fn m) (fun st acc => fst st + length acc = tot) (fun _ _ => True) (fun _ _ => True).
Proof.
  intros [rem cnt] acc c HI Hc. unfold count_fn. simpl in HI. destruct (cnt =? m).
  { rewrite take_0, app_nil_r. simpl. split; [lia|done]. }
  destruct (Nat.eqb_spec (Nat.min (length c) rem) 0).
  { rewrite take_0, app_nil_r. simpl. split; [lia|done]. }
  split; [lia|]. split; [done|]. rewrite length_app, length_take. simpl. split; [lia|done].
Qed.

(** One round of the closure at a chunk. *)
Lemma iov_fn_cases m rem iov a c :
  iov_append_fn m (rem, iov) a c = ((rem, iov), c, 0) \/
  exists k, 0 < k <= length c /\ k <= rem /\ iov_append_fn m (rem, iov) a c = ((rem - k, iov ++ [IoVec (fst a) (snd a) k]), c, k).
Proof.
  unfold iov_append_fn. destruct a as [node off]. destruct (length iov =? m); [by left|].
  destruct (Nat.eqb_spec (Nat.min (length c) rem) 0); [by left|]. right. exists (Nat.min (length c) rem). split; [lia|].
  split; [lia|done].
Qed.

Lemma tail_addr_snoc mb l t : mb_nodes mb = l ++ [t] -> tail_addr mb = (length l, mb_off_ t + mb_len_ t).
Proof. intros Hn. unfold tail_addr. rewrite Hn, last_snoc, length_app. simpl. f_equal. lia. Qed.

(** With a full tail every entry is a whole node of its own. *)
Lemma fill_full m fuel : forall rem iov mb st' mb', mb_wf mb -> append_prepare_inline mb = None ->
  append_at_loop (iov_append_fn m) fuel (rem, iov) mb = Some (st', mb') ->
  exists more post : list node, mb_nodes mb' = mb_nodes mb ++ more ++ post /\
    snd st' = iov ++ whole_entries (length (mb_nodes mb)) more /\ Forall node_wf more /\
    fst st' + sum_list_with mb_len_ more = rem /\ concat (node_data <$> post) = [].
Proof.
  induction fuel as [|fuel IH]; intros rem iov mb st' mb' Hw Hi; [done|]. cbn [append_at_loop].
  pose proof (append_prepare_spec mb Hw) as Hp. unfold append_prepare in Hp |- *. rewrite Hi in Hp |- *.
  destruct (get_free_node mb) as [[n|] mb1] eqn:Hg; cbv beta iota in Hp.
  2:{ intros [= <- <-]. exists [], []. destruct Hp as [-> _]. cbn [whole_entries app snd fst sum_list_with].
      rewrite !app_nil_r. split; [done|]. split; [done|]. split; [constructor|]. split; [lia|done]. }
  destruct (get_free_node_wf _ _ _ Hw Hg) as (Hfr & Hno & _ & _ & _ & _).
  destruct Hp as (l & t & Hn1 & Hc & [Hs _] & Hw1 & _). set (mb1' := set_nodes mb1 (mb_nodes mb1 ++ [n])) in *.
  assert (mb_nodes mb1' = mb_nodes mb ++ [n]) as Hn by (cbn [mb1' set_nodes mb_nodes]; by rewrite Hno).
  pose proof Hn1 as Hlt. rewrite Hn in Hlt. apply app_inj_tail in Hlt as [<- <-].
  pose proof (append_chunk_length n (wf_last _ _ _ Hw1 Hn)) as Hcl. destruct Hfr as (Hpos & Ho & Hl).
  rewrite (tail_addr_snoc _ _ _ Hn), Ho, Hl. cbn [plus].
  assert (forall k, k <= length (get_append_chunk n) -> let n' := put_append_chunk n (get_append_chunk n) k in
    mb_nodes (append_finalize mb1' (get_append_chunk n) k) = mb_nodes mb ++ [n'] /\ mb_off_ n' = 0 /\ mb_len_ n' = k) as Hfin.
  { intros k Hk n'. unfold append_finalize. cbn [add_valid set_nodes mb_nodes]. rewrite Hn, alter_last_snoc.
    split; [done|]. unfold n', put_append_chunk. cbn [mb_off_ mb_len_]. lia. }
  destruct (iov_fn_cases m rem iov (length (mb_nodes mb), 0) (get_append_chunk n)) as [->|(k & Hk & Hkr & ->)].
  - intros [= <- <-]. destruct (Hfin 0 ltac:(lia)) as (Hf1 & Hf2 & Hf3). exists [], [put_append_chunk n (get_append_chunk n) 0].
    cbn [whole_entries app snd fst sum_list_with]. rewrite ?app_nil_r. split; [done|]. split; [done|]. split; [constructor|].
    split; [lia|]. cbn [fmap list_fmap concat]. unfold node_data, get_valid_chunk. by rewrite Hf3, take_0.
  - destruct (Hfin k ltac:(lia)) as (Hf1 & Hf2 & Hf3). set (n' := put_append_chunk n _ k) in *.
    destruct (append_finalize_spec mb1' (mb_nodes mb) n (get_append_chunk n) k Hw1 Hn ltac:(lia) Hcl ltac:(lia))
      as (Hw2 & _ & _ & _ & _ & Hin).
    pose proof (wf_last _ _ _ Hw2 Hf1) as Hwn. cbn [fst snd].
    destruct (Nat.eqb_spec k 0) as [|_]; [lia|]. cbn [orb]. destruct (Nat.ltb_spec k (length (get_append_chunk n))) as [Hlt|Hge].
    + intros [= <- <-]. exists [n'], []. cbn [whole_entries fst snd sum_list_with app]. rewrite ?app_nil_r, Hf2, Hf3.
      split; [done|]. split; [done|]. split; [by apply Forall_singleton|]. split; [lia|done].
    + intros E. destruct (IH _ _ _ _ _ Hw2 (Hin ltac:(lia)) E) as (more & post & H1 & H2 & H3 & H4 & H5).
      exists (n' :: more), post. rewrite H1, H2, Hf1, length_app. cbn [length whole_entries]. rewrite Hf2, Hf3, Nat.add_1_r.
      rewrite <- !app_assoc. split; [done|]. split; [done|]. split; [by constructor|]. cbn [sum_list_with]. rewrite Hf3. split; [lia|done].
Qed.

(** The first entry lies at the end of the last node in use or in a fresh one. *)
Lemma fill_written m fuel mb rem iov mb1 : mb_wf mb ->
  append_at_loop (iov_append_fn m) (S fuel) (append_avail_size mb, []) mb = Some ((rem, iov), mb1) ->
  forall bs, length bs <= append_avail_size mb - rem ->
    Forall2 same_shape (mb_nodes mb1) (iov_write iov bs (mb_nodes mb1)) /\
    exists g, concat (node_data <$> iov_write iov bs (mb_nodes mb1)) = data mb ++ bs ++ g.
Proof.
  intros Hw E bs Hb. cbn [append_at_loop] in E. pose proof (append_prepare_spec mb Hw) as Hp.
  assert (forall mbx, mb_nodes mbx = mb_nodes mb1 -> data mbx = data mb -> iov = [] -> rem = append_avail_size mb ->
    Forall2 same_shape (mb_nodes mb1) (iov_write iov bs (mb_nodes mb1)) /\
    exists g, concat (node_data <$> iov_write iov bs (mb_nodes mb1)) = data mb ++ bs ++ g) as Hnone.
  { intros mbx Hx Hdx -> ->. rewrite Nat.sub_diag in Hb. destruct bs; [|simpl in Hb; lia]. cbn [iov_write].
    split; [apply same_shapes_refl|]. exists []. rewrite <- Hx. rewrite !app_nil_r. exact Hdx. }
  destruct (append_prepare mb) as [[c|] mb'].
  2:{ injection E as <- <- <-. destruct Hp as [-> _]. by apply (Hnone mb). }
  destruct Hp as (l & t & Hn & -> & [Hs _] & Hw1 & Hd1 & _). rewrite (tail_addr_snoc _ _ _ Hn) in E.
  pose proof (wf_last _ _ _ Hw1 Hn) as Hwt. pose proof (append_chunk_length t Hwt) as Hcl.
  destruct (iov_fn_cases m (append_avail_size mb) [] (length l, mb_off_ t + mb_len_ t) (get_append_chunk t)) as [Hf|(k & Hk & Hkr & Hf)];
    rewrite Hf in E; cbv beta iota in E.
  { injection E as <- <- <-.
    destruct (append_finalize_spec mb' l t (get_append_chunk t) 0 Hw1 Hn Hs Hcl ltac:(lia)) as (_ & Hd2 & _).
    apply (Hnone (append_finalize mb' (get_append_chunk t) 0)); [done| |done|done]. by rewrite Hd2, take_0, app_nil_r, Hd1. }
  destruct (append_finalize_spec mb' l t (get_append_chunk t) k Hw1 Hn Hs Hcl ltac:(lia)) as (Hw2 & Hd2 & _ & _ & _ & Hin).
  set (mb2 := append_finalize mb' (get_append_chunk t) k) in *. set (t2 := put_append_chunk t (get_append_chunk t) k).
  assert (mb_nodes mb2 = l ++ [t2]) as Hn2.
  { unfold mb2, append_finalize. cbn [add_valid set_nodes mb_nodes]. by rewrite Hn, alter_last_snoc. }
  assert (exists more post : list node, mb_nodes mb1 = (l ++ [t2]) ++ more ++ post /\
    iov = IoVec (length l) (mb_off_ t + mb_len_ t) k :: whole_entries (S (length l)) more /\ Forall node_wf more /\
    rem + sum_list_with mb_len_ more = append_avail_size mb - k /\ concat (node_data <$> post) = []) as
    (more & post & Hn1 & Hiov & Hwm & Hrem & Hpost).
  { destruct (Nat.eqb_spec k 0) as [|_]; [lia|]. cbn [orb] in E.
    destruct (Nat.ltb_spec k (length (get_append_chunk t))) as [Hlt|Hge].
    - injection E as <- <- <-. exists [], []. rewrite Hn2. cbn [whole_entries app sum_list_with fst snd]. rewrite ?app_nil_r.
      split; [done|]. split; [done|]. split; [constructor|]. split; [lia|done].
    - destruct (fill_full m _ _ _ _ _ _ Hw2 (Hin ltac:(lia)) E) as (more & post & H1 & H2 & H3 & H4 & H5).
      exists more, post. rewrite H1, Hn2. cbn [snd fst] in *. rewrite Hn2, length_app in H2. cbn [length] in H2. rewrite Nat.add_1_r in H2.
      split; [done|]. split; [exact H2|]. done. }
  subst iov. cbn [iov_write iov_node iov_off iov_len]. rewrite Hn1, <- (app_assoc l [t2]). cbn [app]. rewrite list_alter_middle.
  pose proof (wf_last _ _ _ Hw2 Hn2) as Hwt2.
  destruct (node_written t2 (mb_off_ t + mb_len_ t) (take k bs) Hwt2) as (Hsh & Hdt);
    [cbn [t2 put_append_chunk mb_off_]; lia|rewrite length_take; cbn [t2 put_append_chunk mb_off_ mb_len_]; lia|].
  set (t3 := Node (mb_ptr t2) _ _ _) in *.
  destruct (iov_write_whole more (drop k bs) (l ++ [t3]) post Hwm) as (more' & E' & Hsm & Hdm); [rewrite length_drop; lia|].
  rewrite length_app in E'. cbn [length] in E'. rewrite Nat.add_1_r, <- !app_assoc in E'. cbn [app] in E'. rewrite E'. split.
  { apply Forall2_app; [apply same_shapes_refl|]. constructor; [done|]. apply Forall2_app; [done|apply same_shapes_refl]. }
  rewrite fmap_app, fmap_cons, fmap_app, concat_app. cbn [concat]. rewrite concat_app, Hpost, app_nil_r, Hdm, Hdt.
  destruct (put_append_spec t (get_append_chunk t) k Hwt Hcl ltac:(lia) ltac:(lia)) as (_ & Hdt2 & _).
  fold t2 in Hdt2. replace (mb_off_ t + mb_len_ t - mb_off_ t2) with (mb_len_ t) by (cbn [t2 put_append_chunk mb_off_]; lia).
  rewrite Hdt2. pose proof (node_data_length t Hwt) as Hlt. rewrite take_app_le, take_ge by lia.
  assert (data mb = concat (node_data <$> l) ++ node_data t) as ->.
  { rewrite <- Hd1, (data_app _ _ _ Hn). cbn [fmap list_fmap concat]. by rewrite app_nil_r. }
  destruct (Nat.le_ge_cases k (length bs)) as [Hle|Hge].
  - eexists. rewrite <- !app_assoc. do 2 f_equal. rewrite (drop_ge (node_data t ++ _)).
    2:{ rewrite length_app, !length_take. lia. }
    cbn [app]. rewrite app_assoc, take_drop. reflexivity.
  - rewrite take_ge, (drop_ge bs) by lia. eexists. rewrite <- !app_assoc. reflexivity.
Qed.

(** Receiving [bs] through the vector, and cutting off what was not received. *)
Lemma received_spec mb m : mb_wf mb -> (Z.of_nat (length (data mb) + append_avail_size mb) < 2 ^ 64)%Z ->
  exists iov n mb1, fill_iovec_append mb (append_avail_size mb) m = Some (iov, n, mb1) /\
    forall bs, length bs <= n -> exists mb3,
      reslice_ (set_nodes mb1 (iov_write iov bs (mb_nodes mb1))) (get_valid_size mb + length bs) 0 = Some mb3 /\
      mb_wf mb3 /\ data mb3 = data mb ++ bs /\ keeps_room mb mb3 /\
      append_avail_size mb <= append_avail_size mb3 + length bs.
Proof.
  intros Hw Hlt. destruct (append_inv (count_fn m) _ _ _ (append_avail_size mb, 0) [] mb
    (count_fn_inv m (append_avail_size mb)) Hw) as ([rem cnt] & mb1 & w & He & Hw1 & Hd1 & HI & Hb1 & Ha1 & _).
  { simpl. lia. }
  assert (keeps_room mb mb1) as Hk1.
  { apply (append_room (count_fn m) (append_avail_size mb, 0) mb (rem, cnt) mb1); [|done|done].
    intros st acc c _ Hc. pose proof (count_fn_inv m (fst st + length acc) st acc c eq_refl Hc) as H.
    destruct (count_fn m st c) as [[st' c'] k]. destruct H as (? & ? & ? & ? & ?). done. }
  unfold append in He. pose proof (append_at_count m (2 + length (mb_free_ mb)) (append_avail_size mb) [] mb) as Hc.
  cbn [length] in Hc. rewrite He in Hc. destruct (append_at_loop _ _ _ mb) as [[[rem' iov] mb1']|] eqn:E; [|done]. cbn in Hc. injection Hc as -> _ ->.
  cbn [app fst] in HI. exists iov, (append_avail_size mb - rem'), mb1'. unfold fill_iovec_append. rewrite E. split; [done|].
  intros bs Hb. destruct (fill_written m _ mb rem' iov mb1' Hw E bs Hb) as (Hsh & g & Hg).
  set (l := iov_write iov bs (mb_nodes mb1')) in *.
  destruct (shapes_mbuff mb1' l Hw1 Hsh) as (Hw2 & _ & Ha2 & Hk2 & Hv2). set (mb2 := set_nodes mb1' l) in *.
  assert (data mb2 = data mb ++ bs ++ g) as Hd2 by exact Hg.
  assert (length (data mb2) = length (data mb1')) as Hl2.
  { rewrite (data_length _ Hw2), (data_length _ Hw1). exact Hv2. }
  rewrite Hd1, length_app in Hl2. rewrite <- (data_length _ Hw : _ = get_valid_size mb).
  destruct (reslice_prefix mb2 (length (data mb) + length bs) Hw2) as (mb3 & E3 & Hw3 & Hd3 & Ha3 & Hk3).
  { rewrite Hd2, !length_app. lia. } { rewrite Hl2. lia. }
  exists mb3. split; [done|]. split; [done|]. split.
  { rewrite Hd3, Hd2, app_assoc. apply take_app_length'. by rewrite length_app. }
  split; [eapply keeps_room_trans; [done|by eapply keeps_room_trans]|]. lia.
Qed.
