(* ===== verification/RemoteSpec.v ===== *)
(** * RemoteSpec: what the two ends of the service do

    Over a connection that is not interrupted, in whatever pieces it delivers: the
    bytes the client sends are the request, the server reads exactly them, runs
    the operation on its store and sends exactly the reply, and the client reads
    exactly that. *)
From Stdlib Require Import ZArith Lia.
From stdpp Require Import base tactics list numbers.
From S2P Require Import Prelude Util HashEntry HopscotchMap HopscotchSpec FpTable DirectoryMap DirectoryGrow DirectoryOps.
From S2P Require Import Mbuff MbuffSpec MbuffHead StoreFormat KvStore KvIo KvInv KvGet KvWrite KvPut KvRefine.
From S2P Require Import StateM CString McParse McServer McParseSpec MbuffChunks KvPage McSpec RemoteWire RemoteKv RemoteMbuff.

Open Scope Z_scope.

(** ** Sending *)

Section Send.
Context (env : mc_env) (Hup : link_up env) (rounds : nat).

Lemma send_some bs c : bs <> [] -> exists k c', send env bs c = (Z.of_nat k, c') /\
  (0 < k <= length bs)%nat /\ con_moved c c' [] (take k bs).
Proof.
  intros Hb. pose proof (lu_send _ Hup (cn_tick c)) as Hs. unfold send. rewrite (proj2 (Z.ltb_ge _ 0)) by lia.
  eexists _, _. split; [reflexivity|]. rewrite length_take.
  assert (0 < length bs)%nat by (destruct bs; [done|simpl; lia]). split; [lia|]. split; [done|]. cbn [cn_out]. f_equal.
  destruct (Nat.le_ge_cases (Z.to_nat (me_send env (cn_tick c))) (length bs)); [by rewrite Nat.min_l|].
  rewrite Nat.min_r by done. by rewrite !take_ge by lia.
Qed.

Lemma send_full_all n : forall bs sent c, (length bs <= n)%nat ->
  exists c', send_full env n bs sent c = Some ((0, (sent + length bs)%nat), c') /\ con_moved c c' [] bs.
Proof.
  induction n as [|n IH]; intros bs sent c Hl.
  { destruct bs; [|simpl in Hl; lia]. exists c. cbn [send_full length]. rewrite Nat.add_0_r. split; [done|apply con_moved_refl]. }
  destruct (decide (bs = [])) as [->|Hne].
  { exists c. cbn [send_full length]. rewrite Nat.add_0_r. split; [done|apply con_moved_refl]. }
  destruct (send_some bs c Hne) as (k & c1 & Es & Hk & Hm).
  destruct (IH (drop k bs) (sent + k)%nat c1) as (c2 & E2 & Hm2); [rewrite length_drop; lia|].
  exists c2. cbn [send_full]. destruct bs as [|b bs]; [done|]. rewrite Es, (proj2 (Z.ltb_ge _ 0)), Nat2Z.id, E2 by lia.
  rewrite length_drop. split; [do 3 f_equal; lia|].
  pose proof (con_moved_trans _ _ _ _ _ _ _ Hm Hm2) as H. by rewrite take_drop in H.
Qed.

Lemma send_loop_all k : forall it c, iter_wf it -> (length (i_nodes it) <= k)%nat -> (i_len_ it <= rounds)%nat ->
  exists c', mbuff_send_loop env rounds k (Some it) (i_len_ it) c = Some (0, c') /\ con_moved c c' [] (iter_rest it).
Proof.
  induction k as [|k IH]; intros it c Hi Hk Hr.
  { destruct (iwf_some _ Hi). apply nil_length_inv. lia. }
  cbn [mbuff_send_loop]. pose proof (iwf_chunk _ Hi) as Hc.
  destruct (send_full_all rounds (i_chunk_ it) 0 c ltac:(lia)) as (c1 & E1 & Hm1). rewrite E1. cbn [mbind option_bind Z.eqb negb].
  destruct (iter_next it) as [it'|] eqn:Hn.
  - destruct (iter_next_Some _ _ Hi Hn) as (Hi' & Hrest & Hl & Hlen). cbn [plus]. rewrite <- Hl.
    destruct (IH it' c1 Hi' ltac:(lia) ltac:(lia)) as (c2 & E2 & Hm2). exists c2. split; [done|].
    pose proof (con_moved_trans _ _ _ _ _ _ _ Hm1 Hm2) as H. rewrite Hrest in H. unfold iter_rest in H |- *.
    by rewrite drop_app_length in H.
  - apply iter_next_None in Hn as Hl; [|done]. exists c1. rewrite Hl, Nat.sub_diag. split; [by destruct k|].
    unfold iter_rest. by rewrite Hl, Nat.sub_diag, take_0, app_nil_r.
Qed.

Lemma mbuff_send_all mb c : short mb -> (length (data mb) <= rounds)%nat ->
  exists c', mbuff_send env rounds mb 0 (get_valid_size mb) c = Some (0, c') /\ con_moved c c' [] (data mb).
Proof.
  intros [Hw Hlt] Hr. unfold mbuff_send. destruct (decide (data mb = [])) as [Hz|Hne].
  { exists c. unfold get_valid_size. rewrite <- (data_length mb Hw), Hz. cbn [length]. split; [done|apply con_moved_refl]. }
  destruct (iterate_all mb Hw Hne Hlt) as (it & He & Hi & Hl & Hrest & _). rewrite He. cbn [mbind option_bind Z.eqb negb].
  unfold get_valid_size. rewrite <- (data_length mb Hw), <- Hl.
  destruct (send_loop_all (length (i_nodes it)) it c Hi (Nat.le_refl _) ltac:(lia)) as (c' & E & Hm). exists c'. by rewrite Hrest in Hm.
Qed.

Lemma chunk_list_ends mb : short mb -> data mb <> [] -> ends (chunk_list mb).
Proof.
  intros [Hw Hlt] Hne. destruct (iterate_all mb Hw Hne Hlt) as (it & He & Hi & Hl & _). unfold chunk_list. rewrite He.
  assert (0 < i_len_ it)%nat as Hpos by (rewrite Hl; destruct (data mb); [done|simpl; lia]). clear He Hl.
  assert (forall k it, iter_wf it -> (0 < i_len_ it)%nat -> (length (i_nodes it) <= k)%nat -> ends (fill_iovec_loop k (Some it))) as H.
  { clear. induction k as [|k IH]; intros it Hi Hpos Hk; [destruct (iwf_some _ Hi); apply nil_length_inv; lia|].
    cbn [fill_iovec_loop]. destruct (iter_next it) as [it'|] eqn:Hn.
    - destruct (iter_next_Some _ _ Hi Hn) as (Hi' & _ & Hl & Hlen).
      assert (0 < i_len_ it')%nat as Hpos'.
      { unfold iter_next in Hn. destruct (Nat.eqb_spec (i_len_ it - length (i_chunk_ it)) 0); [done|lia]. }
      specialize (IH it' Hi' Hpos' ltac:(lia)). unfold ends in *. destruct k as [|k]; [destruct (iwf_some _ Hi'); apply nil_length_inv; lia|].
      cbn [fill_iovec_loop] in *. by rewrite last_cons_cons.
    - apply iter_next_None in Hn as Hl; [|done]. unfold ends.
      assert (i_chunk_ it <> []) as Hc by (intros Hz; rewrite Hz in Hl; simpl in Hl; lia). by destruct k. }
  by apply H.
Qed.

End Send.

(** ** Receiving a request *)

Section Request.
Context (env : mc_env) (Hup : link_up env) (Hq : quiet (me_kv env)) (rounds : nat).

Local Abbreviation kenv := (me_kv env).

(** The first call delivers the header, and the start of the body. *)
Lemma recv_first n c hdr body : cn_in c = req_bytes hdr ++ body ->
  Z.of_nat sizeof_ReqHdr <= me_recv env (cn_tick c) ->
  exists got rest c', recv env (n + sizeof_ReqHdr) c =
      ((Z.of_nat (sizeof_ReqHdr + length got), req_bytes hdr ++ got), c') /\
    body = got ++ rest /\ (length got <= n)%nat /\ con_moved c c' (req_bytes hdr ++ got) [].
Proof.
  intros Hc H24. unfold recv. rewrite (proj2 (Z.ltb_ge _ 0)) by (unfold sizeof_ReqHdr in H24; lia).
  set (m := Nat.min _ _). assert (sizeof_ReqHdr <= m)%nat as Hm by (unfold m, sizeof_ReqHdr in *; lia).
  assert (take m (cn_in c) = req_bytes hdr ++ take (m - sizeof_ReqHdr) body) as Ht.
  { rewrite Hc, take_app_ge by (rewrite req_bytes_length; lia). by rewrite req_bytes_length. }
  exists (take (m - sizeof_ReqHdr) body), (drop (m - sizeof_ReqHdr) body).
  eexists. rewrite Ht, length_app, req_bytes_length. split; [reflexivity|]. split; [by rewrite take_drop|]. split.
  { rewrite length_take. unfold m, sizeof_ReqHdr in *. lia. }
  split; cbn [cn_in cn_out]; [|by rewrite app_nil_r]. rewrite Hc.
  rewrite drop_app_ge by (rewrite req_bytes_length; lia). rewrite req_bytes_length, <- app_assoc. f_equal.
  rewrite length_take. replace (sizeof_ReqHdr + _ - sizeof_ReqHdr)%nat with (Nat.min (m - sizeof_ReqHdr) (length body)) by lia.
  destruct (Nat.le_ge_cases (m - sizeof_ReqHdr) (length body)).
  - by rewrite Nat.min_l, take_drop by done.
  - by rewrite Nat.min_r, take_ge, drop_ge, app_nil_r by lia.
Qed.

(** The bytes of the buffers of an Mbuff. *)
Definition room_ok (mb : mbuff) : Prop := Z.of_nat (length (data mb) + append_avail_size mb) < 2 ^ 63.

Lemma recv_request_spec mb s hdr body : mb_wf mb -> room_ok mb -> req_wf hdr -> rq_magic hdr = MAGIC ->
  req_body_len hdr = Some (Z.of_nat (length body)) -> Z.of_nat (length (data mb) + length body) < 2 ^ 63 ->
  cn_in (ms_con s) = req_bytes hdr ++ body -> Z.of_nat sizeof_ReqHdr <= me_recv env (cn_tick (ms_con s)) ->
  exists mb' t con', recv_request env rounds mb s = Some ((0, hdr, mb'), mkMcs (at_tick t (ms_kv s)) con' (ms_mbs s)) /\
    mb_wf mb' /\ data mb' = data mb ++ body /\ keeps_room mb mb' /\
    con_moved (ms_con s) con' (req_bytes hdr ++ body) [].
Proof.
  intros Hw Hroom Hhdr Hmagic Hbl Hlt Hin H24. unfold room_ok in Hroom. unfold recv_request.
  destruct (received_spec mb (Nat.min (1 + append_avail_nchunks mb) 8 - 1) Hw ltac:(lia)) as (iov & n & mb1 & Ef & Hrecv).
  rewrite (mc_run _ _ _ _ _ (lifto_run _ s _ Ef)). cbv beta iota.
  destruct (recv_first n (ms_con s) hdr body Hin H24) as (got & rest & c1 & Er & Hbody & Hgot & Hm1).
  erewrite mc_run by (apply on_con_run; rewrite Er; reflexivity). cbv beta iota.
  rewrite (proj2 (Z.eqb_neq _ (-1))), (proj2 (Z.eqb_neq _ 0)), (proj2 (Z.ltb_ge _ (Z.of_nat sizeof_ReqHdr))) by (unfold sizeof_ReqHdr; lia).
  rewrite req_of_bytes, (drop_app_length' (req_bytes hdr)) by done.
  replace (Z.of_nat (sizeof_ReqHdr + length got) - Z.of_nat sizeof_ReqHdr) with (Z.of_nat (length got)) by lia. rewrite Nat2Z.id.
  destruct (Hrecv got Hgot) as (mb3 & E3 & Hw3 & Hd3 & Hk3 & Ha3). set (s1 := set_con c1 s).
  rewrite (mc_run _ _ _ _ _ (lifto_run _ s1 _ E3)). unfold req_verify_magic. rewrite Hmagic, Z.eqb_refl. cbn [negb].
  rewrite Hbl. erewrite mc_run by (apply lifto_run; reflexivity).
  assert (length body = length got + length rest)%nat as Hlb by (by rewrite Hbody, length_app).
  rewrite (proj2 (Z.ltb_ge (Z.of_nat (length body)) _)) by lia.
  destruct (Z.ltb_spec (Z.of_nat (length got)) (Z.of_nat (length body))) as [Hmore|Hall].
  - rewrite Nat2Z.id. replace (get_valid_size mb) with (length (data mb)) by (by apply data_length).
    destruct (add_buffers_spec kenv Hq mb3 (length (data mb) + length body) (ms_kv s1) Hw3 ltac:(lia)) as (mb4 & t & E4 & Hw4 & Hd4 & Hf4 & Hk4).
    rewrite (mc_run _ _ _ _ _ (on_kv_run _ s1 _ _ E4)).
    assert (cn_in c1 = rest) as Hi1.
    { destruct Hm1 as [Hm1 _]. rewrite Hin, Hbody, <- app_assoc in Hm1. apply app_inv_head in Hm1. by apply app_inv_head in Hm1. }
    destruct (recv_append_all env Hup mb4 rest c1 [] Hw4) as (mb5 & c5 & E5 & Hw5 & Hd5 & Hk5 & Hm5).
    { by rewrite app_nil_r. } { unfold append_avail_size, get_free_size in *. lia. } { intros ->. simpl in Hlb. lia. }
    erewrite mc_run.
    2:{ apply on_con_run. cbn [ms_con set_con s1]. replace (Z.of_nat (length body) - Z.of_nat (length got)) with (Z.of_nat (length rest)) by lia.
        rewrite E5. reflexivity. }
    exists mb5, t, c5. split; [reflexivity|]. split; [done|]. split; [by rewrite Hd5, Hd4, Hd3, Hbody, <- app_assoc|].
    split; [by do 2 (eapply keeps_room_trans; [eassumption|])|].
    pose proof (con_moved_trans _ _ _ _ _ _ _ Hm1 Hm5) as Hm. rewrite <- app_assoc, <- Hbody in Hm. exact Hm.
  - destruct rest; [|simpl in Hlb; lia]. rewrite app_nil_r in Hbody. subst got.
    exists mb3, (kv_tick (ms_kv s)), c1. rewrite at_tick_self. split; [by destruct s|]. done.
Qed.

(** A reply without a value. *)
Lemma reply_sent bs s : (length bs <= rounds)%nat ->
  exists con', reply_hdr env rounds bs s = Some (0, set_con con' s) /\ con_moved (ms_con s) con' [] bs.
Proof.
  intros Hl. destruct (send_full_all env Hup rounds bs 0 (ms_con s) Hl) as (c' & E & Hm). exists c'. split; [|done].
  unfold reply_hdr, send_all. by erewrite mc_run by (apply on_con_run; rewrite E; reflexivity).
Qed.

(** A reply with the value of [val]. *)
Lemma get_reply_sent val reshdr s : short val -> rg_val_len reshdr = Z.of_nat (length (data val)) ->
  (forall t, me_realloc env t = true) -> (sizeof_ResGetHdr + length (data val) <= rounds)%nat ->
  exists con', send_get_responose env rounds reshdr val s = Some (0, set_con con' s) /\
    con_moved (ms_con s) con' [] (resget_bytes reshdr ++ data val).
Proof.
  intros Hs Hl Hre Hr. unfold send_get_responose. rewrite Hl. destruct (decide (data val = [])) as [Hz|Hne].
  { rewrite Hz, app_nil_r. cbn [length Z.of_nat Z.eqb]. apply reply_sent. rewrite resget_bytes_length. lia. }
  assert (0 < length (data val))%nat as Hpos by (destruct (data val); [done|simpl; lia]).
  rewrite (proj2 (Z.eqb_neq _ 0)), Nat2Z.id by lia. pose proof Hs as [Hw Hlt].
  destruct (chunk_list_spec val Hw Hne Hlt) as (Hcat & Hcne & Hn & Hfill).
  replace (length (data val)) with (get_valid_size val) by (symmetry; by apply data_length).
  rewrite (mc_run _ _ _ _ _ (lifto_run _ s _ Hn)). cbv beta iota.
  assert (exists c1, (if (8 <? S (length (chunk_list val)))%nat then con_ask (me_realloc env) else mret true : mcm bool) s =
    Some (true, set_con c1 s) /\ con_moved (ms_con s) c1 [] []) as (c1 & E1 & Hm1).
  { destruct (_ <? _)%nat; [|exists (ms_con s); split; [by destruct s|apply con_moved_refl]].
    destruct (con_ask_run (me_realloc env) s) as (c' & E & Hm). exists c'. by rewrite Hre in E. }
  rewrite (mc_run _ _ _ _ _ E1). cbn [negb]. specialize (Hfill _ (Nat.le_refl _)). unfold fill_iov in Hfill.
  assert (fill_iovec_valid val 0 (get_valid_size val) (length (chunk_list val)) = Some (inr (chunk_list val))) as Ef.
  { destruct (fill_iovec_valid _ _ _ _) as [[e|l]|]; [done| |done]. cbn [mbind option_bind] in Hfill.
    destruct (_ || _); [done|]. injection Hfill as ->. done. }
  rewrite (mc_run _ _ _ _ _ (lifto_run _ (set_con c1 s) _ Ef)).
  destruct (sendv_full_all env Hup rounds (resget_bytes reshdr :: chunk_list val) 0 c1) as (c2 & E2 & Hm2).
  { pose proof (chunk_list_ends val Hs Hne) as He. unfold ends in *.
    destruct (chunk_list val) as [|x l]; [done|]. by rewrite last_cons_cons. }
  { cbn [concat]. rewrite length_app, Hcat, resget_bytes_length. lia. }
  exists c2. erewrite mc_run by (apply on_con_run; cbn [ms_con set_con]; rewrite E2; reflexivity). split.
  { rewrite (proj2 (Z.ltb_ge _ 0)) by lia. reflexivity. }
  pose proof (con_moved_trans _ _ _ _ _ _ _ Hm1 Hm2) as Hm. cbn [concat app] in Hm. by rewrite Hcat in Hm.
Qed.

End Request.

(** ** Serving *)

(** The bytes of all buffers of an Mbuff. *)
Definition memory (mb : mbuff) : nat := sum_list_with snd (buffers mb).

Lemma memory_nodes l : sum_list_with snd (node_id <$> l) = sum_list_with mb_buff_len_ l.
Proof. induction l as [|n l IH]; [done|]. rewrite fmap_cons. cbn [sum_list_with]. by rewrite IH. Qed.

Lemma memory_room mb : mb_wf mb -> (length (data mb) + append_avail_size mb <= memory mb)%nat.
Proof.
  intros Hw. unfold memory, buffers. rewrite fmap_app, sum_list_with_app, !memory_nodes.
  pose proof (nodes_room _ (mwf_nodes _ Hw)) as Hn. rewrite (data_length _ Hw), (mwf_valid_size _ Hw).
  unfold append_avail_size, compute_valid_size. rewrite (mwf_free_size _ Hw). unfold tail_space in Hn. lia.
Qed.

Lemma memory_perm mb mb' : buffers mb' ≡ₚ buffers mb -> memory mb' = memory mb.
Proof. intros Hp. unfold memory. by rewrite Hp. Qed.

Lemma add_buffers_memory env mb n s mb' s' : quiet env -> Z.of_nat n < 2 ^ 62 ->
  mbuff_add_buffers env mb n s = Some (mb', s') -> (memory mb' <= memory mb + n + 4096)%nat.
Proof.
  intros Hq Hn. unfold mbuff_add_buffers. destruct (Nat.leb_spec n (get_free_size mb)) as [|Hgt]; [intros [= <- _]; lia|].
  pose proof (align_up_spec (Z.of_nat (n - get_free_size mb)) 4096) as [_ Hal]; [lia..|].
  erewrite bind_run by reflexivity. destruct (q_mem _ Hq (kv_tick s) (Z.to_nat (align_up (Z.of_nat (n - get_free_size mb)) 4096)))
    as (ptr & buf & -> & Hb). intros [= <- _]. unfold memory, buffers, add_buff, put_free_node. cbn [mb_nodes mb_free_].
  rewrite !fmap_app, !sum_list_with_app, fmap_cons. cbn [sum_list_with]. unfold node_id at 2. cbn [snd mb_buff_len_ mb_buff_].
  unfold mb_buff_len_. cbn [mb_buff_]. rewrite Hb. lia.
Qed.

Section Serve.
Context (env : mc_env) (Hup : link_up env) (Hq : quiet (me_kv env)) (fuel rounds : nat).

Local Abbreviation kenv := (me_kv env).

Lemma prefix_placed mbf s : paged mbf -> Z.of_nat (memory mbf) < 2 ^ 62 ->
  exists mb0 mb1 t mb2, reslice_ mbf 0 0 = Some mb0 /\
    mbuff_add_buffers kenv mb0 putKeyvalPrefixSize s = Some (mb1, at_tick t s) /\
    append_uninitialized mb1 putKeyvalPrefixSize = Some mb2 /\ mb_wf mb2 /\
    length (data mb2) = putKeyvalPrefixSize /\ roomy page mb2 /\ room_ok mb2.
Proof.
  intros Hmb Hmem. destruct (paged_emptied mbf Hmb) as (mb0 & E0 & Hw0 & Hd0 & Hr0). destruct Hmb as [[Hw Hlt] _].
  assert (memory mb0 = memory mbf) as Hm0.
  { destruct (reslice_spec mbf 0 0 Hw) as (mb' & E & _ & _ & Hb); [lia|lia|]. unfold reslice_ in E0. rewrite E in E0.
    injection E0 as <-. by apply memory_perm. }
  change putKeyvalPrefixSize with 14%nat.
  destruct (add_buffers_spec kenv Hq mb0 14 s Hw0) as (mb1 & t & E1 & Hw1 & Hd1 & Hf1 & Hk1); [lia|].
  pose proof (add_buffers_memory kenv mb0 14 s mb1 _ Hq ltac:(lia) E1) as Hm1.
  destruct (append_uninitialized_spec mb1 14 Hw1) as (mb2 & w & E2 & Hw2 & Hd2 & Hlw & Hb2 & _).
  pose proof (append_uninitialized_room _ _ _ Hw1 E2) as Hk2.
  exists mb0, mb1, t, mb2. do 4 (split; [done|]). split.
  { rewrite Hd2, Hd1, Hd0. cbn [app]. unfold append_avail_size, get_free_size in *. lia. }
  split; [by apply (roomy_keeps mb0); [|eapply keeps_room_trans]|].
  unfold room_ok. pose proof (memory_room mb2 Hw2). rewrite (memory_perm _ _ Hb2) in H. lia.
Qed.

(** A request is received whole and dispatched with its body. *)
Lemma serve_received mbf res s hdr body : paged mbf -> Z.of_nat (memory mbf) < 2 ^ 62 -> req_wf hdr -> rq_magic hdr = MAGIC ->
  req_body_len hdr = Some (Z.of_nat (length body)) -> (putKeyvalPrefixSize + length body <= page)%nat ->
  cn_in (ms_con s) = req_bytes hdr ++ body -> Z.of_nat sizeof_ReqHdr <= me_recv env (cn_tick (ms_con s)) ->
  exists mb t con', serve_kv_request env fuel rounds mbf res s =
      serve_op env fuel rounds hdr mb res (mkMcs (at_tick t (ms_kv s)) con' (ms_mbs s)) /\
    mb_wf mb /\ data mb = body /\ (body <> [] -> in_one page putKeyvalPrefixSize mb) /\ paged mb /\
    con_moved (ms_con s) con' (req_bytes hdr ++ body) [].
Proof.
  intros Hmb Hmem Hhdr Hmagic Hbl Hpage Hin H24. unfold serve_kv_request.
  destruct (prefix_placed mbf (ms_kv s) Hmb Hmem) as (mb0 & mb1 & t1 & mb2 & E0 & E1 & E2 & Hw2 & Hl2 & Hr2 & Hroom).
  rewrite (mc_run _ _ _ _ _ (lifto_run _ s _ E0)), (mc_run _ _ _ _ _ (on_kv_run _ s _ _ E1)).
  set (s1 := mkMcs (at_tick t1 (ms_kv s)) (ms_con s) (ms_mbs s)). rewrite (mc_run _ _ _ _ _ (lifto_run _ s1 _ E2)).
  change putKeyvalPrefixSize with 14%nat in *. unfold page in Hpage.
  destruct (recv_request_spec env Hup Hq rounds mb2 s1 hdr body Hw2 Hroom Hhdr Hmagic Hbl ltac:(lia) Hin H24)
    as (mb3 & t3 & con3 & E3 & Hw3 & Hd3 & Hk3 & Hm3).
  rewrite (mc_run _ _ _ _ _ E3). cbv beta iota. cbn [Z.eqb negb]. rewrite Hbl.
  erewrite mc_run by (apply lifto_run; reflexivity). rewrite Nat2Z.id.
  assert (length (data mb3) = 14 + length body)%nat as Hl3 by (rewrite Hd3, length_app; lia).
  destruct (reslice_spec mb3 (length body) 14 Hw3) as (mb4 & E4 & Hw4 & Hd4 & Hb4); [lia|lia|].
  assert (reslice_ mb3 (length body) 14 = Some mb4) as E5 by (unfold reslice_; by rewrite E4).
  set (s3 := mkMcs _ con3 _). rewrite (mc_run _ _ _ _ _ (lifto_run _ s3 _ E5)).
  exists mb4, t3, con3. split; [reflexivity|]. split; [done|].
  assert (data mb4 = body) as Hdb by (rewrite Hd4, Hd3, <- Hl2, drop_app_length; by apply take_ge).
  pose proof (roomy_keeps _ _ Hr2 Hk3) as Hr3. split; [done|].
  split; [|split; [split; [split; [done|rewrite Hdb; lia]|rewrite Hb4; apply Hr3]|done]].
  intros Hne. assert (0 < length body)%nat by (destruct body; [done|simpl; lia]).
  destruct (in_one_resliced 4096 mb3 (length body) 14 mb4 Hw3) as (Hone & _); try done; try lia.
Qed.

Context (Hfuel : (BUCKET < fuel)%nat) (Hrounds : (sizeof_ResGetHdr <= rounds)%nat).
Context (k : Z) (recs : list krec) (mbf res : mbuff) (Hmb : paged mbf) (Hres : short res) (Hmem : Z.of_nat (memory mbf) < 2 ^ 62).
Context (s : mcs) (Hinv : store_inv kenv k (ms_kv s) recs) (id : Z) (Hid : in_width 64 id).
Context (H24 : Z.of_nat sizeof_ReqHdr <= me_recv env (cn_tick (ms_con s))).

(** The server took the bytes [i] and sent [o]; its store holds [recs'] and its
    Mbuffs are ready for the next request. *)
Definition served (i o : list Z) (recs' : list krec) : Prop :=
  exists mb1 mb2 s', serve_kv_request env fuel rounds mbf res s = Some ((0, mb1, mb2), s') /\
    store_inv kenv k (ms_kv s') recs' /\ con_moved (ms_con s) (ms_con s') i o /\ paged mb1 /\ short mb2.

Lemma mkNOP_wf junk : in_width 32 junk -> req_wf (mkNOP junk junk id).
Proof. intros Hj. by split. Qed.

Lemma serve_nop junk : in_width 32 junk -> cn_in (ms_con s) = req_bytes (mkNOP junk junk id) ->
  served (req_bytes (mkNOP junk junk id)) (res_bytes (res_hdr 0 id)) recs.
Proof.
  intros Hj Hin. destruct (serve_received mbf res s (mkNOP junk junk id) [] Hmb Hmem (mkNOP_wf junk Hj) eq_refl eq_refl)
    as (mb & t & con1 & E1 & _ & _ & _ & Hpg & Hm1); [unfold putKeyvalPrefixSize, sizeof_store, page; simpl; lia|by rewrite app_nil_r|done|].
  rewrite app_nil_r in Hm1. set (s1 := mkMcs _ con1 _) in *.
  destruct (reply_sent env Hup rounds (res_bytes (res_hdr 0 id)) s1) as (con2 & E2 & Hm2);
    [rewrite res_bytes_length; unfold sizeof_ResHdr, sizeof_ResGetHdr in *; lia|].
  eexists mb, res, (set_con con2 s1). rewrite E1. unfold serve_op. cbn [mkNOP rq_op rq_req_id].
  change (op_NOP =? op_NOP) with true. cbv iota. rewrite (mc_run _ _ _ _ _ E2). split; [reflexivity|].
  split; [by apply at_tick_inv|]. pose proof (con_moved_trans _ _ _ _ _ _ _ Hm1 Hm2) as Hm. by rewrite app_nil_r in Hm.
Qed.

Lemma serve_put key val g : store_ready kenv k recs g key (Z.of_nat (length val)) (ms_kv s) ->
  (putKeyvalPrefixSize + (length key + length val) <= page)%nat ->
  cn_in (ms_con s) = req_bytes (mkPUT id (Z.of_nat (length key)) (Z.of_nat (length val))) ++ key ++ val ->
  served (req_bytes (mkPUT id (Z.of_nat (length key)) (Z.of_nat (length val))) ++ key ++ val) (res_bytes (res_hdr 0 id))
    (new_rec kenv (ms_kv s) key val g :: others key recs).
Proof.
  intros Hsr Hpage Hin. unfold page, putKeyvalPrefixSize, sizeof_store in Hpage. pose proof (f_key _ _ _ (sr_fits _ _ _ _ _ _ _ Hsr)) as Hk.
  set (hdr := mkPUT _ _ _) in *.
  assert (rq_word0 hdr = Z.of_nat (length key) /\ rq_word1 hdr = Z.of_nat (length val)) as [Hw0 Hw1].
  { cbn [hdr mkPUT rq_word0 rq_word1]. rewrite !wrap_small by (split; lia). done. }
  assert (req_wf hdr) as Hhdr.
  { split; rewrite ?Hw0, ?Hw1; try done; split; lia. }
  destruct (serve_received mbf res s hdr (key ++ val) Hmb Hmem Hhdr eq_refl) as (mb & t & con1 & E1 & Hw & Hd & Hone & Hpg & Hm1).
  { unfold req_body_len. rewrite Hw0, Hw1, length_app. cbn [hdr mkPUT rq_op]. change (op_PUT =? op_NOP) with false.
    change ((op_PUT =? op_GET) || (op_PUT =? op_DEL)) with false. change (op_PUT =? op_PUT) with true. cbv iota. f_equal.
    rewrite wrap_small by (split; lia). lia. }
  { rewrite length_app. unfold page, putKeyvalPrefixSize, sizeof_store. lia. } { done. } { done. }
  set (s1 := mkMcs _ con1 _) in *.
  assert (key ++ val <> []) as Hne by (destruct key; [simpl in Hk; lia|done]).
  destruct (put_one kenv k recs g key val _ mb fuel Hq (store_ready_tick _ _ _ _ _ _ _ t Hsr) Hfuel Hw Hd (Hone Hne) Hpg) as (mb' & kv' & Ep & Hpg' & Hinv').
  set (s2 := mkMcs kv' con1 (ms_mbs s)).
  destruct (reply_sent env Hup rounds (res_bytes (res_hdr 0 id)) s2) as (con2 & E2 & Hm2);
    [rewrite res_bytes_length; unfold sizeof_ResHdr, sizeof_ResGetHdr in *; lia|].
  exists mb', res, (set_con con2 s2). rewrite E1. unfold serve_op. rewrite Hw0, Nat2Z.id. cbn [hdr mkPUT rq_op rq_req_id].
  change (op_PUT =? op_NOP) with false. change (op_PUT =? op_PUT) with true. cbv iota.
  rewrite (mc_run _ _ _ _ _ (on_kv_run _ s1 _ _ Ep)). cbv beta iota. fold s2. rewrite (mc_run _ _ _ _ _ E2). split; [reflexivity|].
  split; [exact Hinv'|]. pose proof (con_moved_trans _ _ _ _ _ _ _ Hm1 Hm2) as Hm. rewrite app_nil_r in Hm. by split.
Qed.

Lemma serve_get junk key : in_width 32 junk -> 0 < Z.of_nat (length key) < 2 ^ 16 ->
  (putKeyvalPrefixSize + length key <= page)%nat -> (forall t, me_realloc env t = true) ->
  (forall r, r ∈ recs -> (sizeof_ResGetHdr + length (r_val r) <= rounds)%nat) ->
  cn_in (ms_con s) = req_bytes (mkGET junk id (Z.of_nat (length key))) ++ key ->
  exists rc val, finds recs key rc val /\
    served (req_bytes (mkGET junk id (Z.of_nat (length key))) ++ key)
           (resget_bytes (res_get_hdr rc id (Z.of_nat (length val))) ++ val) recs.
Proof.
  intros Hj Hk Hpage Hre Hvals Hin. set (hdr := mkGET _ _ _) in *.
  assert (rq_word0 hdr = Z.of_nat (length key)) as Hw0 by (cbn [hdr mkGET rq_word0]; apply wrap_small; split; lia).
  assert (req_wf hdr) as Hhdr by (split; rewrite ?Hw0; try done; split; lia).
  destruct (serve_received mbf res s hdr key Hmb Hmem Hhdr eq_refl) as (mb & t & con1 & E1 & Hw & Hd & _ & Hpg & Hm1); [|done|done|done|].
  { unfold req_body_len. rewrite Hw0. done. }
  set (s1 := mkMcs _ con1 _) in *. pose proof Hres as [Hrw Hrl].
  destruct (reslice_prefix res 0 Hrw ltac:(lia) Hrl) as (val0 & E2 & Hvw & Hvd & _). rewrite take_0 in Hvd.
  assert (short val0) as Hv0 by (split; [done|by rewrite Hvd]).
  assert (store_inv kenv k (ms_kv s1) recs) as Hinv1 by (by apply at_tick_inv).
  destruct (get_run kenv Hq k _ recs Hinv1 fuel mb val0 Hw ltac:(by rewrite Hd) Hv0 Hfuel) as [Hpres Habs]. rewrite Hd in Hpres, Habs.
  assert (exists rc val t', finds recs key rc (data val) /\ get kenv fuel mb val0 (ms_kv s1) = Some ((rc, val), at_tick t' (ms_kv s1)) /\
    mb_wf val /\ (sizeof_ResGetHdr + length (data val) <= rounds)%nat /\ Z.of_nat (length (data val)) < 2 ^ 32 /\
    (rc <> 0 -> data val = [])) as (rc & val & t' & Hf & Eg & Hwv & Hrv & Hlv & Hz).
  { destruct (find_key key recs) as [(r & Hr & Hrk)|Hnone].
    - destruct (Hpres r Hr Hrk) as (val & t' & Eg & Hwv & Hdv). exists 0, val, t'. rewrite Hdv. split; [left; by exists r|].
      split; [done|]. split; [done|]. split; [by apply Hvals|].
      pose proof (f_sum _ _ _ (ro_fits _ _ _ (si_recs _ _ _ _ Hinv r Hr))) as Hs. pose proof (q_grain _ Hq).
      pose proof (f_key _ _ _ (ro_fits _ _ _ (si_recs _ _ _ _ Hinv r Hr))). unfold vlen in Hs. split; [lia|done].
    - destruct (Habs Hnone) as (val & t' & Eg & Hwv & Hdv). eexists _, val, t'. rewrite Hdv. split; [|split; [exact Eg|]].
      + right. split; [done|]. split; [|done]. by eapply absent_code_err.
      + split; [done|]. cbn [length]. rewrite Nat.add_0_r. split; [done|]. split; [lia|done]. }
  exists rc, (data val). split; [done|].
  assert (get_valid_size val = length (data val)) as Hgv by (symmetry; by apply data_length).
  set (s2 := mkMcs (at_tick t' (ms_kv s1)) con1 (ms_mbs s)).
  set (reshdr := res_get_hdr rc id (Z.of_nat (length (data val)))).
  assert (res_get_hdr rc id (if rc =? 0 then Z.of_nat (get_valid_size val) else 0) = reshdr) as Ehdr.
  { unfold reshdr. rewrite Hgv. destruct (Z.eqb_spec rc 0); [done|]. by rewrite Hz. }
  destruct (get_reply_sent env Hup rounds val reshdr s2) as (con2 & E3 & Hm2); [split; [done|lia]|done|done|done|].
  exists mb, val, (set_con con2 s2). rewrite E1. unfold serve_op. cbn [hdr mkGET rq_op rq_req_id].
  change (op_GET =? op_NOP) with false. change (op_GET =? op_PUT) with false. change (op_GET =? op_GET) with true. cbv iota.
  rewrite (mc_run _ _ _ _ _ (lifto_run _ s1 _ E2)), (mc_run _ _ _ _ _ (on_kv_run _ s1 _ _ Eg)). cbv beta iota. fold s2. rewrite Ehdr.
  rewrite (mc_run _ _ _ _ _ E3). split; [reflexivity|]. split; [by apply at_tick_inv|].
  pose proof (con_moved_trans _ _ _ _ _ _ _ Hm1 Hm2) as Hm. rewrite app_nil_r in Hm. do 2 (split; [done|]). split; [done|lia].
Qed.

End Serve.

(** ** The client *)

Section Client.
Context (env : mc_env) (Hup : link_up env) (Hq : quiet (me_kv env)) (rounds : nat) (junk : Z).

Local Abbreviation kenv := (me_kv env).

Lemma request_sent hdr body s : short body -> (sizeof_ReqHdr <= rounds)%nat -> (length (data body) <= rounds)%nat ->
  exists con', sendReq env rounds hdr body s = Some (0, set_con con' s) /\ con_moved (ms_con s) con' [] (req_bytes hdr ++ data body).
Proof.
  intros Hs Hr1 Hr2. destruct (send_full_all env Hup rounds (req_bytes hdr) 0 (ms_con s)) as (c1 & E1 & Hm1); [by rewrite req_bytes_length|].
  destruct (mbuff_send_all env Hup rounds body c1 Hs Hr2) as (c2 & E2 & Hm2). exists c2. split.
  - unfold sendReq, send_all. erewrite mc_run by (apply on_con_run; rewrite E1; reflexivity). cbv beta iota. cbn [Z.eqb].
    erewrite mc_run by (apply on_con_run; cbn [ms_con set_con]; rewrite E2; reflexivity). done.
  - exact (con_moved_trans _ _ _ _ _ _ _ Hm1 Hm2).
Qed.

Lemma res_received rc id rest s : in_width 64 id -> cn_in (ms_con s) = res_bytes (res_hdr rc id) ++ rest ->
  exists con', recvResHdr env id s = Some ((0, res_hdr rc id), set_con con' s) /\
    con_moved (ms_con s) con' (res_bytes (res_hdr rc id)) [].
Proof.
  intros Hid Hin. destruct (recv_full_all env Hup sizeof_ResHdr sizeof_ResHdr [] (ms_con s) (res_bytes (res_hdr rc id)) rest) as (c & E & Hm); try done.
  exists c. split; [|done]. unfold recvResHdr. erewrite mc_run by (apply on_con_run; rewrite E; reflexivity). cbv beta iota. cbn [Z.eqb app].
  rewrite <- (app_nil_r (res_bytes _)), res_of_bytes by (by apply res_hdr_wf). unfold res_verify_magic. cbn [res_hdr rs_magic rs_req_id].
  by rewrite !Z.eqb_refl.
Qed.

Lemma resget_received rc id vl rest s : in_width 64 id -> in_width 64 vl -> cn_in (ms_con s) = resget_bytes (res_get_hdr rc id vl) ++ rest ->
  exists con', recvGetResHdr env id s = Some ((0, res_get_hdr rc id vl), set_con con' s) /\
    con_moved (ms_con s) con' (resget_bytes (res_get_hdr rc id vl)) [].
Proof.
  intros Hid Hvl Hin.
  destruct (recv_full_all env Hup sizeof_ResGetHdr sizeof_ResGetHdr [] (ms_con s) (resget_bytes (res_get_hdr rc id vl)) rest) as (c & E & Hm); try done.
  exists c. split; [|done]. unfold recvGetResHdr. erewrite mc_run by (apply on_con_run; rewrite E; reflexivity). cbv beta iota. cbn [Z.eqb app].
  rewrite <- (app_nil_r (resget_bytes _)), resget_of_bytes by (by try apply res_hdr_wf). unfold res_verify_magic.
  cbn [res_get_hdr res_hdr rg_hdr rs_magic rs_req_id]. by rewrite !Z.eqb_refl.
Qed.

Lemma append_recv_all mb bs c rest : mb_wf mb -> cn_in c = bs ++ rest -> (length bs <= append_avail_size mb)%nat ->
  (bs = [] -> forall t, me_recv_err env t <> -1) ->
  exists mb' c', append_recv env mb (Z.of_nat (length bs)) c = Some ((0, mb'), c') /\ mb_wf mb' /\
    data mb' = data mb ++ bs /\ con_moved c c' bs [].
Proof.
  intros Hw Hc Ha Hz. unfold append_recv. rewrite (proj2 (Z.ltb_ge _ _)) by lia. rewrite Nat2Z.id. set (e0 := me_recv_err env (cn_tick c)).
  destruct (append_stream _ _ (length bs, e0, c) bs mb (recv_fn_stream env Hup c e0 bs) Hw) as ([[rem err] c'] & mb' & He & Hw' & Hd & HP & _).
  { split; [done|]. exists [], rest. split; [done|]. do 2 (split; [done|]). apply con_moved_refl. }
  rewrite take_ge in Hd by done. rewrite drop_ge in HP by done. destruct HP as (-> & i & rest' & Herr & Hi & _ & Hm).
  rewrite app_nil_r in Hi. subst i. rewrite He. cbn [mbind option_bind]. rewrite (proj2 (Z.eqb_neq err (-1))); [by exists mb', c'|].
  rewrite Herr. destruct (decide (bs = [])) as [E|]; [by apply Hz|done].
Qed.

Lemma code_back rc : 0 <= rc < 2 ^ 31 -> s32 (u32 rc) = rc.
Proof. intros Hr. rewrite wrap_small by (split; lia). apply s32_small. lia. Qed.

(** The client stays connected and its counter moves on. *)
Definition next_client (id : Z) : client := mkClient true (u64 (id + 1)).

Context (id : Z) (Hid : in_width 64 id) (Hr24 : (sizeof_ReqHdr <= rounds)%nat) (s : mcs).

Lemma put_answered keyval ks rc rest : short keyval -> (ks <= length (data keyval))%nat -> (length (data keyval) <= rounds)%nat ->
  0 <= rc < 2 ^ 31 -> cn_in (ms_con s) = res_bytes (res_hdr rc id) ++ rest ->
  exists con', remote_put env rounds (mkClient true id) keyval (Z.of_nat ks) s = Some ((rc, next_client id), set_con con' s) /\
    con_moved (ms_con s) con' (res_bytes (res_hdr rc id))
      (req_bytes (mkPUT id (Z.of_nat ks) (Z.of_nat (length (data keyval) - ks))) ++ data keyval).
Proof.
  intros [Hw Hlt] Hks Hr Hrc Hin. unfold remote_put, get_next_reqid. cbn [cl_connected cl_req_id negb].
  replace (get_valid_size keyval) with (length (data keyval)) by (by apply data_length).
  rewrite (wrap_small 64 (Z.of_nat (length (data keyval)) - Z.of_nat ks)) by (split; lia). rewrite <- Nat2Z.inj_sub by done.
  destruct (request_sent (mkPUT id (Z.of_nat ks) (Z.of_nat (length (data keyval) - ks))) keyval s) as (c1 & E1 & Hm1); [by split|done|done|].
  rewrite (mc_run _ _ _ _ _ E1). cbn [Z.eqb negb].
  destruct (res_received rc id rest (set_con c1 s) Hid) as (c2 & E2 & Hm2); [destruct Hm1 as [Hi _]; by rewrite <- Hin, Hi|].
  rewrite (mc_run _ _ _ _ _ E2). cbv beta iota. cbn [Z.eqb negb res_hdr rs_error]. rewrite code_back by done.
  exists c2. split; [done|]. pose proof (con_moved_trans _ _ _ _ _ _ _ Hm1 Hm2) as Hm. by rewrite app_nil_r in Hm.
Qed.

Lemma get_answered_remote key val_out rc val rest : short key -> mb_wf val_out -> (length (data key) <= rounds)%nat ->
  0 <= rc < 2 ^ 31 -> (rc <> 0 -> val = []) -> Z.of_nat (length val) < 2 ^ 32 ->
  (rc = 0 -> val = [] -> forall t, me_recv_err env t <> -1) ->
  cn_in (ms_con s) = (resget_bytes (res_get_hdr rc id (Z.of_nat (length val))) ++ val) ++ rest ->
  exists val' t con', remote_get env rounds junk (mkClient true id) key val_out s =
      Some ((rc, next_client id, val'), mkMcs (at_tick t (ms_kv s)) con' (ms_mbs s)) /\
    mb_wf val' /\ data val' = data val_out ++ val /\
    con_moved (ms_con s) con' (resget_bytes (res_get_hdr rc id (Z.of_nat (length val))) ++ val)
      (req_bytes (mkGET junk id (Z.of_nat (length (data key)))) ++ data key).
Proof.
  intros [Hw Hlt] Hwv Hr Hrc Hz Hlv Herr Hin. unfold remote_get, get_next_reqid. cbn [cl_connected cl_req_id negb].
  replace (get_valid_size key) with (length (data key)) by (by apply data_length).
  destruct (request_sent (mkGET junk id (Z.of_nat (length (data key)))) key s) as (c1 & E1 & Hm1); [by split|done|done|].
  rewrite (mc_run _ _ _ _ _ E1). cbn [Z.eqb negb]. set (s1 := set_con c1 s). rewrite <- app_assoc in Hin.
  destruct (resget_received rc id (Z.of_nat (length val)) (val ++ rest) s1 Hid) as (c2 & E2 & Hm2);
    [split; lia|destruct Hm1 as [Hi _]; by rewrite <- Hin, Hi|].
  rewrite (mc_run _ _ _ _ _ E2). cbv beta iota. cbn [Z.eqb negb res_get_hdr rg_hdr rg_val_len res_hdr rs_error].
  rewrite (wrap_small 32) by (split; lia). pose proof (con_moved_trans _ _ _ _ _ _ _ Hm1 Hm2) as Hm. cbn [app] in Hm.
  rewrite app_nil_r in Hm. set (s2 := set_con c2 s1). destruct (Z.eqb_spec rc 0) as [->|Hne]; cbn [negb].
  - rewrite Nat2Z.id. destruct (add_buffers_spec kenv Hq val_out (length val) (ms_kv s2) Hwv ltac:(lia)) as (v1 & t & E3 & Hw1 & Hd1 & Hf1 & _).
    rewrite (mc_run _ _ _ _ _ (on_kv_run _ s2 _ _ E3)). rewrite (proj2 (Z.ltb_ge _ _)) by lia.
    assert (cn_in c2 = val ++ rest) as Hi2.
    { destruct Hm as [Hi _]. rewrite Hin in Hi. by apply app_inv_head in Hi. }
    destruct (append_recv_all v1 val c2 rest Hw1 Hi2) as (v2 & c3 & E4 & Hw2 & Hd2 & Hm3); [unfold append_avail_size, get_free_size in *; lia|by apply Herr|].
    erewrite mc_run by (apply on_con_run; cbn [ms_con set_con s2]; rewrite E4; reflexivity). cbv beta iota. cbn [Z.eqb negb].
    exists v2, t, c3. split; [reflexivity|]. split; [done|]. split; [by rewrite Hd2, Hd1|].
    pose proof (con_moved_trans _ _ _ _ _ _ _ Hm Hm3) as H. by rewrite app_nil_r in H.
  - rewrite (Hz Hne) in *. rewrite !app_nil_r. exists val_out, (kv_tick (ms_kv s)), c2. rewrite at_tick_self.
    rewrite s32_small by lia. split; [by destruct s|]. split; [done|]. done.
Qed.

End Client.
