(* ===== verification/RemoteSafe.v ===== *)
(** * RemoteSafe: a client against any peer

    Nothing is assumed of the peer, of the connection or of memory: what a call of
    the client returns is what an answer to that very call says, or an error. *)
From Stdlib Require Import ZArith Lia.
From stdpp Require Import base tactics list numbers.
From S2P Require Import Prelude Util Mbuff MbuffSpec StoreFormat KvStore KvIo StateM McServer MbuffChunks KvPage McSpec RemoteWire RemoteKv.

Open Scope Z_scope.

Lemma stm_inv {S A B} (m : stm S A) (f : A -> stm S B) s b s' : (m ≫= f) s = Some (b, s') ->
  exists a s1, m s = Some (a, s1) /\ f a s1 = Some (b, s').
Proof. unfold mbind, stm_bind. destruct (m s) as [[a s1]|]; [|done]. intros E. by exists a, s1. Qed.

Lemma on_con_inv {A} (f : con -> option (A * con)) s a s' : on_con f s = Some (a, s') ->
  exists c', f (ms_con s) = Some (a, c') /\ ms_con s' = c'.
Proof. unfold on_con. destruct (f (ms_con s)) as [[a' c']|]; [|done]. intros [= -> <-]. by exists c'. Qed.

Lemma on_kv_inv {A} (m : kvm A) s a s' : on_kv m s = Some (a, s') ->
  exists k', m (ms_kv s) = Some (a, k') /\ ms_con s' = ms_con s.
Proof. unfold on_kv. destruct (m (ms_kv s)) as [[a' k']|]; [|done]. intros [= -> <-]. by exists k'. Qed.

Lemma errno_inv s e s' : errno s = Some (e, s') -> ms_con s' = ms_con s.
Proof. unfold errno, on_con. cbn. by intros [= _ <-]. Qed.

Section Any.
Context (env : mc_env) (rounds : nat).

(** ** Sending takes nothing from the connection *)

Lemma send_full_in n : forall bs sent c r c', send_full env n bs sent c = Some (r, c') -> cn_in c' = cn_in c.
Proof.
  induction n as [|n IH]; intros bs sent c r c'; destruct bs as [|b bs]; cbn [send_full]; try done; try (by intros [= _ <-]).
  destruct (send env (b :: bs) c) as [ret c1] eqn:Es.
  assert (cn_in c1 = cn_in c) as Hc by (unfold send in Es; destruct (_ <? 0); by injection Es as _ <-).
  destruct (ret <? 0); [by intros [= _ <-]|]. intros E. by rewrite (IH _ _ _ _ _ E).
Qed.

Lemma mbuff_send_loop_in k : forall it len c r c', mbuff_send_loop env rounds k it len c = Some (r, c') -> cn_in c' = cn_in c.
Proof.
  induction k as [|k IH]; intros it len c r c'; [by intros [= _ <-]|]. cbn [mbuff_send_loop]. destruct it as [it|]; [|by intros [= _ <-]].
  destruct (send_full env rounds (i_chunk_ it) 0 c) as [[[err sent] c1]|] eqn:E; [|done]. cbn [mbind option_bind].
  apply send_full_in in E. destruct (negb (err =? 0)); [by intros [= _ <-]|]. intros E'. by rewrite (IH _ _ _ _ _ E').
Qed.

Lemma sendReq_in hdr body s r s' : sendReq env rounds hdr body s = Some (r, s') -> cn_in (ms_con s') = cn_in (ms_con s).
Proof.
  unfold sendReq. intros ([err n] & s1 & E1 & E)%stm_inv. apply on_con_inv in E1 as (c1 & E1 & Hc1). apply send_full_in in E1.
  destruct (err =? -1); [apply errno_inv in E; congruence|]. apply stm_inv in E as (e & s2 & E2 & [= _ <-]).
  apply on_con_inv in E2 as (c2 & E2 & Hc2). unfold mbuff_send in E2. destruct (iterate_valid_init _ _ _) as [[e2 it]|]; [|done].
  cbn [mbind option_bind] in E2. destruct (negb _); [injection E2 as _ <-; congruence|]. apply mbuff_send_loop_in in E2. congruence.
Qed.

(** ** Receiving *)

Lemma recv_any n c : exists ret bs c', recv env n c = ((ret, bs), c') /\ cn_in c = bs ++ cn_in c' /\ (length bs <= n)%nat /\
  (ret = -1 /\ bs = [] /\ cn_errno c' <> 0 \/ ret = Z.of_nat (length bs)).
Proof.
  unfold recv. destruct (Z.ltb_spec (me_recv env (cn_tick c)) 0) as [Hr|Hr].
  { eexists _, _, _. split; [reflexivity|]. cbn [cn_in cn_errno length]. split; [done|]. split; [lia|]. left. do 2 (split; [done|]). lia. }
  eexists _, _, _. split; [reflexivity|]. cbn [cn_in]. rewrite length_take. set (m := Nat.min _ n).
  split; [|split; [lia|by right]]. destruct (Nat.le_ge_cases m (length (cn_in c))).
  - by rewrite Nat.min_l, take_drop by done.
  - by rewrite Nat.min_r, take_ge, drop_all, app_nil_r by done.
Qed.

(** The bytes that were taken; on success all of them, and an [errno] on failure. *)
Lemma recv_full_any fuel : forall n dat c err d c', (n <= fuel)%nat -> recv_full env fuel n dat c = ((err, d), c') ->
  exists i, d = dat ++ i /\ cn_in c = i ++ cn_in c' /\ (length i <= n)%nat /\
    (err = 0 /\ length i = n \/ err = -1 /\ cn_errno c' <> 0).
Proof.
  induction fuel as [|fuel IH]; intros n dat c err d c' Hn.
  { destruct n; [|lia]. intros [= <- <- <-]. exists []. rewrite app_nil_r. by do 3 (split; [done|]); left. }
  destruct n as [|n]; [intros [= <- <- <-]; exists []; rewrite app_nil_r; by do 3 (split; [done|]); left|].
  cbn [recv_full]. destruct (recv_any (S n) c) as (ret & bs & c1 & -> & Hc & Hl & Hret).
  destruct Hret as [(-> & -> & He)| ->].
  { cbn [Z.ltb Z.compare]. intros [= <- <- <-]. exists []. rewrite app_nil_r. split; [done|]. split; [done|]. split; [simpl; lia|]. by right. }
  rewrite (proj2 (Z.ltb_ge _ 0)) by lia. destruct (Z.eqb_spec (Z.of_nat (length bs)) 0) as [Hz|Hz].
  { destruct bs; [|simpl in Hz; lia]. intros [= <- <- <-]. exists []. rewrite app_nil_r. split; [done|]. split; [done|].
    split; [simpl; lia|by right]. }
  intros E. apply IH in E as (i & -> & Hi & Hli & He); [|lia]. exists (bs ++ i). rewrite length_app, <- app_assoc, Hc, Hi, <- app_assoc.
  split; [done|]. split; [done|]. split; [lia|]. destruct He as [[-> He]|He]; [left; split; [done|lia]|by right].
Qed.

(** The closure appends what it takes from the connection. *)
Definition taken (c0 : con) (size : nat) (st : nat * Z * con) (acc : list Z) : Prop :=
  let '(rem, err, c) := st in
  (rem + length acc)%nat = size /\ cn_in c0 = acc ++ cn_in c /\ (err = -1 -> cn_errno c <> 0 \/ rem = size).

Definition failed_set (size : nat) (st : nat * Z * con) (_ : list Z) : Prop :=
  let '(_, err, c) := st in err = -1 -> cn_errno c <> 0 \/ size = 0%nat.

Lemma recv_fn_taken c0 size : chunk_inv (recv_fn env) (taken c0 size) (failed_set size) (fun _ _ => True).
Proof.
  intros [[rem e] c] acc b (Hr & Hin & He) Hb. unfold recv_fn. destruct (Nat.eqb_spec (Nat.min rem (length b)) 0) as [Hz|Hz].
  { rewrite take_0, app_nil_r. split; [lia|]. do 2 (split; [done|]). split; [|done]. intros Hm. destruct (He Hm); [by left|right; lia]. }
  destruct (recv_full env _ _ [] c) as [[err bs] c'] eqn:E. apply recv_full_any in E as (i & -> & Hi & Hl & Herr); [|done]. cbn [app].
  split; [lia|]. split; [apply write_at_length; lia|].
  assert (take (length i) (write_at b 0 i) = i) as -> by (unfold write_at; rewrite take_0; cbn [app]; apply take_app_length).
  assert (err = -1 -> cn_errno c' <> 0) as Hset by (intros ->; by destruct Herr as [[? _]|[_ ?]]).
  split; [|split; [intros Hm; left; by apply Hset|done]]. split; [rewrite length_app; lia|].
  split; [by rewrite Hin, Hi, app_assoc|]. intros Hm. left. by apply Hset.
Qed.

Lemma append_recv_taken mb size c mb' c' : mb_wf mb -> append_recv env mb size c = Some ((0, mb'), c') ->
  exists v, data mb' = data mb ++ v /\ length v = Z.to_nat size /\ cn_in c = v ++ cn_in c'.
Proof.
  intros Hw. unfold append_recv. destruct (Z.ltb_spec (Z.of_nat (append_avail_size mb)) size) as [|Havail]; [by intros [= ?]|].
  destruct (append_inv _ _ _ _ (Z.to_nat size, me_recv_err env (cn_tick c), c) [] mb (recv_fn_taken c (Z.to_nat size)) Hw)
    as ([[rem err] c1] & mb1 & v & E & _ & Hd & (Hr & Hin & He) & _ & _ & _ & HJ).
  { split; [simpl; lia|]. split; [done|]. by right. }
  rewrite E. cbn [mbind option_bind app] in *. destruct (Z.eqb_spec err (-1)) as [->|].
  - intros [= Hz <- <-]. exists v. assert (Z.to_nat size = 0%nat) as Hz0 by (destruct HJ as [|HJ]; [lia|destruct (HJ eq_refl); lia]).
    split; [done|]. split; [lia|done].
  - destruct (Nat.eqb_spec rem 0) as [->|]; cbn [negb]; [|by intros [= ?]]. intros [= <- <-]. exists v. split; [done|]. split; [lia|done].
Qed.

(** ** Answers *)

(** The next [n] bytes of the connection are a header with the magic number and
    the request's identifier. *)
Definition answered (n : nat) (id : Z) (c : con) (bs rest : list Z) : Prop :=
  cn_in c = bs ++ rest /\ length bs = n /\ rs_magic (res_of bs) = MAGIC /\ rs_req_id (res_of bs) = id.

(** A header of [n] bytes, taken whole or with an [errno] that says why not. *)
Lemma header_taken n s err bs s1 : on_con (fun c => Some (recv_full env n n [] c)) s = Some ((err, bs), s1) ->
  cn_in (ms_con s) = bs ++ cn_in (ms_con s1) /\
  (err = 0 /\ length bs = n \/ err = -1 /\ forall e s2, errno s1 = Some (e, s2) -> e <> 0).
Proof.
  intros (c1 & E & <-)%on_con_inv. destruct (recv_full env n n [] (ms_con s)) as [[err' bs'] c'] eqn:Er.
  apply recv_full_any in Er as (i & -> & Hi & _ & He); [|done]. injection E as <- <- Ec. cbn [app]. rewrite <- Ec. split; [done|].
  destruct He as [He|[He Hn]]; [by left|]. right. split; [done|]. intros e s2 E2. unfold errno in E2. apply on_con_inv in E2 as (c2 & E2 & _). injection E2 as E2 _. congruence.
Qed.

Lemma recvResHdr_any id s hdr s' : recvResHdr env id s = Some ((0, hdr), s') ->
  exists bs, hdr = res_of bs /\ answered sizeof_ResHdr id (ms_con s) bs (cn_in (ms_con s')).
Proof.
  unfold recvResHdr. intros ([err bs] & s1 & E1 & E)%stm_inv. apply header_taken in E1 as (Hi & [[-> Hl]|[-> He]]).
  - cbn [Z.eqb] in E. unfold res_verify_magic in E. destruct (Z.eqb_spec (rs_magic (res_of bs)) MAGIC) as [Hm|Hm]; [|done].
    cbn [negb] in E. destruct (Z.eqb_spec (rs_req_id (res_of bs)) id) as [Hid|]; [|done]. cbn [negb] in E. injection E as <- <-. by exists bs.
  - apply stm_inv in E as (e & s2 & E2 & E3). injection E3 as -> _ _. by destruct (He _ _ E2).
Qed.

Lemma recvGetResHdr_any id s hdr s' : recvGetResHdr env id s = Some ((0, hdr), s') ->
  exists bs, hdr = resget_of bs /\ answered sizeof_ResGetHdr id (ms_con s) bs (cn_in (ms_con s')).
Proof.
  unfold recvGetResHdr. intros ([err bs] & s1 & E1 & E)%stm_inv. apply header_taken in E1 as (Hi & [[-> Hl]|[-> He]]).
  - cbn [Z.eqb] in E. unfold res_verify_magic in E. cbn [resget_of rg_hdr] in E.
    destruct (Z.eqb_spec (rs_magic (res_of bs)) MAGIC) as [Hm|Hm]; [|done].
    cbn [negb] in E. destruct (Z.eqb_spec (rs_req_id (res_of bs)) id) as [Hid|]; [|done]. cbn [negb] in E. injection E as <- <-. by exists bs.
  - apply stm_inv in E as (e & s2 & E2 & E3). injection E3 as -> _ _. by destruct (He _ _ E2).
Qed.

(** A buffer that gives the room that was asked for has bytes. *)
Lemma add_buffers_enough mb n s mb' s' : mb_wf mb -> mbuff_add_buffers (me_kv env) mb n s = Some (mb', s') ->
  (n <= get_free_size mb')%nat -> mb_wf mb' /\ data mb' = data mb.
Proof.
  intros Hw. unfold mbuff_add_buffers. destruct (Nat.leb_spec n (get_free_size mb)) as [|Hgt]; [by intros [= <- _]|].
  erewrite bind_run by reflexivity. destruct (e_membuf _ _ _) as [[ptr buf]|]; intros [= <- _]; [|done]. intros Hn. split; [|done].
  apply put_free_node_wf; [done|]. split; [|done]. unfold get_free_size, add_buff, put_free_node in *. cbn in *. lia.
Qed.

(** The client gave the connection up, with an error. *)
Definition gave_up (rc : Z) (cl : client) : Prop := cl_connected cl = false /\ rc <> 0.

Lemma remote_put_any id keyval klen s rc cl' s' : remote_put env rounds (mkClient true id) keyval klen s = Some ((rc, cl'), s') ->
  gave_up rc cl' \/ cl' = mkClient true (u64 (id + 1)) /\
    exists bs, answered sizeof_ResHdr id (ms_con s) bs (cn_in (ms_con s')) /\ rc = s32 (rs_error (res_of bs)).
Proof.
  unfold remote_put, get_next_reqid. cbn [cl_connected cl_req_id negb]. intros (err & s1 & E1 & E)%stm_inv. apply sendReq_in in E1.
  destruct (Z.eqb_spec err 0) as [->|Hne]; cbn [negb] in E; [|injection E as <- <- _; by left].
  apply stm_inv in E as ([err hdr] & s2 & E2 & E). destruct (Z.eqb_spec err 0) as [->|Hne]; cbn [negb] in E; [|injection E as <- <- _; by left].
  apply recvResHdr_any in E2 as (bs & -> & Ha). injection E as <- <- <-. right. split; [done|]. exists bs. unfold answered in *. by rewrite <- E1.
Qed.

Lemma remote_get_any junk id key val_out s rc cl' val s' : mb_wf val_out ->
  remote_get env rounds junk (mkClient true id) key val_out s = Some ((rc, cl', val), s') ->
  gave_up rc cl' \/ cl' = mkClient true (u64 (id + 1)) /\
    exists bs v, answered sizeof_ResGetHdr id (ms_con s) bs (v ++ cn_in (ms_con s')) /\ rc = s32 (rs_error (res_of bs)) /\
      data val = data val_out ++ v /\
      length v = if rs_error (res_of bs) =? 0 then Z.to_nat (rg_val_len (resget_of bs)) else 0%nat.
Proof.
  intros Hw. unfold remote_get, get_next_reqid. cbn [cl_connected cl_req_id negb]. intros (err & s1 & E1 & E)%stm_inv. apply sendReq_in in E1.
  destruct (Z.eqb_spec err 0) as [->|Hne]; cbn [negb] in E; [|injection E as <- <- _ _; by left].
  apply stm_inv in E as ([err hdr] & s2 & E2 & E). destruct (Z.eqb_spec err 0) as [->|Hne]; cbn [negb] in E; [|injection E as <- <- _ _; by left].
  apply recvGetResHdr_any in E2 as (bs & -> & Ha). unfold answered in *. rewrite E1 in Ha. cbn [resget_of rg_hdr] in E.
  destruct (Z.eqb_spec (rs_error (res_of bs)) 0) as [Hz|Hnz]; cbn [negb] in E.
  - apply stm_inv in E as (v1 & s3 & E3 & E). apply on_kv_inv in E3 as (k3 & E3 & Hc3).
    destruct (Z.ltb_spec (Z.of_nat (get_free_size v1)) (rg_val_len (resget_of bs))) as [|Hroom]; [injection E as <- <- _ _; by left|].
    destruct (add_buffers_enough _ _ _ _ _ Hw E3 ltac:(lia)) as [Hw1 Hd1].
    apply stm_inv in E as ([err v2] & s4 & E4 & E). apply on_con_inv in E4 as (c4 & E4 & <-).
    destruct (Z.eqb_spec err 0) as [->|Hne]; cbn [negb] in E; [|injection E as <- <- _ _; by left]. injection E as <- <- <- <-.
    apply append_recv_taken in E4 as (v & Hd & Hl & Hc); [|done]. right. split; [done|]. exists bs, v. rewrite Hz, Hd, Hd1, <- Hc, Hc3.
    split; [done|]. split; [by vm_compute|]. done.
  - injection E as <- <- <- <-. right. split; [done|]. exists bs, []. rewrite app_nil_r, (proj2 (Z.eqb_neq _ _) Hnz). done.
Qed.

Lemma nop_any junk id s rc cl' s' : nop env rounds junk (mkClient true id) s = Some ((rc, cl'), s') ->
  gave_up rc cl' \/ cl' = mkClient true (u64 (id + 1)) /\
    (cn_in (ms_con s') = cn_in (ms_con s) \/
     exists bs, answered sizeof_ResHdr id (ms_con s) bs (cn_in (ms_con s')) /\ rc = s32 (rs_error (res_of bs))).
Proof.
  unfold nop, get_next_reqid. cbn [cl_connected cl_req_id negb]. intros ([err n] & s1 & E1 & E)%stm_inv. apply on_con_inv in E1 as (c1 & E1 & <-).
  apply send_full_in in E1. destruct (err =? -1).
  { apply stm_inv in E as (e & s2 & E2 & E). injection E as <- <- <-. apply errno_inv in E2. right. split; [done|]. left. by rewrite E2. }
  apply stm_inv in E as ([err' hdr] & s2 & E2 & E). destruct (Z.eqb_spec err' 0) as [->|Hne]; cbn [negb] in E; [|injection E as <- <- _; by left].
  apply recvResHdr_any in E2 as (bs & -> & Ha). injection E as <- <- <-. right. split; [done|]. right. exists bs. unfold answered in *. by rewrite <- E1.
Qed.

End Any.
