(* ===== verification/RemoteTheorems.v ===== *)
(** * RemoteTheorems: a store behind a socket

    Calls through the client are calls on the map of the server; which keys a node
    sends to a peer; and what both ends do with input that is not as expected. *)
From Stdlib Require Import ZArith Lia String.
From stdpp Require Import base tactics list numbers gmap.
From S2P Require Import Prelude Util HashEntry HopscotchMap HopscotchSpec FpTable DirectoryMap DirectoryGrow DirectoryOps.
From S2P Require Import Mbuff MbuffSpec MbuffHead StoreFormat KvStore KvIo KvInv KvGet KvWrite KvPut KvRefine.
From S2P Require Import StateM CString McParse McServer MbuffChunks KvPage McSpec McTheorems RemoteWire RemoteKv RemoteRoute RemoteMbuff RemoteSpec RemoteSafe.

Open Scope Z_scope.

(** ** One call *)

(** The bytes of a call. *)
Definition request (junk id : Z) (c : call) : list Z :=
  match c with
  | CPut keyval ks _ =>
      req_bytes (mkPUT id (Z.of_nat ks) (Z.of_nat (length (data keyval) - ks))) ++ data keyval
  | CGet key _ => req_bytes (mkGET junk id (Z.of_nat (length (data key)))) ++ data key
  | _ => []
  end.

(** The client's function for a call, and what the caller sees of it. *)
Inductive remote_runs (env : mc_env) (rounds : nat) (junk : Z) (cl : client) (s : mcs) : call -> reply -> client -> mcs -> Prop :=
  | run_put keyval ks rc cl' s' :
      remote_put env rounds cl keyval (Z.of_nat ks) s = Some ((rc, cl'), s') ->
      remote_runs env rounds junk cl s (CPut keyval ks NORMAL) (RPut rc (data keyval)) cl' s'
  | run_get key val_out rc cl' val v s' :
      remote_get env rounds junk cl key val_out s = Some ((rc, cl', val), s') -> data val = data val_out ++ v ->
      remote_runs env rounds junk cl s (CGet key val_out) (RGet rc v) cl' s'.

(** The calls that the theorem is about: records of a page for which the server's
    allocator has a grain [g], and keys of up to a page. *)
Definition remote_ok (env : kv_env) (k : Z) (recs : list krec) (g : Z) (rounds : nat) (s : kv) (c : call) : Prop :=
  match c with
  | CPut keyval ks op =>
      op = NORMAL /\ short keyval /\ (ks <= length (data keyval) <= rounds)%nat /\
      (putKeyvalPrefixSize + length (data keyval) <= page)%nat /\
      store_ready env k recs g (take ks (data keyval)) (Z.of_nat (length (data keyval) - ks)) s
  | CGet key val_out =>
      short key /\ mb_wf val_out /\ 0 < Z.of_nat (length (data key)) < 2 ^ 16 /\
      (putKeyvalPrefixSize + length (data key) <= page)%nat /\ (length (data key) <= rounds)%nat /\
      (forall r, r ∈ recs -> (sizeof_ResGetHdr + length (r_val r) <= rounds)%nat)
  | _ => False
  end.

(** The server between two requests. *)
Record server_ready (env : kv_env) (k : Z) (recs : list krec) (sv : server) : Prop := {
  svr_inv : store_inv env k (sv_kv sv) recs;
  svr_body : paged (sv_mb1 sv);
  svr_result : short (sv_mb2 sv)
}.

Lemma absent_code_range rc : absent_code rc -> 0 < rc < 2 ^ 31.
Proof. intros [->| ->]; done. Qed.

(** ** Proofs about one call *)

Section Exchange.
Context (senv cenv : mc_env) (Hsup : link_up senv) (Hcup : link_up cenv).
Context (Hsq : quiet (me_kv senv)) (Hcq : quiet (me_kv cenv)) (Hre : forall t, me_realloc senv t = true).
Context (fuel rounds : nat) (Hfuel : (BUCKET < fuel)%nat) (Hrounds : (sizeof_ReqHdr <= rounds)%nat).
Context (k : Z) (recs : list krec) (fd : Z) (sv : server) (Hsv : server_ready (me_kv senv) k recs sv).
Context (Hmem : Z.of_nat (memory (sv_mb1 sv)) < 2 ^ 62).
Context (Hfirst : Z.of_nat sizeof_ReqHdr <= me_recv senv (cn_tick (sv_conns sv fd))).
Context (junk id : Z) (Hjunk : in_width 32 junk) (Hid : in_width 64 id).
Context (Hcerr : (forall t, me_recv_err cenv t <> -1) \/ forall r, r ∈ recs -> r_val r <> []).

(** The server's thread serves [c] with the bytes [R]. *)
Definition server_answers (Q R : list Z) (recs' : list krec) : Prop :=
  exists sv', recv_from_client senv fuel rounds fd sv = Some (0, sv') /\ sv_fds sv' = sv_fds sv /\
    (forall x, x <> fd -> sv_conns sv' x = sv_conns sv x) /\ con_moved (sv_conns sv fd) (sv_conns sv' fd) Q R /\
    server_ready (me_kv senv) k recs' sv'.

Lemma served_answers Q R recs' :
  served senv fuel rounds k (sv_mb1 sv) (sv_mb2 sv) (mkMcs (sv_kv sv) (sv_conns sv fd) []) Q R recs' -> server_answers Q R recs'.
Proof.
  intros (mb1 & mb2 & m & E & Hinv & Hm & Hp & Hs). eexists. unfold recv_from_client. rewrite E. cbn [mbind option_bind].
  change (0 =? 0) with true. cbv iota. split; [reflexivity|]. split; [done|]. cbn [sv_conns]. rewrite decide_True by done. split; [|by split].
  intros x Hx. by rewrite decide_False.
Qed.

(** The client that reads [R] returns [r] and has sent [Q]. *)
Definition returns (c : call) (r : reply) (Q R : list Z) : Prop :=
  forall cs rest, cn_in (ms_con cs) = R ++ rest -> exists cs',
    remote_runs cenv rounds junk (mkClient true id) cs c r (next_client id) cs' /\ con_moved (ms_con cs) (ms_con cs') R Q.

Lemma put_exchange g keyval ks : remote_ok (me_kv senv) k recs g rounds (sv_kv sv) (CPut keyval ks NORMAL) ->
  cn_in (sv_conns sv fd) = request junk id (CPut keyval ks NORMAL) ->
  exists R recs', server_answers (request junk id (CPut keyval ks NORMAL)) R recs' /\
    map_call (content recs) (CPut keyval ks NORMAL) (RPut 0 (data keyval)) (content recs') /\
    returns (CPut keyval ks NORMAL) (RPut 0 (data keyval)) (request junk id (CPut keyval ks NORMAL)) R.
Proof.
  intros (_ & Hs & Hks & Hpage & Hsr) Hin. cbn [request] in *.
  set (key := take ks (data keyval)) in *. set (val := drop ks (data keyval)).
  assert (data keyval = key ++ val) as Hd by (symmetry; apply take_drop).
  assert (length key = ks) as Hkl by (unfold key; rewrite length_take; lia).
  assert (length val = length (data keyval) - ks)%nat as Hvl by (unfold val; by rewrite length_drop).
  eexists _, _. split; [|split].
  - apply served_answers. rewrite <- Hvl in Hsr, Hin |- *. replace (Z.of_nat ks) with (Z.of_nat (length key)) in Hin |- * by lia. rewrite Hd in Hin |- *.
    apply (serve_put senv Hsup Hsq fuel rounds Hfuel); try done; try apply Hsv.
    by rewrite <- length_app, <- Hd.
  - rewrite content_put by done. cbn [new_rec r_key r_val]. by apply (m_put _ keyval ks NORMAL).
  - intros cs rest Hr. destruct (put_answered cenv Hcup rounds id Hid Hrounds cs keyval ks 0 rest Hs) as (con' & E & Hm); try done; try lia.
    eexists. split; [by eapply run_put|done].
Qed.

Lemma get_exchange g key val_out : remote_ok (me_kv senv) k recs g rounds (sv_kv sv) (CGet key val_out) ->
  cn_in (sv_conns sv fd) = request junk id (CGet key val_out) ->
  exists R rc v, server_answers (request junk id (CGet key val_out)) R recs /\
    map_call (content recs) (CGet key val_out) (RGet rc v) (content recs) /\
    returns (CGet key val_out) (RGet rc v) (request junk id (CGet key val_out)) R.
Proof.
  intros (Hs & Hw & Hk & Hpage & Hr & Hvals) Hin. cbn [request] in *.
  destruct (serve_get senv Hsup Hsq fuel rounds Hfuel Hrounds k recs (sv_mb1 sv) (sv_mb2 sv) (svr_body _ _ _ _ Hsv) (svr_result _ _ _ _ Hsv) Hmem
    (mkMcs (sv_kv sv) (sv_conns sv fd) []) (svr_inv _ _ _ _ Hsv) id Hid Hfirst junk (data key)) as (rc & v & Hf & Hserved); try done.
  assert (0 <= rc < 2 ^ 31 /\ (rc <> 0 -> v = []) /\ Z.of_nat (length v) < 2 ^ 32) as (Hrc & Hz & Hl).
  { destruct Hf as [(r & Hr' & _ & -> & ->)|(_ & Ha & ->)]; [|pose proof (absent_code_range rc Ha); by repeat split; try lia].
    pose proof (f_sum _ _ _ (ro_fits _ _ _ (si_recs _ _ _ _ (svr_inv _ _ _ _ Hsv) r Hr'))) as Hsum. unfold vlen in Hsum.
    pose proof (f_key _ _ _ (ro_fits _ _ _ (si_recs _ _ _ _ (svr_inv _ _ _ _ Hsv) r Hr'))). pose proof (q_grain _ Hsq). by repeat split; try lia. }
  assert (rc = 0 -> v = [] -> forall t, me_recv_err cenv t <> -1) as Herr.
  { intros -> ->. destruct Hcerr as [He|He]; [done|]. destruct Hf as [(r & Hr' & _ & _ & Hv)|(_ & Ha & _)];
      [by destruct (He r Hr')|apply absent_code_range in Ha; lia]. }
  eexists _, rc, v. split; [by apply served_answers|]. split.
  - destruct Hf as [(r & Hr' & Hk' & -> & ->)|(Hn & Ha & ->)].
    + apply m_get. rewrite <- Hk'. apply content_present; [apply (si_keys _ _ _ _ (svr_inv _ _ _ _ Hsv))|done].
    + apply m_get_absent; [by apply content_absent|done].
  - intros cs rest Hr'. destruct (get_answered_remote cenv Hcup Hcq rounds junk id Hid Hrounds cs key val_out rc v rest)
      as (val' & t & con' & E & _ & Hd & Hm); try done.
    eexists. split; [by eapply run_get|done].
Qed.

End Exchange.

(** ** Routing *)

(** The operations of a node whose tables hold no client. *)
Section Local.
Context (env : mc_env) (fuel rounds : nat) (junk : Z) (net : uDepotNet) (tid : nat).
Context (Hloc : forall h, get_client net h tid = Some None).

Local Ltac local_run :=
  unfold on_store, lifto, mbind, stm_bind, kvm_bind, mret, stm_ret, kvm_ret, lift; cbn [option_bind];
  destruct (hash_mbuff _ _ _ _ _) as [[[rc h] s1]|]; [|done]; cbn [option_bind mbind];
  destruct (negb (rc =? 0)); [done|]; rewrite Hloc; cbn [option_bind mbind n_kv].

Lemma node_put_local keyval ks op s :
  node_put env fuel rounds net tid keyval ks op s = on_store (put (me_kv env) fuel keyval ks op) s.
Proof. unfold node_put, put. local_run. done. Qed.

Lemma node_get_local key val_out s :
  node_get env fuel rounds junk net tid key val_out s = on_store (get (me_kv env) fuel key val_out) s.
Proof.
  unfold node_get, get. local_run. destruct (lookup_mbuff _ _ _ _ _ _ _ _) as [[[[err vs] mb] s2]|]; [|done]. cbn [option_bind mbind].
  destruct (err =? EEXIST); by destruct (reslice_ _ _ _).
Qed.

Lemma node_exists_local key s :
  node_exists env fuel rounds junk net tid key s = on_store (kv_exists (me_kv env) fuel key) s.
Proof. unfold node_exists, kv_exists. local_run. by destruct (lookup_exists _ _ _ _ _ _ _) as [[[err vs] s2]|]. Qed.

Lemma node_del_local key s : node_del env fuel net tid key s = on_store (del (me_kv env) fuel key) s.
Proof. unfold node_del, del. local_run. done. Qed.

End Local.

(** ** Requests that the server refuses *)

Section Refused.
Context (env : mc_env) (Hup : link_up env) (Hq : quiet (me_kv env)) (fuel rounds : nat) (Hrounds : (sizeof_ReqHdr <= rounds)%nat).
Context (k : Z) (recs : list krec) (fd : Z) (sv : server) (Hsv : server_ready (me_kv env) k recs sv).
Context (Hmem : Z.of_nat (memory (sv_mb1 sv)) < 2 ^ 62).

(** The server took the bytes [i], sent [o], removed the client and kept its
    store; the thread gets [rc]. *)
Definition dropped (rc : Z) (i o : list Z) : Prop :=
  exists sv', recv_from_client env fuel rounds fd sv = Some (rc, sv') /\
    sv_fds sv' = filter (fun x => x <> fd) (sv_fds sv) /\ con_moved (sv_conns sv fd) (sv_conns sv' fd) i o /\
    (forall x, x <> fd -> sv_conns sv' x = sv_conns sv x) /\ store_inv (me_kv env) k (sv_kv sv') recs.

Local Abbreviation s0 := (mkMcs (sv_kv sv) (sv_conns sv fd) []).

Lemma serve_dropped err mb1 mb2 t con' i o : err <> 0 ->
  serve_kv_request env fuel rounds (sv_mb1 sv) (sv_mb2 sv) s0 = Some ((err, mb1, mb2), mkMcs (at_tick t (sv_kv sv)) con' []) ->
  con_moved (sv_conns sv fd) con' i o -> dropped (if err =? ECONNRESET then 0 else err) i o.
Proof.
  intros Hne E Hm. eexists. unfold recv_from_client. rewrite E. cbn [mbind option_bind]. rewrite (proj2 (Z.eqb_neq err 0) Hne).
  split; [reflexivity|]. cbn [remove_client sv_fds sv_conns sv_kv ms_con ms_kv]. split; [done|]. rewrite decide_True by done.
  split; [done|]. split; [intros x Hx; by rewrite decide_False|]. apply at_tick_inv, (svr_inv _ _ _ _ Hsv).
Qed.

(** The Mbuff with its prefix, into which the request is received. *)
Lemma serve_begins : exists mb t, mb_wf mb /\ room_ok mb /\ forall r s',
  recv_request env rounds mb (mkMcs (at_tick t (sv_kv sv)) (sv_conns sv fd) []) = r ->
  (forall err hdr rb, r = Some ((err, hdr, rb), s') -> err <> 0 ->
    serve_kv_request env fuel rounds (sv_mb1 sv) (sv_mb2 sv) s0 = Some ((err, rb, sv_mb2 sv), s')) /\
  (r = None -> serve_kv_request env fuel rounds (sv_mb1 sv) (sv_mb2 sv) s0 = None).
Proof.
  destruct (prefix_placed env Hq (sv_mb1 sv) (sv_kv sv) (svr_body _ _ _ _ Hsv) Hmem) as (mb0 & mb1 & t & mb2 & E0 & E1 & E2 & Hw & _ & _ & Hroom).
  exists mb2, t. split; [done|]. split; [done|]. intros r s' Er. unfold serve_kv_request.
  rewrite (mc_run _ _ _ _ _ (lifto_run _ s0 _ E0)), (mc_run _ _ _ _ _ (on_kv_run _ s0 _ _ E1)).
  set (s1 := mkMcs (at_tick t (sv_kv sv)) (sv_conns sv fd) []) in *. rewrite (mc_run _ _ _ _ _ (lifto_run _ s1 _ E2)).
  change (mkMcs (at_tick t (ms_kv s0)) (ms_con s0) (ms_mbs s0)) with s1. split.
  - intros err hdr rb -> Hne. rewrite (mc_run _ _ _ _ _ Er). cbv beta iota. by rewrite (proj2 (Z.eqb_neq err 0) Hne).
  - intros ->. unfold mbind, stm_bind. by rewrite Er.
Qed.

(** A first piece without the whole header. *)
Lemma short_dropped : 0 <= me_recv env (cn_tick (sv_conns sv fd)) ->
  (Nat.min (Z.to_nat (me_recv env (cn_tick (sv_conns sv fd)))) (length (cn_in (sv_conns sv fd))) < sizeof_ReqHdr)%nat ->
  dropped 0 (take (Z.to_nat (me_recv env (cn_tick (sv_conns sv fd)))) (cn_in (sv_conns sv fd))) [].
Proof.
  intros H0 Hshort. destruct serve_begins as (mb & t & Hw & Hroom & Hbeg). set (c := sv_conns sv fd) in *. set (r := Z.to_nat (me_recv env (cn_tick c))) in *.
  set (bs := take r (cn_in c)). assert (length bs < sizeof_ReqHdr)%nat as Hl by (unfold bs; rewrite length_take; lia).
  set (c' := mkCon (drop (length bs) (cn_in c)) (cn_out c) (cn_errno c) (S (cn_tick c))).
  destruct (received_spec mb (Nat.min (1 + append_avail_nchunks mb) 8 - 1) Hw ltac:(unfold room_ok in Hroom; lia)) as (iov & n & mb1 & Ef & _).
  assert (recv env (n + sizeof_ReqHdr) c = ((Z.of_nat (length bs), bs), c')) as Er.
  { unfold recv. rewrite (proj2 (Z.ltb_ge _ 0)) by lia. fold r. replace (take (Nat.min r (n + sizeof_ReqHdr)) (cn_in c)) with bs; [done|].
    unfold bs in *. rewrite length_take in Hl. destruct (Nat.le_ge_cases r (n + sizeof_ReqHdr)); [by rewrite Nat.min_l|].
    rewrite Nat.min_r by done. rewrite !take_ge; [done|lia|lia]. }
  apply (serve_dropped ECONNRESET mb1 (sv_mb2 sv) t c'); [done| |].
  - set (s1 := mkMcs (at_tick t (sv_kv sv)) c []) in *. destruct (Hbeg _ (mkMcs (at_tick t (sv_kv sv)) c' []) eq_refl) as [Hres _].
    eapply Hres; [|done]. unfold recv_request. rewrite (mc_run _ _ _ _ _ (lifto_run _ s1 _ Ef)). cbv beta iota.
    erewrite mc_run by (apply on_con_run; cbn [ms_con s1]; rewrite Er; reflexivity). cbv beta iota.
    rewrite (proj2 (Z.eqb_neq _ (-1))) by lia. rewrite (proj2 (Z.ltb_lt _ _)) by lia. by destruct (_ =? 0).
  - unfold c'. split; cbn [cn_in cn_out]; [|by rewrite app_nil_r]. unfold bs. rewrite length_take. destruct (Nat.le_ge_cases r (length (cn_in c))).
    + by rewrite Nat.min_l, take_drop by done.
    + by rewrite Nat.min_r, take_ge, drop_all, app_nil_r by done.
Qed.

Context (hdr : ReqHdr) (body : list Z) (Hhdr : req_wf hdr) (Hin : cn_in (sv_conns sv fd) = req_bytes hdr ++ body).
Context (Hfirst : Z.of_nat sizeof_ReqHdr <= me_recv env (cn_tick (sv_conns sv fd))).

(** The first piece with its header [hdr] and the part [got] of the body; what
    follows is decided by the header. *)
Lemma header_read mb t : mb_wf mb -> room_ok mb -> exists got rest c1 mb3, body = got ++ rest /\
  con_moved (sv_conns sv fd) c1 (req_bytes hdr ++ got) [] /\
  let s2 := mkMcs (at_tick t (sv_kv sv)) c1 [] in
  let r := recv_request env rounds mb (mkMcs (at_tick t (sv_kv sv)) (sv_conns sv fd) []) in
  (rq_magic hdr <> MAGIC -> r = (_ ← send_all env rounds (res_bytes (res_hdr EBADMSG 0)); mret (EBADMSG, hdr, mb3)) s2) /\
  (rq_magic hdr = MAGIC -> req_body_len hdr = None -> r = None).
Proof.
  intros Hw Hroom. set (c := sv_conns sv fd) in *.
  destruct (received_spec mb (Nat.min (1 + append_avail_nchunks mb) 8 - 1) Hw ltac:(unfold room_ok in Hroom; lia)) as (iov & n & mb1 & Ef & Hrecv).
  destruct (recv_first env n c hdr body Hin Hfirst) as (got & rest & c1 & Er & Hbody & Hgot & Hm1).
  destruct (Hrecv got Hgot) as (mb3 & E3 & _). exists got, rest, c1, mb3. split; [done|]. split; [done|]. intros s2.
  set (s1 := mkMcs (at_tick t (sv_kv sv)) c []) in *. unfold recv_request. rewrite (mc_run _ _ _ _ _ (lifto_run _ s1 _ Ef)). cbv beta iota.
  erewrite mc_run by (apply on_con_run; cbn [ms_con s1]; rewrite Er; reflexivity). cbv beta iota.
  rewrite (proj2 (Z.eqb_neq _ (-1))), (proj2 (Z.eqb_neq _ 0)), (proj2 (Z.ltb_ge _ (Z.of_nat sizeof_ReqHdr))) by (unfold sizeof_ReqHdr; lia).
  rewrite req_of_bytes, (drop_app_length' (req_bytes hdr)) by done.
  replace (Z.of_nat (sizeof_ReqHdr + length got) - Z.of_nat sizeof_ReqHdr) with (Z.of_nat (length got)) by lia. rewrite Nat2Z.id.
  change (set_con c1 s1) with s2. rewrite (mc_run _ _ _ _ _ (lifto_run _ s2 _ E3)). unfold req_verify_magic. cbn zeta. split.
  - intros Hmagic. by rewrite (proj2 (Z.eqb_neq _ _) Hmagic).
  - intros -> Hlen. by rewrite Z.eqb_refl, Hlen.
Qed.

(** A request that does not start with the magic number. *)
Lemma magic_dropped : rq_magic hdr <> MAGIC -> exists got rest, body = got ++ rest /\
  dropped EBADMSG (req_bytes hdr ++ got) (res_bytes (res_hdr EBADMSG 0)).
Proof.
  intros Hmagic. destruct serve_begins as (mb & t & Hw & Hroom & Hbeg).
  destruct (header_read mb t Hw Hroom) as (got & rest & c1 & mb3 & Hbody & Hm1 & Hr & _). exists got, rest. split; [done|].
  destruct (send_full_all env Hup rounds (res_bytes (res_hdr EBADMSG 0)) 0 c1) as (c2 & E2 & Hm2);
    [rewrite res_bytes_length; unfold sizeof_ReqHdr, sizeof_ResHdr in *; lia|].
  apply (serve_dropped EBADMSG mb3 (sv_mb2 sv) t c2); [done| |].
  - destruct (Hbeg _ (mkMcs (at_tick t (sv_kv sv)) c2 []) (Hr Hmagic)) as [Hres _]. eapply Hres; [|done]. unfold send_all.
    by erewrite mc_run by (apply on_con_run; cbn [ms_con]; rewrite E2; reflexivity).
  - pose proof (con_moved_trans _ _ _ _ _ _ _ Hm1 Hm2) as Hm. by rewrite app_nil_r in Hm.
Qed.

(** A request for an operation that there is not. *)
Lemma op_aborts : rq_magic hdr = MAGIC -> op_DEL < rq_op hdr -> recv_from_client env fuel rounds fd sv = None.
Proof.
  intros Hmagic Hop. destruct serve_begins as (mb & t & Hw & Hroom & Hbeg).
  destruct (header_read mb t Hw Hroom) as (got & rest & c1 & mb3 & _ & _ & _ & Hr).
  assert (req_body_len hdr = None) as Hlen.
  { unfold op_DEL in Hop. unfold req_body_len, op_NOP, op_GET, op_DEL, op_PUT. by rewrite !(proj2 (Z.eqb_neq _ _)) by lia. }
  unfold recv_from_client. by rewrite (proj2 (Hbeg None s0 (Hr Hmagic Hlen)) eq_refl).
Qed.

(** A request to delete. *)
Lemma del_dropped : rq_magic hdr = MAGIC -> rq_op hdr = op_DEL -> rq_word0 hdr = Z.of_nat (length body) ->
  (putKeyvalPrefixSize + length body <= page)%nat -> dropped ENOTSUP (req_bytes hdr ++ body) [].
Proof.
  intros Hmagic Hop Hlen Hpage.
  destruct (serve_received env Hup Hq fuel rounds (sv_mb1 sv) (sv_mb2 sv) s0 hdr body (svr_body _ _ _ _ Hsv) Hmem Hhdr Hmagic)
    as (mb & t & con1 & E1 & _ & _ & _ & _ & Hm1); [|done|done|done|].
  { unfold req_body_len. by rewrite Hop, Hlen. }
  apply (serve_dropped ENOTSUP mb (sv_mb2 sv) t con1); [done| |exact Hm1]. rewrite E1. unfold serve_op. by rewrite Hop.
Qed.

End Refused.

(** ** Theorems *)


(** A client that stores a value of 17 bytes, and the server that receives it. *)
Definition remote_at (g : Z) : mc_env :=
  mkMcEnv (env_at g) (fun _ => 30) (fun _ => 7) (fun _ => 1000) (fun _ => true) (fun _ => true) (fun _ => 1).

Definition sample_keyval : mbuff := keyval_of (cstr "abc" ++ replicate 17 120).
Definition sample_server (i : list Z) : server := mkServer store0 mbuff_empty mbuff_empty [5; 6] (fun _ => mkCon i [] 0 0).

Lemma remote_at_up g : link_up (remote_at g).
Proof. by split. Qed.

Lemma sample_keyval_short : short sample_keyval.
Proof. split; [|by vm_compute]. split; repeat constructor; cbn; try lia; done. Qed.


(** C25: Which keys a node sends to its peers.  Starting the network never writes
    past a table.  A node that serves answers every put, get, exists and del of every
    thread from its own store, whatever peers it was given, as if it had no network.
    A node that does not serve sends the keys whose hash is a multiple of the number
    of its peers to the first of them, over a connection of the calling thread, and
    keeps all other keys in its own store. *)
Theorem node_routes (server_start : Z) (client_start : nat -> nat -> Z) (thread_nr : nat) (clients : list SocketPeerConf)
    (server : SocketPeerConf) (tid : nat) :
  (tid < thread_nr)%nat -> Z.of_nat (length clients) < 2 ^ 31 ->
  exists rc net, start_net_all server_start client_start (net_new thread_nr clients server) = Some (rc, net) /\
    (rc = 0 -> is_invalid server = false -> forall env fuel rounds junk s,
      (forall keyval ks op, node_put env fuel rounds net tid keyval ks op s = on_store (put (me_kv env) fuel keyval ks op) s) /\
      (forall key val_out, node_get env fuel rounds junk net tid key val_out s = on_store (get (me_kv env) fuel key val_out) s) /\
      (forall key, node_exists env fuel rounds junk net tid key s = on_store (kv_exists (me_kv env) fuel key) s) /\
      (forall key, node_del env fuel net tid key s = on_store (del (me_kv env) fuel key) s)) /\
    (rc = 0 -> is_invalid server = true -> forall first, head clients = Some first -> is_invalid first = false ->
      exists j, conn_m net !! tid = Some clients /\ clients !! j = Some first /\ forall h, in_width 64 h ->
        get_client net h tid = Some (if h mod Z.of_nat (length clients) =? 0 then Some j else None)).
Proof.
  intros Ht Hn. destruct (start_tables server_start client_start thread_nr clients server) as (rc & net & E & Hs).
  exists rc, net. split; [done|]. split.
  - intros Hrc Hv env fuel rounds junk s. destruct (Hs Hrc) as (_ & tab & Hch & Hr).
    assert (forall h, get_client net h tid = Some None) as Hloc by (intros h; by eapply get_client_serving).
    split; [|split; [|split]]; intros; by first [apply node_put_local | apply node_get_local | apply node_exists_local | apply node_del_local].
  - intros Hrc Hv first Hf Hfv. destruct (Hs Hrc) as (Hc & tab & Hch & Hlen & Hrest & _ & Hfirst).
    destruct (Hfirst Hv first Hf Hfv) as (j & Hj & H0). exists j. rewrite Hc, lookup_replicate_2 by done. do 2 (split; [done|]).
    intros h Hh. unfold slot_nr in Hlen. rewrite Hv, Nat.add_0_r in Hlen.
    rewrite (get_client_slot net thread_nr tab h tid Ht Hh Hch), Hlen by lia.
    destruct (Z.eqb_spec (h mod Z.of_nat (length clients)) 0) as [Hz|Hne]; [rewrite Hz; change (Z.to_nat 0) with 0%nat; by rewrite H0|].
    destruct clients as [|c l]; [done|]. pose proof (Z.mod_pos_bound h (Z.of_nat (length (c :: l)))) as Hb. cbn [length] in Hb.
    by rewrite Hrest by (cbn [length] in *; lia).
Qed.

Definition peer_of (node : Z) : SocketPeerConf := mkPeer [116; 99; 112] [node] [56; 48].

Lemma node_routes_witness :
  exists rc net, start_net_all 0 (fun _ _ => 0) (net_new 2 [peer_of 1; peer_of 2; peer_of 3] (mkPeer [] [] [])) = Some (rc, net) /\
    rc = 0 /\ exists j, conn_m net !! 1%nat = Some [peer_of 1; peer_of 2; peer_of 3] /\
      [peer_of 1; peer_of 2; peer_of 3] !! j = Some (peer_of 1) /\
      get_client net 9 1 = Some (Some j) /\ get_client net 10 1 = Some None.
Proof.
  destruct (node_routes 0 (fun _ _ => 0) 2 [peer_of 1; peer_of 2; peer_of 3] (mkPeer [] [] []) 1 ltac:(lia) ltac:(by vm_compute))
    as (rc & net & E & _ & Hc). exists rc, net. split; [exact E|].
  assert (rc = 0) as Hrc by (vm_compute in E; by injection E as <- _). split; [done|].
  destruct (Hc Hrc eq_refl (peer_of 1) eq_refl eq_refl) as (j & H1 & H2 & H3). exists j. do 2 (split; [done|]).
  split; [rewrite (H3 9)|rewrite (H3 10)]; by try closed_num.
Defined.

(** C35: Requests that the server does not serve.  Whatever comes after it, a
    request whose first piece is shorter than the header closes the connection; one
    without the magic number is answered with EBADMSG and closes it; a del closes it
    without an answer.  Each leaves the store and the other clients as they were.  A
    header with the magic number and an operation above DEL stops the server: the
    body's length is asked for, and aborts, before the operation is looked at. *)
Theorem server_refuses (env : mc_env) (fuel rounds : nat) (k : Z) (recs : list krec) (fd : Z) (sv : server) :
  link_up env -> quiet (me_kv env) -> (sizeof_ReqHdr <= rounds)%nat ->
  server_ready (me_kv env) k recs sv -> Z.of_nat (memory (sv_mb1 sv)) < 2 ^ 62 ->
  let c := sv_conns sv fd in
  let piece := take (Z.to_nat (me_recv env (cn_tick c))) (cn_in c) in
  ((length piece < sizeof_ReqHdr)%nat -> dropped env fuel rounds k recs fd sv 0 piece []) /\
  (forall hdr body, req_wf hdr -> cn_in c = req_bytes hdr ++ body -> (sizeof_ReqHdr <= length piece)%nat ->
    (rq_magic hdr <> MAGIC -> exists got rest, body = got ++ rest /\
      dropped env fuel rounds k recs fd sv EBADMSG (req_bytes hdr ++ got) (res_bytes (res_hdr EBADMSG 0))) /\
    (rq_magic hdr = MAGIC -> op_DEL < rq_op hdr -> recv_from_client env fuel rounds fd sv = None) /\
    (rq_magic hdr = MAGIC -> rq_op hdr = op_DEL -> rq_word0 hdr = Z.of_nat (length body) ->
      (putKeyvalPrefixSize + length body <= page)%nat -> dropped env fuel rounds k recs fd sv ENOTSUP (req_bytes hdr ++ body) [])).
Proof.
  intros Hup Hq Hrounds Hsv Hmem c piece. pose proof (lu_recv _ Hup (cn_tick c)) as Hpos. split.
  - intros Hl. apply short_dropped; try done; [unfold c in *; lia|]. unfold piece in Hl. by rewrite length_take in Hl.
  - intros hdr body Hhdr Hin Hl. unfold piece in Hl. rewrite length_take in Hl. assert (Z.of_nat sizeof_ReqHdr <= me_recv env (cn_tick c)) as Hf by lia.
    split; [|split]; intros; by first [eapply magic_dropped | eapply op_aborts | eapply del_dropped].
Qed.

Lemma server_refuses_witness :
  let del := mkReqHdr MAGIC op_DEL 9 3 0 in
  let sv := sample_server (req_bytes del ++ [97; 98; 99]) in
  dropped (remote_at 100) 100 100 0 [] 5 sv ENOTSUP (req_bytes del ++ [97; 98; 99]) [] /\
  recv_from_client (remote_at 100) 100 100 5 (sample_server (req_bytes (mkReqHdr MAGIC 4 9 3 0))) = None.
Proof.
  intros del sv. assert (forall i, server_ready (env_at 100) 0 [] (sample_server i)) as Hready.
  { intros i. split; [apply store0_empty|apply mbuff_empty_paged|apply mbuff_empty_paged]. }
  assert (forall op, in_width 32 op -> req_wf (mkReqHdr MAGIC op 9 3 0)) as Hwf by (intros op Hop; split; try done; closed_num).
  destruct (server_refuses (remote_at 100) 100 100 0 [] 5 sv (remote_at_up 100) (env_at_quiet 100) ltac:(apply Nat.leb_le; by vm_compute)
    (Hready _) ltac:(done)) as [_ H1].
  destruct (server_refuses (remote_at 100) 100 100 0 [] 5 (sample_server (req_bytes (mkReqHdr MAGIC 4 9 3 0))) (remote_at_up 100)
    (env_at_quiet 100) ltac:(apply Nat.leb_le; by vm_compute) (Hready _) ltac:(done)) as [_ H2].
  split.
  - destruct (H1 del [97; 98; 99]) as (_ & _ & H); [apply Hwf; closed_num|done|apply Nat.leb_le; by vm_compute|].
    apply H; [done|done|done|apply Nat.leb_le; by vm_compute].
  - destruct (H2 (mkReqHdr MAGIC 4 9 3 0) []) as (_ & H & _); [apply Hwf; closed_num|by rewrite app_nil_r|apply Nat.leb_le; by vm_compute|].
    by apply H.
Defined.

(** C17: What a client believes.  Whatever the peer, the connection and memory do, a
    put, get or nop that returns either has given the connection up, with an error,
    and every later call fails with EBADF and sends nothing; or the next bytes of the
    connection were a header with the magic number and the identifier of this very
    request, the result is the code in it, and a get without an error has appended
    to its Mbuff exactly the bytes that follow, as many as the header says.  Only a
    nop whose request could not be sent leaves the client connected. *)
Theorem client_trusts (env : mc_env) (rounds : nat) (junk id : Z) (s : mcs) :
  (forall keyval klen rc cl' s', remote_put env rounds (mkClient true id) keyval klen s = Some ((rc, cl'), s') ->
    gave_up rc cl' \/ cl' = mkClient true (u64 (id + 1)) /\
      exists bs, answered sizeof_ResHdr id (ms_con s) bs (cn_in (ms_con s')) /\ rc = s32 (rs_error (res_of bs))) /\
  (forall key val_out rc cl' val s', mb_wf val_out ->
    remote_get env rounds junk (mkClient true id) key val_out s = Some ((rc, cl', val), s') ->
    gave_up rc cl' \/ cl' = mkClient true (u64 (id + 1)) /\
      exists bs v, answered sizeof_ResGetHdr id (ms_con s) bs (v ++ cn_in (ms_con s')) /\ rc = s32 (rs_error (res_of bs)) /\
        data val = data val_out ++ v /\
        length v = if rs_error (res_of bs) =? 0 then Z.to_nat (rg_val_len (resget_of bs)) else 0%nat) /\
  (forall rc cl' s', nop env rounds junk (mkClient true id) s = Some ((rc, cl'), s') ->
    gave_up rc cl' \/ cl' = mkClient true (u64 (id + 1)) /\
      (cn_in (ms_con s') = cn_in (ms_con s) \/
       exists bs, answered sizeof_ResHdr id (ms_con s) bs (cn_in (ms_con s')) /\ rc = s32 (rs_error (res_of bs)))) /\
  (forall cl keyval klen key val_out, cl_connected cl = false ->
    remote_put env rounds cl keyval klen s = Some ((EBADF, cl), s) /\
    remote_get env rounds junk cl key val_out s = Some ((EBADF, cl, val_out), s) /\
    nop env rounds junk cl s = Some ((EBADF, cl), s)).
Proof.
  split; [|split; [|split]].
  - intros *. apply remote_put_any.
  - intros *. apply remote_get_any.
  - intros *. apply nop_any.
  - intros cl * Hc. unfold remote_put, remote_get, nop. by rewrite Hc.
Qed.

(** A put that is answered with the code 12, and one whose answer carries the
    identifier of another request. *)
Lemma client_trusts_witness :
  let run id := remote_put (remote_at 100) 100 (mkClient true id) sample_keyval 3 (mkMcs store0 (mkCon (res_bytes (res_hdr 12 77)) [] 0 0) []) in
  (exists cl' s', run 77 = Some ((12, cl'), s') /\ cl_connected cl' = true /\
    exists bs, answered sizeof_ResHdr 77 (mkCon (res_bytes (res_hdr 12 77)) [] 0 0) bs (cn_in (ms_con s')) /\ s32 (rs_error (res_of bs)) = 12) /\
  exists cl' s', run 78 = Some ((EINVAL, cl'), s') /\ gave_up EINVAL cl'.
Proof.
  intros run. set (s := mkMcs _ _ _) in run.
  assert (forall id rc cl' s', run id = Some ((rc, cl'), s') -> gave_up rc cl' \/ cl' = mkClient true (u64 (id + 1)) /\
      exists bs, answered sizeof_ResHdr id (ms_con s) bs (cn_in (ms_con s')) /\ rc = s32 (rs_error (res_of bs))) as H.
  { intros id rc cl' s'. exact (proj1 (client_trusts (remote_at 100) 100 1 id s) sample_keyval 3 rc cl' s'). }
  assert (fst <$> run 77 = Some (12, mkClient true 78)) as H77 by (vm_compute; reflexivity).
  assert (fst <$> run 78 = Some (EINVAL, mkClient false 79)) as H78 by (vm_compute; reflexivity).
  clearbody run. split.
  - destruct (run 77) as [[[rc cl'] s']|] eqn:E; [|done]. injection H77 as -> ->. exists (mkClient true 78), s'. do 2 (split; [done|]).
    destruct (H 77 _ _ _ E) as [[Hf _]|[_ (bs & Ha & Hr)]]; [done|]. by exists bs.
  - destruct (run 78) as [[[rc cl'] s']|] eqn:E; [|done]. injection H78 as -> ->. exists (mkClient false 79), s'. split; [done|].
    by destruct (H 78 _ _ _ E) as [Hg|[? _]].
Defined.
