(* ===== verification/TrtSync.v ===== *)
(** * TrtSync: waiting for asynchronous objects in the task runtime
      (trt/async_obj.hh, trt/future.hh, trt/future.cc, trt/waitset.hh,
      trt/waitset.cc, trt/coro_awaitables.hh, trt/scheduler.cc)

    A task waits with its waitset for one of several futures, each a reference to
    an asynchronous object; whoever sets an object's value notifies the futures
    registered with it.  The waiting task and the notifiers run on different
    schedulers and meet in atomic variables and under the object's lock.  The state
    below is that of one waitset with its owner; a step is one access to shared
    memory or one section under a lock, so that any interleaving of the threads is
    a sequence of steps. *)
From Stdlib Require Import ZArith Lia.
From stdpp Require Import base tactics list numbers.
From S2P Require Import Prelude.

Open Scope Z_scope.

(** ** Objects, futures and the waitset *)

(** [ao_refcnt_] counts the writer and the futures; 0 means freed. *)
Record AsyncObj := mkAo { ao_ready : bool; ao_ret : Z; ao_refcnt : Z; ao_futures : list nat }.

(** [f_aobj_] as a number or null, and whether [f_waitset_] is not null. *)
Record Future := mkFuture { f_aobj : option nat; f_waitset : bool; f_registered : bool }.

Inductive ws_state := WS_INITIAL | WS_SCANNING | WS_REDO | WS_WAITING.

#[global] Instance ws_state_eq_dec : EqDecision ws_state.
Proof. solve_decision. Defined.

(** Where [try_wait_] is. *)
Inductive scan :=
  | ScStart                          (** at [nfutures() == 0] *)
  | ScStore                          (** at [redo] *)
  | ScRegistered (todo : list nat)   (** in the loop over the registered futures *)
  | ScUnchecked                      (** at the head of the loop over the unchecked ones *)
  | ScCheck (f : nat)                (** [is_ready] in front of the lock *)
  | ScLock (f : nat)                 (** the section under [ao_lock_] *)
  | ScKeep (f : nat)                 (** [f] was registered *)
  | ScFound (f : nat)                (** [f] is ready and in no list *)
  | ScCompleted (f : nat)            (** the state is stored, [wait_completed] is next *)
  | ScLast.                          (** at the test for [REDO] *)

(** Who called [try_wait_]. *)
Inductive caller := AwaitReady | AwaitSuspend | AwaitResume.

(** Where the owner is; [Running] with what the last wait returned. *)
Inductive owner_pc :=
  | Running (r : option (option nat))
  | Scan (c : caller) (p : scan)
  | CasWaiting                       (** [try_set_state_to_waiting] *)
  | SetCoro                          (** [set_current_coro] *)
  | Asleep.

(** Where a [notify_] is, with the futures left in its list. *)
Inductive notifier :=
  | NUnsub (o : nat) (fl : list nat)            (** [unsubscribe_] at the end of [AsyncObj::set_ready] *)
  | NList (fl : list nat)                       (** the head of the loop *)
  | NLoad (f : nat) (fl : list nat)             (** the load in [Waitset::set_ready] *)
  | NCas (f : nat) (waiting : bool) (fl : list nat)   (** its exchange of [WAITING], or of [SCANNING] *)
  | NPush (fl : list nat)                       (** the owner is to be pushed to a queue *)
  | NDone.

#[global] Instance notifier_eq_dec : EqDecision notifier.
Proof. solve_decision. Defined.

Record trt := mkTrt {
  t_objs : list AsyncObj;
  t_futs : list Future;
  t_state : ws_state;
  t_unchecked : list nat;
  t_registered : list nat;
  t_pc : owner_pc;
  t_queued : nat;                    (** how often the owner is in a run queue *)
  t_notifiers : list notifier
}.

Definition trt_init : trt := mkTrt [] [] WS_INITIAL [] [] (Running None) 0 [].

Definition set_pc (p : owner_pc) (s : trt) : trt :=
  mkTrt (t_objs s) (t_futs s) (t_state s) (t_unchecked s) (t_registered s) p (t_queued s) (t_notifiers s).
Definition set_state (x : ws_state) (s : trt) : trt :=
  mkTrt (t_objs s) (t_futs s) x (t_unchecked s) (t_registered s) (t_pc s) (t_queued s) (t_notifiers s).
Definition set_unchecked (l : list nat) (s : trt) : trt :=
  mkTrt (t_objs s) (t_futs s) (t_state s) l (t_registered s) (t_pc s) (t_queued s) (t_notifiers s).
Definition set_registered (l : list nat) (s : trt) : trt :=
  mkTrt (t_objs s) (t_futs s) (t_state s) (t_unchecked s) l (t_pc s) (t_queued s) (t_notifiers s).
Definition set_queued (n : nat) (s : trt) : trt :=
  mkTrt (t_objs s) (t_futs s) (t_state s) (t_unchecked s) (t_registered s) (t_pc s) n (t_notifiers s).
Definition set_notifiers (l : list notifier) (s : trt) : trt :=
  mkTrt (t_objs s) (t_futs s) (t_state s) (t_unchecked s) (t_registered s) (t_pc s) (t_queued s) l.
Definition alter_obj (g : AsyncObj -> AsyncObj) (o : nat) (s : trt) : trt :=
  mkTrt (alter g o (t_objs s)) (t_futs s) (t_state s) (t_unchecked s) (t_registered s) (t_pc s) (t_queued s) (t_notifiers s).
Definition alter_fut (g : Future -> Future) (f : nat) (s : trt) : trt :=
  mkTrt (t_objs s) (alter g f (t_futs s)) (t_state s) (t_unchecked s) (t_registered s) (t_pc s) (t_queued s) (t_notifiers s).

(** The object a future refers to. *)
Definition obj_of (s : trt) (f : nat) : option nat := t_futs s !! f ≫= f_aobj.
Definition aobj (s : trt) (o : nat) : AsyncObj := default (mkAo false 0 0 []) (t_objs s !! o).

Definition add_ref (d : Z) (a : AsyncObj) : AsyncObj := mkAo (ao_ready a) (ao_ret a) (ao_refcnt a + d) (ao_futures a).
Definition set_futures (l : list nat) (a : AsyncObj) : AsyncObj := mkAo (ao_ready a) (ao_ret a) (ao_refcnt a) l.
Definition null_waitset (f : Future) : Future := mkFuture (f_aobj f) false (f_registered f).
Definition null_aobj (f : Future) : Future := mkFuture None (f_waitset f) (f_registered f).
Definition set_flag (b : bool) (f : Future) : Future := mkFuture (f_aobj f) (f_waitset f) b.

Inductive crash :=
  | NullWaitset      (** a member function called on a null [f_waitset_] *)
  | StaleCoroutine   (** the owner resumed before its suspension was recorded *)
  | UseAfterFree.    (** an object used that was freed *)

Inductive outcome := Next (s : trt) | Crash (e : crash).

(** What [g] makes of the object that future [f] refers to. *)
Definition on_obj (s : trt) (f : nat) (g : nat -> AsyncObj -> outcome) : outcome :=
  match obj_of s f with
  | Some o => if 0 <? ao_refcnt (aobj s o) then g o (aobj s o) else Crash UseAfterFree
  | None => Crash UseAfterFree
  end.

(** ** The owner *)

(** [try_wait_] returns no future: [WaitAwaitable] suspends, or hands the null
    pointer on. *)
Definition scan_null (c : caller) : owner_pc :=
  match c with AwaitReady | AwaitSuspend => CasWaiting | AwaitResume => Running (Some None) end.

(** [Future::is_ready_or_register], with [f] in hand: the check, the section under
    the lock of the object, the flag. *)
Definition register_step (p : scan) (f : nat) (go : scan -> trt -> outcome) (s : trt) : outcome :=
  match p with
  | ScCheck _ => on_obj s f (fun _ a => if ao_ready a then go (ScFound f) s else go (ScLock f) s)
  | ScLock _ =>
      on_obj s f (fun o a =>
        if ao_ready a then go (ScFound f) s
        else go (ScKeep f) (alter_obj (set_futures (ao_futures a ++ [f])) o s))
  | _ => go ScUnchecked (set_registered (t_registered s ++ [f]) (alter_fut (set_flag true) f s))
  end.

Definition scan_step (c : caller) (p : scan) (s : trt) : outcome :=
  let go p s := Next (set_pc (Scan c p) s) in
  match p with
  | ScStart =>
      if (length (t_unchecked s) + length (t_registered s) =? 0)%nat then Next (set_pc (scan_null c) s) else go ScStore s
  | ScStore => go (ScRegistered (t_registered s)) (set_state WS_SCANNING s)
  | ScRegistered [] => go ScUnchecked s
  | ScRegistered (f :: todo) =>
      on_obj s f (fun _ a =>
        if ao_ready a then go (ScFound f) (set_registered (filter (fun g => g <> f) (t_registered s)) s)
        else go (ScRegistered todo) s)
  | ScUnchecked =>
      match t_unchecked s with
      | [] => go ScLast s
      | f :: l => go (ScCheck f) (set_unchecked l s)
      end
  | ScCheck f | ScLock f | ScKeep f => register_step p f go s
  | ScFound f => go (ScCompleted f) (set_state WS_INITIAL s)
  | ScCompleted f => Next (set_pc (Running (Some (Some f))) (alter_fut null_waitset f s))
  | ScLast => if decide (t_state s = WS_SCANNING) then Next (set_pc (scan_null c) s) else go ScStore s
  end.

(** [weak]: a [compare_exchange_weak] fails although the value is the expected one. *)
Definition owner_step (weak : bool) (s : trt) : option outcome :=
  match t_pc s with
  | Scan c p => Some (scan_step c p s)
  | CasWaiting =>
      Some (Next (if decide (t_state s = WS_SCANNING /\ weak = false) then set_pc SetCoro (set_state WS_WAITING s)
                  else set_pc (Scan AwaitSuspend ScStart) s))
  | SetCoro => Some (Next (set_pc Asleep s))
  | Running _ | Asleep => None
  end.

(** ** A notifier *)

(** [Waitset::set_ready]: the load of the state, then the exchange that fits it. *)
Definition waitset_set_ready (weak : bool) (n : notifier) (f : nat) (fl : list nat) (go : notifier -> trt -> outcome) (s : trt) : outcome :=
  match n with
  | NCas _ true _ =>
      if decide (t_state s = WS_WAITING /\ weak = false) then go (NPush fl) (set_state WS_INITIAL s) else go (NLoad f fl) s
  | NCas _ false _ =>
      if decide (t_state s = WS_SCANNING /\ weak = false) then go (NList fl) (set_state WS_REDO s) else go (NLoad f fl) s
  | _ =>
      match t_state s with
      | WS_WAITING => go (NCas f true fl) s
      | WS_SCANNING => go (NCas f false fl) s
      | WS_REDO | WS_INITIAL => go (NList fl) s
      end
  end.

(** [Future::set_ready], up to its call of the waitset. *)
Definition future_set_ready (f : nat) (fl : list nat) (go : notifier -> trt -> outcome) (s : trt) : outcome :=
  if default false (f_waitset <$> t_futs s !! f) then go (NLoad f fl) (alter_fut (set_flag false) f s) else Crash NullWaitset.

Definition notifier_step (weak : bool) (n : notifier) (i : nat) (s : trt) : outcome :=
  let go n s := Next (set_notifiers (<[i := n]> (t_notifiers s)) s) in
  match n with
  | NUnsub o fl =>
      if 0 <? ao_refcnt (aobj s o) then go (NList fl) (alter_obj (add_ref (-1)) o s) else Crash UseAfterFree
  | NList [] => go NDone s
  | NList (f :: fl) => future_set_ready f fl go s
  | NLoad f fl | NCas f _ fl => waitset_set_ready weak n f fl go s
  | NPush fl => go (NList fl) (set_queued (S (t_queued s)) s)
  | NDone => Next s
  end.

(** ** The owner's and the writer's calls *)

(** [AsyncObj::allocate]. *)
Definition allocate (s : trt) : trt :=
  mkTrt (t_objs s ++ [mkAo false 0 1 []]) (t_futs s) (t_state s) (t_unchecked s) (t_registered s) (t_pc s) (t_queued s) (t_notifiers s).

(** The constructor of [Future], with [add_future]. *)
Definition new_future (o : nat) (s : trt) : trt :=
  mkTrt (alter (add_ref 1) o (t_objs s)) (t_futs s ++ [mkFuture (Some o) true false]) (t_state s) (t_unchecked s ++ [length (t_futs s)])
    (t_registered s) (t_pc s) (t_queued s) (t_notifiers s).

(** [drop_ref] on a future with object [o]. *)
Definition drop_ref (f o : nat) (s : trt) : outcome :=
  if 0 <? ao_refcnt (aobj s o) then Next (alter_fut null_aobj f (alter_obj (add_ref (-1)) o s)) else Crash UseAfterFree.

(** [AsyncObj::set_ready] under the lock: the value is set and the list of futures
    [fl] taken; the rest of [notify_] is a notifier. *)
Definition set_value (o : nat) (val : Z) (fl : list nat) (s : trt) : trt :=
  set_notifiers (t_notifiers s ++ [NUnsub o fl]) (alter_obj (fun a => mkAo true val (ao_refcnt a) []) o s).

(** ** The system *)

Inductive action :=
  | ANew                               (** [AsyncObj::allocate] *)
  | AAdd (o : nat)                     (** the owner makes a future for an object *)
  | AWait                              (** the owner awaits its waitset *)
  | ADrop (f : nat)                    (** the owner drops a future that it got *)
  | AOwner (weak : bool)
  | ANotify (o : nat) (val : Z)        (** somebody calls [notify_] *)
  | ANotifier (i : nat) (weak : bool)
  | AResume.                           (** a scheduler takes the owner from its queue *)

(** [None]: the action is not possible. *)
Definition exec (a : action) (s : trt) : option outcome :=
  match a, t_pc s with
  | ANew, _ => Some (Next (allocate s))
  | AAdd o, Running _ => if 0 <? ao_refcnt (aobj s o) then Some (Next (new_future o s)) else None
  | AWait, Running _ => Some (Next (set_pc (Scan AwaitReady ScStart) s))
  | ADrop f, Running _ => match t_futs s !! f with Some (mkFuture (Some o) false _) => Some (drop_ref f o s) | _ => None end
  | AOwner weak, _ => owner_step weak s
  | ANotify o val, _ =>
      match t_objs s !! o with
      | Some a => if ao_ready a then None else Some (Next (set_value o val (ao_futures a) s))
      | None => None
      end
  | ANotifier i weak, _ => (fun n => notifier_step weak n i s) <$> t_notifiers s !! i
  | AResume, p =>
      match t_queued s with
      | O => None
      | S q => Some (match p with Asleep => Next (set_pc (Scan AwaitResume ScStart) (set_queued q s)) | _ => Crash StaleCoroutine end)
      end
  | _, _ => None
  end.

Fixpoint exec_all (l : list action) (s : trt) : option outcome :=
  match l with
  | [] => Some (Next s)
  | a :: l' => match exec a s with Some (Next s') => exec_all l' s' | r => r end
  end.

(** The states that any number of threads can bring about. *)
Inductive trt_reachable : trt -> Prop :=
  | reach_init : trt_reachable trt_init
  | reach_step s a s' : trt_reachable s -> exec a s = Some (Next s') -> trt_reachable s'.
