(* ===== verification/TrtSafe.v ===== *)
(** * TrtSafe: what the waitset protocol guarantees

    An invariant of all interleavings: no wake-up is lost, the owner is queued at
    most once, and no object is used after it was freed. *)
From Stdlib Require Import ZArith Lia.
From stdpp Require Import base tactics list numbers.
From S2P Require Import Prelude TrtSync.

Open Scope Z_scope.

(** ** The invariant *)

Definition future_ready (s : trt) (f : nat) : bool :=
  match obj_of s f with Some o => ao_ready (aobj s o) | None => false end.

(** The futures a notifier has still to deal with. *)
Definition n_pending (n : notifier) : list nat :=
  match n with
  | NUnsub _ fl | NList fl | NPush fl => fl
  | NLoad f fl | NCas f _ fl => f :: fl
  | NDone => []
  end.

Definition pending (s : trt) : list nat := t_notifiers s ≫= n_pending.

Definition is_push (n : notifier) : bool := match n with NPush _ => true | _ => false end.
Definition is_unsub (o : nat) (n : notifier) : bool := match n with NUnsub o' _ => bool_decide (o = o') | _ => false end.
Definition refers (o : nat) (fu : Future) : bool := bool_decide (f_aobj fu = Some o).

Definition count {A} (p : A -> bool) (l : list A) : nat := length (filter (fun x => p x = true) l).

(** The future [try_wait_] has in its hands. *)
Definition in_hand (p : owner_pc) : list nat :=
  match p with Scan _ (ScCheck f | ScLock f | ScKeep f | ScFound f | ScCompleted f) => [f] | _ => [] end.

(** The futures that have been registered and not been returned. *)
Definition kept (s : trt) : list nat :=
  t_registered s ++ match t_pc s with Scan _ (ScKeep f) => [f] | _ => [] end.

Definition places (s : trt) : list nat := t_unchecked s ++ t_registered s ++ in_hand (t_pc s).

(** State, sleep and queue. *)
Definition pc_ok (p : owner_pc) (x : ws_state) (q : nat) : Prop :=
  match p with
  | Running _ | CasWaiting | Scan _ (ScStart | ScStore) => x <> WS_WAITING /\ q = 0%nat
  | Scan _ (ScCompleted _) => x = WS_INITIAL /\ q = 0%nat
  | Scan _ _ => (x = WS_SCANNING \/ x = WS_REDO) /\ q = 0%nat
  | SetCoro | Asleep => x = WS_WAITING /\ q = 0%nat \/ x = WS_INITIAL /\ q = 1%nat
  end.

(** A future that is ready and that nobody will notify any more is noticed. *)
Definition noticed (p : owner_pc) (x : ws_state) (f : nat) : Prop :=
  match p with
  | Running _ | Scan _ (ScStart | ScStore | ScFound _ | ScCompleted _) => True
  | Scan _ (ScRegistered todo) => f ∈ todo \/ x = WS_REDO
  | Scan _ _ => x = WS_REDO
  | CasWaiting => x <> WS_SCANNING
  | SetCoro | Asleep => x <> WS_WAITING
  end.

Record trt_inv (s : trt) : Prop := {
  ti_pc : pc_ok (t_pc s) (t_state s) (t_queued s + count is_push (t_notifiers s));
  ti_places : NoDup (places s);
  ti_linked : forall f, f ∈ places s -> exists fu, t_futs s !! f = Some fu /\ f_waitset fu = true /\ is_Some (f_aobj fu);
  ti_objs : forall f fu o, t_futs s !! f = Some fu -> f_aobj fu = Some o -> is_Some (t_objs s !! o);
  ti_unsub : forall n o fl, n ∈ t_notifiers s -> n = NUnsub o fl -> is_Some (t_objs s !! o);
  ti_refs : forall o a, t_objs s !! o = Some a ->
    ao_refcnt a = Z.of_nat (count (refers o) (t_futs s) + count (is_unsub o) (t_notifiers s)) + (if ao_ready a then 0 else 1);
  ti_kept : forall f o, f ∈ kept s -> obj_of s f = Some o -> ao_ready (aobj s o) = false -> f ∈ ao_futures (aobj s o);
  ti_noticed : forall f, f ∈ kept s -> future_ready s f = true -> f ∉ pending s -> noticed (t_pc s) (t_state s) f;
  ti_todo : forall c todo, t_pc s = Scan c (ScRegistered todo) -> todo ⊆ t_registered s;
  ti_found : forall f c p, t_pc s = Scan c p -> p = ScFound f \/ p = ScCompleted f -> future_ready s f = true;
  ti_result : forall f, t_pc s = Running (Some (Some f)) -> is_Some (t_futs s !! f) /\ (obj_of s f = None \/ future_ready s f = true)
}.

Lemma trt_init_inv : trt_inv trt_init.
Proof.
  split; try done; intros; match goal with H : _ ∈ _ |- _ => by apply elem_of_nil in H | _ => constructor end.
Qed.

(** ** Counting *)

Lemma count_app {A} (p : A -> bool) l1 l2 : count p (l1 ++ l2) = (count p l1 + count p l2)%nat.
Proof. unfold count. by rewrite list.filter_app, length_app. Qed.

Lemma count_insert {A} (p : A -> bool) l : forall i x y, l !! i = Some x ->
  (count p (<[i := y]> l) + (if p x then 1 else 0) = count p l + (if p y then 1 else 0))%nat.
Proof.
  unfold count. induction l as [|z l IH]; intros i x y Hi; [done|]. destruct i as [|i].
  - injection Hi as ->. change (<[0%nat := y]> (x :: l)) with (y :: l). rewrite !filter_cons.
    destruct (p x) eqn:Ex, (p y) eqn:Ey; repeat case_decide; simpl; congruence || lia.
  - change (<[S i := y]> (z :: l)) with (z :: <[i := y]> l). specialize (IH i x y Hi). rewrite !filter_cons.
    destruct (decide (p z = true)); simpl; lia.
Qed.

Lemma count_pos {A} (p : A -> bool) l x : x ∈ l -> p x = true -> (0 < count p l)%nat.
Proof.
  intros Hx Hp. unfold count. destruct (filter (fun x => p x = true) l) eqn:E; [|simpl; lia].
  assert (x ∈ filter (fun x => p x = true) l) as H by (by apply list_elem_of_filter). rewrite E in H. by apply elem_of_nil in H.
Qed.

Lemma count_singleton {A} (p : A -> bool) x : count p [x] = if p x then 1%nat else 0%nat.
Proof. unfold count. rewrite filter_cons. case_decide as E; [by rewrite E|]. by destruct (p x). Qed.

Lemma count_none {A} (p : A -> bool) l : (forall x, x ∈ l -> p x = false) -> count p l = 0%nat.
Proof.
  unfold count. intros H. induction l as [|x l IH]; [done|]. rewrite filter_cons, H by left. rewrite decide_False by done. apply IH.
  intros y Hy. apply H. by right.
Qed.

Lemma alter_insert {A} (g : A -> A) (l : list A) i x : l !! i = Some x -> alter g i l = <[i := g x]> l.
Proof.
  revert i. induction l as [|y l IH]; intros [|i] Hi; try done; [by injection Hi as ->|].
  change (y :: alter g i l = y :: <[i := g x]> l). by rewrite IH.
Qed.

Lemma count_alter {A} (p : A -> bool) (g : A -> A) l i : (forall x, p (g x) = p x) -> count p (alter g i l) = count p l.
Proof.
  intros Hg. unfold count. revert i. induction l as [|y l IH]; intros [|i]; try done.
  - change (alter g 0%nat (y :: l)) with (g y :: l). rewrite !filter_cons, Hg. by destruct (decide (p y = true)).
  - change (alter g (S i) (y :: l)) with (y :: alter g i l). rewrite !filter_cons. specialize (IH i).
    destruct (decide (p y = true)); simpl; lia.
Qed.

(** ** Objects and futures under updates *)

Lemma aobj_alter g o s o' : is_Some (t_objs s !! o) ->
  aobj (alter_obj g o s) o' = if decide (o' = o) then g (aobj s o) else aobj s o'.
Proof.
  intros [a Ha]. unfold aobj, alter_obj. cbn [t_objs]. rewrite (alter_insert g _ _ _ Ha). case_decide as E.
  - subst o'. rewrite list_lookup_insert_eq by (by eapply lookup_lt_Some). by rewrite Ha.
  - by rewrite list_lookup_insert_ne.
Qed.

Lemma aobj_refs d o s o' : is_Some (t_objs s !! o) ->
  ao_ready (aobj (alter_obj (add_ref d) o s) o') = ao_ready (aobj s o') /\
  ao_futures (aobj (alter_obj (add_ref d) o s) o') = ao_futures (aobj s o').
Proof. intros Ho. rewrite aobj_alter by done. case_decide; [by subst|done]. Qed.

Lemma obj_of_alter g f s f' : (forall fu, f_aobj (g fu) = f_aobj fu) -> obj_of (alter_fut g f s) f' = obj_of s f'.
Proof.
  intros Hg. unfold obj_of, alter_fut. cbn [t_futs]. destruct (decide (f' = f)) as [->|Hne].
  - rewrite list_lookup_alter_eq. destruct (t_futs s !! f) as [fu|]; [|done]. apply Hg.
  - by rewrite list_lookup_alter_ne.
Qed.

Lemma obj_of_in s f : f ∈ places s -> trt_inv s -> exists o a, obj_of s f = Some o /\ t_objs s !! o = Some a /\ 0 < ao_refcnt a.
Proof.
  intros Hf Hi. destruct (ti_linked s Hi f Hf) as (fu & Hfu & _ & o & Ho). destruct (ti_objs s Hi f fu o Hfu Ho) as [a Ha].
  exists o, a. split; [unfold obj_of; by rewrite Hfu|]. split; [done|]. rewrite (ti_refs s Hi o a Ha).
  pose proof (count_pos (refers o) (t_futs s) fu ltac:(by eapply list_elem_of_lookup_2) ltac:(by apply bool_decide_eq_true_2)).
  destruct (ao_ready a); lia.
Qed.

Lemma aobj_lookup s o a : t_objs s !! o = Some a -> aobj s o = a.
Proof. intros Ha. unfold aobj. by rewrite Ha. Qed.

(** ** Steps of the owner *)

(** Steps that change nothing but the owner's place, its lists, its queue and the
    state. *)
Lemma owner_moves s x un re p q : trt_inv s ->
  let s' := mkTrt (t_objs s) (t_futs s) x un re p q (t_notifiers s) in
  pc_ok p x (q + count is_push (t_notifiers s)) ->
  NoDup (places s') -> places s' ⊆ places s -> kept s' ⊆ kept s ->
  (forall f, f ∈ kept s' -> future_ready s f = true -> f ∉ pending s -> noticed p x f) ->
  (forall c todo, p = Scan c (ScRegistered todo) -> todo ⊆ re) ->
  (forall f c r, p = Scan c r -> r = ScFound f \/ r = ScCompleted f -> future_ready s f = true) ->
  (forall f, p = Running (Some (Some f)) -> is_Some (t_futs s !! f) /\ (obj_of s f = None \/ future_ready s f = true)) ->
  trt_inv s'.
Proof.
  intros Hi s' Hpc Hnd Hpl Hk Hno Ht Hf Hr. split; try done.
  - intros f Hin. by apply (ti_linked s Hi), Hpl.
  - apply (ti_objs s Hi).
  - apply (ti_unsub s Hi).
  - apply (ti_refs s Hi).
  - intros f o Hin. by apply (ti_kept s Hi), Hk.
Qed.

(** Changes to a future that leave its object, and its waitset while it is in it. *)
Lemma fut_altered s g f : trt_inv s -> (forall fu, f_aobj (g fu) = f_aobj fu) ->
  (f ∈ places s -> forall fu, f_waitset (g fu) = f_waitset fu) -> trt_inv (alter_fut g f s).
Proof.
  intros Hi Hga Hgw. set (s' := alter_fut _ _ _). assert (forall f', obj_of s' f' = obj_of s f') as Ho by (intros; by apply obj_of_alter).
  assert (forall f', future_ready s' f' = future_ready s f') as Hr by (intros f'; unfold future_ready; by rewrite Ho).
  assert (forall f' fu, t_futs s' !! f' = Some fu -> exists fu0, t_futs s !! f' = Some fu0 /\ f_aobj fu = f_aobj fu0) as Hl.
  { intros f' fu. unfold s', alter_fut. cbn [t_futs]. destruct (decide (f' = f)) as [->|Hne].
    - rewrite list_lookup_alter_eq. destruct (t_futs s !! f) as [fu0|]; [|done]. intros [= <-]. exists fu0. by rewrite Hga.
    - rewrite list_lookup_alter_ne by done. intros H. by exists fu. }
  split; try apply Hi.
  - intros f' Hf'. destruct (ti_linked s Hi f' Hf') as (fu & Hfu & Hw & Hs). unfold s', alter_fut. cbn [t_futs].
    destruct (decide (f' = f)) as [->|Hne].
    + rewrite list_lookup_alter_eq, Hfu. exists (g fu). by rewrite Hga, Hgw.
    + rewrite list_lookup_alter_ne by done. by exists fu.
  - intros f' fu o Hfu Hao. destruct (Hl f' fu Hfu) as (fu0 & Hfu0 & He). apply (ti_objs s Hi f' fu0 o Hfu0). congruence.
  - intros o a Ha. rewrite (ti_refs s Hi o a Ha). do 3 f_equal. symmetry. apply count_alter.
    intros fu. unfold refers. by rewrite Hga.
  - intros f' o Hk Hf. rewrite Ho in Hf. by apply (ti_kept s Hi).
  - intros f' Hk Hrd. rewrite Hr in Hrd. by apply (ti_noticed s Hi).
  - intros f' c p. rewrite Hr. apply (ti_found s Hi).
  - intros f' Hp. rewrite Hr, Ho. destruct (ti_result s Hi f' Hp) as [Hs H]. split; [|done].
    apply lookup_lt_is_Some. unfold s', alter_fut. cbn [t_futs]. rewrite length_alter. by apply lookup_lt_is_Some.
Qed.

Lemma kept_places s : kept s ⊆ places s.
Proof.
  intros f. unfold kept, places. rewrite !elem_of_app. intros [Hf|Hf]; [tauto|]. destruct (t_pc s) as [| c p| | |]; try by apply elem_of_nil in Hf.
  destruct p; try by apply elem_of_nil in Hf. tauto.
Qed.

Lemma hand_places s f : f ∈ in_hand (t_pc s) -> f ∈ places s.
Proof. intros Hf. unfold places. rewrite !elem_of_app. tauto. Qed.

(** Steps that change the owner's place only, from one with nothing in hand to
    another. *)
Lemma pc_moves s p q : trt_inv s -> t_pc s = p -> in_hand p = in_hand q -> (forall c f, q <> Scan c (ScKeep f)) ->
  pc_ok q (t_state s) (t_queued s + count is_push (t_notifiers s)) ->
  (forall f, f ∈ t_registered s -> future_ready s f = true -> f ∉ pending s -> noticed q (t_state s) f) ->
  (forall c todo, q = Scan c (ScRegistered todo) -> todo ⊆ t_registered s) ->
  (forall f c r, q = Scan c r -> r = ScFound f \/ r = ScCompleted f -> future_ready s f = true) ->
  (forall f, q <> Running (Some (Some f))) -> trt_inv (set_pc q s).
Proof.
  intros Hi Hp Hh Hk Hpc Hno Ht Hf Hr. assert (kept (set_pc q s) = t_registered s) as Hkq.
  { unfold kept. cbn [t_registered t_pc set_pc]. destruct q as [| c r| | |]; try apply app_nil_r. destruct r; try apply app_nil_r. by destruct (Hk c f). }
  assert (places (set_pc q s) = places s) as Hpl by (unfold places; cbn [t_unchecked t_registered t_pc set_pc]; by rewrite Hp, Hh).
  apply (owner_moves s (t_state s) (t_unchecked s) (t_registered s) q (t_queued s) Hi Hpc).
  - fold (set_pc q s). rewrite Hpl. apply (ti_places s Hi).
  - fold (set_pc q s). by rewrite Hpl.
  - fold (set_pc q s). rewrite Hkq. unfold kept. intros f Hin. apply elem_of_app. by left.
  - fold (set_pc q s). by rewrite Hkq.
  - done.
  - done.
  - intros f E. by destruct (Hr f).
Qed.

(** A step that keeps the invariant and does not crash. *)
Definition step_keeps (r : outcome) : Prop := match r with Next s' => trt_inv s' | Crash _ => False end.

(** What a future's object is asked is asked of an object that is there. *)
Lemma on_obj_keeps s f g : trt_inv s -> f ∈ places s ->
  (forall o a, obj_of s f = Some o -> t_objs s !! o = Some a -> future_ready s f = ao_ready a -> step_keeps (g o a)) ->
  step_keeps (on_obj s f g).
Proof.
  intros Hi Hf Hg. destruct (obj_of_in s f Hf Hi) as (o & a & Ho & Ha & Hpos). unfold on_obj. rewrite Ho, (aobj_lookup s o a Ha).
  rewrite (proj2 (Z.ltb_lt 0 _)) by done. apply Hg; [done..|]. unfold future_ready. by rewrite Ho, (aobj_lookup s o a Ha).
Qed.

(** The scan looks at an object. *)
Lemma on_obj_next s f g s' : on_obj s f g = Next s' -> exists o, obj_of s f = Some o /\ g o (aobj s o) = Next s' /\ future_ready s f = ao_ready (aobj s o).
Proof.
  unfold on_obj, future_ready. destruct (obj_of s f) as [o|]; [|done]. destruct (0 <? _); [|done]. intros H. by exists o.
Qed.

Lemma filter_absent (l : list nat) f : f ∉ l -> filter (fun g => g <> f) l = l.
Proof.
  induction l as [|x l IH]; intros Hf; [done|]. apply not_elem_of_cons in Hf as [Hx Hf]. rewrite filter_cons, decide_True by congruence.
  by rewrite IH.
Qed.

Lemma taken_out (l : list nat) f : NoDup l -> f ∈ l -> filter (fun g => g <> f) l ++ [f] ≡ₚ l.
Proof.
  induction l as [|x l IH]; intros Hnd Hf; [by apply elem_of_nil in Hf|]. apply list.NoDup_cons in Hnd as [Hx Hnd].
  rewrite filter_cons. case_decide as Hx'.
  - cbn [app]. f_equiv. apply IH; [done|]. by apply elem_of_cons in Hf as [->|Hf].
  - assert (x = f) as -> by (by destruct (decide (x = f))). rewrite filter_absent by done. by rewrite Permutation_app_comm.
Qed.

Lemma scan_registered s c f todo : trt_inv s -> t_pc s = Scan c (ScRegistered (f :: todo)) ->
  step_keeps (scan_step c (ScRegistered (f :: todo)) s).
Proof.
  intros Hi Hp. pose proof (ti_pc s Hi) as Hpc. rewrite Hp in Hpc. pose proof (ti_todo s Hi _ _ Hp) as Htodo.
  assert (f ∈ t_registered s) as Hf by (apply Htodo; left).
  assert (f ∈ places s) as Hpl by (unfold places; rewrite !elem_of_app; tauto).
  cbn [scan_step register_step]. apply on_obj_keeps; [done..|]. intros o a Ho Ha Hrd. destruct (ao_ready a) eqn:Er.
  - set (s' := set_pc (Scan c (ScFound f)) (set_registered (filter (fun g => g <> f) (t_registered s)) s)).
    assert (places s' ≡ₚ places s) as Hperm.
    { unfold places, s'. cbn [t_unchecked t_registered t_pc set_pc set_registered in_hand]. rewrite Hp. cbn [in_hand]. rewrite app_nil_r.
      apply Permutation_app_head. pose proof (ti_places s Hi) as Hnd. unfold places in Hnd.
      apply list.NoDup_app in Hnd as (_ & _ & Hnd). apply list.NoDup_app in Hnd as (Hnd & _ & _). by apply taken_out. }
    apply (owner_moves s (t_state s) (t_unchecked s) (filter (fun g => g <> f) (t_registered s)) (Scan c (ScFound f)) (t_queued s) Hi); try done.
    + change (NoDup (places s')). rewrite Hperm. apply (ti_places s Hi).
    + change (places s' ⊆ places s). by rewrite Hperm.
    + intros g Hg. unfold kept in *. cbn [t_registered t_pc] in Hg. rewrite app_nil_r in Hg. apply list_elem_of_filter in Hg as [_ Hg].
      apply elem_of_app. by left.
    + intros g c' q [= <- <-] [[= <-]|?]; [done|done].
  - apply (pc_moves s (Scan c (ScRegistered (f :: todo)))); try done.
    + intros g Hg Hgr Hgp. pose proof (ti_noticed s Hi g ltac:(apply elem_of_app; by left) Hgr Hgp) as Hn. rewrite Hp in Hn.
      cbn [noticed] in *. destruct Hn as [Hn|Hn]; [|by right]. apply elem_of_cons in Hn as [->|Hn]; [congruence|by left].
    + intros c' todo' [= <- <-] g Hg. apply Htodo. by right.
    + intros g c' q [= <- <-] [?|?]; done.
Qed.

Lemma scan_unchecked s c : trt_inv s -> t_pc s = Scan c ScUnchecked -> step_keeps (scan_step c ScUnchecked s).
Proof.
  intros Hi Hp. pose proof (ti_pc s Hi) as Hpc. rewrite Hp in Hpc. cbn [scan_step register_step].
  assert (forall f, f ∈ kept s -> future_ready s f = true -> f ∉ pending s -> t_state s = WS_REDO) as Hredo.
  { intros f Hf Hr Hn. pose proof (ti_noticed s Hi f Hf Hr Hn) as H. by rewrite Hp in H. }
  destruct (t_unchecked s) as [|f l] eqn:Eu.
  - apply (pc_moves s (Scan c ScUnchecked)); try done.
    + intros f Hf. apply Hredo, elem_of_app. by left.
    + intros g c' q [= <- <-] [?|?]; done.
  - assert (l ++ t_registered s ++ [f] ≡ₚ places s) as Hperm.
    { unfold places. rewrite Hp, Eu. cbn [in_hand]. by rewrite app_nil_r, app_assoc, Permutation_app_comm. }
    apply (owner_moves s (t_state s) l (t_registered s) (Scan c (ScCheck f)) (t_queued s) Hi); try done.
    + change (NoDup (l ++ t_registered s ++ [f])). rewrite Hperm. apply (ti_places s Hi).
    + change (l ++ t_registered s ++ [f] ⊆ places s). by rewrite Hperm.
    + unfold kept. cbn [t_registered t_pc]. rewrite Hp. done.
    + intros g Hg. apply Hredo. unfold kept in *. cbn [t_registered t_pc] in Hg. by rewrite Hp.
    + intros g c' q [= <- <-] [?|?]; done.
Qed.

(** Looking at the future in hand, in front of the lock and under it. *)
Lemma scan_check s c f : trt_inv s -> t_pc s = Scan c (ScCheck f) \/ t_pc s = Scan c (ScLock f) ->
  (future_ready s f = true -> trt_inv (set_pc (Scan c (ScFound f)) s)) /\ trt_inv (set_pc (Scan c (ScLock f)) s).
Proof.
  intros Hi Hp. pose proof (ti_pc s Hi) as Hpc. split.
  - intros Hr. apply (pc_moves s (t_pc s)); try done.
    + by destruct Hp as [-> | ->].
    + destruct Hp as [Hp | Hp]; rewrite Hp in Hpc; apply Hpc.
    + intros g c' q [= <- <-] [[= <-]|?]; done.
  - apply (pc_moves s (t_pc s)); try done.
    + by destruct Hp as [-> | ->].
    + destruct Hp as [Hp | Hp]; rewrite Hp in Hpc; apply Hpc.
    + intros g Hg Hr Hn. pose proof (ti_noticed s Hi g ltac:(apply elem_of_app; by left) Hr Hn) as H.
      destruct Hp as [Hp | Hp]; by rewrite Hp in H.
    + intros g c' q [= <- <-] [?|?]; done.
Qed.

(** Registering a future with its object. *)
Lemma scan_register s c f o a : trt_inv s -> t_pc s = Scan c (ScLock f) -> obj_of s f = Some o -> t_objs s !! o = Some a ->
  ao_ready a = false -> trt_inv (set_pc (Scan c (ScKeep f)) (alter_obj (set_futures (ao_futures a ++ [f])) o s)).
Proof.
  intros Hi Hp Ho Ha Hr. set (s' := set_pc _ _). pose proof (ti_pc s Hi) as Hpc. rewrite Hp in Hpc.
  assert (forall o', ao_ready (aobj s' o') = ao_ready (aobj s o')) as Hrd.
  { intros o'. change (aobj s' o') with (aobj (alter_obj (set_futures (ao_futures a ++ [f])) o s) o').
    rewrite aobj_alter by done. case_decide; [by subst|done]. }
  assert (forall f', future_ready s' f' = future_ready s f') as Hfr by (intros f'; unfold future_ready; change (obj_of s' f') with (obj_of s f'); destruct (obj_of s f'); [apply Hrd|done]).
  assert (forall g, g ∈ kept s' -> g ∈ kept s \/ g = f) as Hkept.
  { intros g. unfold kept. cbn [s' t_registered t_pc set_pc]. rewrite Hp, !elem_of_app, list_elem_of_singleton. tauto. }
  split; try apply Hi; try done.
  - pose proof (ti_places s Hi) as H. unfold places in *. by rewrite Hp in H.
  - intros g Hg. apply (ti_linked s Hi). unfold places in *. rewrite Hp. exact Hg.
  - intros g fu o' Hfu Hao. unfold s', alter_obj, set_pc. cbn [t_objs]. apply lookup_lt_is_Some. rewrite length_alter.
    apply lookup_lt_is_Some. by apply (ti_objs s Hi g fu).
  - intros n o' fl Hn E. unfold s', alter_obj, set_pc. cbn [t_objs]. apply lookup_lt_is_Some. rewrite length_alter.
    apply lookup_lt_is_Some. by apply (ti_unsub s Hi n o' fl).
  - intros o' a' Ha'. unfold s', alter_obj, set_pc in Ha'. cbn [t_objs] in Ha'. destruct (decide (o' = o)) as [->|Hne].
    + rewrite list_lookup_alter_eq, Ha in Ha'. injection Ha' as <-. apply (ti_refs s Hi o a Ha).
    + rewrite list_lookup_alter_ne in Ha' by done. apply (ti_refs s Hi o' a' Ha').
  - intros g o' Hg Hgo. change (obj_of s' g) with (obj_of s g) in Hgo. rewrite Hrd. intros Hr'.
    change (aobj s' o') with (aobj (alter_obj (set_futures (ao_futures a ++ [f])) o s) o'). rewrite aobj_alter by done.
    destruct (Hkept g Hg) as [Hk| ->].
    + pose proof (ti_kept s Hi g o' Hk Hgo Hr') as Hin. case_decide as E; [|done]. subst o'. cbn [ao_futures set_futures].
      rewrite (aobj_lookup s o a Ha) in Hin. apply elem_of_app. by left.
    + rewrite Ho in Hgo. injection Hgo as <-. rewrite decide_True by done. apply elem_of_app. right. by apply list_elem_of_singleton.
  - intros g Hg. rewrite Hfr. intros Hgr Hn. destruct (Hkept g Hg) as [Hk| ->].
    + pose proof (ti_noticed s Hi g Hk Hgr Hn) as H. by rewrite Hp in H.
    + unfold future_ready in Hgr. rewrite Ho, (aobj_lookup s o a Ha), Hr in Hgr. done.
  - intros g c' q [= <- <-] [?|?]; done.
Qed.

Lemma scan_keep s c f : trt_inv s -> t_pc s = Scan c (ScKeep f) -> step_keeps (scan_step c (ScKeep f) s).
Proof.
  intros Hi Hp. pose proof (ti_pc s Hi) as Hpc. rewrite Hp in Hpc. cbn [scan_step register_step step_keeps].
  apply (fut_altered (set_pc (Scan c ScUnchecked) (set_registered (t_registered s ++ [f]) s)) (set_flag true) f); [|done|done].
  assert (kept s = t_registered s ++ [f]) as Hk by (unfold kept; by rewrite Hp).
  apply (owner_moves s (t_state s) (t_unchecked s) (t_registered s ++ [f]) (Scan c ScUnchecked) (t_queued s) Hi); try done.
  - pose proof (ti_places s Hi) as H. unfold places in *. rewrite Hp in H. cbn [t_unchecked t_registered t_pc in_hand] in *. by rewrite app_nil_r.
  - unfold places. rewrite Hp. cbn [t_unchecked t_registered t_pc in_hand]. by rewrite app_nil_r.
  - rewrite Hk. unfold kept. cbn [t_registered t_pc]. by rewrite app_nil_r.
  - intros g Hg Hr Hn. assert (g ∈ kept s) as Hg' by (unfold kept in Hg; cbn [t_registered t_pc] in Hg; by rewrite app_nil_r, <- Hk in Hg).
    pose proof (ti_noticed s Hi g Hg' Hr Hn) as H. by rewrite Hp in H.
  - intros g c' q [= <- <-] [?|?]; done.
Qed.

Lemma scan_completed s c f : trt_inv s -> t_pc s = Scan c (ScCompleted f) -> step_keeps (scan_step c (ScCompleted f) s).
Proof.
  intros Hi Hp. pose proof (ti_pc s Hi) as Hpc. rewrite Hp in Hpc. destruct Hpc as [Hst Hq]. cbn [scan_step register_step step_keeps].
  pose proof (ti_places s Hi) as Hnd. unfold places in Hnd. rewrite Hp, app_assoc in Hnd. cbn [in_hand] in Hnd.
  apply list.NoDup_app in Hnd as (Hnd & Hx & _). set (s1 := set_pc (Running (Some (Some f))) s).
  assert (places s1 = t_unchecked s ++ t_registered s) as Hpl by (unfold places; cbn [s1 set_pc t_unchecked t_registered t_pc in_hand]; by rewrite app_nil_r).
  assert (f ∉ places s1) as Hf by (rewrite Hpl; intros H; apply (Hx f H); by apply list_elem_of_singleton).
  apply (fut_altered s1 null_waitset f); [|done|intros H; by destruct Hf].
  apply (owner_moves s (t_state s) (t_unchecked s) (t_registered s) (Running (Some (Some f))) (t_queued s) Hi); try done.
  - split; [by rewrite Hst|done].
  - change (NoDup (places s1)). by rewrite Hpl.
  - change (places s1 ⊆ places s). rewrite Hpl. unfold places. intros g. rewrite !elem_of_app. tauto.
  - unfold kept. rewrite Hp. done.
  - intros g [= <-]. split; [|right; apply (ti_found s Hi f c _ Hp); by right].
    destruct (ti_linked s Hi f) as (fu & Hfu & _); [|by exists fu].
    apply (hand_places s f). rewrite Hp. by apply list_elem_of_singleton.
Qed.

Lemma kept_noticed s f p : trt_inv s -> t_pc s = p -> f ∈ t_registered s -> future_ready s f = true -> f ∉ pending s ->
  noticed p (t_state s) f.
Proof. intros Hi <- Hf Hr Hn. apply (ti_noticed s Hi f); [apply elem_of_app; by left|done..]. Qed.

(** Storing the state, at the start of a scan and for a future that was found. *)
Lemma scan_stores s c p : trt_inv s -> t_pc s = Scan c p -> p = ScStore \/ (exists f, p = ScFound f) -> step_keeps (scan_step c p s).
Proof.
  intros Hi Hp Hw. pose proof (ti_pc s Hi) as Hpc. pose proof (ti_places s Hi) as Hnd. rewrite Hp in Hpc. destruct Hw as [->|[f ->]].
  - apply (owner_moves s WS_SCANNING (t_unchecked s) (t_registered s) (Scan c (ScRegistered (t_registered s))) (t_queued s) Hi); try done.
    + split; [by left|apply Hpc].
    + unfold places in *. by rewrite Hp in Hnd.
    + unfold places. by rewrite Hp.
    + unfold kept. by rewrite Hp.
    + intros f Hf _ _. left. unfold kept in Hf. cbn [t_registered t_pc] in Hf. by rewrite app_nil_r in Hf.
    + by intros c' todo [= _ <-].
    + intros f c' r [= <- <-] [?|?]; done.
  - apply (owner_moves s WS_INITIAL (t_unchecked s) (t_registered s) (Scan c (ScCompleted f)) (t_queued s) Hi); try done.
    + split; [done|apply Hpc].
    + unfold places in *. by rewrite Hp in Hnd.
    + unfold places. by rewrite Hp.
    + unfold kept. by rewrite Hp.
    + intros g c' r [= <- <-] [?|[= <-]]; [done|]. apply (ti_found s Hi f c _ Hp). by left.
Qed.

(** The two ends of a scan without a future. *)
Lemma scan_ends s c p : trt_inv s -> t_pc s = Scan c p -> p = ScStart \/ p = ScLast -> step_keeps (scan_step c p s).
Proof.
  intros Hi Hp Hw. pose proof (ti_pc s Hi) as Hpc. pose proof (fun f => kept_noticed s f _ Hi Hp) as Hno. rewrite Hp in Hpc.
  destruct Hw as [-> | ->]; cbn [scan_step register_step].
  - destruct (Nat.eqb_spec (length (t_unchecked s) + length (t_registered s)) 0) as [Hz|_]; apply (pc_moves s (Scan c ScStart)); try done; try (by destruct c).
    + intros f Hf. destruct (t_registered s); [by apply elem_of_nil in Hf|simpl in Hz; lia].
    + intros f c' r [= <- <-] [?|?]; done.
  - case_decide as Hst; apply (pc_moves s (Scan c ScLast)); try done; try (by destruct c).
    + destruct c; (split; [by rewrite Hst|apply Hpc]).
    + intros f Hf Hr Hn. pose proof (Hno f Hf Hr Hn) as H. cbn [noticed] in H. congruence.
    + split; [destruct Hpc as [[?|?] _]; congruence|apply Hpc].
    + intros f c' r [= <- <-] [?|?]; done.
Qed.

Lemma scan_keeps s c p : trt_inv s -> t_pc s = Scan c p -> step_keeps (scan_step c p s).
Proof.
  intros Hi Hp. assert (forall f, in_hand (Scan c p) = [f] -> f ∈ places s) as Hin.
  { intros f E. apply hand_places. rewrite Hp, E. by apply list_elem_of_singleton. }
  destruct p as [| |todo| |f|f|f|f|f|]; eauto using scan_unchecked, scan_keep, scan_completed, scan_stores, scan_ends.
  - destruct todo as [|f todo]; [|by apply scan_registered]. pose proof (ti_pc s Hi) as Hpc. rewrite Hp in Hpc.
    cbn [scan_step register_step]. apply (pc_moves s (Scan c (ScRegistered []))); try done.
    + intros f Hf Hr Hn. destruct (kept_noticed s f _ Hi Hp Hf Hr Hn) as [Hx|Hx]; [by apply elem_of_nil in Hx|done].
    + intros f c' r [= <- <-] [?|?]; done.
  - destruct (scan_check s c f Hi (or_introl Hp)) as [H1 H2]. cbn [scan_step register_step].
    apply on_obj_keeps; [done|by apply Hin|]. intros o a _ _ Hr. destruct (ao_ready a); [by apply H1|done].
  - destruct (scan_check s c f Hi (or_intror Hp)) as [H1 _]. cbn [scan_step register_step].
    apply on_obj_keeps; [done|by apply Hin|]. intros o a Ho Ha Hr. destruct (ao_ready a) eqn:Er; [by apply H1|]. by apply (scan_register s c f o a).
Qed.

(** The owner falls asleep. *)
Lemma owner_keeps s weak r : trt_inv s -> owner_step weak s = Some r -> step_keeps r.
Proof.
  intros Hi. pose proof (ti_pc s Hi) as Hpc. pose proof (fun f p => kept_noticed s f p Hi) as Hno. unfold owner_step.
  destruct (t_pc s) as [r0|c p| | |] eqn:Hp; try done; intros [= <-]; [by apply scan_keeps| |]; cbn [step_keeps].
  - case_decide as Hd; [|apply (pc_moves s CasWaiting); try done; intros f c' q [= <- <-] [?|?]; done].
    destruct Hd as [Hst _]. apply (owner_moves s WS_WAITING (t_unchecked s) (t_registered s) SetCoro (t_queued s) Hi); try done.
    + left. split; [done|apply Hpc].
    + pose proof (ti_places s Hi) as H. unfold places in *. by rewrite Hp in H.
    + unfold places. by rewrite Hp.
    + unfold kept. by rewrite Hp.
    + intros f Hf Hr Hn. unfold kept in Hf. cbn [t_registered t_pc] in Hf. rewrite app_nil_r in Hf.
      by destruct (Hno f _ eq_refl Hf Hr Hn).
  - apply (pc_moves s SetCoro); try done. intros f. apply (Hno f _ eq_refl).
Qed.

(** ** Steps of the notifiers *)

Lemma pending_insert s i n n' f : t_notifiers s !! i = Some n -> f ∈ pending s -> (f ∈ n_pending n -> f ∈ n_pending n') ->
  f ∈ <[i := n']> (t_notifiers s) ≫= n_pending.
Proof.
  intros Hi Hf Hn. apply list_elem_of_bind in Hf as (m & Hin & Hm). apply list_elem_of_lookup_1 in Hm as [j Hj].
  apply list_elem_of_bind. destruct (decide (j = i)) as [->|Hne].
  - rewrite Hi in Hj. injection Hj as <-. exists n'. split; [by apply Hn|].
    apply (list_elem_of_lookup_2 _ i). apply list_lookup_insert_eq. by eapply lookup_lt_Some.
  - exists m. split; [done|]. apply (list_elem_of_lookup_2 _ j). by rewrite list_lookup_insert_ne.
Qed.

Lemma push_insert s i n n' : t_notifiers s !! i = Some n -> is_push n = is_push n' ->
  count is_push (<[i := n']> (t_notifiers s)) = count is_push (t_notifiers s).
Proof. intros Hn E. pose proof (count_insert is_push (t_notifiers s) i n n' Hn) as H. rewrite E in H. lia. Qed.

(** A notifier that leaves the objects and futures. *)
Lemma notifier_moves s i n n' x q : trt_inv s -> t_notifiers s !! i = Some n ->
  (forall o, is_unsub o n = false) -> (forall o, is_unsub o n' = false) ->
  pc_ok (t_pc s) x (q + count is_push (<[i := n']> (t_notifiers s))) ->
  (forall f, f ∈ n_pending n -> f ∉ n_pending n' \/ x <> t_state s -> noticed (t_pc s) x f) ->
  (x <> t_state s -> forall f, noticed (t_pc s) x f) ->
  trt_inv (mkTrt (t_objs s) (t_futs s) x (t_unchecked s) (t_registered s) (t_pc s) q (<[i := n']> (t_notifiers s))).
Proof.
  intros Hi Hn Hu Hu' Hpc Hno Hx. split; try apply Hi; try done.
  - intros m o fl Hm E. cbn [t_notifiers] in Hm. apply list_elem_of_lookup_1 in Hm as [j Hj]. destruct (decide (j = i)) as [->|Hne].
    + rewrite list_lookup_insert_eq in Hj by (by eapply lookup_lt_Some). injection Hj as <-. subst n'.
      specialize (Hu' o). cbn [is_unsub] in Hu'. by rewrite bool_decide_eq_true_2 in Hu'.
    + rewrite list_lookup_insert_ne in Hj by done. apply (ti_unsub s Hi m o fl); [by eapply list_elem_of_lookup_2|done].
  - intros o a Ha. rewrite (ti_refs s Hi o a Ha). cbn [t_notifiers t_futs].
    pose proof (count_insert (is_unsub o) (t_notifiers s) i n n' Hn) as Hc. rewrite Hu, Hu' in Hc. do 2 f_equal. lia.
  - intros f Hf Hr Hp. cbn [t_pc t_state]. destruct (decide (x = t_state s)) as [->|Hne]; [|by apply Hx].
    destruct (decide (f ∈ n_pending n /\ f ∉ n_pending n')) as [[H1 H2]|Hd]; [apply Hno; [done|by left]|].
    apply (ti_noticed s Hi f Hf Hr). intros Hin. apply Hp. apply (pending_insert s i n n' f Hn Hin). intros H1.
    destruct (decide (f ∈ n_pending n')); [done|tauto].
Qed.

Lemma noticed_settled p x q f : pc_ok p x q -> x = WS_REDO \/ x = WS_INITIAL -> noticed p x f.
Proof.
  intros Hpc [-> | ->]; destruct p as [r|c p| | |]; try done; destruct p; cbn [pc_ok noticed] in *; try done; try (by right);
    destruct Hpc as [[?|?] _]; congruence.
Qed.

(** A reference to an object is taken or given back. *)
Lemma counted s d o futs un ns : trt_inv s -> is_Some (t_objs s !! o) ->
  let s' := mkTrt (alter (add_ref d) o (t_objs s)) futs (t_state s) un (t_registered s) (t_pc s) (t_queued s) ns in
  count is_push ns = count is_push (t_notifiers s) -> NoDup (places s') ->
  (forall f, f ∈ places s' -> exists fu, futs !! f = Some fu /\ f_waitset fu = true /\ is_Some (f_aobj fu)) ->
  (forall f fu o, futs !! f = Some fu -> f_aobj fu = Some o -> is_Some (t_objs s !! o)) ->
  (forall n o fl, n ∈ ns -> n = NUnsub o fl -> is_Some (t_objs s !! o)) ->
  (forall o', Z.of_nat (count (refers o') futs + count (is_unsub o') ns) =
     Z.of_nat (count (refers o') (t_futs s) + count (is_unsub o') (t_notifiers s)) + (if decide (o' = o) then d else 0)) ->
  (forall f, f ∈ pending s -> f ∈ pending s') ->
  (forall f, is_Some (t_futs s !! f) -> is_Some (futs !! f) /\ (obj_of s' f = obj_of s f \/ obj_of s' f = None /\ f ∉ places s)) ->
  trt_inv s'.
Proof.
  intros Hi [a0 Ha0] s' Hpush Hnd Hl Hob Hun Hrefs Hpend Hobj.
  assert (forall o', ao_ready (aobj s' o') = ao_ready (aobj s o') /\ ao_futures (aobj s' o') = ao_futures (aobj s o')) as Hao.
  { intros o'. by apply (aobj_refs d o s). }
  assert (forall f, f ∈ places s -> obj_of s' f = obj_of s f) as Hpl.
  { intros f Hf. destruct (ti_linked s Hi f Hf) as (fu & Hfu & _). destruct (Hobj f) as [_ [H|[_ H]]]; [by exists fu|done|done]. }
  assert (forall f, f ∈ places s -> future_ready s' f = future_ready s f) as Hfr.
  { intros f Hf. unfold future_ready. rewrite Hpl by done. destruct (obj_of s f); [apply Hao|done]. }
  assert (forall o', is_Some (t_objs s !! o') -> is_Some (t_objs s' !! o')) as Hsome.
  { intros o' Hs. apply lookup_lt_is_Some. cbn [s' t_objs]. rewrite length_alter. by apply lookup_lt_is_Some. }
  split; try done.
  - cbn [s' t_pc t_state t_queued t_notifiers]. rewrite Hpush. apply (ti_pc s Hi).
  - intros f fu o' Hfu Hf. apply Hsome. by apply (Hob f fu).
  - intros n o' fl Hn E. apply Hsome. by apply (Hun n o' fl).
  - intros o' a' Ha'. cbn [s' t_objs t_futs t_notifiers] in *. rewrite Hrefs. destruct (decide (o' = o)) as [->|Hne].
    + rewrite list_lookup_alter_eq, Ha0 in Ha'. injection Ha' as <-. cbn [ao_refcnt ao_ready add_ref]. rewrite (ti_refs s Hi o a0 Ha0). lia.
    + rewrite list_lookup_alter_ne in Ha' by done. rewrite (ti_refs s Hi o' a' Ha'). lia.
  - intros f o' Hk Hf Hr. rewrite Hpl in Hf by (by apply kept_places). destruct (Hao o') as [H1 H2]. rewrite H1 in Hr. rewrite H2. by apply (ti_kept s Hi).
  - intros f Hk Hr Hp. rewrite Hfr in Hr by (by apply kept_places). apply (ti_noticed s Hi f Hk Hr). intros H. by apply Hp, Hpend.
  - apply (ti_todo s Hi).
  - intros f c p Hpc Hp. rewrite Hfr; [by apply (ti_found s Hi f c p)|]. apply hand_places. change (t_pc s = Scan c p) in Hpc. rewrite Hpc.
    destruct Hp as [-> | ->]; by apply list_elem_of_singleton.
  - intros f Hpc. destruct (ti_result s Hi f Hpc) as [Hs H]. destruct (Hobj f Hs) as [Hs' [Ho|[Ho _]]]; (split; [done|]); [|by left].
    rewrite Ho. destruct H as [H|H]; [by left|]. right. unfold future_ready in *. rewrite Ho. destruct (obj_of s f); [|done]. by rewrite (proj1 (Hao n)).
Qed.

Lemma unsub_keeps s i o fl : trt_inv s -> t_notifiers s !! i = Some (NUnsub o fl) ->
  step_keeps (notifier_step false (NUnsub o fl) i s).
Proof.
  intros Hi Hn. pose proof (list_elem_of_lookup_2 _ _ _ Hn) as Hin. destruct (ti_unsub s Hi _ o fl Hin eq_refl) as [a Ha]. cbn [notifier_step future_set_ready waitset_set_ready].
  pose proof (count_pos (is_unsub o) _ _ Hin ltac:(by apply bool_decide_eq_true_2)) as Hpos.
  rewrite (aobj_lookup s o a Ha), (proj2 (Z.ltb_lt 0 _)) by (rewrite (ti_refs s Hi o a Ha); destruct (ao_ready a); lia).
  apply (counted s (-1) o (t_futs s) (t_unchecked s) (<[i := NList fl]> (t_notifiers s)) Hi); try apply Hi.
  - by exists a.
  - by apply (push_insert s i (NUnsub o fl)).
  - intros m o' fl' Hm E. apply list_elem_of_lookup_1 in Hm as [j Hj]. destruct (decide (j = i)) as [->|Hne].
    + rewrite list_lookup_insert_eq in Hj by (by eapply lookup_lt_Some). injection Hj as <-. done.
    + rewrite list_lookup_insert_ne in Hj by done. apply (ti_unsub s Hi m o' fl'); [by eapply list_elem_of_lookup_2|done].
  - intros o'. pose proof (count_insert (is_unsub o') (t_notifiers s) i _ (NList fl) Hn) as H. cbn [is_unsub] in H.
    destruct (decide (o' = o)) as [->|Hne]; [rewrite bool_decide_eq_true_2 in H by done|rewrite bool_decide_eq_false_2 in H by done]; lia.
  - intros f Hf. by apply (pending_insert s i (NUnsub o fl)).
  - intros f Hf. split; [done|]. by left.
Qed.

(** Both exchanges of the state. *)
Lemma cas_keeps s i f w fl weak : trt_inv s -> t_notifiers s !! i = Some (NCas f w fl) -> step_keeps (notifier_step weak (NCas f w fl) i s).
Proof.
  intros Hi Hn. pose proof (ti_pc s Hi) as Hpc.
  assert (trt_inv (set_notifiers (<[i := NLoad f fl]> (t_notifiers s)) s)) as Hretry.
  { apply (notifier_moves s i (NCas f w fl) (NLoad f fl) (t_state s) (t_queued s)); try done; [|intros g Hg [H|H]; done].
    by rewrite (push_insert s i (NCas f w fl)). }
  destruct w; cbn [notifier_step future_set_ready waitset_set_ready]; case_decide as Hd; [|exact Hretry| |exact Hretry]; destruct Hd as [Est _]; rewrite Est in Hpc.
  - assert (t_pc s = SetCoro \/ t_pc s = Asleep) as Hp by (destruct (t_pc s) as [r|c p| | |]; try tauto; [|destruct p|]; destruct Hpc as [Hpc _]; (congruence || destruct Hpc; congruence)).
    pose proof (count_insert is_push (t_notifiers s) i _ (NPush fl) Hn) as Hc. cbn [is_push] in Hc.
    assert (pc_ok (t_pc s) WS_INITIAL (t_queued s + count is_push (<[i:=NPush fl]> (t_notifiers s)))) as Hpc'.
    { destruct Hp as [Hp|Hp]; rewrite Hp in *; destruct Hpc as [[_ Hz]|[? _]]; [right; split; [done|lia]|done|right; split; [done|lia]|done]. }
    apply (notifier_moves s i (NCas f true fl) (NPush fl) WS_INITIAL (t_queued s)); try done; intros; eapply noticed_settled; try done; tauto.
  - assert (pc_ok (t_pc s) WS_REDO (t_queued s + count is_push (<[i:=NList fl]> (t_notifiers s)))) as Hpc'.
    { rewrite (push_insert s i (NCas f false fl)) by done.
      destruct (t_pc s) as [r|c p| | |]; [by destruct Hpc|destruct p; destruct Hpc; (try done); split; (try done); by right|by destruct Hpc|by destruct Hpc as [[]|[]]..]. }
    apply (notifier_moves s i (NCas f false fl) (NList fl) WS_REDO (t_queued s)); try done; intros; eapply noticed_settled; try done; tauto.
Qed.

(** A step that keeps the invariant, or the null pointer of a future that was returned. *)
Definition guarded (r : outcome) : Prop := match r with Next s' => trt_inv s' | Crash e => e <> UseAfterFree end.

Lemma keeps_guarded r : step_keeps r -> guarded r.
Proof. by destruct r. Qed.

Lemma notifier_keeps s i n weak : trt_inv s -> t_notifiers s !! i = Some n -> guarded (notifier_step weak n i s).
Proof.
  intros Hi Hn. pose proof (ti_pc s Hi) as Hpc. pose proof (fun n' => push_insert s i n n' Hn) as Hcnt.
  destruct n as [o fl|[|f fl]|f fl|f w fl|fl|]; cbn [notifier_step future_set_ready waitset_set_ready].
  - by apply keeps_guarded, unsub_keeps.
  - apply (notifier_moves s i (NList []) NDone (t_state s) (t_queued s)); try done; [by rewrite Hcnt|].
    intros g Hg. by apply elem_of_nil in Hg.
  - unfold future_set_ready. destruct (default false _); [|done]. apply (fut_altered (set_notifiers (<[i := NLoad f fl]> (t_notifiers s)) s) (set_flag false) f); [|done|done].
    apply (notifier_moves s i (NList (f :: fl)) (NLoad f fl) (t_state s) (t_queued s)); try done; [by rewrite Hcnt|].
    intros g Hg [H|H]; done.
  - destruct (t_state s) eqn:Est.
    all: apply (notifier_moves s i (NLoad f fl) _ (t_state s) (t_queued s)); try done; rewrite ?Hcnt, ?Est by done; try done.
    all: intros g Hg; (try (intros [H|H]; done)); intros _; eapply noticed_settled; try done; tauto.
  - by apply keeps_guarded, cas_keeps.
  - pose proof (count_insert is_push (t_notifiers s) i _ (NList fl) Hn) as Hc. cbn [is_push] in Hc.
    apply (notifier_moves s i (NPush fl) (NList fl) (t_state s) (S (t_queued s))); try done.
    + replace (S (t_queued s) + count is_push (<[i:=NList fl]> (t_notifiers s)))%nat with (t_queued s + count is_push (t_notifiers s))%nat by lia. done.
    + intros g Hg [H|H]; done.
  - done.
Qed.

(** ** The other actions *)

Lemma new_keeps s : trt_inv s ->
  trt_inv (mkTrt (t_objs s ++ [mkAo false 0 1 []]) (t_futs s) (t_state s) (t_unchecked s) (t_registered s) (t_pc s) (t_queued s) (t_notifiers s)).
Proof.
  intros Hi. set (s' := mkTrt _ _ _ _ _ _ _ _).
  assert (forall o, is_Some (t_objs s !! o) -> t_objs s' !! o = t_objs s !! o) as Hl.
  { intros o [a Ha]. cbn [s' t_objs]. by rewrite lookup_app_l by (by eapply lookup_lt_Some). }
  assert (forall f o, obj_of s f = Some o -> aobj s' o = aobj s o) as Hao.
  { intros f o Ho. unfold obj_of in Ho. destruct (t_futs s !! f) as [fu|] eqn:Hf; [|done].
    destruct (ti_objs s Hi f fu o Hf Ho) as [a Ha]. unfold aobj. rewrite Hl; [done|by exists a]. }
  assert (forall f, future_ready s' f = future_ready s f) as Hfr.
  { intros f. unfold future_ready. change (obj_of s' f) with (obj_of s f). destruct (obj_of s f) eqn:E; [|done]. by rewrite (Hao f). }
  assert (forall n, is_Some (t_objs s !! n) -> is_Some (t_objs s' !! n)) as Hsome by (intros n Hn; by rewrite Hl).
  split; try apply Hi.
  - intros f fu o Hf Ho. by apply Hsome, (ti_objs s Hi f fu).
  - intros n o fl Hn E. by apply Hsome, (ti_unsub s Hi n o fl).
  - intros o a Ha. cbn [s' t_objs t_futs t_notifiers] in *. destruct (decide (is_Some (t_objs s !! o))) as [Hs|Hs].
    + rewrite Hl in Ha by done. by apply (ti_refs s Hi).
    + rewrite (count_none (refers o)), (count_none (is_unsub o)).
      * apply eq_None_not_Some in Hs. apply lookup_ge_None_1 in Hs. rewrite lookup_app_r in Ha by done.
        apply list_lookup_singleton_Some in Ha as [_ <-]. done.
      * intros n Hn. destruct n as [o' fl| | | | |]; try done. apply bool_decide_eq_false_2. intros <-. by apply Hs, (ti_unsub s Hi _ o fl Hn).
      * intros fu Hfu. apply list_elem_of_lookup_1 in Hfu as [f Hf]. apply bool_decide_eq_false_2. intros E. by apply Hs, (ti_objs s Hi f fu o).
  - intros f o Hk Ho. change (obj_of s' f) with (obj_of s f) in Ho. rewrite (Hao f o Ho). by apply (ti_kept s Hi).
  - intros f Hk. rewrite Hfr. by apply (ti_noticed s Hi).
  - intros f c p Hp. rewrite Hfr. by apply (ti_found s Hi f c p).
  - intros f Hp. rewrite Hfr. by apply (ti_result s Hi).
Qed.

Lemma add_keeps s o r : trt_inv s -> t_pc s = Running r -> 0 < ao_refcnt (aobj s o) ->
  trt_inv (mkTrt (alter (add_ref 1) o (t_objs s)) (t_futs s ++ [mkFuture (Some o) true false]) (t_state s)
             (t_unchecked s ++ [length (t_futs s)]) (t_registered s) (t_pc s) (t_queued s) (t_notifiers s)).
Proof.
  intros Hi Hp Hpos. assert (is_Some (t_objs s !! o)) as Hso by (unfold aobj in Hpos; destruct (t_objs s !! o); [by eexists|simpl in Hpos; lia]).
  set (fu := mkFuture (Some o) true false).
  assert (forall f, f ∈ t_unchecked s ++ t_registered s -> exists fu, t_futs s !! f = Some fu /\ f_waitset fu = true /\ is_Some (f_aobj fu)) as Hl.
  { intros f Hf. apply (ti_linked s Hi). unfold places. rewrite Hp. cbn [in_hand]. by rewrite app_nil_r. }
  pose proof (ti_places s Hi) as Hnd. unfold places in Hnd. rewrite Hp in Hnd. cbn [in_hand] in Hnd. rewrite app_nil_r in Hnd.
  assert (forall f fu', t_futs s !! f = Some fu' -> (t_futs s ++ [fu]) !! f = Some fu') as Hold.
  { intros f fu' Hf. rewrite lookup_app_l by (by eapply lookup_lt_Some). done. }
  assert ((t_unchecked s ++ [length (t_futs s)]) ++ t_registered s ++ [] ≡ₚ length (t_futs s) :: t_unchecked s ++ t_registered s) as Hperm.
  { rewrite app_nil_r, (Permutation_app_comm (t_unchecked s)). done. }
  apply (counted s 1 o (t_futs s ++ [fu]) (t_unchecked s ++ [length (t_futs s)]) (t_notifiers s) Hi); try done; try apply Hi.
  - unfold places. cbn [t_unchecked t_registered t_pc]. rewrite Hp. cbn [in_hand]. rewrite Hperm. constructor; [|done].
    intros H. destruct (Hl _ H) as (fu' & H' & _). apply lookup_lt_Some in H'. lia.
  - intros f. unfold places. cbn [t_unchecked t_registered t_pc]. rewrite Hp. cbn [in_hand]. rewrite Hperm, elem_of_cons. intros [->|Hf].
    + exists fu. by rewrite list_lookup_middle.
    + destruct (Hl f Hf) as (fu' & Hf' & H). exists fu'. by rewrite (Hold f fu').
  - intros f fu' o' Hf Ho. apply lookup_app_Some in Hf as [Hf|[_ Hf]]; [by apply (ti_objs s Hi f fu')|].
    apply list_lookup_singleton_Some in Hf as [_ <-]. by injection Ho as <-.
  - intros o'. rewrite count_app, count_singleton. unfold refers at 2. cbn [f_aobj fu].
    destruct (decide (o' = o)) as [->|Hne]; [rewrite bool_decide_eq_true_2 by done|rewrite bool_decide_eq_false_2 by congruence]; lia.
  - intros f [fu' Hf]. split; [exists fu'; by apply Hold|]. left. unfold obj_of. cbn [t_futs]. by rewrite (Hold f fu' Hf), Hf.
Qed.

Lemma drop_keeps s f o b : trt_inv s -> t_futs s !! f = Some (mkFuture (Some o) false b) ->
  0 < ao_refcnt (aobj s o) /\ trt_inv (alter_fut null_aobj f (alter_obj (add_ref (-1)) o s)).
Proof.
  intros Hi Hf. destruct (ti_objs s Hi f _ o Hf eq_refl) as [a Ha].
  assert (f ∉ places s) as Hpl by (intros H; destruct (ti_linked s Hi f H) as (fu & Hfu & Hw & _); rewrite Hf in Hfu; injection Hfu as <-; done).
  assert (forall f' fu, f' <> f -> t_futs s !! f' = Some fu -> alter null_aobj f (t_futs s) !! f' = Some fu) as Hold.
  { intros f' fu Hne H. by rewrite list_lookup_alter_ne. }
  assert (forall o', count (refers o') (alter null_aobj f (t_futs s)) + (if decide (o' = o) then 1 else 0) = count (refers o') (t_futs s))%nat as Hc.
  { intros o'. rewrite (alter_insert _ _ _ _ Hf). pose proof (count_insert (refers o') (t_futs s) f _ (mkFuture None false b) Hf) as H.
    change (refers o' (mkFuture None false b)) with false in H. unfold refers at 2 in H. cbn [f_aobj] in H.
    change (null_aobj (mkFuture (Some o) false b)) with (mkFuture None false b).
    destruct (decide (o' = o)) as [->|Hne]; [rewrite bool_decide_eq_true_2 in H by done|rewrite bool_decide_eq_false_2 in H by congruence]; lia. }
  split; [rewrite (aobj_lookup s o a Ha), (ti_refs s Hi o a Ha); specialize (Hc o); rewrite decide_True in Hc by done; destruct (ao_ready a); lia|].
  apply (counted s (-1) o (alter null_aobj f (t_futs s)) (t_unchecked s) (t_notifiers s) Hi); try done; try apply Hi.
  - intros f' Hf'. destruct (ti_linked s Hi f' Hf') as (fu & Hfu & H). exists fu. split; [|done]. apply Hold; [|done]. by intros ->.
  - intros f' fu o' Hf' Ho. destruct (decide (f' = f)) as [->|Hne].
    + rewrite list_lookup_alter_eq, Hf in Hf'. by injection Hf' as <-.
    + rewrite list_lookup_alter_ne in Hf' by done. by apply (ti_objs s Hi f' fu).
  - intros o'. rewrite <- (Hc o'). destruct (decide (o' = o)); lia.
  - intros f' [fu Hfu]. unfold obj_of. cbn [t_futs]. destruct (decide (f' = f)) as [->|Hne].
    + rewrite list_lookup_alter_eq, Hf. split; [by eexists|]. by right.
    + rewrite list_lookup_alter_ne by done. split; [by exists fu|by left].
Qed.

Lemma notify_keeps s o a val : trt_inv s -> t_objs s !! o = Some a -> ao_ready a = false ->
  trt_inv (set_notifiers (t_notifiers s ++ [NUnsub o (ao_futures a)]) (alter_obj (fun a => mkAo true val (ao_refcnt a) []) o s)).
Proof.
  intros Hi Ha Er. set (g := fun a => mkAo true val (ao_refcnt a) []). set (s' := set_notifiers _ _).
  assert (forall o', aobj s' o' = if decide (o' = o) then g a else aobj s o') as Hao.
  { intros o'. change (aobj s' o') with (aobj (alter_obj g o s) o'). rewrite aobj_alter by (by exists a). by rewrite (aobj_lookup s o a Ha). }
  assert (forall f, future_ready s f = true -> future_ready s' f = true) as Hfr.
  { intros f. unfold future_ready. change (obj_of s' f) with (obj_of s f). destruct (obj_of s f); [|done]. rewrite Hao. by case_decide. }
  assert (forall n, is_Some (t_objs s !! n) -> is_Some (t_objs s' !! n)) as Hsome.
  { intros n Hn. apply lookup_lt_is_Some. cbn [s' set_notifiers alter_obj t_objs]. rewrite length_alter. by apply lookup_lt_is_Some. }
  assert (pending s' = pending s ++ ao_futures a) as Hpend.
  { unfold pending. cbn [s' set_notifiers t_notifiers]. rewrite bind_app. cbn. by rewrite app_nil_r. }
  split; try apply Hi.
  - cbn [s' set_notifiers t_notifiers]. rewrite count_app. cbn. rewrite Nat.add_0_r. apply (ti_pc s Hi).
  - intros f fu o' Hf Ho. by apply Hsome, (ti_objs s Hi f fu).
  - intros n o' fl Hn E. apply Hsome. apply elem_of_app in Hn as [Hn|Hn]; [by apply (ti_unsub s Hi n o' fl)|].
    apply list_elem_of_singleton in Hn. rewrite E in Hn. injection Hn as -> _. by exists a.
  - intros o' a' Ha'. cbn [s' set_notifiers alter_obj t_objs t_futs t_notifiers] in *. rewrite count_app, count_singleton. cbn [is_unsub].
    destruct (decide (o' = o)) as [->|Hne].
    + rewrite list_lookup_alter_eq, Ha in Ha'. injection Ha' as <-. cbn [g ao_refcnt ao_ready]. rewrite (ti_refs s Hi o a Ha), Er.
      rewrite bool_decide_eq_true_2 by done. lia.
    + rewrite list_lookup_alter_ne in Ha' by done. rewrite (ti_refs s Hi o' a' Ha'). rewrite bool_decide_eq_false_2 by done. lia.
  - intros f o' Hk Ho. rewrite Hao. case_decide; [done|]. by apply (ti_kept s Hi).
  - intros f Hk Hr. rewrite Hpend, elem_of_app. intros Hn. apply (ti_noticed s Hi f Hk); [|tauto].
    unfold future_ready in *. change (obj_of s' f) with (obj_of s f) in Hr. destruct (obj_of s f) as [o'|] eqn:Ho; [|done]. rewrite Hao in Hr.
    case_decide as E; [|done]. subst o'. destruct Hn. right. rewrite <- (aobj_lookup s o a Ha). apply (ti_kept s Hi f o Hk Ho).
    by rewrite (aobj_lookup s o a Ha).
  - intros f c p Hp Hw. by apply Hfr, (ti_found s Hi f c p).
  - intros f Hp. destruct (ti_result s Hi f Hp) as [Hs [H|H]]; (split; [done|]); [by left|right; by apply Hfr].
Qed.

Lemma resume_keeps s q : trt_inv s -> t_pc s = Asleep -> t_queued s = S q -> trt_inv (set_pc (Scan AwaitResume ScStart) (set_queued q s)).
Proof.
  intros Hi Hp Hq. pose proof (ti_pc s Hi) as Hpc. rewrite Hp, Hq in Hpc. destruct Hpc as [[_ H]|[Hst H]]; [lia|].
  apply (owner_moves s (t_state s) (t_unchecked s) (t_registered s) (Scan AwaitResume ScStart) q Hi); try done.
  - split; [congruence|lia].
  - pose proof (ti_places s Hi) as Hnd. unfold places in *. by rewrite Hp in Hnd.
  - unfold places. by rewrite Hp.
  - unfold kept. by rewrite Hp.
  - intros f c r [= <- <-] [?|?]; done.
Qed.

(** ** Any interleaving *)

Lemma exec_guarded a s r : trt_inv s -> exec a s = Some r -> guarded r.
Proof.
  intros Hi. pose proof (ti_pc s Hi) as Hpc.
  destruct a as [|o| |f|weak|o val|i weak|]; cbn [exec]; destruct (t_pc s) as [r0|c p| | |] eqn:Hp; try done.
  all: try (intros [= <-]; by apply new_keeps).
  all: try (intros H; by apply keeps_guarded, (owner_keeps s weak)).
  all: try (destruct (t_objs s !! o) as [a|] eqn:Ha; [|done]; destruct (ao_ready a) eqn:Er; intros [= <-]; by apply notify_keeps).
  all: try (destruct (t_notifiers s !! i) as [n|] eqn:Hn; intros [= <-]; by apply notifier_keeps).
  all: try (destruct (t_queued s) as [|q] eqn:Hq; intros [= <-]; done || by apply resume_keeps).
  - destruct (Z.ltb_spec 0 (ao_refcnt (aobj s o))); intros [= <-]. by apply (add_keeps s o r0).
  - intros [= <-]. apply (pc_moves s (Running r0)); try done. intros f c q [= <- <-] [?|?]; done.
  - destruct (t_futs s !! f) as [[[o|] [] b]|] eqn:Hf; try done. intros [= <-]. destruct (drop_keeps s f o b Hi Hf) as [Hpos Hk].
    unfold drop_ref. by rewrite (proj2 (Z.ltb_lt 0 _)).
Qed.

Lemma trt_reachable_inv s : trt_reachable s -> trt_inv s.
Proof. induction 1 as [|s a s' _ IH He]; [apply trt_init_inv|]. by apply (exec_guarded a s (Next s')). Qed.
