(* ===== verification/TrtWake.v ===== *)
(** * TrtWake: a waitset loses no future

    Every future made for a waitset is in one of its lists, or in the hands of the
    scan, until a wait returns it, and no list is left unchecked when the owner goes
    to sleep. *)
From Stdlib Require Import ZArith Lia.
From stdpp Require Import base tactics list numbers.
From S2P Require Import Prelude TrtSync TrtSafe.

Open Scope Z_scope.

Definition all_checked (p : owner_pc) : Prop :=
  match p with Scan _ ScLast | CasWaiting | SetCoro | Asleep => True | _ => False end.

(** Whether a future waits, in a waitset. *)
Definition awaited (futs : list Future) (f : nat) : Prop := f_waitset <$> futs !! f = Some true.

Record complete (s : trt) : Prop := {
  co_places : forall f, awaited (t_futs s) f -> f ∈ places s;
  co_checked : all_checked (t_pc s) -> t_unchecked s = []
}.

Lemma awaited_alter g f futs f' : (forall fu, f_waitset (g fu) = true -> f_waitset fu = true) ->
  awaited (alter g f futs) f' -> awaited futs f'.
Proof.
  intros Hg. unfold awaited. destruct (decide (f' = f)) as [->|Hne]; [|by rewrite list_lookup_alter_ne].
  rewrite list_lookup_alter_eq. destruct (futs !! f) as [fu|]; [|done]. cbn. intros [= H]. by rewrite Hg.
Qed.

Lemma complete_moves s s' : complete s -> (forall f, awaited (t_futs s') f -> awaited (t_futs s) f) -> places s ⊆ places s' ->
  (all_checked (t_pc s') -> t_unchecked s' = []) -> complete s'.
Proof. intros [H1 H2] Hf Hp Hc. split; [|done]. intros f Ha. by apply Hp, H1, Hf. Qed.

(** What is in a place of the owner stays in one. *)
Ltac stays Hp := intros g; unfold places; rewrite Hp; cbn [set_pc set_state set_unchecked set_registered alter_obj alter_fut t_unchecked t_registered t_pc in_hand];
  rewrite ?elem_of_app, ?list_elem_of_singleton, ?elem_of_nil; tauto.

Lemma scan_complete c p s s' : complete s -> t_pc s = Scan c p -> scan_step c p s = Next s' -> complete s'.
Proof.
  intros Hc Hp. pose proof (co_checked s Hc) as Hch. rewrite Hp in Hch.
  destruct p as [| |[|f todo]| |f|f|f|f|f|]; cbn [scan_step register_step].
  - destruct (Nat.eqb_spec (length (t_unchecked s) + length (t_registered s)) 0) as [Hz|_]; intros [= <-]; apply (complete_moves s); try done.
    + destruct c; stays Hp.
    + intros _. cbn [set_pc t_unchecked]. destruct (t_unchecked s) eqn:E; [done|simpl in Hz; lia].
    + stays Hp.
  - intros [= <-]. apply (complete_moves s); try done. stays Hp.
  - intros [= <-]. apply (complete_moves s); try done. stays Hp.
  - intros Ho. apply on_obj_next in Ho as (o & _ & Ho & _). destruct (ao_ready (aobj s o)); injection Ho as <-; apply (complete_moves s); try done; [|stays Hp].
    intros g. unfold places. rewrite Hp. cbn [set_pc set_registered t_unchecked t_registered t_pc in_hand].
    rewrite !elem_of_app, list_elem_of_filter, list_elem_of_singleton, elem_of_nil. destruct (decide (g = f)); tauto.
  - destruct (t_unchecked s) as [|f l] eqn:Eu; intros [= <-]; apply (complete_moves s); try done; [stays Hp|].
    intros g. unfold places. rewrite Hp, Eu. cbn [set_pc set_unchecked t_unchecked t_registered t_pc in_hand].
    rewrite !elem_of_app, elem_of_cons, list_elem_of_singleton, elem_of_nil. tauto.
  - intros Ho. apply on_obj_next in Ho as (o & _ & Ho & _). destruct (ao_ready (aobj s o)); injection Ho as <-; apply (complete_moves s); try done; stays Hp.
  - intros Ho. apply on_obj_next in Ho as (o & _ & Ho & _). destruct (ao_ready (aobj s o)); injection Ho as <-; apply (complete_moves s); try done; stays Hp.
  - intros [= <-]. apply (complete_moves s); try done; [intros f'; by apply awaited_alter|stays Hp].
  - intros [= <-]. apply (complete_moves s); try done; stays Hp.
  - intros [= <-]. split; [|done]. intros g Ha. assert (g <> f) as Hne.
    { intros ->. unfold awaited in Ha. cbn [set_pc alter_fut t_futs] in Ha. rewrite list_lookup_alter_eq in Ha. by destruct (t_futs s !! f). }
    apply awaited_alter in Ha; [|done]. apply (co_places s Hc) in Ha. revert Ha. unfold places. rewrite Hp.
    cbn [set_pc alter_fut t_unchecked t_registered t_pc in_hand]. rewrite !elem_of_app, list_elem_of_singleton, elem_of_nil. tauto.
  - case_decide; intros [= <-]; apply (complete_moves s); try done; [destruct c; stays Hp|by intros _; apply Hch|stays Hp].
Qed.

Lemma owner_complete weak s s' : complete s -> owner_step weak s = Some (Next s') -> complete s'.
Proof.
  intros Hc. pose proof (co_checked s Hc) as Hch. unfold owner_step. destruct (t_pc s) as [r|c p| | |] eqn:Hp; try done.
  - intros [= H]. by apply (scan_complete c p s).
  - case_decide; intros [= <-]; apply (complete_moves s); try done; try (by intros _; apply Hch); stays Hp.
  - intros [= <-]. apply (complete_moves s); try done; stays Hp.
Qed.

Lemma notifier_complete weak n i s s' : complete s -> notifier_step weak n i s = Next s' -> complete s'.
Proof.
  intros Hc. assert (forall x q objs ns, complete (mkTrt objs (t_futs s) x (t_unchecked s) (t_registered s) (t_pc s) q ns)) as Hm.
  { intros. apply (complete_moves s); try done. apply (co_checked s Hc). }
  destruct n as [o fl|[|f fl]|f fl|f [] fl|fl|]; cbn [notifier_step future_set_ready waitset_set_ready]; try case_decide; try (intros [= <-]; apply Hm); try (by intros [= <-]).
  - destruct (0 <? _); intros [= <-]; apply Hm.
  - unfold future_set_ready. destruct (default false _); intros [= <-]. apply (complete_moves s); try done; [intros g; by apply awaited_alter|apply (co_checked s Hc)].
  - destruct (t_state s); intros [= <-]; apply Hm.
Qed.

Lemma exec_complete a s s' : complete s -> exec a s = Some (Next s') -> complete s'.
Proof.
  intros Hc. pose proof (co_checked s Hc) as Hch. pose proof (co_places s Hc) as Hpl.
  destruct a as [|o| |f|weak|o val|i weak|]; cbn [exec]; try (by apply owner_complete).
  - intros [= <-]. by apply (complete_moves s).
  - destruct (t_pc s) as [r|c p| | |] eqn:Hp; try done. destruct (0 <? _); intros [= <-]. split.
    + intros f Ha. destruct (decide (f = length (t_futs s))) as [->|Hne].
      * unfold places. cbn [new_future t_unchecked t_registered t_pc]. rewrite !elem_of_app, list_elem_of_singleton. tauto.
      * assert (f ∈ places s) as Hin.
        { apply Hpl. unfold awaited in *. cbn [t_futs new_future] in Ha. destruct ((t_futs s ++ _) !! f) eqn:E in Ha; [|done].
          apply lookup_app_Some in E as [E|[Hl E]]; [by rewrite E|]. apply list_lookup_singleton_Some in E as [? _]. lia. }
        revert Hin. unfold places. rewrite Hp. cbn [new_future t_unchecked t_registered t_pc]. rewrite ?Hp, !elem_of_app. tauto.
    + cbn [new_future t_pc]. by rewrite ?Hp.
  - destruct (t_pc s) as [r|c p| | |] eqn:Hp; try done. intros [= <-]. apply (complete_moves s); try done. stays Hp.
  - destruct (t_pc s) as [r|c p| | |] eqn:Hp; try done. destruct (t_futs s !! f) as [[[o|] [] b]|]; try done. unfold drop_ref. destruct (0 <? _); intros [= <-].
    apply (complete_moves s); try done; [intros g; by apply awaited_alter|]. cbn [alter_fut alter_obj t_pc]. by rewrite ?Hp.
  - destruct (t_objs s !! o) as [a|]; [|by destruct (t_pc s)]. destruct (ao_ready a); [by destruct (t_pc s)|].
    intros H. assert (s' = set_value o val (ao_futures a) s) as ->.
    { destruct (t_pc s); by injection H as <-. }
    by apply (complete_moves s).
  - destruct (t_notifiers s !! i) as [n|]; [|by destruct (t_pc s)]. intros H. apply (notifier_complete weak n i s); [done|].
    destruct (t_pc s); by injection H.
  - destruct (t_pc s) as [r|c p| | |] eqn:Hp; destruct (t_queued s) as [|q]; try done. intros [= <-]. apply (complete_moves s); try done. stays Hp.
Qed.

Lemma reachable_complete s : trt_reachable s -> complete s.
Proof.
  induction 1 as [|s a s' _ IH He]; [|by apply (exec_complete a s)]. split; [|done]. intros f Ha. by destruct f.
Qed.
