(* ===== verification/TrtOne.v ===== *)
(** * TrtOne: waiting on one scheduler

    A scheduler runs a task until it suspends and a notification to its end: with
    one scheduler nothing comes between the steps of a wait or of a notification.
    Under that discipline the crashes of other interleavings are out of reach, every
    wait comes to its end, and it ends with a future that is ready. *)
From Stdlib Require Import ZArith Lia.
From stdpp Require Import base tactics list numbers.
From S2P Require Import Prelude TrtSync TrtSafe TrtWake.

Open Scope Z_scope.

(** ** Runs without interference *)

(** The owner runs until it waits or its wait is over; [None]: out of fuel. *)
Fixpoint run_owner (n : nat) (s : trt) : option outcome :=
  match owner_step false s with
  | None => Some (Next s)
  | Some (Crash e) => Some (Crash e)
  | Some (Next s') => match n with O => None | S n' => run_owner n' s' end
  end.

Fixpoint run_notifier (n : nat) (i : nat) (s : trt) : option outcome :=
  match t_notifiers s !! i with
  | None | Some NDone => Some (Next s)
  | Some m =>
      match n with
      | O => None
      | S n' => match notifier_step false m i s with Next s' => run_notifier n' i s' | Crash e => Some (Crash e) end
      end
  end.

Definition and_then (r : option outcome) (k : trt -> option outcome) : option outcome :=
  match r with Some (Next s) => k s | _ => r end.

Definition wait_fuel (s : trt) : nat := 7 + 5 * length (t_unchecked s) + length (t_registered s).
Definition notify_fuel (s : trt) (o : nat) : nat := 2 + 4 * length (ao_futures (aobj s o)).

Inductive sched_event := ENew | EAdd (o : nat) | EDrop (f : nat) | EWait | ENotify (o : nat) (val : Z) | EResume.

(** What a scheduler does without looking at another task. *)
Definition exec1 (e : sched_event) (s : trt) : option outcome :=
  match e with
  | ENew => exec ANew s
  | EAdd o => exec (AAdd o) s
  | EDrop f => exec (ADrop f) s
  | EWait => and_then (exec AWait s) (run_owner (wait_fuel s))
  | ENotify o val => and_then (exec (ANotify o val) s) (run_notifier (notify_fuel s o) (length (t_notifiers s)))
  | EResume => and_then (exec AResume s) (run_owner (wait_fuel s))
  end.

#[global] Instance event_eq_dec : EqDecision sched_event.
Proof. solve_decision. Defined.

Definition first_action (e : sched_event) : action :=
  match e with
  | ENew => ANew | EAdd o => AAdd o | EDrop f => ADrop f | EWait => AWait | ENotify o val => ANotify o val | EResume => AResume
  end.

(** An event that can happen; nobody awaits an empty waitset. *)
Definition possible (e : sched_event) (s : trt) : Prop :=
  is_Some (exec (first_action e) s) /\ (e = EWait -> t_unchecked s ++ t_registered s <> []).

#[global] Instance possible_dec e s : Decision (possible e s).
Proof. unfold possible. apply _. Defined.

Inductive reachable1 : trt -> Prop :=
  | reach1_init : reachable1 trt_init
  | reach1_step s e s' : reachable1 s -> possible e s -> exec1 e s = Some (Next s') -> reachable1 s'.

(** ** The invariant *)

Definition some_ready (s : trt) : Prop := exists f, f ∈ t_registered s /\ future_ready s f = true.

(** Where a scan after a wake-up is while the ready future is still ahead. *)
Definition ahead (p : scan) (s : trt) : Prop :=
  match p with
  | ScStart | ScStore | ScRegistered _ => some_ready s
  | ScFound _ | ScCompleted _ => True
  | _ => False
  end.

Definition one_pc (s : trt) : Prop :=
  match t_pc s with
  | Running r => t_state s = WS_INITIAL /\ r <> Some None
  | Scan c p =>
      (c = AwaitReady \/ c = AwaitResume /\ ahead p s) /\
      match p with
      | ScStart => t_unchecked s ++ t_registered s <> []
      | ScStore => True
      | ScCompleted _ => t_state s = WS_INITIAL
      | _ => t_state s = WS_SCANNING
      end
  | CasWaiting => t_state s = WS_SCANNING
  | SetCoro => t_state s = WS_WAITING
  | Asleep => t_state s = WS_INITIAL -> some_ready s
  end.

Definition settled (p : owner_pc) : Prop := match p with Running _ | Asleep => True | _ => False end.

(** A notifier on its way, undisturbed. *)
Definition notifying (s : trt) (n : notifier) : Prop :=
  settled (t_pc s) /\ (forall f, f ∈ n_pending n -> f ∈ t_registered s /\ future_ready s f = true) /\
  match n with NCas _ w _ => w = true /\ t_state s = WS_WAITING | _ => True end.

(** [act]: the notifier that is under way. *)
Record one_inv (act : option nat) (s : trt) : Prop := {
  on_inv : trt_inv s;
  on_notifiers : forall i n, t_notifiers s !! i = Some n -> n = NDone \/ act = Some i /\ notifying s n;
  on_ready : forall o, ao_ready (aobj s o) = true -> ao_futures (aobj s o) = [];
  on_futures : forall o f, f ∈ ao_futures (aobj s o) -> f ∈ kept s /\ obj_of s f = Some o;
  on_pc : one_pc s
}.

(** How far a wait and a notification are from their ends. *)
Definition owner_left (s : trt) : nat :=
  let u := length (t_unchecked s) in
  match t_pc s with
  | Running _ | Asleep => 0
  | SetCoro | Scan _ (ScCompleted _) => 1
  | CasWaiting | Scan _ (ScFound _) => 2
  | Scan _ ScLast => 3
  | Scan _ ScUnchecked => 4 + 5 * u
  | Scan _ (ScKeep _) => 5 + 5 * u
  | Scan _ (ScLock _) => 6 + 5 * u
  | Scan _ (ScCheck _) => 7 + 5 * u
  | Scan _ (ScRegistered todo) => 5 + 5 * u + length todo
  | Scan _ ScStore => 6 + 5 * u + length (t_registered s)
  | Scan _ ScStart => 7 + 5 * u + length (t_registered s)
  end.

Definition notifier_left (n : notifier) : nat :=
  match n with
  | NUnsub _ fl => 2 + 4 * length fl
  | NList fl => 1 + 4 * length fl
  | NLoad _ fl => 4 + 4 * length fl
  | NCas _ _ fl => 3 + 4 * length fl
  | NPush fl => 2 + 4 * length fl
  | NDone => 0
  end.

(** ** The owner runs *)

Lemma quiet_pending s f : one_inv None s -> f ∉ pending s.
Proof.
  intros Hi Hf. unfold pending in Hf. apply list_elem_of_bind in Hf as (n & Hin & Hn). apply list_elem_of_lookup_1 in Hn as [i Hn].
  destruct (on_notifiers None s Hi i n Hn) as [->|[? _]]; [by apply elem_of_nil in Hin|done].
Qed.

Lemma quiet_noticed s f : one_inv None s -> f ∈ t_registered s -> future_ready s f = true -> noticed (t_pc s) (t_state s) f.
Proof. intros Hi Hf Hr. apply (kept_noticed s f _ (on_inv None s Hi) eq_refl Hf Hr). by apply quiet_pending. Qed.

Lemma one_moves s s' : one_inv None s -> trt_inv s' -> t_notifiers s' = t_notifiers s -> t_objs s' = t_objs s ->
  (forall f, obj_of s' f = obj_of s f) -> (forall f, f ∈ kept s -> future_ready s f = false -> f ∈ kept s') -> one_pc s' -> one_inv None s'.
Proof.
  intros Hi Hinv Hn Ho Hf Hk Hp. assert (forall o, aobj s' o = aobj s o) as Hao by (intros o; unfold aobj; by rewrite Ho).
  split; [done| |intros o; rewrite Hao; apply (on_ready None s Hi)| |done].
  - intros i n. rewrite Hn. intros E. destruct (on_notifiers None s Hi i n E) as [?|[? _]]; [by left|done].
  - intros o f. rewrite Hao, Hf. intros Hin. destruct (on_futures None s Hi o f Hin) as [H1 H2]. split; [|done]. apply Hk; [done|].
    unfold future_ready. rewrite H2. destruct (ao_ready (aobj s o)) eqn:Er; [|done]. rewrite (on_ready None s Hi o Er) in Hin. by apply elem_of_nil in Hin.
Qed.

Lemma one_register s c f o : one_inv None s -> t_pc s = Scan c (ScLock f) -> obj_of s f = Some o -> ao_ready (aobj s o) = false ->
  is_Some (t_objs s !! o) ->
  let s' := set_pc (Scan c (ScKeep f)) (alter_obj (set_futures (ao_futures (aobj s o) ++ [f])) o s) in trt_inv s' -> one_inv None s'.
Proof.
  intros Hi Hp Ho Hr Hs s' Hinv. pose proof (on_pc None s Hi) as Hpc. unfold one_pc in Hpc. rewrite Hp in Hpc.
  assert (forall o', aobj s' o' = if decide (o' = o) then set_futures (ao_futures (aobj s o) ++ [f]) (aobj s o) else aobj s o') as Hao.
  { intros o'. change (aobj s' o') with (aobj (alter_obj (set_futures (ao_futures (aobj s o) ++ [f])) o s) o'). by apply aobj_alter. }
  split; [done| | | |].
  - intros i n E. destruct (on_notifiers None s Hi i n E) as [?|[? _]]; [by left|done].
  - intros o'. rewrite Hao. case_decide; [|apply (on_ready None s Hi)]. cbn [ao_ready set_futures]. congruence.
  - intros o' g. rewrite Hao. unfold kept. cbn [s' set_pc alter_obj t_registered t_pc]. change (obj_of s' g) with (obj_of s g).
    assert (g ∈ ao_futures (aobj s o') -> g ∈ t_registered s ++ [f] /\ obj_of s g = Some o') as Hold.
    { intros Hg. destruct (on_futures None s Hi o' g Hg) as [H1 H2]. unfold kept in H1. rewrite Hp, app_nil_r in H1. rewrite elem_of_app. tauto. }
    case_decide as E; [|done]. subst o'. cbn [ao_futures set_futures]. rewrite elem_of_app, list_elem_of_singleton. intros [Hg| ->]; [tauto|].
    split; [|done]. apply elem_of_app. right. by apply list_elem_of_singleton.
  - unfold one_pc. cbn [s' set_pc t_pc]. destruct Hpc as [[->|[-> []]] Hst]. split; [by left|done].
Qed.

(** A step of the scan that leaves the registered futures. *)
Lemma one_steps s c p s' : one_inv None s -> t_pc s = Scan c p -> (forall f, p <> ScKeep f) -> trt_inv s' -> t_notifiers s' = t_notifiers s ->
  t_objs s' = t_objs s -> t_futs s' = t_futs s -> t_registered s' = t_registered s -> one_pc s' -> one_inv None s'.
Proof.
  intros Hi Hp Hk Hinv Hn Ho Hf Hr Hpc. apply (one_moves s); try done.
  - intros f. unfold obj_of. by rewrite Hf.
  - intros f. unfold kept. rewrite Hp, Hr. destruct p; (try by destruct (Hk f0)); rewrite app_nil_r, elem_of_app; tauto.
Qed.

(** The loop over the registered futures. *)
Lemma one_registered s c todo s' : one_inv None s -> t_pc s = Scan c (ScRegistered todo) -> scan_step c (ScRegistered todo) s = Next s' -> trt_inv s' ->
  one_inv None s' /\ (owner_left s' < owner_left s)%nat.
Proof.
  intros Hi Hp Hs Hinv. pose proof (on_pc None s Hi) as Hpc. unfold one_pc in Hpc. rewrite Hp in Hpc. destruct Hpc as [Hc Hst].
  assert (forall f, f ∈ t_registered s -> future_ready s f = true -> f ∈ todo) as Hno.
  { intros f Hf Hr. pose proof (quiet_noticed s f Hi Hf Hr) as H. rewrite Hp, Hst in H. by destruct H. }
  unfold owner_left at 2. rewrite Hp. destruct todo as [|f todo]; cbn [scan_step register_step] in Hs.
  - injection Hs as <-. split; [|unfold owner_left; cbn; lia]. apply (one_steps s c _ _ Hi Hp); try done.
    unfold one_pc. cbn [set_pc t_pc]. split; [|done]. destruct Hc as [?|[_ (f & Hf & Hr)]]; [by left|]. by apply Hno, elem_of_nil in Hr.
  - apply on_obj_next in Hs as (o & Ho & Hs & Hr). destruct (ao_ready (aobj s o)) eqn:Er; injection Hs as <-; (split; [|unfold owner_left; cbn; lia]).
    + apply (one_moves s _ Hi Hinv eq_refl eq_refl); [done| |].
      * intros g. unfold kept. rewrite Hp. cbn [set_pc set_registered t_registered t_pc]. rewrite !app_nil_r, list_elem_of_filter.
        intros Hg Hgr. split; [congruence|done].
      * unfold one_pc. cbn [set_pc t_pc]. split; [|done]. destruct Hc as [?|[? _]]; [by left|by right].
    + by apply (one_steps s c _ _ Hi Hp).
Qed.

(** A future that was found is returned. *)
Lemma one_found s c f s' p : one_inv None s -> t_pc s = Scan c p -> p = ScFound f \/ p = ScCompleted f -> scan_step c p s = Next s' -> trt_inv s' ->
  one_inv None s' /\ (owner_left s' < owner_left s)%nat.
Proof.
  intros Hi Hp Hw Hs Hinv. pose proof (on_pc None s Hi) as Hpc. unfold one_pc in Hpc. rewrite Hp in Hpc. destruct Hpc as [Hc Hst].
  unfold owner_left at 2. rewrite Hp. destruct Hw as [-> | ->]; cbn [scan_step register_step] in Hs; injection Hs as <-; (split; [|unfold owner_left; cbn; lia]).
  - by apply (one_steps s c _ _ Hi Hp).
  - apply (one_moves s _ Hi Hinv eq_refl eq_refl); [intros g; by apply obj_of_alter|unfold kept; by rewrite Hp|done].
Qed.

Lemma one_scan s c p s' : one_inv None s -> t_pc s = Scan c p -> scan_step c p s = Next s' -> trt_inv s' ->
  one_inv None s' /\ (owner_left s' < owner_left s)%nat.
Proof.
  intros Hi Hp Hs Hinv. pose proof (on_pc None s Hi) as Hpc. unfold one_pc in Hpc. rewrite Hp in Hpc. destruct Hpc as [Hc Hst].
  pose proof (one_steps s c p s' Hi Hp) as Hone.
  destruct p as [| |todo| |f|f|f|f|f|]; eauto using one_registered, one_found; unfold owner_left at 2; rewrite Hp; cbn [scan_step register_step] in Hs.
  1: { destruct (Nat.eqb_spec (length (t_unchecked s) + length (t_registered s)) 0) as [Hz|_].
       { destruct Hst. apply length_zero_iff_nil. rewrite length_app. lia. }
       injection Hs as <-. split; [by apply Hone|unfold owner_left; cbn; lia]. }
  1: { injection Hs as <-. split; [by apply Hone|unfold owner_left; cbn; lia]. }
  all: assert (c = AwaitReady) as -> by (destruct Hc as [?|[_ []]]; done).
  - destruct (t_unchecked s) as [|f l] eqn:Eu; injection Hs as <-; (split; [|unfold owner_left; cbn; lia]); apply Hone; try done; (split; [by left|done]).
  - apply on_obj_next in Hs as (o & Ho & Hs & Hr). destruct (ao_ready (aobj s o)); injection Hs as <-; (split; [|unfold owner_left; cbn; lia]);
      apply Hone; try done; (split; [by left|done]).
  - apply on_obj_next in Hs as (o & Ho & Hs & Hr). destruct (ao_ready (aobj s o)) eqn:Er; injection Hs as <-; (split; [|unfold owner_left; cbn; lia]).
    + apply Hone; try done; (split; [by left|done]).
    + apply one_register; try done. destruct (obj_of_in s f ltac:(apply hand_places; rewrite Hp; by apply list_elem_of_singleton) (on_inv None s Hi)) as (o' & a & Ho' & Ha & _).
      rewrite Ho in Ho'. injection Ho' as <-. by exists a.
  - injection Hs as <-. split; [|unfold owner_left; cbn; lia]. apply (one_moves s _ Hi Hinv eq_refl eq_refl).
    + intros g. by apply obj_of_alter.
    + intros g. unfold kept. rewrite Hp. cbn [set_pc set_registered alter_fut t_registered t_pc]. by rewrite app_nil_r.
    + split; [by left|done].
  - rewrite decide_True in Hs by done. injection Hs as <-. split; [by apply Hone|unfold owner_left; cbn; lia].
Qed.

Lemma one_owner s r : one_inv None s -> owner_step false s = Some r -> exists s', r = Next s' /\ one_inv None s' /\ (owner_left s' < owner_left s)%nat.
Proof.
  intros Hi Hs. pose proof (owner_keeps s false r (on_inv None s Hi) Hs) as Hinv. destruct r as [s'|e]; [|done]. exists s'. split; [done|]. cbn [step_keeps] in Hinv.
  pose proof (on_pc None s Hi) as Hpc. unfold one_pc in Hpc. unfold owner_step in Hs. destruct (t_pc s) as [r|c p| | |] eqn:Hp; try done; injection Hs as Hs.
  - by apply (one_scan s c p).
  - rewrite decide_True in Hs by done. subst s'. split; [|unfold owner_left; rewrite Hp; cbn; lia].
    apply (one_moves s _ Hi Hinv eq_refl eq_refl); [done|unfold kept; by rewrite Hp|done].
  - subst s'. split; [|unfold owner_left; rewrite Hp; cbn; lia].
    apply (one_moves s _ Hi Hinv eq_refl eq_refl); [done|unfold kept; by rewrite Hp|]. unfold one_pc. cbn. rewrite Hpc. done.
Qed.

Lemma run_owner_ends n : forall s, one_inv None s -> (owner_left s <= n)%nat ->
  exists s', run_owner n s = Some (Next s') /\ one_inv None s' /\ settled (t_pc s').
Proof.
  induction n as [|n IH]; intros s Hi Hn; cbn [run_owner]; destruct (owner_step false s) as [r|] eqn:Hs.
  1, 3: destruct (one_owner s r Hi Hs) as (s' & -> & Hi' & Hl).
  - lia.
  - apply IH; [done|lia].
  - exists s. split; [done|]. split; [done|]. unfold owner_step in Hs. by destruct (t_pc s).
  - exists s. split; [done|]. split; [done|]. unfold owner_step in Hs. by destruct (t_pc s).
Qed.

(** ** A notification runs *)

Lemma note_moves s i n n' s' : one_inv (Some i) s -> t_notifiers s !! i = Some n -> notifying s n -> trt_inv s' ->
  t_notifiers s' = <[i := n']> (t_notifiers s) ->
  (forall o, ao_ready (aobj s' o) = ao_ready (aobj s o) /\ ao_futures (aobj s' o) = ao_futures (aobj s o)) ->
  (forall f, obj_of s' f = obj_of s f) -> t_registered s' = t_registered s -> t_pc s' = t_pc s -> n_pending n' ⊆ n_pending n ->
  match n' with NCas _ w _ => w = true /\ t_state s' = WS_WAITING | _ => True end ->
  (t_pc s = Asleep -> t_state s' = WS_INITIAL -> some_ready s) -> (forall r, t_pc s = Running r -> t_state s' = t_state s) ->
  one_inv (Some i) s'.
Proof.
  intros Hi Hn Hno Hinv Hns Hao Ho Hre Hp Hpend Hcas Hsl Hrun.
  assert (forall f, future_ready s' f = future_ready s f) as Hfr.
  { intros f. unfold future_ready. rewrite Ho. destruct (obj_of s f); [apply Hao|done]. }
  split; [done| | | |].
  - intros j m. rewrite Hns. destruct (decide (j = i)) as [->|Hne].
    + rewrite list_lookup_insert_eq by (by eapply lookup_lt_Some). intros [= <-]. right. split; [done|]. destruct Hno as (H1 & H2 & _).
      split; [by rewrite Hp|]. split; [|done]. intros f Hf. rewrite Hre, Hfr. by apply H2, Hpend.
    + rewrite list_lookup_insert_ne by done. intros E. destruct (on_notifiers _ s Hi j m E) as [?|[[= ->] _]]; [by left|done].
  - intros o. destruct (Hao o) as [-> ->]. apply (on_ready _ s Hi).
  - intros o f. destruct (Hao o) as [_ ->]. rewrite Ho. unfold kept. rewrite Hre, Hp. apply (on_futures _ s Hi).
  - destruct Hno as (H1 & _). pose proof (on_pc _ s Hi) as Hpc. unfold one_pc in *. rewrite Hp. destruct (t_pc s) as [r| | | |]; try done.
    + by rewrite (Hrun r).
    + intros E. destruct (Hsl eq_refl E) as (f & Hf & Hr). exists f. by rewrite Hre, Hfr.
Qed.

Lemma note_state s i n : one_inv (Some i) s -> notifying s n -> t_state s = WS_INITIAL \/ t_state s = WS_WAITING /\ t_pc s = Asleep.
Proof.
  intros Hi (Hp & _). pose proof (on_pc _ s Hi) as Hpc. pose proof (ti_pc s (on_inv _ s Hi)) as H. unfold one_pc in Hpc.
  destruct (t_pc s); try done; [left; apply Hpc|]. destruct H as [[? _]|[? _]]; tauto.
Qed.

Lemma one_note s i n : one_inv (Some i) s -> t_notifiers s !! i = Some n -> n <> NDone -> exists s' n',
  notifier_step false n i s = Next s' /\ one_inv (Some i) s' /\ t_notifiers s' !! i = Some n' /\ (notifier_left n' < notifier_left n)%nat.
Proof.
  intros Hi Hn Hd. destruct (on_notifiers _ s Hi i n Hn) as [?|[_ Hno]]; [done|].
  pose proof (notifier_keeps s i n false (on_inv _ s Hi) Hn) as Hg. pose proof (note_state s i n Hi Hno) as Hst.
  assert (forall m, <[i := m]> (t_notifiers s) !! i = Some m) as Hlook by (intros m; apply list_lookup_insert_eq; by eapply lookup_lt_Some).
  assert (forall p, t_pc s = p -> settled p) as Hse by (intros p <-; apply Hno).
  pose proof (fun n' s' => note_moves s i n n' s' Hi Hn Hno) as Hm.
  assert (forall s', t_state s' = t_state s -> t_pc s = Asleep -> t_state s' = WS_INITIAL -> some_ready s) as Hsl.
  { intros s' -> Hp. pose proof (on_pc _ s Hi) as Hpc. unfold one_pc in Hpc. by rewrite Hp in Hpc. }
  destruct n as [o fl|[|f fl]|f fl|f w fl|fl|]; [..|done]; cbn [notifier_step future_set_ready waitset_set_ready] in *.
  - pose proof (unsub_keeps s i o fl (on_inv _ s Hi) Hn) as Hk. cbn [notifier_step future_set_ready waitset_set_ready] in Hk. destruct (0 <? ao_refcnt (aobj s o)) eqn:E; [|done].
    assert (is_Some (t_objs s !! o)) as Hs by (apply (ti_unsub s (on_inv _ s Hi) (NUnsub o fl) o fl); [by eapply list_elem_of_lookup_2|done]).
    pose proof (fun o' => aobj_refs (-1) o s o' Hs) as Hao.
    eexists _, (NList fl). split; [done|]. split; [|by split; [apply Hlook|cbn; lia]]. apply (Hm (NList fl)); try done. by apply Hsl.
  - eexists _, NDone. split; [done|]. split; [|by split; [apply Hlook|cbn; lia]]. apply (Hm NDone); try done. by apply Hsl.
  - destruct (proj1 (proj2 Hno) f ltac:(left)) as [Hf Hr].
    destruct (ti_linked s (on_inv _ s Hi) f) as (fu & Hfu & Hw & _); [unfold places; rewrite !elem_of_app; tauto|].
    unfold future_set_ready in *. rewrite Hfu in *. cbn [default fmap option_fmap option_map] in *. rewrite Hw in *. eexists _, (NLoad f fl).
    split; [done|]. split; [|by split; [apply Hlook|cbn; lia]]. apply (Hm (NLoad f fl)); try done; [|by apply Hsl]. intros g. by apply obj_of_alter.
  - destruct Hst as [Hst|[Hst Hp]]; rewrite Hst in *.
    + eexists _, (NList fl). split; [done|]. split; [|by split; [apply Hlook|cbn; lia]]. apply (Hm (NList fl)); try done; [by right|by apply Hsl].
    + eexists _, (NCas f true fl). split; [done|]. split; [|by split; [apply Hlook|cbn; lia]]. apply (Hm (NCas f true fl)); try done. by apply Hsl.
  - destruct (proj2 (proj2 Hno)) as [-> Ew]. rewrite decide_True in * by done. eexists _, (NPush fl). split; [done|].
    split; [|by split; [apply Hlook|cbn; lia]]. apply (Hm (NPush fl)); try done; [by right| |].
    + intros _ _. exists f. apply (proj1 (proj2 Hno)). left.
    + intros r Hp. destruct Hst as [?|[_ ?]]; congruence.
  - eexists _, (NList fl). split; [done|]. split; [|by split; [apply Hlook|cbn; lia]]. apply (Hm (NList fl)); try done. by apply Hsl.
Qed.

Lemma run_notifier_ends i m : forall s n, one_inv (Some i) s -> t_notifiers s !! i = Some n -> (notifier_left n <= m)%nat ->
  exists s', run_notifier m i s = Some (Next s') /\ one_inv None s'.
Proof.
  induction m as [|m IH]; intros s n Hi Hn Hm; cbn [run_notifier]; rewrite Hn; destruct (decide (n = NDone)) as [->|Hd].
  1, 3: exists s; (split; [done|]); split; [apply Hi| |apply Hi..].
  1, 2: intros j k E; destruct (on_notifiers _ s Hi j k E) as [?|[[= ->] _]]; [by left|]; left; congruence.
  - destruct n as [| | | | |]; (done || cbn in Hm; lia).
  - destruct (one_note s i n Hi Hn Hd) as (s' & n' & He & Hi' & Hn' & Hl). destruct (IH s' n' Hi' Hn' ltac:(lia)) as (s2 & H2 & Hi2).
    exists s2. split; [|done]. destruct n; (done || by rewrite He).
Qed.

(** ** Events *)

Definition idle (s : trt) : Prop := one_inv None s /\ settled (t_pc s).

(** Events that leave the waitset to itself. *)
Lemma one_still s s' : idle s -> trt_inv s' -> t_notifiers s' = t_notifiers s ->
  (forall o, ao_ready (aobj s' o) = ao_ready (aobj s o) /\ ao_futures (aobj s' o) = ao_futures (aobj s o)) ->
  (forall f, f ∈ places s -> obj_of s' f = obj_of s f) -> t_registered s' = t_registered s -> t_pc s' = t_pc s -> t_state s' = t_state s -> idle s'.
Proof.
  intros [Hi Hse] Hinv Hn Hao Ho Hre Hp Hst. split; [|by rewrite Hp]. split; [done| | | |].
  - intros i n. rewrite Hn. intros E. destruct (on_notifiers None s Hi i n E) as [?|[? _]]; [by left|done].
  - intros o. destruct (Hao o) as [-> ->]. apply (on_ready _ s Hi).
  - intros o f. destruct (Hao o) as [_ ->]. intros Hf. destruct (on_futures _ s Hi o f Hf) as [H1 H2]. unfold kept. rewrite Hre, Hp. split; [done|].
    rewrite Ho; [done|by apply kept_places].
  - pose proof (on_pc _ s Hi) as Hpc. unfold one_pc in *. rewrite Hp, Hst. destruct (t_pc s) as [r| | | |]; try done.
    intros E. destruct (Hpc E) as (f & Hf & Hr). exists f. rewrite Hre. split; [done|]. unfold future_ready in *. rewrite Ho; [|unfold places; rewrite !elem_of_app; tauto].
    destruct (obj_of s f); [by rewrite (proj1 (Hao n))|done].
Qed.

Lemma exec_inv a s s' : one_inv None s -> exec a s = Some (Next s') -> trt_inv s'.
Proof. intros Hi He. apply (exec_guarded a s (Next s') (on_inv None s Hi) He). Qed.

Lemma idle_new s s' : idle s -> exec ANew s = Some (Next s') -> idle s'.
Proof.
  intros Hi He. pose proof (exec_inv _ _ _ (proj1 Hi) He) as Hinv. injection He as <-. apply (one_still s); try done. intros o. unfold aobj. cbn [allocate t_objs].
  destruct (t_objs s !! o) as [a|] eqn:E; [by rewrite lookup_app_l by (by eapply lookup_lt_Some); rewrite E|].
  destruct ((t_objs s ++ _) !! o) as [a|] eqn:E'; [|done]. apply lookup_app_Some in E' as [E'|[_ E']]; [congruence|].
  by apply list_lookup_singleton_Some in E' as [_ <-].
Qed.

Lemma idle_add s o s' : idle s -> exec (AAdd o) s = Some (Next s') -> idle s'.
Proof.
  intros Hi He. pose proof (exec_inv _ _ _ (proj1 Hi) He) as Hinv. cbn [exec] in He. destruct (t_pc s) as [r| | | |] eqn:Hp; try done.
  destruct (Z.ltb_spec 0 (ao_refcnt (aobj s o))) as [Hpos|]; [|done]. injection He as <-.
  assert (is_Some (t_objs s !! o)) as Hs by (unfold aobj in Hpos; destruct (t_objs s !! o); [by eexists|simpl in Hpos; lia]).
  pose proof (fun o' => aobj_refs 1 o s o' Hs) as Hao. apply (one_still s); try done. intros f Hf.
  destruct (ti_linked s (on_inv _ s (proj1 Hi)) f Hf) as (fu & Hfu & _). unfold obj_of. cbn [new_future t_futs].
  by rewrite lookup_app_l by (by eapply lookup_lt_Some).
Qed.

Lemma idle_drop s f r : idle s -> exec (ADrop f) s = Some r -> exists s', r = Next s' /\ idle s'.
Proof.
  intros Hi He. pose proof (exec_guarded _ _ _ (on_inv _ s (proj1 Hi)) He) as Hg. cbn [exec] in He. destruct (t_pc s) as [r0| | | |] eqn:Hp; try done.
  destruct (t_futs s !! f) as [[[o|] [] b]|] eqn:Hf; try done. injection He as <-.
  unfold drop_ref in *. destruct (drop_keeps s f o b (on_inv _ s (proj1 Hi)) Hf) as [Hpos Hinv]. rewrite (proj2 (Z.ltb_lt 0 _) Hpos) in *. eexists. split; [done|].
  pose proof (fun o' => aobj_refs (-1) o s o' (ti_objs s (on_inv _ s (proj1 Hi)) f _ o Hf eq_refl)) as Hao. apply (one_still s); try done. intros g Hg'.
  destruct (ti_linked s (on_inv _ s (proj1 Hi)) g Hg') as (fu & Hfu & Hw & _). unfold obj_of. cbn [alter_fut alter_obj t_futs].
  rewrite list_lookup_alter_ne; [done|]. intros ->. rewrite Hf in Hfu. by injection Hfu as <-.
Qed.

(** The owner starts, or goes on with, a wait. *)
Lemma run_wait s s1 : idle s -> trt_inv s1 -> (exists c, t_pc s1 = Scan c ScStart) -> t_objs s1 = t_objs s -> t_futs s1 = t_futs s ->
  t_unchecked s1 = t_unchecked s -> t_registered s1 = t_registered s -> t_notifiers s1 = t_notifiers s -> one_pc s1 ->
  exists s', run_owner (wait_fuel s) s1 = Some (Next s') /\ idle s'.
Proof.
  intros [Hi Hse] Hinv [c Hp] Ho Hf Hu Hr Hn Hpc. destruct (run_owner_ends (wait_fuel s) s1) as (s' & H1 & H2 & H3).
  - apply (one_moves s); try done; [intros f; unfold obj_of; by rewrite Hf|]. intros f Hk _. unfold kept in *. rewrite Hp, Hr, app_nil_r.
    destruct (t_pc s); try done; by rewrite app_nil_r in Hk.
  - unfold owner_left, wait_fuel. rewrite Hp, Hu, Hr. lia.
  - by exists s'.
Qed.

Lemma idle_wait s : idle s -> possible EWait s -> exists s', exec1 EWait s = Some (Next s') /\ idle s'.
Proof.
  intros Hi [[r He] Hne]. specialize (Hne eq_refl). cbn [exec1 first_action] in *. rewrite He. pose proof (exec_guarded _ _ _ (on_inv _ s (proj1 Hi)) He) as Hg.
  cbn [exec] in He. destruct (t_pc s) as [r0| | | |] eqn:Hp; try done. injection He as <-. apply (run_wait s); try done; [by eexists|].
  split; [by left|done].
Qed.

Lemma idle_resume s : idle s -> possible EResume s -> exists s', exec1 EResume s = Some (Next s') /\ idle s'.
Proof.
  intros Hi [[r He] _]. cbn [exec1 first_action] in *. rewrite He. pose proof (exec_guarded _ _ _ (on_inv _ s (proj1 Hi)) He) as Hg.
  pose proof (ti_pc s (on_inv _ s (proj1 Hi))) as Hpc. pose proof (on_pc _ s (proj1 Hi)) as Hone. unfold one_pc in Hone.
  cbn [exec] in He. destruct (t_queued s) as [|q] eqn:Hq; [by destruct (t_pc s)|].
  destruct Hi as [Hi Hse]. destruct (t_pc s) as [r0| | | |] eqn:Hp; try done; [destruct Hpc; lia|]. injection He as <-.
  destruct Hpc as [[_ ?]|[Hst _]]; [lia|]. specialize (Hone Hst). apply (run_wait s); try done; [split; [done|by rewrite Hp]|by eexists|].
  split; [right; split; done|]. destruct Hone as (f & Hf & _). intros E. cbn [set_pc set_queued t_unchecked t_registered] in E.
  apply app_eq_nil in E as [_ E]. rewrite E in Hf. by apply elem_of_nil in Hf.
Qed.

Lemma notifier_pc weak n i s s' : notifier_step weak n i s = Next s' -> t_pc s' = t_pc s.
Proof.
  destruct n as [o fl|[|f fl]|f fl|f [] fl|fl|]; cbn [notifier_step future_set_ready waitset_set_ready]; try case_decide; try (by intros [= <-]).
  - destruct (0 <? _); by intros [= <-].
  - unfold future_set_ready. destruct (default false _); by intros [= <-].
  - destruct (t_state s); by intros [= <-].
Qed.

Lemma run_notifier_pc m i : forall s s', run_notifier m i s = Some (Next s') -> t_pc s' = t_pc s.
Proof.
  induction m as [|m IH]; intros s s'; cbn [run_notifier]; destruct (t_notifiers s !! i) as [n|]; try (by intros [= <-]);
    destruct n; try done; try (by intros [= <-]); match goal with |- context [notifier_step false ?n i s] => destruct (notifier_step false n i s) eqn:E end;
    intros H; try done; rewrite (IH _ _ H); by apply (notifier_pc _ _ _ _ _ E).
Qed.

Lemma one_notify s o a val : idle s -> t_objs s !! o = Some a -> trt_inv (set_value o val (ao_futures a) s) ->
  one_inv (Some (length (t_notifiers s))) (set_value o val (ao_futures a) s).
Proof.
  intros [Hi Hse] Ha. pose proof (aobj_lookup s o a Ha) as Hao. set (s1 := set_value o val (ao_futures a) s). intros Hinv.
  assert (forall o', aobj s1 o' = if decide (o' = o) then mkAo true val (ao_refcnt a) [] else aobj s o') as Hobj.
  { intros o'. change (aobj s1 o') with (aobj (alter_obj (fun a => mkAo true val (ao_refcnt a) []) o s) o'). rewrite aobj_alter by (by exists a). by rewrite Hao. }
  assert (forall f, future_ready s f = true -> future_ready s1 f = true) as Hfr.
  { intros f. unfold future_ready. change (obj_of s1 f) with (obj_of s f). destruct (obj_of s f); [|done]. rewrite Hobj. by case_decide. }
  assert (kept s = t_registered s) as Hk by (unfold kept; destruct (t_pc s); try done; by rewrite app_nil_r).
  split; [done| | | |].
  - intros i n. cbn [s1 set_value set_notifiers t_notifiers]. intros E. apply lookup_app_Some in E as [E|[Hlen E]].
    + destruct (on_notifiers None s Hi i n E) as [?|[? _]]; [by left|done].
    + apply list_lookup_singleton_Some in E as [E <-]. right. split; [f_equal; lia|]. split; [done|]. split; [|done]. cbn [n_pending]. intros f Hf.
      rewrite <- Hao in Hf. destruct (on_futures _ s Hi o f Hf) as [H1 H2]. rewrite Hk in H1. split; [done|].
      unfold future_ready. change (obj_of s1 f) with (obj_of s f). by rewrite H2, Hobj, decide_True.
  - intros o'. rewrite Hobj. case_decide; [done|apply (on_ready _ s Hi)].
  - intros o' f. rewrite Hobj. case_decide; [intros Hf; by apply elem_of_nil in Hf|apply (on_futures _ s Hi)].
  - pose proof (on_pc _ s Hi) as Hpc. unfold one_pc in *. cbn [s1 set_value set_notifiers alter_obj t_pc t_state]. destruct (t_pc s); try done.
    intros E. destruct (Hpc E) as (f & Hf & Hr). exists f. split; [done|by apply Hfr].
Qed.

Lemma idle_notify s o val : idle s -> possible (ENotify o val) s -> exists s', exec1 (ENotify o val) s = Some (Next s') /\ idle s'.
Proof.
  intros Hi [[r He] _]. cbn [exec1 first_action] in *. rewrite He. pose proof (exec_guarded _ _ _ (on_inv _ s (proj1 Hi)) He) as Hg.
  cbn [exec] in He. destruct (t_objs s !! o) as [a|] eqn:Ha; [|by destruct (t_pc s)]. destruct (ao_ready a) eqn:Er; [by destruct (t_pc s)|].
  assert (r = Next (set_value o val (ao_futures a) s)) as -> by (destruct (t_pc s); by injection He as <-). cbn [and_then guarded] in *.
  destruct (run_notifier_ends (length (t_notifiers s)) (notify_fuel s o) _ (NUnsub o (ao_futures a)) (one_notify s o a val Hi Ha Hg)) as (s' & H2 & H3).
  - cbn [set_value set_notifiers t_notifiers]. by rewrite list_lookup_middle.
  - unfold notify_fuel. rewrite (aobj_lookup s o a Ha). cbn. lia.
  - exists s'. split; [done|]. split; [done|]. rewrite (run_notifier_pc _ _ _ _ H2). apply Hi.
Qed.

Lemma exec1_idle e s : idle s -> possible e s -> exists s', exec1 e s = Some (Next s') /\ idle s'.
Proof.
  intros Hi Hp. destruct e as [|o|f| |o val|]; auto using idle_wait, idle_notify, idle_resume; destruct Hp as [[r He] _]; cbn [exec1 first_action] in *.
  - rewrite He. injection He as <-. eexists. split; [done|]. by apply (idle_new s).
  - rewrite He. pose proof (exec_guarded _ _ _ (on_inv _ s (proj1 Hi)) He) as Hg. destruct r as [s'|e].
    + exists s'. split; [done|]. by apply (idle_add s o).
    + cbn [exec] in He. destruct (t_pc s); try done. by destruct (0 <? _).
  - destruct (idle_drop s f r Hi He) as (s' & -> & Hs). by exists s'.
Qed.

Lemma reachable1_idle s : reachable1 s -> idle s.
Proof.
  induction 1 as [|s e s' _ IH Hp He].
  - split; [|done]. split; [apply trt_init_inv|done|done| |done]. intros o f Hf. by apply elem_of_nil in Hf.
  - destruct (exec1_idle e s IH Hp) as (s2 & H2 & Hi). rewrite H2 in He. by injection He as <-.
Qed.
