(* ===== verification/TrtTheorems.v ===== *)
(** * TrtTheorems: what a waiting task can rely on *)
From Stdlib Require Import ZArith Lia.
From stdpp Require Import base tactics list numbers.
From S2P Require Import Prelude TrtSync TrtSafe TrtWake TrtOne.

Open Scope Z_scope.

(** ** From the runs of one scheduler to interleavings *)

Lemma run_owner_reachable n : forall s s', trt_reachable s -> run_owner n s = Some (Next s') -> trt_reachable s'.
Proof.
  induction n as [|n IH]; intros s s' Hr; cbn [run_owner]; destruct (owner_step false s) as [[s1|e]|] eqn:Hs; try done; try (by intros [= <-]).
  apply IH, (reach_step s (AOwner false) s1 Hr). cbn [exec]. by destruct (t_pc s).
Qed.

Lemma run_notifier_reachable m i : forall s s', trt_reachable s -> run_notifier m i s = Some (Next s') -> trt_reachable s'.
Proof.
  induction m as [|m IH]; intros s s' Hr; cbn [run_notifier]; destruct (t_notifiers s !! i) as [n|] eqn:Hn; try (by intros [= <-]).
  - by destruct n; try done; intros [= <-].
  - destruct (decide (n = NDone)) as [->|Hd]; [by intros [= <-]|]. destruct (notifier_step false n i s) as [s1|e] eqn:Hs.
    + assert (trt_reachable s1) as Hr1 by (apply (reach_step s (ANotifier i false) s1 Hr); cbn [exec]; rewrite Hn; destruct (t_pc s); cbn; by rewrite Hs).
      destruct n; (done || apply IH, Hr1).
    + by destruct n.
Qed.

Lemma exec1_reachable e s s' : trt_reachable s -> exec1 e s = Some (Next s') -> trt_reachable s'.
Proof.
  intros Hr. assert (forall a s1, exec a s = Some (Next s1) -> trt_reachable s1) as Hs by (intros a s1; by apply reach_step).
  destruct e; cbn [exec1]; try apply Hs; unfold and_then.
  all: match goal with |- context [exec ?a ?t] => destruct (exec a t) as [[s1|e]|] eqn:He end; try done; specialize (Hs _ _ He).
  - by apply run_owner_reachable.
  - by apply run_notifier_reachable.
  - by apply run_owner_reachable.
Qed.

Lemma reachable1_reachable s : reachable1 s -> trt_reachable s.
Proof. induction 1 as [|s e s' _ IH _ He]; [constructor|]. by apply (exec1_reachable e s). Qed.

(** ** A woken owner has its future *)

Definition waking (s : trt) : Prop :=
  match t_pc s with
  | Scan AwaitResume _ | Running (Some None) => True
  | Running (Some (Some f)) => future_ready s f = true
  | _ => False
  end.

Lemma scan_waking p s s' : trt_inv s -> t_pc s = Scan AwaitResume p -> scan_step AwaitResume p s = Next s' -> waking s'.
Proof.
  intros Hi Hp.
  destruct p as [| |[|f todo]| |f|f|f|f|f|]; cbn [scan_step register_step]; try (by intros [= <-]).
  - destruct (_ =? _)%nat; by intros [= <-].
  - intros H. apply on_obj_next in H as (o & _ & H & _). destruct (ao_ready (aobj s o)); by injection H as <-.
  - destruct (t_unchecked s); by intros [= <-].
  - intros H. apply on_obj_next in H as (o & _ & H & _). destruct (ao_ready (aobj s o)); by injection H as <-.
  - intros H. apply on_obj_next in H as (o & _ & H & _). destruct (ao_ready (aobj s o)); by injection H as <-.
  - intros [= <-]. pose proof (ti_found s Hi f _ _ Hp (or_intror eq_refl)) as Hr. unfold waking, future_ready in *. cbn [set_pc t_pc].
    change (obj_of (set_pc _ _) f) with (obj_of (alter_fut null_waitset f s) f). by rewrite obj_of_alter.
  - case_decide; by intros [= <-].
Qed.

Lemma run_owner_waking n : forall s s', trt_inv s -> waking s -> run_owner n s = Some (Next s') -> waking s'.
Proof.
  induction n as [|n IH]; intros s s' Hi Hw; cbn [run_owner]; destruct (owner_step false s) as [[s1|e]|] eqn:Hs; try done; try (by intros [= <-]).
  pose proof (owner_keeps s false _ Hi Hs) as Hi1. apply IH; [done|]. unfold owner_step in Hs. unfold waking in Hw.
  destruct (t_pc s) as [r|[] p| | |] eqn:Hp; try done. injection Hs as Hs. by apply (scan_waking p s).
Qed.

(** A future that waits and is ready, when the owner sleeps, is a registered one. *)
Lemma asleep_registered s f : trt_reachable s -> t_pc s = Asleep -> awaited (t_futs s) f -> f ∈ t_registered s.
Proof.
  intros Hr Hp Ha. destruct (reachable_complete s Hr) as [H1 H2]. rewrite Hp in H2. pose proof (H1 f Ha) as H. unfold places in H.
  by rewrite (H2 I), Hp, app_nil_r in H.
Qed.

Lemma asleep_unready s f : trt_reachable s -> t_pc s = Asleep -> t_queued s = 0%nat -> (forall n, n ∈ t_notifiers s -> n = NDone) ->
  awaited (t_futs s) f -> future_ready s f = false.
Proof.
  intros Hr Hp Hq Hn Ha. pose proof (trt_reachable_inv s Hr) as Hi. destruct (future_ready s f) eqn:Er; [|done].
  assert (count is_push (t_notifiers s) = 0%nat) as Hc by (apply count_none; intros n Hin; by rewrite (Hn n Hin)).
  assert (f ∉ pending s) as Hpe.
  { intros H. apply list_elem_of_bind in H as (n & H1 & H2). rewrite (Hn n H2) in H1. by apply elem_of_nil in H1. }
  pose proof (kept_noticed s f Asleep Hi Hp (asleep_registered s f Hr Hp Ha) Er Hpe) as H. cbn [noticed] in H.
  pose proof (ti_pc s Hi) as Hpc. rewrite Hp, Hq, Hc in Hpc. destruct Hpc as [[? _]|[_ ?]]; [done|lia].
Qed.

(** A sleeping owner on one scheduler. *)
Lemma asleep_queued s : trt_reachable s -> one_inv None s -> t_pc s = Asleep ->
  (t_queued s <= 1)%nat /\ (t_queued s = 1%nat <-> exists f, awaited (t_futs s) f /\ future_ready s f = true).
Proof.
  intros Hr Hi Hp. pose proof (ti_pc s (on_inv _ s Hi)) as Hpc. pose proof (on_pc _ s Hi) as Hone. unfold one_pc in Hone. rewrite Hp in *.
  assert (forall n, n ∈ t_notifiers s -> n = NDone) as Hn.
  { intros n Hin. apply list_elem_of_lookup_1 in Hin as [i Hin]. by destruct (on_notifiers _ s Hi i n Hin) as [?|[? _]]. }
  assert (count is_push (t_notifiers s) = 0%nat) as Hc by (apply count_none; intros n Hin; by rewrite (Hn n Hin)).
  rewrite Hc in Hpc. cbn [pc_ok] in Hpc. split; [lia|]. split.
  - intros Hq. destruct Hpc as [[_ ?]|[Hst _]]; [lia|]. destruct (Hone Hst) as (f & Hf & Hrd). exists f. split; [|done].
    destruct (ti_linked s (on_inv _ s Hi) f) as (fu & Hfu & Hw & _); [unfold places; rewrite !elem_of_app; tauto|].
    unfold awaited. by rewrite Hfu; cbn; rewrite Hw.
  - intros (f & Ha & Hrd). destruct (decide (t_queued s = 0%nat)) as [Hz|]; [|lia]. by rewrite (asleep_unready s f) in Hrd.
Qed.

Lemma resume_returns s s' : reachable1 s -> exec1 EResume s = Some (Next s') -> exists f, t_pc s' = Running (Some (Some f)) /\ future_ready s' f = true.
Proof.
  intros Hr1 He. pose proof (reachable1_idle s Hr1) as Hid. assert (possible EResume s) as Hp.
  { split; [|done]. cbn [exec1 first_action and_then] in *. destruct (exec AResume s); [by eexists|done]. }
  destruct (exec1_idle EResume s Hid Hp) as (s2 & H2 & Hi & Hse). rewrite He in H2. injection H2 as <-.
  assert (waking s') as Hw.
  { cbn [exec1] in He. unfold and_then in He. destruct (exec AResume s) as [[s1|e]|] eqn:E; try done.
    apply (run_owner_waking (wait_fuel s) s1); [by apply (exec_inv _ s _ (proj1 Hid) E)| |done].
    cbn [exec] in E. destruct (t_queued s); [by destruct (t_pc s)|]. destruct (t_pc s); try done. by injection E as <-. }
  pose proof (on_pc _ s' Hi) as Hpc. unfold one_pc in Hpc. unfold waking in Hw.
  destruct (t_pc s') as [[[f|]|]| | | |] eqn:Hp'; try done; [by exists f|by destruct Hpc].
Qed.

(** ** Concrete runs *)

(** Where a list of actions leads to. *)
Definition after (l : list action) : trt := match exec_all l trt_init with Some (Next s) => s | _ => trt_init end.

Lemma exec_all_reachable l : forall s s', trt_reachable s -> exec_all l s = Some (Next s') -> trt_reachable s'.
Proof.
  induction l as [|a l IH]; intros s s' Hr; cbn [exec_all]; [by intros [= <-]|]. destruct (exec a s) as [[s1|e]|] eqn:He; try done.
  by apply IH, (reach_step s a).
Qed.

Lemma after_reachable l : trt_reachable (after l).
Proof.
  unfold after. destruct (exec_all l trt_init) as [[s|e]|] eqn:He; [|constructor..]. apply (exec_all_reachable l trt_init); [constructor|done].
Qed.

Definition owner (n : nat) : list action := replicate n (AOwner false).
Definition notifier_steps (i n : nat) : list action := replicate n (ANotifier i false).

(** Events on one scheduler, as far as they are possible. *)
Fixpoint play (l : list sched_event) (s : trt) : option trt :=
  match l with
  | [] => Some s
  | e :: l' => if decide (possible e s) then match exec1 e s with Some (Next s') => play l' s' | _ => None end else None
  end.

Lemma play_reachable l : forall s s', reachable1 s -> play l s = Some s' -> reachable1 s'.
Proof.
  induction l as [|e l IH]; intros s s' Hr; cbn [play]; [by intros [= <-]|]. case_decide; [|done].
  destruct (exec1 e s) as [[s1|c]|] eqn:He; try done. by apply IH, (reach1_step s e).
Qed.

(** The owner of an empty waitset tries for ever to fall asleep. *)
Lemma empty_spins n : forall s, t_unchecked s = [] -> t_registered s = [] -> t_state s <> WS_SCANNING ->
  t_pc s = CasWaiting \/ t_pc s = Scan AwaitReady ScStart \/ t_pc s = Scan AwaitSuspend ScStart -> run_owner n s = None.
Proof.
  induction n as [|n IH]; intros s Hu Hr Hst Hp; cbn [run_owner]; unfold owner_step; destruct Hp as [-> | [-> | ->]]; cbn [scan_step register_step];
    rewrite ?Hu, ?Hr; cbn [length Nat.add Nat.eqb]; try (rewrite decide_False by tauto); try done; apply IH; try done; cbn; tauto.
Qed.

Lemma empty_wait n s : t_unchecked s = [] -> t_registered s = [] -> t_state s = WS_INITIAL -> (exists r, t_pc s = Running r) ->
  and_then (exec AWait s) (run_owner n) = None.
Proof.
  intros Hu Hr Hst [r Hp]. cbn [exec]. rewrite Hp. cbn [and_then]. apply empty_spins; try done; [cbn; congruence|]. tauto.
Qed.

(** ** The theorems *)


(** C20: on one scheduler, where a task runs until it suspends and a notification to
    its end, nothing crashes and every wait and every notification comes to its end;
    a wait never returns a null future; and a sleeping task is in the run queue, once,
    if and only if one of its futures is ready, and when it is resumed its wait
    returns a future that is ready.  The waits are those on a waitset that is not
    empty; a wait on an empty one never ends. *)
Theorem one_scheduler_wait s : reachable1 s ->
  (forall e, possible e s -> exists s', exec1 e s = Some (Next s')) /\
  (t_pc s = Asleep \/ exists r, t_pc s = Running r /\ r <> Some None) /\
  (t_pc s = Asleep ->
     (t_queued s <= 1)%nat /\ (t_queued s = 1%nat <-> exists f, awaited (t_futs s) f /\ future_ready s f = true)) /\
  (forall s', exec1 EResume s = Some (Next s') -> exists f, t_pc s' = Running (Some (Some f)) /\ future_ready s' f = true) /\
  (forall r n, t_pc s = Running r -> t_unchecked s ++ t_registered s = [] -> and_then (exec AWait s) (run_owner n) = None).
Proof.
  intros Hr1. pose proof (reachable1_reachable s Hr1) as Hr. pose proof (reachable1_idle s Hr1) as Hid. destruct (Hid) as [Hi Hse].
  pose proof (on_pc _ s Hi) as Hpc. unfold one_pc in Hpc. split; [|split; [|split; [|split]]].
  - intros e Hp. destruct (exec1_idle e s Hid Hp) as (s' & H & _). by exists s'.
  - destruct (t_pc s) as [r| | | |]; try done; [right; exists r; split; [done|apply Hpc]|by left].
  - intros Hp. rewrite Hp in Hpc. by apply asleep_queued.
  - intros s' He. by apply (resume_returns s).
  - intros r n Hp [Hu Hg]%app_nil. rewrite Hp in Hpc. apply empty_wait; [done|done|apply Hpc|by exists r].
Qed.

(** what interleavings with other schedulers can do.  Two futures wait.  A
    notification that comes to a future after a wait returned it uses a null
    waitset; one that took its time between the future and the waitset's state wakes
    the owner in a later wait, which then returns a null future although the code
    counts on a ready one; and a scheduler can resume the owner before its suspension
    is recorded.  With or without other schedulers, a task that awaits an empty
    waitset spins for ever, where a null future is announced. *)
Theorem waitset_hazards :
  let waiting := [ANew; ANew; AAdd 0; AAdd 1; AWait] ++ owner 14 in
  let asleep := waiting ++ owner 1 in
  let both_returned := notifier_steps 0 6 ++ [AResume] ++ owner 5 ++ [AWait] ++ owner 5 in
  exec_all (asleep ++ [ANotify 0 7; ANotify 1 8] ++ both_returned ++ notifier_steps 1 2) trt_init = Some (Crash NullWaitset) /\
  (exists s, exec_all (asleep ++ [ANotify 0 7; ANotify 1 8] ++ notifier_steps 1 2 ++ both_returned ++
                       [ANew; AAdd 2; AWait] ++ owner 11 ++ notifier_steps 1 3 ++ [AResume] ++ owner 6) trt_init = Some (Next s) /\
             t_pc s = Running (Some None)) /\
  exec_all (waiting ++ [ANotify 0 7] ++ notifier_steps 0 5 ++ [AResume]) trt_init = Some (Crash StaleCoroutine) /\
  (forall n s, t_unchecked s = [] -> t_registered s = [] -> t_state s = WS_INITIAL -> (exists r, t_pc s = Running r) ->
     and_then (exec AWait s) (run_owner n) = None).
Proof.
  intros waiting asleep both_returned. split; [by vm_compute|]. split; [eexists; split; by vm_compute|]. split; [by vm_compute|].
  apply empty_wait.
Qed.


Lemma one_scheduler_wait_witness :
  exists s s' f, play [ENew; EAdd 0; EWait; ENotify 0 7] trt_init = Some s /\ t_pc s = Asleep /\ exec1 EResume s = Some (Next s') /\
  t_pc s' = Running (Some (Some f)) /\ future_ready s' f = true.
Proof.
  destruct (play [ENew; EAdd 0; EWait; ENotify 0 7] trt_init) as [s|] eqn:Hs; [|by vm_compute in Hs]. vm_compute in Hs.
  assert (reachable1 s) as Hr by (apply (play_reachable [ENew; EAdd 0; EWait; ENotify 0 7] trt_init); [constructor|by vm_compute]).
  destruct (exec1 EResume s) as [[s'|e]|] eqn:He; [|by injection Hs as <-; vm_compute in He..].
  destruct (proj1 (proj2 (proj2 (proj2 (one_scheduler_wait s Hr)))) s' He) as (f & Hf). exists s, s', f. split; [done|]. split; [by injection Hs as <-|done].
Defined.
