(* ===== verification/RwLock.v ===== *)
(** * RwLock: the lock between operations and the growth of the directory
      (include/uDepot/rwlock.hh, include/uDepot/brlock.hh,
       include/uDepot/rwlock-pagefault.hh, uDepot/rwlock-pagefault.cc,
       uDepot/rwlock-pagefault-trt.cc, uDepot/thread_id.cc)

    A reader takes one of 128 counters, chosen by the number of its thread; the
    writer, of which there is one at a time ([grow_lock_m]), takes all of them in
    turn, waits until it has seen each of them without readers, and gives them back.
    Readers that come meanwhile sleep until the writer leaves.  Every access to
    shared memory is a step; the steps of any number of readers and of the writer
    interleave. *)
From Stdlib Require Import ZArith Lia.
From stdpp Require Import base tactics list numbers.
From S2P Require Import Prelude SalsaScm.

Open Scope Z_scope.

(** ** Thread numbers (thread_id.cc) *)

Definition TLS_id_unitialized : Z := 2 ^ 32 - 1.

(** [TLS_id_next_] and the number of each thread. *)
Record thread_ids := mkIds { TLS_id_next_ : Z; TLS_id_ : nat -> Z }.

(** The result is the error; thread [t] has its number in [TLS_id_]. *)
Definition ThreadId_allocate (t : nat) (s : thread_ids) : Z * thread_ids :=
  if negb (TLS_id_ s t =? TLS_id_unitialized) then (EALREADY, s)
  else (0, mkIds (if TLS_id_next_ s <? 2 ^ 32 - 1 then u32 (TLS_id_next_ s + 1) else TLS_id_next_ s)
                 (fupd (TLS_id_ s) t (TLS_id_next_ s))).

Definition ThreadId_release (t : nat) (s : thread_ids) : Z * thread_ids :=
  if TLS_id_ s t =? TLS_id_unitialized then (EALREADY, s)
  else (0, mkIds (TLS_id_next_ s) (fupd (TLS_id_ s) t TLS_id_unitialized)).

(** ** The lock *)

Definition RWLOCK_BIAS : Z := 0x01000000.
Definition LOCKS_NR : nat := 128.

(** [ThreadId::get() % LOCKS_NR] *)
Definition lock_of (tid : Z) : nat := Z.to_nat (tid mod Z.of_nat LOCKS_NR).

(** How readers wait: on a futex, or on an asynchronous object of trt. *)
Inductive kind := Futex | Trt.

(** Between two accesses of [rd_enter], the operation, and [rd_exit]. *)
Inductive reader_pc :=
  | RIdle       (** no operation *)
  | RCheck      (** [rwlock_ == 0] *)
  | RSub        (** [fetch_sub(1)] *)
  | RUndo       (** [fetch_add(1)] after a [fetch_sub] that came too late *)
  | RWait       (** going to sleep *)
  | RSleep
  | RIn.        (** inside *)

Inductive writer_pc :=
  | WIdle
  | WFlag       (** [write_in_progress_ = 1] *)
  | WEnter (j : nat)
  | WScan (j : nat)
  | WIn
  | WExit (j : nat)
  | WClear      (** [write_in_progress_ = 0] *)
  | WWake.

#[global] Instance reader_pc_eq : EqDecision reader_pc.
Proof. solve_decision. Defined.
#[global] Instance writer_pc_eq : EqDecision writer_pc.
Proof. solve_decision. Defined.

Record lock_st := mkLock {
  rwlock_ : nat -> Z;         (** the counters *)
  write_in_progress_ : bool;
  rwpf_trt_ao_ : bool;        (** whether there is an asynchronous object *)
  rpc : nat -> reader_pc;
  wpc : writer_pc
}.

Definition lock_new : lock_st := mkLock (fun _ => RWLOCK_BIAS) false false (fun _ => RIdle) WIdle.

Definition set_rpc (i : nat) (p : reader_pc) (s : lock_st) : lock_st :=
  mkLock (rwlock_ s) (write_in_progress_ s) (rwpf_trt_ao_ s) (fupd (rpc s) i p) (wpc s).
Definition set_wpc (p : writer_pc) (s : lock_st) : lock_st :=
  mkLock (rwlock_ s) (write_in_progress_ s) (rwpf_trt_ao_ s) (rpc s) p.

(** [fetch_add] of counter [j]; a [fetch_sub] adds a negative number. *)
Definition fetch_add (j : nat) (d : Z) (s : lock_st) : lock_st :=
  mkLock (fupd (rwlock_ s) j (s32 (rwlock_ s j + d))) (write_in_progress_ s) (rwpf_trt_ao_ s) (rpc s) (wpc s).

Definition set_write_flag (b : bool) (s : lock_st) : lock_st := mkLock (rwlock_ s) b (rwpf_trt_ao_ s) (rpc s) (wpc s).
Definition set_ao (b : bool) (s : lock_st) : lock_st := mkLock (rwlock_ s) (write_in_progress_ s) b (rpc s) (wpc s).

(** A reader that goes to sleep: the futex compares [write_in_progress_] with 1;
    the trt lock subscribes to the object, if there is one. *)
Definition sleeps (k : kind) (s : lock_st) : bool :=
  match k with Futex => write_in_progress_ s | Trt => rwpf_trt_ao_ s end.

(** ** One counter (class RWLock) *)

(** [rd_try_lock] of reader [i] on counter [j], access by access. *)
Definition rd_try_step (i j : nat) (s : lock_st) : lock_st :=
  match rpc s i with
  | RCheck => set_rpc i (if rwlock_ s j =? 0 then RWait else RSub) s
  | RSub => set_rpc i (if 0 <? rwlock_ s j then RIn else RUndo) (fetch_add j (-1) s)
  | RUndo => set_rpc i RWait (fetch_add j 1 s)
  | _ => s
  end.

Definition rd_unlock (j : nat) (s : lock_st) : lock_st := fetch_add j 1 s.
Definition wr_enter (j : nat) (s : lock_st) : lock_st := fetch_add j (- RWLOCK_BIAS) s.
Definition wr_ready (j : nat) (s : lock_st) : bool := rwlock_ s j =? 0.
Definition wr_exit (j : nat) (s : lock_st) : lock_st := fetch_add j RWLOCK_BIAS s.

(** ** The writer on all counters (classes BRLock and rwlock_pagefault_base) *)

(** The counter after [j], or what follows the last one. *)
Definition next_lock (j : nat) (p : nat -> writer_pc) (last : writer_pc) : writer_pc :=
  if (S j <? LOCKS_NR)%nat then p (S j) else last.

(** [wr_enter], [wr_ready] until it is, and [wr_exit]. *)
Definition base_step (s : lock_st) : lock_st :=
  match wpc s with
  | WFlag => set_wpc (WEnter 0) (set_write_flag true s)
  | WEnter j => set_wpc (next_lock j WEnter (WScan 0)) (wr_enter j s)
  | WScan j => set_wpc (if wr_ready j s then next_lock j WScan WIn else WScan 0) s
  | WExit j => set_wpc (next_lock j WExit WClear) (wr_exit j s)
  | WClear => set_wpc WWake (set_write_flag false s)
  | _ => s
  end.

(** ** The two locks (classes rwlock_pagefault and rwlock_pagefault_trt) *)

Section Steps.
(** The numbers of the thread that runs reader [i] when it enters and leaves. *)
Context (k : kind) (tid_in tid_out : nat -> Z).

(** A step of reader [i]: [rd_enter], the operation and [rd_exit]. *)
Definition reader_step (i : nat) (s : lock_st) : lock_st :=
  match rpc s i with
  | RIdle => set_rpc i RCheck s
  | RCheck | RSub | RUndo => rd_try_step i (lock_of (tid_in i)) s
  | RWait => set_rpc i (if sleeps k s then RSleep else RCheck) s
  | RSleep => s
  | RIn => set_rpc i RIdle (rd_unlock (lock_of (tid_out i)) s)
  end.

(** A wait on the futex that ends without a wake-up. *)
Definition interrupt (i : nat) (s : lock_st) : lock_st :=
  if decide (rpc s i = RSleep) then set_rpc i RCheck s else s.

Definition wake_all (s : lock_st) : lock_st :=
  mkLock (rwlock_ s) (write_in_progress_ s) (rwpf_trt_ao_ s)
         (fun i => if decide (rpc s i = RSleep) then RCheck else rpc s i) (wpc s).

Definition futex_write_step (s : lock_st) : lock_st :=
  match wpc s with
  | WIdle => set_wpc WFlag s
  | WIn => set_wpc (WExit 0) s
  | WWake => set_wpc WIdle (wake_all s)
  | _ => base_step s
  end.

(** The asynchronous object goes up before the counters are taken, and is gone before
    they are given back. *)
Definition trt_write_step (s : lock_st) : lock_st :=
  match wpc s with
  | WIdle => set_wpc WFlag (set_ao true s)
  | WIn => set_wpc (WExit 0) (set_ao false s)
  | WWake => set_wpc WIdle (wake_all s)
  | _ => base_step s
  end.

(** A step of the writer: [write_enter], [write_wait_readers], [write_exit]. *)
Definition writer_step (s : lock_st) : lock_st :=
  match k with Futex => futex_write_step s | Trt => trt_write_step s end.

(** The interleavings of [n] readers and the writer. *)
Inductive rw_step (n : nat) : lock_st -> lock_st -> Prop :=
  | step_reader i s : (i < n)%nat -> rw_step n s (reader_step i s)
  | step_interrupt i s : k = Futex -> (i < n)%nat -> rw_step n s (interrupt i s)
  | step_writer s : rw_step n s (writer_step s).

Inductive rw_steps (n : nat) : lock_st -> lock_st -> Prop :=
  | steps_refl s : rw_steps n s s
  | steps_cons s s1 s2 : rw_step n s s1 -> rw_steps n s1 s2 -> rw_steps n s s2.

(** The steps of reader and writer at one place. *)
Lemma reader_step_eq i s : reader_step i s =
  match rpc s i with
  | RIdle => set_rpc i RCheck s
  | RCheck => set_rpc i (if rwlock_ s (lock_of (tid_in i)) =? 0 then RWait else RSub) s
  | RSub => set_rpc i (if 0 <? rwlock_ s (lock_of (tid_in i)) then RIn else RUndo) (fetch_add (lock_of (tid_in i)) (-1) s)
  | RUndo => set_rpc i RWait (fetch_add (lock_of (tid_in i)) 1 s)
  | RWait => set_rpc i (if sleeps k s then RSleep else RCheck) s
  | RSleep => s
  | RIn => set_rpc i RIdle (fetch_add (lock_of (tid_out i)) 1 s)
  end.
Proof. unfold reader_step, rd_try_step. by destruct (rpc s i). Qed.

Lemma writer_step_eq s : writer_step s =
  match wpc s with
  | WIdle => match k with Futex => set_wpc WFlag s | Trt => set_wpc WFlag (set_ao true s) end
  | WFlag => set_wpc (WEnter 0) (set_write_flag true s)
  | WEnter j => set_wpc (next_lock j WEnter (WScan 0)) (fetch_add j (- RWLOCK_BIAS) s)
  | WScan j => set_wpc (if rwlock_ s j =? 0 then next_lock j WScan WIn else WScan 0) s
  | WIn => match k with Futex => set_wpc (WExit 0) s | Trt => set_wpc (WExit 0) (set_ao false s) end
  | WExit j => set_wpc (next_lock j WExit WClear) (fetch_add j RWLOCK_BIAS s)
  | WClear => set_wpc WWake (set_write_flag false s)
  | WWake => set_wpc WIdle (wake_all s)
  end.
Proof. unfold writer_step, futex_write_step, trt_write_step, base_step. by destruct k, (wpc s). Qed.

End Steps.

(** ** Counting readers *)

Fixpoint count_if (P : nat -> bool) (n : nat) : Z :=
  match n with O => 0 | S m => count_if P m + (if P m then 1 else 0) end.

Lemma count_if_range P n : 0 <= count_if P n <= Z.of_nat n.
Proof. induction n as [|n IH]; [simpl; lia|]. cbn [count_if]. destruct (P n); lia. Qed.

Lemma count_if_ext P Q n : (forall i, (i < n)%nat -> P i = Q i) -> count_if P n = count_if Q n.
Proof. induction n as [|n IH]; intros H; [done|]. cbn [count_if]. rewrite IH, (H n) by (intros; try apply H; lia). done. Qed.

Lemma count_if_change P Q n i : (i < n)%nat -> (forall x, x <> i -> P x = Q x) ->
  count_if Q n = count_if P n - (if P i then 1 else 0) + (if Q i then 1 else 0).
Proof.
  intros Hi H. induction n as [|n IH]; [lia|]. cbn [count_if]. destruct (decide (i = n)) as [->|Hne].
  - rewrite (count_if_ext Q P n) by (intros x Hx; symmetry; apply H; lia). lia.
  - rewrite IH, (H n) by lia. lia.
Qed.

Lemma count_if_zero P n i : count_if P n = 0 -> (i < n)%nat -> P i = false.
Proof.
  induction n as [|n IH]; intros H Hi; [lia|]. cbn [count_if] in H. pose proof (count_if_range P n).
  destruct (decide (i = n)) as [->|]; [by destruct (P n); [lia|]|]. apply IH; [|lia]. destruct (P n); lia.
Qed.

Lemma count_if_none P n : (forall i, (i < n)%nat -> P i = false) -> count_if P n = 0.
Proof. intros H. rewrite (count_if_ext P (fun _ => false)) by done. clear H. induction n as [|n IH]; [done|]. cbn [count_if]. lia. Qed.

(** ** The invariant *)

(** A counter that the writer holds, and one that it has seen without readers
    since it holds it. *)
Definition writer_has (p : writer_pc) (j : nat) : bool :=
  match p with
  | WEnter m => (j <? m)%nat
  | WScan _ | WIn => true
  | WExit m => (m <=? j)%nat
  | _ => false
  end.

Definition seen_free (p : writer_pc) (j : nat) : bool :=
  match p with WScan m => (j <? m)%nat | WIn => true | _ => false end.

(** The places at which a reader has the counter one lower. *)
Definition lowers (p : reader_pc) : bool := match p with RUndo | RIn => true | _ => false end.

Definition flag_up (p : writer_pc) : bool :=
  match p with WEnter _ | WScan _ | WIn | WExit _ | WClear => true | _ => false end.
Definition ao_up (k : kind) (p : writer_pc) : bool :=
  match k, p with Trt, (WFlag | WEnter _ | WScan _ | WIn) => true | _, _ => false end.

(** A writer that has yet to wake the readers. *)
Definition will_wake (p : writer_pc) : bool := match p with WIdle => false | _ => true end.

Definition in_range (p : writer_pc) : Prop :=
  match p with WEnter j | WScan j | WExit j => (j < LOCKS_NR)%nat | _ => True end.

Section Inv.
Context (k : kind) (tid : nat -> Z) (n : nat) (Hn : Z.of_nat n < RWLOCK_BIAS).

Local Abbreviation lk i := (lock_of (tid i)).

(** The readers that count in counter [j]. *)
Definition readers (s : lock_st) (j : nat) : Z := count_if (fun i => lowers (rpc s i) && (lk i =? j)%nat) n.

Record lock_inv (s : lock_st) : Prop := {
  li_value j : (j < LOCKS_NR)%nat -> rwlock_ s j = (if writer_has (wpc s) j then 0 else RWLOCK_BIAS) - readers s j;
  li_free i : (i < n)%nat -> seen_free (wpc s) (lk i) = true -> rpc s i <> RIn;
  li_flag : write_in_progress_ s = flag_up (wpc s);
  li_ao : rwpf_trt_ao_ s = ao_up k (wpc s);
  li_sleep i : rpc s i = RSleep -> will_wake (wpc s) = true;
  li_pc : in_range (wpc s)
}.

Lemma lk_range i : (lk i < LOCKS_NR)%nat.
Proof. unfold lock_of, LOCKS_NR. pose proof (Z.mod_pos_bound (tid i) 128). lia. Qed.

Lemma readers_range s j : 0 <= readers s j <= Z.of_nat n.
Proof. apply count_if_range. Qed.

Lemma value_range s j : lock_inv s -> (j < LOCKS_NR)%nat -> - RWLOCK_BIAS < rwlock_ s j <= RWLOCK_BIAS.
Proof. intros Hi Hj. rewrite (li_value _ Hi j Hj). pose proof (readers_range s j). unfold RWLOCK_BIAS in *. destruct (writer_has _ _); lia. Qed.

Lemma lock_new_inv : lock_inv lock_new.
Proof.
  split; try done; [|by destruct k]. intros j _. cbn. unfold readers. rewrite count_if_none by done. lia.
Qed.

(** Reader [i] moves to [p]; its counter follows. *)
Lemma readers_move s i p j : (i < n)%nat ->
  readers (set_rpc i p s) j = readers s j - (if lowers (rpc s i) && (lk i =? j)%nat then 1 else 0) + (if lowers p && (lk i =? j)%nat then 1 else 0).
Proof.
  intros Hi. unfold readers. rewrite (count_if_change (fun x => lowers (rpc s x) && (lk x =? j)%nat) _ n i Hi).
  - cbn [set_rpc rpc]. unfold fupd. rewrite decide_True by done. done.
  - intros x Hx. cbn [set_rpc rpc]. unfold fupd. by rewrite decide_False.
Qed.

(** A reader moves without touching a counter. *)
Lemma inv_move s i p : lock_inv s -> (i < n)%nat -> lowers (rpc s i) = lowers p -> p <> RIn \/ rpc s i = RIn ->
  (p = RSleep -> will_wake (wpc s) = true) -> lock_inv (set_rpc i p s).
Proof.
  intros Hi Hlt Hc Hin Hs. split; try apply Hi.
  - intros j Hj. rewrite readers_move, Hc by done. cbn [set_rpc rwlock_ wpc]. rewrite (li_value _ Hi j Hj). lia.
  - intros x Hx Hf. cbn [set_rpc rpc wpc] in *. unfold fupd. destruct (decide (x = i)) as [->|]; [|by apply Hi].
    destruct Hin as [Hin|Hin]; [done|]. by destruct (li_free _ Hi i Hx Hf).
  - intros x. cbn [set_rpc rpc wpc]. unfold fupd. destruct (decide (x = i)) as [->|]; [done|apply Hi].
Qed.

(** A reader moves and adds [d] to its counter. *)
Lemma inv_count s i p d : lock_inv s -> (i < n)%nat -> d = (if lowers (rpc s i) then 1 else 0) - (if lowers p then 1 else 0) ->
  p <> RSleep -> (p = RIn -> seen_free (wpc s) (lk i) = false) -> lock_inv (set_rpc i p (fetch_add (lk i) d s)).
Proof.
  intros Hi Hlt Hd Hs Hin. split; try apply Hi.
  - intros j Hj. pose proof (value_range s (lk i) Hi (lk_range i)) as Hv.
    assert (readers (set_rpc i p (fetch_add (lk i) d s)) j = readers (set_rpc i p s) j) as -> by done.
    rewrite readers_move by done. cbn [set_rpc fetch_add rwlock_ wpc]. unfold fupd. destruct (decide (j = lk i)) as [->|Hne].
    + rewrite Nat.eqb_refl, !andb_true_r. assert (-1 <= d <= 1) by (destruct (lowers (rpc s i)), (lowers p); lia).
      rewrite s32_small by (unfold RWLOCK_BIAS in *; lia). rewrite (li_value _ Hi _ (lk_range i)). lia.
    + rewrite (proj2 (Nat.eqb_neq (lk i) j)), !andb_false_r by done. rewrite (li_value _ Hi j Hj). lia.
  - intros x Hx Hf. cbn [set_rpc fetch_add rpc wpc] in *. unfold fupd. destruct (decide (x = i)) as [->|]; [|by apply Hi].
    intros ->. rewrite Hin in Hf by done. done.
  - intros x. cbn [set_rpc fetch_add rpc wpc]. unfold fupd. destruct (decide (x = i)) as [->|]; [done|apply Hi].
Qed.

Lemma sleeps_awake s : lock_inv s -> sleeps k s = true -> will_wake (wpc s) = true.
Proof.
  intros Hi. pose proof (li_flag _ Hi) as Hf. pose proof (li_ao _ Hi) as Ha. unfold sleeps. clear Hi. destruct k.
  - rewrite Hf. by destruct (wpc s).
  - rewrite Ha. by destruct (wpc s).
Qed.

Lemma seen_held p j : seen_free p j = true -> writer_has p j = true.
Proof. by destruct p. Qed.

Lemma reader_step_inv s i : lock_inv s -> (i < n)%nat -> lock_inv (reader_step k tid tid i s).
Proof.
  intros Hi Hlt. rewrite reader_step_eq. destruct (rpc s i) eqn:E.
  - apply inv_move; try done; [by rewrite E|by left].
  - apply inv_move; try done; [by rewrite E; destruct (_ =? 0)|left; by destruct (_ =? 0)|by destruct (_ =? 0)].
  - apply inv_count; try done.
    + rewrite E. by destruct (0 <? _).
    + by destruct (0 <? _).
    + destruct (Z.ltb_spec 0 (rwlock_ s (lk i))) as [Hpos|]; [|done]. intros _. apply not_true_is_false. intros Hf. apply seen_held in Hf.
      rewrite (li_value _ Hi _ (lk_range i)), Hf in Hpos. pose proof (readers_range s (lk i)). lia.
  - apply inv_count; try done. by rewrite E.
  - apply inv_move; try done; [rewrite E; by destruct (sleeps k s)|left; by destruct (sleeps k s)|].
    destruct (sleeps k s) eqn:Es; [intros _; by apply sleeps_awake|done].
  - done.
  - apply inv_count; try done. by rewrite E.
Qed.

(** The writer moves to [p] with the counters, flag and object that go with it. *)
Lemma inv_writer s v b a p : lock_inv s ->
  (forall j, (j < LOCKS_NR)%nat -> v j = rwlock_ s j - (if writer_has (wpc s) j then 0 else RWLOCK_BIAS) + (if writer_has p j then 0 else RWLOCK_BIAS)) ->
  (forall i, (i < n)%nat -> seen_free p (lk i) = true -> rpc s i <> RIn) ->
  b = flag_up p -> a = ao_up k p -> will_wake p = true -> in_range p -> lock_inv (mkLock v b a (rpc s) p).
Proof.
  intros Hi Hv Hf Hb Ha Hw Hp. split; try done. intros j Hj. cbn [rwlock_ wpc].
  replace (readers (mkLock v b a (rpc s) p) j) with (readers s j) by done. rewrite Hv, (li_value _ Hi j Hj) by done. lia.
Qed.

(** The writer adds [d] to counter [j], which it takes or gives back. *)
Lemma writer_counter s j d p : lock_inv s -> (j < LOCKS_NR)%nat ->
  d = (if writer_has p j then 0 else RWLOCK_BIAS) - (if writer_has (wpc s) j then 0 else RWLOCK_BIAS) ->
  (forall x, (x < LOCKS_NR)%nat -> x <> j -> writer_has p x = writer_has (wpc s) x) -> forall x, (x < LOCKS_NR)%nat ->
  rwlock_ (fetch_add j d s) x = rwlock_ s x - (if writer_has (wpc s) x then 0 else RWLOCK_BIAS) + (if writer_has p x then 0 else RWLOCK_BIAS).
Proof.
  intros Hi Hj Hd Ho x Hx. pose proof (li_value _ Hi j Hj) as Hv. pose proof (readers_range s j). cbn [fetch_add rwlock_]. unfold fupd.
  destruct (decide (x = j)) as [->|Hne]; [|rewrite Ho by done; lia].
  rewrite s32_small; [lia|]. rewrite Hd, Hv. unfold RWLOCK_BIAS in *. destruct (writer_has p j), (writer_has (wpc s) j); lia.
Qed.

Lemma next_lock_cases j p last : (j < LOCKS_NR)%nat ->
  (S j < LOCKS_NR)%nat /\ next_lock j p last = p (S j) \/ S j = LOCKS_NR /\ next_lock j p last = last.
Proof. intros Hj. unfold next_lock. destruct (Nat.ltb_spec (S j) LOCKS_NR); [by left|right; split; [lia|done]]. Qed.

(** [writer_has] after counter [j] was taken or given back. *)
Lemma held_entered j x : (j < LOCKS_NR)%nat -> (x < LOCKS_NR)%nat -> writer_has (next_lock j WEnter (WScan 0)) x = (x <=? j)%nat.
Proof.
  intros Hj Hx. destruct (next_lock_cases j WEnter (WScan 0) Hj) as [[Hl ->]|[Hl ->]]; cbn [writer_has].
  - destruct (Nat.ltb_spec x (S j)), (Nat.leb_spec x j); lia || done.
  - symmetry. apply Nat.leb_le. lia.
Qed.

Lemma held_exited j x : (j < LOCKS_NR)%nat -> (x < LOCKS_NR)%nat -> writer_has (next_lock j WExit WClear) x = (j <? x)%nat.
Proof.
  intros Hj Hx. destruct (next_lock_cases j WExit WClear Hj) as [[Hl ->]|[Hl ->]]; cbn [writer_has].
  - by destruct (Nat.leb_spec (S j) x), (Nat.ltb_spec j x); lia || done.
  - symmetry. apply Nat.ltb_ge. lia.
Qed.

(** A counter that the writer holds and sees at 0 has no reader. *)
Lemma zero_free s i : lock_inv s -> (i < n)%nat -> writer_has (wpc s) (lk i) = true -> rwlock_ s (lk i) = 0 -> rpc s i <> RIn.
Proof.
  intros Hi Hlt Hh Hz Hin. rewrite (li_value _ Hi _ (lk_range i)), Hh in Hz. assert (readers s (lk i) = 0) as Hr by lia.
  pose proof (count_if_zero _ n i Hr Hlt) as Hc. cbn beta in Hc. by rewrite Hin, Nat.eqb_refl in Hc.
Qed.

(** The writer takes or gives back counter [j] and goes on to [p]. *)
Lemma writer_moves s j d p : lock_inv s -> (j < LOCKS_NR)%nat ->
  d = (if writer_has p j then 0 else RWLOCK_BIAS) - (if writer_has (wpc s) j then 0 else RWLOCK_BIAS) ->
  (forall x, (x < LOCKS_NR)%nat -> x <> j -> writer_has p x = writer_has (wpc s) x) -> (forall x, seen_free p x = false) ->
  flag_up p = flag_up (wpc s) -> ao_up k p = ao_up k (wpc s) -> will_wake p = true -> in_range p ->
  lock_inv (set_wpc p (fetch_add j d s)).
Proof.
  intros Hi Hj Hd Ho Hf Hfl Hao Hw Hp. apply (inv_writer s); try done.
  - by apply writer_counter.
  - intros i _. by rewrite Hf.
  - rewrite Hfl. apply Hi.
  - rewrite Hao. apply Hi.
Qed.

Lemma enter_inv s j : lock_inv s -> wpc s = WEnter j -> lock_inv (set_wpc (next_lock j WEnter (WScan 0)) (fetch_add j (- RWLOCK_BIAS) s)).
Proof.
  intros Hi E. pose proof (li_pc _ Hi) as Hp. rewrite E in Hp. cbn [in_range] in Hp. apply writer_moves; try done.
  - rewrite held_entered, E by done. cbn [writer_has]. rewrite Nat.leb_refl, Nat.ltb_irrefl. lia.
  - intros x Hx Hne. rewrite held_entered, E by done. cbn [writer_has]. destruct (Nat.leb_spec x j), (Nat.ltb_spec x j); lia || done.
  - intros x. by destruct (next_lock_cases j WEnter (WScan 0) Hp) as [[_ ->]|[_ ->]].
  - rewrite E. by destruct (next_lock_cases j WEnter (WScan 0) Hp) as [[_ ->]|[_ ->]].
  - rewrite E. destruct (next_lock_cases j WEnter (WScan 0) Hp) as [[_ ->]|[_ ->]]; by destruct k.
  - by destruct (next_lock_cases j WEnter (WScan 0) Hp) as [[_ ->]|[_ ->]].
  - destruct (next_lock_cases j WEnter (WScan 0) Hp) as [[Hl ->]|[_ ->]]; [done|]. cbn. unfold LOCKS_NR. lia.
Qed.

Lemma exit_inv s j : lock_inv s -> wpc s = WExit j -> lock_inv (set_wpc (next_lock j WExit WClear) (fetch_add j RWLOCK_BIAS s)).
Proof.
  intros Hi E. pose proof (li_pc _ Hi) as Hp. rewrite E in Hp. cbn [in_range] in Hp. apply writer_moves; try done.
  - rewrite held_exited, E by done. cbn [writer_has]. rewrite Nat.leb_refl, Nat.ltb_irrefl. lia.
  - intros x Hx Hne. rewrite held_exited, E by done. cbn [writer_has]. destruct (Nat.leb_spec j x), (Nat.ltb_spec j x); lia || done.
  - intros x. by destruct (next_lock_cases j WExit WClear Hp) as [[_ ->]|[_ ->]].
  - rewrite E. by destruct (next_lock_cases j WExit WClear Hp) as [[_ ->]|[_ ->]].
  - rewrite E. destruct (next_lock_cases j WExit WClear Hp) as [[_ ->]|[_ ->]]; by destruct k.
  - by destruct (next_lock_cases j WExit WClear Hp) as [[_ ->]|[_ ->]].
  - by destruct (next_lock_cases j WExit WClear Hp) as [[Hl ->]|[_ ->]].
Qed.

Lemma scan_inv s j : lock_inv s -> wpc s = WScan j ->
  lock_inv (set_wpc (if rwlock_ s j =? 0 then next_lock j WScan WIn else WScan 0) s).
Proof.
  intros Hi E. pose proof (li_pc _ Hi) as Hp. rewrite E in Hp. cbn [in_range] in Hp. set (p := if _ =? 0 then _ else _).
  assert ((rwlock_ s j = 0 /\ ((S j < LOCKS_NR)%nat /\ p = WScan (S j) \/ S j = LOCKS_NR /\ p = WIn)) \/ p = WScan 0) as Hcase.
  { unfold p. destruct (Z.eqb_spec (rwlock_ s j) 0); [|by right]. left. split; [done|]. by apply next_lock_cases. }
  assert ((exists m, p = WScan m /\ (m < LOCKS_NR)%nat) \/ p = WIn) as Hsh.
  { destruct Hcase as [[_ [[Hl ->]|[_ ->]]]| ->]; [left; by exists (S j)|by right|left; exists 0%nat; split; [done|unfold LOCKS_NR; lia]]. }
  apply (inv_writer s); try done.
  - intros x _. rewrite E. destruct Hsh as [(m & -> & _)| ->]; cbn [writer_has]; lia.
  - intros i Hlt Hf. pose proof (lk_range i). assert (lk i < S j)%nat as Hlk.
    { destruct Hcase as [[_ [[_ Hpe]|[Hl _]]]|Hpe]; [|lia|]; rewrite Hpe in Hf; cbn [seen_free] in Hf; apply Nat.ltb_lt in Hf; lia. }
    destruct (decide (lk i = j)) as [Hj|Hne].
    + apply zero_free; [done|done|by rewrite E|]. rewrite Hj. destruct Hcase as [[Hz _]|Hpe]; [done|]. rewrite Hpe in Hf.
      cbn [seen_free] in Hf. apply Nat.ltb_lt in Hf. lia.
    + apply (li_free _ Hi i Hlt). rewrite E. cbn [seen_free]. apply Nat.ltb_lt. lia.
  - cbn. rewrite (li_flag _ Hi), E. by destruct Hsh as [(m & -> & _)| ->].
  - cbn. rewrite (li_ao _ Hi), E. destruct Hsh as [(m & -> & _)| ->]; by destruct k.
  - by destruct Hsh as [(m & -> & _)| ->].
  - by destruct Hsh as [(m & -> & Hm)| ->].
Qed.

Lemma wake_inv s : lock_inv s -> wpc s = WWake -> lock_inv (set_wpc WIdle (wake_all s)).
Proof.
  intros Hi E. split; try done.
  - intros j Hj. cbn [set_wpc wake_all rwlock_ wpc writer_has]. rewrite (li_value _ Hi j Hj), E. cbn [writer_has]. f_equal. unfold readers.
    apply count_if_ext. intros i _. cbn [set_wpc wake_all rpc]. destruct (decide (rpc s i = RSleep)) as [->|]; done.
  - cbn. by rewrite (li_flag _ Hi), E.
  - cbn. rewrite (li_ao _ Hi), E. by destruct k.
  - intros i. cbn [set_wpc wake_all rpc]. by destruct (decide (rpc s i = RSleep)).
Qed.

(** A step of the writer that leaves the counters. *)
Lemma writer_flags s b a p : lock_inv s -> (forall x, writer_has p x = writer_has (wpc s) x) -> (forall x, seen_free p x = false) ->
  b = flag_up p -> a = ao_up k p -> will_wake p = true -> in_range p -> lock_inv (mkLock (rwlock_ s) b a (rpc s) p).
Proof.
  intros Hi Hh Hf Hb Ha Hw Hp. apply (inv_writer s); try done; [|intros i _; by rewrite Hf]. intros j _. rewrite Hh. lia.
Qed.

Lemma writer_step_inv s : lock_inv s -> lock_inv (writer_step k s).
Proof.
  intros Hi. pose proof (li_flag _ Hi) as Hfl. pose proof (li_ao _ Hi) as Hao. rewrite writer_step_eq. destruct (wpc s) as [| |j|j| |j| |] eqn:E.
  3:{ by apply enter_inv. } 3:{ by apply scan_inv. } 4:{ by apply exit_inv. } 5:{ by apply wake_inv. }
  - replace (match k with Futex => _ | Trt => _ end) with (mkLock (rwlock_ s) (write_in_progress_ s) (ao_up k WFlag) (rpc s) WFlag)
      by (unfold set_wpc, set_ao; destruct k; cbn; by rewrite ?Hao).
    apply (writer_flags s); try done; intros x; by rewrite E.
  - apply (writer_flags s); first [done|intros x; by rewrite E|cbn; rewrite Hao; by destruct k|cbn; unfold LOCKS_NR; lia].
  - replace (match k with Futex => _ | Trt => _ end) with (mkLock (rwlock_ s) (write_in_progress_ s) (ao_up k (WExit 0)) (rpc s) (WExit 0))
      by (unfold set_wpc, set_ao; destruct k; cbn; by rewrite ?Hao).
    apply (writer_flags s); first [done|intros x; by rewrite E|cbn; unfold LOCKS_NR; lia].
  - apply (writer_flags s); first [done|intros x; by rewrite E|cbn; rewrite Hao; by destruct k].
Qed.

Lemma interrupt_inv s i : lock_inv s -> (i < n)%nat -> lock_inv (interrupt i s).
Proof.
  intros Hi Hlt. unfold interrupt. destruct (decide (rpc s i = RSleep)) as [E|]; [|done].
  apply inv_move; try done; [by rewrite E|by left].
Qed.

Lemma steps_inv s s' : rw_steps k tid tid n s s' -> lock_inv s -> lock_inv s'.
Proof.
  induction 1 as [s|s s1 s2 Hs _ IH]; intros Hi; [done|]. apply IH.
  destruct Hs; [by apply reader_step_inv|by apply interrupt_inv|by apply writer_step_inv].
Qed.

Lemma steps_trans s1 s2 s3 : rw_steps k tid tid n s1 s2 -> rw_steps k tid tid n s2 s3 -> rw_steps k tid tid n s1 s3.
Proof. induction 1; [done|]. intros. econstructor; [eassumption|auto]. Qed.

(** ** Progress *)

(** No reader has a counter lower. *)
Definition quiet_locks (s : lock_st) : Prop := forall i, (i < n)%nat -> lowers (rpc s i) = false.

Lemma quiet_value s j : lock_inv s -> quiet_locks s -> (j < LOCKS_NR)%nat -> rwlock_ s j = if writer_has (wpc s) j then 0 else RWLOCK_BIAS.
Proof.
  intros Hi Hq Hj. rewrite (li_value _ Hi j Hj). unfold readers. rewrite count_if_none; [destruct (writer_has _ _); lia|].
  intros i Hlt. by rewrite Hq.
Qed.

(** Readers can leave their counters on their own. *)
Lemma drained s : lock_inv s -> forall m, (m <= n)%nat -> exists s', rw_steps k tid tid n s s' /\ lock_inv s' /\ wpc s' = wpc s /\
  (forall i, (i < m)%nat -> lowers (rpc s' i) = false) /\ (forall i, lowers (rpc s i) = false -> rpc s' i = rpc s i) /\
  (forall i, rpc s i = RUndo -> rpc s' i = RUndo \/ rpc s' i = RWait).
Proof.
  intros Hi. induction m as [|m IH]; intros Hm; [exists s; split; [constructor|]; split; [done|]; split; [done|]; split; [intros i Hl; lia|]; split; [done|by left]|].
  destruct (IH ltac:(lia)) as (s1 & Hs & Hi1 & Hw & Hd & Ho & Hu).
  destruct (lowers (rpc s1 m)) eqn:Ec; [|exists s1; do 3 (split; [done|]); split; [|done]; intros i Hl; destruct (decide (i = m)) as [->|]; [done|apply Hd; lia]].
  exists (reader_step k tid tid m s1). assert (forall x, x <> m -> rpc (reader_step k tid tid m s1) x = rpc s1 x) as Hx.
  { intros x Hne. rewrite reader_step_eq. destruct (rpc s1 m); cbn; unfold fupd; by rewrite ?decide_False. }
  assert (rpc s1 m = RUndo /\ rpc (reader_step k tid tid m s1) m = RWait \/ rpc s1 m = RIn /\ rpc (reader_step k tid tid m s1) m = RIdle) as Hm1.
  { rewrite reader_step_eq. destruct (rpc s1 m) eqn:E; try done; [left|right]; (split; [done|]); cbn; unfold fupd; by rewrite decide_True. }
  split; [eapply steps_trans; [exact Hs|]; econstructor; [by apply step_reader|constructor]|]. split; [by apply reader_step_inv|].
  split; [rewrite reader_step_eq; by destruct (rpc s1 m)|]. split; [|split].
  - intros i Hl. destruct (decide (i = m)) as [->|]; [by destruct Hm1 as [[_ ->]|[_ ->]]|]. rewrite Hx by done. apply Hd. lia.
  - intros i Hc. destruct (decide (i = m)) as [->|]; [|rewrite Hx by done; by apply Ho]. rewrite (Ho m Hc), Hc in Ec. done.
  - intros i Hc. destruct (decide (i = m)) as [->|]; [|rewrite Hx by done; by apply Hu].
    destruct Hm1 as [[_ ->]|[He _]]; [by right|]. destruct (Hu m Hc); congruence.
Qed.

Definition rank (p : writer_pc) : nat :=
  match p with
  | WIdle => 0
  | WWake => 1
  | WClear => 2
  | WExit j => 3 + (LOCKS_NR - j)
  | WIn => 4 + LOCKS_NR
  | WScan j => 5 + LOCKS_NR + (LOCKS_NR - j)
  | WEnter j => 6 + 2 * LOCKS_NR + (LOCKS_NR - j)
  | WFlag => 7 + 3 * LOCKS_NR
  end.

Definition before_in (p : writer_pc) : bool := match p with WFlag | WEnter _ | WScan _ => true | _ => false end.

(** A step that changes no reader. *)
Ltac no_reader_moves := split; [assumption|]; split; [first [by intros|intros _; split; [reflexivity|first [by left|by right]]]|intros; by left].

(** Without readers the writer goes ahead with every step. *)
Lemma writer_ahead s : lock_inv s -> quiet_locks s -> wpc s <> WIdle -> let s' := writer_step k s in
  (rank (wpc s') < rank (wpc s))%nat /\ quiet_locks s' /\ (before_in (wpc s) = true -> rpc s' = rpc s /\ (before_in (wpc s') = true \/ wpc s' = WIn)) /\
  forall i, rpc s' i = rpc s i \/ rpc s i = RSleep /\ rpc s' i = RCheck.
Proof.
  intros Hi Hq Hne s'. pose proof (li_pc _ Hi) as Hp. unfold s'. rewrite writer_step_eq.
  destruct (wpc s) as [| |j|j| |j| |] eqn:E; cbn [in_range] in Hp; try done.
  - cbn. split; [unfold LOCKS_NR; lia|]. no_reader_moves.
  - cbn [set_wpc wpc rpc fetch_add]. destruct (next_lock_cases j WEnter (WScan 0) Hp) as [[Hl ->]|[Hl ->]]; cbn [rank before_in];
      (split; [unfold LOCKS_NR in *; lia|]); no_reader_moves.
  - rewrite (quiet_value s j Hi Hq Hp), E. cbn [writer_has]. rewrite Z.eqb_refl. cbn [set_wpc wpc rpc].
    destruct (next_lock_cases j WScan WIn Hp) as [[Hl ->]|[Hl ->]]; cbn [rank before_in]; (split; [unfold LOCKS_NR in *; lia|]); no_reader_moves.
  - assert (forall x y : lock_st, match k with Futex => x | Trt => y end = x \/ match k with Futex => x | Trt => y end = y) as Hk by (intros; destruct k; auto).
    destruct (Hk (set_wpc (WExit 0) s) (set_wpc (WExit 0) (set_ao false s))) as [-> | ->]; cbn; (split; [unfold LOCKS_NR; lia|]); no_reader_moves.
  - cbn [set_wpc wpc rpc fetch_add]. destruct (next_lock_cases j WExit WClear Hp) as [[Hl ->]|[Hl ->]]; cbn [rank before_in];
      (split; [unfold LOCKS_NR in *; lia|]); no_reader_moves.
  - cbn. split; [lia|]. no_reader_moves.
  - cbn [set_wpc wake_all wpc rpc rank before_in]. split; [lia|]. split; [|split; [done|]].
    + intros i Hl. cbn. destruct (decide _); [done|by apply Hq].
    + intros i. destruct (decide (rpc s i = RSleep)); [by right|by left].
Qed.

(** A writer on its way in gets there. *)
Lemma writer_enters m : forall s, (rank (wpc s) <= m)%nat -> lock_inv s -> quiet_locks s -> before_in (wpc s) = true ->
  exists s', rw_steps k tid tid n s s' /\ wpc s' = WIn.
Proof.
  induction m as [|m IH]; intros s Hm Hi Hq Hb; [destruct (wpc s); cbn in Hm; lia || done|].
  destruct (writer_ahead s Hi Hq) as (Hr & Hq' & Hs & _); [by destruct (wpc s)|].
  assert (rw_step k tid tid n s (writer_step k s)) as H1 by constructor. destruct (Hs Hb) as [_ [Hb'|Hin]].
  - destruct (IH (writer_step k s) ltac:(lia) (writer_step_inv s Hi) Hq' Hb') as (s' & Hst & Hin). exists s'. split; [by econstructor|done].
  - exists (writer_step k s). split; [econstructor; [exact H1|constructor]|done].
Qed.

(** A writer leaves, and leaves no reader asleep. *)
Lemma writer_leaves m : forall s, (rank (wpc s) <= m)%nat -> lock_inv s -> quiet_locks s ->
  exists s', rw_steps k tid tid n s s' /\ lock_inv s' /\ quiet_locks s' /\ wpc s' = WIdle /\
    forall i, rpc s' i = rpc s i \/ rpc s i = RSleep /\ rpc s' i = RCheck.
Proof.
  induction m as [|m IH]; intros s Hm Hi Hq.
  { exists s. split; [constructor|]. do 2 (split; [done|]). split; [destruct (wpc s); cbn in Hm; lia || done|by left]. }
  destruct (decide (wpc s = WIdle)) as [He|Hne]; [exists s; split; [constructor|]; do 3 (split; [done|]); by left|].
  destruct (writer_ahead s Hi Hq Hne) as (Hr & Hq' & _ & Ho).
  destruct (IH (writer_step k s) ltac:(lia) (writer_step_inv s Hi) Hq') as (s' & Hst & Hi' & Hq2 & Hw & Ho').
  exists s'. split; [econstructor; [constructor|done]|]. do 3 (split; [done|]). intros i.
  destruct (Ho i) as [Hsame|[Ha Hb]], (Ho' i) as [Hsame'|[Ha' Hb']]; rewrite ?Hsame', ?Hsame in *; auto; congruence.
Qed.

Lemma rpc_set s i p : rpc (set_rpc i p s) i = p.
Proof. cbn. unfold fupd. by rewrite decide_True. Qed.

Lemma sub_enters s i : rpc s i = RSub -> 0 < rwlock_ s (lk i) -> rpc (reader_step k tid tid i s) i = RIn.
Proof. intros E Hv. rewrite reader_step_eq. rewrite E, rpc_set. by apply Z.ltb_lt in Hv as ->. Qed.

Lemma check_enters s i : rpc s i = RCheck -> 0 < rwlock_ s (lk i) -> rpc (reader_step k tid tid i (reader_step k tid tid i s)) i = RIn.
Proof.
  intros E Hv. apply sub_enters; rewrite reader_step_eq; rewrite E; [|done]. rewrite rpc_set. destruct (Z.eqb_spec (rwlock_ s (lk i)) 0); [lia|done].
Qed.

(** With the writer away a reader that is on its way gets in by its own steps. *)
Lemma reader_enters s i : lock_inv s -> quiet_locks s -> wpc s = WIdle -> (i < n)%nat -> rpc s i <> RIdle ->
  exists m, (m <= 3)%nat /\ rpc (Nat.iter m (reader_step k tid tid i) s) i = RIn.
Proof.
  intros Hi Hq Hw Hlt Hne. pose proof (quiet_value s (lk i) Hi Hq (lk_range i)) as Hv. rewrite Hw in Hv. cbn [writer_has] in Hv.
  assert (0 < rwlock_ s (lk i)) as Hpos by (rewrite Hv; done). assert (sleeps k s = false) as Hs.
  { unfold sleeps. rewrite (li_flag _ Hi), (li_ao _ Hi), Hw. by destruct k. }
  pose proof (Hq i Hlt) as Hc. destruct (rpc s i) eqn:E; try done.
  - exists 2%nat. split; [lia|]. by apply check_enters.
  - exists 1%nat. split; [lia|]. by apply sub_enters.
  - exists 3%nat. split; [lia|]. apply check_enters; rewrite reader_step_eq; rewrite E, Hs; [by rewrite rpc_set|done].
  - pose proof (li_sleep _ Hi i E) as Hx. by rewrite Hw in Hx.
Qed.

Lemma reader_steps_run s i m : (i < n)%nat -> rw_steps k tid tid n s (Nat.iter m (reader_step k tid tid i) s).
Proof.
  intros Hlt. induction m as [|m IH]; [constructor|]. eapply steps_trans; [exact IH|]. econstructor; [by apply step_reader|constructor].
Qed.

End Inv.

Lemma writer_steps_run k ti to n s m : rw_steps k ti to n s (Nat.iter m (writer_step k) s).
Proof.
  revert s. induction m as [|m IH]; intros s; [constructor|]. rewrite Nat.iter_succ_r. econstructor; [constructor|apply IH].
Qed.

(** ** The numbers of the threads *)

(** Threads that have a number have different ones, below the next one. *)
Record ids_inv (s : thread_ids) : Prop := {
  ids_next : 0 <= TLS_id_next_ s <= TLS_id_unitialized;
  ids_range t : TLS_id_ s t <> TLS_id_unitialized -> 0 <= TLS_id_ s t < TLS_id_next_ s;
  ids_differ t u : t <> u -> TLS_id_ s t = TLS_id_ s u -> TLS_id_ s t = TLS_id_unitialized
}.

Lemma allocate_ids t s : ids_inv s -> ids_inv (snd (ThreadId_allocate t s)).
Proof.
  intros Hi. pose proof (ids_next _ Hi) as Hn. unfold ThreadId_allocate. destruct (Z.eqb_spec (TLS_id_ s t) TLS_id_unitialized) as [E|]; [|done].
  cbn [negb snd]. assert ((if TLS_id_next_ s <? 2 ^ 32 - 1 then u32 (TLS_id_next_ s + 1) else TLS_id_next_ s) = Z.min (TLS_id_next_ s + 1) TLS_id_unitialized) as ->.
  { unfold TLS_id_unitialized in *. destruct (Z.ltb_spec (TLS_id_next_ s) (2 ^ 32 - 1)); [rewrite wrap_small by (split; lia); lia|lia]. }
  split; cbn [TLS_id_next_ TLS_id_]; unfold fupd.
  - lia.
  - intros x Hx. destruct (decide (x = t)); [lia|]. pose proof (ids_range _ Hi x Hx). lia.
  - intros x y Hne He. destruct (decide (x = t)) as [->|], (decide (y = t)) as [->|]; try done.
    + destruct (decide (TLS_id_ s y = TLS_id_unitialized)) as [Hy|Hy]; [congruence|]. pose proof (ids_range _ Hi y Hy). lia.
    + destruct (decide (TLS_id_ s x = TLS_id_unitialized)) as [|Hx]; [done|]. pose proof (ids_range _ Hi x Hx). lia.
    + by apply (ids_differ _ Hi x y).
Qed.

Lemma release_ids t s : ids_inv s -> ids_inv (snd (ThreadId_release t s)).
Proof.
  intros Hi. unfold ThreadId_release. destruct (TLS_id_ s t =? TLS_id_unitialized); [done|]. split; cbn [snd TLS_id_next_ TLS_id_]; unfold fupd.
  - apply Hi.
  - intros x. destruct (decide (x = t)); [done|]. apply Hi.
  - intros x y Hne. destruct (decide (x = t)), (decide (y = t)); try done. by apply Hi.
Qed.

(** ** Theorems *)

(** C28: In every interleaving of fewer than [RWLOCK_BIAS] readers and the writer,
    with either way of waiting, no reader is inside while the writer is; a reader
    sleeps only while the writer has yet to wake the readers, so no wake-up is
    lost; and no counter leaves the range of its 32 bits.  (Each reader leaves on
    the thread it entered on.) *)
Theorem rwlock_excludes (k : kind) (tid : nat -> Z) (n : nat) (s : lock_st) :
  Z.of_nat n < RWLOCK_BIAS -> rw_steps k tid tid n lock_new s ->
  (wpc s = WIn -> forall i, (i < n)%nat -> rpc s i <> RIn) /\ (forall i, rpc s i = RSleep -> wpc s <> WIdle) /\
  forall j, (j < LOCKS_NR)%nat -> - RWLOCK_BIAS < rwlock_ s j <= RWLOCK_BIAS.
Proof.
  intros Hn Hs. pose proof (steps_inv k tid n Hn _ _ Hs (lock_new_inv k tid n)) as Hi. split; [|split].
  - intros Hw i Hlt. apply (li_free _ _ _ _ Hi i Hlt). by rewrite Hw.
  - intros i Hr Hw. pose proof (li_sleep _ _ _ _ Hi i Hr) as Hx. by rewrite Hw in Hx.
  - intros j Hj. by apply (value_range k tid n).
Qed.

(** A reader that is inside while the writer comes, leaves, and comes again while the writer is inside. *)
Definition sample_lock : lock_st :=
  Nat.iter 4 (reader_step Futex Z.of_nat Z.of_nat 0) (Nat.iter 128 (writer_step Futex)
    (Nat.iter 1 (reader_step Futex Z.of_nat Z.of_nat 0) (Nat.iter 140 (writer_step Futex)
      (Nat.iter 3 (reader_step Futex Z.of_nat Z.of_nat 0) lock_new)))).

Lemma sample_lock_run : rw_steps Futex Z.of_nat Z.of_nat 3 lock_new sample_lock.
Proof.
  unfold sample_lock. eapply steps_trans; [|apply reader_steps_run; lia]. eapply steps_trans; [|apply writer_steps_run].
  eapply steps_trans; [|apply reader_steps_run; lia]. eapply steps_trans; [|apply writer_steps_run]. apply reader_steps_run. lia.
Qed.

Lemma rwlock_excludes_witness : wpc sample_lock = WIn /\ rpc sample_lock 0%nat = RSleep /\ rpc sample_lock 0%nat <> RIn.
Proof.
  split; [vm_compute; reflexivity|]. split; [vm_compute; reflexivity|].
  apply (proj1 (rwlock_excludes Futex Z.of_nat 3 sample_lock ltac:(vm_compute; reflexivity) sample_lock_run)); [vm_compute; reflexivity|lia].
Defined.


