(* ===== verification/SpdkArray.v ===== *)
(** * SpdkArray: I/O striped over several devices
      (uDepot/io/trt-spdk-array.cc, trt_util/spdk.hh)

    The store sees one device; its blocks of 8 KiB lie round robin on the devices
    that were opened.  Reads and writes are cut at the block boundaries, and each
    piece is a command of SPDK on whole sectors of one device, by way of a buffer for
    DMA ([read_sync], [write_sync]) or directly ([read_raw_sync], [write_raw_sync]).
    What SPDK answers, and what is in a new buffer, is the environment's. *)
From Stdlib Require Import ZArith Lia.
From stdpp Require Import base tactics list numbers.
From S2P Require Import Prelude Util Mbuff StoreFormat KvStore KvIo StateM SalsaScm.

Open Scope Z_scope.

(** ** Devices *)

(** A command is done, was not taken, or failed and left some bytes in the sectors it
    should have written. *)
Inductive cmd_answer := CmdOk | CmdRefused | CmdFailed (torn : list Z).

Record sp_env := mkSpEnv {
  sp_sector : nat -> Z;                    (** the sector size of a device *)
  sp_cmd : nat -> cmd_answer;
  sp_buffer : nat -> nat -> option (list Z)  (** a buffer of this many bytes *)
}.

Record sp_st := mkSp { sp_devs : nat -> device; sp_tick : nat }.

Definition sp_ask {A} (f : nat -> A) : stm sp_st A := fun s => Some (f (sp_tick s), mkSp (sp_devs s) (S (sp_tick s))).
Definition sp_write (q : nat) (off : Z) (bs : list Z) : stm sp_st unit :=
  writes (fun s => mkSp (fupd (sp_devs s) q (dev_write (sp_devs s q) off bs)) (sp_tick s)).

Definition blk_m : Z := 8192.

Section Array.
Context (env : sp_env).

(** ** Commands (struct SpdkQpair) *)

(** [spdk_nvme_ns_cmd_read] and the wait for its completion: the memory [mem] from the
    buffer's address on; [None] in the result is an error. *)
Definition cmd_read (q : nat) (mem : list Z) (lba lba_cnt : Z) : stm sp_st (option (list Z)) :=
  let b := sp_sector env q in
  a ← sp_ask (sp_cmd env);
  match a with
  | CmdOk =>
      d ← reads (fun s => sp_devs s q);
      let n := Z.to_nat (lba_cnt * b) in
      if (length mem <? n)%nat then bug else mret (Some (write_at mem 0 (dev_read d (lba * b) n)))
  | _ => mret None
  end.

Definition cmd_write (q : nat) (mem : list Z) (lba lba_cnt : Z) : stm sp_st bool :=
  let b := sp_sector env q in
  let n := Z.to_nat (lba_cnt * b) in
  if (length mem <? n)%nat then bug
  else
    a ← sp_ask (sp_cmd env);
    match a with
    | CmdOk => sp_write q (lba * b) (take n mem);; mret true
    | CmdRefused => mret false
    | CmdFailed torn => sp_write q (lba * b) (take n torn);; mret false
    end.

(** The first sector and the number of sectors of [len] bytes from [off] on. *)
Definition lba_start (b off : Z) : Z := u64 off / b.
Definition lba_nr (b off len : Z) : Z := u64 (u64 (off + len + b - 1) / b - lba_start b off).

(** [buf] is the caller's buffer; the result is the return value and its new
    contents. *)
Definition read_sync (q : nat) (buf : list Z) (off : Z) : stm sp_st (Z * list Z) :=
  let bsize := sp_sector env q in
  let len := length buf in
  let nlbas := lba_nr bsize off (Z.of_nat len) in
  dma_buf ← sp_ask (fun t => sp_buffer env t (Z.to_nat (u64 (nlbas * bsize))));
  match dma_buf with
  | None => mret (-1, buf)
  | Some mem =>
      r ← cmd_read q mem (lba_start bsize off) (u32 nlbas);
      match r with
      | None => mret (-1, buf)
      | Some mem =>
          let copy_off := Z.to_nat (u64 (off - lba_start bsize off * bsize)) in
          if (length mem <? copy_off + len)%nat then bug
          else mret (Z.of_nat len, take len (drop copy_off mem))
      end
  end.

Definition write_sync (q : nat) (buf : list Z) (off : Z) : stm sp_st (Z * list Z) :=
  let bsize := sp_sector env q in
  let len := length buf in
  let nlbas := lba_nr bsize off (Z.of_nat len) in
  dma_buf ← sp_ask (fun t => sp_buffer env t (Z.to_nat (u64 (nlbas * bsize))));
  match dma_buf with
  | None => mret (-1, buf)
  | Some mem =>
      let copy_off := Z.to_nat (u64 (off - lba_start bsize off * bsize)) in
      if (length mem <? copy_off + len)%nat then bug
      else
        ok ← cmd_write q (write_at mem copy_off buf) (lba_start bsize off) (u32 nlbas);
        mret (if ok : bool then Z.of_nat len else -1, buf)
  end.

(** [read_raw_sync] and [write_raw_sync]: the number of sectors, or -1. *)
Definition read_raw_sync (q : nat) (buf : list Z) (lba lba_cnt : Z) : stm sp_st (Z * list Z) :=
  r ← cmd_read q buf lba lba_cnt;
  match r with Some buf' => mret (lba_cnt, buf') | None => mret (-1, buf) end.

Definition write_raw_sync (q : nat) (buf : list Z) (lba lba_cnt : Z) : stm sp_st (Z * list Z) :=
  ok ← cmd_write q buf lba lba_cnt; mret (if ok : bool then lba_cnt else -1, buf).

(** ** The functions for a piece (trt-spdk-array.cc) *)

Definition native_lbas (b off : Z) (len : nat) : Z := u64 (udiv_round_up (u64 (off + Z.of_nat len)) b - lba_start b off).

Definition pread_native_fn (q : nat) (buf : list Z) (off : Z) : stm sp_st (Z * list Z) :=
  let b := sp_sector env q in
  let nlbas := native_lbas b off (length buf) in
  '(rc, buf') ← read_raw_sync q buf (lba_start b off) (u32 nlbas);
  mret (if (rc <? 0) || negb (rc =? nlbas) then -1 else Z.of_nat (length buf), buf').

Definition pwrite_native_fn (q : nat) (buf : list Z) (off : Z) : stm sp_st (Z * list Z) :=
  let b := sp_sector env q in
  let nlbas := native_lbas b off (length buf) in
  '(rc, buf') ← write_raw_sync q buf (lba_start b off) (u32 nlbas);
  mret (if (rc <? 0) || negb (rc =? nlbas) then -1 else Z.of_nat (length buf), buf').

(** A function on one buffer, applied to the buffers of a vector.
    The result is the return value and the new contents. *)
Fixpoint sync_vec (f : nat -> list Z -> Z -> stm sp_st (Z * list Z)) (q : nat) (iov : list (list Z)) (off tot : Z) : stm sp_st (Z * list Z) :=
  match iov with
  | [] => mret (tot, [])
  | buf :: iov' =>
      '(r, buf') ← f q buf (off + tot);
      if r =? -1 then mret (-1, buf' ++ concat iov')
      else if negb (r =? Z.of_nat (length buf)) then mret (tot + r, buf' ++ concat iov')
      else '(r', out) ← sync_vec f q iov' off (tot + r); mret (r', buf' ++ out)
  end.

Definition sync_preadv_fn (q : nat) (iov : list (list Z)) (off : Z) := sync_vec read_sync q iov off 0.
Definition sync_pwritev_fn (q : nat) (iov : list (list Z)) (off : Z) := sync_vec write_sync q iov off 0.

Fixpoint native_vec (f : nat -> list Z -> Z -> stm sp_st (Z * list Z)) (q : nat) (iov : list (list Z)) (off tot : Z) : stm sp_st (Z * list Z) :=
  match iov with
  | [] => mret (tot, [])
  | buf :: iov' =>
      '(rc, buf') ← f q buf (off + tot);
      if negb (rc =? Z.of_nat (length buf)) then mret (if rc <? 0 then rc else tot + rc, buf' ++ concat iov')
      else '(r', out) ← native_vec f q iov' off (tot + rc); mret (r', buf' ++ out)
  end.

Definition preadv_native_fn (q : nat) (iov : list (list Z)) (off : Z) := native_vec pread_native_fn q iov off 0.
Definition pwritev_native_fn (q : nat) (iov : list (list Z)) (off : Z) := native_vec pwrite_native_fn q iov off 0.

(** ** Striping (class ThreadState) *)

Context (spdk_qps_nr_m : nat).
Local Abbreviation nr := (Z.of_nat spdk_qps_nr_m).

Definition offset_to_qpair (start : Z) : nat := Z.to_nat ((start / blk_m) mod nr).
Definition dev_offset (start : Z) : Z := start / (blk_m * nr) * blk_m + start mod blk_m.

(** [size q] is the size of device [q]. *)
Definition get_size (size : nat -> Z) : Z := u64 (foldr (fun q m => Z.min (size q) m) (2 ^ 64 - 1) (seq 0 spdk_qps_nr_m) * nr).

(** ** I/O on the array (class TrtSpdkArrayIO) *)

(** [pio]: one round for every block that the buffer touches.  No device is a
    division by zero. *)
Fixpoint pio (fuel : nat) (f : nat -> list Z -> Z -> stm sp_st (Z * list Z)) (buf : list Z) (off tot : Z) : stm sp_st (Z * list Z) :=
  match buf, fuel with
  | [], _ => mret (tot, [])
  | _, O => bug
  | _, S fuel' =>
      if (spdk_qps_nr_m =? 0)%nat then bug
      else
        let l := Nat.min (length buf) (Z.to_nat (blk_m - off mod blk_m)) in
        '(rc, out) ← f (offset_to_qpair off) (take l buf) (dev_offset off);
        if negb (rc =? Z.of_nat l) then mret (if rc <? 0 then rc else tot, out ++ drop l buf)
        else '(r, rest) ← pio fuel' f (drop l buf) (off + Z.of_nat l) (tot + rc); mret (r, out ++ rest)
  end.

(** The inner loop of [piov]: the buffers up to the end of the block, the last one cut
    short, and how many bytes that is. *)
Fixpoint gather (blk_len : nat) (iov : list (list Z)) : list (list Z) * nat :=
  match iov with
  | [] => ([], 0%nat)
  | buf :: iov' =>
      if (blk_len =? 0)%nat then ([], 0%nat)
      else
        let l := Nat.min blk_len (length buf) in
        let '(bufs, n) := gather (blk_len - l) iov' in
        (take l buf :: bufs, (l + n)%nat)
  end.

(** The loop that moves on in the vector: what is left of it and of [advance_len]. *)
Fixpoint vec_advance (advance_len : nat) (iov : list (list Z)) : list (list Z) * nat :=
  match iov with
  | [] => ([], advance_len)
  | buf :: iov' =>
      if (advance_len =? 0)%nat then (iov, 0%nat)
      else
        let iovl := Nat.min advance_len (length buf) in
        if (iovl =? length buf)%nat then vec_advance (advance_len - iovl) iov' else (drop iovl buf :: iov', (advance_len - iovl)%nat)
  end.

Fixpoint piov (fuel : nat) (f : nat -> list (list Z) -> Z -> stm sp_st (Z * list Z)) (iov : list (list Z)) (off tot : Z) :
    stm sp_st (Z * list Z) :=
  match iov, fuel with
  | [], _ => mret (tot, [])
  | _, O => bug
  | _, S fuel' =>
      if (spdk_qps_nr_m =? 0)%nat then bug
      else
        let '(bufs, advance_len) := gather (Z.to_nat (blk_m - off mod blk_m)) iov in
        '(rc, out) ← f (offset_to_qpair off) bufs (dev_offset off);
        if negb (rc =? Z.of_nat advance_len) then mret (if rc <? 0 then rc else tot, out)
        else
          let '(iov', advance_len) := vec_advance advance_len iov in
          '(r, rest) ← piov fuel' f iov' (off + Z.of_nat advance_len) (tot + rc); mret (r, out ++ rest)
  end.

Definition array_pread (fuel : nat) (buf : list Z) (off : Z) := pio fuel read_sync buf off 0.
Definition array_pwrite (fuel : nat) (buf : list Z) (off : Z) := pio fuel write_sync buf off 0.
Definition array_preadv (fuel : nat) (iov : list (list Z)) (off : Z) := piov fuel sync_preadv_fn iov off 0.
Definition array_pwritev (fuel : nat) (iov : list (list Z)) (off : Z) := piov fuel sync_pwritev_fn iov off 0.
Definition pread_native (fuel : nat) (buf : list Z) (off : Z) := pio fuel pread_native_fn buf off 0.
Definition pwrite_native (fuel : nat) (buf : list Z) (off : Z) := pio fuel pwrite_native_fn buf off 0.

Definition preadv_native (fuel : nat) (iov : list (list Z)) (off : Z) : stm sp_st (Z * list Z) :=
  match iov with
  | [buf] => pio fuel pread_native_fn buf off 0
  | _ => piov fuel preadv_native_fn iov off 0
  end.

Definition pwritev_native (fuel : nat) (iov : list (list Z)) (off : Z) : stm sp_st (Z * list Z) :=
  match iov with
  | [buf] => pio fuel pwrite_native_fn buf off 0
  | _ => piov fuel pwritev_native_fn iov off 0
  end.

End Array.

(** ** The array as one device *)

Section Stripes.
Context (nr : nat) (Hnr : (0 < nr)%nat).
Local Abbreviation N := (Z.of_nat nr).

(** The address that lies at offset [o] of device [q]. *)
Definition address (q : nat) (o : Z) : Z := (o / blk_m * N + Z.of_nat q) * blk_m + o mod blk_m.

Lemma stripe_split a : 0 <= a -> dev_offset nr a = a / blk_m / N * blk_m + a mod blk_m /\
  Z.of_nat (offset_to_qpair nr a) = (a / blk_m) mod N.
Proof.
  intros Ha. unfold dev_offset, offset_to_qpair. rewrite Z.div_div by (unfold blk_m; lia). split; [done|].
  rewrite Z2Nat.id; [done|]. apply Z.mod_pos_bound. lia.
Qed.

Lemma address_of a : 0 <= a -> address (offset_to_qpair nr a) (dev_offset nr a) = a.
Proof.
  intros Ha. destruct (stripe_split a Ha) as [Hd Hq]. unfold address. rewrite Hq, Hd.
  assert (0 < blk_m) as HB by (unfold blk_m; lia). pose proof (Z.mod_pos_bound a blk_m HB) as Hm.
  rewrite Z.div_add_l, (Z.div_small (a mod blk_m)), Z.add_0_r by lia. rewrite (Z.add_comm _ (a mod blk_m)), Z.mod_add, (Z.mod_small (a mod blk_m)) by lia.
  pose proof (Z.div_mod (a / blk_m) N ltac:(lia)). pose proof (Z.div_mod a blk_m ltac:(lia)). nia.
Qed.

Lemma of_address q o : (q < nr)%nat -> 0 <= o -> 0 <= address q o /\ offset_to_qpair nr (address q o) = q /\ dev_offset nr (address q o) = o.
Proof.
  intros Hq Ho. assert (0 < blk_m) as HB by (unfold blk_m; lia). pose proof (Z.mod_pos_bound o blk_m HB) as Hm.
  pose proof (Z.div_pos o blk_m Ho HB) as Hd. assert (0 <= address q o) as Ha by (unfold address; nia). split; [done|].
  assert (address q o / blk_m = o / blk_m * N + Z.of_nat q) as E.
  { unfold address. rewrite Z.div_add_l, (Z.div_small (o mod blk_m)) by lia. lia. }
  assert (address q o mod blk_m = o mod blk_m) as E2.
  { unfold address. rewrite (Z.add_comm _ (o mod blk_m)), Z.mod_add, (Z.mod_small (o mod blk_m)) by lia. done. }
  destruct (stripe_split _ Ha) as [Hdo Hqo]. rewrite E in Hdo, Hqo. rewrite E2 in Hdo. split.
  - rewrite Z.add_comm, Z.mod_add, Z.mod_small in Hqo by lia. lia.
  - rewrite Hdo, Z.div_add_l, (Z.div_small (Z.of_nat q)), Z.add_0_r by lia. pose proof (Z.div_mod o blk_m ltac:(lia)). lia.
Qed.

(** Inside a block addresses and offsets go together. *)
Lemma stripe_block a i : 0 <= a -> 0 <= i -> a mod blk_m + i < blk_m ->
  offset_to_qpair nr (a + i) = offset_to_qpair nr a /\ dev_offset nr (a + i) = dev_offset nr a + i.
Proof.
  intros Ha Hi Hlt. assert (0 < blk_m) as HB by (unfold blk_m; lia). pose proof (Z.div_mod a blk_m ltac:(lia)) as E.
  pose proof (Z.mod_pos_bound a blk_m HB).
  assert ((a + i) / blk_m = a / blk_m) as E1 by (symmetry; apply (Z.div_unique _ _ _ (a mod blk_m + i)); lia).
  assert ((a + i) mod blk_m = a mod blk_m + i) as E2 by (symmetry; apply (Z.mod_unique _ _ (a / blk_m)); lia).
  destruct (stripe_split a Ha) as [Hd Hq], (stripe_split (a + i) ltac:(lia)) as [Hd' Hq']. rewrite E1 in Hd', Hq'. rewrite E2 in Hd'. lia.
Qed.

(** The bytes of the array. *)
Definition flat (s : sp_st) : device := fun a => sp_devs s (offset_to_qpair nr a) (dev_offset nr a).

Lemma flat_read s a n : 0 <= a -> a mod blk_m + Z.of_nat n <= blk_m ->
  dev_read (sp_devs s (offset_to_qpair nr a)) (dev_offset nr a) n = dev_read (flat s) a n.
Proof.
  intros Ha Hn. unfold dev_read. apply list_fmap_ext. intros i x Hx. apply lookup_seq in Hx as [-> Hi]. cbn [Nat.add]. unfold flat.
  destruct (stripe_block a (Z.of_nat i)) as [-> ->]; [done|lia|lia|done].
Qed.

(** The bytes [bs] were written to device [q] at [off], and nothing else. *)
Definition wrote (q : nat) (off : Z) (bs : list Z) (s s' : sp_st) : Prop :=
  forall q' o, sp_devs s' q' o = if decide (q' = q) then dev_write (sp_devs s q) off bs o else sp_devs s q' o.

(** A piece of a block that is written to its device is written to the array. *)
Lemma flat_write s s' a bs x : 0 <= a -> a mod blk_m + Z.of_nat (length bs) <= blk_m -> 0 <= x ->
  wrote (offset_to_qpair nr a) (dev_offset nr a) bs s s' -> flat s' x = dev_write (flat s) a bs x.
Proof.
  intros Ha Hl Hx Hs. set (q := offset_to_qpair nr a) in *. unfold flat at 1, dev_write at 1. rewrite Hs.
  destruct (decide (a <= x < a + Z.of_nat (length bs))) as [Hin|Hout].
  - destruct (stripe_block a (x - a) Ha) as [E1 E2]; [lia|lia|]. replace (a + (x - a)) with x in E1, E2 by lia.
    rewrite E1, decide_True by done. unfold dev_write. rewrite E2.
    rewrite (proj2 (Z.leb_le _ _)), (proj2 (Z.ltb_lt _ _)) by lia. rewrite (proj2 (Z.leb_le a x)), (proj2 (Z.ltb_lt x _)) by lia.
    cbn [andb]. f_equal. lia.
  - assert ((a <=? x) && (x <? a + Z.of_nat (length bs)) = false) as -> by lia.
    destruct (decide (offset_to_qpair nr x = q)) as [E|]; [|done]. unfold dev_write.
    destruct ((dev_offset nr a <=? dev_offset nr x) && (dev_offset nr x <? dev_offset nr a + Z.of_nat (length bs))) eqn:Eb; [|by unfold flat; rewrite E].
    exfalso. apply Hout. set (i := dev_offset nr x - dev_offset nr a). destruct (stripe_block a i Ha) as [E1 E2]; [lia|lia|].
    rewrite <- (address_of x Hx), E. replace (dev_offset nr x) with (dev_offset nr (a + i)) by lia. unfold q. rewrite <- E1, address_of by lia. lia.
Qed.

End Stripes.

(** ** Pieces *)

Lemma dev_write_ext d d' off bs x : d x = d' x -> dev_write d off bs x = dev_write d' off bs x.
Proof. intros E. unfold dev_write. by rewrite E. Qed.

Lemma dev_write_nil d off x : dev_write d off [] x = d x.
Proof. unfold dev_write. cbn [length Z.of_nat]. destruct ((off <=? x) && (x <? _)) eqn:E; [|done]. apply andb_true_iff in E as [E1%Z.leb_le E2%Z.ltb_lt]. lia. Qed.

Lemma wrote_app q off b1 b2 s s1 s2 : wrote q off b1 s s1 -> wrote q (off + Z.of_nat (length b1)) b2 s1 s2 -> wrote q off (b1 ++ b2) s s2.
Proof.
  intros H1 H2 q' o. rewrite H2. destruct (decide (q' = q)) as [->|Hne].
  - rewrite <- (dev_write_split (sp_devs s q) off b1 b2 o). apply dev_write_ext. rewrite H1. by rewrite decide_True.
  - rewrite H1. by rewrite decide_False.
Qed.

Section Io.
(** Sectors of one size that divides a block, and buffers of the size asked for. *)
Context (env : sp_env) (b : Z) (Hb : 0 < b) (Hdiv : (b | blk_m)) (Hsec : forall q, sp_sector env q = b).
Context (Hbuf : forall t n m, sp_buffer env t n = Some m -> length m = n).

(** Commands that succeed, and memory for the buffers. *)
Definition obliging : Prop := (forall t, sp_cmd env t = CmdOk) /\ forall t n, is_Some (sp_buffer env t n).

Lemma sector_le : b <= 8192.
Proof. apply Z.divide_pos_le; [unfold blk_m; lia|done]. Qed.

(** The sectors of a piece that is made of whole ones. *)
Lemma lbas_aligned off len : (b | off) -> (b | len) -> 0 <= off -> 0 <= len <= blk_m -> off + len < 2 ^ 62 ->
  lba_start b off * b = off /\ lba_nr b off len * b = len /\ 0 <= lba_nr b off len <= blk_m.
Proof.
  intros [i ->] [j ->] Ho Hl Hlt. pose proof sector_le. unfold lba_start, lba_nr, lba_start. unfold blk_m in *.
  rewrite (wrap_small 64 (i * b)) by (split; nia). rewrite Z.div_mul by lia.
  rewrite (wrap_small 64 (i * b + j * b + b - 1)) by (split; nia).
  replace (i * b + j * b + b - 1) with ((i + j) * b + (b - 1)) by lia. rewrite Z.div_add_l, (Z.div_small (b - 1)) by lia.
  rewrite wrap_small by (split; nia). nia.
Qed.

(** What the functions for a piece do: the bytes are written, or an error is reported
    and some of their sectors may have changed. *)
Definition writes_piece (f : nat -> list Z -> Z -> stm sp_st (Z * list Z)) : Prop :=
  forall q bs off s, let len := Z.of_nat (length bs) in
    (b | off) -> (b | len) -> 0 <= off -> len <= blk_m -> off + len < 2 ^ 62 ->
    exists r s', f q bs off s = Some ((r, bs), s') /\
      (r = len /\ wrote q off bs s s' \/
       r = -1 /\ ~ obliging /\ exists w, (length w <= length bs)%nat /\ wrote q off w s s').

Definition reads_piece (f : nat -> list Z -> Z -> stm sp_st (Z * list Z)) : Prop :=
  forall q buf off s, let len := Z.of_nat (length buf) in
    (b | off) -> (b | len) -> 0 <= off -> len <= blk_m -> off + len < 2 ^ 62 ->
    exists r out s', f q buf off s = Some ((r, out), s') /\ sp_devs s' = sp_devs s /\
      (r = len /\ out = dev_read (sp_devs s q) off (length buf) \/ r = -1 /\ ~ obliging).

Lemma wrote_nil q off s t : wrote q off [] s (mkSp (sp_devs s) t).
Proof. intros q' o. rewrite dev_write_nil. by destruct (decide (q' = q)) as [->|]. Qed.

Lemma refused_not_obliging t a : sp_cmd env t = a -> a <> CmdOk -> ~ obliging.
Proof. intros Ha Hne [Hc _]. apply Hne. by rewrite <- Ha. Qed.

Lemma no_buffer_not_obliging t n : sp_buffer env t n = None -> ~ obliging.
Proof. intros Hn [_ Hm]. destruct (Hm t n) as [m Hs]. congruence. Qed.

(** A command on the sectors of a piece. *)
Lemma cmd_write_piece q bs off lba n s : lba * b = off -> n * b = Z.of_nat (length bs) ->
  exists ok s', cmd_write env q bs lba n s = Some (ok, s') /\
    (ok = true /\ wrote q off bs s s' \/ ok = false /\ ~ obliging /\ exists w, (length w <= length bs)%nat /\ wrote q off w s s').
Proof.
  intros Es En. unfold cmd_write. rewrite Hsec, En, Es, Nat2Z.id, (proj2 (Nat.ltb_ge _ _)) by lia.
  unfold mbind, stm_bind, sp_ask. destruct (sp_cmd env (sp_tick s)) as [| |torn] eqn:Ec.
  - eexists _, _. split; [reflexivity|]. left. split; [done|]. intros q' o. cbn [sp_devs]. unfold fupd.
    rewrite take_ge by lia. by destruct (decide (q' = q)) as [->|].
  - eexists _, _. split; [reflexivity|]. right. split; [done|]. split; [by eapply refused_not_obliging|].
    exists []. split; [cbn; lia|]. apply wrote_nil.
  - eexists _, _. split; [reflexivity|]. right. split; [done|]. split; [by eapply refused_not_obliging|].
    exists (take (length bs) torn). split; [rewrite length_take; lia|]. intros q' o. cbn [sp_devs]. unfold fupd.
    by destruct (decide (q' = q)) as [->|].
Qed.

Lemma cmd_read_piece q mem off lba n s : lba * b = off -> n * b = Z.of_nat (length mem) ->
  exists r s', cmd_read env q mem lba n s = Some (r, s') /\ sp_devs s' = sp_devs s /\
    (r = Some (dev_read (sp_devs s q) off (length mem)) \/ r = None /\ ~ obliging).
Proof.
  intros Es En. unfold cmd_read. rewrite Hsec, En, Es, Nat2Z.id. unfold mbind, stm_bind, sp_ask, reads.
  destruct (sp_cmd env (sp_tick s)) as [| |torn] eqn:Ec.
  2,3: eexists _, _; split; [reflexivity|]; split; [done|]; right; split; [done|]; by eapply refused_not_obliging.
  rewrite (proj2 (Nat.ltb_ge _ _)) by lia. eexists _, _. split; [reflexivity|]. split; [done|]. left. f_equal. cbn [sp_devs].
  unfold write_at. by rewrite drop_ge, app_nil_r by (rewrite dev_read_length; lia).
Qed.

Lemma write_sync_piece : writes_piece (write_sync env).
Proof.
  intros q bs off s len Ho Hl H0 Hle Hlt. destruct (lbas_aligned off len Ho Hl H0 ltac:(lia) Hlt) as (Es & En & Hn).
  unfold write_sync. rewrite Hsec. fold len. unfold blk_m in *. rewrite (wrap_small 64 (_ * b)), En by (rewrite En; split; lia).
  unfold mbind at 1, stm_bind at 1, sp_ask at 1. destruct (sp_buffer env (sp_tick s) (Z.to_nat len)) as [m|] eqn:Em.
  - pose proof (Hbuf _ _ _ Em) as Hm. rewrite Es, Z.sub_diag. change (Z.to_nat (u64 0)) with 0%nat. rewrite (proj2 (Nat.ltb_ge _ _)) by lia.
    assert (write_at m 0 bs = bs) as ->. { unfold write_at. rewrite drop_ge, app_nil_r by lia. done. }
    rewrite (wrap_small 32) by (split; lia). unfold mbind, stm_bind.
    match goal with |- context [cmd_write env q bs ?l ?n ?t] => destruct (cmd_write_piece q bs off l n t Es En) as (ok & s' & -> & H) end.
    eexists _, s'. split; [reflexivity|]. by destruct H as [[-> H]|(-> & H)]; [left|right].
  - eexists _, _. split; [reflexivity|]. right. split; [done|]. split; [by eapply no_buffer_not_obliging|].
    exists []. split; [cbn; lia|]. apply wrote_nil.
Qed.

Lemma read_sync_piece : reads_piece (read_sync env).
Proof.
  intros q buf off s len Ho Hl H0 Hle Hlt. destruct (lbas_aligned off len Ho Hl H0 ltac:(lia) Hlt) as (Es & En & Hn).
  unfold read_sync. rewrite Hsec. fold len. unfold blk_m in *. rewrite (wrap_small 64 (_ * b)), En by (rewrite En; split; lia).
  unfold mbind at 1, stm_bind at 1, sp_ask at 1. destruct (sp_buffer env (sp_tick s) (Z.to_nat len)) as [m|] eqn:Em.
  - pose proof (Hbuf _ _ _ Em) as Hm. rewrite (wrap_small 32) by (split; lia). unfold mbind, stm_bind. rewrite <- Em in Hm || idtac.
    match goal with |- context [cmd_read env q m ?l ?n ?t] => destruct (cmd_read_piece q m off l n t Es) as (r & s' & -> & Hd & H) end; [rewrite En; lia|].
    assert (length m = length buf) as Hml by lia.
    destruct H as [->|[-> H]]; [|eexists _, _, _; split; [reflexivity|]; split; [done|]; by right].
    rewrite Es, Z.sub_diag. change (Z.to_nat (u64 0)) with 0%nat. rewrite (proj2 (Nat.ltb_ge _ _)) by (rewrite dev_read_length; lia).
    rewrite drop_0, take_ge by (rewrite dev_read_length; lia). eexists _, _, _. split; [reflexivity|]. split; [done|]. left. by rewrite Hml.
  - eexists _, _, _. split; [reflexivity|]. split; [done|]. right. split; [done|]. by eapply no_buffer_not_obliging.
Qed.

Lemma native_lbas_eq off n : 0 <= off -> off + Z.of_nat n < 2 ^ 62 -> native_lbas b off n = lba_nr b off (Z.of_nat n).
Proof.
  intros Ho Hlt. pose proof sector_le. unfold native_lbas, lba_nr, udiv_round_up. rewrite (proj2 (Z.eqb_neq 0 b)) by lia. cbn [negb].
  rewrite (wrap_small 64 (off + Z.of_nat n)) by (split; lia). done.
Qed.

Lemma pwrite_native_piece : writes_piece (pwrite_native_fn env).
Proof.
  intros q bs off s len Ho Hl H0 Hle Hlt. destruct (lbas_aligned off len Ho Hl H0 ltac:(lia) Hlt) as (Es & En & Hn).
  unfold pwrite_native_fn, write_raw_sync. rewrite !Hsec, native_lbas_eq by done. fold len. unfold blk_m in *.
  rewrite (wrap_small 32) by (split; lia). unfold mbind, stm_bind.
  match goal with |- context [cmd_write env q bs ?l ?n ?t] => destruct (cmd_write_piece q bs off l n t Es En) as (ok & s' & -> & H) end.
  destruct H as [[-> H]|(-> & H)]; (eexists _, s'; split; [reflexivity|]); [left|by right].
  rewrite (proj2 (Z.ltb_ge _ _)), Z.eqb_refl by lia. done.
Qed.

Lemma pread_native_piece : reads_piece (pread_native_fn env).
Proof.
  intros q buf off s len Ho Hl H0 Hle Hlt. destruct (lbas_aligned off len Ho Hl H0 ltac:(lia) Hlt) as (Es & En & Hn).
  unfold pread_native_fn, read_raw_sync. rewrite !Hsec, native_lbas_eq by done. fold len. unfold blk_m in *.
  rewrite (wrap_small 32) by (split; lia). unfold mbind, stm_bind.
  match goal with |- context [cmd_read env q buf ?l ?n ?t] => destruct (cmd_read_piece q buf off l n t Es En) as (r & s' & -> & Hd & H) end.
  destruct H as [->|[-> H]]; (eexists _, _, s'; split; [reflexivity|]; split; [done|]); [left|by right].
  rewrite (proj2 (Z.ltb_ge _ _)), Z.eqb_refl by lia. done.
Qed.

(** ** Buffers *)

Context (nr : nat) (Hnr : (0 < nr)%nat).

(** The part of a buffer up to the end of the block. *)
Lemma cut_aligned off n : (b | off) -> (b | Z.of_nat n) -> 0 <= off ->
  let l := Nat.min n (Z.to_nat (blk_m - off mod blk_m)) in
  (b | Z.of_nat l) /\ off mod blk_m + Z.of_nat l <= blk_m /\ (b | dev_offset nr off) /\ 0 <= dev_offset nr off <= off /\ ((0 < n)%nat -> (0 < l)%nat).
Proof.
  intros Ho Hn H0 l. assert (0 < blk_m) as HB by (unfold blk_m; lia). pose proof (Z.mod_pos_bound off blk_m HB) as Hm.
  assert (b | off mod blk_m) as Hmod by (apply (Z.divide_add_cancel_r _ (blk_m * (off / blk_m))); [by apply Z.divide_mul_l|rewrite <- Z.div_mod by lia; done]).
  assert (Z.of_nat l = Z.of_nat n \/ Z.of_nat l = blk_m - off mod blk_m) as Hl by (unfold l; lia).
  split; [destruct Hl as [-> | ->]; [done|by apply Z.divide_sub_r]|]. split; [unfold l; lia|].
  split; [unfold dev_offset; apply Z.divide_add_r; [by apply Z.divide_mul_r|done]|]. split; [|unfold l; lia].
  destruct (stripe_split nr Hnr off H0) as [-> _]. pose proof (Z.div_mod off blk_m ltac:(lia)). pose proof (Z.div_pos off blk_m H0 HB).
  pose proof (Z.div_le_upper_bound (off / blk_m) (Z.of_nat nr) (off / blk_m) ltac:(lia) ltac:(nia)).
  pose proof (Z.div_pos (off / blk_m) (Z.of_nat nr) ltac:(lia) ltac:(lia)). nia.
Qed.

Lemma take_drop_divides n l : (b | Z.of_nat n) -> (b | Z.of_nat l) -> (l <= n)%nat -> (b | Z.of_nat (n - l)).
Proof. intros H1 H2 Hl. rewrite Nat2Z.inj_sub by done. by apply Z.divide_sub_r. Qed.

(** What a write to the array leaves: the bytes, or an error and nothing changed
    elsewhere. *)
Definition array_written (buf : list Z) (off : Z) (s : sp_st) (r ok : Z) (s' : sp_st) : Prop :=
  r = ok /\ (forall x, 0 <= x -> flat nr s' x = dev_write (flat nr s) off buf x) \/
  r = -1 /\ ~ obliging /\ forall x, 0 <= x -> x < off \/ off + Z.of_nat (length buf) <= x -> flat nr s' x = flat nr s x.

Lemma dev_write_outside d off bs x : x < off \/ off + Z.of_nat (length bs) <= x -> dev_write d off bs x = d x.
Proof. intros H. unfold dev_write. by replace ((off <=? x) && (x <? _)) with false by lia. Qed.

(** [pio] with a function that writes pieces writes to the array. *)
Lemma pio_writes f : writes_piece f -> forall fuel buf off tot s, (length buf <= fuel)%nat ->
  (b | off) -> (b | Z.of_nat (length buf)) -> 0 <= off -> off + Z.of_nat (length buf) < 2 ^ 62 ->
  exists r s', pio nr fuel f buf off tot s = Some ((r, buf), s') /\ array_written buf off s r (tot + Z.of_nat (length buf)) s'.
Proof.
  intros Hf. induction fuel as [|fuel IH]; intros buf off tot s Hfu Ho Hn H0 Hlt.
  { destruct buf; [|simpl in Hfu; lia]. exists tot, s. cbn. split; [done|]. left. split; [cbn; lia|]. intros x _. by rewrite dev_write_nil. }
  destruct buf as [|c buf']; [exists tot, s; split; [done|]; left; split; [cbn; lia|]; intros x _; by rewrite dev_write_nil|].
  set (buf := c :: buf') in *. assert (0 < length buf)%nat as Hpos by (simpl; lia).
  destruct (cut_aligned off (length buf) Ho Hn H0) as (Hl & Hfit & Hdo & Hdr & Hlp). set (l := Nat.min _ _) in *. specialize (Hlp Hpos).
  assert (l <= length buf)%nat as Hle by (unfold l; lia).
  destruct (Hf (offset_to_qpair nr off) (take l buf) (dev_offset nr off) s) as (r1 & s1 & E1 & Hw); rewrite ?length_take_le by done; try done; try lia.
  { pose proof (Z.mod_pos_bound off blk_m eq_refl). lia. }
  rewrite length_take_le in Hw by done. unfold buf at 1. cbn [pio]. fold buf. fold l. rewrite (proj2 (Nat.eqb_neq nr 0)) by lia.
  unfold mbind, stm_bind. rewrite E1. destruct Hw as [[-> Hw]|(-> & Hob & w & Hwl & Hw)].
  - destruct (IH (drop l buf) (off + Z.of_nat l) (tot + Z.of_nat l) s1) as (r & s2 & E2 & Hs2); rewrite ?length_drop; try lia.
    { by apply Z.divide_add_r. } { by apply take_drop_divides. }
    assert (forall x, 0 <= x -> flat nr s1 x = dev_write (flat nr s) off (take l buf) x) as Hs1.
    { intros x Hx. apply flat_write; try done. by rewrite length_take_le. }
    rewrite Z.eqb_refl. cbn [negb]. rewrite E2, take_drop. exists r, s2. split; [done|]. unfold array_written in *. rewrite length_drop in Hs2.
    destruct Hs2 as [[-> Hs2]|(-> & Hob & Hs2)]; [left|right].
    + split; [lia|]. intros x Hx. rewrite Hs2 by done. rewrite <- (take_drop l buf) at 2.
      rewrite <- (dev_write_split (flat nr s) off (take l buf) (drop l buf) x), length_take_le by done. by apply dev_write_ext, Hs1.
    + do 2 (split; [done|]). intros x Hx Ho'. rewrite Hs2, Hs1 by lia. apply dev_write_outside. rewrite length_take_le by done. lia.
  - rewrite (proj2 (Z.eqb_neq (-1) _)) by lia. cbn. rewrite take_drop. exists (-1), s1. split; [done|]. right. do 2 (split; [done|]).
    intros x Hx Ho'. rewrite (flat_write nr Hnr s s1 off w x) by (done || lia). apply dev_write_outside. lia.
Qed.

(** [pio] with a function that reads pieces reads from the array. *)
Lemma pio_reads f : reads_piece f -> forall fuel buf off tot s, (length buf <= fuel)%nat ->
  (b | off) -> (b | Z.of_nat (length buf)) -> 0 <= off -> off + Z.of_nat (length buf) < 2 ^ 62 ->
  exists r out s', pio nr fuel f buf off tot s = Some ((r, out), s') /\ sp_devs s' = sp_devs s /\
    (r = tot + Z.of_nat (length buf) /\ out = dev_read (flat nr s) off (length buf) \/ r = -1 /\ ~ obliging).
Proof.
  intros Hf. induction fuel as [|fuel IH]; intros buf off tot s Hfu Ho Hn H0 Hlt.
  { destruct buf; [|simpl in Hfu; lia]. exists tot, [], s. split; [done|]. split; [done|]. left. cbn. split; [lia|done]. }
  destruct buf as [|c buf']; [exists tot, [], s; split; [done|]; split; [done|]; left; cbn; split; [lia|done]|].
  set (buf := c :: buf') in *. assert (0 < length buf)%nat as Hpos by (simpl; lia).
  destruct (cut_aligned off (length buf) Ho Hn H0) as (Hl & Hfit & Hdo & Hdr & Hlp). set (l := Nat.min _ _) in *. specialize (Hlp Hpos).
  assert (l <= length buf)%nat as Hle by (unfold l; lia).
  destruct (Hf (offset_to_qpair nr off) (take l buf) (dev_offset nr off) s) as (r1 & out & s1 & E1 & Hd1 & H1); rewrite ?length_take_le by done; try done; try lia.
  { pose proof (Z.mod_pos_bound off blk_m eq_refl). lia. }
  rewrite length_take_le, (flat_read nr Hnr) in H1 by done.
  unfold buf at 1. cbn [pio]. fold buf. fold l. rewrite (proj2 (Nat.eqb_neq nr 0)) by lia. unfold mbind, stm_bind. rewrite E1.
  destruct H1 as [[-> ->]|[-> Hob]].
  - destruct (IH (drop l buf) (off + Z.of_nat l) (tot + Z.of_nat l) s1) as (r & rest & s2 & E2 & Hd2 & H2); rewrite ?length_drop; try lia.
    { by apply Z.divide_add_r. } { by apply take_drop_divides. }
    rewrite Z.eqb_refl. cbn [negb]. rewrite E2. eexists r, _, s2. split; [reflexivity|]. split; [congruence|].
    destruct H2 as [[-> ->]|H2]; [left|by right]. split; [rewrite length_drop; lia|]. unfold flat. rewrite Hd1, length_drop, <- dev_read_app.
    f_equal. lia.
  - rewrite (proj2 (Z.eqb_neq (-1) _)) by lia. eexists _, _, s1. split; [reflexivity|]. split; [done|]. by right.
Qed.

(** ** Vectors *)

(** Every buffer is made of whole sectors. *)
Definition sectors (iov : list (list Z)) : Prop := Forall (fun v => (b | Z.of_nat (length v))) iov.

Section Vectors.
Context (Hob : obliging).

Definition writes_vec (f : nat -> list (list Z) -> Z -> stm sp_st (Z * list Z)) : Prop :=
  forall q iov off s, let len := Z.of_nat (length (concat iov)) in
    sectors iov -> (b | off) -> 0 <= off -> len <= blk_m -> off + len < 2 ^ 62 ->
    exists s', f q iov off s = Some ((len, concat iov), s') /\ wrote q off (concat iov) s s'.

(** Both loops over a vector write its buffers one behind the other. *)
Lemma vec_loops g : writes_piece g -> forall q iov off tot s, let len := Z.of_nat (length (concat iov)) in
  sectors iov -> (b | off + tot) -> 0 <= off + tot -> len <= blk_m -> off + tot + len < 2 ^ 62 ->
  exists s', sync_vec g q iov off tot s = Some ((tot + len, concat iov), s') /\ native_vec g q iov off tot s = Some ((tot + len, concat iov), s') /\
    wrote q (off + tot) (concat iov) s s'.
Proof.
  intros Hg q iov off. induction iov as [|v iov IH]; intros tot s len Hv Ho H0 Hle Hlt.
  { exists s. unfold len. cbn. rewrite Z.add_0_r. split; [done|]. split; [done|]. destruct s. apply (wrote_nil _ _ (mkSp _ _)). }
  apply Forall_cons_iff in Hv as [Hv Hr]. unfold len in *. cbn [concat] in *. rewrite length_app, Nat2Z.inj_add in *.
  destruct (Hg q v (off + tot) s) as (r & s1 & E1 & [[-> Hw1]|(_ & [] & _)]); [done|done|done|lia|lia| |done].
  destruct (IH (tot + Z.of_nat (length v)) s1 Hr) as (s2 & E2 & E3 & Hw2); [rewrite Z.add_assoc; by apply Z.divide_add_r|lia|lia|lia|].
  exists s2. cbn [sync_vec native_vec]. unfold mbind, stm_bind. rewrite E1, Z.eqb_refl. cbn [negb].
  rewrite (proj2 (Z.eqb_neq (Z.of_nat (length v)) (-1))) by lia. rewrite E2, E3. unfold mret, stm_ret. rewrite Z.add_assoc.
  split; [done|]. split; [done|]. apply (wrote_app _ _ _ _ s s1); [done|]. by rewrite Z.add_assoc in Hw2.
Qed.

Lemma sync_vec_writes : writes_vec (sync_pwritev_fn env).
Proof.
  intros q iov off s len Hv Ho H0 Hle Hlt. destruct (vec_loops _ write_sync_piece q iov off 0 s) as (s' & E & _ & Hw); rewrite ?Z.add_0_r; try done.
  exists s'. unfold sync_pwritev_fn. rewrite E. by rewrite Z.add_0_r in Hw.
Qed.

Lemma native_vec_writes : writes_vec (pwritev_native_fn env).
Proof.
  intros q iov off s len Hv Ho H0 Hle Hlt. destruct (vec_loops _ pwrite_native_piece q iov off 0 s) as (s' & _ & E & Hw); rewrite ?Z.add_0_r; try done.
  exists s'. unfold pwritev_native_fn. rewrite E. by rewrite Z.add_0_r in Hw.
Qed.

Lemma gather_spec iov : forall n, sectors iov -> (b | Z.of_nat n) ->
  let '(bufs, k) := gather n iov in concat bufs = take n (concat iov) /\ k = Nat.min n (length (concat iov)) /\ sectors bufs.
Proof.
  induction iov as [|v iov IH]; intros n Hv Hn; cbn [gather].
  { cbn. rewrite take_nil. repeat split; [lia|constructor]. }
  apply Forall_cons_iff in Hv as [Hd Hv]. destruct (Nat.eqb_spec n 0) as [->|Hn0]; [by repeat constructor|].
  set (l := Nat.min n (length v)). assert (b | Z.of_nat l) as Hl by (unfold l; destruct (Nat.le_ge_cases n (length v)); [by rewrite Nat.min_l|by rewrite Nat.min_r]).
  assert (l <= n)%nat as Hln by (unfold l; lia). specialize (IH (n - l)%nat Hv (take_drop_divides n l Hn Hl Hln)).
  destruct (gather (n - l) iov) as [bufs k]. destruct IH as (Hc & Hk & HF). cbn [concat]. rewrite take_app, length_app, Hc, Hk.
  split; [|split; [unfold l; lia|constructor; [by rewrite length_take_le by (unfold l; lia)|done]]]. unfold l.
  destruct (Nat.le_ge_cases n (length v)).
  - rewrite Nat.min_l by done. f_equal. replace (n - n)%nat with (n - length v)%nat by lia. done.
  - rewrite Nat.min_r by done. by rewrite (take_ge v n), (take_ge v (length v)) by lia.
Qed.

(** What is left of a vector; an empty buffer at its end is never passed. *)
Lemma advance_spec iov : forall n, sectors iov -> (b | Z.of_nat n) -> (n <= length (concat iov))%nat ->
  exists iov', vec_advance n iov = (iov', 0%nat) /\ concat iov' = drop n (concat iov) /\ sectors iov' /\
    (list.last iov' = Some [] <-> list.last iov = Some []).
Proof.
  induction iov as [|v iov IH]; intros n Hv Hn Hle; cbn [vec_advance].
  { cbn in Hle. assert (n = 0%nat) as -> by lia. by exists []. }
  destruct (Nat.eqb_spec n 0) as [->|Hn0]; [by exists (v :: iov)|]. pose proof Hv as [Hd Hv']%Forall_cons_iff.
  cbn [concat] in *. rewrite length_app in Hle. destruct (Nat.eqb_spec (Nat.min n (length v)) (length v)) as [E|E].
  - destruct (IH (n - Nat.min n (length v))%nat Hv') as (iov' & Ea & Ec & HF & Hla); [rewrite E; apply take_drop_divides; [done|done|lia]|lia|].
    exists iov'. rewrite Ea. split; [done|]. split; [rewrite Ec, drop_app_ge by lia; by rewrite E|]. split; [done|]. rewrite Hla.
    destruct iov as [|w iov]; [|done]. cbn in Hle |- *. split; [done|]. intros [= ->]. cbn in Hle. lia.
  - exists (drop (Nat.min n (length v)) v :: iov). rewrite Nat.min_l by lia. split; [f_equal; lia|]. cbn [concat].
    split; [by rewrite drop_app_le by lia|]. split; [constructor; [|done]; rewrite length_drop; apply take_drop_divides; [done|done|lia]|].
    destruct iov as [|w iov]; [|done]. cbn. split; intros [= Hz]; apply (f_equal length) in Hz; rewrite ?length_drop in Hz; simpl in Hz; lia.
Qed.

Lemma block_rest off : (b | off) -> 0 <= off -> (b | Z.of_nat (Z.to_nat (blk_m - off mod blk_m))).
Proof.
  intros Ho H0. pose proof (Z.mod_pos_bound off blk_m eq_refl). destruct (cut_aligned off (Z.to_nat blk_m)) as (Hcd & _); [done|by rewrite Z2Nat.id|done|].
  by rewrite Nat.min_r in Hcd by lia.
Qed.

Lemma sectors_total iov : sectors iov -> (b | Z.of_nat (length (concat iov))).
Proof.
  induction 1 as [|w l Hw _ IH]; [by exists 0|]. cbn [concat]. rewrite length_app, Nat2Z.inj_add. by apply Z.divide_add_r.
Qed.

Lemma last_pos (v : list Z) (iov : list (list Z)) : list.last (v :: iov) <> Some [] -> (0 < length (concat (v :: iov)))%nat.
Proof.
  revert v. induction iov as [|w iov IH]; intros v Hl; cbn [concat]; rewrite length_app.
  - destruct v; [done|simpl; lia].
  - specialize (IH w Hl). cbn [concat] in IH. lia.
Qed.

(** One round of [piov] with a function that writes vectors: it writes to the block
    of [off], and the next round starts at [off] again. *)
Lemma piov_round f : writes_vec f -> forall fuel iov off tot s, iov <> [] -> sectors iov ->
  (b | off) -> 0 <= off -> off + Z.of_nat (length (concat iov)) < 2 ^ 62 ->
  let k := Nat.min (Z.to_nat (blk_m - off mod blk_m)) (length (concat iov)) in
  exists iov' s1, concat iov' = drop k (concat iov) /\ sectors iov' /\ (list.last iov' = Some [] <-> list.last iov = Some []) /\
    (forall x, 0 <= x -> flat nr s1 x = dev_write (flat nr s) off (take k (concat iov)) x) /\
    piov nr (S fuel) f iov off tot s =
      match piov nr fuel f iov' off (tot + Z.of_nat k) s1 with Some ((r, rest), s') => Some ((r, take k (concat iov) ++ rest), s') | None => None end.
Proof.
  intros Hf fuel iov off tot s Hne Hv Ho H0 Hlt k. pose proof (Z.mod_pos_bound off blk_m eq_refl) as Hm.
  set (c := Z.to_nat (blk_m - off mod blk_m)) in *. pose proof (block_rest off Ho H0) as Hc. fold c in Hc.
  pose proof (gather_spec iov c Hv Hc) as Hg. destruct (gather c iov) as [bufs k'] eqn:Eg. destruct Hg as (Hcb & Hk & HFb). fold k in Hk. subst k'.
  assert (concat bufs = take k (concat iov)) as Hcb'.
  { rewrite Hcb. unfold k. destruct (Nat.le_ge_cases c (length (concat iov))); [by rewrite Nat.min_l|by rewrite Nat.min_r, !take_ge by lia]. }
  assert (length (concat bufs) = k) as Hlk by (rewrite Hcb', length_take; lia).
  destruct (cut_aligned off (length (concat iov))) as (Hkd & Hfit & Hdo & Hdr & _); [done|by apply sectors_total|done|].
  fold c in Hkd, Hfit. rewrite Nat.min_comm in Hkd, Hfit. fold k in Hkd, Hfit.
  destruct (Hf (offset_to_qpair nr off) bufs (dev_offset nr off) s) as (s1 & E1 & Hw1); rewrite ?Hlk; try done; try lia.
  destruct (advance_spec iov k Hv Hkd ltac:(lia)) as (iov2 & Ea & Ec & Hv2 & Hla).
  exists iov2, s1. do 3 (split; [done|]). split.
  - intros x Hx. rewrite <- Hcb'. apply flat_write; try done. by rewrite Hlk.
  - destruct iov as [|v iov]; [done|]. cbn [piov]. rewrite (proj2 (Nat.eqb_neq nr 0)) by lia. fold c. rewrite Eg.
    unfold mbind, stm_bind. rewrite E1, Hlk, Z.eqb_refl. cbn [negb]. rewrite Ea, Z.add_0_r, Hcb'. by destruct (piov _ _ _ _ _ _) as [[[r rest] s']|].
Qed.

(** All rounds go to the block of [off]. *)
Lemma piov_writes f : writes_vec f -> forall fuel iov off tot s, sectors iov -> list.last iov <> Some [] -> (length (concat iov) <= fuel)%nat ->
  (b | off) -> 0 <= off -> off + Z.of_nat (length (concat iov)) < 2 ^ 62 ->
  exists s', piov nr fuel f iov off tot s = Some ((tot + Z.of_nat (length (concat iov)), concat iov), s') /\
    (forall x, 0 <= x -> x < off \/ off - off mod blk_m + blk_m <= x -> flat nr s' x = flat nr s x) /\
    (off mod blk_m + Z.of_nat (length (concat iov)) <= blk_m -> forall x, 0 <= x -> flat nr s' x = dev_write (flat nr s) off (concat iov) x).
Proof.
  intros Hf. induction fuel as [|fuel IH]; intros iov off tot s Hv Hl Hfu Ho H0 Hlt; (destruct iov as [|v iov'];
    [exists s; cbn; rewrite Z.add_0_r; split; [done|]; split; [done|]; intros _ x _; by rewrite dev_write_nil|]).
  { pose proof (last_pos _ _ Hl). lia. }
  pose proof (last_pos _ _ Hl) as Hpos. set (iov := v :: iov') in *. pose proof (Z.mod_pos_bound off blk_m eq_refl) as Hm.
  destruct (piov_round f Hf fuel iov off tot s ltac:(done) Hv Ho H0 Hlt) as (iov2 & s1 & Ec & Hv2 & Hla & Hfl & E). set (k := Nat.min _ _) in *.
  destruct (IH iov2 off (tot + Z.of_nat k) s1 Hv2) as (s2 & E2 & Hout & _); rewrite ?Ec, ?length_drop; try done; try lia; [by rewrite Hla|].
  exists s2. split; [|split].
  - rewrite E, E2, Ec, take_drop, length_drop. do 3 f_equal. lia.
  - intros x Hx Hr. rewrite Hout, Hfl by done. apply dev_write_outside. rewrite length_take. lia.
  - intros Hone x Hx. assert (k = length (concat iov)) as Hk by (unfold k; lia). assert (iov2 = []) as ->.
    { destruct iov2 as [|w r]; [done|]. pose proof (last_pos w r ltac:(by rewrite Hla)). apply (f_equal length) in Ec. rewrite length_drop in Ec. lia. }
    assert (s2 = s1) as -> by (destruct fuel; cbn in E2; by injection E2).
    rewrite Hfl, take_ge by (done || lia). done.
Qed.

(** With an empty buffer at the end the rounds never end. *)
Lemma piov_stuck f : writes_vec f -> forall fuel iov off tot s, sectors iov -> list.last iov = Some [] ->
  (b | off) -> 0 <= off -> off + Z.of_nat (length (concat iov)) < 2 ^ 62 -> piov nr fuel f iov off tot s = None.
Proof.
  intros Hf. induction fuel as [|fuel IH]; intros iov off tot s Hv Hl Ho H0 Hlt; [by destruct iov|].
  destruct (piov_round f Hf fuel iov off tot s) as (iov2 & s1 & Ec & Hv2 & Hla & _ & ->); try done; [by intros ->|].
  rewrite IH; try done; [by rewrite Hla|]. rewrite Ec, length_drop. lia.
Qed.

End Vectors.

End Io.

(** ** Theorems *)

(** Sectors of [b] bytes that divide a block, and buffers of the size asked for. *)
Record sp_sane (env : sp_env) (b : Z) : Prop := {
  sps_pos : 0 < b;
  sps_div : (b | blk_m);
  sps_sector q : sp_sector env q = b;
  sps_buf t n m : sp_buffer env t n = Some m -> length m = n
}.

(** Every byte of the array has its own place, within the size of its device when the
    sizes are made of whole blocks, and every place of a device holds a byte of the
    array. *)
Theorem stripes_bijective (nr : nat) (size : nat -> Z) : (0 < nr)%nat ->
  (forall q, (q < nr)%nat -> (blk_m | size q) /\ 0 < size q /\ size q * Z.of_nat nr < 2 ^ 64) ->
  (forall a, 0 <= a < get_size nr size -> let q := offset_to_qpair nr a in
     (q < nr)%nat /\ 0 <= dev_offset nr a < size q /\ address nr q (dev_offset nr a) = a) /\
  (forall q o, (q < nr)%nat -> 0 <= o -> offset_to_qpair nr (address nr q o) = q /\ dev_offset nr (address nr q o) = o).
Proof.
  intros Hnr Hsz. split; [|intros q o Hq Ho; by destruct (of_address nr Hnr q o Hq Ho)].
  assert (forall l, (forall q, q ∈ l -> (blk_m | size q) /\ 0 < size q /\ size q * Z.of_nat nr < 2 ^ 64) -> let m := foldr (fun q m => Z.min (size q) m) (2 ^ 64 - 1) l in
    (forall q, q ∈ l -> m <= size q) /\ (l = [] \/ (blk_m | m) /\ 0 < m /\ m * Z.of_nat nr < 2 ^ 64)) as Hmin.
  { induction l as [|q l IH]; intros Hl; cbn [foldr].
    { split; [intros q Hq; by apply elem_of_nil in Hq|by left]. }
    destruct (Hl q ltac:(by left)) as (Hd & Hp & Ho). destruct IH as [Hle Hcase]; [intros x Hx; apply Hl; by right|]. split.
    - intros x [->|Hx]%elem_of_cons; [lia|]. specialize (Hle x Hx). lia.
    - right. destruct Hcase as [->|(Hd' & Hp' & Ho')]; [cbn [foldr]; rewrite Z.min_l by nia; done|].
      destruct (Z.min_spec (size q) (foldr (fun q m => Z.min (size q) m) (2 ^ 64 - 1) l)) as [[_ ->]|[_ ->]]; done. }
  intros a [Ha Hlt] q. destruct (Hmin (seq 0 nr)) as [Hle [Hn|(Hd & Hp & Ho)]].
  { intros x Hx. apply elem_of_seq in Hx. apply Hsz. lia. } { destruct nr; [lia|done]. }
  unfold get_size in Hlt. set (m := foldr _ _ _) in *. rewrite wrap_small in Hlt by (split; nia).
  destruct (stripe_split nr Hnr a Ha) as [Eo Eq]. pose proof (Z.mod_pos_bound (a / blk_m) (Z.of_nat nr) ltac:(lia)) as Hq.
  fold q in Eq. assert (q < nr)%nat as Hqn by lia. split; [done|]. split; [|by apply address_of].
  pose proof (Z.mod_pos_bound a blk_m eq_refl) as Hm. pose proof (Z.div_pos a blk_m Ha eq_refl) as Hk.
  pose proof (Z.div_pos (a / blk_m) (Z.of_nat nr) Hk ltac:(lia)) as Hj. rewrite Eo. split; [unfold blk_m in *; nia|].
  enough (a / blk_m / Z.of_nat nr * blk_m + a mod blk_m < m) by (specialize (Hle q ltac:(apply elem_of_seq; lia)); lia).
  destruct Hd as [M HM]. assert (a / blk_m / Z.of_nat nr < M); [|unfold blk_m in *; nia].
  apply Z.div_lt_upper_bound; [lia|]. apply Z.div_lt_upper_bound; [done|]. rewrite HM in Hlt. nia.
Qed.

(** C23: An array of devices is one device.  A write of whole sectors at a sector
    boundary, with the synchronous or the native functions, returns the number of
    bytes and changes exactly these bytes of the array, however many blocks and
    devices they lie on; or it returns -1, and then a command or an allocation of a
    buffer failed and no byte outside the range changed.  A read of whole sectors at
    a sector boundary changes nothing, and returns the number of bytes with the bytes
    of the array, or -1 when a command or an allocation failed.  The devices have one
    sector size, which divides the block of 8 KiB. *)
Theorem array_is_one_device (env : sp_env) (b : Z) (nr : nat) (buf : list Z) (off : Z) (s : sp_st) :
  sp_sane env b -> (0 < nr)%nat -> (b | off) -> (b | Z.of_nat (length buf)) -> 0 <= off -> off + Z.of_nat (length buf) < 2 ^ 62 ->
  let len := Z.of_nat (length buf) in
  (exists r s', array_pwrite env nr (length buf) buf off s = Some ((r, buf), s') /\ array_written env nr buf off s r len s') /\
  (exists r s', pwrite_native env nr (length buf) buf off s = Some ((r, buf), s') /\ array_written env nr buf off s r len s') /\
  (exists r out s', array_pread env nr (length buf) buf off s = Some ((r, out), s') /\ sp_devs s' = sp_devs s /\
     (r = len /\ out = dev_read (flat nr s) off (length buf) \/ r = -1 /\ ~ obliging env)) /\
  (exists r out s', pread_native env nr (length buf) buf off s = Some ((r, out), s') /\ sp_devs s' = sp_devs s /\
     (r = len /\ out = dev_read (flat nr s) off (length buf) \/ r = -1 /\ ~ obliging env)).
Proof.
  intros [Hb Hd Hsec Hbuf] Hnr Ho Hl H0 Hlt len.
  split; [|split; [|split]]; [eapply pio_writes; [..|apply write_sync_piece|reflexivity| | | |]|eapply pio_writes; [..|apply pwrite_native_piece|reflexivity| | | |]|
    eapply pio_reads; [..|apply read_sync_piece|reflexivity| | | |]|eapply pio_reads; [..|apply pread_native_piece|reflexivity| | | |]]; eassumption.
Qed.

Definition sp_sample : sp_env := mkSpEnv (fun _ => 512) (fun _ => CmdOk) (fun _ n => Some (replicate n 0)).
Definition sp_zero : sp_st := mkSp (fun _ _ => 0) 0.

Lemma sp_sample_sane : sp_sane sp_sample 512.
Proof. split; try done; [by exists 16|]. intros t n m [= <-]. apply length_replicate. Qed.

Lemma sp_sample_obliging : obliging sp_sample.
Proof. done. Qed.

(** A block and a half from the middle of a block on, on two devices. *)
Definition sp_buf : list Z := replicate (Z.to_nat 12288) 5.

Lemma sp_buf_length : Z.of_nat (length sp_buf) = 12288.
Proof. unfold sp_buf. rewrite length_replicate. lia. Qed.

Lemma array_is_one_device_witness :
  exists s', array_pwrite sp_sample 2 (length sp_buf) sp_buf 4096 sp_zero = Some ((Z.of_nat (length sp_buf), sp_buf), s') /\
    forall x, 0 <= x -> flat 2 s' x = dev_write (flat 2 sp_zero) 4096 sp_buf x.
Proof.
  destruct (array_is_one_device sp_sample 512 2 sp_buf 4096 sp_zero) as [(r & s' & E & [[-> H]|(_ & [] & _)]) _];
    [exact sp_sample_sane|lia|by exists 8|rewrite sp_buf_length; by exists 24|lia|rewrite sp_buf_length; lia|exists s'; split; [exact E|exact H]|exact sp_sample_obliging].
Defined.


(** Two blocks from two buffers. *)
Definition sp_iov : list (list Z) := [replicate (Z.to_nat 8192) 5; replicate (Z.to_nat 8192) 6].

Lemma sp_iov_length : Z.of_nat (length (concat sp_iov)) = 16384.
Proof. unfold sp_iov. cbn [concat]. rewrite !length_app, !length_replicate. simpl length. lia. Qed.

